(* ===== verification/_CoqProject ===== *)
-Q . S2P
Prelude.v
GoInt.v
GoFloat.v
GoFloatRound.v
GoFloatBound.v
GoStrconv.v
QuantityMath.v
Quantity.v
QuantityProofs.v
QuantityString.v
ApiTypes.v
Labels.v
LabelParser.v
LabelRoundTrip.v
NodeAffinity.v
Resource.v
AffinityTerms.v
HostPorts.v
NodeInfo.v
Samples.v
NodeInfoProofs.v
Json.v
Framework.v
Snapshot.v
Hicev1.v
Hicev1Proofs.v
ImageTool.v
ImageToolProofs.v
NodeResourcesFit.v
Hicev2.v
Hicev2Proofs.v
NodeTree.v
HeapList.v
Heap.v
HeapProofs.v
SchedulingQueue.v
QueueProofs.v
QueueRefine.v
NominatorProofs.v
Runtime.v
NodePlugins.v
ScorePlugins.v
InterPodAffinity.v
InterPodProofs.v
PodTopologySpread.v
SpreadProofs.v
SpreadScore.v
Cache.v
CacheProofs.v
CacheSnapshot.v
GenericScheduler.v
GenericProofs.v
FilterLoop.v
ScoreProofs.v
NodeResourcesScore.v
ResourceScoreProofs.v
ScheduleProofs.v
HiceProfile.v
Scheduler.v
Preemption.v
PreemptionProofs.v
PreemptionView.v
PreemptCycle.v
EventHandlers.v
PluginSets.v
DefaultsV1beta1.v
DefaultsV1beta2.v
Profiles.v
ProfileProofs.v
HiceCycle.v
EventProofs.v
Protocol.v
SchedulerProofs.v
EndToEnd.v
WholeSystem.v
HandlerSteps.v
WholeProofs.v
WholeExample.v
MHice.v
MHiceProofs.v
