(* ===== verification/Prelude.v ===== *)
(** * KubeHICE: a verification of its scheduler

    KubeHICE is a Kubernetes 1.22 whose scheduler places pods on clusters of
    heterogeneous machines: nodes of several instruction set architectures
    and of different single-thread performance.  This library models the
    scheduling plugins that KubeHICE adds and the parts of the Kubernetes
    scheduler they run in, and proves what makes them correct.

    ** The program's parts and how they interact

    The informers report pods and nodes to event handlers
    (src/pkg/scheduler/eventhandlers.go): pods with a node and nodes go to
    the scheduler cache (internal/cache), which keeps a [NodeInfo] per node,
    its pods, the sums of their requests, the host ports and the claims they
    use; pods without a node go to the scheduling queue (internal/queue),
    which holds the active ones in a keyed heap, those that back off in
    another, and the unschedulable ones in a map, and keeps the nominations
    of preempting pods.  A scheduling cycle (scheduler.go) takes the next
    pod, and the generic scheduler (generic_scheduler.go) works on a snapshot
    of the cache and calls the plugins through the framework runtime
    (framework/runtime): PreFilter once, Filter in parallel for the nodes in
    rotation until enough are found, Score for these, and picks one of the
    best.  If no node passes, the PostFilter plugin DefaultPreemption tries, on
    copies of the nodes, which pods of lower priority would have to go, picks
    the node where that costs least, deletes the victims and nominates the
    node.  The cycle otherwise assumes the pod in the cache and runs Reserve and Permit;
    a goroutine of its own waits for permits and binds the pod.  A failure
    anywhere undoes the steps and puts the pod back into the queue.  A plugin
    keeps what its calls share in the [CycleState] of the cycle and answers
    with a [Status].

    The plugin Hicev1 reads the list of multi-arch images kept in etcd,
    admits the nodes for whose architecture every container has an image, and
    binds a pod by rewriting its images, and its node name, in etcd; images
    that the list does not have it puts on a second list, and a tool beside
    the scheduler (kubehice-tools/container-manifests) asks docker for these
    and completes the first.  Hicev2
    does the same and reads the CPU request of a pod as given for a reference
    node of performance [hice.kb]: on a node of performance [hice.kj] it is
    [request * kb / kj], which it uses for filtering and scoring and writes
    into the pod it binds.  NodeResourcesFit is the upstream plugin whose
    filter Hicev2 replaces.  MHice schedules the services of an application
    by the graph of their calls: it orders the queue, holds a pod back until
    the service it is connected to best is deployed, and scores nodes by the
    delay to the deployed services.

    ** Files

    Language and libraries.
    - Prelude: outcomes of calls that may panic, the notation for sequencing
      them, generic lemmas, tactics and the hint database.
    - GoInt: int64 and int32 with wrap-around.
    - GoFloat, GoFloatRound, GoFloatBound: float64 on the
      standard library's executable [spec_float], with canonicity of results,
      comparison, and bounds on rounded results and square roots; the conversions to int64 that Go leaves to
      the platform are the class [GoArch], with the instances amd64 and
      arm64.
    - GoStrconv: Itoa, ParseInt, ParseFloat, and package strings.
    - Json: encoding/json for the documents kept in etcd.
    - HeapList: container/heap.

    Data of the API.
    - QuantityMath, Quantity, QuantityProofs: resource.Quantity
      (staging/src/k8s.io/apimachinery/pkg/api/resource: math.go, amount.go,
      quantity.go, suffix.go, scale_int.go); QuantityString: their
      text.
    - ApiTypes: pods, nodes and their parts (staging/src/k8s.io/api/core/v1),
      and the classification of resource names.
    - Labels: label selectors (apimachinery/pkg/labels/selector.go and
      metav1/helpers.go); LabelParser, LabelRoundTrip: their
      textual form.
    - NodeAffinity: node selectors (component-helpers/scheduling/corev1/
      nodeaffinity) and field selectors (apimachinery/pkg/fields).

    The framework (src/pkg/scheduler/framework).
    - Resource, HostPorts, AffinityTerms, NodeInfo, NodeInfoProofs: types.go
      and util/non_zero.go.
    - Framework: interface.go (statuses and their merging), cycle_state.go,
      and the interfaces [EtcdService] and [PodCodec] to the etcd client and
      to the protobuf codec, which are parameters of the plugins.
    - Runtime: runtime/framework.go and runtime/waiting_pods_map.go; a plugin
      is a record of its functions.

    The cache and the queue (src/pkg/scheduler/internal).
    - Snapshot: cache/snapshot.go.   - NodeTree: cache/node_tree.go.
    - Cache, CacheProofs, CacheSnapshot: cache/cache.go; the last
      one is about [UpdateSnapshot].
    - Heap, HeapProofs: heap/heap.go.
    - SchedulingQueue, QueueProofs, QueueRefine, NominatorProofs:
      queue/scheduling_queue.go and queue/events.go.

    The plugins (src/pkg/scheduler/framework/plugins).
    - Hicev1, Hicev1Proofs: hicev1/hice.go.
    - Hicev2, Hicev2Proofs: hicev2/hice.go and hicev2/fit.go.
    - NodeResourcesFit: the filter of noderesources/fit.go;
      NodeResourcesScore, ResourceScoreProofs: the scoring strategies of
      noderesources, helper/shape_score.go and their validation.
    - NodePlugins: nodename, nodeports, nodeunschedulable, tainttoleration,
      nodeaffinity and helper/normalize_score.go.
    - ScorePlugins: imagelocality and nodelabel.
    - AffinityTerms has the cycle state of the next two;
      InterPodAffinity, InterPodProofs: interpodaffinity;
      PodTopologySpread, SpreadProofs (filtering) and SpreadScore (scoring
      and validation): podtopologyspread.
    - Preemption: defaultpreemption/default_preemption.go, candidate.go and
      util/utils.go; PreemptionProofs (the choice of a node, and the
      dry run on a node, for filters that judge a node by its pods, class
      [VerdictOfPods]), PreemptionView (the profiles for which that holds)
      and PreemptCycle (a whole PostFilter call).
    - MHice, MHiceProofs: mhice/mhice.go.
    - ImageTool, ImageToolProofs: the tools that keep the document of
      multi-arch images (kubehice-tools/container-manifests and
      multi-arch-images).
    - HiceProfile: the plugins of KubeHICE as plugins of the framework, and a
      small profile of nothing else for evaluations.

    The scheduler (src/pkg/scheduler).
    - GenericScheduler: generic_scheduler.go, with GenericProofs (selectHost
      and the number of nodes), FilterLoop (the parallel search), ScoreProofs
      (scores) and ScheduleProofs (a whole call of [Schedule]).
    - Scheduler, SchedulerProofs: scheduler.go and the error function of
      factory.go.
    - EventHandlers, EventProofs: eventhandlers.go.
    - PluginSets, DefaultsV1beta1, DefaultsV1beta2: the plugins of a
      configuration and their merging with the default ones (apis/config).
      Profiles, ProfileProofs: the construction of frameworks
      (runtime/framework.go, runtime/registry.go, profile/profile.go), and
      that of the README's configuration; HiceCycle: the cycles of the
      framework that this configuration gives.
    - EndToEnd: one run of the scheduler with the plugins of KubeHICE, from the
      queue to etcd.
    - Protocol: an abstract protocol on where pods are, the specification of
      the whole scheduler, and its invariant.  WholeSystem: the scheduler with
      everything that runs at the same time ([Run] of scheduler.go, the
      handlers that addAllEventHandlers registers, the timers of the queue and
      the cache), as a machine whose steps are calls of the code, and the map
      from its states to the protocol's, with a bound on the generations that
      a cycle uses.  HandlerSteps (the operations of the cache, handlers and
      timers) prepares the simulation, WholeProofs has it and what follows;
      WholeExample is the life of one pod.

    Samples holds the concrete objects on which witnesses evaluate.

    ** How the code is modelled

    A Go function is a Gallina function with the same branches.  A call that
    may panic returns an [outcome]; an [error] result is an optional string;
    a plugin's answer is an optional status, [None] being success.  Objects
    that the code mutates through pointers are passed and returned; where
    aliasing matters the shared store is explicit: the [PVCRefCounts] maps
    that [Clone] shares (NodeInfo), the linked items of the cache (Cache),
    the pointers from a snapshot's lists into its map (Snapshot), and the
    [PodInfo] objects that the queue shares with the nominator, which carry
    addresses (SchedulingQueue).  Maps are [gmap]s.  Where the code iterates
    over a map and the order could be seen, the definition takes the order
    from the class [MapRange], any permutation for every loop, so that the
    theorems hold for all orders; the class [Parallel] does the same for the
    order of the pieces of a parallel loop, and for the pieces that still run
    after it was cancelled.  The state of etcd, or of whatever the plugins of
    a profile talk to, is threaded through their calls.  Mutexes make
    operations atomic steps, and the concurrent histories of a component are
    sequences of steps of an inductive relation ([cache_reachable],
    [nt_reachable] and the like).  The binding goroutine is a machine with a
    stage for each call that may take long.  In the whole scheduler
    ([cluster_step]) a scheduling cycle is three steps, the pod is popped, the
    algorithm decides, the decision is carried out, and the stages of binding
    cycles, the handlers of pods, each with its own position in the sequence
    of events, that of nodes, other events and the timers run in between.
    Within a step the calls of one goroutine are not interrupted.

    ** What the theorems show

    - The whole scheduler follows the protocol under any interleaving
      (scheduler_refines_protocol): no pod that has to be scheduled is
      forgotten and the cache accounts for the right pods (no_pod_forgotten),
      nothing panics (scheduler_never_panics), and pending events do not keep
      a pod from the queue (handler_catches_up).  What this relies on, of the
      API server's client and of the plugins, is the record [surroundings],
      and the changes that informers report are [legal]: an update keeps the
      UID of the pod.
    - One cycle: it always returns and loses no pod
      (scheduleOne_no_pod_lost, binding_no_pod_lost); it suggests a node that
      passed the filters with the best total score of those that the search
      found, which are all that pass or as many as it looks for, or explains
      for every node why not (Schedule_correct); the search for feasible nodes is right
      for every order of its pieces (findNodes_correct), ties are drawn
      uniformly (selectHost_uniform), and totals do not overflow
      (total_score_exact).  With the README's configuration the suggested node
      has images for the pod and, in its own units, room for the converted
      CPU request, whatever the other plugins do (hice_Schedule).
    - The queue refines a map from pods to places (Queue_refines), no pod
      waits for ever (no_starvation, backoff_spec), and nominations stay
      consistent (nominator_update_spec).
    - Event handlers: an event leaves its pod where it belongs, in either
      order of the two handlers, also when a deletion and an addition come as
      one update (pod_event_routed); the screen for node events is what five
      of the default filters compute (preCheck_agrees).
    - Hicev1: PreFilter followed by Filter admits exactly the nodes whose
      architecture every container has an image for
      (PreFilter_then_Filter, PodAvailableArch_spec); Bind stores the pod that
      etcd had with converted images, node name and condition and nothing else
      changed (Bind_correct), and
      failures leave etcd as it was (Bind_failure); the document of
      unavailable images is updated without loss
      (UpdateUnAvailableImageData_spec).
    - The image tool resolves what the plugin could not
      (unknown_images_resolved); it lets the document of images only grow,
      under any interleaving with writers of other keys, and keeps it readable
      beside others that write it (images_only_grow).
    - Hicev2: on clusters of equal performance it is NodeResourcesFit
      (Hicev2_refines_Fit); admitted pods, those that are not annotated, do not
      overcommit the converted CPU of a node (Hicev2_no_overcommit); the CPU amounts written into a pod
      are the converted ones (ConvertPodCpu_spec, Hicev2_Bind_correct); what
      the scores are (Hicev2_Score_spec, hiceLevel_spec) and that they are
      legal (Hicev2_Score_legal).
    - NodeResourcesFit and the plugins about one node: the filter is exact
      and does not overcommit (Fit_Filter_spec, Fit_no_overcommit); selectors
      mean what the API says (LabelSelector_meaning,
      RequiredNodeAffinity_meaning), and are read back as they are printed
      (Parse_String, Parse_total); normalized scores are legal
      (DefaultNormalizeScore_legal, TaintToleration_score_spec).  NodeLabel
      admits and scores by the labels a node has (NodeLabel_meaning), and
      ImageLocality gives legal scores whatever sizes are reported
      (ImageLocality_Score_legal).
    - Scores of node resources are legal for every configuration that is
      accepted (resource_scores_legal), those of InterPodAffinity and
      PodTopologySpread too (IPA_scores_legal, Spread_scores_legal).
    - InterPodAffinity and PodTopologySpread: what the filters decide on the
      snapshot, and when that is the documented rule (IPA_Filter_meaning,
      Spread_Filter_meaning), and
      the updates in place that preemption relies on agree with a computation
      anew (IPA_incremental, Spread_incremental).
    - Preemption, for profiles whose filters judge a node by itself: the
      victims on a node are the best choice in the documented order
      (selectVictims_optimal), and a whole call evicts only what makes room on
      the node it nominates (PostFilter_preempts); the node is the least by
      criteria that are the documented ones if victims are ordered by priority
      (pickOne_least).
    - MHice: PreFilter admits the services in the order of Prim's algorithm
      for a maximum spanning tree of the calls, but for the service with the
      largest traffic, which it always lets pass (PreFilter_prim), and never
      blocks a connected application (PreFilter_progress); scores are legal
      (MHice_Score_range); what the queue order is (MHice_Less_order).
    - NodeInfo: what every reachable node accounts for, its pods' requests and
      what removals with another request left over (NodeInfo_sums_reachable), adding and removing cancel
      (AddPod_RemovePod), host port conflicts (CheckConflict_spec).
    - Cache, node tree and heap: an invariant of every reachable cache
      (cache_consistent), absence of panics (cache_no_panic), the incremental
      snapshot equals a full copy of the live nodes (UpdateSnapshot_correct),
      the node order is complete and its loop terminates
      (nodeTree_list_correct), the keyed heap refines a priority queue
      (Heap_refines).
    - Quantities: comparison, addition and scaling agree with rational
      arithmetic where nothing overflows, and say so where it does; what is
      printed is read back as the same amount (Quantity_String_Parse).
    - Profiles: for which configurations a framework is built, and with which
      plugins (NewFramework_correct, NewMap_correct, merge_meaning); what the
      README's configuration gives (readme_framework).
    - Behaviours that a user of the code should know of are theorems too:
      annotated_pods_undercounted, rebound_pod_accounting_drift,
      new_fast_node_missed, missing_node_stays, recreated_pod_leaks,
      nominated_node_resets_rotation, negative_label_blocks_scheduling,
      Clone_shares_PVCRefCounts, PreFilter_dial_failure,
      MHice_queue_disagrees, MHice_full_node_score,
      PreFilter_refuses_replicas, overhead_in_cores,
      Fit_scores_without_overhead, Fit_ratio_without_shape,
      Spread_AddPod_panics, Spread_RemovePod_terminating,
      first_of_group_repeated, excluded_nodes_counted,
      unordered_victims_misjudged, busiest_service_jumps,
      fractions_not_rounded,
      dry_run_changes_claims, recorded_image_lost, failed_update_forgets,
      empty_entry_hides, bad_yaml_erases,
      double_comma_rejected, Nothing_reads_as_Everything,
      zero_byte_truncates, converted_images_not_local,
      thousand_E_prints_as_one, reenabled_default_refused,
      readme_in_v1beta2_scores_Fit.

    ** Bounds and fuel

    Integers are kept at their width and theorems about sums carry the bound
    under which nothing wraps; the counter of generations, which every change
    of a node advances, is assumed to have room for the steps of a run
    ([room], [spare], [cycle_fits]).  Loops that are not structural take fuel from
    a measure of their input: the sift loops and the flush of the backoff
    queue the length of the heap, the node tree's list a pass per node, the
    JSON parser and the lexer of selectors the length of the text, the quantity and float parsers the
    length of the digits, the walk along the cache's list the number of
    nodes; the theorems prove that this is enough (nodeTree_list_correct,
    Heap_refines, Queue_refines, the round trips), or state the result on
    every input.

    ** What is not modelled

    Marshalling of quantities, the plugins about volumes,
    SelectorSpread, ServiceAffinity and NodePreferAvoidPods, decoding and validation
    of configuration files, the shutdown of the scheduler, duplicate keys and non-ASCII text in the JSON documents, the
    monitoring and benchmark tools of KubeHICE, metrics, events and logging.
    Services outside the scheduler, etcd, the API server, informers,
    listers and extenders, are parameters, and so is [math.Log].  The whole
    scheduler runs without extenders, and while the nodes that API errors are
    about exist (what happens otherwise is missing_node_stays).  The rest of
    Kubernetes is unmodified upstream code outside the scheduler. *)

From stdpp Require Export base gmap strings list fin_maps sets sorting pretty.
From Stdlib Require Export ZArith Lia Ascii String.
(** stdpp's list functions, not those of [String], answer to the short names. *)
From stdpp Require Export base list strings.


#[global] Open Scope Z_scope.

(** ** Outcomes of Go code

    A Go call either returns its results or panics; errors are ordinary
    results.  [outcome] keeps the two apart. *)
Inductive outcome (A : Type) : Type :=
| Ret (a : A)
| Panic (msg : string).
Arguments Ret {A} a.
Arguments Panic {A} msg.

Definition obind {A B} (x : outcome A) (f : A -> outcome B) : outcome B :=
  match x with Ret a => f a | Panic m => Panic m end.

Declare Scope go_scope.
Delimit Scope go_scope with go.
Notation "'let!' x := e 'in' k" := (obind e (fun x => k))
  (at level 200, x pattern, right associativity) : go_scope.

(** Go's [for _, x := range l { b = f(b, x) }] with a body that may panic. *)
Fixpoint ofold {A B} (f : B -> A -> outcome B) (l : list A) (b : B) : outcome B :=
  match l with
  | [] => Ret b
  | x :: l' => obind (f b x) (ofold f l')
  end.

(** The Go [error] interface: [None] is [nil]. *)
Abbreviation error := (option string).

(** ** Tactics *)

(** Splits the innermost [match]/[if] of the goal, keeping equations. *)
Ltac split_match :=
  match goal with
  | |- context [match ?x with _ => _ end] =>
      lazymatch x with
      | context [match _ with _ => _ end] => fail
      | _ => destruct x eqn:?
      end
  end.

(** Turns boolean comparisons on [Z] into propositions. *)
Ltac zify_bool :=
  repeat match goal with
  | H : (_ =? _) = true |- _ => apply Z.eqb_eq in H
  | H : (_ =? _) = false |- _ => apply Z.eqb_neq in H
  | H : (_ <? _) = true |- _ => apply Z.ltb_lt in H
  | H : (_ <? _) = false |- _ => apply Z.ltb_ge in H
  | H : (_ <=? _) = true |- _ => apply Z.leb_le in H
  | H : (_ <=? _) = false |- _ => apply Z.leb_gt in H
  | H : (_ && _) = true |- _ => apply andb_true_iff in H as [? ?]
  | H : (_ || _) = false |- _ => apply orb_false_iff in H as [? ?]
  end.

(** ** Lists *)

(** Go's [for _, x := range l { if p(x) { return f(x) } }] *)
Fixpoint first_some {A B} (f : A -> option B) (l : list A) : option B :=
  match l with
  | [] => None
  | x :: l' => match f x with Some y => Some y | None => first_some f l' end
  end.

Lemma first_some_None {A B} (f : A -> option B) l :
  first_some f l = None <-> Forall (fun x => f x = None) l.
Proof.
  induction l as [|x l IH]; simpl; [by split|].
  destruct (f x) eqn:E; rewrite Forall_cons; [|rewrite IH]; naive_solver congruence.
Qed.

Lemma first_some_Some {A B} (f : A -> option B) l y :
  first_some f l = Some y ->
  exists l1 x l2, l = l1 ++ x :: l2 /\ f x = Some y /\ Forall (fun z => f z = None) l1.
Proof.
  induction l as [|x l IH]; simpl; [done|].
  destruct (f x) eqn:E.
  - intros [= <-]. by exists [], x, l.
  - intros (l1 & z & l2 & -> & ? & ?)%IH. exists (x :: l1), z, l2. by auto.
Qed.

(** A fold whose steps commute does not depend on the order of the list. *)
Lemma fold_left_perm {A B} (f : B -> A -> B) (l l' : list A) b :
  (forall b x y, x ∈ l -> y ∈ l -> f (f b x) y = f (f b y) x) ->
  l ≡ₚ l' -> fold_left f l b = fold_left f l' b.
Proof.
  intros Hc Hp. revert b. induction Hp as [|x l l' ? IH|x y l|l l' l'' Hp1 IH1 Hp2 IH2]; intros b.
  - done.
  - simpl. apply IH. intros; apply Hc; by constructor.
  - simpl. rewrite Hc; [done| |]; set_solver.
  - rewrite IH1 by done. apply IH2. intros ??? Hx Hy; apply Hc; by rewrite Hp1.
Qed.

(** A loop whose body never panics is a fold. *)
Lemma ofold_pure {A B} (f : B -> A -> outcome B) (g : B -> A -> B) l b :
  (forall b x, x ∈ l -> f b x = Ret (g b x)) -> ofold f l b = Ret (fold_left g l b).
Proof.
  revert b. induction l as [|x l IH]; intros b H; simpl; [done|].
  rewrite H by left. simpl. apply IH. intros b' y Hy. apply H. by right.
Qed.

(** The same under an invariant of the loop. *)
Lemma ofold_inv {A B} (P : B -> Prop) (f : B -> A -> outcome B) (g : B -> A -> B) l b :
  P b -> (forall b x, P b -> x ∈ l -> f b x = Ret (g b x) /\ P (g b x)) ->
  ofold f l b = Ret (fold_left g l b) /\ P (fold_left g l b).
Proof.
  revert b. induction l as [|x l IH]; intros b Hb H; simpl; [done|].
  destruct (H b x Hb) as [-> Hg]; [left|]. simpl. apply IH; [done|].
  intros b' y Hb' Hy. apply H; [done|by right].
Qed.

Lemma fold_left_app_concat {A B} (f : A -> list B) l acc :
  fold_left (fun acc x => acc ++ f x) l acc = acc ++ concat (map f l).
Proof.
  revert acc. induction l as [|x l IH]; intros acc; simpl; [by rewrite app_nil_r|].
  by rewrite IH, <- app_assoc.
Qed.

(** An element that is largest for a measure. *)
Lemma exists_argmax {A} (f : A -> Z) (l : list A) :
  l <> [] -> exists x, x ∈ l /\ forall y, y ∈ l -> f y <= f x.
Proof.
  induction l as [|a l IH]; [done|]. intros _. destruct (decide (l = [])) as [->|Hl].
  - exists a. split; [left|]. intros y Hy. apply list_elem_of_singleton in Hy. subst. lia.
  - destruct (IH Hl) as (x & Hx & Hmax). destruct (Z_le_gt_dec (f x) (f a)) as [Hle|Hgt].
    + exists a. split; [left|]. intros y [-> |Hy]%elem_of_cons; [lia|]. specialize (Hmax y Hy). lia.
    + exists x. split; [by right|]. intros y [-> |Hy]%elem_of_cons; [lia|auto].
Qed.

(** Sums of integers. *)
Definition Zsum (l : list Z) : Z := foldr Z.add 0 l.

Lemma Zsum_app l l' : Zsum (l ++ l') = Zsum l + Zsum l'.
Proof. induction l as [|x l IH]; simpl; [done|]. unfold Zsum in *. simpl. lia. Qed.

Lemma Zsum_perm l l' : l ≡ₚ l' -> Zsum l = Zsum l'.
Proof. unfold Zsum. induction 1; simpl; lia. Qed.

Lemma Zsum_bounds l b :
  Forall (fun x => 0 <= x <= b) l -> 0 <= Zsum l <= Z.of_nat (length l) * b.
Proof. unfold Zsum. induction 1; simpl length; simpl foldr; [lia|]. nia. Qed.

Lemma Zsum_map_add {A} (f g : A -> Z) l :
  Zsum (map (fun x => f x + g x) l) = Zsum (map f l) + Zsum (map g l).
Proof. unfold Zsum. induction l as [|x l IH]; simpl; lia. Qed.

Lemma NoDup_map_filter {A B} (f : A -> B) (p : A -> bool) l :
  NoDup (map f l) -> NoDup (map f (List.filter p l)).
Proof.
  induction l as [|x l IH]; simpl; [done|]. intros [Hx Hl]%NoDup_cons. destruct (p x); simpl; [|by apply IH].
  apply NoDup_cons. split; [|by apply IH].
  intros (y & Hy & (Hi & _)%filter_In)%list_elem_of_In%in_map_iff. apply Hx.
  apply list_elem_of_In, in_map_iff. by exists y.
Qed.

Lemma NoDup_map_inj {A B} (f : A -> B) l x y : NoDup (map f l) -> x ∈ l -> y ∈ l -> f x = f y -> x = y.
Proof.
  induction l as [|z l IH]; simpl; [by intros _ ?%elem_of_nil|]. intros [Hz Hl]%NoDup_cons.
  assert (forall w, w ∈ l -> f z <> f w) as Hne.
  { intros w Hw E. apply Hz. rewrite E. by apply list_elem_of_fmap_2. }
  intros [-> |Hx]%elem_of_cons [-> |Hy]%elem_of_cons E; [done|..]; [by edestruct Hne|by edestruct Hne|by apply IH].
Qed.

(** Go visits the entries of a map in an unspecified order, which differs
    from loop to loop; the loops of a call are numbered. *)
Class MapRange := {
  range : nat -> forall A, list A -> list A;
  range_perm : forall n A (l : list A), range n A l ≡ₚ l
}.
Arguments range {_} n {A} l.

Definition range_id : MapRange := {| range := fun _ _ l => l; range_perm := fun _ _ _ => ltac:(done) |}.
Definition range_rev : MapRange :=
  {| range := fun _ _ l => reverse l; range_perm := fun _ _ l => reverse_Permutation l |}.

(** Folding over the entries of a map: an observation [pi] that only the entry
    at [k] affects sees that entry once, whatever the order. *)
Lemma fold_left_key {K A B C} `{Countable K} (f : B -> K * A -> B) (pi : B -> C)
    (g : C -> A -> C) (k : K) (m : gmap K A) (l : list (K * A)) b :
  (forall b p, p.1 <> k -> pi (f b p) = pi b) ->
  (forall b a, pi (f b (k, a)) = g (pi b) a) ->
  l ≡ₚ map_to_list m ->
  pi (fold_left f l b) = match m !! k with Some a => g (pi b) a | None => pi b end.
Proof.
  intros Hne Hk Hl.
  assert (NoDup l.*1) as Hnd by (rewrite Hl; apply NoDup_fst_map_to_list).
  assert (forall p, p ∈ l <-> m !! p.1 = Some p.2) as Hin.
  { intros [k' a]. rewrite Hl. apply elem_of_map_to_list. }
  clear Hl. revert m b Hin. induction l as [|[k' a] l IH]; intros m b Hin; simpl.
  - destruct (m !! k) as [a|] eqn:E; [|done]. apply (Hin (k, a)) in E. set_solver.
  - apply NoDup_cons in Hnd as [Hni Hnd].
    rewrite (IH Hnd (delete k' m)).
    + destruct (decide (k = k')) as [->|Hkk].
      * assert (m !! k' = Some a) as -> by (apply (Hin (k', a)); left).
        rewrite lookup_delete_eq. apply Hk.
      * rewrite lookup_delete_ne by done. by rewrite Hne.
    + intros [k2 a2]. simpl. destruct (decide (k2 = k')) as [->|Hkk].
      * rewrite lookup_delete_eq. split; [|done]. intros Hp. destruct Hni.
        apply list_elem_of_fmap. by exists (k', a2).
      * rewrite lookup_delete_ne by done. rewrite <- (Hin (k2, a2)). set_solver.
Qed.

(** A decidable statement about the integers of an interval, by evaluation. *)
Lemma forall_seqZ_check (p : Z -> bool) a n k :
  forallb p (seqZ a n) = true -> a <= k < a + n -> p k = true.
Proof.
  intros H Hk. rewrite forallb_forall in H. apply H.
  apply list_elem_of_In, elem_of_seqZ. lia.
Qed.

Create HintDb kubehice.
