(* ===== verification/GoInt.v ===== *)
(** * Machine integers of Go

    Go's [int64] (and [int], which is 64 bits wide on the supported
    platforms) and [int32] as integers with the wrap-around written out. *)

From S2P Require Import Prelude.

Definition MinInt64 : Z := - 2 ^ 63.
Definition MaxInt64 : Z := 2 ^ 63 - 1.
Definition MinInt32 : Z := - 2 ^ 31.
Definition MaxInt32 : Z := 2 ^ 31 - 1.

Definition is_int64 (z : Z) : Prop := MinInt64 <= z <= MaxInt64.
Definition is_int32 (z : Z) : Prop := MinInt32 <= z <= MaxInt32.

(** Two's complement truncation to 64 and 32 bits. *)
Definition int64 (z : Z) : Z := (z + 2 ^ 63) `mod` 2 ^ 64 - 2 ^ 63.
Definition int32 (z : Z) : Z := (z + 2 ^ 31) `mod` 2 ^ 32 - 2 ^ 31.

Definition add64 (a b : Z) : Z := int64 (a + b).
Definition sub64 (a b : Z) : Z := int64 (a - b).
Definition mul64 (a b : Z) : Z := int64 (a * b).
Definition neg64 (a : Z) : Z := int64 (- a).
(** Go's [/] and [%] truncate toward zero ([MinInt64 / -1] wraps). *)
Definition div64 (a b : Z) : Z := int64 (Z.quot a b).
Definition rem64 (a b : Z) : Z := Z.rem a b.

Notation "a +₆₄ b" := (add64 a b) (at level 50, left associativity) : Z_scope.
Notation "a -₆₄ b" := (sub64 a b) (at level 50, left associativity) : Z_scope.
Notation "a *₆₄ b" := (mul64 a b) (at level 40, left associativity) : Z_scope.

Ltac int_unfold :=
  unfold is_int64, is_int32, add64, sub64, mul64, neg64, div64, rem64, int64, int32,
    MinInt64, MaxInt64, MinInt32, MaxInt32 in *.

Lemma int64_id z : is_int64 z -> int64 z = z.
Proof. int_unfold. intros. rewrite Z.mod_small; lia. Qed.

Lemma int64_range z : is_int64 (int64 z).
Proof. int_unfold. pose proof (Z.mod_pos_bound (z + 2 ^ 63) (2 ^ 64)). lia. Qed.

Lemma int32_id z : is_int32 z -> int32 z = z.
Proof. int_unfold. intros. rewrite Z.mod_small; lia. Qed.

Lemma int32_range z : is_int32 (int32 z).
Proof. int_unfold. pose proof (Z.mod_pos_bound (z + 2 ^ 31) (2 ^ 32)). lia. Qed.

(** The wrapped value differs from the exact one by a multiple of [2^64]. *)
Lemma int64_congr z : exists k, int64 z = z + k * 2 ^ 64.
Proof.
  exists (- ((z + 2 ^ 63) / 2 ^ 64)). int_unfold.
  pose proof (Z.div_mod (z + 2 ^ 63) (2 ^ 64)). lia.
Qed.

Lemma int64_mod_eq a b k : a = b + k * 2 ^ 64 -> int64 a = int64 b.
Proof.
  intros ->. unfold int64. f_equal.
  replace (b + k * 2 ^ 64 + 2 ^ 63) with (b + 2 ^ 63 + k * 2 ^ 64) by lia.
  apply Z_mod_plus_full.
Qed.

Lemma int64_int64 z : int64 (int64 z) = int64 z.
Proof. apply int64_id, int64_range. Qed.

Lemma int64_add_l a b : int64 (int64 a + b) = int64 (a + b).
Proof. destruct (int64_congr a) as [k ->]. eapply (int64_mod_eq _ _ k). lia. Qed.

Lemma int64_add_r a b : int64 (a + int64 b) = int64 (a + b).
Proof. rewrite Z.add_comm, int64_add_l. f_equal. lia. Qed.

Lemma add64_comm a b : a +₆₄ b = b +₆₄ a.
Proof. unfold add64. f_equal. lia. Qed.

Lemma add64_assoc a b c : a +₆₄ (b +₆₄ c) = a +₆₄ b +₆₄ c.
Proof. unfold add64. rewrite int64_add_r, int64_add_l. f_equal. lia. Qed.

Lemma add64_swap a b c : a +₆₄ b +₆₄ c = a +₆₄ c +₆₄ b.
Proof. rewrite <- !add64_assoc. f_equal. apply add64_comm. Qed.

Lemma add64_sub64 a b : is_int64 a -> a +₆₄ b -₆₄ b = a.
Proof.
  intros Ha. unfold sub64, add64. rewrite <- Z.add_opp_r, int64_add_l.
  replace (a + b + - b) with a by lia. by apply int64_id.
Qed.

Lemma add64_exact a b : is_int64 (a + b) -> a +₆₄ b = a + b.
Proof. apply int64_id. Qed.

Lemma sub64_exact a b : is_int64 (a - b) -> a -₆₄ b = a - b.
Proof. apply int64_id. Qed.

Lemma mul64_exact a b : is_int64 (a * b) -> a *₆₄ b = a * b.
Proof. apply int64_id. Qed.

Lemma is_int64_0 : is_int64 0.
Proof. int_unfold. lia. Qed.

#[export] Hint Resolve int64_range int32_range is_int64_0 : kubehice.
#[export] Hint Extern 1 (is_int64 (_ +₆₄ _)) => apply int64_range : kubehice.
#[export] Hint Extern 1 (is_int64 (_ -₆₄ _)) => apply int64_range : kubehice.
#[export] Hint Extern 1 (is_int64 (_ *₆₄ _)) => apply int64_range : kubehice.
