(* ===== verification/GoFloat.v ===== *)
(** * IEEE 754 double precision numbers of Go

    Go's [float64] arithmetic on the executable specification [spec_float]
    of the standard library (round to nearest, ties to even), the conversions
    between [float64] and [int64], and [math.Ceil], [math.Max], [math.Pow10].

    A conversion of a value that [int64] cannot represent is
    implementation-dependent in Go; the class [GoArch] stands for the choice
    of the platform, with the two that a KubeHICE cluster runs on as
    instances. *)

From S2P Require Import Prelude GoInt.
From Stdlib Require Export SpecFloat.

Abbreviation float64 := spec_float.

Definition f64_prec : Z := 53.
Definition f64_emax : Z := 1024.

Definition f64_add : float64 -> float64 -> float64 := SFadd f64_prec f64_emax.
Definition f64_sub : float64 -> float64 -> float64 := SFsub f64_prec f64_emax.
Definition f64_mul : float64 -> float64 -> float64 := SFmul f64_prec f64_emax.
Definition f64_div : float64 -> float64 -> float64 := SFdiv f64_prec f64_emax.
Definition f64_lt : float64 -> float64 -> bool := SFltb.
Definition f64_gt (x y : float64) : bool := SFltb y x.
Definition f64_le : float64 -> float64 -> bool := SFleb.

(** [float64(z)] for an integer [z]. *)
Definition f64_of_Z (z : Z) : float64 := binary_normalize f64_prec f64_emax z 0 false.

Definition f64_one : float64 := f64_of_Z 1.

(** The integer part, toward zero; infinities and NaN have none. *)
Definition f64_trunc (x : float64) : option Z :=
  match x with
  | S754_zero _ => Some 0
  | S754_finite s m e =>
      let a := if 0 <=? e then Zpos m * 2 ^ e else Zpos m / 2 ^ (- e) in
      Some (if s then - a else a)
  | _ => None
  end.

Class GoArch := { out_of_range_int64 : float64 -> Z }.

(** [int64(x)] *)
Definition int64_of_f64 {arch : GoArch} (x : float64) : Z :=
  match f64_trunc x with
  | Some z => if (MinInt64 <=? z) && (z <=? MaxInt64) then z else int64 (out_of_range_int64 x)
  | None => int64 (out_of_range_int64 x)
  end.

(** amd64's CVTTSD2SQ yields the integer indefinite value. *)
Definition amd64 : GoArch := {| out_of_range_int64 := fun _ => MinInt64 |}.

(** arm64's FCVTZS saturates and sends NaN to zero. *)
Definition arm64 : GoArch :=
  {| out_of_range_int64 := fun x =>
       match x with
       | S754_nan => 0
       | S754_zero _ => 0
       | S754_infinity s | S754_finite s _ _ => if s then MinInt64 else MaxInt64
       end |}.

(** [math.Ceil] *)
Definition f64_ceil (x : float64) : float64 :=
  match x with
  | S754_finite s m e =>
      if 0 <=? e then x
      else
        let d := 2 ^ (- e) in
        let q := Zpos m / d in
        if Zpos m `mod` d =? 0 then x
        else if s then binary_normalize f64_prec f64_emax (- q) 0 true
        else binary_normalize f64_prec f64_emax (q + 1) 0 false
  | _ => x
  end.

(** [math.Max] *)
Definition f64_max (x y : float64) : float64 :=
  match x, y with
  | S754_infinity false, _ => x
  | _, S754_infinity false => y
  | S754_nan, _ | _, S754_nan => S754_nan
  | S754_zero sx, S754_zero sy => if sx then y else x
  | _, _ => if f64_gt x y then x else y
  end.

(** [math.Pow10]: the nearest [float64], zero and infinity out of range. *)
Definition f64_pow10 (n : Z) : float64 :=
  if (0 <=? n) && (n <=? 308) then f64_of_Z (10 ^ n)
  else if 308 <? n then S754_infinity false
  else if n <? -323 then S754_zero false
  else
    let '(m, e, l) := SFdiv_core_binary f64_prec f64_emax 1 0 (10 ^ (- n)) 0 in
    binary_round_aux f64_prec f64_emax false m e l.

(** ** Facts *)

Definition f64_valid (x : float64) : Prop := valid_binary f64_prec f64_emax x = true.

Lemma digits2_pos_bounds p :
  2 ^ (Zpos (digits2_pos p) - 1) <= Zpos p < 2 ^ Zpos (digits2_pos p).
Proof.
  induction p as [p IH|p IH|]; simpl digits2_pos; [| |simpl; lia];
    rewrite Pos2Z.inj_succ;
    replace (Z.succ (Zpos (digits2_pos p)) - 1) with (Z.succ (Zpos (digits2_pos p) - 1)) by lia;
    rewrite !Z.pow_succ_r by lia; lia.
Qed.

Lemma digits2_pos_le p n : 0 <= n -> Zpos p < 2 ^ n -> Zpos (digits2_pos p) <= n.
Proof.
  intros Hn Hp. pose proof (digits2_pos_bounds p) as [Hl _].
  destruct (Z.le_gt_cases (Zpos (digits2_pos p)) n) as [|Hgt]; [done|].
  pose proof (Z.pow_le_mono_r 2 n (Zpos (digits2_pos p) - 1)). lia.
Qed.

Lemma digits2_pos_iter_xO p k :
  digits2_pos (Pos.iter xO p k) = (digits2_pos p + k)%positive.
Proof.
  induction k as [|k IH] using Pos.peano_ind; [simpl; lia|].
  rewrite Pos.iter_succ. simpl. rewrite IH. lia.
Qed.

Lemma iter_xO_Z p k : Zpos (Pos.iter xO p k) = Zpos p * 2 ^ Zpos k.
Proof.
  induction k as [|k IH] using Pos.peano_ind; [simpl; lia|].
  rewrite Pos.iter_succ. rewrite Pos2Z.inj_xO, IH, Pos2Z.inj_succ, Z.pow_succ_r by lia. lia.
Qed.

(** Rounding leaves a canonical mantissa alone. *)
Lemma round_aux_canonical s m e :
  bounded f64_prec f64_emax m e = true ->
  binary_round_aux f64_prec f64_emax s (Zpos m) e loc_Exact = S754_finite s m e.
Proof.
  intros [Hc He]%andb_true_iff. apply Z.eqb_eq in Hc.
  unfold binary_round_aux, shr_fexp. cbn -[Z.leb f64_prec f64_emax fexp].
  rewrite Hc, Z.sub_diag. cbn -[Z.leb f64_prec f64_emax fexp].
  rewrite Hc, Z.sub_diag. cbn -[Z.leb f64_prec f64_emax fexp]. by rewrite He.
Qed.

Lemma f64_of_pos_small p :
  Zpos p < 2 ^ 53 ->
  let d := digits2_pos p in
  exists m e, f64_of_Z (Zpos p) = S754_finite false m e
    /\ bounded f64_prec f64_emax m e = true
    /\ e <= 0 /\ Zpos m = Zpos p * 2 ^ (- e).
Proof.
  intros Hp d. pose proof (digits2_pos_le p 53 ltac:(lia) Hp) as Hd. fold d in Hd.
  unfold f64_of_Z, binary_normalize, binary_round, shl_align. fold d.
  assert (fexp f64_prec f64_emax (Zpos d + 0) = Zpos d - 53) as Hf
    by (unfold fexp, emin, f64_prec, f64_emax; lia).
  rewrite Hf, Z.sub_0_r.
  destruct (Zpos d - 53) as [|k|k] eqn:Ek; [|lia|].
  - exists p, 0. assert (bounded f64_prec f64_emax p 0 = true) as Hb.
    { apply andb_true_iff. split; [|done]. apply Z.eqb_eq. fold d. by rewrite Hf. }
    rewrite round_aux_canonical by done. split_and!; try done. simpl; lia.
  - exists (Pos.iter xO p k), (Zneg k).
    assert (bounded f64_prec f64_emax (Pos.iter xO p k) (Zneg k) = true) as Hb.
    { apply andb_true_iff. split; [|by destruct k].
      apply Z.eqb_eq. rewrite digits2_pos_iter_xO. fold d.
      unfold fexp, emin, f64_prec, f64_emax. lia. }
    rewrite round_aux_canonical by done. split_and!; try done.
    apply iter_xO_Z.
Qed.

Lemma f64_of_neg p :
  f64_of_Z (Zneg p) = SFopp (f64_of_Z (Zpos p)).
Proof.
  unfold f64_of_Z, binary_normalize, binary_round.
  destruct (shl_align _ _ _) as [mz ez].
  unfold binary_round_aux.
  destruct (shr_fexp _ _ (Zpos mz) ez loc_Exact) as [mrs e1].
  destruct (shr_fexp _ _ _ e1 loc_Exact) as [mrs' e2].
  destruct (shr_m mrs'); try done. by destruct (e2 <=? _).
Qed.

(** Integers below [2^53] convert exactly, there and back. *)
Lemma f64_of_Z_trunc z :
  Z.abs z < 2 ^ 53 -> f64_trunc (f64_of_Z z) = Some z.
Proof.
  assert (forall p, Zpos p < 2 ^ 53 -> f64_trunc (f64_of_Z (Zpos p)) = Some (Zpos p)) as Hpos.
  { intros p Hp. destruct (f64_of_pos_small p Hp) as (m & e & -> & _ & He & Hm).
    simpl. rewrite Hm. f_equal. case_match; zify_bool.
    - replace e with 0 by lia. simpl. lia.
    - apply Z.div_mul. apply Z.pow_nonzero; lia. }
  destruct z as [|p|p]; intros Hz; [done|by apply Hpos|].
  rewrite f64_of_neg. specialize (Hpos p Hz).
  destruct (f64_of_pos_small p Hz) as (m & e & E & _). rewrite E in *.
  simpl in *. injection Hpos as ->. done.
Qed.

Lemma f64_of_Z_valid z : Z.abs z < 2 ^ 53 -> f64_valid (f64_of_Z z).
Proof.
  destruct z as [|p|p]; intros Hz; [done| |].
  - by destruct (f64_of_pos_small p Hz) as (m & e & -> & Hb & _).
  - rewrite f64_of_neg. by destruct (f64_of_pos_small p Hz) as (m & e & -> & Hb & _).
Qed.

Lemma f64_one_eq : f64_one = S754_finite false (2 ^ 52) (-52).
Proof. reflexivity. Qed.

Lemma bounded_digits m e :
  bounded f64_prec f64_emax m e = true ->
  fexp f64_prec f64_emax (Zpos (digits2_pos m) + e) = e /\ e <= 971.
Proof.
  intros [Hc He]%andb_true_iff. apply Z.eqb_eq in Hc. apply Z.leb_le in He.
  split; [done|]. by unfold f64_emax, f64_prec in He.
Qed.

Lemma mul_2_52 m : (m * 2 ^ 52)%positive = Pos.iter xO m 52.
Proof. apply Pos2Z.inj. rewrite Pos2Z.inj_mul, iter_xO_Z. reflexivity. Qed.

(** Rounding undoes an exact left shift of a canonical mantissa. *)
Lemma round_aux_shifted s m e k :
  bounded f64_prec f64_emax m e = true -> (k = 1 \/ k = 52)%positive ->
  binary_round_aux f64_prec f64_emax s (Zpos (Pos.iter xO m k)) (e - Zpos k) loc_Exact
  = S754_finite s m e.
Proof.
  intros Hb Hk. destruct (bounded_digits _ _ Hb) as [Hf He].
  unfold binary_round_aux, shr_fexp. cbn [Zdigits2 shr_record_of_loc].
  rewrite digits2_pos_iter_xO, Pos2Z.inj_add.
  replace (Zpos (digits2_pos m) + Zpos k + (e - Zpos k)) with (Zpos (digits2_pos m) + e) by lia.
  rewrite Hf. replace (e - (e - Zpos k)) with (Zpos k) by lia.
  assert (iter_pos shr_1 k {| shr_m := Zpos (Pos.iter xO m k); shr_r := false; shr_s := false |}
          = {| shr_m := Zpos m; shr_r := false; shr_s := false |}) as Hi
    by (destruct Hk as [-> | ->]; reflexivity).
  cbn [shr]. rewrite Hi. replace (e - Zpos k + Zpos k) with e by lia.
  cbn [shr_m loc_of_shr_record round_nearest_even Zdigits2 shr_record_of_loc].
  rewrite Hf, Z.sub_diag. cbn [shr shr_m].
  unfold f64_emax, f64_prec. destruct (Z.leb_spec e (1024 - 53)); [done|lia].
Qed.

Lemma f64_mul_one x : f64_valid x -> f64_mul x f64_one = x.
Proof.
  rewrite f64_one_eq. destruct x as [s|s| |s m e]; intros Hv; try done; try (by destruct s).
  unfold f64_mul, SFmul. rewrite mul_2_52, xorb_false_r.
  replace (e + -52) with (e - Zpos 52) by lia. apply round_aux_shifted; auto.
Qed.

Lemma div_core_one m e :
  bounded f64_prec f64_emax m e = true ->
  exists q e', SFdiv_core_binary f64_prec f64_emax (Zpos m) e (2 ^ 52) (-52) = (Zpos q, e', loc_Exact)
    /\ ((q = m /\ e' = e) \/ (q = Pos.iter xO m 1 /\ e' = e - 1)).
Proof.
  intros Hb. destruct (bounded_digits _ _ Hb) as [Hf He].
  unfold SFdiv_core_binary. replace (Zdigits2 (2 ^ 52)) with 53 by reflexivity.
  cbn [Zdigits2].
  set (d := Zpos (digits2_pos m)) in *.
  assert (Z.min (fexp f64_prec f64_emax (d + e - (53 + -52))) (e - -52) = e \/
          Z.min (fexp f64_prec f64_emax (d + e - (53 + -52))) (e - -52) = e - 1) as [-> | ->]
    by (unfold fexp, emin, f64_prec, f64_emax in *; lia).
  - replace (e - -52 - e) with 52 by lia. exists m, e.
    replace (Z.div_eucl (Z.shiftl (Zpos m) 52) (2 ^ 52)) with (Zpos m, 0); [by eauto|].
    rewrite (surjective_pairing (Z.div_eucl _ _)).
    change (fst (Z.div_eucl ?a ?b)) with (a / b). change (snd (Z.div_eucl ?a ?b)) with (a `mod` b).
    rewrite Z.shiftl_mul_pow2 by lia. rewrite Z.div_mul, Z_mod_mult by done. done.
  - replace (e - -52 - (e - 1)) with 53 by lia. exists (Pos.iter xO m 1), (e - 1).
    replace (Z.div_eucl (Z.shiftl (Zpos m) 53) (2 ^ 52)) with (Zpos (Pos.iter xO m 1), 0); [by eauto|].
    rewrite (surjective_pairing (Z.div_eucl _ _)).
    change (fst (Z.div_eucl ?a ?b)) with (a / b). change (snd (Z.div_eucl ?a ?b)) with (a `mod` b).
    rewrite Z.shiftl_mul_pow2, iter_xO_Z by lia.
    replace (Zpos m * 2 ^ 53) with ((Zpos m * 2 ^ 1) * 2 ^ 52) by (cbn; lia).
    rewrite Z.div_mul, Z_mod_mult by done. done.
Qed.

Lemma f64_div_one x : f64_valid x -> f64_div x f64_one = x.
Proof.
  rewrite f64_one_eq. destruct x as [s|s| |s m e]; intros Hv; try done; try (by destruct s).
  unfold f64_div, SFdiv. destruct (div_core_one m e Hv) as (q & e' & E & Hq).
  change (Zpos (2 ^ 52)%positive) with (2 ^ 52). rewrite E, xorb_false_r.
  destruct Hq as [[-> ->]|[-> ->]].
  - by apply round_aux_canonical.
  - apply (round_aux_shifted s m e 1); auto.
Qed.

Lemma int64_of_f64_range {arch : GoArch} x : is_int64 (int64_of_f64 x).
Proof.
  unfold int64_of_f64. destruct (f64_trunc x) as [z|]; [|apply int64_range].
  case_match; zify_bool; [done|apply int64_range].
Qed.

Lemma int64_of_f64_of_Z {arch : GoArch} z :
  Z.abs z < 2 ^ 53 -> int64_of_f64 (f64_of_Z z) = z.
Proof.
  intros Hz. unfold int64_of_f64. rewrite f64_of_Z_trunc by done.
  destruct (_ && _) eqn:E; [done|].
  apply andb_false_iff in E as [E|E]; zify_bool; int_unfold; lia.
Qed.

#[export] Hint Resolve int64_of_f64_range : kubehice.
