(* ===== verification/GoFloatRound.v ===== *)
(** * Rounding of [float64] results

    Products, quotients and conversions are canonical floats, comparison of
    canonical floats is comparison of their values, and rounding up does not
    go below its argument. *)

From Stdlib Require Import SpecFloat.
From S2P Require Import Prelude GoInt GoFloat.

Abbreviation fexp64 := (fexp f64_prec f64_emax).

(** ** Digits *)

Lemma digits2_log2 p : Zpos (digits2_pos p) = Z.log2 (Zpos p) + 1.
Proof.
  pose proof (digits2_pos_bounds p) as [Hl Hu].
  rewrite (Z.log2_unique (Zpos p) (Zpos (digits2_pos p) - 1)); [lia|lia|].
  split; [done|]. by replace (Z.succ (Zpos (digits2_pos p) - 1)) with (Zpos (digits2_pos p)) by lia.
Qed.

Lemma Zdigits2_bounds m : 0 < m -> 0 < Zdigits2 m /\ 2 ^ (Zdigits2 m - 1) <= m < 2 ^ Zdigits2 m.
Proof. destruct m as [|p|p]; try lia. intros _. split; [simpl; lia|]. apply digits2_pos_bounds. Qed.

Lemma Zdigits2_unique m d : 0 < d -> 2 ^ (d - 1) <= m < 2 ^ d -> Zdigits2 m = d.
Proof.
  intros Hd [Hl Hu]. assert (0 < m) by (pose proof (Z.pow_pos_nonneg 2 (d - 1)); lia).
  destruct m as [|p|p]; try lia. simpl. rewrite digits2_log2.
  rewrite (Z.log2_unique (Zpos p) (d - 1)); [lia|lia|].
  replace (Z.succ (d - 1)) with d by lia. done.
Qed.

Lemma Zdigits2_le m d : 0 <= d -> 0 <= m < 2 ^ d -> Zdigits2 m <= d.
Proof.
  intros Hd [Hm Hu]. destruct m as [|p|p]; simpl; [done| |lia].
  apply digits2_pos_le; lia.
Qed.

Lemma Zdigits2_ge m d : 0 < d -> 2 ^ (d - 1) <= m -> d <= Zdigits2 m.
Proof.
  intros Hd Hm. assert (0 < m) as Hp by (pose proof (Z.pow_pos_nonneg 2 (d - 1)); lia).
  destruct (Zdigits2_bounds m Hp) as [H0 [_ Hu]].
  destruct (Z.le_gt_cases d (Zdigits2 m)); [done|].
  pose proof (Z.pow_le_mono_r 2 (Zdigits2 m) (d - 1)). lia.
Qed.

(** ** Shifting right is division *)

Lemma shr_1_div r : 0 <= shr_m r -> shr_m (shr_1 r) = shr_m r / 2.
Proof.
  destruct r as [m x y]. cbn [shr_m]. intros Hm.
  destruct m as [|[p|p|]|p]; try lia; cbn -[Z.div]; try done.
  - rewrite Pos2Z.inj_xI. apply (Z.div_unique _ _ _ 1); lia.
  - rewrite Pos2Z.inj_xO. apply (Z.div_unique _ _ _ 0); lia.
Qed.

Lemma iter_shr_div p r : 0 <= shr_m r ->
  shr_m (iter_pos shr_1 p r) = shr_m r / 2 ^ Zpos p.
Proof.
  revert r. induction p as [p IH|p IH|]; intros r Hr; cbn [iter_pos].
  - assert (0 <= shr_m (shr_1 r)) as H1 by (rewrite shr_1_div by done; apply Z.div_pos; lia).
    rewrite IH, IH, shr_1_div; try done.
    + rewrite !Z.div_div by lia. replace (Zpos p~1) with (1 + Zpos p + Zpos p) by lia.
      rewrite !Z.pow_add_r by lia. f_equal. ring.
    + rewrite IH by done. apply Z.div_pos; lia.
  - rewrite IH, IH; try done.
    + rewrite Z.div_div by lia. replace (Zpos p~0) with (Zpos p + Zpos p) by lia.
      by rewrite Z.pow_add_r by lia.
    + rewrite IH by done. apply Z.div_pos; lia.
  - rewrite shr_1_div by done. done.
Qed.

Lemma shr_fexp_spec m e l :
  0 <= m -> e <= fexp64 (Zdigits2 m + e) ->
  exists r, shr_fexp f64_prec f64_emax m e l = (r, fexp64 (Zdigits2 m + e)) /\
            shr_m r = m / 2 ^ (fexp64 (Zdigits2 m + e) - e).
Proof.
  intros Hm He. unfold shr_fexp.
  assert (shr_m (shr_record_of_loc m l) = m) as Hl by (by destruct l as [|[]]).
  set (k := fexp64 (Zdigits2 m + e) - e). assert (0 <= k) by lia.
  unfold shr. destruct k as [|p|p] eqn:Ek; try lia.
  - eexists. split; [f_equal; lia|]. rewrite Hl, Z.pow_0_r, Z.div_1_r. done.
  - eexists. split; [f_equal; lia|]. rewrite iter_shr_div by lia. by rewrite Hl.
Qed.

(** ** Rounding gives canonical floats *)

Lemma bounded_intro m e :
  fexp64 (Zpos (digits2_pos m) + e) = e -> e <= 971 -> bounded f64_prec f64_emax m e = true.
Proof. intros Hf He. apply andb_true_iff. split; [by apply Z.eqb_eq|by apply Z.leb_le]. Qed.

Lemma round_final_valid s m e :
  0 <= m <= 2 ^ 53 -> -1074 <= e -> e = -1074 \/ 2 ^ 52 <= m ->
  f64_valid (let '(mrs, e') := shr_fexp f64_prec f64_emax m e loc_Exact in
             match shr_m mrs with
             | Z0 => S754_zero s
             | Zpos m => if e' <=? f64_emax - f64_prec then S754_finite s m e' else S754_infinity s
             | _ => S754_nan
             end).
Proof.
  intros Hm He Hn.
  assert (fexp64 (Zdigits2 m + e) = if m =? 2 ^ 53 then e + 1 else e) as Hf.
  { unfold fexp, emin, f64_prec, f64_emax. destruct (Z.eqb_spec m (2 ^ 53)) as [->|Hne].
    - rewrite (Zdigits2_unique (2 ^ 53) 54) by lia. lia.
    - pose proof (Zdigits2_le m 53 ltac:(lia) ltac:(lia)).
      destruct Hn as [->|Hn]; [lia|]. pose proof (Zdigits2_ge m 53 ltac:(lia) Hn). lia. }
  destruct (shr_fexp_spec m e loc_Exact) as (r & -> & Hr); [lia|rewrite Hf; by case_match; lia|].
  rewrite Hr, Hf. destruct (Z.eqb_spec m (2 ^ 53)) as [->|Hne].
  - replace (e + 1 - e) with 1 by lia. change (2 ^ 53 / 2 ^ 1) with (Zpos (2 ^ 52)).
    destruct (Z.leb_spec (e + 1) (f64_emax - f64_prec)) as [Hle|]; [|done].
    apply bounded_intro; [|done]. unfold fexp, emin, f64_prec, f64_emax.
    change (Zpos (digits2_pos (2 ^ 52))) with 53. lia.
  - rewrite Z.sub_diag, Z.pow_0_r, Z.div_1_r. destruct m as [|p|p]; [done| |lia].
    destruct (Z.leb_spec e (f64_emax - f64_prec)) as [Hle|]; [|done].
    by apply bounded_intro.
Qed.

Lemma round_nearest_even_cases m l : round_nearest_even m l = m \/ round_nearest_even m l = m + 1.
Proof. destruct l as [|[]]; simpl; auto. destruct (Z.even m); auto. Qed.

(** The mantissa after the first shift has at most 53 bits, and exactly 53
    unless the result is subnormal. *)
Lemma shr_mantissa_bounds m e :
  0 <= m -> e <= fexp64 (Zdigits2 m + e) ->
  let e1 := fexp64 (Zdigits2 m + e) in
  0 <= m / 2 ^ (e1 - e) < 2 ^ 53 /\ (e1 = -1074 \/ 2 ^ 52 <= m / 2 ^ (e1 - e)) /\ -1074 <= e1.
Proof.
  intros Hm He e1. assert (0 < 2 ^ (e1 - e)) by (apply Z.pow_pos_nonneg; lia).
  assert (-1074 <= e1) as H1 by (unfold e1, fexp, emin, f64_prec, f64_emax; lia).
  destruct (decide (m = 0)) as [-> |Hm0].
  { rewrite Z.div_0_l by lia. split_and!; [lia..|left|done].
    unfold e1, fexp, emin, f64_prec, f64_emax in *. simpl in *. lia. }
  destruct (Zdigits2_bounds m) as [Hd [Hl Hu]]; [lia|]. split_and!; [| | |done].
  - apply Z.div_pos; lia.
  - apply Z.div_lt_upper_bound; [done|]. rewrite <- Z.pow_add_r by lia.
    apply (Z.lt_le_trans _ _ _ Hu), Z.pow_le_mono_r; [lia|].
    unfold e1, fexp, emin, f64_prec, f64_emax in *. lia.
  - destruct (Z.eq_dec e1 (-1074)) as [|Hne]; [by left|right].
    apply Z.div_le_lower_bound; [done|]. rewrite <- Z.pow_add_r by lia.
    etransitivity; [|exact Hl]. apply Z.pow_le_mono_r; [lia|].
    unfold e1, fexp, emin, f64_prec, f64_emax in *. lia.
Qed.

Lemma round_aux_valid s m e l :
  0 <= m -> e <= fexp64 (Zdigits2 m + e) ->
  f64_valid (binary_round_aux f64_prec f64_emax s m e l).
Proof.
  intros Hm He. unfold binary_round_aux.
  destruct (shr_fexp_spec m e l Hm He) as (r & -> & Hr).
  destruct (shr_mantissa_bounds m e Hm He) as (Hb & Hn & H1). rewrite <- Hr in Hb, Hn.
  apply round_final_valid; [|done|];
    destruct (round_nearest_even_cases (shr_m r) (loc_of_shr_record r)) as [-> | ->]; lia.
Qed.

Lemma bounded_cases m e :
  bounded f64_prec f64_emax m e = true ->
  Zpos m < 2 ^ 53 /\ -1074 <= e <= 971 /\ (e = -1074 \/ 2 ^ 52 <= Zpos m).
Proof.
  intros Hb. destruct (bounded_digits _ _ Hb) as [Hf He].
  destruct (Zdigits2_bounds (Zpos m)) as [Hd [Hl Hu]]; [lia|]. simpl in Hd, Hl, Hu.
  unfold fexp, emin, f64_prec, f64_emax in Hf. split_and!; try lia.
  - apply (Z.lt_le_trans _ _ _ Hu), Z.pow_le_mono_r; lia.
  - destruct (Z.eq_dec e (-1074)) as [|Hne]; [by left|right].
    etransitivity; [|exact Hl]. apply Z.pow_le_mono_r; lia.
Qed.

Lemma fexp64_mono a b : a <= b -> fexp64 a <= fexp64 b.
Proof. unfold fexp. lia. Qed.

Lemma f64_mul_valid x y : f64_valid x -> f64_valid y -> f64_valid (f64_mul x y).
Proof.
  destruct x as [sx|sx| |sx mx ex], y as [sy|sy| |sy my ey]; try done. intros Hx Hy.
  apply round_aux_valid; [lia|].
  destruct (bounded_cases _ _ Hx) as (Hx1 & Hx2 & Hx3), (bounded_cases _ _ Hy) as (Hy1 & Hy2 & Hy3).
  assert (ex + ey <= -1074 \/ 2 ^ 52 <= Zpos (mx * my)) as [H|H].
  { destruct Hx3 as [->|]; [destruct Hy3 as [->|]; [left; lia|]|]; right; nia. }
  - unfold fexp, emin, f64_prec, f64_emax. lia.
  - pose proof (Zdigits2_ge _ 53 ltac:(lia) H). unfold fexp, emin, f64_prec, f64_emax. lia.
Qed.

(** The quotient is computed on a dividend scaled so that enough digits are
    left for rounding. *)
Lemma div_core_spec mx ex my ey :
  exists s e', 0 <= s /\ ex - ey = s + e' /\ e' <= ex - ey /\
    (-1074 <= ex -> ey <= 971 -> -3000 <= e') /\
    SFdiv_core_binary f64_prec f64_emax (Zpos mx) ex (Zpos my) ey
    = (Zpos mx * 2 ^ s / Zpos my, e', new_location (Zpos my) ((Zpos mx * 2 ^ s) `mod` Zpos my)) /\
    e' <= fexp64 (Zdigits2 (Zpos mx * 2 ^ s / Zpos my) + e').
Proof.
  unfold SFdiv_core_binary.
  set (e' := Z.min (fexp64 (Zdigits2 (Zpos mx) + ex - (Zdigits2 (Zpos my) + ey))) (ex - ey)).
  set (s := ex - ey - e'). assert (0 <= s) by lia. exists s, e'.
  assert (0 < 2 ^ s) by (apply Z.pow_pos_nonneg; lia).
  split_and!; [done|lia|lia| | |].
  - intros H1 H2. assert (-1074 <= fexp64 (Zdigits2 (Zpos mx) + ex - (Zdigits2 (Zpos my) + ey)))
      by (unfold fexp, emin, f64_prec, f64_emax; lia). lia.
  - assert (match s with Zpos _ => Z.shiftl (Zpos mx) s | Z0 => Zpos mx | Zneg _ => 0 end
            = Zpos mx * 2 ^ s) as ->.
    { destruct s as [|p|p]; [simpl; lia|rewrite Z.shiftl_mul_pow2; lia|lia]. }
    unfold Z.div, Z.modulo. by destruct (Z.div_eucl _ _).
  - transitivity (fexp64 (Zdigits2 (Zpos mx) + ex - (Zdigits2 (Zpos my) + ey))); [lia|].
    apply fexp64_mono.
    destruct (Zdigits2_bounds (Zpos mx)) as (Hd1 & Hl1 & Hu1); [lia|].
    destruct (Zdigits2_bounds (Zpos my)) as (Hd2 & Hl2 & Hu2); [lia|].
    set (d1 := Zdigits2 (Zpos mx)) in *. set (d2 := Zdigits2 (Zpos my)) in *.
    cut (d1 + s - d2 <= Zdigits2 (Zpos mx * 2 ^ s / Zpos my)); [lia|].
    destruct (Z.le_gt_cases (d1 + s - d2) 0) as [Hle|Hgt].
    { assert (0 <= Zdigits2 (Zpos mx * 2 ^ s / Zpos my)); [|lia]. by destruct (_ / _). }
    apply Zdigits2_ge; [done|]. apply Z.div_le_lower_bound; [lia|].
    transitivity (2 ^ d2 * 2 ^ (d1 + s - d2 - 1)); [apply Z.mul_le_mono_nonneg_r; lia|].
    rewrite <- Z.pow_add_r by lia.
    replace (d2 + (d1 + s - d2 - 1)) with (d1 - 1 + s) by lia. rewrite Z.pow_add_r by lia.
    apply Z.mul_le_mono_nonneg_r; lia.
Qed.

Lemma f64_div_valid x y : f64_valid x -> f64_valid y -> f64_valid (f64_div x y).
Proof.
  destruct x as [sx|sx| |sx mx ex], y as [sy|sy| |sy my ey]; try done. intros _ _.
  destruct (div_core_spec mx ex my ey) as (s & e' & Hs & _ & _ & _ & Hd & Hf).
  unfold f64_div, SFdiv. rewrite Hd.
  assert (0 < 2 ^ s) by (apply Z.pow_pos_nonneg; lia).
  apply round_aux_valid; [apply Z.div_pos; lia|done].
Qed.

Lemma round_valid s p e : f64_valid (binary_round f64_prec f64_emax s p e).
Proof.
  unfold binary_round, shl_align.
  destruct (fexp64 (Zpos (digits2_pos p) + e) - e) as [|k|k] eqn:Ek.
  - apply round_aux_valid; [lia|]. simpl Zdigits2. lia.
  - apply round_aux_valid; [lia|]. simpl Zdigits2. lia.
  - apply round_aux_valid; [lia|]. simpl Zdigits2.
    rewrite digits2_pos_iter_xO, Pos2Z.inj_add.
    replace (Zpos (digits2_pos p) + Zpos k + fexp64 (Zpos (digits2_pos p) + e))
      with (Zpos (digits2_pos p) + e) by lia. lia.
Qed.

Lemma f64_normalize_valid z e b : f64_valid (binary_normalize f64_prec f64_emax z e b).
Proof. destruct z; simpl; [done|apply round_valid..]. Qed.

Lemma f64_of_Z_is_valid z : f64_valid (f64_of_Z z).
Proof. apply f64_normalize_valid. Qed.

Lemma f64_add_valid x y : f64_valid x -> f64_valid y -> f64_valid (f64_add x y).
Proof.
  destruct x as [[]|[]| |sx mx ex], y as [[]|[]| |sy my ey]; try done.
  intros _ _. apply f64_normalize_valid.
Qed.

(** ** Comparison *)

(** Of two canonical positive floats, the one with the larger exponent, or
    with the larger mantissa at the same exponent, is the larger. *)
Lemma compare_pos_lt m1 e1 m2 e2 E :
  bounded f64_prec f64_emax m1 e1 = true -> bounded f64_prec f64_emax m2 e2 = true ->
  E <= e1 -> E <= e2 ->
  f64_lt (S754_finite false m1 e1) (S754_finite false m2 e2) = true ->
  Zpos m1 * 2 ^ (e1 - E) < Zpos m2 * 2 ^ (e2 - E).
Proof.
  intros H1 H2 HE1 HE2. unfold f64_lt, SFltb, SFcompare.
  destruct (bounded_cases _ _ H1) as (B1 & R1 & C1), (bounded_cases _ _ H2) as (B2 & R2 & C2).
  assert (0 < 2 ^ (e1 - E)) by (apply Z.pow_pos_nonneg; lia).
  destruct (Z.compare_spec e1 e2) as [->|Hlt|Hgt]; [| |done].
  - change (Pos.compare_cont Eq m1 m2) with (m1 ?= m2)%positive.
    destruct (Pos.compare_spec m1 m2) as [|Hm|]; try done. intros _. nia.
  - intros _. destruct C2 as [->|C2]; [lia|].
    replace (e2 - E) with (1 + (e2 - e1 - 1) + (e1 - E)) by lia.
    rewrite !Z.pow_add_r, !Z.mul_assoc by lia. apply Z.mul_lt_mono_pos_r; [done|].
    assert (1 <= 2 ^ (e2 - e1 - 1)) by (pose proof (Z.pow_pos_nonneg 2 (e2 - e1 - 1)); lia). nia.
Qed.

(** [math.Ceil(x)] is not below [x]. *)
Lemma f64_ceil_ge x :
  f64_valid x -> (forall m e, x <> S754_finite true m e) -> f64_lt (f64_ceil x) x = false.
Proof.
  intros Hv Hs. destruct x as [s|s| |s m e]; [done|by destruct s|done|].
  destruct s; [by destruct (Hs m e)|]. clear Hs.
  assert (f64_lt (S754_finite false m e) (S754_finite false m e) = false) as Hrefl.
  { unfold f64_lt, SFltb, SFcompare. rewrite Z.compare_refl.
    change (Pos.compare_cont Eq m m) with (m ?= m)%positive. by rewrite Pos.compare_refl. }
  unfold f64_ceil. destruct (Z.leb_spec 0 e); [done|].
  destruct (Z.eqb_spec (Zpos m `mod` 2 ^ (- e)) 0); [done|].
  destruct (bounded_cases _ _ Hv) as (Hm & _ & _).
  assert (0 < 2 ^ (- e)) as Hp by (apply Z.pow_pos_nonneg; lia).
  set (q := Zpos m / 2 ^ (- e)).
  assert (0 <= q) by (apply Z.div_pos; lia).
  assert (Zpos m < (q + 1) * 2 ^ (- e)) as Hq.
  { pose proof (Z.div_mod (Zpos m) (2 ^ (- e))). pose proof (Z.mod_pos_bound (Zpos m) (2 ^ (- e))).
    unfold q. nia. }
  assert (q + 1 < 2 ^ 53) as Hq53.
  { assert (q < 2 ^ 52); [|lia]. apply Z.div_lt_upper_bound; [done|].
    assert (2 ^ 1 <= 2 ^ (- e)) by (apply Z.pow_le_mono_r; lia). lia. }
  destruct (q + 1) as [|p|p] eqn:Ep; [lia| |lia].
  change (binary_normalize f64_prec f64_emax (Zpos p) 0 false) with (f64_of_Z (Zpos p)).
  destruct (f64_of_pos_small p Hq53) as (m' & e' & -> & Hb & He' & Hm').
  apply not_true_iff_false. intros El.
  apply (compare_pos_lt m' e' m e (Z.min e e')) in El; [|exact Hb|exact Hv|lia|lia].
  rewrite Hm' in El. rewrite <- Z.mul_assoc, <- Z.pow_add_r in El by lia.
  replace (- e' + (e' - Z.min e e')) with (- e + (e - Z.min e e')) in El by lia.
  rewrite Z.pow_add_r in El by lia.
  assert (0 < 2 ^ (e - Z.min e e')) by (apply Z.pow_pos_nonneg; lia). nia.
Qed.

#[export] Hint Resolve f64_mul_valid f64_div_valid f64_add_valid f64_of_Z_is_valid : kubehice.
