(* ===== verification/GoFloatBound.v ===== *)
(** * Bounds on [float64] results

    The value of a rounded result: it is one of the two neighbours of the
    exact one, and does not cross a number that is representable itself.
    From this, bounds on sums, products, quotients and square roots. *)

From Stdlib Require Import SpecFloat.
From S2P Require Import Prelude GoInt GoFloat GoFloatRound.

(** [m * 2^e], in units small enough for all exponents that occur. *)
Definition fval (m e : Z) : Z := m * 2 ^ (e + 3000).

Lemma fval_pos_unit e : -3000 <= e -> 0 < 2 ^ (e + 3000).
Proof. intros. apply Z.pow_pos_nonneg; lia. Qed.

Lemma fval_shift m e k : 0 <= k -> -3000 <= e -> fval m (e + k) = fval (m * 2 ^ k) e.
Proof.
  intros Hk He. unfold fval. replace (e + k + 3000) with (k + (e + 3000)) by lia.
  rewrite Z.pow_add_r by lia. ring.
Qed.

Lemma fval_le m m' e : -3000 <= e -> fval m e <= fval m' e <-> m <= m'.
Proof. intros He. pose proof (fval_pos_unit e He). unfold fval. nia. Qed.

(** ** Rounding *)

(** Shifting out zeros only leaves the result exact. *)
Lemma shr_1_exact m :
  0 <= m -> m `mod` 2 = 0 ->
  shr_1 (Build_shr_record m false false) = Build_shr_record (m / 2) false false.
Proof.
  intros Hm H2. destruct m as [|[p|p|]|p]; try lia; try done.
  - exfalso. rewrite Pos2Z.inj_xI in H2. rewrite Z.mul_comm, Z.add_comm, Z.mod_add in H2 by lia. done.
  - simpl. f_equal. rewrite (Pos2Z.inj_xO p), Z.mul_comm, Z.div_mul by lia. done.
Qed.

Lemma iter_shr_exact p m :
  0 <= m -> m `mod` 2 ^ Zpos p = 0 ->
  iter_pos shr_1 p (Build_shr_record m false false)
  = Build_shr_record (m / 2 ^ Zpos p) false false.
Proof.
  revert m. assert (forall m a b, 0 <= a -> 0 <= b -> m `mod` 2 ^ (a + b) = 0 ->
    m `mod` 2 ^ a = 0 /\ (m / 2 ^ a) `mod` 2 ^ b = 0 /\ m / 2 ^ a / 2 ^ b = m / 2 ^ (a + b)) as Hsplit.
  { intros m a b Ha Hb H. rewrite Z.pow_add_r in * by lia.
    assert (0 < 2 ^ a /\ 0 < 2 ^ b) as [? ?] by (split; apply Z.pow_pos_nonneg; lia).
    apply Z.mod_divide in H; [|lia]. destruct H as [c ->].
    replace (c * (2 ^ a * 2 ^ b)) with (c * 2 ^ b * 2 ^ a) by ring. split_and!.
    - apply Z.mod_mul. lia.
    - rewrite Z.div_mul by lia. apply Z.mod_mul. lia.
    - rewrite !Z.div_mul by lia. rewrite <- Z.mul_assoc, (Z.mul_comm (2 ^ b)), Z.div_mul by lia. done. }
  induction p as [p IH|p IH|]; intros m Hm Hmod; cbn [iter_pos].
  - replace (Zpos p~1) with (1 + (Zpos p + Zpos p)) in * by lia.
    destruct (Hsplit m 1 (Zpos p + Zpos p)) as (H1 & H2 & H3); [lia..|done|].
    rewrite Z.pow_1_r in *. rewrite shr_1_exact by done.
    destruct (Hsplit (m / 2) (Zpos p) (Zpos p)) as (H4 & H5 & H6); [lia..|done|].
    assert (0 <= m / 2) by (apply Z.div_pos; lia).
    rewrite IH, IH; try done; [by rewrite H6, H3|apply Z.div_pos; lia].
  - replace (Zpos p~0) with (Zpos p + Zpos p) in * by lia.
    destruct (Hsplit m (Zpos p) (Zpos p)) as (H4 & H5 & H6); [lia..|done|].
    rewrite IH, IH; try done; [by rewrite H6|apply Z.div_pos; lia].
  - by apply shr_1_exact.
Qed.

Lemma shr_fexp_exact m e :
  0 <= m -> e <= fexp64 (Zdigits2 m + e) ->
  m `mod` 2 ^ (fexp64 (Zdigits2 m + e) - e) = 0 ->
  loc_of_shr_record (shr_fexp f64_prec f64_emax m e loc_Exact).1 = loc_Exact.
Proof.
  intros Hm He Hmod. unfold shr_fexp, shr. simpl.
  destruct (fexp64 (Zdigits2 m + e) - e) as [|p|p] eqn:Ek; [done| |done].
  simpl. by rewrite iter_shr_exact.
Qed.

(** [x] is the float of sign [s] and value [m * 2^e]. *)
Definition represents (s : bool) (x : float64) (m e : Z) : Prop :=
  (m = 0 /\ x = S754_zero s) \/
  exists m' e', x = S754_finite s m' e' /\ bounded f64_prec f64_emax m' e' = true /\
    fval (Zpos m') e' = fval m e.

Lemma round_final_value s m e :
  0 <= m <= 2 ^ 53 -> -1074 <= e <= 970 -> e = -1074 \/ 2 ^ 52 <= m ->
  represents s (let '(mrs, e') := shr_fexp f64_prec f64_emax m e loc_Exact in
             match shr_m mrs with
             | Z0 => S754_zero s
             | Zpos m => if e' <=? f64_emax - f64_prec then S754_finite s m e' else S754_infinity s
             | _ => S754_nan
             end) m e.
Proof.
  intros Hm He Hn. pose proof (round_final_valid s m e Hm ltac:(lia) Hn) as Hv.
  assert (fexp64 (Zdigits2 m + e) = if m =? 2 ^ 53 then e + 1 else e) as Hf.
  { unfold fexp, emin, f64_prec, f64_emax. destruct (Z.eqb_spec m (2 ^ 53)) as [-> |Hne].
    - rewrite (Zdigits2_unique (2 ^ 53) 54) by lia. lia.
    - pose proof (Zdigits2_le m 53 ltac:(lia) ltac:(lia)).
      destruct Hn as [-> |Hn]; [lia|]. pose proof (Zdigits2_ge m 53 ltac:(lia) Hn). lia. }
  destruct (shr_fexp_spec m e loc_Exact) as (r & Hs & Hr); [lia|rewrite Hf; by case_match; lia|].
  rewrite Hs in *. rewrite Hr, Hf in *. destruct (Z.eqb_spec m (2 ^ 53)) as [-> |Hne].
  - replace (e + 1 - e) with 1 in * by lia. change (2 ^ 53 / 2 ^ 1) with (Zpos (2 ^ 52)) in *.
    rewrite (proj2 (Z.leb_le (e + 1) (f64_emax - f64_prec))) in * by (unfold f64_emax, f64_prec; lia).
    right. exists (2 ^ 52)%positive, (e + 1). split_and!; [done|exact Hv|].
    rewrite fval_shift by lia. done.
  - rewrite Z.sub_diag, Z.pow_0_r, Z.div_1_r in *. destruct m as [|p|p]; [by left| |lia].
    rewrite (proj2 (Z.leb_le e (f64_emax - f64_prec))) in * by (unfold f64_emax, f64_prec; lia).
    right. exists p, e. split_and!; [done|exact Hv|done].
Qed.

(** The result of rounding [m * 2^e] (or a little more, if [l] says so) is the
    mantissa cut to 53 bits, or the next one when something was cut off. *)
Lemma round_aux_value s m e l :
  0 <= m -> e <= fexp64 (Zdigits2 m + e) -> fexp64 (Zdigits2 m + e) <= 970 ->
  let e1 := fexp64 (Zdigits2 m + e) in
  let q := m / 2 ^ (e1 - e) in
  exists m1, (m1 = q \/ m1 = q + 1 /\ ~ (l = loc_Exact /\ m `mod` 2 ^ (e1 - e) = 0)) /\
    represents s (binary_round_aux f64_prec f64_emax s m e l) m1 e1.
Proof.
  intros Hm He He1 e1 q. unfold binary_round_aux.
  destruct (shr_fexp_spec m e l Hm He) as (r & Hs & Hr). rewrite Hs.
  destruct (shr_mantissa_bounds m e Hm He) as (Hb & Hn & H1). rewrite <- Hr in Hb, Hn.
  exists (round_nearest_even (shr_m r) (loc_of_shr_record r)). split.
  - destruct (round_nearest_even_cases (shr_m r) (loc_of_shr_record r)) as [H|H].
    + left. by rewrite H.
    + right. split; [by rewrite H, Hr|]. intros [-> Hmod].
      pose proof (shr_fexp_exact m e Hm He Hmod) as Hx. rewrite Hs in Hx. simpl in Hx.
      rewrite Hx in H. simpl in H. lia.
  - apply round_final_value; [|done|];
      destruct (round_nearest_even_cases (shr_m r) (loc_of_shr_record r)) as [-> | ->]; lia.
Qed.

(** ** Upper bounds *)

(** [x] is a non-negative number, at most [b * 2^k]. *)
Definition f64_within (x : float64) (b k : Z) : Prop :=
  match x with
  | S754_zero _ => 0 <= b
  | S754_finite false m e => bounded f64_prec f64_emax m e = true /\ fval (Zpos m) e <= fval b k
  | _ => False
  end.

(** Bounds that are floats themselves. *)
Definition f64_bound (b k : Z) : Prop := 0 <= b < 2 ^ 53 /\ -1074 <= k <= 900.

Definition inexact (l : location) : Z := match l with loc_Exact => 0 | loc_Inexact _ => 1 end.

Lemma exponent_le_bound m e b k :
  0 <= m -> -3000 <= e -> e <= fexp64 (Zdigits2 m + e) -> f64_bound b k ->
  fval m e <= fval b k -> fexp64 (Zdigits2 m + e) <= k.
Proof.
  intros Hm He Hf [Hb Hk] Hle. unfold fexp, emin, f64_prec, f64_emax in *.
  destruct (decide (m = 0)) as [-> |Hm0]; [simpl in *; lia|].
  destruct (Zdigits2_bounds m) as [Hd [Hl _]]; [lia|].
  enough (Zdigits2 m + e <= 53 + k) by lia.
  apply Z.le_ngt. intros Hgt.
  assert (fval (2 ^ 53) k <= fval m e) as H.
  { transitivity (fval (2 ^ (Zdigits2 m - 1)) e); [|by apply fval_le].
    unfold fval. rewrite <- !Z.pow_add_r by lia. apply Z.pow_le_mono_r; lia. }
  assert (fval b k < fval (2 ^ 53) k); [|lia]. pose proof (fval_pos_unit k ltac:(lia)).
  unfold fval. nia.
Qed.

Lemma round_aux_within m e l b k :
  0 <= m -> -3000 <= e -> e <= fexp64 (Zdigits2 m + e) -> f64_bound b k ->
  fval (m + inexact l) e <= fval b k ->
  f64_within (binary_round_aux f64_prec f64_emax false m e l) b k.
Proof.
  intros Hm He Hf HB Hle.
  assert (0 <= inexact l <= 1) as Hl by (destruct l; simpl; lia).
  assert (fexp64 (Zdigits2 m + e) <= k) as Hek.
  { apply (exponent_le_bound m e b k); [done..|]. etransitivity; [|exact Hle]. apply fval_le; lia. }
  destruct HB as [Hb Hk].
  destruct (round_aux_value false m e l Hm Hf ltac:(lia)) as (m1 & Hm1 & Hr).
  set (e1 := fexp64 (Zdigits2 m + e)) in *. set (d := 2 ^ (e1 - e)) in *.
  assert (0 < d) as Hd by (apply Z.pow_pos_nonneg; lia).
  assert (-1074 <= e1) by (unfold e1, fexp, emin, f64_prec, f64_emax; lia).
  assert (fval b k = fval (b * 2 ^ (k - e1)) e1) as Hbk
    by (rewrite <- fval_shift by lia; f_equal; lia).
  set (c := b * 2 ^ (k - e1)) in *.
  assert (m + inexact l <= c * d) as Hcd.
  { apply (fval_le _ _ e He). rewrite Hbk in Hle. etransitivity; [exact Hle|].
    replace e1 with (e + (e1 - e)) by lia. rewrite fval_shift by lia. apply Z.le_refl. }
  pose proof (Z.div_mod m d ltac:(lia)). pose proof (Z.mod_pos_bound m d ltac:(lia)).
  assert (m1 <= c) as Hmc.
  { destruct Hm1 as [-> |[-> Hne]]; [nia|].
    assert (0 < m `mod` d \/ inexact l = 1) as [Hx|Hx]; [|nia..].
    destruct l; simpl; [|by right]. left. destruct (decide (m `mod` d = 0)); [tauto|lia]. }
  unfold f64_within. destruct Hr as [[_ ->]|(m' & e' & -> & Hv & Hfv)]; [lia|].
  split; [done|]. rewrite Hfv, Hbk. apply fval_le; lia.
Qed.

Lemma quotient_bound P d q r C :
  0 < d -> P = d * q + r -> 0 <= r < d -> P <= d * C -> q <= C /\ (r <> 0 -> q + 1 <= C).
Proof.
  intros Hd -> Hr HC. split; [|intros Hne]; apply Z.lt_succ_r, (Z.mul_lt_mono_pos_l d); lia.
Qed.

(** A quotient is at most [b * 2^k] when the dividend is at most that many
    times the divisor. *)
Lemma f64_div_within mx ex my ey b k :
  bounded f64_prec f64_emax mx ex = true -> bounded f64_prec f64_emax my ey = true ->
  f64_bound b k -> Zpos mx * 2 ^ (ex + 6000) <= Zpos my * b * 2 ^ (ey + k + 6000) ->
  f64_within (f64_div (S754_finite false mx ex) (S754_finite false my ey)) b k.
Proof.
  intros Hx Hy HB Hle.
  destruct (bounded_cases _ _ Hx) as (_ & Hex & _), (bounded_cases _ _ Hy) as (_ & Hey & _).
  destruct (div_core_spec mx ex my ey) as (s & e' & Hs & Hse & _ & Hlow & Hd & Hf).
  specialize (Hlow ltac:(lia) ltac:(lia)).
  unfold f64_div, SFdiv. rewrite Hd. simpl xorb.
  assert (0 < 2 ^ s) by (apply Z.pow_pos_nonneg; lia).
  set (P := Zpos mx * 2 ^ s) in *. assert (0 < P) by (unfold P; lia).
  pose proof (Z.div_mod P (Zpos my) ltac:(lia)) as Hdm.
  pose proof (Z.mod_pos_bound P (Zpos my) ltac:(lia)) as Hmb.
  assert (0 <= P / Zpos my) as Hq0 by (apply Z.div_pos; lia).
  assert (fval P e' <= Zpos my * fval b k) as HP.
  { unfold fval. apply (Zmult_le_reg_r _ _ (2 ^ (ey + 3000))); [apply Z.lt_gt, Z.pow_pos_nonneg; lia|].
    etransitivity; [|etransitivity; [exact Hle|]]; apply Z.eq_le_incl.
    - unfold P. rewrite <- !Z.mul_assoc, <- !Z.pow_add_r by lia. do 2 f_equal. lia.
    - destruct HB. replace (ey + k + 6000) with (k + 3000 + (ey + 3000)) by lia.
      rewrite Z.pow_add_r by lia. ring. }
  assert (fval (P / Zpos my) e' <= fval b k) as Hqb.
  { apply (Z.mul_le_mono_pos_l _ _ (Zpos my)); [lia|]. etransitivity; [|exact HP].
    unfold fval. rewrite Z.mul_assoc. apply Z.mul_le_mono_nonneg_r; [|lia].
    pose proof (fval_pos_unit e' Hlow). lia. }
  pose proof (exponent_le_bound _ _ _ _ Hq0 Hlow Hf HB Hqb) as Hek.
  apply round_aux_within; [done..|]. destruct HB as [Hb Hk].
  replace k with (e' + (k - e')) in HP |- * by lia. rewrite fval_shift in HP |- * by lia.
  apply fval_le; [done|].
  assert (P <= Zpos my * (b * 2 ^ (k - e'))) as HPc.
  { apply (fval_le _ _ e' Hlow). etransitivity; [exact HP|]. unfold fval. apply Z.eq_le_incl. ring. }
  destruct (quotient_bound P (Zpos my) _ _ _ ltac:(lia) Hdm Hmb HPc) as [Hq1 Hq2].
  unfold new_location, new_location_even, new_location_odd.
  destruct (Z.even _), (_ =? _) eqn:Hz; simpl inexact; try apply Z.eqb_neq in Hz; lia.
Qed.

Lemma unit_product a b :
  -3000 <= a -> -3000 <= b -> -3000 <= a + b ->
  2 ^ (a + 3000) * 2 ^ (b + 3000) = 2 ^ (a + b + 3000) * 2 ^ 3000.
Proof. intros. rewrite <- !Z.pow_add_r by lia. f_equal. lia. Qed.

Lemma f64_mul_within x y b k c j :
  f64_within x b k -> f64_within y c j -> f64_bound (b * c) (k + j) -> 0 <= b -> 0 <= c ->
  -1074 <= k -> -1074 <= j ->
  f64_within (f64_mul x y) (b * c) (k + j).
Proof.
  intros Hx Hy HB Hb Hc Hk Hj.
  destruct x as [sx|sx| |[] mx ex], y as [sy|sy| |[] my ey]; try done; simpl; try lia.
  destruct Hx as [Hx1 Hx2], Hy as [Hy1 Hy2].
  destruct (bounded_cases _ _ Hx1) as (A1 & A2 & A3), (bounded_cases _ _ Hy1) as (B1 & B2 & B3).
  apply round_aux_within; [lia|lia| |done|].
  - assert (ex + ey <= -1074 \/ 2 ^ 52 <= Zpos (mx * my)) as [H|H].
    { destruct A3 as [-> |]; [destruct B3 as [-> |]; [left; lia|]|]; right; nia. }
    + unfold fexp, emin, f64_prec, f64_emax. lia.
    + pose proof (Zdigits2_ge _ 53 ltac:(lia) H). unfold fexp, emin, f64_prec, f64_emax. lia.
  - simpl inexact. rewrite Z.add_0_r. unfold fval in *.
    apply (Zmult_le_reg_r _ _ (2 ^ 3000)); [by apply Z.lt_gt, Z.pow_pos_nonneg|].
    rewrite Pos2Z.inj_mul, <- !(Z.mul_assoc _ (2 ^ _)), <- !unit_product by lia.
    transitivity (Zpos mx * 2 ^ (ex + 3000) * (Zpos my * 2 ^ (ey + 3000))); [apply Z.eq_le_incl; ring|].
    transitivity (b * 2 ^ (k + 3000) * (c * 2 ^ (j + 3000))); [|apply Z.eq_le_incl; ring].
    apply Z.mul_le_mono_nonneg; try done; (apply Z.mul_nonneg_nonneg; [lia|by apply Z.pow_nonneg]).
Qed.

Lemma shl_align_value m e e' :
  -3000 <= e' -> -3000 <= e ->
  fval (Zpos (shl_align m e e').1) (shl_align m e e').2 = fval (Zpos m) e /\
  (shl_align m e e').2 = Z.min e e'.
Proof.
  intros He' He. unfold shl_align. destruct (e' - e) as [|d|d] eqn:Ed; simpl; [split; [done|lia]..|].
  split; [|lia]. rewrite iter_xO_Z. replace e with (e' + Zpos d) by lia.
  rewrite fval_shift by lia. done.
Qed.

Lemma round_within m e b k :
  -3000 <= e -> f64_bound b k -> fval (Zpos m) e <= fval b k ->
  f64_within (binary_round f64_prec f64_emax false m e) b k.
Proof.
  intros He HB Hle. unfold binary_round.
  assert (-1074 <= fexp64 (Zpos (digits2_pos m) + e)) by (unfold fexp, emin, f64_prec, f64_emax; lia).
  destruct (shl_align_value m e (fexp64 (Zpos (digits2_pos m) + e))) as [Hv Hm]; [lia..|].
  unfold shl_align in *. destruct (fexp64 (Zpos (digits2_pos m) + e) - e) as [|d|d] eqn:Ed;
    simpl in Hv, Hm; (apply round_aux_within; [lia|lia| |done|]); simpl inexact;
    rewrite ?Z.add_0_r; try (by rewrite Hv || done); simpl Zdigits2; try lia.
  rewrite digits2_pos_iter_xO, Pos2Z.inj_add.
  replace (Zpos (digits2_pos m) + Zpos d + fexp64 (Zpos (digits2_pos m) + e))
    with (Zpos (digits2_pos m) + e) by lia. lia.
Qed.

Lemma f64_of_Z_within z : 0 <= z < 2 ^ 53 -> f64_within (f64_of_Z z) z 0.
Proof.
  intros Hz. destruct z as [|p|p]; [done| |lia]. apply round_within; [lia|split; lia|done].
Qed.

Lemma f64_within_weaken x b k c j :
  f64_within x b k -> fval b k <= fval c j -> 0 <= c -> f64_within x c j.
Proof. destruct x as [| | |[] m e]; simpl; try done. intros [? ?] ? ?. split; [done|lia]. Qed.

Lemma f64_add_within x y b c k :
  f64_within x b k -> f64_within y c k -> f64_bound (b + c) k -> 0 <= b -> 0 <= c ->
  f64_within (f64_add x y) (b + c) k.
Proof.
  intros Hx Hy HB Hb Hc. assert (-3000 <= k) as Hk by (destruct HB; lia).
  assert (fval b k <= fval (b + c) k /\ fval c k <= fval (b + c) k) as [Hbc Hcb]
    by (split; apply fval_le; lia).
  destruct x as [sx|sx| |[] mx ex], y as [sy|sy| |[] my ey]; try done.
  - destruct sx, sy; simpl; lia.
  - eapply f64_within_weaken; [exact Hy|done|lia].
  - eapply f64_within_weaken; [exact Hx|done|lia].
  - destruct Hx as [Hx1 Hx2], Hy as [Hy1 Hy2].
    destruct (bounded_cases _ _ Hx1) as (A1 & A2 & A3), (bounded_cases _ _ Hy1) as (B1 & B2 & B3).
    unfold f64_add, SFadd. simpl cond_Zopp.
    destruct (shl_align_value mx ex (Z.min ex ey)) as [Vx Ex]; [lia..|].
    destruct (shl_align_value my ey (Z.min ex ey)) as [Vy Ey]; [lia..|].
    rewrite Ex in Vx. rewrite Ey in Vy. simpl binary_normalize. apply round_within; [lia|done|].
    replace (Z.min ex (Z.min ex ey)) with (Z.min ex ey) in Vx by lia.
    replace (Z.min ey (Z.min ex ey)) with (Z.min ex ey) in Vy by lia.
    rewrite Pos2Z.inj_add. unfold fval in *. rewrite !Z.mul_add_distr_r. lia.
Qed.

(** The integer part of a bounded float. *)
Lemma f64_trunc_within x b k :
  f64_within x b k -> -3000 <= k -> 0 <= b -> exists z, f64_trunc x = Some z /\ 0 <= z /\ fval z 0 <= fval b k.
Proof.
  intros Hx Hk Hb0. destruct x as [s|s| |[] m e]; simpl in *; try done.
  { exists 0. split_and!; [done|done|]. pose proof (fval_pos_unit k Hk). unfold fval. nia. }
  destruct Hx as [Hv Hle]. destruct (bounded_cases _ _ Hv) as (_ & He & _).
  eexists. split; [done|]. destruct (Z.leb_spec 0 e) as [Hpos|Hneg].
  - assert (0 < 2 ^ e) by (apply Z.pow_pos_nonneg; lia). split; [lia|].
    etransitivity; [|exact Hle]. rewrite <- fval_shift by lia. done.
  - assert (0 < 2 ^ (- e)) by (apply Z.pow_pos_nonneg; lia).
    split; [apply Z.div_pos; lia|]. etransitivity; [|exact Hle].
    replace 0 with (e + - e) by lia. rewrite fval_shift by lia. apply fval_le; [lia|].
    rewrite Z.mul_comm. apply Z.mul_div_le. lia.
Qed.

Lemma int64_of_f64_trunc {arch : GoArch} x z :
  f64_trunc x = Some z -> 0 <= z < 2 ^ 53 -> int64_of_f64 x = z.
Proof.
  intros Hz Hr. unfold int64_of_f64. rewrite Hz.
  by rewrite (proj2 (Z.leb_le _ _)), (proj2 (Z.leb_le _ _)) by (int_unfold; lia).
Qed.

Lemma int64_of_f64_within {arch : GoArch} x b :
  f64_within x b 0 -> 0 <= b < 2 ^ 53 -> 0 <= int64_of_f64 x <= b.
Proof.
  intros Hx Hb. destruct (f64_trunc_within x b 0 Hx) as (z & Hz & H0 & Hle); [lia..|].
  apply fval_le in Hle; [|lia]. rewrite (int64_of_f64_trunc x z Hz); lia.
Qed.

(** A bound that is not an integer: what is left over is cut off. *)
Lemma int64_of_f64_half {arch : GoArch} x b :
  f64_within x (2 * b + 1) (-1) -> 0 <= b < 2 ^ 52 -> 0 <= int64_of_f64 x <= b.
Proof.
  intros Hx Hb. destruct (f64_trunc_within x _ _ Hx) as (z & Hz & H0 & Hle); [lia..|].
  replace 0 with (-1 + 1) in Hle at 1 by lia. rewrite fval_shift in Hle by lia.
  apply fval_le in Hle; [|lia]. rewrite (int64_of_f64_trunc x z Hz); lia.
Qed.

(** ** Comparisons *)

Lemma compare_fval m1 e1 m2 e2 :
  bounded f64_prec f64_emax m1 e1 = true -> bounded f64_prec f64_emax m2 e2 = true ->
  f64_lt (S754_finite false m1 e1) (S754_finite false m2 e2) = true <->
  fval (Zpos m1) e1 < fval (Zpos m2) e2.
Proof.
  intros H1 H2.
  destruct (bounded_cases _ _ H1) as (_ & R1 & _), (bounded_cases _ _ H2) as (_ & R2 & _).
  assert (forall a ea c ec, bounded f64_prec f64_emax a ea = true ->
    bounded f64_prec f64_emax c ec = true -> -1074 <= ea -> -1074 <= ec ->
    f64_lt (S754_finite false a ea) (S754_finite false c ec) = true ->
    fval (Zpos a) ea < fval (Zpos c) ec) as Hlt.
  { intros a ea c ec Ha Hc Hea Hec Hl. apply (compare_pos_lt a ea c ec (-3000)) in Hl; [|done|done|lia..].
    replace (ea - -3000) with (ea + 3000) in Hl by lia.
    replace (ec - -3000) with (ec + 3000) in Hl by lia. exact Hl. }
  split; [apply Hlt; done || lia|]. intros Hv.
  destruct (f64_lt (S754_finite false m1 e1) (S754_finite false m2 e2)) eqn:E; [done|exfalso].
  destruct (f64_lt (S754_finite false m2 e2) (S754_finite false m1 e1)) eqn:E'.
  - apply Hlt in E'; done || lia.
  - unfold f64_lt, SFltb, SFcompare in E, E'. rewrite (Z.compare_antisym e1 e2) in E'.
    destruct (Z.compare_spec e1 e2) as [-> |?|?]; simpl in *; try done.
    change (Pos.compare_cont Eq m1 m2) with (m1 ?= m2)%positive in E.
    change (Pos.compare_cont Eq m2 m1) with (m2 ?= m1)%positive in E'.
    rewrite (Pos.compare_antisym m1 m2) in E'.
    destruct (Pos.compare_spec m1 m2) as [-> |?|?]; simpl in *; try done. lia.
Qed.

(** The non-negative numbers, infinity included. *)
Definition f64_nonneg (x : float64) : Prop :=
  match x with
  | S754_zero _ | S754_infinity false => True
  | S754_finite false m e => bounded f64_prec f64_emax m e = true
  | _ => False
  end.

Lemma within_of_not_gt x z :
  f64_nonneg x -> 0 < z < 2 ^ 53 -> f64_gt x (f64_of_Z z) = false -> f64_within x z 0.
Proof.
  intros Hx Hz. destruct z as [|p|p]; try lia.
  destruct (f64_of_pos_small p) as (m & e & -> & Hb & He & Hm); [lia|].
  destruct x as [s|[]| |[] mx ex]; simpl in Hx |- *; try done. intros Hgt. split; [done|].
  apply Z.nlt_ge. intros Hlt. apply not_true_iff_false in Hgt. apply Hgt.
  apply compare_fval; [done..|]. destruct (bounded_cases _ _ Hb) as (_ & R & _).
  enough (fval (Zpos m) e = fval (Zpos p) 0) by lia.
  rewrite Hm. rewrite <- fval_shift by lia. f_equal. lia.
Qed.

(** Dividing a bounded number. *)
Lemma f64_div_bounded x bx kx my ey b k :
  f64_within x bx kx -> bounded f64_prec f64_emax my ey = true -> f64_bound b k -> -3000 <= kx ->
  fval bx (kx + 3000) <= Zpos my * fval b (ey + k + 3000) ->
  f64_within (f64_div x (S754_finite false my ey)) b k.
Proof.
  intros Hx Hy HB Hkx Hle. destruct x as [s|s| |[] mx ex]; simpl in Hx; try done.
  { destruct HB. simpl. lia. }
  destruct Hx as [Hbx Hx]. apply f64_div_within; [done..|].
  destruct (bounded_cases _ _ Hbx) as (_ & Rx & _), (bounded_cases _ _ Hy) as (_ & Ry & _). destruct HB as [HB Hk].
  unfold fval in *. replace (ex + 6000) with (ex + 3000 + 3000) by lia. rewrite Z.pow_add_r by lia.
  replace (kx + 3000 + 3000) with (kx + 3000 + 3000) in Hle by lia. rewrite (Z.pow_add_r 2 (kx + 3000)) in Hle by lia.
  replace (ey + k + 6000) with (ey + k + 3000 + 3000) by lia. nia.
Qed.

(** Dividing integers. *)
Lemma f64_div_of_Z_within x y b :
  0 <= x < 2 ^ 53 -> 0 < y < 2 ^ 53 -> 0 <= b < 2 ^ 53 -> x <= b * y ->
  f64_within (f64_div (f64_of_Z x) (f64_of_Z y)) b 0.
Proof.
  intros Hx Hy Hb Hle. destruct y as [|py|py]; try lia.
  destruct (f64_of_pos_small py) as (my & ey & -> & Hby & Hey & Hmy); [lia|].
  destruct x as [|px|px]; [simpl; lia| |lia].
  destruct (f64_of_pos_small px) as (mx & ex & -> & Hbx & Hex & Hmx); [lia|].
  destruct (bounded_cases _ _ Hbx) as (_ & Rx & _), (bounded_cases _ _ Hby) as (_ & Ry & _).
  apply f64_div_within; [done..|split; lia|]. rewrite Hmx, Hmy, Z.add_0_r.
  replace (Zpos px * 2 ^ (- ex) * 2 ^ (ex + 6000)) with (Zpos px * 2 ^ 6000)
    by (rewrite <- Z.mul_assoc, <- Z.pow_add_r by lia; do 2 f_equal; lia).
  replace (Zpos py * 2 ^ (- ey) * b * 2 ^ (ey + 6000)) with (b * Zpos py * 2 ^ 6000).
  - apply Z.mul_le_mono_nonneg_r; [by apply Z.pow_nonneg|done].
  - replace (2 ^ 6000) with (2 ^ (- ey) * 2 ^ (ey + 6000))
      by (rewrite <- Z.pow_add_r by lia; f_equal; lia). ring.
Qed.

Lemma f64_max_within x y b k : f64_within x b k -> f64_within y b k -> f64_within (f64_max x y) b k.
Proof.
  destruct x as [[]|[]| |[] mx ex], y as [[]|[]| |[] my ey]; try done;
    intros Hx Hy; unfold f64_max; case_match; done.
Qed.

Lemma le_of_lt x y : f64_lt x y = true -> f64_le x y = true.
Proof. unfold f64_lt, f64_le, SFltb, SFleb. by destruct (SFcompare x y) as [[]|]. Qed.

(** A number that is not above another. *)
Lemma within_of_not_le x m e :
  f64_nonneg x -> bounded f64_prec f64_emax m e = true -> f64_le (S754_finite false m e) x = false ->
  f64_within x (Zpos m) e.
Proof.
  intros Hx Hb Hle. destruct x as [s|[]| |[] mx ex]; simpl in Hx |- *; try done. split; [done|].
  apply Z.nlt_ge. intros Hlt. apply not_true_iff_false in Hle. apply Hle, le_of_lt.
  by apply compare_fval.
Qed.

(** ** Non-negative results *)

Lemma shr_fexp_nonneg m e l : 0 <= m -> 0 <= shr_m (shr_fexp f64_prec f64_emax m e l).1.
Proof.
  intros Hm. assert (shr_m (shr_record_of_loc m l) = m) as Hl by (by destruct l as [|[]]).
  unfold shr_fexp, shr. destruct (_ - e) as [|p|p]; simpl; rewrite ?iter_shr_div, ?Hl; try lia.
  apply Z.div_pos; [done|]. apply Z.pow_pos_nonneg; lia.
Qed.

Lemma round_aux_nonneg m e l :
  0 <= m -> e <= fexp64 (Zdigits2 m + e) -> f64_nonneg (binary_round_aux f64_prec f64_emax false m e l).
Proof.
  intros Hm He. pose proof (round_aux_valid false m e l Hm He) as Hv. revert Hv.
  unfold binary_round_aux.
  pose proof (shr_fexp_nonneg m e l Hm) as H1. destruct (shr_fexp _ _ m e l) as [r e1]. simpl in H1.
  set (m1 := round_nearest_even _ _).
  assert (0 <= m1) as Hm1
    by (unfold m1; destruct (round_nearest_even_cases (shr_m r) (loc_of_shr_record r)) as [-> | ->]; lia).
  pose proof (shr_fexp_nonneg m1 e1 loc_Exact Hm1) as H2.
  destruct (shr_fexp _ _ m1 e1 loc_Exact) as [r' e2]. simpl in H2.
  destruct (shr_m r'); [done| |lia]. by destruct (e2 <=? _).
Qed.

Lemma f64_add_nonneg x y : f64_nonneg x -> f64_nonneg y -> f64_nonneg (f64_add x y).
Proof.
  destruct x as [[]|[]| |[] mx ex], y as [[]|[]| |[] my ey]; try done. intros _ _.
  unfold f64_add, SFadd. simpl cond_Zopp. simpl binary_normalize.
  unfold binary_round, shl_align. generalize (Z.min ex ey). intros ez.
  generalize (match ez - ex with Zneg d => (Pos.iter xO mx d, ez) | _ => (mx, ex) end).
  generalize (match ez - ey with Zneg d => (Pos.iter xO my d, ez) | _ => (my, ey) end).
  intros [a ?] [c ?]. simpl. set (p := (c + a)%positive).
  destruct (fexp64 (Zpos (digits2_pos p) + ez) - ez) as [|k|k] eqn:Ek;
    (apply round_aux_nonneg; [lia|]); simpl Zdigits2; [lia..|].
  rewrite digits2_pos_iter_xO, Pos2Z.inj_add.
  replace (Zpos (digits2_pos p) + Zpos k + fexp64 (Zpos (digits2_pos p) + ez))
    with (Zpos (digits2_pos p) + ez) by lia. lia.
Qed.

(** Dividing by a positive number. *)
Lemma f64_div_nonneg x my ey :
  f64_nonneg x -> f64_nonneg (f64_div x (S754_finite false my ey)).
Proof.
  destruct x as [[]|[]| |[] mx ex]; try done. intros _.
  destruct (div_core_spec mx ex my ey) as (s & e' & Hs & _ & _ & _ & Hd & Hf).
  unfold f64_div, SFdiv. rewrite Hd. assert (0 < 2 ^ s) by (apply Z.pow_pos_nonneg; lia).
  apply round_aux_nonneg; [apply Z.div_pos; lia|done].
Qed.

Lemma f64_max_nonneg x y : f64_nonneg x -> f64_nonneg y -> f64_nonneg (f64_max x y).
Proof.
  destruct x as [[]|[]| |[] mx ex], y as [[]|[]| |[] my ey]; try done;
    intros Hx Hy; unfold f64_max; case_match; done.
Qed.

Lemma f64_of_Z_nonneg z : 0 <= z < 2 ^ 53 -> f64_nonneg (f64_of_Z z).
Proof.
  intros Hz. pose proof (f64_of_Z_within z Hz) as H.
  destruct (f64_of_Z z) as [| | |[] ? ?]; simpl in *; tauto.
Qed.

#[export] Hint Resolve f64_add_nonneg f64_div_nonneg f64_max_nonneg f64_of_Z_nonneg : kubehice.

(** * Differences, square roots and rounding of [float64]

    [math.Abs], [math.Sqrt] and [math.Round], with bounds on their results
    and on differences. *)

Definition f64_abs (x : float64) : float64 := SFabs x.
Definition f64_sqrt (x : float64) : float64 := SFsqrt f64_prec f64_emax x.

(** [math.Round]: to the nearest integer, halves away from zero. *)
Definition f64_round (x : float64) : float64 :=
  match x with
  | S754_finite s m e =>
      if 0 <=? e then x
      else
        let d := 2 ^ (- e) in
        let q := (2 * Zpos m + d) / (2 * d) in
        binary_normalize f64_prec f64_emax (if s then - q else q) 0 s
  | _ => x
  end.

Example f64_round_ex :
  let half n := f64_div (f64_of_Z n) (f64_of_Z 2) in
  map (fun n => f64_trunc (f64_round (half n))) [1; 2; 3; 5; -1; -3; -4] = map Some [1; 1; 2; 3; -1; -2; -2].
Proof. vm_compute. reflexivity. Qed.

Example f64_sqrt_ex : f64_sqrt (f64_of_Z 144) = f64_of_Z 12.
Proof. vm_compute. reflexivity. Qed.

(** ** Differences *)

(** A number of either sign, at most [b * 2^k] away from zero. *)
Definition f64_abs_within (x : float64) (b k : Z) : Prop := f64_within (f64_abs x) b k.

Lemma SFabs_round_aux s m e l :
  SFabs (binary_round_aux f64_prec f64_emax s m e l) = SFabs (binary_round_aux f64_prec f64_emax false m e l).
Proof.
  unfold binary_round_aux. destruct (shr_fexp _ _ m e l) as [r e1].
  destruct (shr_fexp _ _ _ e1 loc_Exact) as [r' e2]. destruct (shr_m r'); try done. by destruct (e2 <=? _).
Qed.

Lemma round_aux_abs_within s m e l b k :
  f64_within (binary_round_aux f64_prec f64_emax false m e l) b k ->
  f64_abs_within (binary_round_aux f64_prec f64_emax s m e l) b k.
Proof.
  unfold f64_abs_within, f64_abs. rewrite SFabs_round_aux.
  by destruct (binary_round_aux _ _ _ _ _ _) as [| | |[]].
Qed.

Lemma round_abs_within s p e b k :
  -3000 <= e -> f64_bound b k -> fval (Zpos p) e <= fval b k ->
  f64_abs_within (binary_round f64_prec f64_emax s p e) b k.
Proof.
  intros He HB Hle. pose proof (round_within p e b k He HB Hle) as H. revert H. unfold binary_round.
  destruct (shl_align _ _ _) as [mz ez]. apply round_aux_abs_within.
Qed.

Lemma normalize_abs_within z e s b k :
  -3000 <= e -> f64_bound b k -> fval (Z.abs z) e <= fval b k ->
  f64_abs_within (binary_normalize f64_prec f64_emax z e s) b k.
Proof.
  intros He HB Hle. destruct z as [|p|p]; simpl; [|by apply round_abs_within..].
  destruct HB as [HB _]. unfold f64_abs_within. simpl. lia.
Qed.

(** The operands of a sum, aligned. *)
Lemma aligned mx ex my ey :
  -1074 <= ex -> -1074 <= ey ->
  let ez := Z.min ex ey in
  fval (Zpos (shl_align mx ex ez).1) ez = fval (Zpos mx) ex /\
  fval (Zpos (shl_align my ey ez).1) ez = fval (Zpos my) ey.
Proof.
  intros Hx Hy ez. unfold ez.
  destruct (shl_align_value mx ex (Z.min ex ey)) as [Vx Ex]; [lia..|].
  destruct (shl_align_value my ey (Z.min ex ey)) as [Vy Ey]; [lia..|].
  rewrite Ex in Vx. rewrite Ey in Vy.
  replace (Z.min ex (Z.min ex ey)) with (Z.min ex ey) in Vx by lia.
  replace (Z.min ey (Z.min ex ey)) with (Z.min ex ey) in Vy by lia. done.
Qed.

(** The difference of two numbers between 0 and a bound. *)
Lemma f64_sub_abs_within x y b k :
  f64_within x b k -> f64_within y b k -> f64_bound b k -> f64_abs_within (f64_sub x y) b k.
Proof.
  intros Hx Hy HB. unfold f64_abs_within.
  destruct x as [sx|sx| |[] mx ex], y as [sy|sy| |[] my ey]; try done.
  - by destruct sx, sy.
  - destruct Hx as [Hx1 Hx2], Hy as [Hy1 Hy2].
    destruct (bounded_cases _ _ Hx1) as (A1 & A2 & A3), (bounded_cases _ _ Hy1) as (B1 & B2 & B3).
    destruct (aligned mx ex my ey) as [Vx Vy]; [lia..|].
    unfold f64_sub, SFsub. simpl cond_Zopp. apply normalize_abs_within; [lia|done|].
    rewrite <- Vx in Hx2. rewrite <- Vy in Hy2. unfold fval in *.
    pose proof (fval_pos_unit (Z.min ex ey) ltac:(lia)) as Hu. nia.
Qed.

Definition f64_value_le (y x : float64) : Prop :=
  match y, x with
  | S754_zero _, _ => True
  | S754_finite _ my ey, S754_finite _ mx ex => fval (Zpos my) ey <= fval (Zpos mx) ex
  | _, _ => False
  end.

(** Subtracting a number that is not larger leaves one between 0 and the bound. *)
Lemma f64_sub_within x y b k :
  f64_within x b k -> f64_within y b k -> f64_value_le y x -> f64_bound b k ->
  f64_within (f64_sub x y) b k.
Proof.
  intros Hx Hy Hle HB.
  destruct x as [sx|sx| |[] mx ex], y as [sy|sy| |[] my ey]; try done.
  - by destruct sx, sy.
  - destruct Hx as [Hx1 Hx2], Hy as [Hy1 Hy2].
    destruct (bounded_cases _ _ Hx1) as (A1 & A2 & A3), (bounded_cases _ _ Hy1) as (B1 & B2 & B3).
    destruct (aligned mx ex my ey) as [Vx Vy]; [lia..|].
    unfold f64_sub, SFsub. simpl cond_Zopp. simpl in Hle. rewrite <- Vx, <- Vy in Hle. rewrite <- Vx in Hx2.
    apply fval_le in Hle; [|lia].
    destruct (Zpos (shl_align mx ex (Z.min ex ey)).1 - Zpos (shl_align my ey (Z.min ex ey)).1)
      as [|p|p] eqn:Ep; [|..|lia].
    + simpl. destruct HB. lia.
    + simpl binary_normalize. apply round_within; [lia|done|]. etransitivity; [|exact Hx2].
      apply fval_le; lia.
Qed.

Lemma f64_within_value x b k : f64_within x b k -> 0 <= b -> -3000 <= k ->
  match x with S754_finite _ m e => fval (Zpos m) e <= fval b k | _ => True end.
Proof. destruct x as [| | |[]]; simpl; try done. by intros [_ ?]. Qed.

(** A square is not negative. *)
Lemma f64_square_within x b k :
  f64_abs_within x b k -> f64_bound (b * b) (k + k) -> 0 <= b -> -1074 <= k ->
  f64_within (f64_mul x x) (b * b) (k + k).
Proof.
  intros Hx HB Hb Hk. assert (f64_mul x x = f64_mul (f64_abs x) (f64_abs x)) as ->.
  { destruct x as [[]|[]| |[] m e]; done. }
  by apply f64_mul_within.
Qed.

(** ** Square roots *)

(** The significand is scaled so that its root has enough digits. *)
Lemma sqrt_core_spec m e :
  -1074 <= e ->
  exists s e', 0 <= s /\ e = s + 2 * e' /\ -3000 <= e' /\
    (exists l, SFsqrt_core_binary f64_prec f64_emax (Zpos m) e = (Z.sqrt (Zpos m * 2 ^ s), e', l) /\
      (inexact l = 0 \/ Z.sqrt (Zpos m * 2 ^ s) * Z.sqrt (Zpos m * 2 ^ s) < Zpos m * 2 ^ s)) /\
    e' <= fexp64 (Zdigits2 (Z.sqrt (Zpos m * 2 ^ s)) + e').
Proof.
  intros He. unfold SFsqrt_core_binary.
  set (d := Zdigits2 (Zpos m)). set (e' := Z.min (fexp64 (Z.div2 (d + e + 1))) (Z.div2 e)).
  set (s := e - 2 * e').
  assert (Z.div2 e = e / 2) as He2 by apply Z.div2_div.
  assert (0 <= s) by (pose proof (Z.div_mod e 2 ltac:(lia)); pose proof (Z.mod_pos_bound e 2); lia).
  exists s, e'. assert (0 < 2 ^ s) as Hs by (apply Z.pow_pos_nonneg; lia).
  assert (match s with Zpos _ => Z.shiftl (Zpos m) s | Z0 => Zpos m | Zneg _ => 0 end = Zpos m * 2 ^ s) as ->.
  { destruct s as [|p|p]; [simpl; lia|rewrite Z.shiftl_mul_pow2; lia|lia]. }
  set (M := Zpos m * 2 ^ s) in *. assert (0 < M) as HM by (unfold M; lia).
  split_and!; [done|lia| | |].
  - assert (-1074 <= fexp64 (Z.div2 (d + e + 1))) by (unfold fexp, emin, f64_prec, f64_emax; lia).
    pose proof (Z.div_mod e 2 ltac:(lia)). pose proof (Z.mod_pos_bound e 2 ltac:(lia)). lia.
  - pose proof (Z.sqrtrem_sqrt M) as Hq. pose proof (Z.sqrtrem_spec M ltac:(lia)) as Hspec.
    destruct (Z.sqrtrem M) as [q r]. simpl in Hq. subst q.
    eexists. split; [reflexivity|]. destruct Hspec as [Hr Hb].
    destruct (Z.eqb_spec r 0) as [-> |Hne]; [by left|right]. lia.
  - transitivity (fexp64 (Z.div2 (d + e + 1))); [lia|]. apply fexp64_mono.
    destruct (Zdigits2_bounds (Zpos m)) as (Hd & Hl & Hu); [lia|]. fold d in Hd, Hl, Hu.
    assert (Z.div2 (d + e + 1) = (d + s + 1) / 2 + e') as ->.
    { rewrite Z.div2_div. replace (d + e + 1) with (d + s + 1 + e' * 2) by lia. by rewrite Z.div_add. }
    enough ((d + s + 1) / 2 <= Zdigits2 (Z.sqrt M)) by lia.
    assert (1 <= (d + s + 1) / 2) by (apply Z.div_le_lower_bound; lia).
    apply Zdigits2_ge; [lia|]. apply Z.sqrt_le_square; [lia|by apply Z.pow_nonneg|].
    rewrite <- Z.pow_add_r by lia. transitivity (2 ^ (d - 1 + s)).
    + apply Z.pow_le_mono_r; [lia|].
      pose proof (Z.div_mod (d + s + 1) 2 ltac:(lia)). pose proof (Z.mod_pos_bound (d + s + 1) 2 ltac:(lia)). lia.
    + rewrite Z.pow_add_r by lia. unfold M. apply Z.mul_le_mono_nonneg_r; lia.
Qed.

(** The root of a number that is at most [(b * 2^k)^2]. *)
Lemma f64_sqrt_within x b k :
  f64_within x (b * b) (k + k) -> f64_bound b k -> 0 <= b -> -500 <= k ->
  f64_within (f64_sqrt x) b k.
Proof.
  intros Hx HB Hb Hk. destruct x as [s|s| |[] m e]; simpl in Hx; try done.
  destruct Hx as [Hx1 Hx2]. destruct (bounded_cases _ _ Hx1) as (A1 & A2 & A3).
  destruct (sqrt_core_spec m e) as (s & e' & Hs & Hse & He' & (l & Hc & Hl) & Hf); [lia|].
  unfold f64_sqrt, SFsqrt. rewrite Hc. set (M := Zpos m * 2 ^ s) in *.
  assert (0 < 2 ^ s) by (apply Z.pow_pos_nonneg; lia). assert (0 < M) as HM by (unfold M; lia).
  pose proof (Z.sqrt_spec M ltac:(lia)) as [Hq1 Hq2]. pose proof (Z.sqrt_nonneg M) as Hq0.
  assert (M * 2 ^ (2 * (e' + 3000)) <= (b * 2 ^ (k + 3000)) * (b * 2 ^ (k + 3000))) as HMb.
  { assert (b * 2 ^ (k + 3000) * (b * 2 ^ (k + 3000)) = fval (b * b) (k + k) * 2 ^ 3000) as ->.
    { unfold fval. transitivity (b * b * (2 ^ (k + 3000) * 2 ^ (k + 3000))); [ring|].
      rewrite unit_product by lia. ring. }
    assert (M * 2 ^ (2 * (e' + 3000)) = fval (Zpos m) e * 2 ^ 3000) as ->.
    { unfold M, fval. rewrite <- !Z.mul_assoc, <- !Z.pow_add_r by lia. do 2 f_equal. lia. }
    apply Z.mul_le_mono_nonneg_r; [by apply Z.pow_nonneg|done]. }
  assert (forall r, 0 <= r -> r * r <= M -> fval r e' <= fval b k) as Hroot.
  { intros r Hr Hrr. apply Z.square_le_simpl_nonneg.
    { apply Z.mul_nonneg_nonneg; [done|by apply Z.pow_nonneg]. }
    etransitivity; [|exact HMb]. unfold fval.
    replace (2 * (e' + 3000)) with (e' + 3000 + (e' + 3000)) by lia. rewrite (Z.pow_add_r 2 (e' + 3000)) by lia.
    replace (r * 2 ^ (e' + 3000) * (r * 2 ^ (e' + 3000))) with (r * r * (2 ^ (e' + 3000) * 2 ^ (e' + 3000))) by ring.
    apply Z.mul_le_mono_nonneg_r; [|done]. apply Z.mul_nonneg_nonneg; by apply Z.pow_nonneg. }
  pose proof (Hroot _ Hq0 Hq1) as Hqb.
  pose proof (exponent_le_bound _ _ _ _ Hq0 He' Hf HB Hqb) as Hek.
  apply round_aux_within; [done..|].
  destruct Hl as [-> |Hlt]; [by rewrite Z.add_0_r|].
  assert (0 <= inexact l <= 1) by (destruct l; simpl; lia).
  replace k with (e' + (k - e')) in Hqb |- * by lia. rewrite fval_shift in Hqb |- * by lia.
  apply fval_le in Hqb; [|lia]. apply fval_le; [lia|].
  enough (Z.sqrt M < b * 2 ^ (k - e')) by lia.
  apply Z.square_lt_simpl_nonneg; [apply Z.mul_nonneg_nonneg; [done|by apply Z.pow_nonneg]|].
  apply (Z.lt_le_trans _ _ _ Hlt). apply (Z.mul_le_mono_pos_r _ _ (2 ^ (2 * (e' + 3000)))).
  { apply Z.pow_pos_nonneg; lia. }
  etransitivity; [exact HMb|]. apply Z.eq_le_incl.
  replace (k + 3000) with (k - e' + (e' + 3000)) by lia. rewrite Z.pow_add_r by lia.
  replace (2 * (e' + 3000)) with (e' + 3000 + (e' + 3000)) by lia. rewrite (Z.pow_add_r 2 (e' + 3000)) by lia. ring.
Qed.

(** ** Rounding to an integer *)

Lemma f64_round_within x b : f64_within x b 0 -> 0 <= b < 2 ^ 53 -> f64_within (f64_round x) b 0.
Proof.
  intros Hx Hb. destruct x as [s|s| |[] m e]; try done. destruct Hx as [Hv Hle].
  destruct (bounded_cases _ _ Hv) as (A1 & A2 & A3). unfold f64_round.
  destruct (Z.leb_spec 0 e) as [He|He]; [done|].
  set (d := 2 ^ (- e)). assert (0 < d) as Hd by (apply Z.pow_pos_nonneg; lia).
  replace 0 with (e + - e) in Hle by lia. rewrite fval_shift in Hle by lia. apply fval_le in Hle; [|lia]. fold d in Hle.
  set (q := (2 * Zpos m + d) / (2 * d)).
  assert (0 <= q <= b) as Hq.
  { split; [apply Z.div_pos; lia|]. unfold q. apply Z.lt_succ_r, Z.div_lt_upper_bound; nia. }
  assert (f64_within (f64_of_Z q) q 0) as H by (apply f64_of_Z_within; lia).
  eapply f64_within_weaken; [exact H|apply fval_le; lia|lia].
Qed.
