(* ===== verification/GoStrconv.v ===== *)
(** * Go's [strconv] and [strings]

    The conversions between strings and numbers that the scheduler uses:
    [strconv.Itoa], [strconv.ParseInt(s, 10, 64)] and
    [strconv.ParseFloat(s, 64)], with the predicates of package [strings]. *)

From S2P Require Import Prelude GoInt GoFloat.

(** ** Characters *)

Definition is_digit (c : Ascii.ascii) : bool :=
  let n := Ascii.nat_of_ascii c in (48 <=? n)%nat && (n <=? 57)%nat.

Definition digit_val (c : Ascii.ascii) : Z := Z.of_nat (Ascii.nat_of_ascii c) - 48.

Definition digit_char (d : Z) : Ascii.ascii := Ascii.ascii_of_nat (Z.to_nat (d + 48)).

Definition lower (c : Ascii.ascii) : Ascii.ascii :=
  let n := Ascii.nat_of_ascii c in
  if (65 <=? n)%nat && (n <=? 90)%nat then Ascii.ascii_of_nat (n + 32) else c.

Definition hex_val (c : Ascii.ascii) : option Z :=
  let n := Z.of_nat (Ascii.nat_of_ascii (lower c)) in
  if is_digit c then Some (digit_val c)
  else if (97 <=? n) && (n <=? 102) then Some (n - 87) else None.

(** ** Package [strings] *)

Fixpoint str_app (a b : string) : string :=
  match a with EmptyString => b | String c a' => String c (str_app a' b) end.

Fixpoint HasPrefix (s p : string) : bool :=
  match p, s with
  | EmptyString, _ => true
  | String c p', String d s' => Ascii.eqb c d && HasPrefix s' p'
  | _, EmptyString => false
  end.

Definition HasSuffix (s p : string) : bool :=
  HasPrefix (String.rev s) (String.rev p).

Fixpoint Contains (s sub : string) : bool :=
  HasPrefix s sub || match s with EmptyString => false | String _ s' => Contains s' sub end.

Fixpoint str_mem (c : Ascii.ascii) (s : string) : bool :=
  match s with EmptyString => false | String d s' => Ascii.eqb c d || str_mem c s' end.

(** [strings.Split(s, sep)[0]] for a one-character separator. *)
Fixpoint split_head (sep : Ascii.ascii) (s : string) : string :=
  match s with
  | EmptyString => EmptyString
  | String c s' => if Ascii.eqb c sep then EmptyString else String c (split_head sep s')
  end.

(** [strings.Join(l, sep)] *)
Fixpoint Join (l : list string) (sep : string) : string :=
  match l with
  | [] => ""
  | [s] => s
  | s :: l' => str_app s (str_app sep (Join l' sep))
  end.

(** The longest prefix of digits, and the rest. *)
Fixpoint span_digits (s : string) : string * string :=
  match s with
  | EmptyString => (EmptyString, EmptyString)
  | String c s' =>
      if is_digit c then let '(a, b) := span_digits s' in (String c a, b)
      else (EmptyString, s)
  end.

Definition all_digits (s : string) : bool :=
  match span_digits s with (_, EmptyString) => true | _ => false end.

(** The number a digit string stands for. *)
Fixpoint digits_num (acc : Z) (s : string) : Z :=
  match s with
  | EmptyString => acc
  | String c s' => digits_num (acc * 10 + digit_val c) s'
  end.

(** ** [strconv.Itoa] *)

Fixpoint to_digits (fuel : nat) (n : Z) (acc : string) : string :=
  match fuel with
  | O => acc
  | S f =>
      let acc' := String (digit_char (n `mod` 10)) acc in
      if n <? 10 then acc' else to_digits f (n / 10) acc'
  end.

(** Decimal digits of a natural number; a number has at most as many decimal
    digits as binary ones, which is the fuel. *)
Definition digits_of (n : Z) : string := to_digits (S (Z.to_nat (Z.log2 n))) n "".

Definition Itoa (z : Z) : string :=
  if z <? 0 then String "-"%char (digits_of (- z)) else digits_of z.

(** ** [strconv.ParseInt(s, 10, 64)] *)

Definition ErrSyntax : string := "invalid syntax".
Definition ErrRange : string := "value out of range".

Definition ParseInt (s : string) : Z * error :=
  let '(neg, u) :=
    match s with
    | String c s' =>
        if Ascii.eqb c "+"%char then (false, s')
        else if Ascii.eqb c "-"%char then (true, s') else (false, s)
    | EmptyString => (false, s)
    end in
  if (String.length u =? 0)%nat || negb (all_digits u) then (0, Some ErrSyntax)
  else
    let n := digits_num 0 u in
    if neg then (if n <=? 2 ^ 63 then (- n, None) else (MinInt64, Some ErrRange))
    else (if n <=? MaxInt64 then (n, None) else (MaxInt64, Some ErrRange)).

(** ** [strconv.ParseFloat(s, 64)] *)

(** [underscoreOK]: underscores stand between digits, or between a base
    prefix and a digit.  [prev] is ["0"] after a digit, ["_"] after an
    underscore, and anything else otherwise. *)
Fixpoint underscore_loop (hex : bool) (prev : Ascii.ascii) (s : string) : bool :=
  match s with
  | EmptyString => negb (Ascii.eqb prev "_"%char)
  | String c s' =>
      if is_digit c || (hex && match hex_val c with Some _ => true | None => false end)
      then underscore_loop hex "0"%char s'
      else if Ascii.eqb c "_"%char
      then if Ascii.eqb prev "0"%char then underscore_loop hex "_"%char s' else false
      else if Ascii.eqb prev "_"%char then false else underscore_loop hex "!"%char s'
  end.

Definition strip_sign (s : string) : bool * string :=
  match s with
  | String c s' =>
      if Ascii.eqb c "+"%char then (false, s')
      else if Ascii.eqb c "-"%char then (true, s') else (false, s)
  | EmptyString => (false, s)
  end.

Definition underscoreOK (s : string) : bool :=
  let '(_, u) := strip_sign s in
  match u with
  | String z (String c u') =>
      let l := lower c in
      if Ascii.eqb z "0"%char && (Ascii.eqb l "b"%char || Ascii.eqb l "o"%char || Ascii.eqb l "x"%char)
      then underscore_loop (Ascii.eqb l "x"%char) "0"%char u'
      else underscore_loop false "^"%char u
  | _ => underscore_loop false "^"%char u
  end.

Record mantissa := {
  mant_val : Z;          (** digits read, the point left out *)
  mant_frac : Z;         (** digits read after the point *)
  mant_dot : bool;       (** a point was read *)
  mant_digits : bool;    (** some digit was read *)
  mant_underscores : bool
}.

Definition base_val (hex : bool) (c : Ascii.ascii) : option Z :=
  if hex then hex_val c else if is_digit c then Some (digit_val c) else None.

Fixpoint read_mantissa (hex : bool) (m : mantissa) (s : string) : mantissa * string :=
  match s with
  | EmptyString => (m, s)
  | String c s' =>
      if Ascii.eqb c "_"%char then
        read_mantissa hex {| mant_val := mant_val m; mant_frac := mant_frac m;
          mant_dot := mant_dot m; mant_digits := mant_digits m; mant_underscores := true |} s'
      else if Ascii.eqb c "."%char then
        if mant_dot m then (m, s)
        else read_mantissa hex {| mant_val := mant_val m; mant_frac := mant_frac m;
          mant_dot := true; mant_digits := mant_digits m;
          mant_underscores := mant_underscores m |} s'
      else
        match base_val hex c with
        | Some d =>
            read_mantissa hex
              {| mant_val := mant_val m * (if hex then 16 else 10) + d;
                 mant_frac := if mant_dot m then mant_frac m + 1 else mant_frac m;
                 mant_dot := mant_dot m; mant_digits := true;
                 mant_underscores := mant_underscores m |} s'
        | None => (m, s)
        end
  end.

(** The digits of an exponent, capped as the library caps them. *)
Fixpoint read_exp (e : Z) (us : bool) (s : string) : Z * bool * string :=
  match s with
  | String c s' =>
      if Ascii.eqb c "_"%char then read_exp e true s'
      else if is_digit c then read_exp (if e <? 10000 then e * 10 + digit_val c else e) us s'
      else (e, us, s)
  | EmptyString => (e, us, s)
  end.

(** The nearest [float64] to [m * 10^e]. *)
Definition round_decimal (neg : bool) (m e : Z) : float64 :=
  match m with
  | Zpos p =>
      if 0 <=? e then binary_round f64_prec f64_emax neg (p * Z.to_pos (10 ^ e)) 0
      else
        let '(q, e', l) := SFdiv_core_binary f64_prec f64_emax m 0 (10 ^ (- e)) 0 in
        binary_round_aux f64_prec f64_emax neg q e' l
  | _ => S754_zero neg
  end.

(** The nearest [float64] to [m * 2^e]. *)
Definition round_binary (neg : bool) (m e : Z) : float64 :=
  match m with
  | Zpos p => binary_round f64_prec f64_emax neg p e
  | _ => S754_zero neg
  end.

Fixpoint lower_all (s : string) : string :=
  match s with EmptyString => EmptyString | String c s' => String (lower c) (lower_all s') end.

(** [inf], [infinity] with an optional sign, and [nan]. *)
Definition special (s : string) : option float64 :=
  let l := lower_all s in
  if String.eqb l "nan" then Some S754_nan
  else
    let '(neg, u) := strip_sign l in
    if String.eqb u "inf" || String.eqb u "infinity" then Some (S754_infinity neg) else None.

Definition range_checked (x : float64) : float64 * error :=
  match x with S754_infinity _ => (x, Some ErrRange) | _ => (x, None) end.

Definition syntax_error : float64 * error := (S754_zero false, Some ErrSyntax).

Definition ParseFloat (s : string) : float64 * error :=
  match special s with
  | Some x => (x, None)
  | None =>
      let '(neg, u) := strip_sign s in
      let '(hex, u') :=
        match u with
        | String z (String x (String c u2)) =>
            if Ascii.eqb z "0"%char && Ascii.eqb (lower x) "x"%char then (true, String c u2) else (false, u)
        | _ => (false, u)
        end in
      let m0 := {| mant_val := 0; mant_frac := 0; mant_dot := false;
                   mant_digits := false; mant_underscores := false |} in
      let '(m, rest) := read_mantissa hex m0 u' in
      if negb (mant_digits m) then syntax_error
      else
        let is_exp c := Ascii.eqb (lower c) (if hex then "p" else "e")%char in
        match rest with
        | String c r1 =>
            if negb (is_exp c) then syntax_error
            else
              let '(eneg, r2) := strip_sign r1 in
              match r2 with
              | String d _ =>
                  if negb (is_digit d) then syntax_error
                  else
                    let '(e, us, r3) := read_exp 0 (mant_underscores m) r2 in
                    if negb (String.eqb r3 "") || (us && negb (underscoreOK s)) then syntax_error
                    else
                      let e := if eneg then - e else e in
                      if hex then range_checked (round_binary neg (mant_val m) (e - 4 * mant_frac m))
                      else range_checked (round_decimal neg (mant_val m) (e - mant_frac m))
              | EmptyString => syntax_error
              end
        | EmptyString =>
            if hex || (mant_underscores m && negb (underscoreOK s)) then syntax_error
            else range_checked (round_decimal neg (mant_val m) (- mant_frac m))
        end
  end.

Example ParseFloat_1 : ParseFloat "1.0" = (f64_one, None).
Proof. vm_compute. reflexivity. Qed.
Example ParseFloat_2 : ParseFloat "0.8" = (f64_div (f64_of_Z 8) (f64_of_Z 10), None).
Proof. vm_compute. reflexivity. Qed.
Example ParseFloat_3 : ParseFloat "1_23.50_0_0e+1_2" = (f64_of_Z 123500000000000, None).
Proof. vm_compute. reflexivity. Qed.
Example ParseFloat_4 : ParseFloat "0x1.8p1" = (f64_of_Z 3, None).
Proof. vm_compute. reflexivity. Qed.
Example ParseFloat_5 : (ParseFloat "fast").2 = Some ErrSyntax /\ (ParseFloat "1e400").2 = Some ErrRange.
Proof. vm_compute. done. Qed.

(** ** Facts about digits *)

Lemma digit_char_spec d :
  0 <= d < 10 -> is_digit (digit_char d) = true /\ digit_val (digit_char d) = d.
Proof.
  intros Hd. unfold is_digit, digit_val, digit_char.
  rewrite Ascii.nat_ascii_embedding by lia.
  split; [apply andb_true_iff; split; apply Nat.leb_le|]; lia.
Qed.

Lemma digits_num_app acc a b :
  digits_num acc (str_app a b) = digits_num (digits_num acc a) b.
Proof. revert acc. induction a as [|c a IH]; intros acc; simpl; [done|apply IH]. Qed.

(** Digits written in front of [acc] stand for [n] shifted by [acc]. *)
Lemma to_digits_num fuel n acc k :
  0 <= n < 2 ^ Z.of_nat fuel ->
  digits_num k (to_digits fuel n acc) =
  digits_num (k * 10 ^ (Z.of_nat (String.length (to_digits fuel n acc)) - Z.of_nat (String.length acc)) + n) acc.
Proof.
  revert n acc. induction fuel as [|f IH]; intros n acc Hn; simpl to_digits.
  { rewrite Z.sub_diag, Z.pow_0_r. f_equal. simpl in Hn. lia. }
  destruct (digit_char_spec (n `mod` 10)) as [_ Hv]; [apply Z.mod_pos_bound; lia|].
  destruct (Z.ltb_spec n 10).
  - simpl digits_num. simpl String.length. rewrite Hv.
    replace (Z.of_nat (S (String.length acc)) - Z.of_nat (String.length acc)) with 1 by lia.
    rewrite Z.mod_small by lia. f_equal; lia.
  - rewrite IH.
    2:{ rewrite Nat2Z.inj_succ, Z.pow_succ_r in Hn by lia.
        split; [apply Z.div_pos; lia|]. apply Z.div_lt_upper_bound; lia. }
    set (L := String.length (to_digits f (n / 10) _)).
    simpl digits_num. rewrite Hv. f_equal. simpl String.length.
    assert (String.length acc < L)%nat as HL.
    { subst L. clear. generalize (n / 10). 
      assert (forall f n a, String.length a <= String.length (to_digits f n a))%nat as Hm.
      { intros f'. induction f' as [|f' IH]; intros m a; simpl; [done|].
        case_match; simpl; [lia|]. etransitivity; [|apply IH]. simpl. lia. }
      intros m. specialize (Hm f m (String (digit_char (n `mod` 10)) acc)). simpl in Hm. lia. }
    replace (Z.of_nat L - Z.of_nat (String.length acc))
      with (Z.succ (Z.of_nat L - Z.of_nat (S (String.length acc)))) by lia.
    rewrite Z.pow_succ_r by lia. pose proof (Z.div_mod n 10). lia.
Qed.

Lemma log2_fuel n : 0 <= n -> 0 <= n < 2 ^ Z.of_nat (S (Z.to_nat (Z.log2 n))).
Proof.
  intros Hn. split; [done|]. rewrite Nat2Z.inj_succ, Z2Nat.id by apply Z.log2_nonneg.
  destruct (Z.eq_dec n 0) as [->|]; [simpl; lia|]. apply Z.log2_spec. lia.
Qed.

Lemma digits_num_digits_of n : 0 <= n -> digits_num 0 (digits_of n) = n.
Proof.
  intros Hn. unfold digits_of. rewrite to_digits_num by (by apply log2_fuel). simpl. lia.
Qed.

Lemma span_digits_to_digits fuel n acc rest :
  0 <= n -> span_digits acc = (acc, "")%string ->
  span_digits (str_app (to_digits fuel n acc) rest) =
  (str_app (to_digits fuel n acc) (span_digits rest).1, (span_digits rest).2).
Proof.
  intros Hn Hacc.
  assert (forall s, span_digits s = (s, "")%string ->
    span_digits (str_app s rest) = (str_app s (span_digits rest).1, (span_digits rest).2)) as Hs.
  { induction s as [|c s IH]; simpl; intros Hs; [by destruct (span_digits rest)|].
    destruct (is_digit c); [|done]. destruct (span_digits s) as [a b]. injection Hs as -> ->.
    rewrite IH by done. done. }
  apply Hs. clear Hs. revert n acc Hn Hacc.
  induction fuel as [|f IH]; intros n acc Hn Hacc; simpl; [done|].
  destruct (digit_char_spec (n `mod` 10)) as [Hd _]; [apply Z.mod_pos_bound; lia|].
  assert (span_digits (String (digit_char (n `mod` 10)) acc)
    = (String (digit_char (n `mod` 10)) acc, "")%string) as Hc by (simpl; by rewrite Hd, Hacc).
  destruct (n <? 10); [done|]. apply IH; [apply Z.div_pos; lia|done].
Qed.

Lemma span_digits_of n rest :
  0 <= n ->
  span_digits (str_app (digits_of n) rest) =
  (str_app (digits_of n) (span_digits rest).1, (span_digits rest).2).
Proof. intros Hn. by apply span_digits_to_digits. Qed.

Lemma str_app_nil_r s : str_app s "" = s.
Proof. induction s as [|c s IH]; simpl; [done|by rewrite IH]. Qed.

Lemma str_app_assoc a b c : str_app (str_app a b) c = str_app a (str_app b c).
Proof. induction a as [|x a IH]; simpl; [done|by rewrite IH]. Qed.

Lemma length_str_app a b : String.length (str_app a b) = (String.length a + String.length b)%nat.
Proof. induction a as [|c a IH]; simpl; [done|by rewrite IH]. Qed.

Lemma all_digits_digits_of n : 0 <= n -> all_digits (digits_of n) = true.
Proof.
  intros Hn. unfold all_digits. rewrite <- (str_app_nil_r (digits_of n)), span_digits_of by done.
  done.
Qed.

(** The number of digits written. *)
Lemma length_to_digits fuel n acc k :
  0 <= n < 10 ^ k -> 1 <= k ->
  Z.of_nat (String.length (to_digits fuel n acc)) <= Z.of_nat (String.length acc) + k.
Proof.
  revert n acc k. induction fuel as [|f IH]; intros n acc k Hn Hk; simpl; [lia|].
  destruct (Z.ltb_spec n 10) as [Hlt|Hge]; simpl String.length; [lia|].
  assert (1 < k) as Hk1.
  { destruct (Z.le_gt_cases k 1); [|done]. assert (k = 1) as -> by lia. simpl in Hn. lia. }
  specialize (IH (n / 10) (String (digit_char (n `mod` 10)) acc) (k - 1)).
  simpl String.length in IH.
  replace k with (Z.succ (k - 1)) in Hn by lia. rewrite Z.pow_succ_r in Hn by lia.
  assert (0 <= n / 10 < 10 ^ (k - 1)).
  { split; [apply Z.div_pos; lia|apply Z.div_lt_upper_bound; lia]. }
  specialize (IH ltac:(done) ltac:(lia)). lia.
Qed.

Lemma length_digits_of n k :
  0 <= n < 10 ^ k -> 1 <= k -> Z.of_nat (String.length (digits_of n)) <= k.
Proof. intros Hn Hk. pose proof (length_to_digits (S (Z.to_nat (Z.log2 n))) n "" k Hn Hk). done. Qed.

Lemma to_digits_nonempty f n acc : exists c s, to_digits (S f) n acc = String c s /\ 
  (10 <= n \/ c = digit_char (n `mod` 10)).
Proof.
  revert n acc. induction f as [|f IH]; intros n acc.
  - simpl. destruct (Z.ltb_spec n 10); eauto.
  - cbn [to_digits]. destruct (Z.ltb_spec n 10); [eauto|].
    destruct (IH (n / 10) (String (digit_char (n `mod` 10)) acc)) as (c & s & E & _).
    cbn [to_digits] in E. rewrite E. eauto.
Qed.

Lemma digits_of_nonempty n : exists c s, digits_of n = String c s.
Proof. destruct (to_digits_nonempty (Z.to_nat (Z.log2 n)) n "") as (c & s & E & _). eauto. Qed.

(** The first digit of a positive number is not zero. *)
Lemma to_digits_head fuel n acc :
  0 < n < 2 ^ Z.of_nat fuel ->
  exists d s, 1 <= d < 10 /\ to_digits fuel n acc = String (digit_char d) s.
Proof.
  revert n acc. induction fuel as [|f IH]; intros n acc Hn; [simpl in Hn; lia|].
  simpl. destruct (Z.ltb_spec n 10).
  - exists n, acc. rewrite Z.mod_small by lia. by split; [lia|].
  - apply IH. rewrite Nat2Z.inj_succ, Z.pow_succ_r in Hn by lia.
    split; [apply Z.div_str_pos; lia|apply Z.div_lt_upper_bound; lia].
Qed.

Lemma digits_of_head n :
  0 < n -> exists d s, 1 <= d < 10 /\ digits_of n = String (digit_char d) s.
Proof. intros Hn. apply to_digits_head. pose proof (log2_fuel n). lia. Qed.
