(* ===== verification/QuantityMath.v ===== *)
(** * Overflow-checked arithmetic of [resource.Quantity]

    math.go of package [k8s.io/apimachinery/pkg/api/resource]: int64
    arithmetic that reports overflow, and scaling by powers of ten. *)

From S2P Require Import Prelude GoInt.

Definition mostPositive : Z := MaxInt64.
Definition mostNegative : Z := MinInt64.

Definition int64Add (a b : Z) : Z * bool :=
  let c := a +₆₄ b in
  if (0 <? a) && (0 <? b) then
    if c <? 0 then (0, false) else (c, true)
  else if (a <? 0) && (b <? 0) then
    if 0 <? c then (0, false)
    else if (a =? mostNegative) && (b =? mostNegative) then (0, false)
    else (c, true)
  else (c, true).

Definition int64Multiply (a b : Z) : Z * bool :=
  if (a =? 0) || (b =? 0) || (a =? 1) || (b =? 1) then (a *₆₄ b, true)
  else if (a =? mostNegative) || (b =? mostNegative) then (0, false)
  else let c := a *₆₄ b in (c, div64 c b =? a).

Definition int64MultiplyScale (a b : Z) : Z * bool :=
  if (a =? 0) || (a =? 1) then (a *₆₄ b, true)
  else if (a =? mostNegative) && negb (b =? 1) then (0, false)
  else let c := a *₆₄ b in (c, div64 c b =? a).

Definition int64MultiplyScale10 (a : Z) : Z * bool :=
  if (a =? 0) || (a =? 1) then (a *₆₄ 10, true)
  else if a =? mostNegative then (0, false)
  else let c := a *₆₄ 10 in (c, div64 c 10 =? a).

Definition int64MultiplyScale100 (a : Z) : Z * bool :=
  if (a =? 0) || (a =? 1) then (a *₆₄ 100, true)
  else if a =? mostNegative then (0, false)
  else let c := a *₆₄ 100 in (c, div64 c 100 =? a).

Definition int64MultiplyScale1000 (a : Z) : Z * bool :=
  if (a =? 0) || (a =? 1) then (a *₆₄ 1000, true)
  else if a =? mostNegative then (0, false)
  else let c := a *₆₄ 1000 in (c, div64 c 1000 =? a).

(** The [default] branch of [positiveScaleInt64]: [n] multiplications by 10. *)
Fixpoint scale10_loop (n : nat) (value : Z) : Z * bool :=
  match n with
  | O => (value, true)
  | S n' =>
      let '(v, ok) := int64MultiplyScale value 10 in
      if ok then scale10_loop n' v else (0, false)
  end.

Definition positiveScaleInt64 (base scale : Z) : Z * bool :=
  if scale =? 0 then (base, true)
  else if scale =? 1 then int64MultiplyScale10 base
  else if scale =? 2 then int64MultiplyScale100 base
  else if scale =? 3 then int64MultiplyScale1000 base
  else if scale =? 6 then int64MultiplyScale base 1000000
  else if scale =? 9 then int64MultiplyScale base 1000000000
  else scale10_loop (Z.to_nat scale) base.

(** The loop of [negativeScaleInt64]: [inl] is an early return, [inr] the
    values of [value] and [fraction] when the loop ends. *)
Fixpoint negative_scale_loop (n : nat) (base value : Z) (fraction : bool)
  : (Z * bool) + (Z * bool) :=
  match n with
  | O => inr (value, fraction)
  | S n' =>
      let fraction := if negb fraction && negb (rem64 value 10 =? 0) then true else fraction in
      let value := div64 value 10 in
      if value =? 0 then
        inl (if fraction then (if 0 <? base then (1, false) else (-1, false)) else (0, true))
      else negative_scale_loop n' base value fraction
  end.

Definition negativeScaleInt64 (base scale : Z) : Z * bool :=
  if scale =? 0 then (base, true)
  else
    match negative_scale_loop (Z.to_nat scale) base base false with
    | inl r => r
    | inr (value, fraction) =>
        let value :=
          if fraction then (if 0 <? base then value +₆₄ 1 else value -₆₄ 1) else value in
        (value, negb fraction)
    end.

Definition pow10Int64 (b : Z) : Z :=
  if (0 <=? b) && (b <=? 18) then 10 ^ b else 0.

(** [(result, remainder, exact)] *)
Definition divideByScaleInt64 (base scale : Z) : Z * Z * bool :=
  if scale =? 0 then (base, 0, true)
  else if 18 <=? scale then (0, base, false)
  else
    let divisor := pow10Int64 scale in
    (div64 base divisor, rem64 base divisor, true).

Fixpoint remove_factors_loop (fuel : nat) (result base times : Z) : Z * Z :=
  match fuel with
  | O => (result, times)
  | S f =>
      if (base <=? result) && (rem64 result base =? 0)
      then remove_factors_loop f (div64 result base) base (times + 1)
      else (result, times)
  end.

(** 64 rounds are enough: every round divides by at least two. *)
Definition removeInt64Factors (value base : Z) : Z * Z :=
  let negative := value <? 0 in
  let result := if negative then neg64 value else value in
  let '(result, times) := remove_factors_loop 64 result base 0 in
  (if negative then neg64 result else result, times).

(** ** Overflow detection is exact *)

Lemma int64Add_spec a b :
  is_int64 a -> is_int64 b ->
  (is_int64 (a + b) /\ int64Add a b = (a + b, true)) \/
  (~ is_int64 (a + b) /\ int64Add a b = (0, false)).
Proof.
  intros Ha Hb. unfold int64Add, mostNegative.
  destruct (int64_congr (a + b)) as [k Hk]. pose proof (int64_range (a + b)) as Hr.
  change (int64 (a + b)) with (a +₆₄ b) in *.
  assert (is_int64 (a + b) \/ ~ is_int64 (a + b)) as [Hin|Hin] by (int_unfold; lia).
  - left. split; [done|]. rewrite add64_exact by done.
    repeat case_match; zify_bool; int_unfold; try lia; done.
  - right. split; [done|].
    assert (k = -1 \/ k = 1) as Hk1 by (int_unfold; lia).
    repeat case_match; zify_bool; try done; exfalso;
      repeat match goal with H : (_ && _) = false |- _ => apply andb_false_iff in H as [?|?] end;
      zify_bool; int_unfold; lia.
Qed.

(** The heart of the multiplication checks: dividing the wrapped product
    gives the factor back exactly when the product did not wrap. *)
Lemma mul_check a b :
  is_int64 a -> is_int64 b -> b <> 0 -> a <> MinInt64 ->
  (div64 (a *₆₄ b) b =? a) = true <-> is_int64 (a * b).
Proof.
  intros Ha Hb Hb0 Hmin. unfold div64. rewrite Z.eqb_eq. split.
  - intros H. destruct (int64_congr (a * b)) as [k Hk]. fold (a *₆₄ b) in Hk.
    pose proof (int64_range (a * b)) as Hr. fold (a *₆₄ b) in Hr.
    assert (Z.quot (a *₆₄ b) b = a \/ (b = -1 /\ a *₆₄ b = MinInt64)) as [Hq|[-> Hc]].
    { destruct (Z.eq_dec b (-1)) as [->|Hb1].
      - destruct (Z.eq_dec (a *₆₄ -1) MinInt64); [by right|left].
        rewrite int64_id in H; [done|]. change (-1) with (- (1)) at 2.
        rewrite Z.quot_opp_r, Z.quot_1_r by done. int_unfold; lia.
      - left. rewrite int64_id in H; [done|].
        assert (Z.abs (Z.quot (a *₆₄ b) b) <= Z.abs (a *₆₄ b)) as Hle.
        { rewrite <- Z.quot_abs by done. apply Z.quot_le_upper_bound; nia. }
        destruct (Z.eq_dec (Z.quot (a *₆₄ b) b) (2 ^ 63)) as [E|]; [|int_unfold; lia].
        exfalso. pose proof (Z.quot_rem (a *₆₄ b) b Hb0) as Hqr.
        pose proof (Z.rem_bound_abs (a *₆₄ b) b Hb0). rewrite E in Hqr.
        int_unfold; nia. }
    + pose proof (Z.quot_rem (a *₆₄ b) b Hb0) as Hqr. rewrite Hq in Hqr.
      pose proof (Z.rem_bound_abs (a *₆₄ b) b Hb0) as Hm.
      assert (k = 0) as -> by (int_unfold; nia).
      rewrite <- (Z.add_0_r (a * b)). replace 0 with (0 * 2 ^ 64) by lia. rewrite <- Hk. done.
    + rewrite Hc in H. vm_compute in H. subst a. done.
  - intros H. rewrite mul64_exact by done. rewrite Z.quot_mul by done. by apply int64_id.
Qed.

Lemma int64Multiply_spec a b :
  is_int64 a -> is_int64 b ->
  (int64Multiply a b).2 = true <-> is_int64 (a * b) /\
    (a <> MinInt64 \/ b = 0 \/ b = 1) /\ (b <> MinInt64 \/ a = 0 \/ a = 1).
Proof.
  intros Ha Hb. unfold int64Multiply, mostNegative.
  destruct (Z.eqb_spec a 0) as [->|]; simpl.
  { split; [|done]. intros _. rewrite Z.mul_0_l. split_and!; [auto with kubehice|by left|by auto]. }
  destruct (Z.eqb_spec b 0) as [->|]; simpl.
  { split; [|done]. intros _. rewrite Z.mul_0_r. split_and!; [auto with kubehice|by auto|by left]. }
  destruct (Z.eqb_spec a 1) as [->|]; simpl.
  { split; [|done]. intros _. rewrite Z.mul_1_l. split_and!; [done|by left|by auto]. }
  destruct (Z.eqb_spec b 1) as [->|]; simpl.
  { split; [|done]. intros _. rewrite Z.mul_1_r. split_and!; [done|by auto|by left]. }
  destruct (Z.eqb_spec a MinInt64) as [->|]; simpl; [split; [done|naive_solver]|].
  destruct (Z.eqb_spec b MinInt64) as [->|]; simpl; [split; [done|naive_solver]|].
  rewrite mul_check by done. naive_solver.
Qed.

Lemma int64Multiply_val a b c : int64Multiply a b = (c, true) -> is_int64 a -> is_int64 b -> c = a * b.
Proof.
  intros E Ha Hb. pose proof (int64Multiply_spec a b Ha Hb) as [H _].
  rewrite E in H. destruct (H eq_refl) as [Hin _]. revert E. unfold int64Multiply.
  repeat case_match; intros E; simplify_eq; by apply mul64_exact.
Qed.

Lemma int64MultiplyScale_spec a b :
  is_int64 a -> is_int64 b -> 1 < b ->
  (is_int64 (a * b) /\ int64MultiplyScale a b = (a * b, true)) \/
  (~ is_int64 (a * b) /\ (int64MultiplyScale a b).2 = false).
Proof.
  intros Ha Hb Hb1. unfold int64MultiplyScale, mostNegative.
  destruct (Z.eqb_spec a 0) as [->|]; simpl.
  { left. rewrite Z.mul_0_l, mul64_exact by auto with kubehice. auto with kubehice. }
  destruct (Z.eqb_spec a 1) as [->|]; simpl.
  { left. rewrite mul64_exact by (by rewrite Z.mul_1_l). by rewrite Z.mul_1_l. }
  destruct (Z.eqb_spec a MinInt64) as [->|]; simpl.
  { right. destruct (Z.eqb_spec b 1); [lia|]. split; [int_unfold; nia|done]. }
  destruct (mul_check a b Ha Hb ltac:(lia) ltac:(done)) as [H1 H2].
  destruct (div64 (a *₆₄ b) b =? a) eqn:E.
  - left. split; [auto|]. by rewrite mul64_exact by auto.
  - right. split; [|done]. intros Hin. by apply H2 in Hin.
Qed.

(** The fixed-factor variants are [int64MultiplyScale] at their factor. *)
Lemma int64MultiplyScale_fixed a :
  int64MultiplyScale10 a = int64MultiplyScale a 10 /\
  int64MultiplyScale100 a = int64MultiplyScale a 100 /\
  int64MultiplyScale1000 a = int64MultiplyScale a 1000.
Proof.
  unfold int64MultiplyScale10, int64MultiplyScale100, int64MultiplyScale1000, int64MultiplyScale.
  simpl. by rewrite !andb_true_r.
Qed.

Lemma is_int64_mul_pow a n m :
  0 <= n -> 0 <= m -> is_int64 (a * 10 ^ (n + m)) -> is_int64 (a * 10 ^ n).
Proof.
  intros Hn Hm. rewrite Z.pow_add_r by done. pose proof (Z.pow_pos_nonneg 10 n).
  pose proof (Z.pow_pos_nonneg 10 m). int_unfold.
  assert (a * 10 ^ n = 0 \/ a * 10 ^ n < 0 \/ 0 < a * 10 ^ n) by lia. nia.
Qed.

Lemma scale10_loop_spec n v :
  is_int64 v ->
  (is_int64 (v * 10 ^ Z.of_nat n) /\ scale10_loop n v = (v * 10 ^ Z.of_nat n, true)) \/
  (~ is_int64 (v * 10 ^ Z.of_nat n) /\ scale10_loop n v = (0, false)).
Proof.
  revert v. induction n as [|n IH]; intros v Hv; cbn [scale10_loop].
  { left. rewrite Z.pow_0_r, Z.mul_1_r. done. }
  rewrite Nat2Z.inj_succ, Z.pow_succ_r, Z.mul_assoc by lia.
  destruct (int64MultiplyScale_spec v 10) as [[Hin E]|[Hn E]]; [done|int_unfold; lia|lia| |].
  - rewrite E. by apply IH.
  - destruct (int64MultiplyScale v 10) as [w ok]. simpl in E. subst ok.
    right. split; [|done]. intros H. apply Hn.
    rewrite <- Z.mul_assoc, <- Z.pow_succ_r in H by lia.
    replace (Z.succ (Z.of_nat n)) with (1 + Z.of_nat n) in H by lia.
    by apply is_int64_mul_pow in H; [|lia..].
Qed.

(** [positiveScaleInt64] multiplies by [10^scale] and reports overflow
    exactly, whichever special case it takes. *)
Lemma positiveScaleInt64_spec base scale :
  is_int64 base -> 0 <= scale ->
  (is_int64 (base * 10 ^ scale) /\ positiveScaleInt64 base scale = (base * 10 ^ scale, true)) \/
  (~ is_int64 (base * 10 ^ scale) /\ (positiveScaleInt64 base scale).2 = false).
Proof.
  intros Hb Hs. destruct (int64MultiplyScale_fixed base) as (E10 & E100 & E1000).
  unfold positiveScaleInt64. rewrite E10, E100, E1000.
  destruct (Z.eqb_spec scale 0) as [->|]; [left; by rewrite Z.pow_0_r, Z.mul_1_r|].
  destruct (Z.eqb_spec scale 1) as [->|]; [apply int64MultiplyScale_spec; done|].
  destruct (Z.eqb_spec scale 2) as [->|]; [apply int64MultiplyScale_spec; done|].
  destruct (Z.eqb_spec scale 3) as [->|]; [apply int64MultiplyScale_spec; done|].
  destruct (Z.eqb_spec scale 6) as [->|]; [apply int64MultiplyScale_spec; done|].
  destruct (Z.eqb_spec scale 9) as [->|]; [apply int64MultiplyScale_spec; done|].
  destruct (scale10_loop_spec (Z.to_nat scale) base Hb) as [[? E]|[? E]];
    rewrite Z2Nat.id in * by done; rewrite E; auto.
Qed.

(** Division by a positive [d] rounding away from zero. *)
Definition round_away (n d : Z) : Z := Z.sgn n * ((Z.abs n + d - 1) / d).

Lemma round_away_quot n d :
  0 < d ->
  round_away n d = Z.quot n d + (if Z.rem n d =? 0 then 0 else Z.sgn n).
Proof.
  intros Hd. unfold round_away. rewrite Z.quot_div by lia.
  rewrite (Z.sgn_pos d), (Z.abs_eq d), Z.mul_1_r by lia.
  assert (Z.rem n d = 0 <-> Z.abs n `mod` d = 0) as Hr.
  { pose proof (Z.rem_abs n d ltac:(lia)) as Ha.
    rewrite (Z.abs_eq d), Z.rem_mod_nonneg in Ha by lia. lia. }
  pose proof (Z.div_mod (Z.abs n) d ltac:(lia)) as Hdm.
  pose proof (Z.mod_pos_bound (Z.abs n) d Hd).
  destruct (Z.eqb_spec (Z.rem n d) 0) as [E|E].
  - apply Hr in E. replace (Z.abs n + d - 1) with (d - 1 + (Z.abs n / d) * d) by lia.
    rewrite Z.div_add, (Z.div_small (d - 1)) by lia. lia.
  - assert (Z.abs n `mod` d <> 0) by (by rewrite <- Hr).
    replace (Z.abs n + d - 1) with (Z.abs n `mod` d - 1 + (Z.abs n / d + 1) * d) by lia.
    rewrite Z.div_add, (Z.div_small (Z.abs n `mod` d - 1)) by lia. lia.
Qed.

Lemma rem_mul_zero a b c :
  0 < b -> 0 < c ->
  (Z.rem a (b * c) =? 0) = (Z.rem a b =? 0) && (Z.rem (Z.quot a b) c =? 0).
Proof.
  intros Hb Hc. rewrite Z.mod_mul_r by lia.
  pose proof (Z.rem_bound_abs a b ltac:(lia)).
  generalize dependent (Z.rem a b). generalize (Z.rem (Z.quot a b) c). intros t r Hr.
  apply eq_true_iff_eq. rewrite andb_true_iff, !Z.eqb_eq.
  split; [|intros [-> ->]; lia]. intros E.
  assert (t = 0 \/ t <= -1 \/ 1 <= t) as [-> |[Ht|Ht]] by lia; [lia| |];
    exfalso; [assert (b * t <= - b) by nia|assert (b <= b * t) by nia]; lia.
Qed.

Lemma negative_scale_loop_spec n base i :
  0 <= i -> is_int64 base -> Z.quot base (10 ^ i) <> 0 ->
  negative_scale_loop n base (Z.quot base (10 ^ i)) (negb (Z.rem base (10 ^ i) =? 0)) =
  let d := 10 ^ (i + Z.of_nat n) in
  if Z.quot base d =? 0 then inl (Z.sgn base, false)
  else inr (Z.quot base d, negb (Z.rem base d =? 0)).
Proof.
  revert i. induction n as [|n IH]; intros i Hi Hb Hq; cbn [negative_scale_loop].
  { rewrite Z.add_0_r. cbn zeta. destruct (Z.eqb_spec (Z.quot base (10 ^ i)) 0); done. }
  assert (0 < 10 ^ i) as Hp by (apply Z.pow_pos_nonneg; lia).
  assert (10 ^ (i + 1) = 10 ^ i * 10) as Hp1 by (rewrite Z.pow_add_r by lia; lia).
  assert (div64 (Z.quot base (10 ^ i)) 10 = Z.quot base (10 ^ (i + 1))) as Hdiv.
  { unfold div64. rewrite Z.quot_quot, <- Hp1 by lia. apply int64_id.
    assert (Z.abs (Z.quot base (10 ^ (i + 1))) <= Z.abs base).
    { rewrite <- Z.quot_abs by lia. apply Z.quot_le_upper_bound; nia. }
    assert (Z.quot base (10 ^ (i + 1)) <> 2 ^ 63); [|int_unfold; lia].
    intros E. pose proof (Z.quot_le_upper_bound base (10 ^ (i + 1)) MaxInt64).
    int_unfold. destruct (Z.le_gt_cases base 0); [|nia].
    pose proof (Z.quot_le_upper_bound base (10 ^ (i + 1)) 0). nia. }
  assert ((if negb (negb (Z.rem base (10 ^ i) =? 0)) && negb (rem64 (Z.quot base (10 ^ i)) 10 =? 0)
           then true else negb (Z.rem base (10 ^ i) =? 0))
          = negb (Z.rem base (10 ^ (i + 1)) =? 0)) as ->.
  { rewrite Hp1, rem_mul_zero by lia. unfold rem64.
    by destruct (Z.rem base (10 ^ i) =? 0), (Z.rem (Z.quot base (10 ^ i)) 10 =? 0). }
  rewrite Hdiv. replace (i + Z.of_nat (S n)) with (i + 1 + Z.of_nat n) by lia.
  destruct (Z.eqb_spec (Z.quot base (10 ^ (i + 1))) 0) as [E|E]; [|by apply IH; [lia|..]].
  apply Z.quot_small_iff in E; [|lia].
  assert (base <> 0) by (intros ->; by rewrite Z.quot_0_l in Hq by lia).
  assert (Z.rem base (10 ^ (i + 1)) = base) as -> by (apply Z.rem_small_iff; lia).
  destruct (Z.eqb_spec base 0); [done|]. cbn [negb]. cbn zeta.
  assert (10 ^ (i + 1) <= 10 ^ (i + 1 + Z.of_nat n)) by (apply Z.pow_le_mono_r; lia).
  destruct (Z.eqb_spec (Z.quot base (10 ^ (i + 1 + Z.of_nat n))) 0) as [_|Hn].
  - destruct (Z.ltb_spec 0 base); repeat f_equal; [rewrite Z.sgn_pos|rewrite Z.sgn_neg]; lia.
  - exfalso. apply Hn, Z.quot_small_iff; lia.
Qed.

(** [negativeScaleInt64] divides by [10^scale] rounding away from zero, and
    reports whether the division was exact. *)
Lemma negativeScaleInt64_spec base scale :
  is_int64 base -> 0 <= scale ->
  negativeScaleInt64 base scale =
  (round_away base (10 ^ scale), Z.rem base (10 ^ scale) =? 0).
Proof.
  intros Hb Hs. unfold negativeScaleInt64.
  assert (0 < 10 ^ scale) as Hp by (apply Z.pow_pos_nonneg; lia).
  rewrite round_away_quot by done.
  destruct (Z.eqb_spec scale 0) as [->|Hs0].
  { rewrite Z.pow_0_r, Z.rem_1_r, Z.quot_1_r. simpl. by rewrite Z.add_0_r. }
  destruct (Z.eq_dec base 0) as [->|Hb0].
  { rewrite Z.rem_0_l, Z.quot_0_l by lia. destruct (Z.to_nat scale) eqn:E; [lia|]. done. }
  pose proof (negative_scale_loop_spec (Z.to_nat scale) base 0 ltac:(lia) Hb) as L.
  rewrite Z.pow_0_r, Z.quot_1_r, Z.rem_1_r in L. cbn [Z.eqb negb] in L. cbn zeta in L.
  rewrite L by done. rewrite Z.add_0_l, Z2Nat.id by done.
  destruct (Z.eqb_spec (Z.quot base (10 ^ scale)) 0) as [E|E].
  - rewrite E. apply Z.quot_small_iff in E; [|lia].
    assert (Z.rem base (10 ^ scale) = base) as -> by (apply Z.rem_small_iff; lia).
    destruct (Z.eqb_spec base 0); [done|]. by rewrite Z.add_0_l.
  - destruct (Z.eqb_spec (Z.rem base (10 ^ scale)) 0); cbn [negb]; f_equal; [lia|].
    assert (10 <= 10 ^ scale) by (change 10 with (10 ^ 1) at 1; apply Z.pow_le_mono_r; lia).
    assert (Z.abs (Z.quot base (10 ^ scale)) * 10 <= Z.abs base).
    { rewrite <- Z.quot_abs by lia. rewrite (Z.abs_eq (10 ^ scale)) by lia.
      pose proof (Z.mul_quot_le (Z.abs base) (10 ^ scale)). nia. }
    destruct (Z.ltb_spec 0 base).
    + rewrite add64_exact, Z.sgn_pos by (int_unfold; lia). done.
    + rewrite sub64_exact, Z.sgn_neg by (int_unfold; lia). lia.
Qed.

(** [divideByScaleInt64] below 18 digits is the truncated division. *)
Lemma divideByScaleInt64_spec base scale :
  is_int64 base -> 0 <= scale < 18 ->
  divideByScaleInt64 base scale = (Z.quot base (10 ^ scale), Z.rem base (10 ^ scale), true).
Proof.
  intros Hb Hs. unfold divideByScaleInt64, pow10Int64.
  destruct (Z.eqb_spec scale 0) as [->|]; [by rewrite Z.pow_0_r, Z.quot_1_r, Z.rem_1_r|].
  destruct (Z.leb_spec 18 scale); [lia|].
  destruct (Z.leb_spec 0 scale); [|lia]. destruct (Z.leb_spec scale 18); [|lia]. cbn [andb].
  unfold div64, rem64. rewrite int64_id; [done|].
  assert (10 <= 10 ^ scale) by (change 10 with (10 ^ 1) at 1; apply Z.pow_le_mono_r; lia).
  assert (Z.abs (Z.quot base (10 ^ scale)) * 10 <= Z.abs base); [|int_unfold; lia].
  rewrite <- Z.quot_abs by lia. rewrite (Z.abs_eq (10 ^ scale)) by lia.
  pose proof (Z.mul_quot_le (Z.abs base) (10 ^ scale)). nia.
Qed.
