(* ===== verification/Quantity.v ===== *)
(** * [resource.Quantity]: fixed-point amounts

    amount.go, quantity.go, suffix.go and scale_int.go of package
    [k8s.io/apimachinery/pkg/api/resource], with the part of
    [gopkg.in/inf.v0] they use.  A quantity holds either an [int64Amount]
    (a machine integer and a decimal scale) or an arbitrary-precision
    decimal; the scheduler reads it with [MilliValue] and [Value], and
    Hicev2 writes it with [MustParse]. *)

From S2P Require Import Prelude GoInt GoFloat GoStrconv QuantityMath.

(** ** [inf.Dec]: [unscaled * 10^(-scale)] *)

Record Dec := mkDec { unscaled : Z; dscale : Z }.

Definition Dec_rescale (x : Dec) (newScale : Z) : Dec :=
  let shift := int32 (newScale - dscale x) in
  if shift <? 0 then mkDec (Z.quot (unscaled x) (10 ^ int32 (- shift))) newScale
  else if 0 <? shift then mkDec (unscaled x * 10 ^ shift) newScale
  else x.

Definition Dec_upscale (a b : Dec) : Dec * Dec :=
  if dscale a =? dscale b then (a, b)
  else if dscale b <? dscale a then (a, Dec_rescale b (dscale a))
  else (Dec_rescale a (dscale b), b).

(** [big.Int.Cmp] *)
Definition cmpZ (a b : Z) : Z :=
  match a ?= b with Lt => -1 | Eq => 0 | Gt => 1 end.

Definition Dec_Cmp (x y : Dec) : Z :=
  let '(xx, yy) := Dec_upscale x y in cmpZ (unscaled xx) (unscaled yy).

Definition Dec_Add (x y : Dec) : Dec :=
  let '(xx, yy) := Dec_upscale x y in mkDec (unscaled xx + unscaled yy) (dscale xx).

Definition Dec_Sub (x y : Dec) : Dec :=
  let '(xx, yy) := Dec_upscale x y in mkDec (unscaled xx - unscaled yy) (dscale xx).

Definition Dec_Neg (x : Dec) : Dec := mkDec (- unscaled x) (dscale x).

(** [quoRem] by the decimal one followed by the rounder [RoundUp]. *)
Definition Dec_RoundUp (x : Dec) (s : Z) : Dec :=
  let shift := int32 (s - dscale x) in
  let '(ix, iy) :=
    if 0 <? shift then (unscaled x * 10 ^ shift, 1)
    else if shift <? 0 then (unscaled x, 10 ^ int32 (- shift))
    else (unscaled x, 1) in
  let q := Z.quot ix iy in
  let r := Z.rem ix iy in
  mkDec (if r =? 0 then q else q + Z.sgn r * Z.sgn iy) s.

(** The scanner of [SetString]: [acc] collects the unscaled characters,
    [dp] is the position of the point, [dg] tells whether a digit was seen.
    Returns the unread rest too. *)
Fixpoint Dec_scan (acc : string) (dp : option nat) (dg : bool) (s : string)
  : string * option nat * bool * string :=
  match s with
  | EmptyString => (acc, dp, dg, s)
  | String c s' =>
      if Ascii.eqb c "+"%char || Ascii.eqb c "-"%char then
        if (0 <? String.length acc)%nat || match dp with Some _ => true | None => false end
        then (acc, dp, dg, s)
        else Dec_scan (str_app acc (String c EmptyString)) dp dg s'
      else if Ascii.eqb c "."%char then
        match dp with
        | Some _ => (acc, dp, dg, s)
        | None => Dec_scan acc (Some (String.length acc)) dg s'
        end
      else if is_digit c then Dec_scan (str_app acc (String c EmptyString)) dp true s'
      else (acc, dp, dg, s)
  end.

(** [big.Int.SetString(s, 10)] *)
Definition big_SetString (s : string) : option Z :=
  let '(neg, u) := strip_sign s in
  if (String.length u =? 0)%nat || negb (all_digits u) then None
  else Some (if neg then - digits_num 0 u else digits_num 0 u).

Definition Dec_SetString (s : string) : option Dec :=
  let '(acc, dp, dg, rest) := Dec_scan "" None false s in
  if negb dg then None
  else
    match big_SetString acc with
    | None => None
    | Some n =>
        if String.eqb rest "" then
          Some (mkDec n (match dp with
                         | Some p => int32 (Z.of_nat (String.length acc) - Z.of_nat p)
                         | None => 0 end))
        else None
    end.

(** ** [int64Amount] *)

Record int64Amount := mkAmount { value : Z; scale : Z }.

Definition Nano : Z := -9.
Definition Milli : Z := -3.

(** [Scale.infScale] *)
Definition infScale (s : Z) : Z := int32 (- s).

Definition Amount_Sign (a : int64Amount) : Z :=
  if value a =? 0 then 0 else if 0 <? value a then 1 else -1.

Definition Amount_AsInt64 (a : int64Amount) : Z * bool :=
  if scale a =? 0 then (value a, true)
  else if scale a <? 0 then (0, false)
  else positiveScaleInt64 (value a) (scale a).

Definition Amount_AsScaledInt64 (a : int64Amount) (s : Z) : Z * bool :=
  if scale a <? s then
    ((negativeScaleInt64 (value a) (int32 (s - scale a))).1, true)
  else positiveScaleInt64 (value a) (int32 (scale a - s)).

Definition Amount_AsDec (a : int64Amount) : Dec := mkDec (value a) (int32 (- scale a)).

Definition cmp_final (a b : Z) : Z := if a =? b then 0 else if a <? b then -1 else 1.

Definition Amount_Cmp (a b : int64Amount) : Z :=
  if scale a =? scale b then cmp_final (value a) (value b)
  else if scale b <? scale a then
    let '(result, remainder, exact) :=
      divideByScaleInt64 (value b) (int32 (scale a - scale b)) in
    if negb exact then Dec_Cmp (Amount_AsDec a) (Amount_AsDec b)
    else if result =? value a then
      (if remainder =? 0 then 0 else if 0 <? remainder then -1 else 1)
    else cmp_final (value a) result
  else
    let '(result, remainder, exact) :=
      divideByScaleInt64 (value a) (int32 (scale b - scale a)) in
    if negb exact then Dec_Cmp (Amount_AsDec a) (Amount_AsDec b)
    else if result =? value b then
      (if remainder =? 0 then 0 else if 0 <? remainder then 1 else -1)
    else cmp_final result (value b).

(** [a.Add(b)]: the new [a] and the result; [a] is unchanged on failure. *)
Definition Amount_Add (a b : int64Amount) : int64Amount * bool :=
  if value b =? 0 then (a, true)
  else if value a =? 0 then (mkAmount (value b) (scale b), true)
  else if scale a =? scale b then
    let '(c, ok) := int64Add (value a) (value b) in
    if negb ok then (a, false) else (mkAmount c (scale a), true)
  else if scale b <? scale a then
    let '(c, ok) := positiveScaleInt64 (value a) (int32 (scale a - scale b)) in
    if negb ok then (a, false)
    else
      let '(c, ok) := int64Add c (value b) in
      if negb ok then (a, false) else (mkAmount c (scale b), true)
  else
    let '(c, ok) := positiveScaleInt64 (value b) (int32 (scale b - scale a)) in
    if negb ok then (a, false)
    else
      let '(c, ok) := int64Add (value a) c in
      if negb ok then (a, false) else (mkAmount c (scale a), true).

Definition Amount_Sub (a b : int64Amount) : int64Amount * bool :=
  Amount_Add a (mkAmount (neg64 (value b)) (scale b)).

Definition Amount_AsScale (a : int64Amount) (s : Z) : int64Amount * bool :=
  if s <=? scale a then (a, true)
  else
    let '(result, exact) := negativeScaleInt64 (value a) (int32 (s - scale a)) in
    (mkAmount result s, exact).

(** ** [Quantity] *)

Definition DecimalExponent : string := "DecimalExponent".
Definition BinarySI : string := "BinarySI".
Definition DecimalSI : string := "DecimalSI".

Record Quantity := mkQuantity {
  q_i : int64Amount;       (** the amount, if [q_d] is [None] *)
  q_d : option Dec;
  q_s : string;            (** cached text *)
  q_Format : string
}.

Definition zeroAmount : int64Amount := mkAmount 0 0.
Definition zeroQuantity : Quantity := mkQuantity zeroAmount None "" "".

(** [maxAllowed] is the largest int64. *)
Definition maxAllowed : Dec := mkDec MaxInt64 0.

Definition NewQuantity (v : Z) (format : string) : Quantity :=
  mkQuantity (mkAmount v 0) None "" format.

Definition NewMilliQuantity (v : Z) (format : string) : Quantity :=
  mkQuantity (mkAmount v (-3)) None "" format.

Definition NewScaledQuantity (v s : Z) : Quantity :=
  mkQuantity (mkAmount v s) None "" DecimalSI.

(** scale_int.go: [scaledValue(unscaled, scale, newScale)] *)
Definition scaledValue {arch : GoArch} (u scale newScale : Z) : Z :=
  let dif := scale - newScale in
  if dif =? 0 then int64 u
  else if dif <? 0 then int64 u *₆₄ int64_of_f64 (f64_pow10 (- dif))
  else if (u <? MaxInt64) && (dif <? 19) then
    let divide := int64_of_f64 (f64_pow10 dif) in
    let result := div64 (int64 u) divide in
    if negb (rem64 (int64 u) divide =? 0) then result +₆₄ 1 else result
  else
    let divisor := 10 ^ dif in
    let result := u / divisor in
    if negb (u `mod` divisor =? 0) then int64 result +₆₄ 1 else int64 result.

Definition ScaledValue {arch : GoArch} (q : Quantity) (s : Z) : Z :=
  match q_d q with
  | None => (Amount_AsScaledInt64 (q_i q) s).1
  | Some d => scaledValue (unscaled d) (dscale d) (infScale s)
  end.

Definition Value {arch : GoArch} (q : Quantity) : Z := ScaledValue q 0.
Definition MilliValue {arch : GoArch} (q : Quantity) : Z := ScaledValue q Milli.

Definition IsZero (q : Quantity) : bool :=
  match q_d q with Some d => unscaled d =? 0 | None => value (q_i q) =? 0 end.

Definition Sign (q : Quantity) : Z :=
  match q_d q with Some d => Z.sgn (unscaled d) | None => Amount_Sign (q_i q) end.

Definition AsDec (q : Quantity) : Dec :=
  match q_d q with Some d => d | None => Amount_AsDec (q_i q) end.

Definition ToDec (q : Quantity) : Quantity :=
  match q_d q with
  | Some _ => q
  | None => mkQuantity zeroAmount (Some (Amount_AsDec (q_i q))) (q_s q) (q_Format q)
  end.

Definition Quantity_Cmp (q y : Quantity) : Z :=
  match q_d q, q_d y with
  | None, None => Amount_Cmp (q_i q) (q_i y)
  | _, _ => Dec_Cmp (AsDec q) (AsDec y)
  end.

Definition Quantity_Add (q y : Quantity) : Quantity :=
  let slow q := mkQuantity zeroAmount (Some (Dec_Add (AsDec q) (AsDec y))) "" (q_Format q) in
  match q_d q, q_d y with
  | None, None =>
      let q := mkQuantity (q_i q) None ""
                 (if value (q_i q) =? 0 then q_Format y else q_Format q) in
      let '(i, ok) := Amount_Add (q_i q) (q_i y) in
      if ok then mkQuantity i None "" (q_Format q) else slow q
  | _, _ =>
      slow (mkQuantity (q_i q) (q_d q) "" (if IsZero q then q_Format y else q_Format q))
  end.

Definition Quantity_Sub (q y : Quantity) : Quantity :=
  let q := mkQuantity (q_i q) (q_d q) "" (if IsZero q then q_Format y else q_Format q) in
  let slow := mkQuantity zeroAmount (Some (Dec_Sub (AsDec q) (AsDec y))) "" (q_Format q) in
  match q_d q, q_d y with
  | None, None =>
      let '(i, ok) := Amount_Sub (q_i q) (q_i y) in
      if ok then mkQuantity i None "" (q_Format q) else slow
  | _, _ => slow
  end.

Definition Quantity_Neg (q : Quantity) : Quantity :=
  match q_d q with
  | None => mkQuantity (mkAmount (neg64 (value (q_i q))) (scale (q_i q))) None "" (q_Format q)
  | Some d => mkQuantity (q_i q) (Some (Dec_Neg d)) "" (q_Format q)
  end.

Definition SetScaled (q : Quantity) (v s : Z) : Quantity :=
  mkQuantity (mkAmount v s) None "" (q_Format q).

(** ** Parsing *)

Definition ErrFormatWrong : string := "quantities must match the regular expression".
Definition ErrNumeric : string := "unable to parse numeric part of quantity".
Definition ErrSuffix : string := "unable to parse quantity's suffix".

Fixpoint span_zeros (s : string) : string * string :=
  match s with
  | String c s' =>
      if Ascii.eqb c "0"%char then let '(a, b) := span_zeros s' in (String c a, b)
      else (EmptyString, s)
  | EmptyString => (EmptyString, s)
  end.

Fixpoint span_suffix_chars (s : string) : string * string :=
  match s with
  | String c s' =>
      if str_mem c "eEinumkKMGTP" then let '(a, b) := span_suffix_chars s' in (String c a, b)
      else (EmptyString, s)
  | EmptyString => (EmptyString, s)
  end.

Record parsed := mkParsed {
  p_positive : bool; p_value : string; p_num : string; p_denom : string; p_suffix : string
}.

(** The tail of [parseQuantityString]: the suffix and its checks. *)
Definition parse_suffix (mk : string -> parsed) (s : string) : parsed + string :=
  let '(_, rest) := span_suffix_chars s in
  let after_sign :=
    match rest with
    | String c r => if Ascii.eqb c "-"%char || Ascii.eqb c "+"%char then r else rest
    | EmptyString => rest
    end in
  let '(_, tail) := span_digits after_sign in
  if String.eqb tail "" then inl (mk s) else inr ErrFormatWrong.

Definition parseQuantityString (str : string) : parsed + string :=
  let '(positive, sgn, s1) :=
    match str with
    | String c r =>
        if Ascii.eqb c "-"%char then (false, "-", r)
        else if Ascii.eqb c "+"%char then (true, "+", r) else (true, "", str)
    | EmptyString => (true, "", str)
    end%string in
  let '(zs, s2) := span_zeros s1 in
  if String.eqb s2 "" then inl (mkParsed positive "0" "0" "" "")
  else
    let '(num0, s3) := span_digits s2 in
    if String.eqb s3 "" then inl (mkParsed positive str num0 "" "")
    else
      let num := if (String.length num0 =? 0)%nat then "0"%string else num0 in
      let upto := str_app sgn (str_app zs num0) in
      match s3 with
      | String c s4 =>
          if Ascii.eqb c "."%char then
            let '(denom, s5) := span_digits s4 in
            if String.eqb s5 "" then inl (mkParsed positive str num denom "")
            else parse_suffix
                   (mkParsed positive (str_app upto (String "."%char denom)) num denom) s5
          else parse_suffix (mkParsed positive upto num "") s3
      | EmptyString => inl (mkParsed positive str num0 "" "")
      end.

(** suffix.go: the tables of [newSuffixer] and [interpret].  The result is
    the base, the exponent and the format. *)
Definition dec_suffixes : list (string * Z) :=
  [("n", -9); ("u", -6); ("m", -3); ("", 0); ("k", 3); ("M", 6); ("G", 9);
   ("T", 12); ("P", 15); ("E", 18)]%string.
Definition bin_suffixes : list (string * Z) :=
  [("Ki", 10); ("Mi", 20); ("Gi", 30); ("Ti", 40); ("Pi", 50); ("Ei", 60)]%string.

Definition suffix_lookup (s : string) (l : list (string * Z)) : option Z :=
  first_some (fun p => if String.eqb s p.1 then Some p.2 else None) l.

Definition interpret (s : string) : option (Z * Z * string) :=
  match suffix_lookup s dec_suffixes with
  | Some e => Some (10, e, DecimalSI)
  | None =>
      match suffix_lookup s bin_suffixes with
      | Some e => Some (2, e, BinarySI)
      | None =>
          match s with
          | String c (String _ _ as r) =>
              if Ascii.eqb c "E"%char || Ascii.eqb c "e"%char then
                match ParseInt r with
                | (n, None) => Some (10, int32 n, DecimalExponent)
                | _ => None
                end
              else None
          | _ => None
          end
      end
  end.

Definition maxInt64Factors : Z := 18.

(** The path through [inf.Dec]. *)
Definition parse_slow (value : string) (base exponent : Z) (format : string) : Quantity + string :=
  match Dec_SetString value with
  | None => inr ErrNumeric
  | Some amount =>
      let amount :=
        if base =? 10 then mkDec (unscaled amount) (int32 (dscale amount + infScale exponent))
        else if base =? 2 then mkDec (unscaled amount * 2 ^ exponent) (dscale amount)
        else amount in
      let sign := Z.sgn (unscaled amount) in
      let amount := if sign =? -1 then Dec_Neg amount else amount in
      let amount := if unscaled amount =? 0 then amount else Dec_RoundUp amount (infScale Nano) in
      let amount :=
        if String.eqb format BinarySI && (0 <? Dec_Cmp amount maxAllowed) then maxAllowed
        else amount in
      let format :=
        if String.eqb format BinarySI && (Dec_Cmp amount (mkDec 1 0) <? 0)
             && (0 <? Dec_Cmp amount (mkDec 0 0))
        then DecimalSI else format in
      let amount := if sign =? -1 then Dec_Neg amount else amount in
      inl (mkQuantity zeroAmount (Some amount) "" format)
  end.

Definition head_is_zero (s : string) : bool :=
  match s with String c _ => Ascii.eqb c "0"%char | EmptyString => false end.

Definition ParseQuantity (str : string) : Quantity + string :=
  if (String.length str =? 0)%nat then inr ErrFormatWrong
  else if String.eqb str "0" then inl (mkQuantity zeroAmount None str DecimalSI)
  else
    match parseQuantityString str with
    | inr e => inr e
    | inl p =>
        let num := p_num p in
        let denom := p_denom p in
        match interpret (p_suffix p) with
        | None => inr ErrSuffix
        | Some (base, exponent, format) =>
            let lnum := Z.of_nat (String.length num) in
            let lden := Z.of_nat (String.length denom) in
            let binary := String.eqb format BinarySI in
            let scale0 := if binary then 0 else exponent in
            let mantissa :=
              if binary && (0 <=? exponent) && (lden =? 0) then int64 (2 ^ exponent) else 1 in
            let precision :=
              if binary then
                (* int32(float32(exponent)*3/10) is exact for the exponents of the table *)
                if (0 <=? exponent) && (lden =? 0)
                then int32 (15 - lnum - Z.quot (exponent * 3) 10 - 1) else -1
              else int32 (maxInt64Factors - (lnum + lden)) in
            let scale := int32 (scale0 - lden) in
            let slow := parse_slow (p_value p) base exponent format in
            if (0 <=? precision) && (Nano <=? scale) then
              let shifted := str_app num denom in
              match ParseInt shifted with
              | (_, Some _) => inr ErrNumeric
              | (v, None) =>
                  let '(result, ok) := int64Multiply v mantissa in
                  if ok then
                    let result := if p_positive p then result else neg64 result in
                    let canonical :=
                      if binary then (Z.rem exponent 10 =? 0) && negb (Z.land v 7 =? 0)
                      else (Z.rem scale 3 =? 0) && negb (HasSuffix shifted "000")
                             && negb (head_is_zero shifted) in
                    inl (mkQuantity (mkAmount result scale) None
                           (if canonical then str else ""%string) format)
                  else slow
              end
            else slow
        end
    end.

Definition MustParse (str : string) : outcome Quantity :=
  match ParseQuantity str with
  | inl q => Ret q
  | inr e => Panic (str_app "cannot parse '" (str_app str (str_app "': " e)))
  end.
