(* ===== verification/QuantityProofs.v ===== *)
(** * Correctness of [resource.Quantity]

    Comparison and addition agree with the rational values of the amounts,
    the scaled readings round up, and reading back the text that Hicev2
    writes gives the number written. *)

From S2P Require Import Prelude GoInt GoFloat GoStrconv QuantityMath Quantity.

(** An amount has a 64-bit value and a scale in the range that parsing and
    the arithmetic of quantities produce (differences of scales stay in 32
    bits). *)
Definition wf_amount (a : int64Amount) : Prop :=
  is_int64 (value a) /\ -2 ^ 30 < scale a < 2 ^ 30.

(** The integer [value a * 10^(scale a - s)], for [s] below the scale. *)
Definition at_scale (a : int64Amount) (s : Z) : Z := value a * 10 ^ (scale a - s).

Lemma at_scale_self a : at_scale a (scale a) = value a.
Proof. unfold at_scale. by rewrite Z.sub_diag, Z.pow_0_r, Z.mul_1_r. Qed.

Lemma wf_scale_diff a b :
  wf_amount a -> wf_amount b -> int32 (scale a - scale b) = scale a - scale b.
Proof. intros [_ Ha] [_ Hb]. apply int32_id. int_unfold. lia. Qed.

Lemma cmp_final_cmpZ a b : cmp_final a b = cmpZ a b.
Proof.
  unfold cmp_final, cmpZ. destruct (Z.compare_spec a b) as [->|H|H].
  - by rewrite Z.eqb_refl.
  - destruct (Z.eqb_spec a b); [lia|]. by destruct (Z.ltb_spec a b); [|lia].
  - destruct (Z.eqb_spec a b); [lia|]. by destruct (Z.ltb_spec a b); [lia|].
Qed.

Lemma cmpZ_mul a b d : 0 < d -> cmpZ (a * d) (b * d) = cmpZ a b.
Proof. intros Hd. unfold cmpZ. by rewrite <- Zmult_compare_compat_r by lia. Qed.

Lemma cmpZ_opp a b : cmpZ b a = - cmpZ a b.
Proof. unfold cmpZ. rewrite Z.compare_antisym. by destruct (a ?= b). Qed.

(** Comparing with a truncated quotient, and the remainder when it is equal. *)
Lemma cmp_truncated a b d :
  0 < d ->
  (if Z.quot b d =? a then
     (if Z.rem b d =? 0 then 0 else if 0 <? Z.rem b d then -1 else 1)
   else cmp_final a (Z.quot b d)) = cmpZ (a * d) b.
Proof.
  intros Hd. pose proof (Z.quot_rem b d ltac:(lia)) as Hqr.
  pose proof (Z.rem_bound_abs b d ltac:(lia)) as Hr. rewrite (Z.abs_eq d) in Hr by lia.
  destruct (Z.eqb_spec (Z.quot b d) a) as [<-|Hne].
  - unfold cmpZ. destruct (Z.compare_spec (Z.quot b d * d) b);
      destruct (Z.eqb_spec (Z.rem b d) 0); try lia;
      destruct (Z.ltb_spec 0 (Z.rem b d)); lia.
  - rewrite cmp_final_cmpZ. unfold cmpZ.
    pose proof (Z.rem_sign_mul b d ltac:(lia)) as Hs.
    set (q := Z.quot b d) in *. set (r := Z.rem b d) in *. clearbody r.
    assert (0 <= q * b).
    { subst q. destruct (Z.le_gt_cases 0 b).
      - pose proof (Z.quot_pos b d). nia.
      - pose proof (Z.quot_pos (- b) d). rewrite Z.quot_opp_l in * by lia. nia. }
    clearbody q. destruct (Z.compare_spec a q) as [|Hlt|Hgt]; [lia| |].
    + assert (a * d < b) by nia. by rewrite (proj2 (Z.compare_lt_iff _ _)).
    + assert (b < a * d) by nia. by rewrite (proj2 (Z.compare_gt_iff _ _)).
Qed.

Lemma Dec_Cmp_amounts a b :
  wf_amount a -> wf_amount b -> scale b < scale a ->
  Dec_Cmp (Amount_AsDec a) (Amount_AsDec b) = cmpZ (at_scale a (scale b)) (value b)
  /\ Dec_Cmp (Amount_AsDec b) (Amount_AsDec a) = cmpZ (value b) (at_scale a (scale b)).
Proof.
  intros [Ha Hsa] [Hb Hsb] Hlt. unfold Dec_Cmp, Dec_upscale, Amount_AsDec. cbn [dscale].
  rewrite !(int32_id (- scale a)), !(int32_id (- scale b)) by (int_unfold; lia).
  destruct (Z.eqb_spec (- scale a) (- scale b)); [lia|].
  destruct (Z.eqb_spec (- scale b) (- scale a)); [lia|].
  destruct (Z.ltb_spec (- scale b) (- scale a)); [lia|].
  destruct (Z.ltb_spec (- scale a) (- scale b)); [|lia].
  unfold Dec_rescale. cbn [dscale unscaled].
  rewrite !(int32_id (- scale b - - scale a)) by (int_unfold; lia).
  destruct (Z.ltb_spec (- scale b - - scale a) 0); [lia|].
  destruct (Z.ltb_spec 0 (- scale b - - scale a)); [|lia]. cbn [unscaled].
  unfold at_scale. replace (- scale b - - scale a) with (scale a - scale b) by lia. done.
Qed.

Lemma Amount_Cmp_high a b :
  wf_amount a -> wf_amount b -> scale b < scale a ->
  Amount_Cmp a b = cmpZ (at_scale a (scale b)) (value b)
  /\ Amount_Cmp b a = cmpZ (value b) (at_scale a (scale b)).
Proof.
  intros Ha Hb Hlt. unfold Amount_Cmp.
  destruct (Z.eqb_spec (scale a) (scale b)); [lia|].
  destruct (Z.eqb_spec (scale b) (scale a)); [lia|].
  destruct (Z.ltb_spec (scale b) (scale a)); [|lia].
  destruct (Z.ltb_spec (scale a) (scale b)); [lia|].
  rewrite wf_scale_diff by done.
  destruct (Dec_Cmp_amounts a b Ha Hb Hlt) as [E1 E2].
  destruct (Z.le_gt_cases 18 (scale a - scale b)) as [Hbig|Hsmall].
  - unfold divideByScaleInt64. destruct (Z.eqb_spec (scale a - scale b) 0); [lia|].
    destruct (Z.leb_spec 18 (scale a - scale b)); [|lia]. done.
  - rewrite divideByScaleInt64_spec by (destruct Hb; lia || done). cbn [negb].
    assert (0 < 10 ^ (scale a - scale b)) as Hp by (apply Z.pow_pos_nonneg; lia).
    pose proof (cmp_truncated (value a) (value b) _ Hp) as C. unfold at_scale.
    split; [done|]. rewrite cmpZ_opp, <- C.
    destruct (Z.quot (value b) _ =? value a).
    + by repeat case_match.
    + rewrite !cmp_final_cmpZ. apply cmpZ_opp.
Qed.

(** [int64Amount.Cmp] orders amounts by their rational values, whatever
    their scales, including when it has to leave the 64-bit fast path. *)
Theorem Amount_Cmp_correct a b :
  wf_amount a -> wf_amount b ->
  let s := Z.min (scale a) (scale b) in
  Amount_Cmp a b = cmpZ (at_scale a s) (at_scale b s).
Proof.
  intros Ha Hb s.
  destruct (Z.compare_spec (scale a) (scale b)) as [E|Hlt|Hgt].
  - assert (s = scale a) as -> by lia. rewrite (at_scale_self a).
    assert (at_scale b (scale a) = value b) as -> by (rewrite E; apply at_scale_self).
    unfold Amount_Cmp. rewrite E, Z.eqb_refl. apply cmp_final_cmpZ.
  - subst s. rewrite Z.min_l, at_scale_self by lia. by apply Amount_Cmp_high.
  - subst s. rewrite Z.min_r, (at_scale_self b) by lia. by apply Amount_Cmp_high.
Qed.

(** 1Ki and 1.024k compare equal, 1500m is above 1. *)
Lemma Amount_Cmp_correct_witness :
  Amount_Cmp (mkAmount 1500 (-3)) (mkAmount 1 0)
  = cmpZ (at_scale (mkAmount 1500 (-3)) (-3)) (at_scale (mkAmount 1 0) (-3)).
Proof.
  apply (Amount_Cmp_correct (mkAmount 1500 (-3)) (mkAmount 1 0));
    split; cbn [value scale]; int_unfold; lia.
Defined.

Lemma positive_scaled a b :
  wf_amount a -> wf_amount b -> scale b < scale a ->
  (is_int64 (at_scale a (scale b)) /\
   positiveScaleInt64 (value a) (int32 (scale a - scale b)) = (at_scale a (scale b), true)) \/
  (~ is_int64 (at_scale a (scale b)) /\
   (positiveScaleInt64 (value a) (int32 (scale a - scale b))).2 = false).
Proof.
  intros Ha Hb Hlt. rewrite wf_scale_diff by done. unfold at_scale.
  apply positiveScaleInt64_spec; [apply Ha|lia].
Qed.

(** [int64Amount.Add] succeeds exactly when the operands and the sum fit
    64 bits at the lower of the two scales; the result is then the exact sum,
    and otherwise the receiver is left unchanged. *)
Theorem Amount_Add_correct a b :
  wf_amount a -> wf_amount b -> value a <> 0 -> value b <> 0 ->
  let s := Z.min (scale a) (scale b) in
  let fits := is_int64 (at_scale a s) /\ is_int64 (at_scale b s)
              /\ is_int64 (at_scale a s + at_scale b s) in
  (fits /\ Amount_Add a b = (mkAmount (at_scale a s + at_scale b s) s, true)) \/
  (~ fits /\ Amount_Add a b = (a, false)).
Proof.
  intros Ha Hb Ha0 Hb0 s.
  unfold Amount_Add. destruct (Z.eqb_spec (value b) 0); [done|].
  destruct (Z.eqb_spec (value a) 0); [done|].
  destruct (Z.eqb_spec (scale a) (scale b)) as [E|Hne].
  - assert (s = scale a) as -> by lia. rewrite (at_scale_self a).
    assert (at_scale b (scale a) = value b) as -> by (rewrite E; apply at_scale_self).
    destruct (int64Add_spec (value a) (value b)) as [[Hin ->]|[Hn ->]]; [apply Ha|apply Hb| |].
    + left. split; [split_and!; [apply Ha|apply Hb|done]|]. done.
    + right. split; [naive_solver|done].
  - destruct (Z.ltb_spec (scale b) (scale a)) as [Hlt|Hge].
    + subst s. rewrite Z.min_r, (at_scale_self b) by lia.
      destruct (positive_scaled a b Ha Hb Hlt) as [[Hin ->]|[Hn E]]; cbn [negb].
      * destruct (int64Add_spec (at_scale a (scale b)) (value b)) as [[Hs ->]|[Hs ->]];
          [done|apply Hb|left|right]; cbn [negb].
        -- split; [split_and!; [done|apply Hb|done]|done].
        -- split; [naive_solver|done].
      * destruct (positiveScaleInt64 _ _) as [c ok]. simpl in E. subst ok. right.
        split; [naive_solver|done].
    + subst s. rewrite Z.min_l, (at_scale_self a) by lia.
      destruct (positive_scaled b a Hb Ha ltac:(lia)) as [[Hin ->]|[Hn E]]; cbn [negb].
      * destruct (int64Add_spec (value a) (at_scale b (scale a))) as [[Hs ->]|[Hs ->]];
          [apply Ha|done|left|right]; cbn [negb].
        -- split; [split_and!; [apply Ha|done|done]|done].
        -- split; [naive_solver|done].
      * destruct (positiveScaleInt64 _ _) as [c ok]. simpl in E. subst ok. right.
        split; [naive_solver|done].
Qed.

Lemma Amount_Add_correct_witness :
  let a := mkAmount 2 0 in let b := mkAmount 250 (-3) in
  (let s := Z.min (scale a) (scale b) in
  let fits := is_int64 (at_scale a s) /\ is_int64 (at_scale b s)
              /\ is_int64 (at_scale a s + at_scale b s) in
  (fits /\ Amount_Add a b = (mkAmount (at_scale a s + at_scale b s) s, true)) \/
  (~ fits /\ Amount_Add a b = (a, false))) /\ Amount_Add a b = (mkAmount 2250 (-3), true).
Proof.
  split; [|reflexivity].
  apply (Amount_Add_correct (mkAmount 2 0) (mkAmount 250 (-3)));
    try split; cbn [value scale]; int_unfold; lia.
Defined.

(** ** Scaled readings *)

(** The least integer not below [n / d]. *)
Definition ceil_div (n d : Z) : Z := - ((- n) / d).

Lemma ceil_div_spec n d : 0 < d -> d * (ceil_div n d - 1) < n <= d * ceil_div n d.
Proof.
  intros Hd. unfold ceil_div.
  pose proof (Z.div_mod (- n) d). pose proof (Z.mod_pos_bound (- n) d). nia.
Qed.

Lemma ceil_div_floor n d :
  0 < d -> ceil_div n d = n / d + (if n `mod` d =? 0 then 0 else 1).
Proof.
  intros Hd. unfold ceil_div.
  pose proof (Z.div_mod n d ltac:(lia)) as Hdm. pose proof (Z.mod_pos_bound n d Hd).
  destruct (Z.eqb_spec (n `mod` d) 0) as [E|E].
  - rewrite Z.div_opp_l_z by lia. lia.
  - rewrite Z.div_opp_l_nz by lia. lia.
Qed.

(** [int64(math.Pow10(k))] is exact as long as it fits. *)
Lemma pow10_exact {arch : GoArch} k : 0 <= k <= 18 -> int64_of_f64 (f64_pow10 k) = 10 ^ k.
Proof.
  intros Hk.
  pose proof (forall_seqZ_check
    (fun k => match f64_trunc (f64_pow10 k) with Some z => z =? 10 ^ k | None => false end) 0 19 k
    ltac:(vm_compute; reflexivity) ltac:(lia)) as HF.
  cbn beta in HF. unfold int64_of_f64.
  destruct (f64_trunc (f64_pow10 k)) as [z|]; [|done]. apply Z.eqb_eq in HF. subst z.
  assert (1 <= 10 ^ k <= 10 ^ 18).
  { split; [change 1 with (10 ^ 0)|]; apply Z.pow_le_mono_r; lia. }
  destruct (Z.leb_spec MinInt64 (10 ^ k)); [|int_unfold; lia].
  by destruct (Z.leb_spec (10 ^ k) MaxInt64); [|int_unfold; lia].
Qed.

(** [scaledValue] reads a non-negative decimal rounded up: it is the
    least integer not below [unscaled * 10^(newScale - scale)] whenever the
    new scale is coarser and that integer fits 64 bits. *)
Theorem scaledValue_ceil {arch : GoArch} u s ns :
  0 <= u -> ns < s -> ceil_div u (10 ^ (s - ns)) <= MaxInt64 ->
  scaledValue u s ns = ceil_div u (10 ^ (s - ns)).
Proof.
  intros Hu Hlt Hmax. unfold scaledValue.
  assert (0 < 10 ^ (s - ns)) as Hp by (apply Z.pow_pos_nonneg; lia).
  rewrite ceil_div_floor in * by done.
  assert (0 <= u / 10 ^ (s - ns)) by (by apply Z.div_pos; lia).
  destruct (Z.eqb_spec (s - ns) 0); [lia|]. destruct (Z.ltb_spec (s - ns) 0); [lia|].
  destruct (Z.ltb_spec u MaxInt64) as [Hum|Hum]; cbn [andb].
  - destruct (Z.ltb_spec (s - ns) 19); cbn [andb].
    + rewrite pow10_exact, (int64_id u) by (int_unfold; lia).
      unfold div64, rem64. rewrite Z.quot_div_nonneg, Z.rem_mod_nonneg by lia.
      assert (is_int64 (u / 10 ^ (s - ns))) as Hq.
      { pose proof (Z.div_le_upper_bound u (10 ^ (s - ns)) u). int_unfold; nia. }
      rewrite int64_id by done.
      destruct (Z.eqb_spec (u `mod` 10 ^ (s - ns)) 0); cbn [negb]; [lia|].
      rewrite add64_exact; [done|]. int_unfold; lia.
    + destruct (Z.eqb_spec (u `mod` 10 ^ (s - ns)) 0); cbn [negb];
        rewrite int64_id by (int_unfold; lia); [lia|]. rewrite add64_exact; [done|int_unfold; lia].
  - destruct (Z.eqb_spec (u `mod` 10 ^ (s - ns)) 0); cbn [negb];
      rewrite int64_id by (int_unfold; lia); [lia|]. rewrite add64_exact; [done|int_unfold; lia].
Qed.

(** 1.5Gi in nano-units read in milli-units. *)
Lemma scaledValue_ceil_witness :
  @scaledValue amd64 1610612736000000001 9 3 = ceil_div 1610612736000000001 (10 ^ (9 - 3)).
Proof. apply (@scaledValue_ceil amd64); [lia|lia|vm_compute; discriminate]. Defined.

(** The same reading of negative decimals is neither rounded up nor rounded
    away from zero: -1.5 read at scale 0 gives 0. *)
Theorem scaledValue_negative_rounding :
  @scaledValue amd64 (-15) 1 0 = 0 /\ ceil_div (-15) 10 = -1 /\ round_away (-15) 10 = -2.
Proof. vm_compute. done. Qed.

(** Reading an [int64Amount] at a scale: exact when the target scale is
    finer and the product fits, and otherwise rounded away from zero. *)
Theorem AsScaledInt64_correct a s :
  wf_amount a -> -2 ^ 30 < s < 2 ^ 30 ->
  (s <= scale a -> is_int64 (at_scale a s) ->
     Amount_AsScaledInt64 a s = (at_scale a s, true)) /\
  (s <= scale a -> ~ is_int64 (at_scale a s) -> (Amount_AsScaledInt64 a s).2 = false) /\
  (scale a < s ->
     Amount_AsScaledInt64 a s = (round_away (value a) (10 ^ (s - scale a)), true)).
Proof.
  intros [Hv Hsc] Hs. unfold Amount_AsScaledInt64, at_scale.
  rewrite (int32_id (s - scale a)), (int32_id (scale a - s)) by (int_unfold; lia).
  split_and!; intros Hle; destruct (Z.ltb_spec (scale a) s); try lia.
  - intros Hin. by destruct (positiveScaleInt64_spec (value a) (scale a - s))
      as [[? ->]|[? ?]]; [done|lia|..].
  - intros Hn. by destruct (positiveScaleInt64_spec (value a) (scale a - s))
      as [[? ?]|[? ?]]; [done|lia|..].
  - by rewrite negativeScaleInt64_spec by (done || lia).
Qed.

Lemma AsScaledInt64_correct_witness :
  Amount_AsScaledInt64 (mkAmount 1500001 (-6)) (-3)
  = (round_away 1500001 (10 ^ (-3 - -6)), true) /\ round_away 1500001 1000 = 1501.
Proof.
  split; [|reflexivity].
  apply (AsScaledInt64_correct (mkAmount 1500001 (-6)) (-3)); [split|..];
    cbn [value scale]; int_unfold; lia.
Defined.

(** ** The text Hicev2 writes *)

Lemma digit_char_cases d :
  1 <= d < 10 ->
  Ascii.eqb (digit_char d) "-" = false /\ Ascii.eqb (digit_char d) "+" = false /\
  Ascii.eqb (digit_char d) "0" = false /\ is_digit (digit_char d) = true.
Proof.
  intros Hd.
  pose proof (forall_seqZ_check
    (fun d => let c := digit_char d in
       negb (Ascii.eqb c "-") && negb (Ascii.eqb c "+") && negb (Ascii.eqb c "0") && is_digit c)
    1 9 d ltac:(vm_compute; reflexivity) ltac:(lia)) as H. cbn zeta in H.
  rewrite !andb_true_iff, !negb_true_iff in H. naive_solver.
Qed.

(** Scanning the digits of [n] followed by [m], after the sign. *)
Lemma scan_digits_m n :
  0 < n ->
  exists c s, str_app (digits_of n) "m" = String c s
    /\ Ascii.eqb c "-" = false /\ Ascii.eqb c "+" = false
    /\ span_zeros (String c s) = (EmptyString, String c s)
    /\ span_digits (String c s) = (digits_of n, "m"%string)
    /\ (String.length (digits_of n) =? 0)%nat = false.
Proof.
  intros Hn. destruct (digits_of_head n Hn) as (d & s & Hd & E).
  destruct (digit_char_cases d Hd) as (H1 & H2 & H3 & H4).
  exists (digit_char d), (str_app s "m"). split_and!; auto.
  - by rewrite E.
  - cbn [span_zeros]. by rewrite H3.
  - replace (String (digit_char d) (str_app s "m")) with (str_app (digits_of n) "m") by (by rewrite E).
    rewrite span_digits_of by lia. cbn. by rewrite str_app_nil_r.
  - by rewrite E.
Qed.

Lemma parse_milli_string n :
  0 < n ->
  parseQuantityString (str_app (digits_of n) "m")
    = inl (mkParsed true (digits_of n) (digits_of n) "" "m") /\
  parseQuantityString (String "-" (str_app (digits_of n) "m"))
    = inl (mkParsed false (String "-" (digits_of n)) (digits_of n) "" "m").
Proof.
  intros Hn. destruct (scan_digits_m n Hn) as (c & s & E & H1 & H2 & Hz & Hd & Hl).
  unfold parseQuantityString. rewrite E, H1, H2.
  split.
  - rewrite Hz. cbn [String.eqb]. rewrite Hd. cbn [String.eqb]. by rewrite Hl.
  - cbn [Ascii.eqb Bool.eqb]. rewrite Hz. cbn [String.eqb]. rewrite Hd. cbn [String.eqb]. by rewrite Hl.
Qed.

Lemma ParseInt_digits_of n :
  0 < n <= MaxInt64 -> ParseInt (digits_of n) = (n, None).
Proof.
  intros Hn. unfold ParseInt.
  destruct (digits_of_head n ltac:(lia)) as (d & s & Hd & E).
  destruct (digit_char_cases d Hd) as (H1 & H2 & _ & _).
  rewrite E at 1. rewrite H2, H1. rewrite all_digits_digits_of by lia.
  rewrite E at 1. cbn [String.length Nat.eqb orb negb].
  rewrite digits_num_digits_of by lia. by destruct (Z.leb_spec n MaxInt64); [|lia].
Qed.

Lemma is_digit_not_sign c :
  is_digit c = true -> Ascii.eqb c "+" = false /\ Ascii.eqb c "-" = false /\ Ascii.eqb c "." = false.
Proof. by destruct c as [[] [] [] [] [] [] [] []]; vm_compute. Qed.

Lemma Dec_scan_digits acc dg s :
  all_digits s = true ->
  Dec_scan acc None dg s = (str_app acc s, None, dg || negb (String.length s =? 0)%nat, ""%string).
Proof.
  revert acc dg. induction s as [|c s IH]; intros acc dg Hs; cbn [Dec_scan].
  { by rewrite str_app_nil_r, orb_false_r. }
  unfold all_digits in *. simpl in Hs. destruct (is_digit c) eqn:Hc; [|done].
  destruct (is_digit_not_sign c Hc) as (-> & -> & ->). cbn [orb].
  rewrite IH by (by destruct (span_digits s)). rewrite str_app_assoc. cbn.
  by rewrite orb_true_r.
Qed.

Lemma Dec_SetString_digits_of n : 0 < n -> Dec_SetString (digits_of n) = Some (mkDec n 0).
Proof.
  intros Hn. destruct (digits_of_head n Hn) as (d & s & Hd & E).
  destruct (digit_char_cases d Hd) as (H1 & H2 & _ & _).
  pose proof (all_digits_digits_of n ltac:(lia)) as Had.
  unfold Dec_SetString. rewrite Dec_scan_digits by done. cbn [str_app].
  assert ((String.length (digits_of n) =? 0)%nat = false) as Hl by (by rewrite E).
  rewrite Hl. cbn [orb negb]. unfold big_SetString, strip_sign.
  rewrite E at 1. rewrite H2, H1. rewrite Hl, Had. cbn [orb negb].
  by rewrite digits_num_digits_of by lia.
Qed.

Lemma MilliValue_amount {arch : GoArch} v s f :
  MilliValue (mkQuantity (mkAmount v (-3)) None s f) = v.
Proof. reflexivity. Qed.

(** The fast path: at most 18 digits. *)
Lemma ParseQuantity_milli_fast n :
  0 < n -> Z.of_nat (String.length (digits_of n)) <= 18 -> n <= MaxInt64 ->
  exists s, ParseQuantity (str_app (digits_of n) "m")
              = inl (mkQuantity (mkAmount n (-3)) None s DecimalSI) /\
  exists s', ParseQuantity (String "-" (str_app (digits_of n) "m"))
              = inl (mkQuantity (mkAmount (neg64 n) (-3)) None s' DecimalSI).
Proof.
  intros Hn Hl Hm. destruct (parse_milli_string n Hn) as [Ep En].
  destruct (digits_of_head n Hn) as (d & s & Hd & E).
  unfold ParseQuantity. rewrite Ep, En. cbn [p_num p_denom p_suffix p_value p_positive].
  change (interpret "m") with (Some (10, -3, DecimalSI)). cbn [String.length].
  change (String.eqb DecimalSI BinarySI) with false. cbn [andb].
  rewrite int32_id by (unfold maxInt64Factors; int_unfold; lia).
  change (int32 (-3 - Z.of_nat 0)) with (-3).
  destruct (Z.leb_spec 0 (maxInt64Factors - (Z.of_nat (String.length (digits_of n)) + Z.of_nat 0)));
    [|unfold maxInt64Factors in *; lia].
  cbn [andb Z.leb Z.compare Nano Pos.compare Pos.compare_cont CompOpp].
  rewrite str_app_nil_r, ParseInt_digits_of by lia.
  assert (int64Multiply n 1 = (n, true)) as ->.
  { unfold int64Multiply. rewrite Z.eqb_refl, !orb_true_r, mul64_exact by (int_unfold; lia).
    f_equal. lia. }
  rewrite E. cbn [str_app String.length Nat.eqb].
  assert (String.eqb (String (digit_char d) (str_app s "m")) "0" = false) as ->.
  { apply String.eqb_neq. by destruct s. }
  eexists. split; [reflexivity|]. eexists. reflexivity.
Qed.

(** The path through [inf.Dec]: 19 digits. *)
Lemma ParseQuantity_milli_slow n :
  10 ^ 18 <= n -> 18 < Z.of_nat (String.length (digits_of n)) < 2 ^ 30 ->
  ParseQuantity (str_app (digits_of n) "m")
    = inl (mkQuantity zeroAmount (Some (mkDec (n * 10 ^ 6) 9)) "" DecimalSI).
Proof.
  intros Hn Hl. destruct (parse_milli_string n ltac:(lia)) as [Ep _].
  destruct (digits_of_head n ltac:(lia)) as (d & s & Hd & E).
  unfold ParseQuantity. rewrite Ep. cbn [p_num p_denom p_suffix p_value p_positive].
  change (interpret "m") with (Some (10, -3, DecimalSI)). cbn [String.length].
  change (String.eqb DecimalSI BinarySI) with false. cbn [andb].
  rewrite int32_id by (unfold maxInt64Factors; int_unfold; lia).
  destruct (Z.leb_spec 0 (maxInt64Factors - (Z.of_nat (String.length (digits_of n)) + Z.of_nat 0)));
    [unfold maxInt64Factors in *; lia|]. cbn [andb].
  assert (String.eqb (str_app (digits_of n) "m") "0" = false) as ->.
  { apply String.eqb_neq. rewrite E. by destruct s. }
  assert ((String.length (str_app (digits_of n) "m") =? 0)%nat = false) as -> by (by rewrite E).
  unfold parse_slow. rewrite Dec_SetString_digits_of by lia. cbn [unscaled dscale].
  change (10 =? 10) with true. cbn iota. cbn [unscaled dscale].
  change (int32 (0 + infScale (-3))) with 3. rewrite Z.sgn_pos by lia.
  change (1 =? -1) with false. cbn iota. cbn [unscaled dscale].
  destruct (Z.eqb_spec n 0); [lia|]. change (String.eqb DecimalSI BinarySI) with false. cbn [andb].
  change (infScale Nano) with 9. unfold Dec_RoundUp. cbn [unscaled dscale].
  change (int32 (9 - 3)) with 6. change (0 <? 6) with true. cbn iota.
  rewrite Z.rem_1_r, Z.quot_1_r. reflexivity.
Qed.

Lemma MustParse_milli {arch : GoArch} n :
  -10 ^ 18 < n <= MaxInt64 ->
  exists q, MustParse (str_app (Itoa n) "m") = Ret q /\ MilliValue q = n.
Proof.
  intros Hn. unfold MustParse, Itoa.
  destruct (Z.ltb_spec n 0) as [Hneg|Hpos].
  - destruct (ParseQuantity_milli_fast (- n)) as (_ & _ & s & E); [lia| |int_unfold; lia|].
    { apply length_digits_of; lia. }
    cbn [str_app]. rewrite E. eexists. split; [done|]. rewrite MilliValue_amount.
    unfold neg64. rewrite Z.opp_involutive. apply int64_id. int_unfold; lia.
  - destruct (Z.eq_dec n 0) as [->|Hn0]; [eexists; split; [vm_compute; reflexivity|reflexivity]|].
    destruct (Z.le_gt_cases (Z.of_nat (String.length (digits_of n))) 18) as [Hl|Hl].
    + destruct (ParseQuantity_milli_fast n) as (s & E & _); [lia..|].
      rewrite E. eexists. split; [done|]. by rewrite MilliValue_amount.
    + assert (10 ^ 18 <= n) as Hbig.
      { destruct (Z.le_gt_cases (10 ^ 18) n); [done|].
        pose proof (length_digits_of n 18). lia. }
      pose proof (length_digits_of n 19) as Hl19.
      rewrite ParseQuantity_milli_slow by (int_unfold; lia). eexists. split; [done|].
      unfold MilliValue, ScaledValue, scaledValue. cbn [q_d unscaled dscale].
      change (infScale Milli) with 3. cbn [Z.sub Z.opp Z.add Z.pos_sub Z.eqb Z.ltb Z.compare].
      destruct (Z.ltb_spec (n * 10 ^ 6) MaxInt64); [int_unfold; lia|]. cbn [andb].
      rewrite Z.mod_mul, Z.div_mul by lia. cbn. apply int64_id. int_unfold; lia.
Qed.

(** Round trip of the text Hicev2 writes into a pod's CPU request: for
    every [int64] [n] above [-10^18], [MustParse(strconv.Itoa(n) + "m")] does
    not panic, and reading the quantity back with [MilliValue] gives [n]. *)
Theorem MustParse_Itoa_milli {arch : GoArch} n :
  -10 ^ 18 < n <= MaxInt64 ->
  exists q, MustParse (str_app (Itoa n) "m") = Ret q /\ MilliValue q = n.
Proof. apply MustParse_milli. Qed.

Lemma MustParse_Itoa_milli_witness :
  exists q, MustParse (str_app (Itoa 250) "m") = Ret q /\ @MilliValue amd64 q = 250.
Proof. apply (@MustParse_Itoa_milli amd64). int_unfold. lia. Defined.
