(* ===== verification/QuantityString.v ===== *)
(** * The text of a [resource.Quantity]

    Printing of quantities: [removeBigIntFactors] (math.go), the canonical
    forms of amounts (amount.go), the construction of suffixes (suffix.go)
    and [CanonicalizeBytes] and [String] (quantity.go).  Buffers that the
    code passes to avoid allocations are left out: a function returns the
    bytes it would append.  The canonical forms are exact, and
    [ParseQuantity] reads the text of a quantity as the same amount. *)

From S2P Require Import Prelude GoInt GoFloat GoStrconv QuantityMath Quantity QuantityProofs.

(** ** Factors *)

Fixpoint remove_big_loop (fuel : nat) (d factor times : Z) : Z * Z :=
  match fuel with
  | O => (d, times)
  | S f =>
      if d =? 0 then (d, times)
      else if negb (d `mod` factor =? 0) then (d, times)
      else remove_big_loop f (d / factor) factor (int32 (times + 1))
  end.

(** A round per binary digit is enough: every round divides by two or more. *)
Definition removeBigIntFactors (d factor : Z) : Z * Z :=
  remove_big_loop (S (Z.to_nat (Z.log2 (Z.abs d)))) d factor 0.

(** ** Canonical forms: a number and an exponent *)

(** [for exponent%3 != 0]: at most two rounds. *)
Fixpoint multiple_of_3 (fuel : nat) (amount exponent : Z) : Z * Z :=
  match fuel with
  | O => (amount, exponent)
  | S f => if Z.rem exponent 3 =? 0 then (amount, exponent) else multiple_of_3 f (amount * 10) (int32 (exponent - 1))
  end.

Definition Dec_canonical (a : Dec) : Z * Z :=
  let exponent := int32 (- dscale a) in
  let '(amount, times) := removeBigIntFactors (unscaled a) 10 in
  multiple_of_3 2 amount (int32 (exponent + times)).

Definition Dec_canonical1024 (a : Dec) : Z * Z :=
  removeBigIntFactors (unscaled (Dec_RoundUp a 0)) 1024.

Definition Amount_canonical (a : int64Amount) : Z * Z :=
  let '(amount, times) := removeInt64Factors (value a) 10 in
  let exponent := int32 (scale a + times) in
  let r := Z.rem exponent 3 in
  if (r =? 1) || (r =? -2) then
    let '(amount, ok) := int64MultiplyScale10 amount in
    if negb ok then Dec_canonical (Amount_AsDec a) else (amount, int32 (exponent - 1))
  else if (r =? 2) || (r =? -1) then
    let '(amount, ok) := int64MultiplyScale100 amount in
    if negb ok then Dec_canonical (Amount_AsDec a) else (amount, int32 (exponent - 2))
  else (amount, exponent).

Definition Amount_canonical1024 (a : int64Amount) : Z * Z :=
  let '(value, ok) := Amount_AsScaledInt64 a 0 in
  if negb ok then Dec_canonical1024 (Amount_AsDec a) else removeInt64Factors value 1024.

(** The bytes of the number, and the exponent. *)
Definition bytes_of (ne : Z * Z) : string * Z := (Itoa ne.1, ne.2).

Definition Amount_AsCanonicalBytes (a : int64Amount) : string * Z := bytes_of (Amount_canonical a).
Definition Dec_AsCanonicalBytes (a : Dec) : string * Z := bytes_of (Dec_canonical a).
Definition Amount_AsCanonicalBase1024Bytes (a : int64Amount) : string * Z := bytes_of (Amount_canonical1024 a).
Definition Dec_AsCanonicalBase1024Bytes (a : Dec) : string * Z := bytes_of (Dec_canonical1024 a).

(** [CanonicalValue]: one of the two kinds of amounts. *)
Definition CanonicalValue : Type := int64Amount + Dec.

Definition AsCanonicalBytes (q : Quantity) : string * Z :=
  match q_d q with Some d => Dec_AsCanonicalBytes d | None => Amount_AsCanonicalBytes (q_i q) end.

Definition AsCanonicalBase1024Bytes (v : CanonicalValue) : string * Z :=
  match v with inl a => Amount_AsCanonicalBase1024Bytes a | inr d => Dec_AsCanonicalBase1024Bytes d end.

Definition Dec_AsScale (a : Dec) (s : Z) : Dec * bool :=
  let tmp := Dec_RoundUp a (infScale s) in (tmp, Dec_Cmp tmp a =? 0).

Definition Quantity_AsScale (q : Quantity) (s : Z) : CanonicalValue * bool :=
  match q_d q with
  | Some d => let '(r, exact) := Dec_AsScale d s in (inr r, exact)
  | None => let '(r, exact) := Amount_AsScale (q_i q) s in (inl r, exact)
  end.

Definition CmpInt64 (q : Quantity) (y : Z) : Z :=
  match q_d q with
  | Some d => Dec_Cmp d (mkDec y 0)
  | None => Amount_Cmp (q_i q) (mkAmount y 0)
  end.

(** ** Suffixes *)

Definition suffix_of (exponent : Z) (l : list (string * Z)) : option string :=
  first_some (fun p => if p.2 =? exponent then Some p.1 else None) l.

Definition constructBytes (base exponent : Z) (format : string) : option string :=
  if String.eqb format DecimalSI then
    if base =? 10 then suffix_of exponent dec_suffixes
    else if (base =? 2) && (exponent =? 0) then Some ""%string else None
  else if String.eqb format BinarySI then
    if base =? 2 then suffix_of exponent bin_suffixes else None
  else if String.eqb format DecimalExponent then
    if negb (base =? 10) then None
    else if exponent =? 0 then Some ""%string
    else Some (String "e" (Itoa exponent))
  else None.

(** ** [CanonicalizeBytes] *)

(** The format in which a quantity is shown, and the rounded value that the
    binary format shows. *)
Definition shown_format (q : Quantity) : string * option CanonicalValue :=
  let format := q_Format q in
  if String.eqb format DecimalExponent || String.eqb format DecimalSI then (format, None)
  else if String.eqb format BinarySI then
    if (0 <? CmpInt64 q (-1024)) && (CmpInt64 q 1024 <? 0) then (DecimalSI, None)
    else
      let '(rounded, exact) := Quantity_AsScale q 0 in
      (if exact then BinarySI else DecimalSI, Some rounded)
  else (DecimalExponent, None).

Definition CanonicalizeBytes (q : Quantity) : string * string :=
  if IsZero q then ("0", "")%string
  else
    match shown_format q with
    | (format, rounded) =>
        if String.eqb format BinarySI then
          match rounded with
          | Some rounded =>
              let '(number, exponent) := AsCanonicalBase1024Bytes rounded in
              (number, default ""%string (constructBytes 2 (int32 (exponent * 10)) format))
          | None => ("", "")%string (* not reached *)
          end
        else
          let '(number, exponent) := AsCanonicalBytes q in
          (number, default ""%string (constructBytes 10 exponent format))
    end.

(** [String] keeps the text in the quantity. *)
Definition Quantity_String (q : Quantity) : Quantity * string :=
  if (String.length (q_s q) =? 0)%nat then
    let '(number, suffix) := CanonicalizeBytes q in
    let s := str_app number suffix in
    (mkQuantity (q_i q) (q_d q) s (q_Format q), s)
  else (q, q_s q).

Example String_1 : (Quantity_String (NewMilliQuantity 1500 DecimalSI)).2 = "1500m"%string.
Proof. reflexivity. Qed.
Example String_2 : (Quantity_String (NewQuantity 536870912 BinarySI)).2 = "512Mi"%string.
Proof. reflexivity. Qed.
Example String_3 : (Quantity_String (NewQuantity 12000 DecimalExponent)).2 = "12e3"%string.
Proof. reflexivity. Qed.

(** * Quantities are read back as they are printed

    The canonical forms are exact, and [ParseQuantity] reads the text of a
    quantity as the same amount. *)

(** ** Amounts as decimals [n * 10^e] *)

Definition same (x y : Z * Z) : Prop :=
  let m := Z.min x.2 y.2 in x.1 * 10 ^ (x.2 - m) = y.1 * 10 ^ (y.2 - m).

Lemma same_common x y m : m <= x.2 -> m <= y.2 -> same x y <-> x.1 * 10 ^ (x.2 - m) = y.1 * 10 ^ (y.2 - m).
Proof.
  intros Hx Hy. unfold same. cbv zeta. set (k := Z.min x.2 y.2).
  replace (x.2 - m) with ((x.2 - k) + (k - m)) by lia. replace (y.2 - m) with ((y.2 - k) + (k - m)) by lia.
  rewrite !Z.pow_add_r by lia. assert (0 < 10 ^ (k - m)) by (apply Z.pow_pos_nonneg; lia). rewrite !Z.mul_assoc. split; [by intros ->|].
  intros E. apply Z.mul_reg_r in E; [done|lia].
Qed.

Lemma same_refl x : same x x.
Proof. done. Qed.

Lemma same_sym x y : same x y -> same y x.
Proof. unfold same. rewrite Z.min_comm. by intros ->. Qed.

Lemma same_trans x y z : same x y -> same y z -> same x z.
Proof.
  set (m := Z.min x.2 (Z.min y.2 z.2)). rewrite (same_common x y m), (same_common y z m), (same_common x z m) by lia. by intros -> ->.
Qed.

(** A power of ten moves between the number and the exponent. *)
Lemma same_shift n e k : 0 <= k -> same (n * 10 ^ k, e) (n, e + k).
Proof.
  intros Hk. apply (same_common _ _ e); cbn [fst snd]; [lia|lia|]. rewrite Z.sub_diag, Z.pow_0_r, Z.mul_1_r. do 2 f_equal. lia.
Qed.

Lemma same_zero n e n' e' : same (n, e) (n', e') -> n = 0 <-> n' = 0.
Proof.
  unfold same. cbn [fst snd]. set (m := Z.min e e'). intros E.
  assert (0 < 10 ^ (e - m)) by (apply Z.pow_pos_nonneg; lia). assert (0 < 10 ^ (e' - m)) by (apply Z.pow_pos_nonneg; lia).
  split; intros ->; rewrite Z.mul_0_l in E; lia.
Qed.

(** ** Factors *)

Lemma remove_big_spec fuel d factor times :
  1 < factor -> d <> 0 -> Z.abs d < 2 ^ Z.of_nat fuel -> 0 <= times -> times + Z.of_nat fuel < 2 ^ 31 ->
  exists r t, remove_big_loop fuel d factor times = (r, times + t) /\ 0 <= t <= Z.of_nat fuel /\ d = r * factor ^ t /\ r <> 0.
Proof.
  intros Hf. revert d times. induction fuel as [|fuel IH]; intros d times Hd Hlog Ht Hmax; cbn [remove_big_loop].
  { exfalso. cbn in Hlog. lia. }
  destruct (Z.eqb_spec d 0) as [|_]; [done|]. destruct (Z.eqb_spec (d `mod` factor) 0) as [Hm|Hm]; cbn [negb].
  2: { exists d, 0. rewrite Z.pow_0_r, Z.mul_1_r, Z.add_0_r. split_and!; [done|lia|lia|done|done]. }
  assert (d = factor * (d / factor)) as E by (pose proof (Z.div_mod d factor); lia). set (d' := d / factor) in *.
  assert (d' <> 0) as Hd' by (intros H0; rewrite H0 in E; lia).
  rewrite int32_id by (int_unfold; lia). destruct (IH d' (times + 1)) as (r & t & -> & Htr & Er & Hr); [done| |lia|lia|].
  - rewrite Nat2Z.inj_succ, Z.pow_succ_r in Hlog by lia. rewrite E, Z.abs_mul in Hlog. nia.
  - exists r, (t + 1). split_and!; [f_equal; lia|lia|lia| |done]. rewrite Z.pow_add_r, Z.pow_1_r by lia. lia.
Qed.

Lemma removeBigIntFactors_spec d factor :
  1 < factor -> d <> 0 -> Z.log2 (Z.abs d) < 2 ^ 30 ->
  exists r t, removeBigIntFactors d factor = (r, t) /\ 0 <= t <= Z.log2 (Z.abs d) + 1 /\ d = r * factor ^ t /\ r <> 0.
Proof.
  intros Hf Hd Hl. unfold removeBigIntFactors. pose proof (Z.log2_nonneg (Z.abs d)).
  destruct (remove_big_spec (S (Z.to_nat (Z.log2 (Z.abs d)))) d factor 0) as (r & t & -> & Ht & E & Hr); [done|done| |lia|lia|].
  - rewrite Nat2Z.inj_succ, Z2Nat.id by done. apply Z.log2_spec. lia.
  - exists r, t. split_and!; [done|lia|lia|done|done].
Qed.

Lemma remove_factors_spec fuel r base times :
  1 < base -> 0 <= r <= MaxInt64 ->
  exists r' t, remove_factors_loop fuel r base times = (r', times + t) /\ 0 <= t <= Z.of_nat fuel /\ r = r' * base ^ t /\ 0 <= r' <= MaxInt64.
Proof.
  intros Hb. revert r times. induction fuel as [|fuel IH]; intros r times Hr; cbn [remove_factors_loop].
  { exists r, 0. rewrite Z.pow_0_r, Z.mul_1_r, Z.add_0_r. split_and!; [done|lia|lia|done|lia|lia]. }
  destruct (_ && _) eqn:Hc.
  2: { exists r, 0. rewrite Z.pow_0_r, Z.mul_1_r, Z.add_0_r. split_and!; [done|lia|lia|done|lia|lia]. }
  apply andb_true_iff in Hc as [Hle%Z.leb_le Hm%Z.eqb_eq]. unfold rem64 in Hm.
  assert (r = base * Z.quot r base) as E by (pose proof (Z.quot_rem' r base); lia).
  assert (0 <= Z.quot r base <= r) as Hq by (split; [apply Z.quot_pos; lia|nia]).
  assert (div64 r base = Z.quot r base) as -> by (unfold div64; apply int64_id; int_unfold; lia).
  destruct (IH (Z.quot r base) (times + 1)) as (r' & t & -> & Ht & Er & Hr'); [lia|].
  exists r', (t + 1). split_and!; [f_equal; lia|lia|lia| |lia|lia]. rewrite Z.pow_add_r, Z.pow_1_r by lia. lia.
Qed.

Lemma removeInt64Factors_spec v base :
  1 < base -> is_int64 v ->
  exists r t, removeInt64Factors v base = (r, t) /\ 0 <= t <= 64 /\ v = r * base ^ t /\ is_int64 r /\ (v = MinInt64 -> t = 0).
Proof.
  intros Hb Hv. unfold removeInt64Factors. destruct (Z.ltb_spec v 0) as [Hn|Hn].
  - destruct (Z.eq_dec v MinInt64) as [->|Hmin].
    + assert (neg64 MinInt64 = MinInt64) as E by reflexivity. rewrite E. exists MinInt64, 0. cbn [remove_factors_loop].
      assert (base <=? MinInt64 = false) as -> by (apply Z.leb_gt; int_unfold; lia). cbn [andb]. rewrite E, Z.pow_0_r, Z.mul_1_r.
      split_and!; [done|lia|lia|done|int_unfold; lia|done].
    + assert (neg64 v = - v) as -> by (unfold neg64; apply int64_id; int_unfold; lia).
      destruct (remove_factors_spec 64 (- v) base 0) as (r & t & -> & Ht & E & Hr); [done|int_unfold; lia|].
      exists (- r), t. unfold neg64. rewrite int64_id by (int_unfold; lia). split_and!; [done|lia|lia|lia|int_unfold; lia|int_unfold; lia].
  - destruct (remove_factors_spec 64 v base 0) as (r & t & -> & Ht & E & Hr); [done|int_unfold; lia|].
    exists r, t. split_and!; [done|lia|lia|lia|int_unfold; lia|int_unfold; lia].
Qed.

(** ** Canonical forms are exact *)

(** What a canonical form of the amount [v * 10^s] is: factors of ten removed,
    and up to two of them put back for an exponent that is a multiple of 3. *)
Definition canonical_of (v s : Z) (ne : Z * Z) : Prop :=
  exists r t j, v = r * 10 ^ t /\ 0 <= t /\ 0 <= j <= 2 /\ ne = (r * 10 ^ j, s + t - j) /\ Z.rem ne.2 3 = 0.

Lemma multiple_of_3_spec n e :
  - 2 ^ 30 < e < 2 ^ 30 -> exists j, 0 <= j <= 2 /\ multiple_of_3 2 n e = (n * 10 ^ j, e - j) /\ Z.rem (e - j) 3 = 0.
Proof.
  intros He. cbn [multiple_of_3]. destruct (Z.eqb_spec (Z.rem e 3) 0).
  { exists 0. rewrite Z.pow_0_r, Z.mul_1_r, Z.sub_0_r. split; [lia|done]. }
  rewrite int32_id by (int_unfold; lia). destruct (Z.eqb_spec (Z.rem (e - 1) 3) 0).
  { exists 1. rewrite Z.pow_1_r. split; [lia|done]. }
  rewrite int32_id by (int_unfold; lia). exists 2. split_and!; [lia|lia|f_equal; lia|]. Z.to_euclidean_division_equations. lia.
Qed.

Lemma canonical_same v s ne :
  canonical_of v s ne -> v <> 0 -> same (v, s) ne /\ ne.1 <> 0 /\ Z.abs ne.1 <= 100 * Z.abs v.
Proof.
  intros (r & t & j & -> & Ht & Hj & -> & _) Hv.
  assert (0 < 10 ^ t) by (apply Z.pow_pos_nonneg; lia). assert (r <> 0) by (intros ->; lia).
  assert (0 < 10 ^ j <= 10 ^ 2) as Hp by (split; [apply Z.pow_pos_nonneg; lia|apply Z.pow_le_mono_r; lia]). split_and!; cbn [fst].
  - eapply same_trans; [apply same_shift; lia|]. apply same_sym. pose proof (same_shift r (s + t - j) j ltac:(lia)) as Hsh. by replace (s + t - j + j) with (s + t) in Hsh by lia.
  - lia.
  - rewrite !Z.abs_mul, !(Z.abs_eq (10 ^ _)) by lia. change (10 ^ 2) with 100 in Hp. pose proof (Z.abs_nonneg r).
    generalize dependent (10 ^ j). generalize dependent (10 ^ t). generalize dependent (Z.abs r). intros a Ha q _ Hq p Hp. nia.
Qed.

Lemma Dec_canonical_spec d :
  unscaled d <> 0 -> Z.log2 (Z.abs (unscaled d)) < 2 ^ 29 -> - 2 ^ 28 < dscale d < 2 ^ 28 ->
  canonical_of (unscaled d) (- dscale d) (Dec_canonical d).
Proof.
  intros Hu Hl Hs. unfold Dec_canonical. destruct (removeBigIntFactors_spec (unscaled d) 10) as (r & t & -> & Ht & E & Hr); [lia|done|lia|].
  rewrite (int32_id (- dscale d)), int32_id by (int_unfold; lia). destruct (multiple_of_3_spec r (- dscale d + t)) as (j & Hj & -> & H3); [lia|].
  exists r, t, j. split_and!; [done|lia|lia|lia|done|done].
Qed.

Lemma log2_int64 v : is_int64 v -> Z.log2 (Z.abs v) < 2 ^ 29.
Proof.
  intros Hv. destruct (Z.eq_dec v 0) as [->|]; [done|]. apply Z.le_lt_trans with 63; [|lia].
  apply Z.log2_le_mono with (b := 2 ^ 63). int_unfold. lia.
Qed.

Lemma Amount_canonical_spec a :
  value a <> 0 -> is_int64 (value a) -> - 2 ^ 28 < scale a < 2 ^ 28 -> canonical_of (value a) (scale a) (Amount_canonical a).
Proof.
  intros Hv Hi Hs. unfold Amount_canonical. destruct (removeInt64Factors_spec (value a) 10) as (r & t & -> & Ht & E & Hr & _); [lia|done|].
  assert (canonical_of (value a) (scale a) (Dec_canonical (Amount_AsDec a))) as Hd.
  { pose proof (Dec_canonical_spec (Amount_AsDec a)) as H. unfold Amount_AsDec in *. cbn [unscaled dscale] in H.
    rewrite int32_id in * by (int_unfold; lia). rewrite Z.opp_involutive in H. apply H; [done|by apply log2_int64|lia]. }
  rewrite (int32_id (scale a + t)) by (int_unfold; lia). destruct (int64MultiplyScale_fixed r) as (-> & -> & _).
  destruct ((Z.rem (scale a + t) 3 =? 1) || (Z.rem (scale a + t) 3 =? -2)) eqn:H1;
    [|destruct ((Z.rem (scale a + t) 3 =? 2) || (Z.rem (scale a + t) 3 =? -1)) eqn:H2].
  - destruct (int64MultiplyScale_spec r 10) as [[_ ->]|[_ E2]]; [done|int_unfold; lia|lia| |].
    + cbn [negb]. rewrite int32_id by (int_unfold; lia). exists r, t, 1. split_and!; [done|lia|lia|lia|done|]. cbn [snd].
      apply orb_true_iff in H1. rewrite !Z.eqb_eq in H1. Z.to_euclidean_division_equations. lia.
    + destruct (int64MultiplyScale r 10) as [x ok]. cbn in E2. by rewrite E2.
  - destruct (int64MultiplyScale_spec r 100) as [[_ ->]|[_ E2]]; [done|int_unfold; lia|lia| |].
    + cbn [negb]. rewrite int32_id by (int_unfold; lia). exists r, t, 2. split_and!; [done|lia|lia|lia|done|]. cbn [snd].
      apply orb_true_iff in H2. rewrite !Z.eqb_eq in H2. Z.to_euclidean_division_equations. lia.
    + destruct (int64MultiplyScale r 100) as [x ok]. cbn in E2. by rewrite E2.
  - exists r, t, 0. split_and!; [done|lia|lia|lia|rewrite Z.pow_0_r; f_equal; lia|]. cbn [snd]. apply orb_false_iff in H1, H2.
    rewrite !Z.eqb_neq in H1, H2. Z.to_euclidean_division_equations. lia.
Qed.

(** ** Reading *)

(** The amount of a quantity. *)
Definition amount_of (q : Quantity) : Z * Z :=
  match q_d q with Some d => (unscaled d, - dscale d) | None => (value (q_i q), scale (q_i q)) end.

(** A suffix that the parser reads as a base and an exponent. *)
Record reads (sfx : string) (base e : Z) (format : string) : Prop := {
  rd_interpret : interpret sfx = Some (base, e, format);
  rd_digits : span_digits sfx = (""%string, sfx);
  rd_point : forall s, sfx <> String "." s;
  rd_suffix : sfx <> ""%string -> forall mk, parse_suffix mk sfx = inl (mk sfx)
}.

(** The text of a number, without its sign. *)
Definition number_text (n : Z) : string := digits_of (Z.abs n).

Lemma Itoa_text n : n <> 0 -> Itoa n = str_app (if n <? 0 then "-" else "") (number_text n).
Proof.
  intros Hn. unfold Itoa, number_text. destruct (Z.ltb_spec n 0); cbn [str_app].
  - by rewrite Z.abs_neq by lia.
  - by rewrite Z.abs_eq by lia.
Qed.

Lemma scan_number p sfx base e format :
  0 < p -> reads sfx base e format ->
  exists c s, str_app (digits_of p) sfx = String c s
    /\ Ascii.eqb c "-" = false /\ Ascii.eqb c "+" = false /\ Ascii.eqb c "0" = false
    /\ span_zeros (String c s) = (EmptyString, String c s)
    /\ span_digits (String c s) = (digits_of p, sfx)
    /\ (String.length (digits_of p) =? 0)%nat = false.
Proof.
  intros Hp [_ Hd _ _]. destruct (digits_of_head p Hp) as (d & s & Hd' & E).
  destruct (digit_char_cases d Hd') as (H1 & H2 & H3 & H4).
  exists (digit_char d), (str_app s sfx). split_and!; auto.
  - by rewrite E.
  - cbn [span_zeros]. by rewrite H3.
  - replace (String (digit_char d) (str_app s sfx)) with (str_app (digits_of p) sfx) by (by rewrite E).
    rewrite span_digits_of by lia. rewrite Hd. cbn [fst snd]. by rewrite str_app_nil_r.
  - by rewrite E.
Qed.

Lemma parse_number n sfx base e format :
  n <> 0 -> reads sfx base e format ->
  parseQuantityString (str_app (Itoa n) sfx) = inl (mkParsed (negb (n <? 0)) (Itoa n) (number_text n) "" sfx).
Proof.
  intros Hn Hr. destruct (scan_number (Z.abs n) sfx base e format) as (c & s & E & H1 & H2 & H3 & Hz & Hd & Hl); [lia|done|].
  pose proof (Itoa_text n Hn) as Ei. rewrite Ei, str_app_assoc. unfold number_text in *. rewrite E. destruct Hr as [_ _ Hpt Hs].
  assert (forall c' s', sfx = String c' s' -> Ascii.eqb c' "." = false) as Hdot.
  { intros c' s' ->. apply Ascii.eqb_neq. intros ->. by apply (Hpt s'). }
  unfold parseQuantityString. destruct (n <? 0) eqn:En; cbn [str_app negb] in *;
    [cbn [Ascii.eqb Bool.eqb]; rewrite Hz|rewrite H1, H2, Hz]; cbn [String.eqb]; rewrite Hd;
    destruct sfx as [|c' s']; cbn [String.eqb]; cbv zeta; rewrite ?str_app_nil_r in E; rewrite ?E, ?Hl; try done;
    rewrite (Hdot c' s' eq_refl); cbn [str_app]; by apply Hs.
Qed.

Lemma text_not_zero n sfx base e format :
  n <> 0 -> reads sfx base e format ->
  (String.length (str_app (Itoa n) sfx) =? 0)%nat = false /\ String.eqb (str_app (Itoa n) sfx) "0" = false.
Proof.
  intros Hn Hr. destruct (scan_number (Z.abs n) sfx base e format) as (c & s & E & _ & _ & H3 & _); [lia|done|].
  rewrite Itoa_text, str_app_assoc by done. unfold number_text. rewrite E. destruct (n <? 0); cbn [str_app String.length Nat.eqb]; [done|].
  split; [done|]. cbn [String.eqb]. by rewrite H3.
Qed.

Lemma digits_num_lt s acc : all_digits s = true -> digits_num acc s < (acc + 1) * 10 ^ Z.of_nat (String.length s).
Proof.
  revert acc. induction s as [|c s IH]; intros acc Hs; cbn [digits_num String.length]; [lia|].
  unfold all_digits in *. cbn [span_digits] in Hs. destruct (is_digit c) eqn:Hc; [|done].
  assert (0 <= digit_val c <= 9) as Hv.
  { unfold is_digit in Hc. apply andb_true_iff in Hc as [H1%Nat.leb_le H2%Nat.leb_le]. unfold digit_val. lia. }
  specialize (IH (acc * 10 + digit_val c)). rewrite Nat2Z.inj_succ, Z.pow_succ_r by lia.
  assert (0 < 10 ^ Z.of_nat (String.length s)) by (apply Z.pow_pos_nonneg; lia).
  assert (digits_num (acc * 10 + digit_val c) s < (acc * 10 + digit_val c + 1) * 10 ^ Z.of_nat (String.length s)) as H'.
  { apply IH. by destruct (span_digits s). }
  nia.
Qed.

Lemma digits_of_lt p : 0 <= p -> p < 10 ^ Z.of_nat (String.length (digits_of p)).
Proof.
  intros Hp. rewrite <- (digits_num_digits_of p Hp) at 1. pose proof (digits_num_lt (digits_of p) 0 (all_digits_digits_of p Hp)). lia.
Qed.

Lemma Dec_SetString_Itoa n : n <> 0 -> Dec_SetString (Itoa n) = Some (mkDec n 0).
Proof.
  intros Hn. unfold Itoa. destruct (Z.ltb_spec n 0); [|apply Dec_SetString_digits_of; lia].
  unfold Dec_SetString. cbn [Dec_scan Ascii.eqb Bool.eqb orb String.length Nat.ltb Nat.leb str_app].
  rewrite Dec_scan_digits by (apply all_digits_digits_of; lia).
  assert ((String.length (digits_of (- n)) =? 0)%nat = false) as Hl.
  { destruct (digits_of_head (- n)) as (d & s & Hd & E); [lia|]. by rewrite E. }
  rewrite Hl. cbn [negb orb str_app]. unfold big_SetString, strip_sign. cbn [Ascii.eqb Bool.eqb]. rewrite Hl.
  rewrite all_digits_digits_of by lia. cbn [orb negb String.eqb]. rewrite digits_num_digits_of by lia. by rewrite Z.opp_involutive.
Qed.

(** Rounding up to nanos is exact for a number of nanos. *)
Lemma Dec_RoundUp_nano n e : - 9 <= e < 2 ^ 29 -> Dec_RoundUp (mkDec n (- e)) 9 = mkDec (n * 10 ^ (9 + e)) 9.
Proof.
  intros He. unfold Dec_RoundUp. cbn [dscale unscaled]. replace (9 - - e) with (9 + e) by lia. rewrite int32_id by (int_unfold; lia).
  destruct (Z.ltb_spec 0 (9 + e)).
  - by rewrite Z.rem_1_r, Z.quot_1_r.
  - destruct (Z.ltb_spec (9 + e) 0); [lia|]. assert (9 + e = 0) as -> by lia. rewrite Z.rem_1_r, Z.quot_1_r, Z.pow_0_r, !Z.mul_1_r.
    done.
Qed.

Lemma parse_slow_decimal n e format :
  n <> 0 -> - 9 <= e < 2 ^ 29 -> String.eqb format BinarySI = false ->
  parse_slow (Itoa n) 10 e format = inl (mkQuantity zeroAmount (Some (mkDec (n * 10 ^ (9 + e)) 9)) "" format).
Proof.
  intros Hn He Hf. unfold parse_slow. rewrite Dec_SetString_Itoa by done. cbn [unscaled dscale]. change (10 =? 10) with true. cbn iota.
  cbn [unscaled dscale]. change (infScale Nano) with 9. unfold infScale. rewrite Z.add_0_l. rewrite !(int32_id (- e)) by (int_unfold; lia).
  rewrite Hf. cbn [andb]. destruct (Z.ltb_spec n 0) as [Hneg|Hpos].
  - rewrite Z.sgn_neg by lia. change (-1 =? -1) with true. cbn iota. change (Dec_Neg (mkDec n (- e))) with (mkDec (- n) (- e)). cbn [unscaled].
    destruct (Z.eqb_spec (- n) 0); [lia|]. rewrite Dec_RoundUp_nano by done. unfold Dec_Neg. cbn [unscaled dscale].
    do 4 f_equal. lia.
  - rewrite Z.sgn_pos by lia. change (1 =? -1) with false. cbn iota. cbn [unscaled]. destruct (Z.eqb_spec n 0); [done|].
    by rewrite Dec_RoundUp_nano.
Qed.

Lemma ParseInt_text n :
  n <> 0 -> Z.of_nat (String.length (number_text n)) <= 18 -> ParseInt (number_text n) = (Z.abs n, None) /\ Z.abs n < 10 ^ 18.
Proof.
  intros Hn Hl. assert (Z.abs n < 10 ^ 18) as H.
  { eapply Z.lt_le_trans; [apply digits_of_lt; lia|]. apply Z.pow_le_mono_r; [lia|exact Hl]. }
  split; [|done]. apply ParseInt_digits_of. int_unfold. lia.
Qed.

Lemma signed_text n : Z.abs n < 2 ^ 63 -> (if negb (n <? 0) then Z.abs n else neg64 (Z.abs n)) = n.
Proof. intros H. destruct (Z.ltb_spec n 0); cbn [negb]; [|lia]. unfold neg64. rewrite int64_id by (int_unfold; lia). lia. Qed.

(** A decimal number with a suffix is read exactly. *)
Lemma parse_decimal n sfx e format :
  n <> 0 -> reads sfx 10 e format -> String.eqb format BinarySI = false -> - 9 <= e < 2 ^ 29 ->
  Z.of_nat (String.length (number_text n)) < 2 ^ 29 ->
  exists q', ParseQuantity (str_app (Itoa n) sfx) = inl q' /\ same (amount_of q') (n, e) /\ q_Format q' = format.
Proof.
  intros Hn Hr Hf He Hl. unfold ParseQuantity. destruct (text_not_zero n sfx 10 e format Hn Hr) as [-> ->].
  rewrite (parse_number n sfx 10 e format Hn Hr). cbn [p_num p_denom p_suffix p_value p_positive].
  rewrite (rd_interpret _ _ _ _ Hr), Hf. cbn [andb String.length]. rewrite Z.add_0_r, Z.sub_0_r.
  rewrite !int32_id by (unfold maxInt64Factors; int_unfold; lia). rewrite str_app_nil_r, parse_slow_decimal by done.
  destruct (Z.leb_spec 0 (maxInt64Factors - Z.of_nat (String.length (number_text n)))) as [Hs|Hs]; cbn [andb].
  - unfold Nano. destruct (Z.leb_spec (-9) e); [|lia]. unfold maxInt64Factors in Hs.
    destruct (ParseInt_text n Hn) as [-> Hp]; [lia|].
    assert (int64Multiply (Z.abs n) 1 = (Z.abs n, true)) as ->.
    { unfold int64Multiply. rewrite Z.eqb_refl, !orb_true_r, mul64_exact by (int_unfold; lia). f_equal. lia. }
    rewrite signed_text by lia. eexists. split; [done|]. split; [|done]. unfold amount_of. cbn. apply same_refl.
  - eexists. split; [done|]. split; [|done]. unfold amount_of. cbn [q_d unscaled dscale].
    pose proof (same_shift n (-9) (9 + e) ltac:(lia)) as Hsh. by replace (-9 + (9 + e)) with e in Hsh by lia.
Qed.

(** *** Suffixes *)

Lemma reads_table exponent sfx :
  suffix_of exponent dec_suffixes = Some sfx -> reads sfx 10 exponent DecimalSI.
Proof.
  unfold suffix_of, dec_suffixes. cbn [first_some fst snd].
  repeat match goal with |- context [?k =? exponent] =>
    destruct (Z.eqb_spec k exponent) as [<-|_];
      [intros [= <-]; split; [done|done|by intros ? ?|intros Hne mk; first [reflexivity|by destruct Hne]]|] end.
  done.
Qed.

Lemma reads_binary exponent sfx :
  suffix_of exponent bin_suffixes = Some sfx -> reads sfx 2 exponent BinarySI.
Proof.
  unfold suffix_of, bin_suffixes. cbn [first_some fst snd].
  repeat match goal with |- context [?k =? exponent] =>
    destruct (Z.eqb_spec k exponent) as [<-|_];
      [intros [= <-]; split; [done|done|by intros ? ?|intros Hne mk; first [reflexivity|by destruct Hne]]|] end.
  done.
Qed.

Lemma ParseInt_Itoa e : is_int64 e -> ParseInt (Itoa e) = (e, None).
Proof.
  intros He. destruct (Z.eq_dec e 0) as [->|H0]; [reflexivity|]. unfold Itoa. destruct (Z.ltb_spec e 0) as [Hneg|Hpos].
  - unfold ParseInt. cbn [Ascii.eqb Bool.eqb]. destruct (digits_of_head (- e)) as (d & s & Hd & E); [lia|].
    assert ((String.length (digits_of (- e)) =? 0)%nat = false) as -> by (by rewrite E).
    rewrite all_digits_digits_of by lia. cbn [orb negb]. rewrite digits_num_digits_of by lia.
    destruct (Z.leb_spec (- e) (2 ^ 63)); [|int_unfold; lia]. f_equal. lia.
  - apply ParseInt_digits_of. int_unfold. lia.
Qed.

Lemma suffix_chars_stop c s : is_digit c = true \/ c = "-"%char -> span_suffix_chars (String c s) = (""%string, String c s).
Proof. intros [Hc| ->]; [|done]. destruct c as [[] [] [] [] [] [] [] []]; vm_compute in Hc; try done; reflexivity. Qed.

Lemma reads_exponent e : is_int32 e -> e <> 0 -> reads (String "e" (Itoa e)) 10 e DecimalExponent.
Proof.
  intros He H0. destruct (digits_of_head (Z.abs e)) as (d & s & Hd & E); [lia|].
  destruct (digit_char_cases d Hd) as (H1 & H2 & H3 & H4). split.
  - unfold interpret, suffix_lookup, dec_suffixes, bin_suffixes. cbn [first_some fst snd String.eqb Ascii.eqb Bool.eqb].
    assert (exists c r, Itoa e = String c r) as (c & r & Er).
    { rewrite Itoa_text by done. unfold number_text. rewrite E. destruct (e <? 0); cbn [str_app]; eauto. }
    rewrite Er at 1. rewrite Er at 1. rewrite <- Er. cbn [orb]. rewrite ParseInt_Itoa by (int_unfold; lia). by rewrite int32_id.
  - done.
  - by intros ? ?.
  - intros _ mk. unfold parse_suffix.
    assert (span_suffix_chars (String "e" (Itoa e)) = ("e"%string, Itoa e)) as ->.
    { cbn [span_suffix_chars]. change (str_mem "e" "eEinumkKMGTP") with true. cbn iota. rewrite Itoa_text by done. unfold number_text. rewrite E.
      destruct (e <? 0); cbn [str_app]; rewrite suffix_chars_stop; try done; [by right|by left]. }
    rewrite Itoa_text by done. assert (span_digits (number_text e) = (number_text e, ""%string)) as Hsd.
    { unfold number_text. pose proof (span_digits_of (Z.abs e) "" ltac:(lia)) as Hs. by rewrite !str_app_nil_r in Hs. }
    destruct (e <? 0); cbn [str_app].
    + cbn [Ascii.eqb Bool.eqb orb]. by rewrite Hsd.
    + unfold number_text in *. rewrite E in *. rewrite H1, H2. cbn [orb]. by rewrite Hsd.
Qed.

(** ** Reading binary suffixes *)

Lemma not_capped m : 0 <= m <= MaxInt64 -> (0 <? Dec_Cmp (mkDec (m * 10 ^ 9) 9) maxAllowed) = false.
Proof.
  intros Hm. unfold Dec_Cmp, maxAllowed.
  change (Dec_upscale (mkDec (m * 10 ^ 9) 9) (mkDec MaxInt64 0)) with (mkDec (m * 10 ^ 9) 9, mkDec (MaxInt64 * 10 ^ 9) 9).
  cbn iota. cbn [unscaled]. rewrite cmpZ_mul by lia. unfold cmpZ. destruct (Z.compare_spec m MaxInt64); [done|done|lia].
Qed.

Lemma parse_slow_binary n e :
  n <> 0 -> 0 <= e <= 60 -> Z.abs (n * 2 ^ e) <= MaxInt64 ->
  exists format, parse_slow (Itoa n) 2 e BinarySI = inl (mkQuantity zeroAmount (Some (mkDec (n * 2 ^ e * 10 ^ 9) 9)) "" format).
Proof.
  intros Hn He Hmax. assert (0 < 2 ^ e) by (apply Z.pow_pos_nonneg; lia). set (m := n * 2 ^ e) in *.
  assert (m <> 0) as Hm by (unfold m; nia). unfold parse_slow. rewrite Dec_SetString_Itoa by done. cbn [unscaled dscale].
  change (2 =? 10) with false. change (2 =? 2) with true. cbn iota. cbn [unscaled dscale]. change (infScale Nano) with 9. fold m.
  change (String.eqb BinarySI BinarySI) with true. cbn [andb]. pose proof (Dec_RoundUp_nano (Z.abs m) 0 ltac:(lia)) as Hr.
  change (- 0) with 0 in Hr. change (9 + 0) with 9 in Hr.
  destruct (Z.ltb_spec m 0) as [Hneg|Hpos].
  - rewrite (Z.sgn_neg m) by lia. change (-1 =? -1) with true. cbn iota. change (Dec_Neg (mkDec m 0)) with (mkDec (- m) 0). cbn [unscaled].
    destruct (Z.eqb_spec (- m) 0); [lia|]. rewrite Z.abs_neq in * by lia. rewrite Hr, not_capped by lia. unfold Dec_Neg. cbn [unscaled dscale].
    eexists. do 4 f_equal. lia.
  - rewrite (Z.sgn_pos m) by lia. change (1 =? -1) with false. cbn iota. cbn [unscaled]. destruct (Z.eqb_spec m 0); [done|].
    rewrite Z.abs_eq in * by lia. rewrite Hr, not_capped by lia. by eexists.
Qed.

Lemma parse_binary n sfx e :
  n <> 0 -> suffix_of e bin_suffixes = Some sfx -> 0 <= e <= 60 -> Z.abs (n * 2 ^ e) <= MaxInt64 ->
  exists q', ParseQuantity (str_app (Itoa n) sfx) = inl q' /\ same (amount_of q') (n * 2 ^ e, 0).
Proof.
  intros Hn Hs He Hmax. pose proof (reads_binary e sfx Hs) as Hr. unfold ParseQuantity.
  destruct (text_not_zero n sfx 2 e BinarySI Hn Hr) as [-> ->].
  rewrite (parse_number n sfx 2 e BinarySI Hn Hr). cbn [p_num p_denom p_suffix p_value p_positive].
  rewrite (rd_interpret _ _ _ _ Hr). change (String.eqb BinarySI BinarySI) with true. cbn [andb String.length]. rewrite str_app_nil_r.
  assert (1 <= 2 ^ e <= 2 ^ 60) as Hp by (split; [pose proof (Z.pow_pos_nonneg 2 e); lia|apply Z.pow_le_mono_r; lia]).
  destruct (Z.leb_spec 0 e); [|lia]. change (Z.of_nat 0 =? 0) with true. cbn [andb]. rewrite (int64_id (2 ^ e)) by (int_unfold; lia).
  change (int32 (0 - Z.of_nat 0)) with 0. change (Nano <=? 0) with true. rewrite andb_true_r.
  destruct (parse_slow_binary n e Hn He Hmax) as [format Hslow]. rewrite Hslow.
  assert (exists q', (inl (mkQuantity zeroAmount (Some (mkDec (n * 2 ^ e * 10 ^ 9) 9)) "" format) : Quantity + string) = inl q' /\
    same (amount_of q') (n * 2 ^ e, 0)) as Hdone.
  { eexists. split; [done|]. exact (same_shift (n * 2 ^ e) (-9) 9 ltac:(lia)). }
  destruct (Z.leb_spec 0 (int32 (15 - Z.of_nat (String.length (number_text n)) - Z.quot (e * 3) 10 - 1))) as [Hfast|]; [|exact Hdone].
  assert (Z.abs n < 2 ^ 63) as Hn63 by (rewrite Z.abs_mul, (Z.abs_eq (2 ^ e)) in Hmax by lia; int_unfold; nia).
  assert (Z.of_nat (String.length (number_text n)) <= 18) as Hl.
  { pose proof (length_digits_of (Z.abs n) 19 ltac:(lia) ltac:(lia)) as H19. fold (number_text n) in H19.
    pose proof (Z.quot_pos (e * 3) 10 ltac:(lia) ltac:(lia)). pose proof (Z.quot_le_upper_bound (e * 3) 10 18 ltac:(lia) ltac:(lia)).
    rewrite int32_id in Hfast by (int_unfold; lia). lia. }
  destruct (ParseInt_text n Hn Hl) as [-> Habs]. destruct (int64Multiply (Z.abs n) (2 ^ e)) as [c ok] eqn:Hmul. destruct ok; [|exact Hdone].
  apply int64Multiply_val in Hmul as ->; [|int_unfold; lia|int_unfold; lia].
  eexists. split; [done|]. unfold amount_of. cbn [q_d q_i value scale].
  assert ((if negb (n <? 0) then Z.abs n * 2 ^ e else neg64 (Z.abs n * 2 ^ e)) = n * 2 ^ e) as ->; [|apply same_refl].
  assert (Z.abs n * 2 ^ e = Z.abs (n * 2 ^ e)) as -> by (rewrite Z.abs_mul; lia).
  rewrite <- (signed_text (n * 2 ^ e)) at 3 by (int_unfold; lia). assert ((n * 2 ^ e <? 0) = (n <? 0)) as ->; [|done].
  destruct (Z.ltb_spec n 0), (Z.ltb_spec (n * 2 ^ e) 0); try done; nia.
Qed.

(** ** Printing in binary is exact *)

Lemma Dec_Cmp_same x y :
  - 2 ^ 29 < dscale x < 2 ^ 29 -> - 2 ^ 29 < dscale y < 2 ^ 29 -> Dec_Cmp x y = 0 ->
  same (unscaled x, - dscale x) (unscaled y, - dscale y).
Proof.
  intros Hx Hy. unfold Dec_Cmp, Dec_upscale.
  assert (forall a b, cmpZ a b = 0 -> a = b) as Hc by (intros a b; unfold cmpZ; by destruct (Z.compare_spec a b)).
  destruct (Z.eqb_spec (dscale x) (dscale y)) as [E|Hne].
  { intros ->%Hc. rewrite E. apply same_refl. }
  destruct (Z.ltb_spec (dscale y) (dscale x)) as [Hlt|Hge]; unfold Dec_rescale.
  - rewrite int32_id by (int_unfold; lia). destruct (Z.ltb_spec (dscale x - dscale y) 0); [lia|].
    destruct (Z.ltb_spec 0 (dscale x - dscale y)); [|lia]. cbn [unscaled]. intros ->%Hc.
    pose proof (same_shift (unscaled y) (- dscale x) (dscale x - dscale y) ltac:(lia)) as Hs. by replace (- dscale x + (dscale x - dscale y)) with (- dscale y) in Hs by lia.
  - rewrite int32_id by (int_unfold; lia). destruct (Z.ltb_spec (dscale y - dscale x) 0); [lia|].
    destruct (Z.ltb_spec 0 (dscale y - dscale x)); [|lia]. cbn [unscaled]. intros <-%Hc. apply same_sym.
    pose proof (same_shift (unscaled x) (- dscale y) (dscale y - dscale x) ltac:(lia)) as Hs. by replace (- dscale y + (dscale y - dscale x)) with (- dscale x) in Hs by lia.
Qed.

Lemma log2_scaled v k : 0 <= k -> Z.log2 (Z.abs (v * 10 ^ k)) <= Z.log2 (Z.abs v) + 4 * k + 1.
Proof.
  intros Hk. rewrite Z.abs_mul. assert (0 < 10 ^ k) by (apply Z.pow_pos_nonneg; lia). rewrite (Z.abs_eq (10 ^ k)) by lia.
  etransitivity; [apply Z.log2_mul_above; lia|]. assert (Z.log2 (10 ^ k) <= 4 * k); [|lia].
  rewrite <- (Z.log2_pow2 (4 * k)) by lia. apply Z.log2_le_mono. rewrite Z.pow_mul_r by lia. apply Z.pow_le_mono_l. lia.
Qed.

(** What the binary form of the amount [v * 10^s] gives. *)
Definition binary_of (v s : Z) (nt : Z * Z) : Prop :=
  same (v, s) (nt.1 * 1024 ^ nt.2, 0) /\ nt.1 <> 0 /\ 0 <= nt.2.

Lemma Dec_canonical1024_spec d :
  dscale d = 0 -> unscaled d <> 0 -> Z.log2 (Z.abs (unscaled d)) < 2 ^ 30 -> binary_of (unscaled d) 0 (Dec_canonical1024 d).
Proof.
  intros Hs Hu Hl. unfold Dec_canonical1024. assert (unscaled (Dec_RoundUp d 0) = unscaled d) as ->.
  { unfold Dec_RoundUp. rewrite Hs. change (int32 (0 - 0)) with 0. cbn [Z.ltb Z.compare unscaled]. by rewrite Z.rem_1_r, Z.quot_1_r. }
  destruct (removeBigIntFactors_spec (unscaled d) 1024) as (r & t & -> & Ht & E & Hr); [lia|done|done|].
  split_and!; cbn [fst snd]; [rewrite <- E; apply same_refl|done|lia].
Qed.

Lemma Amount_canonical1024_spec a :
  value a <> 0 -> is_int64 (value a) -> 0 <= scale a < 2 ^ 26 -> binary_of (value a) (scale a) (Amount_canonical1024 a).
Proof.
  intros Hv Hi Hs. unfold Amount_canonical1024, Amount_AsScaledInt64. destruct (Z.ltb_spec (scale a) 0); [lia|].
  rewrite Z.sub_0_r, int32_id by (int_unfold; lia). assert (0 < 10 ^ scale a) by (apply Z.pow_pos_nonneg; lia).
  assert (same (value a, scale a) (value a * 10 ^ scale a, 0)) as Hsame by (apply same_sym; exact (same_shift (value a) 0 (scale a) ltac:(lia))).
  destruct (positiveScaleInt64_spec (value a) (scale a) Hi ltac:(lia)) as [[Hin ->]|[_ E]].
  - cbn [negb]. destruct (removeInt64Factors_spec (value a * 10 ^ scale a) 1024) as (r & t & -> & Ht & E & Hr & _); [lia|done|].
    split_and!; cbn [fst snd]; [by rewrite <- E|intros ->; nia|lia].
  - destruct (positiveScaleInt64 (value a) (scale a)) as [x ok]. cbn in E. rewrite E. cbn [negb].
    pose proof (Dec_canonical1024_spec (mkDec (value a * 10 ^ scale a) 0)) as Hd. cbn [unscaled dscale] in Hd.
    assert (Dec_canonical1024 (Amount_AsDec a) = Dec_canonical1024 (mkDec (value a * 10 ^ scale a) 0)) as ->.
    { unfold Dec_canonical1024, Amount_AsDec, Dec_RoundUp. cbn [dscale unscaled]. rewrite (int32_id (- scale a)) by (int_unfold; lia).
      replace (0 - - scale a) with (scale a) by lia. rewrite int32_id by (int_unfold; lia). change (int32 (0 - 0)) with 0.
      cbn [Z.ltb Z.compare]. destruct (Z.ltb_spec 0 (scale a)); [by rewrite !Z.rem_1_r, !Z.quot_1_r|].
      assert (scale a = 0) as -> by lia. by rewrite Z.pow_0_r, Z.mul_1_r. }
    destruct Hd as (Hsd & Hn & Ht); [done|nia| |].
    + pose proof (log2_scaled (value a) (scale a) ltac:(lia)). pose proof (log2_int64 (value a) Hi). lia.
    + split_and!; [|done|done]. by eapply same_trans.
Qed.

Lemma Amount_AsScale_exact a r :
  value a <> 0 -> is_int64 (value a) -> - 2 ^ 26 < scale a < 2 ^ 26 -> Amount_AsScale a 0 = (r, true) ->
  same (value a, scale a) (value r, scale r) /\ value r <> 0 /\ is_int64 (value r) /\ 0 <= scale r < 2 ^ 26.
Proof.
  intros Hv Hi Hs. unfold Amount_AsScale. destruct (Z.leb_spec 0 (scale a)).
  { intros [= <-]. split_and!; [apply same_refl|done|done|lia|lia]. }
  rewrite int32_id by (int_unfold; lia). rewrite negativeScaleInt64_spec by (done || lia). intros [= <- Hrem%Z.eqb_eq].
  cbn [value scale]. set (k := 0 - scale a) in *. assert (0 < 10 ^ k) as Hp by (apply Z.pow_pos_nonneg; lia).
  rewrite round_away_quot by done. rewrite Hrem, Z.eqb_refl, Z.add_0_r.
  assert (value a = Z.quot (value a) (10 ^ k) * 10 ^ k) as E by (pose proof (Z.quot_rem' (value a) (10 ^ k)); lia).
  set (u := Z.quot (value a) (10 ^ k)) in *. split_and!; [|intros H0; rewrite H0 in E; lia| |lia|lia].
  - rewrite E. pose proof (same_shift u (scale a) k ltac:(lia)) as Hsh. by replace (scale a + k) with 0 in Hsh by lia.
  - int_unfold. nia.
Qed.

(** ** Round trip *)

Definition canonical (q : Quantity) : Z * Z :=
  match q_d q with Some d => Dec_canonical d | None => Amount_canonical (q_i q) end.

Definition canonical1024 (v : CanonicalValue) : Z * Z :=
  match v with inl a => Amount_canonical1024 a | inr d => Dec_canonical1024 d end.

Definition value_of (v : CanonicalValue) : Z * Z :=
  match v with inl a => (value a, scale a) | inr d => (unscaled d, - dscale d) end.

(** The amount has a number of digits and a scale of which exponents fit
    their 32 bits, and an amount that is not a big decimal has 64 bits. *)
Definition sized (q : Quantity) : Prop :=
  - 2 ^ 26 < (amount_of q).2 < 2 ^ 26 /\ Z.log2 (Z.abs (amount_of q).1) < 2 ^ 26 /\ (q_d q = None -> is_int64 (amount_of q).1).

Lemma canonical_sized q : sized q -> (amount_of q).1 <> 0 -> canonical_of (amount_of q).1 (amount_of q).2 (canonical q).
Proof.
  unfold sized, amount_of, canonical. destruct (q_d q) as [d|]; cbn [fst snd]; intros (Hs & Hl & Hi) Hv.
  - apply Dec_canonical_spec; [done|lia|lia].
  - apply Amount_canonical_spec; [done|by apply Hi|lia].
Qed.

Lemma number_length n v : Z.abs n <= 100 * Z.abs v -> Z.log2 (Z.abs v) < 2 ^ 29 - 3 -> Z.of_nat (String.length (number_text n)) < 2 ^ 29.
Proof.
  intros Hn Hl. set (L := Z.log2 (Z.abs v) + 1). pose proof (Z.log2_nonneg (Z.abs v)) as H0.
  assert (Z.abs v < 10 ^ L) as Hv.
  { destruct (Z.eq_dec v 0) as [->|Hv]; [apply Z.pow_pos_nonneg; lia|].
    apply Z.lt_le_trans with (2 ^ L); [apply Z.log2_spec; lia|apply Z.pow_le_mono_l; lia]. }
  assert (Z.abs n < 10 ^ (L + 2)) as Hb by (rewrite Z.pow_add_r by lia; change (10 ^ 2) with 100; lia).
  pose proof (length_digits_of (Z.abs n) (L + 2) ltac:(lia) ltac:(lia)) as Hd. unfold number_text. lia.
Qed.

(** A quantity that is shown in a decimal format. *)
Lemma decimal_read q format sfx :
  sized q -> (amount_of q).1 <> 0 -> String.eqb format BinarySI = false -> reads sfx 10 (canonical q).2 format -> - 9 <= (canonical q).2 < 2 ^ 29 ->
  exists q', ParseQuantity (str_app (Itoa (canonical q).1) sfx) = inl q' /\ same (amount_of q') (amount_of q).
Proof.
  intros Hz Hv Hf Hr He. destruct (canonical_same _ _ _ (canonical_sized q Hz Hv) Hv) as (Hs & Hn & Hb).
  destruct (parse_decimal (canonical q).1 sfx (canonical q).2 format) as (q' & HP & Hq & _); [done|done|done|done| |].
  { eapply number_length; [exact Hb|]. destruct Hz as (_ & Hl & _). lia. }
  exists q'. split; [done|]. eapply same_trans; [exact Hq|]. apply same_sym. destruct (amount_of q), (canonical q). exact Hs.
Qed.

Lemma integer_size v s n : same (v, s) (n, 0) -> - 2 ^ 26 < s < 2 ^ 26 -> Z.log2 (Z.abs v) < 2 ^ 26 -> Z.log2 (Z.abs n) < 2 ^ 29 - 3.
Proof.
  unfold same. cbn [fst snd]. intros E Hs Hl. destruct (Z.le_gt_cases 0 s) as [Hle|Hgt].
  - rewrite Z.min_r, Z.sub_diag, Z.pow_0_r, Z.mul_1_r, Z.sub_0_r in E by lia. rewrite <- E. pose proof (log2_scaled v s Hle). lia.
  - rewrite Z.min_l, Z.sub_diag, Z.pow_0_r, Z.mul_1_r in E by lia. assert (0 < 10 ^ (0 - s)) by (apply Z.pow_pos_nonneg; lia).
    eapply Z.le_lt_trans; [apply Z.log2_le_mono|apply (Z.lt_trans _ (2 ^ 26)); [exact Hl|lia]]. rewrite E, Z.abs_mul. nia.
Qed.

(** The rounded value of the binary format is exact where it is shown. *)
Lemma AsScale_exact q r :
  sized q -> (amount_of q).1 <> 0 -> Quantity_AsScale q 0 = (r, true) ->
  same (amount_of q) (value_of r) /\ binary_of (value_of r).1 (value_of r).2 (canonical1024 r).
Proof.
  unfold sized, amount_of, Quantity_AsScale. destruct (q_d q) as [d|]; cbn [fst snd]; intros (Hs & Hl & Hi) Hv.
  - unfold Dec_AsScale. change (infScale 0) with 0. intros [= <- Hc%Z.eqb_eq]. set (tmp := Dec_RoundUp d 0) in *. cbn [value_of canonical1024 fst snd].
    assert (dscale tmp = 0) as Hd0 by (unfold tmp, Dec_RoundUp; by repeat case_match).
    apply Dec_Cmp_same in Hc; [|lia|lia]. rewrite Hd0 in *. change (- 0) with 0 in *. split; [by apply same_sym|].
    apply Dec_canonical1024_spec; [done|by rewrite (same_zero _ _ _ _ Hc)|].
    pose proof (integer_size _ _ _ (same_sym _ _ Hc) Hs Hl). lia.
  - destruct (Amount_AsScale (q_i q) 0) as [a exact] eqn:Ha. intros [= <- ->]. cbn [value_of canonical1024 fst snd].
    destruct (Amount_AsScale_exact (q_i q) a) as (Hsame & Hv' & Hi' & Hs'); [done|by apply Hi|done|done|]. split; [done|].
    by apply Amount_canonical1024_spec.
Qed.

(** The exponent of the text can be printed and read. *)
Definition printable (q : Quantity) : Prop :=
  match shown_format q with
  | (format, rounded) =>
      if String.eqb format BinarySI then
        match rounded with
        | Some r => let nt := canonical1024 r in nt.2 = 0 \/ nt.2 <= 6 /\ Z.abs (nt.1 * 1024 ^ nt.2) <= MaxInt64
        | None => True
        end
      else is_Some (constructBytes 10 (canonical q).2 format) /\ - 9 <= (canonical q).2 < 2 ^ 29
  end.

Lemma shown_format_cases q :
  (exists r, shown_format q = (BinarySI, Some r) /\ Quantity_AsScale q 0 = (r, true)) \/
  (exists r format, shown_format q = (format, r) /\ (format = DecimalSI \/ format = DecimalExponent)).
Proof.
  unfold shown_format. destruct (String.eqb_spec (q_Format q) DecimalExponent) as [E|_]; [right; rewrite E; eauto|].
  destruct (String.eqb_spec (q_Format q) DecimalSI) as [E|_]; [right; rewrite E; eauto|]. cbn [orb].
  destruct (String.eqb (q_Format q) BinarySI); [|right; eauto]. destruct (_ && _); [right; eauto|].
  destruct (Quantity_AsScale q 0) as [r [|]] eqn:E; [left; eauto|right; eauto].
Qed.

Lemma bin_suffix t : 1 <= t <= 6 -> exists sfx, suffix_of (int32 (t * 10)) bin_suffixes = Some sfx /\ int32 (t * 10) = t * 10.
Proof.
  intros Ht. assert (t = 1 \/ t = 2 \/ t = 3 \/ t = 4 \/ t = 5 \/ t = 6) as H by lia.
  destruct H as [->|[->|[->|[->|[->| ->]]]]]; by eexists.
Qed.

Lemma construct_reads e format sfx :
  - 9 <= e < 2 ^ 29 -> format = DecimalSI \/ format = DecimalExponent -> constructBytes 10 e format = Some sfx -> exists format', reads sfx 10 e format' /\ String.eqb format' BinarySI = false.
Proof.
  intros He [-> | ->].
  - change (constructBytes 10 e DecimalSI) with (suffix_of e dec_suffixes). intros Hs%reads_table. by exists DecimalSI.
  - change (constructBytes 10 e DecimalExponent) with (if e =? 0 then Some ""%string else Some (String "e" (Itoa e))).
    destruct (Z.eqb_spec e 0) as [->|H0]; intros [= <-].
    + exists DecimalSI. split; [|done]. by apply reads_table.
    + exists DecimalExponent. split; [|done]. apply reads_exponent; [int_unfold; lia|done].
Qed.

(** What is printed is read as the same amount. *)
Lemma String_read q :
  q_s q = ""%string -> sized q -> ((amount_of q).1 <> 0 -> printable q) ->
  exists q', ParseQuantity (Quantity_String q).2 = inl q' /\ same (amount_of q') (amount_of q).
Proof.
  intros Hs Hz Hp. unfold Quantity_String. rewrite Hs. cbn [String.length Nat.eqb]. unfold CanonicalizeBytes.
  destruct (IsZero q) eqn:H0.
  { cbn [snd str_app]. eexists. split; [reflexivity|]. unfold IsZero in H0. unfold same, amount_of. cbn [q_d q_i value scale fst snd].
    destruct (q_d q); apply Z.eqb_eq in H0; cbn [fst snd]; by rewrite H0, !Z.mul_0_l. }
  assert ((amount_of q).1 <> 0) as Hv by (unfold IsZero, amount_of in *; destruct (q_d q); cbn [fst]; by apply Z.eqb_neq).
  specialize (Hp Hv). unfold printable in Hp. destruct (shown_format_cases q) as [(r & E & Hr)|(r & format & E & Hf)]; rewrite E in *.
  - change (String.eqb BinarySI BinarySI) with true in *. cbn iota in *. destruct (AsScale_exact q r Hz Hv Hr) as [Hsame (Hb & Hn & Ht)].
    assert (AsCanonicalBase1024Bytes r = bytes_of (canonical1024 r)) as -> by (by destruct r).
    unfold bytes_of. destruct (canonical1024 r) as [n t]. cbn [fst snd] in *.
    assert (same (amount_of q) (n * 1024 ^ t, 0)) as Hq by (eapply same_trans; [exact Hsame|by destruct (value_of r)]).
    destruct (Z.eq_dec t 0) as [->|Ht0].
    + change (constructBytes 2 (int32 (0 * 10)) BinarySI) with (@None string). cbn [default snd].
      rewrite Z.pow_0_r, Z.mul_1_r in Hq.
      destruct (parse_decimal n "" 0 DecimalSI) as (q' & HP & Hq' & _); [done|by apply reads_table|done|lia| |].
      * apply (number_length n n); [lia|]. destruct Hz as (Hsc & Hl & _). destruct (amount_of q). by eapply integer_size.
      * exists q'. split; [done|]. eapply same_trans; [exact Hq'|]. by apply same_sym.
    + destruct Hp as [|[Ht6 Hmax]]; [done|]. destruct (bin_suffix t ltac:(lia)) as (sfx & Hsfx & E32).
      change (constructBytes 2 (int32 (t * 10)) BinarySI) with (suffix_of (int32 (t * 10)) bin_suffixes). rewrite Hsfx. cbn [default snd].
      rewrite E32 in Hsfx. assert (1024 ^ t = 2 ^ (t * 10)) as Ep by (change 1024 with (2 ^ 10); rewrite <- Z.pow_mul_r by lia; f_equal; lia).
      rewrite Ep in *. destruct (parse_binary n sfx (t * 10) Hn Hsfx ltac:(lia) Hmax) as (q' & HP & Hq').
      exists q'. split; [done|]. eapply same_trans; [exact Hq'|]. by apply same_sym.
  - assert (String.eqb format BinarySI = false) as Hb by (by destruct Hf as [-> | ->]). rewrite Hb in *. destruct Hp as [[sfx Hsfx] He].
    assert (AsCanonicalBytes q = bytes_of (canonical q)) as -> by (unfold AsCanonicalBytes, canonical; by destruct (q_d q)).
    unfold bytes_of. cbn [fst snd]. rewrite Hsfx. cbn [default snd]. destruct (construct_reads _ _ _ He Hf Hsfx) as (f' & Hrd & Hfb).
    by eapply decimal_read.
Qed.

(** ** Amounts of 64 bits *)

Lemma dec_suffix e : - 9 <= e <= 18 -> Z.rem e 3 = 0 -> is_Some (suffix_of e dec_suffixes).
Proof.
  intros He Hr.
  pose proof (forall_seqZ_check (fun e => negb (Z.rem e 3 =? 0) || match suffix_of e dec_suffixes with Some _ => true | None => false end)
    (-9) 28 e ltac:(vm_compute; reflexivity) ltac:(lia)) as H. cbn beta in H. rewrite Hr in H. cbn [Z.eqb negb orb] in H.
  by destruct (suffix_of e dec_suffixes).
Qed.

Lemma factors_bound v r b t K : v = r * b ^ t -> v <> 0 -> Z.abs v <= 2 ^ 63 -> 1 < b -> 2 ^ 63 < b ^ K -> 0 <= t -> 0 <= K -> t < K.
Proof.
  intros -> Hv Hm Hb HK Ht HK0. destruct (Z.lt_ge_cases t K) as [|Hge]; [done|]. exfalso.
  assert (b ^ K <= b ^ t) by (apply Z.pow_le_mono_r; lia). rewrite Z.abs_mul, (Z.abs_eq (b ^ t)) in Hm by lia.
  assert (r <> 0) by (intros ->; lia). nia.
Qed.

Lemma printable_int64 q :
  q_d q = None -> is_int64 (value (q_i q)) -> - 9 <= scale (q_i q) <= 0 -> value (q_i q) <> 0 -> printable q.
Proof.
  intros Hd Hi Hs Hv. set (v := value (q_i q)) in *.
  assert (amount_of q = (v, scale (q_i q))) as Ea by (unfold amount_of; by rewrite Hd).
  assert (Z.abs v <= 2 ^ 63) as Habs by (int_unfold; lia).
  assert (sized q) as Hz.
  { unfold sized. rewrite Ea. cbn [fst snd]. split_and!; [lia|lia| |done]. apply Z.le_lt_trans with 63; [|lia].
    apply Z.log2_le_mono with (b := 2 ^ 63). done. }
  unfold printable. destruct (shown_format_cases q) as [(r & E & Hr)|(r & format & E & Hf)]; rewrite E.
  - change (String.eqb BinarySI BinarySI) with true. cbn iota zeta. unfold Quantity_AsScale in Hr. rewrite Hd in Hr.
    destruct (Amount_AsScale (q_i q) 0) as [a exact] eqn:Ha. injection Hr as <- ->.
    destruct (Amount_AsScale_exact (q_i q) a) as (_ & Hv' & Hi' & _); [done|done|lia|done|].
    assert (scale a = 0) as Hs0.
    { unfold Amount_AsScale in Ha. destruct (Z.leb_spec 0 (scale (q_i q))); [injection Ha as <-; lia|]. by destruct (negativeScaleInt64 _ _); injection Ha as <-. }
    assert (canonical1024 (inl a) = removeInt64Factors (value a) 1024) as ->.
    { unfold canonical1024, Amount_canonical1024, Amount_AsScaledInt64. by rewrite Hs0. }
    destruct (removeInt64Factors_spec (value a) 1024) as (n & t & -> & Ht & Et & Hn & Hmin); [lia|done|]. cbn [fst snd].
    destruct (Z.eq_dec t 0); [by left|]. right. rewrite <- Et. assert (value a <> MinInt64) by naive_solver. split.
    + pose proof (factors_bound (value a) n 1024 t 7 Et Hv') as Hb. int_unfold. lia.
    + int_unfold. lia.
  - assert (String.eqb format BinarySI = false) as -> by (by destruct Hf as [-> | ->]).
    pose proof (canonical_sized q Hz) as Hc. rewrite Ea in Hc. cbn [fst snd] in Hc. destruct (Hc Hv) as (n & t & j & Ev & Ht & Hj & -> & Hr).
    cbn [snd] in *. pose proof (factors_bound v n 10 t 19 Ev Hv Habs) as Ht19.
    set (e := scale (q_i q) + t - j) in *. assert (- 9 <= e <= 18) as He by (Z.to_euclidean_division_equations; lia).
    split; [|lia]. destruct Hf as [-> | ->]; [by apply dec_suffix|].
    change (constructBytes 10 e DecimalExponent) with (if e =? 0 then Some ""%string else Some (String "e" (Itoa e))).
    destruct (e =? 0); by eexists.
Qed.

(** C38. A quantity with a 64-bit amount of units, from nanos to ones, is read
    back as it is printed: for every amount, also the least and the largest,
    and for every format, the text that [String] gives is accepted by
    [ParseQuantity] and stands for the same amount, although the formats drop
    zeros, change units, or fall back from binary to decimal units where that
    would lose digits, and although the reader takes different paths for
    short and for long numbers.  So nothing is rounded: a fraction in the
    format BinarySI is printed in decimal units, not rounded up as the comment
    of [CanonicalizeBytes] says, and amounts keep nine decimal places, not the
    three that the comment of [Quantity] allows (fractions_not_rounded). *)
Theorem Quantity_String_Parse q :
  q_d q = None -> q_s q = ""%string -> is_int64 (value (q_i q)) -> - 9 <= scale (q_i q) <= 0 ->
  exists q', ParseQuantity (Quantity_String q).2 = inl q' /\ same (amount_of q') (value (q_i q), scale (q_i q)).
Proof.
  intros Hd Hs Hi Hsc. assert (amount_of q = (value (q_i q), scale (q_i q))) as Ea by (unfold amount_of; by rewrite Hd).
  rewrite <- Ea. apply String_read; [done| |].
  - unfold sized. rewrite Ea. cbn [fst snd]. split_and!; [lia|lia| |done]. apply Z.le_lt_trans with 63; [|lia].
    apply Z.log2_le_mono with (b := 2 ^ 63). int_unfold. lia.
  - rewrite Ea. cbn [fst]. intros Hv. by apply printable_int64.
Qed.

Lemma Quantity_String_Parse_witness :
  (Quantity_String (NewMilliQuantity (-1500000) BinarySI)).2 = "-1500"%string /\
  exists q', ParseQuantity (Quantity_String (NewMilliQuantity (-1500000) BinarySI)).2 = inl q' /\ same (amount_of q') (-1500000, -3).
Proof.
  split; [reflexivity|]. apply (Quantity_String_Parse (NewMilliQuantity (-1500000) BinarySI));
    [reflexivity|reflexivity|cbn; int_unfold; lia|cbn; lia].
Defined.

(** 1.1 in the format BinarySI is printed as 1100m, not as 2; a tenth of a
    milli is read and printed as 100u, not rounded up to 1m. *)
Theorem fractions_not_rounded :
  (Quantity_String (NewMilliQuantity 1100 BinarySI)).2 = "1100m"%string /\
  exists q, ParseQuantity "0.1m" = inl q /\ same (amount_of q) (1, -4) /\ (Quantity_String q).2 = "100u"%string.
Proof. split; [reflexivity|]. eexists. split; [vm_compute; reflexivity|]. split; reflexivity. Qed.

(** Larger amounts are not: there is no suffix beyond [E], and [String] drops
    the one it does not find, so that a thousand [E] are printed as one. *)
Theorem thousand_E_prints_as_one :
  exists q, ParseQuantity "1000E" = inl q /\ amount_of q = (1000, 18) /\ (Quantity_String q).2 = "1"%string.
Proof. eexists. split; [vm_compute; reflexivity|]. split; reflexivity. Qed.
