(* ===== verification/ApiTypes.v ===== *)
(** * API objects

    The objects of [k8s.io/api/core/v1] that the scheduler handles, with the
    fields its code reads or writes, and the classification of resource
    names.  A Go map is a [gmap] ([nil] is the empty map, except for
    annotations and overhead, where the code tells the two apart); a slice is
    a list; a pointer that may be [nil] is an [option]. *)

From S2P Require Import Prelude GoInt GoFloat GoStrconv Quantity.

Abbreviation ResourceList := (gmap string Quantity).

Record ResourceRequirements := mkResourceRequirements {
  Limits : ResourceList;
  Requests : ResourceList
}.

Record ContainerPort := mkContainerPort {
  HostPort : Z; Protocol : string; HostIP : string
}.

Record Container := mkContainer {
  c_Name : string;
  c_Image : string;
  c_Ports : list ContainerPort;
  c_Resources : ResourceRequirements
}.

(** A label selector as the API carries it. *)
Record LabelSelectorRequirement := mkLabelSelectorRequirement {
  lsr_Key : string; lsr_Operator : string; lsr_Values : list string
}.

Record LabelSelector := mkLabelSelector {
  MatchLabels : gmap string string;
  MatchExpressions : list LabelSelectorRequirement
}.

Record PodAffinityTerm := mkPodAffinityTerm {
  pat_LabelSelector : option LabelSelector;
  pat_Namespaces : list string;
  pat_TopologyKey : string;
  pat_NamespaceSelector : option LabelSelector
}.

(** [PodAffinity] and [PodAntiAffinity] have the same shape. *)
Record PodAffinityRules := mkPodAffinityRules {
  RequiredTerms : list PodAffinityTerm;
  PreferredTerms : list (Z * PodAffinityTerm)
}.

(** A selector of nodes: the terms are alternatives, and the requirements of a
    term have to hold together. *)
Record NodeSelectorRequirement := mkNodeSelectorRequirement {
  nsr_Key : string; nsr_Operator : string; nsr_Values : list string
}.

Record NodeSelectorTerm := mkNodeSelectorTerm {
  nst_MatchExpressions : list NodeSelectorRequirement;
  nst_MatchFields : list NodeSelectorRequirement
}.

Record NodeAffinity := mkNodeAffinity {
  na_Required : option (list NodeSelectorTerm);
  na_Preferred : list (Z * NodeSelectorTerm)
}.

Record Affinity := mkAffinity {
  spec_NodeAffinity : option NodeAffinity;
  PodAffinity : option PodAffinityRules;
  PodAntiAffinity : option PodAffinityRules
}.

(** A volume, by the claim it refers to if it refers to one. *)
Record Volume := mkVolume { v_PersistentVolumeClaim : option string }.

Record Toleration := mkToleration {
  tol_Key : string; tol_Operator : string; tol_Value : string; tol_Effect : string
}.

Record Taint := mkTaint { t_Key : string; t_Value : string; t_Effect : string }.

(** Times are in nanoseconds; zero is the zero time. *)
Record PodCondition := mkPodCondition {
  cond_Type : string; cond_Status : string; LastProbeTime : Z; LastTransitionTime : Z;
  cond_Reason : string; cond_Message : string
}.

(** How pods that a selector matches are to be spread over a topology. *)
Record TopologySpreadConstraint := mkTopologySpreadConstraint {
  tsc_MaxSkew : Z;
  tsc_TopologyKey : string;
  tsc_WhenUnsatisfiable : string;
  tsc_LabelSelector : option LabelSelector
}.

Record PodSpec := mkPodSpec {
  Containers : list Container;
  InitContainers : list Container;
  Overhead : option ResourceList;
  NodeName : string;
  SchedulerName : string;
  Priority : option Z;
  Volumes : list Volume;
  spec_Affinity : option Affinity;
  Tolerations : list Toleration;
  spec_NodeSelector : gmap string string;
  TopologySpreadConstraints : list TopologySpreadConstraint;
  PreemptionPolicy : option string
}.

Record PodStatus := mkPodStatus {
  Conditions : list PodCondition;
  NominatedNodeName : string;
  StartTime : option Z
}.

Record Pod := mkPod {
  Name : string;
  Namespace : string;
  UID : string;
  ResourceVersion : string;
  DeletionTimestamp : option Z;
  Labels : gmap string string;
  Annotations : option (gmap string string);
  Spec : PodSpec;
  Status : PodStatus
}.

Record ContainerImage := mkContainerImage { img_Names : list string; img_SizeBytes : Z }.

(** A condition of a node; its times and texts play no role here. *)
Record NodeCondition := mkNodeCondition { nc_Type : string; nc_Status : string }.

Record Node := mkNode {
  node_Name : string;
  node_Labels : gmap string string;
  node_Taints : list Taint;
  node_Unschedulable : bool;
  node_Allocatable : ResourceList;
  node_Images : list ContainerImage;
  node_Conditions : list NodeCondition
}.

(** Updates of the fields the code assigns. *)
Definition set_Containers (cs : list Container) (p : Pod) : Pod :=
  let s := Spec p in
  mkPod (Name p) (Namespace p) (UID p) (ResourceVersion p) (DeletionTimestamp p) (Labels p)
    (Annotations p)
    (mkPodSpec cs (InitContainers s) (Overhead s) (NodeName s) (SchedulerName s) (Priority s)
       (Volumes s) (spec_Affinity s) (Tolerations s) (spec_NodeSelector s)
       (TopologySpreadConstraints s) (PreemptionPolicy s)) (Status p).

Definition set_NodeName (n : string) (p : Pod) : Pod :=
  let s := Spec p in
  mkPod (Name p) (Namespace p) (UID p) (ResourceVersion p) (DeletionTimestamp p) (Labels p)
    (Annotations p)
    (mkPodSpec (Containers s) (InitContainers s) (Overhead s) n (SchedulerName s) (Priority s)
       (Volumes s) (spec_Affinity s) (Tolerations s) (spec_NodeSelector s)
       (TopologySpreadConstraints s) (PreemptionPolicy s)) (Status p).

Definition set_Annotations (a : option (gmap string string)) (p : Pod) : Pod :=
  mkPod (Name p) (Namespace p) (UID p) (ResourceVersion p) (DeletionTimestamp p) (Labels p) a
    (Spec p) (Status p).

Definition add_Condition (c : PodCondition) (p : Pod) : Pod :=
  let st := Status p in
  mkPod (Name p) (Namespace p) (UID p) (ResourceVersion p) (DeletionTimestamp p) (Labels p)
    (Annotations p) (Spec p)
    (mkPodStatus (Conditions st ++ [c]) (NominatedNodeName st) (StartTime st)).

Definition set_Image (i : string) (c : Container) : Container :=
  mkContainer (c_Name c) i (c_Ports c) (c_Resources c).

Definition set_Resources (r : ResourceRequirements) (c : Container) : Container :=
  mkContainer (c_Name c) (c_Image c) (c_Ports c) r.

(** [labels[k]] *)
Definition label (m : gmap string string) (k : string) : string := default ""%string (m !! k).

(** ** Resource lists *)

Definition ResourceCPU : string := "cpu".
Definition ResourceMemory : string := "memory".
Definition ResourcePods : string := "pods".
Definition ResourceEphemeralStorage : string := "ephemeral-storage".

(** [ResourceList.Name] *)
Definition RL_Name (rl : ResourceList) (name format : string) : Quantity :=
  match rl !! name with
  | Some q => q
  | None => mkQuantity zeroAmount None "" format
  end.

Definition Cpu (rl : ResourceList) : Quantity := RL_Name rl ResourceCPU DecimalSI.
Definition Memory (rl : ResourceList) : Quantity := RL_Name rl ResourceMemory BinarySI.

(** ** Resource names *)

Definition DefaultResourceRequestsPrefix : string := "requests.".
Definition ResourceDefaultNamespacePrefix : string := "kubernetes.io/".
Definition ResourceHugePagesPrefix : string := "hugepages-".
Definition ResourceAttachableVolumesPrefix : string := "attachable-volumes-".

Fixpoint str_split (sep : ascii) (s : string) : list string :=
  match s with
  | EmptyString => [EmptyString]
  | String c s' =>
      if Ascii.eqb c sep then EmptyString :: str_split sep s'
      else match str_split sep s' with
           | [] => [String c EmptyString]
           | p :: ps => String c p :: ps
           end
  end.

Definition char_in (lo hi : nat) (c : ascii) : bool :=
  let n := nat_of_ascii c in (lo <=? n)%nat && (n <=? hi)%nat.
Definition is_lower (c : ascii) : bool := char_in 97 122 c.
Definition is_upper (c : ascii) : bool := char_in 65 90 c.

Fixpoint str_forall (p : ascii -> bool) (s : string) : bool :=
  match s with EmptyString => true | String c s' => p c && str_forall p s' end.

(** Strings over [mid] that begin and end with [ends] (a subset of [mid]). *)
Fixpoint str_last (p : ascii -> bool) (s : string) : bool :=
  match s with
  | EmptyString => false
  | String c EmptyString => p c
  | String _ s' => str_last p s'
  end.
Definition bracketed (ends mid : ascii -> bool) (s : string) : bool :=
  match s with
  | EmptyString => false
  | String c _ => ends c && str_last ends s && str_forall mid s
  end.

(** The regular expressions of validation.go. *)
Definition qnameChar (c : ascii) : bool := is_lower c || is_upper c || is_digit c.
Definition qnameExtChar (c : ascii) : bool :=
  qnameChar c || Ascii.eqb c "-" || Ascii.eqb c "_" || Ascii.eqb c ".".
Definition qualifiedNameRegexp (s : string) : bool := bracketed qnameChar qnameExtChar s.
Definition dns1123Label (s : string) : bool :=
  bracketed (fun c => is_lower c || is_digit c)
            (fun c => is_lower c || is_digit c || Ascii.eqb c "-") s.
Definition dns1123SubdomainRegexp (s : string) : bool := forallb dns1123Label (str_split "." s).

(** [len(IsDNS1123Subdomain(s)) == 0] *)
Definition IsDNS1123Subdomain (s : string) : bool :=
  (String.length s <=? 253)%nat && dns1123SubdomainRegexp s.

(** [len(IsQualifiedName(s)) == 0] *)
Definition IsQualifiedName (s : string) : bool :=
  let name_ok name :=
    negb (String.length name =? 0)%nat && (String.length name <=? 63)%nat
    && qualifiedNameRegexp name in
  match str_split "/" s with
  | [name] => name_ok name
  | [prefix; name] =>
      negb (String.length prefix =? 0)%nat && IsDNS1123Subdomain prefix && name_ok name
  | _ => false
  end.

Definition IsPrefixedNativeResource (name : string) : bool :=
  Contains name ResourceDefaultNamespacePrefix.

Definition IsNativeResource (name : string) : bool :=
  negb (Contains name "/") || IsPrefixedNativeResource name.

Definition IsHugePageResourceName (name : string) : bool := HasPrefix name ResourceHugePagesPrefix.

Definition IsAttachableVolumeResourceName (name : string) : bool :=
  HasPrefix name ResourceAttachableVolumesPrefix.

Definition IsExtendedResourceName (name : string) : bool :=
  if IsNativeResource name || HasPrefix name DefaultResourceRequestsPrefix then false
  else IsQualifiedName (str_app DefaultResourceRequestsPrefix name).

Definition IsScalarResourceName (name : string) : bool :=
  IsExtendedResourceName name || IsHugePageResourceName name
  || IsPrefixedNativeResource name || IsAttachableVolumeResourceName name.

Example IsScalarResourceName_ex :
  map IsScalarResourceName ["nvidia.com/gpu"; "hugepages-2Mi"; "cpu"; "kubernetes.io/x"; "a//b"]%string
  = [true; true; false; true; false].
Proof. vm_compute. reflexivity. Qed.
