(* ===== verification/Labels.v ===== *)
(** * Label selectors

    [labels/selector.go] and the conversion of [metav1/helpers.go]: a
    requirement relates a key of a label set to values; a selector is a
    conjunction of requirements, or the selector that matches nothing.  The
    errors of a conversion are told apart by what they complain about, not by
    their text. *)

From S2P Require Import Prelude GoInt GoFloat GoStrconv Quantity ApiTypes.

(** ** [selection.Operator] *)

Definition Op_DoesNotExist : string := "!".
Definition Op_Equals : string := "=".
Definition Op_DoubleEquals : string := "==".
Definition Op_In : string := "in".
Definition Op_NotEquals : string := "!=".
Definition Op_NotIn : string := "notin".
Definition Op_Exists : string := "exists".
Definition Op_GreaterThan : string := "gt".
Definition Op_LessThan : string := "lt".

Definition one_of (s : string) (l : list string) : bool := existsb (String.eqb s) l.

(** ** Requirements *)

Record Requirement := mkRequirement {
  key : string; operator : string; strValues : list string
}.

#[export] Instance Requirement_eq_dec : EqDecision Requirement.
Proof. solve_decision. Defined.

(** The entries of the error list of [NewRequirement]. *)
Inductive ReqError := InvalidKey | InvalidValues | InvalidInteger | OperatorNotSupported | InvalidValue.

(** [len(IsValidLabelValue(s)) == 0] *)
Definition IsValidLabelValue (value : string) : bool :=
  (String.length value <=? 63)%nat && ((String.length value =? 0)%nat || qualifiedNameRegexp value).

Definition validateLabelKey (k : string) : list ReqError :=
  if IsQualifiedName k then [] else [InvalidKey].
Definition validateLabelValue (v : string) : list ReqError :=
  if IsValidLabelValue v then [] else [InvalidValue].

Definition op_errors (op : string) (vals : list string) : list ReqError :=
  let when (b : bool) e := if b then [e] else [] in
  if one_of op [Op_In; Op_NotIn] then when (length vals =? 0)%nat InvalidValues
  else if one_of op [Op_Equals; Op_DoubleEquals; Op_NotEquals] then
    when (negb (length vals =? 1)%nat) InvalidValues
  else if one_of op [Op_Exists; Op_DoesNotExist] then
    when (negb (length vals =? 0)%nat) InvalidValues
  else if one_of op [Op_GreaterThan; Op_LessThan] then
    when (negb (length vals =? 1)%nat) InvalidValues ++
    concat (map (fun v => match ParseInt v with (_, Some _) => [InvalidInteger] | _ => [] end) vals)
  else [OperatorNotSupported].

(** [NewRequirement]; the error is nil when the list is empty. *)
Definition NewRequirement (key op : string) (vals : list string) : Requirement * list ReqError :=
  (mkRequirement key op vals,
   validateLabelKey key ++ op_errors op vals ++ concat (map validateLabelValue vals)).

Definition hasValue (r : Requirement) (value : string) : bool := one_of value (strValues r).

(** [labels.Set] *)
Definition Set_Has (ls : gmap string string) (k : string) : bool :=
  match ls !! k with Some _ => true | None => false end.
Definition Set_Get (ls : gmap string string) (k : string) : string := default ""%string (ls !! k).

(** The comparison of [Gt] and [Lt]. *)
Definition integer_matches (r : Requirement) (ls : gmap string string) : bool :=
  if negb (Set_Has ls (key r)) then false
  else
    match ParseInt (Set_Get ls (key r)) with
    | (_, Some _) => false
    | (lsValue, None) =>
        match strValues r with
        | [v] =>
            match ParseInt v with
            | (_, Some _) => false
            | (rValue, None) =>
                (String.eqb (operator r) Op_GreaterThan && (rValue <? lsValue))
                || (String.eqb (operator r) Op_LessThan && (lsValue <? rValue))
            end
        | _ => false
        end
    end.

(** [Requirement.Matches] *)
Definition Req_Matches (r : Requirement) (ls : gmap string string) : bool :=
  let op := operator r in
  if one_of op [Op_In; Op_Equals; Op_DoubleEquals] then
    if negb (Set_Has ls (key r)) then false else hasValue r (Set_Get ls (key r))
  else if one_of op [Op_NotIn; Op_NotEquals] then
    if negb (Set_Has ls (key r)) then true else negb (hasValue r (Set_Get ls (key r)))
  else if String.eqb op Op_Exists then Set_Has ls (key r)
  else if String.eqb op Op_DoesNotExist then negb (Set_Has ls (key r))
  else if one_of op [Op_GreaterThan; Op_LessThan] then integer_matches r ls
  else false.

(** ** Selectors *)

Inductive Selector := nothingSelector | internalSelector (l : list Requirement).

#[export] Instance Selector_eq_dec : EqDecision Selector.
Proof. solve_decision. Defined.

Definition Everything : Selector := internalSelector [].
Definition Nothing : Selector := nothingSelector.

Definition Sel_Matches (s : Selector) (ls : gmap string string) : bool :=
  match s with
  | nothingSelector => false
  | internalSelector l => forallb (fun r => Req_Matches r ls) l
  end.

Definition Sel_Empty (s : Selector) : bool :=
  match s with nothingSelector => false | internalSelector l => (length l =? 0)%nat end.

(** [sort.Sort(ByKey(l))].  Go leaves the order of requirements on the same
    key open; nothing below depends on it. *)
Definition ByKey (a b : Requirement) : Prop := String.leb (key a) (key b) = true.
#[export] Instance ByKey_dec a b : Decision (ByKey a b) := decide (String.leb (key a) (key b) = true).

Definition Sel_Add (s : Selector) (reqs : list Requirement) : Selector :=
  match s with
  | nothingSelector => nothingSelector
  | internalSelector l => internalSelector (merge_sort ByKey (l ++ reqs))
  end.

(** [SelectorFromSet] *)
Definition SelectorFromSet (ls : gmap string string) : Selector :=
  internalSelector (merge_sort ByKey
    (map (fun e => mkRequirement e.1 Op_Equals [e.2]) (map_to_list ls))).

(** ** [metav1.LabelSelectorAsSelector] *)

Inductive SelError := BadRequirement | BadOperator (op : string).

(** The operator of an expression of the API. *)
Definition selector_op (op : string) : option string :=
  if String.eqb op "In" then Some Op_In
  else if String.eqb op "NotIn" then Some Op_NotIn
  else if String.eqb op "Exists" then Some Op_Exists
  else if String.eqb op "DoesNotExist" then Some Op_DoesNotExist
  else None.

(** One iteration of the two loops. *)
Definition add_requirement (acc : list Requirement + SelError) (k op : string) (vals : list string)
  : list Requirement + SelError :=
  match acc with
  | inr e => inr e
  | inl l => match NewRequirement k op vals with
             | (r, []) => inl (l ++ [r])
             | (_, _ :: _) => inr BadRequirement
             end
  end.

Definition add_label (acc : list Requirement + SelError) (e : string * string) :=
  add_requirement acc e.1 Op_Equals [e.2].

Definition add_expression (acc : list Requirement + SelError) (e : LabelSelectorRequirement)
  : list Requirement + SelError :=
  match acc with
  | inr _ => acc
  | inl _ => match selector_op (lsr_Operator e) with
             | None => inr (BadOperator (lsr_Operator e))
             | Some op => add_requirement acc (lsr_Key e) op (lsr_Values e)
             end
  end.

Definition LabelSelectorAsSelector (ps : option LabelSelector) : Selector + SelError :=
  match ps with
  | None => inl Nothing
  | Some ps =>
      if (size (MatchLabels ps) + length (MatchExpressions ps) =? 0)%nat then inl Everything
      else
        let acc := fold_left add_label (map_to_list (MatchLabels ps)) (inl []) in
        match fold_left add_expression (MatchExpressions ps) acc with
        | inr e => inr e
        | inl requirements => inl (Sel_Add (internalSelector []) requirements)
        end
  end.

(** ** What a selector means *)

(** An expression of the API, read on a label set. *)
Definition expression_holds (e : LabelSelectorRequirement) (ls : gmap string string) : Prop :=
  match ls !! lsr_Key e with
  | Some v =>
      (lsr_Operator e = "In"%string /\ v ∈ lsr_Values e) \/
      (lsr_Operator e = "NotIn"%string /\ v ∉ lsr_Values e) \/ lsr_Operator e = "Exists"%string
  | None => lsr_Operator e = "NotIn"%string \/ lsr_Operator e = "DoesNotExist"%string
  end.

Definition selector_holds (ps : option LabelSelector) (ls : gmap string string) : Prop :=
  match ps with
  | None => False
  | Some ps => MatchLabels ps ⊆ ls /\ Forall (fun e => expression_holds e ls) (MatchExpressions ps)
  end.

(** A selector that is well formed: keys and values are legal labels, the
    operators are the four of the API, with values where they take them. *)
Definition expression_valid (e : LabelSelectorRequirement) : bool :=
  IsQualifiedName (lsr_Key e) && forallb IsValidLabelValue (lsr_Values e)
  && if one_of (lsr_Operator e) ["In"; "NotIn"]%string then negb (length (lsr_Values e) =? 0)%nat
     else one_of (lsr_Operator e) ["Exists"; "DoesNotExist"]%string && (length (lsr_Values e) =? 0)%nat.

Definition selector_valid (ps : option LabelSelector) : bool :=
  match ps with
  | None => true
  | Some ps => forallb (fun e => IsQualifiedName e.1 && IsValidLabelValue e.2) (map_to_list (MatchLabels ps))
               && forallb expression_valid (MatchExpressions ps)
  end.

Lemma one_of_elem s l : one_of s l = true <-> s ∈ l.
Proof.
  unfold one_of. rewrite existsb_exists. split.
  - intros (x & Hx%list_elem_of_In & E%String.eqb_eq). by subst.
  - intros H. exists s. split; [by apply list_elem_of_In|apply String.eqb_refl].
Qed.

Lemma Sel_Matches_perm l l' ls :
  l ≡ₚ l' -> Sel_Matches (internalSelector l) ls = Sel_Matches (internalSelector l') ls.
Proof.
  intros Hp. simpl. apply eq_true_iff_eq. rewrite !forallb_forall.
  split; intros H x Hx; apply H; apply list_elem_of_In; apply list_elem_of_In in Hx; by rewrite ?Hp, <- ?Hp in *.
Qed.

Lemma equals_matches k v ls :
  Req_Matches (mkRequirement k Op_Equals [v]) ls = true <-> ls !! k = Some v.
Proof.
  unfold Req_Matches, hasValue, Set_Has, Set_Get, one_of; simpl.
  destruct (ls !! k) as [w|]; simpl; [|by split]. rewrite orb_false_r.
  destruct (String.eqb_spec w v); split; intros; congruence.
Qed.

(** A loop that stops at the first error, and otherwise collects. *)
Lemma add_label_err l e : fold_left add_label l (inr e) = inr e.
Proof. induction l; by simpl. Qed.

Lemma add_expression_err l e : fold_left add_expression l (inr e) = inr e.
Proof. induction l; by simpl. Qed.

Lemma add_requirement_inl acc k op vals l :
  add_requirement acc k op vals = inl l ->
  exists l0, acc = inl l0 /\ l = l0 ++ [mkRequirement k op vals].
Proof.
  unfold add_requirement, NewRequirement. destruct acc as [l0|]; [|done].
  destruct (validateLabelKey k ++ _); [|done]. intros [= <-]. by exists l0.
Qed.

Lemma add_labels_spec l acc r :
  fold_left add_label l (inl acc) = inl r ->
  r = acc ++ map (fun e => mkRequirement e.1 Op_Equals [e.2]) l.
Proof.
  revert acc. induction l as [|e l IH]; intros acc; cbn [fold_left map].
  - intros [= <-]. by rewrite app_nil_r.
  - destruct (add_label (inl acc) e) as [l1|er] eqn:E; [|by rewrite add_label_err].
    unfold add_label in E. apply add_requirement_inl in E as (l0 & [= <-] & ->).
    intros ->%IH. cbn [map]. by rewrite <- app_assoc.
Qed.

Lemma expression_matches e op ls :
  selector_op (lsr_Operator e) = Some op ->
  Req_Matches (mkRequirement (lsr_Key e) op (lsr_Values e)) ls = true <-> expression_holds e ls.
Proof.
  unfold selector_op, expression_holds.
  destruct (String.eqb_spec (lsr_Operator e) "In") as [-> |].
  { intros [= <-]. unfold Req_Matches, hasValue, Set_Has, Set_Get; simpl.
    destruct (ls !! lsr_Key e); simpl; [rewrite one_of_elem|]; naive_solver. }
  destruct (String.eqb_spec (lsr_Operator e) "NotIn") as [-> |].
  { intros [= <-]. unfold Req_Matches, hasValue, Set_Has, Set_Get; simpl.
    destruct (ls !! lsr_Key e); simpl; [|naive_solver].
    rewrite negb_true_iff, <- not_true_iff_false, one_of_elem. naive_solver. }
  destruct (String.eqb_spec (lsr_Operator e) "Exists") as [-> |].
  { intros [= <-]. unfold Req_Matches, Set_Has; simpl. destruct (ls !! lsr_Key e); naive_solver. }
  destruct (String.eqb_spec (lsr_Operator e) "DoesNotExist") as [-> |]; [|done].
  intros [= <-]. unfold Req_Matches, Set_Has; simpl. destruct (ls !! lsr_Key e); naive_solver.
Qed.

Lemma add_expressions_spec l acc r ls :
  fold_left add_expression l (inl acc) = inl r ->
  forallb (fun q => Req_Matches q ls) r = true <->
  forallb (fun q => Req_Matches q ls) acc = true /\ Forall (fun e => expression_holds e ls) l.
Proof.
  revert acc. induction l as [|e l IH]; intros acc; cbn [fold_left].
  - intros [= <-]. rewrite Forall_nil. tauto.
  - unfold add_expression at 2. destruct (selector_op (lsr_Operator e)) as [op|] eqn:Eo; [|by rewrite add_expression_err].
    destruct (add_requirement (inl acc) (lsr_Key e) op (lsr_Values e)) as [l1|er] eqn:E;
      [|by rewrite add_expression_err].
    apply add_requirement_inl in E as (l0 & [= <-] & ->).
    intros H%IH. rewrite H, forallb_app, andb_true_iff, Forall_cons. simpl.
    rewrite andb_true_r, (expression_matches e op ls Eo). tauto.
Qed.

Lemma labels_match m ls :
  forallb (fun q => Req_Matches q ls) (map (fun e => mkRequirement e.1 Op_Equals [e.2]) (map_to_list m))
  = true <-> m ⊆ ls.
Proof.
  rewrite forallb_forall, map_subseteq_spec. split.
  - intros H k v Hk. apply equals_matches, H, in_map_iff. exists (k, v).
    split; [done|]. by apply list_elem_of_In, elem_of_map_to_list.
  - intros H q ([k v] & <- & Hq)%in_map_iff. apply equals_matches, H.
    by apply elem_of_map_to_list, list_elem_of_In.
Qed.

(** ** The conversion succeeds exactly on well-formed selectors *)

Lemma value_errors vals : concat (map validateLabelValue vals) = [] <-> forallb IsValidLabelValue vals = true.
Proof.
  induction vals as [|v vals IH]; simpl; [done|]. rewrite app_nil, IH, andb_true_iff.
  unfold validateLabelValue. destruct (IsValidLabelValue v); naive_solver.
Qed.

Lemma add_requirement_ok l k op vals :
  IsQualifiedName k = true -> op_errors op vals = [] -> forallb IsValidLabelValue vals = true ->
  add_requirement (inl l) k op vals = inl (l ++ [mkRequirement k op vals]).
Proof.
  intros Hk Ho Hv%value_errors. unfold add_requirement, NewRequirement, validateLabelKey. by rewrite Hk, Ho, Hv.
Qed.

Lemma add_requirement_bad l k op vals :
  IsQualifiedName k = false \/ op_errors op vals <> [] \/ forallb IsValidLabelValue vals = false ->
  exists e, add_requirement (inl l) k op vals = inr e.
Proof.
  intros H. unfold add_requirement, NewRequirement.
  destruct (validateLabelKey k ++ op_errors op vals ++ concat (map validateLabelValue vals)) eqn:E; [|eauto].
  apply app_nil in E as [E1 [E2 E3%value_errors]%app_nil]. unfold validateLabelKey in E1.
  destruct H as [H|[H|H]]; [by rewrite H in E1|done|congruence].
Qed.

Lemma add_label_case l e :
  if IsQualifiedName e.1 && IsValidLabelValue e.2
  then add_label (inl l) e = inl (l ++ [mkRequirement e.1 Op_Equals [e.2]])
  else exists er, add_label (inl l) e = inr er.
Proof.
  unfold add_label. destruct (IsQualifiedName e.1) eqn:Ek; cbn [andb]; [|apply add_requirement_bad; tauto].
  destruct (IsValidLabelValue e.2) eqn:Ev.
  - apply add_requirement_ok; [done|done|]. simpl. by rewrite Ev.
  - apply add_requirement_bad. right; right. simpl. by rewrite Ev.
Qed.

Lemma add_expression_case l e :
  if expression_valid e then exists r, add_expression (inl l) e = inl r
  else exists er, add_expression (inl l) e = inr er.
Proof.
  unfold expression_valid, add_expression.
  destruct (IsQualifiedName (lsr_Key e)) eqn:Ek; cbn [andb];
    [|destruct (selector_op _); [apply add_requirement_bad; tauto|eauto]].
  destruct (forallb IsValidLabelValue (lsr_Values e)) eqn:Ev; cbn [andb];
    [|destruct (selector_op _); [apply add_requirement_bad; tauto|eauto]].
  unfold selector_op, one_of; cbn [existsb].
  destruct (String.eqb_spec (lsr_Operator e) "In"); cbn [orb];
    [|destruct (String.eqb_spec (lsr_Operator e) "NotIn"); cbn [orb];
      [|destruct (String.eqb_spec (lsr_Operator e) "Exists"); cbn [orb andb];
        [|destruct (String.eqb_spec (lsr_Operator e) "DoesNotExist"); cbn [orb andb]; [|eauto]]]];
    destruct (lsr_Values e) eqn:El; cbn [length Nat.eqb negb];
    try (eexists; apply add_requirement_ok; done);
    apply add_requirement_bad; right; left; done.
Qed.

(** A loop that stops at the first error succeeds when no step fails. *)
Lemma fold_result {A B E} (f : A + E -> B -> A + E) (ok : B -> bool) l acc :
  (forall e b, f (inr e) b = inr e) ->
  (forall a b, if ok b then exists r, f (inl a) b = inl r else exists er, f (inl a) b = inr er) ->
  if forallb ok l then exists r, fold_left f l (inl acc) = inl r
  else exists er, fold_left f l (inl acc) = inr er.
Proof.
  intros Herr Hstep. assert (forall l e, fold_left f l (inr e) = inr e) as Hfix.
  { intros l'. induction l' as [|b l' IH]; intros e; simpl; [done|]. by rewrite Herr. }
  revert acc. induction l as [|b l IH]; intros acc; simpl; [eauto|].
  specialize (Hstep acc b). destruct (ok b); simpl; destruct Hstep as [r ->]; [apply IH|eauto].
Qed.

Lemma labels_result l :
  if forallb (fun e => IsQualifiedName e.1 && IsValidLabelValue e.2) l
  then exists r, fold_left add_label l (inl []) = inl r
  else exists er, fold_left add_label l (inl []) = inr er.
Proof.
  apply (fold_result add_label (fun e => IsQualifiedName e.1 && IsValidLabelValue e.2)); [done|].
  intros a b. pose proof (add_label_case a b). destruct (_ && _); eauto.
Qed.

Lemma selector_parts m es s ls :
  fold_left add_expression es (fold_left add_label (map_to_list m) (inl [])) = inl s ->
  Sel_Matches (Sel_Add (internalSelector []) s) ls = true
  <-> m ⊆ ls /\ Forall (fun e => expression_holds e ls) es.
Proof.
  destruct (fold_left add_label _ _) as [l|er] eqn:El; [|by rewrite add_expression_err].
  apply add_labels_spec in El as ->. intros Ee. unfold Sel_Add.
  rewrite (Sel_Matches_perm _ s) by (apply merge_sort_Permutation). cbn [Sel_Matches].
  rewrite (add_expressions_spec _ _ _ ls Ee), app_nil_l, labels_match. done.
Qed.

(** C36. [LabelSelectorAsSelector] against the meaning of the API's selectors:
    it fails exactly on the selectors that are not well formed, and for the
    others the requirements it builds and sorts match exactly the label sets
    that have the labels asked for and on which every expression holds. *)
Theorem LabelSelector_meaning ps :
  match LabelSelectorAsSelector ps with
  | inl s => selector_valid ps = true /\ forall ls, Sel_Matches s ls = true <-> selector_holds ps ls
  | inr _ => selector_valid ps = false
  end.
Proof.
  destruct ps as [ps|]; [|by split]. unfold LabelSelectorAsSelector, selector_valid, selector_holds.
  destruct (Nat.eqb_spec (size (MatchLabels ps) + length (MatchExpressions ps)) 0) as [E|E].
  { rewrite (map_size_empty_inv (MatchLabels ps)) by lia.
    destruct (MatchExpressions ps); [|simpl in E; lia]. split; [by rewrite map_to_list_empty|].
    intros ls. split; [|done]. split; [apply map_empty_subseteq|constructor]. }
  pose proof (labels_result (map_to_list (MatchLabels ps))) as Hl.
  destruct (forallb (fun _ => _) _); destruct Hl as [l El]; [|by rewrite El, add_expression_err].
  pose proof (fold_result add_expression expression_valid (MatchExpressions ps) l
    (fun _ _ => eq_refl) add_expression_case) as He.
  destruct (forallb expression_valid _); rewrite <- El in He; destruct He as [r Er]; rewrite Er; [|done].
  split; [done|]. intros ls. by apply selector_parts.
Qed.

(** A set converted to a selector asks for its labels. *)
Lemma SelectorFromSet_meaning m ls : Sel_Matches (SelectorFromSet m) ls = true <-> m ⊆ ls.
Proof.
  unfold SelectorFromSet. rewrite (Sel_Matches_perm _ _ ls (merge_sort_Permutation _ _)).
  apply labels_match.
Qed.
