(* ===== verification/LabelParser.v ===== *)
(** * The textual form of label selectors

    [labels/selector.go]: the printer of selectors, and the lexer and parser
    that read them.  The lexer works on the rest of the text; a text that is
    read to its end, or to a zero byte, reads as a zero byte. *)

From S2P Require Import Prelude GoInt GoFloat GoStrconv Quantity ApiTypes Labels.

Local Open Scope go_scope.

(** ** Printing *)

Definition string_le (a b : string) : Prop := String.leb a b = true.
#[export] Instance string_le_dec a b : Decision (string_le a b) := decide (String.leb a b = true).

Fixpoint StringsAreSorted (l : list string) : bool :=
  match l with
  | a :: (b :: _) as l' => String.leb a b && StringsAreSorted l'
  | _ => true
  end.

Definition safeSort (l : list string) : list string :=
  if StringsAreSorted l then l else merge_sort string_le l.

(** The text between key and values. *)
Definition op_text (op : string) : string :=
  if String.eqb op Op_Equals then "="
  else if String.eqb op Op_DoubleEquals then "=="
  else if String.eqb op Op_NotEquals then "!="
  else if String.eqb op Op_In then " in "
  else if String.eqb op Op_NotIn then " notin "
  else if String.eqb op Op_GreaterThan then ">"
  else if String.eqb op Op_LessThan then "<"
  else "".

(** [Requirement.String] *)
Definition Req_String (r : Requirement) : string :=
  let op := operator r in
  let k := if String.eqb op Op_DoesNotExist then String "!" (key r) else key r in
  if one_of op [Op_Exists; Op_DoesNotExist] then k
  else
    let values := match strValues r with [v] => v | vs => Join (safeSort vs) "," end in
    let values := if one_of op [Op_In; Op_NotIn] then str_app "(" (str_app values ")") else values in
    str_app k (str_app (op_text op) values).

(** [internalSelector.String]; the selector that matches nothing prints as
    the empty text. *)
Definition Sel_String (s : Selector) : string :=
  match s with nothingSelector => "" | internalSelector l => Join (map Req_String l) "," end.

(** ** Questions about a selector *)

Definition Req_Equal (r x : Requirement) : bool :=
  if negb (String.eqb (key r) (key x)) then false
  else if negb (String.eqb (operator r) (operator x)) then false
  else bool_decide (strValues r = strValues x).

Definition Req_Values (r : Requirement) : gset string := fold_left (fun ret v => {[v]} ∪ ret) (strValues r) ∅.

Definition Sel_Requirements (s : Selector) : list Requirement * bool :=
  match s with nothingSelector => ([], false) | internalSelector l => (l, true) end.

(** [internalSelector.RequiresExactMatch]: only the first requirement on the
    label is looked at. *)
Fixpoint exact_match (l : list Requirement) (label : string) : string * bool :=
  match l with
  | [] => (""%string, false)
  | r :: l =>
      if String.eqb (key r) label then
        match strValues r with
        | [v] => if one_of (operator r) [Op_Equals; Op_DoubleEquals; Op_In] then (v, true) else (""%string, false)
        | _ => (""%string, false)
        end
      else exact_match l label
  end.

Definition RequiresExactMatch (s : Selector) (label : string) : string * bool :=
  match s with nothingSelector => (""%string, false) | internalSelector l => exact_match l label end.

(** [ValidatedSelectorFromSet] *)
Definition ValidatedSelectorFromSet (ls : gmap string string) : Selector + SelError :=
  if (size ls =? 0)%nat then inl (internalSelector [])
  else match fold_left add_label (map_to_list ls) (inl []) with
       | inr e => inr e
       | inl requirements => inl (internalSelector (merge_sort ByKey requirements))
       end.

(** ** The lexer *)

Inductive Token :=
| ErrorToken | EndOfStringToken | ClosedParToken | CommaToken | DoesNotExistToken | DoubleEqualsToken | EqualsToken
| GreaterThanToken | IdentifierToken | InToken | LessThanToken | NotEqualsToken | NotInToken | OpenParToken.

#[export] Instance Token_eq_dec : EqDecision Token.
Proof. solve_decision. Defined.

Definition token_table : list (string * Token) :=
  [(")", ClosedParToken); (",", CommaToken); ("!", DoesNotExistToken); ("==", DoubleEqualsToken); ("=", EqualsToken);
   (">", GreaterThanToken); ("in", InToken); ("<", LessThanToken); ("!=", NotEqualsToken); ("notin", NotInToken);
   ("(", OpenParToken)]%string.

Definition string2token (s : string) : option Token :=
  first_some (fun e => if String.eqb s e.1 then Some e.2 else None) token_table.

Record ScannedItem := mkItem { tok : Token; literal : string }.

Definition nul : ascii := ascii_of_nat 0.
Definition isWhitespace (c : ascii) : bool :=
  let n := nat_of_ascii c in (n =? 32)%nat || (n =? 9)%nat || (n =? 13)%nat || (n =? 10)%nat.
Definition isSpecialSymbol (c : ascii) : bool := str_mem c "=!(),><".

(** The characters of an identifier, and the rest; a zero byte ends it and is
    consumed. *)
Fixpoint scan_id (s : string) : string * string :=
  match s with
  | EmptyString => (""%string, ""%string)
  | String c s' =>
      if Ascii.eqb c nul then (""%string, s')
      else if isSpecialSymbol c || isWhitespace c then (""%string, s)
      else let '(b, r) := scan_id s' in (String c b, r)
  end.

Definition scanIDOrKeyword (s : string) : ScannedItem * string :=
  let '(b, r) := scan_id s in (mkItem (default IdentifierToken (string2token b)) b, r).

(** The loop of [scanSpecialSymbol]: the symbols read, and the last token
    they made. *)
Fixpoint scan_special (buffer : string) (last : ScannedItem) (s : string) : string * ScannedItem * string :=
  match s with
  | EmptyString => (buffer, last, ""%string)
  | String c s' =>
      if Ascii.eqb c nul then (buffer, last, s')
      else if isSpecialSymbol c then
        let buffer := str_app buffer (String c "") in
        match string2token buffer with
        | Some t => scan_special buffer (mkItem t buffer) s'
        | None => if bool_decide (tok last = ErrorToken) then scan_special buffer last s' else (buffer, last, s)
        end
      else (buffer, last, s)
  end.

Definition scanSpecialSymbol (s : string) : ScannedItem * string :=
  let '(buffer, last, r) := scan_special "" (mkItem ErrorToken "") s in
  (if bool_decide (tok last = ErrorToken)
   then mkItem ErrorToken (str_app "error expected: keyword found '" (str_app buffer "'")) else last, r).

Fixpoint skipWhiteSpaces (s : string) : string :=
  match s with String c s' => if isWhitespace c then skipWhiteSpaces s' else s | EmptyString => s end.

Definition Lex (s : string) : ScannedItem * string :=
  match skipWhiteSpaces s with
  | EmptyString => (mkItem EndOfStringToken "", ""%string)
  | String c s' =>
      if Ascii.eqb c nul then (mkItem EndOfStringToken "", s')
      else if isSpecialSymbol c then scanSpecialSymbol (String c s')
      else scanIDOrKeyword (String c s')
  end.

(** [scan]: every token takes a character, so that the length is enough
    fuel. *)
Fixpoint scan (fuel : nat) (s : string) : list ScannedItem :=
  match fuel with
  | O => []
  | S f =>
      let '(item, r) := Lex s in
      if bool_decide (tok item = EndOfStringToken) then [item] else item :: scan f r
  end.

(** ** The parser *)

(** Errors by what they complain about. *)
Inductive ParseError := Unexpected (found expected : string) | InvalidRequirement (l : list ReqError).

Definition value_token (i : ScannedItem) : Token :=
  match tok i with InToken | NotInToken => IdentifierToken | t => t end.

Definition consume (items : list ScannedItem) : outcome (ScannedItem * list ScannedItem) :=
  match items with [] => Panic "index out of range" | i :: r => Ret (i, r) end.
Definition lookahead (items : list ScannedItem) : outcome ScannedItem :=
  let! r := consume items in Ret r.1.

(** [NewRequirement] for the parser. *)
Definition requirement (k op : string) (vals : list string) : Requirement + ParseError :=
  match NewRequirement k op vals with (r, []) => inl r | (_, es) => inr (InvalidRequirement es) end.

Definition ends_requirement (t : Token) : bool := bool_decide (t = EndOfStringToken) || bool_decide (t = CommaToken).

(** The operator is empty when an operator has to follow. *)
Definition parseKeyAndInferOperator (items : list ScannedItem)
  : outcome ((string * string * list ScannedItem) + ParseError) :=
  let! r := consume items in
  let '(i, items) := r in
  let! r := if bool_decide (value_token i = DoesNotExistToken)
            then let! r := consume items in Ret (Op_DoesNotExist, r.1, r.2) else Ret (""%string, i, items) in
  let '(op, i, items) := r in
  if negb (bool_decide (value_token i = IdentifierToken)) then Ret (inr (Unexpected (literal i) "identifier"))
  else if negb (IsQualifiedName (literal i)) then Ret (inr (InvalidRequirement [InvalidKey]))
  else
    let! next := lookahead items in
    let op := if ends_requirement (value_token next) && negb (String.eqb op Op_DoesNotExist) then Op_Exists else op in
    Ret (inl (literal i, op, items)).

Definition token_op (t : Token) : option string :=
  match t with
  | InToken => Some Op_In
  | EqualsToken => Some Op_Equals
  | DoubleEqualsToken => Some Op_DoubleEquals
  | GreaterThanToken => Some Op_GreaterThan
  | LessThanToken => Some Op_LessThan
  | NotInToken => Some Op_NotIn
  | NotEqualsToken => Some Op_NotEquals
  | _ => None
  end.

Definition parseOperator (items : list ScannedItem) : outcome ((string * list ScannedItem) + ParseError) :=
  let! r := consume items in
  Ret (match token_op (tok r.1) with
       | Some op => inl (op, r.2)
       | None => inr (Unexpected (literal r.1) "an operator")
       end).

Fixpoint parseIdentifiersList (s : gset string) (items : list ScannedItem)
  : outcome ((gset string * list ScannedItem) + ParseError) :=
  match items with
  | [] => Panic "index out of range"
  | i :: items =>
      match value_token i with
      | IdentifierToken =>
          let s := {[literal i]} ∪ s in
          match items with
          | [] => Panic "index out of range"
          | i2 :: _ =>
              match value_token i2 with
              | CommaToken => parseIdentifiersList s items
              | ClosedParToken => Ret (inl (s, items))
              | _ => Ret (inr (Unexpected (literal i2) "',' or ')'"))
              end
          end
      | CommaToken =>
          let s := if (size s =? 0)%nat then {[""%string]} ∪ s else s in
          match items with
          | [] => Panic "index out of range"
          | i2 :: items2 =>
              match value_token i2 with
              | ClosedParToken => Ret (inl ({[""%string]} ∪ s, items))
              | CommaToken => parseIdentifiersList ({[""%string]} ∪ s) items2
              | _ => parseIdentifiersList s items
              end
          end
      | _ => Ret (inr (Unexpected (literal i) "',', or identifier"))
      end
  end.

Definition parseValues (items : list ScannedItem) : outcome ((gset string * list ScannedItem) + ParseError) :=
  let! r := consume items in
  let '(i, items) := r in
  if negb (bool_decide (value_token i = OpenParToken)) then Ret (inr (Unexpected (literal i) "'('"))
  else
    let! i := lookahead items in
    match value_token i with
    | IdentifierToken | CommaToken =>
        let! r := parseIdentifiersList ∅ items in
        match r with
        | inr e => Ret (inr e)
        | inl (s, items) =>
            let! r := consume items in
            Ret (if bool_decide (value_token r.1 = ClosedParToken) then inl (s, r.2)
                 else inr (Unexpected (literal i) "')'"))
        end
    | ClosedParToken => let! r := consume items in Ret (inl ({[""%string]}, r.2))
    | _ => Ret (inr (Unexpected (literal i) "',', ')' or identifier"))
    end.

Definition parseExactValue (items : list ScannedItem) : outcome ((gset string * list ScannedItem) + ParseError) :=
  let! i := lookahead items in
  if ends_requirement (value_token i) then Ret (inl ({[""%string]}, items))
  else
    let! r := consume items in
    Ret (if bool_decide (value_token r.1 = IdentifierToken) then inl ({[literal r.1]}, r.2)
         else inr (Unexpected (literal r.1) "identifier")).

(** [sets.String.List] *)
Definition set_List (s : gset string) : list string := merge_sort string_le (elements s).

Definition parseRequirement (items : list ScannedItem) : outcome ((Requirement * list ScannedItem) + ParseError) :=
  let! r := parseKeyAndInferOperator items in
  match r with
  | inr e => Ret (inr e)
  | inl (k, op, items) =>
      if one_of op [Op_Exists; Op_DoesNotExist] then
        Ret (match requirement k op [] with inl r => inl (r, items) | inr e => inr e end)
      else
        let! r := parseOperator items in
        match r with
        | inr e => Ret (inr e)
        | inl (op, items) =>
            let! r := if one_of op [Op_In; Op_NotIn] then parseValues items else parseExactValue items in
            match r with
            | inr e => Ret (inr e)
            | inl (s, items) =>
                Ret (match requirement k op (set_List s) with inl r => inl (r, items) | inr e => inr e end)
            end
        end
  end.

(** The loop of [parse]; every requirement takes a token. *)
Fixpoint parse_loop (fuel : nat) (items : list ScannedItem) (reqs : list Requirement)
  : outcome (list Requirement + ParseError) :=
  match fuel with
  | O => Panic "out of fuel"
  | S f =>
      let! i := lookahead items in
      match value_token i with
      | IdentifierToken | DoesNotExistToken =>
          let! r := parseRequirement items in
          match r with
          | inr e => Ret (inr e)
          | inl (r, items) =>
              let reqs := reqs ++ [r] in
              let! c := consume items in
              match value_token c.1 with
              | EndOfStringToken => Ret (inl reqs)
              | CommaToken =>
                  let! i2 := lookahead c.2 in
                  match value_token i2 with
                  | IdentifierToken | DoesNotExistToken => parse_loop f c.2 reqs
                  | _ => Ret (inr (Unexpected (literal i2) "identifier after ','"))
                  end
              | _ => Ret (inr (Unexpected (literal c.1) "',' or 'end of string'"))
              end
          end
      | EndOfStringToken => Ret (inl reqs)
      | _ => Ret (inr (Unexpected (literal i) "!, identifier, or 'end of string'"))
      end
  end.

(** [parse], the body of [Parse] and of [ParseToRequirements] *)
Definition ParseToRequirements (selector : string) : outcome (list Requirement + ParseError) :=
  let items := scan (S (String.length selector)) selector in
  let! r := parse_loop (length items) items [] in
  Ret (match r with inl reqs => inl (merge_sort ByKey reqs) | inr e => inr e end).

Definition Parse (selector : string) : outcome (Selector + ParseError) :=
  let! r := ParseToRequirements selector in
  Ret (match r with inl reqs => inl (internalSelector reqs) | inr e => inr e end).

Example Parse_ex :
  Parse "x in (foo,,baz),y,z notin ()" =
    Ret (inl (internalSelector [mkRequirement "x" Op_In [""; "baz"; "foo"]; mkRequirement "y" Op_Exists [];
                                mkRequirement "z" Op_NotIn [""]]%string)).
Proof. vm_compute. reflexivity. Qed.
