(* ===== verification/LabelRoundTrip.v ===== *)
(** * Reading and printing label selectors

    The parser answers every text, and reads back what the printer writes. *)

From S2P Require Import Prelude GoInt GoFloat GoStrconv Quantity ApiTypes Labels LabelParser.

Local Open Scope go_scope.

(** ** The lexer makes progress *)

Lemma scan_id_le s : (String.length (scan_id s).2 <= String.length s)%nat.
Proof.
  induction s as [|c s IH]; cbn [scan_id]; [done|]. destruct (Ascii.eqb c nul); [cbn; lia|].
  destruct (_ || _); [done|]. destruct (scan_id s). cbn in *. lia.
Qed.

Lemma scan_special_le b last s : (String.length (scan_special b last s).2 <= String.length s)%nat.
Proof.
  revert b last. induction s as [|c s IH]; intros b last; cbn [scan_special]; [done|].
  destruct (Ascii.eqb c nul); [cbn; lia|]. destruct (isSpecialSymbol c); [|done].
  destruct (string2token _) as [t|]; [etransitivity; [apply IH|cbn; lia]|].
  case_bool_decide; [etransitivity; [apply IH|cbn; lia]|done].
Qed.

Lemma string2token_tokens s t : string2token s = Some t -> t ∈ map snd token_table.
Proof.
  unfold string2token. induction token_table as [|e l IH]; cbn [first_some map]; [done|].
  destruct (String.eqb s e.1); [intros [= <-]; by left|]. intros H. right. by apply IH.
Qed.

Lemma string2token_not_end s : string2token s <> Some EndOfStringToken.
Proof. intros H%string2token_tokens%(bool_decide_eq_true_2 _). by vm_compute in H. Qed.

Lemma scan_special_token b last s :
  tok last <> EndOfStringToken -> tok (scan_special b last s).1.2 <> EndOfStringToken.
Proof.
  revert b last. induction s as [|c s IH]; intros b last Hl; cbn [scan_special]; [done|].
  destruct (Ascii.eqb c nul); [done|]. destruct (isSpecialSymbol c); [|done].
  destruct (string2token _) as [t|] eqn:E; [|case_bool_decide; [by apply IH|done]].
  apply IH. cbn. intros ->. by apply string2token_not_end in E.
Qed.

Lemma special_chars c : isSpecialSymbol c = true -> c ∈ ["="; "!"; "("; ")"; ","; ">"; "<"]%char.
Proof.
  unfold isSpecialSymbol. cbn [str_mem]. intros H.
  repeat (apply orb_true_iff in H as [->%Ascii.eqb_eq|H]; [set_solver|]). done.
Qed.

(** Every symbol is a token, so that the symbol scanner takes one at least. *)
Lemma Lex_progress s i r :
  Lex s = (i, r) -> tok i <> EndOfStringToken -> (String.length r < String.length s)%nat.
Proof.
  unfold Lex.
  assert (String.length (skipWhiteSpaces s) <= String.length s)%nat as Hs.
  { clear. induction s as [|c s IH]; cbn; [done|]. destruct (isWhitespace c); cbn; lia. }
  destruct (skipWhiteSpaces s) as [|c s'] eqn:Es; [by intros [= <- <-]|].
  destruct (Ascii.eqb c nul) eqn:En; [by intros [= <- <-]|].
  destruct (isSpecialSymbol c) eqn:Ec.
  - unfold scanSpecialSymbol. cbn [scan_special]. rewrite En, Ec. intros H _.
    assert (exists t, string2token (str_app "" (String c "")) = Some t) as [t Ht].
    { apply special_chars in Ec. rewrite !elem_of_cons, elem_of_nil in Ec.
      destruct Ec as [->|[->|[->|[->|[->|[->|[->|[]]]]]]]]; by eexists. }
    rewrite Ht in H. pose proof (scan_special_le (str_app "" (String c "")) (mkItem t (str_app "" (String c ""))) s') as Hle.
    destruct (scan_special _ _ s') as [[b l] r']. cbn in *. injection H as _ <-. lia.
  - unfold scanIDOrKeyword. cbn [scan_id]. rewrite En, Ec. cbn [orb].
    destruct (isWhitespace c) eqn:Ew.
    { exfalso. clear -Es Ew. revert Es. induction s as [|d s IH]; cbn; [done|].
      destruct (isWhitespace d) eqn:E; [done|]. intros [= -> ->]. congruence. }
    pose proof (scan_id_le s') as Hle. destruct (scan_id s') as [b r']. intros [= _ <-] _. cbn in *. lia.
Qed.

(** ** Scanned lists end with the end of the text, and only there *)

Inductive scanned : list ScannedItem -> Prop :=
| scanned_end i : tok i = EndOfStringToken -> scanned [i]
| scanned_cons i l : tok i <> EndOfStringToken -> scanned l -> scanned (i :: l).

Lemma scan_scanned f s : (String.length s < f)%nat -> scanned (scan f s).
Proof.
  revert s. induction f as [|f IH]; intros s Hf; [lia|]. cbn [scan]. destruct (Lex s) as [i r] eqn:E.
  case_bool_decide as Hi; [by constructor|]. constructor; [done|]. apply IH.
  pose proof (Lex_progress _ _ _ E Hi). lia.
Qed.

(** Reading one item of a scanned list. *)
Lemma scanned_case l :
  scanned l -> exists i r, l = i :: r /\
    (tok i = EndOfStringToken /\ r = [] \/ value_token i <> EndOfStringToken /\ scanned r).
Proof.
  destruct 1 as [i Hi|i r Hi Hr]; [exists i, []; by eauto|]. exists i, r. split; [done|]. right. split; [|done].
  unfold value_token. by destruct (tok i).
Qed.

Lemma value_token_end i : tok i = EndOfStringToken -> value_token i = EndOfStringToken.
Proof. unfold value_token. by intros ->. Qed.

(** A parser that answers, and leaves a scanned list. *)
Definition answers {A} (n : nat) (r : outcome ((A * list ScannedItem) + ParseError)) : Prop :=
  exists x, r = Ret x /\ match x with inl (_, l) => scanned l /\ (length l < n)%nat | inr _ => True end.

Lemma answers_err {A} n e : @answers A n (Ret (inr e)).
Proof. by eexists. Qed.

Lemma answers_ok {A} n (a : A) l : scanned l -> (length l < n)%nat -> answers n (Ret (inl (a, l))).
Proof. intros. by eexists. Qed.

Lemma key_answers l : scanned l -> answers (length l) (parseKeyAndInferOperator l).
Proof.
  intros (i & r & -> & Hi)%scanned_case. unfold parseKeyAndInferOperator. cbn [consume obind].
  assert (forall op i r, tok i = EndOfStringToken /\ r = [] \/ value_token i <> EndOfStringToken /\ scanned r ->
    forall n, (length r < n)%nat ->
    answers n (if negb (bool_decide (value_token i = IdentifierToken)) then Ret (inr (Unexpected (literal i) "identifier"))
      else if negb (IsQualifiedName (literal i)) then Ret (inr (InvalidRequirement [InvalidKey]))
      else let! next := lookahead r in
        Ret (inl (literal i, if ends_requirement (value_token next) && negb (String.eqb op Op_DoesNotExist) then Op_Exists else op, r)))) as Hkey.
  { clear. intros op i r Hi n Hn. case_bool_decide as Hid; cbn [negb]; [|apply answers_err].
    destruct Hi as [[He ->]|[_ Hr]]; [by rewrite (value_token_end _ He) in Hid|].
    destruct (IsQualifiedName _); cbn [negb]; [|apply answers_err].
    destruct (scanned_case _ Hr) as (j & r' & -> & _). cbn [lookahead consume obind]. by apply answers_ok. }
  case_bool_decide as Hd.
  - destruct Hi as [[He ->]|[_ Hr]]; [by rewrite (value_token_end _ He) in Hd|].
    destruct (scanned_case _ Hr) as (j & r' & -> & Hj). cbn [consume obind fst snd]. apply (Hkey Op_DoesNotExist j r' Hj). cbn. lia.
  - cbn [obind]. apply (Hkey ""%string i r Hi). cbn. lia.
Qed.

Lemma operator_answers l : scanned l -> answers (length l) (parseOperator l).
Proof.
  intros (i & r & -> & Hi)%scanned_case. unfold parseOperator. cbn [consume obind fst snd].
  destruct (token_op (tok i)) as [op|] eqn:Eop; [|apply answers_err].
  destruct Hi as [[He _]|[_ Hr]]; [by rewrite He in Eop|]. apply answers_ok; [done|cbn; lia].
Qed.

Lemma identifiers_answer n s l : (length l <= n)%nat -> scanned l -> answers (S (length l)) (parseIdentifiersList s l).
Proof.
  revert s l. induction n as [|n IH]; intros s l Hn Hl; destruct (scanned_case _ Hl) as (i & r & -> & Hi); cbn in Hn; [lia|].
  cbn [parseIdentifiersList]. destruct Hi as [[He ->]|[Hi Hr]].
  { rewrite (value_token_end _ He). apply answers_err. }
  assert (forall s l, (length l <= length r)%nat -> scanned l -> answers (S (length (i :: r))) (parseIdentifiersList s l)) as Hrec.
  { intros s' l' Hlen Hl'. destruct (IH s' l') as (x & Hx & Hok); [lia|done|]. exists x. split; [done|].
    destruct x as [[? ?]|]; [|done]. cbn. destruct Hok. split; [done|]. lia. }
  destruct (value_token i); try apply answers_err; destruct (scanned_case _ Hr) as (j & r' & -> & Hj).
  - (* a comma *) destruct Hj as [[He ->]|[Hj Hr']].
    { rewrite (value_token_end _ He). by apply Hrec. }
    destruct (value_token j); try (by apply Hrec); [by apply answers_ok; [done|cbn; lia]|].
    apply Hrec; [cbn; lia|done].
  - (* an identifier *) destruct (value_token j); try apply answers_err; [apply answers_ok; [done|cbn; lia]|by apply Hrec].
Qed.

Lemma values_answer l : scanned l -> answers (length l) (parseValues l).
Proof.
  intros (i & r & -> & Hi)%scanned_case. unfold parseValues. cbn [consume obind].
  case_bool_decide as Ho; cbn [negb]; [|apply answers_err].
  destruct Hi as [[He ->]|[_ Hr]]; [by rewrite (value_token_end _ He) in Ho|].
  assert (forall j, answers (length (i :: r)) (let! x := parseIdentifiersList ∅ r in
    match x with
    | inr e => Ret (inr e)
    | inl (s, items) => let! c := consume items in
        Ret (if bool_decide (value_token c.1 = ClosedParToken) then inl (s, c.2) else inr (Unexpected (literal j) "')'"))
    end)) as Hlist.
  { intros j. destruct (identifiers_answer (length r) ∅ r) as (x & -> & Hx); [done|done|]. cbn [obind].
    destruct x as [[s l]|e]; [|apply answers_err]. destruct Hx as [Hl Hlen].
    destruct (scanned_case _ Hl) as (k & r' & -> & Hk). cbn [consume obind fst snd]. case_bool_decide as Hc; [|apply answers_err].
    destruct Hk as [[He _]|[_ Hr']]; [by rewrite (value_token_end _ He) in Hc|]. apply answers_ok; [done|]. cbn in *. lia. }
  destruct (scanned_case _ Hr) as (j & r' & -> & Hj). cbn [lookahead consume obind fst snd].
  destruct (value_token j) eqn:Ej; try apply answers_err; [|apply Hlist|apply Hlist].
  destruct Hj as [[He _]|[_ Hr']]; [by rewrite (value_token_end _ He) in Ej|]. apply answers_ok; [done|cbn; lia].
Qed.

Lemma exact_answers l : scanned l -> answers (S (length l)) (parseExactValue l).
Proof.
  intros Hl. destruct (scanned_case _ Hl) as (i & r & -> & Hi). unfold parseExactValue. cbn [lookahead consume obind fst snd].
  destruct (ends_requirement _); [apply answers_ok; [done|cbn; lia]|].
  case_bool_decide as Hd; [|apply answers_err].
  destruct Hi as [[He _]|[_ Hr]]; [by rewrite (value_token_end _ He) in Hd|]. apply answers_ok; [done|cbn; lia].
Qed.

Lemma requirement_answers l : scanned l -> answers (length l) (parseRequirement l).
Proof.
  intros Hl. unfold parseRequirement. destruct (key_answers l Hl) as (x & -> & Hx). cbn [obind].
  destruct x as [[[k op] l1]|e]; [|apply answers_err]. destruct Hx as [Hl1 Hlen1].
  destruct (one_of op _).
  { destruct (requirement _ _ _); [by apply answers_ok|apply answers_err]. }
  destruct (operator_answers l1 Hl1) as (x & -> & Hx). cbn [obind].
  destruct x as [[op' l2]|e]; [|apply answers_err]. destruct Hx as [Hl2 Hlen2].
  assert (answers (S (length l2)) (if one_of op' [Op_In; Op_NotIn] then parseValues l2 else parseExactValue l2)) as (x & -> & Hx).
  { destruct (one_of op' _); [|by apply exact_answers]. destruct (values_answer l2 Hl2) as (x & Hx & Hok). exists x. split; [done|].
    destruct x as [[? ?]|]; [|done]. destruct Hok. split; [done|lia]. }
  cbn [obind]. destruct x as [[s l3]|e]; [|apply answers_err]. destruct Hx as [Hl3 Hlen3].
  destruct (requirement _ _ _); [apply answers_ok; [done|lia]|apply answers_err].
Qed.

Lemma parse_loop_answers f l reqs : (length l <= f)%nat -> scanned l -> exists r, parse_loop f l reqs = Ret r.
Proof.
  revert l reqs. induction f as [|f IH]; intros l reqs Hf Hl; destruct (scanned_case _ Hl) as (i & r & -> & Hi); cbn in Hf; [lia|].
  cbn [parse_loop lookahead consume obind fst snd].
  assert (exists x, (let! x := parseRequirement (i :: r) in
    match x with
    | inr e => Ret (inr e)
    | inl (r, items) => let! c := consume items in
        match value_token c.1 with
        | EndOfStringToken => Ret (inl (reqs ++ [r]))
        | CommaToken => let! i2 := lookahead c.2 in
            match value_token i2 with
            | IdentifierToken | DoesNotExistToken => parse_loop f c.2 (reqs ++ [r])
            | _ => Ret (inr (Unexpected (literal i2) "identifier after ','"))
            end
        | _ => Ret (inr (Unexpected (literal c.1) "',' or 'end of string'"))
        end
    end) = Ret x) as Hone.
  { destruct (requirement_answers (i :: r) Hl) as (x & -> & Hx). cbn [obind]. destruct x as [[q l1]|e]; [|by eexists].
    destruct Hx as [Hl1 Hlen]. destruct (scanned_case _ Hl1) as (j & r1 & -> & Hj). cbn [consume obind fst snd].
    destruct (value_token j) eqn:Ej; try (by eexists).
    destruct Hj as [[He _]|[_ Hr1]]; [by rewrite (value_token_end _ He) in Ej|].
    destruct (scanned_case _ Hr1) as (k & r2 & -> & Hk). cbn [lookahead consume obind fst snd].
    destruct (value_token k); try (by eexists); (apply IH; [cbn in *; lia|done]). }
  destruct (value_token i); try (by eexists); exact Hone.
Qed.

(** The parser answers every text, with a selector or an error: it never
    runs past the tokens, and the loops end. *)
Theorem Parse_total selector : exists r, Parse selector = Ret r.
Proof.
  unfold Parse, ParseToRequirements. set (items := scan _ _).
  destruct (parse_loop_answers (length items) items []) as [r ->]; [done|apply scan_scanned; lia|]. by eexists.
Qed.

(** ** Reading what was printed *)

(** [lexes s items r]: the lexer reads [items] off [s] and then is at [r]. *)
Inductive lexes : string -> list ScannedItem -> string -> Prop :=
| lexes_nil s : lexes s [] s
| lexes_cons s i s1 items r : Lex s = (i, s1) -> tok i <> EndOfStringToken -> lexes s1 items r -> lexes s (i :: items) r.

Lemma lexes_app s items s1 items1 r : lexes s items s1 -> lexes s1 items1 r -> lexes s (items ++ items1) r.
Proof. induction 1; intros; [done|]. cbn. by econstructor; [..|apply IHlexes]. Qed.

Lemma lexes_one s i r : Lex s = (i, r) -> tok i <> EndOfStringToken -> lexes s [i] r.
Proof. intros. econstructor; [done|done|constructor]. Qed.

Definition the_end : ScannedItem := mkItem EndOfStringToken "".

Lemma lexes_scan s items f : lexes s items "" -> (String.length s < f)%nat -> scan f s = items ++ [the_end].
Proof.
  intros H. remember ""%string as e eqn:He. revert f. induction H as [s|s i s1 items r HL Hi _ IH]; intros f Hf;
    (destruct f as [|f]; [lia|]); cbn [scan].
  - subst. done.
  - rewrite HL, bool_decide_eq_false_2 by done. cbn [app]. f_equal. apply IH; [done|].
    pose proof (Lex_progress _ _ _ HL Hi). lia.
Qed.

(** Characters of keys and values. *)
Definition plain (c : ascii) : bool := qnameExtChar c || Ascii.eqb c "/".
Definition word (w : string) : Prop := w <> ""%string /\ str_forall plain w = true.

Definition all_chars : list ascii := map ascii_of_nat (seq 0 256).

Lemma elem_all_chars c : c ∈ all_chars.
Proof.
  unfold all_chars. apply list_elem_of_fmap. exists (nat_of_ascii c). split; [by rewrite ascii_nat_embedding|].
  apply elem_of_seq. pose proof (nat_ascii_bounded c). lia.
Qed.

Lemma char_check (P : ascii -> bool) : forallb P all_chars = true -> forall c, P c = true.
Proof. intros H c. apply (proj1 (forallb_forall _ _) H), list_elem_of_In, elem_all_chars. Qed.

Lemma plain_char c : plain c = true -> Ascii.eqb c nul = false /\ isSpecialSymbol c = false /\ isWhitespace c = false.
Proof.
  intros Hc. pose proof (char_check (fun c => negb (plain c) || (negb (Ascii.eqb c nul) && negb (isSpecialSymbol c) && negb (isWhitespace c)))
    ltac:(vm_compute; reflexivity) c) as H. cbn beta in H. rewrite Hc in H. cbn [negb orb] in H.
  apply andb_true_iff in H as [[H1 H2]%andb_true_iff H3]. by rewrite !negb_true_iff in *.
Qed.

(** What follows a word: nothing, a symbol or a space. *)
Definition stops (r : string) : Prop :=
  match r with EmptyString => True | String c _ => Ascii.eqb c nul = false /\ isSpecialSymbol c || isWhitespace c = true end.

Lemma scan_id_word w r : str_forall plain w = true -> stops r -> scan_id (str_app w r) = (w, r).
Proof.
  induction w as [|c w IH]; cbn [str_app str_forall].
  - intros _ Hr. destruct r as [|d r]; [done|]. cbn [scan_id]. destruct Hr as [-> ->]. done.
  - intros [Hc Hw]%andb_true_iff Hr. cbn [scan_id]. destruct (plain_char c Hc) as (-> & -> & ->). cbn [orb]. by rewrite IH.
Qed.

Definition word_item (w : string) : ScannedItem := mkItem (default IdentifierToken (string2token w)) w.

Lemma Lex_word w r : word w -> stops r -> Lex (str_app w r) = (word_item w, r).
Proof.
  intros [Hne Hw] Hr. destruct w as [|c w]; [done|]. cbn [str_forall] in Hw. apply andb_true_iff in Hw as [Hc Hw].
  destruct (plain_char c Hc) as (Hn & Hs & Hws). unfold Lex. cbn [str_app skipWhiteSpaces]. rewrite Hws, Hn, Hs.
  unfold scanIDOrKeyword. change (String c (str_app w r)) with (str_app (String c w) r).
  rewrite scan_id_word; [done| |done]. cbn [str_forall]. by rewrite Hc.
Qed.

Lemma word_token w : word w -> value_token (word_item w) = IdentifierToken.
Proof.
  intros [Hne Hw]. unfold value_token, word_item, string2token, token_table. cbn [tok first_some fst snd].
  repeat (match goal with |- context [String.eqb w ?s] => destruct (String.eqb_spec w s) as [-> |_]; [done|] end). done.
Qed.

Lemma word_not_end w : word w -> tok (word_item w) <> EndOfStringToken.
Proof. intros Hw H. pose proof (word_token w Hw) as E. unfold value_token in E. by rewrite H in E. Qed.

(** A symbol is read alone, unless the next character makes it longer. *)
Lemma scan_special_stop sym t r :
  t <> ErrorToken ->
  match r with
  | EmptyString => True
  | String c _ => Ascii.eqb c nul = false /\ (isSpecialSymbol c = true -> string2token (str_app sym (String c "")) = None)
  end ->
  exists b, scan_special sym (mkItem t sym) r = (b, mkItem t sym, r).
Proof.
  intros Ht Hr. destruct r as [|c r]; [by eexists|]. destruct Hr as [Hn Hs]. cbn [scan_special]. rewrite Hn.
  destruct (isSpecialSymbol c); [|by eexists]. rewrite Hs by done. rewrite bool_decide_eq_false_2 by done. by eexists.
Qed.

Lemma Lex_symbol sym t r :
  string2token sym = Some t -> sym ∈ [","; "("; ")"; ">"; "<"; "!="; "=="; "="; "!"]%string ->
  match r with
  | EmptyString => True
  | String c _ => Ascii.eqb c nul = false /\ (sym ∈ ["="; "!"]%string -> c <> "="%char)
  end ->
  Lex (str_app sym r) = (mkItem t sym, r).
Proof.
  intros Ht Hsym Hr.
  assert (t <> ErrorToken) as Hte.
  { intros ->. apply string2token_tokens, (bool_decide_eq_true_2 _) in Ht. by vm_compute in Ht. }
  destruct (scan_special_stop sym t r Hte) as [b Hb].
  { destruct r as [|c r]; [done|]. destruct Hr as [Hn Heq]. split; [done|]. intros Ec%special_chars.
    rewrite !elem_of_cons, elem_of_nil in Ec. rewrite !elem_of_cons, elem_of_nil in Hsym.
    destruct Ec as [->|[->|[->|[->|[->|[->|[->|[]]]]]]]];
      destruct Hsym as [->|[->|[->|[->|[->|[->|[->|[->|[->|[]]]]]]]]]]; try reflexivity;
      exfalso; apply Heq; set_solver. }
  assert (Lex (str_app sym r) = (let '(buffer, last, r) := scan_special sym (mkItem t sym) r in
    (if bool_decide (tok last = ErrorToken)
     then mkItem ErrorToken (str_app "error expected: keyword found '" (str_app buffer "'")) else last, r))) as ->.
  { rewrite !elem_of_cons, elem_of_nil in Hsym.
    destruct Hsym as [->|[->|[->|[->|[->|[->|[->|[->|[->|[]]]]]]]]]]; injection Ht as <-; reflexivity. }
  rewrite Hb. cbn [tok]. by rewrite bool_decide_eq_false_2.
Qed.

Lemma Lex_space s : Lex (String " " s) = Lex s.
Proof. reflexivity. Qed.

(** ** Keys and values are words *)

Lemma str_forall_impl (p q : ascii -> bool) s :
  (forall c, p c = true -> q c = true) -> str_forall p s = true -> str_forall q s = true.
Proof.
  intros Hpq. induction s as [|c s IH]; cbn; [done|]. intros [Hc Hs]%andb_true_iff. by rewrite (Hpq c Hc), IH.
Qed.

Lemma str_split_forall sep p s :
  p sep = true -> Forall (fun w => str_forall p w = true) (str_split sep s) -> str_forall p s = true.
Proof.
  intros Hsep. induction s as [|c s IH]; cbn [str_split str_forall]; [done|].
  destruct (Ascii.eqb_spec c sep) as [-> |Hne].
  - intros [_ H]%Forall_cons. by rewrite Hsep, IH.
  - destruct (str_split sep s) as [|w ws] eqn:E.
    + intros [H _]%Forall_cons. cbn in H. rewrite andb_true_r in H. rewrite H. by apply IH.
    + intros [[Hc Hw]%andb_true_iff H]%Forall_cons. rewrite Hc. apply IH. by constructor.
Qed.

Lemma bracketed_forall ends mid s : bracketed ends mid s = true -> s <> ""%string /\ str_forall mid s = true.
Proof. unfold bracketed. destruct s; [done|]. by intros [_ ?]%andb_true_iff. Qed.

Lemma label_name_word s : qualifiedNameRegexp s = true -> word s.
Proof.
  intros [Hne Hs]%bracketed_forall. split; [done|]. eapply str_forall_impl; [|exact Hs].
  intros c Hc. unfold plain. by rewrite Hc.
Qed.

Lemma value_word v : IsValidLabelValue v = true -> v = ""%string \/ word v.
Proof.
  unfold IsValidLabelValue. intros [_ H]%andb_true_iff. apply orb_true_iff in H as [H|H]; [left; by destruct v|right].
  by apply label_name_word.
Qed.

Lemma subdomain_chars s : dns1123SubdomainRegexp s = true -> str_forall plain s = true.
Proof.
  unfold dns1123SubdomainRegexp. intros H. apply (str_split_forall "."); [done|]. apply Forall_forall. intros w Hw.
  rewrite forallb_forall in H. apply list_elem_of_In, H, bracketed_forall in Hw as [_ Hw].
  eapply str_forall_impl; [|exact Hw]. intros c Hc.
  pose proof (char_check (fun c => negb (is_lower c || is_digit c || Ascii.eqb c "-") || plain c)
    ltac:(vm_compute; reflexivity) c) as H'. cbn beta in H'. by rewrite Hc in H'.
Qed.

Lemma key_word k : IsQualifiedName k = true -> word k.
Proof.
  unfold IsQualifiedName. destruct (str_split "/" k) as [|a [|b [|]]] eqn:E; try done.
  - intros [_ [Hne Ha]%label_name_word]%andb_true_iff. split; [by intros ->; cbn in E; injection E as <-|].
    apply (str_split_forall "/"); [done|]. rewrite E. by repeat constructor.
  - intros [[_ Hp]%andb_true_iff [_ [Hne Hb]%label_name_word]%andb_true_iff]%andb_true_iff.
    apply andb_true_iff in Hp as [_ Hp%subdomain_chars]. split; [by intros ->|].
    apply (str_split_forall "/"); [done|]. rewrite E. by repeat constructor.
Qed.

(** ** Printed requirements *)

(** A requirement as [NewRequirement] accepts it, without repeated values. *)
Definition proper (r : Requirement) : Prop :=
  (NewRequirement (key r) (operator r) (strValues r)).2 = [] /\ NoDup (strValues r).

(** The items of a value, which has none if it is empty. *)
Definition value_items (v : string) : list ScannedItem := if String.eqb v "" then [] else [word_item v].
Definition comma : ScannedItem := mkItem CommaToken ",".

Fixpoint joined_items (vs : list string) : list ScannedItem :=
  match vs with
  | [] => []
  | [v] => value_items v
  | v :: vs => value_items v ++ comma :: joined_items vs
  end.

Lemma lexes_value v r : v = ""%string \/ word v -> stops r -> lexes (str_app v r) (value_items v) r.
Proof.
  unfold value_items. intros [-> |Hw] Hr; [constructor|]. destruct (String.eqb_spec v "") as [-> |Hne]; [constructor|].
  apply lexes_one; [by apply Lex_word|by apply word_not_end].
Qed.

Lemma value_head v r : v = ""%string \/ word v -> stops r ->
  match str_app v r with EmptyString => True | String c _ => Ascii.eqb c nul = false end.
Proof.
  intros [-> |[Hne Hw]] Hr; [destruct r; [done|apply Hr]|]. destruct v as [|c v]; [done|]. cbn in Hw |- *.
  apply andb_true_iff in Hw as [Hc _]. apply (plain_char c Hc).
Qed.

Lemma value_head_eq v r : v = ""%string \/ word v -> stops r -> match r with String c _ => c <> "="%char | _ => True end ->
  match str_app v r with EmptyString => True | String c _ => Ascii.eqb c nul = false /\ c <> "="%char end.
Proof.
  intros Hv Hr He. pose proof (value_head v r Hv Hr) as H. destruct Hv as [-> |[Hne Hw]].
  - cbn in *. destruct r; [done|]. by split.
  - destruct v as [|c v]; [done|]. cbn in *. split; [done|]. intros ->. done.
Qed.

Lemma lexes_joined vs r :
  Forall (fun v => v = ""%string \/ word v) vs -> stops r -> lexes (str_app (Join vs ",") r) (joined_items vs) r.
Proof.
  intros Hvs Hr. induction Hvs as [|v vs Hv Hvs IH]; [constructor|]. destruct vs as [|w vs]; [by apply lexes_value|].
  change (Join (v :: w :: vs) ",") with (str_app v (str_app "," (Join (w :: vs) ","))).
  change (joined_items (v :: w :: vs)) with (value_items v ++ comma :: joined_items (w :: vs)).
  rewrite !str_app_assoc. eapply lexes_app; [apply lexes_value; [done|]; by split|].
  econstructor; [apply (Lex_symbol "," CommaToken); [done|set_solver|]|done|exact IH].
  assert (match str_app (Join (w :: vs) ",") r with EmptyString => True | String c _ => Ascii.eqb c nul = false end) as H.
  { apply Forall_cons in Hvs as [Hw _]. destruct vs as [|w' vs]; [by apply value_head|].
    change (Join (w :: w' :: vs) ",") with (str_app w (str_app "," (Join (w' :: vs) ","))). rewrite !str_app_assoc.
    apply value_head; [done|by split]. }
  destruct (str_app (Join (w :: vs) ",") r); [done|]. split; [done|]. set_solver.
Qed.

(** ** Parsing printed values *)

Definition close_par : ScannedItem := mkItem ClosedParToken ")".
Definition open_par : ScannedItem := mkItem OpenParToken "(".

Definition tail_items (vs : list string) : list ScannedItem := flat_map (fun v => comma :: value_items v) vs.

Lemma joined_tail v vs : joined_items (v :: vs) = value_items v ++ tail_items vs.
Proof.
  revert v. induction vs as [|w vs IH]; intros v; [cbn; by rewrite app_nil_r|].
  change (joined_items (v :: w :: vs)) with (value_items v ++ comma :: joined_items (w :: vs)). by rewrite IH.
Qed.

Lemma value_items_word v : word v -> value_items v = [word_item v].
Proof. intros [Hne _]. unfold value_items. by destruct (String.eqb_spec v ""). Qed.

Section identifiers.
Context (rest : list ScannedItem).

(** Values that follow others, and a value with those that follow it. *)
Definition tail_parses (vs : list string) : Prop :=
  forall s, s <> ∅ -> parseIdentifiersList s (tail_items vs ++ close_par :: rest) = Ret (inl (s ∪ list_to_set vs, close_par :: rest)).

Lemma parse_word s v vs :
  word v -> (vs = [] \/ tail_parses vs) ->
  parseIdentifiersList s (word_item v :: tail_items vs ++ close_par :: rest) =
    Ret (inl ({[v]} ∪ s ∪ list_to_set vs, close_par :: rest)).
Proof.
  intros Hv Hvs. cbn [parseIdentifiersList]. rewrite (word_token v Hv). cbn [literal word_item].
  destruct vs as [|w vs].
  - cbn. do 3 f_equal. set_solver.
  - destruct Hvs as [|Hvs]; [done|]. cbn [tail_items flat_map app value_token tok comma]. apply Hvs. set_solver.
Qed.

Definition with_empty (s : gset string) : gset string := if (size s =? 0)%nat then {[""%string]} ∪ s else s.

Lemma parse_comma_word s v l :
  word v -> parseIdentifiersList s (comma :: word_item v :: l) = parseIdentifiersList (with_empty s) (word_item v :: l).
Proof.
  intros Hv.
  change (parseIdentifiersList s (comma :: word_item v :: l)) with
    (match value_token (word_item v) with
     | ClosedParToken => Ret (inl ({[""%string]} ∪ with_empty s, word_item v :: l))
     | CommaToken => parseIdentifiersList ({[""%string]} ∪ with_empty s) l
     | _ => parseIdentifiersList (with_empty s) (word_item v :: l)
     end).
  by rewrite (word_token v Hv).
Qed.

Lemma with_empty_nonempty s : s <> ∅ -> with_empty s = s.
Proof.
  intros Hs. unfold with_empty. destruct (size s =? 0)%nat eqn:E; [|done]. apply Nat.eqb_eq in E.
  apply size_empty_inv in E. exfalso. apply Hs. set_solver.
Qed.

Lemma values_tail n vs :
  (length vs <= n)%nat -> vs <> [] -> Forall (fun v => v = ""%string \/ word v) vs -> NoDup vs -> tail_parses vs.
Proof.
  revert vs. induction n as [|n IH]; intros vs Hn Hne Hvs Hnd s Hs; destruct vs as [|v vs]; cbn in Hn; try done; [lia|].
  apply Forall_cons in Hvs as [Hv Hvs]. apply NoDup_cons in Hnd as [Hni Hnd].
  assert (forall ws, Forall (fun v => v = ""%string \/ word v) ws -> NoDup ws -> (length ws <= n)%nat ->
    ws = [] \/ tail_parses ws) as Hrec.
  { intros ws H1 H2 H3. destruct (decide (ws = [])); [by left|right]. by apply IH. }
  destruct Hv as [-> |Hv].
  - destruct vs as [|w ws].
    { change (Ret (inl ({[""%string]} ∪ with_empty s, close_par :: rest)) =
        Ret (A := _ + ParseError) (inl (s ∪ list_to_set [""%string], close_par :: rest))).
      rewrite with_empty_nonempty by done. do 3 f_equal. set_solver. }
    apply Forall_cons in Hvs as [Hw Hws]. apply NoDup_cons in Hnd as [Hni' Hnd].
    assert (word w) as Hw' by (destruct Hw as [-> |Hw]; [exfalso; apply Hni; by left|done]).
    change (parseIdentifiersList ({[""%string]} ∪ with_empty s) ((value_items w ++ tail_items ws) ++ close_par :: rest) =
      Ret (inl (s ∪ list_to_set (""%string :: w :: ws), close_par :: rest))).
    rewrite with_empty_nonempty, (value_items_word w Hw') by done. cbn [app].
    rewrite parse_word; [|done|apply (Hrec ws); [done|done|cbn in Hn; lia]].
    do 3 f_equal. set_solver.
  - change (parseIdentifiersList s (comma :: (value_items v ++ tail_items vs) ++ close_par :: rest) =
      Ret (inl (s ∪ list_to_set (v :: vs), close_par :: rest))).
    rewrite (value_items_word v Hv). cbn [app]. rewrite parse_comma_word, with_empty_nonempty by done.
    rewrite parse_word; [|done|apply (Hrec vs); [done|done|lia]].
    do 3 f_equal. set_solver.
Qed.

Lemma parse_values vs :
  vs <> [] -> Forall (fun v => v = ""%string \/ word v) vs -> NoDup vs ->
  parseValues (open_par :: joined_items vs ++ close_par :: rest) = Ret (inl (list_to_set vs, rest)).
Proof.
  intros Hne Hvs Hnd. destruct vs as [|v vs]; [done|]. rewrite joined_tail.
  apply Forall_cons in Hvs as [Hv Hvs]. apply NoDup_cons in Hnd as [Hni Hnd].
  assert (vs = [] \/ tail_parses vs) as Htail.
  { destruct (decide (vs = [])); [by left|right]. by eapply values_tail. }
  unfold parseValues. cbn [consume obind value_token tok open_par negb]. rewrite bool_decide_eq_true_2 by done. cbn [negb].
  destruct Hv as [-> |Hv].
  - cbn [value_items String.eqb app]. destruct vs as [|w ws].
    { cbn. do 3 f_equal; set_solver. }
    apply Forall_cons in Hvs as [Hw Hws]. apply NoDup_cons in Hnd as [Hni' Hnd].
    assert (word w) as Hw' by (destruct Hw as [-> |Hw]; [exfalso; apply Hni; by left|done]).
    change (tail_items (w :: ws)) with (comma :: value_items w ++ tail_items ws). rewrite (value_items_word w Hw').
    cbn [app lookahead consume obind fst snd]. change (value_token comma) with CommaToken. cbn iota.
    rewrite parse_comma_word by done. change (with_empty ∅) with ({[""%string]} ∪ (∅ : gset string)).
    rewrite parse_word; [|done|].
    + cbn [obind consume fst snd]. rewrite bool_decide_eq_true_2 by done. do 3 f_equal. set_solver.
    + destruct (decide (ws = [])); [by left|right]. by eapply values_tail.
  - rewrite (value_items_word v Hv). cbn [app lookahead consume obind fst snd]. rewrite (word_token v Hv).
    rewrite parse_word by done. cbn [obind consume fst snd]. rewrite bool_decide_eq_true_2 by done. do 3 f_equal. set_solver.
Qed.
End identifiers.

(** ** Requirements *)

Definition operators : list string :=
  [Op_Equals; Op_DoubleEquals; Op_NotEquals; Op_In; Op_NotIn; Op_GreaterThan; Op_LessThan; Op_Exists; Op_DoesNotExist].

Record parts (r : Requirement) : Prop := {
  p_key : IsQualifiedName (key r) = true;
  p_op : operator r ∈ operators;
  p_errors : op_errors (operator r) (strValues r) = [];
  p_values : Forall (fun v => IsValidLabelValue v = true) (strValues r);
  p_nodup : NoDup (strValues r)
}.

Lemma no_value_errors vals : concat (map validateLabelValue vals) = [] <-> Forall (fun v => IsValidLabelValue v = true) vals.
Proof.
  induction vals as [|v vals IH]; cbn; [done|]. rewrite Forall_cons, <- IH. unfold validateLabelValue at 1.
  destruct (IsValidLabelValue v); cbn; [|by split; [|intros [? _]]]. split; [by split|by intros [_ ?]].
Qed.

Lemma proper_parts r : proper r -> parts r.
Proof.
  intros [He Hnd]. cbn [NewRequirement snd] in He. apply app_eq_nil in He as [H1 He]. apply app_eq_nil in He as [H2 H3].
  split; [..|done|by apply no_value_errors|done].
  - unfold validateLabelKey in H1. by destruct (IsQualifiedName (key r)).
  - unfold op_errors in H2.
    repeat match type of H2 with context [one_of (operator r) ?l] =>
      destruct (one_of (operator r) l) eqn:Eo; [apply one_of_elem in Eo; clear -Eo; unfold operators; set_solver|clear Eo] end.
    done.
Qed.

Lemma requirement_ok k op vals :
  IsQualifiedName k = true -> op_errors op vals = [] -> Forall (fun v => IsValidLabelValue v = true) vals ->
  requirement k op vals = inl (mkRequirement k op vals).
Proof.
  intros Hk Ho Hv. unfold requirement, NewRequirement, validateLabelKey. rewrite Hk, Ho. cbn [app].
  by rewrite (proj2 (no_value_errors vals) Hv).
Qed.

(** What a printed requirement reads back as: the values of a set are sorted. *)
Definition canonical (r : Requirement) : Requirement :=
  mkRequirement (key r) (operator r)
    (if one_of (operator r) [Op_In; Op_NotIn] then set_List (list_to_set (strValues r)) else strValues r).

Lemma elem_of_set_List s v : v ∈ set_List s <-> v ∈ s.
Proof. unfold set_List. by rewrite merge_sort_Permutation, elem_of_elements. Qed.

Definition printed_values (vs : list string) : list string := match vs with [v] => [v] | vs => safeSort vs end.

Lemma printed_values_perm vs : printed_values vs ≡ₚ vs.
Proof.
  assert (safeSort vs ≡ₚ vs) as H by (unfold safeSort; case_match; [done|apply merge_sort_Permutation]).
  unfold printed_values. by destruct vs as [|v [|]].
Qed.

Definition op_item (op : string) : ScannedItem :=
  if String.eqb op Op_Equals then mkItem EqualsToken "="
  else if String.eqb op Op_DoubleEquals then mkItem DoubleEqualsToken "=="
  else if String.eqb op Op_NotEquals then mkItem NotEqualsToken "!="
  else if String.eqb op Op_GreaterThan then mkItem GreaterThanToken ">"
  else if String.eqb op Op_LessThan then mkItem LessThanToken "<"
  else word_item op.

Definition req_items (r : Requirement) : list ScannedItem :=
  if String.eqb (operator r) Op_DoesNotExist then [mkItem DoesNotExistToken "!"; word_item (key r)]
  else if String.eqb (operator r) Op_Exists then [word_item (key r)]
  else if one_of (operator r) [Op_In; Op_NotIn] then
    word_item (key r) :: op_item (operator r) :: open_par :: joined_items (printed_values (strValues r)) ++ [close_par]
  else word_item (key r) :: op_item (operator r) :: joined_items (strValues r).

(** What may follow a requirement. *)
Definition ends (rest : string) : Prop := rest = ""%string \/ exists r, rest = String "," r.

Lemma ends_stops rest : ends rest -> stops rest.
Proof. by intros [-> |[r ->]]. Qed.

Lemma lexes_space s i items r : lexes s (i :: items) r -> lexes (String " " s) (i :: items) r.
Proof. inversion 1; subst. by econstructor; [rewrite Lex_space|..]. Qed.

Lemma joined_head vs rest :
  Forall (fun v => v = ""%string \/ word v) vs -> stops rest -> match rest with String c _ => c <> "="%char | _ => True end ->
  match str_app (Join vs ",") rest with EmptyString => True | String c _ => Ascii.eqb c nul = false /\ c <> "="%char end.
Proof.
  intros Hvs Hr He. destruct vs as [|v [|w vs]].
  - by apply (value_head_eq "" rest); [left|..].
  - apply Forall_cons in Hvs as [Hv _]. by apply value_head_eq.
  - apply Forall_cons in Hvs as [Hv _].
    change (Join (v :: w :: vs) ",") with (str_app v (str_app "," (Join (w :: vs) ","))). rewrite !str_app_assoc.
    by apply value_head_eq.
Qed.

(** An operator and the values after it. *)
Lemma lexes_op sym t vs rest :
  string2token sym = Some t -> sym ∈ [">"; "<"; "!="; "=="; "="]%string -> Forall (fun v => v = ""%string \/ word v) vs ->
  ends rest -> lexes (str_app sym (str_app (Join vs ",") rest)) (mkItem t sym :: joined_items vs) rest.
Proof.
  intros Ht Hsym Hvs Hr. econstructor; [apply (Lex_symbol sym t); [done|set_solver|]| |].
  - pose proof (joined_head vs rest Hvs (ends_stops _ Hr)) as H. destruct (str_app (Join vs ",") rest) as [|c s]; [done|].
    destruct H as [Hn Hc]; [by destruct Hr as [-> |[r ->]]|]. split; [done|]. by intros _.
  - intros E. cbn in E. subst t. by apply string2token_not_end in Ht.
  - apply lexes_joined; [done|by apply ends_stops].
Qed.

(** A set operator with its values in parentheses. *)
Lemma lexes_set kw vs rest :
  word kw -> Forall (fun v => v = ""%string \/ word v) vs ->
  lexes (String " " (str_app kw (String " " (str_app "(" (str_app (Join vs ",") (str_app ")" rest))))))
    (word_item kw :: open_par :: joined_items vs ++ [close_par]) rest \/ match rest with String c _ => Ascii.eqb c nul = true | _ => False end.
Proof.
  intros Hkw Hvs. destruct (match rest with String c _ => Ascii.eqb c nul | _ => false end) eqn:En; [right; by destruct rest|left].
  apply lexes_space. econstructor; [apply Lex_word; [done|by split]|by apply word_not_end|].
  apply lexes_space. econstructor; [apply (Lex_symbol "(" OpenParToken); [done|set_solver|]|done|].
  { pose proof (joined_head vs (str_app ")" rest) Hvs) as H. destruct (str_app (Join vs ",") _) as [|c s]; [done|].
    destruct H as [Hn Hc]; [by split|done|]. split; [done|set_solver]. }
  eapply lexes_app; [apply lexes_joined; [done|by split]|].
  apply lexes_one; [|done]. apply (Lex_symbol ")" ClosedParToken); [done|set_solver|].
  destruct rest; [done|]. split; [done|set_solver].
Qed.

Lemma lexes_requirement r rest : proper r -> ends rest -> lexes (str_app (Req_String r) rest) (req_items r) rest.
Proof.
  intros [Hk Hop He Hv Hnd]%proper_parts Hr. pose proof (key_word _ Hk) as Hkw.
  assert (Forall (fun v => v = ""%string \/ word v) (strValues r)) as Hvs.
  { eapply Forall_impl; [exact Hv|]. apply value_word. }
  assert (Forall (fun v => v = ""%string \/ word v) (printed_values (strValues r))) as Hpv by (by rewrite printed_values_perm).
  assert (match strValues r with [v] => v | vs => Join (safeSort vs) "," end = Join (printed_values (strValues r)) ",") as Hj
    by (by destruct (strValues r) as [|v [|]]).
  assert (forall kw, word kw -> lexes (String " " (str_app kw (String " " (str_app "(" (str_app (Join (printed_values (strValues r)) ",") (str_app ")" rest))))))
    (word_item kw :: open_par :: joined_items (printed_values (strValues r)) ++ [close_par]) rest) as Hset.
  { intros kw Hw. destruct (lexes_set kw (printed_values (strValues r)) rest Hw Hpv) as [H|H]; [done|]. by destruct Hr as [-> |[r' ->]]. }
  assert (forall sym t, string2token sym = Some t -> sym ∈ [">"; "<"; "!="; "=="; "="]%string -> length (strValues r) = 1%nat ->
    lexes (str_app (key r) (str_app sym (str_app (Join (printed_values (strValues r)) ",") rest)))
      (word_item (key r) :: mkItem t sym :: joined_items (strValues r)) rest) as Hop1.
  { intros sym t Ht Hs H1. econstructor; [apply Lex_word; [done|]|by apply word_not_end|].
    - rewrite !elem_of_cons, elem_of_nil in Hs. by destruct Hs as [->|[->|[->|[->|[->|[]]]]]].
    - destruct (strValues r) as [|v [|]]; [done| |done]. by apply lexes_op. }
  unfold Req_String, req_items. rewrite Hj. unfold operators in Hop. rewrite !elem_of_cons, elem_of_nil in Hop.
  destruct Hop as [E|[E|[E|[E|[E|[E|[E|[E|[E|[]]]]]]]]]]; rewrite E in He |- *; cbn [String.eqb one_of existsb orb op_text op_item] in He |- *;
    cbn -[str_app Join joined_items printed_values] in He |- *; rewrite ?str_app_assoc.
  all: try (apply Hop1; [done|set_solver|by destruct (strValues r) as [|? [|]]]).
  - econstructor; [by apply Lex_word|by apply word_not_end|]. by apply (Hset "in"%string).
  - econstructor; [by apply Lex_word|by apply word_not_end|]. by apply (Hset "notin"%string).
  - apply lexes_one; [apply Lex_word; [done|by apply ends_stops]|by apply word_not_end].
  - change (str_app (String "!" (key r)) rest) with (str_app "!" (str_app (key r) rest)).
    econstructor; [apply (Lex_symbol "!" DoesNotExistToken); [done|set_solver|]|done|].
    + pose proof (value_head_eq (key r) rest (or_intror Hkw) (ends_stops _ Hr)) as H.
      destruct (str_app (key r) rest); [done|]. destruct H as [Hn Hc]; [by destruct Hr as [-> |[? ->]]|]. by split.
    + apply lexes_one; [apply Lex_word; [done|by apply ends_stops]|by apply word_not_end].
Qed.

(** * Selectors are read back as they were printed

    The parser on the tokens of a printed selector, and the round trip from a
    selector to its text and back. *)

(** ** One requirement *)

Lemma set_List_singleton v : set_List {[v]} = [v].
Proof. unfold set_List. by rewrite elements_singleton. Qed.

Lemma printed_set vs : (list_to_set (printed_values vs) : gset string) = list_to_set vs.
Proof. apply list_to_set_perm_L, printed_values_perm. Qed.

(** The key of a requirement, alone or with an operator after it. *)
Lemma parse_key k i items :
  IsQualifiedName k = true ->
  parseKeyAndInferOperator (word_item k :: i :: items) =
    Ret (inl (k, if ends_requirement (value_token i) then Op_Exists else ""%string, i :: items)).
Proof.
  intros Hk. unfold parseKeyAndInferOperator. cbn [consume obind]. rewrite (word_token k (key_word k Hk)).
  rewrite bool_decide_eq_false_2 by done. cbn [obind]. rewrite (word_token k (key_word k Hk)).
  rewrite bool_decide_eq_true_2 by done. cbn [negb literal word_item]. rewrite Hk. cbn [negb lookahead consume obind fst].
  by rewrite andb_true_r.
Qed.

Lemma parse_absent_key k i items :
  IsQualifiedName k = true ->
  parseKeyAndInferOperator (mkItem DoesNotExistToken "!" :: word_item k :: i :: items) = Ret (inl (k, Op_DoesNotExist, i :: items)).
Proof.
  intros Hk. unfold parseKeyAndInferOperator. cbn [consume obind fst snd]. rewrite bool_decide_eq_true_2 by done.
  cbn [obind fst snd]. rewrite (word_token k (key_word k Hk)).
  rewrite bool_decide_eq_true_2 by done. cbn [negb literal word_item]. rewrite Hk. cbn [negb lookahead consume obind fst].
  by rewrite andb_false_r.
Qed.

Lemma parse_exact v t tl :
  v = ""%string \/ word v -> ends_requirement (value_token t) = true ->
  parseExactValue (value_items v ++ t :: tl) = Ret (inl ({[v]}, t :: tl)).
Proof.
  intros Hv Ht. unfold parseExactValue. destruct Hv as [-> |Hv].
  - cbn [value_items String.eqb app lookahead consume obind fst]. by rewrite Ht.
  - rewrite (value_items_word v Hv). cbn [app lookahead consume obind fst snd]. by rewrite (word_token v Hv).
Qed.

(** The operators with one value. *)
Lemma parse_exact_requirement r t tl :
  parts r -> operator r ∈ [Op_Equals; Op_DoubleEquals; Op_NotEquals; Op_GreaterThan; Op_LessThan] ->
  ends_requirement (value_token t) = true ->
  parseRequirement (req_items r ++ t :: tl) = Ret (inl (canonical r, t :: tl)).
Proof.
  intros [Hk _ He Hv Hnd] Hop Ht.
  assert (exists v, strValues r = [v]) as [v Ev].
  { rewrite !elem_of_cons, elem_of_nil in Hop. destruct Hop as [E|[E|[E|[E|[E|[]]]]]]; rewrite E in He;
      destruct (strValues r) as [|v [|]]; try done; by exists v. }
  assert (v = ""%string \/ word v) as Hw by (apply value_word; rewrite Ev in Hv; by apply Forall_cons in Hv as [? _]).
  assert (req_items r = word_item (key r) :: op_item (operator r) :: value_items v) as ->.
  { unfold req_items. rewrite Ev. rewrite !elem_of_cons, elem_of_nil in Hop. by destruct Hop as [E|[E|[E|[E|[E|[]]]]]]; rewrite E. }
  unfold parseRequirement. cbn [app]. rewrite parse_key by done.
  assert (ends_requirement (value_token (op_item (operator r))) = false) as ->.
  { rewrite !elem_of_cons, elem_of_nil in Hop. by destruct Hop as [E|[E|[E|[E|[E|[]]]]]]; rewrite E. }
  cbn [obind]. change (one_of "" [Op_Exists; Op_DoesNotExist]) with false. cbn iota.
  unfold parseOperator. cbn [consume obind fst snd].
  assert (token_op (tok (op_item (operator r))) = Some (operator r)) as ->.
  { rewrite !elem_of_cons, elem_of_nil in Hop. by destruct Hop as [E|[E|[E|[E|[E|[]]]]]]; rewrite E. }
  assert (one_of (operator r) [Op_In; Op_NotIn] = false) as Eo.
  { rewrite !elem_of_cons, elem_of_nil in Hop. by destruct Hop as [E|[E|[E|[E|[E|[]]]]]]; rewrite E. }
  unfold canonical. rewrite Eo, parse_exact by done. cbn [obind]. rewrite set_List_singleton, <- Ev.
  by rewrite requirement_ok.
Qed.

Lemma set_errors op vs : op ∈ [Op_In; Op_NotIn] -> op_errors op vs = [] <-> vs <> [].
Proof. rewrite !elem_of_cons, elem_of_nil. intros [->|[->|[]]]; by destruct vs. Qed.

Lemma set_List_values vs :
  Forall (fun v => IsValidLabelValue v = true) vs ->
  Forall (fun v => IsValidLabelValue v = true) (set_List (list_to_set vs)).
Proof. rewrite !Forall_forall. intros H v Hv%elem_of_set_List. apply H. set_solver. Qed.

Lemma set_List_nonempty vs : vs <> [] -> set_List (list_to_set vs) <> [].
Proof.
  destruct vs as [|v vs]; [done|]. intros _ E. assert (v ∈ set_List (list_to_set (v :: vs))) as H.
  { apply elem_of_set_List. set_solver. }
  rewrite E in H. set_solver.
Qed.

(** The operators with a set of values. *)
Lemma parse_set_requirement r t tl :
  parts r -> operator r ∈ [Op_In; Op_NotIn] ->
  parseRequirement (req_items r ++ t :: tl) = Ret (inl (canonical r, t :: tl)).
Proof.
  intros [Hk _ He Hv Hnd] Hop. pose proof He as Hne. rewrite (set_errors _ _ Hop) in Hne.
  assert (one_of (operator r) [Op_In; Op_NotIn] = true) as Eo by (by apply one_of_elem).
  assert (req_items r = word_item (key r) :: word_item (operator r) :: open_par :: joined_items (printed_values (strValues r)) ++ [close_par]) as ->.
  { unfold req_items. rewrite Eo. rewrite !elem_of_cons, elem_of_nil in Hop. by destruct Hop as [E|[E|[]]]; rewrite E. }
  unfold parseRequirement. cbn [app]. rewrite parse_key by done.
  assert (ends_requirement (value_token (word_item (operator r))) = false) as ->.
  { rewrite !elem_of_cons, elem_of_nil in Hop. by destruct Hop as [E|[E|[]]]; rewrite E. }
  cbn [obind]. change (one_of "" [Op_Exists; Op_DoesNotExist]) with false. cbn iota.
  unfold parseOperator. cbn [consume obind fst snd].
  assert (token_op (tok (word_item (operator r))) = Some (operator r)) as ->.
  { rewrite !elem_of_cons, elem_of_nil in Hop. by destruct Hop as [E|[E|[]]]; rewrite E. }
  unfold canonical. rewrite Eo, <- app_assoc. cbn [app]. rewrite parse_values.
  - cbn [obind]. rewrite printed_set, requirement_ok; [done|done| |by apply set_List_values].
    by apply set_errors, set_List_nonempty.
  - intros E. pose proof (printed_values_perm (strValues r)) as Hp. rewrite E in Hp. by apply Permutation_nil in Hp.
  - rewrite printed_values_perm. eapply Forall_impl; [exact Hv|apply value_word].
  - by rewrite printed_values_perm.
Qed.

Lemma parse_requirement r t tl :
  proper r -> ends_requirement (value_token t) = true ->
  parseRequirement (req_items r ++ t :: tl) = Ret (inl (canonical r, t :: tl)).
Proof.
  intros Hr%proper_parts Ht. destruct (decide (operator r ∈ [Op_In; Op_NotIn])); [by apply parse_set_requirement|].
  destruct (decide (operator r ∈ [Op_Equals; Op_DoubleEquals; Op_NotEquals; Op_GreaterThan; Op_LessThan]));
    [by apply parse_exact_requirement|].
  destruct Hr as [Hk Hop He Hv Hnd]. pose proof (key_word _ Hk) as Hw.
  assert (operator r = Op_Exists \/ operator r = Op_DoesNotExist) as Ho by (unfold operators in Hop; set_solver).
  assert (strValues r = []) as Ev by (destruct Ho as [E|E]; rewrite E in He; by destruct (strValues r)).
  assert (requirement (key r) (operator r) [] = inl (canonical r)) as Hq.
  { rewrite requirement_ok; [|done|by rewrite <- Ev|done]. unfold canonical. rewrite Ev. by destruct Ho as [-> | ->]. }
  unfold parseRequirement. destruct Ho as [E|E].
  - assert (req_items r = [word_item (key r)]) as -> by (unfold req_items; by rewrite E).
    cbn [app]. rewrite parse_key, Ht by done. cbn [obind]. rewrite E in Hq.
    change (one_of Op_Exists [Op_Exists; Op_DoesNotExist]) with true. by rewrite Hq.
  - assert (req_items r = [mkItem DoesNotExistToken "!"; word_item (key r)]) as -> by (unfold req_items; by rewrite E).
    cbn [app]. rewrite parse_absent_key by done. cbn [obind]. rewrite E in Hq.
    change (one_of Op_DoesNotExist [Op_Exists; Op_DoesNotExist]) with true. by rewrite Hq.
Qed.

(** ** A list of requirements *)

Fixpoint sel_items (l : list Requirement) : list ScannedItem :=
  match l with
  | [] => []
  | [r] => req_items r
  | r :: l => req_items r ++ comma :: sel_items l
  end.

Lemma req_items_head r : proper r -> exists i items, req_items r = i :: items /\
  (value_token i = IdentifierToken \/ value_token i = DoesNotExistToken).
Proof.
  intros [Hk _ _ _ _]%proper_parts. unfold req_items. pose proof (word_token _ (key_word _ Hk)).
  repeat case_match; eauto 10.
Qed.

Lemma lexes_head s i items r : lexes s (i :: items) r -> match s with String c _ => Ascii.eqb c nul = false | _ => True end.
Proof.
  inversion 1; subst. destruct s as [|c s]; [done|]. destruct (Ascii.eqb_spec c nul) as [-> |]; [|done].
  exfalso. match goal with H : Lex _ = _ |- _ => injection H as <- <- end. done.
Qed.

Lemma sel_items_head r l : proper r -> exists i items, sel_items (r :: l) = i :: items /\
  (value_token i = IdentifierToken \/ value_token i = DoesNotExistToken).
Proof.
  intros Hr. destruct (req_items_head r Hr) as (i & items & Hi & Ht). destruct l as [|r' l]; [by exists i, items|].
  change (sel_items (r :: r' :: l)) with (req_items r ++ comma :: sel_items (r' :: l)). rewrite Hi. cbn [app]. eauto.
Qed.

Lemma str_app_empty s : str_app s "" = s.
Proof. induction s as [|c s IH]; cbn; [done|]. by rewrite IH. Qed.

Lemma lexes_selector l : Forall proper l -> lexes (Join (map Req_String l) ",") (sel_items l) "".
Proof.
  induction 1 as [|r l Hr Hl IH]; [constructor|]. destruct l as [|r' l].
  { cbn [map Join sel_items]. rewrite <- (str_app_empty (Req_String r)). apply lexes_requirement; [done|by left]. }
  change (Join (map Req_String (r :: r' :: l)) ",") with
    (str_app (Req_String r) (str_app "," (Join (map Req_String (r' :: l)) ","))).
  change (sel_items (r :: r' :: l)) with (req_items r ++ comma :: sel_items (r' :: l)).
  eapply lexes_app; [apply lexes_requirement; [done|right; by eexists]|].
  econstructor; [apply (Lex_symbol "," CommaToken); [done|set_solver|]|done|exact IH].
  apply Forall_cons in Hl as [Hr' _]. destruct (sel_items_head r' l Hr') as (i & items & Hi & _). rewrite Hi in IH.
  apply lexes_head in IH. destruct (Join _ _); [done|]. split; [done|set_solver].
Qed.

Lemma parse_selector l f acc :
  Forall proper l -> (length l < f)%nat ->
  parse_loop f (sel_items l ++ [the_end]) acc = Ret (inl (acc ++ map canonical l)).
Proof.
  intros Hl. revert f acc. induction Hl as [|r l Hr Hl IH]; intros f acc Hf; (destruct f as [|f]; [lia|]).
  { cbn. by rewrite app_nil_r. }
  assert (exists t tl, sel_items (r :: l) ++ [the_end] = req_items r ++ t :: tl /\ ends_requirement (value_token t) = true /\
    match l with [] => t = the_end | _ => t = comma /\ tl = sel_items l ++ [the_end] end) as (t & tl & E & Ht & Hcase).
  { destruct l as [|r' l]; [by exists the_end, []|]. exists comma, (sel_items (r' :: l) ++ [the_end]).
    change (sel_items (r :: r' :: l)) with (req_items r ++ comma :: sel_items (r' :: l)). by rewrite <- app_assoc. }
  rewrite E. cbn [parse_loop]. pose proof (parse_requirement r t tl Hr Ht) as Hp.
  destruct (req_items_head r Hr) as (i & items & Hi & Hv). rewrite Hi in Hp |- *. cbn [app] in Hp |- *.
  cbn [lookahead consume obind fst]. rewrite Hp. cbn [obind consume fst snd].
  destruct l as [|r' l].
  - subst t. by destruct Hv as [-> | ->].
  - destruct Hcase as [-> ->]. change (value_token comma) with CommaToken. cbn iota.
    apply Forall_cons in Hl as [Hr' Hl']. destruct (sel_items_head r' l Hr') as (j & js & Hj & Hjv).
    assert (parse_loop f (sel_items (r' :: l) ++ [the_end]) (acc ++ [canonical r]) = Ret (inl (acc ++ map canonical (r :: r' :: l)))) as Hrec.
    { rewrite IH by (cbn in *; lia). cbn [map]. by rewrite <- app_assoc. }
    rewrite Hj in Hrec |- *. cbn [app lookahead consume obind fst] in Hrec |- *.
    destruct Hv as [-> | ->], Hjv as [-> | ->]; exact Hrec.
Qed.

(** ** The round trip *)

Lemma canonical_matches r ls : Req_Matches (canonical r) ls = Req_Matches r ls.
Proof.
  unfold canonical. destruct (one_of (operator r) [Op_In; Op_NotIn]) eqn:Eo; [|by destruct r].
  assert (forall v, hasValue (mkRequirement (key r) (operator r) (set_List (list_to_set (strValues r)))) v = hasValue r v) as Hh.
  { intros v. apply eq_true_iff_eq. unfold hasValue. cbn [strValues]. rewrite !one_of_elem, elem_of_set_List. set_solver. }
  unfold Req_Matches. cbn [operator key]. rewrite Hh. apply one_of_elem in Eo. rewrite !elem_of_cons, elem_of_nil in Eo.
  by destruct Eo as [->|[->|[]]].
Qed.

Lemma Parse_printed l :
  Forall proper l ->
  Parse (Sel_String (internalSelector l)) = Ret (inl (internalSelector (merge_sort ByKey (map canonical l)))) /\
  forall ls, Sel_Matches (internalSelector (merge_sort ByKey (map canonical l))) ls = Sel_Matches (internalSelector l) ls.
Proof.
  intros Hl. split.
  - unfold Parse, ParseToRequirements, Sel_String. rewrite (lexes_scan _ (sel_items l)); [|by apply lexes_selector|lia].
    rewrite parse_selector; [done|done|]. rewrite length_app. cbn. clear -Hl.
    induction Hl as [|r l Hr Hl IH]; [cbn; lia|]. destruct (req_items_head r Hr) as (i & items & Hi & _).
    destruct l as [|r' l]; [cbn; rewrite Hi; cbn; lia|].
    change (sel_items (r :: r' :: l)) with (req_items r ++ comma :: sel_items (r' :: l)).
    rewrite length_app, Hi. cbn in *. lia.
  - intros ls. rewrite (Sel_Matches_perm _ (map canonical l)) by apply merge_sort_Permutation. cbn [Sel_Matches].
    clear. induction l as [|r l IH]; [done|]. cbn [map forallb]. by rewrite canonical_matches, IH.
Qed.

(** ** What the parser answers is proper *)

Lemma set_List_NoDup s : NoDup (set_List s).
Proof. unfold set_List. rewrite merge_sort_Permutation. apply NoDup_elements. Qed.

Lemma requirement_proper k op vals r : requirement k op vals = inl r -> NoDup vals -> proper r.
Proof.
  unfold requirement. destruct (NewRequirement k op vals) as [r' [|]] eqn:E; [|done]. intros [= <-] Hnd.
  assert (r' = mkRequirement k op vals) as -> by (by injection E). split; cbn [key operator strValues]; [by rewrite E|done].
Qed.

Lemma parseRequirement_proper items r rest : parseRequirement items = Ret (inl (r, rest)) -> proper r.
Proof.
  unfold parseRequirement. destruct (parseKeyAndInferOperator items) as [[[[k op] l]|]|]; [|done|done]. cbn [obind].
  destruct (one_of op _).
  { destruct (requirement k op []) eqn:E; [|done]. intros [= <- _]. eapply requirement_proper; [exact E|constructor]. }
  destruct (parseOperator l) as [[[op' l']|]|]; [|done|done]. cbn [obind].
  destruct (if one_of op' _ then _ else _) as [[[s l'']|]|]; [|done|done]. cbn [obind].
  destruct (requirement k op' (set_List s)) eqn:E; [|done]. intros [= <- _].
  eapply requirement_proper; [exact E|apply set_List_NoDup].
Qed.

Lemma parse_loop_proper f items reqs l : Forall proper reqs -> parse_loop f items reqs = Ret (inl l) -> Forall proper l.
Proof.
  revert items reqs. induction f as [|f IH]; intros items reqs Hr; cbn [parse_loop]; [done|].
  destruct (lookahead items) as [i|]; [|done]. cbn [obind].
  assert ((let! r := parseRequirement items in
    match r with
    | inr e => Ret (inr e)
    | inl (r, items) => let! c := consume items in
        match value_token c.1 with
        | EndOfStringToken => Ret (inl (reqs ++ [r]))
        | CommaToken => let! i2 := lookahead c.2 in
            match value_token i2 with
            | IdentifierToken | DoesNotExistToken => parse_loop f c.2 (reqs ++ [r])
            | _ => Ret (inr (Unexpected (literal i2) "identifier after ','"))
            end
        | _ => Ret (inr (Unexpected (literal c.1) "',' or 'end of string'"))
        end
    end) = Ret (inl l) -> Forall proper l) as Hone.
  { destruct (parseRequirement items) as [[[r rest]|]|] eqn:E; [|done|done]. cbn [obind].
    apply parseRequirement_proper in E. assert (Forall proper (reqs ++ [r])) as Hr' by (apply Forall_app; split; [done|by constructor]).
    destruct (consume rest) as [c|]; [|done]. cbn [obind]. destruct (value_token c.1); try done; [by intros [= <-]|].
    destruct (lookahead c.2) as [i2|]; [|done]. cbn [obind]. destruct (value_token i2); try done; by apply IH. }
  destruct (value_token i); try done; try exact Hone. by intros [= <-].
Qed.

Lemma Parse_proper text s : Parse text = Ret (inl s) -> exists l, s = internalSelector l /\ Forall proper l.
Proof.
  unfold Parse, ParseToRequirements. destruct (parse_loop _ _ _) as [[l|]|] eqn:E; [|done|done]. intros [= <-].
  exists (merge_sort ByKey l). split; [done|]. rewrite merge_sort_Permutation. by eapply parse_loop_proper, E.
Qed.

(** C39. Printing and reading selectors.  What [String] prints of requirements
    that [NewRequirement] accepts reads back: [Parse] answers without an error
    the same requirements, the values of sets sorted and the requirements
    sorted by key, and the selector read matches the same label sets as the
    selector printed (values in a set are distinct, as the parser's are).
    Every selector that was read from a text is of this kind, so that it can be
    printed and read again without a change of meaning. *)
Theorem Parse_String :
  (forall l, Forall proper l ->
     Parse (Sel_String (internalSelector l)) = Ret (inl (internalSelector (merge_sort ByKey (map canonical l)))) /\
     forall ls, Sel_Matches (internalSelector (merge_sort ByKey (map canonical l))) ls = Sel_Matches (internalSelector l) ls) /\
  (forall text s, Parse text = Ret (inl s) ->
     exists s', Parse (Sel_String s) = Ret (inl s') /\ forall ls, Sel_Matches s' ls = Sel_Matches s ls).
Proof.
  split; [exact Parse_printed|]. intros text s (l & -> & Hl)%Parse_proper. destruct (Parse_printed l Hl) as [H1 H2]. eauto.
Qed.

Definition sample_selector : list Requirement :=
  [mkRequirement "zone" Op_NotIn ["b"; ""; "a"]; mkRequirement "app" Op_DoubleEquals ["web"]; mkRequirement "in" Op_Exists [];
   mkRequirement "example.com/x" Op_GreaterThan ["-3"]]%string.

Lemma Parse_String_witness :
  Sel_String (internalSelector (firstn 3 sample_selector)) = "zone notin (,a,b),app==web,in"%string /\
  Parse (Sel_String (internalSelector (firstn 3 sample_selector))) =
    Ret (inl (internalSelector (merge_sort ByKey (map canonical (firstn 3 sample_selector))))).
Proof.
  split; [vm_compute; reflexivity|]. apply (proj1 Parse_String).
  repeat constructor; try (vm_compute; reflexivity); try (by apply (bool_decide_unpack _); vm_compute).
Defined.

(** ** Questions about a selector *)

Lemma Req_Equal_spec r x : Req_Equal r x = true <-> r = x.
Proof.
  unfold Req_Equal. destruct r as [k o vs], x as [k' o' vs']. cbn [key operator strValues].
  destruct (String.eqb_spec k k'); cbn [negb]; [|naive_solver].
  destruct (String.eqb_spec o o'); cbn [negb]; [|naive_solver]. rewrite bool_decide_eq_true. naive_solver.
Qed.

Lemma Req_Values_spec r : Req_Values r = list_to_set (strValues r).
Proof.
  unfold Req_Values. assert (forall s : gset string, fold_left (fun ret v => {[v]} ∪ ret) (strValues r) s = list_to_set (strValues r) ∪ s) as H.
  { induction (strValues r) as [|v vs IH]; intros s; cbn [fold_left list_to_set]; [set_solver|]. rewrite IH. set_solver. }
  rewrite H. set_solver.
Qed.

(** The value that a selector is said to require is the value of the label in
    every label set it matches. *)
Theorem RequiresExactMatch_sound s label v ls :
  RequiresExactMatch s label = (v, true) -> Sel_Matches s ls = true -> ls !! label = Some v.
Proof.
  destruct s as [|l]; [done|]. cbn [RequiresExactMatch Sel_Matches]. induction l as [|r l IH]; cbn [exact_match forallb]; [done|].
  intros He [Hr Hl]%andb_true_iff. destruct (String.eqb_spec (key r) label) as [<- |]; [|by apply IH].
  destruct (strValues r) as [|v' [|]] eqn:Ev; [done| |done]. destruct (one_of (operator r) _) eqn:Eo; [|done]. injection He as ->.
  revert Hr. unfold Req_Matches, hasValue, Set_Has, Set_Get. rewrite Ev.
  assert (one_of (operator r) [Op_In; Op_Equals; Op_DoubleEquals] = true) as ->.
  { apply one_of_elem. apply one_of_elem in Eo. set_solver. }
  destruct (ls !! key r) as [w|]; [|done]. cbn. rewrite orb_false_r. by intros ->%String.eqb_eq.
Qed.

(** Validation changes nothing about the selector of a label set. *)
Theorem ValidatedSelectorFromSet_spec ls :
  ValidatedSelectorFromSet ls =
    if forallb (fun e => IsQualifiedName e.1 && IsValidLabelValue e.2) (map_to_list ls) then inl (SelectorFromSet ls)
    else inr BadRequirement.
Proof.
  unfold ValidatedSelectorFromSet, SelectorFromSet. destruct (size ls =? 0)%nat eqn:Es.
  { apply Nat.eqb_eq, map_size_empty_inv in Es as ->. rewrite map_to_list_empty. done. }
  clear Es. set (f := fun e : string * string => mkRequirement e.1 Op_Equals [e.2]).
  assert (forall acc, fold_left add_label (map_to_list ls) (inl acc) =
    if forallb (fun e => IsQualifiedName e.1 && IsValidLabelValue e.2) (map_to_list ls)
    then inl (acc ++ map f (map_to_list ls)) else inr BadRequirement) as H.
  { induction (map_to_list ls) as [|e l IH]; intros acc; cbn [fold_left forallb map]; [by rewrite app_nil_r|].
    pose proof (add_label_case acc e) as Hc. destruct (IsQualifiedName e.1 && IsValidLabelValue e.2); cbn [andb].
    - rewrite Hc, IH. by rewrite <- app_assoc.
    - destruct Hc as [er Hc]. assert (er = BadRequirement) as ->.
      { revert Hc. unfold add_label, add_requirement. destruct (NewRequirement _ _ _) as [? []]; naive_solver. }
      by rewrite Hc, add_label_err. }
  rewrite H. by destruct (forallb _ _).
Qed.

(** ** Texts that do not come back *)

(** The grammar in the source's comment has [VALUES] as a list of values that
    may be empty; the parser skips one after two commas and then wants a
    value. *)
Lemma double_comma_rejected :
  Parse "x in (a,,)" = Ret (inr (Unexpected ")" "',', or identifier")) /\
  Parse "x in (a,)" = Ret (inl (internalSelector [mkRequirement "x" Op_In [""; "a"]]%string)).
Proof. split; vm_compute; reflexivity. Qed.

(** So that requirements with the empty value twice print as a text that is
    refused. *)
Lemma repeated_empty_rejected :
  let r := mkRequirement "x" Op_In ["a"; ""; ""]%string in
  (NewRequirement (key r) (operator r) (strValues r)).2 = [] /\
  Sel_String (internalSelector [r]) = "x in (,,a)"%string /\
  Parse "x in (,,a)" = Ret (inl (internalSelector [mkRequirement "x" Op_In [""; "a"]]%string)) /\
  Sel_String (internalSelector [mkRequirement "x" Op_In [""; ""; ""]]%string) = "x in (,,)"%string /\
  Parse "x in (,,)" = Ret (inr (Unexpected ")" "',', or identifier")).
Proof. split_and!; vm_compute; reflexivity. Qed.

(** The selector that matches nothing prints as the selector that matches
    everything. *)
Theorem Nothing_reads_as_Everything :
  Parse (Sel_String Nothing) = Ret (inl Everything) /\ forall ls, Sel_Matches Nothing ls = false /\ Sel_Matches Everything ls = true.
Proof. split; [vm_compute; reflexivity|done]. Qed.

(** A zero byte where a token would start ends the text: what follows it is
    not read.  After an identifier it is skipped. *)
Theorem zero_byte_truncates :
  Parse (str_app "app=web " (String nul ",zone in ((")) = Ret (inl (internalSelector [mkRequirement "app" Op_Equals ["web"]]%string)) /\
  Parse (str_app "app" (String nul "=web")) = Ret (inl (internalSelector [mkRequirement "app" Op_Equals ["web"]]%string)).
Proof. split; vm_compute; reflexivity. Qed.
