(* ===== verification/NodeAffinity.v ===== *)
(** * Node selectors and node affinity

    [component-helpers/scheduling/corev1/nodeaffinity]: the node selector and
    the required node affinity of a pod, parsed once and matched against
    nodes, and the preferred terms with their weights.  A term that does not
    parse matches no node; its errors are reported when no other term
    matches. *)

From S2P Require Import Prelude GoInt GoFloat GoStrconv Quantity ApiTypes Labels.

(** ** Selectors of fields ([apimachinery/pkg/fields]) *)

Inductive FieldTerm := hasTerm (field value : string) | notHasTerm (field value : string).
Inductive FieldSelector := fieldsNothing | andTerm (l : list FieldTerm).

Definition FieldTerm_Matches (t : FieldTerm) (ls : gmap string string) : bool :=
  match t with
  | hasTerm f v => String.eqb (Set_Get ls f) v
  | notHasTerm f v => negb (String.eqb (Set_Get ls f) v)
  end.

Definition Fields_Matches (s : FieldSelector) (ls : gmap string string) : bool :=
  match s with fieldsNothing => false | andTerm l => forallb (fun t => FieldTerm_Matches t ls) l end.

(** ** Parsing *)

(** The errors are told apart by what they complain about. *)
Inductive NodeSelError := NS_Operator (op : string) | NS_Requirement | NS_Values.

Definition node_op (op : string) : option string :=
  if String.eqb op "In" then Some Op_In
  else if String.eqb op "NotIn" then Some Op_NotIn
  else if String.eqb op "Exists" then Some Op_Exists
  else if String.eqb op "DoesNotExist" then Some Op_DoesNotExist
  else if String.eqb op "Gt" then Some Op_GreaterThan
  else if String.eqb op "Lt" then Some Op_LessThan
  else None.

(** One iteration over the expressions: the selector so far and the errors. *)
Definition expr_step (acc : Selector * list NodeSelError) (expr : NodeSelectorRequirement)
  : Selector * list NodeSelError :=
  let '(selector, errs) := acc in
  match node_op (nsr_Operator expr) with
  | None => (selector, errs ++ [NS_Operator (nsr_Operator expr)])
  | Some op =>
      match NewRequirement (nsr_Key expr) op (nsr_Values expr) with
      | (r, []) => (Sel_Add selector [r], errs)
      | (_, _ :: _) => (selector, errs ++ [NS_Requirement])
      end
  end.

Definition nodeSelectorRequirementsAsSelector (nsm : list NodeSelectorRequirement)
  : option Selector * list NodeSelError :=
  if (length nsm =? 0)%nat then (Some Nothing, [])
  else
    let '(selector, errs) := fold_left expr_step nsm (Everything, []) in
    if negb (length errs =? 0)%nat then (None, errs) else (Some selector, []).

Definition field_step (acc : list FieldTerm * list NodeSelError) (expr : NodeSelectorRequirement)
  : list FieldTerm * list NodeSelError :=
  let '(selectors, errs) := acc in
  let op := nsr_Operator expr in
  if String.eqb op "In" then
    match nsr_Values expr with
    | [v] => (selectors ++ [hasTerm (nsr_Key expr) v], errs)
    | _ => (selectors, errs ++ [NS_Values])
    end
  else if String.eqb op "NotIn" then
    match nsr_Values expr with
    | [v] => (selectors ++ [notHasTerm (nsr_Key expr) v], errs)
    | _ => (selectors, errs ++ [NS_Values])
    end
  else (selectors, errs ++ [NS_Operator op]).

Definition nodeSelectorRequirementsAsFieldSelector (nsr : list NodeSelectorRequirement)
  : option FieldSelector * list NodeSelError :=
  if (length nsr =? 0)%nat then (Some fieldsNothing, [])
  else
    let '(selectors, errs) := fold_left field_step nsr ([], []) in
    if negb (length errs =? 0)%nat then (None, errs) else (Some (andTerm selectors), []).

Record nodeSelectorTerm := mkNodeSelTerm {
  matchLabels : option Selector;
  matchFields : option FieldSelector;
  parseErrs : list NodeSelError
}.

Definition newNodeSelectorTerm (term : NodeSelectorTerm) : nodeSelectorTerm :=
  let '(ml, errs1) :=
    if negb (length (nst_MatchExpressions term) =? 0)%nat
    then nodeSelectorRequirementsAsSelector (nst_MatchExpressions term) else (None, []) in
  let '(mf, errs2) :=
    if negb (length (nst_MatchFields term) =? 0)%nat
    then nodeSelectorRequirementsAsFieldSelector (nst_MatchFields term) else (None, []) in
  mkNodeSelTerm ml mf (errs1 ++ errs2).

Definition isEmptyNodeSelectorTerm (term : NodeSelectorTerm) : bool :=
  (length (nst_MatchExpressions term) =? 0)%nat && (length (nst_MatchFields term) =? 0)%nat.

(** [NewLazyErrorNodeSelector] *)
Definition NewLazyErrorNodeSelector (ns : list NodeSelectorTerm) : list nodeSelectorTerm :=
  map newNodeSelectorTerm (List.filter (fun t => negb (isEmptyNodeSelectorTerm t)) ns).

(** ** Matching *)

Definition extractNodeFields (n : Node) : gmap string string :=
  if (0 <? String.length (node_Name n))%nat then {["metadata.name"%string := node_Name n]} else ∅.

Definition term_match (t : nodeSelectorTerm) (nodeLabels nodeFields : gmap string string)
  : bool * list NodeSelError :=
  if negb (length (parseErrs t) =? 0)%nat then (false, parseErrs t)
  else
    (match matchLabels t with Some s => Sel_Matches s nodeLabels | None => true end
     && match matchFields t with
        | Some s => (size nodeFields =? 0)%nat || Fields_Matches s nodeFields
        | None => true
        end, []).

(** [LazyErrorNodeSelector.Match] *)
Fixpoint match_terms (terms : list nodeSelectorTerm) (nodeLabels nodeFields : gmap string string)
    (errs : list NodeSelError) : bool * list NodeSelError :=
  match terms with
  | [] => (false, errs)
  | term :: terms =>
      let '(m, tErrs) := term_match term nodeLabels nodeFields in
      if negb (length tErrs =? 0)%nat then match_terms terms nodeLabels nodeFields (errs ++ tErrs)
      else if m then (true, []) else match_terms terms nodeLabels nodeFields errs
  end.

Definition Lazy_Match (terms : list nodeSelectorTerm) (node : Node) : bool * list NodeSelError :=
  match_terms terms (node_Labels node) (extractNodeFields node) [].

(** [NewNodeSelector]: all terms have to parse. *)
Definition NewNodeSelector (ns : list NodeSelectorTerm) : list nodeSelectorTerm + list NodeSelError :=
  let lazy := NewLazyErrorNodeSelector ns in
  let errs := concat (map parseErrs lazy) in
  if negb (length errs =? 0)%nat then inr errs else inl lazy.

Definition NodeSelector_Match (ns : list nodeSelectorTerm) (node : Node) : bool := (Lazy_Match ns node).1.

(** ** Required node affinity *)

Record RequiredNodeAffinity := mkRequiredNodeAffinity {
  labelSelector : option Selector;
  nodeSelector : option (list nodeSelectorTerm)
}.

(** [pod.Spec.Affinity.NodeAffinity.RequiredDuring...], if all of it is set. *)
Definition required_terms (pod : Pod) : option (list NodeSelectorTerm) :=
  match spec_Affinity (Spec pod) with
  | Some a => match spec_NodeAffinity a with Some na => na_Required na | None => None end
  | None => None
  end.

Definition GetRequiredNodeAffinity (pod : Pod) : RequiredNodeAffinity :=
  mkRequiredNodeAffinity
    (if (0 <? size (spec_NodeSelector (Spec pod)))%nat
     then Some (SelectorFromSet (spec_NodeSelector (Spec pod))) else None)
    (NewLazyErrorNodeSelector <$> required_terms pod).

Definition RNA_Match (s : RequiredNodeAffinity) (node : Node) : bool * list NodeSelError :=
  if match labelSelector s with Some sel => negb (Sel_Matches sel (node_Labels node)) | None => false end
  then (false, [])
  else match nodeSelector s with Some ns => Lazy_Match ns node | None => (true, []) end.

(** ** Preferred terms *)

(** [NewPreferredSchedulingTerms]; weights have 32 bits in the API. *)
Definition pref_step (acc : list (nodeSelectorTerm * Z) * list NodeSelError) (term : Z * NodeSelectorTerm)
  : list (nodeSelectorTerm * Z) * list NodeSelError :=
  let '(parsedTerms, errs) := acc in
  if (term.1 =? 0) || isEmptyNodeSelectorTerm term.2 then acc
  else
    let t := newNodeSelectorTerm term.2 in
    if negb (length (parseErrs t) =? 0)%nat then (parsedTerms, errs ++ parseErrs t)
    else (parsedTerms ++ [(t, term.1)], errs).

Definition NewPreferredSchedulingTerms (terms : list (Z * NodeSelectorTerm))
  : list (nodeSelectorTerm * Z) + list NodeSelError :=
  let '(parsedTerms, errs) := fold_left pref_step terms ([], []) in
  if negb (length errs =? 0)%nat then inr errs else inl parsedTerms.

Open Scope go_scope.

(** [PreferredSchedulingTerms.Score] *)
Definition Preferred_Score (terms : list (nodeSelectorTerm * Z)) (node : Node) : Z :=
  fold_left (fun score term =>
    if (term_match term.1 (node_Labels node) (extractNodeFields node)).1 then score +₆₄ term.2 else score) terms 0.

(** ** What a selector of nodes means *)

Definition nsr_holds (e : NodeSelectorRequirement) (ls : gmap string string) : Prop :=
  match ls !! nsr_Key e with
  | Some w =>
      (nsr_Operator e = "In"%string /\ w ∈ nsr_Values e) \/
      (nsr_Operator e = "NotIn"%string /\ w ∉ nsr_Values e) \/ nsr_Operator e = "Exists"%string \/
      exists v m n, nsr_Values e = [v] /\ ParseInt v = (m, None) /\ ParseInt w = (n, None) /\
        ((nsr_Operator e = "Gt"%string /\ m < n) \/ (nsr_Operator e = "Lt"%string /\ n < m))
  | None => nsr_Operator e = "NotIn"%string \/ nsr_Operator e = "DoesNotExist"%string
  end.

Definition integer (v : string) : bool := match ParseInt v with (_, None) => true | _ => false end.

(** An expression is well formed. *)
Definition nsr_valid (e : NodeSelectorRequirement) : bool :=
  IsQualifiedName (nsr_Key e) && forallb IsValidLabelValue (nsr_Values e)
  && if one_of (nsr_Operator e) ["In"; "NotIn"]%string then negb (length (nsr_Values e) =? 0)%nat
     else if one_of (nsr_Operator e) ["Exists"; "DoesNotExist"]%string then (length (nsr_Values e) =? 0)%nat
     else one_of (nsr_Operator e) ["Gt"; "Lt"]%string && (length (nsr_Values e) =? 1)%nat
          && forallb integer (nsr_Values e).

(** The only field of a node is its name. *)
Definition field_of (node : Node) (f : string) : string :=
  if String.eqb f "metadata.name" then node_Name node else ""%string.

Definition nsf_valid (e : NodeSelectorRequirement) : bool :=
  one_of (nsr_Operator e) ["In"; "NotIn"]%string && (length (nsr_Values e) =? 1)%nat.

Definition nsf_holds (e : NodeSelectorRequirement) (node : Node) : Prop :=
  exists v, nsr_Values e = [v] /\
    ((nsr_Operator e = "In"%string /\ field_of node (nsr_Key e) = v) \/
     (nsr_Operator e = "NotIn"%string /\ field_of node (nsr_Key e) <> v)).

Definition term_valid (t : NodeSelectorTerm) : bool :=
  forallb nsr_valid (nst_MatchExpressions t) && forallb nsf_valid (nst_MatchFields t).

Definition term_holds (t : NodeSelectorTerm) (node : Node) : Prop :=
  Forall (fun e => nsr_holds e (node_Labels node)) (nst_MatchExpressions t) /\
  (node_Name node = ""%string \/ Forall (fun e => nsf_holds e node) (nst_MatchFields t)).

(** A node is selected by a term that is not empty, parses and holds. *)
Definition selects (t : NodeSelectorTerm) (node : Node) : Prop :=
  isEmptyNodeSelectorTerm t = false /\ term_valid t = true /\ term_holds t node.

(** ** The parsed form means the same *)

Lemma Sel_Matches_Add l r ls :
  Sel_Matches (Sel_Add (internalSelector l) [r]) ls = Sel_Matches (internalSelector l) ls && Req_Matches r ls.
Proof.
  unfold Sel_Add. rewrite (Sel_Matches_perm _ _ ls (merge_sort_Permutation ByKey (l ++ [r]))).
  cbn [Sel_Matches]. rewrite forallb_app. simpl. by rewrite andb_true_r.
Qed.

Lemma integer_spec v : integer v = true <-> exists n, ParseInt v = (n, None).
Proof. unfold integer. destruct (ParseInt v) as [n [e|]]; naive_solver. Qed.

(** The errors of [NewRequirement] for an operator of the API. *)
Lemma integer_errors vals :
  concat (map (fun v => match ParseInt v with (_, Some _) => [InvalidInteger] | _ => [] end) vals) = []
  <-> forallb integer vals = true.
Proof.
  induction vals as [|v vals IH]; simpl; [done|]. rewrite app_nil, IH, andb_true_iff. unfold integer.
  destruct (ParseInt v) as [n [e|]]; naive_solver.
Qed.

Lemma gt_errors op vals : op = Op_GreaterThan \/ op = Op_LessThan ->
  op_errors op vals = [] <-> (length vals =? 1)%nat && forallb integer vals = true.
Proof.
  intros H.
  assert (op_errors op vals = (if negb (length vals =? 1)%nat then [InvalidValues] else []) ++
    concat (map (fun v => match ParseInt v with (_, Some _) => [InvalidInteger] | _ => [] end) vals)) as ->
    by (destruct H as [-> | ->]; reflexivity).
  rewrite app_nil, integer_errors, andb_true_iff. destruct (length vals =? 1)%nat; naive_solver.
Qed.

Ltac node_ops e :=
  destruct (String.eqb_spec (nsr_Operator e) "In") as [-> |];
    [|destruct (String.eqb_spec (nsr_Operator e) "NotIn") as [-> |];
      [|destruct (String.eqb_spec (nsr_Operator e) "Exists") as [-> |];
        [|destruct (String.eqb_spec (nsr_Operator e) "DoesNotExist") as [-> |];
          [|destruct (String.eqb_spec (nsr_Operator e) "Gt") as [-> |];
            [|destruct (String.eqb_spec (nsr_Operator e) "Lt") as [-> |]]]]]].

Lemma op_errors_spec e op :
  node_op (nsr_Operator e) = Some op ->
  op_errors op (nsr_Values e) = [] <->
  (if one_of (nsr_Operator e) ["In"; "NotIn"]%string then negb (length (nsr_Values e) =? 0)%nat
   else if one_of (nsr_Operator e) ["Exists"; "DoesNotExist"]%string then (length (nsr_Values e) =? 0)%nat
   else one_of (nsr_Operator e) ["Gt"; "Lt"]%string && (length (nsr_Values e) =? 1)%nat
        && forallb integer (nsr_Values e)) = true.
Proof.
  unfold node_op. node_ops e; [..|done]; intros [= <-];
    try (rewrite gt_errors by auto; reflexivity);
    destruct (nsr_Values e); by split.
Qed.

Lemma node_op_None e : node_op (nsr_Operator e) = None -> nsr_valid e = false.
Proof.
  unfold node_op, nsr_valid. intros H.
  assert (forall s, nsr_Operator e = s -> node_op s <> None -> False) as Hne by (intros s <- Hn; by apply Hn).
  unfold one_of. cbn [existsb].
  destruct (String.eqb_spec (nsr_Operator e) "In"); [done|].
  destruct (String.eqb_spec (nsr_Operator e) "NotIn"); [done|].
  destruct (String.eqb_spec (nsr_Operator e) "Exists"); [done|].
  destruct (String.eqb_spec (nsr_Operator e) "DoesNotExist"); [done|].
  destruct (String.eqb_spec (nsr_Operator e) "Gt"); [done|].
  destruct (String.eqb_spec (nsr_Operator e) "Lt"); [done|].
  apply andb_false_r.
Qed.

(** A requirement that was accepted means the expression. *)
Lemma nsr_matches e op ls :
  node_op (nsr_Operator e) = Some op -> op_errors op (nsr_Values e) = [] ->
  Req_Matches (mkRequirement (nsr_Key e) op (nsr_Values e)) ls = true <-> nsr_holds e ls.
Proof.
  unfold node_op, nsr_holds. node_ops e; [..|done]; intros [= <-] Hop.
  - unfold Req_Matches, hasValue, Set_Has, Set_Get; simpl.
    destruct (ls !! nsr_Key e); simpl; [rewrite one_of_elem|]; naive_solver.
  - unfold Req_Matches, hasValue, Set_Has, Set_Get; simpl.
    destruct (ls !! nsr_Key e); simpl; [|naive_solver].
    rewrite negb_true_iff, <- not_true_iff_false, one_of_elem. naive_solver.
  - unfold Req_Matches, Set_Has; simpl. destruct (ls !! nsr_Key e); naive_solver.
  - unfold Req_Matches, Set_Has; simpl. destruct (ls !! nsr_Key e); naive_solver.
  - apply gt_errors in Hop; [|by left]. destruct (nsr_Values e) as [|v [|? ?]]; [done| |done].
    simpl in Hop. rewrite andb_true_r in Hop. apply integer_spec in Hop as [m Hm].
    change (Req_Matches _ ls) with (integer_matches (mkRequirement (nsr_Key e) Op_GreaterThan [v]) ls).
    unfold integer_matches, Set_Has, Set_Get; simpl. destruct (ls !! nsr_Key e) as [w|]; simpl; [|naive_solver].
    rewrite Hm. destruct (ParseInt w) as [z [er|]]; [naive_solver|].
    change (String.eqb Op_GreaterThan Op_LessThan) with false. rewrite orb_false_r, Z.ltb_lt.
    split.
    + intros H. do 3 right. exists v, m, z. split_and!; auto.
    + intros [[? _]|[[? _]|[?|(v0 & m0 & z0 & [= <-] & E & [= <-] & [[? H]|[? H]])]]]; try discriminate.
      rewrite Hm in E. by injection E as ->.
  - apply gt_errors in Hop; [|by right]. destruct (nsr_Values e) as [|v [|? ?]]; [done| |done].
    simpl in Hop. rewrite andb_true_r in Hop. apply integer_spec in Hop as [m Hm].
    change (Req_Matches _ ls) with (integer_matches (mkRequirement (nsr_Key e) Op_LessThan [v]) ls).
    unfold integer_matches, Set_Has, Set_Get; simpl. destruct (ls !! nsr_Key e) as [w|]; simpl; [|naive_solver].
    rewrite Hm. destruct (ParseInt w) as [z [er|]]; [naive_solver|].
    rewrite Z.ltb_lt.
    split.
    + intros H. do 3 right. exists v, m, z. split_and!; auto.
    + intros [[? _]|[[? _]|[?|(v0 & m0 & z0 & [= <-] & E & [= <-] & [[? H]|[? H]])]]]; try discriminate.
      rewrite Hm in E. by injection E as ->.
Qed.

Lemma NewRequirement_valid e op :
  node_op (nsr_Operator e) = Some op ->
  (NewRequirement (nsr_Key e) op (nsr_Values e)).2 = [] <-> nsr_valid e = true.
Proof.
  intros Hop. unfold NewRequirement, validateLabelKey, nsr_valid. cbn [snd].
  rewrite !app_nil, value_errors, (op_errors_spec e op Hop), !andb_true_iff.
  destruct (IsQualifiedName (nsr_Key e)); naive_solver.
Qed.

Lemma expr_fold l sel errs :
  exists sel' extra, fold_left expr_step l (internalSelector sel, errs) = (internalSelector sel', errs ++ extra) /\
    (extra = [] <-> forallb nsr_valid l = true) /\
    (forallb nsr_valid l = true -> forall ls,
      Sel_Matches (internalSelector sel') ls = true <->
      Sel_Matches (internalSelector sel) ls = true /\ Forall (fun e => nsr_holds e ls) l).
Proof.
  revert sel errs. induction l as [|e l IH]; intros sel errs; cbn [fold_left forallb].
  { exists sel, []. rewrite app_nil_r. split_and!; try done. intros _ ls. rewrite Forall_nil. tauto. }
  unfold expr_step at 2. destruct (node_op (nsr_Operator e)) as [op|] eqn:Hop.
  - pose proof (NewRequirement_valid e op Hop) as Hr.
    destruct (NewRequirement (nsr_Key e) op (nsr_Values e)) as [r [|er ers]] eqn:Er; cbn [snd] in Hr.
    + assert (nsr_valid e = true) as He by (by apply Hr). rewrite He. cbn [andb].
      destruct (IH (merge_sort ByKey (sel ++ [r])) errs) as (sel' & extra & Hf & Hx & Hm).
      exists sel', extra. split; [exact Hf|]. split; [done|]. intros Hl ls. rewrite Hm by done.
      change (internalSelector (merge_sort ByKey (sel ++ [r]))) with (Sel_Add (internalSelector sel) [r]).
      rewrite Sel_Matches_Add, andb_true_iff, Forall_cons.
      assert (r = mkRequirement (nsr_Key e) op (nsr_Values e) /\ op_errors op (nsr_Values e) = []) as [-> Ho].
      { unfold NewRequirement in Er. injection Er as <- Ee. apply app_nil in Ee as [_ [Ee _]%app_nil]. done. }
      rewrite (nsr_matches e op ls Hop Ho). tauto.
    + destruct (nsr_valid e); [by pose proof (proj2 Hr eq_refl)|]. cbn [andb].
      destruct (IH sel (errs ++ [NS_Requirement])) as (sel' & extra & Hf & _ & _).
      exists sel', (NS_Requirement :: extra). rewrite Hf, <- app_assoc. by split_and!.
  - rewrite (node_op_None e Hop). cbn [andb].
    destruct (IH sel (errs ++ [NS_Operator (nsr_Operator e)])) as (sel' & extra & Hf & _ & _).
    exists sel', (NS_Operator (nsr_Operator e) :: extra). rewrite Hf, <- app_assoc. by split_and!.
Qed.

Lemma field_fold l sel errs :
  exists sel' extra, fold_left field_step l (sel, errs) = (sel', errs ++ extra) /\
    (extra = [] <-> forallb nsf_valid l = true) /\
    (forallb nsf_valid l = true -> forall node, node_Name node <> ""%string ->
      Fields_Matches (andTerm sel') (extractNodeFields node) = true <->
      Fields_Matches (andTerm sel) (extractNodeFields node) = true /\ Forall (fun e => nsf_holds e node) l).
Proof.
  assert (forall node f, node_Name node <> ""%string -> Set_Get (extractNodeFields node) f = field_of node f) as Hget.
  { intros node f Hn. unfold extractNodeFields, field_of, Set_Get.
    destruct (Nat.ltb_spec 0 (String.length (node_Name node))) as [_|Hl].
    2: { destruct (node_Name node); [done|simpl in Hl; lia]. }
    destruct (String.eqb_spec f "metadata.name") as [-> |Hne]; [by rewrite lookup_singleton_eq|].
    by rewrite lookup_singleton_ne. }
  revert sel errs. induction l as [|e l IH]; intros sel errs; cbn [fold_left forallb].
  { exists sel, []. rewrite app_nil_r. split_and!; try done. intros _ node _. rewrite Forall_nil. tauto. }
  assert (forall er, nsf_valid e = false -> exists sel' extra,
    fold_left field_step l (sel, errs ++ [er]) = (sel', errs ++ extra) /\
    (extra = [] <-> nsf_valid e && forallb nsf_valid l = true) /\
    (nsf_valid e && forallb nsf_valid l = true -> forall node, node_Name node <> ""%string ->
      Fields_Matches (andTerm sel') (extractNodeFields node) = true <->
      Fields_Matches (andTerm sel) (extractNodeFields node) = true /\ Forall (fun e => nsf_holds e node) (e :: l))) as Hbad.
  { intros er ->. destruct (IH sel (errs ++ [er])) as (sel' & extra & -> & _).
    exists sel', (er :: extra). rewrite <- app_assoc. by split_and!. }
  assert (forall t, nsf_valid e = true ->
    (forall node, node_Name node <> ""%string ->
      FieldTerm_Matches t (extractNodeFields node) = true <-> nsf_holds e node) ->
    exists sel' extra, fold_left field_step l (sel ++ [t], errs) = (sel', errs ++ extra) /\
    (extra = [] <-> nsf_valid e && forallb nsf_valid l = true) /\
    (nsf_valid e && forallb nsf_valid l = true -> forall node, node_Name node <> ""%string ->
      Fields_Matches (andTerm sel') (extractNodeFields node) = true <->
      Fields_Matches (andTerm sel) (extractNodeFields node) = true /\ Forall (fun e => nsf_holds e node) (e :: l))) as Hgood.
  { intros t -> Ht. destruct (IH (sel ++ [t]) errs) as (sel' & extra & -> & Hx & Hm).
    exists sel', extra. split_and!; [done|done|]. intros Hl node Hn. cbn [andb] in Hl.
    rewrite Hm by done. rewrite Forall_cons, <- Ht by done. cbn [Fields_Matches].
    rewrite forallb_app, andb_true_iff. cbn [forallb]. rewrite andb_true_r. tauto. }
  unfold field_step at 2. destruct (nsr_Values e) as [|v [|v' vs]] eqn:Ev;
    (destruct (String.eqb_spec (nsr_Operator e) "In") as [Eo|Eo];
    [|destruct (String.eqb_spec (nsr_Operator e) "NotIn") as [Eo'|Eo']]);
    try (apply Hbad; unfold nsf_valid; rewrite Ev, ?andb_false_r; try done;
         unfold one_of; cbn [existsb]; rewrite (proj2 (String.eqb_neq _ _) Eo), (proj2 (String.eqb_neq _ _) Eo'); done).
  all: apply Hgood; [by unfold nsf_valid; rewrite ?Eo, ?Eo', Ev|]; intros node Hn; unfold nsf_holds, FieldTerm_Matches;
    rewrite Ev, Hget by done.
  - rewrite String.eqb_eq. split; [intros H; exists v; auto|].
    intros (v0 & [= <-] & [[_ H]|[H _]]); [done|by rewrite Eo in H].
  - rewrite negb_true_iff, String.eqb_neq. split; [intros H; exists v; auto|].
    intros (v0 & [= <-] & [[H _]|[_ H]]); [by rewrite Eo' in H|done].
Qed.

Lemma length_nil {A} (l : list A) : (length l =? 0)%nat = true <-> l = [].
Proof. by destruct l. Qed.

Lemma newTerm_spec t :
  let p := newNodeSelectorTerm t in
  (parseErrs p = [] <-> term_valid t = true) /\
  (term_valid t = true -> forall node,
    (term_match p (node_Labels node) (extractNodeFields node)).1 = true <-> term_holds t node).
Proof.
  unfold newNodeSelectorTerm, term_valid, term_holds, nodeSelectorRequirementsAsSelector,
    nodeSelectorRequirementsAsFieldSelector.
  destruct (expr_fold (nst_MatchExpressions t) [] []) as (sel & ex & Hf & Hx & Hm).
  destruct (field_fold (nst_MatchFields t) [] []) as (fs & fx & Hff & Hfx & Hfm).
  change Everything with (internalSelector []). rewrite Hf, Hff. rewrite !app_nil_l.
  set (ml := if negb (length (nst_MatchExpressions t) =? 0)%nat then _ else _).
  assert (ml.2 = ex /\ (ex = [] -> forall ls, match ml.1 with Some s => Sel_Matches s ls | None => true end = true <->
    Forall (fun e => nsr_holds e ls) (nst_MatchExpressions t))) as [Hml1 Hml2].
  { unfold ml. clear ml. destruct (nst_MatchExpressions t) as [|e es]; cbn [length Nat.eqb negb].
    - simpl in Hf. injection Hf as <- <-. split; [done|]. intros _ ls. by rewrite Forall_nil.
    - destruct ex; cbn [length Nat.eqb negb fst snd]; split; try done. intros _ ls.
      rewrite Hm by (by apply Hx). simpl. tauto. }
  set (mf := if negb (length (nst_MatchFields t) =? 0)%nat then _ else _).
  assert (mf.2 = fx /\ (fx = [] -> forall node, match mf.1 with
    | Some s => (size (extractNodeFields node) =? 0)%nat || Fields_Matches s (extractNodeFields node) | None => true end = true <->
    (node_Name node = ""%string \/ Forall (fun e => nsf_holds e node) (nst_MatchFields t)))) as [Hmf1 Hmf2].
  { unfold mf. clear mf. destruct (nst_MatchFields t) as [|e es]; cbn [length Nat.eqb negb].
    - simpl in Hff. injection Hff as <- <-. split; [done|]. intros _ node. rewrite Forall_nil. tauto.
    - destruct fx; cbn [length Nat.eqb negb fst snd]; split; try done. intros _ node.
      destruct (decide (node_Name node = ""%string)) as [E|E].
      + unfold extractNodeFields. rewrite E. simpl. tauto.
      + assert ((size (extractNodeFields node) =? 0)%nat = false) as ->.
        { unfold extractNodeFields. destruct (node_Name node); [done|]. cbn [String.length Nat.ltb Nat.leb].
          by rewrite map_size_singleton. }
        cbn [orb]. rewrite Hfm; [|by apply Hfx|done]. simpl. tauto. }
  destruct ml as [ml e1], mf as [mf e2]. cbn [fst snd] in *. subst e1 e2. cbv zeta. cbn [parseErrs].
  rewrite app_nil, Hx, Hfx, andb_true_iff. split; [done|]. intros [H1%Hx H2%Hfx] node. subst ex fx.
  unfold term_match. cbn [parseErrs matchLabels matchFields app length Nat.eqb negb fst].
  rewrite andb_true_iff, Hml2, Hmf2 by done. done.
Qed.

Lemma term_match_case t node :
  let p := newNodeSelectorTerm t in
  let r := term_match p (node_Labels node) (extractNodeFields node) in
  (r.2 = [] <-> term_valid t = true) /\ (r.1 = true <-> term_valid t = true /\ term_holds t node).
Proof.
  destruct (newTerm_spec t) as [H1 H2]. cbv zeta.
  assert ((term_match (newNodeSelectorTerm t) (node_Labels node) (extractNodeFields node)).2
    = parseErrs (newNodeSelectorTerm t)) as E2.
  { unfold term_match. by destruct (parseErrs (newNodeSelectorTerm t)). }
  rewrite E2. split; [done|]. destruct (term_valid t) eqn:Ev.
  - rewrite H2 by done. tauto.
  - unfold term_match. destruct (parseErrs (newNodeSelectorTerm t)) eqn:Ee; [by apply proj1 in H1; specialize (H1 eq_refl)|].
    simpl. naive_solver.
Qed.

(** The alternatives in turn: the first that is valid and holds decides. *)
Lemma match_terms_spec ts node errs :
  let r := match_terms (map newNodeSelectorTerm ts) (node_Labels node) (extractNodeFields node) errs in
  (r.1 = true <-> Exists (fun t => term_valid t = true /\ term_holds t node) ts) /\
  (r.2 = [] <-> r.1 = true \/ (errs = [] /\ Forall (fun t => term_valid t = true) ts)).
Proof.
  revert errs. induction ts as [|t ts IH]; intros errs; cbn [map match_terms].
  { simpl. rewrite Exists_nil, Forall_nil. naive_solver. }
  destruct (term_match_case t node) as [H1 H2]. cbv zeta in *.
  destruct (term_match _ _ _) as [m er]. cbn [fst snd] in *. rewrite Exists_cons, Forall_cons.
  destruct er as [|er ers]; cbn [length Nat.eqb negb].
  - assert (term_valid t = true) as Ht by (by apply H1). destruct m.
    + cbn [fst snd]. split; [|naive_solver]. split; [left; by apply H2|done].
    + destruct (IH errs) as [I1 I2]. cbv zeta in *. rewrite I2, I1. naive_solver.
  - assert (term_valid t <> true) as Ht by (intros E; by apply H1 in E).
    destruct (IH (errs ++ er :: ers)) as [I1 I2]. cbv zeta in *. rewrite I2, I1.
    split; [naive_solver|]. split; [|naive_solver]. intros [?|[E _]]; [naive_solver|]. by destruct errs.
Qed.

Lemma nonempty_filter ts (P : NodeSelectorTerm -> Prop) :
  Exists P (List.filter (fun t => negb (isEmptyNodeSelectorTerm t)) ts) <->
  Exists (fun t => isEmptyNodeSelectorTerm t = false /\ P t) ts.
Proof.
  rewrite !Exists_exists. setoid_rewrite list_elem_of_In. setoid_rewrite filter_In.
  setoid_rewrite negb_true_iff. naive_solver.
Qed.

(** The node selector and the required node affinity of a pod, parsed
    and matched, mean what the API says: a node matches exactly when it has
    the labels of the selector and, if the pod has required terms, one term
    that is neither empty nor malformed holds on the node's labels and name.
    An error is reported exactly when the selector matches, no term does and
    one that is not empty is malformed. *)
Theorem RequiredNodeAffinity_meaning pod node :
  let r := RNA_Match (GetRequiredNodeAffinity pod) node in
  (r.1 = true <-> spec_NodeSelector (Spec pod) ⊆ node_Labels node /\
    match required_terms pod with None => True | Some ts => Exists (fun t => selects t node) ts end) /\
  (r.2 <> [] <-> spec_NodeSelector (Spec pod) ⊆ node_Labels node /\ r.1 = false /\
    match required_terms pod with
    | None => False
    | Some ts => Exists (fun t => isEmptyNodeSelectorTerm t = false /\ term_valid t = false) ts
    end).
Proof.
  unfold RNA_Match, GetRequiredNodeAffinity. cbn [labelSelector nodeSelector].
  assert (match (if (0 <? size (spec_NodeSelector (Spec pod)))%nat
      then Some (SelectorFromSet (spec_NodeSelector (Spec pod))) else None) with
    | Some sel => negb (Sel_Matches sel (node_Labels node)) | None => false end = false <->
    spec_NodeSelector (Spec pod) ⊆ node_Labels node) as Hsel.
  { destruct (Nat.ltb_spec 0 (size (spec_NodeSelector (Spec pod)))) as [H|H].
    - by rewrite negb_false_iff, SelectorFromSet_meaning.
    - rewrite (map_size_empty_inv (spec_NodeSelector (Spec pod))) by lia. split; [|done]. intros _. apply map_empty_subseteq. }
  destruct (match (if (0 <? size (spec_NodeSelector (Spec pod)))%nat
      then Some (SelectorFromSet (spec_NodeSelector (Spec pod))) else None) with
    | Some sel => negb (Sel_Matches sel (node_Labels node)) | None => false end).
  { cbn [fst snd]. split; [|split; [done|]]; [split; [done|]|]; intros [H _]; by apply Hsel in H. }
  assert (spec_NodeSelector (Spec pod) ⊆ node_Labels node) as Hs by (by apply Hsel). clear Hsel.
  destruct (required_terms pod) as [ts|]; cbn [fmap option_fmap option_map fst snd]; [|naive_solver].
  unfold Lazy_Match, NewLazyErrorNodeSelector.
  destruct (match_terms_spec (List.filter (fun t => negb (isEmptyNodeSelectorTerm t)) ts) node []) as [H1 H2].
  cbv zeta in *. split.
  - rewrite H1, nonempty_filter. unfold selects. tauto.
  - rewrite H2, <- (nonempty_filter ts (fun t => term_valid t = false)), <- not_true_iff_false.
    assert (forall l, Exists (fun t => term_valid t = false) l <-> ~ Forall (fun t => term_valid t = true) l) as ->; [|tauto].
    intros l. induction l as [|t l IH]; [rewrite Exists_nil, Forall_nil; tauto|].
    rewrite Exists_cons, Forall_cons, IH, <- not_true_iff_false. destruct (decide (term_valid t = true)); tauto.
Qed.
