(* ===== verification/Resource.v ===== *)
(** * [framework.Resource]

    The resource vectors of the scheduler (types.go) and the request of a
    pod computed from its containers. *)

From S2P Require Import Prelude GoInt GoFloat GoStrconv Quantity ApiTypes.

(** The feature gates the code consults. *)
Class FeatureGates := {
  PodOverhead : bool;
  LocalStorageCapacityIsolation : bool
}.

Record Resource := mkResource {
  MilliCPU : Z;
  rMemory : Z;
  EphemeralStorage : Z;
  AllowedPodNumber : Z;
  ScalarResources : gmap string Z
}.

Definition zeroResource : Resource := mkResource 0 0 0 0 ∅.

#[export] Instance Resource_eq_dec : EqDecision Resource.
Proof. solve_decision. Defined.

(** A missing key of a Go map reads as zero. *)
Definition get0 (m : gmap string Z) (k : string) : Z := default 0 (m !! k).

Definition SetScalar (r : Resource) (name : string) (quantity : Z) : Resource :=
  mkResource (MilliCPU r) (rMemory r) (EphemeralStorage r) (AllowedPodNumber r)
    (<[name := quantity]> (ScalarResources r)).

Definition AddScalar (r : Resource) (name : string) (quantity : Z) : Resource :=
  SetScalar r name (get0 (ScalarResources r) name +₆₄ quantity).

Definition max (a b : Z) : Z := if b <=? a then a else b.

Section resource.
Context {arch : GoArch} {gates : FeatureGates}.

(** The body of the loop of [Resource.Add]. *)
Definition add_entry (r : Resource) (e : string * Quantity) : Resource :=
  let '(rName, rQuant) := e in
  if String.eqb rName ResourceCPU then
    mkResource (MilliCPU r +₆₄ MilliValue rQuant) (rMemory r) (EphemeralStorage r)
      (AllowedPodNumber r) (ScalarResources r)
  else if String.eqb rName ResourceMemory then
    mkResource (MilliCPU r) (rMemory r +₆₄ Value rQuant) (EphemeralStorage r)
      (AllowedPodNumber r) (ScalarResources r)
  else if String.eqb rName ResourcePods then
    mkResource (MilliCPU r) (rMemory r) (EphemeralStorage r)
      (AllowedPodNumber r +₆₄ Value rQuant) (ScalarResources r)
  else if String.eqb rName ResourceEphemeralStorage then
    if LocalStorageCapacityIsolation then
      mkResource (MilliCPU r) (rMemory r) (EphemeralStorage r +₆₄ Value rQuant)
        (AllowedPodNumber r) (ScalarResources r)
    else r
  else if IsScalarResourceName rName then AddScalar r rName (Value rQuant)
  else r.

Definition Resource_Add (r : Resource) (rl : ResourceList) : Resource :=
  fold_left add_entry (map_to_list rl) r.

Definition NewResource (rl : ResourceList) : Resource := Resource_Add zeroResource rl.

(** The body of the loop of [Resource.SetMaxResource]. *)
Definition max_entry (r : Resource) (e : string * Quantity) : Resource :=
  let '(rName, rQuantity) := e in
  if String.eqb rName ResourceMemory then
    mkResource (MilliCPU r) (max (rMemory r) (Value rQuantity)) (EphemeralStorage r)
      (AllowedPodNumber r) (ScalarResources r)
  else if String.eqb rName ResourceCPU then
    mkResource (max (MilliCPU r) (MilliValue rQuantity)) (rMemory r) (EphemeralStorage r)
      (AllowedPodNumber r) (ScalarResources r)
  else if String.eqb rName ResourceEphemeralStorage then
    if LocalStorageCapacityIsolation then
      mkResource (MilliCPU r) (rMemory r) (max (EphemeralStorage r) (Value rQuantity))
        (AllowedPodNumber r) (ScalarResources r)
    else r
  else if IsScalarResourceName rName then
    SetScalar r rName (max (get0 (ScalarResources r) rName) (Value rQuantity))
  else r.

Definition SetMaxResource (r : Resource) (rl : ResourceList) : Resource :=
  fold_left max_entry (map_to_list rl) r.

(** ** Requests of pods *)

Definition DefaultMilliCPURequest : Z := 100.
Definition DefaultMemoryRequest : Z := 200 * 1024 * 1024.

Definition GetNonzeroRequestForResource (resource : string) (requests : ResourceList) : Z :=
  if String.eqb resource ResourceCPU then
    match requests !! ResourceCPU with
    | None => DefaultMilliCPURequest
    | Some _ => MilliValue (Cpu requests)
    end
  else if String.eqb resource ResourceMemory then
    match requests !! ResourceMemory with
    | None => DefaultMemoryRequest
    | Some _ => Value (Memory requests)
    end
  else if String.eqb resource ResourceEphemeralStorage then
    if negb LocalStorageCapacityIsolation then 0
    else match requests !! ResourceEphemeralStorage with
         | None => 0 | Some q => Value q end
  else match requests !! resource with None => 0 | Some q => Value q end.

Definition GetNonzeroRequests (requests : ResourceList) : Z * Z :=
  (GetNonzeroRequestForResource ResourceCPU requests,
   GetNonzeroRequestForResource ResourceMemory requests).

Definition c_requests (c : Container) : ResourceList := Requests (c_Resources c).

(** types.go: [calculateResource], the bodies of its two loops first. *)
Definition calc_container (st : Resource * Z * Z) (c : Container) : Resource * Z * Z :=
  let '(res, non0CPU, non0Mem) := st in
  let '(cpu, mem) := GetNonzeroRequests (c_requests c) in
  (Resource_Add res (c_requests c), non0CPU +₆₄ cpu, non0Mem +₆₄ mem).

Definition calc_init_container (st : Resource * Z * Z) (c : Container) : Resource * Z * Z :=
  let '(res, non0CPU, non0Mem) := st in
  let '(cpu, mem) := GetNonzeroRequests (c_requests c) in
  (SetMaxResource res (c_requests c), max non0CPU cpu, max non0Mem mem).

Definition calculateResource (pod : Pod) : Resource * Z * Z :=
  let st := fold_left calc_container (Containers (Spec pod)) (zeroResource, 0, 0) in
  let st := fold_left calc_init_container (InitContainers (Spec pod)) st in
  let '(res, non0CPU, non0Mem) := st in
  match Overhead (Spec pod) with
  | Some overhead =>
      if PodOverhead then
        (Resource_Add res overhead,
         (match overhead !! ResourceCPU with
          | Some _ => non0CPU +₆₄ MilliValue (Cpu overhead) | None => non0CPU end),
         (match overhead !! ResourceMemory with
          | Some _ => non0Mem +₆₄ Value (Memory overhead) | None => non0Mem end))
      else st
  | None => st
  end.

(** hicev2/fit.go: [computePodResourceRequest] *)
Definition computePodResourceRequest (pod : Pod) : Resource :=
  let result := fold_left (fun r c => Resource_Add r (c_requests c))
                  (Containers (Spec pod)) zeroResource in
  let result := fold_left (fun r c => SetMaxResource r (c_requests c))
                  (InitContainers (Spec pod)) result in
  match Overhead (Spec pod) with
  | Some overhead => if PodOverhead then Resource_Add result overhead else result
  | None => result
  end.

(** ** Facts *)

Lemma max_Z a b : max a b = Z.max a b.
Proof. unfold max. destruct (Z.leb_spec b a); lia. Qed.

Lemma get0_insert m k k' v : get0 (<[k := v]> m) k' = if decide (k = k') then v else get0 m k'.
Proof. unfold get0. rewrite lookup_insert. by case_decide. Qed.

(** The entries of a resource list can be added in any order: Go's random
    iteration order does not matter. *)
Lemma add_entry_comm r e1 e2 :
  add_entry (add_entry r e1) e2 = add_entry (add_entry r e2) e1.
Proof.
  destruct e1 as [n1 q1], e2 as [n2 q2]. unfold add_entry.
  destruct (String.eqb n1 ResourceCPU), (String.eqb n1 ResourceMemory),
    (String.eqb n1 ResourcePods), (String.eqb n1 ResourceEphemeralStorage),
    (String.eqb n2 ResourceCPU), (String.eqb n2 ResourceMemory),
    (String.eqb n2 ResourcePods), (String.eqb n2 ResourceEphemeralStorage),
    LocalStorageCapacityIsolation; try reflexivity;
    try (simpl; f_equal; apply add64_swap);
    destruct (IsScalarResourceName n1), (IsScalarResourceName n2); try reflexivity;
    unfold AddScalar, SetScalar; simpl; f_equal; rewrite !get0_insert;
    (destruct (decide (n1 = n2)) as [->|Hne];
      [rewrite decide_True, !insert_insert_eq by done; f_equal; apply add64_swap
      |rewrite decide_False by done; by apply insert_insert_ne]).
Qed.

Lemma max_entry_comm r e1 e2 :
  max_entry (max_entry r e1) e2 = max_entry (max_entry r e2) e1.
Proof.
  assert (forall a b c, max (max a b) c = max (max a c) b) as Hm
    by (intros; rewrite !max_Z; lia).
  destruct e1 as [n1 q1], e2 as [n2 q2]. unfold max_entry.
  destruct (String.eqb n1 ResourceMemory), (String.eqb n1 ResourceCPU),
    (String.eqb n1 ResourceEphemeralStorage),
    (String.eqb n2 ResourceMemory), (String.eqb n2 ResourceCPU),
    (String.eqb n2 ResourceEphemeralStorage),
    LocalStorageCapacityIsolation; try reflexivity;
    try (simpl; f_equal; apply Hm);
    destruct (IsScalarResourceName n1), (IsScalarResourceName n2); try reflexivity;
    unfold SetScalar; simpl; f_equal; rewrite !get0_insert;
    (destruct (decide (n1 = n2)) as [->|Hne];
      [rewrite decide_True, !insert_insert_eq by done; f_equal; apply Hm
      |rewrite decide_False by done; by apply insert_insert_ne]).
Qed.

Lemma Resource_Add_perm r rl l :
  l ≡ₚ map_to_list rl -> fold_left add_entry l r = Resource_Add r rl.
Proof. intros Hl. apply fold_left_perm; [intros; apply add_entry_comm|done]. Qed.

Lemma SetMaxResource_perm r rl l :
  l ≡ₚ map_to_list rl -> fold_left max_entry l r = SetMaxResource r rl.
Proof. intros Hl. apply fold_left_perm; [intros; apply max_entry_comm|done]. Qed.

Lemma Resource_Add_cpu r rl :
  is_int64 (MilliCPU r) ->
  MilliCPU (Resource_Add r rl) = MilliCPU r +₆₄ MilliValue (Cpu rl).
Proof.
  intros Hr. unfold Resource_Add, Cpu, RL_Name.
  rewrite (fold_left_key add_entry MilliCPU (fun z q => z +₆₄ MilliValue q) ResourceCPU rl); auto.
  - destruct (rl !! ResourceCPU); [done|]. cbn. unfold add64. rewrite Z.add_0_r. by rewrite int64_id.
  - intros b [n q] Hn. unfold add_entry. simpl in Hn.
    destruct (String.eqb_spec n ResourceCPU); [done|]. by repeat case_match.
Qed.

Lemma Resource_Add_memory r rl :
  is_int64 (rMemory r) ->
  rMemory (Resource_Add r rl) = rMemory r +₆₄ Value (Memory rl).
Proof.
  intros Hr. unfold Resource_Add, Memory, RL_Name.
  rewrite (fold_left_key add_entry rMemory (fun z q => z +₆₄ Value q) ResourceMemory rl); auto.
  - destruct (rl !! ResourceMemory); [done|]. cbn. unfold add64. rewrite Z.add_0_r. by rewrite int64_id.
  - intros b [n q] Hn. unfold add_entry. simpl in Hn.
    destruct (String.eqb_spec n ResourceMemory); [done|]. by repeat case_match.
Qed.

Lemma SetMaxResource_cpu r rl :
  MilliCPU (SetMaxResource r rl) =
  match rl !! ResourceCPU with Some q => max (MilliCPU r) (MilliValue q) | None => MilliCPU r end.
Proof.
  unfold SetMaxResource.
  apply (fold_left_key max_entry MilliCPU (fun z q => max z (MilliValue q)) ResourceCPU rl); auto.
  intros b [n q] Hn. unfold max_entry. simpl in Hn.
  destruct (String.eqb_spec n ResourceCPU); [done|]. by repeat case_match.
Qed.

Lemma named_not_scalar :
  IsScalarResourceName ResourceCPU = false /\ IsScalarResourceName ResourceMemory = false /\
  IsScalarResourceName ResourcePods = false /\
  IsScalarResourceName ResourceEphemeralStorage = false.
Proof. vm_compute. done. Qed.

(** Every scalar dimension is added on its own. *)
Lemma Resource_Add_scalar r rl k :
  get0 (ScalarResources (Resource_Add r rl)) k =
  match rl !! k with
  | Some q => if IsScalarResourceName k then get0 (ScalarResources r) k +₆₄ Value q
              else get0 (ScalarResources r) k
  | None => get0 (ScalarResources r) k
  end.
Proof.
  destruct named_not_scalar as (Hc & Hm & Hp & He). unfold Resource_Add.
  apply (fold_left_key add_entry (fun r => get0 (ScalarResources r) k)
    (fun z q => if IsScalarResourceName k then z +₆₄ Value q else z) k rl); [| |done].
  - intros b [n q] Hn. unfold add_entry. simpl in Hn. repeat case_match; try done.
    unfold AddScalar, SetScalar. simpl. rewrite get0_insert. by rewrite decide_False.
  - intros b q. unfold add_entry.
    destruct (String.eqb_spec k ResourceCPU) as [->|]; [by rewrite Hc|].
    destruct (String.eqb_spec k ResourceMemory) as [->|]; [by rewrite Hm|].
    destruct (String.eqb_spec k ResourcePods) as [->|]; [by rewrite Hp|].
    destruct (String.eqb_spec k ResourceEphemeralStorage) as [->|]; [rewrite He; by case_match|].
    destruct (IsScalarResourceName k); [|done].
    unfold AddScalar, SetScalar. simpl. rewrite get0_insert. by rewrite decide_True.
Qed.

(** hicev2's request is the resource part of the scheduler's own. *)
Lemma computePodResourceRequest_calculate pod :
  computePodResourceRequest pod = (calculateResource pod).1.1.
Proof.
  assert (forall l st, (fold_left calc_container l st).1.1
    = fold_left (fun r c => Resource_Add r (c_requests c)) l st.1.1) as Hf.
  { induction l as [|c l IH]; intros [[r a] b]; simpl; [done|]. by rewrite IH. }
  assert (forall l st, (fold_left calc_init_container l st).1.1
    = fold_left (fun r c => SetMaxResource r (c_requests c)) l st.1.1) as Hg.
  { induction l as [|c l IH]; intros [[r a] b]; simpl; [done|]. by rewrite IH. }
  unfold computePodResourceRequest, calculateResource.
  specialize (Hf (Containers (Spec pod)) (zeroResource, 0, 0)). cbn [fst] in Hf.
  specialize (Hg (InitContainers (Spec pod))
    (fold_left calc_container (Containers (Spec pod)) (zeroResource, 0, 0))).
  rewrite Hf in Hg. destruct (fold_left calc_init_container _ _) as [[r a] b].
  cbn [fst] in Hg. rewrite <- Hg.
  destruct (Overhead (Spec pod)); [|done]. by destruct PodOverhead.
Qed.
End resource.
