(* ===== verification/AffinityTerms.v ===== *)
(** * [framework.PodInfo] and its affinity terms

    A [PodInfo] (types.go) is a pod with its inter-pod affinity terms parsed
    once: the label selectors are converted and the namespaces resolved.  The
    state that two plugins about pods keep for a cycle follows. *)

From S2P Require Import Prelude GoInt GoFloat GoStrconv Quantity ApiTypes Labels.

Record AffinityTerm := mkAffinityTerm {
  at_Namespaces : gset string;
  at_Selector : Selector;
  at_TopologyKey : string;
  at_NamespaceSelector : Selector
}.

(** [WeightedAffinityTerm] is a term with its weight. *)
Record WeightedAffinityTerm := mkWeightedAffinityTerm {
  wat_AffinityTerm : AffinityTerm; wat_Weight : Z
}.

(** [AffinityTerm.Matches] *)
Definition Term_Matches (at_ : AffinityTerm) (pod : Pod) (nsLabels : gmap string string)
    (nsSelectorEnabled : bool) : bool :=
  if bool_decide (Namespace pod ∈ at_Namespaces at_)
     || (nsSelectorEnabled && Sel_Matches (at_NamespaceSelector at_) nsLabels)
  then Sel_Matches (at_Selector at_) (Labels pod)
  else false.

Definition getNamespacesFromPodAffinityTerm (pod : Pod) (term : PodAffinityTerm) : gset string :=
  match pat_Namespaces term, pat_NamespaceSelector term with
  | [], None => {[Namespace pod]}
  | l, _ => list_to_set l
  end.

Definition newAffinityTerm (pod : Pod) (term : PodAffinityTerm) : AffinityTerm + SelError :=
  match LabelSelectorAsSelector (pat_LabelSelector term) with
  | inr e => inr e
  | inl selector =>
      let namespaces := getNamespacesFromPodAffinityTerm pod term in
      match LabelSelectorAsSelector (pat_NamespaceSelector term) with
      | inr e => inr e
      | inl nsSelector =>
          inl (mkAffinityTerm namespaces selector (pat_TopologyKey term) nsSelector)
      end
  end.

(** On an error the terms are dropped. *)
Fixpoint getAffinityTerms (pod : Pod) (v1Terms : list PodAffinityTerm) : list AffinityTerm + SelError :=
  match v1Terms with
  | [] => inl []
  | term :: v1Terms =>
      match newAffinityTerm pod term with
      | inr e => inr e
      | inl t => match getAffinityTerms pod v1Terms with inl ts => inl (t :: ts) | inr e => inr e end
      end
  end.

Fixpoint getWeightedAffinityTerms (pod : Pod) (v1Terms : list (Z * PodAffinityTerm))
  : list WeightedAffinityTerm + SelError :=
  match v1Terms with
  | [] => inl []
  | term :: v1Terms =>
      match newAffinityTerm pod term.2 with
      | inr e => inr e
      | inl t => match getWeightedAffinityTerms pod v1Terms with
                 | inl ts => inl (mkWeightedAffinityTerm t term.1 :: ts)
                 | inr e => inr e
                 end
      end
  end.

Definition getPodAffinityTerms (affinity : option Affinity) : list PodAffinityTerm :=
  match affinity with
  | Some a => match PodAffinity a with Some r => RequiredTerms r | None => [] end
  | None => []
  end.

Definition getPodAntiAffinityTerms (affinity : option Affinity) : list PodAffinityTerm :=
  match affinity with
  | Some a => match PodAntiAffinity a with Some r => RequiredTerms r | None => [] end
  | None => []
  end.

Definition preferred_terms (rules : option PodAffinityRules) : list (Z * PodAffinityTerm) :=
  match rules with Some r => PreferredTerms r | None => [] end.

Record PodInfo := mkPodInfo {
  pi_Pod : Pod;
  RequiredAffinityTerms : list AffinityTerm;
  RequiredAntiAffinityTerms : list AffinityTerm;
  PreferredAffinityTerms : list WeightedAffinityTerm;
  PreferredAntiAffinityTerms : list WeightedAffinityTerm;
  (** the aggregated errors, with the list each comes from *)
  ParseError : list (string * SelError)
}.

Definition terms_or_nil {A} (r : list A + SelError) : list A :=
  match r with inl l => l | inr _ => [] end.
Definition terms_error {A} (name : string) (r : list A + SelError) : list (string * SelError) :=
  match r with inl _ => [] | inr e => [(name, e)] end.

(** [NewPodInfo]: [Update] of an empty [PodInfo]. *)
Definition NewPodInfo (pod : Pod) : PodInfo :=
  let affinity := spec_Affinity (Spec pod) in
  let preferred := preferred_terms (affinity ≫= PodAffinity) in
  let preferredAnti := preferred_terms (affinity ≫= PodAntiAffinity) in
  let required := getAffinityTerms pod (getPodAffinityTerms affinity) in
  let requiredAnti := getAffinityTerms pod (getPodAntiAffinityTerms affinity) in
  let weighted := getWeightedAffinityTerms pod preferred in
  let weightedAnti := getWeightedAffinityTerms pod preferredAnti in
  mkPodInfo pod (terms_or_nil required) (terms_or_nil requiredAnti)
    (terms_or_nil weighted) (terms_or_nil weightedAnti)
    (terms_error "requiredAffinityTerms" required
       ++ terms_error "requiredAntiAffinityTerms" requiredAnti
       ++ terms_error "preferredAffinityTerms" weighted
       ++ terms_error "preferredAntiAffinityTerms" weightedAnti).

(** [PodInfo.Update]: the terms of a pod do not change, those of another pod
    under the same name are parsed anew. *)
Definition PodInfo_Update (pi : PodInfo) (pod : Pod) : PodInfo :=
  if String.eqb (UID (pi_Pod pi)) (UID pod) then
    mkPodInfo pod (RequiredAffinityTerms pi) (RequiredAntiAffinityTerms pi)
      (PreferredAffinityTerms pi) (PreferredAntiAffinityTerms pi) (ParseError pi)
  else NewPodInfo pod.

Lemma NewPodInfo_Pod pod : pi_Pod (NewPodInfo pod) = pod.
Proof. done. Qed.

Lemma PodInfo_Update_Pod pi pod : pi_Pod (PodInfo_Update pi pod) = pod.
Proof. unfold PodInfo_Update. by destruct (String.eqb _ _). Qed.

(** * State of the plugins about other pods

    What InterPodAffinity and PodTopologySpread compute once per scheduling
    cycle and keep in the cycle state: counts of matching pods per topology
    (plugins/interpodaffinity and plugins/podtopologyspread). *)

(** [topologyPair]: a label key and its value. *)
Abbreviation topologyPair := (string * string)%type.

(** [topologyToMatchedTermCount] *)
Abbreviation topologyToMatchedTermCount := (gmap (string * string) Z).

(** [interpodaffinity.preFilterState] *)
Record IPA_preFilterState := mkIPAState {
  existingAntiAffinityCounts : topologyToMatchedTermCount;
  affinityCounts : topologyToMatchedTermCount;
  antiAffinityCounts : topologyToMatchedTermCount;
  ipa_podInfo : PodInfo;
  ipa_namespaceLabels : gmap string string;
  ipa_enableNamespaceSelector : bool
}.

(** [scoreMap] and [interpodaffinity.preScoreState] *)
Abbreviation scoreMap := (gmap string (gmap string Z)).

Record IPA_preScoreState := mkIPAScoreState {
  topologyScore : scoreMap;
  ips_podInfo : PodInfo;
  ips_namespaceLabels : gmap string string
}.

(** [topologySpreadConstraint]: a constraint with its selector parsed. *)
Record topologySpreadConstraint := mkSpreadConstraint {
  sc_MaxSkew : Z;
  sc_TopologyKey : string;
  sc_Selector : Selector
}.

(** [criticalPaths]: two topology values with few matching pods. *)
Record criticalPaths := mkCriticalPaths {
  cp0 : string * Z;
  cp1 : string * Z
}.

(** [podtopologyspread.preFilterState] *)
Record Spread_preFilterState := mkSpreadState {
  sps_Constraints : list topologySpreadConstraint;
  TpKeyToCriticalPaths : gmap string criticalPaths;
  TpPairToMatchNum : gmap (string * string) Z
}.

(** [podtopologyspread.preScoreState] *)
Record Spread_preScoreState := mkSpreadScoreState {
  spc_Constraints : list topologySpreadConstraint;
  IgnoredNodes : gset string;
  TopologyPairToPodCounts : gmap (string * string) Z;
  TopologyNormalizingWeight : list float64
}.
