(* ===== verification/HostPorts.v ===== *)
(** * [framework.HostPortInfo]

    The host ports taken on a node (types.go): a map from IP to a set of
    (protocol, port) pairs, in which the IP 0.0.0.0 stands for every
    address. *)

From S2P Require Import Prelude.

Abbreviation ProtocolPort := (string * Z)%type.
Abbreviation HostPortInfo := (gmap string (gset (string * Z))).

Definition DefaultBindAllHostIP : string := "0.0.0.0".
Definition ProtocolTCP : string := "TCP".

Definition NewProtocolPort (protocol : string) (port : Z) : ProtocolPort :=
  (if (String.length protocol =? 0)%nat then ProtocolTCP else protocol, port).

Definition sanitize (ip protocol : string) : string * string :=
  (if (String.length ip =? 0)%nat then DefaultBindAllHostIP else ip,
   if (String.length protocol =? 0)%nat then ProtocolTCP else protocol).

Definition HP_Add (h : HostPortInfo) (ip protocol : string) (port : Z) : HostPortInfo :=
  if port <=? 0 then h
  else
    let '(ip, protocol) := sanitize ip protocol in
    let pp := NewProtocolPort protocol port in
    match h !! ip with
    | None => <[ip := {[pp]}]> h
    | Some m => <[ip := m ∪ {[pp]}]> h
    end.

Definition HP_Remove (h : HostPortInfo) (ip protocol : string) (port : Z) : HostPortInfo :=
  if port <=? 0 then h
  else
    let '(ip, protocol) := sanitize ip protocol in
    let pp := NewProtocolPort protocol port in
    match h !! ip with
    | None => h
    | Some m =>
        let m' := m ∖ {[pp]} in
        if (size m' =? 0)%nat then delete ip h else <[ip := m']> h
    end.

Definition HP_Len (h : HostPortInfo) : Z :=
  fold_left (fun n e => n + Z.of_nat (size e.2)) (map_to_list h) 0.

Definition CheckConflict (h : HostPortInfo) (ip protocol : string) (port : Z) : bool :=
  if port <=? 0 then false
  else
    let '(ip, protocol) := sanitize ip protocol in
    let pp := NewProtocolPort protocol port in
    if String.eqb ip DefaultBindAllHostIP then
      existsb (fun e => bool_decide (pp ∈ e.2)) (map_to_list h)
    else
      existsb (fun key => match h !! key with
                          | Some m => bool_decide (pp ∈ m) | None => false end)
        [DefaultBindAllHostIP; ip].

(** ** Specification: the set of taken (ip, protocol, port) triples *)

Definition taken (h : HostPortInfo) (ip : string) (pp : ProtocolPort) : Prop :=
  exists m, h !! ip = Some m /\ pp ∈ m.

(** No address is kept with an empty set. *)
Definition hp_wf (h : HostPortInfo) : Prop := forall ip m, h !! ip = Some m -> m <> ∅.

(** The triple an operation is about, after defaulting. *)
Definition key_ip (ip : string) : string := (sanitize ip "").1.
Definition key_pp (protocol : string) (port : Z) : ProtocolPort :=
  NewProtocolPort (sanitize "" protocol).2 port.

Lemma sanitize_key ip protocol : sanitize ip protocol = (key_ip ip, (sanitize "" protocol).2).
Proof. reflexivity. Qed.

Lemma taken_Add h ip protocol port ip' pp' :
  0 < port ->
  taken (HP_Add h ip protocol port) ip' pp' <->
  taken h ip' pp' \/ (ip' = key_ip ip /\ pp' = key_pp protocol port).
Proof.
  intros Hp. unfold HP_Add. destruct (Z.leb_spec port 0); [lia|].
  rewrite sanitize_key. fold (key_pp protocol port). generalize (key_pp protocol port) as pp.
  generalize (key_ip ip) as k. intros k pp. unfold taken.
  destruct (h !! k) as [m|] eqn:E; (destruct (decide (k = ip')) as [->|Hne];
    [setoid_rewrite lookup_insert_eq|setoid_rewrite lookup_insert_ne; [|done]]);
    naive_solver set_solver.
Qed.

Lemma taken_Remove h ip protocol port ip' pp' :
  0 < port ->
  taken (HP_Remove h ip protocol port) ip' pp' <->
  taken h ip' pp' /\ ~ (ip' = key_ip ip /\ pp' = key_pp protocol port).
Proof.
  intros Hp. unfold HP_Remove. destruct (Z.leb_spec port 0); [lia|].
  rewrite sanitize_key. fold (key_pp protocol port). generalize (key_pp protocol port) as pp.
  generalize (key_ip ip) as k. intros k pp. unfold taken.
  destruct (h !! k) as [m|] eqn:E; [|naive_solver].
  destruct (Nat.eqb_spec (size (m ∖ {[pp]})) 0) as [Hs|Hs].
  - apply size_empty_inv in Hs. destruct (decide (k = ip')) as [->|Hne].
    + setoid_rewrite lookup_delete_eq. rewrite E. split; [naive_solver|].
      intros [(? & [= <-] & ?) ?]. set_solver.
    + setoid_rewrite lookup_delete_ne; [|done]. naive_solver.
  - destruct (decide (k = ip')) as [->|Hne].
    + setoid_rewrite lookup_insert_eq. rewrite E. naive_solver set_solver.
    + setoid_rewrite lookup_insert_ne; [|done]. naive_solver.
Qed.

Lemma hp_wf_empty : hp_wf ∅.
Proof. by intros ip m ?%lookup_empty_Some. Qed.

Lemma hp_wf_Add h ip protocol port : hp_wf h -> hp_wf (HP_Add h ip protocol port).
Proof.
  intros Hwf. unfold HP_Add. case_match; [done|]. rewrite sanitize_key.
  destruct (h !! key_ip ip) as [m|] eqn:E; intros ip' m'; rewrite lookup_insert_Some;
    intros [[_ <-]|[_ ?]]; [set_solver|by eapply Hwf|set_solver|by eapply Hwf].
Qed.

Lemma hp_wf_Remove h ip protocol port : hp_wf h -> hp_wf (HP_Remove h ip protocol port).
Proof.
  intros Hwf. unfold HP_Remove. case_match; [done|]. rewrite sanitize_key.
  destruct (h !! key_ip ip) as [m|] eqn:E; [|done].
  destruct (Nat.eqb_spec (size (m ∖ {[NewProtocolPort (sanitize "" protocol).2 port]})) 0);
    intros ip' m'.
  - rewrite lookup_delete_Some. intros [_ ?]. by eapply Hwf.
  - rewrite lookup_insert_Some. intros [[_ <-]|[_ ?]]; [|by eapply Hwf].
    intros E0. rewrite E0 in *. by rewrite size_empty in *.
Qed.

(** Two well-formed tables with the same triples are equal. *)
Lemma hp_ext h1 h2 :
  hp_wf h1 -> hp_wf h2 -> (forall ip pp, taken h1 ip pp <-> taken h2 ip pp) -> h1 = h2.
Proof.
  intros W1 W2 H. apply map_eq. intros ip.
  destruct (h1 !! ip) as [m1|] eqn:E1, (h2 !! ip) as [m2|] eqn:E2; [| | |done].
  - f_equal. apply set_eq. intros pp. specialize (H ip pp). unfold taken in H.
    rewrite E1, E2 in H. naive_solver.
  - destruct (set_choose_L m1) as [pp Hpp]; [by eapply W1|].
    destruct (proj1 (H ip pp)) as (m & ? & ?); [by exists m1|congruence].
  - destruct (set_choose_L m2) as [pp Hpp]; [by eapply W2|].
    destruct (proj2 (H ip pp)) as (m & ? & ?); [by exists m2|congruence].
Qed.

(** [CheckConflict] answers true exactly when the port is positive and
    some taken triple has the same protocol and port on an overlapping
    address, where 0.0.0.0 overlaps every address. *)
Theorem CheckConflict_spec h ip protocol port :
  CheckConflict h ip protocol port = true <->
  0 < port /\ exists ip', taken h ip' (key_pp protocol port) /\
    (key_ip ip = DefaultBindAllHostIP \/ ip' = DefaultBindAllHostIP \/ ip' = key_ip ip).
Proof.
  unfold CheckConflict. destruct (Z.leb_spec port 0); [split; [done|lia]|].
  rewrite sanitize_key. fold (key_pp protocol port). generalize (key_pp protocol port) as pp.
  generalize (key_ip ip) as k. intros k pp. unfold taken.
  destruct (String.eqb_spec k DefaultBindAllHostIP) as [->|Hne]; rewrite existsb_exists.
  - split.
    + intros ([ip' m] & Hin & Hb). apply list_elem_of_In, elem_of_map_to_list in Hin.
      apply bool_decide_eq_true in Hb. split; [done|]. naive_solver.
    + intros (_ & ip' & (m & Hm & Hpp) & _). exists (ip', m).
      rewrite bool_decide_eq_true. split; [|done].
      by apply list_elem_of_In, elem_of_map_to_list.
  - split.
    + intros (x & Hin & Hb). split; [done|]. exists x.
      destruct (h !! x) as [m|]; [|done]. apply bool_decide_eq_true in Hb.
      simpl in Hin. naive_solver.
    + intros (_ & ip' & (m & Hm & Hpp) & Ho). exists ip'. rewrite Hm, bool_decide_eq_true.
      simpl. naive_solver.
Qed.

(** Releasing a port that was free before it was taken restores the
    table: [Remove] undoes [Add]. *)
Theorem HP_Add_Remove h ip protocol port :
  hp_wf h -> ~ taken h (key_ip ip) (key_pp protocol port) ->
  HP_Remove (HP_Add h ip protocol port) ip protocol port = h.
Proof.
  intros Hwf Hfree. destruct (Z.le_gt_cases port 0) as [Hp|Hp].
  { unfold HP_Add, HP_Remove. by destruct (Z.leb_spec port 0); [|lia]. }
  apply hp_ext; [by apply hp_wf_Remove, hp_wf_Add|done|].
  intros ip' pp'. rewrite taken_Remove, taken_Add by lia. naive_solver.
Qed.

Lemma HP_Add_Remove_witness :
  let h := HP_Add ∅ "10.0.0.1" "UDP" 53 in
  HP_Remove (HP_Add h "" "" 80) "" "" 80 = h.
Proof.
  intros h. apply (HP_Add_Remove h "" "" 80).
  - apply hp_wf_Add, hp_wf_empty.
  - intros (m & Hm & _). vm_compute in Hm. discriminate.
Defined.
