(* ===== verification/NodeInfo.v ===== *)
(** * [framework.NodeInfo]

    The per-node aggregate the scheduler works on (types.go): the pods of a
    node with the sums of their requests, the host ports and the claims they
    use.

    Two pieces of state live outside a [NodeInfo] and are threaded as a
    [World]: the package variable [generation], and the maps
    [PVCRefCounts], which [Clone] shares between a node and its copies, so
    that a [NodeInfo] holds a reference to one of them. *)

From S2P Require Import Prelude GoInt GoFloat GoStrconv Quantity ApiTypes Labels AffinityTerms Resource HostPorts.

Record World := mkWorld {
  generation : Z;
  pvc_maps : list (gmap string Z)
}.

(** A reference to a map of [pvc_maps]. *)
Abbreviation pvc_ref := nat.

Definition nextGeneration (w : World) : Z * World :=
  let g := generation w +₆₄ 1 in (g, mkWorld g (pvc_maps w)).

Record ImageStateSummary := mkImageStateSummary { is_Size : Z; is_NumNodes : Z }.

Record NodeInfo := mkNodeInfo {
  ni_node : option Node;
  Pods : list PodInfo;
  PodsWithAffinity : list PodInfo;
  PodsWithRequiredAntiAffinity : list PodInfo;
  UsedPorts : HostPortInfo;
  Requested : Resource;
  NonZeroRequested : Resource;
  Allocatable : Resource;
  ImageStates : gmap string ImageStateSummary;
  PVCRefCounts : pvc_ref;
  Generation : Z
}.

(** [GetPodKey] *)
Definition GetPodKey (pod : Pod) : string * error :=
  if (String.length (UID pod) =? 0)%nat
  then (""%string, Some "cannot get cache key for pod with empty UID"%string)
  else (UID pod, None).

Definition podWithAffinity (p : Pod) : bool :=
  match spec_Affinity (Spec p) with
  | Some a => match PodAffinity a, PodAntiAffinity a with None, None => false | _, _ => true end
  | None => false
  end.

Definition podWithRequiredAntiAffinity (p : Pod) : bool :=
  match spec_Affinity (Spec p) with
  | Some a =>
      match PodAntiAffinity a with
      | Some t => negb (length (RequiredTerms t) =? 0)%nat
      | None => false
      end
  | None => false
  end.

(** Index of the first pod with key [k]; pods without a key are skipped. *)
Definition has_key (k : string) (p : PodInfo) : bool :=
  match GetPodKey (pi_Pod p) with
  | (k2, None) => String.eqb k k2
  | (_, Some _) => false
  end.

Fixpoint index_of (k : string) (s : list PodInfo) : option nat :=
  match s with
  | [] => None
  | p :: s' => if has_key k p then Some O else S <$> index_of k s'
  end.

(** [s[i] = s[len(s)-1]; s = s[:len(s)-1]] *)
Definition swap_remove (s : list PodInfo) (i : nat) : list PodInfo :=
  match last s with
  | Some x => take (length s - 1) (<[i := x]> s)
  | None => s
  end.

Definition removeFromSlice (s : list PodInfo) (k : string) : list PodInfo :=
  match index_of k s with Some i => swap_remove s i | None => s end.

(** [updateUsedPorts] *)
Definition pod_ports (pod : Pod) : list ContainerPort :=
  concat (map c_Ports (Containers (Spec pod))).

Definition updateUsedPorts (pod : Pod) (add : bool) (h : HostPortInfo) : HostPortInfo :=
  fold_left (fun h p =>
    if add then HP_Add h (HostIP p) (Protocol p) (HostPort p)
    else HP_Remove h (HostIP p) (Protocol p) (HostPort p)) (pod_ports pod) h.

(** [updatePVCRefCounts], on the map a reference leads to. *)
Definition pvc_key (pod : Pod) (claim : string) : string :=
  str_app (Namespace pod) (str_app "/" claim).

Definition update_pvc_map (pod : Pod) (add : bool) (m : gmap string Z) : gmap string Z :=
  fold_left (fun m v =>
    match v_PersistentVolumeClaim v with
    | None => m
    | Some claim =>
        let key := pvc_key pod claim in
        if add then <[key := get0 m key +₆₄ 1]> m
        else
          let c := get0 m key -₆₄ 1 in
          if c <=? 0 then delete key m else <[key := c]> m
    end) (Volumes (Spec pod)) m.

Definition updatePVCRefCounts (pod : Pod) (add : bool) (r : pvc_ref) (w : World) : World :=
  mkWorld (generation w) (alter (update_pvc_map pod add) r (pvc_maps w)).

Section nodeinfo.
Context {arch : GoArch} {gates : FeatureGates}.

(** Adding the scalar dimensions of a request, entry by entry. *)
Definition add_scalars (m d : gmap string Z) : gmap string Z :=
  fold_left (fun m e => <[e.1 := get0 m e.1 +₆₄ e.2]> m) (map_to_list d) m.

Definition sub_scalars (m d : gmap string Z) : gmap string Z :=
  fold_left (fun m e => <[e.1 := get0 m e.1 -₆₄ e.2]> m) (map_to_list d) m.

Definition AddPodInfo (podInfo : PodInfo) (n : NodeInfo) (w : World) : NodeInfo * World :=
  let '(res, non0CPU, non0Mem) := calculateResource (pi_Pod podInfo) in
  let rq := Requested n in
  let nz := NonZeroRequested n in
  let w := updatePVCRefCounts (pi_Pod podInfo) true (PVCRefCounts n) w in
  let '(g, w) := nextGeneration w in
  (mkNodeInfo (ni_node n) (Pods n ++ [podInfo])
     (if podWithAffinity (pi_Pod podInfo) then PodsWithAffinity n ++ [podInfo]
      else PodsWithAffinity n)
     (if podWithRequiredAntiAffinity (pi_Pod podInfo)
      then PodsWithRequiredAntiAffinity n ++ [podInfo] else PodsWithRequiredAntiAffinity n)
     (updateUsedPorts (pi_Pod podInfo) true (UsedPorts n))
     (mkResource (MilliCPU rq +₆₄ MilliCPU res) (rMemory rq +₆₄ rMemory res)
        (EphemeralStorage rq +₆₄ EphemeralStorage res) (AllowedPodNumber rq)
        (add_scalars (ScalarResources rq) (ScalarResources res)))
     (mkResource (MilliCPU nz +₆₄ non0CPU) (rMemory nz +₆₄ non0Mem)
        (EphemeralStorage nz) (AllowedPodNumber nz) (ScalarResources nz))
     (Allocatable n) (ImageStates n) (PVCRefCounts n) g, w).

Definition AddPod (pod : Pod) (n : NodeInfo) (w : World) : NodeInfo * World :=
  AddPodInfo (NewPodInfo pod) n w.

(** [RemovePod]: a pod that is not found is an error, whose message reads the
    name of the node and so panics when the node object was removed.  The two
    affinity slices are changed before the pod is looked up. *)
Definition RemovePod (pod : Pod) (n : NodeInfo) (w : World) : outcome (NodeInfo * World * error) :=
  match GetPodKey pod with
  | (_, Some e) => Ret (n, w, Some e)
  | (k, None) =>
      let aff := if podWithAffinity pod then removeFromSlice (PodsWithAffinity n) k
                 else PodsWithAffinity n in
      let anti := if podWithRequiredAntiAffinity pod
                  then removeFromSlice (PodsWithRequiredAntiAffinity n) k
                  else PodsWithRequiredAntiAffinity n in
      match index_of k (Pods n) with
      | Some i =>
          let '(res, non0CPU, non0Mem) := calculateResource pod in
          let rq := Requested n in
          let nz := NonZeroRequested n in
          let w := updatePVCRefCounts pod false (PVCRefCounts n) w in
          let '(g, w) := nextGeneration w in
          Ret (mkNodeInfo (ni_node n) (swap_remove (Pods n) i) aff anti
                 (updateUsedPorts pod false (UsedPorts n))
                 (mkResource (MilliCPU rq -₆₄ MilliCPU res) (rMemory rq -₆₄ rMemory res)
                    (EphemeralStorage rq -₆₄ EphemeralStorage res) (AllowedPodNumber rq)
                    (sub_scalars (ScalarResources rq) (ScalarResources res)))
                 (mkResource (MilliCPU nz -₆₄ non0CPU) (rMemory nz -₆₄ non0Mem)
                    (EphemeralStorage nz) (AllowedPodNumber nz) (ScalarResources nz))
                 (Allocatable n) (ImageStates n) (PVCRefCounts n) g, w, None)
      | None =>
          match ni_node n with
          | Some node =>
              Ret (mkNodeInfo (ni_node n) (Pods n) aff anti (UsedPorts n) (Requested n)
                     (NonZeroRequested n) (Allocatable n) (ImageStates n) (PVCRefCounts n)
                     (Generation n), w,
                   Some (str_app "no corresponding pod " (str_app (Name pod)
                     (str_app " in pods of node " (node_Name node)))))
          | None => Panic "invalid memory address or nil pointer dereference"
          end
      end
  end.

(** [NewNodeInfo()] allocates the map of claims. *)
Definition NewNodeInfo (w : World) : NodeInfo * World :=
  let '(g, w) := nextGeneration w in
  (mkNodeInfo None [] [] [] ∅ zeroResource zeroResource zeroResource ∅ (length (pvc_maps w)) g,
   mkWorld (generation w) (pvc_maps w ++ [∅])).

(** [NewNodeInfo(pods...)] *)
Definition NewNodeInfoWith (pods : list Pod) (w : World) : NodeInfo * World :=
  fold_left (fun '(n, w) p => AddPod p n w) pods (NewNodeInfo w).

(** [Clone] copies every slice, map and resource but the map of claims. *)
Definition Clone (n : NodeInfo) : NodeInfo := n.

Definition SetNode (node : Node) (n : NodeInfo) (w : World) : NodeInfo * World :=
  let '(g, w) := nextGeneration w in
  (mkNodeInfo (Some node) (Pods n) (PodsWithAffinity n) (PodsWithRequiredAntiAffinity n)
     (UsedPorts n) (Requested n) (NonZeroRequested n) (NewResource (node_Allocatable node))
     (ImageStates n) (PVCRefCounts n) g, w).

Definition RemoveNode (n : NodeInfo) (w : World) : NodeInfo * World :=
  let '(g, w) := nextGeneration w in
  (mkNodeInfo None (Pods n) (PodsWithAffinity n) (PodsWithRequiredAntiAffinity n)
     (UsedPorts n) (Requested n) (NonZeroRequested n) (Allocatable n)
     (ImageStates n) (PVCRefCounts n) g, w).

(** [FilterOutPods] *)
Definition FilterOutPods (n : NodeInfo) (pods : list Pod) : list Pod :=
  match ni_node n with
  | None => pods
  | Some node =>
      filter (fun p =>
        negb (String.eqb (NodeName (Spec p)) (node_Name node)) ||
        match GetPodKey p with
        | (_, Some _) => false
        | (podKey, None) => existsb (fun np => String.eqb (GetPodKey (pi_Pod np)).1 podKey) (Pods n)
        end) pods
  end.

(** ** Invariant: the aggregates are the sums over the pods *)

Definition sum64 (l : list Z) : Z := foldr add64 0 l.

Definition pod_cpu (p : PodInfo) : Z := MilliCPU (calculateResource (pi_Pod p)).1.1.
Definition pod_mem (p : PodInfo) : Z := rMemory (calculateResource (pi_Pod p)).1.1.
Definition pod_eph (p : PodInfo) : Z := EphemeralStorage (calculateResource (pi_Pod p)).1.1.
Definition pod_scalar (k : string) (p : PodInfo) : Z :=
  get0 (ScalarResources (calculateResource (pi_Pod p)).1.1) k.
Definition pod_non0_cpu (p : PodInfo) : Z := (calculateResource (pi_Pod p)).1.2.
Definition pod_non0_mem (p : PodInfo) : Z := (calculateResource (pi_Pod p)).2.

Record ni_sums (n : NodeInfo) : Prop := {
  sums_cpu : MilliCPU (Requested n) = sum64 (map pod_cpu (Pods n));
  sums_mem : rMemory (Requested n) = sum64 (map pod_mem (Pods n));
  sums_eph : EphemeralStorage (Requested n) = sum64 (map pod_eph (Pods n));
  sums_scalar : forall k, get0 (ScalarResources (Requested n)) k = sum64 (map (pod_scalar k) (Pods n));
  sums_non0_cpu : MilliCPU (NonZeroRequested n) = sum64 (map pod_non0_cpu (Pods n));
  sums_non0_mem : rMemory (NonZeroRequested n) = sum64 (map pod_non0_mem (Pods n))
}.

Lemma sum64_int64 l : is_int64 (sum64 l).
Proof. destruct l; simpl; auto with kubehice. Qed.

(** Amounts that are not negative and whose sum fits add up exactly. *)
Lemma sum64_exact l : Forall (fun x => 0 <= x) l -> Zsum l <= MaxInt64 -> sum64 l = Zsum l /\ 0 <= Zsum l.
Proof.
  unfold Zsum. induction 1 as [|x l Hx Hl IH]; simpl; [lia|]. intros Hb.
  assert (0 <= foldr Z.add 0 l) as H0 by (clear -Hl; induction Hl; simpl; lia).
  destruct IH as [-> _]; [lia|]. split; [|lia]. apply add64_exact. int_unfold. lia.
Qed.

Lemma sum64_perm l l' : l ≡ₚ l' -> sum64 l = sum64 l'.
Proof.
  induction 1; simpl; try congruence.
  rewrite !add64_assoc. f_equal. apply add64_comm.
Qed.

Lemma sum64_snoc l x : sum64 (l ++ [x]) = sum64 l +₆₄ x.
Proof.
  rewrite (sum64_perm (l ++ [x]) (x :: l)) by (symmetry; apply Permutation_cons_append).
  simpl. apply add64_comm.
Qed.

Lemma sum64_cons_sub l x : sum64 (x :: l) -₆₄ x = sum64 l.
Proof. simpl. rewrite add64_comm. apply add64_sub64, sum64_int64. Qed.

Lemma get0_add_scalars m d k : is_int64 (get0 m k) ->
  get0 (add_scalars m d) k = get0 m k +₆₄ get0 d k.
Proof.
  intros Hm. unfold add_scalars.
  etransitivity;
    [apply (fold_left_key (fun m e => <[e.1 := get0 m e.1 +₆₄ e.2]> m)
              (fun m => get0 m k) (fun z q => z +₆₄ q) k d); [..|done]|].
  - intros b [k' q] Hn. simpl in *. rewrite get0_insert. by rewrite decide_False.
  - intros b q. simpl. rewrite get0_insert. by rewrite decide_True.
  - unfold get0 at 4. destruct (d !! k); simpl; [done|].
    unfold add64. rewrite Z.add_0_r. by rewrite int64_id.
Qed.

Lemma get0_sub_scalars m d k : is_int64 (get0 m k) ->
  get0 (sub_scalars m d) k = get0 m k -₆₄ get0 d k.
Proof.
  intros Hm. unfold sub_scalars.
  etransitivity;
    [apply (fold_left_key (fun m e => <[e.1 := get0 m e.1 -₆₄ e.2]> m)
              (fun m => get0 m k) (fun z q => z -₆₄ q) k d); [..|done]|].
  - intros b [k' q] Hn. simpl in *. rewrite get0_insert. by rewrite decide_False.
  - intros b q. simpl. rewrite get0_insert. by rewrite decide_True.
  - unfold get0 at 4. destruct (d !! k); simpl; [done|].
    unfold sub64. rewrite Z.sub_0_r. by rewrite int64_id.
Qed.

(** The swap with the last element removes exactly the element found. *)
Lemma swap_remove_perm s i x : s !! i = Some x -> s ≡ₚ x :: swap_remove s i.
Proof.
  intros Hi. unfold swap_remove.
  destruct (decide (s = [])) as [->|Hne]; [done|].
  destruct (exists_last Hne) as (s' & y & ->).
  rewrite last_snoc, length_app. simpl. rewrite Nat.add_sub.
  destruct (decide (i = length s')) as [->|Hil].
  - rewrite lookup_app_r, Nat.sub_diag in Hi by lia. simpl in Hi. injection Hi as ->.
    rewrite insert_app_r_alt, Nat.sub_diag, take_app_length by lia.
    symmetry. apply Permutation_cons_append.
  - assert (i < length s')%nat as Hlt.
    { apply lookup_lt_Some in Hi. rewrite length_app in Hi. simpl in Hi. lia. }
    rewrite lookup_app_l in Hi by done.
    rewrite insert_app_l, take_app_length' by (done || by rewrite length_insert).
    rewrite (Permutation_app_comm s' [y]). simpl.
    rewrite <- (take_drop_middle s' i x Hi) at 1.
    rewrite insert_take_drop by done. by rewrite <- !Permutation_middle, perm_swap.
Qed.

Lemma index_of_Some k s i :
  index_of k s = Some i -> exists p, s !! i = Some p /\ has_key k p = true.
Proof.
  revert i. induction s as [|p s IH]; intros i; simpl; [done|].
  destruct (has_key k p) eqn:E; [intros [= <-]; eauto|].
  destruct (index_of k s) as [j|]; [|done]. intros [= <-]. simpl. by apply IH.
Qed.

Lemma index_of_None k s : index_of k s = None <-> Forall (fun p => has_key k p = false) s.
Proof.
  induction s as [|p s IH]; simpl; [by split|]. rewrite Forall_cons, <- IH.
  destruct (has_key k p), (index_of k s); naive_solver.
Qed.

Lemma pod_views p res c m :
  calculateResource (pi_Pod p) = (res, c, m) ->
  pod_cpu p = MilliCPU res /\ pod_mem p = rMemory res /\ pod_eph p = EphemeralStorage res /\
  (forall k, pod_scalar k p = get0 (ScalarResources res) k) /\
  pod_non0_cpu p = c /\ pod_non0_mem p = m.
Proof.
  unfold pod_cpu, pod_mem, pod_eph, pod_scalar, pod_non0_cpu, pod_non0_mem. by intros ->.
Qed.

Lemma NewNodeInfo_sums w : ni_sums (NewNodeInfo w).1.
Proof. by constructor. Qed.

Lemma AddPodInfo_sums p n w : ni_sums n -> ni_sums (AddPodInfo p n w).1.
Proof.
  intros [H1 H2 H3 H4 H5 H6]. unfold AddPodInfo.
  destruct (calculateResource (pi_Pod p)) as [[res c] m] eqn:E.
  destruct (pod_views _ _ _ _ E) as (V1 & V2 & V3 & V4 & V5 & V6).
  constructor; simpl; try intros k; rewrite map_app; cbn [map]; rewrite sum64_snoc;
    rewrite ?get0_add_scalars by (rewrite H4; apply sum64_int64);
    congruence.
Qed.

Lemma AddPodInfo_Pods p n w : Pods (AddPodInfo p n w).1 = Pods n ++ [p].
Proof. unfold AddPodInfo. by destruct (calculateResource (pi_Pod p)) as [[res c] m]. Qed.

(** What [RemovePod] subtracts is computed from its argument, so it matches
    the sums when the argument asks for the same resources as the pod stored
    under its key. *)
Definition same_request (p q : Pod) : Prop := calculateResource p = calculateResource q.

Lemma RemovePod_sums pod n w n' w' :
  ni_sums n ->
  (forall p, p ∈ Pods n -> has_key (UID pod) p = true -> same_request (pi_Pod p) pod) ->
  RemovePod pod n w = Ret (n', w', None) ->
  ni_sums n' /\ exists p, has_key (UID pod) p = true /\ Pods n ≡ₚ p :: Pods n'.
Proof.
  intros [H1 H2 H3 H4 H5 H6] Hsame. unfold RemovePod, GetPodKey.
  destruct (String.length (UID pod) =? 0)%nat; [done|].
  destruct (index_of (UID pod) (Pods n)) as [i|] eqn:Hi; [|by destruct (ni_node n)].
  destruct (index_of_Some _ _ _ Hi) as (p & Hp & Hk).
  pose proof (swap_remove_perm _ _ _ Hp) as Hperm.
  assert (calculateResource (pi_Pod p) = calculateResource pod) as Hs
    by (apply Hsame; [by eapply list_elem_of_lookup_2|done]).
  destruct (calculateResource pod) as [[res c] m]. simpl. intros [= <- <-].
  destruct (pod_views _ _ _ _ Hs) as (V1 & V2 & V3 & V4 & V5 & V6).
  assert (forall f, sum64 (map f (Pods n)) -₆₄ f p = sum64 (map f (swap_remove (Pods n) i))) as Hsub.
  { intros f. rewrite (sum64_perm _ (map f (p :: swap_remove (Pods n) i))) by (by rewrite Hperm at 1).
    apply sum64_cons_sub. }
  split; [|by exists p].
  constructor; simpl; try intros k; rewrite <- Hsub;
    rewrite ?get0_sub_scalars by (rewrite H4; apply sum64_int64);
    congruence.
Qed.
End nodeinfo.
