(* ===== verification/Samples.v ===== *)
(** * Sample objects

    Small concrete pods and nodes, on which the witnesses of the theorems
    evaluate. *)

From S2P Require Import Prelude GoInt GoFloat GoStrconv Quantity ApiTypes Resource HostPorts AffinityTerms NodeInfo.

Definition gates_default : FeatureGates :=
  {| PodOverhead := true; LocalStorageCapacityIsolation := true |}.

Definition cpu_request (milli : Z) : ResourceList :=
  {[ ResourceCPU := NewMilliQuantity milli DecimalSI ]}.

Definition sample_container (name image : string) (requests limits : ResourceList) : Container :=
  mkContainer name image [] (mkResourceRequirements limits requests).

Definition sample_spec (cs : list Container) (vols : list Volume) : PodSpec :=
  mkPodSpec cs [] None "" "kubehice-scheduler" None vols None [] ∅ [] None.

Definition sample_pod (name uid : string) (labels : gmap string string)
    (cs : list Container) (vols : list Volume) : Pod :=
  mkPod name "default" uid "1" None labels None (sample_spec cs vols) (mkPodStatus [] "" None).

Definition sample_nginx (uid : string) (milli : Z) : Pod :=
  sample_pod "nginx" uid ∅
    [sample_container "nginx" "local-registry:5000/test-nginx:latest"
       (cpu_request milli) (cpu_request milli)]
    [mkVolume (Some "data"%string); mkVolume None].

Definition sample_node (name : string) (labels : gmap string string) (milli : Z) : Node :=
  mkNode name labels [] false
    (<[ResourcePods := NewQuantity 110 DecimalSI]> (cpu_request milli)) [] [].

Definition empty_world : World := mkWorld 0 [].

(** Nodes in zones, and the selector of the pods of an application. *)
Definition zone_key : string := "zone".
Definition zone_node (name zone : string) : Node := sample_node name {[zone_key := zone]} 4000.

Definition app_is (app : string) : option LabelSelector := Some (mkLabelSelector {["app"%string := app]} []).

(** A node of a snapshot that holds the pods. *)
Definition node_with (node : Node) (pods : list Pod) : NodeInfo :=
  fold_left (fun n p => (@AddPodInfo amd64 gates_default (NewPodInfo p) n empty_world).1) pods
    (@SetNode amd64 gates_default node (NewNodeInfo empty_world).1 empty_world).1.
