(* ===== verification/NodeInfoProofs.v ===== *)
(** * Properties of [framework.NodeInfo]

    What a node accounts for after any operations, adding and removing a pod
    cancel, and what a clone shares with its original. *)

From S2P Require Import Prelude GoInt GoFloat GoStrconv Quantity ApiTypes Resource HostPorts AffinityTerms NodeInfo Samples.

Section nodeinfo_proofs.
Context {arch : GoArch} {gates : FeatureGates}.

(** ** Reachable nodes *)

(** One operation on a node, other than the removal of a pod. *)
Inductive ni_step : NodeInfo * World -> NodeInfo * World -> Prop :=
| step_add p n w : ni_step (n, w) (AddPodInfo p n w)
| step_set_node node n w : ni_step (n, w) (SetNode node n w)
| step_remove_node n w : ni_step (n, w) (RemoveNode n w)
| step_clone n w : ni_step (n, w) (Clone n, w)
| step_world n w w' : ni_step (n, w) (n, w').

(** A removal: the pod that was stored, and the one given to [RemovePod]. *)
Definition removal : Type := PodInfo * PodInfo.

Definition removed (pod : Pod) (n : NodeInfo) : list removal :=
  match index_of (UID pod) (Pods n) ≫= (fun i => Pods n !! i) with
  | Some p => [(p, NewPodInfo pod)]
  | None => []
  end.

(** The nodes that the operations build, with the removals that succeeded on
    the way.  [RemovePod] may be given any pod. *)
Inductive ni_reachable : list removal -> NodeInfo * World -> Prop :=
| reach_new w : ni_reachable [] (NewNodeInfo w)
| reach_step h s s' : ni_reachable h s -> ni_step s s' -> ni_reachable h s'
| reach_remove h pod n w n' w' e :
    ni_reachable h (n, w) -> RemovePod pod n w = Ret (n', w', e) ->
    ni_reachable (match e with None => removed pod n ++ h | Some _ => h end) (n', w').

(** What the removals of a history have left behind in a dimension: what the
    stored pods asked for, less what the pods given to [RemovePod] asked for. *)
Definition left_over (ask : PodInfo -> Z) (h : list removal) : Z :=
  sum64 (map (fun r => ask r.1 -₆₄ ask r.2) h).

(** What a node accounts for in a dimension. *)
Definition accounts (h : list removal) (n : NodeInfo) (ask : PodInfo -> Z) : Z :=
  sum64 (map ask (Pods n)) +₆₄ left_over ask h.

Record ni_ledger (h : list removal) (n : NodeInfo) : Prop := {
  led_cpu : MilliCPU (Requested n) = accounts h n pod_cpu;
  led_mem : rMemory (Requested n) = accounts h n pod_mem;
  led_eph : EphemeralStorage (Requested n) = accounts h n pod_eph;
  led_scalar : forall k, get0 (ScalarResources (Requested n)) k = accounts h n (pod_scalar k);
  led_non0_cpu : MilliCPU (NonZeroRequested n) = accounts h n pod_non0_cpu;
  led_non0_mem : rMemory (NonZeroRequested n) = accounts h n pod_non0_mem
}.

Lemma accounts_int64 h n ask : is_int64 (accounts h n ask).
Proof. apply int64_range. Qed.

Lemma RemovePod_err pod n w n' w' e :
  RemovePod pod n w = Ret (n', w', Some e) ->
  Pods n' = Pods n /\ Requested n' = Requested n /\ NonZeroRequested n' = NonZeroRequested n /\
  UsedPorts n' = UsedPorts n /\ w' = w.
Proof.
  unfold RemovePod, GetPodKey.
  destruct (String.length (UID pod) =? 0)%nat; [by intros [= <- <- <-]|].
  destruct (index_of (UID pod) (Pods n)); [by destruct (calculateResource pod) as [[? ?] ?]|].
  destruct (ni_node n); [|done]. by intros [= <- <- <-].
Qed.

Lemma ledger_AddPodInfo h p n w : ni_ledger h n -> ni_ledger h (AddPodInfo p n w).1.
Proof.
  assert (forall f, accounts h n f +₆₄ f p = sum64 (map f (Pods n ++ [p])) +₆₄ left_over f h) as Hadd.
  { intros f. unfold accounts. rewrite map_app. cbn [map]. rewrite sum64_snoc. apply add64_swap. }
  intros [H1 H2 H3 H4 H5 H6]. unfold AddPodInfo.
  destruct (calculateResource (pi_Pod p)) as [[res c] m] eqn:E.
  destruct (pod_views _ _ _ _ E) as (V1 & V2 & V3 & V4 & V5 & V6).
  constructor; unfold accounts; simpl; try intros k; rewrite <- Hadd;
    rewrite ?get0_add_scalars by (rewrite H4; apply accounts_int64); congruence.
Qed.

Lemma drift64 a r o q : a +₆₄ r +₆₄ o -₆₄ q = r +₆₄ (a -₆₄ q +₆₄ o).
Proof.
  unfold add64, sub64. rewrite <- !Z.add_opp_r, !int64_add_l, !int64_add_r, <- Z.add_assoc, int64_add_l. f_equal. lia.
Qed.

Lemma ledger_RemovePod h pod n w n' w' :
  ni_ledger h n -> RemovePod pod n w = Ret (n', w', None) ->
  (exists p, removed pod n = [(p, NewPodInfo pod)] /\ Pods n ≡ₚ p :: Pods n') /\ ni_ledger (removed pod n ++ h) n'.
Proof.
  intros [H1 H2 H3 H4 H5 H6]. unfold RemovePod, GetPodKey, removed.
  destruct (String.length (UID pod) =? 0)%nat; [done|].
  destruct (index_of (UID pod) (Pods n)) as [i|] eqn:Hi; [|by destruct (ni_node n)].
  destruct (index_of_Some _ _ _ Hi) as (p & Hp & Hk). cbn [mbind option_bind]. rewrite Hp.
  pose proof (swap_remove_perm _ _ _ Hp) as Hperm.
  destruct (calculateResource pod) as [[res c] m] eqn:E. simpl. intros [= <- <-]. split; [by exists p|].
  destruct (pod_views (NewPodInfo pod) _ _ _ E) as (V1 & V2 & V3 & V4 & V5 & V6).
  assert (forall f, accounts h n f -₆₄ f (NewPodInfo pod) =
    sum64 (map f (swap_remove (Pods n) i)) +₆₄ left_over f ((p, NewPodInfo pod) :: h)) as Hsub.
  { intros f. unfold accounts. rewrite (sum64_perm _ (map f (p :: swap_remove (Pods n) i))) by (by rewrite Hperm at 1).
    unfold left_over. cbn [map sum64 foldr fst snd]. apply drift64. }
  constructor; unfold accounts; simpl Pods; try intros k; rewrite <- Hsub; simpl;
    rewrite ?get0_sub_scalars by (rewrite H4; apply accounts_int64); congruence.
Qed.

Lemma reachable_ledger h s : ni_reachable h s -> ni_ledger h s.1.
Proof.
  induction 1 as [w|h s s' _ IH Hstep|h pod n w n' w' e _ IH HR].
  - by constructor.
  - destruct Hstep; simpl in *; [by apply ledger_AddPodInfo|by destruct IH..|done].
  - destruct e as [e|]; [|by eapply ledger_RemovePod]. apply RemovePod_err in HR as (Ep & Er & Ez & _).
    destruct IH. by constructor; unfold accounts in *; cbn [fst]; rewrite ?Ep, ?Er, ?Ez.
Qed.

Lemma left_over_same ask h :
  Forall (fun r => ask r.1 = ask r.2) h -> left_over ask h = 0.
Proof.
  unfold left_over. induction 1 as [|r h Hr _ IH]; simpl; [done|]. rewrite Hr, IH.
  unfold add64, sub64. by rewrite Z.sub_diag.
Qed.

(** C37. On every node that the operations build, whatever pods [RemovePod]
    is given, the requested resources are, in every dimension and with and
    without the defaults for empty requests, the (wrapping) sum of the
    requests of exactly the pods on the node, plus what the removals have left
    over: for each pod removed, its own request less that of the pod given to
    [RemovePod] under its key.  Nothing is left over, and the sums are those
    of the pods on the node, when every removal was given a pod with the
    request of the one stored.  (KubeHICE's binding changes the requests of a
    pod that the cache holds, so that there something is left over:
    rebound_pod_accounting_drift.) *)
Theorem NodeInfo_sums_reachable h s :
  ni_reachable h s ->
  ni_ledger h s.1 /\ (Forall (fun r => same_request (pi_Pod r.1) (pi_Pod r.2)) h -> ni_sums s.1).
Proof.
  intros Hr%reachable_ledger. split; [done|]. intros Hs.
  assert (forall ask : PodInfo -> Z, (forall p q, same_request (pi_Pod p) (pi_Pod q) -> ask p = ask q) ->
    accounts h s.1 ask = sum64 (map ask (Pods s.1))) as Hacc.
  { intros ask Hask. unfold accounts. rewrite left_over_same by (eapply Forall_impl; [exact Hs|]; intros r; apply Hask).
    unfold add64. rewrite Z.add_0_r. apply int64_id, sum64_int64. }
  unfold same_request in Hacc. destruct Hr as [H1 H2 H3 H4 H5 H6].
  constructor; [rewrite H1|rewrite H2|rewrite H3|intros k; rewrite H4|rewrite H5|rewrite H6]; apply Hacc;
    intros p q E; unfold pod_cpu, pod_mem, pod_eph, pod_scalar, pod_non0_cpu, pod_non0_mem; by rewrite E.
Qed.

(** ** Adding and removing a pod cancel *)

Lemma index_of_snoc k s p :
  index_of k s = None -> has_key k p = true -> index_of k (s ++ [p]) = Some (length s).
Proof.
  induction s as [|q s IH]; simpl; [by intros _ ->|].
  destruct (has_key k q); [done|]. destruct (index_of k s); [done|].
  intros _ Hk. by rewrite IH.
Qed.

Lemma swap_remove_snoc s p : swap_remove (s ++ [p]) (length s) = s.
Proof.
  unfold swap_remove. rewrite last_snoc, length_app. simpl.
  rewrite Nat.add_sub, insert_app_r_alt, Nat.sub_diag by lia. simpl. apply take_app_length.
Qed.

Lemma removeFromSlice_snoc k s p :
  index_of k s = None -> has_key k p = true -> removeFromSlice (s ++ [p]) k = s.
Proof.
  intros. unfold removeFromSlice. rewrite index_of_snoc by done. apply swap_remove_snoc.
Qed.

Lemma has_key_self pod : UID pod <> ""%string -> has_key (UID pod) (NewPodInfo pod) = true.
Proof.
  intros H. unfold has_key, GetPodKey. simpl.
  destruct (UID pod) eqn:E; [done|]. apply String.eqb_refl.
Qed.

(** The claims of a pod, as keys with repetition. *)
Definition pod_claims (pod : Pod) : list string :=
  omap (fun v => pvc_key pod <$> v_PersistentVolumeClaim v) (Volumes (Spec pod)).

Definition pvc_count (k : string) (l : list string) : Z :=
  Z.of_nat (length (filter (fun x => x = k) l)).

(** Counts are positive, and so far from overflow that a pod fits. *)
Definition pvc_wf (b : Z) (m : gmap string Z) : Prop :=
  forall k c, m !! k = Some c -> 0 < c < 2 ^ 62 - b.

Definition claim_step (add : bool) (m : gmap string Z) (key : string) : gmap string Z :=
  if add then <[key := get0 m key +₆₄ 1]> m
  else let c := get0 m key -₆₄ 1 in if c <=? 0 then delete key m else <[key := c]> m.

Lemma update_pvc_map_claims pod add m :
  update_pvc_map pod add m = fold_left (claim_step add) (pod_claims pod) m.
Proof.
  unfold update_pvc_map, pod_claims. generalize (pvc_key pod) as f. intros f.
  revert m. induction (Volumes (Spec pod)) as [|v l IH]; intros m; simpl; [done|].
  destruct (v_PersistentVolumeClaim v); simpl; apply IH.
Qed.

Lemma get0_bounds b m k : 0 <= b < 2 ^ 61 -> pvc_wf b m -> 0 <= get0 m k < 2 ^ 62 - b.
Proof.
  intros Hb Hm. unfold get0. destruct (m !! k) as [c|] eqn:E; simpl; [|lia].
  specialize (Hm k c E). lia.
Qed.

Lemma claim_add_spec m k k' b :
  0 < b < 2 ^ 61 -> pvc_wf b m ->
  get0 (claim_step true m k) k' = get0 m k' + (if decide (k = k') then 1 else 0) /\
  pvc_wf (b - 1) (claim_step true m k).
Proof.
  intros Hb Hm. pose proof (get0_bounds b m k ltac:(lia) Hm) as Hk. unfold claim_step.
  rewrite add64_exact by (int_unfold; lia). rewrite get0_insert. split.
  - case_decide; [subst|]; lia.
  - intros k2 c. rewrite lookup_insert_Some. intros [[_ <-]|[_ H]]; [lia|].
    specialize (Hm _ _ H). lia.
Qed.

Lemma claim_sub_spec m k k' :
  pvc_wf 0 m -> 0 < get0 m k ->
  get0 (claim_step false m k) k' = get0 m k' - (if decide (k = k') then 1 else 0) /\
  pvc_wf 0 (claim_step false m k).
Proof.
  intros Hm Hk. pose proof (get0_bounds 0 m k ltac:(lia) Hm) as Hb. unfold claim_step.
  rewrite sub64_exact by (int_unfold; lia).
  destruct (Z.leb_spec (get0 m k - 1) 0) as [Hle|Hgt].
  - split; [|intros k2 c; rewrite lookup_delete_Some; intros [_ ?]; by eapply Hm].
    unfold get0 at 1. destruct (decide (k = k')) as [<-|Hne].
    + rewrite lookup_delete_eq. simpl. lia.
    + rewrite lookup_delete_ne by done. fold (get0 m k'). lia.
  - rewrite get0_insert. split; [case_decide; [subst|]; lia|].
    intros k2 c. rewrite lookup_insert_Some. intros [[_ <-]|[_ H]]; [lia|by eapply Hm].
Qed.

Lemma pvc_count_cons k x l :
  pvc_count k (x :: l) = pvc_count k l + (if decide (x = k) then 1 else 0).
Proof. unfold pvc_count. rewrite filter_cons. case_decide; simpl; lia. Qed.

Lemma claims_add l m b k :
  Z.of_nat (length l) + b < 2 ^ 61 -> 0 <= b -> pvc_wf (Z.of_nat (length l) + b) m ->
  get0 (fold_left (claim_step true) l m) k = get0 m k + pvc_count k l /\
  pvc_wf b (fold_left (claim_step true) l m).
Proof.
  revert m b. induction l as [|x l IH]; intros m b Hl Hb Hm.
  { simpl. unfold pvc_count. simpl. split; [lia|done]. }
  simpl length in *. cbn [fold_left].
  destruct (claim_add_spec m x k (Z.of_nat (S (length l)) + b)) as [E W]; [lia|done|].
  destruct (IH (claim_step true m x) b) as [E' W']; [lia|done| |].
  { replace (Z.of_nat (length l) + b) with (Z.of_nat (S (length l)) + b - 1) by lia. done. }
  split; [|done]. rewrite E', E, pvc_count_cons. lia.
Qed.

Lemma claims_sub l m k :
  pvc_wf 0 m -> (forall k, pvc_count k l <= get0 m k) ->
  get0 (fold_left (claim_step false) l m) k = get0 m k - pvc_count k l /\
  pvc_wf 0 (fold_left (claim_step false) l m).
Proof.
  revert m. induction l as [|x l IH]; intros m Hm Hle.
  { simpl. unfold pvc_count. simpl. split; [lia|done]. }
  cbn [fold_left].
  assert (0 < get0 m x) as Hx.
  { specialize (Hle x). rewrite pvc_count_cons, decide_True in Hle by done.
    unfold pvc_count in Hle. lia. }
  assert (forall k', get0 (claim_step false m x) k' = get0 m k' - (if decide (x = k') then 1 else 0)) as E
    by (intros k'; by apply claim_sub_spec).
  destruct (IH (claim_step false m x)) as [E' W'].
  - by apply (claim_sub_spec m x k).
  - intros k'. specialize (Hle k'). rewrite E. rewrite pvc_count_cons in Hle. lia.
  - split; [|done]. rewrite E', E, pvc_count_cons. lia.
Qed.

Lemma pvc_map_ext b m1 m2 :
  pvc_wf b m1 -> pvc_wf b m2 -> (forall k, get0 m1 k = get0 m2 k) -> m1 = m2.
Proof.
  intros H1 H2 H. apply map_eq. intros k. specialize (H k). unfold get0 in H.
  destruct (m1 !! k) eqn:E1, (m2 !! k) eqn:E2; simpl in H; subst; try done.
  - apply H1 in E1. lia.
  - apply H2 in E2. lia.
Qed.

(** Releasing the claims of a pod undoes taking them. *)
Lemma update_pvc_map_cancel pod m :
  Z.of_nat (length (pod_claims pod)) < 2 ^ 61 ->
  pvc_wf (Z.of_nat (length (pod_claims pod))) m ->
  update_pvc_map pod false (update_pvc_map pod true m) = m.
Proof.
  intros Hl Hm. rewrite !update_pvc_map_claims.
  set (l := pod_claims pod) in *.
  assert (forall k, get0 (fold_left (claim_step true) l m) k = get0 m k + pvc_count k l) as E
    by (intros k; apply (claims_add l m 0); [lia|done|by rewrite Z.add_0_r]).
  assert (pvc_wf 0 (fold_left (claim_step true) l m)) as W
    by (apply (claims_add l m 0 ""); [lia|done|by rewrite Z.add_0_r]).
  assert (pvc_wf 0 m) as W0 by (intros k c H; specialize (Hm k c H); lia).
  assert (forall k, pvc_count k l <= get0 (fold_left (claim_step true) l m) k) as Hle.
  { intros k. rewrite E. pose proof (get0_bounds (Z.of_nat (length l)) m k ltac:(lia) Hm). lia. }
  apply (pvc_map_ext 0); [by apply (claims_sub _ _ "")|done|].
  intros k. rewrite (proj1 (claims_sub l _ k W Hle)), E. lia.
Qed.

(** The claim counts a node sees. *)
Definition pvc_counts (n : NodeInfo) (w : World) : option (gmap string Z) :=
  pvc_maps w !! PVCRefCounts n.

Lemma pvc_counts_AddPodInfo p n w n0 :
  PVCRefCounts n0 = PVCRefCounts n ->
  pvc_counts n0 (AddPodInfo p n w).2 = update_pvc_map (pi_Pod p) true <$> pvc_counts n0 w.
Proof.
  intros E. unfold AddPodInfo. destruct (calculateResource (pi_Pod p)) as [[? ?] ?].
  unfold pvc_counts. simpl. rewrite E. apply list_lookup_alter_eq.
Qed.

(** Removing a pod that was just added to a node without it succeeds and
    restores the pods, the affinity slices, the sums of requests and the
    claim counts. *)
Theorem AddPod_RemovePod pod n w :
  UID pod <> ""%string ->
  Forall (fun p => has_key (UID pod) p = false)
    (Pods n ++ PodsWithAffinity n ++ PodsWithRequiredAntiAffinity n) ->
  ni_sums n ->
  Z.of_nat (length (pod_claims pod)) < 2 ^ 61 ->
  (forall m, pvc_counts n w = Some m -> pvc_wf (Z.of_nat (length (pod_claims pod))) m) ->
  let '(n1, w1) := AddPod pod n w in
  exists n2 w2, RemovePod pod n1 w1 = Ret (n2, w2, None) /\
    Pods n2 = Pods n /\ PodsWithAffinity n2 = PodsWithAffinity n /\
    PodsWithRequiredAntiAffinity n2 = PodsWithRequiredAntiAffinity n /\
    ni_sums n2 /\ pvc_counts n2 w2 = pvc_counts n w.
Proof.
  intros Huid Hkeys Hs Hl Hpvc. unfold AddPod.
  rewrite !Forall_app, <- !index_of_None in Hkeys. destruct Hkeys as (Hk1 & Hk2 & Hk3).
  pose proof (has_key_self pod Huid) as Hself.
  pose proof (AddPodInfo_sums (NewPodInfo pod) n w Hs) as Hs1.
  pose proof (pvc_counts_AddPodInfo (NewPodInfo pod) n w n eq_refl) as Hp1.
  pose proof (AddPodInfo_Pods (NewPodInfo pod) n w) as Hpods.
  destruct (AddPodInfo (NewPodInfo pod) n w) as [n1 w1] eqn:EA. cbn [fst snd] in *.
  assert (PVCRefCounts n1 = PVCRefCounts n /\
    PodsWithAffinity n1 = (if podWithAffinity pod then PodsWithAffinity n ++ [NewPodInfo pod]
                           else PodsWithAffinity n) /\
    PodsWithRequiredAntiAffinity n1 = (if podWithRequiredAntiAffinity pod
       then PodsWithRequiredAntiAffinity n ++ [NewPodInfo pod]
       else PodsWithRequiredAntiAffinity n)) as (Eref & Eaff & Eanti).
  { unfold AddPodInfo in EA. destruct (calculateResource _) as [[? ?] ?].
    by injection EA as <- <-. }
  destruct (RemovePod pod n1 w1) as [[[n2 w2] e]|] eqn:ER.
  2:{ exfalso. unfold RemovePod, GetPodKey in ER.
      destruct (_ =? 0)%nat; [done|]. rewrite Hpods, index_of_snoc in ER by done.
      by destruct (calculateResource pod) as [[? ?] ?]. }
  exists n2, w2. pose proof ER as ER0. unfold RemovePod, GetPodKey in ER.
  assert ((String.length (UID pod) =? 0)%nat = false) as Elen by (by destruct (UID pod)).
  rewrite Elen, Hpods, index_of_snoc in ER by done.
  destruct (calculateResource pod) as [[res c] m] eqn:EC. simpl in ER.
  injection ER as En2 Ew2 <-. subst n2 w2.
  split; [done|]. cbn [Pods PodsWithAffinity PodsWithRequiredAntiAffinity].
  split_and!.
  - apply swap_remove_snoc.
  - rewrite Eaff. destruct (podWithAffinity pod); [by apply removeFromSlice_snoc|done].
  - rewrite Eanti. destruct (podWithRequiredAntiAffinity pod); [by apply removeFromSlice_snoc|done].
  - eapply (RemovePod_sums pod n1 w1); [done| |exact ER0].
    intros p. rewrite Hpods, elem_of_app, list_elem_of_singleton.
    intros [Hin| ->] Hk; [|done]. apply index_of_None in Hk1.
    rewrite Forall_forall in Hk1. by rewrite Hk1 in Hk.
  - unfold pvc_counts in *. simpl. rewrite Eref, list_lookup_alter_eq, Hp1.
    destruct (pvc_maps w !! PVCRefCounts n) as [m0|]; [|done]. simpl. f_equal.
    apply update_pvc_map_cancel; auto.
Qed.

(** A clone shares the claim counts of its original: adding a pod to the
    clone changes the counts that the original sees, exactly as if the pod
    had been added to the original, while its other aggregates stay. *)
Theorem Clone_shares_PVCRefCounts pod n w :
  let '(c, w') := AddPod pod (Clone n) w in
  pvc_counts n w' = update_pvc_map pod true <$> pvc_counts n w /\
  Pods c = Pods n ++ [NewPodInfo pod].
Proof.
  unfold AddPod, Clone.
  pose proof (pvc_counts_AddPodInfo (NewPodInfo pod) n w n eq_refl) as H.
  pose proof (AddPodInfo_Pods (NewPodInfo pod) n w) as H2.
  by destruct (AddPodInfo (NewPodInfo pod) n w).
Qed.
End nodeinfo_proofs.

(** ** Witnesses *)

(** The stored pod asks for 250m, the one given to [RemovePod] for 400m. *)
Lemma NodeInfo_sums_reachable_witness :
  let s := @AddPod amd64 gates_default (sample_nginx "u1" 250) (NewNodeInfo empty_world).1 (NewNodeInfo empty_world).2 in
  exists n' w', @RemovePod amd64 gates_default (sample_nginx "u1" 400) s.1 s.2 = Ret (n', w', None) /\
    @ni_sums amd64 gates_default s.1 /\ Pods n' = [] /\ MilliCPU (Requested n') = -150 /\
    MilliCPU (Requested n') = @left_over (@pod_cpu amd64 gates_default) (removed (sample_nginx "u1" 400) s.1).
Proof.
  intros s.
  assert (@ni_reachable amd64 gates_default [] s) as Hs.
  { apply (reach_step [] (NewNodeInfo empty_world)); [apply reach_new|]. apply (step_add (NewPodInfo (sample_nginx "u1" 250))). }
  destruct (@RemovePod amd64 gates_default (sample_nginx "u1" 400) s.1 s.2) as [[[n' w'] e]|] eqn:HR; [|vm_compute in HR; discriminate HR].
  assert (e = None) as -> by (vm_compute in HR; injection HR as _ _ <-; reflexivity).
  exists n', w'. split; [reflexivity|]. split; [apply (@NodeInfo_sums_reachable amd64 gates_default [] s Hs), Forall_nil_2|].
  assert (Pods n' = []) as Hp by (vm_compute in HR; injection HR as <- _; reflexivity). split; [exact Hp|].
  split; [vm_compute in HR; injection HR as <- _; reflexivity|].
  destruct (@NodeInfo_sums_reachable amd64 gates_default (removed (sample_nginx "u1" 400) s.1) (n', w')) as [[Hcpu _ _ _ _ _] _].
  { rewrite <- (app_nil_r (removed _ _)). eapply (reach_remove [] _ s.1 s.2 n' w' None); [destruct s; exact Hs|exact HR]. }
  etransitivity; [exact Hcpu|]. unfold accounts. cbn [fst]. rewrite Hp. vm_compute. reflexivity.
Defined.

Lemma AddPod_RemovePod_witness :
  let p := sample_nginx "u2" 100 in
  let n := (NewNodeInfo empty_world).1 in
  let w := (NewNodeInfo empty_world).2 in
  let '(n1, w1) := @AddPod amd64 gates_default p n w in
  exists n2 w2, @RemovePod amd64 gates_default p n1 w1 = Ret (n2, w2, None) /\
    Pods n2 = Pods n /\ PodsWithAffinity n2 = PodsWithAffinity n /\
    PodsWithRequiredAntiAffinity n2 = PodsWithRequiredAntiAffinity n /\
    @ni_sums amd64 gates_default n2 /\ pvc_counts n2 w2 = pvc_counts n w.
Proof.
  apply (@AddPod_RemovePod amd64 gates_default (sample_nginx "u2" 100)
           (NewNodeInfo empty_world).1 (NewNodeInfo empty_world).2).
  - discriminate.
  - constructor.
  - apply NewNodeInfo_sums.
  - vm_compute. reflexivity.
  - intros m [= <-]. by intros k c ?%lookup_empty_Some.
Defined.
