(* ===== verification/Json.v ===== *)
(** * Go's [encoding/json]

    The decoder and encoder for the documents KubeHICE keeps in etcd: JSON
    values, the parsing of documents, and the encoding of strings.  Bytes
    from 0x80 on are passed through, which is what the library does on valid
    UTF-8 text. *)

From S2P Require Import Prelude GoStrconv.

Inductive json :=
| JNull
| JBool (b : bool)
| JNum (text : string)
| JStr (s : string)
| JArr (l : list json)
| JObj (l : list (string * json)).

(** ** Characters *)

Definition dquote : ascii := ascii_of_nat 34.
Definition backslash : ascii := ascii_of_nat 92.

Definition is_ws (c : ascii) : bool :=
  let n := nat_of_ascii c in
  (n =? 32)%nat || (n =? 9)%nat || (n =? 10)%nat || (n =? 13)%nat.

Fixpoint skip_ws (s : string) : string :=
  match s with
  | String c s' => if is_ws c then skip_ws s' else s
  | EmptyString => s
  end.

(** UTF-8 encoding of a code point below 0x10000, and of a surrogate pair. *)
Definition byte (n : Z) : ascii := ascii_of_nat (Z.to_nat n).
Definition utf8 (n : Z) (rest : string) : string :=
  if n <? 128 then String (byte n) rest
  else if n <? 2048 then
    String (byte (192 + n / 64)) (String (byte (128 + n `mod` 64)) rest)
  else if n <? 65536 then
    String (byte (224 + n / 4096)) (String (byte (128 + (n / 64) `mod` 64))
      (String (byte (128 + n `mod` 64)) rest))
  else
    String (byte (240 + n / 262144)) (String (byte (128 + (n / 4096) `mod` 64))
      (String (byte (128 + (n / 64) `mod` 64)) (String (byte (128 + n `mod` 64)) rest))).

Definition hex4 (a b c d : ascii) : option Z :=
  match hex_val a, hex_val b, hex_val c, hex_val d with
  | Some x, Some y, Some z, Some t => Some (((x * 16 + y) * 16 + z) * 16 + t)
  | _, _, _, _ => None
  end.

Definition is_high (n : Z) : bool := (55296 <=? n) && (n <? 56320).
Definition is_low (n : Z) : bool := (56320 <=? n) && (n <? 57344).
Definition replacement : Z := 65533.

(** One-character escapes. *)
Definition unescape (c : ascii) : option ascii :=
  if Ascii.eqb c dquote then Some dquote
  else if Ascii.eqb c backslash then Some backslash
  else if Ascii.eqb c "/" then Some "/"%char
  else if Ascii.eqb c "b" then Some (ascii_of_nat 8)
  else if Ascii.eqb c "f" then Some (ascii_of_nat 12)
  else if Ascii.eqb c "n" then Some (ascii_of_nat 10)
  else if Ascii.eqb c "r" then Some (ascii_of_nat 13)
  else if Ascii.eqb c "t" then Some (ascii_of_nat 9)
  else None.

Definition cons_res (c : ascii) (r : option (string * string)) : option (string * string) :=
  match r with Some (a, b) => Some (String c a, b) | None => None end.

(** The characters of a string literal up to the closing quote. *)
Fixpoint parse_chars (s : string) : option (string * string) :=
  match s with
  | EmptyString => None
  | String c s1 =>
      if Ascii.eqb c dquote then Some (EmptyString, s1)
      else if Ascii.eqb c backslash then
        match s1 with
        | String e s2 =>
            if Ascii.eqb e "u" then
              match s2 with
              | String h1 (String h2 (String h3 (String h4 s3))) =>
                  match hex4 h1 h2 h3 h4 with
                  | None => None
                  | Some n =>
                      let plain n := match parse_chars s3 with
                                     | Some (a, b) => Some (utf8 n a, b) | None => None end in
                      if is_high n then
                        match s3 with
                        | String b0 (String u0 (String g1 (String g2 (String g3 (String g4 s4))))) =>
                            if Ascii.eqb b0 backslash && Ascii.eqb u0 "u" then
                              match hex4 g1 g2 g3 g4 with
                              | Some m =>
                                  if is_low m then
                                    match parse_chars s4 with
                                    | Some (a, b) =>
                                        Some (utf8 (65536 + (n - 55296) * 1024 + (m - 56320)) a, b)
                                    | None => None
                                    end
                                  else plain replacement
                              | None => None
                              end
                            else plain replacement
                        | _ => plain replacement
                        end
                      else if is_low n then plain replacement
                      else plain n
                  end
              | _ => None
              end
            else
              match unescape e with
              | Some x => cons_res x (parse_chars s2)
              | None => None
              end
        | EmptyString => None
        end
      else if (nat_of_ascii c <? 32)%nat then None
      else cons_res c (parse_chars s1)
  end.

(** ** Numbers and literals *)

Definition strip_char (c : ascii) (s : string) : option string :=
  match s with String d s' => if Ascii.eqb c d then Some s' else None | EmptyString => None end.

Definition digits1 (s : string) : option (string * string) :=
  match span_digits s with (EmptyString, _) => None | p => Some p end.

(** -?(0|[1-9][0-9]* )(.[0-9]+)?([eE][+-]?[0-9]+)? *)
Definition parse_number (s : string) : option (json * string) :=
  let '(neg, s0) := match strip_char "-" s with
                    | Some r => ("-"%string, r) | None => (""%string, s) end in
  let int_part :=
    match strip_char "0" s0 with
    | Some r => Some ("0"%string, r)
    | None => digits1 s0
    end in
  match int_part with
  | None => None
  | Some (i, s1) =>
      let frac :=
        match strip_char "." s1 with
        | Some r => match digits1 r with Some (d, r') => Some (String "."%char d, r') | None => None end
        | None => Some (""%string, s1)
        end in
      match frac with
      | None => None
      | Some (f, s2) =>
          let is_e := match s2 with String c _ => Ascii.eqb c "e" || Ascii.eqb c "E" | _ => false end in
          if is_e then
            match s2 with
            | String e r =>
                let '(sg, r1) :=
                  match r with
                  | String c r' =>
                      if Ascii.eqb c "+" || Ascii.eqb c "-" then (String c EmptyString, r') else (""%string, r)
                  | EmptyString => (""%string, r)
                  end in
                match digits1 r1 with
                | Some (d, r2) =>
                    Some (JNum (str_app neg (str_app i (str_app f (String e (str_app sg d))))), r2)
                | None => None
                end
            | EmptyString => None
            end
          else Some (JNum (str_app neg (str_app i f)), s2)
      end
  end.

Definition parse_literal (lit : string) (v : json) (s : string) : option (json * string) :=
  if HasPrefix s lit then Some (v, substring (String.length lit) (String.length s) s) else None.

(** ** Values

    The fuel bounds the nesting and the number of elements; every level and
    every element consumes a character, so the length of the text is
    enough. *)
Fixpoint parse_value (fuel : nat) (s : string) : option (json * string) :=
  match fuel with
  | O => None
  | S f =>
      match skip_ws s with
      | EmptyString => None
      | String c r =>
          if Ascii.eqb c dquote then
            match parse_chars r with Some (a, b) => Some (JStr a, b) | None => None end
          else if Ascii.eqb c "[" then
            match strip_char "]" (skip_ws r) with
            | Some r' => Some (JArr [], r')
            | None => match parse_elems f r with Some (l, r') => Some (JArr l, r') | None => None end
            end
          else if Ascii.eqb c "{" then
            match strip_char "}" (skip_ws r) with
            | Some r' => Some (JObj [], r')
            | None => match parse_members f r with Some (l, r') => Some (JObj l, r') | None => None end
            end
          else if Ascii.eqb c "n" then parse_literal "null" JNull (String c r)
          else if Ascii.eqb c "t" then parse_literal "true" (JBool true) (String c r)
          else if Ascii.eqb c "f" then parse_literal "false" (JBool false) (String c r)
          else parse_number (String c r)
      end
  end
with parse_elems (fuel : nat) (s : string) : option (list json * string) :=
  match fuel with
  | O => None
  | S f =>
      match parse_value f s with
      | None => None
      | Some (v, r) =>
          let r := skip_ws r in
          match strip_char "," r with
          | Some r' => match parse_elems f r' with Some (l, r2) => Some (v :: l, r2) | None => None end
          | None => match strip_char "]" r with Some r' => Some ([v], r') | None => None end
          end
      end
  end
with parse_members (fuel : nat) (s : string) : option (list (string * json) * string) :=
  match fuel with
  | O => None
  | S f =>
      match strip_char dquote (skip_ws s) with
      | None => None
      | Some r0 =>
          match parse_chars r0 with
          | None => None
          | Some (k, r1) =>
              match strip_char ":" (skip_ws r1) with
              | None => None
              | Some r2 =>
                  match parse_value f r2 with
                  | None => None
                  | Some (v, r) =>
                      let r := skip_ws r in
                      match strip_char "," r with
                      | Some r' =>
                          match parse_members f r' with
                          | Some (l, r3) => Some ((k, v) :: l, r3) | None => None end
                      | None =>
                          match strip_char "}" r with Some r' => Some ([(k, v)], r') | None => None end
                      end
                  end
              end
          end
      end
  end.

(** A whole document. *)
Definition parse_json (s : string) : option json :=
  match parse_value (2 + String.length s) s with
  | Some (v, r) => if String.eqb (skip_ws r) "" then Some v else None
  | None => None
  end.

(** ** Decoding into structs: errors are [None], [null] leaves the zero value *)

Definition decode_string (v : json) : option string :=
  match v with JStr s => Some s | JNull => Some ""%string | _ => None end.

Fixpoint decode_all {A} (f : json -> option A) (l : list json) : option (list A) :=
  match l with
  | [] => Some []
  | v :: l' =>
      match f v, decode_all f l' with Some a, Some r => Some (a :: r) | _, _ => None end
  end.

Definition decode_list {A} (f : json -> option A) (v : json) : option (list A) :=
  match v with JArr l => decode_all f l | JNull => Some [] | _ => None end.

(** Field names match without regard to case; the last occurrence counts. *)
Definition field (name : string) (l : list (string * json)) : json :=
  fold_left (fun acc e => if String.eqb (lower_all e.1) name then e.2 else acc) l JNull.

Definition decode_object {A} (f : list (string * json) -> option A) (v : json) : option A :=
  match v with JObj l => f l | JNull => f [] | _ => None end.

(** ** Encoding strings *)

Definition hex_digit (n : nat) : ascii := ascii_of_nat (if (n <? 10)%nat then 48 + n else 87 + n).

Definition encode_char (c : ascii) (rest : string) : string :=
  let n := nat_of_ascii c in
  if Ascii.eqb c dquote || Ascii.eqb c backslash then String backslash (String c rest)
  else if (n =? 10)%nat then String backslash (String "n"%char rest)
  else if (n =? 13)%nat then String backslash (String "r"%char rest)
  else if (n =? 9)%nat then String backslash (String "t"%char rest)
  else if (n <? 32)%nat || (n =? 60)%nat || (n =? 62)%nat || (n =? 38)%nat then
    String backslash (String "u"%char (String "0"%char (String "0"%char
      (String (hex_digit (n / 16)) (String (hex_digit (n mod 16)) rest)))))
  else String c rest.

(** The characters of a literal, closed by a quote and followed by [rest]. *)
Fixpoint encode_chars (s rest : string) : string :=
  match s with
  | EmptyString => String dquote rest
  | String c s' => encode_char c (encode_chars s' rest)
  end.

Definition encode_string (s rest : string) : string := String dquote (encode_chars s rest).

(** The elements of an array of strings, from the first one on. *)
Fixpoint encode_elems (l : list string) (rest : string) : string :=
  match l with
  | [] => rest
  | [x] => encode_string x (String "]"%char rest)
  | x :: l' => encode_string x (String ","%char (encode_elems l' rest))
  end.

(** ** Round trip *)

Lemma parse_encode_char c rest :
  parse_chars (encode_char c rest) = cons_res c (parse_chars rest).
Proof. destruct c as [[] [] [] [] [] [] [] []]; reflexivity. Qed.

Lemma parse_encode_chars s rest : parse_chars (encode_chars s rest) = Some (s, rest).
Proof.
  induction s as [|c s IH]; [reflexivity|].
  cbn [encode_chars]. by rewrite parse_encode_char, IH.
Qed.

Lemma parse_value_string f s rest :
  parse_value (S f) (encode_string s rest) = Some (JStr s, rest).
Proof.
  cbn [parse_value].
  replace (skip_ws (encode_string s rest)) with (String dquote (encode_chars s rest)) by reflexivity.
  by rewrite Ascii.eqb_refl, parse_encode_chars.
Qed.

Lemma parse_elems_S f s :
  parse_elems (S f) s =
  match parse_value f s with
  | None => None
  | Some (v, r) =>
      match strip_char "," (skip_ws r) with
      | Some r' => match parse_elems f r' with Some (l, r2) => Some (v :: l, r2) | None => None end
      | None => match strip_char "]" (skip_ws r) with Some r' => Some ([v], r') | None => None end
      end
  end.
Proof. reflexivity. Qed.

Lemma parse_elems_encode l f rest :
  l <> [] -> (length l < f)%nat ->
  parse_elems f (encode_elems l rest) = Some (map JStr l, rest).
Proof.
  revert f. induction l as [|x l IH]; intros f Hne Hf; [done|].
  destruct f as [|[|f]]; simpl in Hf; try lia.
  destruct l as [|y l].
  - cbn [encode_elems]. rewrite parse_elems_S, parse_value_string. reflexivity.
  - change (encode_elems (x :: y :: l) rest)
      with (encode_string x (String ","%char (encode_elems (y :: l) rest))).
    rewrite parse_elems_S, parse_value_string.
    replace (strip_char "," (skip_ws (String ","%char (encode_elems (y :: l) rest))))
      with (Some (encode_elems (y :: l) rest)) by reflexivity.
    rewrite IH by (done || simpl in *; lia). done.
Qed.

(** * Encoding JSON values

    [json.Marshal] builds a document from a value; the decoder of Json.v
    reads it back.  The struct encoders of the tools go through [json]. *)

(** [encode v rest] is the text of [v], followed by [rest]. *)
Fixpoint encode (v : json) (rest : string) : string :=
  match v with
  | JNull => str_app "null" rest
  | JBool b => str_app (if b then "true" else "false") rest
  | JNum text => str_app text rest
  | JStr s => encode_string s rest
  | JArr [] => String "[" (String "]" rest)
  | JArr (v :: l) =>
      String "[" (encode v ((fix elems l :=
        match l with [] => String "]" rest | v :: l => String "," (encode v (elems l)) end) l))
  | JObj [] => String "{" (String "}" rest)
  | JObj ((k, v) :: l) =>
      String "{" (encode_string k (String ":" (encode v ((fix members l :=
        match l with
        | [] => String "}" rest
        | (k, v) :: l => String "," (encode_string k (String ":" (encode v (members l))))
        end) l))))
  end.

Definition Marshal (v : json) : string := encode v "".

(** A field with [omitempty]: the empty string and the empty slice are left
    out. *)
Definition omit_string (name s : string) : list (string * json) :=
  if String.eqb s "" then [] else [(name, JStr s)].
Definition omit_list (name : string) (l : list json) : list (string * json) :=
  match l with [] => [] | _ => [(name, JArr l)] end.

(** ** Round trip *)

(** The rests of an array and of an object, after an element. *)
Fixpoint enc_elems (l : list json) (rest : string) : string :=
  match l with [] => String "]" rest | v :: l => String "," (encode v (enc_elems l rest)) end.
Fixpoint enc_members (l : list (string * json)) (rest : string) : string :=
  match l with
  | [] => String "}" rest
  | (k, v) :: l => String "," (encode_string k (String ":" (encode v (enc_members l rest))))
  end.

Lemma encode_JArr v l rest : encode (JArr (v :: l)) rest = String "[" (encode v (enc_elems l rest)).
Proof. cbn [encode]. do 2 f_equal. induction l as [|w l IH]; [done|]. cbn [enc_elems]. by rewrite IH. Qed.

Lemma encode_JObj k v l rest :
  encode (JObj ((k, v) :: l)) rest = String "{" (encode_string k (String ":" (encode v (enc_members l rest)))).
Proof. cbn [encode]. do 4 f_equal. induction l as [|[j w] l IH]; [done|]. cbn [enc_members]. by rewrite IH. Qed.

(** Members that a boolean test admits satisfy what it implies for each. *)
Lemma forallb_mp {A} (f : A -> bool) (P : A -> Prop) l :
  Forall (fun x => f x = true -> P x) l -> forallb f l = true -> Forall P l.
Proof.
  induction 1 as [|x l Hx _ IH]; [done|]. simpl. intros [? ?]%andb_true_iff. constructor; [by apply Hx|by apply IH].
Qed.

Section induction.
Context (P : json -> Prop).
Hypothesis Hnull : P JNull.
Hypothesis Hbool : forall b, P (JBool b).
Hypothesis Hnum : forall t, P (JNum t).
Hypothesis Hstr : forall s, P (JStr s).
Hypothesis Harr : forall l, Forall P l -> P (JArr l).
Hypothesis Hobj : forall l, Forall (fun e => P e.2) l -> P (JObj l).

Fixpoint json_nested_ind (v : json) : P v :=
  match v with
  | JNull => Hnull
  | JBool b => Hbool b
  | JNum t => Hnum t
  | JStr s => Hstr s
  | JArr l => Harr l ((fix all (l : list json) : Forall P l := match l with
      | [] => Forall_nil_2 P | v :: l => Forall_cons_2 P v l (json_nested_ind v) (all l) end) l)
  | JObj l => Hobj l ((fix all (l : list (string * json)) : Forall (fun e => P e.2) l := match l with
      | [] => Forall_nil_2 (fun e => P e.2)
      | e :: l => Forall_cons_2 (fun e => P e.2) e l (json_nested_ind e.2) (all l) end) l)
  end.
End induction.

(** Values without numbers. *)
Fixpoint no_numbers (v : json) : bool :=
  match v with
  | JNum _ => false
  | JArr l => forallb no_numbers l
  | JObj l => forallb (fun e => no_numbers e.2) l
  | _ => true
  end.

(** The fuel that reading the text of a value takes. *)
Fixpoint need (v : json) : nat :=
  match v with
  | JArr l => S (foldr (fun v n => S (max (need v) n)) 0%nat l)
  | JObj l => S (foldr (fun e n => S (max (need e.2) n)) 0%nat l)
  | _ => 1%nat
  end.

Definition value_head (c : ascii) : bool :=
  existsb (Ascii.eqb c) [dquote; "["; "{"; "n"; "t"; "f"]%char.

Lemma encode_head v rest : no_numbers v = true -> exists c s, encode v rest = String c s /\ value_head c = true.
Proof.
  destruct v as [|[]|t|s|[|v l]|[|[k v] l]]; intros Hv; try done; by do 2 eexists.
Qed.

Lemma value_head_skip c s : value_head c = true -> skip_ws (String c s) = String c s.
Proof.
  unfold value_head. cbn [existsb]. intros H. repeat (apply orb_true_iff in H as [H|H]; [apply Ascii.eqb_eq in H as ->; reflexivity|]). done.
Qed.

Lemma value_head_close c s : value_head c = true -> strip_char "]" (String c s) = None.
Proof.
  unfold value_head. cbn [existsb]. intros H. repeat (apply orb_true_iff in H as [H|H]; [apply Ascii.eqb_eq in H as ->; reflexivity|]). done.
Qed.

Lemma parse_members_S f k rest :
  parse_members (S f) (encode_string k (String ":" rest)) =
  match parse_value f rest with
  | None => None
  | Some (v, r) =>
      match strip_char "," (skip_ws r) with
      | Some r' => match parse_members f r' with Some (l, r3) => Some ((k, v) :: l, r3) | None => None end
      | None => match strip_char "}" (skip_ws r) with Some r' => Some ([(k, v)], r') | None => None end
      end
  end.
Proof.
  cbn [parse_members]. unfold encode_string. change (skip_ws (String dquote ?s)) with (String dquote s).
  change (strip_char dquote (String dquote ?s)) with (Some s). cbv iota. rewrite parse_encode_chars. reflexivity.
Qed.

Lemma substring_all n s : (String.length s <= n)%nat -> substring 0 n s = s.
Proof.
  revert n. induction s as [|c s IH]; intros [|n] H; simpl in *; try done; [lia|]. f_equal. apply IH. lia.
Qed.

Lemma HasPrefix_app a b : HasPrefix (str_app a b) a = true.
Proof. induction a as [|c a IH]; simpl; [by destruct b|]. by rewrite Ascii.eqb_refl. Qed.

Lemma substring_app a b n : substring (String.length a) n (str_app a b) = substring 0 n b.
Proof. induction a as [|c a IH]; [done|]. exact IH. Qed.

Lemma parse_literal_app lit v rest : parse_literal lit v (str_app lit rest) = Some (v, rest).
Proof.
  unfold parse_literal. rewrite HasPrefix_app, substring_app, substring_all; [done|]. rewrite length_str_app. lia.
Qed.

(** What is known of a value, for each fuel that is enough. *)
Definition reads_back (v : json) : Prop :=
  forall f rest, (need v <= f)%nat -> parse_value f (encode v rest) = Some (v, rest).

Lemma elems_read_back l v f rest :
  Forall reads_back (v :: l) -> (foldr (fun v n => S (max (need v) n)) 0%nat (v :: l) <= f)%nat ->
  parse_elems f (encode v (enc_elems l rest)) = Some (v :: l, rest).
Proof.
  revert v f. induction l as [|w l IH]; intros v f [Hv Hl]%Forall_cons Hf;
    (destruct f as [|f]; [simpl in Hf; lia|]); rewrite parse_elems_S, Hv by (simpl in Hf |- *; lia).
  - reflexivity.
  - cbn [enc_elems].
    change (strip_char "," (skip_ws (String "," ?s))) with (Some s). cbv iota.
    rewrite IH; [done|done|]. simpl in Hf |- *. lia.
Qed.

Lemma members_read_back l k v f rest :
  Forall (fun e => reads_back e.2) ((k, v) :: l) ->
  (foldr (fun e n => S (max (need e.2) n)) 0%nat ((k, v) :: l) <= f)%nat ->
  parse_members f (encode_string k (String ":" (encode v (enc_members l rest)))) = Some ((k, v) :: l, rest).
Proof.
  revert k v f. induction l as [|[j w] l IH]; intros k v f [Hv Hl]%Forall_cons Hf;
    (destruct f as [|f]; [simpl in Hf; lia|]); rewrite parse_members_S, Hv by (simpl in Hf |- *; lia).
  - reflexivity.
  - cbn [enc_members].
    change (strip_char "," (skip_ws (String "," ?s))) with (Some s). cbv iota.
    rewrite IH; [done|done|]. simpl in Hf |- *. lia.
Qed.

Lemma parse_encode v : no_numbers v = true -> reads_back v.
Proof.
  induction v as [|b|t|s|l IH|l IH] using json_nested_ind; intros Hv f rest Hf;
    (destruct f as [|f]; [simpl in Hf; lia|]).
  - change (parse_literal "null" JNull (str_app "null" rest) = Some (JNull, rest)). apply parse_literal_app.
  - destruct b.
    + change (parse_literal "true" (JBool true) (str_app "true" rest) = Some (JBool true, rest)). apply parse_literal_app.
    + change (parse_literal "false" (JBool false) (str_app "false" rest) = Some (JBool false, rest)). apply parse_literal_app.
  - done.
  - apply parse_value_string.
  - assert (Forall reads_back l) as Hl by exact (forallb_mp _ _ l IH Hv).
    destruct l as [|v l]; [reflexivity|]. rewrite encode_JArr.
    destruct (encode_head v (enc_elems l rest)) as (c & s & E & Hc); [simpl in Hv; by apply andb_true_iff in Hv as [? _]|].
    change (parse_value (S f) (String "[" ?s)) with
      (match strip_char "]" (skip_ws s) with
       | Some r' => Some (JArr [], r')
       | None => match parse_elems f s with Some (l, r') => Some (JArr l, r') | None => None end
       end).
    replace (strip_char "]" (skip_ws (encode v (enc_elems l rest)))) with (@None string)
      by (rewrite E, value_head_skip, value_head_close; done).
    rewrite elems_read_back; [done|done|]. cbn [need] in Hf. simpl in Hf |- *. lia.
  - assert (Forall (fun e => reads_back e.2) l) as Hl by exact (forallb_mp _ _ l IH Hv).
    destruct l as [|[k v] l]; [reflexivity|]. rewrite encode_JObj.
    change (parse_value (S f) (String "{" (encode_string k ?s))) with
      (match parse_members f (encode_string k s) with Some (l, r') => Some (JObj l, r') | None => None end).
    rewrite members_read_back; [done|done|]. cbn [need] in Hf. simpl in Hf |- *. lia.
Qed.

(** The text of a value is at least as long as the fuel that reading it
    takes. *)
Definition long_enough (v : json) : Prop :=
  forall rest, (need v + String.length rest <= String.length (encode v rest))%nat.

Lemma encode_string_length s rest : (2 + String.length rest <= String.length (encode_string s rest))%nat.
Proof.
  unfold encode_string. cbn [String.length]. induction s as [|c s IH]; cbn [encode_chars String.length]; [lia|].
  unfold encode_char. repeat case_match; cbn [String.length]; lia.
Qed.

Lemma elems_long l v rest :
  Forall long_enough (v :: l) ->
  (foldr (fun v n => S (max (need v) n)) 0%nat (v :: l) + String.length rest <= String.length (encode v (enc_elems l rest)))%nat.
Proof.
  revert v. induction l as [|w l IH]; intros v [Hv Hl]%Forall_cons.
  - specialize (Hv (enc_elems [] rest)). cbn [foldr enc_elems String.length] in *. lia.
  - specialize (Hv (enc_elems (w :: l) rest)). specialize (IH w Hl). cbn [enc_elems String.length] in Hv |- *.
    cbn [foldr] in *. lia.
Qed.

Lemma members_long l k v rest :
  Forall (fun e => long_enough e.2) ((k, v) :: l) ->
  (foldr (fun e n => S (max (need e.2) n)) 0%nat ((k, v) :: l) + String.length rest
   <= String.length (encode_string k (String ":" (encode v (enc_members l rest)))))%nat.
Proof.
  revert k v. induction l as [|[j w] l IH]; intros k v [Hv Hl]%Forall_cons; cbn [snd] in Hv.
  - pose proof (encode_string_length k (String ":" (encode v (enc_members [] rest)))) as Hk.
    specialize (Hv (enc_members [] rest)). cbn [foldr enc_members String.length snd] in *. lia.
  - pose proof (encode_string_length k (String ":" (encode v (enc_members ((j, w) :: l) rest)))) as Hk.
    specialize (Hv (enc_members ((j, w) :: l) rest)). specialize (IH j w Hl).
    cbn [foldr enc_members String.length snd] in *. lia.
Qed.

Lemma encode_long v : no_numbers v = true -> long_enough v.
Proof.
  induction v as [|[]|t|s|l IH|l IH] using json_nested_ind; intros Hv rest.
  - simpl. lia.
  - simpl. lia.
  - simpl. lia.
  - done.
  - pose proof (encode_string_length s rest). cbn [need encode]. lia.
  - assert (Forall long_enough l) as Hl by exact (forallb_mp _ _ l IH Hv).
    destruct l as [|v l]; [simpl; lia|]. rewrite encode_JArr. pose proof (elems_long l v rest Hl) as H.
    cbn [need String.length]. lia.
  - assert (Forall (fun e => long_enough e.2) l) as Hl by exact (forallb_mp _ _ l IH Hv).
    destruct l as [|[k v] l]; [simpl; lia|]. rewrite encode_JObj. pose proof (members_long l k v rest Hl) as H.
    cbn [need String.length]. lia.
Qed.

(** A document without numbers reads back as the value it was made of. *)
Theorem parse_Marshal v : no_numbers v = true -> parse_json (Marshal v) = Some v.
Proof.
  intros Hv. unfold parse_json, Marshal. pose proof (encode_long v Hv "") as H.
  rewrite (parse_encode v Hv) by (simpl in H |- *; lia). reflexivity.
Qed.
