(* ===== verification/Framework.v ===== *)
(** * Scheduling framework: statuses, cycle state, etcd

    [framework.Status] and [PluginToStatus.Merge] (interface.go),
    [framework.CycleState] (cycle_state.go), and the interfaces to the
    services the Hice plugins call: the etcd client and the codec of the API
    objects kept there. *)

From S2P Require Import Prelude GoInt GoFloat GoStrconv Quantity ApiTypes Labels NodeAffinity Resource AffinityTerms.

(** ** Status *)

Inductive Code := Success | Error | Unschedulable | UnschedulableAndUnresolvable | Wait | Skip.

#[export] Instance Code_eq_dec : EqDecision Code.
Proof. solve_decision. Defined.

Record FStatus := mkStatus {
  code : Code;
  reasons : list string;
  st_err : error;
  failedPlugin : string
}.

(** [*Status]: [nil] is [None]. *)
Abbreviation StatusPtr := (option FStatus).

Definition Status_Code (s : StatusPtr) : Code :=
  match s with None => Success | Some s => code s end.

Definition Message (s : StatusPtr) : string :=
  match s with None => ""%string | Some s => Join (reasons s) ", " end.

Definition IsSuccess (s : StatusPtr) : bool := bool_decide (Status_Code s = Success).

Definition IsUnschedulable (s : StatusPtr) : bool :=
  bool_decide (Status_Code s = Unschedulable)
  || bool_decide (Status_Code s = UnschedulableAndUnresolvable).

Definition AsError (s : StatusPtr) : error :=
  if IsSuccess s then None
  else
    match s with
    | Some st => match st_err st with Some e => Some e | None => Some (Message s) end
    | None => None
    end.

Definition NewStatus (c : Code) (rs : list string) : FStatus :=
  mkStatus c rs (if bool_decide (c = Error) then Some (Join rs ", ") else None) "".

Definition AsStatus (e : string) : FStatus := mkStatus Error [e] (Some e) "".

Definition WithFailedPlugin (s : FStatus) (plugin : string) : FStatus :=
  mkStatus (code s) (reasons s) (st_err s) plugin.

(** [statusPrecedence]; a code that is not in the map reads as zero. *)
Definition statusPrecedence (c : Code) : Z :=
  match c with
  | Error => 3
  | UnschedulableAndUnresolvable => 2
  | Unschedulable => 1
  | Success => -1
  | Wait | Skip => 0
  end.

(** The body of the loop of [Merge]. *)
Definition merge_step (final s : FStatus) : FStatus :=
  let err := if bool_decide (code s = Error) then AsError (Some s) else st_err final in
  let '(c, fp) :=
    if statusPrecedence (code final) <? statusPrecedence (code s)
    then (code s, failedPlugin s) else (code final, failedPlugin final) in
  mkStatus c (reasons final ++ reasons s) err fp.

(** [PluginToStatus.Merge], over the map's values in some iteration order. *)
Definition Merge (l : list FStatus) : StatusPtr :=
  match l with
  | [] => None
  | _ => Some (fold_left merge_step l (NewStatus Success []))
  end.

Lemma merge_precedence l s :
  let r := fold_left merge_step l s in
  statusPrecedence (code s) <= statusPrecedence (code r) /\
  Forall (fun x => statusPrecedence (code x) <= statusPrecedence (code r)) l /\
  (code r = code s \/ Exists (fun x => code r = code x) l).
Proof.
  revert s. induction l as [|x l IH]; intros s; simpl.
  { split_and!; [lia|done|by left]. }
  destruct (IH (merge_step s x)) as (H1 & H2 & H3).
  set (r := fold_left merge_step l (merge_step s x)) in *.
  assert (statusPrecedence (code (merge_step s x)) =
          Z.max (statusPrecedence (code s)) (statusPrecedence (code x)) /\
          (code (merge_step s x) = code s \/ code (merge_step s x) = code x)) as [Hm Hc].
  { unfold merge_step. destruct (Z.ltb_spec (statusPrecedence (code s)) (statusPrecedence (code x)));
      simpl; split; auto; lia. }
  split_and!; [lia|constructor; [lia|done]|].
  destruct H3 as [H3|H3]; [|right; by apply Exists_cons_tl].
  destruct Hc as [Hc|Hc]; [left; congruence|right; apply Exists_cons_hd; congruence].
Qed.

Lemma statusPrecedence_inj c d :
  statusPrecedence c = statusPrecedence d -> c = d \/ (c ∈ [Wait; Skip] /\ d ∈ [Wait; Skip]).
Proof. destruct c, d; simpl; intros; try lia; auto; right; split; set_solver. Qed.

(** The code [Merge] reports is that of a plugin with the highest
    precedence (Error, UnschedulableAndUnresolvable, Unschedulable, others,
    Success); it does not depend on the iteration order of the map, and is
    Success only when every plugin succeeded. *)
Theorem Merge_code l l' :
  l ≡ₚ l' -> Forall (fun s => code s <> Wait /\ code s <> Skip) l ->
  Status_Code (Merge l) = Status_Code (Merge l') /\
  Forall (fun s => statusPrecedence (code s) <= statusPrecedence (Status_Code (Merge l))) l /\
  (Status_Code (Merge l) = Success <-> Forall (fun s => code s = Success) l).
Proof.
  intros Hp Hws.
  assert (forall k, Forall (fun s => code s <> Wait /\ code s <> Skip) k ->
    Forall (fun s => statusPrecedence (code s) <= statusPrecedence (Status_Code (Merge k))) k /\
    (Status_Code (Merge k) = Success \/ Exists (fun s => Status_Code (Merge k) = code s) k) /\
    Status_Code (Merge k) <> Wait /\ Status_Code (Merge k) <> Skip) as Hm.
  { intros [|s k] Hk; [split_and!; [constructor|by left|done|done]|].
    unfold Merge. destruct (merge_precedence (s :: k) (NewStatus Success [])) as (_ & H2 & H3).
    split_and!; [done| | |].
    - destruct H3; [by left|by right].
    - cbn [Status_Code]. destruct H3 as [->|[x [Hx E]]%Exists_exists]; [done|].
      rewrite E. rewrite Forall_forall in Hk. by apply Hk.
    - cbn [Status_Code]. destruct H3 as [->|[x [Hx E]]%Exists_exists]; [done|].
      rewrite E. rewrite Forall_forall in Hk. by apply Hk. }
  assert (forall k k', k ≡ₚ k' -> Forall (fun s => code s <> Wait /\ code s <> Skip) k ->
    statusPrecedence (Status_Code (Merge k)) <= statusPrecedence (Status_Code (Merge k'))) as Hle.
  { intros k k' Hkk Hk. destruct (Hm k Hk) as (_ & [->|[x [Hx ->]]%Exists_exists] & _).
    - destruct (Status_Code (Merge k')); simpl; lia.
    - rewrite Hkk in Hk, Hx. destruct (Hm k' Hk) as (HF & _). rewrite Forall_forall in HF. by apply HF. }
  assert (Forall (fun s => code s <> Wait /\ code s <> Skip) l') as Hws' by (by rewrite <- Hp).
  destruct (Hm l Hws) as (H1 & H2 & H3 & H4).
  split_and!; [|done|].
  - pose proof (Hle l l' Hp Hws). pose proof (Hle l' l (symmetry Hp) Hws').
    destruct (statusPrecedence_inj (Status_Code (Merge l)) (Status_Code (Merge l'))) as [|[Hx _]];
      [lia|done|set_solver].
  - split.
    + intros E. rewrite E in H1. eapply Forall_impl; [exact H1|]. intros s Hs.
      cbn beta in Hs. destruct (code s); simpl in Hs; lia || done.
    + intros HF. destruct H2 as [|[x [Hx ->]]%Exists_exists]; [done|].
      rewrite Forall_forall in HF. by apply HF.
Qed.

Lemma Merge_code_witness :
  let l := [NewStatus Unschedulable ["cpu"%string]; NewStatus Success []; NewStatus Error ["etcd"%string]] in
  Status_Code (Merge l) = Status_Code (Merge (rev l)) /\ Status_Code (Merge l) = Error.
Proof.
  split; [|reflexivity].
  apply Merge_code; [apply Permutation_rev|]. repeat constructor; discriminate.
Defined.

(** ** Cycle state *)

(** The dynamic types of the data the plugins store. *)
Inductive StateData :=
| SD_Arches (s : list string)     (** [hicev1.preFilterState] *)
| SD_Images (data : string)       (** [hicev1.ImageState] *)
| SD_Fit (r : Resource)           (** [noderesources.preFilterState] *)
| SD_PodsToActivate (m : gmap string Pod)  (** [framework.PodsToActivate] *)
| SD_NodePorts (ports : list ContainerPort)  (** [nodeports.preFilterState] *)
| SD_NodeAffinity (s : RequiredNodeAffinity)  (** [nodeaffinity.preFilterState] *)
| SD_Preferred (terms : option (list (nodeSelectorTerm * Z)))  (** [nodeaffinity.preScoreState] *)
| SD_Tolerations (l : list Toleration)  (** [tainttoleration.preScoreState] *)
| SD_InterPodAffinity (s : IPA_preFilterState)  (** [interpodaffinity.preFilterState] *)
| SD_InterPodScore (s : IPA_preScoreState)  (** [interpodaffinity.preScoreState] *)
| SD_Spread (s : Spread_preFilterState)  (** [podtopologyspread.preFilterState] *)
| SD_SpreadScore (s : Spread_preScoreState)  (** [podtopologyspread.preScoreState] *)
| SD_Other (type_name : string).

Record CycleState := mkCycleState {
  storage : gmap string StateData;
  recordPluginMetrics : bool
}.

Definition NewCycleState : CycleState := mkCycleState ∅ false.

Definition ErrNotFound : string := "not found".

Definition CS_Read (c : CycleState) (key : string) : StateData + string :=
  match storage c !! key with Some v => inl v | None => inr ErrNotFound end.

Definition CS_Write (c : CycleState) (key : string) (val : StateData) : CycleState :=
  mkCycleState (<[key := val]> (storage c)) (recordPluginMetrics c).

Definition CS_Delete (c : CycleState) (key : string) : CycleState :=
  mkCycleState (delete key (storage c)) (recordPluginMetrics c).

(** The [Clone] methods of the stored types return the value itself, or a
    deep copy of it where plugins change it later. *)
Definition StateData_Clone (d : StateData) : StateData := d.

(** [Clone] starts from a new state: the metrics flag is not copied. *)
Definition CS_Clone (c : CycleState) : CycleState :=
  fold_left (fun cp e => CS_Write cp e.1 (StateData_Clone e.2)) (map_to_list (storage c)) NewCycleState.

Lemma CS_Clone_storage c : storage (CS_Clone c) = storage c.
Proof.
  unfold CS_Clone, StateData_Clone. apply map_eq. intros k.
  etransitivity; [apply (fold_left_key (fun cp e => CS_Write cp e.1 e.2)
    (fun cp => storage cp !! k) (fun _ v => Some v) k (storage c)); [..|done]|].
  - intros b [k' v] Hne. simpl in *. by rewrite lookup_insert_ne.
  - intros b v. simpl. by rewrite lookup_insert_eq.
  - simpl. by destruct (storage c !! k).
Qed.

(** A written value is what is read back, other keys are untouched, and
    a clone answers every read like the original (it does drop the metrics
    flag). *)
Theorem CycleState_laws c k v k' :
  CS_Read (CS_Write c k v) k = inl v /\
  (k <> k' -> CS_Read (CS_Write c k v) k' = CS_Read c k') /\
  CS_Read (CS_Delete c k) k = inr ErrNotFound /\
  CS_Read (CS_Clone c) k' = CS_Read c k' /\
  recordPluginMetrics (CS_Clone c) = false.
Proof.
  unfold CS_Read. split_and!; simpl.
  - by rewrite lookup_insert_eq.
  - intros. by rewrite lookup_insert_ne.
  - by rewrite lookup_delete_eq.
  - by rewrite CS_Clone_storage.
  - unfold CS_Clone. generalize (map_to_list (storage c)) as l.
    assert (recordPluginMetrics NewCycleState = false) as H by done. revert H.
    generalize NewCycleState as st. intros st H l. revert st H.
    induction l as [|e l IH]; intros st H; simpl; [done|]. by apply IH.
Qed.

Lemma CycleState_laws_witness :
  CS_Read (CS_Write NewCycleState "a" (SD_Other "x")) "b" = CS_Read NewCycleState "b".
Proof. by apply (CycleState_laws NewCycleState "a" (SD_Other "x") "b"). Defined.

(** ** Services *)

(** The etcd client: a key-value store every call of which may fail.  The
    fields say which calls fail; a failed write may or may not have taken
    effect. *)
Class EtcdService := {
  dial_error : error;
  get_error : string -> error;
  put_error : string -> error;
  put_applied : string -> bool
}.

Abbreviation EtcdStore := (gmap string string).

Section etcd.
Context {E : EtcdService}.

(** [Get]: the values found, or the error (the response is then [nil]). *)
Definition etcd_Get (st : EtcdStore) (key : string) : list string + string :=
  match get_error key with
  | Some e => inr e
  | None => inl (match st !! key with Some v => [v] | None => [] end)
  end.

Definition etcd_Put (st : EtcdStore) (key v : string) : EtcdStore * error :=
  match put_error key with
  | Some e => (if put_applied key then <[key := v]> st else st, Some e)
  | None => (<[key := v]> st, None)
  end.
End etcd.

(** The protobuf codec of API objects: decoding yields [None] for text that
    is not a pod. *)
Class PodCodec := {
  decode_pod : string -> option Pod;
  encode_pod : Pod -> string
}.

Definition index_panic : string := "index out of range [0] with length 0".
Definition nil_panic : string := "invalid memory address or nil pointer dereference".
