(* ===== verification/Snapshot.v ===== *)
(** * Snapshots of the cluster

    [internal/cache/snapshot.go]: the immutable view of the nodes a
    scheduling cycle works on.  The lists of a snapshot hold pointers into
    its map; they are kept as the names under which the map holds them. *)

From S2P Require Import Prelude GoInt GoFloat GoStrconv Quantity ApiTypes Resource HostPorts AffinityTerms NodeInfo.

Record Snapshot := mkSnapshot {
  nodeInfoMap : gmap string NodeInfo;
  nodeInfoList : list string;
  havePodsWithAffinityNodeInfoList : list string;
  havePodsWithRequiredAntiAffinityNodeInfoList : list string;
  sn_generation : Z
}.

Definition NewEmptySnapshot : Snapshot := mkSnapshot ∅ [] [] [] 0.

(** [Get] *)
Definition SN_Get (s : Snapshot) (nodeName : string) : NodeInfo + string :=
  let not_found := inr (str_app "nodeinfo not found for node name " nodeName) in
  match nodeInfoMap s !! nodeName with
  | Some v => match ni_node v with Some _ => inl v | None => not_found end
  | None => not_found
  end.

(** [List], through the pointers; [NumNodes]. *)
Definition SN_List (s : Snapshot) : list NodeInfo :=
  omap (fun n => nodeInfoMap s !! n) (nodeInfoList s).
Definition SN_NumNodes (s : Snapshot) : nat := length (nodeInfoList s).

Lemma SN_Get_Some s name v :
  SN_Get s name = inl v <-> nodeInfoMap s !! name = Some v /\ is_Some (ni_node v).
Proof.
  unfold SN_Get. destruct (nodeInfoMap s !! name) as [u|]; [|naive_solver].
  destruct (ni_node u) eqn:E; split; try done.
  - intros [= <-]. rewrite E. eauto.
  - by intros [[= <-] _].
  - intros [[= <-] [? ?]]. congruence.
Qed.

(** ** Images *)

(** The (name, size) pairs of a node's images, in order. *)
Definition node_image_names (node : Node) : list (string * Z) :=
  concat (map (fun im => map (fun n => (n, img_SizeBytes im)) (img_Names im)) (node_Images node)).

Definition createImageExistenceMap (nodes : list Node) : gmap string (gset string) :=
  fold_left (fun m node =>
    fold_left (fun m e => <[e.1 := default ∅ (m !! e.1) ∪ {[node_Name node]}]> m)
      (node_image_names node) m) nodes ∅.

Definition getNodeImageStates (node : Node) (m : gmap string (gset string))
    : gmap string ImageStateSummary :=
  fold_left (fun st e =>
    <[e.1 := mkImageStateSummary e.2 (Z.of_nat (size (default ∅ (m !! e.1))))]> st)
    (node_image_names node) ∅.

(** [nodeInfo.ImageStates = states] *)
Definition set_ImageStates (st : gmap string ImageStateSummary) (n : NodeInfo) : NodeInfo :=
  mkNodeInfo (ni_node n) (Pods n) (PodsWithAffinity n) (PodsWithRequiredAntiAffinity n)
    (UsedPorts n) (Requested n) (NonZeroRequested n) (Allocatable n) st (PVCRefCounts n)
    (Generation n).

Section snapshot.
Context {arch : GoArch} {gates : FeatureGates}.

(** [if _, ok := m[name]; !ok { m[name] = NewNodeInfo() }] *)
Definition get_or_new (m : gmap string NodeInfo) (name : string) (w : World) : NodeInfo * World :=
  match m !! name with Some n => (n, w) | None => NewNodeInfo w end.

Definition createNodeInfoMap (pods : list Pod) (nodes : list Node) (w : World)
    : gmap string NodeInfo * World :=
  let st := fold_left (fun '(m, w) pod =>
      let nodeName := NodeName (Spec pod) in
      let '(n, w) := get_or_new m nodeName w in
      let '(n, w) := AddPod pod n w in
      (<[nodeName := n]> m, w)) pods (∅, w) in
  let imageExistenceMap := createImageExistenceMap nodes in
  fold_left (fun '(m, w) node =>
    let '(n, w) := get_or_new m (node_Name node) w in
    let '(n, w) := SetNode node n w in
    (<[node_Name node := set_ImageStates (getNodeImageStates node imageExistenceMap) n]> m, w))
    nodes st.

Definition has_affinity_pods (n : NodeInfo) : bool := negb (length (PodsWithAffinity n) =? 0)%nat.
Definition has_anti_affinity_pods (n : NodeInfo) : bool :=
  negb (length (PodsWithRequiredAntiAffinity n) =? 0)%nat.

(** The lists follow the iteration order of the map. *)
Definition NewSnapshot (pods : list Pod) (nodes : list Node) (w : World) : Snapshot * World :=
  let '(m, w) := createNodeInfoMap pods nodes w in
  let l := map_to_list m in
  (mkSnapshot m l.*1
     (map fst (List.filter (fun e => has_affinity_pods e.2) l))
     (map fst (List.filter (fun e => has_anti_affinity_pods e.2) l)) 0, w).
End snapshot.
