(* ===== verification/Hicev1.v ===== *)
(** * The Hicev1 plugin: scheduling by architecture

    [framework/plugins/hicev1/hice.go].  The plugin reads the multi-arch
    image list from etcd, admits the nodes whose architecture every container
    has an image for, and binds a pod by rewriting its images in etcd. *)

From S2P Require Import Prelude GoInt GoFloat GoStrconv Quantity ApiTypes Resource HostPorts AffinityTerms NodeInfo Snapshot Json Framework.

Local Open Scope go_scope.

(** ** Documents in etcd *)

Record ImageInf := mkImageInf { inf_Name : string; inf_Arch : string; inf_Os : string }.

Record Images := mkImages { imgs_Name : string; ImageInfs : list ImageInf }.

(** [ImagesList], by its only field. *)
Abbreviation ImagesList := (list Images).

(** [UnAvailableImages], by its only field. *)
Abbreviation UnAvailableImages := (list string).

Definition decode_ImageInf : json -> option ImageInf :=
  decode_object (fun o =>
    match decode_string (field "name" o), decode_string (field "arch" o),
          decode_string (field "os" o) with
    | Some n, Some a, Some s => Some (mkImageInf n a s)
    | _, _, _ => None
    end).

Definition decode_Images : json -> option Images :=
  decode_object (fun o =>
    match decode_string (field "name" o), decode_list decode_ImageInf (field "images" o) with
    | Some n, Some l => Some (mkImages n l)
    | _, _ => None
    end).

Definition decode_ImagesList : json -> option ImagesList :=
  decode_object (fun o => decode_list decode_Images (field "list" o)).

Definition decode_UnAvailableImages : json -> option UnAvailableImages :=
  decode_object (fun o => decode_list decode_string (field "images" o)).

(** [json.Unmarshal] *)
Definition Unmarshal {A} (dec : json -> option A) (data : string) : option A :=
  match parse_json data with Some v => dec v | None => None end.

Definition quoted (s : string) : string := String dquote (str_app s (String dquote "")).

(** [json.Marshal] of [UnAvailableImages]; an empty list is omitted. *)
Definition Marshal_UnAvailableImages (l : UnAvailableImages) : string :=
  match l with
  | [] => "{}"
  | _ => str_app (str_app "{" (quoted "images")) (str_app ":[" (encode_elems l "}"))
  end.

(** ** Images and architectures *)

Definition GetMultiArchImages (imageName imagedata : string) : list ImageInf :=
  match Unmarshal decode_ImagesList imagedata with
  | None => []
  | Some containers =>
      default [] (first_some (fun item =>
        if String.eqb imageName (imgs_Name item) then Some (ImageInfs item) else None) containers)
  end.

(** The keys of [availableArch] after the loop over the containers. *)
Definition available_arches (containers : list Container) (imagedata : string)
    : option (gset string) :=
  match containers with
  | [] => None
  | c0 :: cs =>
      let arches c := map inf_Arch (GetMultiArchImages (c_Image c) imagedata) in
      Some (fold_left (fun avail c =>
        list_to_set (List.filter (fun a => bool_decide (a ∈ avail)) (arches c)))
        cs (list_to_set (arches c0)))
  end.

(** [PodAvailableArch]: the keys in an iteration order of the map; the code
    indexes the first container unguarded. *)
Definition PodAvailableArch (pod : Pod) (imagedata : string) : outcome (list string) :=
  match available_arches (Containers (Spec pod)) imagedata with
  | None => Panic index_panic
  | Some s => Ret (elements s)
  end.

Definition GetUnAvailableImages (pod : Pod) (data : string) : UnAvailableImages :=
  map c_Image (List.filter (fun c =>
    (length (GetMultiArchImages (c_Image c) data) =? 0)%nat) (Containers (Spec pod))).

(** The loop over the new images: the list so far and whether it grew. *)
Definition merge_unavailable (existed images : UnAvailableImages) : UnAvailableImages * bool :=
  fold_left (fun '(l, upgradeAble) image =>
    if existsb (String.eqb image) l then (l, upgradeAble) else (l ++ [image], true))
    images (existed, false).

Definition UpdateUnAvailableImageData (old : string) (images : UnAvailableImages) : outcome string :=
  match images with
  | [] => Ret old
  | _ =>
      if (String.length old =? 0)%nat then Ret (Marshal_UnAvailableImages images)
      else
        match Unmarshal decode_UnAvailableImages old with
        | None => Panic "json: cannot unmarshal"
        | Some existed =>
            let '(l, upgradeAble) := merge_unavailable existed images in
            Ret (if upgradeAble then Marshal_UnAvailableImages l else old)
        end
  end.

(** ** Cycle state *)

Definition preFilterStateKey : string := "PreFilterHicev1".
Definition imageStateKey : string := "images".
Definition ErrReasonArch : string := "node(s)'s arch isn't included in pods arches".
Definition images_key : string := "kubehice/images".
Definition unavailable_key : string := "kubehice/unavailableimages".

Definition read_error (e : string) : string :=
  str_app "error reading " (str_app (quoted preFilterStateKey) (str_app " from cycleState: " e)).

Definition getPreFilterState (c : CycleState) : list string + string :=
  match CS_Read c preFilterStateKey with
  | inr e => inr (read_error e)
  | inl (SD_Arches s) => inl s
  | inl _ => inr "convert to hicev1.preFilterState error"%string
  end.

Definition getImageState (c : CycleState) : string * error :=
  match CS_Read c imageStateKey with
  | inr e => (""%string, Some (read_error e))
  | inl (SD_Images d) => (d, None)
  | inl _ => (""%string, Some "convert to hice.imageState error"%string)
  end.

(** ** Extension points *)

Section hicev1.
Context {E : EtcdService} {codec : PodCodec}.

(** Recording unknown images: the errors of the write are dropped, and a
    failed read leaves a [nil] response behind. *)
Definition record_unavailable (st : EtcdStore) (l : UnAvailableImages) : outcome EtcdStore :=
  match l with
  | [] => Ret st
  | _ =>
      match etcd_Get st unavailable_key with
      | inr _ => Panic nil_panic
      | inl kvs =>
          let old := match kvs with v :: _ => v | [] => ""%string end in
          let! data := UpdateUnAvailableImageData old l in
          Ret (etcd_Put st unavailable_key data).1
      end
  end.

Definition PreFilter (st : EtcdStore) (cycleState : CycleState) (pod : Pod)
    : outcome (EtcdStore * CycleState * StatusPtr) :=
  match dial_error with
  | Some _ => Ret (st, cycleState, None)
  | None =>
      match etcd_Get st images_key with
      | inr e => Ret (st, cycleState, Some (NewStatus Error [e]))
      | inl [] => Panic index_panic
      | inl (data :: _) =>
          let! st := record_unavailable st (GetUnAvailableImages pod data) in
          let! s := PodAvailableArch pod data in
          let cycleState := CS_Write cycleState preFilterStateKey (SD_Arches s) in
          let cycleState := CS_Write cycleState imageStateKey (SD_Images data) in
          Ret (st, cycleState, None)
      end
  end.

Definition arch_label : string := "kubernetes.io/arch".

Definition fitsArches (availableArches : list string) (nodeInfo : NodeInfo) : outcome bool :=
  match ni_node nodeInfo with
  | None => Panic nil_panic
  | Some node => Ret (existsb (String.eqb (label (node_Labels node) arch_label)) availableArches)
  end.

Definition Filter (cycleState : CycleState) (nodeInfo : NodeInfo) : outcome StatusPtr :=
  match getPreFilterState cycleState with
  | inr e => Ret (Some (NewStatus Error [e]))
  | inl availableArches =>
      let! fits := fitsArches availableArches nodeInfo in
      Ret (if negb fits then Some (NewStatus Unschedulable [ErrReasonArch]) else None)
  end.

(** The image chosen for a container. *)
Definition convert_image (arch imagedata image : string) : string :=
  default image (first_some (fun i =>
    if String.eqb arch (inf_Arch i) then Some (inf_Name i) else None)
    (GetMultiArchImages image imagedata)).

Definition ConvertPodImages (p : Pod) (arch imagedata : string) : Pod :=
  set_Containers (map (fun c => set_Image (convert_image arch imagedata (c_Image c)) c)
    (Containers (Spec p))) p.

Definition pod_key (p : Pod) : string :=
  str_app "/registry/pods/" (str_app (Namespace p) (str_app "/" (Name p))).

(** The container of [p] with the name of [c], the first one if several. *)
Definition same_named (p : Pod) (c : Container) : option Container :=
  first_some (fun pc => if String.eqb (c_Name c) (c_Name pc) then Some pc else None)
    (Containers (Spec p)).

Definition PodScheduled_true : PodCondition := mkPodCondition "PodScheduled" "True" 0 0 "" "".

(** What [changePodInEtcd] does to the pod decoded from etcd. *)
Definition bind_pod (p etcdPod : Pod) : Pod :=
  let cs := map (fun c => match same_named p c with
                          | Some pc => set_Image (c_Image pc) c | None => c end)
              (Containers (Spec etcdPod)) in
  add_Condition PodScheduled_true (set_NodeName (NodeName (Spec p)) (set_Containers cs etcdPod)).

(** [changePodInEtcd]; a value that is not a pod makes the type assertion
    panic. *)
Definition changePodInEtcd (p : Pod) (st : EtcdStore) : outcome (EtcdStore * error) :=
  let key := pod_key p in
  match etcd_Get st key with
  | inr e => Ret (st, Some e)
  | inl [] => Panic index_panic
  | inl (v :: _) =>
      match decode_pod v with
      | None => Panic "interface conversion: interface is nil, not *v1.Pod"
      | Some etcdPod => Ret (etcd_Put st key (encode_pod (bind_pod p etcdPod)))
      end
  end.

Definition Bind (snap : Snapshot) (st : EtcdStore) (state : CycleState) (p : Pod) (nodeName : string)
    : outcome (EtcdStore * StatusPtr) :=
  match SN_Get snap nodeName with
  | inr e => Ret (st, Some (NewStatus Error [e]))
  | inl nodeInfo =>
      match ni_node nodeInfo with
      | None => Panic nil_panic
      | Some node =>
          let imageData := (getImageState state).1 in
          let tempPod := ConvertPodImages p (label (node_Labels node) arch_label) imageData in
          match dial_error with
          | Some e => Ret (st, Some (NewStatus Error [e]))
          | None =>
              let! r := changePodInEtcd tempPod st in
              Ret (r.1, match r.2 with Some e => Some (NewStatus Error [e]) | None => None end)
          end
      end
  end.
End hicev1.
