(* ===== verification/Hicev1Proofs.v ===== *)
(** * Properties of the Hicev1 plugin *)

From S2P Require Import Prelude GoInt GoFloat GoStrconv Quantity ApiTypes Resource HostPorts AffinityTerms NodeInfo Samples Snapshot Json Framework Hicev1.

(** A container has an image for the architecture. *)
Definition has_arch (data a : string) (c : Container) : Prop :=
  exists i, i ∈ GetMultiArchImages (c_Image c) data /\ inf_Arch i = a.

#[export] Instance has_arch_dec data a c : Decision (has_arch data a c).
Proof.
  destruct (decide (a ∈ map inf_Arch (GetMultiArchImages (c_Image c) data))) as [H|H].
  - left. apply list_elem_of_fmap in H as (i & -> & ?). by exists i.
  - right. intros (i & ? & <-). apply H. by apply list_elem_of_fmap_2.
Defined.

(** ** Available architectures *)

Lemma available_fold cs data (s : gset string) a :
  a ∈ fold_left (fun avail c =>
        list_to_set (List.filter (fun x => bool_decide (x ∈ avail))
          (map inf_Arch (GetMultiArchImages (c_Image c) data)))) cs s
  <-> a ∈ s /\ Forall (has_arch data a) cs.
Proof.
  revert s. induction cs as [|c cs IH]; intros s; simpl.
  { rewrite Forall_nil. tauto. }
  rewrite IH, Forall_cons, elem_of_list_to_set, list_elem_of_In, filter_In, <- list_elem_of_In,
    bool_decide_eq_true.
  rewrite (list_elem_of_fmap inf_Arch). unfold has_arch. naive_solver.
Qed.

Lemma available_arches_spec containers data :
  match available_arches containers data with
  | None => containers = []
  | Some s => containers <> [] /\ forall a, a ∈ s <-> Forall (has_arch data a) containers
  end.
Proof.
  destruct containers as [|c cs]; simpl; [done|]. split; [done|]. intros a.
  rewrite available_fold, Forall_cons, elem_of_list_to_set, (list_elem_of_fmap inf_Arch).
  unfold has_arch. naive_solver.
Qed.

Lemma PodAvailableArch_Ret pod data l :
  PodAvailableArch pod data = Ret l ->
  NoDup l /\ forall a, a ∈ l <-> Forall (has_arch data a) (Containers (Spec pod)).
Proof.
  unfold PodAvailableArch. pose proof (available_arches_spec (Containers (Spec pod)) data) as H.
  destruct (available_arches _ data) as [s|]; [|done]. intros [= <-].
  split; [apply NoDup_elements|]. intros a. rewrite elem_of_elements. apply H.
Qed.

(** [PodAvailableArch] returns, without repetition, exactly the
    architectures for which every container of the pod has an image, and it
    panics exactly on a pod without containers. *)
Theorem PodAvailableArch_spec pod data :
  match PodAvailableArch pod data with
  | Ret l => Containers (Spec pod) <> [] /\ NoDup l /\
             forall a, a ∈ l <-> Forall (has_arch data a) (Containers (Spec pod))
  | Panic _ => Containers (Spec pod) = []
  end.
Proof.
  pose proof (available_arches_spec (Containers (Spec pod)) data) as H.
  destruct (PodAvailableArch pod data) as [l|] eqn:E.
  - destruct (PodAvailableArch_Ret _ _ _ E). split_and!; try done.
    unfold PodAvailableArch in E. destruct (available_arches _ _); [apply H|done].
  - unfold PodAvailableArch in E. destruct (available_arches _ _); [done|apply H].
Qed.

(** ** The list of unavailable images *)

Lemma encode_chars_length s rest :
  (String.length rest <= String.length (encode_chars s rest))%nat.
Proof.
  induction s as [|c s IH]; cbn [encode_chars String.length]; [lia|].
  unfold encode_char. repeat case_match; cbn [String.length]; lia.
Qed.

Lemma length_elems l rest : (length l <= String.length (encode_elems l rest))%nat.
Proof.
  induction l as [|x l IH]; [cbn; lia|]. destruct l as [|y l]; [cbn; lia|].
  change (encode_elems (x :: y :: l) rest)
    with (encode_string x (String "," (encode_elems (y :: l) rest))).
  pose proof (encode_chars_length x (String "," (encode_elems (y :: l) rest))) as H.
  change (length (x :: y :: l)) with (S (length (y :: l))).
  unfold encode_string. cbn [String.length] in *. lia.
Qed.

Lemma decode_all_strings l : decode_all decode_string (map JStr l) = Some l.
Proof. induction l as [|x l IH]; simpl; [done|]. by rewrite IH. Qed.

(** What is marshalled is read back. *)
Lemma Unmarshal_Marshal l :
  Unmarshal decode_UnAvailableImages (Marshal_UnAvailableImages l) = Some l.
Proof.
  destruct (decide (l = [])) as [->|Hne]; [reflexivity|].
  unfold Unmarshal, parse_json.
  pose proof (length_elems l "}") as Hlen.
  assert (Marshal_UnAvailableImages l =
    String "{" (encode_string "images" (String ":" (String "[" (encode_elems l "}"))))) as ->
    by (by destruct l).
  set (doc := encode_elems l "}") in *.
  assert (String.length (String "{" (encode_string "images" (String ":" (String "[" doc))))
    = (11 + String.length doc)%nat) as -> by reflexivity.
  change (2 + (11 + String.length doc))%nat with (S (S (S (10 + String.length doc)))).
  set (f := (10 + String.length doc)%nat) in *.
  assert (parse_value (S f) (String "[" doc) = Some (JArr (map JStr l), "}"%string)) as Hv.
  { assert (exists d, doc = String dquote d) as [d Ed].
    { unfold doc. destruct l as [|x [|y l]]; [done| |]; by eexists. }
    change (parse_value (S f) (String "[" doc)) with
      (match strip_char "]" (skip_ws doc) with
       | Some r' => Some (JArr [], r')
       | None => match parse_elems f doc with Some (l, r') => Some (JArr l, r') | None => None end
       end).
    replace (strip_char "]" (skip_ws doc)) with (@None string) by (rewrite Ed; reflexivity).
    unfold doc. rewrite parse_elems_encode; [done|done|]. unfold f. lia. }
  assert (parse_members (S (S f)) (encode_string "images" (String ":" (String "[" doc)))
    = Some ([("images"%string, JArr (map JStr l))], ""%string)) as Hm.
  { change (parse_members (S (S f)) (encode_string "images" (String ":" (String "[" doc)))) with
      (match parse_value (S f) (String "[" doc) with
       | None => None
       | Some (v, r) =>
           match strip_char "," (skip_ws r) with
           | Some r' => match parse_members (S f) r' with
                        | Some (l, r3) => Some (("images"%string, v) :: l, r3) | None => None end
           | None => match strip_char "}" (skip_ws r) with
                     | Some r' => Some ([("images"%string, v)], r') | None => None end
           end
       end).
    rewrite Hv. reflexivity. }
  change (parse_value (S (S (S f))) (String "{" (encode_string "images" (String ":" (String "[" doc)))))
    with (match parse_members (S (S f)) (encode_string "images" (String ":" (String "[" doc))) with
          | Some (l, r') => Some (JObj l, r') | None => None end).
  rewrite Hm. transitivity (decode_all decode_string (map JStr l)); [reflexivity|].
  apply decode_all_strings.
Qed.

Lemma merge_unavailable_gen images l b l' b' :
  fold_left (fun '(l, u) i => if existsb (String.eqb i) l then (l, u) else (l ++ [i], true))
    images (l, b) = (l', b') ->
  l `prefix_of` l' /\ (forall x, x ∈ l' <-> x ∈ l \/ x ∈ images) /\
  (NoDup l -> NoDup l') /\ (b' = false -> l' = l).
Proof.
  revert l b. induction images as [|i images IH]; intros l b; simpl.
  { intros [= <- <-]. split_and!; [done|set_solver|done|done]. }
  destruct (existsb (String.eqb i) l) eqn:Ei.
  - intros (H1 & H2 & H3 & H4)%IH.
    apply existsb_exists in Ei as (y & Hy%list_elem_of_In & ->%String.eqb_eq).
    split_and!; [done| |done|done]. intros x. rewrite H2, elem_of_cons. naive_solver.
  - intros Hf. pose proof (IH _ _ Hf) as (H1 & H2 & H3 & H4).
    assert (i ∉ l) as Hni.
    { intros Hi. assert (existsb (String.eqb i) l = true); [|congruence].
      apply existsb_exists. exists i. by rewrite <- list_elem_of_In, String.eqb_refl. }
    split_and!.
    + etransitivity; [|exact H1]. by exists [i].
    + intros x. rewrite H2. set_solver.
    + intros Hl. apply H3, NoDup_app. split_and!; [done| |apply NoDup_singleton]. set_solver.
    + intros ->. exfalso. clear -Hf. revert Hf. generalize (l ++ [i]) as k.
      induction images as [|j images IH]; intros k; simpl; [done|].
      destruct (existsb (String.eqb j) k); apply IH.
Qed.

Lemma merge_unavailable_spec existed images l u :
  merge_unavailable existed images = (l, u) ->
  existed `prefix_of` l /\ (forall x, x ∈ l <-> x ∈ existed \/ x ∈ images) /\
  (NoDup existed -> NoDup l) /\ (u = false -> l = existed).
Proof. apply merge_unavailable_gen. Qed.

Lemma merge_unavailable_known existed images :
  (forall x, x ∈ images -> x ∈ existed) -> merge_unavailable existed images = (existed, false).
Proof.
  unfold merge_unavailable. generalize false as b.
  induction images as [|i images IH]; intros b Hin; simpl; [done|].
  assert (existsb (String.eqb i) existed = true) as ->.
  { apply existsb_exists. exists i. rewrite <- list_elem_of_In, String.eqb_refl. set_solver. }
  apply IH. set_solver.
Qed.

(** What the document [old] lists; an absent document lists nothing. *)
Definition listed (old : string) : option (list string) :=
  if (String.length old =? 0)%nat then Some [] else Unmarshal decode_UnAvailableImages old.

Lemma listed_Marshal l : listed (Marshal_UnAvailableImages l) = Some l.
Proof. unfold listed. rewrite Unmarshal_Marshal. by destruct l. Qed.

Lemma update_listed old images existed :
  listed old = Some existed ->
  exists data l, UpdateUnAvailableImageData old images = Ret data /\ listed data = Some l /\
    existed `prefix_of` l /\ (forall x, x ∈ l <-> x ∈ existed \/ x ∈ images).
Proof.
  intros Hold. destruct (decide (images = [])) as [->|Hne].
  { exists old, existed. split_and!; [done..|set_solver]. }
  unfold listed in Hold. unfold UpdateUnAvailableImageData. destruct images as [|i im]; [done|].
  destruct (String.length old =? 0)%nat eqn:El.
  - injection Hold as <-. exists (Marshal_UnAvailableImages (i :: im)), (i :: im).
    split_and!; [done|apply listed_Marshal|by eexists|set_solver].
  - rewrite Hold. destruct (merge_unavailable existed (i :: im)) as [l u] eqn:Em.
    apply merge_unavailable_spec in Em as (P1 & P2 & _ & P4).
    destruct u; [exists (Marshal_UnAvailableImages l), l|exists old, l];
      (split_and!; [done| |done|done]); [apply listed_Marshal|].
    unfold listed. rewrite El, Hold. f_equal. symmetry. by apply P4.
Qed.

(** The updated document of unavailable images parses back to a list
    that extends the old one and holds exactly the old and the new images;
    recording the same images again leaves the document as it is. *)
Theorem UpdateUnAvailableImageData_spec old images existed :
  listed old = Some existed ->
  exists data l,
    UpdateUnAvailableImageData old images = Ret data /\ listed data = Some l /\
    existed `prefix_of` l /\ (forall x, x ∈ l <-> x ∈ existed \/ x ∈ images) /\
    UpdateUnAvailableImageData data images = Ret data.
Proof.
  intros Hold.
  assert (forall d l, listed d = Some l -> (forall x, x ∈ images -> x ∈ l) ->
    UpdateUnAvailableImageData d images = Ret d) as Hidem.
  { intros d l Hd Hin. unfold UpdateUnAvailableImageData, listed in *.
    destruct images as [|i im]; [done|]. destruct (String.length d =? 0)%nat.
    - injection Hd as <-. specialize (Hin i). set_solver.
    - rewrite Hd, merge_unavailable_known by done. done. }
  destruct (update_listed old images existed Hold) as (data & l & H1 & H2 & H3 & H4).
  exists data, l. split_and!; try done. apply (Hidem data l); [done|]. intros x Hx. apply H4. by right.
Qed.

Lemma UpdateUnAvailableImageData_spec_witness :
  exists data l,
    UpdateUnAvailableImageData (Marshal_UnAvailableImages ["a:1"]) ["b:2"; "a:1"] = Ret data /\
    listed data = Some l /\ ["a:1"%string] `prefix_of` l /\
    (forall x, x ∈ l <-> x ∈ ["a:1"] \/ x ∈ ["b:2"; "a:1"])%string /\
    UpdateUnAvailableImageData data ["b:2"; "a:1"] = Ret data.
Proof. apply UpdateUnAvailableImageData_spec. vm_compute. reflexivity. Defined.

(** ** PreFilter and Filter *)

Section extension_points.
Context {E : EtcdService} {codec : PodCodec}.

Definition node_arch (node : Node) : string := label (node_Labels node) arch_label.

Lemma record_unavailable_Ret st l existed :
  get_error unavailable_key = None ->
  listed (default ""%string (st !! unavailable_key)) = Some existed ->
  exists st', record_unavailable st l = Ret st' /\ forall k, k <> unavailable_key -> st' !! k = st !! k.
Proof.
  intros Hg Hl. unfold record_unavailable. destruct l as [|i l]; [by exists st|].
  unfold etcd_Get. rewrite Hg.
  set (old := match match st !! unavailable_key with Some v => [v] | None => [] end with
              | v :: _ => v | [] => ""%string end).
  assert (old = default ""%string (st !! unavailable_key)) as Eo
    by (unfold old; by destruct (st !! unavailable_key)).
  rewrite <- Eo in Hl.
  assert (exists d, UpdateUnAvailableImageData old (i :: l) = Ret d) as [d Hd].
  { unfold listed in Hl. unfold UpdateUnAvailableImageData.
    destruct (String.length old =? 0)%nat; [by eexists|].
    rewrite Hl. destruct (merge_unavailable existed (i :: l)). by eexists. }
  exists (etcd_Put st unavailable_key d).1. split.
  - destruct (st !! unavailable_key); cbn -[UpdateUnAvailableImageData]; fold old; by rewrite Hd.
  - intros k Hk. unfold etcd_Put. repeat case_match; simpl; rewrite ?lookup_insert_ne; done.
Qed.

Lemma fitsArches_spec arches ni node :
  ni_node ni = Some node ->
  fitsArches arches ni = Ret (bool_decide (node_arch node ∈ arches)).
Proof.
  intros Hn. unfold fitsArches, node_arch. rewrite Hn. f_equal. apply eq_true_iff_eq.
  rewrite bool_decide_eq_true, existsb_exists. setoid_rewrite <- list_elem_of_In.
  setoid_rewrite String.eqb_eq. naive_solver.
Qed.

(** The state that [PreFilter] leaves for the later extension points. *)
Definition prefiltered (data : string) (pod : Pod) (cs : CycleState) : Prop :=
  exists l, storage cs !! preFilterStateKey = Some (SD_Arches l) /\
    storage cs !! imageStateKey = Some (SD_Images data) /\
    forall a, a ∈ l <-> Forall (has_arch data a) (Containers (Spec pod)).

Lemma PreFilter_prefiltered st cs pod data existed :
  dial_error = None -> get_error images_key = None -> get_error unavailable_key = None ->
  st !! images_key = Some data ->
  listed (default ""%string (st !! unavailable_key)) = Some existed ->
  Containers (Spec pod) <> [] ->
  exists st' cs', PreFilter st cs pod = Ret (st', cs', None) /\ prefiltered data pod cs' /\
    forall k, k <> unavailable_key -> st' !! k = st !! k.
Proof.
  intros Hd Hg Hu Hdata Hl Hc. unfold PreFilter, etcd_Get. rewrite Hd, Hg, Hdata.
  destruct (record_unavailable_Ret st (GetUnAvailableImages pod data) existed) as (st' & -> & Hst);
    [done..|]. cbn [obind].
  destruct (PodAvailableArch pod data) as [l|] eqn:Ea.
  - eexists st', _. cbn [obind]. split; [reflexivity|]. split; [|done]. exists l.
    split_and!; [|simpl; by rewrite lookup_insert_eq|by apply PodAvailableArch_Ret].
    simpl. rewrite lookup_insert_ne by done. by rewrite lookup_insert_eq.
  - unfold PodAvailableArch in Ea.
    pose proof (available_arches_spec (Containers (Spec pod)) data) as H.
    by destruct (available_arches _ data).
Qed.

Lemma Filter_prefiltered data pod cs ni node :
  prefiltered data pod cs -> ni_node ni = Some node ->
  Filter cs ni = Ret (if decide (Forall (has_arch data (node_arch node)) (Containers (Spec pod)))
                      then None else Some (NewStatus Unschedulable [ErrReasonArch])).
Proof.
  intros (l & H1 & _ & Hl) Hn. unfold Filter, getPreFilterState, CS_Read. rewrite H1.
  rewrite (fitsArches_spec l ni node Hn). simpl. f_equal.
  case_decide as Hd; rewrite <- Hl in Hd;
    [by rewrite bool_decide_eq_true_2|by rewrite bool_decide_eq_false_2].
Qed.

(** C14. When the image list is in etcd and the calls succeed, [PreFilter]
    succeeds on every pod with a container, and [Filter] then admits exactly
    the nodes whose architecture label every container has an image for; the
    others are Unschedulable. *)
Theorem PreFilter_then_Filter st cs pod data existed ni node :
  dial_error = None -> get_error images_key = None -> get_error unavailable_key = None ->
  st !! images_key = Some data ->
  listed (default ""%string (st !! unavailable_key)) = Some existed ->
  Containers (Spec pod) <> [] -> ni_node ni = Some node ->
  exists st' cs', PreFilter st cs pod = Ret (st', cs', None) /\
    Filter cs' ni = Ret (if decide (Forall (has_arch data (node_arch node)) (Containers (Spec pod)))
                         then None else Some (NewStatus Unschedulable [ErrReasonArch])).
Proof.
  intros ?? ???? Hn.
  destruct (PreFilter_prefiltered st cs pod data existed) as (st' & cs' & HP & HF & _); [done..|].
  exists st', cs'. split; [done|]. by apply (Filter_prefiltered data pod).
Qed.

(** When no etcd client can be made, [PreFilter] reports success without
    computing anything, and [Filter] then fails with an internal error on
    every node, whatever its architecture. *)
Theorem PreFilter_dial_failure e st pod ni :
  dial_error = Some e ->
  PreFilter st NewCycleState pod = Ret (st, NewCycleState, None) /\
  Filter NewCycleState ni = Ret (Some (NewStatus Error [read_error ErrNotFound])).
Proof. intros He. unfold PreFilter. by rewrite He. Qed.

(** ** Bind *)

Lemma same_named_Convert p a data c :
  same_named (ConvertPodImages p a data) c =
  (fun pc => set_Image (convert_image a data (c_Image pc)) pc) <$> same_named p c.
Proof.
  unfold same_named, ConvertPodImages. simpl.
  induction (Containers (Spec p)) as [|pc cs IH]; simpl; [done|].
  by destruct (String.eqb (c_Name c) (c_Name pc)).
Qed.

Lemma same_named_Some p c pc : same_named p c = Some pc -> pc ∈ Containers (Spec p) /\ c_Name pc = c_Name c.
Proof.
  intros (l1 & x & l2 & Hl & Hx & _)%first_some_Some.
  destruct (String.eqb_spec (c_Name c) (c_Name x)); [|done]. injection Hx as ->.
  split; [rewrite Hl; set_solver|done].
Qed.

Lemma convert_image_spec a data image :
  if decide (Exists (fun i => inf_Arch i = a) (GetMultiArchImages image data))
  then exists i, i ∈ GetMultiArchImages image data /\ inf_Arch i = a /\
                 convert_image a data image = inf_Name i
  else convert_image a data image = image.
Proof.
  unfold convert_image.
  set (f := fun i => if String.eqb a (inf_Arch i) then Some (inf_Name i) else None).
  destruct (first_some f _) as [n|] eqn:Ef.
  - apply first_some_Some in Ef as (l1 & i & l2 & Hl & Hi & _). unfold f in Hi.
    destruct (String.eqb_spec a (inf_Arch i)); [|done]. injection Hi as <-.
    rewrite decide_True by (apply Exists_exists; exists i; rewrite Hl; set_solver).
    exists i. rewrite Hl. set_solver.
  - rewrite decide_False; [done|]. apply first_some_None in Ef. rewrite Forall_forall in Ef.
    intros (i & Hi & <-)%Exists_exists. specialize (Ef i Hi). unfold f in Ef.
    by rewrite String.eqb_refl in Ef.
Qed.

(** Apart from its annotations, containers, node name and conditions, the pod
    [q] is [ep]. *)
Definition rest_kept (ep q : Pod) : Prop :=
  q = mkPod (Name ep) (Namespace ep) (UID ep) (ResourceVersion ep) (DeletionTimestamp ep) (Labels ep) (Annotations q)
        (mkPodSpec (Containers (Spec q)) (InitContainers (Spec ep)) (Overhead (Spec ep)) (NodeName (Spec q))
           (SchedulerName (Spec ep)) (Priority (Spec ep)) (Volumes (Spec ep)) (spec_Affinity (Spec ep))
           (Tolerations (Spec ep)) (spec_NodeSelector (Spec ep)) (TopologySpreadConstraints (Spec ep))
           (PreemptionPolicy (Spec ep)))
        (mkPodStatus (Conditions (Status q)) (NominatedNodeName (Status ep)) (StartTime (Status ep))).

(** The bound pod [q] of a pod [p] and its stored form [ep]. *)
Record bound (data a : string) (p ep q : Pod) : Prop := {
  bound_rest : rest_kept ep q;
  bound_annotations : Annotations q = Annotations ep;
  bound_node : NodeName (Spec q) = NodeName (Spec p);
  bound_cond : Conditions (Status q) = Conditions (Status ep) ++ [PodScheduled_true];
  bound_containers : Forall2 (fun c c' =>
    match same_named p c with
    | None => c' = c
    | Some pc => exists i, i ∈ GetMultiArchImages (c_Image pc) data /\ inf_Arch i = a /\
                           c' = set_Image (inf_Name i) c
    end) (Containers (Spec ep)) (Containers (Spec q))
}.

Lemma bind_pod_bound data a p ep :
  Forall (has_arch data a) (Containers (Spec p)) ->
  bound data a p ep (bind_pod (ConvertPodImages p a data) ep).
Proof.
  intros Ha. constructor; [done..|]. simpl.
  induction (Containers (Spec ep)) as [|c cs IH]; simpl; constructor; [|done].
  rewrite same_named_Convert. destruct (same_named p c) as [pc|] eqn:Es; simpl; [|done].
  apply same_named_Some in Es as [Hpc _]. rewrite Forall_forall in Ha.
  destruct (Ha _ Hpc) as (i0 & Hi0 & Ei0).
  pose proof (convert_image_spec a data (c_Image pc)) as Hc.
  rewrite decide_True in Hc by (apply Exists_exists; eauto).
  destruct Hc as (i & Hi & Hia & ->). exists i. by split_and!.
Qed.

(** C12. Binding a pod that passed [PreFilter] and [Filter] stores, under the
    pod's key and nowhere else, the pod etcd had with three changes and no
    other: the condition PodScheduled is appended, each container that the
    bound pod has under the same name gets an image that the image list gives
    for the node's architecture, and the node name is the one that the bound
    pod carries.  The argument [nodeName] selects the node whose architecture
    counts; the name that is stored is that of the pod, where the scheduler
    has written the same node when it assumed the pod before binding it. *)
Theorem Bind_correct snap st cs data p v ep nodeName ni node :
  dial_error = None -> get_error (pod_key p) = None -> put_error (pod_key p) = None ->
  SN_Get snap nodeName = inl ni -> ni_node ni = Some node ->
  prefiltered data p cs -> Filter cs ni = Ret None ->
  st !! pod_key p = Some v -> decode_pod v = Some ep ->
  exists q, Bind snap st cs p nodeName = Ret (<[pod_key p := encode_pod q]> st, None) /\
            bound data (node_arch node) p ep q /\ (NodeName (Spec p) = nodeName -> NodeName (Spec q) = nodeName).
Proof.
  intros Hd Hg Hp Hs Hn Hpre HF Hv Hep.
  exists (bind_pod (ConvertPodImages p (node_arch node) data) ep). split_and!; [| |done].
  - destruct Hpre as (l & _ & Him & _).
    unfold Bind. rewrite Hs, Hn, Hd. unfold getImageState, CS_Read. rewrite Him. cbn [fst].
    unfold changePodInEtcd. change (pod_key (ConvertPodImages p _ data)) with (pod_key p).
    unfold etcd_Get, etcd_Put. rewrite Hg, Hv, Hep, Hp. done.
  - apply bind_pod_bound. rewrite (Filter_prefiltered data p cs ni node Hpre Hn) in HF.
    by case_decide.
Qed.

(** C40. A [Bind] that reports a failure reports an internal error and has
    not changed etcd, unless it is the write itself that failed after taking
    effect. *)
Theorem Bind_failure snap st cs p nodeName st' s :
  Bind snap st cs p nodeName = Ret (st', Some s) ->
  code s = Error /\
  (st' = st \/ (is_Some (put_error (pod_key p)) /\ put_applied (pod_key p) = true)).
Proof.
  unfold Bind. destruct (SN_Get snap nodeName) as [ni|e]; [|intros [= <- <-]; auto].
  destruct (ni_node ni) as [node|]; [|done].
  destruct dial_error as [e|]; [intros [= <- <-]; auto|].
  unfold changePodInEtcd. change (pod_key (ConvertPodImages p _ _)) with (pod_key p).
  destruct (etcd_Get st (pod_key p)) as [[|v kvs]|e]; [done| |intros [= <- <-]; auto].
  destruct (decode_pod v) as [ep|]; [|done]. unfold etcd_Put.
  destruct (put_error (pod_key p)) as [e|] eqn:Ep; [|done]. simpl. intros [= <- <-].
  split; [done|]. destruct (put_applied (pod_key p)); [right; eauto|auto].
Qed.
End extension_points.

(** ** Witnesses *)

(** Sample documents are written with single quotes. *)
Fixpoint requote (s : string) : string :=
  match s with
  | EmptyString => EmptyString
  | String c s' => String (if Ascii.eqb c "'" then dquote else c) (requote s')
  end.

Definition sample_images : string := requote
  "{'list':[{'name':'local-registry:5000/test-nginx:latest','images':[{'name':'local-registry:5000/test-nginx-amd64:latest','arch':'amd64','os':'linux'},{'name':'local-registry:5000/test-nginx-arm64:latest','arch':'arm64','os':'linux'}]}]}".

Example sample_images_arches :
  PodAvailableArch (sample_nginx "u1" 500) sample_images = Ret ["amd64"; "arm64"]%string.
Proof. vm_compute. reflexivity. Qed.

Definition etcd_ok : EtcdService :=
  {| dial_error := None; get_error _ := None; put_error _ := None; put_applied _ := true |}.

Definition etcd_down : EtcdService :=
  {| dial_error := Some "no route to host"%string; get_error _ := None; put_error _ := None;
     put_applied _ := true |}.

(** A codec that knows one pod. *)
Definition sample_codec : PodCodec :=
  {| decode_pod v := if String.eqb v "nginx" then Some (sample_nginx "u1" 500) else None;
     encode_pod p := Name p |}.

Definition sample_store : EtcdStore :=
  <[images_key := sample_images]> {["/registry/pods/default/nginx"%string := "nginx"%string]}.

Definition arm_node : Node := sample_node "n1" {[arch_label := "arm64"%string]} 4000.

Definition arm_info : NodeInfo := (@SetNode amd64 gates_default arm_node (NewNodeInfo empty_world).1 empty_world).1.

Definition arm_snapshot : Snapshot := mkSnapshot {["n1"%string := arm_info]} ["n1"%string] [] [] 1.

(** The cycle state after [PreFilter] on the sample store. *)
Definition sample_cycle : CycleState :=
  CS_Write (CS_Write NewCycleState preFilterStateKey (SD_Arches ["amd64"; "arm64"]%string))
    imageStateKey (SD_Images sample_images).

Lemma PreFilter_then_Filter_witness :
  exists st' cs', @PreFilter etcd_ok sample_store NewCycleState (sample_nginx "u1" 500) = Ret (st', cs', None) /\
    Filter cs' arm_info = Ret None.
Proof.
  destruct (@PreFilter_then_Filter etcd_ok sample_store NewCycleState (sample_nginx "u1" 500)
    sample_images [] arm_info arm_node) as (st' & cs' & H1 & H2); try reflexivity; [discriminate|].
  exists st', cs'. split; [exact H1|]. rewrite H2. vm_compute. reflexivity.
Defined.

Lemma PreFilter_dial_failure_witness :
  @PreFilter etcd_down sample_store NewCycleState (sample_nginx "u1" 500)
    = Ret (sample_store, NewCycleState, None) /\
  Filter NewCycleState arm_info = Ret (Some (NewStatus Error [read_error ErrNotFound])).
Proof. by apply (@PreFilter_dial_failure etcd_down "no route to host"). Defined.

Lemma sample_prefiltered : prefiltered sample_images (sample_nginx "u1" 500) sample_cycle.
Proof.
  exists ["amd64"; "arm64"]%string. split_and!; [reflexivity..|].
  apply (PodAvailableArch_Ret _ _ _ sample_images_arches).
Qed.

Lemma Bind_correct_witness :
  exists q, @Bind etcd_ok sample_codec arm_snapshot sample_store sample_cycle (sample_nginx "u1" 500) "n1"
      = Ret (<[pod_key (sample_nginx "u1" 500) := @encode_pod sample_codec q]> sample_store, None) /\
    bound sample_images "arm64" (sample_nginx "u1" 500) (sample_nginx "u1" 500) q.
Proof.
  destruct (@Bind_correct etcd_ok sample_codec arm_snapshot sample_store sample_cycle sample_images
    (sample_nginx "u1" 500) "nginx" (sample_nginx "u1" 500) "n1" arm_info arm_node) as (q & H1 & H2 & _);
    try reflexivity; [apply sample_prefiltered|]. exists q. split; [exact H1|exact H2].
Defined.

Lemma Bind_failure_witness :
  exists s, @Bind etcd_ok sample_codec arm_snapshot sample_store sample_cycle (sample_nginx "u1" 500) "n2"
      = Ret (sample_store, Some s) /\ code s = Error.
Proof.
  eexists. split; [reflexivity|].
  apply (@Bind_failure etcd_ok sample_codec arm_snapshot sample_store sample_cycle
    (sample_nginx "u1" 500) "n2" sample_store). reflexivity.
Defined.
