(* ===== verification/ImageTool.v ===== *)
(** * The image tools

    [kubehice-tools/container-manifests/main.go] watches the list of images
    that the plugins found no architectures for, asks docker for their
    manifests and completes the document of multi-arch images in etcd.
    [kubehice-tools/multi-arch-images/main.go] loads that document from a
    file.  Both share the documents with the plugin Hicev1. *)

From S2P Require Import Prelude GoInt GoFloat GoStrconv Quantity ApiTypes Resource HostPorts AffinityTerms NodeInfo Snapshot Json Framework Hicev1.

Local Open Scope go_scope.

(** ** Documents *)

Definition json_of_ImageInf (i : ImageInf) : json :=
  JObj (omit_string "name" (inf_Name i) ++ omit_string "arch" (inf_Arch i) ++ omit_string "os" (inf_Os i)).

Definition json_of_Images (i : Images) : json :=
  JObj (omit_string "name" (imgs_Name i) ++ omit_list "images" (map json_of_ImageInf (ImageInfs i))).

Definition Marshal_ImagesList (l : ImagesList) : string :=
  Marshal (JObj (omit_list "list" (map json_of_Images l))).

(** [json.Unmarshal] whose error is dropped: a document that is not JSON
    leaves the zero value, a part of another type leaves the zero value in
    its place. *)
Definition loose_string (v : json) : string := match v with JStr s => s | _ => "" end.
Definition loose_list {A} (f : json -> A) (v : json) : list A := match v with JArr l => map f l | _ => [] end.
Definition fields_of (v : json) : list (string * json) := match v with JObj l => l | _ => [] end.

Definition loose_ImageInf (v : json) : ImageInf :=
  let o := fields_of v in
  mkImageInf (loose_string (field "name" o)) (loose_string (field "arch" o)) (loose_string (field "os" o)).
Definition loose_Images (v : json) : Images :=
  let o := fields_of v in
  mkImages (loose_string (field "name" o)) (loose_list loose_ImageInf (field "images" o)).
Definition loose_ImagesList (v : json) : ImagesList := loose_list loose_Images (field "list" (fields_of v)).

(** ** Regular expressions of the tool *)

(** [FindString] for an alternation of literals: the leftmost match, and
    there the first alternative that fits; empty without a match. *)
Fixpoint find_literals (alternatives : list string) (s : string) : string :=
  match List.find (HasPrefix s) alternatives with
  | Some a => a
  | None => match s with EmptyString => "" | String _ s => find_literals alternatives s end
  end.

Definition CheckKeywords (image : string) : string :=
  let arch := find_literals ["386"; "amd64"; "arm64"; "arm"; "ppc64le"; "s390x"; "mips64le"; "riscv64"]%string image in
  if String.eqb arch "arm" then
    let arch := find_literals ["arm64"%string] image in
    if String.eqb arch "" then "arm" else arch
  else arch.

Definition newline : ascii := ascii_of_nat 10.
Definition arch_prefix : string := str_app (quoted "architecture") (String ":" (String " " (String dquote ""))).

(** The longest prefix that ends in [c]. *)
Fixpoint upto_last (c : ascii) (s : string) : option string :=
  match s with
  | EmptyString => None
  | String d s =>
      match upto_last c s with
      | Some r => Some (String d r)
      | None => if Ascii.eqb d c then Some (String d "") else None
      end
  end.

(** The match of the pattern for architectures in one line: [.] matches all
    but a newline and [*] is greedy, so that a match takes the line up to its
    last quote, and a line has one match at most. *)
Fixpoint arch_match (line : string) : option string :=
  match line with
  | EmptyString => None
  | String _ line' =>
      if HasPrefix line arch_prefix then
        match upto_last dquote (substring (String.length arch_prefix) (String.length line) line) with
        | Some r => Some (str_app arch_prefix r)
        | None => arch_match line'
        end
      else arch_match line'
  end.

(** ** Inspecting an image *)

Definition second (l : list string) : outcome string :=
  match l with _ :: x :: _ => Ret x | _ => Panic "index out of range [1]" end.

(** The architecture in a match: between the quotes of its second word. *)
Definition arch_of (result : string) : outcome string :=
  let! word := second (str_split " " result) in second (str_split dquote word).

(** The loop over the matches: the map of architectures seen, and the images. *)
Definition inspect_step (image : string) (st : gset string * Images) (result : string) : outcome (gset string * Images) :=
  let '(existed, images) := st in
  let! arch := arch_of result in
  Ret (if bool_decide (arch ∈ existed) then st
       else ({[arch]} ∪ existed, mkImages image (ImageInfs images ++ [mkImageInf image arch "linux"]))).

(** [bash -c cmd]: the output, and the error of the command. *)
Class Shell := { bash_c : string -> string * error }.

Section tool.
Context {shell : Shell}.

(** [Inspect]: [inl None] is the [nil] result for no image. *)
Definition Inspect (image insecureRegistrys : string) : outcome (option Images + string) :=
  if String.eqb image "" then Ret (inl None)
  else
    let cmd := str_app "docker manifest inspect " image in
    let cmd := if negb (String.eqb insecureRegistrys "") && Contains image insecureRegistrys
               then str_app cmd " --insecure" else cmd in
    match bash_c cmd with
    | (_, Some e) => Ret (inr e)
    | (output, None) =>
        if Contains output "manifests" then
          let! st := ofold (inspect_step image) (omap arch_match (str_split newline output)) (∅, mkImages "" []) in
          Ret (inl (Some st.2))
        else Ret (inl (Some (mkImages "" [])))
    end.

(** The round of the loop over the unavailable images: the images found and
    those still unavailable. *)
Definition resolve_step (st : ImagesList * UnAvailableImages) (image : string) : outcome (ImagesList * UnAvailableImages) :=
  let '(available, still) := st in
  if String.eqb image "" then Ret st
  else
    let! r := Inspect image "local-registry" in
    match r with
    | inr _ => Ret (available, still ++ [image])
    | inl None => Panic nil_panic
    | inl (Some multi) =>
        let multi :=
          if (length (ImageInfs multi) =? 0)%nat then
            let arch := CheckKeywords image in
            let arch := if String.eqb arch "" then "amd64"%string else arch in
            mkImages image [mkImageInf image arch "linux"]
          else multi in
        Ret (available ++ [multi], still)
    end.

Definition UpdateMultiArchImagesData (old : string) (images : ImagesList) : string :=
  let oldImageList := match parse_json old with Some v => loose_ImagesList v | None => [] end in
  Marshal_ImagesList (oldImageList ++ images).

(** [UpdateUnAvailableImagesData] merges a list into the document; the tool
    declares and tests it, but its loop overwrites the document instead. *)
Definition merge_listed (existed images : UnAvailableImages) : UnAvailableImages * bool :=
  fold_left (fun '(l, upgradeAble) image =>
    if String.eqb image "" then (l, upgradeAble)
    else if existsb (String.eqb image) l then (l, upgradeAble) else (l ++ [image], true)) images (existed, false).

Definition UpdateUnAvailableImagesData (old : string) (images : UnAvailableImages) : outcome string :=
  match images with
  | [] => Ret old
  | _ =>
      if (String.length old =? 0)%nat then Ret (Marshal_UnAvailableImages images)
      else
        match Unmarshal decode_UnAvailableImages old with
        | None => Panic "json: cannot unmarshal"
        | Some existed =>
            let '(l, upgradeAble) := merge_listed existed images in
            Ret (if upgradeAble then Marshal_UnAvailableImages l else old)
        end
  end.

(** ** The loop of the tool

    One stage per call to etcd, since the plugins write to etcd too. *)
Inductive tool_stage :=
| Reading
| Updating (available : ImagesList) (still : UnAvailableImages)
| Writing (document : string) (still : UnAvailableImages)
| Clearing (still : UnAvailableImages).

Context {E : EtcdService}.

Definition tool_step (t : tool_stage) (st : EtcdStore) : outcome (tool_stage * EtcdStore) :=
  match t with
  | Reading =>
      match etcd_Get st unavailable_key with
      | inr _ | inl [] => Ret (Reading, st)
      | inl (data :: _) =>
          match Unmarshal decode_UnAvailableImages data with
          | None | Some [] => Ret (Reading, st)
          | Some images =>
              let! r := ofold resolve_step images ([], []) in
              let '(available, still) := r in
              Ret (match available with [] => Reading | _ => Updating available still end, st)
          end
      end
  | Updating available still =>
      match etcd_Get st images_key with
      | inr _ => Ret (Clearing still, st)
      | inl [] => Panic index_panic
      | inl (old :: _) => Ret (Writing (UpdateMultiArchImagesData old available) still, st)
      end
  | Writing document still => Ret (Clearing still, (etcd_Put st images_key document).1)
  | Clearing still => Ret (Reading, (etcd_Put st unavailable_key (Marshal_UnAvailableImages still)).1)
  end.

(** A whole round, with nothing in between. *)
Definition tool_round (st : EtcdStore) : outcome EtcdStore :=
  let! r := tool_step Reading st in
  match r.1 with
  | Reading => Ret r.2
  | _ =>
      let! r := tool_step r.1 r.2 in
      let! r := tool_step r.1 r.2 in
      match r.1 with
      | Reading => Ret r.2
      | _ => let! r := tool_step r.1 r.2 in Ret r.2
      end
  end.
End tool.

(** ** Loading the document (multi-arch-images) *)

(** The file, read from disk, and the conversion of YAML, whose error the
    tool drops: the data is then empty. *)
Definition multi_arch_main {E : EtcdService} (file : string + string) (ToJSON : string -> string * error) (st : EtcdStore)
  : outcome (EtcdStore * (ImagesList + string)) :=
  match dial_error with
  | Some e => Ret (st, inr e)
  | None =>
      match file with
      | inr e => Ret (st, inr e)
      | inl data =>
          let data := (ToJSON data).1 in
          let '(st, err) := etcd_Put st images_key data in
          match err with
          | Some e => Ret (st, inr e)
          | None =>
              match etcd_Get st images_key with
              | inr e => Ret (st, inr e)
              | inl [] => Panic index_panic
              | inl (v :: _) =>
                  match Unmarshal decode_ImagesList v with
                  | Some l => Ret (st, inl l)
                  | None => Ret (st, inr "json: cannot unmarshal"%string)
                  end
              end
          end
      end
  end.
