(* ===== verification/ImageToolProofs.v ===== *)
(** * What the image tools do

    The documents read back, [Inspect] never panics, a round of the tool adds
    what docker knows, and pods with unknown images become schedulable. *)

From S2P Require Import Prelude GoInt GoFloat GoStrconv Quantity ApiTypes Resource HostPorts AffinityTerms NodeInfo Samples Snapshot Json Framework Hicev1 Hicev1Proofs ImageTool.

Local Open Scope go_scope.

(** ** Documents *)

Lemma decode_json_ImageInf i : decode_ImageInf (json_of_ImageInf i) = Some i.
Proof.
  destruct i as [n a o]. unfold json_of_ImageInf, decode_ImageInf, omit_string. cbn [inf_Name inf_Arch inf_Os].
  destruct (String.eqb_spec n ""), (String.eqb_spec a ""), (String.eqb_spec o ""); subst; reflexivity.
Qed.

Lemma decode_all_map {A} (f : json -> option A) (g : A -> json) l :
  (forall x, f (g x) = Some x) -> decode_all f (map g l) = Some l.
Proof. intros H. induction l as [|x l IH]; simpl; [done|]. by rewrite H, IH. Qed.

Lemma decode_list_omit {A} (f : json -> option A) (g : A -> json) name l rest :
  (forall x, f (g x) = Some x) -> lower_all name = name -> Forall (fun e => lower_all e.1 <> name) rest ->
  decode_list f (field name (rest ++ omit_list name (map g l))) = Some l.
Proof.
  intros Hfg Hn Hr. unfold field. rewrite fold_left_app.
  assert (forall acc, fold_left (fun acc e => if String.eqb (lower_all e.1) name then e.2 else acc) rest acc = acc) as ->.
  { clear -Hr. induction Hr as [|e rest He _ IH]; intros acc; simpl; [done|]. by rewrite (proj2 (String.eqb_neq _ _) He). }
  destruct l as [|x l]; [done|]. cbn [omit_list map fold_left fst snd]. rewrite Hn, String.eqb_refl.
  exact (decode_all_map f g (x :: l) Hfg).
Qed.

Lemma decode_json_Images i : decode_Images (json_of_Images i) = Some i.
Proof.
  destruct i as [n l]. unfold json_of_Images, decode_Images, decode_object. cbn [imgs_Name ImageInfs].
  rewrite (decode_list_omit decode_ImageInf json_of_ImageInf "images" l).
  - unfold omit_string. destruct (String.eqb_spec n "") as [-> |Hn]; destruct l; reflexivity.
  - apply decode_json_ImageInf.
  - reflexivity.
  - unfold omit_string. destruct (String.eqb n ""); repeat constructor. discriminate.
Qed.

Lemma no_numbers_Images l : forallb no_numbers (map json_of_Images l) = true.
Proof.
  apply forallb_forall. intros v (i & <- & _)%in_map_iff. unfold json_of_Images. cbn [no_numbers].
  rewrite forallb_app. apply andb_true_iff. split; [unfold omit_string; by destruct (String.eqb _ _)|].
  destruct (ImageInfs i) as [|x l']; [done|]. cbn [map omit_list forallb snd no_numbers].
  rewrite andb_true_r. change (forallb no_numbers (map json_of_ImageInf (x :: l')) = true). apply forallb_forall.
  intros v (j & <- & _)%in_map_iff. unfold json_of_ImageInf, omit_string. cbn [no_numbers].
  destruct (String.eqb _ _), (String.eqb _ _), (String.eqb _ _); reflexivity.
Qed.

(** The document of images reads back. *)
Lemma Unmarshal_Marshal_Images l : Unmarshal decode_ImagesList (Marshal_ImagesList l) = Some l.
Proof.
  unfold Unmarshal, Marshal_ImagesList. rewrite parse_Marshal.
  - unfold decode_ImagesList, decode_object.
    apply (decode_list_omit decode_Images json_of_Images "list" l []); [apply decode_json_Images|reflexivity|constructor].
  - cbn [no_numbers]. pose proof (no_numbers_Images l) as H. destruct l as [|x l]; [done|].
    cbn [map omit_list forallb snd no_numbers] in *. by rewrite andb_true_r.
Qed.

(** Decoding without errors is decoding. *)
Lemma loose_string_decode v s : decode_string v = Some s -> loose_string v = s.
Proof. by destruct v; intros [= <-]. Qed.

Lemma loose_list_decode {A} (f : json -> option A) (g : json -> A) v l :
  (forall v a, f v = Some a -> g v = a) -> decode_list f v = Some l -> loose_list g v = l.
Proof.
  intros Hfg. destruct v as [| | | |vs|]; simpl; try done; [by intros [= <-]|].
  revert l. induction vs as [|v vs IH]; intros l; simpl; [by intros [= <-]|].
  destruct (f v) as [a|] eqn:Ev; [|done]. destruct (decode_all f vs) as [r|]; [|done]. intros [= <-].
  by rewrite (Hfg v a Ev), (IH r eq_refl).
Qed.

Lemma decode_object_fields {A} (f : list (string * json) -> option A) v a :
  decode_object f v = Some a -> f (fields_of v) = Some a.
Proof. by destruct v. Qed.

Lemma loose_ImageInf_decode v i : decode_ImageInf v = Some i -> loose_ImageInf v = i.
Proof.
  intros H%decode_object_fields. unfold loose_ImageInf.
  destruct (decode_string (field "name" _)) as [n|] eqn:E1; [|done].
  destruct (decode_string (field "arch" _)) as [a|] eqn:E2; [|done].
  destruct (decode_string (field "os" _)) as [o|] eqn:E3; [|done]. injection H as <-.
  by rewrite (loose_string_decode _ _ E1), (loose_string_decode _ _ E2), (loose_string_decode _ _ E3).
Qed.

Lemma loose_Images_decode v i : decode_Images v = Some i -> loose_Images v = i.
Proof.
  intros H%decode_object_fields. unfold loose_Images.
  destruct (decode_string (field "name" _)) as [n|] eqn:E1; [|done].
  destruct (decode_list _ (field "images" _)) as [l|] eqn:E2; [|done]. injection H as <-.
  rewrite (loose_string_decode _ _ E1). f_equal. by apply (loose_list_decode _ _ _ _ loose_ImageInf_decode).
Qed.

Lemma loose_ImagesList_decode v l : decode_ImagesList v = Some l -> loose_ImagesList v = l.
Proof. intros H%decode_object_fields. by apply (loose_list_decode _ _ _ _ loose_Images_decode). Qed.

(** New images are appended to the document, and nothing is lost. *)
Lemma UpdateMultiArchImagesData_spec old l images :
  Unmarshal decode_ImagesList old = Some l ->
  Unmarshal decode_ImagesList (UpdateMultiArchImagesData old images) = Some (l ++ images).
Proof.
  unfold UpdateMultiArchImagesData. intros H. rewrite Unmarshal_Marshal_Images. unfold Unmarshal in H.
  destruct (parse_json old) as [v|]; [|done]. by rewrite (loose_ImagesList_decode v l H).
Qed.

(** ** Inspecting *)

Lemma str_split_head sep s : exists t, str_split sep s = split_head sep s :: t.
Proof.
  induction s as [|c s [t IH]]; [by exists []|]. cbn [str_split split_head].
  destruct (Ascii.eqb c sep); [by eexists|]. rewrite IH. by eexists.
Qed.

(** The architecture in the text after the prefix of a match: up to the next
    space and the next quote. *)
Definition arch_text (r : string) : string := split_head dquote (split_head " " r).

Lemma arch_of_match r : arch_of (str_app arch_prefix r) = Ret (arch_text r).
Proof.
  unfold arch_of. destruct (str_split_head " " r) as [t Ht].
  assert (exists w t', str_split " " (str_app arch_prefix r) = w :: String dquote (split_head " " r) :: t') as (w & t' & ->).
  { change (str_split " " (str_app arch_prefix r)) with
      (match (match str_split " " r with [] => [String dquote ""] | h :: t => String dquote h :: t end) with
       | l => (str_app (quoted "architecture") ":"%string) :: l end).
    rewrite Ht. by do 2 eexists. }
  cbn [second obind]. destruct (str_split_head dquote (split_head " " r)) as [u Hu].
  change (str_split dquote (String dquote ?s)) with (""%string :: str_split dquote s). by rewrite Hu.
Qed.

Lemma arch_match_prefix line m : arch_match line = Some m -> exists r, m = str_app arch_prefix r.
Proof.
  induction line as [|c line IH]; [done|]. cbn [arch_match]. case_match; [|done]. case_match; [|done].
  intros [= <-]. by eexists.
Qed.

(** The architectures that a manifest lists, with repetitions. *)
Definition listed_arches (output : string) : list string :=
  if Contains output "manifests" then
    omap (fun line => m ← arch_match line; Some (arch_text (substring (String.length arch_prefix) (String.length m) m)))
      (str_split newline output)
  else [].

(** The first occurrences of what is not in [seen]. *)
Fixpoint firsts (seen : gset string) (l : list string) : list string :=
  match l with
  | [] => []
  | a :: l => if bool_decide (a ∈ seen) then firsts seen l else a :: firsts ({[a]} ∪ seen) l
  end.

Lemma elem_of_firsts seen l a : a ∈ firsts seen l <-> a ∈ l /\ a ∉ seen.
Proof.
  revert seen. induction l as [|x l IH]; intros seen; cbn [firsts]; [set_solver|].
  case_bool_decide as Hx; rewrite ?elem_of_cons, IH; [set_solver|].
  destruct (decide (a = x)) as [-> |Hne]; set_solver.
Qed.

Definition linux_image (image arch : string) : ImageInf := mkImageInf image arch "linux".

Lemma inspect_fold image ms seen imgs :
  Forall (fun m => exists r, m = str_app arch_prefix r) ms ->
  exists seen' name,
    let arches := map (fun m => arch_text (substring (String.length arch_prefix) (String.length m) m)) ms in
    ofold (inspect_step image) ms (seen, imgs) =
      Ret (seen', mkImages name (ImageInfs imgs ++ map (linux_image image) (firsts seen arches))) /\
    name = if (length (firsts seen arches) =? 0)%nat then imgs_Name imgs else image.
Proof.
  intros Hm. revert seen imgs. induction Hm as [|m ms [r ->] _ IH]; intros seen imgs; cbn zeta in *.
  - exists seen, (imgs_Name imgs). cbn. rewrite app_nil_r. by destruct imgs.
  - cbn [ofold map]. unfold inspect_step at 1. rewrite arch_of_match. cbn [obind].
    rewrite substring_app, substring_all by (rewrite length_str_app; lia). cbn [firsts].
    case_bool_decide as Hs.
    + apply IH.
    + destruct (IH ({[arch_text r]} ∪ seen) (mkImages image (ImageInfs imgs ++ [linux_image image (arch_text r)])))
        as (seen' & name & E & Hname). exists seen', name. cbn [ImageInfs imgs_Name map length Nat.eqb] in *.
      split; [etransitivity; [exact E|]; by rewrite <- app_assoc|]. rewrite Hname. by case_match.
Qed.

Lemma omap_matches (lines : list string) :
  Forall (fun m => exists r, m = str_app arch_prefix r) (omap arch_match lines) /\
  map (fun m => arch_text (substring (String.length arch_prefix) (String.length m) m)) (omap arch_match lines) =
  omap (fun line => m ← arch_match line; Some (arch_text (substring (String.length arch_prefix) (String.length m) m))) lines.
Proof.
  induction lines as [|l lines [IH1 IH2]]; [done|]. cbn [omap list_omap].
  destruct (arch_match l) as [m|] eqn:Em; cbn [mbind option_bind]; [|done].
  split; [constructor; [by eapply arch_match_prefix|done]|]. cbn [map]. by f_equal.
Qed.

(** The architectures the tool writes down for an image: those of its
    manifest list, or else a keyword of its name, or else amd64. *)
Definition tool_arches (image output : string) : list string :=
  match firsts ∅ (listed_arches output) with
  | [] => [if String.eqb (CheckKeywords image) "" then "amd64"%string else CheckKeywords image]
  | l => l
  end.

Definition entry (image output : string) : Images := mkImages image (map (linux_image image) (tool_arches image output)).

Section rounds.
Context {shell : Shell}.

Definition inspect_command (image : string) : string :=
  let cmd := str_app "docker manifest inspect " image in
  if Contains image "local-registry" then str_app cmd " --insecure" else cmd.

(** The manifest of an image, if docker finds it. *)
Definition docker (image : string) : option string :=
  match bash_c (inspect_command image) with (output, None) => Some output | _ => None end.

Lemma resolve_step_spec available still image :
  image <> ""%string ->
  resolve_step (available, still) image =
    Ret (match docker image with
         | Some output => (available ++ [entry image output], still)
         | None => (available, still ++ [image])
         end).
Proof.
  intros Hne. unfold resolve_step, Inspect, docker, inspect_command.
  rewrite (proj2 (String.eqb_neq _ _) Hne). cbn [String.eqb negb andb].
  destruct (bash_c _) as [output [e|]]; [done|].
  unfold entry, tool_arches, listed_arches. destruct (Contains output "manifests"); [|done].
  destruct (omap_matches (str_split newline output)) as [H1 H2].
  destruct (inspect_fold image _ ∅ (mkImages "" []) H1) as (seen & name & E & Hname).
  cbn zeta in E, Hname. rewrite H2 in E, Hname. rewrite E. cbn [obind snd ImageInfs app length].
  destruct (firsts ∅ _) as [|a l]; [done|]. cbn [length Nat.eqb] in Hname. by rewrite Hname.
Qed.

(** The images that docker knows, and the others. *)
Definition found (images : list string) : ImagesList :=
  omap (fun image => if String.eqb image "" then None else output ← docker image; Some (entry image output)) images.
Definition missing (images : list string) : list string :=
  List.filter (fun image => negb (String.eqb image "") && bool_decide (docker image = None)) images.

Lemma resolve_fold images available still :
  ofold resolve_step images (available, still) = Ret (available ++ found images, still ++ missing images).
Proof.
  revert available still. induction images as [|image images IH]; intros available still.
  { cbn. by rewrite !app_nil_r. }
  cbn [ofold found omap list_omap missing List.filter]. destruct (String.eqb_spec image "") as [-> |Hne].
  - cbn [negb andb]. unfold resolve_step at 1. cbn [String.eqb obind]. apply IH.
  - rewrite resolve_step_spec by done. cbn [obind negb andb]. destruct (docker image) as [o|].
    + rewrite bool_decide_eq_false_2 by done. cbn [mbind option_bind]. rewrite IH. by rewrite <- app_assoc.
    + rewrite bool_decide_eq_true_2 by done. cbn [mbind option_bind]. rewrite IH. by rewrite <- app_assoc.
Qed.

(** ** A round *)

Context {E : EtcdService}.

Definition healthy : Prop :=
  dial_error = None /\ (forall k, get_error k = None) /\ forall k, put_error k = None.

(** What the document of images lists. *)
Definition documented (st : EtcdStore) (l : ImagesList) : Prop :=
  exists data, st !! images_key = Some data /\ Unmarshal decode_ImagesList data = Some l.

Definition unavailable (st : EtcdStore) : option (list string) := listed (default ""%string (st !! unavailable_key)).

(** A round appends the images that docker knows to the document, and keeps
    the others on the list; without any it changes nothing. *)
Lemma tool_round_spec st images old :
  healthy -> documented st old -> unavailable st = Some images ->
  exists st', tool_round st = Ret st' /\ documented st' (old ++ found images) /\
    unavailable st' = Some (if (length (found images) =? 0)%nat then images else missing images) /\
    forall k, k <> images_key -> k <> unavailable_key -> st' !! k = st !! k.
Proof.
  intros (_ & Hg & Hp) (data & Hd & Hold) Hu. unfold unavailable, listed in Hu.
  assert (found images = [] -> tool_round st = Ret st -> exists st', tool_round st = Ret st' /\ documented st' (old ++ found images) /\
    unavailable st' = Some (if (length (found images) =? 0)%nat then images else missing images) /\
    forall k, k <> images_key -> k <> unavailable_key -> st' !! k = st !! k) as Hsame.
  { intros Hf Hst. exists st. rewrite Hf, app_nil_r. split_and!; try done. by exists data. }
  destruct (st !! unavailable_key) as [u|] eqn:Eu; simpl in Hu.
  2: { injection Hu as <-. apply Hsame; [done|]. unfold tool_round, tool_step, etcd_Get. by rewrite !Hg, Eu. }
  assert (tool_step Reading st = Ret (match found images with [] => Reading | l => Updating l (missing images) end, st)) as H1.
  { unfold tool_step, etcd_Get. rewrite !Hg, Eu. cbn iota.
    destruct u as [|c u]; cbn in Hu; [by injection Hu as <-|].
    rewrite Hu. destruct images as [|i images]; [done|]. rewrite resolve_fold. cbn [obind app]. by destruct (found _). }
  destruct (found images) as [|i l] eqn:Ef.
  { apply Hsame; [done|]. unfold tool_round. by rewrite H1. }
  set (doc := UpdateMultiArchImagesData data (i :: l)).
  exists (<[unavailable_key := Marshal_UnAvailableImages (missing images)]> (<[images_key := doc]> st)).
  split_and!.
  - unfold tool_round. rewrite H1. cbn [obind fst snd]. unfold tool_step, etcd_Get, etcd_Put. by rewrite !Hg, Hd, !Hp.
  - exists doc. split; [by rewrite lookup_insert_ne, lookup_insert_eq by done|]. by apply UpdateMultiArchImagesData_spec.
  - unfold unavailable. rewrite lookup_insert_eq. cbn [default]. apply listed_Marshal.
  - intros k H2 H3. by rewrite !lookup_insert_ne by done.
Qed.

(** ** Known images *)

Definition infos_of (image : string) (l : ImagesList) : option (list ImageInf) :=
  first_some (fun item => if String.eqb image (imgs_Name item) then Some (ImageInfs item) else None) l.

Lemma first_some_app {A B} (f : A -> option B) l k :
  first_some f (l ++ k) = match first_some f l with Some y => Some y | None => first_some f k end.
Proof. induction l as [|x l IH]; simpl; [done|]. by destruct (f x). Qed.

Lemma GetMultiArchImages_of image data l :
  Unmarshal decode_ImagesList data = Some l -> GetMultiArchImages image data = default [] (infos_of image l).
Proof. intros H. unfold GetMultiArchImages. by rewrite H. Qed.

Lemma infos_of_found image images :
  infos_of image (found images) =
    if bool_decide (image ∈ images) && negb (String.eqb image "") then
      output ← docker image; Some (map (linux_image image) (tool_arches image output))
    else None.
Proof.
  unfold infos_of. induction images as [|i images IH]; [done|]. cbn [found omap list_omap].
  destruct (decide (i = image)) as [-> |Hne].
  - rewrite bool_decide_eq_true_2 by (by left). cbn [andb]. destruct (String.eqb_spec image "") as [-> |Hi].
    + cbn [negb]. etransitivity; [exact IH|]. by rewrite andb_false_r.
    + cbn [negb mbind option_bind]. destruct (docker image) as [o|] eqn:Eo; cbn [mbind option_bind].
      * cbn [first_some entry imgs_Name ImageInfs]. by rewrite String.eqb_refl.
      * etransitivity; [exact IH|]. by case_match.
  - replace (bool_decide (image ∈ i :: images)) with (bool_decide (image ∈ images))
      by (apply bool_decide_ext; set_solver).
    rewrite <- IH. destruct (String.eqb i ""); [done|]. cbn [mbind option_bind].
    destruct (docker i) as [o|]; [|done]. cbn [mbind option_bind first_some entry imgs_Name ImageInfs].
    by rewrite (proj2 (String.eqb_neq image i)) by done.
Qed.

(** In a document without empty entries, an image that is known keeps its
    architectures when more images are appended. *)
Lemma infos_of_nonempty image l infs :
  Forall (fun i => ImageInfs i <> []) l -> infos_of image l = Some infs -> infs <> [].
Proof.
  unfold infos_of. intros Hl H. apply first_some_Some in H as (l1 & item & l2 & -> & H & _).
  case_match; [|done]. injection H as <-. by apply Forall_app in Hl as [_ [? _]%Forall_cons].
Qed.

Lemma tool_arches_nonempty image output : tool_arches image output <> [].
Proof. unfold tool_arches. by destruct (firsts ∅ _). Qed.
End rounds.

(** ** The tool and the plugin *)

Section with_plugin.
Context {shell : Shell} {E : EtcdService}.

(** The list of unavailable images after [PreFilter]: all that were there and
    all unknown images of the pod. *)
Lemma PreFilter_records st cs pod data existed :
  healthy -> st !! images_key = Some data -> unavailable st = Some existed -> Containers (Spec pod) <> [] ->
  exists st' cs' l, PreFilter st cs pod = Ret (st', cs', None) /\ prefiltered data pod cs' /\
    unavailable st' = Some l /\ (forall x, x ∈ l <-> x ∈ existed \/ x ∈ GetUnAvailableImages pod data) /\
    (forall k, k <> unavailable_key -> st' !! k = st !! k) /\ (GetUnAvailableImages pod data = [] -> st' = st).
Proof.
  intros (Hdial & Hg & Hp) Hdata Hu Hc.
  destruct (PreFilter_prefiltered st cs pod data existed) as (st' & cs' & HP & Hpre & Hkeep); [done..|].
  unfold unavailable in Hu.
  destruct (update_listed _ (GetUnAvailableImages pod data) existed Hu) as (doc & l & Hdoc & Hl & _ & Hin).
  assert (GetUnAvailableImages pod data = [] /\ st' = st \/ GetUnAvailableImages pod data <> [] /\ st' !! unavailable_key = Some doc) as Hst.
  { unfold PreFilter, etcd_Get in HP. rewrite Hdial, Hg, Hdata in HP. unfold record_unavailable, etcd_Get, etcd_Put in HP.
    rewrite Hg, Hp in HP. destruct (GetUnAvailableImages pod data) as [|i im].
    - left. cbn [obind] in HP. destruct (PodAvailableArch pod data); [|done]. cbn [obind] in HP. by injection HP.
    - right. split; [done|].
      replace (match match st !! unavailable_key with Some v => [v] | None => [] end with v :: _ => v | [] => ""%string end)
        with (default ""%string (st !! unavailable_key)) in HP by (by destruct (st !! unavailable_key)).
      rewrite Hdoc in HP. cbn [obind fst] in HP. destruct (PodAvailableArch pod data); [|done]. cbn [obind] in HP.
      injection HP as <- _. by rewrite lookup_insert_eq. }
  exists st', cs'. destruct Hst as [[Hnil ->]|[Hne Hnew]].
  - exists existed. split_and!; try done. rewrite Hnil. set_solver.
  - exists l. split_and!; try done. unfold unavailable. by rewrite Hnew.
Qed.

Lemma has_arch_in data a c : has_arch data a c <-> a ∈ map inf_Arch (GetMultiArchImages (c_Image c) data).
Proof.
  unfold has_arch. split.
  - intros (i & Hi & <-). by apply list_elem_of_fmap_2.
  - intros (i & -> & Hi)%list_elem_of_fmap. by exists i.
Qed.

(** The architectures of an image once the tool has run. *)
Definition arches_after (data image : string) : list string :=
  match GetMultiArchImages image data, docker image with
  | [], Some output => tool_arches image output
  | infs, _ => map inf_Arch infs
  end.

Lemma GetMultiArchImages_after data data2 old images image :
  Unmarshal decode_ImagesList data = Some old -> Forall (fun i => ImageInfs i <> []) old ->
  Unmarshal decode_ImagesList data2 = Some (old ++ found images) ->
  (GetMultiArchImages image data = [] -> image <> ""%string /\ docker image <> None /\ image ∈ images) ->
  map inf_Arch (GetMultiArchImages image data2) = arches_after data image /\ GetMultiArchImages image data2 <> [].
Proof.
  intros Hd Hold Hd2 Hi. unfold arches_after. rewrite (GetMultiArchImages_of _ _ _ Hd) in Hi |- *.
  rewrite (GetMultiArchImages_of _ _ _ Hd2). unfold infos_of at 1 3. rewrite first_some_app. fold (infos_of image old).
  destruct (infos_of image old) as [infs|] eqn:Einf.
  - pose proof (infos_of_nonempty _ _ _ Hold Einf) as Hne. cbn. by destruct infs.
  - destruct (Hi eq_refl) as (Hne & Hdo & Hin). fold (infos_of image (found images)). rewrite infos_of_found.
    rewrite bool_decide_eq_true_2 by done. rewrite (proj2 (String.eqb_neq _ _) Hne). cbn [andb negb default].
    destruct (docker image) as [o|]; [|done]. cbn. split.
    + rewrite map_map. apply map_id.
    + pose proof (tool_arches_nonempty image o). by destruct (tool_arches image o).
Qed.

(** C15. A pod with images that nobody knows yet becomes schedulable by the
    interplay of the plugin and the tool: [PreFilter] puts the images on the
    list in etcd, the next round of the tool asks docker for them and adds
    them to the document of multi-arch images, and from then on [PreFilter]
    finds nothing to record, and [Filter] admits exactly the nodes whose
    architecture every image has, as the document said before or as docker
    or the image's name says.  This needs an etcd whose calls succeed and that
    nobody else writes meanwhile, a docker that knows the images, and a
    document without empty entries (see recorded_image_lost and
    empty_entry_hides for what happens otherwise). *)
Theorem unknown_images_resolved st cs pod data old existed :
  healthy -> st !! images_key = Some data -> Unmarshal decode_ImagesList data = Some old ->
  Forall (fun i => ImageInfs i <> []) old -> unavailable st = Some existed -> Containers (Spec pod) <> [] ->
  (forall c, c ∈ Containers (Spec pod) -> GetMultiArchImages (c_Image c) data = [] ->
     c_Image c <> ""%string /\ docker (c_Image c) <> None) ->
  exists st1 cs1 st2 cs2,
    PreFilter st cs pod = Ret (st1, cs1, None) /\ tool_round st1 = Ret st2 /\ PreFilter st2 cs pod = Ret (st2, cs2, None) /\
    forall ni node, ni_node ni = Some node ->
      Filter cs2 ni = Ret None <-> forall c, c ∈ Containers (Spec pod) -> node_arch node ∈ arches_after data (c_Image c).
Proof.
  intros Hh Hdata Hd Hold Hu Hc Himg.
  destruct (PreFilter_records st cs pod data existed) as (st1 & cs1 & l & HP & _ & Hu1 & Hl & Hkeep & _); [done..|].
  destruct (tool_round_spec st1 l old Hh) as (st2 & HT & (data2 & Hdata2 & Hd2) & Hu2 & _); [|done|].
  { exists data. split; [|done]. by rewrite Hkeep. }
  assert (forall c, c ∈ Containers (Spec pod) ->
    map inf_Arch (GetMultiArchImages (c_Image c) data2) = arches_after data (c_Image c) /\
    GetMultiArchImages (c_Image c) data2 <> []) as Hafter.
  { intros c Hin. apply (GetMultiArchImages_after data data2 old l); [done..|]. intros Hnone.
    destruct (Himg c Hin Hnone) as [? ?]. split_and!; try done. apply Hl. right.
    unfold GetUnAvailableImages. apply list_elem_of_In, in_map_iff. exists c. split; [done|]. apply filter_In.
    split; [by apply list_elem_of_In|]. by rewrite Hnone. }
  destruct (PreFilter_records st2 cs pod data2 _ Hh Hdata2 Hu2 Hc) as (st3 & cs2 & l3 & HP2 & Hpre & _ & _ & _ & Hsame).
  assert (GetUnAvailableImages pod data2 = []) as Hnil.
  { apply elem_of_nil_inv. intros x Hx. unfold GetUnAvailableImages in Hx.
    apply list_elem_of_In, in_map_iff in Hx as (c & _ & [Hin Hlen]%filter_In). apply list_elem_of_In in Hin.
    destruct (Hafter c Hin) as [_ Hne]. by destruct (GetMultiArchImages (c_Image c) data2). }
  rewrite (Hsame Hnil) in HP2. exists st1, cs1, st2, cs2. split_and!; try done.
  intros ni node Hn. rewrite (Filter_prefiltered data2 pod cs2 ni node Hpre Hn).
  case_decide as Hall; (split; [intros Heq|intros Hcs]); try done.
  - intros c Hin. rewrite Forall_forall in Hall. rewrite <- (proj1 (Hafter c Hin)). by apply has_arch_in, Hall.
  - exfalso. apply Hall, Forall_forall. intros c Hin. apply has_arch_in. rewrite (proj1 (Hafter c Hin)). by apply Hcs.
Qed.
End with_plugin.

(** ** Interleavings

    The tool runs beside the scheduler and the API server, which write other
    keys at any time, and beside multi-arch-images, by which an administrator
    replaces the document; and calls to etcd may fail, or seem to fail. *)

Section interleaving.
Context {shell : Shell}.

(** The tool and others, whose writes [others] allows. *)
Inductive together (others : EtcdStore -> EtcdStore -> Prop) : tool_stage * EtcdStore -> tool_stage * EtcdStore -> Prop :=
| tool_moves (E : EtcdService) t st t' st' :
    tool_step t st = Ret (t', st') -> together others (t, st) (t', st')
| others_move t st st' : others st st' -> together others (t, st) (t, st').

(** Others that write other keys only. *)
Definition leave_document (st st' : EtcdStore) : Prop := st' !! images_key = st !! images_key.

(** Others that write anything, the document too, as long as it can be read. *)
Definition keep_readable (st st' : EtcdStore) : Prop := exists l, documented st' l.

(** What holds between any two calls: [l] is what the document lists. *)
Definition tool_inv (l : ImagesList) (s : tool_stage * EtcdStore) : Prop :=
  documented s.2 l /\
  match s.1 with
  | Updating available _ => Forall (fun i => ImageInfs i <> []) available
  | Writing doc _ => exists new, Unmarshal decode_ImagesList doc = Some (l ++ new) /\ Forall (fun i => ImageInfs i <> []) new
  | _ => True
  end.

Lemma found_nonempty images : Forall (fun i => ImageInfs i <> []) (found images).
Proof.
  apply Forall_forall. intros i (image & _ & H)%list_elem_of_omap. case_match; [done|].
  destruct (docker image) as [o|]; [|done]. injection H as <-. cbn.
  pose proof (tool_arches_nonempty image o). by destruct (tool_arches image o).
Qed.

Lemma Reading_step (E : EtcdService) st :
  exists t, tool_step Reading st = Ret (t, st) /\
    (t = Reading \/ exists images, t = Updating (found images) (missing images)).
Proof.
  unfold tool_step. destruct (etcd_Get st unavailable_key) as [[|d ?]|]; [by eauto| |by eauto].
  destruct (Unmarshal _ d) as [[|i images]|]; [by eauto| |by eauto]. rewrite resolve_fold. cbn [obind app].
  destruct (found (i :: images)) eqn:Ef; [by eauto|]. rewrite <- Ef. eauto.
Qed.

Lemma documented_keep st st' l : st' !! images_key = st !! images_key -> documented st l -> documented st' l.
Proof. intros H (d & Hd & Hl). exists d. by rewrite H. Qed.

(** The tool never panics while the document is there, and each step keeps
    the invariant, for a document that may have grown. *)
Lemma tool_step_inv (E : EtcdService) l t st :
  tool_inv l (t, st) ->
  exists s' new, tool_step t st = Ret s' /\ tool_inv (l ++ new) s' /\ Forall (fun i => ImageInfs i <> []) new.
Proof.
  intros [Hd Ht]. assert (forall s', tool_step t st = Ret s' -> tool_inv l s' ->
    exists s' new, tool_step t st = Ret s' /\ tool_inv (l ++ new) s' /\ Forall (fun i => ImageInfs i <> []) new) as Hno.
  { intros s' H1 H2. exists s', []. by rewrite app_nil_r. }
  destruct t as [|available still|doc still|still]; cbn [fst snd] in *.
  - destruct (Reading_step E st) as (t & Hs & [-> |[images ->]]); eapply Hno; try exact Hs; split; try done.
    apply found_nonempty.
  - destruct Hd as (data & Hdata & Hl). unfold tool_step, etcd_Get in *. destruct (get_error images_key).
    + eapply Hno; [done|]. split; [|done]. by exists data.
    + rewrite Hdata in *. eapply Hno; [done|]. split; [by exists data|]. exists available.
      split; [by apply UpdateMultiArchImagesData_spec|done].
  - destruct Ht as (new & Hdoc & Hnew). unfold tool_step, etcd_Put in *.
    assert (tool_inv (l ++ new) (Clearing still, <[images_key := doc]> st)) as Hput.
    { split; [|done]. exists doc. split; [apply lookup_insert_eq|done]. }
    destruct (put_error images_key); [destruct (put_applied images_key)|]; cbn [fst] in *.
    + exists (Clearing still, <[images_key := doc]> st), new. done.
    + eapply Hno; [done|]. by split.
    + exists (Clearing still, <[images_key := doc]> st), new. done.
  - eapply Hno; [reflexivity|]. split; [|done]. eapply documented_keep; [|exact Hd].
    unfold etcd_Put. repeat case_match; cbn [fst snd]; rewrite ?lookup_insert_ne; done.
Qed.

(** With other writers of the document, that it can be read is left. *)
Definition readable_inv (s : tool_stage * EtcdStore) : Prop :=
  (exists l, documented s.2 l) /\
  match s.1 with
  | Updating available _ => Forall (fun i => ImageInfs i <> []) available
  | Writing doc _ => exists l, Unmarshal decode_ImagesList doc = Some l
  | _ => True
  end.

Lemma tool_inv_readable l s : tool_inv l s -> readable_inv s.
Proof. intros [Hd Ht]. split; [by exists l|]. destruct s.1; try done. destruct Ht as (new & Hn & _). by eexists. Qed.

Lemma tool_step_readable (E : EtcdService) t st :
  readable_inv (t, st) -> exists s', tool_step t st = Ret s' /\ readable_inv s'.
Proof.
  intros [[l Hd] Ht]. cbn [fst snd] in *.
  assert (tool_inv l (t, st) -> exists s', tool_step t st = Ret s' /\ readable_inv s') as Hinv.
  { intros H. destruct (tool_step_inv E l t st H) as (s' & new & Hs & Hi & _). exists s'. split; [done|by eapply tool_inv_readable]. }
  destruct t as [|available still|doc still|still]; [by apply Hinv|by apply Hinv| |by apply Hinv].
  destruct Ht as [l' Hl']. unfold tool_step, etcd_Put.
  assert (readable_inv (Clearing still, <[images_key := doc]> st)) as Hput.
  { split; [|done]. exists l', doc. split; [apply lookup_insert_eq|done]. }
  destruct (put_error images_key); [destruct (put_applied images_key)|]; cbn [fst]; (eexists; split; [reflexivity|]);
    [exact Hput|by split; [exists l|]|exact Hput].
Qed.

Lemma together_grow st l s :
  documented st l -> rtc (together leave_document) (Reading, st) s ->
  exists new, tool_inv (l ++ new) s /\ Forall (fun i => ImageInfs i <> []) new.
Proof.
  intros Hd Hr.
  refine (rtc_ind_r (fun s => exists new, tool_inv (l ++ new) s /\ Forall (fun i => ImageInfs i <> []) new)
    (Reading, st) _ _ s Hr).
  - exists []. rewrite app_nil_r. by repeat split.
  - intros y z _ Hyz (new & Hinv & Hnew). inversion Hyz as [E t st0 t' st' Hs|t st0 st' Hs]; subst.
    + destruct (tool_step_inv E _ _ _ Hinv) as (s' & new' & Hs' & Hinv' & Hnew'). rewrite Hs in Hs'. injection Hs' as <-.
      exists (new ++ new'). rewrite app_assoc. split; [done|]. by apply Forall_app.
    + exists new. split; [|done]. destruct Hinv as [H1 H2]. split; [|done]. by eapply documented_keep.
Qed.

Lemma together_readable st l s :
  documented st l -> rtc (together keep_readable) (Reading, st) s -> readable_inv s.
Proof.
  intros Hd Hr. refine (rtc_ind_r readable_inv (Reading, st) _ _ s Hr).
  - by split; [exists l|].
  - intros y z _ Hyz Hinv. inversion Hyz as [E t st0 t' st' Hs|t st0 st' Hs]; subst.
    + destruct (tool_step_readable E _ _ Hinv) as (s' & Hs' & Hi). rewrite Hs in Hs'. by injection Hs' as <-.
    + by split; [|apply Hinv].
Qed.

(** C16. The tool, interleaved with other writers of etcd and with calls to
    etcd that fail or seem to fail.  When the others write other keys only, as
    the scheduler and the API server do, the document of multi-arch images
    only grows, by entries that name an architecture, and an image that is
    known keeps its architectures.  When others write the document too, as
    multi-arch-images does, but leave one that can be read (that tool does not
    when its file is no YAML, bad_yaml_erases), then at least it can always be
    read; it need not grow: the tool writes what it read earlier and its
    additions, and the other writer may drop entries.  In both cases the tool
    never panics. *)
Theorem images_only_grow st l :
  documented st l ->
  (forall s, rtc (together leave_document) (Reading, st) s ->
    exists new, documented s.2 (l ++ new) /\ Forall (fun i => ImageInfs i <> []) new /\
      (forall image infs, infos_of image l = Some infs -> infos_of image (l ++ new) = Some infs) /\
      (forall E : EtcdService, exists s', tool_step s.1 s.2 = Ret s')) /\
  (forall s, rtc (together keep_readable) (Reading, st) s ->
    (exists l', documented s.2 l') /\ (forall E : EtcdService, exists s', tool_step s.1 s.2 = Ret s')).
Proof.
  intros Hd. split; intros s Hr.
  - destruct (together_grow st l s Hd Hr) as (new & Hinv & Hnew). exists new. split_and!; [apply Hinv|done| |].
    + intros image infs H. unfold infos_of in *. by rewrite first_some_app, H.
    + intros E. destruct s as [t st']. destruct (tool_step_inv E _ t st' Hinv) as (s' & _ & Hs & _). by exists s'.
  - pose proof (together_readable st l s Hd Hr) as Hinv. split; [apply Hinv|].
    intros E. destruct s as [t st']. destruct (tool_step_readable E t st' Hinv) as (s' & Hs & _). by exists s'.
Qed.
End interleaving.

(** ** Samples *)

Fixpoint unlines (l : list string) : string :=
  match l with [] => "" | s :: l => str_app s (String newline (unlines l)) end.

Definition redis_manifest : string := unlines (map requote
  ["{"; "   'manifests': ["; "      { 'platform': {"; "            'architecture': 'amd64',"; "            'os': 'linux' } },";
   "      { 'platform': {"; "            'architecture': 'arm64',"; "            'os': 'linux',"; "            'variant': 'v8' } },";
   "      { 'platform': { 'architecture': 'amd64', 'os': 'windows' } }"; "   ]"; "}"]%string).

(** A registry with one image. *)
Definition registry : Shell :=
  {| bash_c cmd := if String.eqb cmd "docker manifest inspect redis:6" then (redis_manifest, None)
                   else ("no such manifest"%string, Some "exit status 1"%string) |}.

Example Inspect_redis :
  @Inspect registry "redis:6" "local-registry" =
    Ret (inl (Some (mkImages "redis:6" [linux_image "redis:6" "amd64"; linux_image "redis:6" "arm64"]))).
Proof. vm_compute. reflexivity. Qed.

Example CheckKeywords_tests :
  CheckKeywords "nginx-arm64:latest" = "arm64"%string /\ CheckKeywords "nginx-arm:latest" = "arm"%string /\
  CheckKeywords "alarm-arm64" = "arm64"%string /\ CheckKeywords "nginx" = ""%string.
Proof. split_and!; reflexivity. Qed.

Definition redis_pod : Pod :=
  set_Containers (map (set_Image "redis:6") (Containers (Spec (sample_nginx "u1" 500)))) (sample_nginx "u1" 500).

Definition sample_list : ImagesList := default [] (Unmarshal decode_ImagesList sample_images).

Lemma unknown_images_resolved_witness :
  exists st1 cs1 st2 cs2,
    @PreFilter etcd_ok sample_store NewCycleState redis_pod = Ret (st1, cs1, None) /\
    @tool_round registry etcd_ok st1 = Ret st2 /\
    @PreFilter etcd_ok st2 NewCycleState redis_pod = Ret (st2, cs2, None) /\ Filter cs2 arm_info = Ret None.
Proof.
  destruct (@unknown_images_resolved registry etcd_ok sample_store NewCycleState redis_pod sample_images sample_list [])
    as (st1 & cs1 & st2 & cs2 & H1 & H2 & H3 & H4).
  - by repeat split.
  - reflexivity.
  - vm_compute. reflexivity.
  - apply Forall_forall. vm_compute. intros i Hi. inversion Hi; subst; [discriminate|]. by apply elem_of_nil in H1.
  - reflexivity.
  - discriminate.
  - intros c Hc _. apply list_elem_of_singleton in Hc as ->. vm_compute. split; discriminate.
  - exists st1, cs1, st2, cs2. split_and!; [exact H1|exact H2|exact H3|].
    apply (H4 arm_info arm_node eq_refl). intros c Hc. apply list_elem_of_singleton in Hc as ->.
    vm_compute. right. left.
Defined.

Lemma images_only_grow_witness :
  exists s, @tool_step registry etcd_ok Reading (<[unavailable_key := Marshal_UnAvailableImages ["redis:6"%string]]> sample_store) = Ret s /\
  exists new, documented s.2 (sample_list ++ new).
Proof.
  destruct (@Reading_step registry etcd_ok (<[unavailable_key := Marshal_UnAvailableImages ["redis:6"%string]]> sample_store)) as (t & Ht & _).
  eexists. split; [exact Ht|].
  destruct (@images_only_grow registry (<[unavailable_key := Marshal_UnAvailableImages ["redis:6"%string]]> sample_store) sample_list)
    as [Hgrow _].
  - exists sample_images. split; [reflexivity|vm_compute; reflexivity].
  - destruct (Hgrow (t, <[unavailable_key := Marshal_UnAvailableImages ["redis:6"%string]]> sample_store)) as (new & Hnew & _).
    + apply rtc_once. by apply (tool_moves leave_document etcd_ok).
    + by exists new.
Defined.

(** ** Where the tool loses work *)

(** An image that a plugin records while the tool is at work is dropped from
    the list when the tool writes its own: the tool overwrites what it has
    not read. *)
Definition list_before_and_after : outcome (option (list string) * option (list string)) :=
  let st := <[unavailable_key := Marshal_UnAvailableImages ["redis:6"%string]]> sample_store in
  let! r := @tool_step registry etcd_ok Reading st in
  let! p := @PreFilter etcd_ok r.2 NewCycleState
              (set_Containers (map (set_Image "new:1") (Containers (Spec redis_pod))) redis_pod) in
  let! r2 := @tool_step registry etcd_ok r.1 p.1.1 in
  let! r3 := @tool_step registry etcd_ok r2.1 r2.2 in
  let! r4 := @tool_step registry etcd_ok r3.1 r3.2 in
  Ret (unavailable p.1.1, unavailable r4.2).

Theorem recorded_image_lost : list_before_and_after = Ret (Some ["redis:6"; "new:1"]%string, Some []).
Proof. vm_compute. reflexivity. Qed.

(** If the document of images can not be read, the images that docker knows
    are taken off the list all the same. *)
Definition images_unreadable : EtcdService :=
  {| dial_error := None; get_error k := if String.eqb k images_key then Some "timeout"%string else None;
     put_error _ := None; put_applied _ := true |}.

Theorem failed_update_forgets :
  let st := <[unavailable_key := Marshal_UnAvailableImages ["redis:6"%string]]> sample_store in
  (let! st' := @tool_round registry images_unreadable st in
   Ret (unavailable st', bool_decide (st' !! images_key = st !! images_key))) = Ret (Some [], true).
Proof. vm_compute. reflexivity. Qed.

(** An entry without images hides the entry that the tool adds: the image
    stays unknown, and every round adds one more. *)
Theorem empty_entry_hides :
  let data := Marshal_ImagesList [mkImages "redis:6" []] in
  let st := <[images_key := data]> (<[unavailable_key := Marshal_UnAvailableImages ["redis:6"%string]]> ∅) in
  (let! st' := @tool_round registry etcd_ok st in
   let data' := default ""%string (st' !! images_key) in
   Ret (map imgs_Name (default [] (Unmarshal decode_ImagesList data')), GetMultiArchImages "redis:6" data')) =
  Ret (["redis:6"; "redis:6"]%string, []).
Proof. vm_compute. reflexivity. Qed.

(** A file that is not YAML erases the document of images, since the error
    of the conversion is dropped. *)
Theorem bad_yaml_erases {E : EtcdService} ToJSON data st :
  dial_error = None -> get_error images_key = None -> put_error images_key = None -> (ToJSON data).1 = ""%string ->
  exists e st', multi_arch_main (inl data) ToJSON st = Ret (st', inr e) /\ st' !! images_key = Some ""%string.
Proof.
  intros H1 H2 H3 H4. unfold multi_arch_main, etcd_Put, etcd_Get. rewrite H1, H2, H3, H4, lookup_insert_eq.
  do 2 eexists. split; [reflexivity|]. apply lookup_insert_eq.
Qed.
