(* ===== verification/NodeResourcesFit.v ===== *)
(** * The NodeResourcesFit plugin

    [framework/plugins/noderesources/fit.go]: the filter that compares a
    pod's request with what the pods of a node leave free. *)

From S2P Require Import Prelude GoInt GoFloat GoStrconv Quantity ApiTypes Resource HostPorts AffinityTerms NodeInfo Samples Framework.

Record InsufficientResource := mkInsufficientResource {
  ir_ResourceName : string;
  ir_Reason : string;
  ir_Requested : Z;
  ir_Used : Z;
  ir_Capacity : Z
}.

Record Fit := mkFit {
  ignoredResources : gset string;
  ignoredResourceGroups : gset string;
  enablePodOverhead : bool
}.

Definition fit_preFilterStateKey : string := "PreFilterNodeResourcesFit".

(** The entry for an exceeded resource, if it is exceeded. *)
Definition entry_if (b : bool) (name reason : string) (req used cap : Z) : list InsufficientResource :=
  if b then [mkInsufficientResource name reason req used cap] else [].

(** The scalar resources that are not checked. *)
Definition is_ignored (ignoredExt ignoredGroups : gset string) (rName : string) : bool :=
  IsExtendedResourceName rName &&
  (bool_decide (rName ∈ ignoredExt) ||
   bool_decide ((if (0 <? size ignoredGroups)%nat then split_head "/" rName else ""%string)
                ∈ ignoredGroups)).

Definition empty_request (r : Resource) : bool :=
  (MilliCPU r =? 0) && (rMemory r =? 0) && (EphemeralStorage r =? 0)
  && (size (ScalarResources r) =? 0)%nat.

Definition too_many_pods (n : NodeInfo) : list InsufficientResource :=
  let allowed := AllowedPodNumber (Allocatable n) in
  entry_if (allowed <? Z.of_nat (length (Pods n)) + 1)
    ResourcePods "Too many pods" 1 (Z.of_nat (length (Pods n))) allowed.

(** The bodies of the checks; [over cap req used] is the comparison. *)
Definition scalar_checks (over : Z -> Z -> Z -> bool) (podRequest : Resource) (n : NodeInfo)
    (ignoredExt ignoredGroups : gset string) : list InsufficientResource :=
  concat (map (fun '(rName, rQuant) =>
    if is_ignored ignoredExt ignoredGroups rName then []
    else
      let cap := get0 (ScalarResources (Allocatable n)) rName in
      let used := get0 (ScalarResources (Requested n)) rName in
      entry_if (over cap rQuant used) rName (str_app "Insufficient " rName)
        (get0 (ScalarResources podRequest) rName) used cap)
    (map_to_list (ScalarResources podRequest))).

(** [podRequest > allocatable - requested] *)
Definition over_sub (cap req used : Z) : bool := cap -₆₄ used <? req.

Definition fitsRequest (podRequest : Resource) (n : NodeInfo)
    (ignoredExt ignoredGroups : gset string) : list InsufficientResource :=
  let pods := too_many_pods n in
  if empty_request podRequest then pods
  else
    let a := Allocatable n in
    let u := Requested n in
    pods
    ++ entry_if (over_sub (MilliCPU a) (MilliCPU podRequest) (MilliCPU u))
         ResourceCPU "Insufficient cpu" (MilliCPU podRequest) (MilliCPU u) (MilliCPU a)
    ++ entry_if (over_sub (rMemory a) (rMemory podRequest) (rMemory u))
         ResourceMemory "Insufficient memory" (rMemory podRequest) (rMemory u) (rMemory a)
    ++ entry_if (over_sub (EphemeralStorage a) (EphemeralStorage podRequest) (EphemeralStorage u))
         ResourceEphemeralStorage "Insufficient ephemeral-storage"
         (EphemeralStorage podRequest) (EphemeralStorage u) (EphemeralStorage a)
    ++ scalar_checks over_sub podRequest n ignoredExt ignoredGroups.

Section fit.
Context {arch : GoArch} {gates : FeatureGates}.

Definition fit_computePodResourceRequest (pod : Pod) (overhead_enabled : bool) : Resource :=
  let result := fold_left (fun r c => Resource_Add r (c_requests c))
                  (Containers (Spec pod)) zeroResource in
  let result := fold_left (fun r c => SetMaxResource r (c_requests c))
                  (InitContainers (Spec pod)) result in
  match Overhead (Spec pod) with
  | Some overhead => if overhead_enabled then Resource_Add result overhead else result
  | None => result
  end.

Definition Fit_PreFilter (f : Fit) (cs : CycleState) (pod : Pod) : CycleState * StatusPtr :=
  (CS_Write cs fit_preFilterStateKey (SD_Fit (fit_computePodResourceRequest pod (enablePodOverhead f))),
   None).

Definition fit_getPreFilterState (cs : CycleState) : Resource + string :=
  match CS_Read cs fit_preFilterStateKey with
  | inr e => inr (str_app "error reading PreFilterNodeResourcesFit from cycleState: " e)
  | inl (SD_Fit r) => inl r
  | inl _ => inr "convert to NodeResourcesFit.preFilterState error"%string
  end.

(** The status for a list of insufficient resources. *)
Definition insufficient_status (l : list InsufficientResource) : StatusPtr :=
  match l with [] => None | _ => Some (NewStatus Unschedulable (map ir_Reason l)) end.

Definition Fit_Filter (f : Fit) (cs : CycleState) (n : NodeInfo) : StatusPtr :=
  match fit_getPreFilterState cs with
  | inr e => Some (AsStatus e)
  | inl s => insufficient_status (fitsRequest s n (ignoredResources f) (ignoredResourceGroups f))
  end.

Definition Fits (pod : Pod) (n : NodeInfo) (overhead_enabled : bool) : list InsufficientResource :=
  fitsRequest (fit_computePodResourceRequest pod overhead_enabled) n ∅ ∅.
End fit.

(** ** What an empty list of insufficient resources means *)

Lemma entry_if_nil b n r x y z : entry_if b n r x y z = [] <-> b = false.
Proof. by destruct b. Qed.

Lemma scalar_checks_nil over r n ie ig :
  scalar_checks over r n ie ig = [] <->
  forall k q, ScalarResources r !! k = Some q -> is_ignored ie ig k = false ->
    over (get0 (ScalarResources (Allocatable n)) k) q (get0 (ScalarResources (Requested n)) k) = false.
Proof.
  unfold scalar_checks. rewrite concat_nil_Forall, Forall_map, Forall_forall. split.
  - intros H k q Hk Hi. apply elem_of_map_to_list in Hk. specialize (H _ Hk). simpl in H.
    rewrite Hi in H. by apply entry_if_nil in H.
  - intros H [k q] Hk%elem_of_map_to_list. simpl. destruct (is_ignored ie ig k) eqn:Hi; [done|].
    apply entry_if_nil. by apply H.
Qed.

(** The capacity conditions, with a comparison as parameter. *)
Definition fits_spec (over : Z -> Z -> Z -> bool) (r : Resource) (n : NodeInfo) (cpu_used : Z)
    (ie ig : gset string) : Prop :=
  Z.of_nat (length (Pods n)) + 1 <= AllowedPodNumber (Allocatable n) /\
  (empty_request r = true \/
   (over (MilliCPU (Allocatable n)) (MilliCPU r) cpu_used = false /\
    over (rMemory (Allocatable n)) (rMemory r) (rMemory (Requested n)) = false /\
    over (EphemeralStorage (Allocatable n)) (EphemeralStorage r) (EphemeralStorage (Requested n)) = false /\
    forall k q, ScalarResources r !! k = Some q -> is_ignored ie ig k = false ->
      over (get0 (ScalarResources (Allocatable n)) k) q (get0 (ScalarResources (Requested n)) k) = false)).

Lemma too_many_pods_nil n :
  too_many_pods n = [] <-> Z.of_nat (length (Pods n)) + 1 <= AllowedPodNumber (Allocatable n).
Proof. unfold too_many_pods. rewrite entry_if_nil, Z.ltb_ge. done. Qed.

Lemma fitsRequest_nil r n ie ig :
  fitsRequest r n ie ig = [] <-> fits_spec over_sub r n (MilliCPU (Requested n)) ie ig.
Proof.
  unfold fitsRequest, fits_spec. rewrite <- too_many_pods_nil, <- scalar_checks_nil.
  destruct (empty_request r); [naive_solver|].
  rewrite !app_nil, !entry_if_nil. naive_solver.
Qed.

(** A comparison that does not overflow. *)
Definition no_overflow (cap used : Z) : Prop := is_int64 (cap - used).

Lemma over_sub_false cap req used :
  no_overflow cap used -> over_sub cap req used = false <-> used + req <= cap.
Proof. intros H. unfold over_sub. rewrite sub64_exact, Z.ltb_ge by done. lia. Qed.

(** ** Admission keeps nodes within their capacity *)

(** Non-negative and far from overflow in every dimension. *)
Record res_small (r : Resource) : Prop := {
  small_cpu : 0 <= MilliCPU r < 2 ^ 62;
  small_mem : 0 <= rMemory r < 2 ^ 62;
  small_eph : 0 <= EphemeralStorage r < 2 ^ 62;
  small_scalar : forall k, 0 <= get0 (ScalarResources r) k < 2 ^ 62
}.

(** No dimension, the number of pods included, is over its capacity. *)
Record within (n : NodeInfo) : Prop := {
  within_pods : Z.of_nat (length (Pods n)) <= AllowedPodNumber (Allocatable n);
  within_cpu : MilliCPU (Requested n) <= MilliCPU (Allocatable n);
  within_mem : rMemory (Requested n) <= rMemory (Allocatable n);
  within_eph : EphemeralStorage (Requested n) <= EphemeralStorage (Allocatable n);
  within_scalar : forall k, get0 (ScalarResources (Requested n)) k
                            <= get0 (ScalarResources (Allocatable n)) k
}.

Lemma small_no_overflow a b : 0 <= a < 2 ^ 62 -> 0 <= b < 2 ^ 62 -> no_overflow a b.
Proof. unfold no_overflow. int_unfold. lia. Qed.

Section fit_proofs.
Context {arch : GoArch} {gates : FeatureGates}.

Lemma fit_request_calculate pod :
  fit_computePodResourceRequest pod PodOverhead = (calculateResource pod).1.1.
Proof. rewrite <- computePodResourceRequest_calculate. done. Qed.

Lemma Fit_Filter_PreFilter f cs pod n :
  Fit_Filter f (Fit_PreFilter f cs pod).1 n = None <->
  fitsRequest (fit_computePodResourceRequest pod (enablePodOverhead f)) n
    (ignoredResources f) (ignoredResourceGroups f) = [].
Proof.
  unfold Fit_Filter, Fit_PreFilter, fit_getPreFilterState, CS_Read. simpl.
  rewrite lookup_insert_eq. unfold insufficient_status. by destruct (fitsRequest _ _ _ _).
Qed.

(** NodeResourcesFit admits a node exactly when it has room for one more
    pod and, unless the pod asks for nothing, what is requested already and
    what the pod asks for fit together in every dimension that is not
    ignored. *)
Theorem Fit_Filter_spec f cs pod n :
  res_small (Allocatable n) -> res_small (Requested n) ->
  let r := fit_computePodResourceRequest pod (enablePodOverhead f) in
  Fit_Filter f (Fit_PreFilter f cs pod).1 n = None <->
  Z.of_nat (length (Pods n)) + 1 <= AllowedPodNumber (Allocatable n) /\
  (empty_request r = true \/
   (MilliCPU (Requested n) + MilliCPU r <= MilliCPU (Allocatable n) /\
    rMemory (Requested n) + rMemory r <= rMemory (Allocatable n) /\
    EphemeralStorage (Requested n) + EphemeralStorage r <= EphemeralStorage (Allocatable n) /\
    forall k q, ScalarResources r !! k = Some q ->
      is_ignored (ignoredResources f) (ignoredResourceGroups f) k = false ->
      get0 (ScalarResources (Requested n)) k + q <= get0 (ScalarResources (Allocatable n)) k)).
Proof.
  intros [A1 A2 A3 A4] [R1 R2 R3 R4] r. rewrite Fit_Filter_PreFilter, fitsRequest_nil. unfold fits_spec.
  fold r. rewrite !over_sub_false by (by apply small_no_overflow).
  assert (forall k q, over_sub (get0 (ScalarResources (Allocatable n)) k) q
            (get0 (ScalarResources (Requested n)) k) = false <->
          get0 (ScalarResources (Requested n)) k + q <= get0 (ScalarResources (Allocatable n)) k) as Hs
    by (intros; by apply over_sub_false, small_no_overflow).
  setoid_rewrite Hs. done.
Qed.

Lemma empty_request_get0 r k : empty_request r = true -> get0 (ScalarResources r) k = 0.
Proof.
  unfold empty_request. rewrite !andb_true_iff, Nat.eqb_eq. intros [_ Hs].
  apply map_size_empty_inv in Hs. by rewrite Hs.
Qed.

(** Admission is safe: a node within its capacity stays within it, in
    every dimension, when a pod that the filter admits is added. *)
Theorem Fit_no_overcommit cs pod n w :
  let f := mkFit ∅ ∅ PodOverhead in
  res_small (Allocatable n) -> res_small (Requested n) -> within n ->
  res_small (fit_computePodResourceRequest pod PodOverhead) ->
  Fit_Filter f (Fit_PreFilter f cs pod).1 n = None ->
  within (AddPod pod n w).1.
Proof.
  intros f HA HR [W1 W2 W3 W4 W5] Hreq HF.
  rewrite Fit_Filter_PreFilter, fitsRequest_nil in HF. destruct HF as [Hp Hc].
  simpl in Hc. set (r := fit_computePodResourceRequest pod PodOverhead) in *.
  assert (MilliCPU (Requested n) + MilliCPU r <= MilliCPU (Allocatable n) /\
    rMemory (Requested n) + rMemory r <= rMemory (Allocatable n) /\
    EphemeralStorage (Requested n) + EphemeralStorage r <= EphemeralStorage (Allocatable n) /\
    forall k, get0 (ScalarResources (Requested n)) k + get0 (ScalarResources r) k
              <= get0 (ScalarResources (Allocatable n)) k) as (C1 & C2 & C3 & C4).
  { destruct HA as [A1 A2 A3 A4], HR as [R1 R2 R3 R4]. destruct Hc as [He|(C1 & C2 & C3 & C4)].
    - pose proof He as He'. unfold empty_request in He'. zify_bool.
      split_and!; try lia. intros k. rewrite (empty_request_get0 r k He). specialize (W5 k). lia.
    - rewrite over_sub_false in C1, C2, C3 by (by apply small_no_overflow).
      split_and!; try done. intros k. unfold get0 at 2.
      destruct (ScalarResources r !! k) as [q|] eqn:Ek; simpl; [|specialize (W5 k); lia].
      specialize (C4 k q Ek). rewrite over_sub_false in C4 by (apply small_no_overflow; done).
      apply C4. unfold is_ignored. rewrite !bool_decide_eq_false_2 by set_solver.
      apply andb_false_r. }
  destruct HR as [R1 R2 R3 R4], Hreq as [Q1 Q2 Q3 Q4].
  unfold r in *. rewrite fit_request_calculate in *. unfold AddPod, AddPodInfo. simpl.
  destruct (calculateResource pod) as [[res c] m]. simpl in *.
  constructor; simpl; rewrite ?length_app; simpl; try lia;
    try (rewrite add64_exact by (int_unfold; lia); lia).
  intros k. specialize (R4 k). specialize (Q4 k). specialize (C4 k).
  rewrite get0_add_scalars, add64_exact by (int_unfold; lia). lia.
Qed.
End fit_proofs.

(** ** Witnesses *)

Definition small_b (z : Z) : bool := (0 <=? z) && (z <? 2 ^ 62).

Definition res_small_b (r : Resource) : bool :=
  small_b (MilliCPU r) && small_b (rMemory r) && small_b (EphemeralStorage r)
  && forallb (fun e => small_b e.2) (map_to_list (ScalarResources r)).

Lemma res_small_b_ok r : res_small_b r = true -> res_small r.
Proof.
  unfold res_small_b, small_b. intros H. zify_bool. constructor; try lia.
  intros k. unfold get0. destruct (ScalarResources r !! k) as [q|] eqn:E; simpl; [|lia].
  apply elem_of_map_to_list, list_elem_of_In in E.
  match goal with H : forallb _ _ = true |- _ => rewrite forallb_forall in H; specialize (H _ E) end.
  simpl in *. zify_bool. lia.
Qed.

Definition sample_info (milli : Z) : NodeInfo :=
  (@SetNode amd64 gates_default (sample_node "n1" ∅ milli) (NewNodeInfo empty_world).1 empty_world).1.

Lemma Fit_Filter_spec_witness :
  let f := mkFit ∅ ∅ true in
  @Fit_Filter f (@Fit_PreFilter amd64 gates_default f NewCycleState (sample_nginx "u1" 500)).1
    (sample_info 4000) = None.
Proof.
  apply (@Fit_Filter_spec amd64 gates_default (mkFit ∅ ∅ true) NewCycleState
    (sample_nginx "u1" 500) (sample_info 4000)).
  - apply res_small_b_ok. vm_compute. reflexivity.
  - apply res_small_b_ok. vm_compute. reflexivity.
  - split; [vm_compute; discriminate|right]. split_and!; [vm_compute; discriminate..|].
    intros k q Hk. exfalso. revert Hk.
    change (ScalarResources _) with (∅ : gmap string Z). by rewrite lookup_empty.
Defined.

Lemma Fit_no_overcommit_witness :
  within (@AddPod amd64 gates_default (sample_nginx "u1" 500) (sample_info 4000) empty_world).1.
Proof.
  apply (@Fit_no_overcommit amd64 gates_default NewCycleState).
  - apply res_small_b_ok. vm_compute. reflexivity.
  - apply res_small_b_ok. vm_compute. reflexivity.
  - constructor; [vm_compute; discriminate..|].
    intros k. change (ScalarResources _) with (∅ : gmap string Z). done.
  - apply res_small_b_ok. vm_compute. reflexivity.
  - vm_compute. reflexivity.
Defined.
