(* ===== verification/Hicev2.v ===== *)
(** * The Hicev2 plugin: scheduling by single-thread performance

    [framework/plugins/hicev2/hice.go] and [fit.go].  A pod's CPU request is
    given for a reference node of performance [hice.kb]; on a node of
    performance [hice.kj] it counts as [request * kb / kj].  The plugin
    filters and scores with converted requests and writes the converted
    values into the pod when it binds it. *)

From S2P Require Import Prelude GoInt GoFloat GoStrconv Quantity ApiTypes Resource HostPorts AffinityTerms NodeInfo Snapshot Json Framework Hicev1 NodeResourcesFit.

Local Open Scope go_scope.

(** [Hice]; [New] leaves both sets empty. *)
Record Hice := mkHice {
  hice_ignoredResources : gset string;
  hice_ignoredResourceGroups : gset string
}.

Definition New : Hice := mkHice ∅ ∅.

Definition ErrReasonPerf : string := "node(s)'s performace is too low".
Definition kb_label : string := "hice.kb".
Definition kj_label : string := "hice.kj".

(** The performance a label states; absent or malformed labels read 1.0. *)
Definition perf (labels : gmap string string) (key : string) : float64 :=
  match labels !! key with
  | None => f64_one
  | Some s => match ParseFloat s with (x, None) => x | (_, Some _) => f64_one end
  end.

(** hicev2 has its own copies of hicev1's image functions. *)
Definition GetMultiArchImages : string -> string -> list ImageInf := Hicev1.GetMultiArchImages.
Definition ConvertPodImages : Pod -> string -> string -> Pod := Hicev1.ConvertPodImages.

Section hicev2.
Context {arch : GoArch} {gates : FeatureGates} {E : EtcdService} {codec : PodCodec}.

(** [int64(float64(milli) * kb / kj)] *)
Definition scale_cpu (milli : Z) (kb kj : float64) : Z :=
  int64_of_f64 (f64_div (f64_mul (f64_of_Z milli) kb) kj).

(** ** Filter *)

(** CPU of the pods on the node.  A pod of this scheduler without annotations
    comes from the cache, with the request it was created with; other pods
    were read back from etcd, converted already. *)
Definition used_cpu_of (kj : float64) (p : PodInfo) : Z :=
  let pod := pi_Pod p in
  let req := MilliCPU (computePodResourceRequest pod) in
  if String.eqb (SchedulerName (Spec pod)) "kubehice-scheduler"
     && match Annotations pod with None => true | Some _ => false end
  then scale_cpu req (perf (Labels pod) kb_label) kj
  else req.

Definition hiceNodeRequestedMilliCPU (n : NodeInfo) (kj : float64) : Z :=
  fold_left (fun acc p => acc +₆₄ used_cpu_of kj p) (Pods n) 0.

(** [allocatable < request + used] *)
Definition over_add (cap req used : Z) : bool := cap <? req +₆₄ used.

Definition fitsRequest (podRequest : Resource) (n : NodeInfo) (node : Node)
    (ignoredExt ignoredGroups : gset string) : list InsufficientResource :=
  let pods := too_many_pods n in
  if empty_request podRequest then pods
  else
    let a := Allocatable n in
    let u := Requested n in
    let used := hiceNodeRequestedMilliCPU n (perf (node_Labels node) kj_label) in
    pods
    ++ entry_if (over_add (MilliCPU a) (MilliCPU podRequest) used)
         ResourceCPU "Insufficient hice v2 cpu" (MilliCPU podRequest) used (MilliCPU a)
    ++ entry_if (over_add (rMemory a) (rMemory podRequest) (rMemory u))
         ResourceMemory "Insufficient memory" (rMemory podRequest) (rMemory u) (rMemory a)
    ++ entry_if (over_add (EphemeralStorage a) (EphemeralStorage podRequest) (EphemeralStorage u))
         ResourceEphemeralStorage "Insufficient ephemeral-storage"
         (EphemeralStorage podRequest) (EphemeralStorage u) (EphemeralStorage a)
    ++ scalar_checks over_add podRequest n ignoredExt ignoredGroups.

Definition maxCpuReq (cs : list Container) : Z :=
  fold_left (fun m c =>
    if m <? MilliValue (Cpu (c_requests c)) then MilliValue (Cpu (c_requests c)) else m) cs 0.

(** [float64(maxCpuReq)/1000.0/kj*kb > math.Ceil(float64(maxCpuReq)/1000.0)] *)
Definition too_slow (m : Z) (kb kj : float64) : bool :=
  let cores := f64_div (f64_of_Z m) (f64_of_Z 1000) in
  f64_gt (f64_mul (f64_div cores kj) kb) (f64_ceil cores).

Definition set_MilliCPU (z : Z) (r : Resource) : Resource :=
  mkResource z (rMemory r) (EphemeralStorage r) (AllowedPodNumber r) (ScalarResources r).

Definition Filter (pl : Hice) (pod : Pod) (n : NodeInfo) : outcome StatusPtr :=
  match ni_node n with
  | None => Panic nil_panic
  | Some node =>
      let kb := perf (Labels pod) kb_label in
      let kj := perf (node_Labels node) kj_label in
      if too_slow (maxCpuReq (Containers (Spec pod))) kb kj
      then Ret (Some (NewStatus Unschedulable [ErrReasonPerf]))
      else
        let s := computePodResourceRequest pod in
        let s := set_MilliCPU (scale_cpu (MilliCPU s) kb kj) s in
        Ret (insufficient_status
          (fitsRequest s n node (hice_ignoredResources pl) (hice_ignoredResourceGroups pl)))
  end.

(** ** Bind *)

(** [MustParse(strconv.Itoa(int(float64(milli)*kb/kj)) + "m")] into the map. *)
Definition convert_cpu (kb kj : float64) (rl : ResourceList) : outcome ResourceList :=
  let milli := MilliValue (Cpu rl) in
  if milli =? 0 then Ret rl
  else
    let! q := MustParse (str_app (Itoa (scale_cpu milli kb kj)) "m") in
    Ret (<["cpu"%string := q]> rl).

Definition convert_container (kb kj : float64) (c : Container) : outcome Container :=
  let! requests := convert_cpu kb kj (Requests (c_Resources c)) in
  let! limits := convert_cpu kb kj (Limits (c_Resources c)) in
  Ret (set_Resources (mkResourceRequirements limits requests) c).

Fixpoint convert_containers (kb kj : float64) (cs : list Container) : outcome (list Container) :=
  match cs with
  | [] => Ret []
  | c :: cs' =>
      let! c' := convert_container kb kj c in
      let! r := convert_containers kb kj cs' in
      Ret (c' :: r)
  end.

Definition ConvertPodCpu (p : Pod) (kb kj : float64) : outcome Pod :=
  let! cs := convert_containers kb kj (Containers (Spec p)) in
  Ret (set_Containers cs p).

(** What [changePodInEtcd] does to the pod decoded from etcd: image and
    resources of the containers, node, condition, and the annotation that
    marks the pod as converted, when it has none. *)
Definition bind_pod (p etcdPod : Pod) : Pod :=
  let cs := map (fun c => match same_named p c with
                          | Some pc => set_Resources (c_Resources pc) (set_Image (c_Image pc) c)
                          | None => c end)
              (Containers (Spec etcdPod)) in
  let q := add_Condition PodScheduled_true
             (set_NodeName (NodeName (Spec p)) (set_Containers cs etcdPod)) in
  match Annotations etcdPod with
  | None => set_Annotations (Some {["fromEtcd"%string := "1"%string]}) q
  | Some _ => q
  end.

Definition changePodInEtcd (p : Pod) (st : EtcdStore) : outcome (EtcdStore * error) :=
  let key := pod_key p in
  match etcd_Get st key with
  | inr e => Ret (st, Some e)
  | inl [] => Panic index_panic
  | inl (v :: _) =>
      match decode_pod v with
      | None => Panic "interface conversion: interface is nil, not *v1.Pod"
      | Some etcdPod => Ret (etcd_Put st key (encode_pod (bind_pod p etcdPod)))
      end
  end.

(** [c, _ := state.Read("images"); images, _ := c.(hicev1.ImageState)] *)
Definition read_images (state : CycleState) : string :=
  match CS_Read state "images" with inl (SD_Images d) => d | _ => ""%string end.

Definition Bind (snap : Snapshot) (st : EtcdStore) (state : CycleState) (p : Pod) (nodeName : string)
    : outcome (EtcdStore * StatusPtr) :=
  let images := read_images state in
  match SN_Get snap nodeName with
  | inr e => Ret (st, Some (NewStatus Error [e]))
  | inl nodeInfo =>
      match dial_error with
      | Some e => Ret (st, Some (NewStatus Error [e]))
      | None =>
          match ni_node nodeInfo with
          | None => Panic nil_panic
          | Some node =>
              let tempPod := ConvertPodImages p (label (node_Labels node) arch_label) images in
              let hiceKj := perf (node_Labels node) kj_label in
              let hiceKb := perf (Labels tempPod) kb_label in
              let! tempPod := ConvertPodCpu tempPod hiceKb hiceKj in
              let tempPod := set_NodeName nodeName tempPod in
              let! r := changePodInEtcd tempPod st in
              Ret (r.1, match r.2 with Some e => Some (NewStatus Error [e]) | None => None end)
          end
      end
  end.

(** ** Score *)

Definition mCeil (x : Z) : Z :=
  if div64 x 1000 *₆₄ 1000 -₆₄ x =? 0 then x else (div64 x 1000 +₆₄ 1) *₆₄ 1000.

Definition hiceLevel (req lmt : Z) (bPerf nPerf : float64) : Z :=
  if f64_le bPerf nPerf then 0
  else if (req =? 0) && (lmt =? 0) then 0
  else
    let req := if (req =? 0) && (0 <? lmt) then lmt else req in
    let hiceReq := int64_of_f64 (f64_mul (f64_div (f64_of_Z req) nPerf) bPerf) in
    let hiceLmt := int64_of_f64 (f64_mul (f64_div (f64_of_Z lmt) nPerf) bPerf) in
    if hiceReq <=? mCeil req then
      if hiceLmt <=? mCeil lmt then 1 else 2
    else 3.

Definition container_level (bPerf nPerf : float64) (c : Container) : Z :=
  hiceLevel (MilliValue (Cpu (c_requests c))) (MilliValue (Cpu (Limits (c_Resources c))))
    bPerf nPerf.

(** The highest level of the containers. *)
Definition pod_level (pod : Pod) (bPerf nPerf : float64) : Z :=
  fold_left (fun pLevel c =>
    let level := container_level bPerf nPerf c in
    if pLevel <? level then level else pLevel) (Containers (Spec pod)) 0.

(** [int64(base + 49*nPerf/bPerf)] *)
Definition level_score (base : Z) (bPerf nPerf : float64) : Z :=
  int64_of_f64 (f64_add (f64_of_Z base) (f64_div (f64_mul (f64_of_Z 49) nPerf) bPerf)).

Definition Score (snap : Snapshot) (pod : Pod) (nodeName : string) : outcome (Z * StatusPtr) :=
  match SN_Get snap nodeName with
  | inr e =>
      Ret (0, Some (NewStatus Error
        [str_app "getting node " (str_app nodeName (str_app " from Snapshot: " e))]))
  | inl nodeInfo =>
      match ni_node nodeInfo with
      | None => Panic nil_panic
      | Some node =>
          let nPerf := perf (node_Labels node) kj_label in
          match Labels pod !! kb_label with
          | None => Ret (100, None)
          | Some _ =>
              let bPerf := perf (Labels pod) kb_label in
              let pLevel := pod_level pod bPerf nPerf in
              Ret (if pLevel =? 0 then (100, None)
                   else if pLevel =? 1 then (level_score 51 bPerf nPerf, None)
                   else if pLevel =? 2 then (level_score 1 bPerf nPerf, None)
                   else (0, None))
          end
      end
  end.
End hicev2.
