(* ===== verification/Hicev2Proofs.v ===== *)
(** * Properties of the Hicev2 plugin *)

From S2P Require Import Prelude GoInt GoFloat GoFloatRound GoFloatBound GoStrconv Quantity QuantityProofs ApiTypes Resource HostPorts AffinityTerms NodeInfo Samples Snapshot Json Framework Hicev1 Hicev1Proofs NodeResourcesFit Hicev2.

(** ** Reference nodes: performance 1.0 *)

Lemma round_aux_sign m e l mm ee :
  binary_round_aux f64_prec f64_emax false m e l <> S754_finite true mm ee.
Proof.
  unfold binary_round_aux. destruct (shr_fexp _ _ m e l) as [r e1].
  destruct (shr_fexp _ _ _ e1 loc_Exact) as [r' e2]. destruct (shr_m r'); [done| |done].
  by destruct (e2 <=? _).
Qed.

Lemma f64_of_Z_sign z mm ee : 0 <= z -> f64_of_Z z <> S754_finite true mm ee.
Proof.
  intros Hz. destruct z as [|p|p]; [done| |lia].
  unfold f64_of_Z, binary_normalize, binary_round. destruct (shl_align p 0 _) as [mz ez].
  apply round_aux_sign.
Qed.

Lemma cores_sign z mm ee :
  0 <= z -> f64_div (f64_of_Z z) (f64_of_Z 1000) <> S754_finite true mm ee.
Proof.
  intros Hz. pose proof (fun m e => f64_of_Z_sign z m e Hz) as Hs.
  change (f64_of_Z 1000) with (S754_finite false 8796093022208000 (-43)).
  destruct (f64_of_Z z) as [s|s| |s m e]; [done..|].
  destruct s; [by destruct (Hs m e)|]. unfold f64_div, SFdiv.
  destruct (SFdiv_core_binary _ _ _ _ _ _) as [[q e'] l]. apply round_aux_sign.
Qed.

Lemma too_slow_one m : 0 <= m -> too_slow m f64_one f64_one = false.
Proof.
  intros Hm. unfold too_slow, f64_gt. rewrite f64_div_one, f64_mul_one by auto with kubehice.
  apply f64_ceil_ge; [auto with kubehice|]. intros. by apply cores_sign.
Qed.

Lemma maxCpuReq_nonneg {arch : GoArch} cs : 0 <= maxCpuReq cs.
Proof.
  unfold maxCpuReq. set (f := fun _ _ => _).
  cut (forall m, 0 <= m -> 0 <= fold_left f cs m); [intros H; apply H; lia|].
  induction cs as [|c cs IH]; intros m Hm; simpl; [done|]. apply IH. unfold f.
  destruct (Z.ltb_spec m (MilliValue (Cpu (c_requests c)))); lia.
Qed.

Section hicev2_proofs.
Context {arch : GoArch} {gates : FeatureGates} {E : EtcdService} {codec : PodCodec}.

Lemma scale_cpu_one z : Z.abs z < 2 ^ 53 -> scale_cpu z f64_one f64_one = z.
Proof.
  intros Hz. unfold scale_cpu. rewrite f64_mul_one, f64_div_one by auto with kubehice.
  by apply int64_of_f64_of_Z.
Qed.

Lemma fold_add64 {A} (f : A -> Z) l a :
  is_int64 a -> fold_left (fun acc x => acc +₆₄ f x) l a = a +₆₄ sum64 (map f l).
Proof.
  revert a. induction l as [|x l IH]; intros a Ha; simpl.
  - unfold add64. by rewrite Z.add_0_r, int64_id.
  - rewrite IH by apply int64_range. symmetry. apply add64_assoc.
Qed.

Lemma hiceNodeRequested_sum n kj :
  hiceNodeRequestedMilliCPU n kj = sum64 (map (used_cpu_of kj) (Pods n)).
Proof.
  unfold hiceNodeRequestedMilliCPU. rewrite fold_add64 by (int_unfold; lia).
  unfold add64. rewrite Z.add_0_l, int64_id by apply sum64_int64. done.
Qed.

Lemma used_cpu_of_one p :
  perf (Labels (pi_Pod p)) kb_label = f64_one -> Z.abs (pod_cpu p) < 2 ^ 53 ->
  used_cpu_of f64_one p = pod_cpu p.
Proof.
  intros Hk Hb. unfold used_cpu_of. rewrite computePodResourceRequest_calculate, Hk.
  fold (pod_cpu p). rewrite scale_cpu_one by done. by destruct (_ && _).
Qed.

(** ** Filter *)

Lemma fitsRequest_hice_nil r n node ie ig :
  fitsRequest r n node ie ig = [] <->
  fits_spec over_add r n (hiceNodeRequestedMilliCPU n (perf (node_Labels node) kj_label)) ie ig.
Proof.
  unfold fitsRequest, fits_spec. rewrite <- too_many_pods_nil, <- scalar_checks_nil.
  destruct (empty_request r); [naive_solver|].
  rewrite !app_nil, !entry_if_nil. naive_solver.
Qed.

Lemma over_add_sub cap req used :
  0 <= cap < 2 ^ 62 -> 0 <= used < 2 ^ 62 -> 0 <= req < 2 ^ 62 ->
  over_add cap req used = over_sub cap req used.
Proof.
  intros. unfold over_add, over_sub. rewrite add64_exact, sub64_exact by (int_unfold; lia).
  destruct (Z.ltb_spec cap (req + used)), (Z.ltb_spec (cap - used) req); lia || done.
Qed.

Lemma Filter_spec pl pod n node :
  ni_node n = Some node ->
  let kb := perf (Labels pod) kb_label in
  let kj := perf (node_Labels node) kj_label in
  let r := computePodResourceRequest pod in
  Filter pl pod n = Ret None <->
  too_slow (maxCpuReq (Containers (Spec pod))) kb kj = false /\
  fits_spec over_add (set_MilliCPU (scale_cpu (MilliCPU r) kb kj) r) n
    (hiceNodeRequestedMilliCPU n kj) (hice_ignoredResources pl) (hice_ignoredResourceGroups pl).
Proof.
  intros Hn kb kj r. unfold Filter. rewrite Hn. fold kb kj r.
  pose proof (fitsRequest_hice_nil (set_MilliCPU (scale_cpu (MilliCPU r) kb kj) r) n node
    (hice_ignoredResources pl) (hice_ignoredResourceGroups pl)) as HF. fold kj in HF.
  rewrite <- HF. destruct (too_slow _ kb kj); [naive_solver|].
  unfold insufficient_status. destruct (fitsRequest _ _ _ _ _); naive_solver.
Qed.

(** *** Room on a node, in the exact integers *)

(** The CPU that a pod asks for in the units of a node. *)
Definition converted_cpu (node : Node) (pod : Pod) : Z :=
  scale_cpu (MilliCPU (computePodResourceRequest pod)) (perf (Labels pod) kb_label) (perf (node_Labels node) kj_label).

(** The CPU that the pods of a node take: the converted request of the pods
    of this scheduler that are not annotated, the plain request of the others. *)
Definition cpu_taken (node : Node) (n : NodeInfo) : Z :=
  Zsum (map (used_cpu_of (perf (node_Labels node) kj_label)) (Pods n)).

(** No amount is negative or near the end of int64. *)
Record moderate (pod : Pod) (n : NodeInfo) (node : Node) : Prop := {
  sz_req : 0 <= converted_cpu node pod < 2 ^ 62;
  sz_pods : Forall (fun p => 0 <= used_cpu_of (perf (node_Labels node) kj_label) p) (Pods n);
  sz_taken : cpu_taken node n < 2 ^ 62;
  sz_mem : 0 <= rMemory (computePodResourceRequest pod) < 2 ^ 62 /\ 0 <= rMemory (Requested n) < 2 ^ 62;
  sz_eph : 0 <= EphemeralStorage (computePodResourceRequest pod) < 2 ^ 62 /\ 0 <= EphemeralStorage (Requested n) < 2 ^ 62
}.

(** What the pod asks for is free on the node, and one more pod is allowed. *)
Record has_room (pod : Pod) (n : NodeInfo) (node : Node) : Prop := {
  hr_pods : Z.of_nat (length (Pods n)) + 1 <= AllowedPodNumber (Allocatable n);
  hr_cpu : 0 < converted_cpu node pod -> cpu_taken node n + converted_cpu node pod <= MilliCPU (Allocatable n);
  hr_mem : 0 < rMemory (computePodResourceRequest pod) ->
    rMemory (Requested n) + rMemory (computePodResourceRequest pod) <= rMemory (Allocatable n);
  hr_eph : 0 < EphemeralStorage (computePodResourceRequest pod) ->
    EphemeralStorage (Requested n) + EphemeralStorage (computePodResourceRequest pod) <= EphemeralStorage (Allocatable n)
}.

Lemma over_add_false cap req used :
  0 <= req < 2 ^ 62 -> 0 <= used < 2 ^ 62 -> over_add cap req used = false -> used + req <= cap.
Proof. intros Hr Hu. unfold over_add. rewrite add64_exact by (int_unfold; lia). rewrite Z.ltb_ge. lia. Qed.

Lemma Filter_has_room pl pod n node :
  ni_node n = Some node -> Filter pl pod n = Ret None -> moderate pod n node -> has_room pod n node.
Proof.
  intros Hn HF [Q1 Q2 Q3 [Q4 Q5] [Q6 Q7]]. apply (Filter_spec pl pod n node Hn) in HF as [_ [Hp Hc]].
  assert (hiceNodeRequestedMilliCPU n (perf (node_Labels node) kj_label) = cpu_taken node n /\ 0 <= cpu_taken node n) as [Ht Ht0].
  { rewrite hiceNodeRequested_sum. apply sum64_exact; [by apply Forall_map|]. unfold cpu_taken in Q3. int_unfold. lia. }
  rewrite Ht in Hc. fold (converted_cpu node pod) in Hc.
  destruct Hc as [He|(C1 & C2 & C3 & _)].
  - unfold empty_request in He. cbn [MilliCPU rMemory EphemeralStorage set_MilliCPU] in He. zify_bool.
    split; [done|intros; lia..].
  - cbn [MilliCPU rMemory EphemeralStorage set_MilliCPU] in *. split; [done|intros _; apply over_add_false; done..].
Qed.

(** All performances involved are those of the reference node. *)
Definition homogeneous (pod : Pod) (n : NodeInfo) (node : Node) : Prop :=
  perf (node_Labels node) kj_label = f64_one /\ perf (Labels pod) kb_label = f64_one /\
  Forall (fun p => perf (Labels (pi_Pod p)) kb_label = f64_one) (Pods n).

(** C7. On a homogeneous cluster Hicev2 filters like Kubernetes itself: when
    all performance labels read 1.0, its [Filter] admits exactly the nodes
    that NodeResourcesFit admits, floating-point conversions and own summing
    of the pods' requests notwithstanding. *)
Theorem Hicev2_refines_Fit pod n node cs :
  ni_node n = Some node -> homogeneous pod n node -> ni_sums n ->
  Forall (fun p => Z.abs (pod_cpu p) < 2 ^ 53) (Pods n) ->
  res_small (Allocatable n) -> res_small (Requested n) ->
  res_small (computePodResourceRequest pod) ->
  MilliCPU (computePodResourceRequest pod) < 2 ^ 53 ->
  let f := mkFit ∅ ∅ PodOverhead in
  Filter New pod n = Ret None <-> Fit_Filter f (Fit_PreFilter f cs pod).1 n = None.
Proof.
  intros Hn (Hkj & Hkb & Hks) Hsum Hcpu HA HR Hr Hr53 f.
  rewrite Filter_spec, Fit_Filter_PreFilter, fitsRequest_nil by done. rewrite Hkj, Hkb.
  change (fit_computePodResourceRequest pod (enablePodOverhead f)) with (computePodResourceRequest pod).
  set (r := computePodResourceRequest pod) in *.
  rewrite too_slow_one by apply maxCpuReq_nonneg.
  rewrite scale_cpu_one by (destruct Hr as [? _ _ _]; lia).
  replace (set_MilliCPU (MilliCPU r) r) with r by (by destruct r).
  assert (hiceNodeRequestedMilliCPU n f64_one = MilliCPU (Requested n)) as ->.
  { rewrite hiceNodeRequested_sum, sums_cpu by done. f_equal. apply map_ext_in.
    intros p Hp%list_elem_of_In. rewrite Forall_forall in Hks, Hcpu.
    apply used_cpu_of_one; [by apply Hks|by apply Hcpu]. }
  assert (forall k q, ScalarResources r !! k = Some q -> 0 <= q < 2 ^ 62) as Hq.
  { intros k q Hk. pose proof (small_scalar r Hr k) as Hs. unfold get0 in Hs. by rewrite Hk in Hs. }
  destruct HA as [A1 A2 A3 A4], HR as [R1 R2 R3 R4], Hr as [Q1 Q2 Q3 Q4].
  unfold fits_spec. rewrite !over_add_sub by done.
  assert (forall k q, ScalarResources r !! k = Some q ->
    over_add (get0 (ScalarResources (Allocatable n)) k) q (get0 (ScalarResources (Requested n)) k) =
    over_sub (get0 (ScalarResources (Allocatable n)) k) q (get0 (ScalarResources (Requested n)) k))
    as Hs by (intros k q Hk; apply over_add_sub; eauto).
  naive_solver congruence.
Qed.

(** A pod that the filter counts with its converted request: one of this
    scheduler, not annotated. *)
Definition counted (pod : Pod) : Prop :=
  SchedulerName (Spec pod) = "kubehice-scheduler"%string /\ Annotations pod = None.

(** C17. Admission is safe in the node's own CPU units, for the pods that the
    filter counts with their converted request: those of the scheduler named
    kubehice-scheduler that carry no annotations at all.  After such a pod is
    admitted by Hicev2 and added to the node, the CPU that the filter counts
    for the node has grown by exactly the converted request, and is at most
    the allocatable CPU.  For a pod with annotations it fails: it is admitted
    with its converted request and counted with the plain one
    (annotated_pods_undercounted). *)
Theorem Hicev2_no_overcommit pod n node w :
  ni_node n = Some node -> counted pod ->
  let kb := perf (Labels pod) kb_label in
  let kj := perf (node_Labels node) kj_label in
  let req := scale_cpu (MilliCPU (computePodResourceRequest pod)) kb kj in
  0 <= hiceNodeRequestedMilliCPU n kj <= MilliCPU (Allocatable n) ->
  MilliCPU (Allocatable n) < 2 ^ 62 -> 0 <= req < 2 ^ 62 ->
  Filter New pod n = Ret None ->
  hiceNodeRequestedMilliCPU (AddPod pod n w).1 kj = hiceNodeRequestedMilliCPU n kj + req /\
  hiceNodeRequestedMilliCPU (AddPod pod n w).1 kj <= MilliCPU (Allocatable n).
Proof.
  intros Hn [Hs Ha] kb kj req Hused Hcap Hreq HF.
  apply (Filter_spec New pod n node Hn) in HF as [_ [_ Hc]]. fold kb kj req in Hc.
  assert (hiceNodeRequestedMilliCPU (AddPod pod n w).1 kj = hiceNodeRequestedMilliCPU n kj + req) as ->.
  { rewrite !hiceNodeRequested_sum in *. unfold AddPod. rewrite AddPodInfo_Pods, map_app.
    cbn [map]. rewrite sum64_snoc. unfold used_cpu_of at 2. cbn [pi_Pod NewPodInfo].
    rewrite Hs, Ha, String.eqb_refl. cbn [andb].
    fold kb. fold req. apply add64_exact. int_unfold. lia. }
  split; [done|]. destruct Hc as [He|(Hc & _)].
  - unfold empty_request in He. cbn [MilliCPU set_MilliCPU] in He. zify_bool. lia.
  - unfold over_add in Hc. cbn [MilliCPU set_MilliCPU] in Hc.
    rewrite add64_exact in Hc by (int_unfold; lia). zify_bool. lia.
Qed.

(** ** Conversion of the CPU resources *)

(** [c'] is [c] with its CPU request and limit converted: the values read
    back are the scaled ones, everything else is as before. *)
Definition converted_list (kb kj : float64) (rl rl' : ResourceList) : Prop :=
  (forall k, k <> ResourceCPU -> rl' !! k = rl !! k) /\
  MilliValue (Cpu rl') = (if MilliValue (Cpu rl) =? 0 then 0 else scale_cpu (MilliValue (Cpu rl)) kb kj).

Definition converted (kb kj : float64) (c c' : Container) : Prop :=
  c_Name c' = c_Name c /\ c_Image c' = c_Image c /\ c_Ports c' = c_Ports c /\
  converted_list kb kj (Requests (c_Resources c)) (Requests (c_Resources c')) /\
  converted_list kb kj (Limits (c_Resources c)) (Limits (c_Resources c')).

(** The scaled values are such that their text can be parsed again. *)
Definition convertible (kb kj : float64) (c : Container) : Prop :=
  -10 ^ 18 < scale_cpu (MilliValue (Cpu (Requests (c_Resources c)))) kb kj /\
  -10 ^ 18 < scale_cpu (MilliValue (Cpu (Limits (c_Resources c)))) kb kj.

Lemma scale_cpu_max z kb kj : scale_cpu z kb kj <= MaxInt64.
Proof. apply int64_of_f64_range. Qed.

Lemma convert_cpu_spec kb kj rl :
  -10 ^ 18 < scale_cpu (MilliValue (Cpu rl)) kb kj ->
  exists rl', convert_cpu kb kj rl = Ret rl' /\ converted_list kb kj rl rl'.
Proof.
  intros Hb. unfold convert_cpu, converted_list.
  destruct (Z.eqb_spec (MilliValue (Cpu rl)) 0) as [E0|E0]; [by exists rl|].
  destruct (MustParse_milli (scale_cpu (MilliValue (Cpu rl)) kb kj)) as (q & -> & Hq);
    [split; [done|apply scale_cpu_max]|].
  eexists. split; [reflexivity|]. split.
  - intros k Hk. by rewrite lookup_insert_ne.
  - unfold Cpu, RL_Name at 1. change ResourceCPU with "cpu"%string at 1. by rewrite lookup_insert_eq.
Qed.

Lemma convert_containers_spec kb kj cs :
  Forall (convertible kb kj) cs ->
  exists cs', convert_containers kb kj cs = Ret cs' /\ Forall2 (converted kb kj) cs cs'.
Proof.
  induction 1 as [|c cs [H1 H2] _ (cs' & IH & HF)]; [by exists []|].
  destruct (convert_cpu_spec kb kj _ H1) as (rq & E1 & C1).
  destruct (convert_cpu_spec kb kj _ H2) as (lm & E2 & C2).
  simpl. unfold convert_container. rewrite E1. cbn [obind]. rewrite E2. cbn [obind].
  rewrite IH. cbn [obind]. eexists. split; [reflexivity|]. constructor; [|done]. by split_and!.
Qed.

(** [ConvertPodCpu] does not panic, and the CPU request and limit of
    every container read back as [int64(milli * kb / kj)]; zero amounts, the
    other resources, and the other fields stay as they are. *)
Theorem ConvertPodCpu_spec p kb kj :
  Forall (convertible kb kj) (Containers (Spec p)) ->
  exists cs', ConvertPodCpu p kb kj = Ret (set_Containers cs' p) /\
    Forall2 (converted kb kj) (Containers (Spec p)) cs'.
Proof.
  intros H. destruct (convert_containers_spec kb kj _ H) as (cs' & Hc & HF).
  exists cs'. unfold ConvertPodCpu. by rewrite Hc.
Qed.

(** ** Bind *)

(** The stored form of container [c] when the pod's container is [pc]. *)
Definition bound_container (kb kj : float64) (a data : string) (c pc c' : Container) : Prop :=
  c_Name c' = c_Name c /\ c_Ports c' = c_Ports c /\
  c_Image c' = convert_image a data (c_Image pc) /\
  converted_list kb kj (Requests (c_Resources pc)) (Requests (c_Resources c')) /\
  converted_list kb kj (Limits (c_Resources pc)) (Limits (c_Resources c')).

Record hice_bound (kb kj : float64) (a data nodeName : string) (p ep q : Pod) : Prop := {
  hb_rest : rest_kept ep q;
  hb_annotations : Annotations q = Some (default {["fromEtcd"%string := "1"%string]} (Annotations ep));
  hb_node : NodeName (Spec q) = nodeName;
  hb_cond : Conditions (Status q) = Conditions (Status ep) ++ [PodScheduled_true];
  hb_containers : Forall2 (fun c c' =>
    match same_named p c with
    | None => c' = c
    | Some pc => bound_container kb kj a data c pc c'
    end) (Containers (Spec ep)) (Containers (Spec q))
}.

Lemma same_named_converted kb kj p cs' c :
  Forall2 (converted kb kj) (Containers (Spec p)) cs' ->
  match same_named p c, same_named (set_Containers cs' p) c with
  | None, None => True
  | Some pc, Some pc' => converted kb kj pc pc'
  | _, _ => False
  end.
Proof.
  unfold same_named. simpl. induction 1 as [|pc pc' l l' Hc _ IH]; simpl; [done|].
  pose proof Hc as (-> & _). by destruct (String.eqb (c_Name c) (c_Name pc)).
Qed.

Lemma bind_pod_hice_bound kb kj a data nodeName p ep cs' :
  Forall2 (converted kb kj) (Containers (Spec (ConvertPodImages p a data))) cs' ->
  hice_bound kb kj a data nodeName p ep
    (bind_pod (set_NodeName nodeName (set_Containers cs' (ConvertPodImages p a data))) ep).
Proof.
  intros Hc. unfold bind_pod.
  set (tp := set_NodeName nodeName (set_Containers cs' (ConvertPodImages p a data))).
  assert (Forall2 (fun c c' =>
    match same_named p c with
    | None => c' = c
    | Some pc => bound_container kb kj a data c pc c'
    end) (Containers (Spec ep))
    (map (fun c => match same_named tp c with
                   | Some pc => set_Resources (c_Resources pc) (set_Image (c_Image pc) c)
                   | None => c end) (Containers (Spec ep)))) as HF.
  { induction (Containers (Spec ep)) as [|c cs IH]; simpl; constructor; [|done].
    pose proof (same_named_converted kb kj _ cs' c Hc) as Hs.
    unfold ConvertPodImages in Hs at 1. rewrite same_named_Convert in Hs.
    change (same_named tp c) with (same_named (set_Containers cs' (ConvertPodImages p a data)) c).
    destruct (same_named p c) as [pc|]; simpl in Hs;
      destruct (same_named (set_Containers _ _) c) as [pc'|]; try done.
    destruct Hs as (_ & Hi & _ & H1 & H2). by split_and!. }
  destruct (Annotations ep) as [an|] eqn:Ea; constructor; simpl; rewrite ?Ea; done.
Qed.

(** C13. Binding stores, under the pod's key and nowhere else, the pod etcd
    had, bound to the node, with the images of the node's architecture and
    with the CPU requests and limits converted to the node's performance; a
    pod without annotations is marked as converted.  Apart from that and the
    condition PodScheduled nothing of the stored pod changes. *)
Theorem Hicev2_Bind_correct snap st cs p v ep nodeName ni node :
  let kb := perf (Labels p) kb_label in
  let kj := perf (node_Labels node) kj_label in
  dial_error = None -> get_error (pod_key p) = None -> put_error (pod_key p) = None ->
  SN_Get snap nodeName = inl ni -> ni_node ni = Some node ->
  Forall (convertible kb kj) (Containers (Spec p)) ->
  st !! pod_key p = Some v -> decode_pod v = Some ep ->
  exists q, Bind snap st cs p nodeName = Ret (<[pod_key p := encode_pod q]> st, None) /\
            hice_bound kb kj (node_arch node) (read_images cs) nodeName p ep q.
Proof.
  intros kb kj Hd Hg Hp Hs Hn Hc Hv Hep.
  set (p1 := ConvertPodImages p (node_arch node) (read_images cs)).
  assert (Forall (convertible kb kj) (Containers (Spec p1))) as Hc1.
  { simpl. apply Forall_map. eapply Forall_impl; [exact Hc|]. by intros c. }
  destruct (convert_containers_spec kb kj _ Hc1) as (cs' & Hcv & HF).
  eexists. split; [|by apply bind_pod_hice_bound].
  unfold Bind. rewrite Hs, Hd, Hn. fold (node_arch node). fold p1.
  change (perf (Labels p1) kb_label) with kb. fold kj.
  unfold ConvertPodCpu. rewrite Hcv. cbn [obind].
  unfold changePodInEtcd. change (pod_key (set_NodeName _ _)) with (pod_key p).
  unfold etcd_Get, etcd_Put. rewrite Hg, Hv, Hep, Hp. done.
Qed.

(** ** Score *)

Lemma mCeil_spec x :
  0 <= x <= 2 ^ 62 -> x <= mCeil x < x + 1000 /\ (1000 | mCeil x).
Proof.
  intros Hx. unfold mCeil, div64, mul64, sub64, add64. rewrite Z.quot_div_nonneg by lia.
  pose proof (Z.div_mod x 1000 ltac:(lia)) as Hdm. pose proof (Z.mod_pos_bound x 1000 ltac:(lia)).
  rewrite (int64_id (x / 1000)) by (int_unfold; lia).
  rewrite (int64_id (x / 1000 * 1000)) by (int_unfold; lia).
  rewrite (int64_id (x / 1000 * 1000 - x)) by (int_unfold; lia).
  destruct (Z.eqb_spec (x / 1000 * 1000 - x) 0) as [E0|E0].
  - split; [lia|]. exists (x / 1000). lia.
  - rewrite (int64_id (x / 1000 + 1)) by (int_unfold; lia).
    rewrite (int64_id ((x / 1000 + 1) * 1000)) by (int_unfold; lia).
    split; [lia|]. by exists (x / 1000 + 1).
Qed.

Lemma hiceLevel_range req lmt b n : 0 <= hiceLevel req lmt b n <= 3.
Proof. unfold hiceLevel. repeat case_match; lia. Qed.

Lemma pod_level_max pod b n :
  0 <= pod_level pod b n <= 3 /\
  Forall (fun c => container_level b n c <= pod_level pod b n) (Containers (Spec pod)).
Proof.
  unfold pod_level.
  cut (forall cs m, 0 <= m <= 3 ->
    let r := fold_left (fun p c => if p <? container_level b n c then container_level b n c else p) cs m in
    m <= r <= 3 /\ Forall (fun c => container_level b n c <= r) cs).
  { intros H. destruct (H (Containers (Spec pod)) 0) as [H1 H2]; [lia|]. split; [lia|exact H2]. }
  intros cs. induction cs as [|c cs IH]; intros m Hm; simpl; [split; [lia|constructor]|].
  assert (0 <= container_level b n c <= 3) as Hl by apply hiceLevel_range.
  destruct (IH (if m <? container_level b n c then container_level b n c else m)) as [H1 H2];
    [case_match; lia|].
  split; [case_match; zify_bool; lia|]. constructor; [|done].
  destruct (Z.ltb_spec m (container_level b n c)); lia.
Qed.

(** What the levels mean: [mCeil] rounds a request up to whole cores,
    and a container on a slower node is at level 1 exactly when its converted
    request and limit stay within the whole cores it had, at level 2 when
    only the request does, and at level 3 when not even that. *)
Theorem hiceLevel_spec req lmt b n :
  0 < req <= 2 ^ 62 -> 0 <= lmt <= 2 ^ 62 -> f64_le b n = false ->
  let conv z := int64_of_f64 (f64_mul (f64_div (f64_of_Z z) n) b) in
  exists creq clmt,
    (req <= creq < req + 1000 /\ (1000 | creq)) /\ (lmt <= clmt < lmt + 1000 /\ (1000 | clmt)) /\
    (hiceLevel req lmt b n = 1 <-> conv req <= creq /\ conv lmt <= clmt) /\
    (hiceLevel req lmt b n = 2 <-> conv req <= creq /\ clmt < conv lmt) /\
    (hiceLevel req lmt b n = 3 <-> creq < conv req).
Proof.
  intros Hreq Hlmt Hle conv. exists (mCeil req), (mCeil lmt).
  split; [apply mCeil_spec; lia|]. split; [apply mCeil_spec; lia|].
  unfold hiceLevel. rewrite Hle. destruct (Z.eqb_spec req 0); [lia|]. cbn [andb].
  fold (conv req) (conv lmt).
  destruct (Z.leb_spec (conv req) (mCeil req)), (Z.leb_spec (conv lmt) (mCeil lmt)); lia.
Qed.

(** [Score] gives full marks to a node as fast as the reference of the
    pod, or to any node when the pod names no reference; otherwise the worst
    container decides which of the scores 51 + 49 n/b, 1 + 49 n/b and 0 the
    node gets. *)
Theorem Hicev2_Score_spec snap pod nodeName ni node :
  SN_Get snap nodeName = inl ni -> ni_node ni = Some node ->
  let n := perf (node_Labels node) kj_label in
  let b := perf (Labels pod) kb_label in
  exists s, Score snap pod nodeName = Ret (s, None) /\
    (Labels pod !! kb_label = None -> s = 100) /\
    (f64_le b n = true -> s = 100) /\
    (is_Some (Labels pod !! kb_label) ->
     exists level, s = match level with
                       | 0 => 100 | 1 => level_score 51 b n | 2 => level_score 1 b n | _ => 0 end /\
       Forall (fun c => container_level b n c <= level) (Containers (Spec pod)) /\
       level <= 3).
Proof.
  intros Hs Hn n b. unfold Score. rewrite Hs, Hn. fold n b.
  destruct (Labels pod !! kb_label) as [l|]; [|exists 100; naive_solver].
  destruct (pod_level_max pod b n) as [Hr HF].
  eexists (match pod_level pod b n with
           | 0 => 100 | 1 => level_score 51 b n | 2 => level_score 1 b n | _ => 0 end).
  split_and!.
  - set (lv := pod_level pod b n) in *.
    destruct (decide (lv = 0)) as [->|]; [done|]. destruct (decide (lv = 1)) as [->|]; [done|].
    destruct (decide (lv = 2)) as [->|]; [done|]. replace lv with 3 by lia. done.
  - done.
  - intros Hle. replace (pod_level pod b n) with 0; [done|].
    clear Hr HF. unfold pod_level. symmetry. induction (Containers (Spec pod)) as [|c cs IH]; simpl; [done|].
    replace (container_level b n c) with 0 by (unfold container_level, hiceLevel; by rewrite Hle).
    exact IH.
  - intros _. exists (pod_level pod b n). split_and!; [done|done|lia].
Qed.
(** A positive number of an ordinary size, from 2^-948 to 2^853. *)
Definition ordinary (x : float64) : Prop :=
  exists m e, x = S754_finite false m e /\ bounded f64_prec f64_emax m e = true /\ -1000 <= e <= 800.

(** On a slower node the ratio is at most 49, up to rounding. *)
Lemma ratio_within n b :
  f64_nonneg n -> ordinary b -> f64_le b n = false ->
  f64_within (f64_div (f64_mul (f64_of_Z 49) n) b) 99 (-1).
Proof.
  intros Hn (m & e & -> & Hb & He) Hle.
  pose proof (within_of_not_le n m e Hn Hb Hle) as Hw.
  destruct (bounded_cases _ _ Hb) as (Hm & _ & [?|Hm']); [lia|].
  set (c := Zpos m / 64 + 1).
  assert (Zpos m <= c * 64 /\ c * 64 <= Zpos m + 64) as [Hc1 Hc2].
  { unfold c. pose proof (Z.div_mod (Zpos m) 64 ltac:(lia)). pose proof (Z.mod_pos_bound (Zpos m) 64 ltac:(lia)). lia. }
  assert (f64_within n c (e + 6)) as Hw'.
  { eapply f64_within_weaken; [exact Hw| |lia]. rewrite fval_shift by lia. apply fval_le; [lia|]. exact Hc1. }
  assert (f64_within (f64_mul (f64_of_Z 49) n) (49 * c) (0 + (e + 6))) as Hmul.
  { apply f64_mul_within; [apply f64_of_Z_within; lia|done|split; lia|lia..]. }
  rewrite Z.add_0_l in Hmul.
  eapply f64_div_bounded; [exact Hmul|done|split; lia|lia|].
  unfold fval. replace (e + 6 + 3000 + 3000) with (7 + (e + -1 + 3000 + 3000)) by lia.
  rewrite Z.pow_add_r by lia. assert (0 < 2 ^ (e + -1 + 3000 + 3000)) by (apply Z.pow_pos_nonneg; lia).
  change (2 ^ 7) with 128. nia.
Qed.

Lemma level_score_within base n b :
  0 <= base < 1000 -> f64_nonneg n -> ordinary b -> f64_le b n = false ->
  0 <= level_score base b n <= base + 49.
Proof.
  intros Hbase Hn Hb Hle. unfold level_score. apply int64_of_f64_half; [|lia].
  replace (2 * (base + 49) + 1) with (2 * base + 99) by lia.
  apply f64_add_within; [|by apply ratio_within|split; lia|lia..].
  eapply f64_within_weaken; [apply f64_of_Z_within; lia| |lia].
  replace 0 with (-1 + 1) at 1 by lia. rewrite fval_shift by lia. apply fval_le; lia.
Qed.

(** C28. The scores of Hicev2 are legal: when the performance of the node is
    not negative and that of the pod's reference is positive (and of ordinary
    size), the score is from 0 to 100, rounding of the floats included, and
    on a slower node at most 50 as soon as the limit of some container has to
    exceed its whole cores. *)
Theorem Hicev2_Score_legal snap pod nodeName ni node :
  SN_Get snap nodeName = inl ni -> ni_node ni = Some node ->
  f64_nonneg (perf (node_Labels node) kj_label) -> ordinary (perf (Labels pod) kb_label) ->
  exists s, Score snap pod nodeName = Ret (s, None) /\ 0 <= s <= 100 /\
    (is_Some (Labels pod !! kb_label) ->
     2 <= pod_level pod (perf (Labels pod) kb_label) (perf (node_Labels node) kj_label) -> s <= 50).
Proof.
  intros Hs Hnode Hn Hb. unfold Score. rewrite Hs, Hnode.
  set (n := perf (node_Labels node) kj_label) in *. set (b := perf (Labels pod) kb_label) in *.
  destruct (Labels pod !! kb_label) as [l|]; [|exists 100; split_and!; [done|lia|lia|by intros [? ?]]].
  destruct (pod_level_max pod b n) as [Hr HF].
  exists (if pod_level pod b n =? 0 then 100 else if pod_level pod b n =? 1 then level_score 51 b n
          else if pod_level pod b n =? 2 then level_score 1 b n else 0).
  split; [by repeat (case_match; try done)|].
  destruct (f64_le b n) eqn:Hle.
  - assert (pod_level pod b n = 0) as ->; [|simpl; lia].
    clear Hr HF. unfold pod_level. induction (Containers (Spec pod)) as [|c cs IH]; simpl; [done|].
    replace (container_level b n c) with 0 by (unfold container_level, hiceLevel; by rewrite Hle).
    exact IH.
  - pose proof (level_score_within 51 n b ltac:(lia) Hn Hb Hle). pose proof (level_score_within 1 n b ltac:(lia) Hn Hb Hle).
    destruct (Z.eqb_spec (pod_level pod b n) 0); [simpl; lia|].
    destruct (Z.eqb_spec (pod_level pod b n) 1); [simpl; lia|].
    destruct (Z.eqb_spec (pod_level pod b n) 2); simpl; lia.
Qed.
End hicev2_proofs.

(** ** Witnesses and observed behaviour *)

(** A pod that asks for [milli] on a reference node of performance [kb]. *)
Definition perf_pod (uid kb : string) (milli : Z) : Pod :=
  sample_pod "nginx" uid {[kb_label := kb]}
    [sample_container "nginx" "local-registry:5000/test-nginx:latest"
       (cpu_request milli) (cpu_request milli)] [].

Definition perf_node (kj : string) (milli : Z) : Node :=
  sample_node "n1" (<[kj_label := kj]> {[arch_label := "arm64"%string]}) milli.

Definition perf_info (kj : string) (milli : Z) (pods : list Pod) : NodeInfo :=
  let n0 := (NewNodeInfo empty_world).1 in
  let n1 := fold_left (fun n p => (@AddPod amd64 gates_default p n empty_world).1) pods n0 in
  (@SetNode amd64 gates_default (perf_node kj milli) n1 empty_world).1.

Definition perf_snapshot (n : NodeInfo) : Snapshot :=
  mkSnapshot {["n1"%string := n]} ["n1"%string] [] [] 1.

Lemma Hicev2_refines_Fit_witness :
  let f := mkFit ∅ ∅ true in
  let n := perf_info "1.0" 4000 [perf_pod "u0" "1" 3000] in
  @Filter amd64 gates_default New (perf_pod "u1" "1.0" 1000) n = Ret None <->
  Fit_Filter f (@Fit_PreFilter amd64 gates_default f NewCycleState (perf_pod "u1" "1.0" 1000)).1 n = None.
Proof.
  apply (@Hicev2_refines_Fit amd64 gates_default _ _ (perf_node "1.0" 4000)).
  - reflexivity.
  - split_and!; [vm_compute; reflexivity..|]. repeat constructor.
  - destruct (@AddPodInfo_sums amd64 gates_default (NewPodInfo (perf_pod "u0" "1" 3000))
      (NewNodeInfo empty_world).1 empty_world (NewNodeInfo_sums _)). by constructor.
  - repeat constructor.
  - apply res_small_b_ok. vm_compute. reflexivity.
  - apply res_small_b_ok. vm_compute. reflexivity.
  - apply res_small_b_ok. vm_compute. reflexivity.
  - vm_compute. reflexivity.
Defined.

Lemma Hicev2_no_overcommit_witness :
  let n := perf_info "2.0" 4000 [perf_pod "u0" "1.0" 3000] in
  let kj := perf (node_Labels (perf_node "2.0" 4000)) kj_label in
  let n' := (@AddPod amd64 gates_default (perf_pod "u1" "1.0" 5000) n empty_world).1 in
  @hiceNodeRequestedMilliCPU amd64 gates_default n' kj = 4000.
Proof.
  destruct (@Hicev2_no_overcommit amd64 gates_default (perf_pod "u1" "1.0" 5000)
    (perf_info "2.0" 4000 [perf_pod "u0" "1.0" 3000]) (perf_node "2.0" 4000) empty_world) as [H _];
    [reflexivity|by split|vm_compute; split; discriminate|vm_compute; reflexivity
    |vm_compute; split; [discriminate|reflexivity]|vm_compute; reflexivity|].
  etransitivity; [exact H|]. vm_compute. reflexivity.
Defined.

Lemma ConvertPodCpu_spec_witness :
  let kb := (ParseFloat "1.2").1 in
  let kj := (ParseFloat "0.8").1 in
  exists cs', @ConvertPodCpu amd64 (perf_pod "u1" "1.2" 500) kb kj
      = Ret (set_Containers cs' (perf_pod "u1" "1.2" 500)) /\
    Forall2 (@converted amd64 kb kj) (Containers (Spec (perf_pod "u1" "1.2" 500))) cs'.
Proof.
  apply (@ConvertPodCpu_spec amd64). repeat constructor; vm_compute; reflexivity.
Defined.

Lemma Hicev2_Bind_correct_witness :
  let n := perf_info "0.8" 4000 [] in
  exists q, @Bind amd64 etcd_ok sample_codec (perf_snapshot n) sample_store sample_cycle
      (perf_pod "u1" "1.2" 500) "n1"
    = Ret (<[pod_key (perf_pod "u1" "1.2" 500) := @encode_pod sample_codec q]> sample_store, None) /\
    NodeName (Spec q) = "n1"%string.
Proof.
  destruct (@Hicev2_Bind_correct amd64 etcd_ok sample_codec (perf_snapshot (perf_info "0.8" 4000 []))
    sample_store sample_cycle (perf_pod "u1" "1.2" 500) "nginx" (sample_nginx "u1" 500) "n1"
    (perf_info "0.8" 4000 []) (perf_node "0.8" 4000)) as (q & H1 & [_ _ H2 _ _]); try reflexivity.
  - repeat constructor; vm_compute; reflexivity.
  - exists q. split; [exact H1|exact H2].
Defined.

Lemma hiceLevel_spec_witness :
  let b := f64_of_Z 2 in
  exists creq, (1000 | creq) /\ (@hiceLevel amd64 700 900 b f64_one = 3 <-> creq < 1400).
Proof.
  destruct (@hiceLevel_spec amd64 700 900 (f64_of_Z 2) f64_one)
    as (creq & clmt & [_ H1] & _ & _ & _ & H3); [lia|lia|reflexivity|].
  exists creq. split; [exact H1|exact H3].
Defined.

Lemma Hicev2_Score_spec_witness :
  exists s, @Score amd64 (perf_snapshot (perf_info "1.5" 4000 [])) (perf_pod "u1" "1.2" 500) "n1"
    = Ret (s, None) /\ s = 100.
Proof.
  destruct (@Hicev2_Score_spec amd64 (perf_snapshot (perf_info "1.5" 4000 []))
    (perf_pod "u1" "1.2" 500) "n1" (perf_info "1.5" 4000 []) (perf_node "1.5" 4000))
    as (s & H1 & _ & H2 & _); [reflexivity|reflexivity|].
  exists s. split; [exact H1|]. apply H2. vm_compute. reflexivity.
Defined.

(** A pod that is annotated before it is bound is counted without
    conversion while it is in the cache: a node of half the performance whose
    CPU suffices for one such pod admits a second one. *)
Theorem annotated_pods_undercounted :
  let annotated uid := set_Annotations (Some {["team"%string := "a"%string]}) (perf_pod uid "1.0" 500) in
  let n := perf_info "0.5" 1500 [annotated "u0"] in
  let kj := perf (node_Labels (perf_node "0.5" 1500)) kj_label in
  (** what [Bind] writes for the first pod is 1000m *)
  @scale_cpu amd64 500 f64_one kj = 1000 /\
  (** what the filter counts for it is 500m, so that 1000m more seem to fit *)
  @hiceNodeRequestedMilliCPU amd64 gates_default n kj = 500 /\
  @Filter amd64 gates_default New (annotated "u1") n = Ret None /\
  (** without the annotation the second pod is rejected *)
  @Filter amd64 gates_default New (perf_pod "u1" "1.0" 500)
    (perf_info "0.5" 1500 [perf_pod "u0" "1.0" 500]) <> Ret None.
Proof. vm_compute. split_and!; done. Qed.

(** A negative performance label yields a negative score, reported as
    success, outside the range [0, 100] the framework allows. *)
Theorem negative_label_negative_score :
  @Score amd64 (perf_snapshot (perf_info "-2" 4000 [])) (perf_pod "u1" "1.0" 500) "n1"
    = Ret (-47, None).
Proof. vm_compute. reflexivity. Qed.

Lemma Hicev2_Score_legal_witness :
  let snap := perf_snapshot (perf_info "0.5" 4000 []) in
  exists s, @Score amd64 snap (perf_pod "u1" "1.0" 500) "n1" = Ret (s, None) /\ 0 <= s <= 100.
Proof.
  destruct (@Hicev2_Score_legal amd64 (perf_snapshot (perf_info "0.5" 4000 [])) (perf_pod "u1" "1.0" 500) "n1"
    (perf_info "0.5" 4000 []) (perf_node "0.5" 4000)) as (s & H1 & H2 & _).
  - vm_compute. reflexivity.
  - vm_compute. reflexivity.
  - vm_compute. reflexivity.
  - exists 4503599627370496%positive, (-52). split_and!; [vm_compute; reflexivity|vm_compute; reflexivity|lia|lia].
  - exists s. split; [exact H1|exact H2].
Defined.
