(* ===== verification/NodeTree.v ===== *)
(** * The node tree of the scheduler cache

    [internal/cache/node_tree.go]: the names of the nodes by zone, from which
    the order in which nodes are examined is drawn, a node of every zone in
    turn. *)

From S2P Require Import Prelude GoInt GoFloat GoStrconv Quantity ApiTypes Resource Framework.

(** ** Zones (component-helpers/node/topology) *)

Definition LabelFailureDomainBetaZone : string := "failure-domain.beta.kubernetes.io/zone".
Definition LabelTopologyZone : string := "topology.kubernetes.io/zone".
Definition LabelFailureDomainBetaRegion : string := "failure-domain.beta.kubernetes.io/region".
Definition LabelTopologyRegion : string := "topology.kubernetes.io/region".

Definition zone_separator : string := String ":" (String (ascii_of_nat 0) (String ":" "")).

Definition GetZoneKey (node : Node) : string :=
  let labels := node_Labels node in
  let zone := match labels !! LabelFailureDomainBetaZone with
              | Some z => z | None => label labels LabelTopologyZone end in
  let region := match labels !! LabelFailureDomainBetaRegion with
                | Some r => r | None => label labels LabelTopologyRegion end in
  if String.eqb region "" && String.eqb zone "" then ""%string
  else str_app region (str_app zone_separator zone).

(** ** The tree *)

Record nodeTree := mkNodeTree {
  tree : gmap string (list string);
  zones : list string;
  numNodes : Z
}.

Definition addNode (n : Node) (nt : nodeTree) : nodeTree :=
  let zone := GetZoneKey n in
  match tree nt !! zone with
  | Some na =>
      if existsb (fun nodeName => String.eqb nodeName (node_Name n)) na then nt
      else mkNodeTree (<[zone := na ++ [node_Name n]]> (tree nt)) (zones nt) (numNodes nt +₆₄ 1)
  | None =>
      mkNodeTree (<[zone := [node_Name n]]> (tree nt)) (zones nt ++ [zone]) (numNodes nt +₆₄ 1)
  end.

Definition newNodeTree (nodes : list Node) : nodeTree :=
  fold_left (fun nt n => addNode n nt) nodes (mkNodeTree ∅ [] 0).

(** [append(l[:i], l[i+1:]...)] at the first [i] with [l[i] == x] *)
Fixpoint remove_first (x : string) (l : list string) : list string :=
  match l with
  | [] => []
  | y :: l' => if String.eqb y x then l' else y :: remove_first x l'
  end.

Definition removeZone (zone : string) (nt : nodeTree) : nodeTree :=
  mkNodeTree (delete zone (tree nt)) (remove_first zone (zones nt)) (numNodes nt).

Definition not_found_error (name zone : string) : string :=
  str_app "node " (str_app name (str_app " in group " (str_app zone " was not found"))).

Definition removeNode (n : Node) (nt : nodeTree) : nodeTree * error :=
  let zone := GetZoneKey n in
  let not_found := (nt, Some (not_found_error (node_Name n) zone)) in
  match tree nt !! zone with
  | Some na =>
      if existsb (fun nodeName => String.eqb nodeName (node_Name n)) na then
        let na' := remove_first (node_Name n) na in
        let nt' := mkNodeTree (<[zone := na']> (tree nt)) (zones nt) (numNodes nt) in
        let nt' := match na' with [] => removeZone zone nt' | _ => nt' end in
        (mkNodeTree (tree nt') (zones nt') (numNodes nt' -₆₄ 1), None)
      else not_found
  | None => not_found
  end.

(** [updateNode(old, new)]; a [nil] old node has no zone to compare, and
    reaches [removeNode] when the new one is in a zone. *)
Definition updateNode (old : option Node) (new : Node) (nt : nodeTree) : outcome nodeTree :=
  let oldZone := match old with Some o => GetZoneKey o | None => ""%string end in
  if String.eqb oldZone (GetZoneKey new) then Ret nt
  else
    match old with
    | None => Panic nil_panic
    | Some o => Ret (addNode new (removeNode o nt).1)
    end.

(** The inner loop of [list]: one pass over the zones at [nodeIndex]. *)
Definition list_pass (nt : nodeTree) (nodeIndex : nat) (st : list string * nat) : list string * nat :=
  fold_left (fun '(nodesList, numExhausted) zone =>
    let na := default [] (tree nt !! zone) in
    match na !! nodeIndex with
    | None => (nodesList, if (nodeIndex =? length na)%nat then S numExhausted else numExhausted)
    | Some name => (nodesList ++ [name], numExhausted)
    end) (zones nt) st.

(** The outer loop.  Every pass but the last ones visits a new node or a zone
    for the first time after its last node, so that one pass per node and two
    more are enough. *)
Fixpoint list_loop (fuel : nat) (nt : nodeTree) (nodeIndex : nat) (st : list string * nat)
    : option (list string * error) :=
  match fuel with
  | O => None
  | S f =>
      if Z.of_nat (length st.1) <? numNodes nt then
        if (length (zones nt) <=? st.2)%nat
        then Some (st.1, Some "all zones exhausted before reaching count of nodes expected"%string)
        else list_loop f nt (S nodeIndex) (list_pass nt nodeIndex st)
      else Some (st.1, None)
  end.

(** The nodes of the zones, zone after zone. *)
Definition all_nodes (nt : nodeTree) : list string :=
  concat (map (fun z => default [] (tree nt !! z)) (zones nt)).

Definition list_fuel (nt : nodeTree) : nat := S (S (length (all_nodes nt))).

Definition nt_list (nt : nodeTree) : option (list string * error) :=
  match zones nt with
  | [] => Some ([], None)
  | _ => list_loop (list_fuel nt) nt 0 ([], 0%nat)
  end.

(** ** Invariant *)

Record nt_wf (nt : nodeTree) : Prop := {
  wf_zones : NoDup (zones nt);
  wf_dom : forall z, z ∈ zones nt <-> is_Some (tree nt !! z);
  wf_lists : forall z l, tree nt !! z = Some l -> l <> [] /\ NoDup l;
  wf_count : numNodes nt = int64 (Z.of_nat (length (all_nodes nt)))
}.

Lemma existsb_eqb x l : existsb (fun y => String.eqb y x) l = bool_decide (x ∈ l).
Proof.
  apply eq_true_iff_eq. rewrite bool_decide_eq_true, existsb_exists.
  setoid_rewrite <- list_elem_of_In. setoid_rewrite String.eqb_eq. naive_solver.
Qed.

Lemma remove_first_perm x l : x ∈ l -> l ≡ₚ x :: remove_first x l.
Proof.
  induction l as [|y l IH]; simpl; [set_solver|]. intros Hx.
  destruct (String.eqb_spec y x) as [->|Hne]; [done|].
  rewrite (IH ltac:(set_solver)) at 1. apply perm_swap.
Qed.

Lemma remove_first_NoDup x l : NoDup l -> NoDup (remove_first x l).
Proof.
  induction 1 as [|y l Hy Hl IH]; simpl; [constructor|].
  destruct (String.eqb y x); [done|]. constructor; [|done].
  intros Hin. apply Hy. clear -Hin. induction l as [|z l IH]; simpl in *; [done|].
  destruct (String.eqb z x); set_solver.
Qed.

(** Replacing the nodes of one zone of the list. *)
Lemma concat_zones_insert (t : gmap string (list string)) zs z l :
  NoDup zs -> z ∈ zs ->
  concat (map (fun y => default [] (<[z := l]> t !! y)) zs) ++ default [] (t !! z)
  ≡ₚ concat (map (fun y => default [] (t !! y)) zs) ++ l.
Proof.
  induction zs as [|y zs IH]; intros Hnd Hz; [set_solver|]. apply NoDup_cons in Hnd as [Hy Hnd].
  simpl. destruct (decide (y = z)) as [->|Hne].
  - rewrite lookup_insert_eq. simpl.
    assert (map (fun y => default [] (<[z:=l]> t !! y)) zs = map (fun y => default [] (t !! y)) zs) as ->.
    { apply map_ext_in. intros y Hin%list_elem_of_In. rewrite lookup_insert_ne; [done|]. by intros ->. }
    set (c := concat _).
    rewrite (Permutation_app_comm (l ++ c)), (Permutation_app_comm l c). by rewrite app_assoc.
  - rewrite lookup_insert_ne by done. rewrite <- !app_assoc. by rewrite IH by set_solver.
Qed.

Lemma concat_zones_fresh (t : gmap string (list string)) zs z l :
  z ∉ zs ->
  map (fun y => default [] (<[z := l]> t !! y)) zs = map (fun y => default [] (t !! y)) zs.
Proof.
  intros Hz. apply map_ext_in. intros y Hy%list_elem_of_In.
  rewrite lookup_insert_ne; [done|]. by intros ->.
Qed.

Lemma addNode_all_nodes n nt :
  nt_wf nt ->
  addNode n nt = nt \/
  (all_nodes (addNode n nt) ≡ₚ node_Name n :: all_nodes nt /\
   numNodes (addNode n nt) = numNodes nt +₆₄ 1).
Proof.
  intros [Hz Hd Hl Hc]. unfold addNode.
  destruct (tree nt !! GetZoneKey n) as [na|] eqn:E.
  - rewrite existsb_eqb. case_bool_decide as Hin; [by left|right]. split; [|done].
    unfold all_nodes. simpl.
    pose proof (concat_zones_insert (tree nt) (zones nt) (GetZoneKey n) (na ++ [node_Name n]) Hz
      ltac:(by apply Hd)) as Hp.
    rewrite E in Hp. simpl in Hp. apply (Permutation_app_inv_r na).
    rewrite Hp, app_assoc, <- Permutation_cons_append. done.
  - right. split; [|done]. unfold all_nodes. simpl.
    rewrite map_app, concat_app. simpl. rewrite lookup_insert_eq. simpl.
    rewrite concat_zones_fresh; [symmetry; apply Permutation_cons_append|].
    rewrite Hd, E. by intros [].
Qed.

Lemma addNode_wf n nt : nt_wf nt -> nt_wf (addNode n nt).
Proof.
  intros Hwf. pose proof (addNode_all_nodes n nt Hwf) as Hall. destruct Hwf as [Hz Hd Hl Hc].
  destruct Hall as [->|[Hp Hn]]; [by constructor|].
  constructor; [| | |rewrite Hn, Hp, Hc; unfold add64; rewrite int64_add_l; f_equal; simpl; lia].
  - unfold addNode. destruct (tree nt !! GetZoneKey n) as [na|] eqn:E; [by destruct (existsb _ _)|].
    simpl. apply NoDup_app. split_and!; [done| |apply NoDup_singleton].
    intros z Hin. rewrite Hd in Hin. destruct Hin. set_solver.
  - intros z. unfold addNode. destruct (tree nt !! GetZoneKey n) as [na|] eqn:E.
    + destruct (existsb _ _); [done|]. simpl. rewrite Hd, lookup_insert. case_decide as Ez; [|done].
      subst. rewrite E. naive_solver.
    + simpl. rewrite elem_of_app, Hd, list_elem_of_singleton, lookup_insert.
      case_decide; naive_solver.
  - intros z l. unfold addNode. destruct (tree nt !! GetZoneKey n) as [na|] eqn:E.
    + rewrite existsb_eqb. case_bool_decide as Hin; [apply Hl|]. simpl.
      rewrite lookup_insert. case_decide; [|apply Hl]. intros [= <-]. destruct (Hl _ _ E) as [_ Hnd].
      split; [by destruct na|]. apply NoDup_app. split_and!; [done|set_solver|apply NoDup_singleton].
    + simpl. rewrite lookup_insert. case_decide; [|apply Hl]. intros [= <-].
      split; [done|apply NoDup_singleton].
Qed.

Lemma empty_tree_wf : nt_wf (mkNodeTree ∅ [] 0).
Proof.
  constructor; simpl; [constructor| |done|done]. intros z. rewrite lookup_empty.
  split; [set_solver|by intros []].
Qed.

Lemma concat_zones_perm (t : gmap string (list string)) zs zs' :
  zs ≡ₚ zs' ->
  concat (map (fun y => default [] (t !! y)) zs) ≡ₚ concat (map (fun y => default [] (t !! y)) zs').
Proof. intros ->. done. Qed.

Lemma removeNode_all_nodes n nt :
  nt_wf nt ->
  match removeNode n nt with
  | (nt', None) => all_nodes nt ≡ₚ node_Name n :: all_nodes nt' /\ numNodes nt' = numNodes nt -₆₄ 1
  | (nt', Some _) => nt' = nt
  end.
Proof.
  intros [Hz Hd Hl Hc]. unfold removeNode.
  destruct (tree nt !! GetZoneKey n) as [na|] eqn:E; [|done].
  rewrite existsb_eqb. case_bool_decide as Hin; [|done].
  pose proof (remove_first_perm _ _ Hin) as Hna.
  assert (GetZoneKey n ∈ zones nt) as Hzn by (rewrite Hd, E; eauto).
  destruct (remove_first (node_Name n) na) as [|x na'] eqn:Ef; (split; [|done]).
  - unfold all_nodes. simpl. rewrite delete_insert_eq.
    rewrite (concat_zones_perm _ _ _ (remove_first_perm _ _ Hzn)). simpl. rewrite E. simpl.
    apply (remove_first_perm _ _) in Hzn as Hp.
    assert (GetZoneKey n ∉ remove_first (GetZoneKey n) (zones nt)) as Hni.
    { rewrite Hp in Hz. by apply NoDup_cons in Hz as [? _]. }
    assert (map (fun z => default [] (delete (GetZoneKey n) (tree nt) !! z))
              (remove_first (GetZoneKey n) (zones nt))
            = map (fun z => default [] (tree nt !! z)) (remove_first (GetZoneKey n) (zones nt))) as ->.
    { apply map_ext_in. intros y Hy%list_elem_of_In. rewrite lookup_delete_ne; [done|]. by intros <-. }
    by rewrite Hna.
  - unfold all_nodes. simpl.
    pose proof (concat_zones_insert (tree nt) (zones nt) (GetZoneKey n) (x :: na') Hz Hzn) as Hp.
    rewrite E in Hp. simpl in Hp. apply (Permutation_app_inv_r (x :: na')). rewrite <- Hp.
    rewrite Hna at 1. by rewrite <- Permutation_middle.
Qed.

Lemma removeNode_wf n nt : nt_wf nt -> nt_wf (removeNode n nt).1.
Proof.
  intros Hwf. pose proof (removeNode_all_nodes n nt Hwf) as Hall.
  destruct (removeNode n nt) as [nt' [e|]] eqn:Er; simpl; [by subst|].
  destruct Hall as [Hp Hn]. destruct Hwf as [Hz Hd Hl Hc]. unfold removeNode in Er.
  destruct (tree nt !! GetZoneKey n) as [na|] eqn:E; [|done].
  rewrite existsb_eqb in Er. case_bool_decide as Hin; [|done].
  assert (numNodes nt' = int64 (Z.of_nat (length (all_nodes nt')))) as Hcnt.
  { rewrite Hn, Hc, Hp. unfold sub64.
    assert (forall a, int64 (int64 a - 1) = int64 (a - 1)) as Hi
      by (intros a; destruct (int64_congr a) as [k Hk];
          apply (int64_mod_eq _ _ k); lia).
    rewrite Hi. f_equal. simpl. lia. }
  assert (GetZoneKey n ∈ zones nt) as Hzn by (rewrite Hd, E; eauto).
  destruct (remove_first (node_Name n) na) as [|x na'] eqn:Ef; injection Er as <-.
  - pose proof (remove_first_perm _ _ Hzn) as Hpz.
    assert (NoDup (GetZoneKey n :: remove_first (GetZoneKey n) (zones nt))) as Hnd by (by rewrite <- Hpz).
    apply NoDup_cons in Hnd as [Hni Hnd].
    constructor; simpl; [done| | |done].
    + intros z. rewrite delete_insert_eq. destruct (decide (z = GetZoneKey n)) as [->|Hne].
      * rewrite lookup_delete_eq. split; [done|by intros []].
      * rewrite lookup_delete_ne, <- Hd by done.
        assert (z ∈ zones nt <-> z ∈ GetZoneKey n :: remove_first (GetZoneKey n) (zones nt)) as ->
          by (by rewrite <- Hpz). set_solver.
    + intros z l. rewrite delete_insert_eq. intros Hzl. apply lookup_delete_Some in Hzl as [_ Hzl].
      by apply (Hl z).
  - constructor; simpl; [done| | |done].
    + intros z. rewrite Hd, lookup_insert. case_decide as Ez; [|done]. subst. rewrite E. naive_solver.
    + intros z l. rewrite lookup_insert. case_decide; [|apply Hl]. intros [= <-].
      split; [done|]. rewrite <- Ef. apply remove_first_NoDup. by apply (Hl _ _ E).
Qed.

Lemma updateNode_wf old new nt nt' :
  nt_wf nt -> updateNode old new nt = Ret nt' -> nt_wf nt'.
Proof.
  intros Hwf. unfold updateNode. destruct (String.eqb _ _); [by intros [= <-]|].
  destruct old as [o|]; [|done]. intros [= <-]. by apply addNode_wf, removeNode_wf.
Qed.

(** ** The order of the nodes *)

(** The nodes that a pass at index [i] visits. *)
Definition row (nt : nodeTree) (zs : list string) (i : nat) : list string :=
  omap (fun z => default [] (tree nt !! z) !! i) zs.

(** The zones a pass at index [i] finds just exhausted. *)
Definition exhausted_at (nt : nodeTree) (zs : list string) (i : nat) : nat :=
  length (filter (fun z => length (default [] (tree nt !! z)) = i) zs).

Lemma list_pass_spec nt i l e :
  list_pass nt i (l, e) = (l ++ row nt (zones nt) i, (e + exhausted_at nt (zones nt) i)%nat).
Proof.
  unfold list_pass. generalize (zones nt) as zs. intros zs. revert l e.
  induction zs as [|z zs IH]; intros l e; simpl.
  { by rewrite app_nil_r, Nat.add_0_r. }
  unfold row, exhausted_at in *. simpl.
  destruct (default [] (tree nt !! z) !! i) as [name|] eqn:El.
  - rewrite IH. simpl. rewrite <- app_assoc. simpl. f_equal.
    apply lookup_lt_Some in El. by rewrite filter_cons_False by lia.
  - rewrite IH. f_equal. apply lookup_ge_None in El.
    destruct (Nat.eqb_spec i (length (default [] (tree nt !! z)))) as [Ee|Ee].
    + rewrite filter_cons_True by done. simpl. lia.
    + by rewrite filter_cons_False by done.
Qed.

Definition rows (nt : nodeTree) (k : nat) : list string :=
  concat (map (row nt (zones nt)) (seq 0 k)).

Definition exhausted_before (nt : nodeTree) (zs : list string) (k : nat) : nat :=
  length (filter (fun z => (length (default [] (tree nt !! z)) < k)%nat) zs).

Lemma rows_S nt k : rows nt (S k) = rows nt k ++ row nt (zones nt) k.
Proof. unfold rows. rewrite seq_S, map_app, concat_app. simpl. by rewrite app_nil_r. Qed.

Lemma exhausted_before_S nt zs k :
  exhausted_before nt zs (S k) = (exhausted_before nt zs k + exhausted_at nt zs k)%nat.
Proof.
  unfold exhausted_before, exhausted_at. induction zs as [|z zs IH]; simpl; [done|].
  set (n := length (default [] (tree nt !! z))) in *.
  destruct (decide (n < k)%nat); [|destruct (decide (n = k))].
  - rewrite !(filter_cons_True (fun z => _ < _)%nat) by lia. rewrite filter_cons_False by lia. simpl. lia.
  - rewrite (filter_cons_True (fun z => _ < S _)%nat), (filter_cons_False (fun z => _ < k)%nat),
      filter_cons_True by lia. simpl. lia.
  - rewrite !filter_cons_False by lia. done.
Qed.

Lemma interleave_perm {A} (f g : nat -> list A) l :
  concat (map (fun i => f i ++ g i) l) ≡ₚ concat (map f l) ++ concat (map g l).
Proof.
  induction l as [|i l IH]; simpl; [done|]. rewrite IH, <- !app_assoc. f_equiv.
  rewrite !app_assoc. f_equiv. apply Permutation_app_comm.
Qed.

Lemma concat_lookup_take {A} (l : list A) k :
  concat (map (fun i => option_list (l !! i)) (seq 0 k)) = take k l.
Proof.
  induction k as [|k IH]; [done|]. rewrite seq_S, map_app, concat_app, IH. simpl.
  rewrite app_nil_r. destruct (l !! k) as [x|] eqn:E; simpl.
  - symmetry. by apply take_S_r.
  - apply lookup_ge_None in E. rewrite app_nil_r, !take_ge by lia. done.
Qed.

Lemma rows_perm nt zs k :
  concat (map (row nt zs) (seq 0 k)) ≡ₚ
  concat (map (fun z => take k (default [] (tree nt !! z))) zs).
Proof.
  induction zs as [|z zs IH]; simpl.
  - induction (seq 0 k) as [|i l IHl]; simpl; [done|]. exact IHl.
  - rewrite <- IH, <- concat_lookup_take, <- interleave_perm.
    erewrite map_ext; [reflexivity|]. intros i. unfold row. simpl. by destruct (_ !! i).
Qed.

Lemma all_nodes_length nt :
  length (all_nodes nt) = sum_list_with (fun z => length (default [] (tree nt !! z))) (zones nt).
Proof. unfold all_nodes. induction (zones nt) as [|z zs IH]; simpl; [done|]. rewrite length_app. lia. Qed.

Lemma rows_length nt k :
  length (rows nt k) = sum_list_with (fun z => length (default [] (tree nt !! z)) `min` k)%nat (zones nt).
Proof.
  unfold rows. rewrite (rows_perm nt (zones nt) k).
  induction (zones nt) as [|z zs IH]; simpl; [done|]. rewrite length_app, IH, length_take. lia.
Qed.

(** While a zone has a node at index [k] or later, the rows so far are not
    all the nodes and not all zones are exhausted. *)
Lemma rows_unfinished nt k :
  Exists (fun z => k < length (default [] (tree nt !! z)))%nat (zones nt) ->
  (length (rows nt k) < length (all_nodes nt))%nat /\
  (exhausted_before nt (zones nt) k < length (zones nt))%nat.
Proof.
  rewrite rows_length, all_nodes_length. unfold exhausted_before.
  assert (forall zs, sum_list_with (fun z => length (default [] (tree nt !! z)) `min` k)%nat zs
    <= sum_list_with (fun z => length (default [] (tree nt !! z))) zs /\
    length (filter (fun z => length (default [] (tree nt !! z)) < k)%nat zs) <= length zs)%nat as Hle.
  { intros zs. induction zs as [|y zs [I1 I2]]; simpl; [done|]. split; [lia|].
    rewrite filter_cons. case_decide; simpl; lia. }
  induction 1 as [z zs Hz|z zs _ [I1 I2]]; simpl.
  - destruct (Hle zs). rewrite filter_cons_False by lia. lia.
  - split; [lia|]. rewrite filter_cons. case_decide; simpl; lia.
Qed.

(** When no zone has, the rows so far are all the nodes. *)
Lemma rows_finished nt k :
  Forall (fun z => length (default [] (tree nt !! z)) <= k)%nat (zones nt) ->
  rows nt k ≡ₚ all_nodes nt.
Proof.
  intros Hk. unfold rows, all_nodes. rewrite rows_perm.
  induction Hk as [|z zs Hz _ IH]; simpl; [done|]. by rewrite IH, take_ge.
Qed.

Lemma all_nodes_bound nt z :
  z ∈ zones nt -> (length (default [] (tree nt !! z)) <= length (all_nodes nt))%nat.
Proof.
  rewrite all_nodes_length. induction (zones nt) as [|y zs IH]; [set_solver|].
  rewrite elem_of_cons. simpl. intros [<-|Hz]; [lia|]. specialize (IH Hz). lia.
Qed.

Lemma list_loop_spec nt fuel k :
  numNodes nt = Z.of_nat (length (all_nodes nt)) ->
  (k <= length (all_nodes nt) < fuel + k)%nat ->
  exists j, list_loop fuel nt k (rows nt k, exhausted_before nt (zones nt) k) = Some (rows nt j, None) /\
            rows nt j ≡ₚ all_nodes nt.
Proof.
  intros Hn. revert k. induction fuel as [|f IH]; intros k Hf; [lia|].
  cbn [list_loop fst snd]. rewrite Hn.
  destruct (decide (Exists (fun z => k < length (default [] (tree nt !! z)))%nat (zones nt))) as [He|He].
  - destruct (rows_unfinished nt k He) as [H1 H2].
    destruct (Z.ltb_spec (Z.of_nat (length (rows nt k))) (Z.of_nat (length (all_nodes nt)))); [|lia].
    destruct (Nat.leb_spec (length (zones nt)) (exhausted_before nt (zones nt) k)); [lia|].
    rewrite list_pass_spec, <- rows_S, <- exhausted_before_S. apply IH.
    apply Exists_exists in He as (z & Hz & Hlt). pose proof (all_nodes_bound nt z Hz). lia.
  - assert (rows nt k ≡ₚ all_nodes nt) as Hp.
    { apply rows_finished. rewrite <- Forall_Exists_neg in He.
      eapply Forall_impl; [exact He|]. simpl. lia. }
    rewrite (Permutation_length Hp), Z.ltb_irrefl. by exists k.
Qed.

Lemma nt_list_wf nt :
  nt_wf nt -> Z.of_nat (length (all_nodes nt)) <= MaxInt64 ->
  exists l, nt_list nt = Some (l, None) /\ l ≡ₚ all_nodes nt.
Proof.
  intros [_ _ _ Hc] Hb. unfold nt_list. destruct (zones nt) as [|z zs] eqn:Ez.
  - exists []. unfold all_nodes. by rewrite Ez.
  - rewrite int64_id in Hc by (int_unfold; lia).
    destruct (list_loop_spec nt (list_fuel nt) 0 Hc) as (j & Hj & Hp); [unfold list_fuel; lia|].
    replace (exhausted_before nt (zones nt) 0) with 0%nat in Hj.
    + exists (rows nt j). by split.
    + unfold exhausted_before. clear. induction (zones nt) as [|y ys IH]; [done|].
      rewrite filter_cons_False by lia. done.
Qed.

(** ** Reachable trees *)

Inductive nt_step : nodeTree -> nodeTree -> Prop :=
| nt_step_add n nt : nt_step nt (addNode n nt)
| nt_step_remove n nt : nt_step nt (removeNode n nt).1
| nt_step_update old new nt nt' : updateNode old new nt = Ret nt' -> nt_step nt nt'.

Inductive nt_reachable : nodeTree -> Prop :=
| nt_reach_new nodes : nt_reachable (newNodeTree nodes)
| nt_reach_step nt nt' : nt_reachable nt -> nt_step nt nt' -> nt_reachable nt'.

Lemma newNodeTree_wf nodes : nt_wf (newNodeTree nodes).
Proof.
  unfold newNodeTree. generalize empty_tree_wf. generalize (mkNodeTree ∅ [] 0) as nt.
  induction nodes as [|n nodes IH]; intros nt Hwf; simpl; [done|]. by apply IH, addNode_wf.
Qed.

Lemma nt_reachable_wf nt : nt_reachable nt -> nt_wf nt.
Proof.
  induction 1 as [nodes|nt nt' _ IH Hs]; [apply newNodeTree_wf|].
  destruct Hs as [n nt|n nt|old new nt nt' Hu];
    [by apply addNode_wf|by apply removeNode_wf|by eapply updateNode_wf].
Qed.

(** On every tree the operations can build, [list] terminates without
    error and yields every node of every zone exactly as often as the tree
    holds it; no zone is empty or listed twice. *)
Theorem nodeTree_list_correct nt :
  nt_reachable nt -> Z.of_nat (length (all_nodes nt)) <= MaxInt64 ->
  NoDup (zones nt) /\ (forall z l, tree nt !! z = Some l -> l <> [] /\ NoDup l) /\
  exists l, nt_list nt = Some (l, None) /\ l ≡ₚ all_nodes nt.
Proof.
  intros Hr Hb. apply nt_reachable_wf in Hr as Hwf.
  split_and!; [by apply wf_zones|by apply wf_lists|by apply nt_list_wf].
Qed.

Definition zone_node (name zone : string) : Node :=
  mkNode name {[LabelTopologyZone := zone]} [] false ∅ [] [].

Lemma nodeTree_list_correct_witness :
  exists l, nt_list (newNodeTree [zone_node "a" "z1"; zone_node "b" "z1"; zone_node "c" "z2"])
    = Some (l, None) /\ l ≡ₚ ["a"; "b"; "c"]%string.
Proof.
  apply (nodeTree_list_correct (newNodeTree [zone_node "a" "z1"; zone_node "b" "z1"; zone_node "c" "z2"]));
    [constructor|vm_compute; discriminate].
Defined.

(** The zones take turns. *)
Example nt_list_example :
  nt_list (newNodeTree [zone_node "a" "z1"; zone_node "b" "z1"; zone_node "c" "z2"])
    = Some (["a"; "c"; "b"]%string, None).
Proof. vm_compute. reflexivity. Qed.
