(* ===== verification/HeapList.v ===== *)
(** * Binary heaps in a slice: Go's [container/heap]

    The sift operations of the standard library on a list, and their
    correctness for any ordering that is a strict weak order. *)

From S2P Require Import Prelude.

(** What a heap needs of its comparison. *)
Class LessOrder {A} (less : A -> A -> bool) := {
  less_asym x y : less x y = true -> less y x = false;
  less_negtrans x y z : less x y = false -> less y z = false -> less x z = false
}.

Section heap_list.
Context {A : Type} (less : A -> A -> bool).
Open Scope nat_scope.

(** [Less(i, j)] and [Swap(i, j)]; the callers keep the indices in range. *)
Definition lessi (l : list A) (i j : nat) : bool :=
  match l !! i, l !! j with Some x, Some y => less x y | _, _ => false end.

Definition swap (i j : nat) (l : list A) : list A :=
  match l !! i, l !! j with Some x, Some y => <[i := y]> (<[j := x]> l) | _, _ => l end.

(** [(j - 1) / 2], which is 0 at 0. *)
Definition parent (j : nat) : nat := (j - 1) / 2.

Fixpoint up (fuel : nat) (l : list A) (j : nat) : list A :=
  match fuel with
  | O => l
  | S f =>
      let i := parent j in
      if (i =? j) || negb (lessi l j i) then l else up f (swap i j l) i
  end.

(** The child [down] compares with: the smaller one. *)
Definition min_child (l : list A) (i n : nat) : nat :=
  let j1 := 2 * i + 1 in
  let j2 := j1 + 1 in
  if (j2 <? n) && lessi l j2 j1 then j2 else j1.

Fixpoint down (fuel : nat) (l : list A) (i n : nat) : list A * nat :=
  match fuel with
  | O => (l, i)
  | S f =>
      if n <=? 2 * i + 1 then (l, i)
      else
        let j := min_child l i n in
        if negb (lessi l j i) then (l, i) else down f (swap i j l) j n
  end.

(** ** Swapping *)

Lemma swap_length i j l : length (swap i j l) = length l.
Proof. unfold swap. repeat case_match; rewrite ?length_insert; done. Qed.

Lemma swap_lookup i j l k :
  i < length l -> j < length l ->
  swap i j l !! k = if decide (k = i) then l !! j else if decide (k = j) then l !! i else l !! k.
Proof.
  intros Hi Hj. unfold swap.
  destruct (lookup_lt_is_Some_2 l i Hi) as [x Ex], (lookup_lt_is_Some_2 l j Hj) as [y Ey].
  rewrite Ex, Ey. case_decide as Hk; [subst; by rewrite list_lookup_insert_eq by (by rewrite length_insert)|].
  rewrite list_lookup_insert_ne by done.
  case_decide as Hk2; [subst; by rewrite list_lookup_insert_eq|]. by rewrite list_lookup_insert_ne.
Qed.

Lemma swap_perm i j l : swap i j l ≡ₚ l.
Proof.
  unfold swap. destruct (l !! i) as [x|] eqn:Ex; [|done]. destruct (l !! j) as [y|] eqn:Ey; [|done].
  destruct (decide (i = j)) as [->|Hij].
  - rewrite list_insert_insert_eq. rewrite list_insert_id; [done|]. congruence.
  - apply Permutation_inj. split.
    { by rewrite !length_insert. }
    exists (fun k => if decide (k = i) then j else if decide (k = j) then i else k). split.
    { intros a b. repeat case_decide; lia. }
    intros k. apply lookup_lt_Some in Ex as Hi. apply lookup_lt_Some in Ey as Hj.
    case_decide as H1; [subst; rewrite list_lookup_insert_eq by (by rewrite length_insert); done|].
    rewrite list_lookup_insert_ne by done. case_decide as H2; [subst; by rewrite list_lookup_insert_eq|].
    by rewrite list_lookup_insert_ne.
Qed.

Lemma up_perm f l j : up f l j ≡ₚ l.
Proof.
  revert l j. induction f as [|f IH]; intros l j; simpl; [done|].
  destruct (_ || _); [done|]. by rewrite IH, swap_perm.
Qed.

Lemma down_perm f l i n : (down f l i n).1 ≡ₚ l.
Proof.
  revert l i. induction f as [|f IH]; intros l i; simpl; [done|].
  destruct (n <=? _); [done|]. destruct (negb _); [done|]. by rewrite IH, swap_perm.
Qed.

(** ** Heap order *)

Context `{!LessOrder less}.

Definition le (x y : A) : Prop := less y x = false.

Lemma le_refl x : le x x.
Proof. unfold le. destruct (less x x) eqn:E; [|done]. pose proof (less_asym _ _ E). congruence. Qed.

Lemma le_trans x y z : le x y -> le y z -> le x z.
Proof. unfold le. intros H1 H2. by apply (less_negtrans z y x). Qed.

(** The elements at two indices are in order. *)
Definition le_at (l : list A) (i j : nat) : Prop :=
  forall x y, l !! i = Some x -> l !! j = Some y -> le x y.

Lemma lessi_false l i j : lessi l j i = false -> le_at l i j.
Proof. unfold lessi, le_at, le. intros H x y Ex Ey. by rewrite Ex, Ey in H. Qed.

Lemma lessi_true l i j : lessi l j i = true -> le_at l j i.
Proof. unfold lessi, le_at, le. intros H x y Ex Ey. rewrite Ex, Ey in H. by apply less_asym. Qed.

Lemma le_at_trans l i j k : j < length l -> le_at l i j -> le_at l j k -> le_at l i k.
Proof.
  intros Hj H1 H2 x z Ex Ez. destruct (lookup_lt_is_Some_2 l j Hj) as [y Ey].
  eapply le_trans; [by apply H1|by apply H2].
Qed.

(** The first [n] elements are a heap. *)
Definition heap_at (l : list A) (n : nat) : Prop := forall k, 0 < k < n -> le_at l (parent k) k.

(** They are a heap but for the element at [i], which stands in no relation
    to its parent and its children. *)
Definition hole (l : list A) (n i : nat) : Prop :=
  (forall k, 0 < k < n -> k <> i -> parent k <> i -> le_at l (parent k) k) /\
  (forall k, 0 < k < n -> parent k = i -> 0 < i -> le_at l (parent i) k).

(** The element at [i] is in order with its children. *)
Definition above_children (l : list A) (n i : nat) : Prop :=
  forall k, 0 < k < n -> parent k = i -> le_at l i k.

Lemma parent_lt k : 0 < k -> parent k < k.
Proof. intros. unfold parent. apply Nat.Div0.div_lt_upper_bound. lia. Qed.

Lemma parent_child k i : 0 < k -> parent k = i <-> k = 2 * i + 1 \/ k = 2 * i + 2.
Proof.
  intros Hk. unfold parent. pose proof (Nat.div_mod_eq (k - 1) 2).
  pose proof (Nat.mod_upper_bound (k - 1) 2). lia.
Qed.

Lemma heap_hole l n i : heap_at l n -> hole l n i.
Proof.
  intros H. split; [auto|]. intros k Hk Hp Hi x z Ex Ez.
  assert (i < length l) as Hil.
  { subst. apply lookup_lt_Some in Ez. pose proof (parent_lt k). lia. }
  revert x z Ex Ez. apply (le_at_trans l (parent i) i k Hil).
  - apply H. pose proof (parent_lt k). lia.
  - rewrite <- Hp. apply H. lia.
Qed.

Lemma hole_above_heap l n i :
  hole l n i -> above_children l n i -> (0 < i -> le_at l (parent i) i) -> heap_at l n.
Proof.
  intros [H1 _] H2 H3 k Hk. destruct (decide (k = i)) as [->|]; [apply H3; lia|].
  destruct (decide (parent k = i)) as [<-|]; [by apply H2|by apply H1].
Qed.

(** ** Sifting up and down *)

Lemma up_heap n f l j :
  n <= length l -> j < n -> j <= f -> hole l n j -> above_children l n j -> heap_at (up f l j) n.
Proof.
  revert l j. induction f as [|f IH]; intros l j Hn Hj Hf Hh Ha; simpl.
  { eapply hole_above_heap; [done..|lia]. }
  destruct (Nat.eqb_spec (parent j) j) as [Ep|Ep]; simpl.
  { eapply hole_above_heap; [done..|]. intros H0. pose proof (parent_lt j H0). lia. }
  assert (0 < j) as H0 by (destruct j; [done|lia]). pose proof (parent_lt j H0) as Hp.
  destruct (lessi l j (parent j)) eqn:El; simpl.
  2:{ eapply hole_above_heap; [done..|]. intros _. by apply lessi_false. }
  apply lessi_true in El. set (i := parent j) in *. destruct Hh as [H1 H2].
  assert (forall k, swap i j l !! k =
    if decide (k = i) then l !! j else if decide (k = j) then l !! i else l !! k) as Hs
    by (intros k; apply swap_lookup; lia).
  apply IH; [by rewrite swap_length|lia|lia| |].
  - split.
    + intros k Hk Hki Hpi x y. rewrite !Hs.
      rewrite (decide_False (P := parent k = i)), (decide_False (P := k = i)) by done.
      destruct (decide (k = j)) as [->|Hkj]; [done|].
      case_decide as Hpk; [|apply H1; [lia|done|done]].
      intros Ex. apply H2; [lia|done|done|done].
    + intros k Hk Hki Hi0 x y. pose proof (parent_lt i Hi0). rewrite !Hs.
      rewrite (decide_False (P := parent i = i)), (decide_False (P := parent i = j)) by lia.
      pose proof (parent_lt k). rewrite (decide_False (P := k = i)) by lia.
      case_decide as Hkj.
      * apply H1; lia.
      * apply (le_at_trans l (parent i) i k); [lia|apply H1; lia|]. rewrite <- Hki. apply H1; lia.
  - intros k Hk Hki x y. rewrite !Hs. rewrite decide_True by done. pose proof (parent_lt k).
    rewrite decide_False by lia. case_decide as Hkj; [apply El|].
    apply (le_at_trans l j i k); [lia|done|]. rewrite <- Hki. apply H1; lia.
Qed.

Lemma min_child_spec l i n :
  2 * i + 1 < n -> n <= length l ->
  let j := min_child l i n in
  0 < j < n /\ parent j = i /\ i < j /\ forall k, 0 < k < n -> parent k = i -> le_at l j k.
Proof.
  intros Hi Hn j. unfold j, min_child.
  set (j1 := 2 * i + 1) in *. assert (parent j1 = i) as P1 by (apply parent_child; lia).
  assert (parent (j1 + 1) = i) as P2 by (apply parent_child; lia).
  destruct (Nat.ltb_spec (j1 + 1) n) as [Hj2|Hj2]; simpl.
  - destruct (lessi l (j1 + 1) j1) eqn:El; (split_and!; [lia|lia|done|lia|]); intros k Hk Hpk;
      apply parent_child in Hpk as [-> | ->]; try lia; fold j1; replace (2 * i + 2) with (j1 + 1) by lia.
    + by apply lessi_true.
    + intros x y Ex Ey. replace y with x by congruence. apply le_refl.
    + intros x y Ex Ey. replace y with x by congruence. apply le_refl.
    + by apply lessi_false.
  - split_and!; [lia|lia|done|lia|]. intros k Hk Hpk. apply parent_child in Hpk as [-> | ->]; try lia. fold j1.
    intros x y Ex Ey. replace y with x by congruence. apply le_refl.
Qed.

Lemma down_hole n f l i :
  n <= length l -> i < n -> n <= f + i -> hole l n i ->
  let r := down f l i n in
  length r.1 = length l /\ i <= r.2 < n /\ hole r.1 n r.2 /\ above_children r.1 n r.2 /\
  (r.2 = i -> r.1 = l) /\ (i < r.2 -> le_at r.1 (parent r.2) r.2).
Proof.
  revert l i. induction f as [|f IH]; intros l i Hn Hi Hf Hh; [lia|]. simpl.
  change (i + (i + 0)) with (2 * i).
  destruct (Nat.leb_spec n (2 * i + 1)) as [Hc|Hc]; simpl.
  { split_and!; try done; try lia. intros k Hk Hp%parent_child; lia. }
  destruct (min_child_spec l i n Hc Hn) as (Hj & Hpj & Hij & Hmin).
  set (j := min_child l i n) in *.
  destruct (lessi l j i) eqn:El; simpl.
  2:{ apply lessi_false in El. split_and!; try done; try lia. intros k Hk Hp.
      apply (le_at_trans l i j k); [lia|done|by apply Hmin]. }
  apply lessi_true in El. destruct Hh as [H1 H2].
  assert (forall k, swap i j l !! k =
    if decide (k = i) then l !! j else if decide (k = j) then l !! i else l !! k) as Hs
    by (intros k; apply swap_lookup; lia).
  assert (hole (swap i j l) n j) as Hh'.
  { split.
    - intros k Hk Hkj Hpk x y. rewrite !Hs. pose proof (parent_lt k).
      rewrite (decide_False (P := parent k = j)), (decide_False (P := k = j)) by done.
      destruct (decide (k = i)) as [->|Hki].
      + rewrite decide_False by lia. apply H2; lia.
      + case_decide as Hpi; [by apply Hmin|]. by apply H1.
    - intros k Hk Hpk _ x y. rewrite !Hs. pose proof (parent_lt k).
      rewrite decide_True by done. rewrite !decide_False by lia.
      rewrite <- Hpk. apply H1; lia. }
  destruct (IH (swap i j l) j) as (L & R & Hole & Above & Same & Moved);
    [by rewrite swap_length|lia|lia|done|].
  set (r := down f (swap i j l) j n) in *. rewrite swap_length in L.
  split_and!; try done; try lia. intros _.
  destruct (decide (r.2 = j)) as [E|E]; [|apply Moved; lia].
  rewrite (Same E), E, Hpj. intros x y. rewrite !Hs. rewrite decide_True, decide_False, decide_True by lia.
  apply El.
Qed.

(** [heap.Fix]: [down], and [up] when that did not move the element. *)
Definition fix_ (l : list A) (i n : nat) : list A :=
  let r := down n l i n in
  if i <? r.2 then r.1 else up n r.1 i.

Lemma fix_heap l i n :
  n <= length l -> i < n -> hole l n i -> heap_at (fix_ l i n) n /\ length (fix_ l i n) = length l.
Proof.
  intros Hn Hi Hh. unfold fix_.
  destruct (down_hole n n l i) as (L & R & Hole & Above & Same & Moved); [lia|done|lia|done|].
  set (r := down n l i n) in *. destruct (Nat.ltb_spec i r.2) as [Hm|Hm].
  - split; [|done]. eapply hole_above_heap; [done..|]. intros _. by apply Moved.
  - assert (r.2 = i) as E by lia. rewrite E in *. split.
    + apply up_heap; [lia|done|lia|done|done].
    + rewrite (Permutation_length (up_perm n r.1 i)). done.
Qed.

Lemma fix_perm l i n : fix_ l i n ≡ₚ l.
Proof.
  unfold fix_. destruct (i <? _); [apply down_perm|].
  etransitivity; [apply up_perm|apply down_perm].
Qed.

(** The root of a heap is a least element. *)
Lemma heap_root_min l n k : n <= length l -> heap_at l n -> k < n -> le_at l 0 k.
Proof.
  intros Hn Hh. induction k as [k IH] using lt_wf_ind. intros Hk.
  destruct (decide (k = 0)) as [->|H0].
  { intros x y Ex Ey. replace y with x by congruence. apply le_refl. }
  pose proof (parent_lt k ltac:(lia)).
  apply (le_at_trans l 0 (parent k) k); [lia|apply IH; lia|apply Hh; lia].
Qed.

(** Outside its range [fix_] changes nothing. *)
Lemma down_beyond n f l i k : n <= length l -> i < n -> n <= k -> (down f l i n).1 !! k = l !! k.
Proof.
  revert l i. induction f as [|f IH]; intros l i Hn Hi Hk; simpl; [done|].
  change (i + (i + 0)) with (2 * i). destruct (Nat.leb_spec n (2 * i + 1)); [done|].
  destruct (min_child_spec l i n) as (Hj & _); [done|done|].
  destruct (negb _); [done|]. rewrite IH; [|by rewrite swap_length|lia|done].
  rewrite swap_lookup by lia. by rewrite !decide_False by lia.
Qed.

Lemma up_beyond n f l j k : n <= length l -> j < n -> n <= k -> up f l j !! k = l !! k.
Proof.
  revert l j. induction f as [|f IH]; intros l j Hn Hj Hk; simpl; [done|].
  destruct (_ || _) eqn:E; [done|]. apply orb_false_iff in E as [E _]. apply Nat.eqb_neq in E.
  assert (parent j < n) as Hp by (destruct j; [done|pose proof (parent_lt (S j)); lia]).
  rewrite IH; [|by rewrite swap_length|done|done]. rewrite swap_lookup by lia.
  by rewrite !decide_False by lia.
Qed.

Lemma fix_beyond l i n k : n <= length l -> i < n -> n <= k -> fix_ l i n !! k = l !! k.
Proof.
  intros Hn Hi Hk. unfold fix_. destruct (i <? _); [by apply down_beyond|].
  rewrite up_beyond with (n := n); [by apply down_beyond| |done|done].
  by rewrite (Permutation_length (down_perm n l i n)).
Qed.
End heap_list.
