(* ===== verification/Heap.v ===== *)
(** * The keyed heap of the scheduling queue

    [internal/heap/heap.go]: a heap of objects that can also be found,
    updated and deleted by key, on top of [container/heap].  The objects are
    kept in a map with their index in the slice [queue] of keys. *)

From S2P Require Import Prelude Framework HeapList.

Section heap.
Context {A : Type} (lessFunc : A -> A -> bool).

(** [data]; a [heapItem] is a pair of the object and its index. *)
Record data := mkData {
  items : gmap string (A * nat);
  queue : list string
}.

Definition item_at (h : data) (i : nat) : option (A * nat) :=
  match queue h !! i with Some k => items h !! k | None => None end.

(** [Less]; the library only passes indices in range. *)
Definition d_Less (h : data) (i j : nat) : bool :=
  match item_at h i, item_at h j with
  | Some itemi, Some itemj => lessFunc itemi.1 itemj.1
  | _, _ => false
  end.

Definition d_Len (h : data) : nat := length (queue h).

(** [h.items[h.queue[i]].index = i] *)
Definition set_index (h : data) (i : nat) : data :=
  match queue h !! i with
  | Some k => mkData (alter (fun it => (it.1, i)) k (items h)) (queue h)
  | None => h
  end.

Definition d_Swap (h : data) (i j : nat) : data :=
  let h := mkData (items h) (swap i j (queue h)) in
  set_index (set_index h i) j.

Definition d_Push (h : data) (key : string) (obj : A) : data :=
  mkData (<[key := (obj, d_Len h)]> (items h)) (queue h ++ [key]).

(** [Pop] takes the last element off. *)
Definition d_Pop (h : data) : outcome (data * option A) :=
  match last (queue h) with
  | None => Panic "index out of range [-1]"
  | Some key =>
      let q := take (length (queue h) - 1) (queue h) in
      match items h !! key with
      | None => Ret (mkData (items h) q, None)
      | Some item => Ret (mkData (delete key (items h)) q, Some item.1)
      end
  end.

Definition d_Peek (h : data) : option A := fst <$> item_at h 0.

(** ** [container/heap] on [data] *)

Fixpoint d_up (fuel : nat) (h : data) (j : nat) : data :=
  match fuel with
  | O => h
  | S f =>
      let i := parent j in
      if (i =? j)%nat || negb (d_Less h j i) then h else d_up f (d_Swap h i j) i
  end.

Definition d_min_child (h : data) (i n : nat) : nat :=
  let j1 := (2 * i + 1)%nat in
  let j2 := (j1 + 1)%nat in
  if (j2 <? n)%nat && d_Less h j2 j1 then j2 else j1.

Fixpoint d_down (fuel : nat) (h : data) (i n : nat) : data * nat :=
  match fuel with
  | O => (h, i)
  | S f =>
      if (n <=? 2 * i + 1)%nat then (h, i)
      else
        let j := d_min_child h i n in
        if negb (d_Less h j i) then (h, i) else d_down f (d_Swap h i j) j n
  end.

Definition d_Fix (h : data) (i n : nat) : data :=
  let r := d_down n h i n in
  if (i <? r.2)%nat then r.1 else d_up n r.1 i.

Definition heap_Push (h : data) (key : string) (obj : A) : data :=
  let h := d_Push h key obj in
  d_up (d_Len h) h (d_Len h - 1).

Definition heap_Pop (h : data) : outcome (data * option A) :=
  match d_Len h with
  | O => Panic "index out of range [-1]"
  | S n => d_Pop (d_down n (d_Swap h 0 n) 0 n).1
  end.

Definition heap_Remove (h : data) (i : nat) : outcome (data * option A) :=
  let n := (d_Len h - 1)%nat in
  d_Pop (if (n =? i)%nat then h else d_Fix (d_Swap h i n) i n).

(** ** [Heap] *)

Section keyed.
Context (keyFunc : A -> string + string).

Definition key_error (e : string) : string := e.

Definition Heap_Add (h : data) (obj : A) : data * error :=
  match keyFunc obj with
  | inr e => (h, Some (key_error e))
  | inl key =>
      match items h !! key with
      | Some (_, index) =>
          let h := mkData (<[key := (obj, index)]> (items h)) (queue h) in
          (d_Fix h index (d_Len h), None)
      | None => (heap_Push h key obj, None)
      end
  end.

Definition Heap_AddIfNotPresent (h : data) (obj : A) : data * error :=
  match keyFunc obj with
  | inr e => (h, Some (key_error e))
  | inl key =>
      match items h !! key with
      | Some _ => (h, None)
      | None => (heap_Push h key obj, None)
      end
  end.

Definition Heap_Update (h : data) (obj : A) : data * error := Heap_Add h obj.

Definition Heap_Delete (h : data) (obj : A) : outcome (data * error) :=
  match keyFunc obj with
  | inr e => Ret (h, Some (key_error e))
  | inl key =>
      match items h !! key with
      | Some (_, index) => obind (heap_Remove h index) (fun r => Ret (r.1, None))
      | None => Ret (h, Some "object not found"%string)
      end
  end.

Definition Heap_Peek (h : data) : option A := d_Peek h.

Definition Heap_Pop (h : data) : outcome (data * (A + string)) :=
  obind (heap_Pop h) (fun r =>
    Ret (r.1, match r.2 with
              | Some obj => inl obj
              | None => inr "object was removed from heap data"%string end)).

Definition Heap_GetByKey (h : data) (key : string) : option A := fst <$> items h !! key.

Definition Heap_Get (h : data) (obj : A) : option A + string :=
  match keyFunc obj with
  | inr e => inr (key_error e)
  | inl key => inl (Heap_GetByKey h key)
  end.

End keyed.

Definition Heap_List (h : data) : list A := map (fun e => e.2.1) (map_to_list (items h)).
Definition Heap_Len (h : data) : nat := length (queue h).
Definition Heap_New : data := mkData ∅ [].

(** ** The slice and the map agree *)

(** The entries in the order of the slice. *)
Record rep (h : data) (l : list (string * A)) : Prop := {
  rep_queue : queue h = l.*1;
  rep_nodup : NoDup l.*1;
  rep_items : forall k a i, items h !! k = Some (a, i) <-> l !! i = Some (k, a)
}.

Definition lessp (p q : string * A) : bool := lessFunc p.2 q.2.

Lemma rep_item_at h l i : rep h l -> item_at h i = (fun e => (e.2, i)) <$> l !! i.
Proof.
  intros [Hq _ Hi]. unfold item_at. rewrite Hq, list_lookup_fmap.
  destruct (l !! i) as [[k a]|] eqn:E; simpl; [|done]. by apply Hi.
Qed.

Lemma rep_Less h l i j : rep h l -> d_Less h i j = lessi lessp l i j.
Proof.
  intros Hr. unfold d_Less, lessi. rewrite !(rep_item_at h l _ Hr).
  by destruct (l !! i), (l !! j).
Qed.

Lemma rep_Len h l : rep h l -> d_Len h = length l.
Proof. intros [Hq _ _]. unfold d_Len. by rewrite Hq, length_fmap. Qed.

Lemma swap_fmap {X Y} (f : X -> Y) i j l : swap i j (f <$> l) = f <$> swap i j l.
Proof.
  unfold swap. rewrite !list_lookup_fmap.
  destruct (l !! i), (l !! j); simpl; try done. by rewrite !list_fmap_insert.
Qed.

Lemma rep_unique h l x y k a b :
  rep h l -> l !! x = Some (k, a) -> l !! y = Some (k, b) -> x = y.
Proof.
  intros [_ Hn _] Hx Hy. eapply (NoDup_lookup l.*1); [done|..];
    rewrite list_lookup_fmap; [by rewrite Hx|by rewrite Hy].
Qed.

Lemma d_Swap_items h l i j ki ai kj aj :
  rep h l -> l !! i = Some (ki, ai) -> l !! j = Some (kj, aj) ->
  items (d_Swap h i j) = alter (fun it => (it.1, j)) ki (alter (fun it => (it.1, i)) kj (items h)) /\
  queue (d_Swap h i j) = (swap i j l).*1.
Proof.
  intros [Hq _ _] Ei Ej. apply lookup_lt_Some in Ei as Hi. apply lookup_lt_Some in Ej as Hj.
  assert (swap i j (queue h) = (swap i j l).*1) as Hs by (rewrite Hq; apply swap_fmap).
  assert ((swap i j l).*1 !! i = Some kj) as Hsi
    by (rewrite list_lookup_fmap, swap_lookup, decide_True, Ej by done; done).
  assert ((swap i j l).*1 !! j = Some ki) as Hsj.
  { rewrite list_lookup_fmap, swap_lookup by done. case_decide as E; [subst|rewrite decide_True by done];
      [rewrite Ej; simpl; congruence|by rewrite Ei]. }
  unfold d_Swap, set_index. cbn [queue items]. rewrite Hs, Hsi. cbn [queue items]. by rewrite Hsj.
Qed.

Lemma rep_Swap h l i j :
  rep h l -> (i < length l)%nat -> (j < length l)%nat -> rep (d_Swap h i j) (swap i j l).
Proof.
  intros Hr Hi Hj.
  destruct (lookup_lt_is_Some_2 l i Hi) as [[ki ai] Ei], (lookup_lt_is_Some_2 l j Hj) as [[kj aj] Ej].
  destruct (d_Swap_items h l i j ki ai kj aj Hr Ei Ej) as [Hit Hq].
  constructor; [done|rewrite (swap_perm i j l); by destruct Hr|].
  intros k a x. rewrite Hit, swap_lookup by done. pose proof (rep_items _ _ Hr) as Hit0.
  pose proof (proj2 (Hit0 ki ai i) Ei) as Iki. pose proof (proj2 (Hit0 kj aj j) Ej) as Ikj.
  destruct (decide (k = ki)) as [->|Hki].
  - rewrite lookup_alter_eq. destruct (decide (ki = kj)) as [->|Hkk].
    + assert (i = j) as -> by (eapply rep_unique; done).
      rewrite lookup_alter_eq, Ikj. simpl. split.
      * intros [= -> ->]. by rewrite decide_True.
      * case_decide as Hx; [subst; rewrite Ej; congruence|].
        intros Hx2. by destruct (Hx (rep_unique _ _ _ _ _ _ _ Hr Hx2 Ej)).
    + rewrite lookup_alter_ne, Iki by done. simpl. split.
      * intros [= -> ->]. case_decide as Hji; [subst; congruence|]. by rewrite decide_True.
      * case_decide as Hx; [rewrite Ej; congruence|]. case_decide as Hx2; [subst; rewrite Ei; congruence|].
        intros Hx3. by destruct (Hx (rep_unique _ _ _ _ _ _ _ Hr Hx3 Ei)).
  - rewrite lookup_alter_ne by done. destruct (decide (k = kj)) as [->|Hkj].
    + rewrite lookup_alter_eq, Ikj. simpl. split.
      * intros [= -> ->]. by rewrite decide_True.
      * case_decide as Hx; [subst; rewrite Ej; congruence|]. case_decide as Hx2; [rewrite Ei; congruence|].
        intros Hx3. by destruct (Hx2 (rep_unique _ _ _ _ _ _ _ Hr Hx3 Ej)).
    + rewrite lookup_alter_ne, Hit0 by done.
      case_decide; [subst; rewrite Ei, Ej; naive_solver congruence|].
      case_decide; [subst; rewrite Ei, Ej; naive_solver congruence|done].
Qed.

Lemma rep_up f h l j :
  rep h l -> (j < length l)%nat -> rep (d_up f h j) (up lessp f l j).
Proof.
  revert h l j. induction f as [|f IH]; intros h l j Hr Hj; simpl; [done|].
  rewrite (rep_Less h l j (parent j) Hr). destruct (Nat.eqb_spec (parent j) j) as [|Hne]; [done|].
  simpl. destruct (lessi lessp l j (parent j)); simpl; [|done].
  assert (parent j < j)%nat as Hp by (destruct j; [done|apply parent_lt; lia]).
  apply IH; [apply rep_Swap; [done|lia|done]|rewrite swap_length; lia].
Qed.

Lemma rep_min_child h l i n : rep h l -> d_min_child h i n = min_child lessp l i n.
Proof. intros Hr. unfold d_min_child, min_child. by rewrite (rep_Less h l). Qed.

Lemma min_child_range l i n :
  (2 * i + 1 < n)%nat -> (min_child lessp l i n < n)%nat.
Proof.
  intros H. unfold min_child. destruct (Nat.ltb_spec (2 * i + 1 + 1) n); simpl; [|lia].
  destruct (lessi _ _ _ _); lia.
Qed.

Lemma rep_down f h l i n :
  rep h l -> (n <= length l)%nat -> (i < length l)%nat ->
  rep (d_down f h i n).1 (down lessp f l i n).1 /\ (d_down f h i n).2 = (down lessp f l i n).2 /\
  length (down lessp f l i n).1 = length l.
Proof.
  revert h l i. induction f as [|f IH]; intros h l i Hr Hn Hi; [done|].
  cbn [d_down down]. destruct (Nat.leb_spec n (2 * i + 1)) as [|Hc]; [done|].
  rewrite (rep_min_child h l i n Hr), (rep_Less h l _ _ Hr).
  pose proof (min_child_range l i n Hc) as Hm.
  destruct (negb _); [done|].
  destruct (IH (d_Swap h i (min_child lessp l i n)) (swap i (min_child lessp l i n) l)
    (min_child lessp l i n)) as (H1 & H2 & H3);
    [apply rep_Swap; [done|lia|lia]|rewrite swap_length; lia|rewrite swap_length; lia|].
  by rewrite swap_length in H3.
Qed.

Lemma rep_Fix h l i n :
  rep h l -> (n <= length l)%nat -> (i < n)%nat -> rep (d_Fix h i n) (fix_ lessp l i n).
Proof.
  intros Hr Hn Hi. unfold d_Fix, fix_.
  destruct (rep_down n h l i n) as (H1 & H2 & H3); [done|done|lia|].
  rewrite H2. destruct (i <? _)%nat; [done|]. apply rep_up; [done|lia].
Qed.
End heap.
