(* ===== verification/HeapProofs.v ===== *)
(** * The keyed heap implements a priority queue

    Every operation of [internal/heap] keeps the slice, the map of indices
    and the heap order consistent, and acts on the contents, a map from keys
    to objects, as a priority queue should. *)

From S2P Require Import Prelude Framework HeapList Heap.

Section heap_proofs.
Context {A : Type} (keyFunc : A -> string + string) (lessFunc : A -> A -> bool).
Context `{!LessOrder lessFunc}.

Abbreviation lessp := (Heap.lessp lessFunc).

#[local] Instance lessp_order : LessOrder lessp.
Proof.
  split; unfold Heap.lessp; intros; [by apply less_asym|].
  eapply (less_negtrans (less := lessFunc)); eauto.
Qed.

(** The contents, as the clients see them. *)
Definition contents (h : data) : gmap string A := fst <$> items h.

Definition heap_inv (h : data) (l : list (string * A)) : Prop :=
  rep h l /\ heap_at lessp l (length l) /\ Forall (fun e => keyFunc e.2 = inl e.1) l.

Definition hinv (h : data) : Prop := exists l, heap_inv h l.

Lemma contents_rep h l k a : rep h l -> contents h !! k = Some a <-> (k, a) ∈ l.
Proof.
  intros [_ _ Hi]. unfold contents. rewrite lookup_fmap_Some, list_elem_of_lookup. split.
  - intros ([b i] & <- & Hb). exists i. by apply Hi.
  - intros [i Hl]. exists (a, i). split; [done|]. by apply Hi.
Qed.

Lemma contents_perm h l h' l' : rep h l -> rep h' l' -> l' ≡ₚ l -> contents h' = contents h.
Proof.
  intros Hr Hr' Hp. apply map_eq. intros k. apply option_eq. intros a.
  by rewrite (contents_rep h l), (contents_rep h' l'), Hp.
Qed.

Lemma contents_cons h l h' e : rep h l -> rep h' (e :: l) \/ (exists l', rep h' l' /\ l' ≡ₚ e :: l) ->
  contents h' = <[e.1 := e.2]> (contents h) /\ contents h !! e.1 = None.
Proof.
  intros Hr H. assert (exists l', rep h' l' /\ l' ≡ₚ e :: l) as (l' & Hr' & Hp)
    by (destruct H as [H|H]; [by exists (e :: l)|done]). clear H.
  assert (e.1 ∉ l.*1) as Hni.
  { destruct Hr' as [_ Hn _]. rewrite Hp in Hn. by apply NoDup_cons in Hn as [? _]. }
  split.
  - apply map_eq. intros k. apply option_eq. intros a.
    rewrite (contents_rep h' l'), Hp, elem_of_cons by done. destruct e as [ke ae]. simpl in *.
    rewrite lookup_insert. case_decide as Hk; [subst|].
    + split; [|naive_solver]. intros [[= ->]|Hin]; [done|]. destruct Hni.
      apply list_elem_of_fmap. by exists (k, a).
    + rewrite (contents_rep h l) by done. naive_solver.
  - apply eq_None_not_Some. intros [a Ha]. rewrite (contents_rep h l) in Ha by done. destruct Hni.
    apply list_elem_of_fmap. by exists (e.1, a).
Qed.

(** ** Building blocks *)

Lemma d_Push_rep (h : @data A) l key obj :
  rep h l -> items h !! key = None -> rep (d_Push h key obj) (l ++ [(key, obj)]).
Proof.
  intros Hr Hk. pose proof (rep_Len h l Hr) as Hlen. destruct Hr as [Hq Hn Hi].
  assert (key ∉ l.*1) as Hni.
  { intros (e & -> & [i He]%list_elem_of_lookup)%list_elem_of_fmap. destruct e as [k a].
    apply Hi in He. simpl in *. congruence. }
  constructor; simpl.
  - by rewrite Hq, fmap_app.
  - rewrite fmap_app. apply NoDup_app. split_and!; [done|set_solver|apply NoDup_singleton].
  - intros k a i. rewrite Hlen. rewrite lookup_insert. case_decide as Hkk; [subst|].
    + split.
      * intros [= <- <-]. by rewrite list_lookup_middle.
      * intros [Hl|[Hge Hl]]%lookup_app_Some; [apply Hi in Hl; congruence|].
        apply list_lookup_singleton_Some in Hl as [Hz [= ->]]. f_equal. f_equal. lia.
    + rewrite Hi, lookup_app_Some. split; [auto|]. intros [Hl|[_ Hl]]; [done|].
      apply list_lookup_singleton_Some in Hl as [_ [= -> _]]. done.
Qed.

Lemma d_Pop_rep (h : @data A) l k a :
  rep h (l ++ [(k, a)]) -> exists h', d_Pop h = Ret (h', Some a) /\ rep h' l.
Proof.
  intros [Hq Hn Hi].
  assert (items h !! k = Some (a, length l)) as Hk by (apply Hi, list_lookup_middle; done).
  unfold d_Pop. rewrite Hq, fmap_app. simpl. rewrite last_snoc, Hk.
  eexists. split; [reflexivity|]. rewrite fmap_app in Hn. apply NoDup_app in Hn as (Hn & Hd & _).
  constructor; simpl.
  - rewrite length_app, length_fmap. simpl. rewrite Nat.add_sub.
    by rewrite take_app_length' by (by rewrite length_fmap).
  - done.
  - intros k' b i. rewrite lookup_delete_Some, Hi. split.
    + intros [Hne [Hl|[_ Hl]]%lookup_app_Some]; [done|].
      apply list_lookup_singleton_Some in Hl as [_ [= -> _]]. done.
    + intros Hl. split; [|by apply lookup_app_l_Some].
      intros <-. apply (Hd k); [|set_solver]. apply list_elem_of_fmap. exists (k, b).
      split; [done|]. by eapply list_elem_of_lookup_2.
Qed.

Lemma hole_last l x n : heap_at lessp l n -> n = length l -> hole lessp (l ++ [x]) (S n) n.
Proof.
  intros Hh ->. split.
  - intros k Hk Hkn Hp y z. pose proof (parent_lt k).
    rewrite !lookup_app_l by lia. apply Hh. lia.
  - intros k Hk Hp. pose proof (parent_lt k). lia.
Qed.

Lemma hole_insert l i x n :
  heap_at lessp l n -> hole lessp (<[i := x]> l) n i.
Proof.
  intros Hh. destruct (heap_hole lessp l n i Hh) as [_ H2]. split.
  - intros k Hk Hki Hp y z. rewrite !list_lookup_insert_ne by done. by apply Hh.
  - intros k Hk Hp Hi y z. pose proof (parent_lt k). pose proof (parent_lt i Hi).
    rewrite !list_lookup_insert_ne by lia. by apply H2.
Qed.

Lemma hole_swap_last l i n :
  heap_at lessp l (S n) -> S n = length l -> (i < n)%nat -> hole lessp (swap i n l) n i.
Proof.
  intros Hh Hl Hi. destruct (heap_hole lessp l (S n) i Hh) as [_ H2].
  assert (forall k, k <> i -> (k < n)%nat -> swap i n l !! k = l !! k) as Hs.
  { intros k Hk Hkn. rewrite swap_lookup by lia. by rewrite !decide_False by lia. }
  split.
  - intros k Hk Hki Hp y z. pose proof (parent_lt k). rewrite !Hs by lia. apply Hh. lia.
  - intros k Hk Hp Hi0 y z. pose proof (parent_lt k). pose proof (parent_lt i Hi0).
    rewrite !Hs by lia. apply H2; [lia|done|done].
Qed.

Lemma heap_prefix l x n : heap_at lessp (l ++ [x]) n -> (n <= length l)%nat -> heap_at lessp l n.
Proof.
  intros Hh Hn k Hk y z Hy Hz. pose proof (parent_lt k).
  apply (Hh k Hk); by rewrite lookup_app_l by lia.
Qed.

Lemma snoc_inv {B} (l : list B) n x : S n = length l -> l !! n = Some x -> l = take n l ++ [x].
Proof.
  intros Hl Hx. rewrite <- (firstn_all l) at 1. rewrite <- Hl. by apply take_S_r.
Qed.

(** ** The operations *)

Lemma heap_Push_spec h l key obj :
  heap_inv h l -> items h !! key = None -> keyFunc obj = inl key ->
  exists l', heap_inv (heap_Push lessFunc h key obj) l' /\ l' ≡ₚ (key, obj) :: l.
Proof.
  intros (Hr & Hh & Hk) Hnone Hkey. pose proof (d_Push_rep h l key obj Hr Hnone) as Hr'.
  unfold heap_Push. rewrite (rep_Len _ _ Hr'). set (n := length l).
  assert (length (l ++ [(key, obj)]) = S n) as Hlen by (rewrite length_app; simpl; lia).
  rewrite Hlen. replace (S n - 1)%nat with n by lia.
  exists (up lessp (S n) (l ++ [(key, obj)]) n).
  assert (up lessp (S n) (l ++ [(key, obj)]) n ≡ₚ (key, obj) :: l) as Hp
    by (rewrite up_perm; symmetry; apply Permutation_cons_append).
  split; [|done]. split_and!.
  - apply (rep_up lessFunc (S n) _ (l ++ [(key, obj)]) n Hr'). rewrite Hlen. lia.
  - rewrite (Permutation_length Hp). change (length ((key, obj) :: l)) with (S n).
    apply (up_heap lessp); [rewrite Hlen; lia|lia|lia|by apply hole_last|].
    intros k Hkn Hpk. pose proof (parent_lt k). unfold n in *. lia.
  - rewrite Hp. by constructor.
Qed.

Lemma heap_Fix_spec h l key a i obj :
  heap_inv h l -> items h !! key = Some (a, i) -> keyFunc obj = inl key ->
  let h1 := mkData (<[key := (obj, i)]> (items h)) (queue h) in
  hinv (d_Fix lessFunc h1 i (d_Len h1)) /\
  contents (d_Fix lessFunc h1 i (d_Len h1)) = <[key := obj]> (contents h).
Proof.
  intros (Hr & Hh & Hk) Hi Hkey h1. pose proof Hr as [Hq Hn Hit].
  assert (l !! i = Some (key, a)) as Hli by (by apply Hit).
  apply lookup_lt_Some in Hli as Hlt.
  assert (rep h1 (<[i := (key, obj)]> l)) as Hr1.
  { assert ((<[i := (key, obj)]> l).*1 = l.*1) as Hfst.
    { rewrite list_fmap_insert. apply list_insert_id. by rewrite list_lookup_fmap, Hli. }
    constructor; simpl; [by rewrite Hfst|by rewrite Hfst|].
    intros k b x. rewrite lookup_insert. destruct (decide (x = i)) as [->|Hx].
    - rewrite list_lookup_insert_eq by done. case_decide; [subst; naive_solver|].
      rewrite Hit. naive_solver congruence.
    - rewrite list_lookup_insert_ne by done. case_decide as Hkk; [subst|by rewrite Hit].
      split; [naive_solver|]. intros Hlx. by destruct (Hx (rep_unique _ _ _ _ _ _ _ Hr Hlx Hli)). }
  rewrite (rep_Len _ _ Hr1), length_insert.
  destruct (fix_heap lessp (<[i := (key, obj)]> l) i (length l)) as [Hheap Hlen];
    [by rewrite length_insert|done|by apply hole_insert|].
  assert (rep (d_Fix lessFunc h1 i (length l)) (fix_ lessp (<[i := (key, obj)]> l) i (length l))) as Hr2
    by (apply rep_Fix; [done|by rewrite length_insert|done]).
  split.
  - exists (fix_ lessp (<[i := (key, obj)]> l) i (length l)). split_and!; [done| |].
    + rewrite Hlen, length_insert. done.
    + rewrite fix_perm. apply Forall_insert; done.
  - rewrite (contents_perm _ _ _ _ Hr1 Hr2) by apply fix_perm.
    unfold contents, h1. simpl. apply fmap_insert.
Qed.

Lemma heap_Pop_spec h l :
  heap_inv h l -> l <> [] ->
  exists k a h' l', heap_Pop lessFunc h = Ret (h', Some a) /\ heap_inv h' l' /\
    l ≡ₚ (k, a) :: l' /\ Forall (fun e => le lessFunc a e.2) l /\ l !! 0%nat = Some (k, a).
Proof.
  intros (Hr & Hh & Hk) Hne. destruct l as [|[k a] l0] eqn:El; [done|]. rewrite <- El in *.
  assert (l !! 0%nat = Some (k, a)) as H0 by (by rewrite El).
  assert (length l = S (length l0)) as Hlen by (by rewrite El). set (n := length l0) in *.
  unfold heap_Pop. rewrite (rep_Len _ _ Hr), Hlen.
  assert (rep (d_Swap h 0 n) (swap 0 n l)) as Hr1 by (apply (rep_Swap lessFunc); [done|lia|lia]).
  destruct (rep_down lessFunc n _ _ 0 n Hr1) as (Hr2 & _ & Hl2);
    [rewrite swap_length; lia|rewrite swap_length; lia|].
  set (l2 := (down lessp n (swap 0 n l) 0 n).1) in *. rewrite swap_length, Hlen in Hl2.
  assert (heap_at lessp l2 n /\ l2 !! n = Some (k, a)) as [Hh2 Hroot].
  { destruct (decide (n = 0%nat)) as [Hn0|Hn0].
    { split; [intros x Hx; lia|]. unfold l2. rewrite Hn0. simpl. rewrite swap_lookup by lia.
      by rewrite decide_True. }
    split.
    - destruct (down_hole lessp n n (swap 0 n l) 0) as (_ & _ & Hole & Above & _ & Moved);
        [rewrite swap_length; lia|lia|lia|apply hole_swap_last; [by rewrite <- Hlen|lia|lia]|].
      eapply hole_above_heap; [done..|done].
    - unfold l2. rewrite (down_beyond lessp) by (rewrite ?swap_length; lia).
      rewrite swap_lookup by lia. rewrite decide_False, decide_True by lia. done. }
  pose proof (snoc_inv l2 n (k, a) ltac:(lia) Hroot) as Hsnoc.
  rewrite Hsnoc in Hr2. destruct (d_Pop_rep _ _ _ _ Hr2) as (h' & Hpop & Hr').
  exists k, a, h', (take n l2).
  assert (l ≡ₚ (k, a) :: take n l2) as Hperm.
  { transitivity l2; [symmetry; unfold l2; rewrite down_perm; apply swap_perm|].
    rewrite Hsnoc at 1. symmetry. apply Permutation_cons_append. }
  split_and!; [done| |done| |done].
  - split_and!; [done| |].
    + rewrite length_take, Nat.min_l by lia. rewrite Hsnoc in Hh2.
      eapply heap_prefix; [done|]. rewrite length_take. lia.
    + rewrite Hperm in Hk. by apply Forall_cons in Hk as [_ ?].
  - apply Forall_lookup_2. intros i [k' b] Hi. apply lookup_lt_Some in Hi as Hlt.
    exact (heap_root_min lessp l (length l) i ltac:(lia) Hh Hlt _ _ H0 Hi).
Qed.

Lemma heap_Remove_spec h l key a i :
  heap_inv h l -> l !! i = Some (key, a) ->
  exists h' l', heap_Remove lessFunc h i = Ret (h', Some a) /\ heap_inv h' l' /\ l ≡ₚ (key, a) :: l'.
Proof.
  intros (Hr & Hh & Hk) Hi. apply lookup_lt_Some in Hi as Hlt.
  unfold heap_Remove. rewrite (rep_Len _ _ Hr). set (n := (length l - 1)%nat).
  assert (S n = length l) as Hn by lia.
  assert (exists l2, rep (if (n =? i)%nat then h else d_Fix lessFunc (d_Swap h i n) i n) l2 /\
    heap_at lessp l2 n /\ l2 !! n = Some (key, a) /\ l2 ≡ₚ l) as (l2 & Hr2 & Hh2 & Hl2 & Hp2).
  { destruct (Nat.eqb_spec n i) as [->|Hni].
    - exists l. split_and!; [done| |done|done]. intros k Hkk. apply Hh. lia.
    - assert (rep (d_Swap h i n) (swap i n l)) as Hr1 by (apply (rep_Swap lessFunc); [done|lia|lia]).
      assert (hole lessp (swap i n l) n i) as Hhole by (apply hole_swap_last; [by rewrite Hn|done|lia]).
      exists (fix_ lessp (swap i n l) i n).
      destruct (fix_heap lessp (swap i n l) i n) as [Hheap _]; [rewrite swap_length; lia|lia|done|].
      split_and!; [apply rep_Fix; [done|rewrite swap_length; lia|lia]|done| |].
      + rewrite (fix_beyond lessp) by (rewrite ?swap_length; lia). rewrite swap_lookup by lia.
        rewrite decide_False, decide_True by lia. done.
      + by rewrite fix_perm, swap_perm. }
  pose proof (Permutation_length Hp2) as Hlen2.
  pose proof (snoc_inv l2 n (key, a) ltac:(lia) Hl2) as Hsnoc.
  rewrite Hsnoc in Hr2. destruct (d_Pop_rep _ _ _ _ Hr2) as (h' & Hpop & Hr').
  exists h', (take n l2).
  assert (l ≡ₚ (key, a) :: take n l2) as Hperm.
  { rewrite <- Hp2. rewrite Hsnoc at 1. symmetry. apply Permutation_cons_append. }
  split_and!; [done| |done]. split_and!; [done| |].
  - rewrite length_take, Nat.min_l by lia. rewrite Hsnoc in Hh2.
    eapply heap_prefix; [done|]. rewrite length_take. lia.
  - rewrite Hperm in Hk. by apply Forall_cons in Hk as [_ ?].
Qed.

(** ** Refinement *)

Inductive hop := OAdd (a : A) | OAddIfNotPresent (a : A) | OUpdate (a : A) | ODelete (a : A) | OPop | OPeek.
Inductive hres := RErr (e : error) | RPop (r : A + string) | RPeek (o : option A).

Definition run_op (o : hop) (h : @data A) : outcome (data * hres) :=
  match o with
  | OAdd a => let r := Heap_Add lessFunc keyFunc h a in Ret (r.1, RErr r.2)
  | OAddIfNotPresent a => let r := Heap_AddIfNotPresent lessFunc keyFunc h a in Ret (r.1, RErr r.2)
  | OUpdate a => let r := Heap_Update lessFunc keyFunc h a in Ret (r.1, RErr r.2)
  | ODelete a => obind (Heap_Delete lessFunc keyFunc h a) (fun r => Ret (r.1, RErr r.2))
  | OPop => obind (Heap_Pop lessFunc h) (fun r => Ret (r.1, RPop r.2))
  | OPeek => Ret (h, RPeek (Heap_Peek h))
  end.

(** [a] is a least object of the contents. *)
Definition least (m : gmap string A) (k : string) (a : A) : Prop :=
  m !! k = Some a /\ forall k' b, m !! k' = Some b -> lessFunc b a = false.

(** The priority queue: a map from keys to objects. *)
Definition spec_op (o : hop) (m m' : gmap string A) (r : hres) : Prop :=
  match o with
  | OAdd a | OUpdate a =>
      match keyFunc a with
      | inl k => m' = <[k := a]> m /\ r = RErr None
      | inr e => m' = m /\ r = RErr (Some e)
      end
  | OAddIfNotPresent a =>
      match keyFunc a with
      | inl k => m' = (if m !! k then m else <[k := a]> m) /\ r = RErr None
      | inr e => m' = m /\ r = RErr (Some e)
      end
  | ODelete a =>
      match keyFunc a with
      | inl k => m' = delete k m /\
                 r = RErr (if m !! k then None else Some "object not found"%string)
      | inr e => m' = m /\ r = RErr (Some e)
      end
  | OPop => exists k a, least m k a /\ m' = delete k m /\ r = RPop (inl a)
  | OPeek => m' = m /\ exists o, r = RPeek o /\
               match o with None => m = ∅ | Some a => exists k, least m k a end
  end.

Lemma contents_items h k : contents h !! k = fst <$> items h !! k.
Proof. apply lookup_fmap. Qed.

Lemma heap_Push_contents h l key obj :
  heap_inv h l -> items h !! key = None -> keyFunc obj = inl key ->
  hinv (heap_Push lessFunc h key obj) /\
  contents (heap_Push lessFunc h key obj) = <[key := obj]> (contents h).
Proof.
  intros Hi Hn Hk. destruct (heap_Push_spec h l key obj Hi Hn Hk) as (l' & Hi' & Hp).
  split; [by exists l'|].
  apply (contents_cons h l _ (key, obj)); [by destruct Hi|right; exists l'; by destruct Hi'].
Qed.

Lemma heap_Add_ok h l obj :
  heap_inv h l -> hinv (Heap_Add lessFunc keyFunc h obj).1 /\
  match keyFunc obj with
  | inl k => contents (Heap_Add lessFunc keyFunc h obj).1 = <[k := obj]> (contents h) /\
             (Heap_Add lessFunc keyFunc h obj).2 = None
  | inr e => Heap_Add lessFunc keyFunc h obj = (h, Some e)
  end.
Proof.
  intros Hi. unfold Heap_Add. destruct (keyFunc obj) as [k|e] eqn:Ek; [|split; [by exists l|done]].
  destruct (items h !! k) as [[a i]|] eqn:Ei; cbn [fst snd].
  - destruct (heap_Fix_spec h l k a i obj Hi Ei Ek). by split_and!.
  - destruct (heap_Push_contents h l k obj Hi Ei Ek). by split_and!.
Qed.

Lemma heap_empty h l : heap_inv h l -> l = [] <-> contents h = ∅.
Proof.
  intros (Hr & _). split.
  - intros ->. apply map_eq. intros k. apply option_eq. intros a.
    rewrite (contents_rep h []) by done. rewrite lookup_empty. set_solver.
  - intros Hc. destruct l as [|[k a] l]; [done|].
    assert (contents h !! k = Some a) as Hk by (apply (contents_rep h _ k a Hr); left).
    by rewrite Hc in Hk.
Qed.

Lemma contents_delete h l h' l' k a :
  rep h l -> rep h' l' -> l ≡ₚ (k, a) :: l' -> contents h' = delete k (contents h) /\ contents h !! k = Some a.
Proof.
  intros Hr Hr' Hp.
  destruct (contents_cons h' l' h (k, a) Hr') as [Hc Hn]; [right; by exists l|]. simpl in *.
  rewrite Hc, delete_insert_id, lookup_insert_eq by done. done.
Qed.

Lemma heap_Delete_ok h l obj :
  heap_inv h l ->
  exists h', Heap_Delete lessFunc keyFunc h obj = Ret (h', match keyFunc obj with
      | inl k => if contents h !! k then None else Some "object not found"%string
      | inr e => Some e end) /\ hinv h' /\
    contents h' = match keyFunc obj with inl k => delete k (contents h) | inr _ => contents h end.
Proof.
  intros Hi. unfold Heap_Delete. destruct (keyFunc obj) as [k|e] eqn:Ek.
  2:{ exists h. split_and!; [done|by exists l|done]. }
  rewrite contents_items. destruct (items h !! k) as [[a i]|] eqn:Ei; simpl.
  - pose proof Hi as (Hr & _). assert (l !! i = Some (k, a)) as Hli by (by apply (rep_items h l Hr)).
    destruct (heap_Remove_spec h l k a i Hi Hli) as (h' & l' & -> & Hi' & Hp).
    exists h'. split_and!; [done|by exists l'|].
    apply (contents_delete h l h' l' k a); [done|by destruct Hi'|done].
  - exists h. split_and!; [done|by exists l|]. symmetry. apply delete_id.
    rewrite contents_items. by rewrite Ei.
Qed.

Lemma least_intro h l k a :
  rep h l -> contents h !! k = Some a -> Forall (fun e => le lessFunc a e.2) l -> least (contents h) k a.
Proof.
  intros Hr Hk HF. split; [done|]. intros k' b Hb%(contents_rep h l k' b Hr).
  rewrite Forall_forall in HF. apply (HF _ Hb).
Qed.

Lemma heap_Pop_ok h l :
  heap_inv h l -> l <> [] ->
  exists k a h', Heap_Pop lessFunc h = Ret (h', inl a) /\ hinv h' /\ least (contents h) k a /\
    contents h' = delete k (contents h) /\ Heap_Len h = S (Heap_Len h') /\ Heap_Peek h = Some a.
Proof.
  intros Hi Hne. destruct (heap_Pop_spec h l Hi Hne) as (k & a & h' & l' & Hpop & Hi' & Hp & HF & H0).
  pose proof Hi as (Hr & _). pose proof Hi' as (Hr' & _).
  destruct (contents_delete h l h' l' k a Hr Hr' Hp) as [H1 H2].
  exists k, a, h'. unfold Heap_Pop. rewrite Hpop. split_and!; [done|by exists l'|by apply (least_intro h l)|done| |].
  - change (Heap_Len h) with (d_Len h). change (Heap_Len h') with (d_Len h').
    rewrite (rep_Len h l), (rep_Len h' l'), Hp by done. done.
  - unfold Heap_Peek, d_Peek. by rewrite (rep_item_at h l 0 Hr), H0.
Qed.

Lemma heap_Peek_ok h l :
  heap_inv h l ->
  match Heap_Peek h with None => contents h = ∅ | Some a => exists k, least (contents h) k a end.
Proof.
  intros Hi. pose proof Hi as (Hr & Hh & _). unfold Heap_Peek, d_Peek. rewrite (rep_item_at h l 0 Hr).
  destruct l as [|[k a] l]; simpl; [by apply (heap_empty h [])|].
  exists k. apply (least_intro h ((k, a) :: l)); [done|by apply (contents_rep h _ k a Hr); left|].
  apply Forall_lookup_2. intros i e He. apply lookup_lt_Some in He as Hlt.
  exact (heap_root_min lessp ((k, a) :: l) (length ((k, a) :: l)) i ltac:(lia) Hh Hlt (k, a) e eq_refl He).
Qed.

Lemma heap_Len_empty h l : heap_inv h l -> Heap_Len h = 0%nat <-> contents h = ∅.
Proof.
  intros Hi. rewrite <- (heap_empty h l Hi). pose proof Hi as (Hr & _).
  change (Heap_Len h) with (d_Len h). rewrite (rep_Len h l Hr). by destruct l.
Qed.

Lemma hinv_key h k a : hinv h -> contents h !! k = Some a -> keyFunc a = inl k.
Proof.
  intros (l & Hr & _ & Hk) Ha%(contents_rep h l k a Hr).
  rewrite Forall_forall in Hk. exact (Hk _ Ha).
Qed.

(** C34. The heap implements a priority queue: from any consistent state,
    every operation leads to a consistent one and does to the map of keys to
    objects what the queue promises, errors included; [Pop] and [Peek] give
    an object no other object goes before.  Only popping an empty heap
    panics. *)
Theorem Heap_refines o h :
  hinv h ->
  match run_op o h with
  | Ret (h', r) => hinv h' /\ spec_op o (contents h) (contents h') r
  | Panic _ => o = OPop /\ contents h = ∅
  end.
Proof.
  intros [l Hi]. destruct o as [a|a|a|a| |]; cbn [run_op spec_op].
  - destruct (heap_Add_ok h l a Hi) as [H1 H2].
    destruct (keyFunc a); [by destruct H2 as [-> ->]|by rewrite H2 in *].
  - unfold Heap_AddIfNotPresent. destruct (keyFunc a) as [k|e] eqn:Ek; simpl; [|split; [by exists l|done]].
    rewrite contents_items. destruct (items h !! k) eqn:Ei; simpl; [split; [by exists l|done]|].
    destruct (heap_Push_contents h l k a Hi Ei Ek). by split_and!.
  - destruct (heap_Add_ok h l a Hi) as [H1 H2]. unfold Heap_Update.
    destruct (keyFunc a); [by destruct H2 as [-> ->]|by rewrite H2 in *].
  - destruct (heap_Delete_ok h l a Hi) as (h' & -> & H1 & H2). cbn [obind fst snd].
    split; [done|]. destruct (keyFunc a); naive_solver.
  - destruct (decide (l = [])) as [->|Hne].
    + unfold Heap_Pop, heap_Pop. rewrite (rep_Len h []) by (by destruct Hi). simpl.
      split; [done|]. by apply (heap_empty h []).
    + destruct (heap_Pop_ok h l Hi Hne) as (k & a & h' & -> & Hi' & Hl & Hc & _). cbn [obind fst snd].
      split; [done|]. by exists k, a.
  - split; [by exists l|]. split; [done|]. eexists. split; [reflexivity|]. by apply (heap_Peek_ok h l).
Qed.

Lemma Heap_New_inv : hinv Heap_New.
Proof.
  exists []. split_and!; [constructor; simpl; [done|constructor|]|intros k Hk; simpl in *; lia|done].
  intros k a i. by rewrite lookup_empty.
Qed.
End heap_proofs.

(** Integers, smaller first, keyed by their decimal text. *)
#[export] Instance Z_ltb_order : LessOrder Z.ltb.
Proof. split; intros; zify_bool; lia. Qed.

Definition Z_key (z : Z) : string + string := inl (pretty z).

Lemma Heap_refines_witness :
  let h := (Heap_Add Z.ltb Z_key (Heap_Add Z.ltb Z_key Heap_New 7).1 3).1 in
  match run_op Z_key Z.ltb OPop h with
  | Ret (h', r) => hinv Z_key Z.ltb h' /\ spec_op Z_key Z.ltb OPop (contents h) (contents h') r
  | Panic _ => False
  end.
Proof.
  pose proof (Heap_refines Z_key Z.ltb OPop
    (Heap_Add Z.ltb Z_key (Heap_Add Z.ltb Z_key Heap_New 7).1 3).1) as H.
  destruct (Heap_New_inv Z_key Z.ltb) as [l0 H0].
  destruct (heap_Add_ok Z_key Z.ltb _ l0 7 H0) as [[l1 H1] _].
  destruct (heap_Add_ok Z_key Z.ltb _ l1 3 H1) as [H2 _].
  exact (H H2).
Defined.
