(* ===== verification/SchedulingQueue.v ===== *)
(** * The scheduling queue

    [internal/queue/scheduling_queue.go]: the pods waiting to be scheduled
    are in [activeQ] (a heap in the order of the queue sort plugin), in
    [podBackoffQ] (a heap in the order in which backoff ends) or in
    [unschedulableQ] (a map), and the nominator remembers the node a pod was
    nominated to by preemption.

    Every method takes the lock, so that it is one step on the state.
    [cond.Broadcast()] counts in [broadcasts]; the clock is the argument
    [now], in nanoseconds.  A [QueuedPodInfo] of a queue is reachable from
    that queue only and is passed by value, but its [PodInfo] is shared with
    the nominator: [pi_addr] is its address, and a write through it changes
    what the nominator holds ([npm_write]). *)

From S2P Require Import Prelude GoInt GoFloat GoStrconv Quantity ApiTypes Labels AffinityTerms Framework HeapList Heap.

(** ** Cluster events (framework/types.go) *)

Record ClusterEvent := mkClusterEvent {
  ce_Resource : string; ce_ActionType : Z; ce_Label : string
}.

Definition WildCard : string := "*".
Definition Action_Add : Z := 1.
Definition Action_Delete : Z := 2.
Definition UpdateNodeAllocatable : Z := 4.
Definition UpdateNodeLabel : Z := 8.
Definition UpdateNodeTaint : Z := 16.
Definition UpdateNodeCondition : Z := 32.
Definition Action_All : Z := 63.
Definition Action_Update : Z :=
  Z.lor (Z.lor (Z.lor UpdateNodeAllocatable UpdateNodeLabel) UpdateNodeTaint) UpdateNodeCondition.

Definition IsWildCard (ce : ClusterEvent) : bool :=
  String.eqb (ce_Resource ce) WildCard && (ce_ActionType ce =? Action_All).

(** Events of the queue (events.go). *)
Definition AssignedPodAdd : ClusterEvent := mkClusterEvent "Pod" Action_Add "AssignedPodAdd".
Definition AssignedPodUpdate : ClusterEvent := mkClusterEvent "Pod" Action_Update "AssignedPodUpdate".
Definition UnschedulableTimeout : ClusterEvent := mkClusterEvent WildCard Action_All "UnschedulableTimeout".

(** ** [framework.QueuedPodInfo] *)

Record QueuedPodInfo := mkQueuedPodInfo {
  qpi_PodInfo : PodInfo;
  pi_addr : Z;
  Timestamp : Z;
  Attempts : Z;
  InitialAttemptTimestamp : Z;
  UnschedulablePlugins : gset string
}.

Definition qpi_Pod (p : QueuedPodInfo) : Pod := pi_Pod (qpi_PodInfo p).

Definition set_qpi_PodInfo (pi : PodInfo) (p : QueuedPodInfo) : QueuedPodInfo :=
  mkQueuedPodInfo pi (pi_addr p) (Timestamp p) (Attempts p) (InitialAttemptTimestamp p)
    (UnschedulablePlugins p).
Definition set_Timestamp (t : Z) (p : QueuedPodInfo) : QueuedPodInfo :=
  mkQueuedPodInfo (qpi_PodInfo p) (pi_addr p) t (Attempts p) (InitialAttemptTimestamp p)
    (UnschedulablePlugins p).
Definition set_Attempts (n : Z) (p : QueuedPodInfo) : QueuedPodInfo :=
  mkQueuedPodInfo (qpi_PodInfo p) (pi_addr p) (Timestamp p) n (InitialAttemptTimestamp p)
    (UnschedulablePlugins p).

(** [newQueuedPodInfoForLookup] *)
Definition newQueuedPodInfoForLookup (pod : Pod) : QueuedPodInfo :=
  mkQueuedPodInfo (mkPodInfo pod [] [] [] [] []) 0 0 0 0 ∅.

(** ** Keys *)

(** [cache.MetaNamespaceKeyFunc] on a pod *)
Definition MetaNamespaceKeyFunc (pod : Pod) : string :=
  if (0 <? String.length (Namespace pod))%nat
  then str_app (Namespace pod) (str_app "/" (Name pod)) else Name pod.

Definition podInfoKeyFunc (p : QueuedPodInfo) : string + string := inl (MetaNamespaceKeyFunc (qpi_Pod p)).

Definition GetPodFullName (pod : Pod) : string := str_app (Name pod) (str_app "_" (Namespace pod)).

(** ** The nominator *)

Record nominator := mkNominator {
  (** [podLister.Pods(ns).Get(name)] finds the pod; [None] is a nil lister *)
  podLister : option (string -> string -> bool);
  (** the pods nominated to a node: address and contents of the [PodInfo] *)
  nominatedPods : gmap string (list (Z * PodInfo));
  nominatedPodToNode : gmap string string
}.

Definition nominated_uid (e : Z * PodInfo) : string := UID (pi_Pod e.2).

(** The list without its first entry for [uid]. *)
Fixpoint remove_uid (uid : string) (l : list (Z * PodInfo)) : list (Z * PodInfo) :=
  match l with
  | [] => []
  | e :: l' => if String.eqb (nominated_uid e) uid then l' else e :: remove_uid uid l'
  end.

Definition has_uid (uid : string) (l : list (Z * PodInfo)) : bool :=
  existsb (fun e => String.eqb (nominated_uid e) uid) l.

(** [nominator.delete] *)
Definition npm_delete (npm : nominator) (p : Pod) : nominator :=
  match nominatedPodToNode npm !! UID p with
  | None => npm
  | Some nnn =>
      let l := default [] (nominatedPods npm !! nnn) in
      let pods :=
        if has_uid (UID p) l then
          let l' := remove_uid (UID p) l in
          if (length l' =? 0)%nat then delete nnn (nominatedPods npm)
          else <[nnn := l']> (nominatedPods npm)
        else nominatedPods npm in
      mkNominator (podLister npm) pods (delete (UID p) (nominatedPodToNode npm))
  end.

(** [nominator.add], on the [PodInfo] [pi] at address [addr] *)
Definition npm_add (npm : nominator) (addr : Z) (pi : PodInfo) (nodeName : string) : nominator :=
  let npm := npm_delete npm (pi_Pod pi) in
  let nnn := if (String.length nodeName =? 0)%nat then NominatedNodeName (Status (pi_Pod pi)) else nodeName in
  if (String.length nnn =? 0)%nat then npm
  else
    let alive := match podLister npm with
                 | None => true
                 | Some get => get (Namespace (pi_Pod pi)) (Name (pi_Pod pi))
                 end in
    if negb alive then npm
    else
      let toNode := <[UID (pi_Pod pi) := nnn]> (nominatedPodToNode npm) in
      let l := default [] (nominatedPods npm !! nnn) in
      if has_uid (UID (pi_Pod pi)) l then mkNominator (podLister npm) (nominatedPods npm) toNode
      else mkNominator (podLister npm) (<[nnn := l ++ [(addr, pi)]]> (nominatedPods npm)) toNode.

(** [UpdateNominatedPod] *)
Definition UpdateNominatedPod (npm : nominator) (oldPod : option Pod) (addr : Z) (newPodInfo : PodInfo)
  : outcome nominator :=
  match oldPod with
  | None => Panic "invalid memory address or nil pointer dereference"
  | Some oldPod =>
      let nodeName :=
        if String.eqb (NominatedNodeName (Status oldPod)) ""
           && String.eqb (NominatedNodeName (Status (pi_Pod newPodInfo))) ""
        then default ""%string (nominatedPodToNode npm !! UID oldPod) else ""%string in
      Ret (npm_add (npm_delete npm oldPod) addr newPodInfo nodeName)
  end.

Definition NominatedPodsForNode (npm : nominator) (nodeName : string) : list PodInfo :=
  map snd (default [] (nominatedPods npm !! nodeName)).

(** A write to the [PodInfo] at [addr]. *)
Definition npm_write (addr : Z) (pi : PodInfo) (npm : nominator) : nominator :=
  mkNominator (podLister npm)
    (map (fun e : Z * PodInfo => if e.1 =? addr then (addr, pi) else e) <$> nominatedPods npm)
    (nominatedPodToNode npm).

Definition NewPodNominator (podLister : option (string -> string -> bool)) : nominator :=
  mkNominator podLister ∅ ∅.

(** ** The priority queue *)

Record QueueConfig := {
  podInitialBackoffDuration : Z;
  podMaxBackoffDuration : Z;
  clusterEventMap : list (ClusterEvent * gset string);
  (** the labels of a namespace; [None] when namespace selectors are off *)
  nsLister : option (string -> option (gmap string string));
  lessFn : QueuedPodInfo -> QueuedPodInfo -> bool
}.

Record PriorityQueue := mkPriorityQueue {
  activeQ : @data QueuedPodInfo;
  podBackoffQ : @data QueuedPodInfo;
  unschedulableQ : gmap string QueuedPodInfo;
  schedulingCycle : Z;
  moveRequestCycle : Z;
  closed : bool;
  q_nominator : nominator;
  broadcasts : Z;
  next_addr : Z
}.

Definition set_activeQ h q := mkPriorityQueue h (podBackoffQ q) (unschedulableQ q) (schedulingCycle q)
  (moveRequestCycle q) (closed q) (q_nominator q) (broadcasts q) (next_addr q).
Definition set_podBackoffQ h q := mkPriorityQueue (activeQ q) h (unschedulableQ q) (schedulingCycle q)
  (moveRequestCycle q) (closed q) (q_nominator q) (broadcasts q) (next_addr q).
Definition set_unschedulableQ u q := mkPriorityQueue (activeQ q) (podBackoffQ q) u (schedulingCycle q)
  (moveRequestCycle q) (closed q) (q_nominator q) (broadcasts q) (next_addr q).
Definition set_schedulingCycle n q := mkPriorityQueue (activeQ q) (podBackoffQ q) (unschedulableQ q) n
  (moveRequestCycle q) (closed q) (q_nominator q) (broadcasts q) (next_addr q).
Definition set_moveRequestCycle n q := mkPriorityQueue (activeQ q) (podBackoffQ q) (unschedulableQ q)
  (schedulingCycle q) n (closed q) (q_nominator q) (broadcasts q) (next_addr q).
Definition set_closed b q := mkPriorityQueue (activeQ q) (podBackoffQ q) (unschedulableQ q)
  (schedulingCycle q) (moveRequestCycle q) b (q_nominator q) (broadcasts q) (next_addr q).
Definition set_nominator n q := mkPriorityQueue (activeQ q) (podBackoffQ q) (unschedulableQ q)
  (schedulingCycle q) (moveRequestCycle q) (closed q) n (broadcasts q) (next_addr q).
Definition set_next_addr a q := mkPriorityQueue (activeQ q) (podBackoffQ q) (unschedulableQ q)
  (schedulingCycle q) (moveRequestCycle q) (closed q) (q_nominator q) (broadcasts q) a.
Definition Broadcast q := mkPriorityQueue (activeQ q) (podBackoffQ q) (unschedulableQ q)
  (schedulingCycle q) (moveRequestCycle q) (closed q) (q_nominator q) (broadcasts q + 1) (next_addr q).

(** [unschedulableQ.addOrUpdate], [delete] and [get] *)
Definition u_addOrUpdate (p : QueuedPodInfo) (q : PriorityQueue) : PriorityQueue :=
  set_unschedulableQ (<[GetPodFullName (qpi_Pod p) := p]> (unschedulableQ q)) q.
Definition u_delete (pod : Pod) (q : PriorityQueue) : PriorityQueue :=
  set_unschedulableQ (delete (GetPodFullName pod) (unschedulableQ q)) q.
Definition u_get (pod : Pod) (q : PriorityQueue) : option QueuedPodInfo :=
  unschedulableQ q !! GetPodFullName pod.

Definition unschedulableQTimeInterval : Z := 60 * 1000000000.
Definition DefaultPodInitialBackoffDuration : Z := 1 * 1000000000.
Definition DefaultPodMaxBackoffDuration : Z := 10 * 1000000000.

Definition NewPriorityQueue (nom : nominator) : PriorityQueue :=
  mkPriorityQueue Heap_New Heap_New ∅ 0 (-1) false nom 0 1.

(** What [Pop] does: it may wait for an item. *)
Inductive pop_result := PopItem (p : QueuedPodInfo) | PopError (e : string) | PopWait.

Section queue.
Context {mr : MapRange} (cfg : QueueConfig).

(** *** Backoff *)

Fixpoint backoff_loop (n : nat) (duration : Z) : Z :=
  match n with
  | O => duration
  | S n =>
      let duration := duration *₆₄ 2 in
      if podMaxBackoffDuration cfg <? duration then podMaxBackoffDuration cfg
      else backoff_loop n duration
  end.

(** [calculateBackoffDuration]: the loop runs for [i = 1 .. Attempts - 1]. *)
Definition calculateBackoffDuration (p : QueuedPodInfo) : Z :=
  backoff_loop (Z.to_nat (Attempts p - 1)) (podInitialBackoffDuration cfg).

Definition getBackoffTime (p : QueuedPodInfo) : Z := Timestamp p + calculateBackoffDuration p.

Definition isPodBackingoff (now : Z) (p : QueuedPodInfo) : bool := now <? getBackoffTime p.

Definition podsCompareBackoffCompleted (p1 p2 : QueuedPodInfo) : bool :=
  getBackoffTime p1 <? getBackoffTime p2.

(** *** The two heaps *)

Definition aQ_Add (p : QueuedPodInfo) (q : PriorityQueue) : PriorityQueue * error :=
  let r := Heap_Add (lessFn cfg) podInfoKeyFunc (activeQ q) p in (set_activeQ r.1 q, r.2).
Definition aQ_Delete (p : QueuedPodInfo) (q : PriorityQueue) : outcome (PriorityQueue * error) :=
  obind (Heap_Delete (lessFn cfg) podInfoKeyFunc (activeQ q) p)
    (fun r => Ret (set_activeQ r.1 q, r.2)).
Definition bQ_Add (p : QueuedPodInfo) (q : PriorityQueue) : PriorityQueue * error :=
  let r := Heap_Add podsCompareBackoffCompleted podInfoKeyFunc (podBackoffQ q) p in
  (set_podBackoffQ r.1 q, r.2).
Definition bQ_Delete (p : QueuedPodInfo) (q : PriorityQueue) : outcome (PriorityQueue * error) :=
  obind (Heap_Delete podsCompareBackoffCompleted podInfoKeyFunc (podBackoffQ q) p)
    (fun r => Ret (set_podBackoffQ r.1 q, r.2)).

(** The object [Get] finds, if it finds one. *)
Definition heap_find (h : @data QueuedPodInfo) (p : QueuedPodInfo) : option QueuedPodInfo :=
  match Heap_Get podInfoKeyFunc h p with inl o => o | inr _ => None end.

Definition AddNominatedPod (p : QueuedPodInfo) (nodeName : string) (q : PriorityQueue) : PriorityQueue :=
  set_nominator (npm_add (q_nominator q) (pi_addr p) (qpi_PodInfo p) nodeName) q.

(** [newQueuedPodInfo]: the [PodInfo] is a new object. *)
Definition newQueuedPodInfo (now : Z) (pod : Pod) (q : PriorityQueue) : QueuedPodInfo * PriorityQueue :=
  (mkQueuedPodInfo (NewPodInfo pod) (next_addr q) now 0 now ∅, set_next_addr (next_addr q + 1) q).

Open Scope go_scope.

(** *** Adding *)

Definition Add (now : Z) (pod : Pod) (q : PriorityQueue) : outcome (PriorityQueue * error) :=
  let '(pInfo, q) := newQueuedPodInfo now pod q in
  match aQ_Add pInfo q with
  | (q, Some err) => Ret (q, Some err)
  | (q, None) =>
      let q := match u_get pod q with Some _ => u_delete pod q | None => q end in
      let! r := bQ_Delete pInfo q in
      Ret (Broadcast (AddNominatedPod pInfo "" r.1), None)
  end.

(** [activate] *)
Definition activate (pod : Pod) (q : PriorityQueue) : outcome (PriorityQueue * bool) :=
  match heap_find (activeQ q) (newQueuedPodInfoForLookup pod) with
  | Some _ => Ret (q, false)
  | None =>
      let found :=
        match u_get pod q with
        | Some p => Some p
        | None => heap_find (podBackoffQ q) (newQueuedPodInfoForLookup pod)
        end in
      match found with
      | None => Ret (q, false)
      | Some pInfo =>
          match aQ_Add pInfo q with
          | (q, Some _) => Ret (q, false)
          | (q, None) =>
              let! r := bQ_Delete pInfo (u_delete pod q) in
              Ret (AddNominatedPod pInfo "" r.1, true)
          end
      end
  end.

(** One iteration of [Activate], with its flag [activated]. *)
Definition activate_step (s : PriorityQueue * bool) (pod : Pod) : outcome (PriorityQueue * bool) :=
  let! r := activate pod s.1 in Ret (r.1, s.2 || r.2).

Definition Activate (pods : gmap string Pod) (q : PriorityQueue) : outcome PriorityQueue :=
  let! r := ofold activate_step (map snd (range 0 (map_to_list pods))) (q, false) in
  Ret (if r.2 then Broadcast r.1 else r.1).

Definition AddUnschedulableIfNotPresent (now : Z) (pInfo : QueuedPodInfo) (podSchedulingCycle : Z)
    (q : PriorityQueue) : PriorityQueue * error :=
  let pod := qpi_Pod pInfo in
  match u_get pod q with
  | Some _ => (q, Some "is already present in unschedulable queue"%string)
  | None =>
      match heap_find (activeQ q) pInfo with
      | Some _ => (q, Some "is already present in the active queue"%string)
      | None =>
          match heap_find (podBackoffQ q) pInfo with
          | Some _ => (q, Some "is already present in the backoff queue"%string)
          | None =>
              let pInfo := set_Timestamp now pInfo in
              if podSchedulingCycle <=? moveRequestCycle q then
                match bQ_Add pInfo q with
                | (q, Some err) => (q, Some (str_app "error adding pod to the backoff queue: " err))
                | (q, None) => (AddNominatedPod pInfo "" q, None)
                end
              else (AddNominatedPod pInfo "" (u_addOrUpdate pInfo q), None)
          end
      end
  end.

(** *** Moving *)

(** [intersect] *)
Definition intersect (x y : gset string) : bool :=
  let '(x, y) := if (size y <? size x)%nat then (y, x) else (x, y) in
  existsb (fun v => bool_decide (v ∈ y)) (elements x).

Definition podMatchesEvent (p : QueuedPodInfo) (clusterEvent : ClusterEvent) : bool :=
  if IsWildCard clusterEvent then true
  else
    existsb (fun e =>
      (IsWildCard e.1
       || (String.eqb (ce_Resource e.1) (ce_Resource clusterEvent)
           && negb (Z.land (ce_ActionType e.1) (ce_ActionType clusterEvent) =? 0)))
      && intersect e.2 (UnschedulablePlugins p)) (clusterEventMap cfg).

(** One iteration of [movePodsToActiveOrBackoffQueue], with its flag [moved]. *)
Definition move_step (now : Z) (event : ClusterEvent) (s : PriorityQueue * bool) (pInfo : QueuedPodInfo)
  : PriorityQueue * bool :=
  let '(q, moved) := s in
  if negb (size (UnschedulablePlugins pInfo) =? 0)%nat && negb (podMatchesEvent pInfo event) then (q, moved)
  else
    let pod := qpi_Pod pInfo in
    if isPodBackingoff now pInfo then
      match bQ_Add pInfo q with
      | (q, Some _) => (q, true)
      | (q, None) => (u_delete pod q, true)
      end
    else
      match aQ_Add pInfo q with
      | (q, Some _) => (q, true)
      | (q, None) => (u_delete pod q, true)
      end.

Definition movePodsToActiveOrBackoffQueue (now : Z) (podInfoList : list QueuedPodInfo)
    (event : ClusterEvent) (q : PriorityQueue) : PriorityQueue :=
  let '(q, moved) := fold_left (move_step now event) podInfoList (q, false) in
  let q := set_moveRequestCycle (schedulingCycle q) q in
  if moved then Broadcast q else q.

(** The values of [unschedulableQ] in the order of a loop. *)
Definition u_range (n : nat) (q : PriorityQueue) : list QueuedPodInfo :=
  map snd (range n (map_to_list (unschedulableQ q))).

Definition MoveAllToActiveOrBackoffQueue (now : Z) (event : ClusterEvent)
    (preCheck : option (Pod -> bool)) (q : PriorityQueue) : PriorityQueue :=
  let keep p := match preCheck with None => true | Some f => f (qpi_Pod p) end in
  movePodsToActiveOrBackoffQueue now (List.filter keep (u_range 0 q)) event q.

(** [GetNamespaceLabelsSnapshot]: no labels when the namespace is not found. *)
Definition namespace_labels (ns : string) : gmap string string :=
  match nsLister cfg with
  | Some get => default ∅ (get ns)
  | None => ∅
  end.

Definition matches_affinity (pod : Pod) (p : QueuedPodInfo) : bool :=
  let nsSelectorEnabled := match nsLister cfg with Some _ => true | None => false end in
  existsb (fun term => Term_Matches term pod (namespace_labels (Namespace pod)) nsSelectorEnabled)
    (RequiredAffinityTerms (qpi_PodInfo p)).

Definition getUnschedulablePodsWithMatchingAffinityTerm (pod : Pod) (q : PriorityQueue)
  : list QueuedPodInfo :=
  List.filter (matches_affinity pod) (u_range 0 q).

Definition AssignedPodAdded (now : Z) (pod : Pod) (q : PriorityQueue) : PriorityQueue :=
  movePodsToActiveOrBackoffQueue now (getUnschedulablePodsWithMatchingAffinityTerm pod q) AssignedPodAdd q.

Definition AssignedPodUpdated (now : Z) (pod : Pod) (q : PriorityQueue) : PriorityQueue :=
  movePodsToActiveOrBackoffQueue now (getUnschedulablePodsWithMatchingAffinityTerm pod q) AssignedPodUpdate q.

Definition flushUnschedulableQLeftover (now : Z) (q : PriorityQueue) : PriorityQueue :=
  let podsToMove :=
    List.filter (fun p => unschedulableQTimeInterval <? now - Timestamp p) (u_range 0 q) in
  if (0 <? length podsToMove)%nat
  then movePodsToActiveOrBackoffQueue now podsToMove UnschedulableTimeout q else q.

(** The loop of [flushBackoffQCompleted], which takes a pod off the heap in
    every iteration. *)
Fixpoint flush_loop (fuel : nat) (now : Z) (q : PriorityQueue) : outcome PriorityQueue :=
  match Heap_Peek (podBackoffQ q) with
  | None => Ret q
  | Some raw =>
      if now <? getBackoffTime raw then Ret q
      else
        match fuel with
        | O => Panic "out of fuel"
        | S fuel =>
            let! r := Heap_Pop podsCompareBackoffCompleted (podBackoffQ q) in
            let q := set_podBackoffQ r.1 q in
            match r.2 with
            | inr _ => Ret q
            | inl _ => flush_loop fuel now (Broadcast (aQ_Add raw q).1)
            end
        end
  end.

Definition flushBackoffQCompleted (now : Z) (q : PriorityQueue) : outcome PriorityQueue :=
  flush_loop (Heap_Len (podBackoffQ q)) now q.

(** *** Taking the head *)

Definition Pop (q : PriorityQueue) : outcome (PriorityQueue * pop_result) :=
  if (Heap_Len (activeQ q) =? 0)%nat then
    if closed q then Ret (q, PopError "scheduling queue is closed") else Ret (q, PopWait)
  else
    let! r := Heap_Pop (lessFn cfg) (activeQ q) in
    let q := set_activeQ r.1 q in
    match r.2 with
    | inr err => Ret (q, PopError err)
    | inl pInfo =>
        Ret (set_schedulingCycle (schedulingCycle q +₆₄ 1) q,
             PopItem (set_Attempts (Attempts pInfo +₆₄ 1) pInfo))
    end.

(** *** Updating and deleting *)

(** The pod without its resource version and its status; the other fields
    [strip] clears are not part of the model. *)
Definition strip (pod : Pod) : Pod :=
  mkPod (Name pod) (Namespace pod) (UID pod) "" (DeletionTimestamp pod) (Labels pod) (Annotations pod) (Spec pod)
    (mkPodStatus [] "" None).

(** [updatePod] writes the shared [PodInfo]. *)
Definition updatePod (p : QueuedPodInfo) (newPod : Pod) (q : PriorityQueue)
  : QueuedPodInfo * PriorityQueue :=
  let pi := PodInfo_Update (qpi_PodInfo p) newPod in
  (set_qpi_PodInfo pi p, set_nominator (npm_write (pi_addr p) pi (q_nominator q)) q).

Definition q_UpdateNominatedPod (oldPod : option Pod) (p : QueuedPodInfo) (q : PriorityQueue)
  : outcome PriorityQueue :=
  let! n := UpdateNominatedPod (q_nominator q) oldPod (pi_addr p) (qpi_PodInfo p) in
  Ret (set_nominator n q).

Section update.
(** [reflect.DeepEqual] of two pods *)
Context (DeepEqual : Pod -> Pod -> bool).

Definition isPodUpdated (oldPod : option Pod) (newPod : Pod) : outcome bool :=
  match oldPod with
  | None => Panic "invalid memory address or nil pointer dereference"
  | Some oldPod => Ret (negb (DeepEqual (strip oldPod) (strip newPod)))
  end.

(** The branch of [Update] for a pod of [unschedulableQ]. *)
Definition update_unschedulable (now : Z) (oldPod : option Pod) (newPod : Pod) (usPodInfo : QueuedPodInfo)
    (q : PriorityQueue) : outcome (PriorityQueue * error) :=
  let '(pInfo, q) := updatePod usPodInfo newPod q in
  let! q := q_UpdateNominatedPod oldPod pInfo q in
  let! updated := isPodUpdated oldPod newPod in
  if updated then
    if isPodBackingoff now pInfo then
      match bQ_Add pInfo q with
      | (q, Some err) => Ret (q, Some err)
      | (q, None) => Ret (u_delete (qpi_Pod pInfo) q, None)
      end
    else
      match aQ_Add pInfo q with
      | (q, Some err) => Ret (q, Some err)
      | (q, None) => Ret (Broadcast (u_delete (qpi_Pod pInfo) q), None)
      end
  else Ret (u_addOrUpdate pInfo q, None).

(** The branch for a pod that is in none of the queues. *)
Definition update_absent (now : Z) (newPod : Pod) (q : PriorityQueue) : outcome (PriorityQueue * error) :=
  let '(pInfo, q) := newQueuedPodInfo now newPod q in
  match aQ_Add pInfo q with
  | (q, Some err) => Ret (q, Some err)
  | (q, None) => Ret (Broadcast (AddNominatedPod pInfo "" q), None)
  end.

Definition Update (now : Z) (oldPod : option Pod) (newPod : Pod) (q : PriorityQueue)
  : outcome (PriorityQueue * error) :=
  let lookup (h : data) := oldPod ≫= fun old => heap_find h (newQueuedPodInfoForLookup old) in
  match lookup (activeQ q) with
  | Some oldPodInfo =>
      let '(pInfo, q) := updatePod oldPodInfo newPod q in
      let! q := q_UpdateNominatedPod oldPod pInfo q in
      let r := Heap_Update (lessFn cfg) podInfoKeyFunc (activeQ q) pInfo in
      Ret (set_activeQ r.1 q, r.2)
  | None =>
      match lookup (podBackoffQ q) with
      | Some oldPodInfo =>
          let '(pInfo, q) := updatePod oldPodInfo newPod q in
          let! q := q_UpdateNominatedPod oldPod pInfo q in
          let r := Heap_Update podsCompareBackoffCompleted podInfoKeyFunc (podBackoffQ q) pInfo in
          Ret (set_podBackoffQ r.1 q, r.2)
      | None =>
          match u_get newPod q with
          | Some usPodInfo => update_unschedulable now oldPod newPod usPodInfo q
          | None => update_absent now newPod q
          end
      end
  end.
End update.

Definition Delete (pod : Pod) (q : PriorityQueue) : outcome (PriorityQueue * error) :=
  let q := set_nominator (npm_delete (q_nominator q) pod) q in
  let! r := aQ_Delete (newQueuedPodInfoForLookup pod) q in
  match r with
  | (q, None) => Ret (q, None)
  | (q, Some _) =>
      let! r := bQ_Delete (newQueuedPodInfoForLookup pod) q in
      Ret (u_delete pod r.1, None)
  end.

(** *** The rest *)

Definition PendingPods (q : PriorityQueue) : list Pod :=
  map qpi_Pod (Heap_List (activeQ q)) ++ map qpi_Pod (Heap_List (podBackoffQ q))
  ++ map qpi_Pod (u_range 0 q).

Definition NumUnschedulablePods (q : PriorityQueue) : Z := Z.of_nat (size (unschedulableQ q)).

Definition Close (q : PriorityQueue) : outcome PriorityQueue :=
  if closed q then Panic "close of closed channel" else Ret (Broadcast (set_closed true q)).
End queue.

(** ** The default order: [plugins/queuesort] *)

(** [corev1helpers.PodPriority] *)
Definition PodPriority (pod : Pod) : Z := default 0 (Priority (Spec pod)).

Definition PrioritySort_Less (pInfo1 pInfo2 : QueuedPodInfo) : bool :=
  let p1 := PodPriority (qpi_Pod pInfo1) in
  let p2 := PodPriority (qpi_Pod pInfo2) in
  (p2 <? p1) || ((p1 =? p2) && (Timestamp pInfo1 <? Timestamp pInfo2)).

(** [defaultPriorityQueueOptions], with the default order. *)
Definition default_queue_config : QueueConfig := {|
  podInitialBackoffDuration := DefaultPodInitialBackoffDuration;
  podMaxBackoffDuration := DefaultPodMaxBackoffDuration;
  clusterEventMap := [];
  nsLister := None;
  lessFn := PrioritySort_Less
|}.
