(* ===== verification/QueueProofs.v ===== *)
(** * The scheduling queue keeps every pod in one place

    The three parts of the queue are seen as one map from pods, by namespace
    and name, to the part a pod is in and its [QueuedPodInfo]; every
    operation acts on this map as its documentation says. *)

From S2P Require Import Prelude GoInt GoFloat GoStrconv Quantity ApiTypes Labels AffinityTerms Framework HeapList Heap HeapProofs SchedulingQueue Samples.

Lemma existsb_perm {A} (f : A -> bool) l l' : l ≡ₚ l' -> existsb f l = existsb f l'.
Proof.
  intros Hp. apply eq_true_iff_eq. rewrite !existsb_exists.
  split; intros (x & Hx & Hf); exists x; (split; [|done]); apply list_elem_of_In;
    apply list_elem_of_In in Hx; by rewrite ?Hp, <- ?Hp in *.
Qed.

(** ** Orders *)

#[export] Instance PrioritySort_order : LessOrder PrioritySort_Less.
Proof.
  split; unfold PrioritySort_Less; intros x y;
    [|intros z]; rewrite ?orb_true_iff, ?orb_false_iff, ?andb_true_iff, ?andb_false_iff,
    ?Z.ltb_lt, ?Z.ltb_ge, ?Z.eqb_eq, ?Z.eqb_neq; lia.
Qed.

#[export] Instance backoff_order cfg : LessOrder (podsCompareBackoffCompleted cfg).
Proof. split; unfold podsCompareBackoffCompleted; intros; zify_bool; rewrite ?Z.ltb_ge; lia. Qed.

(** ** Pods by namespace and name *)

Definition podid : Type := string * string.
Definition pid (pod : Pod) : podid := (Namespace pod, Name pod).

(** Names of the API are DNS names: neither separator occurs in them. *)
Definition plain (s : string) : bool := negb (str_mem "/" s) && negb (str_mem "_" s).
Definition valid_id (i : podid) : Prop := plain i.1 = true /\ plain i.2 = true.
Definition valid_pod (pod : Pod) : Prop := valid_id (pid pod).

(** The keys of a pod in the heaps and in [unschedulableQ]. *)
Definition mkey (i : podid) : string :=
  if (0 <? String.length i.1)%nat then str_app i.1 (str_app "/" i.2) else i.2.
Definition fkey (i : podid) : string := str_app i.2 (str_app "_" i.1).

Lemma mkey_pid pod : mkey (pid pod) = MetaNamespaceKeyFunc pod.
Proof. done. Qed.
Lemma fkey_pid pod : fkey (pid pod) = GetPodFullName pod.
Proof. done. Qed.

(** A separator that occurs in neither left part splits a string uniquely. *)
Lemma str_app_sep c a b a' b' :
  str_mem c a = false -> str_mem c a' = false ->
  str_app a (String c b) = str_app a' (String c b') -> a = a' /\ b = b'.
Proof.
  revert a'. induction a as [|x a IH]; intros [|x' a']; simpl; intros H H' E.
  - by injection E.
  - injection E as <- _. by rewrite Ascii.eqb_refl in H'.
  - injection E as -> _. by rewrite Ascii.eqb_refl in H.
  - injection E as <- E. apply orb_false_iff in H as [_ H], H' as [_ H'].
    destruct (IH a' H H' E) as [<- <-]. done.
Qed.

Lemma str_mem_app c a b : str_mem c (str_app a b) = str_mem c a || str_mem c b.
Proof. induction a as [|x a IH]; simpl; [done|]. by rewrite IH, orb_assoc. Qed.

Lemma plain_mem s : plain s = true -> str_mem "/" s = false /\ str_mem "_" s = false.
Proof. unfold plain. rewrite andb_true_iff, !negb_true_iff. done. Qed.

Lemma mkey_inj i j : valid_id i -> valid_id j -> mkey i = mkey j -> i = j.
Proof.
  destruct i as [ns n], j as [ns' n']. unfold valid_id; simpl.
  intros [[H1 _]%plain_mem [H2 _]%plain_mem] [[H3 _]%plain_mem [H4 _]%plain_mem].
  unfold mkey; simpl. destruct ns as [|c ns], ns' as [|c' ns']; cbn [String.length Nat.ltb Nat.leb];
    [congruence|intros ->|intros <-|].
  - rewrite str_mem_app in H2. simpl in H2. by rewrite orb_true_r in H2.
  - rewrite str_mem_app in H4. simpl in H4. by rewrite orb_true_r in H4.
  - intros E. by destruct (str_app_sep "/" (String c ns) n (String c' ns') n' H1 H3 E) as [-> ->].
Qed.

Lemma fkey_inj i j : valid_id i -> valid_id j -> fkey i = fkey j -> i = j.
Proof.
  destruct i as [ns n], j as [ns' n']. unfold valid_id; simpl.
  intros [[_ H1]%plain_mem [_ H2]%plain_mem] [[_ H3]%plain_mem [_ H4]%plain_mem] E.
  by destruct (str_app_sep "_" n ns n' ns' H2 H4 E) as [-> ->].
Qed.

(** ** The queue as a view *)

Inductive place := Active | Backoff | Unschedulable.
#[export] Instance place_eq_dec : EqDecision place.
Proof. solve_decision. Defined.

Definition at_place (q : PriorityQueue) (pl : place) (i : podid) : option QueuedPodInfo :=
  match pl with
  | Active => contents (activeQ q) !! mkey i
  | Backoff => contents (podBackoffQ q) !! mkey i
  | Unschedulable => unschedulableQ q !! fkey i
  end.

(** Where a pod is, and what the queue knows of it. *)
Definition find (q : PriorityQueue) (i : podid) : option (place * QueuedPodInfo) :=
  match at_place q Active i with
  | Some p => Some (Active, p)
  | None => match at_place q Backoff i with
            | Some p => Some (Backoff, p)
            | None => pair Unschedulable <$> at_place q Unschedulable i
            end
  end.

(** ** A heap of pods *)

Lemma mkey_lookup_insert i j (p : QueuedPodInfo) m :
  valid_id i -> valid_id j ->
  <[mkey i := p]> m !! mkey j = if decide (j = i) then Some p else (m : gmap string _) !! mkey j.
Proof.
  intros Hi Hj. case_decide as E; [subst; apply lookup_insert_eq|].
  apply lookup_insert_ne. intros Hk. destruct E. symmetry. by apply mkey_inj.
Qed.

Lemma mkey_lookup_delete i j (m : gmap string QueuedPodInfo) :
  valid_id i -> valid_id j ->
  delete (mkey i) m !! mkey j = if decide (j = i) then None else m !! mkey j.
Proof.
  intros Hi Hj. case_decide as E; [subst; apply lookup_delete_eq|].
  apply lookup_delete_ne. intros Hk. destruct E. symmetry. by apply mkey_inj.
Qed.

Section pod_heap.
Context (less : QueuedPodInfo -> QueuedPodInfo -> bool) `{!LessOrder less}.

(** The heap is consistent and its pods have valid names. *)
Definition pod_heap (h : @data QueuedPodInfo) : Prop :=
  hinv podInfoKeyFunc less h /\ forall k p, contents h !! k = Some p -> valid_pod (qpi_Pod p).

Lemma pod_heap_pid h i p :
  pod_heap h -> valid_id i -> contents h !! mkey i = Some p -> pid (qpi_Pod p) = i /\ valid_pod (qpi_Pod p).
Proof.
  intros [Hh Hv] Hi H. pose proof (Hv _ _ H) as Hp. split; [|done].
  pose proof (hinv_key _ _ _ _ _ Hh H) as E. injection E as E. by apply mkey_inj.
Qed.

Lemma pod_heap_Add h p :
  pod_heap h -> valid_pod (qpi_Pod p) ->
  let r := Heap_Add less podInfoKeyFunc h p in
  r.2 = None /\ pod_heap r.1 /\ forall j, valid_id j ->
    contents r.1 !! mkey j = if decide (j = pid (qpi_Pod p)) then Some p else contents h !! mkey j.
Proof.
  intros [[l Hl] Hh] Hv.
  destruct (heap_Add_ok podInfoKeyFunc less h l p Hl) as [Hi [Hc He]].
  rewrite <- mkey_pid in Hc. split_and!; [done|split; [done|]|].
  - intros k p'. rewrite Hc, lookup_insert_Some. intros [[_ <-]|[_ H]]; [done|by apply (Hh k)].
  - intros j Hj. by rewrite Hc, mkey_lookup_insert.
Qed.

Lemma pod_heap_Delete h p :
  pod_heap h -> valid_pod (qpi_Pod p) ->
  exists h', Heap_Delete less podInfoKeyFunc h p =
      Ret (h', if contents h !! mkey (pid (qpi_Pod p)) then None else Some "object not found"%string) /\
    pod_heap h' /\ forall j, valid_id j ->
      contents h' !! mkey j = if decide (j = pid (qpi_Pod p)) then None else contents h !! mkey j.
Proof.
  intros [[l Hl] Hh] Hv.
  destruct (heap_Delete_ok podInfoKeyFunc less h l p Hl) as (h' & Hd & Hi & Hc).
  cbn [podInfoKeyFunc] in *. rewrite <- mkey_pid in *.
  exists h'. split_and!; [done|split; [done|]|].
  - intros k p'. rewrite Hc, lookup_delete_Some. intros [_ H]. by apply (Hh k).
  - intros j Hj. by rewrite Hc, mkey_lookup_delete.
Qed.

Lemma pod_heap_Pop h :
  pod_heap h -> Heap_Len h <> 0%nat ->
  exists p h', Heap_Pop less h = Ret (h', inl p) /\ pod_heap h' /\ Heap_Peek h = Some p /\
    Heap_Len h = S (Heap_Len h') /\ contents h !! mkey (pid (qpi_Pod p)) = Some p /\
    (forall k b, contents h !! k = Some b -> less b p = false) /\
    forall j, valid_id j ->
      contents h' !! mkey j = if decide (j = pid (qpi_Pod p)) then None else contents h !! mkey j.
Proof.
  intros [[l Hl] Hh] Hne.
  assert (l <> []) as Hl0.
  { intros ->. apply Hne. apply (heap_Len_empty _ _ h [] Hl). by apply (heap_empty _ _ h [] Hl). }
  destruct (heap_Pop_ok podInfoKeyFunc less h l Hl Hl0) as (k & p & h' & Hp & Hi & [Hk Hleast] & Hc & Hlen & Hpk).
  pose proof (hinv_key podInfoKeyFunc less h k p (ex_intro _ l Hl) Hk) as E. injection E as E.
  rewrite <- mkey_pid in E. subst k. pose proof (Hh _ _ Hk) as Hv.
  exists p, h'. split_and!; [done|split; [done|]|done..|].
  - intros k p'. rewrite Hc, lookup_delete_Some. intros [_ H]. by apply (Hh k).
  - intros j Hj. by rewrite Hc, mkey_lookup_delete.
Qed.

Lemma pod_heap_Peek h :
  pod_heap h ->
  match Heap_Peek h with
  | None => contents h = ∅
  | Some p => forall k b, contents h !! k = Some b -> less b p = false
  end.
Proof.
  intros [[l Hl] _]. pose proof (heap_Peek_ok podInfoKeyFunc less h l Hl) as H.
  destruct (Heap_Peek h); [|done]. by destruct H as (k & _ & ?).
Qed.

Lemma pod_heap_Len h : pod_heap h -> Heap_Len h = 0%nat <-> contents h = ∅.
Proof. intros [[l Hl] _]. by apply (heap_Len_empty podInfoKeyFunc less h l). Qed.
End pod_heap.

Lemma heap_find_contents h p : heap_find h p = contents h !! mkey (pid (qpi_Pod p)).
Proof. unfold heap_find, Heap_Get, Heap_GetByKey. simpl. by rewrite contents_items. Qed.

Section queue_proofs.
Context {mr : MapRange} (cfg : QueueConfig) `{!LessOrder (lessFn cfg)}.

Record wfq (q : PriorityQueue) : Prop := {
  wf_active : pod_heap (lessFn cfg) (activeQ q);
  wf_backoff : pod_heap (podsCompareBackoffCompleted cfg) (podBackoffQ q);
  wf_unsched : forall k p, unschedulableQ q !! k = Some p -> k = GetPodFullName (qpi_Pod p) /\ valid_pod (qpi_Pod p)
}.

(** No pod is in two parts of the queue. *)
Definition separate (q : PriorityQueue) : Prop :=
  forall i pl pl' p p', valid_id i -> at_place q pl i = Some p -> at_place q pl' i = Some p' -> pl = pl'.

Definition qinv (q : PriorityQueue) : Prop := wfq q /\ separate q.

Lemma at_place_pid q pl i p :
  wfq q -> valid_id i -> at_place q pl i = Some p -> pid (qpi_Pod p) = i /\ valid_pod (qpi_Pod p).
Proof.
  intros Hw Hi H. destruct pl; simpl in H.
  - exact (pod_heap_pid _ _ _ _ (wf_active q Hw) Hi H).
  - exact (pod_heap_pid _ _ _ _ (wf_backoff q Hw) Hi H).
  - destruct (wf_unsched q Hw _ _ H) as [Hk Hv]. split; [|done]. by apply fkey_inj.
Qed.

Lemma find_at q pl i p :
  separate q -> valid_id i -> find q i = Some (pl, p) <-> at_place q pl i = Some p.
Proof.
  intros Hs Hi. unfold find. specialize (Hs i). split.
  - destruct (at_place q Active i) eqn:Ea; [by intros [= <- <-]|].
    destruct (at_place q Backoff i) eqn:Eb; [by intros [= <- <-]|].
    intros H. apply fmap_Some in H as (x & Hx & [= -> ->]). done.
  - intros H. destruct (at_place q Active i) as [x|] eqn:Ea.
    { assert (pl = Active) as -> by (by eapply Hs). by simplify_eq. }
    destruct (at_place q Backoff i) as [x|] eqn:Eb.
    { assert (pl = Backoff) as -> by (by eapply Hs). by simplify_eq. }
    destruct pl; [by simplify_eq..|]. by rewrite H.
Qed.

(** ** The queues' own operations on the view *)

(** The part of the state that is not about pods. *)
Definition rest (q : PriorityQueue) : Z * Z * bool * Z * Z :=
  (schedulingCycle q, moveRequestCycle q, closed q, next_addr q, broadcasts q).

(** [q'] is [q] but for what is at [pl] for the pod [i]. *)
Definition changes (q q' : PriorityQueue) (pl : place) (i : podid) (o : option QueuedPodInfo) : Prop :=
  wfq q' /\ (forall pl' j, valid_id j ->
    at_place q' pl' j = if decide (pl' = pl /\ j = i) then o else at_place q pl' j) /\
  rest q' = rest q.

(** Closes a goal about the place that an operation does not touch, or turns
    one about the place it does into a statement on its key. *)
Ltac view_place H :=
  intros pl' j Hj; destruct pl';
  cbn [at_place aQ_Add bQ_Add u_addOrUpdate u_delete set_activeQ set_podBackoffQ set_unschedulableQ
       activeQ podBackoffQ unschedulableQ fst snd];
  try (rewrite decide_False by naive_solver; done);
  rewrite H by done; repeat case_decide; naive_solver.

Lemma aQ_Add_ok q p :
  wfq q -> valid_pod (qpi_Pod p) ->
  (aQ_Add cfg p q).2 = None /\ changes q (aQ_Add cfg p q).1 Active (pid (qpi_Pod p)) (Some p).
Proof.
  intros [Ha Hb Hu] Hv. destruct (pod_heap_Add _ _ p Ha Hv) as (He & Ha' & Hc).
  split; [done|]. split_and!; [by split| |done]. view_place Hc.
Qed.

Lemma bQ_Add_ok q p :
  wfq q -> valid_pod (qpi_Pod p) ->
  (bQ_Add cfg p q).2 = None /\ changes q (bQ_Add cfg p q).1 Backoff (pid (qpi_Pod p)) (Some p).
Proof.
  intros [Ha Hb Hu] Hv. destruct (pod_heap_Add _ _ p Hb Hv) as (He & Hb' & Hc).
  split; [done|]. split_and!; [by split| |done]. view_place Hc.
Qed.

Lemma aQ_Delete_ok q p :
  wfq q -> valid_pod (qpi_Pod p) ->
  exists q', aQ_Delete cfg p q = Ret (q', if at_place q Active (pid (qpi_Pod p)) then None
                                         else Some "object not found"%string) /\
    changes q q' Active (pid (qpi_Pod p)) None.
Proof.
  intros [Ha Hb Hu] Hv. destruct (pod_heap_Delete _ _ p Ha Hv) as (h' & He & Ha' & Hc).
  unfold aQ_Delete. rewrite He. eexists. split; [reflexivity|].
  split_and!; [by split| |done]. view_place Hc.
Qed.

Lemma bQ_Delete_ok q p :
  wfq q -> valid_pod (qpi_Pod p) ->
  exists q', bQ_Delete cfg p q = Ret (q', if at_place q Backoff (pid (qpi_Pod p)) then None
                                         else Some "object not found"%string) /\
    changes q q' Backoff (pid (qpi_Pod p)) None.
Proof.
  intros [Ha Hb Hu] Hv. destruct (pod_heap_Delete _ _ p Hb Hv) as (h' & He & Hb' & Hc).
  unfold bQ_Delete. rewrite He. eexists. split; [reflexivity|].
  split_and!; [by split| |done]. view_place Hc.
Qed.

Lemma fkey_ne i j : valid_id i -> valid_id j -> j <> i -> fkey i <> fkey j.
Proof. intros Hi Hj Hne Hk. apply Hne. symmetry. by apply fkey_inj. Qed.

Lemma u_add_ok q p :
  wfq q -> valid_pod (qpi_Pod p) ->
  changes q (u_addOrUpdate p q) Unschedulable (pid (qpi_Pod p)) (Some p).
Proof.
  intros [Ha Hb Hu] Hv. split_and!; [split; [done..|]| |done].
  - intros k p'. simpl. rewrite lookup_insert_Some. intros [[<- <-]|[_ H]]; [done|by apply Hu].
  - assert (forall j, valid_id j -> <[GetPodFullName (qpi_Pod p) := p]> (unschedulableQ q) !! fkey j =
      if decide (j = pid (qpi_Pod p)) then Some p else unschedulableQ q !! fkey j) as Hc.
    { intros j Hj. case_decide as E; [subst; apply lookup_insert_eq|].
      apply lookup_insert_ne, (fkey_ne (pid (qpi_Pod p)) j); done. }
    view_place Hc.
Qed.

Lemma u_delete_ok q pod :
  wfq q -> valid_pod pod -> changes q (u_delete pod q) Unschedulable (pid pod) None.
Proof.
  intros [Ha Hb Hu] Hv. split_and!; [split; [done..|]| |done].
  - intros k p'. simpl. rewrite lookup_delete_Some. intros [_ H]. by apply Hu.
  - assert (forall j, valid_id j -> delete (GetPodFullName pod) (unschedulableQ q) !! fkey j =
      if decide (j = pid pod) then None else unschedulableQ q !! fkey j) as Hc.
    { intros j Hj. case_decide as E; [subst; apply lookup_delete_eq|].
      apply lookup_delete_ne, (fkey_ne (pid pod) j); done. }
    view_place Hc.
Qed.

(** ** The abstract queue *)

Definition waiting : Type := podid -> option (place * QueuedPodInfo).

Definition w_put (i : podid) (e : place * QueuedPodInfo) (w : waiting) : waiting :=
  fun j => if decide (j = i) then Some e else w j.
Definition w_del (i : podid) (w : waiting) : waiting := fun j => if decide (j = i) then None else w j.

(** No pod is active that was not. *)
Definition no_new_active (q q' : PriorityQueue) : Prop :=
  forall j p, valid_id j -> at_place q' Active j = Some p -> is_Some (at_place q Active j).

(** A waiter of [Pop] is woken if a pod became active. *)
Definition wakes (q q' : PriorityQueue) : Prop :=
  broadcasts q < broadcasts q' \/ (broadcasts q' = broadcasts q /\ no_new_active q q').

(** [q'] is a consistent queue whose pods are those of [w]. *)
Definition shows (q' : PriorityQueue) (w : waiting) : Prop :=
  qinv q' /\ forall j, valid_id j -> find q' j = w j.

Lemma shows_intro q' (w : waiting) :
  wfq q' ->
  (forall j pl p, valid_id j -> at_place q' pl j = Some p <-> w j = Some (pl, p)) -> shows q' w.
Proof.
  intros Hw H. assert (separate q') as Hs.
  { intros i pl pl' p p' Hi Hp Hp'. apply H in Hp; [|done]. apply H in Hp'; [|done]. rewrite Hp in Hp'. by injection Hp'. }
  split; [done|]. intros j Hj. apply option_eq. intros [pl p].
  rewrite find_at by done. by apply H.
Qed.

(** Operations that the view does not see. *)
Definition same_pods (q q' : PriorityQueue) : Prop :=
  activeQ q' = activeQ q /\ podBackoffQ q' = podBackoffQ q /\ unschedulableQ q' = unschedulableQ q.

Lemma same_at q q' pl j : same_pods q q' -> at_place q' pl j = at_place q pl j.
Proof. intros (Ha & Hb & Hu). destruct pl; simpl; congruence. Qed.

Lemma same_wfq q q' : same_pods q q' -> wfq q -> wfq q'.
Proof. intros (Ha & Hb & Hu) [H1 H2 H3]. split; [by rewrite Ha|by rewrite Hb|by rewrite Hu]. Qed.

Lemma same_find q q' j : same_pods q q' -> find q' j = find q j.
Proof. intros H. unfold find. by rewrite !(same_at q q'). Qed.

Lemma same_shows q q' w : same_pods q q' -> shows q w -> shows q' w.
Proof.
  intros H [[Hw Hs] Hf]. apply shows_intro; [by eapply same_wfq|].
  intros j pl p Hj. rewrite (same_at q q') by done. rewrite <- Hf by done. symmetry. by apply find_at.
Qed.

Lemma shows_find q : qinv q -> shows q (find q).
Proof. done. Qed.

Lemma at_None q pl j p : separate q -> valid_id j -> find q j = Some (pl, p) ->
  forall pl', pl' <> pl -> at_place q pl' j = None.
Proof.
  intros Hs Hj Hf pl' Hne. apply eq_None_not_Some. intros [p' Hp'].
  apply find_at in Hf; [|done..]. destruct Hne. by eapply Hs.
Qed.

Lemma find_None q j : find q j = None -> forall pl, at_place q pl j = None.
Proof.
  unfold find. intros H. destruct (at_place q Active j) eqn:Ea; [done|].
  destruct (at_place q Backoff j) eqn:Eb; [done|]. apply fmap_None in H. by intros [].
Qed.

(** The pod [i] ends in one place or in none, and nothing else changes. *)
Lemma shows_update q q' i e :
  qinv q -> wfq q' ->
  (forall pl j, valid_id j -> j <> i -> at_place q' pl j = at_place q pl j) ->
  (forall pl p, at_place q' pl i = Some p <-> e = Some (pl, p)) ->
  shows q' (fun j => if decide (j = i) then e else find q j).
Proof.
  intros [Hw Hs] Hw' Hne He. apply shows_intro; [done|]. intros j pl p Hj. simpl.
  case_decide as E; [subst; apply He|]. rewrite Hne by done. symmetry. by apply find_at.
Qed.

(** *** Adding and deleting *)

Lemma changes_refl q pl i o :
  wfq q -> valid_id i -> at_place q pl i = o -> changes q q pl i o.
Proof.
  intros Hw Hi Ho. split_and!; [done| |done]. intros pl' j Hj.
  case_decide as E; [|done]. by destruct E as [-> ->].
Qed.

Lemma Add_ok now pod q :
  qinv q -> valid_pod pod ->
  exists q', Add cfg now pod q = Ret (q', None) /\
    shows q' (w_put (pid pod) (Active, (newQueuedPodInfo now pod q).1) (find q)) /\
    rest q' = (schedulingCycle q, moveRequestCycle q, closed q, next_addr q + 1, broadcasts q + 1).
Proof.
  intros [Hw Hs] Hv. unfold Add. destruct (newQueuedPodInfo now pod q) as [p q0] eqn:E0.
  unfold newQueuedPodInfo in E0. injection E0 as Hp Hq0.
  assert (qpi_Pod p = pod) as Hpod by (by subst p). assert (valid_pod (qpi_Pod p)) as Hvp by (by rewrite Hpod).
  assert (wfq q0) as Hw0 by (subst q0; by apply (same_wfq q)).
  destruct (aQ_Add_ok q0 p Hw0 Hvp) as [He (Hw1 & H1 & R1)].
  destruct (aQ_Add cfg p q0) as [q1 e1] eqn:E1. cbn [fst snd] in *. subst e1.
  set (q2 := match u_get pod q1 with Some _ => u_delete pod q1 | None => q1 end).
  assert (changes q1 q2 Unschedulable (pid pod) None) as (Hw2 & H2 & R2).
  { unfold q2. destruct (u_get pod q1) eqn:Eu; [by apply u_delete_ok|by apply changes_refl]. }
  destruct (bQ_Delete_ok q2 p Hw2 Hvp) as (q3 & Hd & Hw3 & H3 & R3). rewrite Hd. cbn [obind fst snd].
  eexists. split_and!; [reflexivity| |]; rewrite Hpod in *.
  - apply (same_shows q3); [done|].
    apply (shows_update q q3 (pid pod) (Some (Active, p))); [done|done| |].
    + intros pl j Hj Hne. rewrite H3, H2, H1, !decide_False by (done || naive_solver). by subst q0; destruct pl.
    + intros pl p'. rewrite H3, H2, H1 by done. destruct pl; repeat case_decide; naive_solver.
  - rewrite R2, R1 in R3. subst q0. unfold rest in *. simpl in *. congruence.
Qed.

Definition to_active (e : place * QueuedPodInfo) : place * QueuedPodInfo := (Active, e.2).
Definition waits_inactive (o : option (place * QueuedPodInfo)) : bool :=
  match o with Some (Active, _) | None => false | Some _ => true end.

Lemma find_info_pid q i pl p : qinv q -> valid_id i -> find q i = Some (pl, p) ->
  pid (qpi_Pod p) = i /\ valid_pod (qpi_Pod p).
Proof. intros [Hw Hs] Hi Hf%find_at; [|done..]. by eapply at_place_pid. Qed.

Lemma activate_ok pod q :
  qinv q -> valid_pod pod ->
  exists q', activate cfg pod q = Ret (q', waits_inactive (find q (pid pod))) /\
    shows q' (fun j => if decide (j = pid pod) then to_active <$> find q j else find q j) /\
    rest q' = rest q.
Proof.
  intros Hq Hv. pose proof Hq as [Hw Hs]. unfold activate. rewrite !heap_find_contents. cbn [qpi_Pod newQueuedPodInfoForLookup pi_Pod qpi_PodInfo].
  change (contents (activeQ q) !! mkey (pid pod)) with (at_place q Active (pid pod)).
  change (contents (podBackoffQ q) !! mkey (pid pod)) with (at_place q Backoff (pid pod)).
  change (u_get pod q) with (at_place q Unschedulable (pid pod)).
  destruct (find q (pid pod)) as [[pl p]|] eqn:Ef.
  2:{ rewrite !(find_None q _ Ef). exists q. split_and!; [done| |done].
      split; [done|]. intros j Hj. case_decide; [subst; by rewrite Ef|done]. }
  destruct (decide (pl = Active)) as [->|Hpl].
  { rewrite (proj1 (find_at q _ _ _ Hs Hv) Ef). exists q. split_and!; [done| |done].
    split; [done|]. intros j Hj. case_decide; [subst; by rewrite Ef|done]. }
  rewrite (at_None q pl _ p Hs Hv Ef Active) by done.
  pose proof (proj1 (find_at q _ _ _ Hs Hv) Ef) as Hat.
  destruct (find_info_pid q _ _ _ Hq Hv Ef) as [Hpid Hvp].
  set (found := match at_place q Unschedulable (pid pod) with Some p => Some p | None => at_place q Backoff (pid pod) end).
  assert (found = Some p) as ->.
  { unfold found. destruct pl; [done| |by rewrite Hat].
    by rewrite (at_None q Backoff _ p Hs Hv Ef Unschedulable). }
  destruct (aQ_Add_ok q p Hw Hvp) as [He (Hw1 & H1 & R1)].
  destruct (aQ_Add cfg p q) as [q1 e1]. cbn [fst snd] in *. subst e1.
  destruct (u_delete_ok q1 pod Hw1 Hv) as (Hw2 & H2 & R2).
  destruct (bQ_Delete_ok (u_delete pod q1) p Hw2 Hvp) as (q3 & Hd & Hw3 & H3 & R3). rewrite Hd.
  cbn [obind fst snd]. rewrite Hpid in *.
  exists (AddNominatedPod p "" q3). split_and!; [by destruct pl| |by rewrite R2, R1 in R3].
  apply (same_shows q3); [done|].
  assert (shows q3 (fun j => if decide (j = pid pod) then Some (Active, p) else find q j)) as [Hi Hf].
  { apply (shows_update q q3 (pid pod) (Some (Active, p))); [done|done| |].
    + intros pl' j Hj Hne. by rewrite H3, H2, H1, !decide_False by (done || naive_solver).
    + intros pl' p'. rewrite H3, H2, H1 by done. destruct pl'; repeat case_decide; naive_solver. }
  split; [done|]. intros j Hj. rewrite Hf by done. case_decide; [subst; by rewrite Ef|done].
Qed.

(** Whether a pod of the list has the name [j]. *)
Definition named (pods : list Pod) (j : podid) : bool := existsb (fun p => bool_decide (pid p = j)) pods.

Lemma activate_step_true l q q' b' :
  ofold (activate_step cfg) l (q, true) = Ret (q', b') -> b' = true.
Proof.
  revert q. induction l as [|x l IHl]; intros q; cbn [ofold]; [by intros [= <- <-]|].
  unfold activate_step at 1. destruct (activate cfg x _) as [[q1 b1]|]; [by apply IHl|done].
Qed.

Lemma activate_idle pod q q' :
  qinv q -> shows q' (fun j => if decide (j = pid pod) then to_active <$> find q j else find q j) ->
  waits_inactive (find q (pid pod)) = false -> no_new_active q q'.
Proof.
  intros [Hw Hs] [[Hw' Hs'] H] Ei j p Hj Hp%find_at; [|done..]. rewrite H in Hp by done.
  case_decide as E; [|apply find_at in Hp; [by eexists|done..]].
  subst j. destruct (find q (pid pod)) as [[[] p0]|] eqn:Ef; try done.
  apply find_at in Ef; [by eexists|done..].
Qed.

Lemma activate_fold pods q b :
  qinv q -> Forall valid_pod pods ->
  exists q' b', ofold (activate_step cfg) pods (q, b) = Ret (q', b') /\
    shows q' (fun j => if named pods j then to_active <$> find q j else find q j) /\
    rest q' = rest q /\ (b' = false -> no_new_active q q').
Proof.
  revert q b. induction pods as [|pod pods IH]; intros q b Hq HF.
  { exists q, b. split_and!; [done|by split|done|]. intros _ j p _ Hp. by eexists. }
  apply Forall_cons in HF as [Hv HF]. destruct (activate_ok pod q Hq Hv) as (q1 & E1 & Hs1 & R1).
  pose proof Hs1 as [Hq1 H1]. cbn [ofold]. unfold activate_step at 1. cbn [fst snd]. rewrite E1. cbn [obind fst snd].
  destruct (IH q1 (b || waits_inactive (find q (pid pod))) Hq1 HF) as (q2 & b2 & E2 & [Hq2 H2] & R2 & W2).
  exists q2, b2. split_and!; [done| |congruence|].
  - split; [done|]. intros j Hj. rewrite H2, H1 by done. unfold named. simpl.
    destruct (bool_decide_reflect (pid pod = j)) as [<-|Hne]; simpl.
    + rewrite decide_True by done. destruct (existsb _ pods); [|done].
      by destruct (find q (pid pod)) as [[]|].
    + by rewrite decide_False.
  - intros -> j p Hj Hp. destruct (W2 eq_refl j p Hj Hp) as [p1 Hp1].
    destruct (waits_inactive (find q (pid pod))) eqn:Ew.
    { rewrite orb_true_r in E2. by apply activate_step_true in E2. }
    by apply (activate_idle pod q q1 Hq Hs1 Ew j p1).
Qed.

Lemma Activate_ok pods q :
  qinv q -> map_Forall (fun _ => valid_pod) pods ->
  exists q', Activate cfg pods q = Ret q' /\
    shows q' (fun j => if named (map snd (map_to_list pods)) j then to_active <$> find q j else find q j) /\
    wakes q q' /\ (schedulingCycle q', moveRequestCycle q', closed q', next_addr q') =
                  (schedulingCycle q, moveRequestCycle q, closed q, next_addr q).
Proof.
  intros Hq HF. unfold Activate.
  destruct (activate_fold (map snd (range 0 (map_to_list pods))) q false Hq) as (q' & b' & -> & [Hq' H] & R & W).
  { rewrite Forall_fmap. rewrite range_perm. apply map_Forall_to_list in HF.
    eapply Forall_impl; [exact HF|]. by intros []. }
  cbn [obind fst snd]. unfold rest in R. injection R as R1 R2 R3 R4 R5.
  assert (forall j, named (map snd (range 0 (map_to_list pods))) j = named (map snd (map_to_list pods)) j) as Hn.
  { intros j. unfold named. apply existsb_perm. apply Permutation_map, range_perm. }
  exists (if b' then Broadcast q' else q'). split_and!; [done| | |destruct b'; simpl; congruence].
  - apply (same_shows q'); [by destruct b'|]. split; [done|]. intros j Hj. by rewrite H, Hn.
  - destruct b'; [left; simpl; lia|right; by split; [|apply W]].
Qed.

Definition already (pl : place) : string :=
  match pl with
  | Unschedulable => "is already present in unschedulable queue"
  | Active => "is already present in the active queue"
  | Backoff => "is already present in the backoff queue"
  end.

Lemma find_idle q q' w :
  qinv q -> shows q' w -> (forall j p, valid_id j -> w j = Some (Active, p) -> exists p', find q j = Some (Active, p')) ->
  no_new_active q q'.
Proof.
  intros [Hw Hs] [[Hw' Hs'] H] Hn j p Hj Hp%find_at; [|done..]. rewrite H in Hp by done.
  destruct (Hn j p Hj Hp) as [p' Hp'%find_at]; [by eexists|done..].
Qed.

Lemma AddUnschedulable_ok now p cycle q :
  qinv q -> valid_pod (qpi_Pod p) ->
  let r := AddUnschedulableIfNotPresent cfg now p cycle q in
  match find q (pid (qpi_Pod p)) with
  | Some (pl, _) => r = (q, Some (already pl))
  | None => r.2 = None /\ rest r.1 = rest q /\ no_new_active q r.1 /\
      shows r.1 (w_put (pid (qpi_Pod p))
        ((if cycle <=? moveRequestCycle q then Backoff else Unschedulable), set_Timestamp now p) (find q))
  end.
Proof.
  intros Hq Hv. pose proof Hq as [Hw Hs]. unfold AddUnschedulableIfNotPresent. rewrite !heap_find_contents.
  set (i := pid (qpi_Pod p)) in *.
  change (u_get (qpi_Pod p) q) with (at_place q Unschedulable i).
  change (contents (activeQ q) !! mkey i) with (at_place q Active i).
  change (contents (podBackoffQ q) !! mkey i) with (at_place q Backoff i).
  destruct (find q i) as [[pl p0]|] eqn:Ef.
  { pose proof (proj1 (find_at q pl i p0 Hs Hv) Ef) as Hat.
    pose proof (at_None q pl i p0 Hs Hv Ef) as Hn.
    destruct pl; rewrite ?(Hn Unschedulable), ?(Hn Active), ?(Hn Backoff), Hat by done; done. }
  rewrite !(find_None q _ Ef). cbv zeta. set (p' := set_Timestamp now p).
  assert (valid_pod (qpi_Pod p')) as Hv' by done. assert (pid (qpi_Pod p') = i) as Hi by done.
  assert (forall pl q', pl <> Active -> changes q q' pl i (Some p') ->
    rest (AddNominatedPod p' "" q') = rest q /\ no_new_active q (AddNominatedPod p' "" q') /\
    shows (AddNominatedPod p' "" q') (w_put i (pl, p') (find q))) as Hend.
  { intros pl q' Hpl (Hw' & H' & R').
    assert (shows (AddNominatedPod p' "" q') (w_put i (pl, p') (find q))) as Hsh.
    { apply (same_shows q'); [done|]. apply (shows_update q q' i (Some (pl, p'))); [done|done| |].
      - intros pl2 j Hj Hne. by rewrite H', decide_False by (done || naive_solver).
      - intros pl2 p2. rewrite H' by done. case_decide; [naive_solver|].
        rewrite (find_None q _ Ef). naive_solver. }
    split_and!; [done| |done]. eapply (find_idle q); [done|exact Hsh|].
    intros j p2 Hj. unfold w_put. case_decide; [naive_solver|by eexists]. }
  destruct (cycle <=? moveRequestCycle q).
  - destruct (bQ_Add_ok q p' Hw Hv') as [He Hc]. destruct (bQ_Add cfg p' q) as [q1 e1]. cbn [fst snd] in *.
    subst e1. split; [done|]. by apply Hend.
  - split; [done|]. apply Hend; [done|]. by apply u_add_ok.
Qed.

Lemma Delete_ok pod q :
  qinv q -> valid_pod pod ->
  exists q', Delete cfg pod q = Ret (q', None) /\ shows q' (w_del (pid pod) (find q)) /\
    rest q' = rest q /\ no_new_active q q'.
Proof.
  intros Hq Hv. pose proof Hq as [Hw Hs]. unfold Delete.
  set (q0 := set_nominator _ q). set (lk := newQueuedPodInfoForLookup pod).
  assert (wfq q0) as Hw0 by (by apply (same_wfq q)).
  destruct (aQ_Delete_ok q0 lk Hw0 Hv) as (q1 & E1 & Hw1 & H1 & R1). rewrite E1. cbn [obind].
  change (pid (qpi_Pod lk)) with (pid pod) in *.
  assert (forall q', wfq q' -> rest q' = rest q0 ->
    (forall pl j, valid_id j -> j <> pid pod -> at_place q' pl j = at_place q0 pl j) ->
    (forall pl, at_place q' pl (pid pod) = None) ->
    shows q' (w_del (pid pod) (find q)) /\ rest q' = rest q /\ no_new_active q q') as Hend.
  { intros q' Hw' HR Hne Hno.
    assert (shows q' (w_del (pid pod) (find q))) as Hsh.
    { apply (shows_update q q' (pid pod) None); [done|done| |].
      - intros pl j Hj Hji. rewrite Hne by done. by apply same_at.
      - intros pl p. by rewrite Hno. }
    split_and!; [done|done|]. eapply (find_idle q); [done|exact Hsh|].
    intros j p2 Hj. unfold w_del. case_decide; [done|by eexists]. }
  destruct (at_place q0 Active (pid pod)) as [p|] eqn:Ea.
  - exists q1. split; [done|]. apply Hend; [done|done| |].
    + intros pl j Hj Hne. by rewrite H1, decide_False by (done || naive_solver).
    + intros pl. rewrite H1 by done. case_decide as E; [done|].
      rewrite (same_at q) by done. apply eq_None_not_Some. intros [p' Hp']. destruct E. split; [|done].
      rewrite (same_at q) in Ea by done. by eapply Hs.
  - destruct (bQ_Delete_ok q1 lk Hw1 Hv) as (q2 & E2 & Hw2 & H2 & R2). rewrite E2. cbn [obind fst snd].
    destruct (u_delete_ok q2 pod Hw2 Hv) as (Hw3 & H3 & R3).
    exists (u_delete pod q2). split; [done|]. apply Hend; [done|congruence| |].
    + intros pl j Hj Hne. by rewrite H3, H2, H1, !decide_False by (done || naive_solver).
    + intros pl. rewrite H3, H2, H1 by done. destruct pl; repeat case_decide; naive_solver.
Qed.

Lemma Pop_ok q :
  qinv q ->
  exists q' r, Pop cfg q = Ret (q', r) /\
    ((exists i p, valid_id i /\ find q i = Some (Active, p) /\
        (forall j p', valid_id j -> find q j = Some (Active, p') -> lessFn cfg p' p = false) /\
        r = PopItem (set_Attempts (Attempts p +₆₄ 1) p) /\ shows q' (w_del i (find q)) /\
        rest q' = (schedulingCycle q +₆₄ 1, moveRequestCycle q, closed q, next_addr q, broadcasts q)) \/
     ((forall j p, valid_id j -> find q j <> Some (Active, p)) /\ q' = q /\
      r = if closed q then PopError "scheduling queue is closed" else PopWait)).
Proof.
  intros Hq. pose proof Hq as [Hw Hs]. unfold Pop. pose proof (wf_active q Hw) as Ha.
  destruct (Nat.eqb_spec (Heap_Len (activeQ q)) 0) as [H0|H0].
  { apply (pod_heap_Len _ _ Ha) in H0. exists q, (if closed q then PopError "scheduling queue is closed" else PopWait).
    split; [by destruct (closed q)|]. right. split_and!; [|done|done].
    intros j p Hj Hf%find_at; [|done..]. simpl in Hf. by rewrite H0 in Hf. }
  destruct (pod_heap_Pop _ _ Ha H0) as (p & h' & -> & Hh' & _ & _ & Hk & Hleast & Hc). cbn [obind fst snd].
  destruct Ha as [_ Hval]. pose proof (Hval _ _ Hk) as Hv.
  eexists _, _. split; [reflexivity|]. left. exists (pid (qpi_Pod p)), p. split_and!; [done| | |done| |done].
  - by apply find_at.
  - intros j p' Hj Hf%find_at; [|done..]. by eapply Hleast.
  - apply (same_shows (set_activeQ h' q)); [done|].
    apply (shows_update q _ (pid (qpi_Pod p)) None); [done| | |].
    + split; [done|by apply Hw|by apply Hw].
    + intros pl j Hj Hne. destruct pl; simpl; [|done..]. by rewrite Hc, decide_False.
    + intros pl p'. split; [|done]. intros Hp'. destruct pl; simpl in Hp'.
      * by rewrite Hc, decide_True in Hp'.
      * by assert (Backoff = Active) by (by eapply (Hs (pid (qpi_Pod p)))).
      * by assert (Unschedulable = Active) by (by eapply (Hs (pid (qpi_Pod p)))).
Qed.

(** *** The pods that wait, in whatever place *)

Definition podat (q : PriorityQueue) (i : podid) : option Pod := (fun e : place * QueuedPodInfo => qpi_Pod e.2) <$> find q i.

Definition holds_pods (q' : PriorityQueue) (w : podid -> option Pod) : Prop :=
  qinv q' /\ forall j, valid_id j -> podat q' j = w j.

Lemma shows_holds q' w : shows q' w -> holds_pods q' (fun j => (fun e : place * QueuedPodInfo => qpi_Pod e.2) <$> w j).
Proof. intros [Hq H]. split; [done|]. intros j Hj. unfold podat. by rewrite H. Qed.

Lemma same_holds q q' : qinv q -> same_pods q q' -> holds_pods q' (podat q).
Proof.
  intros Hq Hs. split; [by apply (same_shows q q' (find q))|]. intros j _. unfold podat. by rewrite (same_find q q').
Qed.

Lemma podat_Some q i p : podat q i = Some p <-> exists pl e, find q i = Some (pl, e) /\ qpi_Pod e = p.
Proof.
  unfold podat. rewrite fmap_Some. split; [intros ([pl e] & -> & ->); by exists pl, e|].
  intros (pl & e & -> & <-). by exists (pl, e).
Qed.

Lemma podat_is_Some q i : is_Some (podat q i) <-> is_Some (find q i).
Proof. unfold podat. apply fmap_is_Some. Qed.

Lemma podat_pid q i p : qinv q -> valid_id i -> podat q i = Some p -> pid p = i /\ valid_pod p.
Proof. intros [Hw Hs] Hi (pl & e & Hf%find_at & <-)%podat_Some; [|done..]. by eapply at_place_pid. Qed.
End queue_proofs.
