(* ===== verification/QueueRefine.v ===== *)
(** * The scheduling queue refines a map of waiting pods

    The loops that move pods between the parts of the queue, and the
    refinement of the whole queue by a map from pods to places. *)

From S2P Require Import Prelude GoInt GoFloat GoStrconv Quantity ApiTypes Labels AffinityTerms Framework HeapList Heap HeapProofs SchedulingQueue QueueProofs Resource HostPorts NodeInfo Samples.

Section queue_moves.
Context {mr : MapRange} (cfg : QueueConfig) `{!LessOrder (lessFn cfg)}.

Abbreviation qinv := (QueueProofs.qinv cfg).
Abbreviation shows := (QueueProofs.shows cfg).

(** The counters and flags of a queue. *)
Definition regs (q : PriorityQueue) : Z * Z * bool * Z :=
  (schedulingCycle q, moveRequestCycle q, closed q, next_addr q).

Lemma rest_regs q q' : rest q' = rest q -> regs q' = regs q /\ broadcasts q' = broadcasts q.
Proof. unfold rest, regs. intros [= -> -> -> -> ->]. done. Qed.

(** *** [flushBackoffQCompleted] *)

Definition flush_entry (now : Z) (e : place * QueuedPodInfo) : place * QueuedPodInfo :=
  match e with
  | (Backoff, p) => if isPodBackingoff cfg now p then e else (Active, p)
  | _ => e
  end.

Lemma flush_idle now q :
  qinv q -> (forall j p, valid_id j -> find q j = Some (Backoff, p) -> isPodBackingoff cfg now p = true) ->
  shows q (fun j => flush_entry now <$> find q j).
Proof.
  intros Hq H. split; [done|]. intros j Hj. destruct (find q j) as [[[] p]|] eqn:E; simpl; try done.
  by rewrite (H j p Hj E).
Qed.

(** A pod taken off the backoff heap and made active. *)
Lemma flush_one q p h' :
  qinv q -> pod_heap (podsCompareBackoffCompleted cfg) h' ->
  contents (podBackoffQ q) !! mkey (pid (qpi_Pod p)) = Some p ->
  (forall j, valid_id j -> contents h' !! mkey j =
     if decide (j = pid (qpi_Pod p)) then None else contents (podBackoffQ q) !! mkey j) ->
  let q1 := Broadcast (aQ_Add cfg p (set_podBackoffQ h' q)).1 in
  shows q1 (w_put (pid (qpi_Pod p)) (Active, p) (find q)) /\ regs q1 = regs q /\
  broadcasts q1 = broadcasts q + 1 /\ podBackoffQ q1 = h'.
Proof.
  intros Hq Hh' Hk Hc. pose proof Hq as [[Ha Hb Hu] Hs]. pose proof (proj2 Hb _ _ Hk) as Hv.
  assert (wfq cfg (set_podBackoffQ h' q)) as Hw0 by (by split).
  destruct (aQ_Add_ok cfg _ p Hw0 Hv) as [_ (Hw1 & H1 & R1)]. cbv zeta. split_and!; [|done..].
  apply (same_shows cfg (aQ_Add cfg p (set_podBackoffQ h' q)).1); [done|].
  apply (shows_update cfg q _ (pid (qpi_Pod p)) (Some (Active, p))); [done|done| |].
  - intros pl j Hj Hne. rewrite H1, decide_False by (done || naive_solver).
    destruct pl; simpl; [done| |done]. by rewrite Hc, decide_False.
  - intros pl p'. rewrite H1 by done. case_decide as E; [naive_solver|].
    destruct pl; simpl; [naive_solver| |].
    + rewrite Hc, decide_True by done. naive_solver.
    + split; [|naive_solver]. intros Hp'.
      by assert (Unschedulable = Backoff) by (by eapply (Hs (pid (qpi_Pod p)))).
Qed.

Lemma flush_loop_ok n now q :
  qinv q -> Heap_Len (podBackoffQ q) = n ->
  exists q', flush_loop cfg n now q = Ret q' /\ shows q' (fun j => flush_entry now <$> find q j) /\
    wakes q q' /\ regs q' = regs q.
Proof.
  revert q. induction n as [|n IH]; intros q Hq Hn; pose proof Hq as [[Ha Hb Hu] Hs].
  - apply (pod_heap_Len _ _ Hb) in Hn. cbn [flush_loop].
    pose proof (pod_heap_Peek _ _ Hb) as Hp.
    assert (Heap_Peek (podBackoffQ q) = None) as ->.
    { destruct (Heap_Peek (podBackoffQ q)) eqn:E; [|done].
      assert (Heap_Len (podBackoffQ q) = 0%nat) as H0 by (by apply (pod_heap_Len _ _ Hb)).
      unfold Heap_Peek, d_Peek, item_at in E. unfold Heap_Len in H0. by destruct (queue (podBackoffQ q)). }
    exists q. split_and!; [done| |right; split; [done|]; intros j p _ H; by eexists|done].
    apply flush_idle; [done|]. intros j p Hj Hf%find_at; [|done..]. simpl in Hf. by rewrite Hn in Hf.
  - destruct (pod_heap_Pop _ _ Hb) as (p & h' & Hpop & Hh' & Hpk & Hlen & Hk & Hleast & Hc); [lia|].
    cbn [flush_loop]. rewrite Hpk. destruct (Z.ltb_spec now (getBackoffTime cfg p)) as [Hlt|Hge].
    + exists q. split_and!; [done| |right; split; [done|]; intros j p' _ H; by eexists|done].
      apply flush_idle; [done|]. intros j p' Hj Hf%find_at; [|done..].
      specialize (Hleast _ _ Hf). unfold podsCompareBackoffCompleted in Hleast. zify_bool.
      unfold isPodBackingoff. apply Z.ltb_lt. lia.
    + rewrite Hpop. cbn [obind fst snd].
      destruct (flush_one q p h' Hq Hh' Hk Hc) as ([Hq1 H1] & R1 & B1 & Hb1).
      set (q1 := Broadcast _) in *.
      destruct (IH q1 Hq1) as (q' & -> & [Hq' H'] & W' & R'); [rewrite Hb1; lia|].
      exists q'. split_and!; [done| | |congruence].
      * split; [done|]. intros j Hj. rewrite H', H1 by done. unfold w_put.
        case_decide as E; [|done]. subst j.
        assert (find q (pid (qpi_Pod p)) = Some (Backoff, p)) as ->
          by (apply find_at; [done|by apply (proj2 Hb _ _ Hk)|done]).
        simpl. unfold isPodBackingoff. by rewrite (proj2 (Z.ltb_ge now (getBackoffTime cfg p)) Hge).
      * left. destruct W' as [W'|[W' _]]; lia.
Qed.

(** *** Moving pods out of [unschedulableQ] *)

(** Whether an event lets a pod leave, and where it goes. *)
Definition event_helps (event : ClusterEvent) (p : QueuedPodInfo) : bool :=
  (size (UnschedulablePlugins p) =? 0)%nat || podMatchesEvent cfg p event.
Definition destination (now : Z) (p : QueuedPodInfo) : place :=
  if isPodBackingoff cfg now p then Backoff else Active.

Definition move_entry (now : Z) (event : ClusterEvent) (chosen : QueuedPodInfo -> bool)
    (e : place * QueuedPodInfo) : place * QueuedPodInfo :=
  match e with
  | (Unschedulable, p) =>
      if chosen p && event_helps event p then (destination now p, p) else e
  | _ => e
  end.

Lemma move_step_skip now event q m p :
  event_helps event p = false -> move_step cfg now event (q, m) p = (q, m).
Proof.
  unfold event_helps, move_step. intros [H1 H2]%orb_false_iff. by rewrite H1, H2.
Qed.

(** The pod is put at [pl] and taken out of [unschedulableQ]. *)
Lemma transfer_shows q q1 pl p :
  qinv q -> valid_pod (qpi_Pod p) -> changes cfg q q1 pl (pid (qpi_Pod p)) (Some p) ->
  pl <> Unschedulable ->
  (forall pl', pl' <> Unschedulable -> at_place q pl' (pid (qpi_Pod p)) = None) ->
  shows (u_delete (qpi_Pod p) q1) (w_put (pid (qpi_Pod p)) (pl, p) (find q)) /\
  rest (u_delete (qpi_Pod p) q1) = rest q.
Proof.
  intros Hq Hv (Hw1 & H1 & R1) Hpl Hn.
  destruct (u_delete_ok cfg q1 (qpi_Pod p) Hw1 Hv) as (Hw2 & H2 & R2). split; [|congruence].
  apply (shows_update cfg q _ (pid (qpi_Pod p)) (Some (pl, p))); [done|done| |].
  - intros pl' j Hj Hne. by rewrite H2, H1, !decide_False by (done || naive_solver).
  - intros pl' p'. rewrite H2, H1 by done. case_decide as E; [naive_solver|]. case_decide; [naive_solver|].
    rewrite Hn; naive_solver.
Qed.

Lemma move_step_ok now event q m p :
  qinv q -> valid_pod (qpi_Pod p) -> find q (pid (qpi_Pod p)) = Some (Unschedulable, p) ->
  event_helps event p = true ->
  exists q', move_step cfg now event (q, m) p = (q', true) /\ rest q' = rest q /\
    shows q' (w_put (pid (qpi_Pod p)) (destination now p, p) (find q)).
Proof.
  intros Hq Hv Hf He. pose proof Hq as [Hw Hs]. unfold move_step, destination.
  assert (negb (size (UnschedulablePlugins p) =? 0)%nat && negb (podMatchesEvent cfg p event) = false) as ->.
  { unfold event_helps in He. destruct (_ =? 0)%nat; [done|]. simpl in *. by rewrite He. }
  pose proof (at_None q Unschedulable _ p Hs Hv Hf) as Hn.
  destruct (isPodBackingoff cfg now p).
  - destruct (bQ_Add_ok cfg q p Hw Hv) as [He1 Hc]. destruct (bQ_Add cfg p q) as [q1 e1]. cbn [fst snd] in *.
    subst e1. destruct (transfer_shows q q1 Backoff p Hq Hv Hc ltac:(done) Hn). by eexists.
  - destruct (aQ_Add_ok cfg q p Hw Hv) as [He1 Hc]. destruct (aQ_Add cfg p q) as [q1 e1]. cbn [fst snd] in *.
    subst e1. destruct (transfer_shows q q1 Active p Hq Hv Hc ltac:(done) Hn). by eexists.
Qed.

Lemma named_cons p l j : named (p :: l) j = bool_decide (pid p = j) || named l j.
Proof. done. Qed.

Lemma named_elem l j : named l j = true <-> exists p, p ∈ l /\ pid p = j.
Proof.
  unfold named. rewrite existsb_exists. split; intros (p & Hp & E); exists p;
    rewrite ?bool_decide_eq_true in *; (split; [by apply list_elem_of_In|done]).
Qed.

Lemma move_fold now event l q m :
  qinv q -> NoDup (map (pid ∘ qpi_Pod) l) ->
  (forall p, p ∈ l -> valid_pod (qpi_Pod p) /\ find q (pid (qpi_Pod p)) = Some (Unschedulable, p)) ->
  exists q', fold_left (move_step cfg now event) l (q, m) = (q', m || existsb (event_helps event) l) /\
    rest q' = rest q /\
    shows q' (fun j => if named (map qpi_Pod l) j
                       then move_entry now event (fun _ => true) <$> find q j else find q j).
Proof.
  revert q m. induction l as [|p l IH]; intros q m Hq Hnd Hl.
  { exists q. simpl. rewrite orb_false_r. by split_and!. }
  cbn [map] in Hnd. apply NoDup_cons in Hnd as [Hni Hnd]. destruct (Hl p) as [Hv Hf]; [left|].
  cbn [fold_left existsb map].
  destruct (event_helps event p) eqn:He; cbn [orb].
  - destruct (move_step_ok now event q m p Hq Hv Hf He) as (q1 & -> & R1 & [Hq1 H1]).
    destruct (IH q1 true Hq1 Hnd) as (q2 & -> & R2 & [Hq2 H2]).
    { intros p' Hp'. destruct (Hl p') as [Hv' Hf']; [by right|]. split; [done|].
      rewrite H1 by done. unfold w_put. rewrite decide_False; [done|].
      intros E. apply Hni. apply list_elem_of_fmap. by exists p'. }
    exists q2. rewrite orb_true_r. split_and!; [done|congruence|]. split; [done|]. intros j Hj.
    rewrite H2, H1 by done. rewrite named_cons. unfold w_put.
    destruct (decide (j = pid (qpi_Pod p))) as [->|Hne].
    + rewrite bool_decide_true by done. rewrite Hf. simpl. rewrite He.
      by destruct (named _ _), (destination now p) eqn:Ed;
        try done; unfold destination in Ed; destruct (isPodBackingoff _ _ _).
    + by rewrite bool_decide_false.
  - rewrite move_step_skip by done. destruct (IH q m Hq Hnd) as (q2 & -> & R2 & [Hq2 H2]).
    { intros p' Hp'. apply Hl. by right. }
    exists q2. split_and!; [done|done|]. split; [done|]. intros j Hj. rewrite H2 by done. rewrite named_cons.
    destruct (bool_decide_reflect (pid (qpi_Pod p) = j)) as [<-|Hne]; [|done].
    simpl. rewrite Hf. simpl. rewrite He. by destruct (named _ _).
Qed.

Lemma u_range_elem n q p : p ∈ u_range n q <-> exists k, unschedulableQ q !! k = Some p.
Proof.
  unfold u_range. rewrite list_elem_of_fmap. split.
  - intros ([k p'] & -> & H). rewrite range_perm in H. exists k. by apply elem_of_map_to_list.
  - intros [k H]. exists (k, p). split; [done|]. rewrite range_perm. by apply elem_of_map_to_list.
Qed.

Lemma u_range_find n q p : qinv q ->
  p ∈ u_range n q <-> valid_pod (qpi_Pod p) /\ find q (pid (qpi_Pod p)) = Some (Unschedulable, p).
Proof.
  intros [Hw Hs]. rewrite u_range_elem. split.
  - intros [k Hk]. destruct (wf_unsched cfg q Hw k p Hk) as [-> Hv]. split; [done|]. by apply find_at.
  - intros [Hv Hf%find_at]; [|done..]. by eexists.
Qed.

Lemma u_range_nodup n q : qinv q -> NoDup (map (pid ∘ qpi_Pod) (u_range n q)).
Proof.
  intros [Hw _]. unfold u_range. rewrite (map_map snd (pid ∘ qpi_Pod)).
  apply (NoDup_fmap_2_strong (fun e : string * QueuedPodInfo => pid (qpi_Pod e.2))).
  - intros [k p] [k' p'] H H' E. rewrite range_perm, elem_of_map_to_list in H, H'. simpl in E.
    destruct (wf_unsched cfg q Hw k p H) as [-> _], (wf_unsched cfg q Hw k' p' H') as [-> _].
    rewrite <- !fkey_pid, E in *. congruence.
  - rewrite range_perm. apply NoDup_map_to_list.
Qed.

Lemma list_filter_elem {A} (f : A -> bool) l x : x ∈ List.filter f l <-> x ∈ l /\ f x = true.
Proof. rewrite !list_elem_of_In. apply filter_In. Qed.

Lemma movePods_ok now event chosen q :
  qinv q ->
  let q' := movePodsToActiveOrBackoffQueue cfg now (List.filter chosen (u_range 0 q)) event q in
  shows q' (fun j => move_entry now event chosen <$> find q j) /\ wakes q q' /\
  regs q' = (schedulingCycle q, schedulingCycle q, closed q, next_addr q).
Proof.
  intros Hq. unfold movePodsToActiveOrBackoffQueue. set (l := List.filter chosen (u_range 0 q)).
  assert (forall p, p ∈ l <-> (valid_pod (qpi_Pod p) /\ find q (pid (qpi_Pod p)) = Some (Unschedulable, p))
    /\ chosen p = true) as Hl.
  { intros p. unfold l. by rewrite list_filter_elem, u_range_find. }
  destruct (move_fold now event l q false Hq) as (q1 & -> & R1 & [Hq1 H1]).
  { apply NoDup_map_filter. by apply u_range_nodup. }
  { intros p Hp. by apply Hl. }
  cbn [orb]. set (q2 := set_moveRequestCycle _ q1).
  assert (shows q1 (fun j => move_entry now event chosen <$> find q j)) as Hsh.
  { split; [done|]. intros j Hj. rewrite H1 by done.
    destruct (find q j) as [[[] p]|] eqn:Ef; try by destruct (named _ _).
    destruct (find_info_pid cfg q _ _ _ Hq Hj Ef) as [<- Hv]. simpl.
    destruct (chosen p) eqn:Ec; simpl.
    - assert (named (map qpi_Pod l) (pid (qpi_Pod p)) = true) as ->; [|done].
      apply named_elem. exists (qpi_Pod p). split; [|done]. apply list_elem_of_fmap. exists p.
      split; [done|]. by apply Hl.
    - destruct (named _ _) eqn:En; [|done].
      apply named_elem in En as (pod & (p' & -> & [[_ Hf'] Hc']%Hl)%list_elem_of_fmap & E).
      rewrite E, Ef in Hf'. congruence. }
  assert (shows q2 (fun j => move_entry now event chosen <$> find q j)) as Hsh2
    by (by apply (same_shows cfg q1)).
  unfold rest in R1. injection R1 as C1 C2 C3 C4 C5.
  split_and!; [by destruct (existsb _ l); [apply (same_shows cfg q2)|]| |].
  - destruct (existsb (event_helps event) l) eqn:Eh; [left; simpl; lia|]. right. split; [done|].
    apply (find_idle cfg q q2 _ Hq Hsh2). intros j p Hj.
    destruct (find q j) as [[[] p']|] eqn:Ef; simpl; try done; [by eexists|].
    destruct (find_info_pid cfg q _ _ _ Hq Hj Ef) as [<- Hv].
    destruct (chosen p') eqn:Ec; [|done]. destruct (event_helps event p') eqn:Ee; [|done]. exfalso.
    apply not_true_iff_false in Eh. apply Eh, existsb_exists. exists p'. split; [|done].
    apply list_elem_of_In, Hl. done.
  - unfold regs. destruct (existsb _ l); simpl; congruence.
Qed.

(** *** [Update] *)

Section update.
Context (DeepEqual : Pod -> Pod -> bool).

Definition pod_updated (o n : Pod) : bool := negb (DeepEqual (strip o) (strip n)).

(** The entry of a pod with the new object. *)
Definition renew (newPod : Pod) (p : QueuedPodInfo) : QueuedPodInfo :=
  set_qpi_PodInfo (PodInfo_Update (qpi_PodInfo p) newPod) p.

Definition update_entry (now : Z) (o n : Pod) (e : place * QueuedPodInfo) : place * QueuedPodInfo :=
  match e with
  | (Unschedulable, p) =>
      (if pod_updated o n then destination now (renew n p) else Unschedulable, renew n p)
  | (pl, p) => (pl, renew n p)
  end.

Lemma renew_pod n p : qpi_Pod (renew n p) = n.
Proof. apply PodInfo_Update_Pod. Qed.

(** The pod [i] is put at [pl], and is nowhere else. *)
Lemma put_shows q q1 pl p :
  qinv q -> valid_pod (qpi_Pod p) -> changes cfg q q1 pl (pid (qpi_Pod p)) (Some p) ->
  (forall pl', pl' <> pl -> at_place q pl' (pid (qpi_Pod p)) = None) ->
  shows q1 (w_put (pid (qpi_Pod p)) (pl, p) (find q)).
Proof.
  intros Hq Hv (Hw1 & H1 & _) Hn.
  apply (shows_update cfg q _ (pid (qpi_Pod p)) (Some (pl, p))); [done|done| |].
  - intros pl' j Hj Hne. by rewrite H1, decide_False by (done || naive_solver).
  - intros pl' p'. rewrite H1 by done. case_decide as E; [naive_solver|].
    rewrite Hn; naive_solver.
Qed.

Lemma same_qinv q q' : same_pods q q' -> qinv q -> qinv q'.
Proof. intros H Hq. by apply (same_shows cfg q q' (find q)). Qed.

Lemma w_put_idle q q' i e :
  qinv q -> shows q' (w_put i e (find q)) -> (e.1 = Active -> exists p, find q i = Some (Active, p)) ->
  no_new_active q q'.
Proof.
  intros Hq Hsh He. apply (find_idle cfg q q' _ Hq Hsh). intros j p Hj. unfold w_put.
  case_decide; [|by eexists]. subst. intros [= ->]. by apply He.
Qed.

Lemma update_unschedulable_ok now o n q p :
  qinv q -> valid_pod n -> find q (pid n) = Some (Unschedulable, p) ->
  exists q', update_unschedulable cfg DeepEqual now (Some o) n p q = Ret (q', None) /\
    shows q' (w_put (pid n) (update_entry now o n (Unschedulable, p)) (find q)) /\
    wakes q q' /\ regs q' = regs q.
Proof.
  intros Hq Hv Hf. pose proof Hq as [Hw Hs]. unfold update_unschedulable.
  change (updatePod p n q) with (renew n p, set_nominator (npm_write (pi_addr p) (qpi_PodInfo (renew n p)) (q_nominator q)) q).
  cbv iota. set (q0 := set_nominator _ q). unfold q_UpdateNominatedPod, UpdateNominatedPod. cbn [obind isPodUpdated].
  fold (pod_updated o n). set (q1 := set_nominator _ q0).
  assert (same_pods q q1) as Hsame by done. assert (qinv q1) as Hq1 by (by apply (same_qinv q)).
  pose proof Hq1 as [Hw1 Hs1]. pose proof (renew_pod n p) as Hpod.
  assert (valid_pod (qpi_Pod (renew n p))) as Hvr by (by rewrite Hpod).
  assert (forall pl', pl' <> Unschedulable -> at_place q1 pl' (pid (qpi_Pod (renew n p))) = None) as Hn.
  { rewrite Hpod. intros pl' Hpl'. rewrite (same_at q) by done. by eapply at_None. }
  assert (find q1 = find q) as Hfq by done.
  unfold update_entry. destruct (pod_updated o n); [|].
  - unfold destination. destruct (isPodBackingoff cfg now (renew n p)).
    + destruct (bQ_Add_ok cfg q1 _ Hw1 Hvr) as [He Hc]. destruct (bQ_Add cfg (renew n p) q1) as [q2 e2].
      cbn [fst snd] in *. subst e2.
      destruct (transfer_shows q1 q2 Backoff _ Hq1 Hvr Hc ltac:(done) Hn) as [Hsh HR].
      rewrite Hpod, Hfq in *. eexists. split_and!; [done|done| |by apply rest_regs in HR as [HR _]].
      right. apply rest_regs in HR as [_ HR]. split; [by rewrite HR|]. by eapply w_put_idle.
    + destruct (aQ_Add_ok cfg q1 _ Hw1 Hvr) as [He Hc]. destruct (aQ_Add cfg (renew n p) q1) as [q2 e2].
      cbn [fst snd] in *. subst e2.
      destruct (transfer_shows q1 q2 Active _ Hq1 Hvr Hc ltac:(done) Hn) as [Hsh HR].
      rewrite Hpod, Hfq in *. apply rest_regs in HR as [HR HB].
      eexists. split_and!; [done|by apply (same_shows cfg (u_delete n q2))| |done].
      left. simpl. simpl in HB. lia.
  - pose proof (u_add_ok cfg q1 _ Hw1 Hvr) as Hc.
    pose proof (put_shows q1 _ Unschedulable _ Hq1 Hvr Hc Hn) as Hsh. rewrite Hpod, Hfq in *.
    eexists. split_and!; [done|done| |done]. right. split; [done|]. by eapply w_put_idle.
Qed.

Lemma update_absent_ok now n q :
  qinv q -> valid_pod n -> (forall pl', pl' <> Active -> at_place q pl' (pid n) = None) ->
  exists q', update_absent cfg now n q = Ret (q', None) /\ wakes q q' /\
    shows q' (w_put (pid n) (Active, (newQueuedPodInfo now n q).1) (find q)) /\
    regs q' = (schedulingCycle q, moveRequestCycle q, closed q, next_addr q + 1).
Proof.
  intros Hq Hv Hn. unfold update_absent.
  destruct (newQueuedPodInfo now n q) as [p q0] eqn:E0. unfold newQueuedPodInfo in E0.
  injection E0 as Hp Hq0. assert (qpi_Pod p = n) as Hpod by (by subst p).
  assert (qinv q0) as Hqi by (subst q0; by apply (same_qinv q)).
  assert (valid_pod (qpi_Pod p)) as Hvp by (by rewrite Hpod).
  destruct (aQ_Add_ok cfg q0 p ltac:(by apply Hqi) Hvp) as [He Hc].
  pose proof Hc as (_ & _ & HR). destruct (aQ_Add cfg p q0) as [q1 e1]. cbn [fst snd] in *. subst e1.
  pose proof (put_shows q0 q1 Active p Hqi Hvp Hc) as Hsh. rewrite Hpod in *.
  apply rest_regs in HR as [HR HB]. subst q0.
  eexists. split_and!; [done|left; simpl; simpl in HB; lia| |done].
  apply (same_shows cfg q1); [done|]. apply Hsh. intros pl' Hpl. rewrite (same_at q) by done. by apply Hn.
Qed.

Lemma Update_ok now o n q :
  qinv q -> valid_pod n -> pid o = pid n ->
  exists q', Update cfg DeepEqual now (Some o) n q = Ret (q', None) /\ wakes q q' /\
    match find q (pid n) with
    | Some e => shows q' (w_put (pid n) (update_entry now o n e) (find q)) /\ regs q' = regs q
    | None => shows q' (w_put (pid n) (Active, (newQueuedPodInfo now n q).1) (find q)) /\
              regs q' = (schedulingCycle q, moveRequestCycle q, closed q, next_addr q + 1)
    end.
Proof.
  intros Hq Hv Ho. pose proof Hq as [Hw Hs]. unfold Update. cbn [mbind option_bind].
  rewrite !heap_find_contents. change (pid (qpi_Pod (newQueuedPodInfoForLookup o))) with (pid o). rewrite Ho.
  change (contents (activeQ q) !! mkey (pid n)) with (at_place q Active (pid n)).
  change (contents (podBackoffQ q) !! mkey (pid n)) with (at_place q Backoff (pid n)).
  change (u_get n q) with (at_place q Unschedulable (pid n)).
  destruct (find q (pid n)) as [[pl p]|] eqn:Ef.
  2:{ rewrite !(find_None q _ Ef). destruct (update_absent_ok now n q Hq Hv) as (q' & H); [|by exists q'].
      intros pl' _. by apply find_None. }
  pose proof (proj1 (find_at q _ _ _ Hs Hv) Ef) as Hat.
  pose proof (at_None q pl (pid n) p Hs Hv Ef) as Hn.
  pose proof (renew_pod n p) as Hpod.
  assert (valid_pod (qpi_Pod (renew n p))) as Hvr by (by rewrite Hpod).
  set (qn := set_nominator (npm_add (npm_delete (npm_write (pi_addr p) (qpi_PodInfo (renew n p)) (q_nominator q)) o)
     (pi_addr p) (qpi_PodInfo (renew n p)) (if String.eqb (NominatedNodeName (Status o)) "" &&
        String.eqb (NominatedNodeName (Status (pi_Pod (qpi_PodInfo (renew n p))))) ""
        then default ""%string (nominatedPodToNode (q_nominator q) !! UID o) else ""%string)) q).
  assert (qinv qn) as Hqn by (by apply (same_qinv q)).
  assert (forall pl', pl' <> pl -> at_place qn pl' (pid (qpi_Pod (renew n p))) = None) as Hnn.
  { rewrite Hpod. intros pl' H. rewrite (same_at q) by done. by apply Hn. }
  destruct pl.
  - rewrite Hat. destruct (aQ_Add_ok cfg qn (renew n p) ltac:(by apply Hqn) Hvr) as [He Hc].
    pose proof (put_shows qn _ Active _ Hqn Hvr Hc Hnn) as Hsh. rewrite Hpod in Hsh.
    exists (aQ_Add cfg (renew n p) qn).1. split_and!; [by rewrite <- He| |done|done].
    right. split; [done|]. eapply (w_put_idle q); [done|exact Hsh|by eexists].
  - rewrite (Hn Active), Hat by done.
    destruct (bQ_Add_ok cfg qn (renew n p) ltac:(by apply Hqn) Hvr) as [He Hc].
    pose proof (put_shows qn _ Backoff _ Hqn Hvr Hc Hnn) as Hsh. rewrite Hpod in Hsh.
    exists (bQ_Add cfg (renew n p) qn).1. split_and!; [by rewrite <- He| |done|done].
    right. split; [done|]. by eapply (w_put_idle q); [done|exact Hsh|].
  - rewrite (Hn Active), (Hn Backoff), Hat by done.
    destruct (update_unschedulable_ok now o n q p Hq Hv Ef) as (q' & E & H1 & H2 & H3).
    exists q'. by split_and!.
Qed.

(** A missing old object: [Update] adds the pod. *)
Lemma Update_nil_ok now n q :
  qinv q -> valid_pod n -> waits_inactive (find q (pid n)) = false ->
  exists q', Update cfg DeepEqual now None n q = Ret (q', None) /\ wakes q q' /\
    shows q' (w_put (pid n) (Active, (newQueuedPodInfo now n q).1) (find q)) /\
    regs q' = (schedulingCycle q, moveRequestCycle q, closed q, next_addr q + 1).
Proof.
  intros Hq Hv Hf. pose proof Hq as [Hw Hs]. unfold Update. cbn [mbind option_bind].
  change (u_get n q) with (at_place q Unschedulable (pid n)).
  assert (forall pl', pl' <> Active -> at_place q pl' (pid n) = None) as Hn.
  { intros pl' Hpl. apply eq_None_not_Some. intros [p Hp]. apply (find_at q pl') in Hp; [|done..].
    rewrite Hp in Hf. by destruct pl'. }
  rewrite (Hn Unschedulable) by done.
  by apply update_absent_ok.
Qed.

(** ** Refinement *)

Record aqueue := mkAqueue {
  a_waiting : waiting; a_cycle : Z; a_move : Z; a_closed : bool; a_next : Z
}.

Inductive qop :=
| QAdd (now : Z) (pod : Pod)
| QActivate (pods : gmap string Pod)
| QAddUnschedulable (now : Z) (p : QueuedPodInfo) (cycle : Z)
| QFlushBackoff (now : Z)
| QFlushUnschedulable (now : Z)
| QPop
| QUpdate (now : Z) (oldPod : option Pod) (newPod : Pod)
| QDelete (pod : Pod)
| QMoveAll (now : Z) (event : ClusterEvent) (preCheck : option (Pod -> bool))
| QAssignedAdded (now : Z) (pod : Pod)
| QAssignedUpdated (now : Z) (pod : Pod)
| QClose.

Inductive qres := QDone | QErr (e : error) | QPopped (r : pop_result).

Definition run (op : qop) (q : PriorityQueue) : outcome (PriorityQueue * qres) :=
  let err := fun o => obind o (fun r : PriorityQueue * error => Ret (r.1, QErr r.2)) in
  let done_ := fun o => obind o (fun q' : PriorityQueue => Ret (q', QDone)) in
  match op with
  | QAdd now pod => err (Add cfg now pod q)
  | QActivate pods => done_ (Activate cfg pods q)
  | QAddUnschedulable now p cycle => err (Ret (AddUnschedulableIfNotPresent cfg now p cycle q))
  | QFlushBackoff now => done_ (flushBackoffQCompleted cfg now q)
  | QFlushUnschedulable now => done_ (Ret (flushUnschedulableQLeftover cfg now q))
  | QPop => obind (Pop cfg q) (fun r => Ret (r.1, QPopped r.2))
  | QUpdate now o n => err (Update cfg DeepEqual now o n q)
  | QDelete pod => err (Delete cfg pod q)
  | QMoveAll now event preCheck => done_ (Ret (MoveAllToActiveOrBackoffQueue cfg now event preCheck q))
  | QAssignedAdded now pod => done_ (Ret (AssignedPodAdded cfg now pod q))
  | QAssignedUpdated now pod => done_ (Ret (AssignedPodUpdated cfg now pod q))
  | QClose => done_ (Close q)
  end.

(** What the callers guarantee: pods have valid names, an update is about one
    pod, and the queue is closed once. *)
Definition op_ok (op : qop) (a : aqueue) : Prop :=
  match op with
  | QAdd _ pod | QDelete pod => valid_pod pod
  | QActivate pods => map_Forall (fun _ => valid_pod) pods
  | QAddUnschedulable _ p _ => valid_pod (qpi_Pod p)
  | QUpdate _ (Some o) n => valid_pod n /\ pid o = pid n
  | QUpdate _ None n => valid_pod n /\ waits_inactive (a_waiting a (pid n)) = false
  | QClose => a_closed a = false
  | _ => True
  end.

Definition a_new (now : Z) (pod : Pod) (a : aqueue) : place * QueuedPodInfo :=
  (Active, mkQueuedPodInfo (NewPodInfo pod) (a_next a) now 0 now ∅).

Definition a_with (a : aqueue) (w : waiting) : aqueue :=
  mkAqueue w (a_cycle a) (a_move a) (a_closed a) (a_next a).

Definition a_insert (now : Z) (pod : Pod) (a : aqueue) : aqueue :=
  mkAqueue (w_put (pid pod) (a_new now pod a) (a_waiting a)) (a_cycle a) (a_move a) (a_closed a) (a_next a + 1).

(** The chosen unschedulable pods that the event helps are moved, and the
    request is remembered. *)
Definition a_moved (now : Z) (event : ClusterEvent) (chosen : QueuedPodInfo -> bool) (a : aqueue) : aqueue :=
  mkAqueue (fun j => move_entry now event chosen <$> a_waiting a j) (a_cycle a) (a_cycle a) (a_closed a) (a_next a).

Definition overdue (now : Z) (p : QueuedPodInfo) : bool := unschedulableQTimeInterval <? now - Timestamp p.
Definition passes (preCheck : option (Pod -> bool)) (p : QueuedPodInfo) : bool :=
  match preCheck with None => true | Some f => f (qpi_Pod p) end.

(** The abstract operations. *)
Definition aspec (op : qop) (a : aqueue) (r : qres) (a' : aqueue) : Prop :=
  match op with
  | QAdd now pod => r = QErr None /\ a' = a_insert now pod a
  | QActivate pods => r = QDone /\
      a' = a_with a (fun j => if named (map snd (map_to_list pods)) j
                              then to_active <$> a_waiting a j else a_waiting a j)
  | QAddUnschedulable now p cycle =>
      match a_waiting a (pid (qpi_Pod p)) with
      | Some (pl, _) => r = QErr (Some (already pl)) /\ a' = a
      | None => r = QErr None /\
          a' = a_with a (w_put (pid (qpi_Pod p))
                 ((if cycle <=? a_move a then Backoff else Unschedulable), set_Timestamp now p) (a_waiting a))
      end
  | QFlushBackoff now => r = QDone /\ a' = a_with a (fun j => flush_entry now <$> a_waiting a j)
  | QFlushUnschedulable now => r = QDone /\
      (a' = a_moved now UnschedulableTimeout (overdue now) a \/
       ((forall j p, valid_id j -> a_waiting a j = Some (Unschedulable, p) -> overdue now p = false) /\ a' = a))
  | QPop =>
      (exists i p, valid_id i /\ a_waiting a i = Some (Active, p) /\
         (forall j p', valid_id j -> a_waiting a j = Some (Active, p') -> lessFn cfg p' p = false) /\
         r = QPopped (PopItem (set_Attempts (Attempts p +₆₄ 1) p)) /\
         a' = mkAqueue (w_del i (a_waiting a)) (a_cycle a +₆₄ 1) (a_move a) (a_closed a) (a_next a)) \/
      ((forall j p, valid_id j -> a_waiting a j <> Some (Active, p)) /\ a' = a /\
       r = QPopped (if a_closed a then PopError "scheduling queue is closed" else PopWait))
  | QUpdate now o n => r = QErr None /\
      a' = match o, a_waiting a (pid n) with
           | Some o, Some e => a_with a (w_put (pid n) (update_entry now o n e) (a_waiting a))
           | _, _ => a_insert now n a
           end
  | QDelete pod => r = QErr None /\ a' = a_with a (w_del (pid pod) (a_waiting a))
  | QMoveAll now event preCheck => r = QDone /\ a' = a_moved now event (passes preCheck) a
  | QAssignedAdded now pod => r = QDone /\ a' = a_moved now AssignedPodAdd (matches_affinity cfg pod) a
  | QAssignedUpdated now pod => r = QDone /\ a' = a_moved now AssignedPodUpdate (matches_affinity cfg pod) a
  | QClose => r = QDone /\ a' = mkAqueue (a_waiting a) (a_cycle a) (a_move a) true (a_next a)
  end.

(** The concrete queue [q] represents [a]. *)
Definition represents_q (q : PriorityQueue) (a : aqueue) : Prop :=
  shows q (a_waiting a) /\ regs q = (a_cycle a, a_move a, a_closed a, a_next a).

Lemma represents_intro q a w : shows q w ->
  (forall j, valid_id j -> w j = a_waiting a j) -> regs q = (a_cycle a, a_move a, a_closed a, a_next a) ->
  represents_q q a.
Proof. intros [Hq Hf] Hw HR. split; [|done]. split; [done|]. intros j Hj. by rewrite Hf, Hw. Qed.

(** The loops that choose pods of [unschedulableQ]. *)
Lemma moved_represents now event chosen q a :
  represents_q q a ->
  represents_q (movePodsToActiveOrBackoffQueue cfg now (List.filter chosen (u_range 0 q)) event q)
    (a_moved now event chosen a) /\
  wakes q (movePodsToActiveOrBackoffQueue cfg now (List.filter chosen (u_range 0 q)) event q).
Proof.
  intros [[Hq Hf] HR]. injection HR as R1 R2 R3 R4.
  destruct (movePods_ok now event chosen q Hq) as (Hsh & Hwk & HR). split; [|done].
  eapply represents_intro; [exact Hsh| |simpl; congruence]. intros j Hj. simpl. by rewrite Hf.
Qed.

Lemma flushUnschedulable_represents now q a :
  represents_q q a ->
  let q' := flushUnschedulableQLeftover cfg now q in
  wakes q q' /\ exists a', represents_q q' a' /\ aspec (QFlushUnschedulable now) a QDone a'.
Proof.
  intros HR. unfold flushUnschedulableQLeftover. fold (overdue now).
  destruct (moved_represents now UnschedulableTimeout (overdue now) q a HR) as [Hm Hwk].
  set (l := List.filter (overdue now) (u_range 0 q)) in *.
  destruct l as [|p l'] eqn:El; cbn [length Nat.ltb Nat.leb].
  - split; [right; split; [done|]; intros j p _ H; by eexists|]. exists a. split; [done|].
    split; [done|]. right. split; [|done]. intros j p Hj Hp. destruct HR as [[Hq Hf] _].
    rewrite <- Hf in Hp by done. destruct (find_info_pid cfg q _ _ _ Hq Hj Hp) as [<- Hv].
    destruct (overdue now p) eqn:Eo; [|done]. exfalso.
    assert (p ∈ l) as Hin by (unfold l; apply list_filter_elem; split; [by apply u_range_find|done]).
    rewrite El in Hin. by apply elem_of_nil in Hin.
  - split; [done|]. eexists. split; [exact Hm|]. split; [done|]. by left.
Qed.

Lemma Update_represents now o n q a :
  represents_q q a -> op_ok (QUpdate now o n) a ->
  exists q', Update cfg DeepEqual now o n q = Ret (q', None) /\ wakes q q' /\
    exists a', represents_q q' a' /\ aspec (QUpdate now o n) a (QErr None) a'.
Proof.
  intros [[Hq Hf] HR] Hok. injection HR as R1 R2 R3 R4.
  destruct o as [o|].
  - destruct Hok as [Hv Ho]. destruct (Update_ok now o n q Hq Hv Ho) as (q' & -> & Hwk & H).
    exists q'. split_and!; [done|done|]. rewrite Hf in H by done.
    eexists. split; [|split; [done|reflexivity]]. simpl.
    destruct (a_waiting a (pid n)) as [e|] eqn:Ee; destruct H as [Hsh HR'].
    + eapply represents_intro; [exact Hsh| |unfold regs in *; simpl; congruence].
      intros j Hj. simpl. unfold w_put. case_decide; [done|by apply Hf].
    + eapply represents_intro; [exact Hsh| |unfold regs in *; simpl; congruence].
      intros j Hj. simpl. unfold w_put. case_decide; [|by apply Hf].
      unfold a_new. by rewrite <- R4.
  - destruct Hok as [Hv Hi]. rewrite <- Hf in Hi by done.
    destruct (Update_nil_ok now n q Hq Hv Hi) as (q' & -> & Hwk & Hsh & HR').
    exists q'. split_and!; [done|done|]. eexists. split; [|split; [done|reflexivity]].
    eapply represents_intro; [exact Hsh| |unfold regs in *; simpl; congruence].
    intros j Hj. simpl. unfold w_put. case_decide; [|by apply Hf]. unfold a_new. by rewrite <- R4.
Qed.

Lemma refl_wakes q : wakes q q.
Proof. right. split; [done|]. intros j p _ H. by eexists. Qed.

Lemma rest_wakes q q' : rest q' = rest q -> no_new_active q q' -> wakes q q'.
Proof. intros HR H. right. split; [|done]. by apply rest_regs in HR as [_ ->]. Qed.

Lemma Pop_represents q a :
  represents_q q a -> exists q' r, Pop cfg q = Ret (q', r) /\ wakes q q' /\
    exists a', represents_q q' a' /\ aspec QPop a (QPopped r) a'.
Proof.
  intros HRa. pose proof HRa as [[Hq Hf] HR]. injection HR as R1 R2 R3 R4.
  destruct (Pop_ok cfg q Hq) as (q' & r & -> & H). exists q', r. split; [done|].
  destruct H as [(i & p & Hi & Hp & Hleast & -> & Hsh & HR') | (Hno & -> & ->)].
  - injection HR' as R1' R2' R3' R4' R5'. split.
    { right. split; [done|]. apply (find_idle cfg q q' _ Hq Hsh). intros j p' Hj. unfold w_del.
      case_decide; [done|by eexists]. }
    eexists. split; [|left; exists i, p; split_and!; [done|by rewrite <- Hf| |done|reflexivity]].
    + eapply represents_intro; [exact Hsh| |unfold regs; simpl; congruence].
      intros j Hj. simpl. unfold w_del. case_decide; [done|by apply Hf].
    + intros j p' Hj Hp'. rewrite <- Hf in Hp' by done. by eapply Hleast.
  - split; [apply refl_wakes|]. exists a. split; [done|]. right. split_and!; [|done|by rewrite R3].
    intros j p Hj. rewrite <- Hf by done. by apply Hno.
Qed.

(** C6. The queue implements the map of waiting pods: from a queue that
    represents [a], every operation the callers may make returns (it neither
    panics nor runs on), does to the map what the abstract operation does and
    answers as it does, and whenever a pod becomes active the waiters of
    [Pop] are woken. *)
Theorem Queue_refines op q a :
  represents_q q a -> op_ok op a ->
  exists q' r, run op q = Ret (q', r) /\ wakes q q' /\
    exists a', represents_q q' a' /\ aspec op a r a'.
Proof.
  intros HRa Hok. pose proof HRa as [[Hq Hf] HR]. injection HR as R1 R2 R3 R4.
  destruct op as [now pod|pods|now p cycle|now|now| |now o n|pod|now ev pre|now pod|now pod|]; cbn [run].
  - destruct (Add_ok cfg now pod q Hq Hok) as (q' & -> & Hsh & HR'). injection HR' as ?????.
    eexists _, _. split_and!; [done|left; simpl; lia|]. eexists. split; [|by split].
    eapply represents_intro; [exact Hsh| |unfold regs; simpl; congruence].
    intros j Hj. simpl. unfold w_put, a_new, newQueuedPodInfo. rewrite <- R4. case_decide; [done|by apply Hf].
  - destruct (Activate_ok cfg pods q Hq Hok) as (q' & -> & Hsh & Hwk & HR').
    eexists _, _. split_and!; [done|done|]. eexists. split; [|by split].
    eapply represents_intro; [exact Hsh| |unfold regs; simpl; congruence].
    intros j Hj. simpl. by rewrite Hf.
  - pose proof (AddUnschedulable_ok cfg now p cycle q Hq Hok) as H. cbn [aspec].
    eexists _, _. split; [reflexivity|]. cbv zeta in H. rewrite Hf in H by done.
    destruct (a_waiting a (pid (qpi_Pod p))) as [[pl p0]|] eqn:Ew.
    + rewrite H. split; [apply refl_wakes|]. by exists a.
    + destruct H as (-> & HR' & Hna & Hsh). split; [by apply rest_wakes|]. eexists. split; [|by split].
      apply rest_regs in HR' as [HR' _]. rewrite R2 in Hsh.
      eapply represents_intro; [exact Hsh| |unfold regs in *; simpl; congruence].
      intros j Hj. simpl. unfold w_put. case_decide; [done|by apply Hf].
  - destruct (flush_loop_ok _ now q Hq eq_refl) as (q' & E & Hsh & Hwk & HR').
    unfold flushBackoffQCompleted. rewrite E. eexists _, _. split_and!; [done|done|]. eexists. split; [|by split].
    eapply represents_intro; [exact Hsh| |unfold regs in *; simpl; congruence].
    intros j Hj. simpl. by rewrite Hf.
  - destruct (flushUnschedulable_represents now q a HRa). by eexists _, _.
  - destruct (Pop_represents q a HRa) as (q' & r & -> & H). by eexists _, _.
  - destruct (Update_represents now o n q a HRa Hok) as (q' & -> & H). by eexists _, _.
  - destruct (Delete_ok cfg pod q Hq Hok) as (q' & -> & Hsh & HR' & Hna). eexists _, _.
    split_and!; [done|by apply rest_wakes|]. eexists. split; [|by split].
    apply rest_regs in HR' as [HR' _].
    eapply represents_intro; [exact Hsh| |unfold regs in *; simpl; congruence].
    intros j Hj. simpl. unfold w_del. case_decide; [done|by apply Hf].
  - destruct (moved_represents now ev (passes pre) q a HRa). eexists _, _. split_and!; [done..|]. by eexists.
  - destruct (moved_represents now AssignedPodAdd (matches_affinity cfg pod) q a HRa).
    eexists _, _. split_and!; [done..|]. by eexists.
  - destruct (moved_represents now AssignedPodUpdate (matches_affinity cfg pod) q a HRa).
    eexists _, _. split_and!; [done..|]. by eexists.
  - simpl in Hok. unfold Close. rewrite R3, Hok. eexists _, _. split_and!; [done|left; simpl; lia|].
    eexists. split; [|by split].
    eapply represents_intro; [apply (same_shows cfg q); [done|by split]|done|unfold regs; simpl; congruence].
Qed.
End update.

(** ** No pod is left behind *)

Lemma backoff_loop_spec n d :
  0 <= d <= podMaxBackoffDuration cfg -> podMaxBackoffDuration cfg <= MaxInt64 / 2 ->
  backoff_loop cfg n d = Z.min (d * 2 ^ Z.of_nat n) (podMaxBackoffDuration cfg).
Proof.
  intros Hd Hmax. revert d Hd. induction n as [|n IH]; intros d Hd; cbn [backoff_loop].
  - rewrite Z.mul_1_r. lia.
  - assert (d *₆₄ 2 = d * 2) as ->.
    { apply int64_id. assert (MaxInt64 / 2 * 2 <= MaxInt64) by (by vm_compute). assert (MinInt64 <= 0) by (by vm_compute).
      unfold is_int64. lia. }
    assert (0 < 2 ^ Z.of_nat n) as Hp by (apply Z.pow_pos_nonneg; lia).
    rewrite Nat2Z.inj_succ, Z.pow_succ_r by lia.
    destruct (Z.ltb_spec (podMaxBackoffDuration cfg) (d * 2)); [nia|].
    rewrite IH by lia. f_equal. lia.
Qed.

(** Backoff doubles with every attempt from the initial duration and is cut
    off at the maximum, for every number of attempts. *)
Theorem backoff_spec p :
  0 <= podInitialBackoffDuration cfg <= podMaxBackoffDuration cfg ->
  podMaxBackoffDuration cfg <= MaxInt64 / 2 ->
  calculateBackoffDuration cfg p =
  Z.min (podInitialBackoffDuration cfg * 2 ^ Z.max 0 (Attempts p - 1)) (podMaxBackoffDuration cfg).
Proof.
  intros Hi Hm. unfold calculateBackoffDuration. rewrite backoff_loop_spec by done.
  do 3 f_equal. lia.
Qed.

(** C33. A pod that has waited for longer than the interval of [unschedulableQ] is
    active after the two periodic flushes, whatever part it was in and
    whatever its number of attempts: no pod starves outside of [activeQ]. *)
Theorem no_starvation q i pl p now :
  qinv q -> valid_id i -> find q i = Some (pl, p) ->
  0 <= podInitialBackoffDuration cfg <= podMaxBackoffDuration cfg ->
  podMaxBackoffDuration cfg <= unschedulableQTimeInterval ->
  unschedulableQTimeInterval < now - Timestamp p ->
  exists q', flushBackoffQCompleted cfg now (flushUnschedulableQLeftover cfg now q) = Ret q' /\
    find q' i = Some (Active, p).
Proof.
  intros Hq Hi Hf Hd Hm Hlate.
  assert (isPodBackingoff cfg now p = false) as Hbo.
  { unfold isPodBackingoff, getBackoffTime, calculateBackoffDuration.
    rewrite backoff_loop_spec; [apply Z.ltb_ge; lia|done|].
    transitivity unschedulableQTimeInterval; [done|by vm_compute]. }
  set (a := mkAqueue (find q) (schedulingCycle q) (moveRequestCycle q) (closed q) (next_addr q)).
  destruct (flushUnschedulable_represents (fun _ _ => true) now q a) as [_ (a1 & [[Hq1 H1] _] & Hs1)]; [by split|].
  set (q1 := flushUnschedulableQLeftover cfg now q) in *.
  destruct (flush_loop_ok _ now q1 Hq1 eq_refl) as (q2 & E2 & [Hq2 H2] & _).
  exists q2. split; [done|]. rewrite H2, H1 by done.
  assert (a_waiting a1 i = Some (if decide (pl = Unschedulable) then Active else pl, p)) as ->.
  { destruct Hs1 as [_ [-> |[Hno ->]]]; simpl; rewrite Hf.
    - destruct pl; [done|done|]. cbn [fmap option_fmap option_map move_entry].
      assert (overdue now p = true) as -> by (by apply Z.ltb_lt).
      assert (event_helps UnschedulableTimeout p = true) as -> by apply orb_true_r.
      unfold destination. by rewrite Hbo.
    - destruct (decide (pl = Unschedulable)) as [->|]; [|done].
      specialize (Hno i p Hi Hf). unfold overdue in Hno. apply Z.ltb_ge in Hno. lia. }
  simpl. destruct pl; simpl; [done|by rewrite Hbo|done].
Qed.
End queue_moves.

(** ** Examples *)

Definition new_queue : PriorityQueue := NewPriorityQueue (NewPodNominator None).

Lemma new_queue_inv cfg `{!LessOrder (lessFn cfg)} nom : qinv cfg (NewPriorityQueue nom).
Proof.
  split; [split|].
  - split; [apply Heap_New_inv; apply _|done].
  - split; [apply Heap_New_inv; apply _|done].
  - done.
  - intros j pl pl' p p' _. by destruct pl.
Qed.

Definition new_aqueue : aqueue := mkAqueue (fun _ => None) 0 (-1) false 1.

Lemma new_queue_represents cfg `{!LessOrder (lessFn cfg)} nom :
  represents_q cfg (NewPriorityQueue nom) new_aqueue.
Proof. split; [|done]. split; [by apply new_queue_inv|done]. Qed.

Lemma Queue_refines_witness :
  let pod := sample_nginx "u1" 100 in
  exists q' r, run (mr := range_id) default_queue_config (fun _ _ => true) (QAdd 7 pod) new_queue = Ret (q', r) /\
    wakes new_queue q' /\
    exists a', represents_q default_queue_config q' a' /\
      aspec default_queue_config (fun _ _ => true) (QAdd 7 pod) new_aqueue r a'.
Proof.
  apply (Queue_refines (mr := range_id) default_queue_config (fun _ _ => true) (QAdd 7 (sample_nginx "u1" 100))
    new_queue new_aqueue).
  - apply (new_queue_represents default_queue_config).
  - split; reflexivity.
Defined.

Lemma backoff_spec_witness :
  calculateBackoffDuration default_queue_config
    (mkQueuedPodInfo (NewPodInfo (sample_nginx "u1" 100)) 1 0 3 0 ∅) = 4000000000.
Proof.
  rewrite (backoff_spec default_queue_config (mkQueuedPodInfo (NewPodInfo (sample_nginx "u1" 100)) 1 0 3 0 ∅));
    [reflexivity|vm_compute; split; discriminate|vm_compute; discriminate].
Defined.

(** A queue with one unschedulable pod. *)
Definition sample_unschedulable : QueuedPodInfo :=
  mkQueuedPodInfo (NewPodInfo (sample_nginx "u1" 100)) 1 0 9 0 {["NodeResourcesFit"%string]}.
Definition waiting_queue : PriorityQueue := u_addOrUpdate sample_unschedulable new_queue.

Lemma waiting_queue_inv :
  qinv default_queue_config waiting_queue /\
  find waiting_queue ("default", "nginx")%string = Some (Unschedulable, sample_unschedulable).
Proof.
  pose proof (new_queue_inv default_queue_config (NewPodNominator None)) as Hq.
  assert (valid_pod (qpi_Pod sample_unschedulable)) as Hv by (split; reflexivity).
  pose proof (u_add_ok default_queue_config new_queue sample_unschedulable (proj1 Hq) Hv) as Hc.
  split; [|vm_compute; reflexivity].
  apply (put_shows default_queue_config new_queue waiting_queue Unschedulable sample_unschedulable Hq Hv Hc).
  intros pl' _. by destruct pl'.
Qed.

Lemma no_starvation_witness :
  exists q', flushBackoffQCompleted default_queue_config 60000000001
      (flushUnschedulableQLeftover (mr := range_id) default_queue_config 60000000001 waiting_queue) = Ret q' /\
    find q' ("default", "nginx")%string = Some (Active, sample_unschedulable).
Proof.
  apply (no_starvation (mr := range_id) default_queue_config waiting_queue ("default", "nginx")%string
    Unschedulable sample_unschedulable 60000000001).
  - apply waiting_queue_inv.
  - split; reflexivity.
  - apply waiting_queue_inv.
  - vm_compute. split; discriminate.
  - vm_compute. discriminate.
  - vm_compute. reflexivity.
Defined.
