(* ===== verification/NominatorProofs.v ===== *)
(** * The nominator

    The two maps of the nominator agree, every operation keeps them so, and
    what happens when the shared [PodInfo] of a nominated pod is rewritten
    for a pod with another UID. *)

From S2P Require Import Prelude GoInt GoFloat GoStrconv Quantity ApiTypes Labels AffinityTerms Framework HeapList Heap HeapProofs SchedulingQueue QueueProofs Resource HostPorts NodeInfo Samples.

(** The pods nominated to a node, in order. *)
Definition pods_of (npm : nominator) (n : string) : list (Z * PodInfo) :=
  default [] (nominatedPods npm !! n).

Record nom_inv (npm : nominator) : Prop := {
  nom_back n e : e ∈ pods_of npm n -> nominatedPodToNode npm !! nominated_uid e = Some n;
  nom_fwd uid n : nominatedPodToNode npm !! uid = Some n -> has_uid uid (pods_of npm n) = true;
  nom_ne n : nominatedPods npm !! n <> Some [];
  nom_nodup n : NoDup (map nominated_uid (pods_of npm n))
}.

Lemma has_uid_elem uid l : has_uid uid l = true <-> uid ∈ map nominated_uid l.
Proof.
  unfold has_uid. rewrite existsb_exists, list_elem_of_fmap. split.
  - intros (e & He%list_elem_of_In & E%String.eqb_eq). by exists e.
  - intros (e & -> & He). exists e. split; [by apply list_elem_of_In|apply String.eqb_refl].
Qed.

Lemma has_uid_false uid l : has_uid uid l = false <-> uid ∉ map nominated_uid l.
Proof. rewrite <- has_uid_elem. by destruct (has_uid uid l). Qed.

Lemma remove_uid_absent uid l : has_uid uid l = false -> remove_uid uid l = l.
Proof.
  induction l as [|e l IH]; simpl; [done|]. intros [H1 H2]%orb_false_iff.
  rewrite H1. by rewrite IH.
Qed.

Lemma remove_uid_elem uid l e :
  NoDup (map nominated_uid l) -> e ∈ remove_uid uid l <-> e ∈ l /\ nominated_uid e <> uid.
Proof.
  induction l as [|x l IH]; simpl; [set_solver|]. intros [Hni Hnd]%NoDup_cons.
  destruct (String.eqb_spec (nominated_uid x) uid) as [E|E].
  - rewrite elem_of_cons. split; [|naive_solver]. intros H. split; [by right|].
    intros E'. apply Hni. rewrite E, <- E'. apply list_elem_of_fmap. by exists e.
  - rewrite !elem_of_cons, IH by done. naive_solver.
Qed.

Lemma remove_uid_nodup uid l :
  NoDup (map nominated_uid l) -> NoDup (map nominated_uid (remove_uid uid l)).
Proof.
  induction l as [|x l IH]; simpl; [done|]. intros Hl. pose proof Hl as [Hni Hnd]%NoDup_cons.
  destruct (String.eqb _ _); [done|]. simpl. apply NoDup_cons. split; [|by apply IH].
  intros (y & E & [Hy _]%remove_uid_elem)%list_elem_of_fmap; [|done].
  apply Hni, list_elem_of_fmap. by exists y.
Qed.

Lemma remove_uid_gone uid l : NoDup (map nominated_uid l) -> has_uid uid (remove_uid uid l) = false.
Proof.
  intros Hnd. apply has_uid_false. intros (e & E & [_ He]%remove_uid_elem)%list_elem_of_fmap; [|done]. by subst.
Qed.

(** A list of the nominator after the pods of one node were replaced. *)
Lemma pods_of_insert pl m t n n' l :
  pods_of (mkNominator pl (<[n := l]> m) t) n' = if decide (n' = n) then l else default [] (m !! n').
Proof.
  unfold pods_of. simpl. case_decide; [subst; by rewrite lookup_insert_eq|by rewrite lookup_insert_ne].
Qed.

(** [delete] takes the pod off its node's list. *)
Lemma npm_delete_spec npm p :
  nom_inv npm ->
  nom_inv (npm_delete npm p) /\
  nominatedPodToNode (npm_delete npm p) = delete (UID p) (nominatedPodToNode npm) /\
  forall n, pods_of (npm_delete npm p) n = remove_uid (UID p) (pods_of npm n).
Proof.
  intros Hi. unfold npm_delete. destruct (nominatedPodToNode npm !! UID p) as [nn|] eqn:E.
  2:{ split_and!; [done|by rewrite delete_id|]. intros n. symmetry. apply remove_uid_absent.
      apply has_uid_false. intros (e & Eq & He)%list_elem_of_fmap. apply (nom_back npm Hi) in He. congruence. }
  fold (pods_of npm nn). rewrite (nom_fwd npm Hi _ _ E).
  set (l' := remove_uid (UID p) (pods_of npm nn)).
  set (npm' := mkNominator _ _ _).
  assert (forall n, pods_of npm' n = remove_uid (UID p) (pods_of npm n)) as Hp.
  { intros n. unfold npm', pods_of. simpl. destruct (decide (n = nn)) as [->|Hne].
    - fold (pods_of npm nn). fold l'. destruct (Nat.eqb_spec (length l') 0) as [E0|E0].
      + rewrite lookup_delete_eq. by apply nil_length_inv in E0 as ->.
      + by rewrite lookup_insert_eq.
    - assert (remove_uid (UID p) (pods_of npm n) = pods_of npm n) as Hr.
      { apply remove_uid_absent, has_uid_false. intros (e & Eq & He)%list_elem_of_fmap.
        apply (nom_back npm Hi) in He. congruence. }
      fold (pods_of npm n). rewrite Hr.
      destruct (_ =? 0)%nat; [by rewrite lookup_delete_ne|by rewrite lookup_insert_ne]. }
  split_and!; [|done|done]. split.
  - intros n e. rewrite Hp, remove_uid_elem by apply Hi. intros [He Hne]. simpl.
    rewrite lookup_delete_ne by done. by apply (nom_back npm Hi).
  - intros uid n. simpl. rewrite lookup_delete_Some. intros [Hne Hn]. rewrite Hp.
    apply (nom_fwd npm Hi), has_uid_elem in Hn. apply has_uid_elem.
    apply list_elem_of_fmap in Hn as (e & -> & He). apply list_elem_of_fmap. exists e. split; [done|].
    apply remove_uid_elem; [apply Hi|done].
  - intros n. simpl. destruct (Nat.eqb_spec (length l') 0) as [E0|E0].
    + rewrite lookup_delete_Some. intros [_ H]. by apply (nom_ne npm Hi) in H.
    + rewrite lookup_insert_Some. intros [[_ H]|[_ H]]; [by rewrite H in E0|by apply (nom_ne npm Hi) in H].
  - intros n. rewrite Hp. apply remove_uid_nodup, Hi.
Qed.

(** The node [add] nominates a pod to. *)
Definition nomination (npm : nominator) (pi : PodInfo) (nodeName : string) : string :=
  let nnn := if (String.length nodeName =? 0)%nat then NominatedNodeName (Status (pi_Pod pi)) else nodeName in
  let alive := match podLister npm with
               | None => true | Some get => get (Namespace (pi_Pod pi)) (Name (pi_Pod pi)) end in
  if alive then nnn else ""%string.

Lemma npm_delete_lister npm p : podLister (npm_delete npm p) = podLister npm.
Proof. unfold npm_delete. by destruct (_ !! _). Qed.

Lemma length_0_empty s : (String.length s =? 0)%nat = String.eqb s "".
Proof. by destruct s. Qed.

(** The nominator's maps agree after an [add], and the pod is on the list of
    the node it is nominated to, once, and on no other list; the other pods
    stay where they are. *)
Theorem nominator_add_spec npm addr pi nodeName :
  nom_inv npm ->
  let npm' := npm_add npm addr pi nodeName in
  let target := nomination npm pi nodeName in
  nom_inv npm' /\
  nominatedPodToNode npm' =
    (if String.eqb target "" then delete (UID (pi_Pod pi)) (nominatedPodToNode npm)
     else <[UID (pi_Pod pi) := target]> (nominatedPodToNode npm)) /\
  forall n, pods_of npm' n = remove_uid (UID (pi_Pod pi)) (pods_of npm n) ++
    (if String.eqb target "" then [] else if decide (n = target) then [(addr, pi)] else []).
Proof.
  intros Hi. cbv zeta. set (uid := UID (pi_Pod pi)).
  destruct (npm_delete_spec npm (pi_Pod pi) Hi) as (Hi0 & Ht0 & Hp0).
  unfold npm_add, nomination. fold uid. rewrite npm_delete_lister. set (npm0 := npm_delete npm (pi_Pod pi)) in *.
  rewrite (length_0_empty nodeName).
  set (nnn := if String.eqb nodeName "" then _ else nodeName). rewrite (length_0_empty nnn).
  set (alive := match podLister npm with None => true | Some _ => _ end).
  destruct (String.eqb nnn "") eqn:En.
  { assert (String.eqb (if alive then nnn else ""%string) "" = true) as -> by (by destruct alive).
    split_and!; [done|done|]. intros n. by rewrite app_nil_r. }
  destruct alive; cbn [negb].
  2:{ split_and!; [done|done|]. intros n. by rewrite app_nil_r. }
  rewrite En. fold (pods_of npm0 nnn).
  assert (has_uid uid (pods_of npm0 nnn) = false) as ->.
  { rewrite Hp0. apply remove_uid_gone, Hi. }
  set (npm1 := mkNominator _ _ _).
  assert (forall n, pods_of npm1 n = pods_of npm0 n ++ (if decide (n = nnn) then [(addr, pi)] else [])) as Hp1.
  { intros n. unfold npm1. rewrite pods_of_insert. case_decide; [by subst|]. by rewrite app_nil_r. }
  assert (forall n, uid ∉ map nominated_uid (pods_of npm0 n)) as Hgone.
  { intros n. rewrite Hp0. apply has_uid_false, remove_uid_gone, Hi. }
  split_and!.
  - split.
    + intros n e. rewrite Hp1, elem_of_app. simpl. intros [He|He].
      * rewrite lookup_insert_ne; [by apply (nom_back npm0 Hi0)|]. intros E. apply (Hgone n).
        rewrite E. apply list_elem_of_fmap. by exists e.
      * case_decide; [|set_solver]. apply list_elem_of_singleton in He as ->. subst. apply lookup_insert_eq.
    + intros u n. simpl. rewrite lookup_insert_Some. rewrite Hp1. intros [[<- <-]|[Hne Hn]].
      * rewrite decide_True by done. apply has_uid_elem. rewrite map_app. apply elem_of_app. right. by left.
      * apply (nom_fwd npm0 Hi0), has_uid_elem in Hn. apply has_uid_elem. rewrite map_app. apply elem_of_app. by left.
    + intros n. simpl. rewrite lookup_insert_Some. intros [[_ H]|[_ H]]; [by destruct (pods_of npm0 nnn)|].
      by apply (nom_ne npm0 Hi0) in H.
    + intros n. rewrite Hp1, map_app. case_decide; [|rewrite app_nil_r; apply Hi0].
      apply NoDup_app. split_and!; [apply Hi0| |apply NoDup_singleton].
      intros u Hu Hu'. apply list_elem_of_singleton in Hu' as ->. by apply (Hgone n).
  - simpl. rewrite Ht0. apply insert_delete_eq.
  - intros n. by rewrite Hp1, Hp0.
Qed.

(** ** Updates *)

Definition write_entry (addr : Z) (pi : PodInfo) (e : Z * PodInfo) : Z * PodInfo :=
  if e.1 =? addr then (addr, pi) else e.

Lemma pods_of_write addr pi npm n : pods_of (npm_write addr pi npm) n = map (write_entry addr pi) (pods_of npm n).
Proof. unfold pods_of, npm_write. simpl. rewrite lookup_fmap. by destruct (nominatedPods npm !! n). Qed.

(** A write that keeps the UID keeps the maps in agreement. *)
Lemma npm_write_inv addr pi npm :
  nom_inv npm ->
  (forall n e, e ∈ pods_of npm n -> e.1 = addr -> nominated_uid e = UID (pi_Pod pi)) ->
  nom_inv (npm_write addr pi npm) /\
  forall n, map nominated_uid (pods_of (npm_write addr pi npm) n) = map nominated_uid (pods_of npm n).
Proof.
  intros Hi Hu.
  assert (forall n, map nominated_uid (pods_of (npm_write addr pi npm) n) = map nominated_uid (pods_of npm n)) as Hm.
  { intros n. rewrite pods_of_write, map_map. apply map_ext_in. intros e He%list_elem_of_In.
    unfold write_entry. destruct (Z.eqb_spec e.1 addr) as [E|E]; [|done]. symmetry. by apply (Hu n). }
  split; [|done]. split.
  - intros n e He.
    assert (nominated_uid e ∈ map nominated_uid (pods_of npm n)) as He'.
    { rewrite <- (Hm n). apply list_elem_of_fmap. by exists e. }
    apply list_elem_of_fmap in He' as (e' & -> & He'). by apply (nom_back npm Hi).
  - intros uid n Hn. apply has_uid_elem. rewrite Hm. apply has_uid_elem. by apply (nom_fwd npm Hi).
  - intros n. unfold npm_write. simpl. rewrite lookup_fmap. intros H.
    pose proof (nom_ne npm Hi n) as Hne. by destruct (nominatedPods npm !! n) as [[]|].
  - intros n. rewrite Hm. apply Hi.
Qed.

(** The node a pod is nominated to after an update. *)
Definition update_target (npm : nominator) (old : Pod) (pi : PodInfo) : string :=
  nomination npm pi
    (if String.eqb (NominatedNodeName (Status old)) ""
        && String.eqb (NominatedNodeName (Status (pi_Pod pi))) ""
     then default ""%string (nominatedPodToNode npm !! UID old) else ""%string).

Lemma remove_uid_idem uid l :
  NoDup (map nominated_uid l) -> remove_uid uid (remove_uid uid l) = remove_uid uid l.
Proof. intros H. by apply remove_uid_absent, remove_uid_gone. Qed.

(** An update of a pod that keeps its UID: the shared [PodInfo] is rewritten
    first, which the nominator sees; afterwards its maps agree, and the pod,
    with the new contents, is nominated to the node its status names, or
    still to the one it was nominated to when no status names one. *)
Theorem nominator_update_spec npm addr old pi :
  nom_inv npm -> UID (pi_Pod pi) = UID old ->
  (forall n e, e ∈ pods_of npm n -> e.1 = addr -> nominated_uid e = UID old) ->
  exists npm', UpdateNominatedPod (npm_write addr pi npm) (Some old) addr pi = Ret npm' /\
    nom_inv npm' /\
    let target := update_target npm old pi in
    nominatedPodToNode npm' =
      (if String.eqb target "" then delete (UID old) (nominatedPodToNode npm)
       else <[UID old := target]> (nominatedPodToNode npm)) /\
    forall n, pods_of npm' n = remove_uid (UID old) (map (write_entry addr pi) (pods_of npm n)) ++
      (if String.eqb target "" then [] else if decide (n = target) then [(addr, pi)] else []).
Proof.
  intros Hi Huid Hu. destruct (npm_write_inv addr pi npm Hi) as [Hi1 Hm1]; [by rewrite Huid|].
  set (npm1 := npm_write addr pi npm) in *.
  destruct (npm_delete_spec npm1 old Hi1) as (Hi2 & Ht2 & Hp2).
  unfold UpdateNominatedPod. change (nominatedPodToNode npm1) with (nominatedPodToNode npm) in *.
  set (nodeName := if _ && _ then _ else _).
  destruct (nominator_add_spec (npm_delete npm1 old) addr pi nodeName Hi2) as (Hi3 & Ht3 & Hp3).
  eexists. split; [reflexivity|]. split; [done|].
  assert (nomination (npm_delete npm1 old) pi nodeName = update_target npm old pi) as Htar.
  { unfold nomination, update_target, nomination. by rewrite npm_delete_lister. }
  rewrite Htar in Ht3, Hp3. cbv zeta. split.
  - rewrite Ht3, Ht2, Huid. destruct (String.eqb (update_target npm old pi) "");
      [apply delete_delete_eq|apply insert_delete_eq].
  - intros n. rewrite Hp3, Hp2, Huid. rewrite (remove_uid_idem _ _ (nom_nodup npm1 Hi1 n)). unfold npm1. by rewrite pods_of_write.
Qed.

(** ** A pod recreated under its name *)

(** The informer may merge the deletion of a pod and the creation of its
    successor into one update: the queue then updates the old pod's entry. *)
Definition sample_nominated (uid nominated : string) : Pod :=
  let p := sample_nginx uid 100 in
  mkPod (Name p) (Namespace p) (UID p) (ResourceVersion p) (DeletionTimestamp p) (Labels p)
    (Annotations p) (Spec p) (mkPodStatus [] nominated None).

(** A pod nominated to n1 is added, replaced by a successor with the UID u2,
    which is then deleted. *)
Definition leak_history : outcome PriorityQueue :=
  (let! r := Add default_queue_config 0 (sample_nominated "u1" "n1") (NewPriorityQueue (NewPodNominator None)) in
   let! r := Update default_queue_config (fun _ _ => false) 1 (Some (sample_nominated "u1" "n1"))
       (sample_nominated "u2" "") r.1 in
   let! r := Delete default_queue_config (sample_nominated "u2" "") r.1 in
   Ret r.1)%go.

(** After this history no pod is waiting and no pod is nominated by UID, and
    still the filters for the node n1 count the deleted pod as nominated:
    [delete] looks for the old UID in a list whose entry the update has
    already rewritten. *)
Theorem recreated_pod_leaks :
  exists q, leak_history = Ret q /\
    (forall i, find q i = None) /\ nominatedPodToNode (q_nominator q) = ∅ /\
    map (fun pi => UID (pi_Pod pi)) (NominatedPodsForNode (q_nominator q) "n1") = ["u2"%string].
Proof.
  destruct leak_history as [q|m] eqn:E; [|by vm_compute in E].
  exists q. split; [done|].
  assert (activeQ q = Heap_New /\ podBackoffQ q = Heap_New /\ unschedulableQ q = ∅ /\
    nominatedPodToNode (q_nominator q) = ∅ /\
    map (fun pi => UID (pi_Pod pi)) (NominatedPodsForNode (q_nominator q) "n1") = ["u2"%string])
    as (Ha & Hb & Hu & Hn & Hl).
  { injection E as <-. vm_compute. done. }
  split_and!; [|done|done]. intros i. unfold find, at_place. by rewrite Ha, Hb, Hu.
Qed.

Lemma new_nominator_inv pl : nom_inv (NewPodNominator pl).
Proof. split; [by intros n e H%elem_of_nil|done|done|intros n; constructor]. Qed.

Definition sample_nominator : nominator :=
  npm_add (NewPodNominator None) 1 (NewPodInfo (sample_nominated "u1" "")) "n1".

Lemma nominator_update_spec_witness :
  exists npm', UpdateNominatedPod
      (npm_write 1 (NewPodInfo (sample_nominated "u1" "")) sample_nominator)
      (Some (sample_nominated "u1" "")) 1 (NewPodInfo (sample_nominated "u1" "")) = Ret npm' /\
    nom_inv npm' /\ nominatedPodToNode npm' !! "u1"%string = Some "n1"%string.
Proof.
  destruct (nominator_add_spec (NewPodNominator None) 1 (NewPodInfo (sample_nominated "u1" "")) "n1"
    (new_nominator_inv None)) as (Hi & _ & Hp).
  destruct (nominator_update_spec sample_nominator 1 (sample_nominated "u1" "")
    (NewPodInfo (sample_nominated "u1" ""))) as (npm' & E & Hi' & Ht & _).
  - exact Hi.
  - reflexivity.
  - intros n e. unfold sample_nominator. rewrite (Hp n), elem_of_app. intros [H%elem_of_nil|H]; [done|].
    repeat case_match; try (by apply elem_of_nil in H).
    apply list_elem_of_singleton in H. by subst.
  - exists npm'. split; [exact E|]. split; [exact Hi'|]. rewrite Ht. vm_compute. reflexivity.
Defined.
