(* ===== verification/Runtime.v ===== *)
(** * The framework runtime

    [framework/runtime/framework.go]: the plugins of a profile and the loops
    that run them at each extension point, and the map of pods that wait for
    a permit plugin (waiting_pods_map.go).

    A plugin is a record of the methods of its interface.  What a plugin
    reads and writes outside of the scheduler is a value of type [Ext], which
    the calls thread.  The methods that the runtime calls from many
    goroutines at once (Filter, Score) do not write it.  Go runs the pieces
    of a parallel loop in any order: the class [MapRange] gives the order, as
    for maps. *)

From S2P Require Import Prelude GoInt GoFloat GoStrconv Quantity ApiTypes Labels AffinityTerms Resource HostPorts NodeInfo Json Framework SchedulingQueue.

Open Scope go_scope.

Definition MinNodeScore : Z := 0.
Definition MaxNodeScore : Z := 100.
Definition MaxTotalScore : Z := MaxInt64.

Record NodeScore := mkNodeScore { ns_Name : string; ns_Score : Z }.

(** [fmt.Errorf("<a> %q<b>: %w", name, err)] *)
Definition wrap_q (a name b : string) (err : error) : string :=
  str_app a (String dquote (str_app name (String dquote (str_app b (str_app ": " (default "" err)))))).

(** ** The interfaces of plugins *)

Section interfaces.
Context (Ext : Type).

Record PreFilterExtensions := {
  pfe_AddPod : CycleState -> Pod -> PodInfo -> NodeInfo -> outcome (CycleState * StatusPtr);
  pfe_RemovePod : CycleState -> Pod -> PodInfo -> NodeInfo -> outcome (CycleState * StatusPtr)
}.

Record PreFilterPlugin := {
  pf_Name : string;
  pf_PreFilter : Ext -> CycleState -> Pod -> outcome (Ext * CycleState * StatusPtr);
  pf_Extensions : option PreFilterExtensions
}.

Record FilterPlugin := {
  fl_Name : string;
  fl_Filter : CycleState -> Pod -> NodeInfo -> outcome StatusPtr
}.

(** The nominated node, when there is a result. *)
Record PostFilterPlugin := {
  po_Name : string;
  po_PostFilter : Ext -> CycleState -> Pod -> gmap string FStatus -> outcome (Ext * option string * StatusPtr)
}.

Record PreScorePlugin := {
  ps_Name : string;
  ps_PreScore : CycleState -> Pod -> list Node -> outcome (CycleState * StatusPtr)
}.

Record ScorePlugin := {
  sc_Name : string;
  sc_Score : CycleState -> Pod -> string -> outcome (Z * StatusPtr);
  (** [ScoreExtensions().NormalizeScore] *)
  sc_Normalize : option (CycleState -> Pod -> list NodeScore -> outcome (list NodeScore * StatusPtr))
}.

Record ReservePlugin := {
  rs_Name : string;
  rs_Reserve : Ext -> CycleState -> Pod -> string -> outcome (Ext * CycleState * StatusPtr);
  rs_Unreserve : Ext -> CycleState -> Pod -> string -> outcome (Ext * CycleState)
}.

Record PermitPlugin := {
  pm_Name : string;
  (** the status and the time to wait, in nanoseconds *)
  pm_Permit : Ext -> CycleState -> Pod -> string -> outcome (Ext * StatusPtr * Z)
}.

Record PreBindPlugin := {
  pb_Name : string;
  pb_PreBind : Ext -> CycleState -> Pod -> string -> outcome (Ext * StatusPtr)
}.

Record BindPlugin := {
  bd_Name : string;
  bd_Bind : Ext -> CycleState -> Pod -> string -> outcome (Ext * StatusPtr)
}.

Record PostBindPlugin := {
  pp_Name : string;
  pp_PostBind : Ext -> CycleState -> Pod -> string -> outcome Ext
}.

(** [frameworkImpl], with the plugins of a profile. *)
Record frameworkImpl := mkFramework {
  preFilterPlugins : list PreFilterPlugin;
  filterPlugins : list FilterPlugin;
  postFilterPlugins : list PostFilterPlugin;
  preScorePlugins : list PreScorePlugin;
  scorePlugins : list ScorePlugin;
  reservePlugins : list ReservePlugin;
  permitPlugins : list PermitPlugin;
  preBindPlugins : list PreBindPlugin;
  bindPlugins : list BindPlugin;
  postBindPlugins : list PostBindPlugin;
  scorePluginWeight : gmap string Z;
  runAllFilters : bool
}.
End interfaces.

(** ** Weights of score plugins ([NewFramework]) *)

(** One entry of the configuration; the running total is [totalPriority]. *)
Definition weight_step (st : option (gmap string Z * Z)) (e : string * Z) : option (gmap string Z * Z) :=
  match st with
  | None => None
  | Some (m, total) =>
      let w := if e.2 =? 0 then 1 else e.2 in
      let m := <[e.1 := w]> m in
      if MaxTotalScore -₆₄ total <? w *₆₄ MaxNodeScore then None
      else Some (m, total +₆₄ w *₆₄ MaxNodeScore)
  end.

(** The weights, or the error that the total score could overflow. *)
Definition configure_weights (enabled : list (string * Z)) : gmap string Z + string :=
  match fold_left weight_step enabled (Some (∅, 0)) with
  | Some (m, _) => inl m
  | None => inr "total score of Score plugins could overflow"%string
  end.

(** The score plugins must be configured with a weight under their names. *)
Definition weights_configured (plugins : list ScorePlugin) (weights : gmap string Z) : bool :=
  forallb (fun pl => negb (default 0 (weights !! sc_Name pl) =? 0)) plugins.

(** ** Waiting pods (waiting_pods_map.go) *)

(** The channel [s] holds one status; a send to a full channel is dropped. *)
Record waitingPod := mkWaitingPod {
  wp_pod : Pod;
  pendingPlugins : gmap string Z;
  wp_s : option FStatus
}.

Definition newWaitingPod (pod : Pod) (pluginsMaxWaitTime : gmap string Z) : waitingPod :=
  mkWaitingPod pod pluginsMaxWaitTime None.

Definition wp_send (s : FStatus) (w : waitingPod) : waitingPod :=
  mkWaitingPod (wp_pod w) (pendingPlugins w) (match wp_s w with None => Some s | Some _ => wp_s w end).

Definition Allow (pluginName : string) (w : waitingPod) : waitingPod :=
  let w := mkWaitingPod (wp_pod w) (delete pluginName (pendingPlugins w)) (wp_s w) in
  if negb (size (pendingPlugins w) =? 0)%nat then w
  else wp_send (NewStatus Success [""%string]) w.

Definition Reject (pluginName msg : string) (w : waitingPod) : waitingPod :=
  wp_send (WithFailedPlugin (NewStatus Unschedulable [msg]) pluginName) w.

(** The timer of a plugin that is still pending fires. *)
Definition timeout_msg (plugin : string) (waitTime : Z) : string :=
  str_app "rejected due to timeout after waiting " (str_app (Itoa waitTime) (str_app " at plugin " plugin)).
Definition wp_timeout (plugin : string) (w : waitingPod) : waitingPod :=
  match pendingPlugins w !! plugin with
  | Some waitTime => Reject plugin (timeout_msg plugin waitTime) w
  | None => w
  end.

Definition waitingPodsMap : Type := gmap string waitingPod.

(** ** Running the plugins *)

Section runtime.
Context {arch : GoArch} {gates : FeatureGates} {mr : MapRange} {Ext : Type}.
Context (f : frameworkImpl Ext).

(** [RunPreFilterPlugins] *)
Fixpoint run_prefilter (pls : list (PreFilterPlugin Ext)) (x : Ext) (state : CycleState) (pod : Pod)
  : outcome (Ext * CycleState * StatusPtr) :=
  match pls with
  | [] => Ret (x, state, None)
  | pl :: pls =>
      let! r := pf_PreFilter Ext pl x state pod in
      let '(x, state, status) := r in
      if IsSuccess status then run_prefilter pls x state pod
      else if IsUnschedulable status then
        Ret (x, state, (fun s => WithFailedPlugin s (pf_Name Ext pl)) <$> status)
      else
        Ret (x, state, Some (WithFailedPlugin
          (AsStatus (wrap_q "running PreFilter plugin " (pf_Name Ext pl) "" (AsError status)))
          (pf_Name Ext pl)))
  end.

Definition RunPreFilterPlugins := run_prefilter (preFilterPlugins Ext f).

(** [RunPreFilterExtensionAddPod] and [RunPreFilterExtensionRemovePod] *)
Fixpoint run_extension (verb : string)
    (method : PreFilterExtensions -> CycleState -> Pod -> PodInfo -> NodeInfo -> outcome (CycleState * StatusPtr))
    (pls : list (PreFilterPlugin Ext)) (state : CycleState) (podToSchedule : Pod) (podInfo : PodInfo)
    (nodeInfo : NodeInfo) : outcome (CycleState * StatusPtr) :=
  match pls with
  | [] => Ret (state, None)
  | pl :: pls =>
      match pf_Extensions Ext pl with
      | None => run_extension verb method pls state podToSchedule podInfo nodeInfo
      | Some ext =>
          let! r := method ext state podToSchedule podInfo nodeInfo in
          let '(state, status) := r in
          if IsSuccess status then run_extension verb method pls state podToSchedule podInfo nodeInfo
          else
            Ret (state, Some (AsStatus (wrap_q (str_app "running " (str_app verb " on PreFilter plugin "))
              (pf_Name Ext pl) "" (AsError status))))
      end
  end.

Definition RunPreFilterExtensionAddPod :=
  run_extension "AddPod" pfe_AddPod (preFilterPlugins Ext f).
Definition RunPreFilterExtensionRemovePod :=
  run_extension "RemovePod" pfe_RemovePod (preFilterPlugins Ext f).

(** [RunFilterPlugins] *)
Fixpoint run_filters (pls : list FilterPlugin) (statuses : gmap string FStatus) (state : CycleState)
    (pod : Pod) (nodeInfo : NodeInfo) : outcome (gmap string FStatus) :=
  match pls with
  | [] => Ret statuses
  | pl :: pls =>
      let! pluginStatus := fl_Filter pl state pod nodeInfo in
      if IsSuccess pluginStatus then run_filters pls statuses state pod nodeInfo
      else
        match pluginStatus with
        | None => Panic nil_panic
        | Some s =>
            if negb (IsUnschedulable pluginStatus) then
              Ret {[ fl_Name pl := WithFailedPlugin
                (AsStatus (wrap_q "running " (fl_Name pl) " filter plugin" (AsError pluginStatus))) (fl_Name pl) ]}
            else
              let statuses := <[fl_Name pl := WithFailedPlugin s (fl_Name pl)]> statuses in
              if negb (runAllFilters Ext f) then Ret statuses
              else run_filters pls statuses state pod nodeInfo
        end
  end.

Definition RunFilterPlugins := run_filters (filterPlugins Ext f) ∅.

(** [PluginToStatus.Merge] *)
Definition merge_map (m : gmap string FStatus) : StatusPtr := Merge (map snd (range 0 (map_to_list m))).

(** [addNominatedPods]: the loop over the nominated pods. *)
Fixpoint add_nominated (pis : list PodInfo) (pod : Pod) (podsAdded : bool) (stateOut : CycleState)
    (nodeInfoOut : NodeInfo) (w : World) : outcome (bool * CycleState * NodeInfo * World * error) :=
  match pis with
  | [] => Ret (podsAdded, stateOut, nodeInfoOut, w, None)
  | pi :: pis =>
      if (PodPriority pod <=? PodPriority (pi_Pod pi)) && negb (String.eqb (UID (pi_Pod pi)) (UID pod)) then
        let '(nodeInfoOut, w) := AddPodInfo pi nodeInfoOut w in
        let! r := RunPreFilterExtensionAddPod stateOut pod pi nodeInfoOut in
        let '(stateOut, status) := r in
        if IsSuccess status then add_nominated pis pod true stateOut nodeInfoOut w
        else Ret (false, stateOut, nodeInfoOut, w, AsError status)
      else add_nominated pis pod podsAdded stateOut nodeInfoOut w
  end.

Definition addNominatedPods (npm : nominator) (pod : Pod) (state : CycleState) (nodeInfo : NodeInfo) (w : World)
  : outcome (bool * CycleState * NodeInfo * World * error) :=
  match ni_node nodeInfo with
  | None => Ret (false, state, nodeInfo, w, None)
  | Some node =>
      match NominatedPodsForNode npm (node_Name node) with
      | [] => Ret (false, state, nodeInfo, w, None)
      | pis =>
          let! r := add_nominated pis pod false (CS_Clone state) (Clone nodeInfo) w in
          let '(added, s, n, w, err) := r in
          match err with
          | Some e => Ret (false, state, nodeInfo, w, Some e)
          | None => Ret (added, s, n, w, None)
          end
      end
  end.

(** [RunFilterPluginsWithNominatedPods]: the filters run with the nominated
    pods of no lower priority, and again without them if some were added. *)
Definition RunFilterPluginsWithNominatedPods (npm : nominator) (state : CycleState) (pod : Pod)
    (info : NodeInfo) (w : World) : outcome (StatusPtr * World) :=
  let! r := addNominatedPods npm pod state info w in
  let '(podsAdded, stateToUse, nodeInfoToUse, w, err) := r in
  match err with
  | Some e => Ret (Some (AsStatus e), w)
  | None =>
      let! statusMap := RunFilterPlugins stateToUse pod nodeInfoToUse in
      let status := merge_map statusMap in
      if negb (IsSuccess status) && negb (IsUnschedulable status) then Ret (status, w)
      else if negb podsAdded || negb (IsSuccess status) then Ret (status, w)
      else
        let! statusMap := RunFilterPlugins state pod info in
        Ret (merge_map statusMap, w)
  end.

(** [RunPostFilterPlugins] *)
Fixpoint run_postfilter (pls : list (PostFilterPlugin Ext)) (statuses : gmap string FStatus) (x : Ext)
    (state : CycleState) (pod : Pod) (filtered : gmap string FStatus)
  : outcome (Ext * option string * StatusPtr) :=
  match pls with
  | [] => Ret (x, None, merge_map statuses)
  | pl :: pls =>
      let! r := po_PostFilter Ext pl x state pod filtered in
      let '(x, res, s) := r in
      if IsSuccess s then Ret (x, res, s)
      else
        match s with
        | None => Panic nil_panic
        | Some st =>
            if negb (IsUnschedulable s) then Ret (x, None, Some (AsStatus (default ""%string (AsError s))))
            else run_postfilter pls (<[po_Name Ext pl := st]> statuses) x state pod filtered
        end
  end.

Definition RunPostFilterPlugins := run_postfilter (postFilterPlugins Ext f) ∅.

(** [RunPreScorePlugins] *)
Fixpoint run_prescore (pls : list PreScorePlugin) (state : CycleState) (pod : Pod) (nodes : list Node)
  : outcome (CycleState * StatusPtr) :=
  match pls with
  | [] => Ret (state, None)
  | pl :: pls =>
      let! r := ps_PreScore pl state pod nodes in
      let '(state, status) := r in
      if IsSuccess status then run_prescore pls state pod nodes
      else Ret (state, Some (AsStatus (wrap_q "running PreScore plugin " (ps_Name pl) "" (AsError status))))
  end.

Definition RunPreScorePlugins := run_prescore (preScorePlugins Ext f).

(** *** [RunScorePlugins] *)

Definition failed_with (pl : ScorePlugin) (status : StatusPtr) : string :=
  wrap_q "plugin " (sc_Name pl) " failed with" (AsError status).

(** The scores of one node, plugin by plugin, up to the first error. *)
Fixpoint score_node (pls : list ScorePlugin) (state : CycleState) (pod : Pod) (nodeName : string)
  : outcome (list Z + string) :=
  match pls with
  | [] => Ret (inl [])
  | pl :: pls =>
      let! r := sc_Score pl state pod nodeName in
      let '(s, status) := r in
      if negb (IsSuccess status) then Ret (inr (failed_with pl status))
      else
        let! rest := score_node pls state pod nodeName in
        Ret (match rest with inl l => inl (s :: l) | inr e => inr e end)
  end.

(** The pieces of a parallel loop, each with its index; an error that a piece
    reports wins if it is the first in the order in which they run. *)
Definition parallel {A B} (loop : nat) (piece : A -> outcome (B + string)) (l : list A)
  : outcome (list B + string) :=
  let! rs := ofold (fun acc x => let! r := piece x in Ret (acc ++ [r])) l [] in
  let firsts := range loop (omap (fun r : B + string => match r with inr e => Some e | inl _ => None end) rs) in
  Ret (match firsts with
       | e :: _ => inr e
       | [] => inl (omap (fun r : B + string => match r with inl b => Some b | inr _ => None end) rs)
       end).

(** The list of scores of the plugin at position [j]. *)
Definition column (nodes : list Node) (rows : list (list Z)) (j : nat) : list NodeScore :=
  zip_with (fun n row => mkNodeScore (node_Name n) (default 0 (row !! j))) nodes rows.

Definition normalize (state : CycleState) (pod : Pod) (e : ScorePlugin * list NodeScore)
  : outcome (list NodeScore + string) :=
  match sc_Normalize e.1 with
  | None => Ret (inl e.2)
  | Some norm =>
      let! r := norm state pod e.2 in
      let '(l, status) := r in
      Ret (if IsSuccess status then inl l else inr (failed_with e.1 status))
  end.

Definition legal_score (z : Z) : bool := (MinNodeScore <=? z) && (z <=? MaxNodeScore).

Definition invalid_score (name : string) (z : Z) : string :=
  str_app "plugin " (String dquote (str_app name (String dquote
    (str_app " returns an invalid score " (str_app (Itoa z)
      ", it should in the range of [0, 100] after normalizing"))))).

(** Weights are applied to legal scores. *)
Definition apply_weight (e : ScorePlugin * list NodeScore) : outcome (list NodeScore + string) :=
  let weight := default 0 (scorePluginWeight Ext f !! sc_Name e.1) in
  Ret (match List.find (fun ns => negb (legal_score (ns_Score ns))) e.2 with
       | Some ns => inr (invalid_score (sc_Name e.1) (ns_Score ns))
       | None => inl (map (fun ns => mkNodeScore (ns_Name ns) (ns_Score ns *₆₄ weight)) e.2)
       end).

(** The weighted lists, in the order of the plugins. *)
Definition RunScorePlugins (state : CycleState) (pod : Pod) (nodes : list Node)
  : outcome (list (list NodeScore) + FStatus) :=
  let pls := scorePlugins Ext f in
  let! rows := parallel 0 (fun n => score_node pls state pod (node_Name n)) nodes in
  match rows with
  | inr e => Ret (inr (AsStatus (str_app "running Score plugins: " e)))
  | inl rows =>
      let lists := zip pls (map (column nodes rows) (seq 0 (length pls))) in
      let! normalized := parallel 1 (normalize state pod) lists in
      match normalized with
      | inr e => Ret (inr (AsStatus (str_app "running Normalize on Score plugins: " e)))
      | inl lists =>
          let! weighted := parallel 2 apply_weight (zip pls lists) in
          Ret (match weighted with
               | inr e => inr (AsStatus (str_app "applying score defaultWeights on Score plugins: " e))
               | inl lists => inl lists
               end)
      end
  end.

(** *** Reserve, permit and bind *)

Fixpoint run_reserve (pls : list (ReservePlugin Ext)) (x : Ext) (state : CycleState) (pod : Pod) (nodeName : string)
  : outcome (Ext * CycleState * StatusPtr) :=
  match pls with
  | [] => Ret (x, state, None)
  | pl :: pls =>
      let! r := rs_Reserve Ext pl x state pod nodeName in
      let '(x, state, status) := r in
      if IsSuccess status then run_reserve pls x state pod nodeName
      else Ret (x, state, Some (AsStatus (wrap_q "running Reserve plugin " (rs_Name Ext pl) "" (AsError status))))
  end.

Definition RunReservePluginsReserve := run_reserve (reservePlugins Ext f).

(** In the reverse order. *)
Definition RunReservePluginsUnreserve (x : Ext) (state : CycleState) (pod : Pod) (nodeName : string)
  : outcome (Ext * CycleState) :=
  ofold (fun st pl => rs_Unreserve Ext pl st.1 st.2 pod nodeName) (rev (reservePlugins Ext f)) (x, state).

Definition maxTimeout : Z := 15 * 60 * 1000000000.

(** [RunPermitPlugins]; the second component is [pluginsWaitTime]. *)
Fixpoint run_permit (pls : list (PermitPlugin Ext)) (wait : gmap string Z) (x : Ext) (state : CycleState)
    (pod : Pod) (nodeName : string) : outcome (Ext * (gmap string Z + FStatus)) :=
  match pls with
  | [] => Ret (x, inl wait)
  | pl :: pls =>
      let! r := pm_Permit Ext pl x state pod nodeName in
      let '(x, status, timeout) := r in
      if IsSuccess status then run_permit pls wait x state pod nodeName
      else
        match status with
        | None => Panic nil_panic
        | Some s =>
            if IsUnschedulable status then Ret (x, inr (WithFailedPlugin s (pm_Name Ext pl)))
            else if bool_decide (code s = Wait) then
              let timeout := if maxTimeout <? timeout then maxTimeout else timeout in
              run_permit pls (<[pm_Name Ext pl := timeout]> wait) x state pod nodeName
            else
              Ret (x, inr (WithFailedPlugin (AsStatus (wrap_q "running Permit plugin " (pm_Name Ext pl) ""
                (AsError status))) (pm_Name Ext pl)))
        end
  end.

Definition wait_msg (pod : Pod) : string :=
  str_app "one or more plugins asked to wait and no plugin rejected pod "
    (String dquote (str_app (Name pod) (String dquote ""))).

Definition RunPermitPlugins (waiting : waitingPodsMap) (x : Ext) (state : CycleState) (pod : Pod)
    (nodeName : string) : outcome (waitingPodsMap * Ext * StatusPtr) :=
  let! r := run_permit (permitPlugins Ext f) ∅ x state pod nodeName in
  let '(x, res) := r in
  Ret (match res with
       | inr s => (waiting, x, Some s)
       | inl wait =>
           if (size wait =? 0)%nat then (waiting, x, None)
           else (<[UID pod := newWaitingPod pod wait]> waiting, x, Some (NewStatus Wait [wait_msg pod]))
       end).

(** [WaitOnPermit]: what it returns once the channel of the pod holds a
    status; [None] while the pod is still waiting. *)
Definition WaitOnPermit (waiting : waitingPodsMap) (pod : Pod) : option (waitingPodsMap * StatusPtr) :=
  match waiting !! UID pod with
  | None => Some (waiting, None)
  | Some wp =>
      match wp_s wp with
      | None => None
      | Some s =>
          let waiting := delete (UID pod) waiting in
          if IsSuccess (Some s) then Some (waiting, None)
          else if IsUnschedulable (Some s) then Some (waiting, Some s)
          else Some (waiting, Some (WithFailedPlugin
                 (AsStatus (str_app "waiting on permit for pod: " (default ""%string (AsError (Some s)))))
                 (failedPlugin s)))
      end
  end.

(** [RejectWaitingPod] *)
Definition RejectWaitingPod (uid : string) (waiting : waitingPodsMap) : waitingPodsMap :=
  match waiting !! uid with
  | Some wp => <[uid := Reject "" "removed" wp]> waiting
  | None => waiting
  end.

Fixpoint run_prebind (pls : list (PreBindPlugin Ext)) (x : Ext) (state : CycleState) (pod : Pod) (nodeName : string)
  : outcome (Ext * StatusPtr) :=
  match pls with
  | [] => Ret (x, None)
  | pl :: pls =>
      let! r := pb_PreBind Ext pl x state pod nodeName in
      let '(x, status) := r in
      if IsSuccess status then run_prebind pls x state pod nodeName
      else Ret (x, Some (AsStatus (wrap_q "running PreBind plugin " (pb_Name Ext pl) "" (AsError status))))
  end.

Definition RunPreBindPlugins := run_prebind (preBindPlugins Ext f).

(** [RunBindPlugins]: the first plugin that does not skip decides. *)
Fixpoint run_bind (pls : list (BindPlugin Ext)) (status : StatusPtr) (x : Ext) (state : CycleState) (pod : Pod)
    (nodeName : string) : outcome (Ext * StatusPtr) :=
  match pls with
  | [] => Ret (x, status)
  | pl :: pls =>
      let! r := bd_Bind Ext pl x state pod nodeName in
      let '(x, status) := r in
      if bool_decide (Status_Code status = Skip) then run_bind pls status x state pod nodeName
      else if IsSuccess status then Ret (x, status)
      else Ret (x, Some (AsStatus (wrap_q "running Bind plugin " (bd_Name Ext pl) "" (AsError status))))
  end.

Definition RunBindPlugins (x : Ext) (state : CycleState) (pod : Pod) (nodeName : string)
  : outcome (Ext * StatusPtr) :=
  match bindPlugins Ext f with
  | [] => Ret (x, Some (NewStatus Skip [""%string]))
  | pls => run_bind pls None x state pod nodeName
  end.

Definition RunPostBindPlugins (x : Ext) (state : CycleState) (pod : Pod) (nodeName : string) : outcome Ext :=
  ofold (fun x pl => pp_PostBind Ext pl x state pod nodeName) (postBindPlugins Ext f) x.

Definition HasFilterPlugins : bool := (0 <? length (filterPlugins Ext f))%nat.
Definition HasPostFilterPlugins : bool := (0 <? length (postFilterPlugins Ext f))%nat.
Definition HasScorePlugins : bool := (0 <? length (scorePlugins Ext f))%nat.
End runtime.
