(* ===== verification/NodePlugins.v ===== *)
(** * The plugins about nodes

    The filters and scores of Kubernetes that look at one node: its name, its
    host ports, its taints, whether it is cordoned, and its labels.  Their
    checks are also what an event on a node is screened with before pods are
    taken from the unschedulable ones. *)

From S2P Require Import Prelude GoInt GoFloat GoStrconv Quantity ApiTypes Labels NodeAffinity AffinityTerms Resource HostPorts NodeInfo Framework Snapshot NodeResourcesFit Runtime.

Open Scope go_scope.

(** ** NodeName (nodename/node_name.go) *)

Definition nodename_Fits (pod : Pod) (node : Node) : bool :=
  (String.length (NodeName (Spec pod)) =? 0)%nat || String.eqb (NodeName (Spec pod)) (node_Name node).

Definition NodeName_ErrReason : string := "node(s) didn't match the requested node name".

Definition NodeName_Filter (pod : Pod) (nodeInfo : NodeInfo) : StatusPtr :=
  match ni_node nodeInfo with
  | None => Some (NewStatus Error ["node not found"%string])
  | Some node =>
      if negb (nodename_Fits pod node)
      then Some (NewStatus UnschedulableAndUnresolvable [NodeName_ErrReason]) else None
  end.

(** ** NodePorts (nodeports/node_ports.go) *)

Definition NodePorts_preFilterStateKey : string := "PreFilterNodePorts".
Definition NodePorts_ErrReason : string := "node(s) didn't have free ports for the requested pod ports".

Definition getContainerPorts (pods : list Pod) : list ContainerPort :=
  concat (map (fun pod => concat (map c_Ports (Containers (Spec pod)))) pods).

Definition fitsPorts (wantPorts : list ContainerPort) (nodeInfo : NodeInfo) : bool :=
  forallb (fun cp => negb (CheckConflict (UsedPorts nodeInfo) (HostIP cp) (Protocol cp) (HostPort cp))) wantPorts.

Definition nodeports_Fits (pod : Pod) (nodeInfo : NodeInfo) : bool := fitsPorts (getContainerPorts [pod]) nodeInfo.

Definition NodePorts_PreFilter (cs : CycleState) (pod : Pod) : CycleState * StatusPtr :=
  (CS_Write cs NodePorts_preFilterStateKey (SD_NodePorts (getContainerPorts [pod])), None).

(** The error texts are abridged: they name the key and the error. *)
Definition NodePorts_getPreFilterState (cs : CycleState) : list ContainerPort + string :=
  match CS_Read cs NodePorts_preFilterStateKey with
  | inr e => inr (wrap_q "reading " NodePorts_preFilterStateKey " from cycleState" (Some e))
  | inl (SD_NodePorts l) => inl l
  | inl _ => inr "convert to nodeports.preFilterState error"%string
  end.

Definition NodePorts_Filter (cs : CycleState) (nodeInfo : NodeInfo) : StatusPtr :=
  match NodePorts_getPreFilterState cs with
  | inr e => Some (AsStatus e)
  | inl wantPorts =>
      if negb (fitsPorts wantPorts nodeInfo) then Some (NewStatus Unschedulable [NodePorts_ErrReason]) else None
  end.

(** ** Taints and tolerations *)

Definition TaintEffectNoSchedule : string := "NoSchedule".
Definition TaintEffectPreferNoSchedule : string := "PreferNoSchedule".
Definition TaintEffectNoExecute : string := "NoExecute".

(** [Toleration.ToleratesTaint] *)
Definition ToleratesTaint (t : Toleration) (taint : Taint) : bool :=
  if (0 <? String.length (tol_Effect t))%nat && negb (String.eqb (tol_Effect t) (t_Effect taint)) then false
  else if (0 <? String.length (tol_Key t))%nat && negb (String.eqb (tol_Key t) (t_Key taint)) then false
  else if one_of (tol_Operator t) [""; "Equal"]%string then String.eqb (tol_Value t) (t_Value taint)
  else String.eqb (tol_Operator t) "Exists".

Definition TolerationsTolerateTaint (tolerations : list Toleration) (taint : Taint) : bool :=
  existsb (fun t => ToleratesTaint t taint) tolerations.

Definition getFilteredTaints (taints : list Taint) (inclusionFilter : option (Taint -> bool)) : list Taint :=
  match inclusionFilter with None => taints | Some f => List.filter f taints end.

Definition FindMatchingUntoleratedTaint (taints : list Taint) (tolerations : list Toleration)
    (inclusionFilter : option (Taint -> bool)) : option Taint :=
  List.find (fun taint => negb (TolerationsTolerateTaint tolerations taint)) (getFilteredTaints taints inclusionFilter).

(** The taints that keep pods away. *)
Definition hard_taint (t : Taint) : bool :=
  String.eqb (t_Effect t) TaintEffectNoSchedule || String.eqb (t_Effect t) TaintEffectNoExecute.

(** ** TaintToleration (tainttoleration/taint_toleration.go) *)

Definition TaintToleration_preScoreStateKey : string := "PreScoreTaintToleration".

Definition TaintToleration_Filter (pod : Pod) (nodeInfo : NodeInfo) : StatusPtr :=
  match ni_node nodeInfo with
  | None => Some (AsStatus "invalid nodeInfo")
  | Some node =>
      match FindMatchingUntoleratedTaint (node_Taints node) (Tolerations (Spec pod)) (Some hard_taint) with
      | None => None
      | Some taint =>
          Some (NewStatus UnschedulableAndUnresolvable
            [str_app "node(s) had taint {" (str_app (t_Key taint) (str_app ": " (str_app (t_Value taint)
               "}, that the pod didn't tolerate")))])
      end
  end.

Definition getAllTolerationPreferNoSchedule (tolerations : list Toleration) : list Toleration :=
  List.filter (fun t => (String.length (tol_Effect t) =? 0)%nat
                        || String.eqb (tol_Effect t) TaintEffectPreferNoSchedule) tolerations.

Definition TaintToleration_PreScore (cs : CycleState) (pod : Pod) (nodes : list Node) : CycleState * StatusPtr :=
  if (length nodes =? 0)%nat then (cs, None)
  else (CS_Write cs TaintToleration_preScoreStateKey
          (SD_Tolerations (getAllTolerationPreferNoSchedule (Tolerations (Spec pod)))), None).

Definition TaintToleration_getPreScoreState (cs : CycleState) : list Toleration + string :=
  match CS_Read cs TaintToleration_preScoreStateKey with
  | inr e => inr (wrap_q "failed to read " TaintToleration_preScoreStateKey " from cycleState" (Some e))
  | inl (SD_Tolerations l) => inl l
  | inl _ => inr "convert to tainttoleration.preScoreState error"%string
  end.

Definition countIntolerableTaintsPreferNoSchedule (taints : list Taint) (tolerations : list Toleration) : Z :=
  Z.of_nat (length (List.filter (fun taint =>
    String.eqb (t_Effect taint) TaintEffectPreferNoSchedule && negb (TolerationsTolerateTaint tolerations taint)) taints)).

Definition getting_node (nodeName e : string) : string := wrap_q "getting node " nodeName " from Snapshot" (Some e).

Definition TaintToleration_Score (snap : Snapshot) (cs : CycleState) (nodeName : string) : outcome (Z * StatusPtr) :=
  match SN_Get snap nodeName with
  | inr e => Ret (0, Some (AsStatus (getting_node nodeName e)))
  | inl nodeInfo =>
      match TaintToleration_getPreScoreState cs with
      | inr e => Ret (0, Some (AsStatus e))
      | inl tolerations =>
          match ni_node nodeInfo with
          | None => Panic nil_panic
          | Some node => Ret (countIntolerableTaintsPreferNoSchedule (node_Taints node) tolerations, None)
          end
      end
  end.

(** ** [helper.DefaultNormalizeScore] *)

Definition maxCount (scores : list NodeScore) : Z :=
  fold_left (fun m ns => if m <? ns_Score ns then ns_Score ns else m) scores 0.

Definition DefaultNormalizeScore (maxPriority : Z) (reverse : bool) (scores : list NodeScore)
  : list NodeScore * StatusPtr :=
  let m := maxCount scores in
  if m =? 0 then
    (if reverse then map (fun ns => mkNodeScore (ns_Name ns) maxPriority) scores else scores, None)
  else
    (map (fun ns =>
       let score := div64 (maxPriority *₆₄ ns_Score ns) m in
       mkNodeScore (ns_Name ns) (if reverse then maxPriority -₆₄ score else score)) scores, None).

(** ** NodeUnschedulable (nodeunschedulable/node_unschedulable.go) *)

Definition TaintNodeUnschedulable : string := "node.kubernetes.io/unschedulable".

Definition NodeUnschedulable_Filter (pod : Pod) (nodeInfo : NodeInfo) : StatusPtr :=
  match ni_node nodeInfo with
  | None => Some (NewStatus UnschedulableAndUnresolvable ["node(s) had unknown conditions"%string])
  | Some node =>
      let podToleratesUnschedulable :=
        TolerationsTolerateTaint (Tolerations (Spec pod)) (mkTaint TaintNodeUnschedulable "" TaintEffectNoSchedule) in
      if node_Unschedulable node && negb podToleratesUnschedulable
      then Some (NewStatus UnschedulableAndUnresolvable ["node(s) were unschedulable"%string]) else None
  end.

(** ** NodeAffinity (nodeaffinity/node_affinity.go) *)

Record NodeAffinityPlugin := mkNodeAffinityPlugin {
  addedNodeSelector : option (list nodeSelectorTerm);
  addedPrefSchedTerms : option (list (nodeSelectorTerm * Z))
}.

(** [New], for arguments that were read and validated. *)
Definition NodeAffinity_New (addedAffinity : option NodeAffinity) : NodeAffinityPlugin + list NodeSelError :=
  match addedAffinity with
  | None => inl (mkNodeAffinityPlugin None None)
  | Some a =>
      match match na_Required a with None => inl None | Some ns =>
              match NewNodeSelector ns with inl s => inl (Some s) | inr e => inr e end end with
      | inr e => inr e
      | inl sel =>
          if negb (length (na_Preferred a) =? 0)%nat then
            match NewPreferredSchedulingTerms (na_Preferred a) with
            | inr e => inr e
            | inl terms => inl (mkNodeAffinityPlugin sel (Some terms))
            end
          else inl (mkNodeAffinityPlugin sel None)
      end
  end.

Definition NodeAffinity_preFilterStateKey : string := "PreFilterNodeAffinity".
Definition NodeAffinity_preScoreStateKey : string := "PreScoreNodeAffinity".
Definition NodeAffinity_ErrReasonPod : string := "node(s) didn't match Pod's node affinity/selector".
Definition NodeAffinity_errReasonEnforced : string := "node(s) didn't match scheduler-enforced node affinity".

Definition NodeAffinity_PreFilter (cs : CycleState) (pod : Pod) : CycleState * StatusPtr :=
  (CS_Write cs NodeAffinity_preFilterStateKey (SD_NodeAffinity (GetRequiredNodeAffinity pod)), None).

(** Without the state of [PreFilter] the selector is parsed here. *)
Definition NodeAffinity_required (cs : CycleState) (pod : Pod) : RequiredNodeAffinity :=
  match CS_Read cs NodeAffinity_preFilterStateKey with
  | inl (SD_NodeAffinity s) => s
  | _ => GetRequiredNodeAffinity pod
  end.

Definition NodeAffinity_Filter (pl : NodeAffinityPlugin) (cs : CycleState) (pod : Pod) (nodeInfo : NodeInfo) : StatusPtr :=
  match ni_node nodeInfo with
  | None => Some (NewStatus Error ["node not found"%string])
  | Some node =>
      if match addedNodeSelector pl with Some s => negb (NodeSelector_Match s node) | None => false end
      then Some (NewStatus UnschedulableAndUnresolvable [NodeAffinity_errReasonEnforced])
      else if negb (RNA_Match (NodeAffinity_required cs pod) node).1
      then Some (NewStatus UnschedulableAndUnresolvable [NodeAffinity_ErrReasonPod])
      else None
  end.

Section preferred.
(** How the errors of a parse read. *)
Context (aggregate : list NodeSelError -> string).

Definition getPodPreferredNodeAffinity (pod : Pod) : option (list (nodeSelectorTerm * Z)) + list NodeSelError :=
  match spec_Affinity (Spec pod) with
  | Some a =>
      match spec_NodeAffinity a with
      | Some na =>
          if (length (na_Preferred na) =? 0)%nat then inl None
          else match NewPreferredSchedulingTerms (na_Preferred na) with
               | inl terms => inl (Some terms)
               | inr e => inr e
               end
      | None => inl None
      end
  | None => inl None
  end.

Definition NodeAffinity_PreScore (cs : CycleState) (pod : Pod) (nodes : list Node) : CycleState * StatusPtr :=
  if (length nodes =? 0)%nat then (cs, None)
  else match getPodPreferredNodeAffinity pod with
       | inr e => (cs, Some (AsStatus (aggregate e)))
       | inl terms => (CS_Write cs NodeAffinity_preScoreStateKey (SD_Preferred terms), None)
       end.

Definition NodeAffinity_Score (pl : NodeAffinityPlugin) (snap : Snapshot) (cs : CycleState) (pod : Pod) (nodeName : string)
  : Z * StatusPtr :=
  match SN_Get snap nodeName with
  | inr e => (0, Some (AsStatus (getting_node nodeName e)))
  | inl nodeInfo =>
      match ni_node nodeInfo with
      | None => (0, Some (AsStatus (getting_node nodeName "%!w(<nil>)")))
      | Some node =>
          let count := match addedPrefSchedTerms pl with Some t => Preferred_Score t node | None => 0 end in
          let s := match CS_Read cs NodeAffinity_preScoreStateKey with
                   | inl (SD_Preferred t) => inl t
                   | _ => getPodPreferredNodeAffinity pod
                   end in
          match s with
          | inr e => (0, Some (AsStatus (aggregate e)))
          | inl None => (count, None)
          | inl (Some t) => (count +₆₄ Preferred_Score t node, None)
          end
      end
  end.
End preferred.

(** ** Normalized scores *)

Lemma maxCount_spec scores :
  0 <= maxCount scores /\ Forall (fun ns => ns_Score ns <= maxCount scores) scores /\
  (maxCount scores = 0 \/ Exists (fun ns => ns_Score ns = maxCount scores) scores).
Proof.
  unfold maxCount. cut (forall m, 0 <= m ->
    let r := fold_left (fun m ns => if m <? ns_Score ns then ns_Score ns else m) scores m in
    m <= r /\ Forall (fun ns => ns_Score ns <= r) scores /\ (r = m \/ Exists (fun ns => ns_Score ns = r) scores)).
  { intros H. destruct (H 0) as (H1 & H2 & H3); [lia|]. by split_and!. }
  induction scores as [|ns scores IH]; intros m Hm; cbn [fold_left].
  { split_and!; [lia|constructor|by left]. }
  destruct (Z.ltb_spec m (ns_Score ns)) as [Hl|Hl].
  - destruct (IH (ns_Score ns)) as (H1 & H2 & H3); [lia|]. cbv zeta in *. split_and!; [lia|by constructor|].
    right. destruct H3 as [H3|H3]; [by left|by right].
  - destruct (IH m Hm) as (H1 & H2 & H3). cbv zeta in *. split_and!; [lia|constructor; [lia|done]|].
    destruct H3 as [H3|H3]; [by left|by right; right].
Qed.

(** The normalized score of one node. *)
Definition normalized (reverse : bool) (m score : Z) : Z :=
  if m =? 0 then if reverse then MaxNodeScore else score
  else if reverse then MaxNodeScore - MaxNodeScore * score / m else MaxNodeScore * score / m.

Lemma normalize_exact m score : 0 < m < 2 ^ 56 -> 0 <= score <= m ->
  div64 (MaxNodeScore *₆₄ score) m = MaxNodeScore * score / m /\ 0 <= MaxNodeScore * score / m <= MaxNodeScore.
Proof.
  intros Hm Hs. unfold MaxNodeScore. rewrite mul64_exact by (int_unfold; lia).
  assert (0 <= 100 * score / m <= 100) as Hr.
  { split; [apply Z.div_pos; lia|]. apply Z.div_le_upper_bound; lia. }
  split; [|done]. unfold div64. rewrite Z.quot_div_nonneg by lia. int_unfold. rewrite Z.mod_small; lia.
Qed.

(** [DefaultNormalizeScore] turns any non-negative scores (below 2^56, so
    that nothing overflows) into legal ones, from 0 to 100: the nodes stay in
    their places, the arithmetic is exact, a node that scored higher does not
    come out lower (higher, when the order is reversed), and the node with
    the most gets 100 (0, when the order is reversed), unless all have 0. *)
Theorem DefaultNormalizeScore_legal reverse scores :
  Forall (fun ns => 0 <= ns_Score ns < 2 ^ 56) scores ->
  let m := maxCount scores in
  let r := (DefaultNormalizeScore MaxNodeScore reverse scores).1 in
  (DefaultNormalizeScore MaxNodeScore reverse scores).2 = None /\
  r = map (fun ns => mkNodeScore (ns_Name ns) (normalized reverse m (ns_Score ns))) scores /\
  Forall (fun ns => legal_score (ns_Score ns) = true) r /\
  (forall a b, a ∈ scores -> b ∈ scores -> ns_Score a <= ns_Score b ->
    if reverse then normalized reverse m (ns_Score b) <= normalized reverse m (ns_Score a)
    else normalized reverse m (ns_Score a) <= normalized reverse m (ns_Score b)) /\
  (0 < m -> exists b, b ∈ scores /\ normalized reverse m (ns_Score b) = if reverse then MinNodeScore else MaxNodeScore).
Proof.
  intros HF. destruct (maxCount_spec scores) as (H0 & Hle & Hex). set (m := maxCount scores) in *. cbv zeta.
  assert (m < 2 ^ 56) as Hm56.
  { destruct Hex as [-> |[ns [Hin <-]]%Exists_exists]; [lia|]. rewrite Forall_forall in HF. by apply HF. }
  rewrite Forall_forall in HF, Hle.
  assert (forall ns, ns ∈ scores -> 0 < m ->
    div64 (MaxNodeScore *₆₄ ns_Score ns) m = MaxNodeScore * ns_Score ns / m /\
    0 <= MaxNodeScore * ns_Score ns / m <= MaxNodeScore) as Hone.
  { intros ns Hin Hm. apply normalize_exact; [lia|]. split; [by apply HF|by apply Hle]. }
  assert ((DefaultNormalizeScore MaxNodeScore reverse scores).1
    = map (fun ns => mkNodeScore (ns_Name ns) (normalized reverse m (ns_Score ns))) scores) as Hr.
  { unfold DefaultNormalizeScore. fold m. unfold normalized. destruct (Z.eqb_spec m 0) as [E|E]; cbn [fst].
    - destruct reverse; [done|]. rewrite <- (map_id scores) at 1. apply map_ext. by intros [].
    - apply map_ext_in. intros ns Hin%list_elem_of_In. destruct (Hone ns Hin) as [-> Hb]; [lia|].
      f_equal. destruct reverse; [|done]. apply sub64_exact. revert Hb. unfold MaxNodeScore. int_unfold. lia. }
  split_and!.
  - unfold DefaultNormalizeScore. by destruct (_ =? _).
  - exact Hr.
  - rewrite Hr, Forall_map, Forall_forall. intros ns Hin. unfold legal_score, MinNodeScore, normalized. cbn [ns_Score].
    specialize (Hone ns Hin). pose proof (HF ns Hin). pose proof (Hle ns Hin).
    destruct (Z.eqb_spec m 0) as [E|E], reverse; apply andb_true_iff; rewrite !Z.leb_le;
      try (destruct Hone as [_ Hb]; [lia|]); unfold MaxNodeScore in *; lia.
  - intros a b Ha Hb Hab. unfold normalized. destruct (Z.eqb_spec m 0) as [E|E].
    + destruct reverse; [lia|done].
    + assert (MaxNodeScore * ns_Score a / m <= MaxNodeScore * ns_Score b / m) as Hmono.
      { apply Z.div_le_mono; [lia|]. unfold MaxNodeScore. lia. }
      destruct reverse; lia.
  - intros Hm. destruct Hex as [E|[b [Hin Hb]]%Exists_exists]; [lia|]. exists b. split; [done|].
    unfold normalized. rewrite Hb. destruct (Z.eqb_spec m 0); [lia|]. rewrite Z.div_mul by lia.
    destruct reverse; [|done]. unfold MinNodeScore. lia.
Qed.

(** ** Taints *)

(** For a taint with the effect PreferNoSchedule the other tolerations make no
    difference. *)
Lemma prefer_tolerations tolerations taint :
  t_Effect taint = TaintEffectPreferNoSchedule ->
  TolerationsTolerateTaint (getAllTolerationPreferNoSchedule tolerations) taint = TolerationsTolerateTaint tolerations taint.
Proof.
  intros He. unfold TolerationsTolerateTaint, getAllTolerationPreferNoSchedule.
  induction tolerations as [|t l IH]; [done|]. cbn [List.filter existsb].
  destruct (_ || _) eqn:Ef; cbn [existsb]; rewrite IH; [done|].
  apply orb_false_iff in Ef as [E1 E2]. unfold ToleratesTaint. rewrite He, E2.
  destruct (String.length (tol_Effect t)); [done|]. done.
Qed.

(** The score of TaintToleration, computed from the tolerations that
    [PreScore] selected, is the number of taints with the effect
    PreferNoSchedule that no toleration of the pod tolerates. *)
Theorem TaintToleration_score_spec snap cs pod nodes nodeName node :
  nodes <> [] -> (exists ni, SN_Get snap nodeName = inl ni /\ ni_node ni = Some node) ->
  TaintToleration_Score snap (TaintToleration_PreScore cs pod nodes).1 nodeName
  = Ret (Z.of_nat (length (List.filter (fun taint => String.eqb (t_Effect taint) TaintEffectPreferNoSchedule
      && negb (TolerationsTolerateTaint (Tolerations (Spec pod)) taint)) (node_Taints node))), None).
Proof.
  intros Hn (ni & Hget & Hnode). unfold TaintToleration_Score, TaintToleration_PreScore.
  destruct nodes; [done|]. cbn [length Nat.eqb fst]. rewrite Hget.
  unfold TaintToleration_getPreScoreState, CS_Read. cbn [storage CS_Write]. rewrite lookup_insert_eq, Hnode.
  unfold countIntolerableTaintsPreferNoSchedule. do 4 f_equal. apply filter_ext. intros taint.
  destruct (String.eqb_spec (t_Effect taint) TaintEffectPreferNoSchedule) as [E|]; [|done].
  by rewrite prefer_tolerations.
Qed.
