(* ===== verification/ScorePlugins.v ===== *)
(** * ImageLocality and NodeLabel

    The plugin that favours nodes which have the images of a pod
    (imagelocality/image_locality.go), and the legacy plugin that looks for
    labels (nodelabel/node_label.go).  Image sizes are scaled in float64; the
    score is an integer computation on the clamped sum. *)

From S2P Require Import Prelude GoInt GoFloat GoStrconv Quantity ApiTypes Labels AffinityTerms Resource HostPorts NodeInfo Json Framework Snapshot Hicev1 Hicev1Proofs Runtime NodePlugins Samples.

Open Scope go_scope.

(** ** ImageLocality *)

Definition mb : Z := 1024 * 1024.
Definition minThreshold : Z := 23 * mb.
Definition maxContainerThreshold : Z := 1000 * mb.

(** The bytes of [s] after the last byte [c], if there is one. *)
Fixpoint after_last (c : ascii) (s : string) : option string :=
  match s with
  | EmptyString => None
  | String a s =>
      match after_last c s with
      | Some t => Some t
      | None => if Ascii.eqb a c then Some s else None
      end
  end.

(** [strings.LastIndex] for a text of one byte. *)
Definition LastIndex (s : string) (c : ascii) : Z :=
  match after_last c s with
  | Some t => Z.of_nat (String.length s) - Z.of_nat (String.length t) - 1
  | None => -1
  end.

Definition normalizedImageName (name : string) : string :=
  if LastIndex name ":" <=? LastIndex name "/" then str_app name ":latest" else name.

Section image_locality.
Context {arch : GoArch}.

Definition scaledImageScore (imageState : ImageStateSummary) (totalNumNodes : Z) : Z :=
  let spread := f64_div (f64_of_Z (is_NumNodes imageState)) (f64_of_Z totalNumNodes) in
  int64_of_f64 (f64_mul (f64_of_Z (is_Size imageState)) spread).

Definition sumImageScores (nodeInfo : NodeInfo) (containers : list Container) (totalNumNodes : Z) : Z :=
  fold_left (fun sum container =>
    match ImageStates nodeInfo !! normalizedImageName (c_Image container) with
    | Some state => sum +₆₄ scaledImageScore state totalNumNodes
    | None => sum
    end) containers 0.

Definition calculatePriority (sumScores : Z) (numContainers : Z) : Z :=
  let maxThreshold := maxContainerThreshold *₆₄ numContainers in
  let sumScores :=
    if sumScores <? minThreshold then minThreshold
    else if maxThreshold <? sumScores then maxThreshold else sumScores in
  div64 (MaxNodeScore *₆₄ (sumScores -₆₄ minThreshold)) (maxThreshold -₆₄ minThreshold).

Definition ImageLocality_Score (snap : Snapshot) (pod : Pod) (nodeName : string) : Z * StatusPtr :=
  match SN_Get snap nodeName with
  | inr e => (0, Some (AsStatus (getting_node nodeName e)))
  | inl nodeInfo =>
      let totalNumNodes := Z.of_nat (length (SN_List snap)) in
      (calculatePriority (sumImageScores nodeInfo (Containers (Spec pod)) totalNumNodes)
         (Z.of_nat (length (Containers (Spec pod)))), None)
  end.
End image_locality.

(** ** NodeLabel *)

Record NodeLabelArgs := mkNodeLabelArgs {
  PresentLabels : list string;
  AbsentLabels : list string;
  PresentLabelsPreference : list string;
  AbsentLabelsPreference : list string
}.

Definition ErrReasonPresenceViolated : string := "node(s) didn't have the requested labels".

Definition check_labels (nodeLabels : gmap string string) (labels : list string) (presence : bool) : bool :=
  forallb (fun label => Bool.eqb (Set_Has nodeLabels label) presence) labels.

Definition NodeLabel_Filter (args : NodeLabelArgs) (nodeInfo : NodeInfo) : StatusPtr :=
  match ni_node nodeInfo with
  | None => Some (NewStatus Error ["node not found"%string])
  | Some node =>
      if (length (PresentLabels args) + length (AbsentLabels args) =? 0)%nat then None
      else if check_labels (node_Labels node) (PresentLabels args) true && check_labels (node_Labels node) (AbsentLabels args) false
      then None
      else Some (NewStatus UnschedulableAndUnresolvable [ErrReasonPresenceViolated])
  end.

(** One of the two loops of [Score]. *)
Definition label_points (nodeLabels : gmap string string) (presence : bool) (score : Z) (labels : list string) : Z :=
  fold_left (fun score label => if Bool.eqb (Set_Has nodeLabels label) presence then score +₆₄ MaxNodeScore else score) labels score.

Definition NodeLabel_Score (args : NodeLabelArgs) (snap : Snapshot) (nodeName : string) : outcome (Z * StatusPtr) :=
  match SN_Get snap nodeName with
  | inr e => Ret (0, Some (AsStatus (getting_node nodeName e)))
  | inl nodeInfo =>
      let size := Z.of_nat (length (PresentLabelsPreference args) + length (AbsentLabelsPreference args)) in
      if size =? 0 then Ret (0, None)
      else
        match ni_node nodeInfo with
        | None => Panic nil_panic
        | Some node =>
            let score := label_points (node_Labels node) true 0 (PresentLabelsPreference args) in
            let score := label_points (node_Labels node) false score (AbsentLabelsPreference args) in
            Ret (div64 score size, None)
        end
  end.

(** ** Names of images *)

Lemma after_last_app c s t :
  after_last c (str_app s t) =
  match after_last c t with Some r => Some r | None => (fun r => str_app r t) <$> after_last c s end.
Proof.
  induction s as [|a s IH]; cbn [str_app after_last]; [by destruct (after_last c t)|]. rewrite IH.
  destruct (after_last c t); [done|]. destruct (after_last c s); [done|]. by destruct (Ascii.eqb a c).
Qed.

Lemma after_last_length c s t : after_last c s = Some t -> (String.length t < String.length s)%nat.
Proof.
  revert t. induction s as [|a s IH]; intros t; cbn [after_last String.length]; [done|].
  destruct (after_last c s) as [r|]; [intros [= <-]; specialize (IH r eq_refl); lia|]. destruct (Ascii.eqb a c); [intros [= <-]; lia|done].
Qed.

Lemma LastIndex_bound s c : -1 <= LastIndex s c < Z.of_nat (String.length s).
Proof.
  unfold LastIndex. destruct (after_last c s) as [t|] eqn:E; [apply after_last_length in E; lia|lia].
Qed.

Lemma LastIndex_colon name : LastIndex (str_app name ":latest") ":" = Z.of_nat (String.length name).
Proof. unfold LastIndex. rewrite after_last_app. cbn [after_last Ascii.eqb Bool.eqb]. rewrite length_str_app. cbn. lia. Qed.

Lemma LastIndex_slash name : LastIndex (str_app name ":latest") "/" = LastIndex name "/".
Proof.
  unfold LastIndex. rewrite after_last_app. destruct (after_last "/" name) as [t|]; [|done]. cbn. rewrite !length_str_app. cbn. lia.
Qed.

(** A normalized name has a tag: a colon behind its last slash; and a name
    with a tag is its own normal form. *)
Theorem normalizedImageName_spec name :
  let r := normalizedImageName name in
  LastIndex r "/" < LastIndex r ":" /\ normalizedImageName r = r /\ (r = name \/ r = str_app name ":latest").
Proof.
  cbv zeta. assert (LastIndex (normalizedImageName name) "/" < LastIndex (normalizedImageName name) ":") as H.
  { unfold normalizedImageName. destruct (Z.leb_spec (LastIndex name ":") (LastIndex name "/")) as [Hl|Hl]; [|done].
    rewrite LastIndex_colon, LastIndex_slash. apply LastIndex_bound. }
  split_and!; [done| |].
  - unfold normalizedImageName at 1. destruct (Z.leb_spec (LastIndex (normalizedImageName name) ":") (LastIndex (normalizedImageName name) "/")); [lia|done].
  - unfold normalizedImageName. destruct (_ <=? _); [by right|by left].
Qed.

(** ** Scores of images *)

(** The score for the sum [s] of [n] containers, exactly. *)
Definition image_points (s n : Z) : Z :=
  MaxNodeScore * (Z.max minThreshold (Z.min s (maxContainerThreshold * n)) - minThreshold) / (maxContainerThreshold * n - minThreshold).

Lemma calculatePriority_exact s n :
  1 <= n < 2 ^ 26 -> calculatePriority s n = image_points s n /\ 0 <= image_points s n <= MaxNodeScore.
Proof.
  intros Hn. unfold calculatePriority, image_points, maxContainerThreshold, minThreshold, mb, MaxNodeScore in *.
  set (m := 23 * (1024 * 1024)) in *. set (M := 1000 * (1024 * 1024) * n).
  rewrite (mul64_exact (1000 * (1024 * 1024)) n) by (int_unfold; lia). fold M.
  assert (m < M /\ M < 2 ^ 56) as [HmM HM] by (unfold m, M; lia). cbv zeta.
  assert ((if s <? m then m else if M <? s then M else s) = Z.max m (Z.min s M)) as ->.
  { destruct (Z.ltb_spec s m); [lia|]. destruct (Z.ltb_spec M s); lia. }
  set (k := Z.max m (Z.min s M)). assert (m <= k <= M) as Hk by (unfold k; lia).
  assert (0 < m) as Hm by (unfold m; lia). clearbody m M k.
  rewrite !sub64_exact by (int_unfold; lia). rewrite mul64_exact by (int_unfold; lia). unfold div64.
  rewrite Z.quot_div_nonneg by lia.
  assert (0 <= 100 * (k - m) / (M - m) <= 100) as Hr.
  { split; [apply Z.div_pos; lia|]. apply Z.div_le_upper_bound; lia. }
  split; [|done]. apply int64_id. int_unfold. lia.
Qed.

Section locality_proofs.
Context {arch : GoArch}.

(** The scores of ImageLocality are legal, whatever sizes the nodes report and
    however the sum of the scaled sizes rounds or wraps: a node of the
    snapshot gets from 0 to 100, 0 below 23 MB of images, 100 from 1000 MB
    for each container on, and never less for a larger sum. *)
Theorem ImageLocality_Score_legal snap pod nodeName nodeInfo :
  SN_Get snap nodeName = inl nodeInfo -> Z.of_nat (length (Containers (Spec pod))) < 2 ^ 26 ->
  let n := Z.of_nat (length (Containers (Spec pod))) in
  let sum := sumImageScores nodeInfo (Containers (Spec pod)) (Z.of_nat (length (SN_List snap))) in
  exists score, ImageLocality_Score snap pod nodeName = (score, None) /\ legal_score score = true /\
    (n <> 0 -> score = image_points sum n /\ (sum <= minThreshold -> score = MinNodeScore) /\
       (maxContainerThreshold * n <= sum -> score = MaxNodeScore) /\
       forall sum', sum <= sum' -> score <= image_points sum' n).
Proof.
  intros Hget Hn n sum. unfold ImageLocality_Score. rewrite Hget. fold n. fold sum. eexists. split; [done|].
  destruct (decide (n = 0)) as [E|E].
  { assert (Containers (Spec pod) = []) as E0 by (apply length_zero_iff_nil; lia).
    assert (sum = 0) as -> by (unfold sum; by rewrite E0). rewrite E. split; [reflexivity|done]. }
  assert (1 <= n < 2 ^ 26) as Hn' by lia. destruct (calculatePriority_exact sum n Hn') as [-> Hr].
  split; [unfold legal_score, MinNodeScore, MaxNodeScore in *; lia|]. intros _. split; [done|].
  assert (minThreshold < maxContainerThreshold * n) as HmM by (unfold minThreshold, maxContainerThreshold, mb; lia).
  unfold image_points. split_and!.
  - intros Hs. rewrite Z.max_l by lia. by rewrite Z.sub_diag.
  - intros Hs. rewrite Z.min_r, Z.max_r by lia. apply Z.div_mul. lia.
  - intros sum' Hs. apply Z.div_le_mono; [lia|]. apply Z.mul_le_mono_nonneg_l; [by unfold MaxNodeScore|]. lia.
Qed.

(** ** NodeLabel *)

(** How many of the labels the node has, or has not. *)
Definition meets (ls : gmap string string) (presence : bool) (labels : list string) : nat :=
  length (List.filter (fun l => Bool.eqb (Set_Has ls l) presence) labels).

Lemma meets_le ls presence labels : (meets ls presence labels <= length labels)%nat.
Proof. apply filter_length_le. Qed.

Lemma label_points_spec ls presence score labels :
  0 <= score -> score + MaxNodeScore * Z.of_nat (length labels) <= MaxInt64 ->
  label_points ls presence score labels = score + MaxNodeScore * Z.of_nat (meets ls presence labels).
Proof.
  unfold label_points, meets. revert score. induction labels as [|l labels IH]; intros score H0 Hmax; cbn [fold_left List.filter length] in *; [lia|].
  destruct (Bool.eqb (Set_Has ls l) presence); unfold MaxNodeScore in *; cbn [length].
  - rewrite add64_exact by (int_unfold; lia). rewrite IH by lia. lia.
  - rewrite IH by lia. lia.
Qed.

Lemma Set_Has_spec ls l (b : bool) :
  Bool.eqb (Set_Has ls l) b = true <-> if b then is_Some (ls !! l) else ~ is_Some (ls !! l).
Proof.
  unfold Set_Has. destruct (ls !! l), b; cbn.
  - split; [by eexists|done].
  - split; [done|]. intros H. destruct H. by eexists.
  - split; [done|by intros [? ?]].
  - split; [by intros _ [? ?]|done].
Qed.

Lemma check_labels_spec ls labels (b : bool) :
  check_labels ls labels b = true <-> Forall (fun l => if b then is_Some (ls !! l) else ~ is_Some (ls !! l)) labels.
Proof.
  unfold check_labels. rewrite forallb_forall, Forall_forall. setoid_rewrite Set_Has_spec. by setoid_rewrite list_elem_of_In.
Qed.

Lemma NodeLabel_Score_exact args snap nodeName nodeInfo node :
  SN_Get snap nodeName = inl nodeInfo -> ni_node nodeInfo = Some node ->
  let met := (meets (node_Labels node) true (PresentLabelsPreference args) + meets (node_Labels node) false (AbsentLabelsPreference args))%nat in
  let size := (length (PresentLabelsPreference args) + length (AbsentLabelsPreference args))%nat in
  Z.of_nat size < 2 ^ 50 ->
  NodeLabel_Score args snap nodeName = Ret (if (size =? 0)%nat then 0 else MaxNodeScore * Z.of_nat met / Z.of_nat size, None) /\
  (met <= size)%nat.
Proof.
  intros Hget Hnode met size Hsize. unfold NodeLabel_Score. rewrite Hget, Hnode. fold size.
  pose proof (meets_le (node_Labels node) true (PresentLabelsPreference args)) as H1.
  pose proof (meets_le (node_Labels node) false (AbsentLabelsPreference args)) as H2.
  split; [|unfold met, size; lia]. destruct (Nat.eqb_spec size 0) as [->|E]; [done|]. destruct (Z.eqb_spec (Z.of_nat size) 0); [lia|].
  cbv zeta. rewrite (label_points_spec (node_Labels node) true) by (unfold size, MaxNodeScore in *; int_unfold; lia).
  rewrite (label_points_spec (node_Labels node) false) by (unfold size, MaxNodeScore in *; int_unfold; lia).
  set (k := 0 + _ + _). assert (k = MaxNodeScore * Z.of_nat met) as -> by (unfold k, met; lia).
  assert (met <= size)%nat by (unfold met, size; lia). clearbody met size.
  unfold div64. rewrite Z.quot_div_nonneg by (unfold MaxNodeScore; lia). rewrite int64_id; [done|].
  assert (0 <= MaxNodeScore * Z.of_nat met / Z.of_nat size <= MaxNodeScore) as H'.
  { unfold MaxNodeScore. split; [apply Z.div_pos; lia|]. apply Z.div_le_upper_bound; lia. }
  unfold MaxNodeScore in *. int_unfold. lia.
Qed.

(** NodeLabel admits exactly the nodes that have all the labels to be present
    and none of those to be absent, and its score is the percentage, rounded
    down, of the preferences that the node meets. *)
Theorem NodeLabel_meaning args snap nodeName nodeInfo node :
  SN_Get snap nodeName = inl nodeInfo -> ni_node nodeInfo = Some node ->
  let ls := node_Labels node in
  let met := (meets ls true (PresentLabelsPreference args) + meets ls false (AbsentLabelsPreference args))%nat in
  let size := (length (PresentLabelsPreference args) + length (AbsentLabelsPreference args))%nat in
  Z.of_nat size < 2 ^ 50 ->
  NodeLabel_Filter args nodeInfo =
    (if bool_decide (Forall (fun l => is_Some (ls !! l)) (PresentLabels args) /\ Forall (fun l => ~ is_Some (ls !! l)) (AbsentLabels args))
     then None else Some (NewStatus UnschedulableAndUnresolvable [ErrReasonPresenceViolated])) /\
  NodeLabel_Score args snap nodeName = Ret (if (size =? 0)%nat then 0 else MaxNodeScore * Z.of_nat met / Z.of_nat size, None) /\
  (met <= size)%nat.
Proof.
  intros Hget Hnode ls met size Hsize. split; [|by eapply NodeLabel_Score_exact].
  unfold NodeLabel_Filter. rewrite Hnode. fold ls.
  destruct (Nat.eqb_spec (length (PresentLabels args) + length (AbsentLabels args)) 0) as [E|E].
  { assert (PresentLabels args = [] /\ AbsentLabels args = []) as [-> ->] by (split; apply length_zero_iff_nil; lia).
    by rewrite bool_decide_eq_true_2. }
  pose proof (check_labels_spec ls (PresentLabels args) true) as H1. pose proof (check_labels_spec ls (AbsentLabels args) false) as H2.
  cbn beta iota in H1, H2. case_bool_decide as Hd.
  - destruct Hd as [D1%H1 D2%H2]. by rewrite D1, D2.
  - destruct (check_labels ls (PresentLabels args) true) eqn:E1, (check_labels ls (AbsentLabels args) false) eqn:E2; cbn [andb]; try done.
    exfalso. apply Hd. naive_solver.
Qed.
End locality_proofs.

(** ** Images that KubeHICE converted *)

Definition edge_images : NodeInfo :=
  set_ImageStates {["local-registry:5000/test-nginx-arm64:latest"%string := mkImageStateSummary (2000 * mb) 1]} arm_info.

Definition edge_snapshot : Snapshot := mkSnapshot {["n1"%string := edge_images]} ["n1"%string] [] [] 1.

(** ImageLocality looks for the image that the pod names.  Hicev1 and Hicev2
    run the image for the architecture of the node instead, which has another
    name: a node that has just that image, of 2000 MB, gets no point for it,
    while the score for the image itself would be the highest. *)
Theorem converted_images_not_local :
  let pod := sample_nginx "u1" 500 in
  let converted := Hicev1.ConvertPodImages pod "arm64" sample_images in
  @ImageLocality_Score amd64 edge_snapshot pod "n1" = (0, None) /\
  @ImageLocality_Score amd64 edge_snapshot converted "n1" = (MaxNodeScore, None).
Proof. vm_compute. split; reflexivity. Qed.
