(* ===== verification/InterPodAffinity.v ===== *)
(** * The InterPodAffinity plugin

    [framework/plugins/interpodaffinity] (plugin.go, filtering.go,
    scoring.go).  [PreFilter] walks over the pods of the snapshot once and
    counts, per topology (a label key of the nodes and its value), the pods
    that match the terms of the incoming pod, and the terms of existing pods
    that the incoming pod matches; [Filter] only looks at these counts, and
    [AddPod] and [RemovePod] keep them up to date for a hypothetical change.

    The loops over the nodes run in parallel, each piece into a map of its
    own; the maps are added up in the order in which the pieces finish, which
    is that of [MapRange]. *)

From S2P Require Import Prelude GoInt GoFloat GoStrconv Quantity ApiTypes Labels AffinityTerms Resource HostPorts NodeInfo Json Framework Snapshot SchedulingQueue Runtime NodePlugins.

Open Scope go_scope.

(** The lists of a snapshot besides that of all nodes. *)
Definition HavePodsWithAffinityList (s : Snapshot) : list NodeInfo :=
  omap (fun n => nodeInfoMap s !! n) (havePodsWithAffinityNodeInfoList s).
Definition HavePodsWithRequiredAntiAffinityList (s : Snapshot) : list NodeInfo :=
  omap (fun n => nodeInfoMap s !! n) (havePodsWithRequiredAntiAffinityNodeInfoList s).

(** The plugin; the lister of namespaces is the map it lists, with the labels
    of each namespace. *)
Record InterPodAffinity := mkInterPodAffinity {
  HardPodAffinityWeight : Z;
  nsLister : gmap string (gmap string string);
  enableNamespaceSelector : bool
}.

(** [ListAll] of a lister: the names of the namespaces that are selected. *)
Definition nsLister_List (l : gmap string (gmap string string)) (sel : Selector) : list string :=
  map fst (List.filter (fun e => Sel_Matches sel e.2) (map_to_list l)).

(** [GetNamespaceLabelsSnapshot]: no labels if the namespace is not there. *)
Definition GetNamespaceLabelsSnapshot (ns : string) (l : gmap string (gmap string string)) : gmap string string :=
  default ∅ (l !! ns).

Definition mergeAffinityTermNamespacesIfNotEmpty (pl : InterPodAffinity) (t : AffinityTerm) : AffinityTerm :=
  if Sel_Empty (at_NamespaceSelector t) then t
  else mkAffinityTerm (at_Namespaces t ∪ list_to_set (nsLister_List (nsLister pl) (at_NamespaceSelector t)))
         (at_Selector t) (at_TopologyKey t) Nothing.

Definition validateHardPodAffinityWeight (w : Z) : bool := negb ((w <? 0) || (100 <? w)).

Definition InterPodAffinity_New (w : Z) (l : gmap string (gmap string string)) (nsSelector : bool)
  : InterPodAffinity + string :=
  if validateHardPodAffinityWeight w then inl (mkInterPodAffinity w (if nsSelector then l else ∅) nsSelector)
  else inr "not in valid range [0, 100]"%string.

(** ** Counts per topology *)

Definition getp (m : topologyToMatchedTermCount) (pair : topologyPair) : Z := default 0 (m !! pair).

(** [update]: an entry that comes down to zero is deleted. *)
Definition tm_update (m : topologyToMatchedTermCount) (node : Node) (tk : string) (value : Z)
  : topologyToMatchedTermCount :=
  match node_Labels node !! tk with
  | Some tv =>
      let pair := (tk, tv) in
      let v := getp m pair +₆₄ value in
      if v =? 0 then delete pair m else <[pair := v]> m
  | None => m
  end.

(** [append] *)
Definition tm_append (m toAppend : topologyToMatchedTermCount) : topologyToMatchedTermCount :=
  fold_left (fun m e => <[e.1 := getp m e.1 +₆₄ e.2]> m) (map_to_list toAppend) m.

Definition tm_clone (m : topologyToMatchedTermCount) : topologyToMatchedTermCount := tm_append ∅ m.

Definition podMatchesAllAffinityTerms (terms : list AffinityTerm) (pod : Pod) (nsSelector : bool) : bool :=
  if (length terms =? 0)%nat then false else forallb (fun t => Term_Matches t pod ∅ nsSelector) terms.

Definition updateWithAffinityTerms (m : topologyToMatchedTermCount) (terms : list AffinityTerm) (pod : Pod)
    (node : Node) (value : Z) (nsSelector : bool) : topologyToMatchedTermCount :=
  if podMatchesAllAffinityTerms terms pod nsSelector
  then fold_left (fun m t => tm_update m node (at_TopologyKey t) value) terms m
  else m.

Definition updateWithAntiAffinityTerms (m : topologyToMatchedTermCount) (terms : list AffinityTerm) (pod : Pod)
    (nsLabels : gmap string string) (node : Node) (value : Z) (nsSelector : bool) : topologyToMatchedTermCount :=
  fold_left (fun m t => if Term_Matches t pod nsLabels nsSelector then tm_update m node (at_TopologyKey t) value else m)
    terms m.

(** [updateWithPod] *)
Definition IPA_updateWithPod (s : IPA_preFilterState) (pInfo : PodInfo) (node : Node) (multiplier : Z)
  : IPA_preFilterState :=
  let ens := ipa_enableNamespaceSelector s in
  let pi := ipa_podInfo s in
  mkIPAState
    (updateWithAntiAffinityTerms (existingAntiAffinityCounts s) (RequiredAntiAffinityTerms pInfo) (pi_Pod pi)
       (ipa_namespaceLabels s) node multiplier ens)
    (updateWithAffinityTerms (affinityCounts s) (RequiredAffinityTerms pi) (pi_Pod pInfo) node multiplier ens)
    (updateWithAntiAffinityTerms (antiAffinityCounts s) (RequiredAntiAffinityTerms pi) (pi_Pod pInfo) ∅ node multiplier ens)
    pi (ipa_namespaceLabels s) ens.

(** [preFilterState.Clone] *)
Definition IPA_Clone (s : IPA_preFilterState) : IPA_preFilterState :=
  mkIPAState (tm_clone (existingAntiAffinityCounts s)) (tm_clone (affinityCounts s)) (tm_clone (antiAffinityCounts s))
    (ipa_podInfo s) (ipa_namespaceLabels s) (ipa_enableNamespaceSelector s).

(** ** Filtering *)

Definition ErrReasonExistingAntiAffinityRulesNotMatch : string := "node(s) didn't satisfy existing pods anti-affinity rules".
Definition ErrReasonAffinityRulesNotMatch : string := "node(s) didn't match pod affinity rules".
Definition ErrReasonAntiAffinityRulesNotMatch : string := "node(s) didn't match pod anti-affinity rules".
Definition IPA_preFilterStateKey : string := "PreFilterInterPodAffinity".
Definition IPA_preScoreStateKey : string := "PreScoreInterPodAffinity".

Section filtering.
Context {mr : MapRange}.

(** One piece of the loop of [getExistingAntiAffinityCounts]. *)
Definition existing_piece (pod : Pod) (nsLabels : gmap string string) (ens : bool) (nodeInfo : NodeInfo)
  : option topologyToMatchedTermCount :=
  match ni_node nodeInfo with
  | None => None
  | Some node =>
      let topoMap := fold_left (fun m existingPod =>
          updateWithAntiAffinityTerms m (RequiredAntiAffinityTerms existingPod) pod nsLabels node 1 ens)
        (PodsWithRequiredAntiAffinity nodeInfo) ∅ in
      if (size topoMap =? 0)%nat then None else Some topoMap
  end.

Definition getExistingAntiAffinityCounts (pod : Pod) (nsLabels : gmap string string) (nodes : list NodeInfo) (ens : bool)
  : topologyToMatchedTermCount :=
  fold_left tm_append (omap (existing_piece pod nsLabels ens) (range 0 nodes)) ∅.

(** One piece of the loop of [getIncomingAffinityAntiAffinityCounts]. *)
Definition incoming_piece (podInfo : PodInfo) (ens : bool) (nodeInfo : NodeInfo)
  : option (topologyToMatchedTermCount * topologyToMatchedTermCount) :=
  match ni_node nodeInfo with
  | None => None
  | Some node =>
      let '(affinity, antiAffinity) := fold_left (fun st existingPod =>
          (updateWithAffinityTerms st.1 (RequiredAffinityTerms podInfo) (pi_Pod existingPod) node 1 ens,
           updateWithAntiAffinityTerms st.2 (RequiredAntiAffinityTerms podInfo) (pi_Pod existingPod) ∅ node 1 ens))
        (Pods nodeInfo) (∅, ∅) in
      if (0 <? size affinity)%nat || (0 <? size antiAffinity)%nat then Some (affinity, antiAffinity) else None
  end.

Definition getIncomingAffinityAntiAffinityCounts (podInfo : PodInfo) (allNodes : list NodeInfo) (ens : bool)
  : topologyToMatchedTermCount * topologyToMatchedTermCount :=
  if (length (RequiredAffinityTerms podInfo) =? 0)%nat && (length (RequiredAntiAffinityTerms podInfo) =? 0)%nat
  then (∅, ∅)
  else fold_left (fun st p => (tm_append st.1 p.1, tm_append st.2 p.2))
         (omap (incoming_piece podInfo ens) (range 1 allNodes)) (∅, ∅).

(** The incoming pod, its terms with the namespaces that their selectors select. *)
Definition merged_podInfo (pl : InterPodAffinity) (pi : PodInfo) : PodInfo :=
  if enableNamespaceSelector pl then
    mkPodInfo (pi_Pod pi) (map (mergeAffinityTermNamespacesIfNotEmpty pl) (RequiredAffinityTerms pi))
      (map (mergeAffinityTermNamespacesIfNotEmpty pl) (RequiredAntiAffinityTerms pi))
      (PreferredAffinityTerms pi) (PreferredAntiAffinityTerms pi) (ParseError pi)
  else pi.

Definition namespace_labels (pl : InterPodAffinity) (pod : Pod) : gmap string string :=
  if enableNamespaceSelector pl then GetNamespaceLabelsSnapshot (Namespace pod) (nsLister pl) else ∅.

(** The state that [PreFilter] writes. *)
Definition IPA_calculate (pl : InterPodAffinity) (snap : Snapshot) (pod : Pod) : IPA_preFilterState :=
  let ens := enableNamespaceSelector pl in
  let podInfo := merged_podInfo pl (NewPodInfo pod) in
  let nsLabels := namespace_labels pl pod in
  let existing := getExistingAntiAffinityCounts pod nsLabels (HavePodsWithRequiredAntiAffinityList snap) ens in
  let '(affinity, antiAffinity) := getIncomingAffinityAntiAffinityCounts podInfo (SN_List snap) ens in
  mkIPAState existing affinity antiAffinity podInfo nsLabels ens.

(** How the errors of the terms of a pod read. *)
Context (parse_message : list (string * SelError) -> string).

Definition IPA_PreFilter (pl : InterPodAffinity) (snap : Snapshot) (cs : CycleState) (pod : Pod)
  : CycleState * StatusPtr :=
  match ParseError (NewPodInfo pod) with
  | _ :: _ as e =>
      (cs, Some (NewStatus UnschedulableAndUnresolvable [str_app "parsing pod: " (parse_message e)]))
  | [] => (CS_Write cs IPA_preFilterStateKey (SD_InterPodAffinity (IPA_calculate pl snap pod)), None)
  end.

Definition IPA_getPreFilterState (cs : CycleState) : IPA_preFilterState + string :=
  match CS_Read cs IPA_preFilterStateKey with
  | inr e => inr (wrap_q "error reading " IPA_preFilterStateKey " from cycleState" (Some e))
  | inl (SD_InterPodAffinity s) => inl s
  | inl _ => inr "convert to interpodaffinity.state error"%string
  end.

(** Whether an update with a pod looks at the node. *)
Definition IPA_looks_at_node (s : IPA_preFilterState) (pInfo : PodInfo) : bool :=
  let ens := ipa_enableNamespaceSelector s in
  let pi := ipa_podInfo s in
  existsb (fun t => Term_Matches t (pi_Pod pi) (ipa_namespaceLabels s) ens) (RequiredAntiAffinityTerms pInfo)
  || podMatchesAllAffinityTerms (RequiredAffinityTerms pi) (pi_Pod pInfo) ens
  || existsb (fun t => Term_Matches t (pi_Pod pInfo) ∅ ens) (RequiredAntiAffinityTerms pi).

(** [AddPod] and [RemovePod] *)
Definition IPA_change (multiplier : Z) (cs : CycleState) (podInfo : PodInfo) (nodeInfo : NodeInfo)
  : outcome (CycleState * StatusPtr) :=
  match IPA_getPreFilterState cs with
  | inr e => Ret (cs, Some (AsStatus e))
  | inl s =>
      match ni_node nodeInfo with
      | None => if IPA_looks_at_node s podInfo then Panic nil_panic else Ret (cs, None)
      | Some node =>
          Ret (CS_Write cs IPA_preFilterStateKey (SD_InterPodAffinity (IPA_updateWithPod s podInfo node multiplier)), None)
      end
  end.

Definition IPA_AddPod := IPA_change 1.
Definition IPA_RemovePod := IPA_change (-1).

Definition satisfyExistingPodsAntiAffinity (s : IPA_preFilterState) (node : Node) : bool :=
  if (0 <? size (existingAntiAffinityCounts s))%nat
  then forallb (fun e => negb (0 <? getp (existingAntiAffinityCounts s) e)) (range 2 (map_to_list (node_Labels node)))
  else true.

Definition satisfyPodAntiAffinity (s : IPA_preFilterState) (node : Node) : bool :=
  if (0 <? size (antiAffinityCounts s))%nat
  then forallb (fun term =>
         match node_Labels node !! at_TopologyKey term with
         | Some v => negb (0 <? getp (antiAffinityCounts s) (at_TopologyKey term, v))
         | None => true
         end) (RequiredAntiAffinityTerms (ipa_podInfo s))
  else true.

(** The loop of [satisfyPodAffinity]: [None] if a term's key is missing on
    the node, otherwise whether every count is positive. *)
Fixpoint affinity_loop (counts : topologyToMatchedTermCount) (node : Node) (podsExist : bool) (terms : list AffinityTerm)
  : option bool :=
  match terms with
  | [] => Some podsExist
  | term :: terms =>
      match node_Labels node !! at_TopologyKey term with
      | Some v =>
          affinity_loop counts node (if getp counts (at_TopologyKey term, v) <=? 0 then false else podsExist) terms
      | None => None
      end
  end.

Definition satisfyPodAffinity (s : IPA_preFilterState) (node : Node) : bool :=
  let terms := RequiredAffinityTerms (ipa_podInfo s) in
  match affinity_loop (affinityCounts s) node true terms with
  | None => false
  | Some true => true
  | Some false =>
      (size (affinityCounts s) =? 0)%nat &&
      podMatchesAllAffinityTerms terms (pi_Pod (ipa_podInfo s)) (ipa_enableNamespaceSelector s)
  end.

Definition IPA_Filter (cs : CycleState) (nodeInfo : NodeInfo) : StatusPtr :=
  match ni_node nodeInfo with
  | None => Some (NewStatus Error ["node not found"%string])
  | Some node =>
      match IPA_getPreFilterState cs with
      | inr e => Some (AsStatus e)
      | inl s =>
          if negb (satisfyPodAffinity s node)
          then Some (NewStatus UnschedulableAndUnresolvable [ErrReasonAffinityRulesNotMatch])
          else if negb (satisfyPodAntiAffinity s node)
          then Some (NewStatus Unschedulable [ErrReasonAntiAffinityRulesNotMatch])
          else if negb (satisfyExistingPodsAntiAffinity s node)
          then Some (NewStatus Unschedulable [ErrReasonExistingAntiAffinityRulesNotMatch])
          else None
      end
  end.
End filtering.

(** ** Scoring *)

Definition processTerm (m : scoreMap) (term : AffinityTerm) (weight : Z) (pod : Pod) (nsLabels : gmap string string)
    (node : Node) (multiplier : Z) (ens : bool) : scoreMap :=
  if Term_Matches term pod nsLabels ens then
    match node_Labels node !! at_TopologyKey term with
    | Some tpValue =>
        let scores := default ∅ (m !! at_TopologyKey term) in
        <[at_TopologyKey term := <[tpValue := get0 scores tpValue +₆₄ int32 (weight * multiplier)]> scores]> m
    | None => m
    end
  else m.

Definition processTerms (m : scoreMap) (terms : list WeightedAffinityTerm) (pod : Pod) (nsLabels : gmap string string)
    (node : Node) (multiplier : Z) (ens : bool) : scoreMap :=
  fold_left (fun m t => processTerm m (wat_AffinityTerm t) (wat_Weight t) pod nsLabels node multiplier ens) terms m.

(** [scoreMap.append] *)
Definition sm_append (m other : scoreMap) : scoreMap :=
  fold_left (fun (m : scoreMap) (e : string * gmap string Z) =>
    match m !! e.1 with
    | None => <[e.1 := e.2]> m
    | Some scores => <[e.1 := add_scalars scores e.2]> m
    end) (map_to_list other) m.

Definition processExistingPod (pl : InterPodAffinity) (s : IPA_preScoreState) (existingPod : PodInfo) (node : Node)
    (incomingPod : Pod) (topoScore : scoreMap) : scoreMap :=
  let ens := enableNamespaceSelector pl in
  if (size (node_Labels node) =? 0)%nat then topoScore
  else
    let m := processTerms topoScore (PreferredAffinityTerms (ips_podInfo s)) (pi_Pod existingPod) ∅ node 1 ens in
    let m := processTerms m (PreferredAntiAffinityTerms (ips_podInfo s)) (pi_Pod existingPod) ∅ node (-1) ens in
    let m := if (0 <? HardPodAffinityWeight pl) && negb (size (node_Labels node) =? 0)%nat then
               fold_left (fun m t => processTerm m t (HardPodAffinityWeight pl) incomingPod (ips_namespaceLabels s) node 1 ens)
                 (RequiredAffinityTerms existingPod) m
             else m in
    let m := processTerms m (PreferredAffinityTerms existingPod) incomingPod (ips_namespaceLabels s) node 1 ens in
    processTerms m (PreferredAntiAffinityTerms existingPod) incomingPod (ips_namespaceLabels s) node (-1) ens.

Section scoring.
Context {mr : MapRange} {arch : GoArch}.
Context (parse_message : list (string * SelError) -> string).

Definition has_preferred (pod : Pod) : bool :=
  negb (length (preferred_terms (spec_Affinity (Spec pod) ≫= PodAffinity)) =? 0)%nat
  || negb (length (preferred_terms (spec_Affinity (Spec pod) ≫= PodAntiAffinity)) =? 0)%nat.

Definition merge_weighted (pl : InterPodAffinity) (t : WeightedAffinityTerm) : WeightedAffinityTerm :=
  mkWeightedAffinityTerm (mergeAffinityTermNamespacesIfNotEmpty pl (wat_AffinityTerm t)) (wat_Weight t).

Definition merged_preferred (pl : InterPodAffinity) (pi : PodInfo) : PodInfo :=
  if enableNamespaceSelector pl then
    mkPodInfo (pi_Pod pi) (RequiredAffinityTerms pi) (RequiredAntiAffinityTerms pi)
      (map (merge_weighted pl) (PreferredAffinityTerms pi)) (map (merge_weighted pl) (PreferredAntiAffinityTerms pi))
      (ParseError pi)
  else pi.

Definition score_piece (pl : InterPodAffinity) (s : IPA_preScoreState) (pod : Pod) (nodeInfo : NodeInfo)
  : option scoreMap :=
  match ni_node nodeInfo with
  | None => None
  | Some node =>
      let pods := if has_preferred pod then Pods nodeInfo else PodsWithAffinity nodeInfo in
      let topoScore := fold_left (fun m p => processExistingPod pl s p node pod m) pods ∅ in
      if (0 <? size topoScore)%nat then Some topoScore else None
  end.

Definition IPA_PreScore (pl : InterPodAffinity) (snap : Snapshot) (cs : CycleState) (pod : Pod) (nodes : list Node)
  : CycleState * StatusPtr :=
  if (length nodes =? 0)%nat then (cs, None)
  else
    let allNodes := if has_preferred pod then SN_List snap else HavePodsWithAffinityList snap in
    let podInfo := NewPodInfo pod in
    match ParseError podInfo with
    | _ :: _ as e => (cs, Some (AsStatus (str_app "failed to parse pod: " (parse_message e))))
    | [] =>
        let s := mkIPAScoreState ∅ (merged_preferred pl podInfo) (namespace_labels pl pod) in
        let scores := fold_left sm_append (omap (score_piece pl s pod) (range 0 allNodes)) ∅ in
        (CS_Write cs IPA_preScoreStateKey
           (SD_InterPodScore (mkIPAScoreState scores (ips_podInfo s) (ips_namespaceLabels s))), None)
    end.

Definition IPA_getPreScoreState (cs : CycleState) : IPA_preScoreState + string :=
  match CS_Read cs IPA_preScoreStateKey with
  | inr e => inr (wrap_q "failed to read " IPA_preScoreStateKey " from cycleState" (Some e))
  | inl (SD_InterPodScore s) => inl s
  | inl _ => inr "convert to interpodaffinity.preScoreState error"%string
  end.

Definition IPA_node_score (scores : scoreMap) (node : Node) : Z :=
  fold_left (fun score (e : string * gmap string Z) =>
    match node_Labels node !! e.1 with Some v => score +₆₄ get0 e.2 v | None => score end)
    (range 1 (map_to_list scores)) 0.

Definition IPA_Score (snap : Snapshot) (cs : CycleState) (nodeName : string) : outcome (Z * StatusPtr) :=
  match SN_Get snap nodeName with
  | inr e => Ret (0, Some (AsStatus (wrap_q "failed to get node " nodeName " from Snapshot" (Some e))))
  | inl nodeInfo =>
      match IPA_getPreScoreState cs with
      | inr e => Ret (0, Some (AsStatus e))
      | inl s =>
          match ni_node nodeInfo with
          | None => Panic nil_panic
          | Some node => Ret (IPA_node_score (topologyScore s) node, None)
          end
      end
  end.

(** The highest and the lowest score. *)
Definition min_max (scores : list NodeScore) : Z * Z :=
  fold_left (fun mm ns =>
    let max := if mm.2 <? ns_Score ns then ns_Score ns else mm.2 in
    let min := if ns_Score ns <? mm.1 then ns_Score ns else mm.1 in (min, max))
    scores (MaxInt64, - MaxInt64).

Definition scaled (minCount maxMinDiff score : Z) : Z :=
  int64_of_f64
    (if 0 <? maxMinDiff
     then f64_mul (f64_of_Z MaxNodeScore) (f64_div (f64_of_Z (score -₆₄ minCount)) (f64_of_Z maxMinDiff))
     else S754_zero false).

Definition IPA_NormalizeScore (cs : CycleState) (scores : list NodeScore) : list NodeScore * StatusPtr :=
  match IPA_getPreScoreState cs with
  | inr e => (scores, Some (AsStatus e))
  | inl s =>
      if (size (topologyScore s) =? 0)%nat then (scores, None)
      else
        let '(minCount, maxCount) := min_max scores in
        let maxMinDiff := maxCount -₆₄ minCount in
        (map (fun ns => mkNodeScore (ns_Name ns) (scaled minCount maxMinDiff (ns_Score ns))) scores, None)
  end.
End scoring.
