(* ===== verification/InterPodProofs.v ===== *)
(** * Correctness of InterPodAffinity

    The counts of [PreFilter] denote the multiset of topologies at which
    pods match; [Filter] decides the affinity rules as the API states them;
    [AddPod] and [RemovePod] yield the counts that [PreFilter] would compute
    with the pod there, or gone. *)

From S2P Require Import Prelude GoInt GoFloat GoFloatRound GoFloatBound GoStrconv Quantity ApiTypes Labels AffinityTerms Resource HostPorts NodeInfo Samples Json Framework Snapshot SchedulingQueue Runtime NodePlugins InterPodAffinity.

(** ** Counting maps as multisets *)

Definition occurs (x : topologyPair) (l : list topologyPair) : Z :=
  Z.of_nat (length (List.filter (fun y => bool_decide (y = x)) l)).

Definition count_entry (n : Z) : option Z := if n =? 0 then None else Some n.

(** The map holds how often each pair occurs, and nothing else. *)
Definition denotes (m : topologyToMatchedTermCount) (l : list topologyPair) : Prop :=
  forall x, m !! x = count_entry (occurs x l).

Definition countable (l : list topologyPair) : Prop := Z.of_nat (length l) < 2 ^ 63.

Lemma occurs_app x l l' : occurs x (l ++ l') = occurs x l + occurs x l'.
Proof. unfold occurs. rewrite List.filter_app, length_app. lia. Qed.

Lemma occurs_perm x l l' : l ≡ₚ l' -> occurs x l = occurs x l'.
Proof.
  intros H. unfold occurs. f_equal. induction H; simpl; repeat case_bool_decide; simpl; lia.
Qed.

Lemma occurs_bound x l : 0 <= occurs x l <= Z.of_nat (length l).
Proof. unfold occurs. pose proof (List.filter_length_le (fun y => bool_decide (y = x)) l). lia. Qed.

Lemma occurs_pos x l : 0 < occurs x l <-> x ∈ l.
Proof.
  unfold occurs. induction l as [|y l IH]; simpl; [split; [lia|by intros ?%elem_of_nil]|].
  rewrite elem_of_cons. case_bool_decide as H; simpl; [split; [by left|lia]|].
  rewrite IH. split; [by right|]. by intros [->|?].
Qed.

Lemma occurs_cons x y l : occurs x (y :: l) = (if bool_decide (y = x) then 1 else 0) + occurs x l.
Proof. unfold occurs. simpl. case_bool_decide; simpl; lia. Qed.

Lemma count_entry_getp m l x : denotes m l -> getp m x = occurs x l.
Proof.
  intros H. unfold getp. rewrite (H x). unfold count_entry. by destruct (Z.eqb_spec (occurs x l) 0) as [->|].
Qed.

Lemma denotes_nil : denotes ∅ [].
Proof. intros x. by rewrite lookup_empty. Qed.

Lemma denotes_perm m l l' : l ≡ₚ l' -> denotes m l -> denotes m l'.
Proof. intros Hp H x. rewrite (H x). by rewrite (occurs_perm x l l' Hp). Qed.

#[export] Instance denotes_proper m : Proper ((≡ₚ) ==> iff) (denotes m).
Proof. intros l l' H. split; apply denotes_perm; [done|by symmetry]. Qed.

#[export] Instance countable_proper : Proper ((≡ₚ) ==> iff) countable.
Proof. intros l l' H. unfold countable. by rewrite H. Qed.

Lemma denotes_unique m m' l l' : denotes m l -> denotes m' l' -> l ≡ₚ l' -> m = m'.
Proof. intros H H' Hp. apply map_eq. intros x. rewrite (H x), (H' x). by rewrite (occurs_perm x l l' Hp). Qed.

Lemma denotes_empty m l : denotes m l -> size m = 0%nat <-> l = [].
Proof.
  intros H. rewrite map_size_empty_iff. split.
  - intros ->. destruct l as [|x l]; [done|]. specialize (H x). rewrite lookup_empty in H.
    unfold count_entry in H. pose proof (proj2 (occurs_pos x (x :: l)) ltac:(left)).
    destruct (Z.eqb_spec (occurs x (x :: l)) 0); [lia|done].
  - intros ->. apply map_eq. intros x. by rewrite (H x), lookup_empty.
Qed.

(** The pairs that the labels of a node make of some keys. *)
Definition pairs_at (node : Node) (ks : list string) : list topologyPair :=
  omap (fun k => match node_Labels node !! k with Some v => Some (k, v) | None => None end) ks.

Lemma pairs_at_cons node k ks : pairs_at node (k :: ks) = pairs_at node [k] ++ pairs_at node ks.
Proof. unfold pairs_at. simpl. by destruct (node_Labels node !! k). Qed.

Lemma elem_of_pairs_at node ks k v : (k, v) ∈ pairs_at node ks <-> k ∈ ks /\ node_Labels node !! k = Some v.
Proof.
  unfold pairs_at. rewrite list_elem_of_omap. split.
  - intros (k' & Hk & H). destruct (node_Labels node !! k') eqn:E; [|done]. by injection H as -> ->.
  - intros [Hk Hv]. exists k. by rewrite Hv.
Qed.

Lemma update_add m l node k :
  denotes m l -> countable (pairs_at node [k] ++ l) -> denotes (tm_update m node k 1) (pairs_at node [k] ++ l).
Proof.
  intros H Hc. unfold tm_update, pairs_at in *. simpl in *. destruct (node_Labels node !! k) as [v|]; [|done].
  simpl in *. rewrite (count_entry_getp m l (k, v) H). pose proof (occurs_bound (k, v) l) as Hb.
  unfold countable in Hc. simpl in Hc. rewrite add64_exact by (int_unfold; lia).
  rewrite (proj2 (Z.eqb_neq _ 0)) by lia. intros x. rewrite occurs_cons.
  case_bool_decide as Hx.
  - subst x. rewrite lookup_insert_eq. unfold count_entry. rewrite (proj2 (Z.eqb_neq _ 0)) by lia. f_equal. lia.
  - rewrite lookup_insert_ne by done. rewrite (H x). done.
Qed.

Lemma update_remove m l node k :
  denotes m (pairs_at node [k] ++ l) -> countable (pairs_at node [k] ++ l) -> denotes (tm_update m node k (-1)) l.
Proof.
  intros H Hc. unfold tm_update, pairs_at in *. simpl in *. destruct (node_Labels node !! k) as [v|]; [|done].
  simpl in *. rewrite (count_entry_getp m _ (k, v) H). rewrite occurs_cons, bool_decide_true by done.
  pose proof (occurs_bound (k, v) l) as Hb.
  unfold countable in Hc. simpl in Hc. rewrite add64_exact by (int_unfold; lia).
  replace (1 + occurs (k, v) l + -1) with (occurs (k, v) l) by lia.
  intros x. specialize (H x). rewrite occurs_cons in H. destruct (decide ((k, v) = x)) as [<- |Hx].
  - unfold count_entry. destruct (Z.eqb_spec (occurs (k, v) l) 0); [apply lookup_delete_eq|apply lookup_insert_eq].
  - rewrite bool_decide_false, Z.add_0_l in H by done. rewrite <- H.
    destruct (occurs (k, v) l =? 0); [by apply lookup_delete_ne|by apply lookup_insert_ne].
Qed.

(** Adding, and taking away, the pairs of a list of keys. *)
Lemma countable_app_r l l' : countable (l ++ l') -> countable l'.
Proof. unfold countable. rewrite length_app. lia. Qed.

Lemma updates_add m l node ks :
  denotes m l -> countable (pairs_at node ks ++ l) ->
  denotes (fold_left (fun m k => tm_update m node k 1) ks m) (pairs_at node ks ++ l).
Proof.
  revert m l. induction ks as [|k ks IH]; intros m l H Hc; cbn [fold_left]; [done|].
  assert (pairs_at node ks ++ (pairs_at node [k] ++ l) ≡ₚ pairs_at node (k :: ks) ++ l) as Hp.
  { rewrite (pairs_at_cons node k ks). rewrite !app_assoc. by rewrite (Permutation_app_comm (pairs_at node ks)). }
  assert (countable (pairs_at node ks ++ (pairs_at node [k] ++ l))) as Hc'
    by (unfold countable in *; by rewrite Hp).
  eapply denotes_perm; [exact Hp|]. apply IH; [|done]. apply update_add; [done|]. by eapply countable_app_r.
Qed.

Lemma updates_remove m l node ks :
  denotes m (pairs_at node ks ++ l) -> countable (pairs_at node ks ++ l) ->
  denotes (fold_left (fun m k => tm_update m node k (-1)) ks m) l.
Proof.
  revert m. induction ks as [|k ks IH]; intros m H Hc; cbn [fold_left]; [done|].
  rewrite (pairs_at_cons node k ks), <- app_assoc in H, Hc. apply IH; [|by eapply countable_app_r].
  by apply update_remove.
Qed.

(** The keys of the terms that match. *)
Definition matched_keys (terms : list AffinityTerm) (pod : Pod) (nsLabels : gmap string string) (ens : bool) : list string :=
  map at_TopologyKey (List.filter (fun t => Term_Matches t pod nsLabels ens) terms).
Definition all_keys (terms : list AffinityTerm) (pod : Pod) (ens : bool) : list string :=
  if podMatchesAllAffinityTerms terms pod ens then map at_TopologyKey terms else [].

Lemma anti_updates m terms pod nsLabels node v ens :
  updateWithAntiAffinityTerms m terms pod nsLabels node v ens
  = fold_left (fun m k => tm_update m node k v) (matched_keys terms pod nsLabels ens) m.
Proof.
  unfold updateWithAntiAffinityTerms, matched_keys. revert m.
  induction terms as [|t terms IH]; intros m; simpl; [done|]. destruct (Term_Matches t pod nsLabels ens); simpl; apply IH.
Qed.

Lemma affinity_updates m terms pod node v ens :
  updateWithAffinityTerms m terms pod node v ens
  = fold_left (fun m k => tm_update m node k v) (all_keys terms pod ens) m.
Proof.
  unfold updateWithAffinityTerms, all_keys. destruct (podMatchesAllAffinityTerms terms pod ens); [|done].
  revert m. induction terms as [|t terms IH]; intros m; simpl; [done|]. apply IH.
Qed.

Lemma append_denotes m m' l l' :
  denotes m l -> denotes m' l' -> countable (l' ++ l) -> denotes (tm_append m m') (l' ++ l).
Proof.
  intros H H' Hc x. rewrite occurs_app. unfold tm_append.
  etransitivity; [apply (fold_left_key (fun (m : topologyToMatchedTermCount) (e : topologyPair * Z) =>
     <[e.1 := getp m e.1 +₆₄ e.2]> m) (fun m => m !! x) (fun o n => Some (default 0 o +₆₄ n)) x m')|].
  - intros b [k v] Hne. simpl in *. by apply lookup_insert_ne.
  - intros b v. simpl. unfold getp. by rewrite lookup_insert_eq.
  - done.
  - rewrite (H x), (H' x). unfold count_entry.
    pose proof (occurs_bound x l). pose proof (occurs_bound x l'). unfold countable in Hc. rewrite length_app in Hc.
    destruct (Z.eqb_spec (occurs x l') 0) as [E'|E']; [by rewrite E'|].
    rewrite (proj2 (Z.eqb_neq (occurs x l' + occurs x l) 0)) by lia.
    destruct (Z.eqb_spec (occurs x l) 0) as [E|E]; simpl; rewrite add64_exact by (int_unfold; lia); f_equal; lia.
Qed.

(** ** What the loops count *)

(** The pairs at which the terms of existing pods match the incoming pod. *)
Definition existing_pairs (pod : Pod) (nsLabels : gmap string string) (ens : bool) (ni : NodeInfo) : list topologyPair :=
  match ni_node ni with
  | None => []
  | Some node =>
      concat (map (fun p => pairs_at node (matched_keys (RequiredAntiAffinityTerms p) pod nsLabels ens))
        (PodsWithRequiredAntiAffinity ni))
  end.

(** The pairs at which existing pods match all terms of the incoming pod, and
    those at which they match one of its anti-affinity terms. *)
Definition affinity_pairs (pi : PodInfo) (ens : bool) (ni : NodeInfo) : list topologyPair :=
  match ni_node ni with
  | None => []
  | Some node => concat (map (fun p => pairs_at node (all_keys (RequiredAffinityTerms pi) (pi_Pod p) ens)) (Pods ni))
  end.
Definition anti_pairs (pi : PodInfo) (ens : bool) (ni : NodeInfo) : list topologyPair :=
  match ni_node ni with
  | None => []
  | Some node =>
      concat (map (fun p => pairs_at node (matched_keys (RequiredAntiAffinityTerms pi) (pi_Pod p) ∅ ens)) (Pods ni))
  end.

Lemma pods_fold (f : PodInfo -> list string) node pods m l :
  denotes m l -> countable (concat (map (fun p => pairs_at node (f p)) pods) ++ l) ->
  denotes (fold_left (fun m p => fold_left (fun m k => tm_update m node k 1) (f p) m) pods m)
    (concat (map (fun p => pairs_at node (f p)) pods) ++ l).
Proof.
  revert m l. induction pods as [|p pods IH]; intros m l H Hc; cbn [fold_left map concat]; [done|].
  set (rest := concat (map (fun p => pairs_at node (f p)) pods)) in *. cbn [map concat] in Hc. fold rest in Hc.
  assert (rest ++ (pairs_at node (f p) ++ l) ≡ₚ (pairs_at node (f p) ++ rest) ++ l) as Hp
    by (rewrite !app_assoc; by rewrite (Permutation_app_comm rest)).
  assert (countable (rest ++ (pairs_at node (f p) ++ l))) as Hc' by (unfold countable in *; by rewrite Hp).
  eapply denotes_perm; [exact Hp|]. apply IH; [|done]. apply updates_add; [done|]. by eapply countable_app_r.
Qed.

Lemma countable_part {A} (g : A -> list topologyPair) l x : countable (concat (map g l)) -> x ∈ l -> countable (g x).
Proof.
  intros Hc (l1 & l2 & ->)%list_elem_of_split. unfold countable in *.
  rewrite map_app, concat_app in Hc. simpl in Hc. rewrite !length_app in Hc. lia.
Qed.

(** The pieces of a parallel loop, added up. *)
Definition piece_ok (g : NodeInfo -> list topologyPair) (piece : NodeInfo -> option topologyToMatchedTermCount)
    (ni : NodeInfo) : Prop :=
  match piece ni with Some m => denotes m (g ni) | None => g ni = [] end.

Lemma nodes_fold g piece nodes m l :
  (forall ni, ni ∈ nodes -> piece_ok g piece ni) -> denotes m l -> countable (concat (map g nodes) ++ l) ->
  denotes (fold_left tm_append (omap piece nodes) m) (concat (map g nodes) ++ l).
Proof.
  revert m l. induction nodes as [|ni nodes IH]; intros m l Hg H Hc; cbn [map concat]; [done|].
  cbn [map concat] in Hc. rewrite <- app_assoc in Hc.
  assert (forall ni, ni ∈ nodes -> piece_ok g piece ni) as Hg' by (intros ? ?; apply Hg; by right).
  specialize (Hg ni ltac:(left)). unfold piece_ok in Hg. set (rest := concat (map g nodes)) in *.
  assert (rest ++ (g ni ++ l) ≡ₚ (g ni ++ rest) ++ l) as Hp
    by (rewrite !app_assoc; by rewrite (Permutation_app_comm rest)).
  assert (countable (rest ++ (g ni ++ l))) as Hc' by (unfold countable in *; rewrite Hp, <- app_assoc; done).
  eapply denotes_perm; [exact Hp|]. cbn [omap list_omap]. destruct (piece ni) as [mi|].
  - cbn [fold_left]. apply IH; [done| |done]. apply append_denotes; [done|done|]. by eapply countable_app_r.
  - rewrite Hg in Hc' |- *. by apply IH.
Qed.

Lemma existing_piece_ok pod nsLabels ens ni :
  countable (existing_pairs pod nsLabels ens ni) ->
  piece_ok (existing_pairs pod nsLabels ens) (existing_piece pod nsLabels ens) ni.
Proof.
  intros Hc. unfold piece_ok, existing_pairs, existing_piece in *. destruct (ni_node ni) as [node|]; [|done].
  set (pods := PodsWithRequiredAntiAffinity ni) in *.
  assert (fold_left (fun m p => updateWithAntiAffinityTerms m (RequiredAntiAffinityTerms p) pod nsLabels node 1 ens) pods ∅
    = fold_left (fun m p => fold_left (fun m k => tm_update m node k 1)
        (matched_keys (RequiredAntiAffinityTerms p) pod nsLabels ens) m) pods ∅) as ->.
  { generalize (∅ : topologyToMatchedTermCount). induction pods as [|p pods IH]; intros m; simpl; [done|].
    rewrite anti_updates. apply IH. unfold countable in *. simpl in Hc. rewrite length_app in Hc. lia. }
  set (m := fold_left _ pods ∅).
  assert (denotes m (concat (map (fun p => pairs_at node (matched_keys (RequiredAntiAffinityTerms p) pod nsLabels ens)) pods))) as H.
  { rewrite <- (app_nil_r (concat _)). apply pods_fold; [apply denotes_nil|]. by rewrite app_nil_r. }
  destruct (Nat.eqb_spec (size m) 0) as [E|E]; [|done]. by apply (denotes_empty m _ H).
Qed.

Lemma fold_left_pair {A B C D} (f : A -> C -> A) (g : B -> D -> B) (l : list (C * D)) a b :
  fold_left (fun st p => (f st.1 p.1, g st.2 p.2)) l (a, b) = (fold_left f (map fst l) a, fold_left g (map snd l) b).
Proof. revert a b. induction l as [|x l IH]; intros a b; simpl; [done|]. apply IH. Qed.

Lemma map_omap_fst {A B C} (f : A -> option (B * C)) l : map fst (omap f l) = omap (fun x => fst <$> f x) l.
Proof. induction l as [|x l IH]; simpl; [done|]. destruct (f x); simpl; [by f_equal|done]. Qed.
Lemma map_omap_snd {A B C} (f : A -> option (B * C)) l : map snd (omap f l) = omap (fun x => snd <$> f x) l.
Proof. induction l as [|x l IH]; simpl; [done|]. destruct (f x); simpl; [by f_equal|done]. Qed.

Lemma incoming_piece_ok pi ens ni :
  countable (affinity_pairs pi ens ni) -> countable (anti_pairs pi ens ni) ->
  match incoming_piece pi ens ni with
  | Some (a, b) => denotes a (affinity_pairs pi ens ni) /\ denotes b (anti_pairs pi ens ni)
  | None => affinity_pairs pi ens ni = [] /\ anti_pairs pi ens ni = []
  end.
Proof.
  unfold affinity_pairs, anti_pairs, incoming_piece. destruct (ni_node ni) as [node|]; [|done]. intros Hc1 Hc2.
  assert (forall pods a b, fold_left (fun st p =>
      (updateWithAffinityTerms st.1 (RequiredAffinityTerms pi) (pi_Pod p) node 1 ens,
       updateWithAntiAffinityTerms st.2 (RequiredAntiAffinityTerms pi) (pi_Pod p) ∅ node 1 ens)) pods (a, b)
    = (fold_left (fun m p => fold_left (fun m k => tm_update m node k 1)
          (all_keys (RequiredAffinityTerms pi) (pi_Pod p) ens) m) pods a,
       fold_left (fun m p => fold_left (fun m k => tm_update m node k 1)
          (matched_keys (RequiredAntiAffinityTerms pi) (pi_Pod p) ∅ ens) m) pods b)) as ->.
  { induction pods as [|p pods IH]; intros a b; simpl; [done|]. rewrite anti_updates, affinity_updates. apply IH. }
  set (a := fold_left _ (Pods ni) ∅). set (b := fold_left _ (Pods ni) ∅).
  assert (denotes a (concat (map (fun p => pairs_at node (all_keys (RequiredAffinityTerms pi) (pi_Pod p) ens)) (Pods ni)))) as Ha.
  { rewrite <- (app_nil_r (concat _)). apply pods_fold; [apply denotes_nil|]. by rewrite app_nil_r. }
  assert (denotes b (concat (map (fun p => pairs_at node (matched_keys (RequiredAntiAffinityTerms pi) (pi_Pod p) ∅ ens)) (Pods ni)))) as Hb.
  { rewrite <- (app_nil_r (concat _)). apply pods_fold; [apply denotes_nil|]. by rewrite app_nil_r. }
  destruct (Nat.ltb_spec 0 (size a)), (Nat.ltb_spec 0 (size b)); simpl; try done.
  split; [apply (denotes_empty a _ Ha)|apply (denotes_empty b _ Hb)]; lia.
Qed.

(** ** The state of [PreFilter] *)

Section calculate.
Context {mr : MapRange} (pl : InterPodAffinity) (pod : Pod).

Let pi := merged_podInfo pl (NewPodInfo pod).
Let ens := enableNamespaceSelector pl.
Let nsLabels := namespace_labels pl pod.

Definition cluster_existing (nodes : list NodeInfo) : list topologyPair := concat (map (existing_pairs pod nsLabels ens) nodes).
Definition cluster_affinity (nodes : list NodeInfo) : list topologyPair := concat (map (affinity_pairs pi ens) nodes).
Definition cluster_anti (nodes : list NodeInfo) : list topologyPair := concat (map (anti_pairs pi ens) nodes).

(** So few matches that the counts do not overflow. *)
Definition cluster_small (snap : Snapshot) : Prop :=
  countable (cluster_existing (HavePodsWithRequiredAntiAffinityList snap)) /\
  countable (cluster_affinity (SN_List snap)) /\ countable (cluster_anti (SN_List snap)).

Lemma no_terms_pairs nodes :
  RequiredAffinityTerms pi = [] -> RequiredAntiAffinityTerms pi = [] ->
  cluster_affinity nodes = [] /\ cluster_anti nodes = [].
Proof.
  intros H1 H2. unfold cluster_affinity, cluster_anti.
  split; induction nodes as [|ni nodes IH]; simpl; try done; rewrite IH, app_nil_r;
    unfold affinity_pairs, anti_pairs; rewrite ?H1, ?H2; (destruct (ni_node ni); [|done]);
    induction (Pods ni) as [|p pods IHp]; simpl; try done.
Qed.

Lemma concat_map_perm {A B} (g : A -> list B) l l' : l ≡ₚ l' -> concat (map g l) ≡ₚ concat (map g l').
Proof.
  induction 1; simpl; [done|by f_equiv| |by etransitivity].
  rewrite !app_assoc. by rewrite (Permutation_app_comm (g y)).
Qed.

Lemma incoming_denotes nodes :
  countable (cluster_affinity nodes) -> countable (cluster_anti nodes) ->
  denotes (getIncomingAffinityAntiAffinityCounts pi nodes ens).1 (cluster_affinity nodes) /\
  denotes (getIncomingAffinityAntiAffinityCounts pi nodes ens).2 (cluster_anti nodes).
Proof.
  intros Hc2 Hc3. unfold getIncomingAffinityAntiAffinityCounts.
  destruct ((length (RequiredAffinityTerms pi) =? 0)%nat && (length (RequiredAntiAffinityTerms pi) =? 0)%nat) eqn:E.
  { apply andb_true_iff in E as [E1%Nat.eqb_eq E2%Nat.eqb_eq]. apply nil_length_inv in E1, E2.
    destruct (no_terms_pairs nodes E1 E2) as [-> ->]. split; apply denotes_nil. }
  clear E. rewrite fold_left_pair, map_omap_fst, map_omap_snd; cbn [fst snd].
  assert (cluster_affinity (range 1 nodes) ≡ₚ cluster_affinity nodes) as Hp2 by (apply concat_map_perm, range_perm).
  assert (cluster_anti (range 1 nodes) ≡ₚ cluster_anti nodes) as Hp3 by (apply concat_map_perm, range_perm).
  rewrite <- Hp2, <- Hp3 in *. set (l := range 1 nodes) in *.
  assert (forall ni, ni ∈ l ->
    piece_ok (affinity_pairs pi ens) (fun x => fst <$> incoming_piece pi ens x) ni /\
    piece_ok (anti_pairs pi ens) (fun x => snd <$> incoming_piece pi ens x) ni) as Hpiece.
  { intros ni Hni. unfold piece_ok.
    pose proof (incoming_piece_ok pi ens ni (countable_part _ _ _ Hc2 Hni) (countable_part _ _ _ Hc3 Hni)) as H.
    by destruct (incoming_piece pi ens ni) as [[a b]|]. }
  unfold cluster_affinity, cluster_anti in *.
  split; rewrite <- (app_nil_r (concat _)); (apply nodes_fold; [by intros ni Hni; apply Hpiece|apply denotes_nil|]);
    by rewrite app_nil_r.
Qed.

Lemma existing_denotes nodes :
  countable (cluster_existing nodes) ->
  denotes (getExistingAntiAffinityCounts pod nsLabels nodes ens) (cluster_existing nodes).
Proof.
  intros Hc. assert (cluster_existing (range 0 nodes) ≡ₚ cluster_existing nodes) as Hp by (apply concat_map_perm, range_perm).
  rewrite <- Hp in *. unfold getExistingAntiAffinityCounts, cluster_existing in *. rewrite <- (app_nil_r (concat _)).
  apply nodes_fold; [|apply denotes_nil|by rewrite app_nil_r].
  intros ni Hni. apply existing_piece_ok. by eapply countable_part.
Qed.

Lemma calculate_denotes snap :
  cluster_small snap ->
  let s := IPA_calculate pl snap pod in
  denotes (existingAntiAffinityCounts s) (cluster_existing (HavePodsWithRequiredAntiAffinityList snap)) /\
  denotes (affinityCounts s) (cluster_affinity (SN_List snap)) /\
  denotes (antiAffinityCounts s) (cluster_anti (SN_List snap)) /\
  ipa_podInfo s = pi /\ ipa_namespaceLabels s = nsLabels /\ ipa_enableNamespaceSelector s = ens.
Proof.
  intros (Hc1 & Hc2 & Hc3). cbv zeta. unfold IPA_calculate. fold pi ens nsLabels.
  pose proof (incoming_denotes _ Hc2 Hc3) as H. pose proof (existing_denotes _ Hc1) as H1.
  destruct (getIncomingAffinityAntiAffinityCounts pi (SN_List snap) ens) as [a b]. by destruct H.
Qed.
End calculate.

(** ** The rules *)

(** The lists of a node that serve the plugin hold the right pods: those that
    have required anti-affinity terms. *)
Record anti_lists (ni : NodeInfo) : Prop := {
  al_pods : PodsWithRequiredAntiAffinity ni ≡ₚ List.filter (fun p => podWithRequiredAntiAffinity (pi_Pod p)) (Pods ni);
  al_parsed : forall p, p ∈ Pods ni -> podWithRequiredAntiAffinity (pi_Pod p) = false -> RequiredAntiAffinityTerms p = []
}.

Record snapshot_ok (snap : Snapshot) : Prop := {
  so_list : HavePodsWithRequiredAntiAffinityList snap ≡ₚ List.filter has_anti_affinity_pods (SN_List snap);
  so_nodes : forall ni, ni ∈ SN_List snap -> anti_lists ni
}.

Definition pod_at (nodes : list NodeInfo) (node : Node) (p : PodInfo) : Prop :=
  exists ni, ni ∈ nodes /\ ni_node ni = Some node /\ p ∈ Pods ni.

(** The nodes have the same value for the term's topology key. *)
Definition same_domain (t : AffinityTerm) (n n' : Node) : Prop :=
  exists v, node_Labels n !! at_TopologyKey t = Some v /\ node_Labels n' !! at_TopologyKey t = Some v.

Section rules.
Context (terms anti : list AffinityTerm) (pod : Pod) (nsLabels : gmap string string) (ens : bool).
Context (nodes : list NodeInfo) (node : Node).

(** Each required term finds, in the node's domain, a pod that matches all
    terms; or the pod is the first of its kind, in that no pod of the cluster
    matches the terms, and matches them itself. *)
Definition affinity_rule : Prop :=
  (forall t, t ∈ terms -> is_Some (node_Labels node !! at_TopologyKey t)) /\
  ((forall t, t ∈ terms -> exists n p, pod_at nodes n p /\ podMatchesAllAffinityTerms terms (pi_Pod p) ens = true /\
      same_domain t node n) \/
   (podMatchesAllAffinityTerms terms pod ens = true /\
    forall n p, pod_at nodes n p -> podMatchesAllAffinityTerms terms (pi_Pod p) ens = false)).

(** What the code decides in its place: it takes the pod for the first of its
    kind when its counts are empty, which says nothing of the matching pods on
    nodes without the topology keys. *)
Definition affinity_counted : Prop :=
  (forall t, t ∈ terms -> is_Some (node_Labels node !! at_TopologyKey t)) /\
  ((forall t, t ∈ terms -> exists n p, pod_at nodes n p /\ podMatchesAllAffinityTerms terms (pi_Pod p) ens = true /\
      same_domain t node n) \/
   (podMatchesAllAffinityTerms terms pod ens = true /\
    forall n p t, pod_at nodes n p -> podMatchesAllAffinityTerms terms (pi_Pod p) ens = true -> t ∈ terms ->
      node_Labels n !! at_TopologyKey t = None)).

(** The nodes of matching pods have some topology key of the terms. *)
Definition matches_labelled : Prop :=
  forall n p, pod_at nodes n p -> podMatchesAllAffinityTerms terms (pi_Pod p) ens = true ->
    exists t, t ∈ terms /\ is_Some (node_Labels n !! at_TopologyKey t).

(** The two agree then; and the rule always implies what is decided. *)
Lemma affinity_counted_rule : (affinity_rule -> affinity_counted) /\ (matches_labelled -> affinity_counted -> affinity_rule).
Proof.
  split.
  - intros [H1 [H2|[H2 H3]]]; split; [done|by left|done|]. right. split; [done|]. intros n p t Hat Hm _.
    by rewrite (H3 n p Hat) in Hm.
  - intros Hl [H1 [H2|[H2 H3]]]; split; [done|by left|done|]. right. split; [done|]. intros n p Hat.
    destruct (podMatchesAllAffinityTerms terms (pi_Pod p) ens) eqn:Em; [|done].
    destruct (Hl n p Hat Em) as (t & Ht & [v Hv]). by rewrite (H3 n p t Hat Em Ht) in Hv.
Qed.

(** No pod in the node's domain of an anti-affinity term matches it. *)
Definition anti_affinity_rule : Prop :=
  forall t n p, t ∈ anti -> pod_at nodes n p -> Term_Matches t (pi_Pod p) ∅ ens = true -> ~ same_domain t node n.

(** No existing pod has an anti-affinity term that the pod matches and whose
    domain the node shares. *)
Definition existing_rule : Prop :=
  forall t n p, pod_at nodes n p -> t ∈ RequiredAntiAffinityTerms p -> Term_Matches t pod nsLabels ens = true ->
    ~ same_domain t node n.
End rules.

Lemma elem_of_concat_map {A B} (g : A -> list B) l y : y ∈ concat (map g l) <-> exists x, x ∈ l /\ y ∈ g x.
Proof.
  rewrite list_elem_of_In, in_concat. split.
  - intros (s & (x & <- & Hx)%in_map_iff & Hy). exists x. by rewrite !list_elem_of_In.
  - intros (x & Hx & Hy). exists (g x). split; [|by apply list_elem_of_In].
    apply in_map_iff. exists x. by rewrite <- list_elem_of_In.
Qed.

Lemma elem_of_matched_keys k terms pod nsLabels ens :
  k ∈ matched_keys terms pod nsLabels ens <->
  exists t, t ∈ terms /\ Term_Matches t pod nsLabels ens = true /\ at_TopologyKey t = k.
Proof.
  unfold matched_keys. rewrite list_elem_of_In, in_map_iff. split.
  - intros (t & <- & [Ht Hm]%filter_In). exists t. by rewrite list_elem_of_In.
  - intros (t & Ht & Hm & <-). exists t. split; [done|]. apply filter_In. by rewrite <- list_elem_of_In.
Qed.

Lemma podMatchesAll_spec terms pod ens :
  podMatchesAllAffinityTerms terms pod ens = true <->
  terms <> [] /\ forall t, t ∈ terms -> Term_Matches t pod ∅ ens = true.
Proof.
  unfold podMatchesAllAffinityTerms. destruct terms as [|t terms]; [naive_solver|]. cbn [length Nat.eqb].
  rewrite forallb_forall. setoid_rewrite list_elem_of_In. naive_solver.
Qed.

Section members.
Context {mr : MapRange} (pl : InterPodAffinity) (pod : Pod).
Let pi := merged_podInfo pl (NewPodInfo pod).
Let ens := enableNamespaceSelector pl.
Let nsLabels := namespace_labels pl pod.

Lemma elem_of_affinity nodes k v :
  (k, v) ∈ cluster_affinity pl pod nodes <->
  exists n p t, pod_at nodes n p /\ podMatchesAllAffinityTerms (RequiredAffinityTerms pi) (pi_Pod p) ens = true /\
    t ∈ RequiredAffinityTerms pi /\ at_TopologyKey t = k /\ node_Labels n !! k = Some v.
Proof.
  unfold cluster_affinity. rewrite elem_of_concat_map. fold pi ens. split.
  - intros (ni & Hni & H). unfold affinity_pairs in H. destruct (ni_node ni) as [n|] eqn:En; [|by apply elem_of_nil in H].
    apply elem_of_concat_map in H as (p & Hp & [Hk Hv]%elem_of_pairs_at). unfold all_keys in Hk.
    destruct (podMatchesAllAffinityTerms _ _ _) eqn:Hm; [|by apply elem_of_nil in Hk].
    apply list_elem_of_fmap in Hk as (t & -> & Ht). exists n, p, t. split_and!; try done. by exists ni.
  - intros (n & p & t & (ni & Hni & En & Hp) & Hm & Ht & <- & Hv). exists ni. split; [done|].
    unfold affinity_pairs. rewrite En. apply elem_of_concat_map. exists p. split; [done|].
    apply elem_of_pairs_at. split; [|done]. unfold all_keys. rewrite Hm. by apply list_elem_of_fmap_2.
Qed.

Lemma elem_of_anti nodes k v :
  (k, v) ∈ cluster_anti pl pod nodes <->
  exists n p t, pod_at nodes n p /\ t ∈ RequiredAntiAffinityTerms pi /\ Term_Matches t (pi_Pod p) ∅ ens = true /\
    at_TopologyKey t = k /\ node_Labels n !! k = Some v.
Proof.
  unfold cluster_anti. rewrite elem_of_concat_map. fold pi ens. split.
  - intros (ni & Hni & H). unfold anti_pairs in H. destruct (ni_node ni) as [n|] eqn:En; [|by apply elem_of_nil in H].
    apply elem_of_concat_map in H as (p & Hp & [Hk Hv]%elem_of_pairs_at).
    apply elem_of_matched_keys in Hk as (t & Ht & Hm & Hk). exists n, p, t. split_and!; try done. by exists ni.
  - intros (n & p & t & (ni & Hni & En & Hp) & Ht & Hm & <- & Hv). exists ni. split; [done|].
    unfold anti_pairs. rewrite En. apply elem_of_concat_map. exists p. split; [done|].
    apply elem_of_pairs_at. split; [|done]. apply elem_of_matched_keys. by exists t.
Qed.

Lemma elem_of_existing snap k v :
  snapshot_ok snap ->
  (k, v) ∈ cluster_existing pl pod (HavePodsWithRequiredAntiAffinityList snap) <->
  exists n p t, pod_at (SN_List snap) n p /\ t ∈ RequiredAntiAffinityTerms p /\ Term_Matches t pod nsLabels ens = true /\
    at_TopologyKey t = k /\ node_Labels n !! k = Some v.
Proof.
  intros [Hl Hn]. unfold cluster_existing. rewrite elem_of_concat_map. fold ens nsLabels. split.
  - intros (ni & Hni & H). rewrite Hl in Hni. apply list_elem_of_In, filter_In in Hni as [Hni%list_elem_of_In _].
    unfold existing_pairs in H. destruct (ni_node ni) as [n|] eqn:En; [|by apply elem_of_nil in H].
    apply elem_of_concat_map in H as (p & Hp & [Hk Hv]%elem_of_pairs_at).
    rewrite (al_pods ni (Hn ni Hni)) in Hp. apply list_elem_of_In, filter_In in Hp as [Hp%list_elem_of_In _].
    apply elem_of_matched_keys in Hk as (t & Ht & Hm & Hk). exists n, p, t. split_and!; try done. by exists ni.
  - intros (n & p & t & (ni & Hni & En & Hp) & Ht & Hm & <- & Hv). pose proof (Hn ni Hni) as [Ha Hparsed].
    destruct (podWithRequiredAntiAffinity (pi_Pod p)) eqn:Hpod; [|rewrite Hparsed in Ht by done; by apply elem_of_nil in Ht].
    assert (p ∈ PodsWithRequiredAntiAffinity ni) as Hpa.
    { rewrite Ha. apply list_elem_of_In, filter_In. by rewrite <- list_elem_of_In. }
    exists ni. split.
    + rewrite Hl. apply list_elem_of_In, filter_In. rewrite <- list_elem_of_In. split; [done|].
      unfold has_anti_affinity_pods. destruct (PodsWithRequiredAntiAffinity ni); [by apply elem_of_nil in Hpa|done].
    + unfold existing_pairs. rewrite En. apply elem_of_concat_map. exists p. split; [done|].
      apply elem_of_pairs_at. split; [|done]. apply elem_of_matched_keys. by exists t.
Qed.
End members.

(** ** [Filter] *)

Lemma getp_pos m l x : denotes m l -> (0 <? getp m x) = bool_decide (x ∈ l).
Proof.
  intros H. rewrite (count_entry_getp m l x H). case_bool_decide as Hx.
  - apply Z.ltb_lt. by apply occurs_pos.
  - apply Z.ltb_ge. destruct (Z.le_gt_cases (occurs x l) 0) as [|Hp%occurs_pos]; [done|tauto].
Qed.

(** The guard on the size of the map changes nothing. *)
Lemma size_guard m l b : denotes m l -> (l = [] -> b = true) ->
  (if (0 <? size m)%nat then b else true) = b.
Proof.
  intros H Hb. destruct (Nat.ltb_spec 0 (size m)) as [Hs|Hs]; [done|]. symmetry. apply Hb.
  apply (denotes_empty m l H). lia.
Qed.

Lemma affinity_loop_spec counts l node b terms :
  denotes counts l ->
  match affinity_loop counts node b terms with
  | None => exists t, t ∈ terms /\ node_Labels node !! at_TopologyKey t = None
  | Some r =>
      (forall t, t ∈ terms -> is_Some (node_Labels node !! at_TopologyKey t)) /\
      (r = true <-> b = true /\ forall t v, t ∈ terms -> node_Labels node !! at_TopologyKey t = Some v ->
                     (at_TopologyKey t, v) ∈ l)
  end.
Proof.
  intros H. revert b. induction terms as [|t terms IH]; intros b; cbn [affinity_loop].
  { split; [by intros ? ?%elem_of_nil|]. split; [intros ->; split; [done|by intros ? ? ?%elem_of_nil]|by intros [-> _]]. }
  destruct (node_Labels node !! at_TopologyKey t) as [v|] eqn:Ev; [|exists t; split; [by left|done]].
  specialize (IH (if getp counts (at_TopologyKey t, v) <=? 0 then false else b)).
  destruct (affinity_loop _ _ _ _) as [r|].
  - destruct IH as [Hall Hr]. split.
    { intros u [-> |Hu]%elem_of_cons; [by rewrite Ev|by apply Hall]. }
    rewrite Hr. assert ((if getp counts (at_TopologyKey t, v) <=? 0 then false else b) = true <->
      b = true /\ (at_TopologyKey t, v) ∈ l) as Hhead.
    { pose proof (getp_pos counts l (at_TopologyKey t, v) H) as Hg. case_bool_decide as Hin;
        [apply Z.ltb_lt in Hg|apply Z.ltb_ge in Hg].
      - rewrite (proj2 (Z.leb_gt _ 0)) by lia. naive_solver.
      - rewrite (proj2 (Z.leb_le _ 0)) by lia. naive_solver. }
    rewrite Hhead. split.
    + intros [[Hb Hin] Hrest]. split; [done|]. intros u w [-> |Hu]%elem_of_cons Hw; [|by apply Hrest].
      rewrite Ev in Hw. by injection Hw as <-.
    + intros [Hb Hrest]. split_and!; [done|apply Hrest; [by left|done]|]. intros u w Hu. apply Hrest. by right.
  - destruct IH as (u & Hu & Hn). exists u. split; [by right|done].
Qed.

Section filter.
Context {mr : MapRange} (pl : InterPodAffinity) (snap : Snapshot) (pod : Pod) (node : Node).
Context (Hok : snapshot_ok snap) (Hsmall : cluster_small pl pod snap).
Let pi := merged_podInfo pl (NewPodInfo pod).
Let ens := enableNamespaceSelector pl.
Let s := IPA_calculate pl snap pod.

Lemma calculate_podInfo : ipa_podInfo s = pi /\ pi_Pod pi = pod /\ ipa_enableNamespaceSelector s = ens.
Proof.
  destruct (calculate_denotes pl pod snap Hsmall) as (_ & _ & _ & H1 & _ & H2). split_and!; [done| |done].
  unfold pi, merged_podInfo. by destruct (enableNamespaceSelector pl).
Qed.

Lemma satisfyPodAffinity_rule :
  satisfyPodAffinity s node = true <-> affinity_counted (RequiredAffinityTerms pi) pod ens (SN_List snap) node.
Proof.
  destruct (calculate_denotes pl pod snap Hsmall) as (_ & Ha & _). fold s in Ha.
  destruct calculate_podInfo as (Hpi & Hpod & Hens).
  unfold satisfyPodAffinity. rewrite Hpi, Hpod, Hens. set (terms := RequiredAffinityTerms pi).
  pose proof (affinity_loop_spec (affinityCounts s) _ node true terms Ha) as Hloop.
  destruct (affinity_loop (affinityCounts s) node true terms) as [r|].
  - destruct Hloop as [Hkeys Hr]. unfold affinity_counted.
    assert (r = true <-> forall t, t ∈ terms -> exists n p, pod_at (SN_List snap) n p /\
      podMatchesAllAffinityTerms terms (pi_Pod p) ens = true /\ same_domain t node n) as Hr'.
    { rewrite Hr. split.
      - intros [_ H] t Ht. destruct (Hkeys t Ht) as [v Hv].
        destruct (proj1 (elem_of_affinity pl pod _ _ _) (H t v Ht Hv)) as (n & p & u & Hat & Hm & _ & _ & Hn).
        exists n, p. split_and!; [done|done|by exists v].
      - intros H. split; [done|]. intros t v Ht Hv. destruct (H t Ht) as (n & p & Hat & Hm & w & Hw1 & Hw2).
        rewrite Hv in Hw1. injection Hw1 as <-. apply elem_of_affinity. exists n, p, t. by split_and!. }
    assert ((size (affinityCounts s) =? 0)%nat = true <->
      forall n p t, pod_at (SN_List snap) n p -> podMatchesAllAffinityTerms terms (pi_Pod p) ens = true -> t ∈ terms ->
        node_Labels n !! at_TopologyKey t = None) as Hnone.
    { rewrite Nat.eqb_eq, (denotes_empty _ _ Ha). split.
      - intros Hnil n p t Hat Hm Ht. destruct (node_Labels n !! at_TopologyKey t) as [v|] eqn:Ev; [|done].
        assert ((at_TopologyKey t, v) ∈ cluster_affinity pl pod (SN_List snap)) as Hin
          by (apply elem_of_affinity; exists n, p, t; by split_and!).
        rewrite Hnil in Hin. by apply elem_of_nil in Hin.
      - intros H. destruct (cluster_affinity pl pod (SN_List snap)) as [|[k v] l] eqn:E; [done|].
        assert ((k, v) ∈ cluster_affinity pl pod (SN_List snap)) as Hin by (rewrite E; by left).
        apply elem_of_affinity in Hin as (n & p & t & Hat & Hm & Ht & <- & Hv).
        by rewrite (H n p t Hat Hm Ht) in Hv. }
    destruct r.
    + split; [intros _; split; [done|left; by apply Hr']|done].
    + rewrite andb_true_iff, Hnone. split.
      * intros [H1 H2]. split; [done|by right].
      * intros [_ [H|[H1 H2]]]; [by apply Hr' in H|done].
  - split; [done|]. intros [H _]. destruct Hloop as (t & Ht & Hn). destruct (H t Ht) as [v Hv]. congruence.
Qed.

Lemma satisfyPodAntiAffinity_rule :
  satisfyPodAntiAffinity s node = true <-> anti_affinity_rule (RequiredAntiAffinityTerms pi) ens (SN_List snap) node.
Proof.
  destruct (calculate_denotes pl pod snap Hsmall) as (_ & _ & Ha & _). fold s in Ha.
  destruct calculate_podInfo as (Hpi & Hpod & Hens). unfold satisfyPodAntiAffinity. rewrite Hpi.
  set (b := forallb _ _).
  assert (b = true <-> forall t v, t ∈ RequiredAntiAffinityTerms pi -> node_Labels node !! at_TopologyKey t = Some v ->
    (at_TopologyKey t, v) ∉ cluster_anti pl pod (SN_List snap)) as Hb.
  { unfold b. rewrite forallb_forall. split.
    - intros H t v Ht Hv. specialize (H t (proj1 (list_elem_of_In _ _) Ht)). rewrite Hv in H.
      rewrite (getp_pos _ _ _ Ha) in H. by apply negb_true_iff, bool_decide_eq_false in H.
    - intros H t Ht. destruct (node_Labels node !! at_TopologyKey t) as [v|] eqn:Ev; [|done].
      rewrite (getp_pos _ _ _ Ha). apply negb_true_iff, bool_decide_eq_false. apply H; [by apply list_elem_of_In|done]. }
  rewrite (size_guard _ _ b Ha).
  - rewrite Hb. split.
    + intros H t n p Ht Hat Hm (v & Hv1 & Hv2). apply (H t v Ht Hv1). apply elem_of_anti. by exists n, p, t.
    + intros H t v Ht Hv (n & p & u & Hat & Hu & Hm & Hk & Hn)%elem_of_anti.
      apply (H u n p Hu Hat Hm). exists v. by rewrite Hk.
  - intros Hnil. apply Hb. intros t v _ _. rewrite Hnil. by intros ?%elem_of_nil.
Qed.

Lemma satisfyExisting_rule :
  satisfyExistingPodsAntiAffinity s node = true <-> existing_rule pod (namespace_labels pl pod) ens (SN_List snap) node.
Proof.
  destruct (calculate_denotes pl pod snap Hsmall) as (Ha & _). fold s in Ha. unfold satisfyExistingPodsAntiAffinity.
  set (b := forallb _ _).
  assert (b = true <-> forall k v, node_Labels node !! k = Some v ->
    (k, v) ∉ cluster_existing pl pod (HavePodsWithRequiredAntiAffinityList snap)) as Hb.
  { unfold b. rewrite forallb_forall. split.
    - intros H k v Hv. specialize (H (k, v)). rewrite <- list_elem_of_In, range_perm, elem_of_map_to_list in H.
      specialize (H Hv). rewrite (getp_pos _ _ _ Ha) in H. by apply negb_true_iff, bool_decide_eq_false in H.
    - intros H [k v] Hin. rewrite <- list_elem_of_In, range_perm, elem_of_map_to_list in Hin.
      rewrite (getp_pos _ _ _ Ha). apply negb_true_iff, bool_decide_eq_false. by apply H. }
  rewrite (size_guard _ _ b Ha).
  - rewrite Hb. split.
    + intros H t n p Hat Ht Hm (v & Hv1 & Hv2). apply (H _ v Hv1). apply elem_of_existing; [done|]. by exists n, p, t.
    + intros H k v Hv (n & p & t & Hat & Ht & Hm & Hk & Hn)%elem_of_existing; [|done].
      apply (H t n p Hat Ht Hm). exists v. by rewrite Hk.
  - intros Hnil. apply Hb. intros k v _. rewrite Hnil. by intros ?%elem_of_nil.
Qed.
End filter.

(** The code of the status, by the three rules. *)
Definition decides (c : Code) (affinity anti existing : Prop) : Prop :=
  (c = Success <-> affinity /\ anti /\ existing) /\
  (c = UnschedulableAndUnresolvable <-> ~ affinity) /\
  (c = Unschedulable <-> affinity /\ ~ (anti /\ existing)).

(** C21. The InterPodAffinity filter decides the rules of the API.  With the
    counts that [PreFilter] computed from the snapshot, a node passes exactly
    if: every required affinity term finds in the node's topology domain a
    pod that matches all of the pod's terms, or the pod is the first of a
    group, with all topology keys present on the node; no pod in the domain
    of an anti-affinity term matches it; and no existing pod has an
    anti-affinity term that the incoming pod matches in a domain of the node.
    A failed affinity rule, and only that, is reported as not resolvable by
    preemption.  The pod is the first of a group when it matches its own terms
    and no pod of the cluster does, as the comment in [satisfyPodAffinity] has
    it, provided that the matching pods are on nodes with a topology key of
    the terms.  In general the code looks at such nodes only, and takes a pod
    for the first of a group although others of it run on nodes without the
    keys (first_of_group_repeated).  The counts must fit into 64 bits. *)
Theorem IPA_Filter_meaning {mr : MapRange} parse pl snap cs cs' pod ni node :
  IPA_PreFilter parse pl snap cs pod = (cs', None) -> ni_node ni = Some node ->
  snapshot_ok snap -> cluster_small pl pod snap ->
  let pi := merged_podInfo pl (NewPodInfo pod) in
  let ens := enableNamespaceSelector pl in
  let terms := RequiredAffinityTerms pi in
  let anti := anti_affinity_rule (RequiredAntiAffinityTerms pi) ens (SN_List snap) node in
  let existing := existing_rule pod (namespace_labels pl pod) ens (SN_List snap) node in
  let code := Status_Code (IPA_Filter cs' ni) in
  decides code (affinity_counted terms pod ens (SN_List snap) node) anti existing /\
  (matches_labelled terms ens (SN_List snap) -> decides code (affinity_rule terms pod ens (SN_List snap) node) anti existing).
Proof.
  intros Hpre Hni Hok Hsmall. cbv zeta.
  match goal with |- ?A /\ _ => enough A as HA end.
  { split; [done|]. intros Hl. unfold decides in *.
    destruct (affinity_counted_rule (RequiredAffinityTerms (merged_podInfo pl (NewPodInfo pod))) pod
      (enableNamespaceSelector pl) (SN_List snap) node) as [Hr1 Hr2]. specialize (Hr2 Hl). tauto. }
  unfold decides.
  assert (IPA_getPreFilterState cs' = inl (IPA_calculate pl snap pod)) as Hread.
  { unfold IPA_PreFilter in Hpre. destruct (ParseError (NewPodInfo pod)); [|done]. injection Hpre as <-.
    unfold IPA_getPreFilterState, CS_Read. simpl. by rewrite lookup_insert_eq. }
  unfold IPA_Filter. rewrite Hni, Hread.
  rewrite <- (satisfyPodAffinity_rule pl snap pod node Hsmall), <- (satisfyPodAntiAffinity_rule pl snap pod node Hsmall),
    <- (satisfyExisting_rule pl snap pod node Hok Hsmall).
  destruct (satisfyPodAffinity _ _), (satisfyPodAntiAffinity _ _), (satisfyExistingPodsAntiAffinity _ _);
    simpl; naive_solver.
Qed.

(** ** [AddPod] and [RemovePod] *)

(** A node with one more pod. *)
Record node_gains (p : PodInfo) (ni ni' : NodeInfo) : Prop := {
  ng_node : ni_node ni' = ni_node ni;
  ng_pods : Pods ni' ≡ₚ p :: Pods ni;
  ng_anti : PodsWithRequiredAntiAffinity ni' ≡ₚ
    (if podWithRequiredAntiAffinity (pi_Pod p) then [p] else []) ++ PodsWithRequiredAntiAffinity ni
}.

Lemma AddPodInfo_gains {arch : GoArch} {gates : FeatureGates} p ni w : node_gains p ni (AddPodInfo p ni w).1.
Proof.
  unfold AddPodInfo. destruct (calculateResource (pi_Pod p)) as [[res c] m]. constructor; simpl; [done| |].
  - symmetry. apply Permutation_cons_append.
  - destruct (podWithRequiredAntiAffinity (pi_Pod p)); [|done]. by rewrite Permutation_app_comm.
Qed.

Section incremental.
Context {mr : MapRange} (pl : InterPodAffinity) (pod : Pod).
Let pi := merged_podInfo pl (NewPodInfo pod).
Let ens := enableNamespaceSelector pl.
Let nsLabels := namespace_labels pl pod.

(** Nodes without such pods add nothing. *)
Lemma existing_all_nodes snap : snapshot_ok snap ->
  cluster_existing pl pod (HavePodsWithRequiredAntiAffinityList snap) ≡ₚ cluster_existing pl pod (SN_List snap).
Proof.
  intros [Hl _]. unfold cluster_existing. rewrite (concat_map_perm _ _ _ Hl). clear Hl.
  induction (SN_List snap) as [|ni nodes IH]; simpl; [done|].
  destruct (has_anti_affinity_pods ni) eqn:E; simpl; [by rewrite IH|]. rewrite IH.
  unfold has_anti_affinity_pods in E. unfold existing_pairs at 2.
  destruct (PodsWithRequiredAntiAffinity ni); [|done]. by destruct (ni_node ni).
Qed.

Lemma existing_gains p ni ni' node :
  node_gains p ni ni' -> anti_lists ni' -> ni_node ni = Some node ->
  existing_pairs pod nsLabels ens ni' ≡ₚ
    pairs_at node (matched_keys (RequiredAntiAffinityTerms p) pod nsLabels ens) ++ existing_pairs pod nsLabels ens ni.
Proof.
  intros [Hn Hp Ha] [_ Hparsed] Hni. unfold existing_pairs. rewrite Hn, Hni.
  rewrite (concat_map_perm _ _ _ Ha). destruct (podWithRequiredAntiAffinity (pi_Pod p)) eqn:E; [done|].
  rewrite (Hparsed p); [done| |done]. rewrite Hp. by left.
Qed.

Lemma affinity_gains p ni ni' node :
  node_gains p ni ni' -> ni_node ni = Some node ->
  affinity_pairs pi ens ni' ≡ₚ
    pairs_at node (all_keys (RequiredAffinityTerms pi) (pi_Pod p) ens) ++ affinity_pairs pi ens ni /\
  anti_pairs pi ens ni' ≡ₚ
    pairs_at node (matched_keys (RequiredAntiAffinityTerms pi) (pi_Pod p) ∅ ens) ++ anti_pairs pi ens ni.
Proof.
  intros [Hn Hp Ha] Hni. unfold affinity_pairs, anti_pairs. rewrite Hn, Hni.
  split; by rewrite (concat_map_perm _ _ _ Hp).
Qed.

(** C22. Preemption and the nominated pods ask what would be if a pod were on
    a node, or gone from it: [AddPod] and [RemovePod] of InterPodAffinity
    change the counts in place, and the result is exactly the state that
    [PreFilter] would compute from a snapshot with the pod there (or gone),
    also where counts reach zero. *)
Theorem IPA_incremental snap snap' p ni ni' node rest :
  SN_List snap ≡ₚ ni :: rest -> SN_List snap' ≡ₚ ni' :: rest ->
  ni_node ni = Some node -> node_gains p ni ni' ->
  snapshot_ok snap -> snapshot_ok snap' -> cluster_small pl pod snap' ->
  IPA_updateWithPod (IPA_calculate pl snap pod) p node 1 = IPA_calculate pl snap' pod /\
  IPA_updateWithPod (IPA_calculate pl snap' pod) p node (-1) = IPA_calculate pl snap pod.
Proof.
  intros Hs Hs' Hni Hg Hok Hok' Hsmall'.
  assert (anti_lists ni') as Hal by (apply (so_nodes _ Hok'); rewrite Hs'; by left).
  pose proof (existing_gains p ni ni' node Hg Hal Hni) as He.
  destruct (affinity_gains p ni ni' node Hg Hni) as [Haf Han].
  set (ke := matched_keys (RequiredAntiAffinityTerms p) pod nsLabels ens) in *.
  set (ka := all_keys (RequiredAffinityTerms pi) (pi_Pod p) ens) in *.
  set (kn := matched_keys (RequiredAntiAffinityTerms pi) (pi_Pod p) ∅ ens) in *.
  assert (cluster_existing pl pod (HavePodsWithRequiredAntiAffinityList snap') ≡ₚ
    pairs_at node ke ++ cluster_existing pl pod (HavePodsWithRequiredAntiAffinityList snap)) as E1.
  { rewrite !existing_all_nodes by done. unfold cluster_existing.
    rewrite (concat_map_perm _ _ _ Hs), (concat_map_perm _ _ _ Hs'). simpl. fold nsLabels ens.
    by rewrite He, <- app_assoc. }
  assert (cluster_affinity pl pod (SN_List snap') ≡ₚ pairs_at node ka ++ cluster_affinity pl pod (SN_List snap)) as E2.
  { unfold cluster_affinity. rewrite (concat_map_perm _ _ _ Hs), (concat_map_perm _ _ _ Hs'). simpl. fold pi ens.
    by rewrite Haf, <- app_assoc. }
  assert (cluster_anti pl pod (SN_List snap') ≡ₚ pairs_at node kn ++ cluster_anti pl pod (SN_List snap)) as E3.
  { unfold cluster_anti. rewrite (concat_map_perm _ _ _ Hs), (concat_map_perm _ _ _ Hs'). simpl. fold pi ens.
    by rewrite Han, <- app_assoc. }
  destruct (calculate_denotes pl pod snap' Hsmall') as (D1' & D2' & D3' & P1' & P2' & P3').
  destruct Hsmall' as (C1 & C2 & C3). rewrite E1 in C1. rewrite E2 in C2. rewrite E3 in C3.
  assert (cluster_small pl pod snap) as Hsmall by (split_and!; by eapply countable_app_r).
  destruct (calculate_denotes pl pod snap Hsmall) as (D1 & D2 & D3 & P1 & P2 & P3).
  assert (pi_Pod pi = pod) as Hpod by (unfold pi, merged_podInfo; by destruct (enableNamespaceSelector pl)).
  destruct (IPA_calculate pl snap pod) as [e a b q nl en]. destruct (IPA_calculate pl snap' pod) as [e' a' b' q' nl' en'].
  cbn [existingAntiAffinityCounts affinityCounts antiAffinityCounts ipa_podInfo ipa_namespaceLabels
       ipa_enableNamespaceSelector] in *. subst q nl en q' nl' en'.
  unfold IPA_updateWithPod. cbn [existingAntiAffinityCounts affinityCounts antiAffinityCounts ipa_podInfo
    ipa_namespaceLabels ipa_enableNamespaceSelector]. fold pi ens nsLabels. rewrite !anti_updates, !affinity_updates, Hpod.
  fold ke ka kn. rewrite E1 in D1'. rewrite E2 in D2'. rewrite E3 in D3'. split; f_equal.
  - eapply denotes_unique; [by apply updates_add|exact D1'|done].
  - eapply denotes_unique; [by apply updates_add|exact D2'|done].
  - eapply denotes_unique; [by apply updates_add|exact D3'|done].
  - eapply denotes_unique; [by apply updates_remove|exact D1|done].
  - eapply denotes_unique; [by apply updates_remove|exact D2|done].
  - eapply denotes_unique; [by apply updates_remove|exact D3|done].
Qed.
End incremental.

(** ** Witnesses *)

(** Two zones; a database runs in one of them, and refuses a second one. *)
Definition zone_term (app : string) : PodAffinityTerm := mkPodAffinityTerm (app_is app) [] zone_key None.

Definition with_affinity (aff anti : list PodAffinityTerm) (p : Pod) : Pod :=
  let s := Spec p in
  mkPod (Name p) (Namespace p) (UID p) (ResourceVersion p) (DeletionTimestamp p) (Labels p) (Annotations p)
    (mkPodSpec (Containers s) (InitContainers s) (Overhead s) (NodeName s) (SchedulerName s) (Priority s) (Volumes s)
       (Some (mkAffinity None (Some (mkPodAffinityRules aff [])) (Some (mkPodAffinityRules anti []))))
       (Tolerations s) (spec_NodeSelector s) (TopologySpreadConstraints s) (PreemptionPolicy s)) (Status p).

Definition db_pod (uid : string) : Pod :=
  with_affinity [] [zone_term "db"] (sample_pod "db" uid {["app"%string := "db"%string]} [] []).
Definition web_of_db (uid : string) : Pod :=
  with_affinity [zone_term "db"] [] (sample_pod "web" uid {["app"%string := "web"%string]} [] []).

Definition east_west (pods_east : list PodInfo) (have_anti : list string) : Snapshot :=
  let add ps ni := fold_left (fun n p => (@AddPodInfo amd64 gates_default p n empty_world).1) ps ni in
  let east := (@SetNode amd64 gates_default (zone_node "n1" "east") (NewNodeInfo empty_world).1 empty_world).1 in
  let west := (@SetNode amd64 gates_default (zone_node "n2" "west") (NewNodeInfo empty_world).1 empty_world).1 in
  mkSnapshot {["n1"%string := add pods_east east; "n2"%string := west]} ["n1"; "n2"]%string [] have_anti 1.

Definition one_db : Snapshot := east_west [NewPodInfo (db_pod "d1")] ["n1"%string].
Definition ipa_plugin : InterPodAffinity := mkInterPodAffinity 1 ∅ false.

Definition node_of (snap : Snapshot) (name : string) : NodeInfo :=
  default (NewNodeInfo empty_world).1 (nodeInfoMap snap !! name).

Example ipa_filter_ex :
  let run pod := map (fun n => Status_Code (@IPA_Filter range_id
     (@IPA_PreFilter range_id (fun _ => ""%string) ipa_plugin one_db NewCycleState pod).1 (node_of one_db n)))
     ["n1"; "n2"]%string in
  run (web_of_db "w1") = [Success; UnschedulableAndUnresolvable] /\ run (db_pod "d2") = [Unschedulable; Success].
Proof. vm_compute. done. Qed.

Lemma two_node_list e h : SN_List (east_west e h) = [node_of (east_west e h) "n1"; node_of (east_west e h) "n2"].
Proof. done. Qed.

Lemma one_db_ok : snapshot_ok one_db.
Proof.
  constructor; [done|]. intros ni. unfold one_db. rewrite two_node_list.
  intros [-> |[-> |?%elem_of_nil]%elem_of_cons]%elem_of_cons; [| |done].
  - constructor; [done|]. cbn. by intros p [-> |?%elem_of_nil]%elem_of_cons.
  - constructor; [done|]. by intros p ?%elem_of_nil.
Qed.

Definition no_db : Snapshot := east_west [] [].

Lemma no_db_ok : snapshot_ok no_db.
Proof.
  constructor; [done|]. intros ni. unfold no_db. rewrite two_node_list.
  intros [-> |[-> |?%elem_of_nil]%elem_of_cons]%elem_of_cons; [| |done];
    (constructor; [done|]; by intros p ?%elem_of_nil).
Qed.

(** The second database is kept away from the zone of the first. *)
Lemma IPA_Filter_meaning_witness :
  exists cs', @IPA_PreFilter range_id (fun _ => ""%string) ipa_plugin one_db NewCycleState (db_pod "d2") = (cs', None) /\
    Status_Code (@IPA_Filter range_id cs' (node_of one_db "n1")) = Unschedulable /\
    ~ (anti_affinity_rule (RequiredAntiAffinityTerms (merged_podInfo ipa_plugin (NewPodInfo (db_pod "d2")))) false
         (SN_List one_db) (zone_node "n1" "east") /\
       existing_rule (db_pod "d2") ∅ false (SN_List one_db) (zone_node "n1" "east")).
Proof.
  eexists. split; [vm_compute; reflexivity|]. split; [vm_compute; reflexivity|].
  destruct (@IPA_Filter_meaning range_id (fun _ => ""%string) ipa_plugin one_db NewCycleState
    (@IPA_PreFilter range_id (fun _ => ""%string) ipa_plugin one_db NewCycleState (db_pod "d2")).1 (db_pod "d2")
    (node_of one_db "n1") (zone_node "n1" "east")) as [(_ & _ & H) _].
  - vm_compute. reflexivity.
  - vm_compute. reflexivity.
  - exact one_db_ok.
  - split_and!; vm_compute; reflexivity.
  - apply H. vm_compute. reflexivity.
Defined.

(** Pods of a group want to be in the zone of one another.  One of them runs
    on a node without a zone: the next one is taken for the first of the group
    all the same, and admitted to a zone without any of them. *)
Definition peer_pod (uid : string) : Pod :=
  with_affinity [zone_term "peer"] [] (sample_pod "peer" uid {["app"%string := "peer"%string]} [] []).

Definition unzoned : Snapshot :=
  let bare := (@SetNode amd64 gates_default (sample_node "n3" ∅ 4000) (NewNodeInfo empty_world).1 empty_world).1 in
  let east := (@SetNode amd64 gates_default (zone_node "n1" "east") (NewNodeInfo empty_world).1 empty_world).1 in
  mkSnapshot {["n1"%string := east; "n3"%string := (@AddPodInfo amd64 gates_default (NewPodInfo (peer_pod "p1")) bare empty_world).1]}
    ["n1"; "n3"]%string [] [] 1.

Theorem first_of_group_repeated :
  let pod := peer_pod "p2" in
  let terms := RequiredAffinityTerms (merged_podInfo ipa_plugin (NewPodInfo pod)) in
  Status_Code (@IPA_Filter range_id
    (@IPA_PreFilter range_id (fun _ => ""%string) ipa_plugin unzoned NewCycleState pod).1 (node_of unzoned "n1")) = Success /\
  ~ affinity_rule terms pod false (SN_List unzoned) (zone_node "n1" "east").
Proof.
  cbv zeta. split; [vm_compute; reflexivity|]. intros [_ [H|[_ H]]].
  - destruct (H (default (mkAffinityTerm ∅ Everything "" Everything)
        (head (RequiredAffinityTerms (merged_podInfo ipa_plugin (NewPodInfo (peer_pod "p2"))))))) as (n & p & (ni & Hin & Hn & Hp) & Hm & v & Hv1 & Hv2).
    { by left. }
    change (SN_List unzoned) with [node_of unzoned "n1"; node_of unzoned "n3"] in Hin.
    apply elem_of_cons in Hin as [-> |Hin]; [by apply elem_of_nil in Hp|]. apply list_elem_of_singleton in Hin as ->.
    injection Hn as <-. vm_compute in Hv2. discriminate Hv2.
  - assert (pod_at (SN_List unzoned) (sample_node "n3" ∅ 4000) (NewPodInfo (peer_pod "p1"))) as Hat.
    { exists (node_of unzoned "n3"). split; [by right; left|]. split; [reflexivity|by left]. }
    specialize (H _ _ Hat). vm_compute in H. discriminate H.
Qed.

Lemma IPA_incremental_witness :
  @IPA_updateWithPod (@IPA_calculate range_id ipa_plugin no_db (db_pod "d2")) (NewPodInfo (db_pod "d1"))
    (zone_node "n1" "east") 1
  = @IPA_calculate range_id ipa_plugin one_db (db_pod "d2").
Proof.
  apply (@IPA_incremental range_id ipa_plugin (db_pod "d2") no_db one_db (NewPodInfo (db_pod "d1"))
    (node_of no_db "n1") (node_of one_db "n1") (zone_node "n1" "east") [node_of no_db "n2"]).
  - done.
  - done.
  - vm_compute. reflexivity.
  - apply (AddPodInfo_gains (arch := amd64) (gates := gates_default)).
  - exact no_db_ok.
  - exact one_db_ok.
  - split_and!; vm_compute; reflexivity.
Defined.

(** ** Scores *)

(** The lowest and the highest score are bounds of the scores. *)
Lemma min_max_spec scores :
  (forall ns, ns ∈ scores -> - 2 ^ 51 < ns_Score ns < 2 ^ 51) ->
  let '(mn, mx) := min_max scores in
  (forall ns, ns ∈ scores -> mn <= ns_Score ns <= mx) /\ (scores <> [] -> - 2 ^ 51 < mn /\ mx < 2 ^ 51).
Proof.
  intros Hs. unfold min_max.
  cut (let '(mn, mx) := fold_left (fun mm ns =>
      let max := if mm.2 <? ns_Score ns then ns_Score ns else mm.2 in
      let min := if ns_Score ns <? mm.1 then ns_Score ns else mm.1 in (min, max)) scores (MaxInt64, - MaxInt64) in
    (forall ns, ns ∈ scores -> mn <= ns_Score ns <= mx) /\ (scores <> [] -> - 2 ^ 51 < mn /\ mx < 2 ^ 51) /\
    - 2 ^ 51 < mn /\ mx < 2 ^ 51).
  { destruct (fold_left _ scores _) as [mn mx]. intros (? & ? & _). done. }
  induction scores as [|ns l IH] using rev_ind; [split_and!; try done; by intros ? ?%elem_of_nil|].
  rewrite fold_left_app. cbn [fold_left]. destruct (fold_left _ l _) as [mn mx].
  destruct IH as (H1 & H2 & H3 & H4); [intros x Hx; apply Hs, elem_of_app; by left|].
  assert (- 2 ^ 51 < ns_Score ns < 2 ^ 51) as Hn by (apply Hs, elem_of_app; right; by left). cbn [fst snd].
  destruct (Z.ltb_spec mx (ns_Score ns)), (Z.ltb_spec (ns_Score ns) mn); (split_and!; [|lia..]);
    intros x [Hx|Hx]%elem_of_app; try (apply list_elem_of_singleton in Hx as ->; lia); specialize (H1 x Hx); lia.
Qed.

(** [NormalizeScore] of InterPodAffinity yields legal scores, float rounding
    included, for any scores below 2^51. *)
Lemma IPA_scores_legal {arch : GoArch} cs s scores final :
  IPA_getPreScoreState cs = inl s -> topologyScore s <> ∅ ->
  (forall ns, ns ∈ scores -> - 2 ^ 51 < ns_Score ns < 2 ^ 51) ->
  IPA_NormalizeScore cs scores = (final, None) -> Forall (fun ns => legal_score (ns_Score ns) = true) final.
Proof.
  intros Hg Hne Hs. unfold IPA_NormalizeScore. rewrite Hg. rewrite (proj2 (Nat.eqb_neq _ 0)) by (by rewrite map_size_empty_iff).
  pose proof (min_max_spec scores Hs) as Hm. destruct (min_max scores) as [mn mx]. destruct Hm as [H1 H2]. intros [= <-].
  apply Forall_forall. intros x Hx. apply list_elem_of_fmap in Hx as (ns & -> & Hin). cbn [ns_Score].
  destruct (H1 ns Hin) as [Hlo Hhi]. destruct H2 as [Hmn Hmx]; [by destruct scores; [apply elem_of_nil in Hin|]|].
  unfold scaled. rewrite !sub64_exact by (int_unfold; lia).
  cut (0 <= int64_of_f64 (if 0 <? mx - mn
     then f64_mul (f64_of_Z MaxNodeScore) (f64_div (f64_of_Z (ns_Score ns - mn)) (f64_of_Z (mx - mn))) else S754_zero false) <= 100).
  { generalize (int64_of_f64 (if 0 <? mx - mn
     then f64_mul (f64_of_Z MaxNodeScore) (f64_div (f64_of_Z (ns_Score ns - mn)) (f64_of_Z (mx - mn))) else S754_zero false)).
    intros z Hz. unfold legal_score, MinNodeScore, MaxNodeScore. lia. }
  destruct (Z.ltb_spec 0 (mx - mn)) as [Hlt|Hge]; apply int64_of_f64_within; try lia; [|done].
  apply (f64_mul_within _ _ 100 0 1 0); try lia; [by apply f64_of_Z_within| |split; lia].
  apply f64_div_of_Z_within; lia.
Qed.
