(* ===== verification/PodTopologySpread.v ===== *)
(** * The PodTopologySpread plugin

    [framework/plugins/podtopologyspread] (plugin.go, common.go,
    filtering.go, scoring.go).  A constraint bounds the skew of a topology:
    the number of matching pods in a domain (the nodes with one value of the
    topology key) minus the smallest such number.  [PreFilter] counts the
    pods per domain and keeps the two smallest counts of each key
    ([criticalPaths]), so that [Filter] and the updates for a hypothetical
    pod need not look at all domains. *)

From S2P Require Import Prelude GoInt GoFloat GoFloatBound GoStrconv Quantity ApiTypes Labels NodeAffinity AffinityTerms Resource HostPorts NodeInfo Json Framework Snapshot SchedulingQueue Runtime NodePlugins.

Open Scope go_scope.

Definition DoNotSchedule : string := "DoNotSchedule".
Definition ScheduleAnyway : string := "ScheduleAnyway".
Definition LabelHostname : string := "kubernetes.io/hostname".
Definition LabelTopologyZone : string := "topology.kubernetes.io/zone".
Definition ErrReasonConstraintsNotMatch : string := "node(s) didn't match pod topology spread constraints".
Definition ErrReasonNodeLabelNotMatch : string := str_app ErrReasonConstraintsNotMatch " (missing required label)".
Definition Spread_preFilterStateKey : string := "PreFilterPodTopologySpread".
Definition Spread_preScoreStateKey : string := "PreScorePodTopologySpread".

Definition systemDefaultConstraints : list TopologySpreadConstraint :=
  [mkTopologySpreadConstraint 3 LabelHostname ScheduleAnyway None;
   mkTopologySpreadConstraint 5 LabelTopologyZone ScheduleAnyway None].

(** ** Constraints (common.go) *)

Fixpoint filterTopologySpreadConstraints (constraints : list TopologySpreadConstraint) (action : string)
  : list topologySpreadConstraint + SelError :=
  match constraints with
  | [] => inl []
  | c :: constraints =>
      if String.eqb (tsc_WhenUnsatisfiable c) action then
        match LabelSelectorAsSelector (tsc_LabelSelector c) with
        | inr e => inr e
        | inl selector =>
            match filterTopologySpreadConstraints constraints action with
            | inr e => inr e
            | inl l => inl (mkSpreadConstraint (tsc_MaxSkew c) (tsc_TopologyKey c) selector :: l)
            end
        end
      else filterTopologySpreadConstraints constraints action
  end.

Definition nodeLabelsMatchSpreadConstraints (nodeLabels : gmap string string)
    (constraints : list topologySpreadConstraint) : bool :=
  forallb (fun c => Set_Has nodeLabels (sc_TopologyKey c)) constraints.

(** Pods that are being deleted, and pods of other namespaces, do not count. *)
Definition spread_counts (selector : Selector) (ns : string) (p : Pod) : bool :=
  match DeletionTimestamp p with
  | Some _ => false
  | None => String.eqb (Namespace p) ns && Sel_Matches selector (Labels p)
  end.

Definition countPodsMatchSelector (podInfos : list PodInfo) (selector : Selector) (ns : string) : Z :=
  Z.of_nat (length (List.filter (fun p => spread_counts selector ns (pi_Pod p)) podInfos)).

(** The plugin.  The selector that [helper.DefaultSelector] deduces for a pod
    from the services and controllers of the cluster is a field. *)
Record PodTopologySpread := mkPodTopologySpread {
  defaultConstraints : list TopologySpreadConstraint;
  DefaultSelector : Pod -> Selector
}.

Definition buildDefaultConstraints (pl : PodTopologySpread) (p : Pod) (action : string)
  : list topologySpreadConstraint + SelError :=
  match filterTopologySpreadConstraints (defaultConstraints pl) action with
  | inr e => inr e
  | inl [] => inl []
  | inl constraints =>
      let selector := DefaultSelector pl p in
      if Sel_Empty selector then inl []
      else inl (map (fun c => mkSpreadConstraint (sc_MaxSkew c) (sc_TopologyKey c) selector) constraints)
  end.

(** The constraints of a pod, or those that the plugin has for pods without. *)
Definition pod_constraints (pl : PodTopologySpread) (pod : Pod) (action : string) : list topologySpreadConstraint + SelError :=
  if (0 <? length (TopologySpreadConstraints (Spec pod)))%nat
  then filterTopologySpreadConstraints (TopologySpreadConstraints (Spec pod)) action
  else buildDefaultConstraints pl pod action.

(** ** Critical paths *)

Definition newCriticalPaths : criticalPaths := mkCriticalPaths (""%string, MaxInt32) (""%string, MaxInt32).

Definition cp_update (p : criticalPaths) (tpVal : string) (num : Z) : criticalPaths :=
  let order p := if (cp1 p).2 <? (cp0 p).2 then mkCriticalPaths (cp1 p) (cp0 p) else p in
  if String.eqb tpVal (cp0 p).1 then order (mkCriticalPaths ((cp0 p).1, num) (cp1 p))
  else if String.eqb tpVal (cp1 p).1 then order (mkCriticalPaths (cp0 p) ((cp1 p).1, num))
  else if num <? (cp0 p).2 then mkCriticalPaths (tpVal, num) (cp0 p)
  else if num <? (cp1 p).2 then mkCriticalPaths (cp0 p) (tpVal, num)
  else p.

(** ** Filtering *)

(** One round of the loop of [updateWithPod]: the count of the pair is
    dereferenced, and the critical paths of its key. *)
Definition spread_step (updatedPod : Pod) (node : Node) (delta : Z) (s : Spread_preFilterState) (c : topologySpreadConstraint)
  : outcome Spread_preFilterState :=
  if negb (Sel_Matches (sc_Selector c) (Labels updatedPod)) then Ret s
  else
    let k := sc_TopologyKey c in
    let v := label (node_Labels node) k in
    match TpPairToMatchNum s !! (k, v) with
    | None => Panic nil_panic
    | Some n =>
        let n := int32 (n + delta) in
        match TpKeyToCriticalPaths s !! k with
        | None => Panic nil_panic
        | Some paths =>
            Ret (mkSpreadState (sps_Constraints s) (<[k := cp_update paths v n]> (TpKeyToCriticalPaths s))
                   (<[(k, v) := n]> (TpPairToMatchNum s)))
        end
    end.

Definition Spread_updateWithPod (s : Spread_preFilterState) (updatedPod preemptorPod : Pod) (node : option Node) (delta : Z)
  : outcome Spread_preFilterState :=
  if negb (String.eqb (Namespace updatedPod) (Namespace preemptorPod)) then Ret s
  else
    match node with
    | None => Ret s
    | Some node =>
        if negb (nodeLabelsMatchSpreadConstraints (node_Labels node) (sps_Constraints s)) then Ret s
        else ofold (spread_step updatedPod node delta) (sps_Constraints s) s
    end.

(** [preFilterState.Clone] *)
Definition Spread_Clone (s : Spread_preFilterState) : Spread_preFilterState :=
  mkSpreadState (sps_Constraints s)
    (fold_left (fun m e => <[e.1 := mkCriticalPaths (cp0 e.2) (cp1 e.2)]> m) (map_to_list (TpKeyToCriticalPaths s)) ∅)
    (fold_left (fun m e => <[e.1 := e.2]> m) (map_to_list (TpPairToMatchNum s)) ∅).

Section filtering.
Context {mr : MapRange}.

(** The nodes whose domains take part: they pass the pod's node selector and
    have all topology keys. *)
Definition spread_eligible (pod : Pod) (constraints : list topologySpreadConstraint) (node : Node) : bool :=
  (RNA_Match (GetRequiredNodeAffinity pod) node).1 && nodeLabelsMatchSpreadConstraints (node_Labels node) constraints.

Definition pair_of (node : Node) (c : topologySpreadConstraint) : topologyPair :=
  (sc_TopologyKey c, label (node_Labels node) (sc_TopologyKey c)).

(** The domains, each with a count of zero. *)
Definition spread_domains (pod : Pod) (constraints : list topologySpreadConstraint) (allNodes : list NodeInfo)
  : gmap topologyPair Z :=
  fold_left (fun m n =>
    match ni_node n with
    | None => m
    | Some node =>
        if spread_eligible pod constraints node
        then fold_left (fun m c => <[pair_of node c := 0]> m) constraints m
        else m
    end) allNodes ∅.

(** [processNode]: the pods of a node are added to the domains it is in. *)
Definition spread_count_node (pod : Pod) (constraints : list topologySpreadConstraint) (m : gmap topologyPair Z)
    (nodeInfo : NodeInfo) : outcome (gmap topologyPair Z) :=
  match ni_node nodeInfo with
  | None => Panic nil_panic
  | Some node =>
      Ret (fold_left (fun m c =>
        let pair := pair_of node c in
        match m !! pair with
        | None => m
        | Some n =>
            <[pair := int32 (n + int32 (countPodsMatchSelector (Pods nodeInfo) (sc_Selector c) (Namespace pod)))]> m
        end) constraints m)
  end.

(** [calPreFilterState] *)
Definition calPreFilterState (pl : PodTopologySpread) (snap : Snapshot) (pod : Pod)
  : outcome (Spread_preFilterState + SelError) :=
  match pod_constraints pl pod DoNotSchedule with
  | inr e => Ret (inr e)
  | inl [] => Ret (inl (mkSpreadState [] ∅ ∅))
  | inl constraints =>
      let allNodes := SN_List snap in
      let! counts := ofold (spread_count_node pod constraints) (range 0 allNodes)
                       (spread_domains pod constraints allNodes) in
      let paths := fold_left (fun m c => <[sc_TopologyKey c := newCriticalPaths]> m) constraints ∅ in
      let! paths := ofold (fun (m : gmap string criticalPaths) (e : topologyPair * Z) =>
          match m !! e.1.1 with
          | None => Panic nil_panic
          | Some p => Ret (<[e.1.1 := cp_update p e.1.2 e.2]> m)
          end) (range 1 (map_to_list counts)) paths in
      Ret (inl (mkSpreadState constraints paths counts))
  end.

(** How the error of a selector reads. *)
Context (selector_message : SelError -> string).

Definition Spread_PreFilter (pl : PodTopologySpread) (snap : Snapshot) (cs : CycleState) (pod : Pod)
  : outcome (CycleState * StatusPtr) :=
  let! r := calPreFilterState pl snap pod in
  Ret (match r with
       | inr e =>
           let what := if (0 <? length (TopologySpreadConstraints (Spec pod)))%nat
                       then "obtaining pod's hard topology spread constraints: "%string
                       else "setting default hard topology spread constraints: "%string in
           (cs, Some (AsStatus (str_app what (selector_message e))))
       | inl s => (CS_Write cs Spread_preFilterStateKey (SD_Spread s), None)
       end).

Definition Spread_getPreFilterState (cs : CycleState) : Spread_preFilterState + string :=
  match CS_Read cs Spread_preFilterStateKey with
  | inr e => inr (wrap_q "reading " Spread_preFilterStateKey " from cycleState" (Some e))
  | inl (SD_Spread s) => inl s
  | inl _ => inr "convert to podtopologyspread.preFilterState error"%string
  end.

(** [AddPod] and [RemovePod] *)
Definition Spread_change (delta : Z) (cs : CycleState) (podToSchedule : Pod) (podInfo : PodInfo) (nodeInfo : NodeInfo)
  : outcome (CycleState * StatusPtr) :=
  match Spread_getPreFilterState cs with
  | inr e => Ret (cs, Some (AsStatus e))
  | inl s =>
      let! s := Spread_updateWithPod s (pi_Pod podInfo) podToSchedule (ni_node nodeInfo) delta in
      Ret (CS_Write cs Spread_preFilterStateKey (SD_Spread s), None)
  end.

Definition Spread_AddPod := Spread_change 1.
Definition Spread_RemovePod := Spread_change (-1).

(** The loop of [Filter]. *)
Fixpoint spread_check (s : Spread_preFilterState) (pod : Pod) (node : Node) (constraints : list topologySpreadConstraint)
  : StatusPtr :=
  match constraints with
  | [] => None
  | c :: constraints =>
      let tpKey := sc_TopologyKey c in
      match node_Labels node !! tpKey with
      | None => Some (NewStatus UnschedulableAndUnresolvable [ErrReasonNodeLabelNotMatch])
      | Some tpVal =>
          let selfMatchNum := if Sel_Matches (sc_Selector c) (Labels pod) then 1 else 0 in
          match TpKeyToCriticalPaths s !! tpKey with
          | None => spread_check s pod node constraints
          | Some paths =>
              let minMatchNum := (cp0 paths).2 in
              let matchNum := default 0 (TpPairToMatchNum s !! (tpKey, tpVal)) in
              let skew := int32 (int32 (matchNum + selfMatchNum) - minMatchNum) in
              if sc_MaxSkew c <? skew then Some (NewStatus Unschedulable [ErrReasonConstraintsNotMatch])
              else spread_check s pod node constraints
          end
      end
  end.

Definition Spread_Filter (cs : CycleState) (pod : Pod) (nodeInfo : NodeInfo) : StatusPtr :=
  match ni_node nodeInfo with
  | None => Some (AsStatus "node not found")
  | Some node =>
      match Spread_getPreFilterState cs with
      | inr e => Some (AsStatus e)
      | inl s => spread_check s pod node (sps_Constraints s)
      end
  end.
End filtering.
