(* ===== verification/SpreadProofs.v ===== *)
(** * Correctness of PodTopologySpread

    The two critical paths that the plugin keeps per topology key always
    give the exact minimum of the counts, also after any number of updates
    on one node; the counts are the numbers of matching pods; and so the
    filter decides the skew of the constraints, with the same verdicts after
    [AddPod] and [RemovePod] as from a fresh state. *)

From S2P Require Import Prelude GoInt GoFloat GoFloatBound GoStrconv Quantity ApiTypes Labels NodeAffinity AffinityTerms Resource HostPorts NodeInfo Samples Json Framework Snapshot SchedulingQueue Runtime NodePlugins PodTopologySpread.

(** ** Critical paths *)

(** The counts of one topology key, by topology value. *)
Abbreviation counts_of_key := (string -> option Z).

Definition upd (E : counts_of_key) (v : string) (n : Z) : counts_of_key := fun w => if String.eqb w v then Some n else E w.

(** [m] is the least count; with no domain it is the initial value. *)
Definition least (E : counts_of_key) (m : Z) : Prop :=
  (forall v n, E v = Some n -> m <= n) /\ ((m = MaxInt32 /\ forall v, E v = None) \/ exists v, E v = Some m).

Lemma least_unique E m m' : least E m -> least E m' -> m = m'.
Proof.
  intros [H1 [[-> H2]|[v Hv]]] [H1' [[-> H2']|[v' Hv']]]; try done.
  - by rewrite H2 in Hv'.
  - by rewrite H2' in Hv.
  - specialize (H1 v' _ Hv'). specialize (H1' v _ Hv). lia.
Qed.

(** An entry of the paths is the placeholder or holds the count of its value. *)
Definition placeholder : string * Z := (""%string, MaxInt32).
Definition tracked (E : counts_of_key) (x : string * Z) : Prop := x = placeholder \/ E x.1 = Some x.2.

(** What holds besides: [v0] is the value under which updates come.  A value
    that is not kept in the paths has a count no smaller than the second
    path, or than the path that is not [v0]'s. *)
Record paths_inv (v0 : string) (E : counts_of_key) (p : criticalPaths) : Prop := {
  pi_order : (cp0 p).2 <= (cp1 p).2;
  pi_t0 : tracked E (cp0 p);
  pi_t1 : tracked E (cp1 p);
  pi_ne : (cp0 p).1 <> (cp1 p).1 \/ cp1 p = placeholder;
  pi_small : forall v n, E v = Some n -> n < MaxInt32;
  pi_v0 : forall n, E v0 = Some n -> (v0, n) = cp0 p \/ (v0, n) = cp1 p \/
    (v0 <> (cp0 p).1 /\ v0 <> (cp1 p).1 /\ (cp1 p).2 <= n);
  pi_rest : forall v n, E v = Some n -> v <> v0 -> (v, n) = cp0 p \/ (v, n) = cp1 p \/
    (if String.eqb v0 (cp0 p).1 then (cp1 p).2 else if String.eqb v0 (cp1 p).1 then (cp0 p).2 else (cp1 p).2) <= n
}.

Lemma paths_least v0 E p : paths_inv v0 E p -> least E (cp0 p).2.
Proof.
  intros [Ho T0 T1 Hne Hs H0 Hr]. assert (forall v n, E v = Some n -> (cp0 p).2 <= n) as Hmin.
  { intros v n Hv. destruct (decide (v = v0)) as [-> |Hd].
    - destruct (H0 n Hv) as [H|[H|(_ & _ & ?)]]; try (apply (f_equal snd) in H; simpl in H); lia.
    - destruct (Hr v n Hv Hd) as [H|[H|H]]; [apply (f_equal snd) in H; simpl in H; lia..|].
      destruct (String.eqb v0 (cp0 p).1); [lia|]. destruct (String.eqb v0 (cp1 p).1); lia. }
  split; [done|]. destruct T0 as [T0|T0]; [|right; by eexists].
  destruct (cp0 p) as [x m]. injection T0 as -> ->. left. split; [done|]. intros v. destruct (E v) as [n|] eqn:Hv; [|done].
  specialize (Hmin v n Hv). specialize (Hs v n Hv). simpl in Hmin. lia.
Qed.

Lemma tracked_upd E x v n : tracked E x -> x.1 <> v -> tracked (upd E v n) x.
Proof.
  intros [-> |H] Hne; [by left|right]. unfold upd. by rewrite (proj2 (String.eqb_neq _ _) Hne).
Qed.

Lemma upd_eq E v n : upd E v n v = Some n.
Proof. unfold upd. by rewrite String.eqb_refl. Qed.
Lemma upd_ne E v n w : w <> v -> upd E v n w = E w.
Proof. intros H. unfold upd. by rewrite (proj2 (String.eqb_neq _ _) H). Qed.

Lemma tracked_small E x : (forall v n, E v = Some n -> n < MaxInt32) -> tracked E x ->
  x = placeholder \/ (E x.1 = Some x.2 /\ x.2 < MaxInt32).
Proof. intros Hs [-> |H]; [by left|right]. split; [done|]. by eapply Hs. Qed.

(** An update under [v0] keeps the invariant. *)
Lemma cp_update_inv v0 E p n : paths_inv v0 E p -> n < MaxInt32 -> paths_inv v0 (upd E v0 n) (cp_update p v0 n).
Proof.
  intros [Ho T0 T1 Hne Hs H0 Hr] Hn.
  assert (forall v m, upd E v0 n v = Some m -> m < MaxInt32) as Hs'.
  { intros v m. unfold upd. destruct (String.eqb v v0); [by intros [= <-]|apply Hs]. }
  assert (forall v m, upd E v0 n v = Some m -> v <> v0 -> E v = Some m) as Hold.
  { intros v m Hv Hd. by rewrite upd_ne in Hv. }
  destruct p as [[a x] [b y]]. unfold cp_update. cbn [cp0 cp1 fst snd] in *.
  destruct (String.eqb_spec v0 a) as [<- |Ha].
  { (* the first path *)
    destruct (Z.ltb_spec y n) as [Hsw|Hsw].
    - assert (v0 <> b) as Hb. { destruct Hne as [|[= -> ->]]; [done|]. lia. }
      constructor; cbn [cp0 cp1 fst snd]; [lia| | |left; congruence|done| |].
      + by apply tracked_upd; [|simpl; congruence].
      + right. apply upd_eq.
      + intros m Hm. rewrite upd_eq in Hm. injection Hm as <-. right. by left.
      + intros v m Hv Hd. rewrite (proj2 (String.eqb_neq v0 b) Hb), String.eqb_refl.
        destruct (Hr v m (Hold v m Hv Hd) Hd) as [[= -> ->]|[H|H]]; [done|by left|].
        right. right. done.
    - constructor; cbn [cp0 cp1 fst snd]; [lia|right; apply upd_eq| |done|done| |].
      + destruct Hne as [Hne|Hne]; [|by left]. apply tracked_upd; [done|simpl; congruence].
      + intros m Hm. rewrite upd_eq in Hm. injection Hm as <-. by left.
      + intros v m Hv Hd. rewrite String.eqb_refl.
        destruct (Hr v m (Hold v m Hv Hd) Hd) as [[= -> ->]|[H|H]]; [done|right; by left|right; right; done]. }
  destruct (String.eqb_spec v0 b) as [<- |Hb].
  { (* the second path *)
    destruct (Z.ltb_spec n x) as [Hsw|Hsw].
    - constructor; cbn [cp0 cp1 fst snd]; [lia|right; apply upd_eq| |left; congruence|done| |].
      + by apply tracked_upd; [|simpl; congruence].
      + intros m Hm. rewrite upd_eq in Hm. injection Hm as <-. by left.
      + intros v m Hv Hd. rewrite String.eqb_refl.
        destruct (Hr v m (Hold v m Hv Hd) Hd) as [H|[[= -> ->]|H]]; [right; by left|done|right; right; done].
    - constructor; cbn [cp0 cp1 fst snd]; [lia| |right; apply upd_eq|left; congruence|done| |].
      + by apply tracked_upd; [|simpl; congruence].
      + intros m Hm. rewrite upd_eq in Hm. injection Hm as <-. right. by left.
      + intros v m Hv Hd. rewrite (proj2 (String.eqb_neq v0 a) Ha), String.eqb_refl.
        destruct (Hr v m (Hold v m Hv Hd) Hd) as [H|[[= -> ->]|H]]; [by left|done|right; right; done]. }
  (* not kept so far *)
  destruct (Z.ltb_spec n x) as [Hx|Hx].
  { constructor; cbn [cp0 cp1 fst snd]; [lia|right; apply upd_eq| |by left|done| |].
    - by apply tracked_upd; [|simpl; congruence].
    - intros m Hm. rewrite upd_eq in Hm. injection Hm as <-. by left.
    - intros v m Hv Hd. rewrite String.eqb_refl.
      destruct (Hr v m (Hold v m Hv Hd) Hd) as [H|[[= -> ->]|H]]; [right; by left|right; right; lia|right; right; lia]. }
  destruct (Z.ltb_spec n y) as [Hy|Hy].
  { constructor; cbn [cp0 cp1 fst snd]; [lia| |right; apply upd_eq|left; congruence|done| |].
    - by apply tracked_upd; [|simpl; congruence].
    - intros m Hm. rewrite upd_eq in Hm. injection Hm as <-. right. by left.
    - intros v m Hv Hd. rewrite (proj2 (String.eqb_neq v0 a) Ha), String.eqb_refl.
      destruct (Hr v m (Hold v m Hv Hd) Hd) as [H|[[= -> ->]|H]]; [by left|right; right; lia|right; right; lia]. }
  constructor; cbn [cp0 cp1 fst snd]; [lia| | |done|done| |].
  - by apply tracked_upd; [|simpl; congruence].
  - by apply tracked_upd; [|simpl; congruence].
  - intros m Hm. rewrite upd_eq in Hm. injection Hm as <-. right. right. by split_and!.
  - intros v m Hv Hd. rewrite (proj2 (String.eqb_neq v0 a) Ha), (proj2 (String.eqb_neq v0 b) Hb).
    apply (Hr v m (Hold v m Hv Hd) Hd).
Qed.

(** Paths that were built from scratch: what they do not keep is no smaller
    than the second path. *)
Record paths_fresh (E : counts_of_key) (p : criticalPaths) : Prop := {
  pf_order : (cp0 p).2 <= (cp1 p).2;
  pf_t0 : tracked E (cp0 p);
  pf_t1 : tracked E (cp1 p);
  pf_ne : (cp0 p).1 <> (cp1 p).1 \/ cp1 p = placeholder;
  pf_small : forall v n, E v = Some n -> n < MaxInt32;
  pf_rest : forall v n, E v = Some n -> (v, n) = cp0 p \/ (v, n) = cp1 p \/ (cp1 p).2 <= n
}.

Lemma fresh_inv E p v0 : paths_fresh E p -> paths_inv v0 E p.
Proof.
  intros [Ho T0 T1 Hne Hs Hr]. constructor; try done.
  - intros n Hn. destruct (Hr v0 n Hn) as [H|[H|H]]; [by left|right; by left|].
    pose proof (Hs v0 n Hn) as Hb.
    destruct (decide (v0 = (cp0 p).1)) as [E0|E0].
    { destruct T0 as [T0|T0]; [rewrite T0 in Ho; simpl in Ho; lia|].
      rewrite <- E0, Hn in T0. injection T0 as T0. left. destruct (cp0 p); simpl in *; congruence. }
    destruct (decide (v0 = (cp1 p).1)) as [E1|E1].
    { destruct T1 as [T1|T1]; [rewrite T1 in H; simpl in H; lia|].
      rewrite <- E1, Hn in T1. injection T1 as T1. right. left. destruct (cp1 p); simpl in *; congruence. }
    right. right. by split_and!.
  - intros v n Hv Hd. destruct (Hr v n Hv) as [H|[H|H]]; [by left|right; by left|]. right. right.
    destruct (String.eqb v0 (cp0 p).1); [done|]. destruct (String.eqb v0 (cp1 p).1); lia.
Qed.

(** A value is entered for the first time. *)
Lemma cp_insert_fresh E p v n : paths_fresh E p -> E v = None -> n < MaxInt32 -> paths_fresh (upd E v n) (cp_update p v n).
Proof.
  intros [Ho T0 T1 Hne Hs Hr] Hv Hn.
  assert (forall w m, upd E v n w = Some m -> m < MaxInt32) as Hs'.
  { intros w m. unfold upd. destruct (String.eqb w v); [by intros [= <-]|apply Hs]. }
  assert (forall w m, upd E v n w = Some m -> (w = v /\ m = n) \/ (w <> v /\ E w = Some m)) as Hold.
  { intros w m. unfold upd. destruct (String.eqb_spec w v); [intros [= <-]; by left|by right]. }
  destruct p as [[a x] [b y]]. unfold cp_update. cbn [cp0 cp1 fst snd] in *.
  destruct (String.eqb_spec v a) as [<- |Ha].
  { destruct T0 as [[= -> ->]|T0]; [|simpl in T0; congruence].
    assert ((b, y) = placeholder) as [= -> ->].
    { destruct (tracked_small E (b, y) Hs T1) as [|[_ H]]; [done|]. simpl in H. lia. }
    rewrite (proj2 (Z.ltb_ge MaxInt32 n)) by lia.
    constructor; cbn [cp0 cp1 fst snd]; [lia|right; apply upd_eq|by left|by right|done|].
    intros w m [[-> ->]|[Hw Hm]]%Hold; [by left|]. right. right. pose proof (Hs w m Hm) as Hb0.
    destruct (Hr w m Hm) as [[= -> ->]|[[= -> ->]|H]]; lia. }
  destruct (String.eqb_spec v b) as [<- |Hb].
  { destruct T1 as [[= -> ->]|T1]; [|simpl in T1; congruence].
    assert (forall w m, E w = Some m -> (w, m) = (a, x)) as Honly.
    { intros w m Hm. pose proof (Hs w m Hm) as Hb0. destruct (Hr w m Hm) as [H|[[= -> ->]|H]]; [done|lia|lia]. }
    destruct (Z.ltb_spec n x) as [Hx|Hx].
    - constructor; cbn [cp0 cp1 fst snd]; [lia|right; apply upd_eq| |left; congruence|done|].
      + by apply tracked_upd; [|simpl; congruence].
      + intros w m [[-> ->]|[Hw Hm]]%Hold; [by left|]. right. left. by apply Honly.
    - constructor; cbn [cp0 cp1 fst snd]; [lia| |right; apply upd_eq|left; congruence|done|].
      + by apply tracked_upd; [|simpl; congruence].
      + intros w m [[-> ->]|[Hw Hm]]%Hold; [right; by left|]. left. by apply Honly. }
  destruct (Z.ltb_spec n x) as [Hx|Hx].
  { constructor; cbn [cp0 cp1 fst snd]; [lia|right; apply upd_eq| |by left|done|].
    - by apply tracked_upd; [|simpl; congruence].
    - intros w m [[-> ->]|[Hw Hm]]%Hold; [by left|].
      destruct (Hr w m Hm) as [H|[[= -> ->]|H]]; [right; by left|right; right; lia|right; right; lia]. }
  destruct (Z.ltb_spec n y) as [Hy|Hy].
  { constructor; cbn [cp0 cp1 fst snd]; [lia| |right; apply upd_eq|left; congruence|done|].
    - by apply tracked_upd; [|simpl; congruence].
    - intros w m [[-> ->]|[Hw Hm]]%Hold; [right; by left|].
      destruct (Hr w m Hm) as [H|[[= -> ->]|H]]; [by left|right; right; lia|right; right; lia]. }
  constructor; cbn [cp0 cp1 fst snd]; [lia| | |done|done|].
  - by apply tracked_upd; [|simpl; congruence].
  - by apply tracked_upd; [|simpl; congruence].
  - intros w m [[-> ->]|[Hw Hm]]%Hold; [right; by right|]. by apply Hr.
Qed.

Lemma fresh_empty : paths_fresh (fun _ => None) newCriticalPaths.
Proof. by constructor; [done|left|left|right| |]. Qed.

(** ** The counts *)

Section counts.
Context {mr : MapRange} (pl : PodTopologySpread) (pod : Pod) (constraints : list topologySpreadConstraint).

(** The pods of a node that count for a pair. *)
Definition node_count (ni : NodeInfo) (x : topologyPair) : Z :=
  match ni_node ni with
  | None => 0
  | Some node =>
      Zsum (map (fun c => if bool_decide (pair_of node c = x)
                          then countPodsMatchSelector (Pods ni) (sc_Selector c) (Namespace pod) else 0) constraints)
  end.

Definition cluster_count (nodes : list NodeInfo) (x : topologyPair) : Z := Zsum (map (fun ni => node_count ni x) nodes).

Lemma countPods_nonneg pods sel ns : 0 <= countPodsMatchSelector pods sel ns.
Proof. unfold countPodsMatchSelector. lia. Qed.

Lemma Zsum_nonneg {A} (f : A -> Z) l : (forall x, x ∈ l -> 0 <= f x) -> 0 <= Zsum (map f l).
Proof.
  intros H. induction l as [|x l IH]; unfold Zsum in *; simpl; [lia|].
  assert (0 <= f x) by (apply H; by left). assert (0 <= foldr Z.add 0 (map f l)) by (apply IH; intros; apply H; by right). lia.
Qed.

Lemma node_count_nonneg ni x : 0 <= node_count ni x.
Proof.
  unfold node_count. destruct (ni_node ni); [|lia]. apply Zsum_nonneg. intros c _.
  case_bool_decide; [apply countPods_nonneg|lia].
Qed.

Lemma cluster_count_nonneg nodes x : 0 <= cluster_count nodes x.
Proof. apply Zsum_nonneg. intros. apply node_count_nonneg. Qed.

(** No count comes near the limit of 32 bits. *)
Definition counts_small (nodes : list NodeInfo) : Prop := forall x, cluster_count nodes x < MaxInt32 - 1.

(** The pods of the cluster, times the constraints, bound all counts. *)
Lemma cluster_count_bound nodes x :
  cluster_count nodes x <= Z.of_nat (length constraints) * Zsum (map (fun ni => Z.of_nat (length (Pods ni))) nodes).
Proof.
  unfold cluster_count. induction nodes as [|ni nodes IH]; [unfold Zsum; simpl; lia|].
  cbn [map]. change (Zsum (?a :: ?l)) with (a + Zsum l).
  assert (node_count ni x <= Z.of_nat (length constraints) * Z.of_nat (length (Pods ni))) as Hn; [|lia].
  unfold node_count. destruct (ni_node ni) as [node|]; [|lia]. clear IH.
  induction constraints as [|c cs IHc]; [done|]. cbn [map length]. change (Zsum (?a :: ?l)) with (a + Zsum l).
  assert ((if bool_decide (pair_of node c = x) then countPodsMatchSelector (Pods ni) (sc_Selector c) (Namespace pod) else 0)
    <= Z.of_nat (length (Pods ni))); [|lia].
  unfold countPodsMatchSelector.
  pose proof (List.filter_length_le (fun p => spread_counts (sc_Selector c) (Namespace pod) (pi_Pod p)) (Pods ni)).
  case_bool_decide; lia.
Qed.

Lemma counts_small_intro nodes :
  Z.of_nat (length constraints) * Zsum (map (fun ni => Z.of_nat (length (Pods ni))) nodes) < MaxInt32 - 1 ->
  counts_small nodes.
Proof. intros H x. pose proof (cluster_count_bound nodes x). lia. Qed.

Definition add_counts (g : topologyPair -> Z) (m : gmap topologyPair Z) : gmap topologyPair Z :=
  map_imap (fun x n => Some (n + g x)) m.

Lemma lookup_add_counts g m x : add_counts g m !! x = (fun n => n + g x) <$> m !! x.
Proof. unfold add_counts. rewrite map_lookup_imap. by destruct (m !! x). Qed.

Lemma add_counts_add g h m : add_counts h (add_counts g m) = add_counts (fun x => g x + h x) m.
Proof. apply map_eq. intros x. rewrite !lookup_add_counts. destruct (m !! x); simpl; f_equal; lia. Qed.

Lemma add_counts_ext g h m : (forall x, g x = h x) -> add_counts g m = add_counts h m.
Proof. intros H. apply map_eq. intros x. rewrite !lookup_add_counts. destruct (m !! x); simpl; by rewrite ?H. Qed.

Lemma add_counts_0 m : add_counts (fun _ => 0) m = m.
Proof. apply map_eq. intros x. rewrite lookup_add_counts. destruct (m !! x); simpl; f_equal; lia. Qed.

Lemma constraint_fold ni node cs m :
  (forall x n, m !! x = Some n -> 0 <= n /\
     n + Zsum (map (fun c => if bool_decide (pair_of node c = x)
        then countPodsMatchSelector (Pods ni) (sc_Selector c) (Namespace pod) else 0) cs) < MaxInt32) ->
  fold_left (fun m c =>
      let pair := pair_of node c in
      match m !! pair with
      | None => m
      | Some n => <[pair := int32 (n + int32 (countPodsMatchSelector (Pods ni) (sc_Selector c) (Namespace pod)))]> m
      end) cs m
  = add_counts (fun x => Zsum (map (fun c => if bool_decide (pair_of node c = x)
        then countPodsMatchSelector (Pods ni) (sc_Selector c) (Namespace pod) else 0) cs)) m.
Proof.
  revert m. induction cs as [|c cs IH]; intros m Hb; cbn [fold_left map]; [by rewrite add_counts_0|].
  set (k := countPodsMatchSelector (Pods ni) (sc_Selector c) (Namespace pod)).
  assert (forall x, 0 <= Zsum (map (fun c => if bool_decide (pair_of node c = x)
    then countPodsMatchSelector (Pods ni) (sc_Selector c) (Namespace pod) else 0) cs)) as Hnn.
  { intros x. apply Zsum_nonneg. intros d _. case_bool_decide; [apply countPods_nonneg|lia]. }
  match goal with |- fold_left _ cs ?e = _ =>
    assert (e = add_counts (fun x => if bool_decide (pair_of node c = x) then k else 0) m) as -> end.
  { apply map_eq. intros x. rewrite lookup_add_counts. cbv zeta beta. fold k.
    destruct (m !! pair_of node c) as [n|] eqn:E.
    - destruct (Hb _ _ E) as [Hn0 Hn]. unfold Zsum in Hn. simpl in Hn. rewrite bool_decide_true in Hn by done. fold k in Hn.
      pose proof (Hnn (pair_of node c)) as Hnn'. unfold Zsum in Hnn'.
      pose proof (countPods_nonneg (Pods ni) (sc_Selector c) (Namespace pod)) as Hk. fold k in Hk.
      rewrite (int32_id k) by (int_unfold; lia). rewrite int32_id by (int_unfold; lia).
      case_bool_decide as Hx; [subst x; by rewrite lookup_insert_eq, E|].
      rewrite lookup_insert_ne by done. destruct (m !! x); simpl; f_equal; lia.
    - case_bool_decide as Hx; [subst x; by rewrite E|]. destruct (m !! x); simpl; f_equal; lia. }
  rewrite IH.
  - rewrite add_counts_add. apply add_counts_ext. intros x. unfold Zsum. simpl. done.
  - intros x n Hx. rewrite lookup_add_counts in Hx. destruct (m !! x) as [n0|] eqn:E; [|done]. injection Hx as <-.
    destruct (Hb x n0 E) as [H0 H1]. unfold Zsum in *. simpl in H1. fold k in H1.
    pose proof (countPods_nonneg (Pods ni) (sc_Selector c) (Namespace pod)) as Hk. fold k in Hk.
    case_bool_decide; lia.
Qed.

(** The loop over the nodes adds, to every domain, the pods that count. *)
Lemma count_nodes nodes m :
  (forall ni, ni ∈ nodes -> is_Some (ni_node ni)) ->
  (forall x n, m !! x = Some n -> 0 <= n /\ n + cluster_count nodes x < MaxInt32) ->
  ofold (spread_count_node pod constraints) nodes m = Ret (add_counts (cluster_count nodes) m).
Proof.
  revert m. induction nodes as [|ni nodes IH]; intros m Hobj Hb; cbn [ofold].
  { f_equal. symmetry. apply add_counts_0. }
  destruct (Hobj ni ltac:(left)) as [node Hn]. unfold spread_count_node at 1. rewrite Hn. cbn [obind].
  assert (forall x, node_count ni x = Zsum (map (fun c => if bool_decide (pair_of node c = x)
      then countPodsMatchSelector (Pods ni) (sc_Selector c) (Namespace pod) else 0) constraints)) as Hnc
    by (intros x; unfold node_count; by rewrite Hn).
  rewrite constraint_fold.
  - rewrite (add_counts_ext _ (node_count ni)) by (intros x; by rewrite Hnc). rewrite IH.
    + rewrite add_counts_add. f_equal.
    + intros ni' Hni'. apply Hobj. by right.
    + intros x n Hx. rewrite lookup_add_counts in Hx. destruct (m !! x) as [n0|] eqn:E; [|done]. injection Hx as <-.
      destruct (Hb x n0 E) as [H0 H1]. pose proof (node_count_nonneg ni x).
      unfold cluster_count, Zsum in *. simpl in H1. lia.
  - intros x n Hx. destruct (Hb x n Hx) as [H0 H1]. rewrite <- Hnc. split; [done|].
    pose proof (cluster_count_nonneg nodes x). unfold cluster_count, Zsum in *. simpl in H1. lia.
Qed.

Lemma cluster_count_perm nodes nodes' x : nodes ≡ₚ nodes' -> cluster_count nodes x = cluster_count nodes' x.
Proof. intros H. apply Zsum_perm. by rewrite H. Qed.
End counts.

(** ** The state of [PreFilter] *)

Lemma paths_fresh_ext E E' p : (forall v, E v = E' v) -> paths_fresh E p -> paths_fresh E' p.
Proof.
  intros H [Ho T0 T1 Hne Hs Hr]. unfold tracked in *. constructor; try done; unfold tracked; setoid_rewrite <- H; done.
Qed.

Lemma paths_inv_ext v0 E E' p : (forall v, E v = E' v) -> paths_inv v0 E p -> paths_inv v0 E' p.
Proof.
  intros H [Ho T0 T1 Hne Hs H0 Hr]. unfold tracked in *. constructor; try done; unfold tracked; setoid_rewrite <- H; done.
Qed.

(** The counts of a key in the map of all pairs. *)
Definition of_key (C : gmap topologyPair Z) (k : string) : counts_of_key := fun v => C !! (k, v).

Lemma of_key_insert C k v n w : upd (of_key C k) v n w = of_key (<[(k, v) := n]> C) k w.
Proof.
  unfold of_key, upd. destruct (String.eqb_spec w v) as [-> |Hne]; [by rewrite lookup_insert_eq|].
  rewrite lookup_insert_ne; [done|congruence].
Qed.

Lemma of_key_insert_ne C k k' v n w : k <> k' -> of_key (<[(k, v) := n]> C) k' w = of_key C k' w.
Proof. intros H. unfold of_key. apply lookup_insert_ne. congruence. Qed.

Definition path_step (m : gmap string criticalPaths) (e : topologyPair * Z) : outcome (gmap string criticalPaths) :=
  match m !! e.1.1 with
  | None => Panic nil_panic
  | Some p => Ret (<[e.1.1 := cp_update p e.1.2 e.2]> m)
  end.

Lemma paths_fold l C m :
  NoDup l.*1 -> (forall x n, (x, n) ∈ l -> C !! x = None /\ n < MaxInt32 /\ is_Some (m !! x.1)) ->
  (forall k p, m !! k = Some p -> paths_fresh (of_key C k) p) ->
  exists m', ofold path_step l m = Ret m' /\ (forall k, is_Some (m' !! k) <-> is_Some (m !! k)) /\
    forall k p, m' !! k = Some p -> paths_fresh (of_key (list_to_map l ∪ C) k) p.
Proof.
  revert C m. induction l as [|[[k v] n] l IH]; intros C m Hnd Hl Hm; cbn [ofold].
  { exists m. split_and!; [done|done|]. intros k p Hk. simpl. rewrite (left_id_L ∅ (∪)). by apply Hm. }
  cbn [fmap list_fmap fst] in Hnd. apply NoDup_cons in Hnd as [Hx Hnd].
  destruct (Hl (k, v) n ltac:(left)) as (HC & Hn & [p Hp]). unfold path_step at 1. cbn [fst snd] in *. rewrite Hp. cbn [obind].
  destruct (IH (<[(k, v) := n]> C) (<[k := cp_update p v n]> m) Hnd) as (m' & Hf & Hdom & Hfresh).
  - intros x n' Hin. destruct (Hl x n') as (H1 & H2 & H3); [by right|]. split_and!; [|done|].
    + rewrite lookup_insert_ne; [done|]. intros <-. apply Hx. by apply (list_elem_of_fmap_2 fst) in Hin.
    + destruct (decide (k = x.1)) as [<- |Hne]; [by rewrite lookup_insert_eq|by rewrite lookup_insert_ne].
  - intros k' p' Hk'. destruct (decide (k = k')) as [<- |Hne].
    + rewrite lookup_insert_eq in Hk'. injection Hk' as <-.
      eapply paths_fresh_ext; [intros w; apply of_key_insert|]. apply cp_insert_fresh; [by apply Hm|done|done].
    + rewrite lookup_insert_ne in Hk' by done.
      eapply paths_fresh_ext; [intros w; symmetry; by apply of_key_insert_ne|]. by apply Hm.
  - exists m'. split_and!; [done| |].
    + intros k'. rewrite Hdom. destruct (decide (k = k')) as [<- |Hne];
        [rewrite lookup_insert_eq, Hp; split; by eexists|by rewrite lookup_insert_ne].
    + intros k' p' Hk'. specialize (Hfresh k' p' Hk'). cbn [list_to_map foldr].
      eapply paths_fresh_ext; [|exact Hfresh]. intros w. unfold of_key. cbn [uncurry fst snd].
      assert ((list_to_map l : gmap topologyPair Z) !! (k, v) = None) as Hl0 by (by apply not_elem_of_list_to_map_1).
      f_equal. apply map_eq. intros y. rewrite !lookup_union. destruct (decide (y = (k, v))) as [-> |Hy].
      * rewrite Hl0, !lookup_insert_eq. by destruct (C !! (k, v)).
      * rewrite !lookup_insert_ne by done. done.
Qed.

Section state.
Context {mr : MapRange} (pl : PodTopologySpread) (pod : Pod) (constraints : list topologySpreadConstraint).

Definition all_objects (nodes : list NodeInfo) : Prop := forall ni, ni ∈ nodes -> is_Some (ni_node ni).

Lemma domains_spec nodes x :
  let D := spread_domains pod constraints nodes in
  (forall n, D !! x = Some n -> n = 0) /\
  (is_Some (D !! x) <-> exists ni node c, ni ∈ nodes /\ ni_node ni = Some node /\
     spread_eligible pod constraints node = true /\ c ∈ constraints /\ pair_of node c = x).
Proof.
  cbv zeta. unfold spread_domains. set (step := fun m n => _).
  cut (forall m : gmap topologyPair Z, (forall n, m !! x = Some n -> n = 0) ->
    (forall n, fold_left step nodes m !! x = Some n -> n = 0) /\
    (is_Some (fold_left step nodes m !! x) <-> is_Some (m !! x) \/ exists ni node c, ni ∈ nodes /\ ni_node ni = Some node /\
      spread_eligible pod constraints node = true /\ c ∈ constraints /\ pair_of node c = x)).
  { intros H. destruct (H ∅) as [H1 H2]; [by intros n; rewrite lookup_empty|]. split; [done|]. rewrite H2.
    rewrite lookup_empty. split; [by intros [[? ?]|?]|by right]. }
  assert (forall node cs (m : gmap topologyPair Z), (forall n, m !! x = Some n -> n = 0) ->
    (forall n, fold_left (fun m c => <[pair_of node c := 0]> m) cs m !! x = Some n -> n = 0) /\
    (is_Some (fold_left (fun (m : gmap topologyPair Z) c => <[pair_of node c := 0]> m) cs m !! x) <->
     is_Some (m !! x) \/ exists c, c ∈ cs /\ pair_of node c = x)) as Hinner.
  { intros node. induction cs as [|c cs IH]; intros m Hm; cbn [fold_left].
    { split; [done|]. split; [by left|]. intros [?|(c & ?%elem_of_nil & _)]; done. }
    assert (<[pair_of node c := 0]> m !! x = if bool_decide (pair_of node c = x) then Some 0 else m !! x) as Hx.
    { case_bool_decide as Hx; [subst x; apply lookup_insert_eq|by apply lookup_insert_ne]. }
    destruct (IH (<[pair_of node c := 0]> m)) as [H1 H2].
    { intros n. rewrite Hx. case_bool_decide; [by intros [= <-]|apply Hm]. }
    split; [done|]. rewrite H2, Hx. case_bool_decide as Hc.
    - split; [intros _; right; exists c; split; [by left|done]|left; by eexists].
    - split.
      + intros [?|(d & Hd & E)]; [by left|right; exists d; split; [by right|done]].
      + intros [?|(d & [-> |Hd]%elem_of_cons & E)]; [by left|done|right; by exists d]. }
  induction nodes as [|ni nodes IH]; intros m Hm; cbn [fold_left].
  { split; [done|]. split; [by left|]. intros [?|(ni & node & c & ?%elem_of_nil & _)]; done. }
  assert ((forall n, step m ni !! x = Some n -> n = 0) /\
    (is_Some (step m ni !! x) <-> is_Some (m !! x) \/ exists node c, ni_node ni = Some node /\
      spread_eligible pod constraints node = true /\ c ∈ constraints /\ pair_of node c = x)) as [Hs1 Hs2].
  { unfold step. destruct (ni_node ni) as [node|];
      [|split; [done|]; split; [by left|by intros [?|(node & c & ? & _)]]].
    destruct (spread_eligible pod constraints node) eqn:Ee;
      [|split; [done|]; split; [by left|intros [?|(node' & c & [= <-] & H & _)]; [done|congruence]]].
    destruct (Hinner node constraints m Hm) as [H1 H2]. split; [done|]. rewrite H2. split.
    - intros [?|(c & Hc & E)]; [by left|right; by exists node, c].
    - intros [?|(node' & c & [= <-] & _ & Hc & E)]; [by left|right; by exists c]. }
  destruct (IH (step m ni) Hs1) as [H1 H2]. split; [done|]. rewrite H2, Hs2. split.
  - intros [[?|(node & c & H)]|(ni' & node & c & Hin & H)]; [by left|right; exists ni, node, c; split; [by left|done]|].
    right. exists ni', node, c. split; [by right|done].
  - intros [?|(ni' & node & c & [-> |Hin]%elem_of_cons & H)]; [left; by left|left; right; by exists node, c|].
    right. by exists ni', node, c.
Qed.

(** The counts that the nodes give, for the domains [D]. *)
Definition exact_counts (D : gmap topologyPair Z) (nodes : list NodeInfo) : gmap topologyPair Z :=
  add_counts (cluster_count pod constraints nodes) D.

Lemma exact_counts_bounds nodes x n :
  counts_small pod constraints nodes ->
  exact_counts (spread_domains pod constraints nodes) nodes !! x = Some n -> 0 <= n < MaxInt32 - 1.
Proof.
  intros Hs Hx. unfold exact_counts in Hx. rewrite lookup_add_counts in Hx.
  destruct (spread_domains pod constraints nodes !! x) as [n0|] eqn:E; [|done]. injection Hx as <-.
  rewrite (proj1 (domains_spec nodes x) n0 E). pose proof (cluster_count_nonneg pod constraints nodes x).
  specialize (Hs x). lia.
Qed.

(** What [calPreFilterState] yields. *)
Record fresh_state (nodes : list NodeInfo) (s : Spread_preFilterState) : Prop := {
  fs_constraints : sps_Constraints s = constraints;
  fs_counts : TpPairToMatchNum s = exact_counts (spread_domains pod constraints nodes) nodes;
  fs_paths : forall k p, TpKeyToCriticalPaths s !! k = Some p -> paths_fresh (of_key (TpPairToMatchNum s) k) p;
  fs_keys : forall c, c ∈ constraints -> is_Some (TpKeyToCriticalPaths s !! sc_TopologyKey c)
}.

Lemma new_paths_lookup (cs : list topologySpreadConstraint) (m : gmap string criticalPaths) :
  (forall k p, m !! k = Some p -> p = newCriticalPaths) ->
  let m' := fold_left (fun m c => <[sc_TopologyKey c := newCriticalPaths]> m) cs m in
  (forall k p, m' !! k = Some p -> p = newCriticalPaths) /\
  (forall c, c ∈ cs -> is_Some (m' !! sc_TopologyKey c)) /\
  (forall k, is_Some (m !! k) -> is_Some (m' !! k)).
Proof.
  cbv zeta. revert m. induction cs as [|c cs IH]; intros m Hm; cbn [fold_left].
  { split_and!; [done|by intros ? ?%elem_of_nil|done]. }
  assert (forall k, <[sc_TopologyKey c := newCriticalPaths]> m !! k =
    if bool_decide (sc_TopologyKey c = k) then Some newCriticalPaths else m !! k) as Hk.
  { intros k. case_bool_decide as Hx; [subst k; apply lookup_insert_eq|by apply lookup_insert_ne]. }
  destruct (IH (<[sc_TopologyKey c := newCriticalPaths]> m)) as (H1 & H2 & H3).
  { intros k p. rewrite Hk. case_bool_decide; [by intros [= <-]|apply Hm]. }
  split_and!; [done| |].
  - intros d [-> |Hd]%elem_of_cons; [|by apply H2]. apply H3. rewrite Hk, bool_decide_true by done. by eexists.
  - intros k Hm'. apply H3. rewrite Hk. case_bool_decide; [by eexists|done].
Qed.

Lemma calPreFilterState_fresh snap :
  pod_constraints pl pod DoNotSchedule = inl constraints -> constraints <> [] ->
  all_objects (SN_List snap) -> counts_small pod constraints (SN_List snap) ->
  exists s, calPreFilterState pl snap pod = Ret (inl s) /\ fresh_state (SN_List snap) s.
Proof.
  intros Hc Hne Hobj Hsmall. unfold calPreFilterState. rewrite Hc. destruct constraints as [|c0 cs] eqn:Ecs; [done|].
  rewrite <- Ecs in *. set (nodes := SN_List snap) in *. set (D := spread_domains pod constraints nodes).
  rewrite (count_nodes pod constraints (range 0 nodes) D).
  - cbn [obind]. rewrite (add_counts_ext _ (cluster_count pod constraints nodes))
      by (intros x; apply cluster_count_perm, range_perm).
    fold (exact_counts D nodes). set (C := exact_counts D nodes).
    destruct (new_paths_lookup constraints ∅) as (N1 & N2 & _); [by intros k p; rewrite lookup_empty|].
    set (m := fold_left _ constraints ∅) in *.
    assert (forall x n, C !! x = Some n -> is_Some (m !! x.1)) as Hkeys.
    { intros x n Hx. unfold C, exact_counts in Hx. rewrite lookup_add_counts in Hx.
      destruct (D !! x) as [n0|] eqn:E; [|done].
      destruct (proj1 (proj2 (domains_spec nodes x))) as (ni & node & c & _ & _ & _ & Hin & <-); [by eexists|].
      by apply N2. }
    fold path_step. destruct (paths_fold (range 1 (map_to_list C)) ∅ m) as (m' & -> & Hdom & Hfresh).
    + rewrite range_perm. apply NoDup_fst_map_to_list.
    + intros x n Hin. rewrite range_perm, elem_of_map_to_list in Hin. split_and!; [apply lookup_empty| |by eapply Hkeys].
      pose proof (exact_counts_bounds nodes x n Hsmall Hin). lia.
    + intros k p Hk. rewrite (N1 k p Hk). eapply paths_fresh_ext; [|exact fresh_empty].
      intros v. unfold of_key. by rewrite lookup_empty.
    + cbn [obind]. eexists. split; [done|]. constructor; cbn [sps_Constraints TpPairToMatchNum TpKeyToCriticalPaths]; try done.
      * intros k p Hk. specialize (Hfresh k p Hk). eapply paths_fresh_ext; [|exact Hfresh]. intros v. unfold of_key.
        rewrite (right_id_L ∅ (∪)). f_equal.
        rewrite <- (list_to_map_to_list C) at 2. apply list_to_map_proper; [|apply range_perm].
        rewrite range_perm. apply NoDup_fst_map_to_list.
      * intros c Hin. apply Hdom. by apply N2.
  - intros ni Hni. rewrite range_perm in Hni. by apply Hobj.
  - intros x n Hx. rewrite (proj1 (domains_spec nodes x) n Hx). split; [done|].
    rewrite (cluster_count_perm pod constraints _ nodes) by apply range_perm. specialize (Hsmall x). lia.
Qed.
End state.

(** ** Updates for a pod that comes or goes *)

Section updates.
Context {mr : MapRange} (pod : Pod) (constraints : list topologySpreadConstraint) (node0 : Node).

(** How often a pod counts for a pair, under some of the constraints. *)
Definition gain (p : Pod) (cs : list topologySpreadConstraint) (x : topologyPair) : Z :=
  Zsum (map (fun c => if bool_decide (pair_of node0 c = x) && Sel_Matches (sc_Selector c) (Labels p) then 1 else 0) cs).

Lemma gain_bounds p cs x : 0 <= gain p cs x.
Proof. apply Zsum_nonneg. intros c _. by destruct (_ && _). Qed.

(** The invariant of the paths under updates that come for [node0]. *)
Definition paths_ok (C : gmap topologyPair Z) (m : gmap string criticalPaths) : Prop :=
  forall k p, m !! k = Some p -> paths_inv (label (node_Labels node0) k) (of_key C k) p.

Lemma spread_step_spec p delta K C m c :
  paths_ok C m -> is_Some (C !! pair_of node0 c) -> is_Some (m !! sc_TopologyKey c) ->
  (forall x n, C !! x = Some n -> is_int32 (n + delta * gain p [c] x) /\ n + delta * gain p [c] x < MaxInt32) ->
  exists m', spread_step p node0 delta (mkSpreadState K m C) c
      = Ret (mkSpreadState K m' (add_counts (fun x => delta * gain p [c] x) C)) /\
    (forall k, is_Some (m' !! k) <-> is_Some (m !! k)) /\
    paths_ok (add_counts (fun x => delta * gain p [c] x) C) m'.
Proof.
  intros Hm [n Hn] [q Hq] Hb. unfold spread_step. cbn [TpPairToMatchNum TpKeyToCriticalPaths sps_Constraints].
  assert (forall x, gain p [c] x = if bool_decide (pair_of node0 c = x) && Sel_Matches (sc_Selector c) (Labels p) then 1 else 0) as Hg
    by (intros x; unfold gain, Zsum; simpl; lia).
  destruct (Sel_Matches (sc_Selector c) (Labels p)) eqn:Es; cbn [negb].
  - fold (pair_of node0 c). rewrite Hn, Hq.
    destruct (Hb _ _ Hn) as [Hb1 Hb2]. rewrite Hg, bool_decide_true in Hb1, Hb2 by done. cbn [andb] in Hb1, Hb2.
    rewrite Z.mul_1_r in Hb1, Hb2. rewrite int32_id by done.
    assert (<[pair_of node0 c := n + delta]> C = add_counts (fun x => delta * gain p [c] x) C) as HC.
    { apply map_eq. intros x. rewrite lookup_add_counts, Hg. case_bool_decide as Hx.
      - subst x. rewrite lookup_insert_eq, Hn. simpl. f_equal. lia.
      - rewrite lookup_insert_ne by done. destruct (C !! x); simpl; f_equal; lia. }
    rewrite HC. eexists. split; [done|]. split.
    + intros k. destruct (decide (sc_TopologyKey c = k)) as [<- |Hne];
        [rewrite lookup_insert_eq, Hq; split; by eexists|by rewrite lookup_insert_ne].
    + intros k p' Hk. rewrite <- HC. destruct (decide (sc_TopologyKey c = k)) as [<- |Hne].
      * rewrite lookup_insert_eq in Hk. injection Hk as <-.
        eapply paths_inv_ext; [intros w; apply of_key_insert|]. apply cp_update_inv; [by apply Hm|done].
      * rewrite lookup_insert_ne in Hk by done.
        eapply paths_inv_ext; [intros w; symmetry; by apply of_key_insert_ne|]. by apply Hm.
  - assert (add_counts (fun x => delta * gain p [c] x) C = C) as ->.
    { rewrite <- (add_counts_0 C) at 2. apply add_counts_ext. intros x. rewrite Hg, andb_false_r. lia. }
    by exists m.
Qed.

Lemma gain_cons p c cs x : gain p (c :: cs) x = gain p [c] x + gain p cs x.
Proof. unfold gain, Zsum. simpl. lia. Qed.

Lemma spread_steps_spec p delta K cs C m :
  (delta = 1 \/ delta = -1) ->
  paths_ok C m -> (forall c, c ∈ cs -> is_Some (C !! pair_of node0 c) /\ is_Some (m !! sc_TopologyKey c)) ->
  (forall x n, C !! x = Some n -> 0 <= n < MaxInt32 /\ 0 <= n + delta * gain p cs x < MaxInt32) ->
  exists m', ofold (spread_step p node0 delta) cs (mkSpreadState K m C)
      = Ret (mkSpreadState K m' (add_counts (fun x => delta * gain p cs x) C)) /\
    (forall k, is_Some (m' !! k) <-> is_Some (m !! k)) /\
    paths_ok (add_counts (fun x => delta * gain p cs x) C) m'.
Proof.
  intros Hd. revert C m. induction cs as [|c cs IH]; intros C m Hm Hcs Hb; cbn [ofold].
  { assert (add_counts (fun x => delta * gain p [] x) C = C) as ->.
    { rewrite <- (add_counts_0 C) at 2. apply add_counts_ext. intros x. unfold gain, Zsum. simpl. lia. }
    by exists m. }
  destruct (Hcs c ltac:(left)) as [HC Hq].
  destruct (spread_step_spec p delta K C m c Hm HC Hq) as (m1 & -> & Hdom1 & Hm1).
  { intros x n Hx. destruct (Hb x n Hx) as [H1 H2]. rewrite gain_cons in H2.
    pose proof (gain_bounds p [c] x). pose proof (gain_bounds p cs x).
    assert (0 <= n + delta * gain p [c] x < MaxInt32) by (destruct Hd as [-> | ->]; lia). split; [int_unfold|]; lia. }
  cbn [obind]. destruct (IH _ m1 Hm1) as (m' & -> & Hdom & Hok).
  - intros d Hin. destruct (Hcs d) as [H1 H2]; [by right|]. split; [|by apply Hdom1].
    rewrite lookup_add_counts. destruct H1 as [n ->]. by eexists.
  - intros x n Hx. rewrite lookup_add_counts in Hx. destruct (C !! x) as [n0|] eqn:E; [|done]. injection Hx as <-.
    destruct (Hb x n0 E) as [H1 H2]. rewrite gain_cons in H2.
    pose proof (gain_bounds p [c] x). pose proof (gain_bounds p cs x). destruct Hd as [-> | ->]; lia.
  - assert (add_counts (fun x => delta * gain p cs x) (add_counts (fun x => delta * gain p [c] x) C)
      = add_counts (fun x => delta * gain p (c :: cs) x) C) as HE.
    { rewrite add_counts_add. apply add_counts_ext. intros x. rewrite (gain_cons p c cs). ring. }
    rewrite HE in *. exists m'. split_and!; [done| |done]. intros k. by rewrite Hdom.
Qed.

(** A pod on [node0] that is not being deleted and is in the namespace. *)
Lemma node_count_gain ni ni' p x :
  ni_node ni = Some node0 -> ni_node ni' = Some node0 -> Pods ni' ≡ₚ p :: Pods ni ->
  DeletionTimestamp (pi_Pod p) = None ->
  node_count pod constraints ni' x = node_count pod constraints ni x
    + (if String.eqb (Namespace (pi_Pod p)) (Namespace pod) then gain (pi_Pod p) constraints x else 0).
Proof.
  intros Hn Hn' Hp Hd. unfold node_count, gain. rewrite Hn, Hn'.
  induction constraints as [|c cs IH]; unfold Zsum in *; simpl; [by destruct (String.eqb _ _)|]. rewrite IH.
  assert (countPodsMatchSelector (Pods ni') (sc_Selector c) (Namespace pod)
    = countPodsMatchSelector (Pods ni) (sc_Selector c) (Namespace pod)
      + (if spread_counts (sc_Selector c) (Namespace pod) (pi_Pod p) then 1 else 0)) as Hc.
  { unfold countPodsMatchSelector. rewrite (Permutation_length (l' := List.filter (fun p => spread_counts (sc_Selector c) (Namespace pod) (pi_Pod p)) (p :: Pods ni))).
    - simpl. destruct (spread_counts _ _ _); simpl; lia.
    - clear -Hp. induction Hp; simpl; repeat destruct (spread_counts _ _ _); eauto using Permutation; by etransitivity. }
  rewrite Hc. unfold spread_counts. rewrite Hd.
  destruct (String.eqb (Namespace (pi_Pod p)) (Namespace pod)), (bool_decide (pair_of node0 c = x)),
    (Sel_Matches (sc_Selector c) (Labels (pi_Pod p))); simpl; lia.
Qed.
End updates.

(** ** A history of changes on one node *)

Section history.
Context {mr : MapRange} (pod : Pod) (constraints : list topologySpreadConstraint) (node0 : Node).
Context (before after : list NodeInfo).

Definition with_node (ni : NodeInfo) : list NodeInfo := before ++ ni :: after.

(** Pods that come to the node ([+1]) or leave it ([-1]), one at a time; they
    are not being deleted, and the counts stay in 32 bits. *)
Inductive node_path : NodeInfo -> list (Z * PodInfo) -> NodeInfo -> Prop :=
| path_done ni : node_path ni [] ni
| path_add ni ni1 ni2 p l :
    ni_node ni1 = Some node0 -> Pods ni1 ≡ₚ p :: Pods ni -> DeletionTimestamp (pi_Pod p) = None ->
    counts_small pod constraints (with_node ni1) -> node_path ni1 l ni2 -> node_path ni ((1, p) :: l) ni2
| path_remove ni ni1 ni2 p l :
    ni_node ni1 = Some node0 -> Pods ni ≡ₚ p :: Pods ni1 -> DeletionTimestamp (pi_Pod p) = None ->
    counts_small pod constraints (with_node ni1) -> node_path ni1 l ni2 -> node_path ni ((-1, p) :: l) ni2.

Definition spread_run (s : Spread_preFilterState) (l : list (Z * PodInfo)) : outcome Spread_preFilterState :=
  ofold (fun s c => Spread_updateWithPod s (pi_Pod c.2) pod (Some node0) c.1) l s.

(** The state is exact for the nodes, though its paths may keep other values
    than those that a new count would find. *)
Record live_state (nodes : list NodeInfo) (s : Spread_preFilterState) : Prop := {
  ls_constraints : sps_Constraints s = constraints;
  ls_counts : TpPairToMatchNum s = exact_counts pod constraints (spread_domains pod constraints nodes) nodes;
  ls_paths : paths_ok node0 (TpPairToMatchNum s) (TpKeyToCriticalPaths s);
  ls_keys : forall c, c ∈ constraints -> is_Some (TpKeyToCriticalPaths s !! sc_TopologyKey c)
}.

Lemma fresh_live nodes s : fresh_state pod constraints nodes s -> live_state nodes s.
Proof. intros [H1 H2 H3 H4]. constructor; try done. intros k p Hk. apply fresh_inv. by apply H3. Qed.

(** The verdict depends on the counts and on the least count of each key. *)
Lemma check_live nodes s t node cs :
  live_state nodes s -> live_state nodes t -> (forall c, c ∈ cs -> c ∈ constraints) ->
  spread_check s pod node cs = spread_check t pod node cs.
Proof.
  intros [S1 S2 S3 S4] [T1 T2 T3 T4] Hcs. induction cs as [|c cs IH]; [done|]. cbn [spread_check].
  rewrite IH by (intros; apply Hcs; by right). destruct (node_Labels node !! sc_TopologyKey c) as [v|]; [|done].
  destruct (S4 c) as [p Hp]; [apply Hcs; by left|]. destruct (T4 c) as [q Hq]; [apply Hcs; by left|].
  rewrite Hp, Hq, S2, T2.
  assert ((cp0 p).2 = (cp0 q).2) as ->; [|done].
  pose proof (S3 _ _ Hp) as HS. pose proof (T3 _ _ Hq) as HT. rewrite S2 in HS. rewrite T2 in HT.
  eapply least_unique; eapply paths_least; eassumption.
Qed.

Lemma domains_same ni ni' : ni_node ni = ni_node ni' ->
  spread_domains pod constraints (with_node ni) = spread_domains pod constraints (with_node ni').
Proof. intros H. unfold spread_domains, with_node. rewrite !fold_left_app. cbn [fold_left]. by rewrite H. Qed.

Lemma cluster_count_with ni ni' x :
  cluster_count pod constraints (with_node ni') x - cluster_count pod constraints (with_node ni) x
  = node_count pod constraints ni' x - node_count pod constraints ni x.
Proof.
  unfold cluster_count, with_node. rewrite !map_app, !Zsum_app. cbn [map].
  assert (forall a l, Zsum (a :: l) = a + Zsum l) as Hc by done. rewrite !Hc. lia.
Qed.

(** One update makes the state that of the changed node. *)
Lemma update_live ni ni' s p delta :
  live_state (with_node ni) s -> ni_node ni = Some node0 -> ni_node ni' = Some node0 ->
  spread_eligible pod constraints node0 = true -> (delta = 1 \/ delta = -1) ->
  (forall x, node_count pod constraints ni' x = node_count pod constraints ni x
     + delta * (if String.eqb (Namespace (pi_Pod p)) (Namespace pod) then gain node0 (pi_Pod p) constraints x else 0)) ->
  counts_small pod constraints (with_node ni) -> counts_small pod constraints (with_node ni') ->
  exists s', Spread_updateWithPod s (pi_Pod p) pod (Some node0) delta = Ret s' /\ live_state (with_node ni') s'.
Proof.
  intros Hs Hn Hn' He Hd Hg Hb Hb'. pose proof Hs as [S1 S2 S3 S4]. unfold Spread_updateWithPod.
  assert (spread_domains pod constraints (with_node ni') = spread_domains pod constraints (with_node ni)) as HD
    by (apply domains_same; congruence).
  set (D := spread_domains pod constraints (with_node ni)) in *.
  assert (forall g : topologyPair -> Z, (forall x, g x = node_count pod constraints ni' x - node_count pod constraints ni x) ->
    add_counts g (exact_counts pod constraints D (with_node ni)) = exact_counts pod constraints D (with_node ni')) as Hex.
  { intros g Hgx. unfold exact_counts. rewrite add_counts_add. apply add_counts_ext. intros x.
    rewrite Hgx. pose proof (cluster_count_with ni ni' x). lia. }
  destruct (String.eqb (Namespace (pi_Pod p)) (Namespace pod)) eqn:En; cbn [negb].
  2:{ exists s. split; [done|]. constructor; try done. rewrite S2, HD, <- (Hex (fun _ => 0)); [symmetry; apply add_counts_0|].
      intros x. rewrite Hg. lia. }
  unfold spread_eligible in He. apply andb_prop in He as [He1 He2].
  rewrite S1, He2. cbn [negb]. destruct s as [K m C]. cbn [sps_Constraints TpPairToMatchNum TpKeyToCriticalPaths] in *.
  assert (exact_counts pod constraints D (with_node ni') = add_counts (fun x => delta * gain node0 (pi_Pod p) constraints x) C) as HE.
  { subst C. symmetry. apply Hex. intros x. rewrite Hg. lia. }
  destruct (spread_steps_spec node0 (pi_Pod p) delta K constraints C m Hd S3) as (m' & -> & Hdom & Hok).
  - intros c Hc. split; [|by apply S4]. subst C. unfold exact_counts. rewrite lookup_add_counts. apply fmap_is_Some.
    apply domains_spec. exists ni, node0, c. split_and!; try done; [|by unfold spread_eligible; rewrite He1, He2].
    unfold with_node. apply elem_of_app. right. by left.
  - intros x n Hx. pose proof Hx as Hx'. rewrite S2 in Hx'. apply exact_counts_bounds in Hx'; [|done]. split; [lia|].
    assert (exact_counts pod constraints (spread_domains pod constraints (with_node ni')) (with_node ni') !! x
      = Some (n + delta * gain node0 (pi_Pod p) constraints x)) as H2 by (by rewrite HD, HE, lookup_add_counts, Hx).
    apply exact_counts_bounds in H2; [lia|done].
  - eexists. split; [done|]. constructor; cbn [sps_Constraints TpPairToMatchNum TpKeyToCriticalPaths]; [done| |done|].
    + by rewrite HD, HE.
    + intros c Hc. apply Hdom. by apply S4.
Qed.

Lemma run_live ni l ni' s :
  node_path ni l ni' -> live_state (with_node ni) s -> ni_node ni = Some node0 ->
  spread_eligible pod constraints node0 = true -> counts_small pod constraints (with_node ni) ->
  exists s', spread_run s l = Ret s' /\ live_state (with_node ni') s'.
Proof.
  intros Hp. revert s. induction Hp as [ni|ni ni1 ni2 p l H1 Hpods Hdel Hsm Hp IH|ni ni1 ni2 p l H1 Hpods Hdel Hsm Hp IH];
    intros s Hs Hn He Hb; [by exists s| |]; unfold spread_run; cbn [ofold fst snd].
  - destruct (update_live ni ni1 s p 1 Hs Hn H1 He) as (s1 & -> & Hs1); [by left| |done|done|by apply IH].
    intros x. rewrite (node_count_gain pod constraints node0 ni ni1 p x Hn H1 Hpods Hdel). lia.
  - destruct (update_live ni ni1 s p (-1) Hs Hn H1 He) as (s1 & -> & Hs1); [by right| |done|done|by apply IH].
    intros x. rewrite (node_count_gain pod constraints node0 ni1 ni p x H1 Hn Hpods Hdel). lia.
Qed.

Lemma path_end ni l ni' :
  node_path ni l ni' -> ni_node ni = Some node0 -> counts_small pod constraints (with_node ni) ->
  ni_node ni' = Some node0 /\ counts_small pod constraints (with_node ni').
Proof. induction 1; intros Hn Hb; [done|by apply IHnode_path..]. Qed.

(** The preemption dry run and the nominated pods change the state of
    PodTopologySpread in place, with [AddPod] and [RemovePod], and the two
    critical paths that it keeps per key are then not always the two smallest
    counts any more.  Still, after any sequence of pods that come to a node
    (one that takes part in the spreading) and leave it, no update panics and
    [Filter] gives the same verdict for every node as from the state that
    [PreFilter] would compute anew for the changed node. *)
Theorem Spread_incremental pl snap snap' ni l ni' :
  pod_constraints pl pod DoNotSchedule = inl constraints -> constraints <> [] ->
  SN_List snap = with_node ni -> SN_List snap' = with_node ni' -> all_objects (with_node ni) ->
  ni_node ni = Some node0 -> spread_eligible pod constraints node0 = true ->
  counts_small pod constraints (with_node ni) -> node_path ni l ni' ->
  exists s s' t, calPreFilterState pl snap pod = Ret (inl s) /\ spread_run s l = Ret s' /\
    calPreFilterState pl snap' pod = Ret (inl t) /\ sps_Constraints s' = sps_Constraints t /\
    forall node, spread_check s' pod node (sps_Constraints s') = spread_check t pod node (sps_Constraints t).
Proof.
  intros Hc Hne HL HL' Hobj Hn He Hb Hp. destruct (path_end ni l ni' Hp Hn Hb) as [Hn' Hb'].
  destruct (calPreFilterState_fresh pl pod constraints snap) as (s & -> & Hs); try done; [by rewrite HL..|].
  destruct (calPreFilterState_fresh pl pod constraints snap') as (t & -> & Ht); try done; [|by rewrite HL'|].
  { rewrite HL'. intros x [Hx|[-> |Hx]%elem_of_cons]%elem_of_app; [|by eexists|];
      apply Hobj, elem_of_app; [by left|right; by right]. }
  rewrite HL in Hs. rewrite HL' in Ht. apply fresh_live in Hs, Ht.
  destruct (run_live ni l ni' s Hp Hs Hn He Hb) as (s' & Hr & Hs').
  exists s, s', t. rewrite (ls_constraints _ _ Hs'), (ls_constraints _ _ Ht). split_and!; try done.
  intros node. by apply (check_live (with_node ni')).
Qed.
End history.

(** ** What [Filter] decides *)

Section meaning.
Context {mr : MapRange} (selector_message : SelError -> string) (pl : PodTopologySpread) (pod : Pod).

(** The nodes with a value of the key that take part form a domain. *)
Definition is_domain (constraints : list topologySpreadConstraint) (nodes : list NodeInfo) (k v : string) : bool :=
  existsb (fun ni => match ni_node ni with
                     | Some node => spread_eligible pod constraints node && String.eqb (label (node_Labels node) k) v
                     | None => false
                     end) nodes.

(** The pods that match the constraint on the nodes with the value that [on]
    selects. *)
Definition pods_on (on : Node -> bool) (c : topologySpreadConstraint) (nodes : list NodeInfo) (v : string) : Z :=
  Zsum (map (fun ni => match ni_node ni with
                       | Some node =>
                           if String.eqb (label (node_Labels node) (sc_TopologyKey c)) v
                           then if on node then countPodsMatchSelector (Pods ni) (sc_Selector c) (Namespace pod) else 0
                           else 0
                       | None => 0
                       end) nodes).

(** Those on the nodes that take part: spreading is applied to the nodes that
    the node affinity of the pod admits. *)
Definition matching (constraints : list topologySpreadConstraint) : topologySpreadConstraint -> list NodeInfo -> string -> Z :=
  pods_on (spread_eligible pod constraints).

(** Those that the code counts: on every node of the domain, also one that the
    node affinity leaves out. *)
Definition counted : topologySpreadConstraint -> list NodeInfo -> string -> Z := pods_on (fun _ => true).

(** With the pod in the domain [v], no domain has so few that the difference
    exceeds the maximal skew, when the pods of a domain are [count]. *)
Definition spread_ok (count : topologySpreadConstraint -> list NodeInfo -> string -> Z)
    (constraints : list topologySpreadConstraint) (nodes : list NodeInfo) (c : topologySpreadConstraint) (v : string) : Prop :=
  let k := sc_TopologyKey c in
  let here := if is_domain constraints nodes k v then count c nodes v else 0 in
  let self := if Sel_Matches (sc_Selector c) (Labels pod) then 1 else 0 in
  forall w, is_domain constraints nodes k w = true -> here + self - count c nodes w <= sc_MaxSkew c.

(** No matching pod is on a node that is left out although its domain takes
    part. *)
Definition left_out_empty (constraints : list topologySpreadConstraint) (nodes : list NodeInfo) : Prop :=
  forall ni node c, ni ∈ nodes -> ni_node ni = Some node -> c ∈ constraints ->
    is_domain constraints nodes (sc_TopologyKey c) (label (node_Labels node) (sc_TopologyKey c)) = true ->
    spread_eligible pod constraints node = false ->
    countPodsMatchSelector (Pods ni) (sc_Selector c) (Namespace pod) = 0.

(** Then the code counts the pods it should. *)
Lemma counted_matching constraints nodes c v :
  left_out_empty constraints nodes -> c ∈ constraints -> is_domain constraints nodes (sc_TopologyKey c) v = true ->
  counted c nodes v = matching constraints c nodes v.
Proof.
  intros Hl Hc Hv. unfold counted, matching, pods_on. f_equal. apply map_ext_in. intros ni Hin%list_elem_of_In.
  destruct (ni_node ni) as [node|] eqn:En; [|done]. destruct (String.eqb_spec (label (node_Labels node) (sc_TopologyKey c)) v) as [<- |]; [|done].
  destruct (spread_eligible pod constraints node) eqn:Ee; [done|]. by eapply Hl.
Qed.

Lemma spread_ok_matching constraints nodes c v :
  left_out_empty constraints nodes -> c ∈ constraints ->
  spread_ok counted constraints nodes c v <-> spread_ok (matching constraints) constraints nodes c v.
Proof.
  intros Hl Hc. unfold spread_ok. destruct (is_domain constraints nodes (sc_TopologyKey c) v) eqn:Ev.
  - rewrite (counted_matching constraints nodes c v) by done. split; intros H w Hw; specialize (H w Hw);
      rewrite (counted_matching constraints nodes c w) in *; done.
  - split; intros H w Hw; specialize (H w Hw); rewrite (counted_matching constraints nodes c w) in *; done.
Qed.

Context (constraints : list topologySpreadConstraint).

Lemma cluster_counted c nodes v :
  NoDup (map sc_TopologyKey constraints) -> c ∈ constraints ->
  cluster_count pod constraints nodes (sc_TopologyKey c, v) = counted c nodes v.
Proof.
  intros Hnd Hc. unfold cluster_count, counted, pods_on. f_equal. apply map_ext. intros ni. unfold node_count.
  destruct (ni_node ni) as [node|]; [|done]. apply list_elem_of_split in Hc as (l1 & l2 & ->).
  rewrite map_app in Hnd. cbn [map] in Hnd. apply NoDup_app in Hnd as (_ & Hn1 & Hn2). apply NoDup_cons in Hn2 as [Hn2 _].
  assert (forall l, (forall d, d ∈ l -> sc_TopologyKey d <> sc_TopologyKey c) ->
    Zsum (map (fun d => if bool_decide (pair_of node d = (sc_TopologyKey c, v))
       then countPodsMatchSelector (Pods ni) (sc_Selector d) (Namespace pod) else 0) l) = 0) as H0.
  { induction l as [|d l IH]; intros Hl; [done|]. unfold Zsum in *. cbn [map foldr]. rewrite IH by (intros; apply Hl; by right).
    rewrite bool_decide_false; [done|]. intros [= E _]. by apply (Hl d); [left|]. }
  rewrite map_app, Zsum_app. cbn [map]. rewrite H0.
  - change (Zsum (?a :: ?l)) with (a + Zsum l). rewrite H0.
    + unfold pair_of. destruct (String.eqb_spec (label (node_Labels node) (sc_TopologyKey c)) v) as [-> |Hne];
        [rewrite bool_decide_true by done|rewrite bool_decide_false by congruence]; lia.
    + intros d Hd E. apply Hn2. rewrite <- E. by apply (list_elem_of_fmap_2 sc_TopologyKey).
  - intros d Hd E. apply (Hn1 (sc_TopologyKey c)); [rewrite <- E; by apply (list_elem_of_fmap_2 sc_TopologyKey)|by left].
Qed.

Lemma domain_lookup c nodes v :
  NoDup (map sc_TopologyKey constraints) -> c ∈ constraints ->
  exact_counts pod constraints (spread_domains pod constraints nodes) nodes !! (sc_TopologyKey c, v)
  = if is_domain constraints nodes (sc_TopologyKey c) v then Some (counted c nodes v) else None.
Proof.
  intros Hnd Hc. unfold exact_counts. rewrite lookup_add_counts, (cluster_counted c) by done.
  destruct (domains_spec pod constraints nodes (sc_TopologyKey c, v)) as [H0 Hex].
  destruct (is_domain constraints nodes (sc_TopologyKey c) v) eqn:E.
  - apply existsb_exists in E as (ni & Hin & H). destruct (ni_node ni) as [node|] eqn:En; [|done].
    apply andb_prop in H as [He Hv]. apply String.eqb_eq in Hv.
    destruct (proj2 Hex) as [n Hn]; [exists ni, node, c; split_and!; try done; [by apply list_elem_of_In|by unfold pair_of; rewrite Hv]|].
    rewrite Hn, (H0 n Hn). done.
  - destruct (spread_domains pod constraints nodes !! (sc_TopologyKey c, v)) as [n|] eqn:En; [|done]. exfalso.
    destruct (proj1 Hex) as (ni & node & d & Hin & Hn & He & Hd & [= Hk Hv]); [by eexists|].
    apply not_true_iff_false in E. apply E. apply existsb_exists. exists ni. split; [by apply list_elem_of_In|].
    rewrite Hn, He, <- Hv, Hk. by rewrite String.eqb_refl.
Qed.

(** The test of one constraint. *)
Lemma skew_meaning nodes s c v p :
  fresh_state pod constraints nodes s -> NoDup (map sc_TopologyKey constraints) -> c ∈ constraints ->
  0 <= sc_MaxSkew c -> counts_small pod constraints nodes -> TpKeyToCriticalPaths s !! sc_TopologyKey c = Some p ->
  let n := default 0 (TpPairToMatchNum s !! (sc_TopologyKey c, v)) in
  let self := if Sel_Matches (sc_Selector c) (Labels pod) then 1 else 0 in
  (sc_MaxSkew c <? int32 (int32 (n + self) - (cp0 p).2)) = false <-> spread_ok counted constraints nodes c v.
Proof.
  intros Hs Hnd Hc Hsk Hb Hp n self. pose proof (fs_paths _ _ _ _ Hs _ _ Hp) as Hf.
  apply (fresh_inv _ _ v), paths_least in Hf as [Hmin Hwit]. pose proof (fs_counts _ _ _ _ Hs) as HC.
  set (m := (cp0 p).2) in *.
  assert (forall w, of_key (TpPairToMatchNum s) (sc_TopologyKey c) w
     = if is_domain constraints nodes (sc_TopologyKey c) w then Some (counted c nodes w) else None) as Hkey
    by (intros w; unfold of_key; rewrite HC; by apply domain_lookup).
  assert (forall w, 0 <= counted c nodes w < MaxInt32 - 1) as Hrange.
  { intros w. rewrite <- (cluster_counted c nodes w) by done.
    pose proof (cluster_count_nonneg pod constraints nodes (sc_TopologyKey c, w)). specialize (Hb (sc_TopologyKey c, w)). lia. }
  assert (n = if is_domain constraints nodes (sc_TopologyKey c) v then counted c nodes v else 0) as Hn.
  { unfold n. specialize (Hkey v). unfold of_key in Hkey. rewrite Hkey. by destruct (is_domain _ _ _ v). }
  unfold spread_ok. fold self. rewrite <- Hn. clearbody n. 
  pose proof (Hrange v) as Hv. assert (0 <= n < MaxInt32 - 1) as Hn0 by (rewrite Hn; destruct (is_domain _ _ _ v); [lia|done]).
  assert (0 <= self <= 1) as Hself by (unfold self; by destruct (Sel_Matches _ _)).
  assert (0 <= m <= MaxInt32) as Hm.
  { destruct Hwit as [[-> _]|[w Hw]]; [done|]. rewrite Hkey in Hw. destruct (is_domain _ _ _ w); [|done].
    injection Hw as <-. specialize (Hrange w). lia. }
  rewrite (int32_id (n + self)) by (int_unfold; unfold MaxInt32 in *; lia).
  rewrite int32_id by (int_unfold; unfold MaxInt32 in *; lia). rewrite Z.ltb_ge. split.
  - intros Hle w Hw. specialize (Hkey w). rewrite Hw in Hkey. specialize (Hmin w _ Hkey). lia.
  - intros H. destruct Hwit as [[-> _]|[w Hw]]; [unfold MaxInt32 in *; lia|]. rewrite Hkey in Hw.
    destruct (is_domain _ _ _ w) eqn:Ew; [|done]. injection Hw as Hw. specialize (H w Ew). lia.
Qed.

Lemma check_meaning nodes s node cs :
  fresh_state pod constraints nodes s -> NoDup (map sc_TopologyKey constraints) -> (forall c, c ∈ cs -> c ∈ constraints) ->
  (forall c, c ∈ constraints -> 0 <= sc_MaxSkew c) -> counts_small pod constraints nodes ->
  (spread_check s pod node cs = None <->
     forall c, c ∈ cs -> exists v, node_Labels node !! sc_TopologyKey c = Some v /\ spread_ok counted constraints nodes c v) /\
  (forall st, spread_check s pod node cs = Some st ->
     Status_Code (Some st) = Unschedulable \/
     Status_Code (Some st) = UnschedulableAndUnresolvable /\ exists c, c ∈ cs /\ node_Labels node !! sc_TopologyKey c = None).
Proof.
  intros Hs Hnd Hsub Hsk Hb. induction cs as [|c cs IH]; cbn [spread_check].
  { split; [|done]. split; [by intros _ c ?%elem_of_nil|done]. }
  destruct IH as [IH1 IH2]; [intros; apply Hsub; by right|].
  destruct (node_Labels node !! sc_TopologyKey c) as [v|] eqn:Ev.
  2:{ split; [|intros st [= <-]; right; split; [done|exists c; split; [by left|done]]].
      split; [done|]. intros H. destruct (H c) as (v & Hv & _); [by left|congruence]. }
  destruct (fs_keys _ _ _ _ Hs c) as [p Hp]; [apply Hsub; by left|]. rewrite Hp.
  pose proof (skew_meaning nodes s c v p Hs Hnd (Hsub c ltac:(left)) (Hsk _ (Hsub c ltac:(left))) Hb Hp) as Hm. cbv zeta in Hm.
  destruct (sc_MaxSkew c <? _) eqn:E; split.
  - split; [done|]. intros H. destruct (H c) as (w & Hw & Hok); [by left|]. rewrite Ev in Hw. injection Hw as <-.
    apply Hm in Hok. done.
  - intros st [= <-]. by left.
  - rewrite IH1. split.
    + intros H d [-> |Hd]%elem_of_cons; [|by apply H]. exists v. split; [done|by apply Hm].
    + intros H d Hd. apply H. by right.
  - intros st Hst. destruct (IH2 st Hst) as [?|(? & d & Hd & ?)]; [by left|right; split; [done|exists d; split; [by right|done]]].
Qed.

(** C23. PodTopologySpread lets a pod on a node exactly if the node has the
    topology keys of all the pod's constraints and, for each constraint, the
    matching pods in the node's domain, with the pod itself if it matches,
    exceed those of no domain that takes part by more than the maximal skew;
    whatever the order in which the nodes are counted.  A node without a key
    can not be helped by preemption, an exceeded skew can.  A domain takes part
    by a node that has the keys and that the node affinity of the pod admits.
    When the other nodes of such domains have no matching pods, the pods that
    count are those of the nodes that take part, as the comment in
    [calPreFilterState] has it; in general the code counts the pods of the
    other nodes too (excluded_nodes_counted). *)
Theorem Spread_Filter_meaning snap cs0 ni node :
  pod_constraints pl pod DoNotSchedule = inl constraints -> NoDup (map sc_TopologyKey constraints) ->
  (forall c, c ∈ constraints -> 0 <= sc_MaxSkew c) ->
  all_objects (SN_List snap) -> counts_small pod constraints (SN_List snap) -> ni_node ni = Some node ->
  exists cs', Spread_PreFilter selector_message pl snap cs0 pod = Ret (cs', None) /\
    (Spread_Filter cs' pod ni = None <->
       forall c, c ∈ constraints -> exists v, node_Labels node !! sc_TopologyKey c = Some v /\
         spread_ok counted constraints (SN_List snap) c v) /\
    (left_out_empty constraints (SN_List snap) ->
      Spread_Filter cs' pod ni = None <->
       forall c, c ∈ constraints -> exists v, node_Labels node !! sc_TopologyKey c = Some v /\
         spread_ok (matching constraints) constraints (SN_List snap) c v) /\
    (forall st, Spread_Filter cs' pod ni = Some st ->
       Status_Code (Some st) = Unschedulable \/
       Status_Code (Some st) = UnschedulableAndUnresolvable /\
         exists c, c ∈ constraints /\ node_Labels node !! sc_TopologyKey c = None).
Proof.
  intros Hc Hnd Hsk Hobj Hb Hn.
  enough (exists cs', Spread_PreFilter selector_message pl snap cs0 pod = Ret (cs', None) /\
    (Spread_Filter cs' pod ni = None <-> forall c, c ∈ constraints -> exists v, node_Labels node !! sc_TopologyKey c = Some v /\
         spread_ok counted constraints (SN_List snap) c v) /\
    (forall st, Spread_Filter cs' pod ni = Some st -> Status_Code (Some st) = Unschedulable \/
       Status_Code (Some st) = UnschedulableAndUnresolvable /\
         exists c, c ∈ constraints /\ node_Labels node !! sc_TopologyKey c = None)) as (cs' & H1 & H2 & H3).
  { exists cs'. split_and!; [done|done| |done]. intros Hl. rewrite H2.
    split; intros H c Hin; destruct (H c Hin) as (v & Hv & Hok); exists v; (split; [done|]); by apply (spread_ok_matching constraints). }
  unfold Spread_PreFilter, Spread_Filter, Spread_getPreFilterState.
  destruct constraints as [|c0 cs] eqn:Ecs.
  { unfold calPreFilterState. rewrite Hc. cbn [obind]. eexists. split; [done|]. rewrite Hn, (proj1 (CycleState_laws _ _ _ Spread_preFilterStateKey)).
    cbn [sps_Constraints spread_check]. split; [|done]. split; [by intros _ c ?%elem_of_nil|done]. }
  rewrite <- Ecs in *. destruct (calPreFilterState_fresh pl pod constraints snap) as (s & -> & Hs); try done; [congruence|].
  cbn [obind]. eexists. split; [done|]. rewrite Hn, (proj1 (CycleState_laws _ _ _ Spread_preFilterStateKey)).
  rewrite (fs_constraints _ _ _ _ Hs). by apply check_meaning.
Qed.
End meaning.

(** ** Witnesses *)

(** Two zones of one node each, and web pods that are to be spread over them
    with a skew of at most one. *)
Definition web (uid : string) : Pod :=
  let p := sample_pod "web" uid {["app"%string := "web"%string]} [] [] in
  let s := Spec p in
  mkPod (Name p) (Namespace p) (UID p) (ResourceVersion p) (DeletionTimestamp p) (Labels p) (Annotations p)
    (mkPodSpec (Containers s) (InitContainers s) (Overhead s) (NodeName s) (SchedulerName s) (Priority s) (Volumes s)
       (spec_Affinity s) (Tolerations s) (spec_NodeSelector s)
       [mkTopologySpreadConstraint 1 zone_key DoNotSchedule (app_is "web")] (PreemptionPolicy s)) (Status p).

Definition east (pods : list Pod) : NodeInfo := node_with (zone_node "n1" "east") pods.
Definition west (pods : list Pod) : NodeInfo := node_with (zone_node "n2" "west") pods.
Definition two_zones (e w : list Pod) : Snapshot :=
  mkSnapshot {["n1"%string := east e; "n2"%string := west w]} ["n1"; "n2"]%string [] [] 1.

Definition spread_plugin : PodTopologySpread := mkPodTopologySpread systemDefaultConstraints (fun _ => Nothing).

Definition web_constraint : topologySpreadConstraint :=
  mkSpreadConstraint 1 zone_key (match LabelSelectorAsSelector (app_is "web") with inl s => s | inr _ => Nothing end).

Definition spread_codes (snap : Snapshot) (pod : Pod) : outcome (list Code) :=
  let! r := @Spread_PreFilter range_id (fun _ => ""%string) spread_plugin snap NewCycleState pod in
  Ret (map (fun ni => Status_Code (Spread_Filter r.1 pod ni)) (SN_List snap ++ [node_with (sample_node "n3" ∅ 4000) []])).

Example spread_filter_ex :
  spread_codes (two_zones [web "1"] []) (web "2") = Ret [Unschedulable; Success; UnschedulableAndUnresolvable] /\
  spread_codes (two_zones [web "1"] [web "3"]) (web "2") = Ret [Success; Success; UnschedulableAndUnresolvable].
Proof. vm_compute. done. Qed.

Lemma two_zones_list e w : SN_List (two_zones e w) = [east e; west w].
Proof. done. Qed.

Lemma web_left_out : left_out_empty (web "2") [web_constraint] (SN_List (two_zones [web "1"] [])).
Proof.
  rewrite two_zones_list. intros ni node c Hni Hn ->%list_elem_of_singleton _ He. exfalso.
  apply elem_of_cons in Hni as [-> |[-> |?%elem_of_nil]%elem_of_cons]; [..|done];
    cbn in Hn; injection Hn as <-; vm_compute in He; discriminate He.
Qed.

Lemma Spread_Filter_meaning_witness :
  exists cs', @Spread_PreFilter range_rev (fun _ => ""%string) spread_plugin (two_zones [web "1"] []) NewCycleState (web "2")
      = Ret (cs', None) /\
    (Spread_Filter cs' (web "2") (east [web "1"]) = None <->
       forall c, c ∈ [web_constraint] -> exists v, node_Labels (zone_node "n1" "east") !! sc_TopologyKey c = Some v /\
         spread_ok (web "2") (matching (web "2") [web_constraint]) [web_constraint] (SN_List (two_zones [web "1"] [])) c v).
Proof.
  destruct (@Spread_Filter_meaning range_rev (fun _ => ""%string) spread_plugin (web "2") [web_constraint]
    (two_zones [web "1"] []) NewCycleState (east [web "1"]) (zone_node "n1" "east")) as (cs' & H1 & _ & H2 & _).
  - vm_compute. reflexivity.
  - apply NoDup_singleton.
  - intros c Hc. apply list_elem_of_singleton in Hc as ->. done.
  - rewrite two_zones_list. intros ni [-> |[-> |?%elem_of_nil]%elem_of_cons]%elem_of_cons; [by eexists..|done].
  - apply counts_small_intro. vm_compute. reflexivity.
  - reflexivity.
  - exists cs'. split; [exact H1|]. exact (H2 web_left_out).
Defined.

(** A pod leaves the east and another comes there. *)
Lemma Spread_incremental_witness :
  exists s s' t, @calPreFilterState range_id spread_plugin (two_zones [web "1"] []) (web "2") = Ret (inl s) /\
    spread_run (web "2") (zone_node "n1" "east") s [(-1, NewPodInfo (web "1")); (1, NewPodInfo (web "4"))] = Ret s' /\
    @calPreFilterState range_id spread_plugin (two_zones [web "4"] []) (web "2") = Ret (inl t) /\
    sps_Constraints s' = sps_Constraints t /\
    forall node, spread_check s' (web "2") node (sps_Constraints s') = spread_check t (web "2") node (sps_Constraints t).
Proof.
  apply (@Spread_incremental range_id (web "2") [web_constraint] (zone_node "n1" "east") [] [west []] spread_plugin
    (two_zones [web "1"] []) (two_zones [web "4"] []) (east [web "1"])
    [(-1, NewPodInfo (web "1")); (1, NewPodInfo (web "4"))] (east [web "4"])).
  - vm_compute. reflexivity.
  - discriminate.
  - reflexivity.
  - reflexivity.
  - intros ni [-> |[-> |?%elem_of_nil]%elem_of_cons]%elem_of_cons; [by eexists..|done].
  - reflexivity.
  - vm_compute. reflexivity.
  - apply counts_small_intro. vm_compute. reflexivity.
  - eapply (path_remove _ _ _ _ _ _ (east [])); [reflexivity|reflexivity|reflexivity| |].
    + apply counts_small_intro. vm_compute. reflexivity.
    + eapply (path_add _ _ _ _ _ _ (east [web "4"])); [reflexivity|reflexivity|reflexivity| |constructor].
      apply counts_small_intro. vm_compute. reflexivity.
Defined.

(** ** Where the updates and a new count differ *)

(** The pod with a node selector. *)
Definition with_selector (sel : gmap string string) (p : Pod) : Pod :=
  let s := Spec p in
  mkPod (Name p) (Namespace p) (UID p) (ResourceVersion p) (DeletionTimestamp p) (Labels p) (Annotations p)
    (mkPodSpec (Containers s) (InitContainers s) (Overhead s) (NodeName s) (SchedulerName s) (Priority s) (Volumes s)
       (spec_Affinity s) (Tolerations s) sel (TopologySpreadConstraints s) (PreemptionPolicy s)) (Status p).

(** A node selector keeps the pod to a node in the west; the only node of
    the east is not in the counts. *)
Definition web_west (uid : string) : Pod := with_selector {[zone_key := "west"%string]} (web uid).

(** [updateWithPod] of PodTopologySpread dereferences the count of the
    node's domain without asking whether there is one: for a node that has
    the topology keys but not what the pod's node selector asks for, in a
    domain of such nodes only, a matching pod that is nominated to it (or
    evicted from it) makes [AddPod] (or [RemovePod]) panic. *)
Theorem Spread_AddPod_panics delta :
  let pod := web_west "2" in
  (let! r := @Spread_PreFilter range_id (fun _ => ""%string) spread_plugin (two_zones [] []) NewCycleState pod in
   Spread_change delta r.1 pod (NewPodInfo (web "1")) (east [])) = Panic nil_panic.
Proof. vm_compute. done. Qed.

(** Two nodes in the west, one of them for databases: a web pod that may not
    go there, and so should be spread over the other node alone, finds the
    west too full, since the web pods on the node that is left out count. *)
Definition pool_node (name zone pool : string) : Node := sample_node name (<["pool"%string := pool]> {[zone_key := zone]}) 4000.

Definition shared_west : Snapshot :=
  mkSnapshot {["n1"%string := node_with (pool_node "n1" "east" "web") []; "n2"%string := node_with (pool_node "n2" "west" "web") [];
               "n3"%string := node_with (pool_node "n3" "west" "db") [web "1"]]} ["n1"; "n2"; "n3"]%string [] [] 1.

Theorem excluded_nodes_counted :
  let pod := with_selector {["pool"%string := "web"%string]} (web "2") in
  (let! r := @Spread_PreFilter range_id (fun _ => ""%string) spread_plugin shared_west NewCycleState pod in
   Ret (Status_Code (Spread_Filter r.1 pod (node_with (pool_node "n2" "west" "web") [])))) = Ret Unschedulable /\
  counted pod web_constraint (SN_List shared_west) "west" = 1 /\
  matching pod [web_constraint] web_constraint (SN_List shared_west) "west" = 0 /\
  matching pod [web_constraint] web_constraint (SN_List shared_west) "east" = 0.
Proof. vm_compute. done. Qed.

Definition leaving (p : Pod) : Pod :=
  mkPod (Name p) (Namespace p) (UID p) (ResourceVersion p) (Some 1) (Labels p) (Annotations p) (Spec p) (Status p).

(** A pod that is being deleted is not in the counts, and still [RemovePod]
    takes it from them: in the dry run of a preemption that takes such a pod
    from the east, the west seems crowded and refuses the pod that a new count
    admits. *)
Theorem Spread_RemovePod_terminating :
  let pod := web "2" in
  let snap := two_zones [leaving (web "1"); web "3"] [web "4"] in
  let codes cs := map (fun ni => Status_Code (Spread_Filter cs pod ni)) (SN_List snap) in
  (let! r := @Spread_PreFilter range_id (fun _ => ""%string) spread_plugin snap NewCycleState pod in
   let! r' := Spread_RemovePod r.1 pod (NewPodInfo (leaving (web "1"))) (east [web "3"]) in
   Ret (codes r.1, codes r'.1)) = Ret ([Success; Success], [Success; Unschedulable]) /\
  spread_codes (two_zones [web "3"] [web "4"]) pod = Ret [Success; Success; UnschedulableAndUnresolvable].
Proof. vm_compute. done. Qed.
