(* ===== verification/SpreadScore.v ===== *)
(** * Scoring by PodTopologySpread, and its constructor

    [podtopologyspread/scoring.go], the constructor of plugin.go and the
    validation of its arguments.  A node gets, for each soft constraint, the
    matching pods in its domain times a weight that is the logarithm of the
    number of domains; [NormalizeScore] turns the sums around, so that the
    least crowded nodes score highest.  [math.Log] is the class [MathLog]. *)

From S2P Require Import Prelude GoInt GoFloat GoFloatRound GoFloatBound GoStrconv Quantity ApiTypes Labels NodeAffinity AffinityTerms Resource HostPorts NodeInfo Samples Json Framework Snapshot SchedulingQueue Runtime NodePlugins PodTopologySpread SpreadProofs.

Open Scope go_scope.

(** [math.Log], whose result is rounded differently on some platforms: the
    logarithm of an integer from 2 on is positive, and below 37 for 53 bits. *)
Class MathLog := {
  math_Log : float64 -> float64;
  math_Log_within n : 2 <= n < 2 ^ 53 -> f64_within (math_Log (f64_of_Z n)) 37 0
}.

Definition invalidScore : Z := -1.

Section scoring.
Context {arch : GoArch} {mr : MapRange} {log : MathLog}.

Definition topologyNormalizingWeight (size : Z) : float64 := math_Log (f64_of_Z (size + 2)).

Definition scoreForCount (cnt maxSkew : Z) (tpWeight : float64) : float64 :=
  f64_add (f64_mul (f64_of_Z cnt) tpWeight) (f64_of_Z (int32 (maxSkew - 1))).

(** The loop over the constraints for one node: the pairs known so far and the
    number of values of each constraint's key. *)
Definition count_pair (node : Node) (st : gmap topologyPair Z * list Z) (e : nat * topologySpreadConstraint)
  : gmap topologyPair Z * list Z :=
  let '(i, c) := e in
  if String.eqb (sc_TopologyKey c) LabelHostname then st
  else
    let pair := pair_of node c in
    match st.1 !! pair with
    | Some _ => st
    | None => (<[pair := 0]> st.1, alter (Z.add 1) i st.2)
    end.

Definition indexed {A} (l : list A) : list (nat * A) := zip (seq 0 (length l)) l.

Definition init_node (constraints : list topologySpreadConstraint)
    (st : gset string * gmap topologyPair Z * list Z) (node : Node) : gset string * gmap topologyPair Z * list Z :=
  let '(ignored, counts, sizes) := st in
  if negb (nodeLabelsMatchSpreadConstraints (node_Labels node) constraints)
  then ({[node_Name node]} ∪ ignored, counts, sizes)
  else let '(counts, sizes) := fold_left (count_pair node) (indexed constraints) (counts, sizes) in (ignored, counts, sizes).

Definition initPreScoreState (pl : PodTopologySpread) (pod : Pod) (filteredNodes : list Node)
  : Spread_preScoreState + SelError :=
  match pod_constraints pl pod ScheduleAnyway with
  | inr e => inr e
  | inl [] => inl (mkSpreadScoreState [] ∅ ∅ [])
  | inl constraints =>
      let '(ignored, counts, topoSize) :=
        fold_left (init_node constraints) filteredNodes (∅, ∅, map (fun _ => 0) constraints) in
      let weights := zip_with (fun c sz =>
        topologyNormalizingWeight
          (if String.eqb (sc_TopologyKey c) LabelHostname
           then Z.of_nat (length filteredNodes) - Z.of_nat (size ignored) else sz)) constraints topoSize in
      inl (mkSpreadScoreState constraints ignored counts weights)
  end.

(** [processAllNode] *)
Definition score_count_node (pod : Pod) (constraints : list topologySpreadConstraint) (m : gmap topologyPair Z)
    (nodeInfo : NodeInfo) : gmap topologyPair Z :=
  match ni_node nodeInfo with
  | None => m
  | Some node =>
      if negb (spread_eligible pod constraints node) then m
      else
        fold_left (fun m c =>
          match m !! pair_of node c with
          | None => m
          | Some n =>
              <[pair_of node c := n +₆₄ countPodsMatchSelector (Pods nodeInfo) (sc_Selector c) (Namespace pod)]> m
          end) constraints m
  end.

Context (selector_message : SelError -> string).

Definition Spread_PreScore (pl : PodTopologySpread) (snap : Snapshot) (cs : CycleState) (pod : Pod) (filteredNodes : list Node)
  : CycleState * StatusPtr :=
  let allNodes := SN_List snap in
  if (length filteredNodes =? 0)%nat || (length allNodes =? 0)%nat then (cs, None)
  else
    match initPreScoreState pl pod filteredNodes with
    | inr e =>
        let what := if (0 <? length (TopologySpreadConstraints (Spec pod)))%nat
                    then "obtaining pod's soft topology spread constraints: "%string
                    else "setting default soft topology spread constraints: "%string in
        (cs, Some (AsStatus (str_app "calculating preScoreState: " (str_app what (selector_message e)))))
    | inl s =>
        match spc_Constraints s with
        | [] => (CS_Write cs Spread_preScoreStateKey (SD_SpreadScore s), None)
        | constraints =>
            let counts := fold_left (score_count_node pod constraints) (range 0 allNodes) (TopologyPairToPodCounts s) in
            (CS_Write cs Spread_preScoreStateKey
               (SD_SpreadScore (mkSpreadScoreState constraints (IgnoredNodes s) counts (TopologyNormalizingWeight s))), None)
        end
    end.

Definition Spread_getPreScoreState (cs : CycleState) : Spread_preScoreState + string :=
  match CS_Read cs Spread_preScoreStateKey with
  | inr e => inr (wrap_q "error reading " Spread_preScoreStateKey " from cycleState" (Some e))
  | inl (SD_SpreadScore s) => inl s
  | inl _ => inr "  convert to podtopologyspread.preScoreState error"%string
  end.

(** The round of the loop of [Score]. *)
Definition score_step (s : Spread_preScoreState) (pod : Pod) (nodeInfo : NodeInfo) (node : Node) (score : float64)
    (e : nat * topologySpreadConstraint) : outcome float64 :=
  let '(i, c) := e in
  match node_Labels node !! sc_TopologyKey c with
  | None => Ret score
  | Some tpVal =>
      let! cnt :=
        if String.eqb (sc_TopologyKey c) LabelHostname
        then Ret (countPodsMatchSelector (Pods nodeInfo) (sc_Selector c) (Namespace pod))
        else match TopologyPairToPodCounts s !! (sc_TopologyKey c, tpVal) with
             | Some n => Ret n
             | None => Panic nil_panic
             end in
      match TopologyNormalizingWeight s !! i with
      | None => Panic "index out of range"
      | Some weight => Ret (f64_add score (scoreForCount cnt (sc_MaxSkew c) weight))
      end
  end.

Definition Spread_Score (snap : Snapshot) (cs : CycleState) (pod : Pod) (nodeName : string) : outcome (Z * StatusPtr) :=
  match SN_Get snap nodeName with
  | inr e => Ret (0, Some (AsStatus (getting_node nodeName e)))
  | inl nodeInfo =>
      match Spread_getPreScoreState cs with
      | inr e => Ret (0, Some (AsStatus e))
      | inl s =>
          match ni_node nodeInfo with
          | None => Panic nil_panic
          | Some node =>
              if bool_decide (node_Name node ∈ IgnoredNodes s) then Ret (0, None)
              else
                let! score := ofold (score_step s pod nodeInfo node) (indexed (spc_Constraints s)) (S754_zero false) in
                Ret (int64_of_f64 score, None)
          end
      end
  end.

(** The lowest and the highest score of the nodes that are not ignored. *)
Definition spread_min_max (ignored : gset string) (scores : list NodeScore) : Z * Z :=
  fold_left (fun mm ns =>
    if bool_decide (ns_Name ns ∈ ignored) then mm
    else (if ns_Score ns <? mm.1 then ns_Score ns else mm.1, if mm.2 <? ns_Score ns then ns_Score ns else mm.2))
    scores (MaxInt64, 0).

Definition normalized (ignored : gset string) (minScore maxScore : Z) (ns : NodeScore) : NodeScore :=
  let s := if bool_decide (ns_Name ns ∈ ignored) then invalidScore else ns_Score ns in
  mkNodeScore (ns_Name ns)
    (if s =? invalidScore then 0
     else if maxScore =? 0 then MaxNodeScore
     else div64 (MaxNodeScore *₆₄ (maxScore +₆₄ minScore -₆₄ s)) maxScore).

Definition Spread_NormalizeScore (cs : CycleState) (scores : list NodeScore) : list NodeScore * StatusPtr :=
  match Spread_getPreScoreState cs with
  | inr e => (scores, Some (AsStatus e))
  | inl s =>
      let '(minScore, maxScore) := spread_min_max (IgnoredNodes s) scores in
      (map (normalized (IgnoredNodes s) minScore maxScore) scores, None)
  end.
End scoring.

(** ** The constructor *)

Definition SystemDefaulting : string := "System".
Definition ListDefaulting : string := "List".

Record PodTopologySpreadArgs := mkSpreadArgs {
  DefaultConstraints : list TopologySpreadConstraint;
  DefaultingType : string
}.

Definition validateDefaultingType (v : string) (constraints : list TopologySpreadConstraint) : bool :=
  (String.eqb v SystemDefaulting || String.eqb v ListDefaulting) &&
  negb (String.eqb v SystemDefaulting && (0 <? length constraints)%nat).

Definition validateTopologyKey (v : string) : bool := negb (String.eqb v "") && IsQualifiedName v.

Definition validateWhenUnsatisfiable (v : string) : bool := String.eqb v DoNotSchedule || String.eqb v ScheduleAnyway.

Definition validateConstraintNotRepeat (before : list TopologySpreadConstraint) (c : TopologySpreadConstraint) : bool :=
  forallb (fun other => negb (String.eqb (tsc_TopologyKey c) (tsc_TopologyKey other) &&
                              String.eqb (tsc_WhenUnsatisfiable c) (tsc_WhenUnsatisfiable other))) before.

Fixpoint validate_constraints (before constraints : list TopologySpreadConstraint) : bool :=
  match constraints with
  | [] => true
  | c :: constraints =>
      (0 <? tsc_MaxSkew c) && validateTopologyKey (tsc_TopologyKey c) && validateWhenUnsatisfiable (tsc_WhenUnsatisfiable c) &&
      match tsc_LabelSelector c with None => true | Some _ => false end &&
      validateConstraintNotRepeat before c && validate_constraints (before ++ [c]) constraints
  end.

(** Whether the arguments are without errors. *)
Definition ValidatePodTopologySpreadArgs (args : PodTopologySpreadArgs) : bool :=
  validateDefaultingType (DefaultingType args) (DefaultConstraints args) && validate_constraints [] (DefaultConstraints args).

(** [New], for arguments of the right type and a handle with its listers. *)
Definition PodTopologySpread_New (args : PodTopologySpreadArgs) (selector : Pod -> Selector) : PodTopologySpread + string :=
  if negb (ValidatePodTopologySpreadArgs args) then inr "invalid arguments"%string
  else
    inl (mkPodTopologySpread
           (if String.eqb (DefaultingType args) SystemDefaulting then systemDefaultConstraints else DefaultConstraints args)
           selector).

(** ** Scores are legal *)

(** *** Normalizing *)

Lemma spread_min_max_spec ignored scores B :
  0 < B <= MaxInt64 -> (forall ns, ns ∈ scores -> 0 <= ns_Score ns < B) ->
  let '(mn, mx) := spread_min_max ignored scores in
  0 <= mx < B /\ 0 <= mn <= MaxInt64 /\
  forall ns, ns ∈ scores -> ns_Name ns ∉ ignored -> mn <= ns_Score ns <= mx.
Proof.
  intros HB Hs. unfold spread_min_max. induction scores as [|ns l IH] using rev_ind;
    [split_and!; try done; [lia|by intros ? ?%elem_of_nil]|].
  rewrite fold_left_app. cbn [fold_left]. destruct (fold_left _ l _) as [mn mx].
  destruct IH as (H1 & H2 & H3); [intros x Hx; apply Hs, elem_of_app; by left|].
  assert (0 <= ns_Score ns < B) as Hns by (apply Hs, elem_of_app; right; by left).
  case_bool_decide as Hi.
  - split_and!; try lia. intros x [Hx|Hx]%elem_of_app Hni; [by apply H3|]. apply list_elem_of_singleton in Hx as ->. done.
  - cbn [fst snd]. destruct (Z.ltb_spec (ns_Score ns) mn), (Z.ltb_spec mx (ns_Score ns)); (split_and!; [lia..|]);
      intros x [Hx|Hx]%elem_of_app Hni; try (apply list_elem_of_singleton in Hx as ->; lia); specialize (H3 x Hx Hni); lia.
Qed.

Lemma normalized_value ignored mn mx ns :
  ns_Name ns ∉ ignored -> 0 <= mn <= ns_Score ns -> ns_Score ns <= mx -> mx < 2 ^ 55 ->
  ns_Score (normalized ignored mn mx ns) = if mx =? 0 then 100 else 100 * (mx + mn - ns_Score ns) / mx.
Proof.
  intros Hi Hmn Hle Hmx. unfold normalized. cbn [ns_Score]. rewrite bool_decide_false by done.
  unfold invalidScore, MaxNodeScore. rewrite (proj2 (Z.eqb_neq (ns_Score ns) (-1))) by lia.
  destruct (Z.eqb_spec mx 0) as [|Hne]; [done|].
  rewrite add64_exact by (int_unfold; lia). rewrite sub64_exact by (int_unfold; lia). rewrite mul64_exact by (int_unfold; lia).
  unfold div64. rewrite Z.quot_div_nonneg by lia. apply int64_id.
  assert (0 <= 100 * (mx + mn - ns_Score ns) / mx <= 100); [|int_unfold; lia].
  split; [apply Z.div_pos; lia|]. apply Z.div_le_upper_bound; lia.
Qed.

(** Every node gets a legal score; among the nodes that are not ignored, more
    matching pods never give a higher one, and ignored nodes get the lowest. *)
Lemma normalized_legal ignored scores :
  (forall ns, ns ∈ scores -> 0 <= ns_Score ns < 2 ^ 55) ->
  let '(mn, mx) := spread_min_max ignored scores in
  forall ns, ns ∈ scores ->
    legal_score (ns_Score (normalized ignored mn mx ns)) = true /\
    (ns_Name ns ∈ ignored -> ns_Score (normalized ignored mn mx ns) = 0) /\
    forall ns', ns' ∈ scores -> ns_Name ns ∉ ignored -> ns_Name ns' ∉ ignored -> ns_Score ns <= ns_Score ns' ->
      ns_Score (normalized ignored mn mx ns') <= ns_Score (normalized ignored mn mx ns).
Proof.
  intros Hs. pose proof (spread_min_max_spec ignored scores (2 ^ 55)) as Hmm. destruct (spread_min_max ignored scores) as [mn mx].
  destruct Hmm as (H1 & H2 & H3); [unfold MaxInt64; lia|done|]. intros ns Hns. specialize (Hs ns Hns).
  assert (ns_Name ns ∈ ignored -> ns_Score (normalized ignored mn mx ns) = 0) as H0.
  { intros Hi. unfold normalized. cbn [ns_Score]. by rewrite bool_decide_true. }
  assert (forall x, x ∈ scores -> ns_Name x ∉ ignored ->
    ns_Score (normalized ignored mn mx x) = if mx =? 0 then 100 else 100 * (mx + mn - ns_Score x) / mx) as Hv.
  { intros x Hx Hi. destruct (H3 x Hx Hi). apply normalized_value; [done|lia..]. }
  split_and!; [|done|].
  - destruct (decide (ns_Name ns ∈ ignored)) as [Hi|Hi]; [by rewrite H0|]. rewrite Hv by done. destruct (H3 ns Hns Hi).
    unfold legal_score, MinNodeScore, MaxNodeScore. destruct (Z.eqb_spec mx 0); [done|].
    assert (0 <= 100 * (mx + mn - ns_Score ns) / mx <= 100); [|lia].
    split; [apply Z.div_pos; lia|]. apply Z.div_le_upper_bound; lia.
  - intros ns' Hns' Hi Hi' Hle. rewrite !Hv by done. destruct (Z.eqb_spec mx 0); [lia|]. destruct (H3 ns Hns Hi).
    apply Z.div_le_mono; lia.
Qed.

(** *** The counts *)

Section legal.
Context {arch : GoArch} {mr : MapRange} {log : MathLog}.

Definition pods_total (nodes : list NodeInfo) : Z := Zsum (map (fun ni => Z.of_nat (length (Pods ni))) nodes).

Definition counts_within (B : Z) (m : gmap topologyPair Z) : Prop := forall x n, m !! x = Some n -> 0 <= n <= B.

Lemma score_count_bounds pod constraints nodes m B :
  counts_within B m -> 0 <= B -> B + Z.of_nat (length constraints) * pods_total nodes < 2 ^ 53 ->
  let m' := fold_left (score_count_node pod constraints) nodes m in
  counts_within (B + Z.of_nat (length constraints) * pods_total nodes) m' /\ forall x, is_Some (m !! x) -> is_Some (m' !! x).
Proof.
  cbv zeta. revert m B. induction nodes as [|ni nodes IH]; intros m B Hm HB Hb; cbn [fold_left].
  { unfold pods_total, Zsum in *. simpl in *. split; [|done]. intros x n Hx. specialize (Hm x n Hx). lia. }
  set (P := Z.of_nat (length (Pods ni))). assert (pods_total (ni :: nodes) = P + pods_total nodes) as HT by done.
  assert (0 <= pods_total nodes) as H0 by (unfold pods_total; apply Zsum_nonneg; intros; lia).
  assert (counts_within (B + Z.of_nat (length constraints) * P) (score_count_node pod constraints m ni) /\
    forall x, is_Some (m !! x) -> is_Some (score_count_node pod constraints m ni !! x)) as [Hs Hd].
  { unfold score_count_node. destruct (ni_node ni) as [node|]; [|split; [intros x n Hx; specialize (Hm x n Hx); nia|done]].
    destruct (negb _); [split; [intros x n Hx; specialize (Hm x n Hx); nia|done]|].
    assert (B + Z.of_nat (length constraints) * P < 2 ^ 53) as Hb' by nia. clear IH Hb HT.
    revert m B Hm HB Hb'. induction constraints as [|c cs IHc]; intros m B Hm HB Hb'; cbn [fold_left length].
    { split; [|done]. intros x n Hx. specialize (Hm x n Hx). lia. }
    set (k := countPodsMatchSelector (Pods ni) (sc_Selector c) (Namespace pod)).
    assert (0 <= k <= P) as Hk.
    { unfold k, P, countPodsMatchSelector.
      pose proof (List.filter_length_le (fun p => spread_counts (sc_Selector c) (Namespace pod) (pi_Pod p)) (Pods ni)). lia. }
    cbn [length] in Hb'.
    set (m1 := match m !! pair_of node c with Some n => <[pair_of node c := n +₆₄ k]> m | None => m end).
    assert (counts_within (B + P) m1 /\ forall x, is_Some (m !! x) -> is_Some (m1 !! x)) as [Hm1 Hd1].
    { unfold m1. destruct (m !! pair_of node c) as [n|] eqn:En; [|split; [intros x y Hx; specialize (Hm x y Hx); lia|done]].
      pose proof (Hm _ _ En). rewrite add64_exact by (int_unfold; nia). split.
      - intros x y. destruct (decide (pair_of node c = x)) as [<- |Hne]; [rewrite lookup_insert_eq; intros [= <-]; lia|].
        rewrite lookup_insert_ne by done. intros Hx. specialize (Hm x y Hx). lia.
      - intros x Hx. destruct (decide (pair_of node c = x)) as [<- |Hne]; [rewrite lookup_insert_eq; by eexists|by rewrite lookup_insert_ne]. }
    destruct (IHc m1 (B + P) Hm1) as [IH1 IH2]; [lia|nia|]. split; [|intros x Hx; by apply IH2, Hd1].
    intros x y Hx. specialize (IH1 x y Hx). nia. }
  rewrite HT in *. destruct (IH _ (B + Z.of_nat (length constraints) * P) Hs) as [IH1 IH2]; [nia|nia|].
  split; [|intros x Hx; by apply IH2, Hd]. intros x n Hx. specialize (IH1 x n Hx). nia.
Qed.

Lemma count_pair_fold node (l : list (nat * topologySpreadConstraint)) counts sizes B :
  counts_within 0 counts -> (forall i z, sizes !! i = Some z -> 0 <= z <= B) ->
  let '(counts', sizes') := fold_left (count_pair node) l (counts, sizes) in
  counts_within 0 counts' /\ length sizes' = length sizes /\
  (forall i z, sizes' !! i = Some z -> 0 <= z <= B + Z.of_nat (length l)) /\
  (forall x, is_Some (counts !! x) -> is_Some (counts' !! x)) /\
  (forall i c, (i, c) ∈ l -> sc_TopologyKey c <> LabelHostname -> is_Some (counts' !! pair_of node c)).
Proof.
  revert counts sizes B. induction l as [|[i c] l IH]; intros counts sizes B Hc Hs; cbn [fold_left length].
  { split_and!; try done; [intros j z Hj; specialize (Hs j z Hj); lia|by intros j c ?%elem_of_nil]. }
  assert (exists counts1 sizes1, count_pair node (counts, sizes) (i, c) = (counts1, sizes1) /\ counts_within 0 counts1 /\
    length sizes1 = length sizes /\ (forall j z, sizes1 !! j = Some z -> 0 <= z <= B + 1) /\
    (forall x, is_Some (counts !! x) -> is_Some (counts1 !! x)) /\
    (sc_TopologyKey c <> LabelHostname -> is_Some (counts1 !! pair_of node c))) as (c1 & s1 & -> & H1 & H2 & H3 & H4 & H5).
  { cbn [count_pair fst snd]. destruct (String.eqb_spec (sc_TopologyKey c) LabelHostname) as [E|Hne].
    { do 2 eexists. split_and!; try done. intros j z Hj. specialize (Hs j z Hj). lia. }
    destruct (counts !! pair_of node c) as [n|] eqn:En.
    { exists counts, sizes. split_and!; [done..| |done|intros _; rewrite En; by eexists]. intros j z Hj. specialize (Hs j z Hj). lia. }
    do 2 eexists. split_and!; [done| |apply length_alter| | |].
    - intros x y. destruct (decide (pair_of node c = x)) as [<- |Hx]; [rewrite lookup_insert_eq; by intros [= <-]|].
      rewrite lookup_insert_ne by done. apply Hc.
    - intros j z. destruct (decide (i = j)) as [<- |Hj].
      + rewrite list_lookup_alter_eq. destruct (sizes !! i) as [y|] eqn:Ey; [|done]. intros [= <-]. specialize (Hs i y Ey). lia.
      + rewrite list_lookup_alter_ne by done. intros Hz. specialize (Hs j z Hz). lia.
    - intros x Hx. destruct (decide (pair_of node c = x)) as [<- |Hne']; [rewrite lookup_insert_eq; by eexists|by rewrite lookup_insert_ne].
    - intros _. rewrite lookup_insert_eq. by eexists. }
  specialize (IH c1 s1 (B + 1) H1 H3). destruct (fold_left (count_pair node) l (c1, s1)) as [c2 s2].
  destruct IH as (I1 & I2 & I3 & I4 & I5). split_and!; [done|congruence| | |].
  - intros j z Hj. specialize (I3 j z Hj). lia.
  - intros x Hx. by apply I4, H4.
  - intros j d [[= -> ->]|Hd]%elem_of_cons Hne; [by apply I4, H5|by apply (I5 j)].
Qed.

Lemma elem_of_indexed {A} (l : list A) c : c ∈ l -> exists i, (i, c) ∈ indexed l /\ (i < length l)%nat.
Proof.
  intros Hc. apply list_elem_of_lookup_1 in Hc as [i Hi]. exists i. pose proof (lookup_lt_Some _ _ _ Hi) as Hlt. split; [|done].
  apply list_elem_of_lookup. exists i. unfold indexed. apply lookup_zip_with_Some. exists i, c. split_and!; [done| |done].
  apply lookup_seq. lia.
Qed.

Lemma indexed_elem {A} (l : list A) i c : (i, c) ∈ indexed l -> (i < length l)%nat /\ c ∈ l.
Proof.
  intros Hin. apply list_elem_of_lookup_1 in Hin as [j Hj]. unfold indexed in Hj.
  apply lookup_zip_with_Some in Hj as (i' & c' & [= -> ->] & Hs & Hc). apply lookup_seq in Hs as [-> Hlt]. split; [lia|].
  by eapply list_elem_of_lookup_2.
Qed.

(** What [initPreScoreState] sets up for the nodes. *)
Lemma init_fold constraints nodes :
  let C := Z.of_nat (length constraints) in
  let '(ignored, counts, sizes) := fold_left (init_node constraints) nodes (∅, ∅, map (fun _ => 0) constraints) in
  counts_within 0 counts /\ length sizes = length constraints /\
  (forall i z, sizes !! i = Some z -> 0 <= z <= Z.of_nat (length nodes) * C) /\
  (size ignored <= length nodes)%nat /\
  (forall node, node ∈ nodes -> node_Name node ∉ ignored ->
     forall c, c ∈ constraints -> sc_TopologyKey c <> LabelHostname -> is_Some (counts !! pair_of node c)).
Proof.
  cbv zeta. induction nodes as [|node nodes IH] using rev_ind; cbn [fold_left].
  { split_and!; [intros x n; by rewrite lookup_empty|by rewrite length_map| |done|by intros ? ?%elem_of_nil].
    intros i z Hi. apply list_elem_of_lookup_2, list_elem_of_fmap in Hi as (c & -> & _). simpl. lia. }
  rewrite fold_left_app. cbn [fold_left]. destruct (fold_left _ nodes _) as [[ignored counts] sizes].
  destruct IH as (H1 & H2 & H3 & H4 & H5). unfold init_node.
  destruct (negb (nodeLabelsMatchSpreadConstraints (node_Labels node) constraints)) eqn:El.
  - rewrite length_app. cbn [length]. split_and!; [done|done| | |].
    + intros i z Hi. specialize (H3 i z Hi). nia.
    + pose proof (size_union_alt {[node_Name node]} ignored) as Hsz. rewrite size_singleton in Hsz.
      assert (size (ignored ∖ {[node_Name node]}) <= size ignored)%nat by (apply subseteq_size; set_solver). lia.
    + intros n [Hn|Hn]%elem_of_app Hni c Hc Hne; [apply (H5 n); [done|set_solver|done|done]|].
      apply list_elem_of_singleton in Hn as ->. exfalso. set_solver.
  - pose proof (count_pair_fold node (indexed constraints) counts sizes (Z.of_nat (length nodes) * Z.of_nat (length constraints)) H1 H3) as Hf.
    destruct (fold_left (count_pair node) _ _) as [counts' sizes']. destruct Hf as (F1 & F2 & F3 & F4 & F5).
    rewrite length_app. cbn [length]. split_and!; [done|congruence| |lia|].
    + intros i z Hi. specialize (F3 i z Hi). unfold indexed in F3. rewrite length_zip_with, length_seq in F3. nia.
    + intros n [Hn|Hn]%elem_of_app Hni c Hc Hne; [by apply F4, (H5 n)|]. apply list_elem_of_singleton in Hn as ->.
      destruct (elem_of_indexed constraints c Hc) as (i & Hi & _). by apply (F5 i).
Qed.

(** *** The scores *)

Lemma scoreForCount_within cnt skew w :
  0 <= cnt < 2 ^ 31 -> 1 <= skew < 2 ^ 31 -> f64_within w 37 0 -> f64_within (scoreForCount cnt skew w) (38 * 2 ^ 31) 0.
Proof.
  intros Hc Hs Hw. unfold scoreForCount. rewrite int32_id by (int_unfold; lia).
  assert (f64_within (f64_mul (f64_of_Z cnt) w) (cnt * 37) 0) as Hm.
  { apply (f64_mul_within _ _ cnt 0 37 0); try lia; [apply f64_of_Z_within; lia|done|split; lia]. }
  eapply f64_within_weaken; [apply (f64_add_within _ _ (cnt * 37) (skew - 1) 0 Hm); [apply f64_of_Z_within; lia|split; lia|lia|lia]| |lia].
  apply fval_le; lia.
Qed.

Lemma spread_score_loop s pod ni node l score k :
  (forall i c, (i, c) ∈ l -> 1 <= sc_MaxSkew c < 2 ^ 31 /\
     (exists w, TopologyNormalizingWeight s !! i = Some w /\ f64_within w 37 0) /\
     (sc_TopologyKey c <> LabelHostname -> forall v, node_Labels node !! sc_TopologyKey c = Some v ->
        exists n, TopologyPairToPodCounts s !! (sc_TopologyKey c, v) = Some n /\ 0 <= n < 2 ^ 31)) ->
  Z.of_nat (length (Pods ni)) < 2 ^ 31 -> f64_within score (38 * 2 ^ 31 * k) 0 -> 0 <= k -> k + Z.of_nat (length l) <= 1000 ->
  exists score', ofold (score_step s pod ni node) l score = Ret score' /\
    f64_within score' (38 * 2 ^ 31 * (k + Z.of_nat (length l))) 0.
Proof.
  revert score k. induction l as [|[i c] l IH]; intros score k Hl Hp Hsc Hk Hb; cbn [ofold length].
  { exists score. split; [done|]. by rewrite Z.add_0_r. }
  destruct (Hl i c ltac:(left)) as (Hskew & (w & Hw & Hwi) & Hn). cbn [length] in Hb.
  assert (exists score1, score_step s pod ni node score (i, c) = Ret score1 /\ f64_within score1 (38 * 2 ^ 31 * (k + 1)) 0) as (score1 & -> & H1).
  { cbn [score_step]. destruct (node_Labels node !! sc_TopologyKey c) as [v|] eqn:Ev.
    2:{ exists score. split; [done|]. eapply f64_within_weaken; [exact Hsc|apply fval_le; lia|lia]. }
    assert (exists cnt, (if String.eqb (sc_TopologyKey c) LabelHostname
        then Ret (countPodsMatchSelector (Pods ni) (sc_Selector c) (Namespace pod))
        else match TopologyPairToPodCounts s !! (sc_TopologyKey c, v) with Some n => Ret n | None => Panic nil_panic end) = Ret cnt /\
      0 <= cnt < 2 ^ 31) as (cnt & -> & Hcnt).
    { destruct (String.eqb_spec (sc_TopologyKey c) LabelHostname) as [E|Hne].
      - eexists. split; [done|]. unfold countPodsMatchSelector.
        pose proof (List.filter_length_le (fun p => spread_counts (sc_Selector c) (Namespace pod) (pi_Pod p)) (Pods ni)). lia.
      - destruct (Hn Hne v eq_refl) as (n & -> & Hn'). by exists n. }
    cbn [obind]. rewrite Hw. eexists. split; [done|].
    replace (38 * 2 ^ 31 * (k + 1)) with (38 * 2 ^ 31 * k + 38 * 2 ^ 31) by ring.
    apply f64_add_within; [done|by apply scoreForCount_within|split; lia|lia|lia]. }
  cbn [obind]. destruct (IH score1 (k + 1)) as (score' & -> & H'); try done; [|lia|lia|].
  - intros j d Hd. apply (Hl j d). by right.
  - exists score'. split; [done|]. by replace (k + Z.of_nat (S (length l))) with (k + 1 + Z.of_nat (length l)) by lia.
Qed.

(** The nodes that are scored, as the snapshot has them. *)
Definition in_snapshot (snap : Snapshot) (node : Node) : Prop :=
  exists ni, SN_Get snap (node_Name node) = inl ni /\ ni_node ni = Some node /\ ni ∈ SN_List snap.

Lemma pods_total_elem ni nodes : ni ∈ nodes -> Z.of_nat (length (Pods ni)) <= pods_total nodes.
Proof.
  intros Hin. apply list_elem_of_split in Hin as (l1 & l2 & ->). unfold pods_total. rewrite map_app, Zsum_app. cbn [map].
  change (Zsum (?a :: ?l)) with (a + Zsum l).
  assert (forall l, 0 <= Zsum (map (fun ni => Z.of_nat (length (Pods ni))) l)) as H by (intros l; apply Zsum_nonneg; intros; lia).
  pose proof (H l1). pose proof (H l2). lia.
Qed.

Lemma init_state pl pod nodes constraints :
  pod_constraints pl pod ScheduleAnyway = inl constraints -> constraints <> [] ->
  Z.of_nat (length nodes) * Z.of_nat (length constraints) + 2 < 2 ^ 53 ->
  exists s, initPreScoreState pl pod nodes = inl s /\ spc_Constraints s = constraints /\
    counts_within 0 (TopologyPairToPodCounts s) /\
    (forall i c, (i, c) ∈ indexed constraints -> exists w, TopologyNormalizingWeight s !! i = Some w /\ f64_within w 37 0) /\
    forall node, node ∈ nodes -> node_Name node ∉ IgnoredNodes s ->
      forall c, c ∈ constraints -> sc_TopologyKey c <> LabelHostname -> is_Some (TopologyPairToPodCounts s !! pair_of node c).
Proof.
  intros Hc Hne Hb. unfold initPreScoreState. rewrite Hc. pose proof (init_fold constraints nodes) as Hf. cbv zeta in Hf.
  destruct constraints as [|c0 cs0] eqn:Ecs; [done|]. rewrite <- Ecs in *.
  destruct (fold_left _ nodes _) as [[ignored counts] sizes]. destruct Hf as (F1 & F2 & F3 & F4 & F5).
  eexists. split; [done|]. cbn [spc_Constraints TopologyPairToPodCounts TopologyNormalizingWeight IgnoredNodes]. split_and!; try done.
  intros i c Hi. apply indexed_elem in Hi as [Hlt _]. destruct (lookup_lt_is_Some_2 constraints i Hlt) as [d Hd].
  destruct (lookup_lt_is_Some_2 sizes i) as [z Hz]; [by rewrite F2|]. eexists. split.
  { apply lookup_zip_with_Some. by exists d, z. }
  specialize (F3 i z Hz). assert (1 <= Z.of_nat (length constraints)) by (rewrite Ecs; simpl; lia).
  apply math_Log_within. destruct (String.eqb _ _); nia.
Qed.

(** The plugin's scores for the nodes that passed the filters are legal after
    [NormalizeScore], whatever the order in which the nodes are counted, and no
    step fails or panics. *)
Theorem Spread_scores_legal selector_message pl snap cs pod nodes constraints :
  pod_constraints pl pod ScheduleAnyway = inl constraints -> constraints <> [] ->
  (forall c, c ∈ constraints -> 1 <= sc_MaxSkew c < 2 ^ 31) -> Z.of_nat (length constraints) <= 1000 ->
  nodes <> [] -> Forall (in_snapshot snap) nodes ->
  Z.of_nat (length constraints) * pods_total (SN_List snap) < 2 ^ 31 ->
  Z.of_nat (length nodes) * Z.of_nat (length constraints) + 2 < 2 ^ 53 ->
  exists cs' raw, Spread_PreScore selector_message pl snap cs pod nodes = (cs', None) /\
    Forall2 (fun node z => Spread_Score snap cs' pod (node_Name node) = Ret (z, None)) nodes raw /\
    exists final, Spread_NormalizeScore cs' (zip_with (fun node z => mkNodeScore (node_Name node) z) nodes raw) = (final, None) /\
      Forall (fun ns => legal_score (ns_Score ns) = true) final.
Proof.
  intros Hc Hne Hskew HC Hnodes HF Hpods Hb. unfold Spread_PreScore.
  rewrite (proj2 (Nat.eqb_neq (length nodes) 0)) by (by destruct nodes). cbn [orb].
  assert (length (SN_List snap) <> 0%nat) as Hsn.
  { destruct nodes as [|n ns]; [done|]. apply Forall_cons in HF as [(ni & _ & _ & Hin) _].
    destruct (SN_List snap); [by apply elem_of_nil in Hin|done]. }
  rewrite (proj2 (Nat.eqb_neq (length (SN_List snap)) 0)) by done.
  destruct (init_state pl pod nodes constraints Hc Hne Hb) as (s & -> & Es & Hcw & Hw & Hpairs). rewrite Es.
  destruct constraints as [|c0 cs0] eqn:Ecs; [done|]. rewrite <- Ecs in *.
  set (counts := fold_left _ (range 0 (SN_List snap)) _). set (s' := mkSpreadScoreState _ _ counts _).
  assert (pods_total (range 0 (SN_List snap)) = pods_total (SN_List snap)) as HT
    by (apply Zsum_perm, Permutation_map, range_perm).
  destruct (score_count_bounds pod constraints (range 0 (SN_List snap)) (TopologyPairToPodCounts s) 0 Hcw) as [Hcb Hdom];
    [lia|rewrite HT; lia|]. fold counts in Hcb, Hdom. rewrite HT, Z.add_0_l in Hcb.
  set (cs' := CS_Write cs Spread_preScoreStateKey (SD_SpreadScore s')).
  assert (Spread_getPreScoreState cs' = inl s') as Hget.
  { unfold Spread_getPreScoreState, cs'. by rewrite (proj1 (CycleState_laws _ _ _ Spread_preScoreStateKey)). }
  assert (forall node, node ∈ nodes -> exists z, Spread_Score snap cs' pod (node_Name node) = Ret (z, None) /\ 0 <= z < 2 ^ 55) as Hscore.
  { intros node Hin. rewrite Forall_forall in HF. destruct (HF node Hin) as (ni & Hg & Hn & Hni). unfold Spread_Score. rewrite Hg, Hget, Hn.
    case_bool_decide as Hi; [by exists 0|]. cbn [s' spc_Constraints].
    destruct (spread_score_loop s' pod ni node (indexed constraints) (S754_zero false) 0) as (score' & -> & Hs').
    - intros i c Hic. destruct (indexed_elem _ _ _ Hic) as [_ Hcin]. split_and!; [by apply Hskew..|by apply (Hw i c)|].
      intros Hnh v Hv. destruct (Hpairs node Hin Hi c Hcin Hnh) as [n0 Hn0].
      destruct (Hdom (pair_of node c)) as [n Hnn]; [by eexists|]. exists n. unfold pair_of, label in Hnn. rewrite Hv in Hnn. split; [done|].
      specialize (Hcb _ _ Hnn). lia.
    - pose proof (pods_total_elem ni (SN_List snap) Hni). assert (1 <= Z.of_nat (length constraints)) by (rewrite Ecs; simpl; lia). nia.
    - done.
    - lia.
    - unfold indexed. rewrite length_zip_with, length_seq. lia.
    - cbn [obind]. eexists. split; [done|]. unfold indexed in Hs'. rewrite length_zip_with, length_seq, Nat.min_id in Hs'.
      apply int64_of_f64_within in Hs'; lia. }
  assert (exists raw, Forall2 (fun node z => Spread_Score snap cs' pod (node_Name node) = Ret (z, None) /\ 0 <= z < 2 ^ 55) nodes raw)
    as [raw Hraw].
  { clear -Hscore. induction nodes as [|n l IH]; [by exists []|]. destruct IH as [raw IH]; [intros m Hm; apply Hscore; by right|].
    destruct (Hscore n ltac:(left)) as (z & Hz). exists (z :: raw). by constructor. }
  exists cs', raw. split; [done|]. split; [eapply Forall2_impl; [exact Hraw|]; by intros ? ? [? _]|].
  unfold Spread_NormalizeScore. rewrite Hget. set (scores := zip_with _ nodes raw).
  pose proof (normalized_legal (IgnoredNodes s') scores) as Hn. destruct (spread_min_max (IgnoredNodes s') scores) as [mn mx].
  eexists. split; [done|]. apply Forall_forall. intros x Hx. apply list_elem_of_fmap in Hx as (ns & -> & Hns).
  apply Hn; [|done]. intros y Hy. unfold scores in Hy.
  apply list_elem_of_lookup_1 in Hy as [i Hi]. apply lookup_zip_with_Some in Hi as (a & b & -> & Ha & Hb').
  cbn [ns_Score]. by destruct (Forall2_lookup_lr _ _ _ _ _ _ Hraw Ha Hb') as [_ ?].
Qed.
End legal.
