(* ===== verification/Cache.v ===== *)
(** * The scheduler cache

    [internal/cache/cache.go]: the scheduler's view of the cluster, fed by
    events about pods and nodes and by the scheduler's own assumptions, and
    the incremental update of the snapshot a scheduling cycle uses.

    The nodes are linked into a list, most recently changed first.  An item
    of that list is named by the node it is for, so that a pointer to an item
    is an optional node name.  [klog.Fatal] ends the process and is a
    [Panic].  The mutex serialises the operations, which are therefore
    atomic steps. *)

From S2P Require Import Prelude GoInt GoFloat GoStrconv Quantity ApiTypes Resource HostPorts AffinityTerms NodeInfo Framework Snapshot NodeTree.

Local Open Scope go_scope.

Record nodeInfoListItem := mkItem {
  it_info : NodeInfo;
  it_next : option string;
  it_prev : option string
}.

Record podState := mkPodState {
  ps_pod : Pod;
  ps_deadline : option Z;
  ps_bindingFinished : bool
}.

Record imageState := mkImageState { im_size : Z; im_nodes : gset string }.

Record schedulerCache := mkCache {
  ttl : Z;
  assumedPods : gset string;
  podStates : gmap string podState;
  nodes : gmap string nodeInfoListItem;
  headNode : option string;
  c_nodeTree : nodeTree;
  imageStates : gmap string imageState;
  world : World
}.

Definition newSchedulerCache (ttl : Z) : schedulerCache :=
  mkCache ttl ∅ ∅ ∅ None (newNodeTree []) ∅ (mkWorld 0 []).

(** Updates of the fields. *)
Definition with_nodes (n : gmap string nodeInfoListItem) (h : option string) (c : schedulerCache) :=
  mkCache (ttl c) (assumedPods c) (podStates c) n h (c_nodeTree c) (imageStates c) (world c).
Definition with_pods (a : gset string) (p : gmap string podState) (c : schedulerCache) :=
  mkCache (ttl c) a p (nodes c) (headNode c) (c_nodeTree c) (imageStates c) (world c).
Definition with_tree (t : nodeTree) (c : schedulerCache) :=
  mkCache (ttl c) (assumedPods c) (podStates c) (nodes c) (headNode c) t (imageStates c) (world c).
Definition with_images (i : gmap string imageState) (c : schedulerCache) :=
  mkCache (ttl c) (assumedPods c) (podStates c) (nodes c) (headNode c) (c_nodeTree c) i (world c).
Definition with_world (w : World) (c : schedulerCache) :=
  mkCache (ttl c) (assumedPods c) (podStates c) (nodes c) (headNode c) (c_nodeTree c) (imageStates c) w.

(** [p.next = v] and [p.prev = v] through a pointer that may be [nil]. *)
Definition set_next (p v : option string) (m : gmap string nodeInfoListItem) :=
  match p with
  | Some k => alter (fun it => mkItem (it_info it) v (it_prev it)) k m
  | None => m
  end.
Definition set_prev (p v : option string) (m : gmap string nodeInfoListItem) :=
  match p with
  | Some k => alter (fun it => mkItem (it_info it) (it_next it) v) k m
  | None => m
  end.
Definition set_info (name : string) (i : NodeInfo) (m : gmap string nodeInfoListItem) :=
  alter (fun it => mkItem i (it_next it) (it_prev it)) name m.

(** ** The list *)

(** On the map and the head pointer. *)
Definition list_move (name : string) (m : gmap string nodeInfoListItem) (head : option string)
    : gmap string nodeInfoListItem * option string :=
  match m !! name with
  | None => (m, head)
  | Some ni =>
      if bool_decide (head = Some name) then (m, head)
      else
        let m := set_next (it_prev ni) (it_next ni) m in
        let m := set_prev (it_next ni) (it_prev ni) m in
        let m := set_prev head (Some name) m in
        let m := set_next (Some name) head m in
        let m := set_prev (Some name) None m in
        (m, Some name)
  end.

Definition list_remove (name : string) (m : gmap string nodeInfoListItem) (head : option string)
    : gmap string nodeInfoListItem * option string :=
  match m !! name with
  | None => (m, head)
  | Some ni =>
      let m := set_next (it_prev ni) (it_next ni) m in
      let m := set_prev (it_next ni) (it_prev ni) m in
      let head := if bool_decide (head = Some name) then it_next ni else head in
      (delete name m, head)
  end.

Definition moveNodeInfoToHead (name : string) (c : schedulerCache) : schedulerCache :=
  let r := list_move name (nodes c) (headNode c) in with_nodes r.1 r.2 c.

Definition removeNodeInfoFromList (name : string) (c : schedulerCache) : schedulerCache :=
  let r := list_remove name (nodes c) (headNode c) in with_nodes r.1 r.2 c.

Section cache.
Context {arch : GoArch} {gates : FeatureGates} {mr : MapRange}.

(** The item for a node, made if there is none: [newNodeInfoListItem]. *)
Definition ensure_item (name : string) (c : schedulerCache) : schedulerCache :=
  match nodes c !! name with
  | Some _ => c
  | None =>
      let '(ni, w) := NewNodeInfo (world c) in
      with_world w (with_nodes (<[name := mkItem ni None None]> (nodes c)) (headNode c) c)
  end.

(** [n.info.op(...)] for the item of a node that is in the map. *)
Definition on_info (name : string) (op : NodeInfo -> World -> NodeInfo * World) (c : schedulerCache)
    : schedulerCache :=
  match nodes c !! name with
  | Some it =>
      let '(ni, w) := op (it_info it) (world c) in
      with_world w (with_nodes (set_info name ni (nodes c)) (headNode c) c)
  | None => c
  end.

(** ** Pods *)

Definition addPod (pod : Pod) (c : schedulerCache) : schedulerCache :=
  let name := NodeName (Spec pod) in
  moveNodeInfoToHead name (on_info name (AddPod pod) (ensure_item name c)).

Definition removePod (pod : Pod) (c : schedulerCache) : outcome (schedulerCache * error) :=
  let name := NodeName (Spec pod) in
  match nodes c !! name with
  | None => Ret (c, None)
  | Some it =>
      let! r := RemovePod pod (it_info it) (world c) in let '(ni, w, err) := r in
      let c := with_world w (with_nodes (set_info name ni (nodes c)) (headNode c) c) in
      match err with
      | Some e => Ret (c, Some e)
      | None =>
          if (length (Pods ni) =? 0)%nat && match ni_node ni with None => true | Some _ => false end
          then Ret (removeNodeInfoFromList name c, None)
          else Ret (moveNodeInfoToHead name c, None)
      end
  end.

Definition updatePod (oldPod newPod : Pod) (c : schedulerCache) : outcome (schedulerCache * error) :=
  let! r := removePod oldPod c in let '(c, err) := r in
  match err with
  | Some e => Ret (c, Some e)
  | None => Ret (addPod newPod c, None)
  end.

Definition AssumePod (pod : Pod) (c : schedulerCache) : schedulerCache * error :=
  match GetPodKey pod with
  | (_, Some e) => (c, Some e)
  | (key, None) =>
      match podStates c !! key with
      | Some _ => (c, Some (str_app "pod " (str_app key " is in the cache, so can't be assumed")))
      | None =>
          let c := addPod pod c in
          (with_pods (assumedPods c ∪ {[key]}) (<[key := mkPodState pod None false]> (podStates c)) c, None)
      end
  end.

Definition finishBinding (pod : Pod) (now : Z) (c : schedulerCache) : schedulerCache * error :=
  match GetPodKey pod with
  | (_, Some e) => (c, Some e)
  | (key, None) =>
      match podStates c !! key with
      | Some currState =>
          if bool_decide (key ∈ assumedPods c)
          then (with_pods (assumedPods c)
                  (<[key := mkPodState (ps_pod currState) (Some (now + ttl c)) true]> (podStates c)) c, None)
          else (c, None)
      | None => (c, None)
      end
  end.

Definition ForgetPod (pod : Pod) (c : schedulerCache) : outcome (schedulerCache * error) :=
  match GetPodKey pod with
  | (_, Some e) => Ret (c, Some e)
  | (key, None) =>
      let not_assumed :=
        Ret (c, Some (str_app "pod " (str_app key " wasn't assumed so cannot be forgotten"))) in
      match podStates c !! key with
      | Some currState =>
          if negb (String.eqb (NodeName (Spec (ps_pod currState))) (NodeName (Spec pod)))
          then Ret (c, Some (str_app "pod " (str_app key " was assumed on another node")))
          else if bool_decide (key ∈ assumedPods c) then
            let! r := removePod pod c in let '(c, err) := r in
            match err with
            | Some e => Ret (c, Some e)
            | None => Ret (with_pods (assumedPods c ∖ {[key]}) (delete key (podStates c)) c, None)
            end
          else not_assumed
      | None => not_assumed
      end
  end.

Definition cache_AddPod (pod : Pod) (c : schedulerCache) : outcome (schedulerCache * error) :=
  match GetPodKey pod with
  | (_, Some e) => Ret (c, Some e)
  | (key, None) =>
      match podStates c !! key with
      | Some currState =>
          if bool_decide (key ∈ assumedPods c) then
            let! c :=
              (if negb (String.eqb (NodeName (Spec (ps_pod currState))) (NodeName (Spec pod)))
               then let! r := removePod (ps_pod currState) c in Ret (addPod pod r.1)
               else Ret c) in
            Ret (with_pods (assumedPods c ∖ {[key]})
                   (alter (fun ps => mkPodState pod None (ps_bindingFinished ps)) key (podStates c)) c, None)
          else Ret (c, Some (str_app "pod " (str_app key " was already in added state")))
      | None =>
          let c := addPod pod c in
          Ret (with_pods (assumedPods c) (<[key := mkPodState pod None false]> (podStates c)) c, None)
      end
  end.

Definition corrupted : string := "Schedulercache is corrupted and can badly affect scheduling decisions".

Definition UpdatePod (oldPod newPod : Pod) (c : schedulerCache) : outcome (schedulerCache * error) :=
  match GetPodKey oldPod with
  | (_, Some e) => Ret (c, Some e)
  | (key, None) =>
      let not_added := Ret (c, Some (str_app "pod " (str_app key
        " is not added to scheduler cache, so cannot be updated"))) in
      match podStates c !! key with
      | Some currState =>
          if bool_decide (key ∈ assumedPods c) then not_added
          else if negb (String.eqb (NodeName (Spec (ps_pod currState))) (NodeName (Spec newPod)))
          then Panic corrupted
          else
            let! r := updatePod oldPod newPod c in let '(c, err) := r in
            match err with
            | Some e => Ret (c, Some e)
            | None =>
                Ret (with_pods (assumedPods c)
                       (alter (fun ps => mkPodState newPod (ps_deadline ps) (ps_bindingFinished ps))
                          key (podStates c)) c, None)
            end
      | None => not_added
      end
  end.

Definition cache_RemovePod (pod : Pod) (c : schedulerCache) : outcome (schedulerCache * error) :=
  match GetPodKey pod with
  | (_, Some e) => Ret (c, Some e)
  | (key, None) =>
      let not_found := Ret (c, Some (str_app "pod " (str_app key
        " is not found in scheduler cache, so cannot be removed from it"))) in
      match podStates c !! key with
      | Some currState =>
          if bool_decide (key ∈ assumedPods c) then not_found
          else if negb (String.eqb (NodeName (Spec (ps_pod currState))) (NodeName (Spec pod)))
          then Panic corrupted
          else
            let! r := removePod (ps_pod currState) c in let '(c, err) := r in
            match err with
            | Some e => Ret (c, Some e)
            | None => Ret (with_pods (assumedPods c) (delete key (podStates c)) c, None)
            end
      | None => not_found
      end
  end.

Definition IsAssumedPod (pod : Pod) (c : schedulerCache) : bool * error :=
  match GetPodKey pod with
  | (_, Some e) => (false, Some e)
  | (key, None) => (bool_decide (key ∈ assumedPods c), None)
  end.

Definition GetPod (pod : Pod) (c : schedulerCache) : Pod + string :=
  match GetPodKey pod with
  | (_, Some e) => inr e
  | (key, None) =>
      match podStates c !! key with
      | Some ps => inl (ps_pod ps)
      | None => inr (str_app "pod " (str_app key " does not exist in scheduler cache"))
      end
  end.

(** [NodeCount] and [PodCount]. *)
Definition NodeCount (c : schedulerCache) : nat := size (nodes c).
Definition PodCount (c : schedulerCache) : nat :=
  sum_list_with (fun e => length (Pods (it_info e.2))) (map_to_list (nodes c)).

(** ** Expiration *)

Definition expirePod (key : string) (ps : podState) (c : schedulerCache)
    : outcome (schedulerCache * error) :=
  let! r := removePod (ps_pod ps) c in let '(c, err) := r in
  match err with
  | Some e => Ret (c, Some e)
  | None => Ret (with_pods (assumedPods c ∖ {[key]}) (delete key (podStates c)) c, None)
  end.

(** The body of the loop of [cleanupAssumedPods]. *)
Definition cleanup_one (now : Z) (key : string) (c : schedulerCache) : outcome schedulerCache :=
  match podStates c !! key with
  | None => Panic "Key found in assumed set but not in podStates. Potentially a logical error."
  | Some ps =>
      if negb (ps_bindingFinished ps) then Ret c
      else
        match ps_deadline ps with
        | None => Panic nil_panic
        | Some deadline =>
            if deadline <? now then let! r := expirePod key ps c in Ret r.1 else Ret c
        end
  end.

Definition cleanupAssumedPods (now : Z) (c : schedulerCache) : outcome schedulerCache :=
  fold_left (fun oc key => let! c := oc in cleanup_one now key c) (range 0 (elements (assumedPods c))) (Ret c).

(** ** Images *)

Definition createImageStateSummary (s : imageState) : ImageStateSummary :=
  mkImageStateSummary (im_size s) (Z.of_nat (size (im_nodes s))).

(** The body of the loops of [addNodeImageStates]: the cache's states and the
    summaries of the node so far. *)
Definition add_image (node : Node) (st : gmap string imageState * gmap string ImageStateSummary)
    (e : string * Z) : gmap string imageState * gmap string ImageStateSummary :=
  let '(states, newSum) := st in
  let '(name, sizeBytes) := e in
  let state := match states !! name with
               | None => mkImageState sizeBytes {[node_Name node]}
               | Some s => mkImageState (im_size s) (im_nodes s ∪ {[node_Name node]})
               end in
  (<[name := state]> states,
   match newSum !! name with
   | None => <[name := createImageStateSummary state]> newSum
   | Some _ => newSum
   end).

Definition addNodeImageStates (node : Node) (c : schedulerCache) : schedulerCache :=
  let '(states, newSum) := fold_left (add_image node) (node_image_names node) (imageStates c, ∅) in
  on_info (node_Name node) (fun ni w => (set_ImageStates newSum ni, w)) (with_images states c).

Definition remove_image (node : Node) (states : gmap string imageState) (e : string * Z)
    : gmap string imageState :=
  match states !! e.1 with
  | None => states
  | Some s =>
      let ns := im_nodes s ∖ {[node_Name node]} in
      if (size ns =? 0)%nat then delete e.1 states
      else <[e.1 := mkImageState (im_size s) ns]> states
  end.

Definition removeNodeImageStates (node : option Node) (c : schedulerCache) : schedulerCache :=
  match node with
  | None => c
  | Some node => with_images (fold_left (remove_image node) (node_image_names node) (imageStates c)) c
  end.

(** ** Nodes *)

Definition info_of (c : schedulerCache) (name : string) : option NodeInfo := it_info <$> nodes c !! name.

(** The images of a node that is in the map already are forgotten first. *)
Definition forget_old_images (name : string) (c : schedulerCache) : schedulerCache :=
  match info_of c name with
  | Some ni => removeNodeImageStates (ni_node ni) c
  | None => c
  end.

Definition AddNode (node : Node) (c : schedulerCache) : schedulerCache :=
  let name := node_Name node in
  let c := ensure_item name (forget_old_images name c) in
  let c := moveNodeInfoToHead name c in
  let c := with_tree (addNode node (c_nodeTree c)) c in
  let c := addNodeImageStates node c in
  on_info name (SetNode node) c.

Definition UpdateNode (oldNode : option Node) (newNode : Node) (c : schedulerCache)
    : outcome schedulerCache :=
  let name := node_Name newNode in
  let c := match nodes c !! name with
           | None => with_tree (addNode newNode (c_nodeTree c)) (ensure_item name c)
           | Some _ => forget_old_images name c
           end in
  let c := moveNodeInfoToHead name c in
  let! t := updateNode oldNode newNode (c_nodeTree c) in
  let c := addNodeImageStates newNode (with_tree t c) in
  Ret (on_info name (SetNode newNode) c).

(** The cache's [RemoveNode]: a node that still has pods stays in the map
    without its object until they are gone. *)
Definition cache_RemoveNode (node : Node) (c : schedulerCache) : schedulerCache * error :=
  let name := node_Name node in
  match nodes c !! name with
  | None => (c, Some (str_app "node " (str_app name " is not found")))
  | Some it =>
      let c := on_info name RemoveNode c in
      let c := if (length (Pods (it_info it)) =? 0)%nat then removeNodeInfoFromList name c
               else moveNodeInfoToHead name c in
      let '(t, err) := removeNode node (c_nodeTree c) in
      let c := with_tree t c in
      match err with
      | Some e => (c, Some e)
      | None => (removeNodeImageStates (Some node) c, None)
      end
  end.

(** ** Snapshots *)

Record snapshot_flags := mkFlags {
  updateAllLists : bool;
  updateNodesHavePodsWithAffinity : bool;
  updateNodesHavePodsWithRequiredAntiAffinity : bool
}.

(** [*existing = *clone], with what changed. *)
Definition snapshot_node (ni : NodeInfo) (np : Node) (m : gmap string NodeInfo) (fl : snapshot_flags)
    : gmap string NodeInfo * snapshot_flags :=
  let clone := Clone ni in
  let existing := m !! node_Name np in
  let had f := match existing with Some e => f e | None => false end in
  (<[node_Name np := clone]> m,
   mkFlags (updateAllLists fl || match existing with None => true | Some _ => false end)
     (updateNodesHavePodsWithAffinity fl
      || xorb (had has_affinity_pods) (has_affinity_pods clone))
     (updateNodesHavePodsWithRequiredAntiAffinity fl
      || xorb (had has_anti_affinity_pods) (has_anti_affinity_pods clone))).

(** The walk along the list; its fuel is one more than the number of items. *)
Fixpoint snapshot_walk (fuel : nat) (c : schedulerCache) (snapshotGeneration : Z)
    (node : option string) (m : gmap string NodeInfo) (fl : snapshot_flags)
    : gmap string NodeInfo * snapshot_flags :=
  match fuel, node with
  | S f, Some name =>
      match nodes c !! name with
      | None => (m, fl)
      | Some it =>
          if Generation (it_info it) <=? snapshotGeneration then (m, fl)
          else
            let '(m, fl) := match ni_node (it_info it) with
                            | Some np => snapshot_node (it_info it) np m fl
                            | None => (m, fl)
                            end in
            snapshot_walk f c snapshotGeneration (it_next it) m fl
      end
  | _, _ => (m, fl)
  end.

(** The node is gone from the cache, or only its pods are left. *)
Definition is_deleted (c : schedulerCache) (name : string) : bool :=
  match info_of c name with
  | Some ni => match ni_node ni with None => true | Some _ => false end
  | None => true
  end.

(** One deletion, with the number left to delete. *)
Definition delete_step (c : schedulerCache) (st : gmap string NodeInfo * Z) (name : string)
    : gmap string NodeInfo * Z :=
  let '(m, toDelete) := st in
  if toDelete <=? 0 then (m, toDelete)
  else if is_deleted c name then (delete name m, toDelete -₆₄ 1) else (m, toDelete).

Definition removeDeletedNodesFromSnapshot (c : schedulerCache) (m : gmap string NodeInfo)
    : gmap string NodeInfo :=
  (fold_left (delete_step c) (range 1 (map fst (map_to_list m)))
    (m, Z.of_nat (size m) -₆₄ numNodes (c_nodeTree c))).1.

Definition updateNodeInfoSnapshotList (c : schedulerCache) (s : Snapshot) (updateAll : bool) : Snapshot :=
  let m := nodeInfoMap s in
  let names :=
    if updateAll
    then List.filter (fun n => match m !! n with Some _ => true | None => false end)
           (match nt_list (c_nodeTree c) with Some (l, _) => l | None => [] end)
    else nodeInfoList s in
  let having p := List.filter (fun n => match m !! n with Some ni => p ni | None => false end) names in
  mkSnapshot m names (having has_affinity_pods) (having has_anti_affinity_pods) (sn_generation s).

Definition UpdateSnapshot (c : schedulerCache) (s : Snapshot) : Snapshot * error :=
  let '(m, fl) := snapshot_walk (S (size (nodes c))) c (sn_generation s) (headNode c)
                    (nodeInfoMap s) (mkFlags false false false) in
  let gen := match headNode c with
             | Some h => match info_of c h with Some ni => Generation ni | None => sn_generation s end
             | None => sn_generation s
             end in
  let numNodes := numNodes (c_nodeTree c) in
  let too_many := numNodes <? Z.of_nat (size m) in
  let m := if too_many then removeDeletedNodesFromSnapshot c m else m in
  let all := updateAllLists fl || too_many in
  let s := mkSnapshot m (nodeInfoList s) (havePodsWithAffinityNodeInfoList s)
             (havePodsWithRequiredAntiAffinityNodeInfoList s) gen in
  let s := if all || updateNodesHavePodsWithAffinity fl
              || updateNodesHavePodsWithRequiredAntiAffinity fl
           then updateNodeInfoSnapshotList c s all else s in
  if Z.of_nat (length (nodeInfoList s)) =? numNodes then (s, None)
  else (updateNodeInfoSnapshotList c s true,
        Some "snapshot state is not consistent, trying to recover"%string).
End cache.

(** * The linked list of the scheduler cache

    [moveNodeInfoToHead] and [removeNodeInfoFromList] on the doubly linked
    items implement moving to the front and removal on the list of names. *)

(** The items of [m] that [head] leads to, in the order of [l]. *)
Record linked (m : gmap string nodeInfoListItem) (h : option string) (l : list string) : Prop := {
  lk_nodup : NoDup l;
  lk_head : h = head l;
  lk_links : forall l1 x l2, l = l1 ++ x :: l2 ->
    exists it, m !! x = Some it /\ it_prev it = last l1 /\ it_next it = head l2
}.

Lemma linked_split m h l x :
  linked m h l -> x ∈ l ->
  exists l1 l2 it, l = l1 ++ x :: l2 /\ x ∉ l1 /\ x ∉ l2 /\
    m !! x = Some it /\ it_prev it = last l1 /\ it_next it = head l2.
Proof.
  intros [Hn _ Hl] (l1 & l2 & ->)%list_elem_of_split.
  destruct (Hl l1 x l2 eq_refl) as (it & ? & ? & ?). exists l1, l2, it.
  apply NoDup_app in Hn as (_ & Hd & Hn). apply NoDup_cons in Hn as [? _].
  split_and!; try done. intros Hx. apply (Hd x Hx). left.
Qed.

Lemma lookup_set_next p v m y :
  set_next p v m !! y =
  (fun it => if decide (p = Some y) then mkItem (it_info it) v (it_prev it) else it) <$> m !! y.
Proof.
  unfold set_next. destruct p as [k|].
  - destruct (decide (k = y)) as [->|Hne].
    + rewrite lookup_alter_eq. destruct (m !! y); simpl; [by rewrite decide_True|done].
    + rewrite lookup_alter_ne by done. destruct (m !! y); simpl; [|done].
      by rewrite decide_False by congruence.
  - by destruct (m !! y).
Qed.

Lemma lookup_set_prev p v m y :
  set_prev p v m !! y =
  (fun it => if decide (p = Some y) then mkItem (it_info it) (it_next it) v else it) <$> m !! y.
Proof.
  unfold set_prev. destruct p as [k|].
  - destruct (decide (k = y)) as [->|Hne].
    + rewrite lookup_alter_eq. destruct (m !! y); simpl; [by rewrite decide_True|done].
    + rewrite lookup_alter_ne by done. destruct (m !! y); simpl; [|done].
      by rewrite decide_False by congruence.
  - by destruct (m !! y).
Qed.

(** The fields of the items after unlinking an item from between [p] and [n]. *)
Lemma lookup_unlink p n m y :
  set_prev n p (set_next p n m) !! y =
  (fun it => mkItem (it_info it) (if decide (p = Some y) then n else it_next it)
                    (if decide (n = Some y) then p else it_prev it)) <$> m !! y.
Proof.
  rewrite lookup_set_prev, lookup_set_next. destruct (m !! y) as [[i nx pv]|]; simpl; [|done].
  by repeat case_decide.
Qed.

Lemma head_app_l {A} (l1 l2 : list A) : l1 <> [] -> head (l1 ++ l2) = head l1.
Proof. by destruct l1. Qed.

Lemma last_app_r {A} (l1 l2 : list A) : l2 <> [] -> last (l1 ++ l2) = last l2.
Proof. intros H. rewrite last_app. by destruct l2 using rev_ind; [|rewrite last_snoc]. Qed.

Lemma last_cons_ne {A} (x : A) l : l <> [] -> last (x :: l) = last l.
Proof. by destruct l. Qed.

Lemma head_not_elem {A} (l : list A) x : x ∉ l -> head l <> Some x.
Proof. destruct l; set_solver. Qed.

Lemma last_not_elem {A} (l : list A) x : x ∉ l -> last l <> Some x.
Proof. intros H E. apply last_Some_elem_of in E. done. Qed.

(** The links of the others when [x] is taken out from between [l1] and [l2]. *)
Lemma unlink_links m h l1 x l2 it :
  linked m h (l1 ++ x :: l2) -> m !! x = Some it ->
  let m' := set_prev (it_next it) (it_prev it) (set_next (it_prev it) (it_next it) m) in
  forall a y b, l1 ++ l2 = a ++ y :: b ->
    y <> x /\ exists it', m' !! y = Some it' /\ it_prev it' = last a /\ it_next it' = head b.
Proof.
  intros [Hn _ Hl] Hx m' a y b Hab.
  destruct (Hl l1 x l2 eq_refl) as (it0 & Hx0 & Hp & Hnx). rewrite Hx in Hx0. injection Hx0 as <-.
  assert (y <> x) as Hyx.
  { intros ->. apply NoDup_app in Hn as (_ & Hd & Hn). apply NoDup_cons in Hn as [Hx2 _].
    assert (x ∈ l1 ++ l2) as Hin by (rewrite Hab; set_solver).
    apply elem_of_app in Hin as [Hin|Hin]; [|done]. apply (Hd x Hin). left. }
  split; [done|]. unfold m'. rewrite lookup_unlink, Hp, Hnx.
  apply NoDup_app in Hn as (Hn1 & Hd & Hn). apply NoDup_cons in Hn as [Hx2 Hn2].
  apply app_eq_app in Hab as (k & [[-> Hk]|[-> Hk]]).
  - (* [y] is in [l1], or is the first of [l2] *)
    destruct k as [|z k]; simpl in Hk.
    + subst l2. rewrite app_nil_r in *.
      destruct (Hl (a ++ [x]) y b) as (iy & Hy & Hpy & Hny); [by rewrite <- app_assoc|].
      rewrite Hy. simpl. eexists. split; [reflexivity|]. simpl.
      rewrite decide_True by done.
      rewrite decide_False; [done|]. apply last_not_elem. intros Hin. apply (Hd y Hin). set_solver.
    + injection Hk as <- ->.
      destruct (Hl a y (k ++ x :: l2)) as (iy & Hy & Hpy & Hny); [by rewrite <- app_assoc|].
      rewrite Hy. simpl. eexists. split; [reflexivity|]. simpl.
      apply NoDup_app in Hn1 as (_ & Hda & Hnk). apply NoDup_cons in Hnk as [Hyk _].
      rewrite (decide_False (P := head l2 = Some y)).
      2:{ apply head_not_elem. intros Hin. apply (Hd y); [set_solver|]. by right. }
      split; [done|]. destruct k as [|z k].
      * rewrite decide_True by (by rewrite last_snoc). done.
      * rewrite decide_False; [by rewrite Hny|]. rewrite last_app_r by done.
        rewrite last_cons_ne by done. by apply last_not_elem.
  - (* [y] is in [l2] *)
    subst l2. destruct (Hl (l1 ++ x :: k) y b) as (iy & Hy & Hpy & Hny); [by rewrite <- app_assoc|].
    rewrite Hy. simpl. eexists. split; [reflexivity|]. simpl.
    rewrite (decide_False (P := last l1 = Some y)).
    2:{ apply last_not_elem. intros Hin. apply (Hd y Hin). set_solver. }
    split; [|done]. apply NoDup_app in Hn2 as (_ & Hdk & _). destruct k as [|z k].
    + rewrite decide_True by done. by rewrite app_nil_r.
    + rewrite decide_False.
      * rewrite Hpy, !last_app_r by done. apply last_cons_ne. done.
      * simpl. intros [= ->]. apply (Hdk y); set_solver.
Qed.

(** Removal of an item of the list. *)
Lemma list_remove_linked m h l1 x l2 :
  linked m h (l1 ++ x :: l2) ->
  linked (list_remove x m h).1 (list_remove x m h).2 (l1 ++ l2).
Proof.
  intros Hl. pose proof Hl as [Hn Hh Hlk].
  destruct (Hlk l1 x l2 eq_refl) as (it & Hx & Hp & Hnx).
  unfold list_remove. rewrite Hx. simpl. constructor.
  - apply NoDup_app in Hn as (Hn1 & Hd & Hn). apply NoDup_cons in Hn as [_ Hn2].
    apply NoDup_app. split_and!; [done| |done]. intros y Hy Hy2. apply (Hd y Hy). by right.
  - case_bool_decide as E; rewrite Hh in *.
    + destruct l1 as [|z l1]; [done|]. simpl in E. injection E as ->.
      apply NoDup_app in Hn as (_ & Hd & _). destruct (Hd x); set_solver.
    + destruct l1 as [|z l1]; [done|]. done.
  - intros a y b Hab. destruct (unlink_links m h l1 x l2 it Hl Hx a y b Hab) as (Hyx & it' & Hy & Hpy & Hny).
    exists it'. rewrite lookup_delete_ne by done. done.
Qed.

(** The last three assignments of [moveNodeInfoToHead]. *)
Lemma lookup_push_front m h x y :
  set_prev (Some x) None (set_next (Some x) h (set_prev h (Some x) m)) !! y =
  (fun it => if decide (x = y) then mkItem (it_info it) h None
             else mkItem (it_info it) (it_next it)
                    (if decide (h = Some y) then Some x else it_prev it)) <$> m !! y.
Proof.
  rewrite lookup_set_prev, lookup_set_next, lookup_set_prev.
  destruct (m !! y) as [[i nx pv]|]; simpl; [|done].
  destruct (decide (x = y)) as [->|Hne].
  - rewrite !(decide_True (P := Some y = Some y)) by done. by case_decide.
  - rewrite !(decide_False (P := Some x = Some y)) by congruence. by case_decide.
Qed.

Lemma push_front_linked m h x l it :
  m !! x = Some it -> x ∉ l -> NoDup l -> h = head l ->
  (forall a y b, l = a ++ y :: b ->
     exists it', m !! y = Some it' /\ it_prev it' = last a /\ it_next it' = head b) ->
  linked (set_prev (Some x) None (set_next (Some x) h (set_prev h (Some x) m))) (Some x) (x :: l).
Proof.
  intros Hx Hni Hn Hh Hlk. constructor; [by constructor|done|].
  intros a y b Hab. rewrite lookup_push_front. destruct a as [|z a]; simpl in Hab; injection Hab as -> Hab.
  - rewrite Hx. simpl. rewrite decide_True by done. eexists. split; [reflexivity|]. simpl.
    by rewrite Hh, Hab.
  - destruct (Hlk a y b Hab) as (it' & Hy & Hp & Hnx). rewrite Hy. simpl.
    rewrite (decide_False (P := z = y)) by (intros ->; set_solver).
    eexists. split; [reflexivity|]. simpl. split; [|done].
    destruct a as [|u a].
    + rewrite decide_True; [done|]. by rewrite Hh, Hab.
    + rewrite decide_False; [by rewrite Hp|]. rewrite Hh, Hab. simpl. intros [= ->].
      rewrite Hab in Hn. simpl in Hn. apply NoDup_cons in Hn as [Hn _]. set_solver.
Qed.

(** Moving an item of the list to the front, and linking a new one in. *)
Lemma list_move_linked m h l1 x l2 :
  linked m h (l1 ++ x :: l2) ->
  linked (list_move x m h).1 (list_move x m h).2 (x :: l1 ++ l2).
Proof.
  intros Hl. pose proof Hl as [Hn Hh Hlk].
  destruct (Hlk l1 x l2 eq_refl) as (it & Hx & Hp & Hnx).
  unfold list_move. rewrite Hx. case_bool_decide as E.
  - rewrite Hh in E. destruct l1 as [|z l1]; [by simpl in *|]. simpl in E. injection E as ->.
    apply NoDup_app in Hn as (_ & Hd & _). destruct (Hd x); set_solver.
  - assert (l1 <> []) as Hl1 by (intros ->; by rewrite Hh in E).
    apply NoDup_app in Hn as (Hn1 & Hd & Hn). apply NoDup_cons in Hn as [Hx2 Hn2].
    eapply push_front_linked with (it := mkItem (it_info it) (it_next it) (it_prev it)).
    + rewrite lookup_unlink, Hx. simpl. f_equal.
      rewrite !decide_False; [by destruct it|rewrite Hnx; by apply head_not_elem|].
      rewrite Hp. apply last_not_elem. intros Hin. apply (Hd x Hin). left.
    + rewrite elem_of_app. intros [Hin|Hin]; [apply (Hd x Hin); left|done].
    + apply NoDup_app. split_and!; [done| |done]. intros y Hy Hy2. apply (Hd y Hy). by right.
    + rewrite Hh, !head_app_l by done. done.
    + intros a y b Hab. by destruct (unlink_links m h l1 x l2 it Hl Hx a y b Hab) as [_ ?].
Qed.

Lemma list_move_new m h l x i :
  linked m h l -> x ∉ l -> m !! x = Some (mkItem i None None) ->
  linked (list_move x m h).1 (list_move x m h).2 (x :: l).
Proof.
  intros [Hn Hh Hlk] Hni Hx. unfold list_move. rewrite Hx. rewrite bool_decide_eq_false_2.
  2:{ rewrite Hh. by apply head_not_elem. }
  simpl. eapply push_front_linked; try done.
Qed.

Lemma linked_set_info m h l x i :
  linked m h l -> linked (set_info x i m) h l.
Proof.
  intros [Hn Hh Hlk]. constructor; [done..|]. intros a y b Hab.
  destruct (Hlk a y b Hab) as (it & Hy & Hp & Hnx). unfold set_info.
  destruct (decide (x = y)) as [->|Hne].
  - rewrite lookup_alter_eq, Hy. simpl. by eexists.
  - rewrite lookup_alter_ne by done. by exists it.
Qed.

(** What the operations leave alone. *)
Lemma list_move_info m h x y : it_info <$> (list_move x m h).1 !! y = it_info <$> m !! y.
Proof.
  unfold list_move. destruct (m !! x) as [it|]; [|done]. case_bool_decide; [done|].
  cbn [fst]. rewrite lookup_push_front, lookup_unlink.
  destruct (m !! y); simpl; [|done]. by case_decide.
Qed.

Lemma list_remove_info m h x y :
  is_Some (m !! x) ->
  it_info <$> (list_remove x m h).1 !! y = if decide (x = y) then None else it_info <$> m !! y.
Proof.
  intros [it Hx]. unfold list_remove. rewrite Hx. cbn [fst].
  case_decide as E; [subst; by rewrite lookup_delete_eq|].
  rewrite lookup_delete_ne, lookup_unlink by done. by destruct (m !! y).
Qed.
