(* ===== verification/CacheProofs.v ===== *)
(** * Properties of the scheduler cache *)

From S2P Require Import Prelude GoInt GoFloat GoStrconv Quantity ApiTypes Resource HostPorts AffinityTerms NodeInfo Samples Framework Snapshot NodeTree Cache.

Section cache_proofs.
Context {arch : GoArch} {gates : FeatureGates} {mr : MapRange}.

#[local] Arguments AddPod : simpl never.
#[local] Arguments NewNodeInfo : simpl never.

(** ** What the operations do to the infos *)

Lemma info_of_move x c y : info_of (moveNodeInfoToHead x c) y = info_of c y.
Proof. apply list_move_info. Qed.

Lemma info_of_remove x c y :
  is_Some (nodes c !! x) ->
  info_of (removeNodeInfoFromList x c) y = if decide (x = y) then None else info_of c y.
Proof. apply list_remove_info. Qed.

Lemma nodes_on_info x op c :
  nodes (on_info x op c) =
  match nodes c !! x with
  | Some it => set_info x (op (it_info it) (world c)).1 (nodes c)
  | None => nodes c
  end /\ headNode (on_info x op c) = headNode c /\
  podStates (on_info x op c) = podStates c /\ assumedPods (on_info x op c) = assumedPods c.
Proof.
  unfold on_info. destruct (nodes c !! x) as [it|]; [|done].
  by destruct (op (it_info it) (world c)).
Qed.

Lemma info_of_on_info x op c y :
  info_of (on_info x op c) y =
  if decide (x = y) then (fun ni => (op ni (world c)).1) <$> info_of c y else info_of c y.
Proof.
  unfold info_of. destruct (nodes_on_info x op c) as [-> _].
  destruct (nodes c !! x) as [it|] eqn:E.
  - unfold set_info. case_decide as Hxy; [subst; by rewrite lookup_alter_eq, E|].
    by rewrite lookup_alter_ne.
  - case_decide as Hxy; [subst; by rewrite E|done].
Qed.

Lemma info_of_ensure x c y :
  info_of (ensure_item x c) y =
  match info_of c y with
  | Some ni => Some ni
  | None => if decide (x = y) then Some (NewNodeInfo (world c)).1 else None
  end.
Proof.
  unfold info_of, ensure_item. destruct (nodes c !! x) as [it|] eqn:E.
  - destruct (nodes c !! y) as [it2|] eqn:E2; simpl; rewrite ?E2; [done|].
    rewrite decide_False; [done|congruence].
  - simpl. rewrite lookup_insert. case_decide as Hxy; [subst; by rewrite E|]. by destruct (nodes c !! y).
Qed.

(** ** The list of nodes *)

Definition list_inv (c : schedulerCache) : Prop :=
  exists l, linked (nodes c) (headNode c) l /\ forall x, x ∈ l <-> is_Some (nodes c !! x).

(** An item for [x] may be waiting to be linked in. *)
Definition pre_inv (x : string) (c : schedulerCache) : Prop :=
  list_inv c \/
  exists l i, linked (nodes c) (headNode c) l /\ x ∉ l /\ nodes c !! x = Some (mkItem i None None) /\
    forall y, y <> x -> y ∈ l <-> is_Some (nodes c !! y).

Lemma set_info_Some x i m y : is_Some (set_info x i m !! y) <-> is_Some (m !! y).
Proof.
  unfold set_info. destruct (decide (x = y)) as [->|]; [|by rewrite lookup_alter_ne].
  rewrite lookup_alter_eq. by destruct (m !! y).
Qed.

Lemma list_inv_on_info x op c : list_inv c -> list_inv (on_info x op c).
Proof.
  intros (l & Hl & Hd). destruct (nodes_on_info x op c) as (Hn & Hh & _). unfold list_inv. rewrite Hn, Hh.
  exists l. destruct (nodes c !! x); [|done]. split; [by apply linked_set_info|].
  intros y. by rewrite set_info_Some.
Qed.

Lemma pre_inv_on_info x op c : pre_inv x c -> pre_inv x (on_info x op c).
Proof.
  intros [H|(l & i & Hl & Hx & Hi & Hd)]; [left; by apply list_inv_on_info|right].
  destruct (nodes_on_info x op c) as (Hn & Hh & _). rewrite Hn, Hh, Hi.
  exists l, (op i (world c)).1. split_and!.
  - by apply linked_set_info.
  - done.
  - unfold set_info. by rewrite lookup_alter_eq, Hi.
  - intros y Hy. by rewrite set_info_Some, Hd.
Qed.

Lemma pre_inv_ensure x c : list_inv c -> pre_inv x (ensure_item x c).
Proof.
  intros (l & Hl & Hd). unfold ensure_item. destruct (nodes c !! x) as [it|] eqn:E; [left; by exists l|right].
  simpl. assert (x ∉ l) as Hx by (rewrite Hd, E; by intros []). eexists l, _. split_and!.
  - destruct Hl as [Hn Hh Hlk]. constructor; [done..|]. intros a y b Hab.
    destruct (Hlk a y b Hab) as (it & Hy & Hp). exists it. split; [|done].
    rewrite lookup_insert_ne; [done|]. congruence.
  - done.
  - by rewrite lookup_insert_eq.
  - intros y Hy. by rewrite lookup_insert_ne.
Qed.

Lemma list_move_Some x m h y : is_Some ((list_move x m h).1 !! y) <-> is_Some (m !! y).
Proof. rewrite <- !(fmap_is_Some it_info), list_move_info. done. Qed.

Lemma pre_inv_move x c : pre_inv x c -> list_inv (moveNodeInfoToHead x c).
Proof.
  intros [(l & Hl & Hd)|(l & i & Hl & Hx & Hi & Hd)].
  - destruct (decide (x ∈ l)) as [Hin|Hin].
    + destruct (linked_split _ _ _ _ Hl Hin) as (l1 & l2 & it & -> & _).
      exists (x :: l1 ++ l2). simpl. split; [by apply list_move_linked|].
      intros y. rewrite list_move_Some, <- Hd. set_solver.
    + exists l. assert (nodes c !! x = None) as Hn by (apply eq_None_not_Some; by rewrite <- Hd).
      unfold moveNodeInfoToHead, list_move. rewrite Hn. done.
  - exists (x :: l). simpl. split; [by apply (list_move_new _ _ _ _ i)|].
    intros y. rewrite list_move_Some. destruct (decide (y = x)) as [->|Hy].
    + rewrite Hi. split; [eauto|]. intros _. left.
    + rewrite <- Hd by done. set_solver.
Qed.

Lemma list_inv_remove x c : list_inv c -> list_inv (removeNodeInfoFromList x c).
Proof.
  intros (l & Hl & Hd). destruct (decide (x ∈ l)) as [Hin|Hin].
  - destruct (linked_split _ _ _ _ Hl Hin) as (l1 & l2 & it & -> & Hx1 & Hx2 & Hx & _).
    exists (l1 ++ l2). simpl. split; [by apply list_remove_linked|].
    intros y. rewrite <- (fmap_is_Some it_info), list_remove_info by (by rewrite <- Hd).
    case_decide as Hxy.
    + subst. split; [|by intros []]. rewrite elem_of_app. by intros [|].
    + rewrite (fmap_is_Some it_info), <- Hd. set_solver.
  - exists l. assert (nodes c !! x = None) as Hn by (apply eq_None_not_Some; by rewrite <- Hd).
    unfold removeNodeInfoFromList, list_remove. rewrite Hn. done.
Qed.

(** ** The pods on the nodes *)

Definition pods_on (c : schedulerCache) (name : string) : list PodInfo :=
  default [] (Pods <$> info_of c name).

Definition keys_on (c : schedulerCache) (name : string) : list string :=
  map (fun p => UID (pi_Pod p)) (pods_on c name).

(** A node without its object is kept for its pods only. *)
Definition ghost_inv (c : schedulerCache) : Prop :=
  forall name ni, info_of c name = Some ni -> ni_node ni = None -> Pods ni <> [].

Definition nodes_inv (c : schedulerCache) : Prop := list_inv c /\ ghost_inv c.

(** The parts of the cache that are about pods only. *)
Definition same_pods (c c' : schedulerCache) : Prop :=
  podStates c' = podStates c /\ assumedPods c' = assumedPods c.

Lemma AddPod_Pods pod n w :
  Pods (AddPod pod n w).1 = Pods n ++ [NewPodInfo pod] /\ ni_node (AddPod pod n w).1 = ni_node n.
Proof.
  unfold AddPod, AddPodInfo. by destruct (calculateResource (pi_Pod (NewPodInfo pod))) as [[? ?] ?].
Qed.

Lemma addPod_same pod c : same_pods c (addPod pod c).
Proof.
  unfold addPod, moveNodeInfoToHead, same_pods. simpl.
  destruct (nodes_on_info (NodeName (Spec pod)) (AddPod pod) (ensure_item (NodeName (Spec pod)) c))
    as (_ & _ & -> & ->).
  unfold ensure_item. by destruct (nodes c !! NodeName (Spec pod)).
Qed.

Lemma info_of_addPod pod c y :
  info_of (addPod pod c) y =
  if decide (NodeName (Spec pod) = y)
  then Some (AddPod pod (default (NewNodeInfo (world c)).1 (info_of c y))
               (world (ensure_item (NodeName (Spec pod)) c))).1
  else info_of c y.
Proof.
  unfold addPod. rewrite info_of_move, info_of_on_info, info_of_ensure.
  case_decide as E; [subst|].
  - by destruct (info_of c (NodeName (Spec pod))).
  - by destruct (info_of c y).
Qed.

Lemma info_of_addPod_at pod c :
  exists n', info_of (addPod pod c) (NodeName (Spec pod)) = Some n' /\
    Pods n' = pods_on c (NodeName (Spec pod)) ++ [NewPodInfo pod].
Proof.
  rewrite info_of_addPod, decide_True by done. eexists. split; [reflexivity|].
  destruct (AddPod_Pods pod (default (NewNodeInfo (world c)).1 (info_of c (NodeName (Spec pod))))
    (world (ensure_item (NodeName (Spec pod)) c))) as [-> _].
  unfold pods_on. by destruct (info_of c _).
Qed.

Lemma addPod_keys pod c y :
  keys_on (addPod pod c) y =
  if decide (NodeName (Spec pod) = y) then keys_on c y ++ [UID pod] else keys_on c y.
Proof.
  unfold keys_on. case_decide as E; [subst y|].
  - destruct (info_of_addPod_at pod c) as (n' & Hn & Hp). unfold pods_on at 1. rewrite Hn.
    simpl. rewrite Hp, map_app. done.
  - unfold pods_on. rewrite info_of_addPod. by rewrite decide_False.
Qed.

Lemma addPod_nodes_inv pod c : nodes_inv c -> nodes_inv (addPod pod c).
Proof.
  intros [Hl Hg]. split.
  - apply pre_inv_move, pre_inv_on_info, pre_inv_ensure, Hl.
  - intros name ni. destruct (decide (NodeName (Spec pod) = name)) as [<-|Hne].
    + destruct (info_of_addPod_at pod c) as (n' & -> & Hp). intros [= <-] _. rewrite Hp.
      by destruct (pods_on c _).
    + rewrite info_of_addPod, decide_False by done. apply Hg.
Qed.

Lemma has_key_UID k p : k <> ""%string -> has_key k p = true <-> UID (pi_Pod p) = k.
Proof.
  intros Hk. unfold has_key, GetPodKey. destruct (UID (pi_Pod p)) eqn:E; simpl.
  - split; [done|]. congruence.
  - rewrite String.eqb_eq. split; congruence.
Qed.

Lemma GetPodKey_ok pod : UID pod <> ""%string -> GetPodKey pod = (UID pod, None).
Proof. unfold GetPodKey. by destruct (UID pod). Qed.

Lemma RemovePod_found pod n w :
  UID pod <> ""%string -> UID pod ∈ map (fun p => UID (pi_Pod p)) (Pods n) ->
  exists n' w', RemovePod pod n w = Ret (n', w', None) /\ ni_node n' = ni_node n /\
    map (fun p => UID (pi_Pod p)) (Pods n) ≡ₚ UID pod :: map (fun p => UID (pi_Pod p)) (Pods n').
Proof.
  intros Hne Hin. unfold RemovePod. rewrite GetPodKey_ok by done.
  destruct (index_of (UID pod) (Pods n)) as [i|] eqn:Ei.
  - destruct (calculateResource pod) as [[res c] m]. eexists _, _. split; [reflexivity|]. split; [done|].
    simpl. apply index_of_Some in Ei as (p & Hp & Hk). apply has_key_UID in Hk; [|done].
    rewrite (swap_remove_perm _ _ _ Hp) at 1. simpl. by rewrite Hk.
  - exfalso. apply index_of_None in Ei. rewrite Forall_forall in Ei.
    apply (list_elem_of_fmap (fun p => UID (pi_Pod p))) in Hin as (p & Hu & Hp).
    specialize (Ei p Hp). assert (has_key (UID pod) p = true) by (by apply has_key_UID). congruence.
Qed.

(** Removing a pod that is on its node. *)
Lemma removePod_found pod c :
  nodes_inv c -> UID pod <> ""%string -> UID pod ∈ keys_on c (NodeName (Spec pod)) ->
  exists c', removePod pod c = Ret (c', None) /\ nodes_inv c' /\ same_pods c c' /\
    keys_on c (NodeName (Spec pod)) ≡ₚ UID pod :: keys_on c' (NodeName (Spec pod)) /\
    forall y, y <> NodeName (Spec pod) -> keys_on c' y = keys_on c y.
Proof.
  intros [Hl Hg] Hne Hin. unfold removePod. set (name := NodeName (Spec pod)) in *.
  unfold keys_on at 1, pods_on, info_of in Hin.
  destruct (nodes c !! name) as [it|] eqn:En; simpl in Hin; [|set_solver].
  destruct (RemovePod_found pod (it_info it) (world c) Hne Hin) as (n' & w' & -> & Hnode & Hperm).
  cbn [obind].
  set (c1 := with_world w' (with_nodes (set_info name n' (nodes c)) (headNode c) c)).
  assert (list_inv c1) as Hl1.
  { destruct Hl as (l & Hl & Hd). exists l. split; [by apply linked_set_info|].
    intros y. simpl. by rewrite set_info_Some. }
  assert (forall y, info_of c1 y = if decide (name = y) then Some n' else info_of c y) as Hi1.
  { intros y. unfold info_of, c1. simpl. unfold set_info. case_decide as E.
    - subst. by rewrite lookup_alter_eq, En.
    - by rewrite lookup_alter_ne. }
  assert (forall c2 ni, (forall y, info_of c2 y = if decide (name = y) then ni else info_of c y) ->
    default [] (Pods <$> ni) = Pods n' ->
    keys_on c name ≡ₚ UID pod :: keys_on c2 name /\ forall y, y <> name -> keys_on c2 y = keys_on c y) as Hkeys.
  { intros c2 ni H2 Hni. unfold keys_on, pods_on. rewrite H2, decide_True, Hni by done. split.
    - unfold info_of. rewrite En. done.
    - intros y Hy. by rewrite H2, decide_False by done. }
  assert (is_Some (nodes c1 !! name)) as Hs1.
  { unfold c1. simpl. rewrite set_info_Some, En. eauto. }
  destruct (_ && _) eqn:Eb.
  - eexists. split; [reflexivity|]. apply andb_true_iff in Eb as [Eb1 Eb2].
    apply Nat.eqb_eq, length_zero_iff_nil in Eb1.
    assert (forall y, info_of (removeNodeInfoFromList name c1) y
              = if decide (name = y) then None else info_of c y) as Hi2.
    { intros y. rewrite info_of_remove by done. case_decide; [done|]. rewrite Hi1. by rewrite decide_False. }
    split; [split; [by apply list_inv_remove|]|].
    + intros y ni. rewrite Hi2. case_decide; [done|apply Hg].
    + split; [done|]. apply (Hkeys _ None); [done|by rewrite Eb1].
  - eexists. split; [reflexivity|].
    assert (forall y, info_of (moveNodeInfoToHead name c1) y
              = if decide (name = y) then Some n' else info_of c y) as Hi2
      by (intros y; by rewrite info_of_move).
    split; [split; [apply pre_inv_move; by left|]|].
    + intros y ni. rewrite Hi2. case_decide as E; [|apply Hg]. intros [= <-] Hnn.
      rewrite Hnn in Eb. by destruct (Pods n').
    + split; [done|]. by apply (Hkeys _ (Some n')).
Qed.

(** ** The invariant *)

(** The pods on the nodes are exactly those the states say are there. *)
Definition tracks (st : gmap string podState) (keys : string -> list string) : Prop :=
  forall name, NoDup (keys name) /\
    forall k, k ∈ keys name <-> exists ps, st !! k = Some ps /\ NodeName (Spec (ps_pod ps)) = name.

Record cache_inv (c : schedulerCache) : Prop := {
  ci_nodes : nodes_inv c;
  ci_keys : forall k ps, podStates c !! k = Some ps -> UID (ps_pod ps) = k /\ k <> ""%string;
  ci_assumed : forall k, k ∈ assumedPods c -> is_Some (podStates c !! k);
  ci_deadline : forall k ps, k ∈ assumedPods c -> podStates c !! k = Some ps ->
    ps_bindingFinished ps = true -> is_Some (ps_deadline ps);
  ci_pods : tracks (podStates c) (keys_on c)
}.

Lemma tracks_add st pod ps c :
  tracks st (keys_on c) -> st !! UID pod = None -> ps_pod ps = pod ->
  tracks (<[UID pod := ps]> st) (keys_on (addPod pod c)).
Proof.
  intros Ht Hnone Hps name. rewrite addPod_keys. destruct (Ht name) as [Hn Hk].
  assert (UID pod ∉ keys_on c name) as Hni.
  { rewrite Hk. intros (ps' & Hs & _). congruence. }
  case_decide as E.
  - split; [apply NoDup_app; split_and!; [done|set_solver|apply NoDup_singleton]|].
    intros k. rewrite elem_of_app, list_elem_of_singleton, Hk. setoid_rewrite lookup_insert.
    case_decide; subst; naive_solver.
  - split; [done|]. intros k. rewrite Hk. setoid_rewrite lookup_insert.
    case_decide; subst; naive_solver congruence.
Qed.

Lemma tracks_remove st c c' k nm :
  tracks st (keys_on c) -> keys_on c nm ≡ₚ k :: keys_on c' nm ->
  (forall y, y <> nm -> keys_on c' y = keys_on c y) -> tracks (delete k st) (keys_on c').
Proof.
  intros Ht Hp Ho name.
  assert (k ∈ keys_on c nm) as Hk by (rewrite Hp; left).
  assert (NoDup (k :: keys_on c' nm)) as Hnd by (rewrite <- Hp; apply Ht).
  apply NoDup_cons in Hnd as [Hni Hnd]. pose proof (proj1 (proj2 (Ht nm) k) Hk) as (ps0 & Hs0 & Hn0).
  destruct (decide (name = nm)) as [->|Hne].
  - split; [done|]. intros j. destruct (decide (j = k)) as [->|Hjk].
    + rewrite lookup_delete_eq. naive_solver.
    + rewrite lookup_delete_ne by done. rewrite <- (proj2 (Ht nm) j), Hp, elem_of_cons. naive_solver.
  - rewrite Ho by done. destruct (Ht name) as [Hn Hks]. split; [done|]. intros j. rewrite Hks.
    destruct (decide (j = k)) as [->|Hjk]; [|by rewrite lookup_delete_ne].
    rewrite lookup_delete_eq. naive_solver congruence.
Qed.

Lemma tracks_update st keys k ps ps' :
  tracks st keys -> st !! k = Some ps -> NodeName (Spec (ps_pod ps')) = NodeName (Spec (ps_pod ps)) ->
  tracks (<[k := ps']> st) keys.
Proof.
  intros Ht Hk Hn name. destruct (Ht name) as [H1 H2]. split; [done|]. intros j. rewrite H2.
  setoid_rewrite lookup_insert. case_decide; subst; [|done]. naive_solver congruence.
Qed.

(** Assembling the invariant for new pod states. *)
Lemma cache_inv_pods c a st :
  nodes_inv c ->
  (forall k ps, st !! k = Some ps -> UID (ps_pod ps) = k /\ k <> ""%string) ->
  (forall k, k ∈ a -> exists ps, st !! k = Some ps /\ (ps_bindingFinished ps = true -> is_Some (ps_deadline ps))) ->
  tracks st (keys_on c) -> cache_inv (with_pods a st c).
Proof.
  intros H1 H2 H3 H4. constructor; simpl; [done|done| | |done].
  - intros k Hk. destruct (H3 k Hk) as (ps & -> & _). eauto.
  - intros k ps Hk Hs. destruct (H3 k Hk) as (ps' & Hs' & Hd). rewrite Hs in Hs'. by injection Hs' as <-.
Qed.

Lemma cache_inv_assumed c k :
  cache_inv c -> k ∈ assumedPods c ->
  exists ps, podStates c !! k = Some ps /\ (ps_bindingFinished ps = true -> is_Some (ps_deadline ps)).
Proof.
  intros Hc Hk. destruct (ci_assumed c Hc k Hk) as [ps Hs]. exists ps.
  split; [done|]. by apply (ci_deadline c Hc k).
Qed.

Lemma GetPodKey_Some pod k : GetPodKey pod = (k, None) -> k = UID pod /\ UID pod <> ""%string.
Proof. unfold GetPodKey. destruct (UID pod); [done|]. by intros [= <-]. Qed.

Lemma AssumePod_inv pod c : cache_inv c -> cache_inv (AssumePod pod c).1.
Proof.
  intros Hc. unfold AssumePod. destruct (GetPodKey pod) as [k [e|]] eqn:Ek; [done|].
  apply GetPodKey_Some in Ek as [-> Hne].
  destruct (podStates c !! UID pod) as [ps|] eqn:Es; [done|]. cbn [fst].
  destruct (addPod_same pod c) as [Hs Ha]. rewrite Hs, Ha. apply cache_inv_pods.
  - by apply addPod_nodes_inv, Hc.
  - intros k ps. rewrite lookup_insert. case_decide; [|apply Hc]. subst. by intros [= <-].
  - intros k. rewrite elem_of_union, elem_of_singleton. rewrite lookup_insert.
    case_decide as E; [intros _; eexists; split; [done|done]|].
    intros [Hk| ->]; [by apply cache_inv_assumed|done].
  - by apply tracks_add; [apply Hc| |].
Qed.

Lemma finishBinding_inv pod now c : cache_inv c -> cache_inv (finishBinding pod now c).1.
Proof.
  intros Hc. unfold finishBinding. destruct (GetPodKey pod) as [k [e|]] eqn:Ek; [done|].
  destruct (podStates c !! k) as [ps|] eqn:Es; [|done]. case_bool_decide as Ha; [|done]. cbn [fst].
  apply cache_inv_pods.
  - apply Hc.
  - intros j ps'. rewrite lookup_insert. case_decide; [|apply Hc]. subst. intros [= <-].
    by apply (ci_keys c Hc _ ps).
  - intros j Hj. rewrite lookup_insert. case_decide; [eexists; split; [done|]; simpl; eauto|].
    by apply cache_inv_assumed.
  - by apply (tracks_update _ _ _ ps); [apply Hc| |].
Qed.

(** The pod of a state is on its node. *)
Lemma pod_on_node c k ps :
  cache_inv c -> podStates c !! k = Some ps ->
  UID (ps_pod ps) = k /\ k <> ""%string /\ k ∈ keys_on c (NodeName (Spec (ps_pod ps))).
Proof.
  intros Hc Hs. destruct (ci_keys c Hc k ps Hs) as [Hu Hne]. split_and!; [done..|].
  apply (ci_pods c Hc). eauto.
Qed.

(** Dropping a pod altogether. *)
Lemma drop_pod_inv pod ps a c :
  cache_inv c -> podStates c !! UID pod = Some ps ->
  NodeName (Spec (ps_pod ps)) = NodeName (Spec pod) ->
  a = assumedPods c \/ a = assumedPods c ∖ {[UID pod]} -> UID pod ∉ a ->
  exists c', removePod pod c = Ret (c', None) /\ same_pods c c' /\
    cache_inv (with_pods a (delete (UID pod) (podStates c)) c').
Proof.
  intros Hc Hs Hn Ha Hni. destruct (pod_on_node c _ _ Hc Hs) as (_ & Hne & Hin). rewrite Hn in Hin.
  destruct (removePod_found pod c (ci_nodes c Hc) Hne Hin) as (c' & Hr & Hi & Hsame & Hp & Ho).
  exists c'. split_and!; [done|done|]. apply cache_inv_pods; [done| | |].
  - intros k ps' Hk. apply lookup_delete_Some in Hk as [_ Hk]. by apply Hc.
  - intros k Hk. rewrite lookup_delete_ne by congruence. apply cache_inv_assumed; [done|].
    destruct Ha; set_solver.
  - by apply (tracks_remove _ c c' _ (NodeName (Spec pod))); [apply Hc| |].
Qed.

Lemma ForgetPod_inv pod c : cache_inv c ->
  exists c' e, ForgetPod pod c = Ret (c', e) /\ cache_inv c'.
Proof.
  intros Hc. unfold ForgetPod. destruct (GetPodKey pod) as [k [e|]] eqn:Ek; [by eauto|].
  apply GetPodKey_Some in Ek as [-> Hne].
  destruct (podStates c !! UID pod) as [ps|] eqn:Es; [|by eauto].
  destruct (String.eqb_spec (NodeName (Spec (ps_pod ps))) (NodeName (Spec pod))) as [En|En]; simpl; [|by eauto].
  case_bool_decide as Ha; [|by eauto].
  destruct (drop_pod_inv pod ps (assumedPods c ∖ {[UID pod]}) c Hc Es En) as (c' & -> & [H1 H2] & Hi);
    [by right|set_solver|].
  cbn [obind]. rewrite H1, H2. eauto.
Qed.

(** Moving a pod, or replacing it by a new version. *)
Lemma replace_pod_inv old new ps ps' a c :
  cache_inv c -> podStates c !! UID old = Some ps ->
  NodeName (Spec (ps_pod ps)) = NodeName (Spec old) -> UID new = UID old -> ps_pod ps' = new ->
  a = assumedPods c \/ a = assumedPods c ∖ {[UID old]} -> UID old ∉ a ->
  exists c', removePod old c = Ret (c', None) /\ same_pods c c' /\
    cache_inv (with_pods a (<[UID old := ps']> (podStates c)) (addPod new c')).
Proof.
  intros Hc Hs Hn Hu Hps Ha Hni. destruct (pod_on_node c _ _ Hc Hs) as (_ & Hne & Hin). rewrite Hn in Hin.
  destruct (removePod_found old c (ci_nodes c Hc) Hne Hin) as (c' & Hr & Hi & Hsame & Hp & Ho).
  exists c'. split_and!; [done|done|]. apply cache_inv_pods.
  - by apply addPod_nodes_inv.
  - intros k ps''. rewrite lookup_insert. case_decide; [|apply Hc]. subst. intros [= <-]. done.
  - intros k Hk. rewrite lookup_insert_ne by congruence. apply cache_inv_assumed; [done|].
    destruct Ha; set_solver.
  - rewrite <- insert_delete_eq, <- Hu. apply tracks_add; [|by rewrite Hu, lookup_delete_eq|done].
    rewrite Hu. by apply (tracks_remove _ c c' _ (NodeName (Spec old))); [apply Hc| |].
Qed.

Lemma alter_insert {V} (m : gmap string V) k (f : V -> V) v :
  m !! k = Some v -> alter f k m = <[k := f v]> m.
Proof.
  intros Hk. apply map_eq. intros j. rewrite lookup_insert. case_decide as E; subst.
  - by rewrite lookup_alter_eq, Hk.
  - by rewrite lookup_alter_ne.
Qed.

Lemma cache_AddPod_inv pod c : cache_inv c ->
  exists c' e, cache_AddPod pod c = Ret (c', e) /\ cache_inv c'.
Proof.
  intros Hc. unfold cache_AddPod. destruct (GetPodKey pod) as [k [e|]] eqn:Ek; [by eauto|].
  apply GetPodKey_Some in Ek as [-> Hne].
  destruct (podStates c !! UID pod) as [ps|] eqn:Es.
  - case_bool_decide as Ha; [|by eauto].
    destruct (ci_keys c Hc _ _ Es) as [Hu _].
    destruct (String.eqb_spec (NodeName (Spec (ps_pod ps))) (NodeName (Spec pod))) as [En|En]; simpl.
    + eexists _, _. split; [reflexivity|]. rewrite (alter_insert _ _ _ _ Es).
      apply cache_inv_pods.
      * apply Hc.
      * intros j ps'. rewrite lookup_insert. case_decide; [|apply Hc]. subst. by intros [= <-].
      * intros j Hj. rewrite lookup_insert_ne by set_solver. apply cache_inv_assumed; set_solver.
      * by apply (tracks_update _ _ _ ps); [apply Hc| |].
    + destruct (replace_pod_inv (ps_pod ps) pod ps (mkPodState pod None (ps_bindingFinished ps))
        (assumedPods c ∖ {[UID pod]}) c) as (c' & -> & [H1 H2] & Hi); try done.
      { by rewrite Hu. }
      { right. by rewrite Hu. }
      { set_solver. }
      cbn [obind fst]. eexists _, _. split; [reflexivity|].
      destruct (addPod_same pod c') as [-> ->]. rewrite H1, H2, (alter_insert _ _ _ _ Es).
      by rewrite Hu in Hi.
  - eexists _, _. split; [reflexivity|]. destruct (addPod_same pod c) as [-> ->].
    apply cache_inv_pods.
    + by apply addPod_nodes_inv, Hc.
    + intros k ps. rewrite lookup_insert. case_decide; [|apply Hc]. subst. by intros [= <-].
    + intros k Hk. destruct (cache_inv_assumed c k Hc Hk) as (ps & Hs & Hd).
      rewrite lookup_insert_ne by congruence. eauto.
    + by apply tracks_add; [apply Hc| |].
Qed.

(** Informers report updates of one pod, which stays on its node. *)
Definition update_event (old new : Pod) : Prop :=
  UID new = UID old /\ NodeName (Spec new) = NodeName (Spec old).

Lemma UpdatePod_inv old new c : cache_inv c -> update_event old new ->
  match UpdatePod old new c with
  | Ret (c', e) => cache_inv c'
  | Panic _ => exists ps, podStates c !! UID old = Some ps /\ NodeName (Spec (ps_pod ps)) <> NodeName (Spec new)
  end.
Proof.
  intros Hc [Hu Hnn]. unfold UpdatePod. destruct (GetPodKey old) as [k [e|]] eqn:Ek; [done|].
  apply GetPodKey_Some in Ek as [-> Hne].
  destruct (podStates c !! UID old) as [ps|] eqn:Es; [|done].
  case_bool_decide as Ha; [done|].
  destruct (String.eqb_spec (NodeName (Spec (ps_pod ps))) (NodeName (Spec new))) as [En|En]; simpl; [|by eauto].
  destruct (replace_pod_inv old new ps (mkPodState new (ps_deadline ps) (ps_bindingFinished ps))
    (assumedPods c) c) as (c' & Hr & [H1 H2] & Hi); try done; [congruence|by left|].
  unfold updatePod. rewrite Hr. cbn [obind].
  destruct (addPod_same new c') as [-> ->]. rewrite H1, H2, (alter_insert _ _ _ _ Es). done.
Qed.

Lemma cache_RemovePod_inv pod c : cache_inv c ->
  match cache_RemovePod pod c with
  | Ret (c', e) => cache_inv c'
  | Panic _ => exists ps, podStates c !! UID pod = Some ps /\ NodeName (Spec (ps_pod ps)) <> NodeName (Spec pod)
  end.
Proof.
  intros Hc. unfold cache_RemovePod. destruct (GetPodKey pod) as [k [e|]] eqn:Ek; [done|].
  apply GetPodKey_Some in Ek as [-> Hne].
  destruct (podStates c !! UID pod) as [ps|] eqn:Es; [|done].
  case_bool_decide as Ha; [done|].
  destruct (String.eqb_spec (NodeName (Spec (ps_pod ps))) (NodeName (Spec pod))) as [En|En]; simpl; [|by eauto].
  destruct (ci_keys c Hc _ _ Es) as [Hu _].
  destruct (drop_pod_inv (ps_pod ps) ps (assumedPods c) c Hc) as (c' & -> & [H1 H2] & Hi);
    [by rewrite Hu|done|by left|by rewrite Hu|].
  cbn [obind]. rewrite H1, H2. by rewrite Hu in Hi.
Qed.

(** ** Expiration *)

(** An assumed pod whose binding finished and whose time is up. *)
Definition expired (c : schedulerCache) (now : Z) (k : string) : Prop :=
  k ∈ assumedPods c /\
  exists ps dl, podStates c !! k = Some ps /\ ps_bindingFinished ps = true /\
    ps_deadline ps = Some dl /\ dl < now.

(** [c'] has lost the pods in [gone] and no others. *)
Definition lost (gone : string -> Prop) (c c' : schedulerCache) : Prop :=
  forall k, (gone k -> podStates c' !! k = None /\ k ∉ assumedPods c') /\
            (~ gone k -> podStates c' !! k = podStates c !! k /\
                         (k ∈ assumedPods c' <-> k ∈ assumedPods c)).

Lemma cleanup_one_spec now k c :
  cache_inv c -> k ∈ assumedPods c ->
  exists c', cleanup_one now k c = Ret c' /\ cache_inv c' /\
    lost (fun j => j = k /\ expired c now k) c c'.
Proof.
  intros Hc Hk. destruct (cache_inv_assumed c k Hc Hk) as (ps & Hs & Hd).
  unfold cleanup_one. rewrite Hs.
  assert (~ expired c now k -> lost (fun j => j = k /\ expired c now k) c c) as Hkeep
    by (intros Hne j; naive_solver).
  destruct (ps_bindingFinished ps) eqn:Eb; simpl.
  - destruct (Hd eq_refl) as [dl Edl]. rewrite Edl. destruct (Z.ltb_spec dl now) as [Hlt|Hge].
    + destruct (ci_keys c Hc _ _ Hs) as [Hu _]. unfold expirePod.
      destruct (drop_pod_inv (ps_pod ps) ps (assumedPods c ∖ {[k]}) c Hc) as (c' & -> & [H1 H2] & Hi);
        [by rewrite Hu|done|right; by rewrite Hu|set_solver|].
      rewrite Hu in Hi. cbn [obind]. eexists. split; [reflexivity|]. cbn [fst]. rewrite H1, H2. split; [done|].
      assert (expired c now k) as He by (split; [done|]; naive_solver).
      intros j. cbn [podStates assumedPods with_pods]. split.
      * intros [-> _]. rewrite lookup_delete_eq. set_solver.
      * intros Hj. assert (j <> k) by naive_solver. rewrite lookup_delete_ne by done. set_solver.
    + exists c. split_and!; [done..|]. apply Hkeep. intros (_ & ps' & dl' & Hs' & _ & Hd' & Hlt).
      simplify_eq. lia.
  - exists c. split_and!; [done..|]. apply Hkeep. intros (_ & ps' & dl' & Hs' & Hb & _). congruence.
Qed.

Lemma cleanup_fold now ks c :
  cache_inv c -> NoDup ks -> (forall k, k ∈ ks -> k ∈ assumedPods c) ->
  exists c', fold_left (fun oc key => obind oc (cleanup_one now key)) ks (Ret c) = Ret c' /\
    cache_inv c' /\ lost (fun j => j ∈ ks /\ expired c now j) c c'.
Proof.
  revert c. induction ks as [|k ks IH]; intros c Hc Hnd Hks; simpl.
  { exists c. split_and!; [done..|]. intros j. split; [set_solver|done]. }
  apply NoDup_cons in Hnd as [Hk Hnd].
  destruct (cleanup_one_spec now k c Hc) as (c1 & -> & Hc1 & Hl1); [apply Hks; left|].
  assert (forall j, j <> k -> podStates c1 !! j = podStates c !! j /\ (j ∈ assumedPods c1 <-> j ∈ assumedPods c))
    as Hsame by (intros j Hj; apply (Hl1 j); naive_solver).
  destruct (IH c1 Hc1 Hnd) as (c' & Hf & Hc' & Hl').
  { intros j Hj. apply Hsame; [congruence|]. apply Hks. by right. }
  exists c'. split_and!; [done..|].
  assert (forall j, j <> k -> expired c1 now j <-> expired c now j) as Hex.
  { intros j Hj. unfold expired. destruct (Hsame j Hj) as [-> ->]. done. }
  intros j. destruct (decide (j = k)) as [->|Hj].
  - assert (podStates c' !! k = podStates c1 !! k /\ (k ∈ assumedPods c' <-> k ∈ assumedPods c1)) as [E1 E2]
      by (apply (Hl' k); naive_solver).
    rewrite E1, E2. split.
    + intros [_ He]. apply (Hl1 k). done.
    + intros Hne. apply (Hl1 k). intros [_ He]. apply Hne. split; [left|done].
  - destruct (Hsame j Hj) as [E1 E2]. rewrite <- E1, <- E2. specialize (Hl' j). specialize (Hex j Hj).
    split; intros H; apply Hl'; set_solver.
Qed.

Lemma cleanup_inv now c : cache_inv c ->
  exists c', cleanupAssumedPods now c = Ret c' /\ cache_inv c' /\ lost (expired c now) c c'.
Proof.
  intros Hc. destruct (cleanup_fold now (range 0 (elements (assumedPods c))) c Hc) as (c' & Hf & Hc' & Hl).
  { rewrite range_perm. apply NoDup_elements. }
  { intros k. by rewrite range_perm, elem_of_elements. }
  exists c'. split_and!; [done..|]. intros k. destruct (Hl k) as [H1 H2].
  assert (k ∈ range 0 (elements (assumedPods c)) /\ expired c now k <-> expired c now k) as Heq
    by (rewrite range_perm, elem_of_elements; unfold expired; naive_solver).
  split; intros H; [apply H1|apply H2]; tauto.
Qed.

(** ** Nodes *)

Lemma cache_inv_nodes c c' :
  cache_inv c -> nodes_inv c' -> same_pods c c' -> (forall y, keys_on c' y = keys_on c y) -> cache_inv c'.
Proof.
  intros [_ H2 H3 H4 H5] Hn [Hs Ha] Hk. constructor; rewrite ?Hs, ?Ha; try done.
  intros name. rewrite Hk. apply H5.
Qed.

Lemma forget_old_images_nodes x c :
  nodes (forget_old_images x c) = nodes c /\ headNode (forget_old_images x c) = headNode c /\
  same_pods c (forget_old_images x c) /\ c_nodeTree (forget_old_images x c) = c_nodeTree c.
Proof.
  unfold forget_old_images. destruct (info_of c x) as [ni|]; [|done]. unfold removeNodeImageStates.
  by destruct (ni_node ni).
Qed.

(** The last steps of adding and updating a node. *)
Definition finish_node (node : Node) (c : schedulerCache) : schedulerCache :=
  on_info (node_Name node) (SetNode node) (addNodeImageStates node c).

Lemma finish_node_spec node c :
  (list_inv c -> list_inv (finish_node node c)) /\ same_pods c (finish_node node c) /\
  (forall y, y <> node_Name node -> info_of (finish_node node c) y = info_of c y) /\
  match info_of c (node_Name node) with
  | None => True
  | Some ni => exists n', info_of (finish_node node c) (node_Name node) = Some n' /\
                 Pods n' = Pods ni /\ is_Some (ni_node n')
  end.
Proof.
  unfold finish_node, addNodeImageStates.
  destruct (fold_left (add_image node) (node_image_names node) (imageStates c, ∅)) as [st sm].
  set (c1 := on_info (node_Name node) (fun ni w => (set_ImageStates sm ni, w)) (with_images st c)).
  destruct (nodes_on_info (node_Name node) (SetNode node) c1) as (_ & _ & H1 & H2).
  destruct (nodes_on_info (node_Name node) (fun ni w => (set_ImageStates sm ni, w)) (with_images st c))
    as (_ & _ & H3 & H4). fold c1 in H3, H4.
  split_and!.
  - intros Hl. by apply list_inv_on_info, list_inv_on_info.
  - split; [by rewrite H1, H3|by rewrite H2, H4].
  - intros y Hy. rewrite info_of_on_info, decide_False by done. unfold c1.
    rewrite info_of_on_info, decide_False by done. done.
  - destruct (info_of c (node_Name node)) as [ni|] eqn:Ei; [|done].
    rewrite info_of_on_info, decide_True by done. unfold c1 at 2.
    rewrite info_of_on_info, decide_True by done.
    change (info_of (with_images st c) (node_Name node)) with (info_of c (node_Name node)).
    rewrite Ei. simpl. eexists. split; [reflexivity|]. simpl. eauto.
Qed.

(** The first steps: the node has an item, at the head of the list. *)
Lemma place_node_spec node c c1 :
  cache_inv c -> (c1 = ensure_item (node_Name node) c \/ (c1 = c /\ is_Some (info_of c (node_Name node)))) ->
  cache_inv (finish_node node (moveNodeInfoToHead (node_Name node) c1)).
Proof.
  intros Hc Hc1. set (x := node_Name node) in *. pose proof (ci_nodes c Hc) as [Hl Hg].
  assert (pre_inv x c1) as Hpre.
  { destruct Hc1 as [->|[-> _]]; [by apply pre_inv_ensure|by left]. }
  assert (same_pods c c1) as [Hs Ha].
  { destruct Hc1 as [->|[-> _]]; [|done]. unfold ensure_item. by destruct (nodes c !! x). }
  assert (forall y, y <> x -> info_of c1 y = info_of c y) as Ho.
  { intros y Hy. destruct Hc1 as [->|[-> _]]; [|done]. rewrite info_of_ensure, decide_False by done.
    by destruct (info_of c y). }
  assert (exists ni, info_of c1 x = Some ni /\ Pods ni = pods_on c x) as (ni & Hx & Hpx).
  { unfold pods_on. destruct Hc1 as [->|[-> [ni Hi]]].
    - rewrite info_of_ensure, decide_True by done. destruct (info_of c x) as [ni|]; eauto.
    - exists ni. by rewrite Hi. }
  destruct (finish_node_spec node (moveNodeInfoToHead x c1)) as (F1 & F2 & F3 & F4). fold x in F3, F4.
  rewrite info_of_move, Hx in F4. destruct F4 as (n' & Hn' & Hp' & Hnode').
  apply (cache_inv_nodes c); [done| |split; [by rewrite (proj1 F2)|by rewrite (proj2 F2)]|].
  - split; [by apply F1, pre_inv_move|]. intros y ny. destruct (decide (y = x)) as [->|Hy].
    + rewrite Hn'. intros [= <-] Hnone. rewrite Hnone in Hnode'. by destruct Hnode'.
    + rewrite F3, info_of_move, Ho by done. apply Hg.
  - intros y. unfold keys_on. f_equal. unfold pods_on at 1. destruct (decide (y = x)) as [->|Hy].
    + rewrite Hn'. simpl. by rewrite Hp', Hpx.
    + unfold pods_on. by rewrite F3, info_of_move, Ho by done.
Qed.

(** The invariant does not mention the images and the tree. *)
Lemma cache_inv_frame c c' :
  nodes c' = nodes c -> headNode c' = headNode c -> same_pods c c' -> cache_inv c -> cache_inv c'.
Proof.
  intros Hn Hh Hs Hc. apply (cache_inv_nodes c); [done| |done|].
  - pose proof (ci_nodes c Hc) as [Hl Hg]. split.
    + unfold list_inv. by rewrite Hn, Hh.
    + unfold ghost_inv, info_of. by rewrite Hn.
  - intros y. unfold keys_on, pods_on, info_of. by rewrite Hn.
Qed.

Lemma finish_node_frame node c t :
  finish_node node (with_tree t c) = with_tree t (finish_node node c).
Proof.
  destruct c as [tl ap ps nd hd tr im w]. unfold finish_node, addNodeImageStates. cbn [imageStates with_tree].
  destruct (fold_left (add_image node) (node_image_names node) (im, ∅)) as [st sm].
  unfold on_info. cbn. destruct (nd !! node_Name node) as [it|]; cbn.
  - by destruct (set_info _ _ _ !! node_Name node).
  - by destruct (nd !! node_Name node).
Qed.

Lemma AddNode_inv node c : cache_inv c -> cache_inv (AddNode node c).
Proof.
  intros Hc. unfold AddNode. fold (finish_node node
    (with_tree (addNode node (c_nodeTree (moveNodeInfoToHead (node_Name node)
       (ensure_item (node_Name node) (forget_old_images (node_Name node) c)))))
      (moveNodeInfoToHead (node_Name node) (ensure_item (node_Name node) (forget_old_images (node_Name node) c))))).
  rewrite finish_node_frame.
  destruct (forget_old_images_nodes (node_Name node) c) as (H1 & H2 & H3 & _).
  eapply (cache_inv_frame (finish_node node _)); [reflexivity|reflexivity|done|].
  apply (place_node_spec _ (forget_old_images (node_Name node) c)); [|by left].
  by apply (cache_inv_frame c).
Qed.

Lemma UpdateNode_inv old new c c' : cache_inv c -> UpdateNode old new c = Ret c' -> cache_inv c'.
Proof.
  intros Hc. unfold UpdateNode.
  set (c1 := match nodes c !! node_Name new with
             | Some _ => forget_old_images (node_Name new) c
             | None => with_tree (addNode new (c_nodeTree c)) (ensure_item (node_Name new) c)
             end).
  destruct (updateNode old new _) as [t|]; [|done]. cbn [obind]. intros [= <-].
  fold (finish_node new (with_tree t (moveNodeInfoToHead (node_Name new) c1))).
  rewrite finish_node_frame. eapply (cache_inv_frame (finish_node new _)); [reflexivity|reflexivity|done|].
  unfold c1. destruct (nodes c !! node_Name new) as [it|] eqn:En.
  - destruct (forget_old_images_nodes (node_Name new) c) as (H1 & H2 & H3 & _).
    apply (place_node_spec _ (forget_old_images (node_Name new) c)); [by apply (cache_inv_frame c)|].
    right. split; [done|]. unfold info_of. rewrite H1, En. simpl. eauto.
  - change (moveNodeInfoToHead (node_Name new) (with_tree (addNode new (c_nodeTree c))
      (ensure_item (node_Name new) c))) with (with_tree (addNode new (c_nodeTree c))
      (moveNodeInfoToHead (node_Name new) (ensure_item (node_Name new) c))).
    rewrite finish_node_frame. eapply (cache_inv_frame (finish_node new _)); [reflexivity|reflexivity|done|].
    apply (place_node_spec _ c); [done|by left].
Qed.

Lemma cache_RemoveNode_inv node c : cache_inv c -> cache_inv (cache_RemoveNode node c).1.
Proof.
  intros Hc. unfold cache_RemoveNode. destruct (nodes c !! node_Name node) as [it|] eqn:En; [|done].
  set (x := node_Name node) in *. set (c1 := on_info x RemoveNode c).
  set (c2 := if (length (Pods (it_info it)) =? 0)%nat then removeNodeInfoFromList x c1
             else moveNodeInfoToHead x c1).
  assert (cache_inv c2) as Hc2.
  { pose proof (ci_nodes c Hc) as [Hl Hg].
    destruct (nodes_on_info x RemoveNode c) as (Hn1 & _ & Hs1 & Ha1). fold c1 in Hn1, Hs1, Ha1.
    assert (forall y, info_of c1 y = if decide (x = y) then (fun ni => (RemoveNode ni (world c)).1) <$> info_of c y
                                     else info_of c y) as Hi1 by (intros; apply info_of_on_info).
    assert (info_of c x = Some (it_info it)) as Hix by (unfold info_of; by rewrite En).
    assert (list_inv c1) as Hl1 by (by apply list_inv_on_info).
    assert (is_Some (nodes c1 !! x)) as Hsx by (rewrite Hn1, En; apply set_info_Some; rewrite En; eauto).
    unfold c2. destruct (Nat.eqb_spec (length (Pods (it_info it))) 0) as [E0|E0].
    - apply length_zero_iff_nil in E0.
      apply (cache_inv_nodes c); [done|split; [by apply list_inv_remove|]|done|].
      + intros y ny. rewrite info_of_remove by done. case_decide as Hxy; [done|].
        rewrite Hi1, decide_False by done. apply Hg.
      + intros y. unfold keys_on, pods_on. rewrite info_of_remove by done. case_decide as Hxy.
        * subst y. rewrite Hix. simpl. by rewrite E0.
        * by rewrite Hi1, decide_False by done.
    - apply (cache_inv_nodes c); [done|split; [apply pre_inv_move; by left|]|done|].
      + intros y ny. rewrite info_of_move, Hi1. case_decide as Hxy; [|apply Hg].
        subst y. rewrite Hix. simpl. intros [= <-] _. simpl. intros HP. by rewrite HP in E0.
      + intros y. unfold keys_on, pods_on. rewrite info_of_move, Hi1. case_decide as Hxy; [|done].
        by destruct (info_of c y). }
  destruct (removeNode node (c_nodeTree c2)) as [t [e|]]; cbn [fst];
    (eapply (cache_inv_frame c2); [reflexivity|reflexivity|done|done]).
Qed.

(** ** Reachable caches *)

(** What the scheduler and the informer of pods do. *)
Inductive pod_step : schedulerCache -> schedulerCache -> Prop :=
| ps_assume pod c : pod_step c (AssumePod pod c).1
| ps_finish pod now c : pod_step c (finishBinding pod now c).1
| ps_forget pod c c' e : ForgetPod pod c = Ret (c', e) -> pod_step c c'
| ps_add pod c c' e : cache_AddPod pod c = Ret (c', e) -> pod_step c c'
| ps_update old new c c' e : update_event old new -> UpdatePod old new c = Ret (c', e) -> pod_step c c'
| ps_remove pod c c' e : cache_RemovePod pod c = Ret (c', e) -> pod_step c c'
| ps_cleanup now c c' : cleanupAssumedPods now c = Ret c' -> pod_step c c'.

(** What the informer of nodes does. *)
Inductive cache_step : schedulerCache -> schedulerCache -> Prop :=
| cs_pods c c' : pod_step c c' -> cache_step c c'
| cs_add_node node c : cache_step c (AddNode node c)
| cs_update_node old new c c' : UpdateNode old new c = Ret c' -> cache_step c c'
| cs_remove_node node c : cache_step c (cache_RemoveNode node c).1.

Inductive cache_reachable : schedulerCache -> Prop :=
| cr_new t : cache_reachable (newSchedulerCache t)
| cr_step c c' : cache_reachable c -> cache_step c c' -> cache_reachable c'.

Lemma newSchedulerCache_inv t : cache_inv (newSchedulerCache t).
Proof.
  constructor; simpl; try done.
  - split.
    + exists []. split; [constructor; [constructor|done|]|].
      * by intros [|? ?] ? ?.
      * intros x. simpl. rewrite lookup_empty. split; [set_solver|by intros []].
    + done.
  - intros name. split; [constructor|]. intros k. unfold keys_on, pods_on, info_of. simpl.
    split; [set_solver|]. intros (ps & Hs & _). by rewrite lookup_empty in Hs.
Qed.

Lemma pod_step_inv c c' : pod_step c c' -> cache_inv c -> cache_inv c'.
Proof.
  destruct 1 as [pod c|pod now c|pod c c' e H|pod c c' e H|old new c c' e He H|pod c c' e H
    |now c c' H]; intros Hc.
  - by apply AssumePod_inv.
  - by apply finishBinding_inv.
  - destruct (ForgetPod_inv pod c Hc) as (c1 & e1 & E & Hi). rewrite H in E. by injection E as -> ->.
  - destruct (cache_AddPod_inv pod c Hc) as (c1 & e1 & E & Hi). rewrite H in E. by injection E as -> ->.
  - pose proof (UpdatePod_inv old new c Hc He) as Hi. by rewrite H in Hi.
  - pose proof (cache_RemovePod_inv pod c Hc) as Hi. by rewrite H in Hi.
  - destruct (cleanup_inv now c Hc) as (c1 & E & Hi & _). rewrite H in E. by injection E as ->.
Qed.

Lemma cache_step_inv c c' : cache_step c c' -> cache_inv c -> cache_inv c'.
Proof.
  destruct 1 as [c c' H|node c|old new c c' H|node c]; intros Hc.
  - by eapply pod_step_inv.
  - by apply AddNode_inv.
  - by apply (UpdateNode_inv old new c).
  - by apply cache_RemoveNode_inv.
Qed.

Lemma cache_reachable_inv c : cache_reachable c -> cache_inv c.
Proof.
  induction 1 as [t|c c' _ IH Hs]; [apply newSchedulerCache_inv|by eapply cache_step_inv].
Qed.

(** C18. The cache stays consistent under every sequence of scheduler actions
    and informer events: each node lists exactly the pods whose state says
    they are on it, once each; only known pods are assumed; a node without
    its object is kept only while it has pods; and the linked list runs
    through all nodes. *)
Theorem cache_consistent c : cache_reachable c -> cache_inv c.
Proof. apply cache_reachable_inv. Qed.

(** On every reachable cache, forgetting and confirming pods and the
    periodic cleanup do not panic; the cleanup drops exactly the assumed pods
    whose binding finished and whose deadline has passed; and updating or
    removing a pod stops the process only when the event places the pod on
    another node than the cache. *)
Theorem cache_no_panic c :
  cache_reachable c ->
  (forall pod, exists r, ForgetPod pod c = Ret r) /\
  (forall pod, exists r, cache_AddPod pod c = Ret r) /\
  (forall now, exists c', cleanupAssumedPods now c = Ret c' /\ lost (expired c now) c c') /\
  (forall pod m, cache_RemovePod pod c = Panic m ->
     exists ps, podStates c !! UID pod = Some ps /\ NodeName (Spec (ps_pod ps)) <> NodeName (Spec pod)) /\
  (forall old new m, update_event old new -> UpdatePod old new c = Panic m ->
     exists ps, podStates c !! UID old = Some ps /\ NodeName (Spec (ps_pod ps)) <> NodeName (Spec new)).
Proof.
  intros Hc%cache_reachable_inv. split_and!.
  - intros pod. destruct (ForgetPod_inv pod c Hc) as (c' & e & -> & _). eauto.
  - intros pod. destruct (cache_AddPod_inv pod c Hc) as (c' & e & -> & _). eauto.
  - intros now. destruct (cleanup_inv now c Hc) as (c' & -> & _ & Hl). eauto.
  - intros pod m H. pose proof (cache_RemovePod_inv pod c Hc) as Hi. by rewrite H in Hi.
  - intros old new m He H. pose proof (UpdatePod_inv old new c Hc He) as Hi. by rewrite H in Hi.
Qed.
End cache_proofs.

(** ** Witnesses and observed behaviour *)

Definition on_node (name : string) (p : Pod) : Pod := set_NodeName name p.

Definition sample_cache : schedulerCache :=
  (@AssumePod amd64 gates_default (on_node "n1" (sample_nginx "u1" 500))
     (@AddNode amd64 gates_default (sample_node "n1" ∅ 4000) (newSchedulerCache 30))).1.

Lemma sample_cache_reachable : @cache_reachable amd64 gates_default range_id sample_cache.
Proof.
  eapply cr_step; [|apply cs_pods, ps_assume]. eapply cr_step; [|apply cs_add_node]. constructor.
Qed.

Lemma cache_consistent_witness :
  cache_inv sample_cache /\ keys_on sample_cache "n1" = ["u1"%string].
Proof.
  split; [apply (@cache_consistent amd64 gates_default range_id), sample_cache_reachable|vm_compute; reflexivity].
Defined.

Lemma cache_no_panic_witness :
  exists c', @cleanupAssumedPods amd64 gates_default range_id 100 sample_cache = Ret c' /\
    lost (expired sample_cache 100) sample_cache c'.
Proof. apply (@cache_no_panic amd64 gates_default range_id), sample_cache_reachable. Defined.

(** The resources requested on a node according to the cache. *)
Definition requested_cpu (c : schedulerCache) (name : string) : option Z :=
  (fun ni => MilliCPU (Requested ni)) <$> info_of c name.

Definition requested_after (r : outcome (schedulerCache * error)) (name : string) : option Z :=
  match r with Ret (c, _) => requested_cpu c name | Panic _ => None end.

(** The CPU a node is accounted for drifts when the binding plugin
    changes the pod's requests: the cache keeps the assumed pod in the node
    when the bound pod is confirmed, and the next update subtracts the new
    request from what was added for the old one.  A pod assumed with 500m and
    bound with 1000m leaves 500m accounted for a pod that asks for 1000m, and
    the node ends below zero when the pod is deleted. *)
Theorem rebound_pod_accounting_drift :
  let assumed := on_node "n1" (sample_nginx "u1" 500) in
  let bound := on_node "n1" (sample_nginx "u1" 1000) in
  let c0 := @AddNode amd64 gates_default (sample_node "n1" ∅ 4000) (newSchedulerCache 30) in
  let c1 := (@AssumePod amd64 gates_default assumed c0).1 in
  let add c := @cache_AddPod amd64 gates_default bound c in
  let update c := @UpdatePod amd64 gates_default bound bound c in
  let remove c := @cache_RemovePod amd64 gates_default bound c in
  requested_after (add c1) "n1" = Some 500 /\
  requested_after (obind (add c1) (fun r => update r.1)) "n1" = Some 500 /\
  requested_after (obind (add c1) (fun r => remove r.1)) "n1" = Some (-500) /\
  requested_after (obind (obind (add c1) (fun r => update r.1)) (fun r => remove r.1)) "n1" = Some (-500).
Proof. vm_compute. split_and!; reflexivity. Qed.
