(* ===== verification/CacheSnapshot.v ===== *)
(** * The incremental snapshot of the scheduler cache

    [UpdateSnapshot] copies only the nodes that changed since the snapshot was
    taken: it walks the list of nodes, most recently changed first, until it
    meets one that is not newer than the snapshot.  The result is the same as
    a full copy of the live nodes. *)

From S2P Require Import Prelude GoInt GoFloat GoStrconv Quantity ApiTypes Resource HostPorts AffinityTerms NodeInfo Samples Framework Snapshot NodeTree Cache CacheProofs.

(** ** Generations *)

Definition G (c : schedulerCache) : Z := generation (world c).

(** The nodes of the cache, in the order of the list. *)
Definition order (c : schedulerCache) (l : list string) : Prop :=
  linked (nodes c) (headNode c) l /\ forall x, x ∈ l <-> is_Some (nodes c !! x).

Definition others (x : string) (l : list string) : list string := filter (fun y => y <> x) l.

(** Node [x] is the only one that changed; it is now the first of the list
    and carries the newest generation. *)
Definition touched (x : string) (c c' : schedulerCache) : Prop :=
  (forall l, order c l -> order c' (x :: others x l)) /\
  (forall y, y <> x -> info_of c' y = info_of c y) /\
  (exists ni, info_of c' x = Some ni /\ Generation ni = G c') /\ G c < G c'.

(** Node [x] left the cache. *)
Definition dropped (x : string) (c c' : schedulerCache) : Prop :=
  (forall l, order c l -> order c' (others x l)) /\
  (forall y, y <> x -> info_of c' y = info_of c y) /\ info_of c' x = None /\ G c <= G c'.

Definition untouched (c c' : schedulerCache) : Prop :=
  nodes c' = nodes c /\ headNode c' = headNode c /\ G c' = G c.

Inductive effect (c c' : schedulerCache) : Prop :=
| ef_none : untouched c c' -> effect c c'
| ef_touch x : touched x c c' -> effect c c'
| ef_drop x : dropped x c c' -> effect c c'.

(** The generation of a node. *)
Definition gen (c : schedulerCache) (x : string) : Z := default 0 (Generation <$> info_of c x).

(** The list is in the order of the generations, newest first. *)
Definition gen_inv (c : schedulerCache) : Prop :=
  exists l, order c l /\ StronglySorted (fun x y => gen c y <= gen c x) l /\
    forall x ni, info_of c x = Some ni -> Generation ni <= G c.

(** What is not newer than [c] is as it was in [c]. *)
Definition evolves (c c' : schedulerCache) : Prop :=
  G c <= G c' /\
  forall x ni, info_of c' x = Some ni -> info_of c x = Some ni \/ G c < Generation ni.

Lemma evolves_refl c : evolves c c.
Proof. split; [lia|]. auto. Qed.

Lemma evolves_trans c1 c2 c3 : evolves c1 c2 -> evolves c2 c3 -> evolves c1 c3.
Proof.
  intros [G1 H1] [G2 H2]. split; [lia|]. intros x ni Hx.
  destruct (H2 x ni Hx) as [H|H]; [by apply H1|right; lia].
Qed.

Lemma StronglySorted_filter {A} (R : A -> A -> Prop) P `{!forall x, Decision (P x)} l :
  StronglySorted R l -> StronglySorted R (filter P l).
Proof.
  induction 1 as [|x l Hl IH Hx]; [constructor|]. destruct (decide (P x)).
  - rewrite filter_cons_True by done. constructor; [done|].
    apply Forall_forall. intros y [_ Hy]%list_elem_of_filter. by rewrite Forall_forall in Hx; apply Hx.
  - by rewrite filter_cons_False.
Qed.

Lemma StronglySorted_ext {A} (R R' : A -> A -> Prop) l :
  (forall x y, x ∈ l -> y ∈ l -> R x y -> R' x y) -> StronglySorted R l -> StronglySorted R' l.
Proof.
  intros H. induction 1 as [|x l Hl IH Hx]; [constructor|]. constructor.
  - apply IH. intros y z Hy Hz. apply H; by right.
  - rewrite Forall_forall in Hx |- *. intros y Hy. apply H; [left|by right|auto].
Qed.

Lemma elem_others x l y : y ∈ others x l <-> y ∈ l /\ y <> x.
Proof. unfold others. rewrite list_elem_of_filter. tauto. Qed.

Lemma gen_ne c c' x : (forall y, y <> x -> info_of c' y = info_of c y) ->
  forall y, y <> x -> gen c' y = gen c y.
Proof. intros H y Hy. unfold gen. by rewrite H. Qed.

Lemma gen_le c x : (forall x ni, info_of c x = Some ni -> Generation ni <= G c) -> 0 <= G c -> gen c x <= G c.
Proof. intros H H0. unfold gen. destruct (info_of c x) eqn:E; simpl; [eauto|done]. Qed.

Lemma effect_inv c c' : effect c c' -> 0 <= G c -> gen_inv c -> gen_inv c' /\ evolves c c' /\ 0 <= G c'.
Proof.
  intros He H0 (l & Ho & Hs & Hle).
  destruct He as [(Hn & Hh & Hg)|x (Hl & Hi & (ni & Hx & Hgx) & Hg)|x (Hl & Hi & Hx & Hg)].
  - assert (forall y, info_of c' y = info_of c y) as Hi by (intros; unfold info_of; by rewrite Hn).
    split; [|split; [|lia]].
    + exists l. split; [unfold order; by rewrite Hn, Hh|]. split.
      * eapply StronglySorted_ext; [|exact Hs]. intros. unfold gen. by rewrite !Hi.
      * intros y ni. rewrite Hi, Hg. apply Hle.
    + split; [lia|]. intros y ni. rewrite Hi. by left.
  - split; [|split; [|lia]].
    + exists (x :: others x l). split; [by apply Hl|]. split.
      * constructor.
        -- eapply StronglySorted_ext; [|apply StronglySorted_filter; exact Hs].
           intros y z [Hy _]%list_elem_of_filter [Hz _]%list_elem_of_filter. by rewrite !(gen_ne c c' x Hi).
        -- apply Forall_forall. intros y [Hy Hne]%elem_others. rewrite (gen_ne c c' x Hi) by done.
           unfold gen at 2. rewrite Hx. simpl. pose proof (gen_le c y Hle H0). lia.
      * intros y n Hy. destruct (decide (y = x)) as [-> |Hne].
        -- rewrite Hx in Hy. injection Hy as <-. lia.
        -- rewrite Hi in Hy by done. specialize (Hle y n Hy). lia.
    + split; [lia|]. intros y n Hy. destruct (decide (y = x)) as [-> |Hne].
      * rewrite Hx in Hy. injection Hy as <-. right. lia.
      * left. by rewrite Hi in Hy.
  - split; [|split; [|lia]].
    + exists (others x l). split; [by apply Hl|]. split.
      * eapply StronglySorted_ext; [|apply StronglySorted_filter; exact Hs].
        intros y z [Hy _]%list_elem_of_filter [Hz _]%list_elem_of_filter. by rewrite !(gen_ne c c' x Hi).
      * intros y n Hy. destruct (decide (y = x)) as [-> |Hne]; [congruence|].
        rewrite Hi in Hy by done. specialize (Hle y n Hy). lia.
    + split; [lia|]. intros y n Hy. destruct (decide (y = x)) as [-> |Hne]; [congruence|].
      left. by rewrite Hi in Hy.
Qed.

Lemma effects_inv c c' :
  rtc effect c c' -> 0 <= G c -> gen_inv c -> gen_inv c' /\ evolves c c' /\ 0 <= G c'.
Proof.
  induction 1 as [c|c c1 c2 H1 _ IH]; intros H0 Hc; [split_and!; auto using evolves_refl|].
  destruct (effect_inv c c1 H1 H0 Hc) as (Hc1 & He1 & H01).
  destruct (IH H01 Hc1) as (Hc2 & He2 & H02). split_and!; [done| |done]. by eapply evolves_trans.
Qed.

(** ** The list under the operations *)

Lemma others_notin x l : x ∉ l -> others x l = l.
Proof.
  unfold others. induction l as [|y l IH]; [done|]. rewrite not_elem_of_cons. intros [Hy Hl].
  rewrite filter_cons_True by congruence. by rewrite IH.
Qed.

Lemma others_split x l1 l2 : x ∉ l1 -> x ∉ l2 -> others x (l1 ++ x :: l2) = l1 ++ l2.
Proof.
  intros H1 H2. unfold others. rewrite filter_app, filter_cons_False by naive_solver.
  fold (others x l1). fold (others x l2). by rewrite !others_notin.
Qed.

(** An item for [x] is in the list, or waiting to be linked in. *)
Definition ready (x : string) (c : schedulerCache) (l : list string) : Prop :=
  (order c l /\ x ∈ l) \/
  (linked (nodes c) (headNode c) l /\ x ∉ l /\ (exists i, nodes c !! x = Some (mkItem i None None)) /\
   forall y, y <> x -> y ∈ l <-> is_Some (nodes c !! y)).

Section effects.
Context {arch : GoArch} {gates : FeatureGates} {mr : MapRange}.

#[local] Arguments AddPod : simpl never.
#[local] Arguments NewNodeInfo : simpl never.

Lemma ready_ensure x c l : order c l -> ready x (ensure_item x c) l.
Proof.
  intros [Hl Hd]. unfold ensure_item. destruct (nodes c !! x) as [it|] eqn:E.
  - left. split; [done|]. rewrite Hd, E. eauto.
  - right. assert (x ∉ l) as Hx by (rewrite Hd, E; by intros []).
    destruct (NewNodeInfo (world c)) as [ni w]. simpl. split_and!; [|done|by rewrite lookup_insert_eq; eauto|].
    + destruct Hl as [Hn Hh Hlk]. constructor; [done..|]. intros a y b Hab.
      destruct (Hlk a y b Hab) as (it & Hy & Hp). exists it. split; [|done].
      rewrite lookup_insert_ne; [done|]. congruence.
    + intros y Hy. by rewrite lookup_insert_ne.
Qed.

Lemma order_on_info x op c l : order c l -> order (on_info x op c) l.
Proof.
  intros [Hl Hd]. destruct (nodes_on_info x op c) as (Hn & Hh & _). unfold order. rewrite Hn, Hh.
  destruct (nodes c !! x); [|done]. split; [by apply linked_set_info|].
  intros y. by rewrite set_info_Some.
Qed.

Lemma ready_on_info x op c l : ready x c l -> ready x (on_info x op c) l.
Proof.
  intros [[Ho Hx]|(Hl & Hx & (i & Hi) & Hd)]; [left; split; [by apply order_on_info|done]|right].
  destruct (nodes_on_info x op c) as (Hn & Hh & _). rewrite Hn, Hh, Hi. split_and!; [|done| |].
  - by apply linked_set_info.
  - unfold set_info. rewrite lookup_alter_eq, Hi. simpl. eauto.
  - intros y Hy. by rewrite set_info_Some, Hd.
Qed.

Lemma ready_move x c l : ready x c l -> order (moveNodeInfoToHead x c) (x :: others x l).
Proof.
  intros [[[Hl Hd] Hx]|(Hl & Hx & (i & Hi) & Hd)].
  - destruct (linked_split _ _ _ _ Hl Hx) as (l1 & l2 & it & -> & H1 & H2 & _).
    rewrite others_split by done. split; [by apply list_move_linked|].
    intros y. simpl. rewrite list_move_Some, <- Hd. set_solver.
  - rewrite others_notin by done. split; [by apply (list_move_new _ _ _ _ i)|].
    intros y. simpl. rewrite list_move_Some. destruct (decide (y = x)) as [-> |Hy].
    + rewrite Hi. split; [eauto|]. intros _. left.
    + rewrite <- Hd by done. set_solver.
Qed.

Lemma order_remove x c l : order c l -> x ∈ l -> order (removeNodeInfoFromList x c) (others x l).
Proof.
  intros [Hl Hd] Hx. destruct (linked_split _ _ _ _ Hl Hx) as (l1 & l2 & it & -> & H1 & H2 & Hit & _).
  rewrite others_split by done. split; [by apply list_remove_linked|].
  intros y. unfold removeNodeInfoFromList. simpl.
  rewrite <- (fmap_is_Some it_info), list_remove_info by eauto. case_decide as Hxy.
  - subst. split; [|by intros []]. rewrite elem_of_app. by intros [|].
  - rewrite (fmap_is_Some it_info), <- Hd. set_solver.
Qed.

Lemma order_info c l x : order c l -> x ∈ l <-> is_Some (info_of c x).
Proof. intros [_ Hd]. unfold info_of. by rewrite Hd, fmap_is_Some. Qed.

(** ** Generations under the operations *)

(** An operation that stamps the node with the next generation. *)
Definition stamps (op : NodeInfo -> World -> NodeInfo * World) : Prop :=
  forall n w, Generation (op n w).1 = generation w +₆₄ 1 /\ generation (op n w).2 = generation w +₆₄ 1.

Lemma AddPod_stamps pod : stamps (AddPod pod).
Proof.
  intros n w. unfold AddPod, AddPodInfo.
  by destruct (calculateResource (pi_Pod (NewPodInfo pod))) as [[? ?] ?].
Qed.
Lemma SetNode_stamps node : stamps (SetNode node).
Proof. by intros n w. Qed.
Lemma RemoveNode_stamps : stamps RemoveNode.
Proof. by intros n w. Qed.

Lemma RemovePod_stamps pod n w n' w' :
  RemovePod pod n w = Ret (n', w', None) ->
  Generation n' = generation w +₆₄ 1 /\ generation w' = generation w +₆₄ 1 /\ ni_node n' = ni_node n.
Proof.
  unfold RemovePod. destruct (GetPodKey pod) as [k [e|]]; [done|].
  destruct (index_of k (Pods n)); [|by destruct (ni_node n)].
  destruct (calculateResource pod) as [[? ?] ?]. by intros [= <- <-].
Qed.

Lemma G_move x c : G (moveNodeInfoToHead x c) = G c.
Proof. done. Qed.
Lemma G_remove x c : G (removeNodeInfoFromList x c) = G c.
Proof. done. Qed.

Lemma G_ensure x c :
  G (ensure_item x c) = match info_of c x with Some _ => G c | None => G c +₆₄ 1 end.
Proof.
  unfold ensure_item, info_of, G. destruct (nodes c !! x) eqn:E; simpl; [by rewrite ?E|done].
Qed.

Lemma G_on_info x op c :
  G (on_info x op c) =
  match info_of c x with Some ni => generation (op ni (world c)).2 | None => G c end.
Proof.
  unfold on_info, info_of, G. destruct (nodes c !! x) as [it|]; simpl; [|done].
  by destruct (op (it_info it) (world c)).
Qed.

(** The objects of the nodes. *)
Definition object (c : schedulerCache) (x : string) : option Node := info_of c x ≫= ni_node.

Definition same_objects (c c' : schedulerCache) : Prop :=
  (forall x, object c' x = object c x) /\ c_nodeTree c' = c_nodeTree c.

(** A change that pods cause: at most [k] new generations, the node objects
    stay. *)
Definition pod_effects (k : Z) (c c' : schedulerCache) : Prop :=
  rtc effect c c' /\ 0 <= G c' <= G c + k /\ same_objects c c'.

Lemma pod_effects_refl c : 0 <= G c -> pod_effects 0 c c.
Proof. intros. unfold pod_effects, same_objects. split_and!; [done|lia..|done|done]. Qed.

Lemma pod_effects_trans a b c c1 c2 :
  pod_effects a c c1 -> pod_effects b c1 c2 -> pod_effects (a + b) c c2.
Proof.
  intros (H1 & H2 & H3 & H4) (H5 & H6 & H7 & H8). unfold pod_effects, same_objects.
  split_and!; [by etransitivity|lia..| |congruence].
  intros x. by rewrite H7.
Qed.

Lemma pod_effects_weaken a b c c' : pod_effects a c c' -> a <= b -> pod_effects b c c'.
Proof. intros (H1 & H2 & H3) Hab. split; [done|]. split; [lia|done]. Qed.

Lemma pod_effects_with_pods k c c' a st :
  pod_effects k c c' -> pod_effects k c (with_pods a st c').
Proof.
  intros (H1 & H2 & H3). split; [|done]. etransitivity; [exact H1|].
  apply rtc_once, ef_none. done.
Qed.

Lemma addPod_effects pod c :
  0 <= G c -> G c + 2 <= MaxInt64 -> pod_effects 2 c (addPod pod c).
Proof.
  intros H0 Hmax. set (x := NodeName (Spec pod)).
  set (c1 := ensure_item x c). set (c2 := on_info x (AddPod pod) c1).
  assert (addPod pod c = moveNodeInfoToHead x c2) as -> by done.
  assert (G c1 = match info_of c x with Some _ => G c | None => G c + 1 end) as HG1.
  { unfold c1. rewrite G_ensure. destruct (info_of c x); [done|]. apply add64_exact. int_unfold. lia. }
  assert (exists n, info_of c1 x = Some n /\ ni_node n = object c x) as (n & Hn & Hobj).
  { unfold c1, object. rewrite info_of_ensure, decide_True by done. destruct (info_of c x); eauto. }
  destruct (AddPod_stamps pod n (world c1)) as [Hs1 Hs2].
  assert (G c2 = G c1 + 1) as HG2.
  { unfold c2. rewrite G_on_info, Hn, Hs2. apply add64_exact. fold (G c1). rewrite HG1.
    int_unfold. destruct (info_of c x); lia. }
  assert (forall y, info_of c2 y = if decide (x = y) then Some (AddPod pod n (world c1)).1 else info_of c y) as Hi.
  { intros y. unfold c2. rewrite info_of_on_info. case_decide as E; [subst; by rewrite Hn|].
    unfold c1. rewrite info_of_ensure, decide_False by done. by destruct (info_of c y). }
  unfold pod_effects, same_objects.
  split_and!; [|rewrite G_move; destruct (info_of c x); lia..| |].
  - apply rtc_once, (ef_touch _ _ x). unfold touched. split_and!.
    + intros l Ho. by apply ready_move, ready_on_info, ready_ensure.
    + intros y Hy. rewrite info_of_move, Hi, decide_False by done. done.
    + eexists. rewrite info_of_move, Hi, decide_True by done. split; [done|].
      rewrite G_move, Hs1. unfold c2. rewrite G_on_info, Hn. by rewrite Hs2.
    + rewrite G_move. destruct (info_of c x); lia.
  - intros y. unfold object. rewrite info_of_move, Hi. case_decide as E; [|done]. subst y. simpl.
    destruct (AddPod_Pods pod n (world c1)) as [_ ->]. exact Hobj.
  - unfold c2. unfold on_info. destruct (nodes c1 !! x) as [it|]; simpl;
      [destruct (AddPod pod (it_info it) (world c1)); simpl|];
      unfold c1, ensure_item; by destruct (nodes c !! x).
Qed.

Lemma removePod_effects pod c c' :
  0 <= G c -> G c + 1 <= MaxInt64 -> removePod pod c = Ret (c', None) -> pod_effects 1 c c'.
Proof.
  intros H0 Hmax. unfold removePod. set (x := NodeName (Spec pod)).
  destruct (nodes c !! x) as [it|] eqn:En.
  2:{ intros [= <-]. apply (pod_effects_weaken 0); [by apply pod_effects_refl|lia]. }
  destruct (RemovePod pod (it_info it) (world c)) as [[[n' w'] [e|]]|] eqn:Er; cbn [obind]; [done| |done].
  destruct (RemovePod_stamps _ _ _ _ _ Er) as (Hs1 & Hs2 & Hobj).
  assert (generation w' = G c + 1) as Hw by (rewrite Hs2; apply add64_exact; unfold G in *; int_unfold; lia).
  set (c1 := with_world w' (with_nodes (set_info x n' (nodes c)) (headNode c) c)).
  assert (forall l, order c l -> order c1 l) as Hord.
  { intros l [Hl Hd]. split; [by apply linked_set_info|]. intros y. simpl. by rewrite set_info_Some. }
  assert (forall y, info_of c1 y = if decide (x = y) then Some n' else info_of c y) as Hi.
  { intros y. unfold info_of, c1. simpl. unfold set_info. case_decide as E.
    - subst. by rewrite lookup_alter_eq, En.
    - by rewrite lookup_alter_ne. }
  assert (forall l, order c l -> x ∈ l) as Hx by (intros l [_ Hd]; rewrite Hd, En; eauto).
  assert (is_Some (nodes c1 !! x)) as Hsome by (unfold c1; simpl; rewrite set_info_Some, En; eauto).
  assert (object c x = ni_node n') as Hox by (unfold object, info_of; rewrite En; simpl; by rewrite Hobj).
  destruct (_ && _) eqn:Eb; intros [= <-]; unfold pod_effects, same_objects;
    (split_and!; [apply rtc_once| | | |done]); try (unfold G; simpl; unfold G in *; lia).
  - apply (ef_drop _ _ x). unfold dropped. split_and!.
    + intros l Ho. apply order_remove; auto.
    + intros y Hy. rewrite info_of_remove, decide_False by done. by rewrite Hi, decide_False.
    + by rewrite info_of_remove, decide_True by done.
    + rewrite G_remove. unfold G at 2. simpl. lia.
  - intros y. unfold object at 1. rewrite info_of_remove by done. case_decide as E.
    + subst y. rewrite Hox. apply andb_true_iff in Eb as [_ Eb]. by destruct (ni_node n').
    + by rewrite Hi, decide_False by done.
  - apply (ef_touch _ _ x). unfold touched. split_and!.
    + intros l Ho. apply ready_move. left. auto.
    + intros y Hy. by rewrite info_of_move, Hi, decide_False by done.
    + exists n'. rewrite info_of_move, Hi, decide_True by done. split; [done|].
      rewrite G_move. unfold G. simpl. congruence.
    + rewrite G_move. unfold G at 2. simpl. lia.
  - intros y. unfold object at 1. rewrite info_of_move, Hi. case_decide as E; [subst; by rewrite Hox|done].
Qed.

(** Room for the generations a step may use, and for the number of nodes. *)
Definition room (c : schedulerCache) : Prop :=
  G c + Z.of_nat (size (assumedPods c)) + 4 <= MaxInt64 /\ Z.of_nat (size (nodes c)) <= 2 ^ 61.

(** A pod the cache knows is found on its node. *)
Lemma removePod_state pod ps c :
  cache_inv c -> podStates c !! UID pod = Some ps -> NodeName (Spec (ps_pod ps)) = NodeName (Spec pod) ->
  exists c', removePod pod c = Ret (c', None).
Proof.
  intros Hc Hs Hn. destruct (pod_on_node c _ _ Hc Hs) as (_ & Hne & Hin). rewrite Hn in Hin.
  destruct (removePod_found pod c (ci_nodes c Hc) Hne Hin) as (c' & Hr & _). eauto.
Qed.

Lemma cleanup_effects now ks c c' :
  cache_inv c -> NoDup ks -> (forall k, k ∈ ks -> k ∈ assumedPods c) ->
  0 <= G c -> G c + Z.of_nat (length ks) <= MaxInt64 ->
  fold_left (fun oc key => obind oc (cleanup_one now key)) ks (Ret c) = Ret c' ->
  pod_effects (Z.of_nat (length ks)) c c'.
Proof.
  revert c. induction ks as [|k ks IH]; intros c Hc Hnd Hks H0 Hmax; simpl.
  { intros [= <-]. by apply pod_effects_refl. }
  apply NoDup_cons in Hnd as [Hk Hnd].
  destruct (cleanup_one_spec now k c Hc) as (c1 & H1 & Hc1 & Hl1); [apply Hks; left|].
  rewrite H1. intros Hf.
  assert (pod_effects 1 c c1) as He1.
  { revert H1. unfold cleanup_one. destruct (podStates c !! k) as [ps|] eqn:Es; [|done].
    destruct (ps_bindingFinished ps); simpl.
    - destruct (ps_deadline ps) as [dl|]; [|done]. destruct (dl <? now).
      + unfold expirePod. destruct (ci_keys c Hc _ _ Es) as [Hu _].
        destruct (removePod_state (ps_pod ps) ps c Hc) as (c2 & Hr); [by rewrite Hu|done|].
        rewrite Hr. cbn [obind fst]. intros [= <-]. apply pod_effects_with_pods.
        apply (removePod_effects (ps_pod ps)); [done|simpl in Hmax; lia|exact Hr].
      + intros [= <-]. by apply (pod_effects_weaken 0); [apply pod_effects_refl|].
    - intros [= <-]. by apply (pod_effects_weaken 0); [apply pod_effects_refl|]. }
  replace (Z.of_nat (S (length ks))) with (1 + Z.of_nat (length ks)) by lia.
  eapply pod_effects_trans; [exact He1|]. destruct He1 as (_ & HG & _). simpl in Hmax.
  apply IH; try done; try lia. intros j Hj.
  assert (j <> k) by congruence. apply (Hl1 j); [naive_solver|]. apply Hks. by right.
Qed.

(** Removing an old version of a pod and adding the new one. *)
Lemma replace_effects old new c c1 :
  0 <= G c -> G c + 3 <= MaxInt64 -> removePod old c = Ret (c1, None) ->
  pod_effects 3 c (addPod new c1).
Proof.
  intros H0 Hmax Hr. pose proof (removePod_effects _ _ _ H0 ltac:(lia) Hr) as H1.
  change 3 with (1 + 2). eapply pod_effects_trans; [exact H1|].
  destruct H1 as (_ & HG & _). apply addPod_effects; lia.
Qed.

(** The steps that pods cause, case by case: nothing happens, or pods are
    added to and removed from nodes. *)
Lemma pod_step_effects c c' :
  cache_inv c -> 0 <= G c -> room c -> pod_step c c' -> exists k, pod_effects k c c'.
Proof.
  intros Hc H0 [Hmax _] Hs.
  assert (pod_effects 0 c c) as Hrefl by (by apply pod_effects_refl).
  assert (0 <= Z.of_nat (size (assumedPods c))) as Hsz by lia.
  assert (G c + 3 <= MaxInt64 /\ G c + 2 <= MaxInt64 /\ G c + 1 <= MaxInt64) as (M3 & M2 & M1) by lia.
  destruct Hs as [pod c|pod now c|pod c c' e H|pod c c' e H|old new c c' e [Hu Hn] H|pod c c' e H|now c c' H].
  - unfold AssumePod. destruct (GetPodKey pod) as [k [e|]]; [by eexists|].
    destruct (podStates c !! k); [by eexists|]. eexists. by apply pod_effects_with_pods, addPod_effects.
  - unfold finishBinding. destruct (GetPodKey pod) as [k [e|]]; [by eexists|].
    destruct (podStates c !! k); [|by eexists]. case_bool_decide; [|by eexists]. eexists.
    by apply pod_effects_with_pods.
  - revert H. unfold ForgetPod. destruct (GetPodKey pod) as [k [?|]] eqn:Ek; [intros [= <- _]; by eexists|].
    apply GetPodKey_Some in Ek as [-> _].
    destruct (podStates c !! UID pod) as [ps|] eqn:Es; [|intros [= <- _]; by eexists].
    destruct (String.eqb_spec (NodeName (Spec (ps_pod ps))) (NodeName (Spec pod))) as [En|En]; simpl;
      [|intros [= <- _]; by eexists].
    case_bool_decide; [|intros [= <- _]; by eexists].
    destruct (removePod_state pod ps c Hc Es En) as (c1 & Hr). rewrite Hr. cbn [obind]. intros [= <- _].
    eexists. apply pod_effects_with_pods. by eapply removePod_effects.
  - revert H. unfold cache_AddPod. destruct (GetPodKey pod) as [k [?|]] eqn:Ek; [intros [= <- _]; by eexists|].
    apply GetPodKey_Some in Ek as [-> _]. destruct (podStates c !! UID pod) as [ps|] eqn:Es.
    + case_bool_decide; [|intros [= <- _]; by eexists].
      destruct (negb _); cbn [obind].
      * destruct (ci_keys c Hc _ _ Es) as [Hu _].
        destruct (removePod_state (ps_pod ps) ps c Hc) as (c1 & Hr); [by rewrite Hu|done|].
        rewrite Hr. cbn [obind fst]. intros [= <- _]. eexists. apply pod_effects_with_pods.
        by eapply replace_effects.
      * intros [= <- _]. eexists. by apply pod_effects_with_pods.
    + intros [= <- _]. eexists. by apply pod_effects_with_pods, addPod_effects.
  - revert H. unfold UpdatePod. destruct (GetPodKey old) as [k [?|]] eqn:Ek; [intros [= <- _]; by eexists|].
    apply GetPodKey_Some in Ek as [-> _].
    destruct (podStates c !! UID old) as [ps|] eqn:Es; [|intros [= <- _]; by eexists].
    case_bool_decide; [intros [= <- _]; by eexists|].
    destruct (String.eqb_spec (NodeName (Spec (ps_pod ps))) (NodeName (Spec new))) as [En|En]; simpl; [|done].
    destruct (removePod_state old ps c Hc Es ltac:(congruence)) as (c1 & Hr).
    unfold updatePod. rewrite Hr. cbn [obind]. intros [= <- _]. eexists. apply pod_effects_with_pods.
    by eapply replace_effects.
  - revert H. unfold cache_RemovePod. destruct (GetPodKey pod) as [k [?|]] eqn:Ek; [intros [= <- _]; by eexists|].
    apply GetPodKey_Some in Ek as [-> _].
    destruct (podStates c !! UID pod) as [ps|] eqn:Es; [|intros [= <- _]; by eexists].
    case_bool_decide; [intros [= <- _]; by eexists|]. destruct (negb _); [done|].
    destruct (ci_keys c Hc _ _ Es) as [Hu _].
    destruct (removePod_state (ps_pod ps) ps c Hc) as (c1 & Hr); [by rewrite Hu|done|].
    rewrite Hr. cbn [obind]. intros [= <- _]. eexists. apply pod_effects_with_pods.
    by eapply removePod_effects.
  - eexists. eapply cleanup_effects; [done| | |done| |exact H].
    + rewrite range_perm. apply NoDup_elements.
    + intros k. by rewrite range_perm, elem_of_elements.
    + rewrite (Permutation_length (range_perm 0 _ (elements (assumedPods c)))).
      unfold size, set_size in Hmax. simpl in Hmax. lia.
Qed.

(** ** Nodes *)

(** [c'] has the object [o] for node [x], which changed or left. *)
Definition node_effects (x : string) (o : option Node) (c c' : schedulerCache) : Prop :=
  rtc effect c c' /\ 0 <= G c' /\ forall y, object c' y = if decide (x = y) then o else object c y.

Lemma finish_node_gen node c ni :
  info_of c (node_Name node) = Some ni ->
  (forall l, order c l -> order (finish_node node c) l) /\
  (forall y, y <> node_Name node -> info_of (finish_node node c) y = info_of c y) /\
  G (finish_node node c) = G c +₆₄ 1 /\
  (exists n', info_of (finish_node node c) (node_Name node) = Some n' /\
     ni_node n' = Some node /\ Generation n' = G c +₆₄ 1).
Proof.
  intros Hni. unfold finish_node, addNodeImageStates.
  destruct (fold_left (add_image node) (node_image_names node) (imageStates c, ∅)) as [st sm].
  set (x := node_Name node) in *.
  set (c1 := on_info x (fun ni w => (set_ImageStates sm ni, w)) (with_images st c)).
  assert (forall y, info_of c1 y = if decide (x = y) then set_ImageStates sm <$> info_of c y else info_of c y) as Hi.
  { intros y. unfold c1. by rewrite info_of_on_info. }
  assert (G c1 = G c) as HG1.
  { unfold c1. rewrite G_on_info. change (info_of (with_images st c) x) with (info_of c x). by rewrite Hni. }
  assert (info_of c1 x = Some (set_ImageStates sm ni)) as H1 by (by rewrite Hi, decide_True, Hni).
  split_and!.
  - intros l Ho. by apply order_on_info, order_on_info.
  - intros y Hy. by rewrite info_of_on_info, decide_False, Hi, decide_False by done.
  - rewrite G_on_info, H1. simpl. by rewrite <- HG1.
  - eexists. rewrite info_of_on_info, decide_True, H1 by done. split; [done|].
    split; [done|]. simpl. by rewrite <- HG1.
Qed.

Lemma order_same c c' l :
  nodes c' = nodes c -> headNode c' = headNode c -> order c l -> order c' l.
Proof. intros Hn Hh. unfold order. by rewrite Hn, Hh. Qed.

(** The steps that [AddNode] and [UpdateNode] share, from the cache [c1] that
    has an item for the node. *)
Lemma place_node_effects node c c1 t :
  (forall l, order c l -> ready (node_Name node) c1 l) ->
  (forall y, y <> node_Name node -> info_of c1 y = info_of c y) ->
  is_Some (info_of c1 (node_Name node)) ->
  0 <= G c -> G c <= G c1 <= G c + 1 -> G c + 2 <= MaxInt64 ->
  node_effects (node_Name node) (Some node) c
    (finish_node node (with_tree t (moveNodeInfoToHead (node_Name node) c1))).
Proof.
  intros Hr Hi [ni Hni] H0 HG Hmax. set (x := node_Name node) in *.
  set (c2 := with_tree t (moveNodeInfoToHead x c1)).
  assert (forall y, info_of c2 y = info_of c1 y) as Hi2 by (intros; apply info_of_move).
  destruct (finish_node_gen node c2 ni) as (F1 & F2 & F3 & n' & F4 & F5 & F6); [by rewrite Hi2|].
  fold x in F2, F4. assert (G c2 = G c1) as HG2 by done.
  assert (G c2 +₆₄ 1 = G c1 + 1) as Hadd by (rewrite HG2; apply add64_exact; int_unfold; lia).
  unfold node_effects. split_and!.
  - apply rtc_once, (ef_touch _ _ x). unfold touched. split_and!.
    + intros l Ho. apply F1, (order_same (moveNodeInfoToHead x c1)); [done..|]. by apply ready_move, Hr.
    + intros y Hy. by rewrite F2, Hi2, Hi.
    + exists n'. split; [done|]. congruence.
    + rewrite F3, Hadd. lia.
  - rewrite F3, Hadd. lia.
  - intros y. unfold object. case_decide as E.
    + subst y. by rewrite F4.
    + by rewrite F2, Hi2, Hi.
Qed.

Lemma forget_old_images_G x c :
  G (forget_old_images x c) = G c /\ forall y, info_of (forget_old_images x c) y = info_of c y.
Proof.
  unfold forget_old_images. destruct (info_of c x) as [ni|]; [|done]. unfold removeNodeImageStates.
  by destruct (ni_node ni).
Qed.

Lemma AddNode_effects node c :
  0 <= G c -> G c + 2 <= MaxInt64 ->
  node_effects (node_Name node) (Some node) c (AddNode node c) /\
  c_nodeTree (AddNode node c) = addNode node (c_nodeTree c).
Proof.
  intros H0 Hmax. set (x := node_Name node).
  set (c0 := forget_old_images x c). set (c1 := ensure_item x c0).
  destruct (forget_old_images_nodes x c) as (N1 & N2 & _ & N4).
  destruct (forget_old_images_G x c) as [HG0 Hi0]. fold c0 in N1, N2, N4, HG0, Hi0.
  assert (AddNode node c = finish_node node (with_tree (addNode node (c_nodeTree c)) (moveNodeInfoToHead x c1))) as Heq.
  { unfold AddNode, finish_node. fold x c0 c1. simpl. do 4 f_equal.
    unfold c1, ensure_item. destruct (nodes c0 !! x); [done|]. destruct (NewNodeInfo (world c0)). done. }
  rewrite Heq. split.
  - apply place_node_effects; fold x; [| | |done| |done].
    + intros l Ho. by apply ready_ensure, (order_same c).
    + intros y Hy. unfold c1. rewrite info_of_ensure, Hi0, decide_False by done. by destruct (info_of c y).
    + unfold c1. rewrite info_of_ensure, decide_True by done. destruct (info_of c0 x); eauto.
    + unfold c1. rewrite G_ensure, HG0. destruct (info_of c0 x); [lia|].
      rewrite add64_exact by (int_unfold; lia). lia.
  - rewrite finish_node_frame. done.
Qed.

Lemma UpdateNode_effects old new c c' :
  is_Some (info_of c (node_Name new)) -> 0 <= G c -> G c + 2 <= MaxInt64 ->
  UpdateNode old new c = Ret c' ->
  node_effects (node_Name new) (Some new) c c' /\
  exists t, updateNode old new (c_nodeTree c) = Ret t /\ c_nodeTree c' = t.
Proof.
  intros Hs H0 Hmax. unfold UpdateNode. set (x := node_Name new) in *.
  destruct (nodes c !! x) as [it|] eqn:En; [|unfold info_of in Hs; rewrite En in Hs; by destruct Hs].
  destruct (forget_old_images_nodes x c) as (N1 & N2 & _ & N4).
  destruct (forget_old_images_G x c) as [HG0 Hi0].
  set (c0 := forget_old_images x c) in *.
  change (c_nodeTree (moveNodeInfoToHead x c0)) with (c_nodeTree c0). rewrite N4.
  destruct (updateNode old new (c_nodeTree c)) as [t|]; [|done]. cbn [obind]. intros [= <-].
  fold (finish_node new (with_tree t (moveNodeInfoToHead x c0))). split.
  - apply place_node_effects; fold x; [| | |done|rewrite HG0; lia|done].
    + intros l Ho. left. split; [by apply (order_same c)|]. by apply (order_info c).
    + intros y Hy. by rewrite Hi0.
    + by rewrite Hi0.
  - exists t. split; [done|].
    change (c_nodeTree (finish_node new (with_tree t (moveNodeInfoToHead x c0))) = t).
    by rewrite finish_node_frame.
Qed.

Lemma RemoveNode_effects node c :
  is_Some (info_of c (node_Name node)) -> 0 <= G c -> G c + 1 <= MaxInt64 ->
  node_effects (node_Name node) None c (cache_RemoveNode node c).1 /\
  c_nodeTree (cache_RemoveNode node c).1 = (removeNode node (c_nodeTree c)).1.
Proof.
  intros Hs H0 Hmax. unfold cache_RemoveNode. set (x := node_Name node) in *.
  destruct (nodes c !! x) as [it|] eqn:En; [|unfold info_of in Hs; rewrite En in Hs; by destruct Hs].
  assert (info_of c x = Some (it_info it)) as Hx by (unfold info_of; by rewrite En).
  set (c1 := on_info x RemoveNode c).
  assert (G c1 = G c + 1) as HG1.
  { unfold c1. rewrite G_on_info, Hx. simpl. apply add64_exact. fold (G c). int_unfold. lia. }
  assert (forall y, info_of c1 y = if decide (x = y) then Some (RemoveNode (it_info it) (world c)).1 else info_of c y) as Hi1.
  { intros y. unfold c1. rewrite info_of_on_info. case_decide; [subst; by rewrite Hx|done]. }
  assert (is_Some (nodes c1 !! x)) as Hsome.
  { pose proof (Hi1 x) as H. rewrite decide_True in H by done. unfold info_of in H.
    destruct (nodes c1 !! x); [eauto|done]. }
  set (c2 := if (length (Pods (it_info it)) =? 0)%nat then removeNodeInfoFromList x c1
             else moveNodeInfoToHead x c1).
  assert (node_effects x None c c2 /\ c_nodeTree c2 = c_nodeTree c) as [H2 Ht2].
  { unfold node_effects. assert (c_nodeTree c1 = c_nodeTree c) as Ht1.
    { unfold c1, on_info. by rewrite En. }
    assert (forall l, order c l -> x ∈ l) as Hxl by (intros l Ho; apply (order_info c l x Ho); eauto).
    unfold c2. destruct (length (Pods (it_info it)) =? 0)%nat; (split; [|done]).
    - split_and!; [apply rtc_once, (ef_drop _ _ x); unfold dropped; split_and!|rewrite G_remove; lia|].
      + intros l Ho. apply order_remove; [by apply order_on_info|auto].
      + intros y Hy. by rewrite info_of_remove, decide_False, Hi1, decide_False by done.
      + by rewrite info_of_remove, decide_True by done.
      + rewrite G_remove. lia.
      + intros y. unfold object. rewrite info_of_remove by done. case_decide; [done|].
        by rewrite Hi1, decide_False by done.
    - split_and!; [apply rtc_once, (ef_touch _ _ x); unfold touched; split_and!|rewrite G_move; lia|].
      + intros l Ho. apply ready_move. left. split; [by apply order_on_info|auto].
      + intros y Hy. by rewrite info_of_move, Hi1, decide_False by done.
      + eexists. rewrite info_of_move, Hi1, decide_True by done. split; [done|].
        rewrite G_move, HG1. simpl. apply add64_exact. fold (G c). int_unfold. lia.
      + rewrite G_move. lia.
      + intros y. unfold object. rewrite info_of_move, Hi1. by case_decide. }
  rewrite <- Ht2. destruct (removeNode node (c_nodeTree c2)) as [t [e|]]; cbn [fst];
    (split; [|done]); destruct H2 as (E1 & E2 & E3); (split; [|by split]);
    (etransitivity; [exact E1|apply rtc_once, ef_none; done]).
Qed.
End effects.

(** ** The node tree *)

Definition in_zone (nt : nodeTree) (z x : string) : Prop := x ∈ default [] (tree nt !! z).

Lemma elem_all_nodes nt x : nt_wf nt -> x ∈ all_nodes nt <-> exists z, in_zone nt z x.
Proof.
  intros Hwf. unfold all_nodes, in_zone. rewrite list_elem_of_In, in_concat. split.
  - intros (l & Hl & Hx). apply in_map_iff in Hl as (z & <- & _). exists z. by apply list_elem_of_In.
  - intros (z & Hz). exists (default [] (tree nt !! z)). split; [|by apply list_elem_of_In].
    apply in_map_iff. exists z. split; [done|]. apply list_elem_of_In, (wf_dom nt Hwf).
    destruct (tree nt !! z); [eauto|set_solver].
Qed.

Lemma addNode_in_zone n nt :
  nt_wf nt -> node_Name n ∉ all_nodes nt ->
  all_nodes (addNode n nt) ≡ₚ node_Name n :: all_nodes nt /\
  in_zone (addNode n nt) (GetZoneKey n) (node_Name n) /\
  forall z x, in_zone nt z x -> in_zone (addNode n nt) z x.
Proof.
  intros Hwf Hni. assert (forall z, ~ in_zone nt z (node_Name n)) as Hz.
  { intros z H. apply Hni, elem_all_nodes; eauto. }
  assert (in_zone (addNode n nt) (GetZoneKey n) (node_Name n)) as Hin.
  { unfold addNode, in_zone in *. specialize (Hz (GetZoneKey n)).
    destruct (tree nt !! GetZoneKey n) as [na|] eqn:E.
    - rewrite existsb_eqb. rewrite bool_decide_eq_false_2 by done. simpl.
      rewrite lookup_insert_eq. simpl. set_solver.
    - simpl. rewrite lookup_insert_eq. simpl. set_solver. }
  split; [|split; [done|]].
  - destruct (addNode_all_nodes n nt Hwf) as [H|[H _]]; [|done]. rewrite H in Hin. by apply Hz in Hin.
  - intros z x. unfold addNode, in_zone. destruct (tree nt !! GetZoneKey n) as [na|] eqn:E.
    + destruct (existsb _ _); [done|]. simpl. destruct (decide (GetZoneKey n = z)) as [<- |Hne].
      * rewrite E, lookup_insert_eq. simpl. set_solver.
      * by rewrite lookup_insert_ne.
    + simpl. destruct (decide (GetZoneKey n = z)) as [<- |Hne]; [rewrite E; simpl; set_solver|].
      by rewrite lookup_insert_ne.
Qed.

Lemma removeNode_in_zone n nt :
  nt_wf nt -> in_zone nt (GetZoneKey n) (node_Name n) ->
  all_nodes nt ≡ₚ node_Name n :: all_nodes (removeNode n nt).1 /\
  forall z x, x <> node_Name n -> in_zone nt z x -> in_zone (removeNode n nt).1 z x.
Proof.
  intros Hwf Hin. pose proof (removeNode_all_nodes n nt Hwf) as Hall. unfold in_zone in *.
  destruct (removeNode n nt) as [nt' [e|]] eqn:Er; simpl.
  - exfalso. revert Er. unfold removeNode. destruct (tree nt !! GetZoneKey n) as [na|] eqn:E;
      [|simpl in Hin; set_solver].
    simpl in Hin. rewrite existsb_eqb, bool_decide_eq_true_2 by done. by repeat case_match.
  - split; [apply Hall|]. intros z x Hx Hzx. revert Er. unfold removeNode.
    destruct (tree nt !! GetZoneKey n) as [na|] eqn:E; [|simpl in Hin; set_solver].
    simpl in Hin. rewrite existsb_eqb, bool_decide_eq_true_2 by done.
    assert (z = GetZoneKey n -> x ∈ remove_first (node_Name n) na) as Hkeep.
    { intros ->. rewrite E in Hzx. simpl in Hzx. rewrite (remove_first_perm _ _ Hin) in Hzx. set_solver. }
    destruct (decide (z = GetZoneKey n)) as [-> |Hne].
    + specialize (Hkeep eq_refl). destruct (remove_first _ na); [set_solver|].
      intros [= <-]. simpl. rewrite lookup_insert_eq. done.
    + destruct (remove_first _ na); intros [= <-]; simpl;
        rewrite ?lookup_delete_ne, ?lookup_insert_ne by done; done.
Qed.

(** The tree holds exactly the nodes with an object, each in its zone. *)
Record tree_inv (c : schedulerCache) : Prop := {
  ti_wf : nt_wf (c_nodeTree c);
  ti_nodup : NoDup (all_nodes (c_nodeTree c));
  ti_live : forall x, x ∈ all_nodes (c_nodeTree c) <-> is_Some (object c x);
  ti_zone : forall x np, object c x = Some np ->
    node_Name np = x /\ in_zone (c_nodeTree c) (GetZoneKey np) x
}.

Lemma tree_inv_same c c' : same_objects c c' -> tree_inv c -> tree_inv c'.
Proof.
  intros [Ho Ht] [H1 H2 H3 H4]. constructor; rewrite ?Ht; try done.
  - intros x. rewrite Ho. apply H3.
  - intros x np. rewrite Ho. apply H4.
Qed.

Lemma tree_inv_add node c c' :
  tree_inv c -> object c (node_Name node) = None ->
  (forall y, object c' y = if decide (node_Name node = y) then Some node else object c y) ->
  c_nodeTree c' = addNode node (c_nodeTree c) -> tree_inv c'.
Proof.
  intros [H1 H2 H3 H4] Hnone Ho Ht.
  assert (node_Name node ∉ all_nodes (c_nodeTree c)) as Hni by (rewrite H3, Hnone; by intros []).
  destruct (addNode_in_zone node (c_nodeTree c) H1 Hni) as (Hp & Hz & Hk).
  constructor; rewrite ?Ht.
  - by apply addNode_wf.
  - rewrite Hp. by constructor.
  - intros x. rewrite Hp, elem_of_cons, H3, Ho. case_decide; naive_solver.
  - intros x np. rewrite Ho. case_decide as E; [intros [= <-]; by rewrite <- E|].
    intros Hx. destruct (H4 x np Hx). auto.
Qed.

Lemma removeNode_absent n nt : nt_wf nt -> node_Name n ∉ all_nodes nt -> (removeNode n nt).1 = nt.
Proof.
  intros Hwf Hni. pose proof (removeNode_all_nodes n nt Hwf) as Hall.
  destruct (removeNode n nt) as [nt' [e|]]; cbn [fst]; [done|]. destruct Hni. rewrite (proj1 Hall). by left.
Qed.

Lemma tree_inv_remove node np c c' :
  tree_inv c -> object c (node_Name node) = Some np -> GetZoneKey np = GetZoneKey node ->
  (forall y, object c' y = if decide (node_Name node = y) then None else object c y) ->
  c_nodeTree c' = (removeNode node (c_nodeTree c)).1 -> tree_inv c'.
Proof.
  intros [H1 H2 H3 H4] Hsome Hz Ho Ht.
  destruct (H4 _ _ Hsome) as [_ Hzone]. rewrite Hz in Hzone.
  destruct (removeNode_in_zone node (c_nodeTree c) H1 Hzone) as (Hp & Hk).
  assert (NoDup (node_Name node :: all_nodes (removeNode node (c_nodeTree c)).1)) as Hnd by (by rewrite <- Hp).
  apply NoDup_cons in Hnd as [Hni Hnd]. constructor; rewrite ?Ht.
  - by apply removeNode_wf.
  - done.
  - intros x. rewrite Ho. case_decide as E; [subst; split; [done|by intros []]|].
    rewrite <- H3, Hp, elem_of_cons. naive_solver.
  - intros x np'. rewrite Ho. case_decide as E; [done|].
    intros Hx. destruct (H4 x np' Hx). split; [done|]. apply Hk; auto.
Qed.

Lemma tree_inv_update old new c c' t :
  tree_inv c -> node_Name new = node_Name old -> object c (node_Name old) = Some old ->
  (forall y, object c' y = if decide (node_Name new = y) then Some new else object c y) ->
  updateNode (Some old) new (c_nodeTree c) = Ret t -> c_nodeTree c' = t -> tree_inv c'.
Proof.
  intros Hc Hname Hsome Ho Hu Ht. unfold updateNode in Hu.
  destruct (String.eqb_spec (GetZoneKey old) (GetZoneKey new)) as [Ez|Ez]; injection Hu as Hu.
  - destruct Hc as [H1 H2 H3 H4]. destruct (H4 _ _ Hsome) as [_ Hzone].
    constructor; rewrite ?Ht, <- ?Hu; try done.
    + intros x. rewrite H3, Ho. case_decide as E; [|done]. subst x. rewrite Hname, Hsome. naive_solver.
    + intros x np. rewrite Ho. case_decide as E; [|apply H4]. intros [= <-]. subst x.
      split; [done|]. by rewrite <- Ez, Hname.
  - (* through a cache without the node *)
    set (c1 := with_tree (removeNode old (c_nodeTree c)).1
                 (with_nodes (delete (node_Name old) (nodes c)) (headNode c) c)).
    assert (forall y, object c1 y = if decide (node_Name old = y) then None else object c y) as Ho1.
    { intros y. unfold object, info_of, c1. simpl. case_decide as E; [subst; by rewrite lookup_delete_eq|].
      by rewrite lookup_delete_ne. }
    apply (tree_inv_add new c1).
    + by apply (tree_inv_remove old old c).
    + rewrite Ho1, decide_True by done. done.
    + intros y. rewrite Ho, Ho1, Hname. by case_decide.
    + by rewrite Ht, <- Hu.
Qed.

(** ** The walk along the list *)

(** A node with its object: what a snapshot shows of it. *)
Definition live_info (c : schedulerCache) (x : string) : option NodeInfo :=
  match info_of c x with
  | Some ni => match ni_node ni with Some _ => Some ni | None => None end
  | None => None
  end.

Definition holds (f : NodeInfo -> bool) (o : option NodeInfo) : bool :=
  match o with Some ni => f ni | None => false end.

(** The nodes of [l] the walk copies. *)
Definition copied (c : schedulerCache) (g : Z) (l : list string) (x : string) : Prop :=
  x ∈ l /\ g < gen c x /\ is_Some (live_info c x).

Record walked (c : schedulerCache) (g : Z) (l : list string) (m : gmap string NodeInfo)
    (fl : snapshot_flags) (r : gmap string NodeInfo * snapshot_flags) : Prop := {
  wk_new : forall x, copied c g l x -> r.1 !! x = live_info c x;
  wk_old : forall x, ~ copied c g l x -> r.1 !! x = m !! x;
  wk_all : updateAllLists r.2 = false -> updateAllLists fl = false /\
    forall x, copied c g l x -> is_Some (m !! x);
  wk_aff : updateNodesHavePodsWithAffinity r.2 = false -> updateNodesHavePodsWithAffinity fl = false /\
    forall x, copied c g l x -> holds has_affinity_pods (live_info c x) = holds has_affinity_pods (m !! x);
  wk_anti : updateNodesHavePodsWithRequiredAntiAffinity r.2 = false ->
    updateNodesHavePodsWithRequiredAntiAffinity fl = false /\
    forall x, copied c g l x ->
      holds has_anti_affinity_pods (live_info c x) = holds has_anti_affinity_pods (m !! x)
}.

Lemma live_info_object c x : is_Some (live_info c x) <-> is_Some (object c x).
Proof.
  unfold live_info, object. destruct (info_of c x) as [ni|]; simpl; [|done].
  destruct (ni_node ni); naive_solver.
Qed.

Lemma walked_nothing c g l m fl : (forall x, ~ copied c g l x) -> walked c g l m fl (m, fl).
Proof. intros H. constructor; try done; (intros x Hx; by destruct (H x)) || (intros Hf; split; [done|]; intros x Hx; by destruct (H x)). Qed.

(** Copying one node and going on with the rest. *)
Lemma walked_step c g x l m fl ni np r :
  NoDup (x :: l) -> g < gen c x -> info_of c x = Some ni -> ni_node ni = Some np -> node_Name np = x ->
  walked c g l (snapshot_node ni np m fl).1 (snapshot_node ni np m fl).2 r ->
  walked c g (x :: l) m fl r.
Proof.
  intros Hnd Hg Hi Hn Hname Hw. apply NoDup_cons in Hnd as [Hx Hnd].
  assert (live_info c x = Some ni) as Hlx by (unfold live_info; by rewrite Hi, Hn).
  assert (forall y, copied c g (x :: l) y <-> y = x \/ copied c g l y) as Hc.
  { intros y. unfold copied. rewrite elem_of_cons. split; [naive_solver|].
    intros [-> |(? & ? & ?)]; [rewrite Hlx; eauto|eauto]. }
  assert (~ copied c g l x) as Hncx by (intros (? & _); done).
  assert (forall y, y <> x -> (snapshot_node ni np m fl).1 !! y = m !! y) as Hm.
  { intros y Hy. simpl. rewrite Hname. by rewrite lookup_insert_ne. }
  assert ((snapshot_node ni np m fl).1 !! x = Some ni) as Hmx.
  { simpl. rewrite Hname. by rewrite lookup_insert_eq. }
  assert (forall y, copied c g l y -> y <> x) as Hne by (intros y Hy ->; done).
  destruct Hw as [W1 W2 W3 W4 W5]. constructor.
  - intros y [-> |Hy]%Hc; [by rewrite W2, Hlx|by apply W1].
  - intros y Hy. rewrite Hc in Hy. rewrite W2 by tauto. apply Hm. tauto.
  - intros Hf. destruct (W3 Hf) as [H1 H2]. simpl in H1. apply orb_false_iff in H1 as [H1 H1'].
    split; [done|]. intros y [-> |Hy]%Hc.
    + rewrite Hname in H1'. destruct (m !! x); [eauto|done].
    + specialize (H2 y Hy). by rewrite Hm in H2 by auto.
  - intros Hf. destruct (W4 Hf) as [H1 H2]. simpl in H1. apply orb_false_iff in H1 as [H1 H1'].
    split; [done|]. intros y [-> |Hy]%Hc.
    + rewrite Hname in H1'. rewrite Hlx. simpl. apply xorb_eq in H1'. symmetry. exact H1'.
    + rewrite (H2 y Hy). by rewrite Hm by auto.
  - intros Hf. destruct (W5 Hf) as [H1 H2]. simpl in H1. apply orb_false_iff in H1 as [H1 H1'].
    split; [done|]. intros y [-> |Hy]%Hc.
    + rewrite Hname in H1'. rewrite Hlx. simpl. apply xorb_eq in H1'. symmetry. exact H1'.
    + rewrite (H2 y Hy). by rewrite Hm by auto.
Qed.

Lemma snapshot_walk_spec c g l1 l2 fuel m fl :
  order c (l1 ++ l2) -> StronglySorted (fun x y => gen c y <= gen c x) l2 ->
  (forall x np, object c x = Some np -> node_Name np = x) ->
  (length l2 < fuel)%nat -> walked c g l2 m fl (snapshot_walk fuel c g (head l2) m fl).
Proof.
  revert l1 fuel m fl. induction l2 as [|x l2 IH]; intros l1 fuel m fl Ho Hs Hname Hf.
  { destruct fuel; [lia|]. simpl. apply walked_nothing. intros x (Hx & _). set_solver. }
  destruct fuel as [|fuel]; [lia|]. simpl in Hf.
  change (head (x :: l2)) with (Some x). cbn [snapshot_walk].
  destruct Ho as [Hl Hd]. destruct (lk_links _ _ _ Hl l1 x l2 eq_refl) as (it & Hx & _ & Hnext).
  rewrite Hx. assert (info_of c x = Some (it_info it)) as Hi by (unfold info_of; by rewrite Hx).
  assert (gen c x = Generation (it_info it)) as Hgx by (unfold gen; by rewrite Hi).
  apply StronglySorted_inv in Hs as [Hs Hall]. rewrite Forall_forall in Hall.
  destruct (Z.leb_spec (Generation (it_info it)) g) as [Hle|Hgt].
  { apply walked_nothing. intros y (Hy & Hgy & _). apply elem_of_cons in Hy as [-> |Hy]; [lia|].
    specialize (Hall y Hy). simpl in Hall. lia. }
  assert (order c ((l1 ++ [x]) ++ l2)) as Ho by (rewrite <- app_assoc; done).
  assert (NoDup (x :: l2)) as Hnd by (pose proof (lk_nodup _ _ _ Hl) as H; by apply NoDup_app in H as (_ & _ & H)).
  destruct (ni_node (it_info it)) as [np|] eqn:En.
  - destruct (snapshot_node (it_info it) np m fl) as [m' fl'] eqn:Es. rewrite Hnext.
    apply (walked_step c g x l2 m fl (it_info it) np); [done|lia|done|done| |].
    + apply Hname. unfold object. rewrite Hi. done.
    + rewrite Es. apply (IH (l1 ++ [x])); [done..|lia].
  - rewrite Hnext. pose proof (IH (l1 ++ [x]) fuel m fl Ho Hs Hname ltac:(lia)) as Hw.
    assert (forall y, copied c g (x :: l2) y <-> copied c g l2 y) as Hc.
    { intros y. unfold copied. rewrite elem_of_cons. split; [|naive_solver].
      intros ([-> |?] & ? & Hlive); [|done]. unfold live_info in Hlive. rewrite Hi, En in Hlive.
      by destruct Hlive. }
    destruct Hw as [W1 W2 W3 W4 W5]. constructor; setoid_rewrite Hc; done.
Qed.

(** ** Deleted nodes *)

Lemma is_deleted_object c x : is_deleted c x = bool_decide (object c x = None).
Proof.
  unfold is_deleted, object. destruct (info_of c x) as [ni|]; simpl; [|done].
  by destruct (ni_node ni).
Qed.

Definition dead (c : schedulerCache) (l : list string) : list string :=
  filter (fun x => object c x = None) l.

Section snapshots.
Context {arch : GoArch} {gates : FeatureGates} {mr : MapRange}.

Lemma elem_dead c l x : x ∈ dead c l <-> x ∈ l /\ object c x = None.
Proof. unfold dead. rewrite list_elem_of_filter. tauto. Qed.

Lemma remove_fold c l m x :
  Z.of_nat (length l) <= MaxInt64 ->
  (fold_left (delete_step c) l (m, Z.of_nat (length (dead c l)))).1 !! x
  = if decide (x ∈ dead c l) then None else m !! x.
Proof.
  revert m. induction l as [|y l IH]; intros m Hmax; [done|].
  cbn [length] in Hmax. cbn [fold_left]. assert (length (dead c l) <= length l)%nat as Hle by apply length_filter.
  destruct (decide (object c y = None)) as [Hy|Hy].
  - assert (dead c (y :: l) = y :: dead c l) as -> by (by apply filter_cons_True).
    assert (delete_step c (m, Z.of_nat (length (y :: dead c l))) y
            = (delete y m, Z.of_nat (length (dead c l)))) as ->.
    { unfold delete_step. cbn [length]. rewrite (proj2 (Z.leb_gt _ _)) by lia.
      rewrite is_deleted_object, bool_decide_eq_true_2 by done. f_equal.
      rewrite sub64_exact by (int_unfold; lia). lia. }
    rewrite IH by lia. destruct (decide (x = y)) as [-> |Hne].
    + rewrite lookup_delete_eq. rewrite (decide_True _ _ (list_elem_of_here y (dead c l))). by case_decide.
    + rewrite lookup_delete_ne by done. apply decide_ext. rewrite elem_of_cons. tauto.
  - assert (dead c (y :: l) = dead c l) as -> by (by apply filter_cons_False).
    assert (forall k, delete_step c (m, k) y = (m, k)) as ->; [|by apply IH; lia].
    intros k. unfold delete_step. rewrite is_deleted_object, bool_decide_eq_false_2 by done. by destruct (k <=? 0).
Qed.

(** Of the names of a map that covers the live nodes, those that are dead are
    as many as the map is larger than the tree. *)
Lemma dead_count c (m : gmap string NodeInfo) l :
  tree_inv c -> (forall x, is_Some (object c x) -> is_Some (m !! x)) ->
  l ≡ₚ map fst (map_to_list m) ->
  (length (dead c l) + length (all_nodes (c_nodeTree c)) = size m)%nat.
Proof.
  intros Ht Hm Hl.
  assert (forall x, x ∈ l <-> is_Some (m !! x)) as Hdom.
  { intros x. rewrite Hl. rewrite list_elem_of_In, in_map_iff. split.
    - intros ([k v] & <- & H%list_elem_of_In%elem_of_map_to_list). eauto.
    - intros [v Hv]. exists (x, v). split; [done|]. by apply list_elem_of_In, elem_of_map_to_list. }
  assert (NoDup l) as Hnd by (rewrite Hl; apply NoDup_fst_map_to_list).
  assert (length l = size m) as Hlen by (rewrite Hl, length_map; apply length_map_to_list).
  set (alive := filter (fun x => object c x <> None) l).
  assert (alive ≡ₚ all_nodes (c_nodeTree c)) as Ha.
  { apply NoDup_Permutation; [by apply NoDup_filter|apply Ht|]. intros x. unfold alive.
    rewrite list_elem_of_filter, (ti_live c Ht), Hdom. split.
    - intros [H _]. by apply not_eq_None_Some.
    - intros H. split; [by apply not_eq_None_Some|auto]. }
  rewrite <- Ha, <- Hlen. unfold alive, dead. clear. induction l as [|x l IH]; [done|].
  destruct (decide (object c x = None)) as [H|H].
  - rewrite filter_cons_True, filter_cons_False by (done || tauto). simpl. lia.
  - rewrite filter_cons_False, filter_cons_True by done. simpl. lia.
Qed.

Lemma numNodes_exact c :
  tree_inv c -> Z.of_nat (length (all_nodes (c_nodeTree c))) <= MaxInt64 ->
  numNodes (c_nodeTree c) = Z.of_nat (length (all_nodes (c_nodeTree c))).
Proof. intros Ht Hle. rewrite (wf_count _ (ti_wf c Ht)). apply int64_id. int_unfold. lia. Qed.

Lemma removeDeleted_spec c m :
  tree_inv c -> (forall x, is_Some (object c x) -> is_Some (m !! x)) ->
  Z.of_nat (size m) <= MaxInt64 ->
  forall x, removeDeletedNodesFromSnapshot c m !! x
            = if decide (object c x = None) then None else m !! x.
Proof.
  intros Ht Hm Hmax x. unfold removeDeletedNodesFromSnapshot.
  pose proof (range_perm 1 _ (map fst (map_to_list m))) as Hp.
  set (l := range 1 (map fst (map_to_list m))) in *.
  pose proof (dead_count c m l Ht Hm Hp) as Hcount.
  rewrite (numNodes_exact c Ht) by lia.
  rewrite sub64_exact by (int_unfold; lia).
  replace (Z.of_nat (size m) - Z.of_nat (length (all_nodes (c_nodeTree c))))
    with (Z.of_nat (length (dead c l))) by lia.
  etransitivity; [apply (remove_fold c l m x)|].
  2:{ destruct (decide (object c x = None)) as [Hx|Hx];
        [|rewrite decide_False by (rewrite elem_dead; tauto); done].
    destruct (decide (x ∈ dead c l)) as [|H]; [done|].
    destruct (m !! x) as [v|] eqn:E; [|done]. destruct H. apply elem_dead. split; [|done].
    rewrite Hp, list_elem_of_In, in_map_iff. exists (x, v). split; [done|].
    by apply list_elem_of_In, elem_of_map_to_list. }
  rewrite Hp, length_map, length_map_to_list. done.
Qed.

(** ** The update *)

(** The lists of a snapshot describe its map. *)
Record lists_inv (s : Snapshot) : Prop := {
  li_nodup : NoDup (nodeInfoList s);
  li_dom : forall x, x ∈ nodeInfoList s <-> is_Some (nodeInfoMap s !! x);
  li_aff : havePodsWithAffinityNodeInfoList s
    = List.filter (fun n => holds has_affinity_pods (nodeInfoMap s !! n)) (nodeInfoList s);
  li_anti : havePodsWithRequiredAntiAffinityNodeInfoList s
    = List.filter (fun n => holds has_anti_affinity_pods (nodeInfoMap s !! n)) (nodeInfoList s)
}.

(** A snapshot of the cache at an earlier time: what is not newer than the
    snapshot is in it. *)
Record snap_inv (c : schedulerCache) (s : Snapshot) : Prop := {
  si_gen : sn_generation s <= G c;
  si_old : forall x ni, live_info c x = Some ni -> Generation ni <= sn_generation s ->
    nodeInfoMap s !! x = Some ni;
  si_lists : lists_inv s;
  si_size : Z.of_nat (size (nodeInfoMap s)) <= 2 ^ 61
}.

(** The snapshot shows exactly the live nodes. *)
Record exact (c : schedulerCache) (s : Snapshot) : Prop := {
  ex_map : forall x, nodeInfoMap s !! x = live_info c x;
  ex_list : nodeInfoList s ≡ₚ all_nodes (c_nodeTree c);
  ex_lists : lists_inv s
}.

Lemma filter_holds_ext f (m m' : gmap string NodeInfo) l :
  (forall x, x ∈ l -> holds f (m !! x) = holds f (m' !! x)) ->
  List.filter (fun n => holds f (m !! n)) l = List.filter (fun n => holds f (m' !! n)) l.
Proof. intros H. apply List.filter_ext_in. intros x Hx%list_elem_of_In. auto. Qed.

Lemma list_filter_all {A} (f : A -> bool) l : (forall x, x ∈ l -> f x = true) -> List.filter f l = l.
Proof.
  induction l as [|x l IH]; intros H; simpl; [done|]. rewrite H by left. f_equal. apply IH.
  intros y Hy. apply H. by right.
Qed.

(** Building the lists from the tree. *)
Lemma update_all_lists c s :
  tree_inv c -> Z.of_nat (length (all_nodes (c_nodeTree c))) <= MaxInt64 ->
  (forall x, nodeInfoMap s !! x = live_info c x) ->
  exact c (updateNodeInfoSnapshotList c s true).
Proof.
  intros Ht Hmax Hm. destruct (nt_list_wf _ (ti_wf c Ht) Hmax) as (l & Hl & Hp).
  assert (forall x, x ∈ l <-> is_Some (live_info c x)) as Hdom
    by (intros x; by rewrite Hp, (ti_live c Ht), live_info_object).
  unfold updateNodeInfoSnapshotList. rewrite Hl.
  rewrite (list_filter_all _ l) by (intros x Hx%Hdom; rewrite Hm; by destruct Hx as [? ->]).
  constructor; simpl; [done|done|]. constructor; simpl; [| |done|done].
  - rewrite Hp. apply Ht.
  - intros x. by rewrite Hdom, Hm.
Qed.

(** Keeping the list of nodes, when the nodes are the same as before. *)
Lemma update_some_lists c s (m' : gmap string NodeInfo) :
  tree_inv c -> lists_inv s -> (forall x, m' !! x = live_info c x) ->
  (forall x, is_Some (nodeInfoMap s !! x) <-> is_Some (m' !! x)) ->
  nodeInfoList s ≡ₚ all_nodes (c_nodeTree c).
Proof.
  intros Ht [L1 L2 _ _] Hm Hdom. apply NoDup_Permutation; [done|apply Ht|].
  intros x. by rewrite L2, Hdom, Hm, live_info_object, (ti_live c Ht).
Qed.

Lemma size_le_union {A B C} (m : gmap string A) (a : gmap string B) (b : gmap string C) :
  (forall x, is_Some (m !! x) -> is_Some (a !! x) \/ is_Some (b !! x)) ->
  (size m <= size a + size b)%nat.
Proof.
  intros H. rewrite <- (size_dom m), <- (size_dom a), <- (size_dom b).
  transitivity (size (dom a ∪ dom b)).
  - apply subseteq_size. intros x Hx. rewrite elem_of_union, !elem_of_dom. by apply H, elem_of_dom.
  - rewrite size_union_alt. pose proof (subseteq_size (dom b ∖ dom a) (dom b) ltac:(set_solver)). lia.
Qed.

Lemma NoDup_size {A} (m : gmap string A) l :
  NoDup l -> (forall x, x ∈ l -> is_Some (m !! x)) -> (length l <= size m)%nat.
Proof.
  intros Hn H. rewrite <- (size_dom m). rewrite <- (size_list_to_set (C := gset string) l) by done.
  apply subseteq_size. intros x Hx%elem_of_list_to_set. by apply elem_of_dom, H.
Qed.

Lemma live_in_nodes c x : is_Some (live_info c x) -> is_Some (nodes c !! x).
Proof. unfold live_info, info_of. destruct (nodes c !! x); [eauto|by intros []]. Qed.

(** What the map holds after the walk. *)
Lemma walked_live c s l r :
  order c l -> snap_inv c s -> walked c (sn_generation s) l (nodeInfoMap s) (mkFlags false false false) r ->
  (forall x, is_Some (live_info c x) -> r.1 !! x = live_info c x) /\
  (forall x, live_info c x = None -> r.1 !! x = nodeInfoMap s !! x).
Proof.
  intros Ho Hs Hw. split.
  - intros x Hx. assert (x ∈ l) as Hl by (apply (order_info c l x Ho); unfold live_info in Hx;
      destruct (info_of c x); [eauto|by destruct Hx]).
    destruct (Z_lt_le_dec (sn_generation s) (gen c x)) as [Hlt|Hle].
    + by apply (wk_new _ _ _ _ _ _ Hw).
    + rewrite (wk_old _ _ _ _ _ _ Hw) by (intros (_ & ? & _); lia).
      destruct Hx as [ni Hni]. rewrite Hni. apply (si_old c s Hs); [done|].
      unfold gen, live_info in *. destruct (info_of c x) as [n|]; [|done]. simpl in Hle.
      destruct (ni_node n); [|done]. congruence.
  - intros x Hx. apply (wk_old _ _ _ _ _ _ Hw). intros (_ & _ & H). rewrite Hx in H. by destruct H.
Qed.

(** When no flag asks for new lists, the old ones are still right. *)
Lemma lists_unchanged c s l r g :
  tree_inv c -> snap_inv c s -> walked c (sn_generation s) l (nodeInfoMap s) (mkFlags false false false) r ->
  (forall x, r.1 !! x = live_info c x) -> updateAllLists r.2 = false ->
  nodeInfoList s ≡ₚ all_nodes (c_nodeTree c) /\
  (updateNodesHavePodsWithAffinity r.2 = false -> updateNodesHavePodsWithRequiredAntiAffinity r.2 = false ->
   exact c (mkSnapshot r.1 (nodeInfoList s) (havePodsWithAffinityNodeInfoList s)
              (havePodsWithRequiredAntiAffinityNodeInfoList s) g)).
Proof.
  intros Ht Hs Hw Hm Hall. destruct (wk_all _ _ _ _ _ _ Hw Hall) as [_ Hdom].
  pose proof (si_lists c s Hs) as HL.
  assert (forall x, copied c (sn_generation s) l x \/ r.1 !! x = nodeInfoMap s !! x) as Hcase.
  { intros x. destruct (decide (x ∈ l)); [|right; apply (wk_old _ _ _ _ _ _ Hw); intros (? & _); done].
    destruct (Z_lt_le_dec (sn_generation s) (gen c x)) as [?|?];
      [|right; apply (wk_old _ _ _ _ _ _ Hw); intros (_ & ? & _); lia].
    destruct (live_info c x) as [ni|] eqn:E; [left; split_and!; [done..|by rewrite E]|].
    right. apply (wk_old _ _ _ _ _ _ Hw). intros (_ & _ & H). rewrite E in H. by destruct H. }
  assert (forall x, is_Some (nodeInfoMap s !! x) <-> is_Some (r.1 !! x)) as Hiff.
  { intros x. destruct (Hcase x) as [Hc| ->]; [|done]. split; [|intros _; by apply Hdom].
    intros _. rewrite Hm. apply Hc. }
  assert (nodeInfoList s ≡ₚ all_nodes (c_nodeTree c)) as Hp by (by apply (update_some_lists c s r.1)).
  split; [done|]. intros Hf1 Hf2.
  destruct (wk_aff _ _ _ _ _ _ Hw Hf1) as [_ H1], (wk_anti _ _ _ _ _ _ Hw Hf2) as [_ H2].
  constructor; simpl; [done|done|]. destruct HL as [L1 L2 L3 L4]. constructor; simpl; [done| | |].
  - intros x. by rewrite L2, Hiff.
  - rewrite L3. apply filter_holds_ext. intros x _. destruct (Hcase x) as [Hc| ->]; [|done].
    rewrite Hm. symmetry. auto.
  - rewrite L4. apply filter_holds_ext. intros x _. destruct (Hcase x) as [Hc| ->]; [|done].
    rewrite Hm. symmetry. auto.
Qed.

(** After the walk and the deletions, the map shows exactly the live nodes. *)
Lemma map_exact c s l r :
  order c l -> tree_inv c -> snap_inv c s -> Z.of_nat (size (nodes c)) <= 2 ^ 61 ->
  walked c (sn_generation s) l (nodeInfoMap s) (mkFlags false false false) r ->
  forall x, (if numNodes (c_nodeTree c) <? Z.of_nat (size r.1)
             then removeDeletedNodesFromSnapshot c r.1 else r.1) !! x = live_info c x.
Proof.
  intros Ho Ht Hs Hsize Hw. destruct (walked_live c s l r Ho Hs Hw) as [Hlive Hother].
  assert (forall x, is_Some (object c x) -> is_Some (r.1 !! x)) as Hcov
    by (intros x Hx%live_info_object; by rewrite Hlive).
  assert (forall x, object c x = None -> live_info c x = None) as Hnone.
  { intros x Hx. apply eq_None_not_Some. rewrite live_info_object, Hx. by intros []. }
  pose proof (dead_count c r.1 _ Ht Hcov (reflexivity _)) as Hcount.
  assert (length (all_nodes (c_nodeTree c)) <= size (nodes c))%nat as Hlen.
  { apply NoDup_size; [apply Ht|]. intros x Hx. apply live_in_nodes, live_info_object.
    by apply (ti_live c Ht). }
  rewrite (numNodes_exact c Ht) by (int_unfold; lia). intros x.
  destruct (Z.ltb_spec (Z.of_nat (length (all_nodes (c_nodeTree c)))) (Z.of_nat (size r.1))) as [Hlt|Hge].
  - rewrite removeDeleted_spec; [|done|done|].
    + destruct (decide (object c x = None)) as [Hx|Hx]; [by rewrite Hnone|].
      apply Hlive, live_info_object. by apply not_eq_None_Some.
    + assert (size r.1 <= size (nodeInfoMap s) + size (nodes c))%nat as H.
      { apply size_le_union. intros y Hy. destruct (live_info c y) eqn:E.
        - right. apply live_in_nodes. eauto.
        - left. by rewrite <- (Hother y E). }
      pose proof (si_size c s Hs). int_unfold. lia.
  - destruct (decide (object c x = None)) as [Hx|Hx].
    + rewrite Hnone by done. destruct (r.1 !! x) as [v|] eqn:E; [|done]. exfalso.
      assert (x ∈ dead c (map fst (map_to_list r.1))) as Hd.
      { apply elem_dead. split; [|done]. apply list_elem_of_In, in_map_iff. exists (x, v).
        split; [done|]. by apply list_elem_of_In, elem_of_map_to_list. }
      destruct (dead c (map fst (map_to_list r.1))); [set_solver|simpl in Hcount; lia].
    + apply Hlive, live_info_object. by apply not_eq_None_Some.
Qed.

Lemma exact_snap_inv c s :
  exact c s -> sn_generation s <= G c -> Z.of_nat (size (nodes c)) <= 2 ^ 61 -> snap_inv c s.
Proof.
  intros [E1 E2 E3] Hg Hsize. constructor; [done| |done|].
  - intros x ni Hx _. by rewrite E1.
  - pose proof (size_le_union (nodeInfoMap s) (nodes c) (∅ : gmap string unit)) as H.
    rewrite map_size_empty in H. enough (size (nodeInfoMap s) <= size (nodes c) + 0)%nat by lia.
    apply H. intros x Hx. left. apply live_in_nodes. by rewrite <- E1.
Qed.

Lemma UpdateSnapshot_exact c s :
  gen_inv c -> tree_inv c -> snap_inv c s -> Z.of_nat (size (nodes c)) <= 2 ^ 61 ->
  exists s', UpdateSnapshot c s = (s', None) /\ exact c s' /\ snap_inv c s'.
Proof.
  intros (l & Ho & Hsort & Hle) Ht Hs Hsize.
  assert (length l <= size (nodes c))%nat as Hll.
  { apply NoDup_size; [apply Ho|]. intros x. apply (proj2 Ho). }
  pose proof (snapshot_walk_spec c (sn_generation s) [] l (S (size (nodes c))) (nodeInfoMap s)
    (mkFlags false false false) Ho Hsort (fun x np H => proj1 (ti_zone c Ht x np H)) ltac:(lia)) as Hw.
  rewrite <- (lk_head _ _ _ (proj1 Ho)) in Hw.
  pose proof (map_exact c s l _ Ho Ht Hs Hsize Hw) as Hmap.
  assert (length (all_nodes (c_nodeTree c)) <= size (nodes c))%nat as Hlen.
  { apply NoDup_size; [apply Ht|]. intros x Hx. apply live_in_nodes, live_info_object.
    by apply (ti_live c Ht). }
  pose proof (numNodes_exact c Ht ltac:(int_unfold; lia)) as Hnum.
  unfold UpdateSnapshot. destruct (snapshot_walk _ _ _ _ _ _) as [m fl]. cbn [fst snd] in *.
  set (g := match headNode c with Some h => _ | None => _ end).
  assert (g <= G c) as Hg.
  { unfold g. pose proof (si_gen c s Hs). destruct (headNode c) as [h|]; [|done].
    destruct (info_of c h) eqn:E; [by apply (Hle h)|done]. }
  set (m' := if numNodes (c_nodeTree c) <? Z.of_nat (size m) then _ else m) in *.
  set (s1 := mkSnapshot m' (nodeInfoList s) (havePodsWithAffinityNodeInfoList s)
               (havePodsWithRequiredAntiAffinityNodeInfoList s) g).
  set (all := updateAllLists fl || _).
  set (s2 := if all || _ || _ then _ else s1).
  assert (exact c s2 /\ sn_generation s2 = g) as [Hex Hgen].
  { unfold s2. destruct all eqn:Eall.
    - split; [|done]. apply update_all_lists; [done|int_unfold; lia|done].
    - apply orb_false_iff in Eall as [Ea Eb]. assert (m' = m) as Hm' by (unfold m'; by rewrite Eb).
      destruct (lists_unchanged c s l (m, fl) g Ht Hs Hw) as [Hp Hkeep]; [by rewrite <- Hm'|done|].
      cbn [orb fst snd] in *. destruct (updateNodesHavePodsWithAffinity fl || _) eqn:Ef.
      + split; [|done]. constructor; simpl; [done|done|]. constructor; simpl; [apply (si_lists c s Hs)| |done|done].
        intros x. by rewrite Hp, (ti_live c Ht), <- live_info_object, Hmap.
      + apply orb_false_iff in Ef as [Ef1 Ef2]. split; [|done]. unfold s1. rewrite Hm'. by apply Hkeep. }
  rewrite Hnum, (Permutation_length (ex_list c s2 Hex)), Z.eqb_refl.
  exists s2. split_and!; [done|done|]. apply exact_snap_inv; [done|by rewrite Hgen|done].
Qed.

(** ** Runs of the scheduler *)

(** A step of the cache whose node events fit what the cache knows: a node is
    added when it has no object, updated with the object that was reported
    last, as informers do, and removed with an object in the zone of the one
    the cache holds.  That covers the deletions the informer reports, and the
    removal by a node object with nothing but the name, which the scheduler
    performs itself after an error that names a missing node, if the node has
    no zone; with a zone the tree loses track of the node
    (missing_node_stays in EventProofs.v). *)
Inductive informed_step (c : schedulerCache) : schedulerCache -> Prop :=
| is_pods c' : pod_step c c' -> informed_step c c'
| is_add_node node : object c (node_Name node) = None -> informed_step c (AddNode node c)
| is_update_node old new c' : node_Name new = node_Name old -> object c (node_Name old) = Some old ->
    UpdateNode (Some old) new c = Ret c' -> informed_step c c'
| is_remove_node node : (forall np, object c (node_Name node) = Some np -> GetZoneKey np = GetZoneKey node) ->
    informed_step c (cache_RemoveNode node c).1.

(** The cache and the snapshot of the scheduler: events change the cache, and
    every scheduling cycle updates the snapshot, and stamps the clones it
    makes with generations of their own. *)
Inductive system : schedulerCache -> Snapshot -> Prop :=
| sys_new t : system (newSchedulerCache t) NewEmptySnapshot
| sys_event c c' s : system c s -> room c -> informed_step c c' -> system c' s
| sys_cycle c s : system c s -> room c -> system c (UpdateSnapshot c s).1
| sys_clones c s w : system c s -> G c <= generation w -> system (with_world w c) s.

Lemma informed_cache_step c c' : informed_step c c' -> cache_step c c'.
Proof. destruct 1; eauto using cs_pods, cs_add_node, cs_update_node, cs_remove_node. Qed.

Lemma object_info c x np : object c x = Some np -> is_Some (info_of c x).
Proof. unfold object. destruct (info_of c x); [eauto|done]. Qed.

Lemma informed_step_inv c c' :
  cache_inv c -> gen_inv c -> tree_inv c -> 0 <= G c -> room c -> informed_step c c' ->
  gen_inv c' /\ tree_inv c' /\ evolves c c' /\ 0 <= G c'.
Proof.
  intros Hc Hg Ht H0 Hroom Hs.
  assert (G c + 2 <= MaxInt64 /\ G c + 1 <= MaxInt64) as [M2 M1] by (destruct Hroom; lia).
  assert (rtc effect c c' /\ tree_inv c') as [He Ht'].
  { destruct Hs as [c' H|node H|old new c' Hn H Hu|node H].
    - destruct (pod_step_effects c c' Hc H0 Hroom H) as (k & He & _ & Hsame).
      split; [done|]. by eapply tree_inv_same.
    - destruct (AddNode_effects node c H0 M2) as [(He & _ & Ho) Htree].
      split; [done|]. by eapply tree_inv_add.
    - destruct (UpdateNode_effects (Some old) new c c') as [(He & _ & Ho) (t & Hu' & Htree)]; try done.
      { rewrite Hn. by eapply object_info. }
      split; [done|]. by eapply tree_inv_update.
    - destruct (info_of c (node_Name node)) as [ni|] eqn:Ei.
      2: { unfold cache_RemoveNode, info_of in *. destruct (nodes c !! node_Name node); [done|]. by split. }
      destruct (RemoveNode_effects node c) as [(He & _ & Ho) Htree]; [by rewrite Ei|done|done|].
      split; [done|]. destruct (object c (node_Name node)) as [np|] eqn:Eo; [by eapply tree_inv_remove; auto|].
      assert (node_Name node ∉ all_nodes (c_nodeTree c)) as Hni by (rewrite (ti_live c Ht), Eo; by intros []).
      rewrite (removeNode_absent node _ (ti_wf c Ht) Hni) in Htree. apply (tree_inv_same c); [|done]. split; [|done].
      intros x. rewrite Ho. case_decide; [by subst|done]. }
  destruct (effects_inv c c' He H0 Hg) as (Hg' & Hev & H0'). done.
Qed.

Lemma snap_inv_evolves c c' s : evolves c c' -> snap_inv c s -> snap_inv c' s.
Proof.
  intros [HG Hev] [S1 S2 S3 S4]. constructor; [lia| |done|done].
  intros x ni Hx Hle. apply S2; [|done]. unfold live_info in *.
  destruct (info_of c' x) as [n|] eqn:E; [|done]. destruct (ni_node n) eqn:En; [|done].
  injection Hx as <-. destruct (Hev x n E) as [-> |H]; [by rewrite En|lia].
Qed.

Lemma system_inv c s :
  system c s -> cache_inv c /\ gen_inv c /\ tree_inv c /\ snap_inv c s /\ 0 <= G c.
Proof.
  induction 1 as [t|c c' s _ (Hc & Hg & Ht & Hs & H0) Hroom Hstep|c s _ (Hc & Hg & Ht & Hs & H0) Hroom
    |c s w _ (Hc & Hg & Ht & Hs & H0) Hw].
  - split_and!; [apply newSchedulerCache_inv| | | |done].
    + exists []. split_and!; [|constructor|done]. split.
      * constructor; [constructor|done|]. by intros [|? ?] ? ?.
      * intros x. simpl. rewrite lookup_empty. split; [set_solver|by intros []].
    + constructor; [apply newNodeTree_wf|constructor| |done].
      intros x. unfold object, info_of. simpl. rewrite lookup_empty. split; [set_solver|by intros []].
    + constructor; [done|done| |done]. constructor; [constructor| |done|done].
      intros x. simpl. rewrite lookup_empty. split; [set_solver|by intros []].
  - destruct (informed_step_inv c c' Hc Hg Ht H0 Hroom Hstep) as (Hg' & Ht' & Hev & H0').
    split_and!; [by eapply cache_step_inv, Hc; apply informed_cache_step|done|done| |done].
    by eapply snap_inv_evolves.
  - destruct (UpdateSnapshot_exact c s Hg Ht Hs (proj2 Hroom)) as (s' & -> & _ & Hs'). done.
  - assert (evolves c (with_world w c)) as Hev by (split; [done|]; intros x n Hx; by left).
    split_and!; [destruct Hc; by constructor| |destruct Ht; by constructor|by eapply snap_inv_evolves|unfold G in *; cbn; lia].
    destruct Hg as (l & Ho & Hsort & Hle). exists l. split_and!; [done|done|]. intros x n Hx. specialize (Hle x n Hx).
    unfold G in *. cbn. lia.
Qed.

End snapshots.

(** ** Witness *)

(** A node is added, a cycle runs, a pod is assumed: the next cycle. *)
Definition run_start : schedulerCache :=
  @AddNode amd64 gates_default (sample_node "n1" ∅ 4000) (newSchedulerCache 30).

Definition run_cache : schedulerCache :=
  (@AssumePod amd64 gates_default (on_node "n1" (sample_nginx "u1" 500)) run_start).1.

Definition run_snapshot : Snapshot := (@UpdateSnapshot range_id run_start NewEmptySnapshot).1.

Lemma room_start t : room (newSchedulerCache t).
Proof. split; vm_compute; discriminate. Qed.
Lemma room_node : room run_start.
Proof. split; vm_compute; discriminate. Qed.
Lemma room_run : room run_cache.
Proof. split; vm_compute; discriminate. Qed.

Lemma run_system : @system amd64 gates_default range_id run_cache run_snapshot.
Proof.
  apply (sys_event run_start run_cache run_snapshot); [|exact room_node|apply is_pods, ps_assume].
  apply (sys_cycle run_start NewEmptySnapshot); [|exact room_node].
  apply (sys_event (newSchedulerCache 30) run_start); [apply sys_new|apply room_start|].
  apply is_add_node. reflexivity.
Qed.

