(* ===== verification/GenericScheduler.v ===== *)
(** * The generic scheduler

    [generic_scheduler.go]: a cycle takes a snapshot of the cache, looks for
    nodes that pass the filters, scores them and picks one with the highest
    score.

    The filters run in parallel over the nodes and are cancelled once enough
    nodes are found or one reports an error.  The body of the loop takes
    effect atomically (it increments an atomic counter, and locks for the
    failures), in an order that the class [Parallel] leaves open, which also
    says how many pieces that were already running finish after the
    cancellation. *)

From S2P Require Import Prelude GoInt GoFloat GoStrconv Quantity ApiTypes Labels AffinityTerms Resource HostPorts NodeInfo Json Framework Snapshot NodeTree Cache SchedulingQueue Runtime.

Open Scope go_scope.

(** The schedule of a parallel loop over [n] pieces. *)
Class Parallel := {
  par_order : nat -> list nat;
  par_order_perm n : par_order n ≡ₚ seq 0 n;
  (** pieces that still run after the context is cancelled *)
  par_late : nat -> nat
}.

Definition minFeasibleNodesToFind : Z := 100.
Definition minFeasibleNodesPercentageToFind : Z := 5.
Definition ErrNoNodesAvailable : string := "no nodes available to schedule pods".

Record ScheduleResult := mkScheduleResult {
  SuggestedHost : string; EvaluatedNodes : Z; FeasibleNodes : Z
}.

Record Diagnosis := mkDiagnosis {
  NodeToStatusMap : gmap string FStatus;
  dg_UnschedulablePlugins : gset string
}.

(** The errors of [Schedule]: a [FitError] carries the diagnosis. *)
Inductive ScheduleError :=
| ScheduleFitError (numAllNodes : Z) (d : Diagnosis)
| ScheduleErr (e : string).

(** [genericScheduler] *)
Record genericScheduler := mkGenericScheduler {
  nodeInfoSnapshot : Snapshot;
  percentageOfNodesToScore : Z;
  nextStartNodeIndex : nat
}.

Definition NewGenericScheduler (snap : Snapshot) (percentage : Z) : genericScheduler :=
  mkGenericScheduler snap percentage 0.

(** An extender is a service outside of the scheduler. *)
Record Extender := {
  ex_IsInterested : Pod -> bool;
  ex_IsIgnorable : bool;
  (** the nodes left, the failed nodes, and those failed for good *)
  ex_Filter : Pod -> list Node -> (list Node * list (string * string) * list (string * string)) + string;
  ex_Prioritize : Pod -> list Node -> (list (string * Z) * Z) + string;
  ex_IsBinder : bool;
  ex_Bind : Pod -> string -> error
}.

Definition MaxExtenderPriority : Z := 10.

(** ** How many nodes to look for *)

(** [numFeasibleNodesToFind], on int32 *)
Definition numFeasibleNodesToFind (g : genericScheduler) (numAllNodes : Z) : Z :=
  if (numAllNodes <? minFeasibleNodesToFind) || (100 <=? percentageOfNodesToScore g) then numAllNodes
  else
    let adaptivePercentage :=
      if percentageOfNodesToScore g <=? 0 then
        let p := int32 (50 - Z.quot numAllNodes 125) in
        if p <? minFeasibleNodesPercentageToFind then minFeasibleNodesPercentageToFind else p
      else percentageOfNodesToScore g in
    let numNodes := Z.quot (int32 (numAllNodes * adaptivePercentage)) 100 in
    if numNodes <? minFeasibleNodesToFind then minFeasibleNodesToFind else numNodes.

(** ** Selecting a host *)

(** The state of the loop of [selectHost]: the highest score, the candidate
    and how often the score was seen. *)
Record selection := mkSelection { maxScore : Z; selected : string; cntOfMaxScore : Z }.

(** [draw n] is [rand.Intn(n)]. *)
Definition select_step (draw : nat -> Z -> Z) (st : nat * selection) (ns : NodeScore) : nat * selection :=
  let '(i, s) := st in
  (S i,
   if maxScore s <? ns_Score ns then mkSelection (ns_Score ns) (ns_Name ns) 1
   else if ns_Score ns =? maxScore s then
     let cnt := cntOfMaxScore s + 1 in
     mkSelection (maxScore s) (if draw i cnt =? 0 then ns_Name ns else selected s) cnt
   else s).

Definition selectHost (draw : nat -> Z -> Z) (nodeScoreList : list NodeScore) : string + string :=
  match nodeScoreList with
  | [] => inr "empty priorityList"%string
  | ns :: l => inl (selected (fold_left (select_step draw) l (0%nat, mkSelection (ns_Score ns) (ns_Name ns) 1)).2)
  end.

(** ** Filtering *)

Section filtering.
Context {arch : GoArch} {gates : FeatureGates} {mr : MapRange} {par : Parallel} {Ext : Type}.
Context (f : frameworkImpl Ext).

(** What the parallel loop has done so far. *)
Record check_state := mkCheckState {
  feasible : list Node;
  cs_diagnosis : Diagnosis;
  errCh : error;
  cancelled : bool;
  cs_world : World
}.

(** [checkNode(i)] *)
Definition checkNode (npm : nominator) (state : CycleState) (pod : Pod) (nodes : list NodeInfo)
    (start : nat) (numNodesToFind : Z) (st : check_state) (i : nat) : outcome check_state :=
  match nodes !! ((start + i) mod length nodes)%nat with
  | None => Panic "index out of range"
  | Some nodeInfo =>
      let! r := RunFilterPluginsWithNominatedPods f npm state pod nodeInfo (cs_world st) in
      let '(status, w) := r in
      if bool_decide (Status_Code status = Error) then
        Ret (mkCheckState (feasible st) (cs_diagnosis st)
          (match errCh st with None => AsError status | Some e => Some e end) true w)
      else
        match ni_node nodeInfo with
        | None => Panic nil_panic
        | Some node =>
            if IsSuccess status then
              if numNodesToFind <? Z.of_nat (length (feasible st)) + 1
              then Ret (mkCheckState (feasible st) (cs_diagnosis st) (errCh st) true w)
              else Ret (mkCheckState (feasible st ++ [node]) (cs_diagnosis st) (errCh st) (cancelled st) w)
            else
              match status with
              | None => Panic nil_panic
              | Some s =>
                  Ret (mkCheckState (feasible st)
                    (mkDiagnosis (<[node_Name node := s]> (NodeToStatusMap (cs_diagnosis st)))
                       ({[failedPlugin s]} ∪ dg_UnschedulablePlugins (cs_diagnosis st)))
                    (errCh st) (cancelled st) w)
              end
        end
  end.

(** [Until]: the pieces in order, and [late] of them after a cancellation. *)
Fixpoint run_until (check : check_state -> nat -> outcome check_state) (late : nat) (l : list nat)
    (st : check_state) : outcome check_state :=
  match l with
  | [] => Ret st
  | i :: l =>
      if cancelled st then
        match late with
        | O => Ret st
        | S late => let! st := check st i in run_until check late l st
        end
      else let! st := check st i in run_until check late l st
  end.

(** Without filter plugins the next nodes in turn are feasible. *)
Definition next_nodes (nodes : list NodeInfo) (start : nat) (num : nat) : list Node :=
  omap (fun i => nodes !! ((start + i) mod length nodes)%nat ≫= ni_node) (seq 0 num).

Definition findNodesThatPassFilters (g : genericScheduler) (npm : nominator) (state : CycleState) (pod : Pod)
    (diagnosis : Diagnosis) (nodes : list NodeInfo) (w : World)
  : outcome (genericScheduler * Diagnosis * World * (list Node + string)) :=
  let numNodesToFind := numFeasibleNodesToFind g (Z.of_nat (length nodes)) in
  let advance k d w r :=
    if (length nodes =? 0)%nat then Panic "integer divide by zero"
    else Ret (mkGenericScheduler (nodeInfoSnapshot g) (percentageOfNodesToScore g)
                ((nextStartNodeIndex g + k) mod length nodes)%nat, d, w, r) in
  if negb (HasFilterPlugins f) then
    advance (Z.to_nat numNodesToFind) diagnosis w
      (inl (next_nodes nodes (nextStartNodeIndex g) (Z.to_nat numNodesToFind)))
  else
    let! st := run_until (checkNode npm state pod nodes (nextStartNodeIndex g) numNodesToFind)
                 (par_late (length nodes)) (par_order (length nodes))
                 (mkCheckState [] diagnosis None false w) in
    advance (length (feasible st) + size (NodeToStatusMap (cs_diagnosis st)))%nat (cs_diagnosis st) (cs_world st)
      (match errCh st with Some e => inr e | None => inl (feasible st) end).

(** *** Extenders *)

Definition ext_unresolvable (statuses : gmap string FStatus) (e : string * string) : gmap string FStatus :=
  let aggregated := match statuses !! e.1 with Some s => reasons s | None => [] end in
  <[e.1 := NewStatus UnschedulableAndUnresolvable (aggregated ++ [e.2])]> statuses.

Definition ext_failed (unresolvable : list (string * string)) (statuses : gmap string FStatus)
    (e : string * string) : gmap string FStatus :=
  if existsb (fun u => String.eqb u.1 e.1) unresolvable then statuses
  else
    match statuses !! e.1 with
    | None => <[e.1 := NewStatus Unschedulable [e.2]]> statuses
    | Some s => <[e.1 := mkStatus (code s) (reasons s ++ [e.2]) (st_err s) (failedPlugin s)]> statuses
    end.

Fixpoint findNodesThatPassExtenders (extenders : list Extender) (pod : Pod) (feasibleNodes : list Node)
    (statuses : gmap string FStatus) : gmap string FStatus * (list Node + string) :=
  match extenders with
  | [] => (statuses, inl feasibleNodes)
  | ext :: extenders =>
      match feasibleNodes with
      | [] => (statuses, inl [])
      | _ =>
          if negb (ex_IsInterested ext pod) then findNodesThatPassExtenders extenders pod feasibleNodes statuses
          else
            match ex_Filter ext pod feasibleNodes with
            | inr err =>
                if ex_IsIgnorable ext then findNodesThatPassExtenders extenders pod feasibleNodes statuses
                else (statuses, inr err)
            | inl (feasibleList, failedMap, unresolvableMap) =>
                let statuses := fold_left ext_unresolvable unresolvableMap statuses in
                let statuses := fold_left (ext_failed unresolvableMap) failedMap statuses in
                findNodesThatPassExtenders extenders pod feasibleList statuses
            end
      end
  end.

(** *** [findNodesThatFitPod] *)

Definition set_statuses (m : gmap string FStatus) (d : Diagnosis) : Diagnosis :=
  mkDiagnosis m (dg_UnschedulablePlugins d).

(** The filters and the extenders on a list of nodes. *)
Definition filter_and_extend (g : genericScheduler) (extenders : list Extender) (npm : nominator)
    (state : CycleState) (pod : Pod) (diagnosis : Diagnosis) (nodes : list NodeInfo) (w : World)
  : outcome (genericScheduler * Diagnosis * World * (list Node + string)) :=
  let! r := findNodesThatPassFilters g npm state pod diagnosis nodes w in
  let '(g, diagnosis, w, res) := r in
  match res with
  | inr err => Ret (g, diagnosis, w, inr err)
  | inl feasibleNodes =>
      let '(m, res) := findNodesThatPassExtenders extenders pod feasibleNodes (NodeToStatusMap diagnosis) in
      Ret (g, set_statuses m diagnosis, w, res)
  end.

Definition evaluateNominatedNode (g : genericScheduler) (extenders : list Extender) (npm : nominator)
    (state : CycleState) (pod : Pod) (diagnosis : Diagnosis) (w : World)
  : outcome (genericScheduler * Diagnosis * World * (list Node + string)) :=
  match SN_Get (nodeInfoSnapshot g) (NominatedNodeName (Status pod)) with
  | inr err => Ret (g, diagnosis, w, inr err)
  | inl nodeInfo => filter_and_extend g extenders npm state pod diagnosis [nodeInfo] w
  end.

(** The gate [PreferNominatedNode] *)
Context (preferNominatedNode : bool).

(** Every node with the status of the PreFilter plugin. *)
Definition all_failed (s : FStatus) (nodes : list NodeInfo) : outcome (gmap string FStatus) :=
  ofold (fun m n => match ni_node n with
                    | None => Panic nil_panic
                    | Some node => Ret (<[node_Name node := s]> m)
                    end) nodes ∅.

Definition findNodesThatFitPod (g : genericScheduler) (extenders : list Extender) (npm : nominator) (x : Ext)
    (state : CycleState) (pod : Pod) (w : World)
  : outcome (genericScheduler * Ext * CycleState * Diagnosis * World * (list Node + string)) :=
  let diagnosis := mkDiagnosis ∅ ∅ in
  let! r := RunPreFilterPlugins f x state pod in
  let '(x, state, s) := r in
  let allNodes := SN_List (nodeInfoSnapshot g) in
  if negb (IsSuccess s) then
    if negb (IsUnschedulable s) then
      Ret (g, x, state, diagnosis, w, inr (default ""%string (AsError s)))
    else
      match s with
      | None => Panic nil_panic
      | Some st =>
          let! m := all_failed st allNodes in
          Ret (g, x, state, mkDiagnosis m {[failedPlugin st]}, w, inl [])
      end
  else
    let! nominated :=
      if (0 <? String.length (NominatedNodeName (Status pod)))%nat && preferNominatedNode
      then evaluateNominatedNode g extenders npm state pod diagnosis w
      else Ret (g, diagnosis, w, inl []) in
    let '(g, diagnosis, w, res) := nominated in
    match res with
    | inl (n :: l) => Ret (g, x, state, diagnosis, w, inl (n :: l))
    | _ =>
        let! r := filter_and_extend g extenders npm state pod diagnosis allNodes w in
        let '(g, diagnosis, w, res) := r in
        Ret (g, x, state, diagnosis, w, res)
    end.

(** ** Prioritizing *)

(** [combinedScores]: a failing extender is left out. *)
Definition extender_scores (extenders : list Extender) (pod : Pod) (nodes : list Node) : gmap string Z :=
  fold_left (fun m ext =>
    if negb (ex_IsInterested ext pod) then m
    else match ex_Prioritize ext pod nodes with
         | inr _ => m
         | inl (l, weight) =>
             fold_left (fun m e => <[e.1 := default 0 (m !! e.1) +₆₄ e.2 *₆₄ weight]> m) l m
         end) extenders ∅.

(** The sum over the plugins of the scores of the node at position [i]. *)
Definition total_score (lists : list (list NodeScore)) (i : nat) : Z :=
  fold_left (fun acc l => acc +₆₄ default 0 (ns_Score <$> l !! i)) lists 0.

Definition prioritizeNodes (extenders : list Extender) (state : CycleState) (pod : Pod) (nodes : list Node)
  : outcome (CycleState * (list NodeScore + string)) :=
  if (length extenders =? 0)%nat && negb (HasScorePlugins f) then
    Ret (state, inl (map (fun n => mkNodeScore (node_Name n) 1) nodes))
  else
    let! r := RunPreScorePlugins f state pod nodes in
    let '(state, preScoreStatus) := r in
    if negb (IsSuccess preScoreStatus) then Ret (state, inr (default ""%string (AsError preScoreStatus)))
    else
      let! scores := RunScorePlugins f state pod nodes in
      match scores with
      | inr status => Ret (state, inr (default ""%string (AsError (Some status))))
      | inl lists =>
          let combined := extender_scores extenders pod nodes in
          let scale := MaxNodeScore / MaxExtenderPriority in
          Ret (state, inl (imap (fun i n =>
            let s := total_score lists i in
            mkNodeScore (node_Name n)
              (if (length extenders =? 0)%nat then s
               else s +₆₄ default 0 (combined !! node_Name n) *₆₄ scale)) nodes))
      end.

(** ** [Schedule] *)

Definition with_snapshot (snap : Snapshot) (g : genericScheduler) : genericScheduler :=
  mkGenericScheduler snap (percentageOfNodesToScore g) (nextStartNodeIndex g).

Definition Schedule (draw : nat -> Z -> Z) (c : schedulerCache) (g : genericScheduler)
    (extenders : list Extender) (npm : nominator) (x : Ext) (state : CycleState) (pod : Pod)
  : outcome (genericScheduler * Ext * CycleState * World * (ScheduleResult + ScheduleError)) :=
  let w := world c in
  let '(snap, err) := UpdateSnapshot c (nodeInfoSnapshot g) in
  let g := with_snapshot snap g in
  match err with
  | Some e => Ret (g, x, state, w, inr (ScheduleErr e))
  | None =>
      if (SN_NumNodes snap =? 0)%nat then Ret (g, x, state, w, inr (ScheduleErr ErrNoNodesAvailable))
      else
        let! r := findNodesThatFitPod g extenders npm x state pod w in
        let '(g, x, state, diagnosis, w, res) := r in
        match res with
        | inr err => Ret (g, x, state, w, inr (ScheduleErr err))
        | inl [] =>
            Ret (g, x, state, w, inr (ScheduleFitError (Z.of_nat (SN_NumNodes snap)) diagnosis))
        | inl [n] =>
            Ret (g, x, state, w, inl (mkScheduleResult (node_Name n)
              (1 + Z.of_nat (size (NodeToStatusMap diagnosis))) 1))
        | inl feasibleNodes =>
            let! r := prioritizeNodes extenders state pod feasibleNodes in
            let '(state, priorityList) := r in
            Ret (g, x, state, w,
              match priorityList with
              | inr err => inr (ScheduleErr err)
              | inl l =>
                  match selectHost draw l with
                  | inr err => inr (ScheduleErr err)
                  | inl host => inl (mkScheduleResult host
                      (Z.of_nat (length feasibleNodes + size (NodeToStatusMap diagnosis)))
                      (Z.of_nat (length feasibleNodes)))
                  end
              end)
        end
  end.
End filtering.
