(* ===== verification/GenericProofs.v ===== *)
(** * The generic scheduler picks a best feasible node

    Bounds on the search, correctness of the parallel filter loop for every
    schedule of its pieces, absence of overflow in the weighted scores, the
    selection of a host, and their composition in [Schedule]. *)

From S2P Require Import Prelude GoInt GoFloat GoStrconv Quantity ApiTypes Labels AffinityTerms Resource HostPorts NodeInfo Json Framework Snapshot NodeTree Cache SchedulingQueue Runtime GenericScheduler Samples.

(** ** How many nodes to look for *)

Lemma numFeasible_range g n :
  0 <= n -> n * 100 <= MaxInt32 ->
  Z.min n minFeasibleNodesToFind <= numFeasibleNodesToFind g n <= n.
Proof.
  intros Hn Hfit. unfold numFeasibleNodesToFind, minFeasibleNodesToFind, minFeasibleNodesPercentageToFind.
  destruct (Z.ltb_spec n 100); simpl; [lia|].
  destruct (Z.leb_spec 100 (percentageOfNodesToScore g)); simpl; [lia|].
  set (p := if percentageOfNodesToScore g <=? 0 then _ else _).
  assert (0 <= p < 100) as Hp.
  { unfold p. destruct (Z.leb_spec (percentageOfNodesToScore g) 0); [|lia].
    assert (0 <= Z.quot n 125 <= n) as Hq.
    { split; [apply Z.quot_pos; lia|]. apply Z.quot_le_upper_bound; lia. }
    rewrite int32_id by (int_unfold; lia). destruct (Z.ltb_spec (50 - Z.quot n 125) 5); lia. }
  rewrite int32_id by (int_unfold; nia).
  assert (0 <= Z.quot (n * p) 100 <= n) as Hq.
  { split; [apply Z.quot_pos; nia|]. apply Z.quot_le_upper_bound; nia. }
  destruct (Z.ltb_spec (Z.quot (n * p) 100) 100); lia.
Qed.

(** ** Selecting a host *)

(** The loop holds a node of the highest score seen. *)
Lemma select_fold draw l i s seen :
  (exists ns, ns ∈ seen /\ ns_Name ns = selected s /\ ns_Score ns = maxScore s) ->
  (forall x, x ∈ seen -> ns_Score x <= maxScore s) ->
  let r := (fold_left (select_step draw) l (i, s)).2 in
  (exists ns, ns ∈ seen ++ l /\ ns_Name ns = selected r /\ ns_Score ns = maxScore r) /\
  forall x, x ∈ seen ++ l -> ns_Score x <= maxScore r.
Proof.
  revert i s seen. induction l as [|ns l IH]; intros i s seen Hsel Hmax; cbn [fold_left].
  { rewrite app_nil_r. done. }
  specialize (IH (S i) (select_step draw (i, s) ns).2 (seen ++ [ns])). rewrite <- app_assoc in IH.
  apply IH; clear IH.
  - destruct Hsel as (x & Hx & Hn & Hs). unfold select_step; simpl.
    destruct (Z.ltb_spec (maxScore s) (ns_Score ns)); simpl.
    { exists ns. split; [|done]. apply elem_of_app. right. by left. }
    destruct (Z.eqb_spec (ns_Score ns) (maxScore s)) as [E|E]; simpl; [destruct (draw i _ =? 0); simpl|].
    + exists ns. split; [|done]. apply elem_of_app. right. by left.
    + exists x. split; [|done]. apply elem_of_app. by left.
    + exists x. split; [|done]. apply elem_of_app. by left.
  - intros x [Hx|Hx]%elem_of_app; unfold select_step; simpl.
    + specialize (Hmax x Hx). destruct (Z.ltb_spec (maxScore s) (ns_Score ns)); simpl; [lia|].
      by destruct (_ =? _); simpl.
    + apply list_elem_of_singleton in Hx as ->.
      destruct (Z.ltb_spec (maxScore s) (ns_Score ns)); simpl; [lia|].
      destruct (_ =? _); simpl; lia.
Qed.

Lemma selectHost_max draw l host :
  selectHost draw l = inl host ->
  exists ns, ns ∈ l /\ ns_Name ns = host /\ forall x, x ∈ l -> ns_Score x <= ns_Score ns.
Proof.
  destruct l as [|ns l]; simpl; [done|]. intros [= <-].
  destruct (select_fold draw l 0 (mkSelection (ns_Score ns) (ns_Name ns) 1) [ns]) as [(x & Hx & Hn & Hs) Hmax].
  - exists ns. split; [by left|done].
  - intros x Hx%list_elem_of_singleton. subst. simpl. lia.
  - exists x. split_and!; [done|done|]. intros y Hy. rewrite Hs. by apply Hmax.
Qed.

Lemma selectHost_total draw l : l <> [] -> exists host, selectHost draw l = inl host.
Proof. destruct l; [done|]. intros _. by eexists. Qed.

(** *** Reservoir sampling *)

(** One step of the loop, for a given value of the random number. *)
Definition step_with (d : Z) (s : selection) (ns : NodeScore) : selection :=
  (select_step (fun _ _ => d) (0%nat, s) ns).2.

(** The hosts selected for all the values the random numbers can take, one
    entry for each combination: a number below the count is drawn when the
    highest score is met again. *)
Fixpoint outcomes (l : list NodeScore) (s : selection) : list string :=
  match l with
  | [] => [selected s]
  | ns :: l =>
      if ns_Score ns =? maxScore s
      then concat (map (fun d => outcomes l (step_with d s ns)) (seqZ 0 (cntOfMaxScore s + 1)))
      else outcomes l (step_with 0 s ns)
  end.

(** Every combination of random numbers is one of these. *)
Lemma outcomes_draw draw l i s :
  (forall j n, 0 < n -> 0 <= draw j n < n) -> 0 < cntOfMaxScore s ->
  selected (fold_left (select_step draw) l (i, s)).2 ∈ outcomes l s.
Proof.
  intros Hd. revert i s. induction l as [|ns l IH]; intros i s Hc; [by left|]. cbn [fold_left outcomes].
  change (select_step draw (i, s) ns) with (S i, (select_step draw (i, s) ns).2).
  assert (0 < cntOfMaxScore (select_step draw (i, s) ns).2) as Hc'.
  { simpl. destruct (_ <? _); [done|]. destruct (_ =? _); simpl; lia. }
  destruct (Z.eqb_spec (ns_Score ns) (maxScore s)) as [E|E].
  - apply list_elem_of_In, in_concat. eexists. split; [|apply list_elem_of_In, IH; done].
    apply in_map_iff. exists (draw i (cntOfMaxScore s + 1)). split.
    + unfold step_with. simpl. rewrite E, Z.ltb_irrefl, Z.eqb_refl. done.
    + apply list_elem_of_In, elem_of_seqZ. specialize (Hd i (cntOfMaxScore s + 1)). lia.
  - assert (step_with 0 s ns = (select_step draw (i, s) ns).2) as ->; [|by apply IH].
    unfold step_with. simpl. by rewrite (proj2 (Z.eqb_neq _ _) E).
Qed.

Definition count (x : string) (l : list string) : Z := Z.of_nat (count_occ string_dec l x).

Lemma count_app x l l' : count x (l ++ l') = count x l + count x l'.
Proof. unfold count. rewrite count_occ_app. lia. Qed.

Lemma count_concat x (ls : list (list string)) : count x (concat ls) = Zsum (map (count x) ls).
Proof. induction ls as [|l ls IH]; simpl; [done|]. rewrite count_app, IH. done. Qed.

(** Sums over the values of a draw: 0 is special. *)
Lemma Zsum_draws (f : Z -> Z) (a b : Z) n :
  0 < n -> f 0 = a -> (forall d, d <> 0 -> f d = b) -> Zsum (map f (seqZ 0 n)) = a + (n - 1) * b.
Proof.
  intros Hn H0 Hb. rewrite seqZ_cons by lia. simpl. unfold Zsum. simpl. rewrite H0. f_equal.
  assert (forall m k, 0 < k -> foldr Z.add 0 (map f (seqZ k (Z.of_nat m))) = Z.of_nat m * b) as H.
  { induction m as [|m IH]; intros k Hk; [done|].
    rewrite seqZ_cons by lia. simpl. replace (Z.pred (Z.of_nat (S m))) with (Z.of_nat m) by lia.
    rewrite IH by lia. rewrite Hb by lia. lia. }
  specialize (H (Z.to_nat (n - 1)) 1 ltac:(lia)). rewrite Z2Nat.id in H by lia.
  replace (Z.pred n) with (n - 1) by lia. replace (Z.succ 0) with 1 by lia. exact H.
Qed.

(** The nodes with the highest score, and the highest score. *)
Definition best (l : list NodeScore) (m : Z) : list string :=
  map ns_Name (List.filter (fun ns => ns_Score ns =? m) l).
Definition top (l : list NodeScore) (m : Z) : Z := fold_left (fun m ns => Z.max m (ns_Score ns)) l m.

Lemma top_ge l m : m <= top l m.
Proof.
  unfold top. revert m. induction l as [|ns l IH]; intros m; simpl; [lia|].
  specialize (IH (Z.max m (ns_Score ns))). lia.
Qed.

(** How many combinations there are does not depend on the candidate. *)
Lemma outcomes_length l m x y c : length (outcomes l (mkSelection m x c)) = length (outcomes l (mkSelection m y c)).
Proof.
  revert m x y c. induction l as [|ns l IH]; intros m x y c; [done|]. cbn [outcomes maxScore cntOfMaxScore].
  unfold step_with. simpl. destruct (Z.eqb_spec (ns_Score ns) m) as [E|E].
  - rewrite E, Z.ltb_irrefl. rewrite !length_concat, !map_map. f_equal. apply map_ext. intros d. apply IH.
  - destruct (m <? ns_Score ns); [done|apply IH].
Qed.

Definition ind1 (x y : string) : Z := if string_dec y x then 1 else 0.

Lemma count_cons x y l : count x (y :: l) = ind1 x y + count x l.
Proof. unfold count, ind1. simpl. destruct (string_dec y x); lia. Qed.

Lemma best_cons ns l m :
  best (ns :: l) m = if ns_Score ns =? m then ns_Name ns :: best l m else best l m.
Proof. unfold best. simpl. by destruct (_ =? _). Qed.

(** The weight of a host: how often it is in the running. *)
Definition weight (l : list NodeScore) (s : selection) (x : string) : Z :=
  (if top l (maxScore s) =? maxScore s then cntOfMaxScore s * ind1 x (selected s) else 0)
  + count x (best l (top l (maxScore s))).
Definition contenders (l : list NodeScore) (s : selection) : Z :=
  (if top l (maxScore s) =? maxScore s then cntOfMaxScore s else 0)
  + Z.of_nat (length (best l (top l (maxScore s)))).

(** Among all combinations of the random numbers, a host is selected in
    proportion to its weight. *)
Lemma outcomes_uniform l s x :
  0 < cntOfMaxScore s ->
  contenders l s * count x (outcomes l s) = Z.of_nat (length (outcomes l s)) * weight l s x.
Proof.
  revert s. induction l as [|ns l IH]; intros [m y c] Hc; unfold contenders, weight; cbn [maxScore selected cntOfMaxScore] in *.
  { unfold top, best. simpl. rewrite Z.eqb_refl, count_cons. unfold count. simpl. lia. }
  cbn [outcomes maxScore selected cntOfMaxScore].
  assert (top (ns :: l) m = top l (Z.max m (ns_Score ns))) as Ht by done. rewrite Ht, best_cons. clear Ht.
  destruct (Z.eqb_spec (ns_Score ns) m) as [E|E].
  - rewrite E, Z.max_id. set (M := top l m).
    assert (forall d, step_with d (mkSelection m y c) ns =
      mkSelection m (if d =? 0 then ns_Name ns else y) (c + 1)) as Hstep.
    { intros d. unfold step_with. simpl. by rewrite E, Z.ltb_irrefl, Z.eqb_refl. }
    set (T := length (outcomes l (mkSelection m y (c + 1)))).
    set (K := (if M =? m then c + 1 else 0) + Z.of_nat (length (best l M))).
    set (B := count x (best l M)).
    assert (forall d, K * count x (outcomes l (step_with d (mkSelection m y c) ns)) =
      Z.of_nat T * ((if M =? m then (c + 1) * ind1 x (if d =? 0 then ns_Name ns else y) else 0) + B)) as Hd.
    { intros d. rewrite Hstep. specialize (IH (mkSelection m (if d =? 0 then ns_Name ns else y) (c + 1)) ltac:(simpl; lia)).
      unfold contenders, weight in IH. cbn [maxScore selected cntOfMaxScore] in IH.
      rewrite (outcomes_length l m _ y) in IH. exact IH. }
    rewrite count_concat, map_map.
    assert (Z.of_nat (length (concat (map (fun d => outcomes l (step_with d (mkSelection m y c) ns)) (seqZ 0 (c + 1)))))
      = (c + 1) * Z.of_nat T) as Hlen.
    { rewrite length_concat, map_map.
      assert (forall L : list Z, Z.of_nat (list_sum (map (fun d => length (outcomes l (step_with d (mkSelection m y c) ns))) L))
        = Z.of_nat (length L) * Z.of_nat T) as H.
      { induction L as [|d L IHL]; [done|]. simpl. rewrite Nat2Z.inj_add, IHL.
        rewrite Hstep, (outcomes_length l m _ y). fold T. lia. }
      rewrite H, length_seqZ. f_equal. lia. }
    rewrite Hlen.
    set (a := count x (outcomes l (step_with 0 (mkSelection m y c) ns))).
    set (b := count x (outcomes l (step_with 1 (mkSelection m y c) ns))).
    rewrite (Zsum_draws _ a b) by (done || lia || (intros d Hdd; unfold b; rewrite !Hstep; by rewrite (proj2 (Z.eqb_neq d 0) Hdd))).
    pose proof (Hd 0) as H0. pose proof (Hd 1) as H1. fold a in H0. fold b in H1. simpl in H0, H1.
    clearbody a b T. rewrite (Z.eqb_sym m M). clearbody M. destruct (M =? m).
    + rewrite count_cons. fold B. cbn [length].
      assert (c + Z.of_nat (S (length (best l M))) = K) as -> by (unfold K; lia). clearbody K B. nia.
    + fold B. fold K. clearbody K B. nia.
  - assert (forall d, step_with d (mkSelection m y c) ns =
      if m <? ns_Score ns then mkSelection (ns_Score ns) (ns_Name ns) 1 else mkSelection m y c) as Hstep.
    { intros d. unfold step_with. simpl. by rewrite (proj2 (Z.eqb_neq _ _) E). }
    rewrite Hstep. destruct (Z.ltb_spec m (ns_Score ns)) as [Hlt|Hge].
    + rewrite Z.max_r by lia. pose proof (top_ge l (ns_Score ns)) as Hg. set (M := top l (ns_Score ns)) in *.
      specialize (IH (mkSelection (ns_Score ns) (ns_Name ns) 1) ltac:(simpl; lia)).
      unfold contenders, weight in IH. cbn [maxScore selected cntOfMaxScore] in IH. fold M in IH.
      assert (M =? m = false) as -> by (apply Z.eqb_neq; lia).
      rewrite (Z.eqb_sym (ns_Score ns) M).
      destruct (M =? ns_Score ns); [rewrite count_cons; cbn [length]; rewrite Nat2Z.inj_succ|]; lia.
    + rewrite Z.max_l by lia. pose proof (top_ge l m) as Hg.
      specialize (IH (mkSelection m y c) Hc).
      unfold contenders, weight in IH. cbn [maxScore selected cntOfMaxScore] in IH.
      set (M := top l m) in *. assert (ns_Score ns =? M = false) as -> by (apply Z.eqb_neq; lia). exact IH.
Qed.

Lemma top_max l m ns : ns ∈ l -> ns_Score ns <= top l m.
Proof.
  unfold top. revert m. induction l as [|x l IH]; intros m; [by intros ?%elem_of_nil|].
  intros [-> |H]%elem_of_cons; simpl; [|by apply IH]. pose proof (top_ge l (Z.max m (ns_Score x))). unfold top in *. lia.
Qed.

Lemma top_in l m : top l m = m \/ exists ns, ns ∈ l /\ ns_Score ns = top l m.
Proof.
  unfold top. revert m. induction l as [|x l IH]; intros m; [by left|]. simpl.
  destruct (IH (Z.max m (ns_Score x))) as [E|(ns & H & E)].
  - rewrite E. destruct (Z.max_spec m (ns_Score x)) as [[_ ->]|[_ ->]]; [|by left].
    right. exists x. split; [by left|done].
  - right. exists ns. split; [by right|done].
Qed.

Lemma count_out x l : x ∉ l -> count x l = 0.
Proof. intros H. unfold count. rewrite (proj1 (count_occ_not_In string_dec l x)); [done|]. by rewrite <- list_elem_of_In. Qed.

Lemma count_NoDup x l : NoDup l -> x ∈ l -> count x l = 1.
Proof.
  intros Hnd%NoDup_ListNoDup Hx%list_elem_of_In. unfold count.
  by rewrite (proj1 (NoDup_count_occ' string_dec l) Hnd x Hx).
Qed.

(** Every combination comes from some generator. *)
Lemma outcomes_sound l i s h :
  0 < cntOfMaxScore s -> h ∈ outcomes l s ->
  exists draw, (forall j n, 0 < n -> 0 <= draw j n < n) /\
    selected (fold_left (select_step draw) l (i, s)).2 = h.
Proof.
  revert i s. induction l as [|ns l IH]; intros i s Hc; cbn [outcomes].
  { intros ->%list_elem_of_singleton. exists (fun _ _ => 0). split; [lia|done]. }
  assert (forall d, 0 < cntOfMaxScore (step_with d s ns)) as Hc'.
  { intros d. unfold step_with. simpl. destruct (_ <? _); [done|]. destruct (_ =? _); simpl; lia. }
  (* a generator for the rest, with [d] in front *)
  assert (forall d, 0 <= d < cntOfMaxScore s + 1 -> h ∈ outcomes l (step_with d s ns) ->
    exists draw, (forall j n, 0 < n -> 0 <= draw j n < n) /\
      selected (fold_left (select_step draw) (ns :: l) (i, s)).2 = h) as Hgo.
  { intros d Hd (draw & Hdraw & Heq)%(IH (S i) _ (Hc' d)).
    exists (fun j n => if (j =? i)%nat then if (d <? n) then d else 0 else draw j n). split.
    { intros j n Hn. destruct (j =? i)%nat; [|by apply Hdraw]. destruct (Z.ltb_spec d n); lia. }
    rewrite <- Heq. cbn [fold_left]. f_equal.
    assert (select_step (fun j n => if (j =? i)%nat then if d <? n then d else 0 else draw j n) (i, s) ns =
      (S i, step_with d s ns)) as ->.
    { unfold step_with, select_step. simpl. rewrite Nat.eqb_refl, (proj2 (Z.ltb_lt d _)) by lia. done. }
    assert (forall k st, (i < k)%nat ->
      fold_left (select_step (fun j n => if (j =? i)%nat then if d <? n then d else 0 else draw j n)) l (k, st) =
      fold_left (select_step draw) l (k, st)) as Hext; [|by rewrite Hext by lia].
    clear. induction l as [|a l IHl]; intros k st Hk; [done|]. cbn [fold_left].
    assert (select_step (fun j n => if (j =? i)%nat then if d <? n then d else 0 else draw j n) (k, st) a =
      select_step draw (k, st) a) as ->.
    { unfold select_step. by rewrite (proj2 (Nat.eqb_neq k i)) by lia. }
    unfold select_step at 2 4. apply IHl. lia. }
  destruct (_ =? _).
  - intros (L & (d & <- & Hd%list_elem_of_In%elem_of_seqZ)%in_map_iff & HL)%list_elem_of_In%in_concat.
    apply (Hgo d); [lia|]. by apply list_elem_of_In.
  - intros H. apply (Hgo 0); [lia|done].
Qed.

(** All the hosts that [selectHost] can return, one entry for each
    combination of its random numbers. *)
Definition host_outcomes (l : list NodeScore) : list string :=
  match l with
  | [] => []
  | ns :: l => outcomes l (mkSelection (ns_Score ns) (ns_Name ns) 1)
  end.

(** A node that no other node beats. *)
Definition is_best (l : list NodeScore) (ns : NodeScore) : bool :=
  forallb (fun x => ns_Score x <=? ns_Score ns) l.

Lemma is_best_spec l ns : is_best l ns = true <-> forall x, x ∈ l -> ns_Score x <= ns_Score ns.
Proof.
  unfold is_best. rewrite forallb_forall. split; intros H x Hx.
  - apply list_elem_of_In in Hx. by apply Z.leb_le, H.
  - apply Z.leb_le, H. by apply list_elem_of_In.
Qed.

Lemma bests_top ns0 l :
  let M := top l (ns_Score ns0) in
  List.filter (is_best (ns0 :: l)) (ns0 :: l) = List.filter (fun ns => ns_Score ns =? M) (ns0 :: l).
Proof.
  intros M. apply List.filter_ext_in. intros ns Hns%list_elem_of_In.
  assert (forall x, x ∈ ns0 :: l -> ns_Score x <= M) as Hmax.
  { intros x [-> |Hx]%elem_of_cons; [apply top_ge|by apply top_max]. }
  assert (exists x, x ∈ ns0 :: l /\ ns_Score x = M) as (m & Hm & HM).
  { destruct (top_in l (ns_Score ns0)) as [E|(x & Hx & E)]; [exists ns0|exists x]; (split; [|done]); by constructor. }
  specialize (Hmax ns Hns). apply eq_true_iff_eq. rewrite is_best_spec, Z.eqb_eq. split.
  - intros H. specialize (H m Hm). lia.
  - intros H x Hx. rewrite H. destruct (top_in l (ns_Score ns0)) as [E|_]; [|];
      (apply elem_of_cons in Hx as [-> |Hx]; [apply top_ge|by apply top_max]).
Qed.

(** [selectHost] draws uniformly from the nodes with the highest score:
    what it returns for any random generator is one of its outcomes, and every
    outcome is returned for some generator; over all the combinations of
    random numbers (a number below k is drawn when the highest score is met
    for the k-th time) each node with the highest score is selected equally
    often, [length outcomes / number of best nodes] times, and no other node
    is selected at all. *)
Theorem selectHost_uniform l :
  NoDup (map ns_Name l) ->
  (forall host, (exists draw, (forall j n, 0 < n -> 0 <= draw j n < n) /\ selectHost draw l = inl host)
     <-> host ∈ host_outcomes l) /\
  forall ns, ns ∈ l ->
    Z.of_nat (length (List.filter (is_best l) l)) * count (ns_Name ns) (host_outcomes l) =
    if is_best l ns then Z.of_nat (length (host_outcomes l)) else 0.
Proof.
  intros Hnd. destruct l as [|ns0 l].
  { split; [|by intros ? ?%elem_of_nil]. intros host. simpl. rewrite elem_of_nil. split; [|done]. by intros (d & _ & [=]). }
  cbn [host_outcomes]. split.
  - intros host. split.
    + intros (draw & Hd & [= <-]). by apply outcomes_draw.
    + intros (draw & Hd & <-)%(outcomes_sound l 0%nat); [|done]. by exists draw.
  - intros ns Hns. rewrite bests_top. set (s := mkSelection (ns_Score ns0) (ns_Name ns0) 1).
    pose proof (outcomes_uniform l s (ns_Name ns) eq_refl) as Hu.
    assert (contenders l s = Z.of_nat (length (best (ns0 :: l) (top l (ns_Score ns0))))) as Hcont.
    { unfold contenders. cbn [maxScore cntOfMaxScore s]. rewrite best_cons, (Z.eqb_sym _ (ns_Score ns0)).
      destruct (_ =? _); cbn [length]; lia. }
    assert (weight l s (ns_Name ns) = count (ns_Name ns) (best (ns0 :: l) (top l (ns_Score ns0)))) as Hw.
    { unfold weight. cbn [maxScore cntOfMaxScore selected s]. rewrite best_cons, (Z.eqb_sym _ (ns_Score ns0)).
      destruct (_ =? _); [rewrite count_cons|]; lia. }
    rewrite Hcont, Hw in Hu. unfold best in Hu at 1. rewrite length_map in Hu. rewrite Hu.
    assert (NoDup (best (ns0 :: l) (top l (ns_Score ns0)))) as Hndb.
    { by apply NoDup_map_filter. }
    assert (is_best (ns0 :: l) ns = true <-> ns_Name ns ∈ best (ns0 :: l) (top l (ns_Score ns0))) as Hin.
    { unfold best. rewrite <- bests_top, list_elem_of_In, in_map_iff. split.
      - intros Hb. exists ns. split; [done|]. apply filter_In. split; [by apply list_elem_of_In|done].
      - intros (ns' & En & (Hi & Hb)%filter_In). apply list_elem_of_In in Hi.
        by rewrite (NoDup_map_inj ns_Name (ns0 :: l) ns ns'). }
    destruct (is_best (ns0 :: l) ns) eqn:Eb.
    + rewrite count_NoDup; [lia|done|by apply Hin].
    + rewrite count_out; [lia|]. by intros ?%Hin.
Qed.

Definition sample_scores : list NodeScore :=
  [mkNodeScore "a" 5; mkNodeScore "b" 7; mkNodeScore "c" 7; mkNodeScore "d" 7].

Lemma selectHost_uniform_witness :
  3 * count "c" (host_outcomes sample_scores) = 6 /\ count "a" (host_outcomes sample_scores) = 0.
Proof.
  destruct (selectHost_uniform sample_scores) as [_ H].
  { apply (bool_decide_unpack _). vm_compute. exact I. }
  pose proof (H (mkNodeScore "a" 5) ltac:(set_solver)) as Ha.
  pose proof (H (mkNodeScore "c" 7) ltac:(set_solver)) as Hc.
  split; [exact Hc|]. vm_compute in Ha |- *. reflexivity.
Defined.
