(* ===== verification/FilterLoop.v ===== *)
(** * The parallel search for feasible nodes

    [findNodesThatPassFilters] visits the nodes from where the last cycle
    stopped, in parallel, until it has enough.  For every schedule of the
    pieces, and however many of them still run after the cancellation, the
    nodes it returns passed the filters, the nodes of the diagnosis did not,
    and a short answer means that every node was tried. *)

From S2P Require Import Prelude GoInt GoFloat GoStrconv Quantity ApiTypes Labels AffinityTerms Resource HostPorts NodeInfo Json Framework Snapshot NodeTree Cache SchedulingQueue Runtime GenericScheduler GenericProofs Samples.

Section filter_loop.
Context {arch : GoArch} {gates : FeatureGates} {mr : MapRange} {par : Parallel} {Ext : Type}.
Context (f : frameworkImpl Ext) (npm : nominator) (state : CycleState) (pod : Pod) (nodes : list NodeInfo).

(** The verdict of the filters on a node, with the nominated pods. *)
Definition verdict (ni : NodeInfo) (s : StatusPtr) : Prop :=
  exists w w', RunFilterPluginsWithNominatedPods f npm state pod ni w = Ret (s, w').

Definition feasible_node (nd : Node) : Prop :=
  exists ni s, ni ∈ nodes /\ ni_node ni = Some nd /\ verdict ni s /\ IsSuccess s = true.

Definition infeasible_node (name : string) (s : FStatus) : Prop :=
  exists ni nd, ni ∈ nodes /\ ni_node ni = Some nd /\ node_Name nd = name /\ verdict ni (Some s) /\
    code s <> Success /\ code s <> Error.

(** The node visited by piece [i]. *)
Context (start : nat).
Definition at_piece (i : nat) : option NodeInfo := nodes !! ((start + i) mod length nodes)%nat.

Lemma at_piece_in i ni : at_piece i = Some ni -> ni ∈ nodes.
Proof. apply list_elem_of_lookup_2. Qed.

(** The pieces visit every node once. *)
Lemma at_piece_onto k ni : nodes !! k = Some ni -> exists i, (i < length nodes)%nat /\ at_piece i = Some ni.
Proof.
  intros Hk. pose proof (lookup_lt_Some _ _ _ Hk) as Hlt. set (n := length nodes) in *.
  exists ((n + k - start mod n) mod n)%nat. split; [apply Nat.mod_upper_bound; lia|].
  unfold at_piece. fold n. rewrite Nat.Div0.add_mod_idemp_r, <- Nat.Div0.add_mod_idemp_l.
  pose proof (Nat.mod_upper_bound start n ltac:(lia)).
  replace (start mod n + (n + k - start mod n))%nat with (k + 1 * n)%nat by lia.
  by rewrite Nat.Div0.mod_add, Nat.mod_small.
Qed.

Lemma at_piece_inj i j :
  (i < length nodes)%nat -> (j < length nodes)%nat ->
  ((start + i) mod length nodes = (start + j) mod length nodes)%nat -> i = j.
Proof.
  set (n := length nodes). intros Hi Hj E.
  pose proof (Nat.div_mod_eq (start + i) n) as H1. pose proof (Nat.div_mod_eq (start + j) n) as H2.
  rewrite E in H1. set (a := ((start + i) / n)%nat) in *. set (b := ((start + j) / n)%nat) in *. clearbody a b.
  destruct (Nat.lt_trichotomy a b) as [H| [-> |H]]; [|lia|]; exfalso; nia.
Qed.

Context (num : Z) (m0 : gmap string FStatus).

Lemma AsError_error s : Status_Code s = Error -> exists e, AsError s = Some e.
Proof.
  intros E. unfold AsError, IsSuccess. rewrite E. simpl. destruct s as [s|]; [|done].
  destruct (st_err s); by eexists.
Qed.

(** What holds after the pieces of [done] ran. *)
Record loop_inv (done : list nat) (st : check_state) : Prop := {
  li_feasible : exists sel, NoDup sel /\ sel ⊆ done /\
    Forall2 (fun i nd => exists ni s, at_piece i = Some ni /\ ni_node ni = Some nd /\ verdict ni s /\
      IsSuccess s = true) sel (feasible st) /\
    (errCh st = None -> cancelled st = false -> forall i ni, i ∈ done -> at_piece i = Some ni ->
       i ∈ sel \/ exists nd, ni_node ni = Some nd /\ is_Some (NodeToStatusMap (cs_diagnosis st) !! node_Name nd));
  li_count : Z.of_nat (length (feasible st)) <= num;
  li_failed : forall name s, NodeToStatusMap (cs_diagnosis st) !! name = Some s ->
    m0 !! name = Some s \/ infeasible_node name s;
  li_kept : forall name, is_Some (m0 !! name) -> is_Some (NodeToStatusMap (cs_diagnosis st) !! name);
  li_enough : errCh st = None -> cancelled st = true -> Z.of_nat (length (feasible st)) = num;
  li_error : forall e, errCh st = Some e -> cancelled st = true /\
    exists ni s, ni ∈ nodes /\ verdict ni s /\ Status_Code s = Error /\ AsError s = Some e
}.

Lemma checkNode_inv done st i st' :
  i ∉ done -> loop_inv done st -> checkNode f npm state pod nodes start num st i = Ret st' ->
  loop_inv (i :: done) st'.
Proof.
  intros Hi [(sel & Hnd & Hsub & HF & Hall) Hc Hf Hk He Herr]. unfold checkNode.
  destruct (nodes !! _) as [ni|] eqn:Hat; [|done].
  destruct (RunFilterPluginsWithNominatedPods f npm state pod ni (cs_world st)) as [[s w]|] eqn:Hrun; [|done].
  assert (verdict ni s) as Hv by (by exists (cs_world st), w).
  assert (ni ∈ nodes) as Hin by (by apply (at_piece_in i)).
  cbn [obind]. destruct (bool_decide_reflect (Status_Code s = Error)) as [EE|EE].
  - intros [= <-]. split; cbn [feasible cs_diagnosis errCh cancelled]; try done.
    + exists sel. split_and!; [done|set_solver|done|done].
    + destruct (errCh st); [done|]. destruct (AsError_error s EE) as [e ->]. done.
    + intros e Hee. split; [done|]. destruct (errCh st) as [e'|] eqn:Eold.
      * injection Hee as ->. by destruct (Herr e eq_refl).
      * by exists ni, s.
  - destruct (ni_node ni) as [nd|] eqn:Hni; [|done]. destruct (IsSuccess s) eqn:Es.
    + destruct (Z.ltb_spec num (Z.of_nat (length (feasible st)) + 1)) as [Hlt|Hge]; intros [= <-];
        (split; cbn [feasible cs_diagnosis errCh cancelled]; try done).
      * exists sel. split_and!; [done|set_solver|done|done].
      * intros _ _. lia.
      * intros e Hee. by destruct (Herr e Hee).
      * exists (sel ++ [i]). split_and!.
        -- apply NoDup_app. split_and!; [done| |apply NoDup_singleton].
           intros x Hx ->%list_elem_of_singleton. by apply Hi, Hsub.
        -- intros x [Hx|Hx]%elem_of_app; [right; by apply Hsub|]. apply list_elem_of_singleton in Hx as ->. by left.
        -- apply Forall2_app; [done|]. constructor; [by exists ni, s|constructor].
        -- intros E1 E2 j nj [-> |Hj]%elem_of_cons Haj.
           { left. apply elem_of_app. right. by apply list_elem_of_singleton. }
           destruct (Hall E1 E2 j nj Hj Haj) as [H|H]; [left; apply elem_of_app; by left|by right].
      * rewrite length_app. simpl. lia.
      * intros E1 E2. specialize (He E1 E2). lia.
    + destruct s as [s|]; [|done]. intros [= <-].
      split; cbn [feasible cs_diagnosis errCh cancelled NodeToStatusMap]; try done.
      * exists sel. split_and!; [done|set_solver|done|].
        intros E1 E2 j nj [-> |Hj]%elem_of_cons Haj.
        { unfold at_piece in Haj. rewrite Hat in Haj. injection Haj as <-.
          right. exists nd. split; [done|]. rewrite lookup_insert_eq. by eexists. }
        destruct (Hall E1 E2 j nj Hj Haj) as [H|(d & Hd & H)]; [by left|right]. exists d. split; [done|].
        destruct (decide (node_Name d = node_Name nd)) as [->|Hne]; [rewrite lookup_insert_eq; by eexists|].
        by rewrite lookup_insert_ne.
      * intros name s'. destruct (decide (node_Name nd = name)) as [<-|Hne].
        -- rewrite lookup_insert_eq. intros [= <-]. right. exists ni, nd. split_and!; try done.
           intros Ec. unfold IsSuccess in Es. simpl in Es. rewrite Ec in Es. done.
        -- rewrite lookup_insert_ne by done. apply Hf.
      * intros name Hn. destruct (decide (node_Name nd = name)) as [<-|Hne];
          [rewrite lookup_insert_eq; by eexists|]. rewrite lookup_insert_ne by done. by apply Hk.
Qed.

Lemma run_until_inv l late done st st' :
  NoDup (l ++ done) -> loop_inv done st ->
  run_until (checkNode f npm state pod nodes start num) late l st = Ret st' ->
  exists done', loop_inv done' st' /\ done' ⊆ l ++ done /\ (cancelled st' = false -> l ++ done ⊆ done').
Proof.
  revert late done st. induction l as [|i l IH]; intros late done st Hnd Hinv; simpl.
  { intros [= <-]. by exists done. }
  assert (forall k, (let! st1 := checkNode f npm state pod nodes start num st i in
      run_until (checkNode f npm state pod nodes start num) k l st1) = Ret st' ->
    exists done', loop_inv done' st' /\ done' ⊆ i :: l ++ done /\ (cancelled st' = false -> i :: l ++ done ⊆ done')) as Hgo.
  { intros k. destruct (checkNode _ _ _ _ _ _ _ _ _) as [st1|] eqn:Hck; [|done]. cbn [obind]. intros Hrun.
    simpl in Hnd. apply NoDup_cons in Hnd as [Hi Hnd].
    destruct (IH k (i :: done) st1) as (done' & H1 & H2 & H3).
    - rewrite <- Permutation_middle. by apply NoDup_cons.
    - eapply checkNode_inv; [|done|done]. intros H. apply Hi. apply elem_of_app. by right.
    - done.
    - exists done'. split_and!; [done|set_solver|set_solver]. }
  destruct (cancelled st) eqn:Ec; [|apply Hgo]. destruct late as [|late]; [|apply Hgo].
  intros [= <-]. exists done. split_and!; [done|set_solver|]. rewrite Ec. done.
Qed.

Lemma checkNode_ret st i :
  (i < length nodes)%nat -> Forall (fun ni => is_Some (ni_node ni)) nodes ->
  (forall ni w, is_Some (ni_node ni) -> exists s w', RunFilterPluginsWithNominatedPods f npm state pod ni w = Ret (s, w')) ->
  exists st', checkNode f npm state pod nodes start num st i = Ret st'.
Proof.
  intros Hi Hnodes Hret. unfold checkNode.
  destruct (lookup_lt_is_Some_2 nodes ((start + i) mod length nodes)) as [ni Hni]; [apply Nat.mod_upper_bound; lia|].
  rewrite Hni. rewrite Forall_lookup in Hnodes. destruct (Hnodes _ _ Hni) as [nd Hnd].
  destruct (Hret ni (cs_world st)) as (s & w' & ->); [by eexists|]. rewrite Hnd. cbn [obind].
  destruct (bool_decide _); [by eexists|]. destruct (IsSuccess s) eqn:Es; [destruct (_ <? _); by eexists|].
  destruct s; [by eexists|done].
Qed.

Lemma run_until_ret l late st :
  Forall (fun i => (i < length nodes)%nat) l -> Forall (fun ni => is_Some (ni_node ni)) nodes ->
  (forall ni w, is_Some (ni_node ni) -> exists s w', RunFilterPluginsWithNominatedPods f npm state pod ni w = Ret (s, w')) ->
  exists st', run_until (checkNode f npm state pod nodes start num) late l st = Ret st'.
Proof.
  intros Hl Hnodes Hret. revert late st. induction Hl as [|i l Hi Hl IH]; intros late st; simpl; [by eexists|].
  destruct (checkNode_ret st i Hi Hnodes Hret) as [st1 ->]. cbn [obind].
  destruct (cancelled st); [destruct late; [by eexists|]|]; apply IH.
Qed.
End filter_loop.

(** ** The plugins return *)

Section running.
Context {arch : GoArch} {gates : FeatureGates} {mr : MapRange} {Ext : Type}.
Context (f : frameworkImpl Ext).

(** No filter plugin panics on a node that has an object. *)
Record filters_return : Prop := {
  fr_filter : Forall (fun pl => forall st p ni, is_Some (ni_node ni) -> exists s, fl_Filter pl st p ni = Ret s) (filterPlugins Ext f);
  fr_add : Forall (fun pl => forall e, pf_Extensions Ext pl = Some e ->
    forall st p pi ni, exists r, pfe_AddPod e st p pi ni = Ret r) (preFilterPlugins Ext f)
}.

Lemma run_filters_ret pls st p ni m :
  Forall (fun pl => forall st p ni, is_Some (ni_node ni) -> exists s, fl_Filter pl st p ni = Ret s) pls -> is_Some (ni_node ni) ->
  exists r, run_filters f pls m st p ni = Ret r.
Proof.
  intros H Hni. revert m. induction H as [|pl pls Hpl H IH]; intros m; simpl; [by eexists|].
  destruct (Hpl st p ni Hni) as [s ->]. cbn [obind]. destruct (IsSuccess s) eqn:Es; [apply IH|].
  destruct s as [s|]; [|done]. destruct (negb (IsUnschedulable _)); [by eexists|].
  destruct (negb _); [by eexists|apply IH].
Qed.

Lemma run_extension_ret verb pls st p pi ni :
  Forall (fun pl => forall e, pf_Extensions Ext pl = Some e ->
    forall st p pi ni, exists r, pfe_AddPod e st p pi ni = Ret r) pls ->
  exists r, run_extension verb pfe_AddPod pls st p pi ni = Ret r.
Proof.
  intros H. revert st. induction H as [|pl pls Hpl H IH]; intros st; simpl; [by eexists|].
  destruct (pf_Extensions Ext pl) as [e|]; [|apply IH].
  destruct (Hpl e eq_refl st p pi ni) as [[st' s] ->]. cbn [obind]. destruct (IsSuccess s); [apply IH|by eexists].
Qed.

Lemma add_nominated_ret pis p added st ni w :
  filters_return -> exists a s' ni' w' e, add_nominated f pis p added st ni w = Ret (a, s', ni', w', e) /\
    ni_node ni' = ni_node ni.
Proof.
  intros Hf. revert added st ni w. induction pis as [|pi pis IH]; intros added st ni w; simpl; [by do 5 eexists|].
  destruct (_ && _); [|apply IH]. assert (ni_node (AddPodInfo pi ni w).1 = ni_node ni) as Hni.
  { unfold AddPodInfo. destruct (calculateResource _) as [[? ?] ?]. by destruct (nextGeneration _). }
  destruct (AddPodInfo pi ni w) as [ni' w']. simpl in Hni.
  destruct (run_extension_ret "AddPod" (preFilterPlugins Ext f) st p pi ni' (fr_add Hf)) as [[st' s] Hr].
  unfold RunPreFilterExtensionAddPod. rewrite Hr. cbn [obind]. destruct (IsSuccess s); [|by do 5 eexists].
  rewrite <- Hni. apply IH.
Qed.

Lemma RunFilter_ret npm st p ni w :
  filters_return -> is_Some (ni_node ni) -> exists s w', RunFilterPluginsWithNominatedPods f npm st p ni w = Ret (s, w').
Proof.
  intros Hf Hni. unfold RunFilterPluginsWithNominatedPods.
  assert (exists a s' ni' w' e, addNominatedPods f npm p st ni w = Ret (a, s', ni', w', e) /\ is_Some (ni_node ni'))
    as (added & st' & ni' & w' & err & -> & Hni').
  { unfold addNominatedPods. destruct (ni_node ni) eqn:En; [|by destruct Hni]. destruct (NominatedPodsForNode _ _) as [|pi pis].
    { do 5 eexists. split; [done|]. by rewrite En. }
    destruct (add_nominated_ret (pi :: pis) p false (CS_Clone st) (Clone ni) w Hf) as (a & b & c & d & e & -> & E).
    cbn [obind]. unfold Clone in E. destruct e; do 5 eexists; (split; [done|]); rewrite ?E, En; done. }
  cbn [obind]. destruct err; [by do 2 eexists|]. unfold RunFilterPlugins.
  destruct (run_filters_ret (filterPlugins Ext f) st' p ni' ∅ (fr_filter Hf) Hni') as [r ->]. cbn [obind].
  destruct (_ && _); [by do 2 eexists|]. destruct (_ || _); [by do 2 eexists|].
  destruct (run_filters_ret (filterPlugins Ext f) st p ni ∅ (fr_filter Hf) Hni) as [r' ->]. by do 2 eexists.
Qed.

(** *** Success *)

(** Every filter admits the node, without the nominated pods. *)
Definition admits (state : CycleState) (p : Pod) (ni : NodeInfo) : Prop :=
  Forall (fun pl => exists s, fl_Filter pl state p ni = Ret s /\ IsSuccess s = true) (filterPlugins Ext f).

Definition some_failed (m : gmap string FStatus) : Prop := exists k s, m !! k = Some s /\ code s <> Success.

Lemma run_filters_failed pls m st p ni m' :
  run_filters f pls m st p ni = Ret m' -> some_failed m -> some_failed m'.
Proof.
  revert m. induction pls as [|pl pls IH]; intros m; simpl; [by intros [= <-]|].
  destruct (fl_Filter pl st p ni) as [s|]; [|done]. cbn [obind]. destruct (IsSuccess s) eqn:Es; [apply IH|].
  destruct s as [s|]; [|done].
  assert (code s <> Success) as Hs by (intros E; unfold IsSuccess in Es; simpl in Es; by rewrite E in Es).
  destruct (negb (IsUnschedulable _)).
  { intros [= <-] _. eexists _, _. rewrite lookup_singleton_eq. split; [done|]. done. }
  assert (some_failed (<[fl_Name pl := WithFailedPlugin s (fl_Name pl)]> m)) as Hm.
  { eexists _, _. rewrite lookup_insert_eq. split; [done|]. done. }
  destruct (negb _); [by intros [= <-]|]. intros H _. by eapply IH.
Qed.

Lemma run_filters_ok pls m st p ni m' :
  run_filters f pls m st p ni = Ret m' -> ~ some_failed m' ->
  Forall (fun pl => exists s, fl_Filter pl st p ni = Ret s /\ IsSuccess s = true) pls.
Proof.
  revert m. induction pls as [|pl pls IH]; intros m; [constructor|]. simpl.
  destruct (fl_Filter pl st p ni) as [s|] eqn:Ef; [|done]. cbn [obind]. destruct (IsSuccess s) eqn:Es.
  { intros Hr Hm. constructor; [by exists s|by eapply IH]. }
  destruct s as [s|]; [|done].
  assert (code s <> Success) as Hs by (intros E; unfold IsSuccess in Es; simpl in Es; by rewrite E in Es).
  intros Hr []. destruct (negb (IsUnschedulable _)).
  { injection Hr as <-. eexists _, _. rewrite lookup_singleton_eq. split; [done|]. done. }
  assert (some_failed (<[fl_Name pl := WithFailedPlugin s (fl_Name pl)]> m)) as Hm.
  { eexists _, _. rewrite lookup_insert_eq. split; [done|]. done. }
  destruct (negb _); [by injection Hr as <-|]. by eapply run_filters_failed.
Qed.

(** The merged status is a success only if no plugin failed. *)
Lemma merge_map_ok m : IsSuccess (merge_map m) = true -> ~ some_failed m.
Proof.
  unfold merge_map, Merge, IsSuccess. intros H (k & s & Hk & Hs).
  assert (s ∈ map snd (range 0 (map_to_list m))) as Hin.
  { apply list_elem_of_fmap. exists (k, s). split; [done|]. rewrite (range_perm 0). by apply elem_of_map_to_list. }
  destruct (map snd (range 0 (map_to_list m))) as [|s0 l]; [by apply elem_of_nil in Hin|].
  apply bool_decide_eq_true in H. cbn [Status_Code] in H.
  destruct (merge_precedence (s0 :: l) (NewStatus Success [])) as (_ & HF & _). rewrite Forall_forall in HF.
  specialize (HF s Hin). cbn beta in HF. rewrite H in HF. destruct (code s); simpl in HF; lia || done.
Qed.

Lemma add_nominated_none pis p st ni w a st' ni' w' :
  add_nominated f pis p false st ni w = Ret (a, st', ni', w', None) -> a = false -> st' = st /\ ni' = ni.
Proof.
  assert (forall pis st ni w a st' ni' w', add_nominated f pis p true st ni w = Ret (a, st', ni', w', None) -> a = true) as Htrue.
  { clear. induction pis as [|pi pis IH]; intros st ni w a st' ni' w'; simpl; [by intros [= <-]|].
    destruct (_ && _); [|apply IH]. destruct (AddPodInfo pi ni w) as [n1 w1].
    destruct (RunPreFilterExtensionAddPod f st p pi n1) as [[s1 s]|]; [|done]. cbn [obind].
    destruct (IsSuccess s) eqn:Es; [apply IH|]. intros [= _ _ _ _ He]. unfold AsError in He. rewrite Es in He.
    destruct s as [s|]; [|done]. by destruct (st_err s). }
  revert st ni w. induction pis as [|pi pis IH]; intros st ni w; simpl; [by intros [= <- <- <- <-]|].
  destruct (_ && _); [|apply IH]. destruct (AddPodInfo pi ni w) as [n1 w1].
  destruct (RunPreFilterExtensionAddPod f st p pi n1) as [[s1 s]|]; [|done]. cbn [obind].
  destruct (IsSuccess s) eqn:Es; [by intros ->%Htrue|]. intros [= _ _ _ _ He]. unfold AsError in He. rewrite Es in He.
  destruct s as [s|]; [|done]. by destruct (st_err s).
Qed.

(** A node that passes the filters with the nominated pods passes each of
    them without. *)
Lemma RunFilter_admits npm state p ni w s w' :
  RunFilterPluginsWithNominatedPods f npm state p ni w = Ret (s, w') -> IsSuccess s = true ->
  exists st, storage st = storage state /\ admits st p ni.
Proof.
  unfold RunFilterPluginsWithNominatedPods.
  destruct (addNominatedPods f npm p state ni w) as [[[[[added st'] ni'] w1] err]|] eqn:Hadd; [|done]. cbn [obind].
  destruct err as [e|]; [by intros [= <- <-]|].
  destruct (RunFilterPlugins f st' p ni') as [m|] eqn:Hrun; [|done]. cbn [obind].
  assert (forall st n m, RunFilterPlugins f st p n = Ret m -> IsSuccess (merge_map m) = true -> admits st p n) as Hok.
  { intros st n m0 Hr Hm. by eapply run_filters_ok, merge_map_ok. }
  destruct (IsSuccess (merge_map m)) eqn:Es; cbn [negb andb].
  2: { rewrite orb_true_r. destruct (negb _); intros [= <- <-]; by rewrite Es. }
  rewrite orb_false_r. destruct added; cbn [negb].
  - destruct (RunFilterPlugins f state p ni) as [m2|] eqn:Hrun2; [|done]. cbn [obind]. intros [= <- <-] Hm.
    exists state. split; [done|by eapply Hok].
  - intros [= <- <-] _. exists st'. unfold addNominatedPods in Hadd.
    destruct (ni_node ni) as [nd|]; [|injection Hadd as <- <- <-; split; [done|by eapply Hok]].
    destruct (NominatedPodsForNode npm (node_Name nd)) as [|pi pis];
      [injection Hadd as <- <- <-; split; [done|by eapply Hok]|].
    destruct (add_nominated f (pi :: pis) p false (CS_Clone state) (Clone ni) w) as [[[[[a s1] n1] w2] [e|]]|] eqn:Hn; try done.
    cbn [obind] in Hadd. injection Hadd as -> -> -> ->.
    destruct (add_nominated_none _ _ _ _ _ _ _ _ _ Hn eq_refl) as [-> ->].
    split; [apply CS_Clone_storage|]. by eapply Hok.
Qed.

End running.

(** ** The search *)

Section search.
Context {arch : GoArch} {gates : FeatureGates} {mr : MapRange} {par : Parallel} {Ext : Type}.
Context (f : frameworkImpl Ext).

Definition node_names (nodes : list NodeInfo) : list string :=
  omap (fun ni => node_Name <$> ni_node ni) nodes.

(** Nodes of distinct pieces have distinct names. *)
Lemma node_names_inj nodes i j a b x y :
  NoDup (node_names nodes) -> nodes !! i = Some a -> nodes !! j = Some b ->
  ni_node a = Some x -> ni_node b = Some y -> node_Name x = node_Name y -> i = j.
Proof.
  revert i j. induction nodes as [|c nodes IH]; intros i j Hnd; [done|].
  assert (forall k d z, nodes !! k = Some d -> ni_node d = Some z -> node_Name z ∈ node_names nodes) as Hin.
  { intros k d z Hk Hz. apply list_elem_of_omap. exists d. rewrite Hz. split; [by eapply list_elem_of_lookup_2|done]. }
  unfold node_names in Hnd. simpl in Hnd. destruct i as [|i], j as [|j]; simpl; intros Ha Hb Hx Hy E; try done.
  - injection Ha as ->. rewrite Hx in Hnd. apply NoDup_cons in Hnd as [Hn _]. destruct Hn. simpl. rewrite E. by eapply Hin.
  - injection Hb as ->. rewrite Hy in Hnd. apply NoDup_cons in Hnd as [Hn _]. destruct Hn. simpl. rewrite <- E. by eapply Hin.
  - f_equal. eapply IH; try done. unfold node_names. destruct (ni_node c); simpl in Hnd; [by apply NoDup_cons in Hnd as [_ ?]|done].
Qed.

(** What a search that found [found] may say. *)
Record search_result npm state pod nodes (num : Z) (d' : Diagnosis) (found : list Node) : Prop := {
  sr_feasible : Forall (feasible_node f npm state pod nodes) found;
  sr_nodup : NoDup (map node_Name found);
  sr_count : Z.of_nat (length found) <= num;
  (** a short answer is complete *)
  sr_complete : Z.of_nat (length found) < num -> forall ni nd, ni ∈ nodes -> ni_node ni = Some nd ->
    nd ∈ found \/ is_Some (NodeToStatusMap d' !! node_Name nd)
}.

(** What a search that returns has found, whatever the plugins do. *)
Lemma search_inv g npm state pod d nodes w g' d' w' res :
  HasFilterPlugins f = true -> nodes <> [] -> NoDup (node_names nodes) ->
  0 <= numFeasibleNodesToFind g (Z.of_nat (length nodes)) ->
  findNodesThatPassFilters f g npm state pod d nodes w = Ret (g', d', w', res) ->
    nodeInfoSnapshot g' = nodeInfoSnapshot g /\ percentageOfNodesToScore g' = percentageOfNodesToScore g /\
    (forall name s, NodeToStatusMap d' !! name = Some s ->
       NodeToStatusMap d !! name = Some s \/ infeasible_node f npm state pod nodes name s) /\
    match res with
    | inl found =>
        search_result npm state pod nodes (numFeasibleNodesToFind g (Z.of_nat (length nodes))) d' found /\
        nextStartNodeIndex g' =
          ((nextStartNodeIndex g + (length found + size (NodeToStatusMap d'))) mod length nodes)%nat
    | inr e => exists ni s, ni ∈ nodes /\ verdict f npm state pod ni s /\ Status_Code s = Error /\ AsError s = Some e
    end.
Proof.
  intros Hfp Hne Hnd Hnum. unfold findNodesThatPassFilters. rewrite Hfp. cbn [negb].
  set (num := numFeasibleNodesToFind _ _) in *. set (start := nextStartNodeIndex g).
  pose proof (par_order_perm (length nodes)) as Hperm.
  destruct (run_until _ _ _ _) as [st|] eqn:Hst; [|done].
  cbn [obind]. destruct nodes as [|n0 nodes0] eqn:En; [done|]. rewrite <- En in *.
  assert (length nodes =? 0 = false)%nat as -> by (subst nodes; done).
  intros [= <- <- <- <-]. cbn [cs_diagnosis nodeInfoSnapshot percentageOfNodesToScore].
  destruct (run_until_inv f npm state pod nodes start num (NodeToStatusMap d) (par_order (length nodes))
    (par_late (length nodes)) [] (mkCheckState [] d None false w) st) as (seen & [Hf Hc Hfl _ Hen Herr] & Hsub & Hall); [..|done|].
  { rewrite app_nil_r, Hperm. apply NoDup_seq. }
  { split; simpl; try done; [|by left]. exists []. split_and!; [constructor|done|constructor|]. by intros _ _ i ni ?%elem_of_nil. }
  rewrite app_nil_r in Hsub, Hall. destruct Hf as (sel & Hsnd & Hss & HF & Hcomp).
  assert (forall i, i ∈ sel -> (i < length nodes)%nat) as Hselr.
  { intros i Hi. apply Hss, Hsub in Hi. rewrite Hperm in Hi. apply elem_of_seq in Hi. lia. }
  split_and!; [done|done|exact Hfl|].
  destruct (errCh st) as [e|] eqn:Ee; [by destruct (Herr e eq_refl) as [_ H]|]. cbn [nodeInfoSnapshot nextStartNodeIndex].
  split; [|done]. split; [| |done|].
  - apply Forall_forall. intros nd (i & Hi)%list_elem_of_lookup.
    destruct (Forall2_lookup_r _ _ _ _ _ HF Hi) as (k & _ & ni & s & Ha & Hn & Hv & Hs). exists ni, s.
    split_and!; try done. by eapply at_piece_in.
  - clear Hcomp Hen Hc. revert HF. generalize (feasible st). clear -Hselr Hsnd Hnd.
    induction sel as [|i sel IH]; intros L HF; inversion HF as [|? nd ? L' (ni & s & Ha & Hn & _) HF']; subst; [constructor|].
    apply NoDup_cons in Hsnd as [Hi Hsnd]. simpl. apply NoDup_cons. split; [|apply IH; set_solver].
    intros (nd' & En & (k & Hk)%list_elem_of_lookup)%list_elem_of_fmap.
    destruct (Forall2_lookup_r _ _ _ _ _ HF' Hk) as (j & Hj & nj & s' & Haj & Hnj & _).
    apply Hi. rewrite (at_piece_inj nodes start i j); [by eapply list_elem_of_lookup_2|apply Hselr; by left| |].
    + apply Hselr. right. by eapply list_elem_of_lookup_2.
    + by eapply (node_names_inj nodes).
  - intros Hlt ni nd (k & Hk)%list_elem_of_lookup Hn. destruct (cancelled st) eqn:Ec; [specialize (Hen eq_refl eq_refl); lia|].
    destruct (at_piece_onto nodes start k ni Hk) as (i & Hi & Ha).
    destruct (Hcomp eq_refl eq_refl i ni) as [H|(nd' & Hn' & H)]; [|done| |right; congruence].
    + apply Hall; [done|]. rewrite Hperm. apply elem_of_seq. lia.
    + left. apply list_elem_of_lookup in H as (p & Hp).
      destruct (Forall2_lookup_l _ _ _ _ _ HF Hp) as (x & Hx & ni' & s & Ha' & Hn' & _).
      rewrite Ha in Ha'. injection Ha' as <-. rewrite Hn in Hn'. injection Hn' as <-. by eapply list_elem_of_lookup_2.
Qed.

(** Filters that return let the search return. *)
Lemma search_spec g npm state pod d nodes w :
  HasFilterPlugins f = true -> filters_return f -> nodes <> [] ->
  Forall (fun ni => is_Some (ni_node ni)) nodes -> NoDup (node_names nodes) ->
  0 <= numFeasibleNodesToFind g (Z.of_nat (length nodes)) ->
  exists g' d' w' res, findNodesThatPassFilters f g npm state pod d nodes w = Ret (g', d', w', res) /\
    nodeInfoSnapshot g' = nodeInfoSnapshot g /\ percentageOfNodesToScore g' = percentageOfNodesToScore g /\
    (forall name s, NodeToStatusMap d' !! name = Some s ->
       NodeToStatusMap d !! name = Some s \/ infeasible_node f npm state pod nodes name s) /\
    match res with
    | inl found =>
        search_result npm state pod nodes (numFeasibleNodesToFind g (Z.of_nat (length nodes))) d' found /\
        nextStartNodeIndex g' =
          ((nextStartNodeIndex g + (length found + size (NodeToStatusMap d'))) mod length nodes)%nat
    | inr e => exists ni s, ni ∈ nodes /\ verdict f npm state pod ni s /\ Status_Code s = Error /\ AsError s = Some e
    end.
Proof.
  intros Hfp Hret Hne Hnodes Hnd Hnum.
  assert (exists r, findNodesThatPassFilters f g npm state pod d nodes w = Ret r) as [[[[g' d'] w'] res] Hr].
  { unfold findNodesThatPassFilters. rewrite Hfp. cbn [negb].
    destruct (run_until_ret f npm state pod nodes (nextStartNodeIndex g) (numFeasibleNodesToFind g (Z.of_nat (length nodes)))
      (par_order (length nodes)) (par_late (length nodes)) (mkCheckState [] d None false w)) as [st Hst];
      [|done|intros; by apply RunFilter_ret|].
    { apply Forall_forall. intros i Hi. rewrite (par_order_perm (length nodes)) in Hi. apply elem_of_seq in Hi. lia. }
    rewrite Hst. cbn [obind]. destruct (_ =? 0)%nat eqn:E0; [|by eexists]. apply Nat.eqb_eq, length_zero_iff_nil in E0. done. }
  exists g', d', w', res. split; [done|]. by eapply search_inv.
Qed.

(** The parallel search for feasible nodes, for every schedule of its
    pieces and however many of them still run after it is cancelled: it looks
    for at least 100 nodes (or all, in a smaller cluster) and at most all;
    the nodes it returns passed the filters, are distinct and no more than it
    looked for; if it returns fewer, every other node has a status in the
    diagnosis; every new status in the diagnosis is the verdict of the filters
    on a node that did not pass; and the next search starts after the nodes
    this one visited.  It fails only with the error that the filters reported
    for some node. *)
Theorem findNodes_correct g npm state pod d nodes w :
  HasFilterPlugins f = true -> filters_return f -> nodes <> [] ->
  Forall (fun ni => is_Some (ni_node ni)) nodes -> NoDup (node_names nodes) ->
  Z.of_nat (length nodes) * 100 <= MaxInt32 ->
  let n := Z.of_nat (length nodes) in
  let num := numFeasibleNodesToFind g n in
  Z.min n 100 <= num <= n /\
  exists g' d' w' res, findNodesThatPassFilters f g npm state pod d nodes w = Ret (g', d', w', res) /\
    (forall name s, NodeToStatusMap d' !! name = Some s ->
       NodeToStatusMap d !! name = Some s \/ infeasible_node f npm state pod nodes name s) /\
    match res with
    | inl found =>
        Forall (feasible_node f npm state pod nodes) found /\ NoDup (map node_Name found) /\
        Z.of_nat (length found) <= num /\
        (Z.of_nat (length found) < num -> forall ni nd, ni ∈ nodes -> ni_node ni = Some nd ->
           nd ∈ found \/ is_Some (NodeToStatusMap d' !! node_Name nd)) /\
        nextStartNodeIndex g' =
          ((nextStartNodeIndex g + (length found + size (NodeToStatusMap d'))) mod length nodes)%nat
    | inr e => exists ni s, ni ∈ nodes /\ verdict f npm state pod ni s /\ Status_Code s = Error /\ AsError s = Some e
    end.
Proof.
  intros Hfp Hret Hne Hnodes Hnd Hn n num. pose proof (numFeasible_range g n ltac:(lia) Hn) as Hnum. split; [exact Hnum|].
  destruct (search_spec g npm state pod d nodes w) as (g' & d' & w' & res & H1 & _ & _ & H2 & H3); try done.
  { fold n. unfold minFeasibleNodesToFind in Hnum. lia. }
  exists g', d', w', res. split_and!; [done|done|]. destruct res as [found|e]; [|done].
  destruct H3 as [[] ?]. by split_and!.
Qed.

(** Evaluating the nominated node first restarts the rotation over the
    nodes: the index where the next search starts is taken modulo the length
    of the list searched, which is one, so that it becomes zero wherever the
    last search stopped. *)
Theorem nominated_node_resets_rotation g extenders npm state pod d w ni g' d' w' res :
  SN_Get (nodeInfoSnapshot g) (NominatedNodeName (Status pod)) = inl ni ->
  evaluateNominatedNode f g extenders npm state pod d w = Ret (g', d', w', res) ->
  nextStartNodeIndex g' = 0%nat.
Proof.
  intros Hget. unfold evaluateNominatedNode, filter_and_extend. rewrite Hget.
  destruct (findNodesThatPassFilters f g npm state pod d [ni] w) as [[[[g1 d1] w1] res1]|] eqn:Hfind; [|done].
  cbn [obind]. assert (nextStartNodeIndex g1 = 0%nat) as H1.
  { unfold findNodesThatPassFilters in Hfind. cbn [length Nat.eqb] in Hfind. destruct (negb _).
    - injection Hfind as <- <- <- <-. reflexivity.
    - destruct (run_until _ _ _ _); [|done]. cbn [obind] in Hfind. injection Hfind as <- <- <- <-. reflexivity. }
  destruct res1 as [found|e]; [|by intros [= <- _ _ _]].
  destruct (findNodesThatPassExtenders _ _ _ _). by intros [= <- _ _ _].
Qed.
End search.
