(* ===== verification/ScoreProofs.v ===== *)
(** * Scores of the framework

    What [RunScorePlugins] returns, on success and on failure, and that the
    check [NewFramework] makes on the weights keeps the total of the weighted
    scores from overflowing. *)

From S2P Require Import Prelude GoInt GoFloat GoStrconv Quantity ApiTypes Labels AffinityTerms Resource HostPorts NodeInfo Json Framework Snapshot NodeTree Cache SchedulingQueue Runtime GenericScheduler GenericProofs Samples.

Open Scope go_scope.

(** ** Weights *)

(** The weight an entry of the configuration stands for. *)
Definition entry_weight (e : string * Z) : Z := if e.2 =? 0 then 1 else e.2.

(** Entries as a configuration has them: named once, weights of type int32
    that are not negative. *)
Definition good_entries (enabled : list (string * Z)) : Prop :=
  NoDup enabled.*1 /\ Forall (fun e => 0 <= e.2 <= MaxInt32) enabled.

Lemma weights_fold enabled m total m' total' :
  good_entries enabled -> 0 <= total <= MaxTotalScore ->
  (forall e, e ∈ enabled -> m !! e.1 = None) ->
  fold_left weight_step enabled (Some (m, total)) = Some (m', total') ->
  total' = total + 100 * Zsum (map entry_weight enabled) /\ total' <= MaxTotalScore /\
  (forall e, e ∈ enabled -> m' !! e.1 = Some (entry_weight e)) /\
  (forall k, k ∉ enabled.*1 -> m' !! k = m !! k).
Proof.
  revert m total. induction enabled as [|e l IH]; intros m total [Hnd Hw] Ht Hm; simpl.
  { intros [= <- <-]. unfold Zsum. simpl. split_and!; [lia|lia|by intros ? ?%elem_of_nil|done]. }
  apply Forall_cons in Hw as [He Hw]. simpl in Hnd. apply NoDup_cons in Hnd as [Hn Hnd].
  fold (entry_weight e).
  assert (1 <= entry_weight e <= MaxInt32) as Hew.
  { unfold entry_weight. destruct (Z.eqb_spec e.2 0); [int_unfold; lia|lia]. }
  unfold MaxNodeScore, MaxTotalScore in *.
  rewrite mul64_exact by (int_unfold; lia). rewrite sub64_exact by (int_unfold; lia).
  destruct (Z.ltb_spec (MaxInt64 - total) (entry_weight e * 100)) as [Hlt|Hge].
  { intros H. exfalso. clear -H. induction l as [|e' l IHl]; simpl in H; [done|by apply IHl]. }
  rewrite add64_exact by (int_unfold; lia). intros H.
  apply IH in H as (E & Hle & Hin & Hout); [|done|lia|].
  - split_and!.
    + rewrite E. unfold Zsum. simpl. lia.
    + done.
    + intros x [-> |Hx]%elem_of_cons; [|by apply Hin]. rewrite Hout by done. apply lookup_insert_eq.
    + intros k Hk. apply not_elem_of_cons in Hk as [Hk1 Hk2]. rewrite Hout by done. by apply lookup_insert_ne.
  - intros x Hx. rewrite lookup_insert_ne; [apply Hm; by right|]. intros E. apply Hn. rewrite E. by apply list_elem_of_fmap_2.
Qed.

(** The sum of some of the weights is bounded by that of all. *)
Lemma Zsum_submultiset (h : string -> Z) (names all : list string) :
  NoDup names -> names ⊆ all -> Forall (fun x => 0 <= h x) all -> Zsum (map h names) <= Zsum (map h all).
Proof.
  revert all. induction names as [|x names IH]; intros all Hnd Hsub Hpos; simpl.
  { unfold Zsum at 1. simpl. clear -Hpos. induction Hpos; unfold Zsum in *; simpl; lia. }
  apply NoDup_cons in Hnd as [Hx Hnd].
  destruct (list_elem_of_split all x) as (l1 & l2 & ->); [apply Hsub; by left|].
  assert (Zsum (map h (l1 ++ x :: l2)) = h x + Zsum (map h (l1 ++ l2))) as ->.
  { unfold Zsum. rewrite !map_app, !foldr_app. simpl.
    assert (forall L a, foldr Z.add a L = foldr Z.add 0 L + a) as Hf.
    { induction L as [|y L IHL]; intros a; simpl; [lia|]. rewrite IHL. lia. }
    rewrite (Hf _ (h x + _)), (Hf (map h l1) (foldr Z.add 0 (map h l2))). lia. }
  unfold Zsum at 1. simpl. fold (Zsum (map h names)).
  enough (Zsum (map h names) <= Zsum (map h (l1 ++ l2))) by lia. apply IH; [done| |].
  - intros y Hy. assert (y ∈ l1 ++ x :: l2) as H by (apply Hsub; by right).
    assert (y <> x) by (intros ->; done). set_solver.
  - rewrite Forall_app in Hpos |- *. destruct Hpos as [? ?%Forall_cons]. naive_solver.
Qed.

Lemma configured_total enabled m pls :
  good_entries enabled -> configure_weights enabled = inl m ->
  NoDup (map sc_Name pls) -> weights_configured pls m = true ->
  100 * Zsum (map (fun pl => default 0 (m !! sc_Name pl)) pls) <= MaxTotalScore /\
  Forall (fun pl => 1 <= default 0 (m !! sc_Name pl) <= MaxInt32) pls.
Proof.
  intros Hgood Hconf Hnd Hset. unfold configure_weights in Hconf.
  destruct (fold_left _ _ _) as [[m' total]|] eqn:Hfold; [|done]. injection Hconf as ->.
  destruct (weights_fold enabled ∅ 0 m total Hgood) as (E & Hle & Hin & Hout); [int_unfold; unfold MaxTotalScore; int_unfold; lia|done|done|].
  assert (forall pl, pl ∈ pls -> sc_Name pl ∈ enabled.*1) as Hnames.
  { intros pl Hpl. destruct (decide (sc_Name pl ∈ enabled.*1)) as [H|H]; [done|]. exfalso.
    unfold weights_configured in Hset. rewrite forallb_forall in Hset. apply list_elem_of_In in Hpl.
    specialize (Hset pl Hpl). by rewrite Hout in Hset. }
  set (h := fun x => default 0 (m !! x)).
  assert (forall e, e ∈ enabled -> h e.1 = entry_weight e) as Hh.
  { intros e He. unfold h. by rewrite (Hin e He). }
  destruct Hgood as [Hnde Hw]. rewrite Forall_forall in Hw.
  assert (forall e, e ∈ enabled -> 1 <= entry_weight e <= MaxInt32) as Hew.
  { intros e He. specialize (Hw e He). unfold entry_weight. destruct (Z.eqb_spec e.2 0); [int_unfold; lia|lia]. }
  split.
  - change (map (fun pl => default 0 (m !! sc_Name pl)) pls) with (map (fun pl => h (sc_Name pl)) pls).
    rewrite <- (map_map sc_Name h). assert (map entry_weight enabled = map h enabled.*1) as Hmap.
    { change (enabled.*1) with (map fst enabled). rewrite map_map. apply map_ext_in. intros e He%list_elem_of_In. by rewrite Hh. }
    rewrite Hmap in E. enough (Zsum (map h (map sc_Name pls)) <= Zsum (map h enabled.*1)) by lia.
    apply Zsum_submultiset; [done| |].
    + intros x (pl & -> & Hpl)%list_elem_of_fmap. by apply Hnames.
    + apply Forall_forall. intros x (e & -> & He)%list_elem_of_fmap. rewrite Hh by done. specialize (Hew e He). lia.
  - apply Forall_forall. intros pl Hpl. apply Hnames in Hpl as (e & Ee & He)%list_elem_of_fmap.
    change (default 0 (m !! sc_Name pl)) with (h (sc_Name pl)). rewrite Ee, Hh by done. by apply Hew.
Qed.

(** ** Parallel pieces *)

Lemma pieces_run {A R} (piece : A -> outcome R) l acc rs :
  ofold (fun acc x => let! r := piece x in Ret (acc ++ [r])) l acc = Ret rs ->
  exists rs', rs = acc ++ rs' /\ Forall2 (fun x r => piece x = Ret r) l rs'.
Proof.
  revert acc. induction l as [|x l IH]; intros acc; simpl.
  { intros [= <-]. exists []. by rewrite app_nil_r. }
  destruct (piece x) as [r|] eqn:Hx; [|done]. cbn [obind].
  intros (rs' & -> & HF)%IH. exists (r :: rs'). rewrite <- app_assoc. split; [done|]. by constructor.
Qed.

Lemma pieces_return {A R} (piece : A -> outcome R) l acc :
  (forall x, x ∈ l -> exists r, piece x = Ret r) ->
  exists rs, ofold (fun acc x => let! r := piece x in Ret (acc ++ [r])) l acc = Ret rs.
Proof.
  revert acc. induction l as [|x l IH]; intros acc H; simpl; [by eexists|].
  destruct (H x) as [r ->]; [by left|]. cbn [obind]. apply IH. intros y Hy. apply H. by right.
Qed.

Section parallel.
Context {mr : MapRange}.

(** A parallel loop succeeds when every piece does, and otherwise reports the
    error of one of them. *)
Lemma parallel_ok {A B} k (piece : A -> outcome (B + string)) l bs :
  parallel k piece l = Ret (inl bs) -> Forall2 (fun x b => piece x = Ret (inl b)) l bs.
Proof.
  unfold parallel. destruct (ofold _ l []) as [rs|] eqn:Hrun; [|done]. cbn [obind].
  apply pieces_run in Hrun as (rs' & -> & HF). rewrite app_nil_l.
  set (errs := omap _ rs'). destruct (range k errs) as [|e es] eqn:Hr; [|done].
  assert (errs = []) as He. { apply Permutation_nil. rewrite <- Hr. apply range_perm. }
  intros [= <-]. unfold errs in He. clear -HF He.
  induction HF as [|x r l rs Hx HF IH]; simpl in *; [constructor|].
  destruct r as [b|e]; simpl in *; [|done]. constructor; [done|by apply IH].
Qed.

Lemma parallel_err {A B} k (piece : A -> outcome (B + string)) l e :
  parallel k piece l = Ret (inr e) -> exists x, x ∈ l /\ piece x = Ret (inr e).
Proof.
  unfold parallel. destruct (ofold _ l []) as [rs|] eqn:Hrun; [|done]. cbn [obind].
  apply pieces_run in Hrun as (rs' & -> & HF). rewrite app_nil_l.
  set (errs := omap _ rs'). destruct (range k errs) as [|e' es] eqn:Hr; [done|]. intros [= ->].
  assert (e ∈ errs) as (r & Hrs & He)%list_elem_of_omap.
  { rewrite <- (range_perm k _ errs), Hr. by left. }
  apply list_elem_of_lookup in Hrs as (i & Hi).
  destruct (Forall2_lookup_r _ _ _ _ _ HF Hi) as (x & Hx & Hp). exists x. split; [by eapply list_elem_of_lookup_2|].
  destruct r; simplify_eq/=. done.
Qed.

Lemma parallel_ret {A B} k (piece : A -> outcome (B + string)) l :
  (forall x, x ∈ l -> exists r, piece x = Ret r) -> exists r, parallel k piece l = Ret r.
Proof. intros H. unfold parallel. destruct (pieces_return piece l [] H) as [rs ->]. by eexists. Qed.
End parallel.

(** ** [RunScorePlugins] *)

Section scores.
Context {mr : MapRange} {Ext : Type}.
Context (f : frameworkImpl Ext).

(** What plugin [pl] makes of the nodes: its scores, normalized. *)
Definition raw_scores (pl : ScorePlugin) (state : CycleState) (pod : Pod) (nodes : list Node)
    (raw : list NodeScore) : Prop :=
  exists zs, Forall2 (fun n z => exists s, sc_Score pl state pod (node_Name n) = Ret (z, s) /\ IsSuccess s = true) nodes zs /\
    let col := zip_with (fun n z => mkNodeScore (node_Name n) z) nodes zs in
    match sc_Normalize pl with
    | None => raw = col
    | Some norm => exists s, norm state pod col = Ret (raw, s) /\ IsSuccess s = true
    end.

Lemma score_node_ok pls state pod name row :
  score_node pls state pod name = Ret (inl row) ->
  Forall2 (fun pl z => exists s, sc_Score pl state pod name = Ret (z, s) /\ IsSuccess s = true) pls row.
Proof.
  revert row. induction pls as [|pl pls IH]; intros row; simpl; [intros [= <-]; constructor|].
  destruct (sc_Score pl state pod name) as [[z s]|] eqn:Hs; [|done]. cbn [obind].
  destruct (IsSuccess s) eqn:Es; [|done]. cbn [negb].
  destruct (score_node pls state pod name) as [[l|e]|]; [|done|done]. cbn [obind].
  intros [= <-]. constructor; [by exists s|by apply IH].
Qed.

Lemma column_zip (nodes : list Node) (rows : list (list Z)) j zs :
  Forall2 (fun row z => row !! j = Some z) rows zs ->
  column nodes rows j = zip_with (fun n z => mkNodeScore (node_Name n) z) nodes zs.
Proof.
  intros H. unfold column. revert nodes. induction H as [|row z rows zs Hz H IH]; intros [|n nodes]; simpl; try done.
  by rewrite Hz, IH.
Qed.

Lemma columns_ok pls state pod nodes rows j pl :
  Forall2 (fun n row => score_node pls state pod (node_Name n) = Ret (inl row)) nodes rows ->
  pls !! j = Some pl ->
  exists zs, Forall2 (fun row z => row !! j = Some z) rows zs /\
    Forall2 (fun n z => exists s, sc_Score pl state pod (node_Name n) = Ret (z, s) /\ IsSuccess s = true) nodes zs.
Proof.
  intros H Hj. induction H as [|n row nodes rows Hn H (zs & IH1 & IH2)]; [by exists []|].
  apply score_node_ok in Hn. destruct (Forall2_lookup_l _ _ _ _ _ Hn Hj) as (z & Hz & s & Hs & Es).
  exists (z :: zs). split; constructor; eauto.
Qed.

(** The weight of a plugin. *)
Definition weight_of (pl : ScorePlugin) : Z := default 0 (scorePluginWeight Ext f !! sc_Name pl).

Definition weighted (pl : ScorePlugin) (raw : list NodeScore) : list NodeScore :=
  map (fun ns => mkNodeScore (ns_Name ns) (ns_Score ns *₆₄ weight_of pl)) raw.

Lemma apply_weight_ok e l :
  apply_weight f e = Ret (inl l) -> l = weighted e.1 e.2 /\ Forall (fun ns => 0 <= ns_Score ns <= 100) e.2.
Proof.
  unfold apply_weight. destruct (List.find _ e.2) as [ns|] eqn:Hfind; [done|]. intros [= <-]. split; [done|].
  apply Forall_forall. intros ns Hns%list_elem_of_In. pose proof (List.find_none _ _ Hfind ns Hns) as H.
  cbn beta in H. unfold legal_score, MinNodeScore, MaxNodeScore in H. destruct (Z.leb_spec 0 (ns_Score ns)), (Z.leb_spec (ns_Score ns) 100); try done.
Qed.

(** Success: every plugin scored every node, the scores are legal, and the
    lists are the weighted scores in the order of the plugins. *)
Lemma RunScorePlugins_ok state pod nodes lists :
  RunScorePlugins f state pod nodes = Ret (inl lists) ->
  exists raws, Forall2 (fun pl raw => raw_scores pl state pod nodes raw) (scorePlugins Ext f) raws /\
    Forall (Forall (fun ns => 0 <= ns_Score ns <= 100)) raws /\
    lists = zip_with weighted (scorePlugins Ext f) raws.
Proof.
  unfold RunScorePlugins. set (pls := scorePlugins Ext f).
  destruct (parallel 0 _ nodes) as [[rows|e]|] eqn:H0; [|done|done]. cbn [obind].
  destruct (parallel 1 _ _) as [[raws|e]|] eqn:H1; [|done|done]. cbn [obind].
  destruct (parallel 2 _ _) as [[ws|e]|] eqn:H2; [|done|done]. cbn [obind]. intros [= <-].
  apply parallel_ok in H0, H1, H2. exists raws.
  assert (length raws = length pls) as Hlen.
  { apply Forall2_length in H1. rewrite length_zip, length_map, length_seq in H1. lia. }
  split_and!.
  - apply Forall2_same_length_lookup. split; [done|]. intros j pl raw Hpl Hraw.
    destruct (columns_ok pls state pod nodes rows j pl H0 Hpl) as (zs & Hz & Hs). exists zs. split; [done|].
    assert (zip pls (map (column nodes rows) (seq 0 (length pls))) !! j = Some (pl, column nodes rows j)) as Hzip.
    { apply lookup_zip_Some. split; [done|]. rewrite list_lookup_fmap, lookup_seq_lt; [done|]. by eapply lookup_lt_Some. }
    pose proof (Forall2_lookup_lr _ _ _ _ _ _ H1 Hzip Hraw) as Hn. unfold normalize in Hn. cbn [fst snd] in Hn.
    rewrite (column_zip nodes rows j zs Hz) in Hn. cbn zeta.
    destruct (sc_Normalize pl) as [norm|]; [|by injection Hn as ->].
    destruct (norm state pod _) as [[l s]|]; [|done]. cbn [obind] in Hn. exists s.
    destruct (IsSuccess s); [|done]. by injection Hn as ->.
  - apply Forall_lookup. intros j raw Hraw.
    destruct (lookup_lt_is_Some_2 pls j) as [pl Hpl]; [rewrite <- Hlen; by eapply lookup_lt_Some|].
    assert (zip pls raws !! j = Some (pl, raw)) as Hzip by (by apply lookup_zip_Some).
    destruct (Forall2_lookup_l _ _ _ _ _ H2 Hzip) as (l & _ & Hw). by apply apply_weight_ok in Hw as [_ ?].
  - assert (forall (ps : list ScorePlugin) (rs : list (list NodeScore)) (ls : list (list NodeScore)),
      Forall2 (fun x b => apply_weight f x = Ret (inl b)) (zip ps rs) ls -> ls = zip_with weighted ps rs) as Hgo; [|by apply Hgo].
    clear. induction ps as [|p ps IH]; intros [|r rs] ls HF; inversion HF as [|? ? ? ? Hw HF']; subst; try done.
    simpl. apply apply_weight_ok in Hw as [-> _]. f_equal. by apply IH.
Qed.

(** ** The total *)

(** The score of the node at position [i], over the integers. *)
Definition node_total (raws : list (list NodeScore)) (i : nat) : Z :=
  Zsum (zip_with (fun pl raw => default 0 (ns_Score <$> raw !! i) * weight_of pl) (scorePlugins Ext f) raws).

Lemma total_fold pls raws i acc :
  Forall (fun pl => 1 <= weight_of pl <= MaxInt32) pls ->
  Forall (Forall (fun ns => 0 <= ns_Score ns <= 100)) raws ->
  0 <= acc -> acc + 100 * Zsum (map weight_of pls) <= MaxInt64 ->
  let exact := acc + Zsum (zip_with (fun pl raw => default 0 (ns_Score <$> raw !! i) * weight_of pl) pls raws) in
  fold_left (fun acc l => acc +₆₄ default 0 (ns_Score <$> l !! i)) (zip_with weighted pls raws) acc = exact /\
  acc <= exact <= acc + 100 * Zsum (map weight_of pls).
Proof.
  intros Hw Hl. revert acc raws Hl. induction Hw as [|pl pls Hpl Hw IH]; intros acc raws Hl H0 Hmax; simpl.
  { unfold Zsum. simpl. lia. }
  assert (0 <= Zsum (map weight_of pls)) as Hpos.
  { clear -Hw. induction Hw; unfold Zsum in *; simpl in *; lia. }
  unfold Zsum in Hmax at 1. simpl in Hmax. fold (Zsum (map weight_of pls)) in Hmax.
  destruct raws as [|raw raws]; simpl; [unfold Zsum; simpl; fold (Zsum (map weight_of pls)); lia|].
  apply Forall_cons in Hl as [Hraw Hl]. set (z := default 0 (ns_Score <$> raw !! i)).
  assert (0 <= z <= 100) as Hz.
  { unfold z. destruct (raw !! i) as [ns|] eqn:E; simpl; [|lia]. rewrite Forall_lookup in Hraw. by eapply (Hraw i). }
  assert (default 0 (ns_Score <$> weighted pl raw !! i) = z * weight_of pl) as ->.
  { unfold weighted, z. rewrite list_lookup_fmap. destruct (raw !! i) as [ns|]; simpl; [|lia].
    rewrite mul64_exact; [done|]. unfold z in Hz. simpl in Hz. int_unfold. nia. }
  rewrite add64_exact by (int_unfold; nia).
  destruct (IH (acc + z * weight_of pl) raws Hl ltac:(nia) ltac:(nia)) as [-> HB].
  unfold Zsum. simpl. fold (Zsum (map weight_of pls)).
  fold (Zsum (zip_with (fun pl0 raw0 => default 0 (ns_Score <$> raw0 !! i) * weight_of pl0) pls raws)).
  nia.
Qed.

Definition configured (enabled : list (string * Z)) : Prop :=
  good_entries enabled /\ configure_weights enabled = inl (scorePluginWeight Ext f) /\
  NoDup (map sc_Name (scorePlugins Ext f)) /\
  weights_configured (scorePlugins Ext f) (scorePluginWeight Ext f) = true.

Lemma total_of_raws raws i :
  100 * Zsum (map weight_of (scorePlugins Ext f)) <= MaxTotalScore ->
  Forall (fun pl => 1 <= weight_of pl <= MaxInt32) (scorePlugins Ext f) ->
  Forall (Forall (fun ns => 0 <= ns_Score ns <= 100)) raws ->
  forall lists, lists = zip_with weighted (scorePlugins Ext f) raws ->
  total_score lists i = node_total raws i /\ 0 <= node_total raws i <= MaxTotalScore.
Proof.
  intros Hmax Hw Hlegal lists ->.
  destruct (total_fold (scorePlugins Ext f) raws i 0 Hw Hlegal) as [E HB]; [lia|unfold MaxTotalScore in *; lia|].
  unfold total_score, node_total. rewrite E, Z.add_0_l. rewrite Z.add_0_l in HB. split; [done|].
  unfold MaxTotalScore in *. lia.
Qed.

Lemma total_spec enabled state pod nodes lists :
  configured enabled -> RunScorePlugins f state pod nodes = Ret (inl lists) ->
  exists raws, Forall2 (fun pl raw => raw_scores pl state pod nodes raw) (scorePlugins Ext f) raws /\
    forall i, total_score lists i = node_total raws i.
Proof.
  intros (Hgood & Hconf & Hnd & Hset) (raws & HF & Hlegal & E)%RunScorePlugins_ok. exists raws. split; [done|].
  destruct (configured_total enabled _ _ Hgood Hconf Hnd Hset) as [Hmax Hw]. intros i.
  by apply total_of_raws.
Qed.

(** C31. The weights that a profile is accepted with keep the total score of a
    node from overflowing: whatever the plugins return, if [RunScorePlugins]
    succeeds then the total that the scheduler computes for each node in
    64-bit arithmetic is the exact weighted sum of the plugins' normalized
    scores, from 0 to the highest total score. *)
Theorem total_score_exact enabled state pod nodes lists :
  configured enabled -> RunScorePlugins f state pod nodes = Ret (inl lists) ->
  exists raws, Forall2 (fun pl raw => raw_scores pl state pod nodes raw) (scorePlugins Ext f) raws /\
    Forall (Forall (fun ns => 0 <= ns_Score ns <= 100)) raws /\
    forall i, total_score lists i = node_total raws i /\ 0 <= node_total raws i <= MaxTotalScore.
Proof.
  intros Hc Hr. pose proof Hr as (raws & HF & Hl & E)%RunScorePlugins_ok.
  exists raws. split_and!; [done|done|]. intros i. destruct Hc as (Hgood & Hconf & Hnd & Hset).
  destruct (configured_total enabled _ _ Hgood Hconf Hnd Hset) as [Hmax Hw].
  by apply (total_of_raws raws i Hmax Hw Hl lists).
Qed.
End scores.
