(* ===== verification/NodeResourcesScore.v ===== *)
(** * Scoring of nodes by their resources

    [framework/plugins/noderesources]: the scorer that the resource plugins
    share (resource_allocation.go) and its strategies (least_allocated.go,
    most_allocated.go, requested_to_capacity_ratio.go with
    plugins/helper/shape_score.go, balanced_allocation.go), the validation of
    their arguments (apis/config/validation/validation_pluginargs.go), and
    the constructor and the [Score] of the NodeResourcesFit plugin (fit.go).

    A strategy is a function of two maps from resources to amounts: what the
    pods of the node and the incoming pod request, and what the node has. *)

From S2P Require Import Prelude GoInt GoFloat GoFloatRound GoFloatBound GoStrconv Quantity ApiTypes Labels Resource HostPorts AffinityTerms NodeInfo Samples Framework Snapshot Runtime NodeResourcesFit NodePlugins.

Open Scope go_scope.

Abbreviation resourceToValueMap := (gmap string Z).
Abbreviation resourceToWeightMap := (gmap string Z).

(** [config.ResourceSpec], [config.UtilizationShapePoint] *)
Record ResourceSpec := mkResourceSpec { rsp_Name : string; rsp_Weight : Z }.
Record ShapePoint := mkShapePoint { sp_Utilization : Z; sp_Score : Z }.

Definition MaxCustomPriorityScore : Z := 10.

(** The keys of a map, in the order of the loop. *)
Definition range_keys {mr : MapRange} (loop : nat) (m : gmap string Z) : list string :=
  map fst (range loop (map_to_list m)).

(** ** The requests of a pod *)

Section request.
Context {arch : GoArch} {gates : FeatureGates}.

Definition calculatePodResourceRequest (pod : Pod) (resource : string) (enablePodOverhead : bool) : Z :=
  let podRequest := fold_left (fun r c => r +₆₄ GetNonzeroRequestForResource resource (c_requests c))
                      (Containers (Spec pod)) 0 in
  let podRequest := fold_left (fun r c =>
                        let value := GetNonzeroRequestForResource resource (c_requests c) in
                        if r <? value then value else r)
                      (InitContainers (Spec pod)) podRequest in
  match Overhead (Spec pod) with
  | Some overhead =>
      if enablePodOverhead then
        match overhead !! resource with
        | Some quantity => podRequest +₆₄ Value quantity
        | None => podRequest
        end
      else podRequest
  | None => podRequest
  end.

(** What the node has of a resource, and what is requested of it with the
    pod; a pair of zeros takes the resource out of the score. *)
Definition calculateResourceAllocatableRequest (nodeInfo : NodeInfo) (pod : Pod) (resource : string)
    (enablePodOverhead : bool) : Z * Z :=
  let podRequest := calculatePodResourceRequest pod resource enablePodOverhead in
  if (podRequest =? 0) && IsScalarResourceName resource then (0, 0)
  else if String.eqb resource ResourceCPU then
    (MilliCPU (Allocatable nodeInfo), MilliCPU (NonZeroRequested nodeInfo) +₆₄ podRequest)
  else if String.eqb resource ResourceMemory then
    (rMemory (Allocatable nodeInfo), rMemory (NonZeroRequested nodeInfo) +₆₄ podRequest)
  else if String.eqb resource ResourceEphemeralStorage then
    (EphemeralStorage (Allocatable nodeInfo), EphemeralStorage (Requested nodeInfo) +₆₄ podRequest)
  else
    match ScalarResources (Allocatable nodeInfo) !! resource with
    | Some a => (a, get0 (ScalarResources (Requested nodeInfo)) resource +₆₄ podRequest)
    | None => (0, 0)
    end.
End request.

Definition resourcesToWeightMap (resources : list ResourceSpec) : resourceToWeightMap :=
  fold_left (fun m r => <[rsp_Name r := rsp_Weight r]> m) resources ∅.

(** ** The strategies *)

Definition leastRequestedScore (requested capacity : Z) : Z :=
  if capacity =? 0 then 0
  else if capacity <? requested then 0
  else div64 ((capacity -₆₄ requested) *₆₄ MaxNodeScore) capacity.

Definition mostRequestedScore (requested capacity : Z) : Z :=
  if capacity =? 0 then 0
  else
    let requested := if capacity <? requested then capacity else requested in
    div64 (requested *₆₄ MaxNodeScore) capacity.

(** [BuildBrokenLinearFunction]: the function through the points of a shape,
    with the point before the rest of the shape. *)
Fixpoint broken_linear (prev : ShapePoint) (shape : list ShapePoint) (p : Z) : outcome Z :=
  match shape with
  | [] => Ret (sp_Score prev)
  | pt :: shape =>
      if p <=? sp_Utilization pt then
        let run := sp_Utilization pt -₆₄ sp_Utilization prev in
        if run =? 0 then Panic "integer divide by zero"
        else Ret (sp_Score prev +₆₄
               div64 ((sp_Score pt -₆₄ sp_Score prev) *₆₄ (p -₆₄ sp_Utilization prev)) run)
      else broken_linear pt shape p
  end.

Definition BuildBrokenLinearFunction (shape : list ShapePoint) (p : Z) : outcome Z :=
  match shape with
  | [] => Panic "index out of range [-1]"
  | pt :: shape => if p <=? sp_Utilization pt then Ret (sp_Score pt) else broken_linear pt shape p
  end.

Definition maxUtilization : Z := 100.

Definition resourceScoringFunction (shape : list ShapePoint) (requested capacity : Z) : outcome Z :=
  if (capacity =? 0) || (capacity <? requested) then BuildBrokenLinearFunction shape maxUtilization
  else BuildBrokenLinearFunction shape (div64 (requested *₆₄ maxUtilization) capacity).

Section strategies.
Context {arch : GoArch} {mr : MapRange}.

(** The loop of [leastResourceScorer] and [mostResourceScorer]. *)
Definition weigh (f : Z -> Z -> Z) (weights : resourceToWeightMap) (requested allocable : resourceToValueMap)
    (st : Z * Z) (resource : string) : Z * Z :=
  let weight := get0 weights resource in
  let resourceScore := f (get0 requested resource) (get0 allocable resource) in
  (st.1 +₆₄ resourceScore *₆₄ weight, st.2 +₆₄ weight).

Definition weighted_average (f : Z -> Z -> Z) (weights : resourceToWeightMap)
    (requested allocable : resourceToValueMap) : Z :=
  let '(nodeScore, weightSum) := fold_left (weigh f weights requested allocable) (range_keys 1 requested) (0, 0) in
  if weightSum =? 0 then 0 else div64 nodeScore weightSum.

Definition leastResourceScorer (weights : resourceToWeightMap) (requested allocable : resourceToValueMap) : outcome Z :=
  Ret (weighted_average leastRequestedScore weights requested allocable).

Definition mostResourceScorer (weights : resourceToWeightMap) (requested allocable : resourceToValueMap) : outcome Z :=
  Ret (weighted_average mostRequestedScore weights requested allocable).

(** Resources that score zero have no weight here. *)
Definition ratio_step (shape : list ShapePoint) (weights : resourceToWeightMap)
    (requested allocable : resourceToValueMap) (st : Z * Z) (resource : string) : outcome (Z * Z) :=
  let weight := get0 weights resource in
  let! resourceScore := resourceScoringFunction shape (get0 requested resource) (get0 allocable resource) in
  Ret (if 0 <? resourceScore then (st.1 +₆₄ resourceScore *₆₄ weight, st.2 +₆₄ weight) else st).

Definition buildRequestedToCapacityRatioScorerFunction (shape : list ShapePoint) (weights : resourceToWeightMap)
    (requested allocable : resourceToValueMap) : outcome Z :=
  let! st := ofold (ratio_step shape weights requested allocable) (range_keys 1 requested) (0, 0) in
  let '(nodeScore, weightSum) := st in
  Ret (if weightSum =? 0 then 0
       else int64_of_f64 (f64_round (f64_div (f64_of_Z nodeScore) (f64_of_Z weightSum)))).

(** The scores of a shape are scaled from 0..10 to 0..100. *)
Definition scale_shape (shape : list ShapePoint) : list ShapePoint :=
  map (fun pt => mkShapePoint (sp_Utilization pt)
    (sp_Score pt *₆₄ div64 MaxNodeScore MaxCustomPriorityScore)) shape.

Definition requestedToCapacityRatioScorer (weights : resourceToWeightMap) (shape : list ShapePoint) :=
  buildRequestedToCapacityRatioScorerFunction (scale_shape shape) weights.

(** *** Balanced allocation *)

Definition fraction_of (value allocable : Z) : float64 :=
  let fraction := f64_div (f64_of_Z value) (f64_of_Z allocable) in
  if f64_gt fraction f64_one then f64_one else fraction.

Definition f64_zero : float64 := S754_zero false.

Definition fractions (requested allocable : resourceToValueMap) : list float64 :=
  map (fun e => fraction_of e.2 (get0 allocable e.1)) (range 1 (map_to_list requested)).

(** [math.Sqrt(sum / n)], with the sum of the squared distances to the mean. *)
Definition standard_deviation (fs : list float64) : float64 :=
  let n := f64_of_Z (Z.of_nat (length fs)) in
  let mean := f64_div (fold_left f64_add fs f64_zero) n in
  let sum := fold_left (fun sum f => f64_add sum (f64_mul (f64_sub f mean) (f64_sub f mean))) fs f64_zero in
  f64_sqrt (f64_div sum n).

Definition balance_std (fs : list float64) : float64 :=
  match fs with
  | [] | [_] => f64_zero
  | [a; b] => f64_abs (f64_div (f64_sub a b) (f64_of_Z 2))
  | _ => standard_deviation fs
  end.

Definition balancedResourceScorer (requested allocable : resourceToValueMap) : outcome Z :=
  Ret (int64_of_f64 (f64_mul (f64_sub f64_one (balance_std (fractions requested allocable)))
         (f64_of_Z MaxNodeScore))).

(** ** [resourceAllocationScorer] *)

Record resourceAllocationScorer := mkScorer {
  ras_Name : string;
  ras_scorer : resourceToValueMap -> resourceToValueMap -> outcome Z;
  ras_weights : option resourceToWeightMap;
  ras_enablePodOverhead : bool
}.

Context {gates : FeatureGates}.

(** The two maps that a strategy is given. *)
Definition amounts (weights : resourceToWeightMap) (nodeInfo : NodeInfo) (pod : Pod) (enablePodOverhead : bool)
  : resourceToValueMap * resourceToValueMap :=
  fold_left (fun st resource =>
    let '(alloc, req) := calculateResourceAllocatableRequest nodeInfo pod resource enablePodOverhead in
    if alloc =? 0 then st else (<[resource := req]> st.1, <[resource := alloc]> st.2))
    (range_keys 0 weights) (∅, ∅).

Definition ras_score (r : resourceAllocationScorer) (pod : Pod) (nodeInfo : NodeInfo) : outcome (Z * StatusPtr) :=
  match ni_node nodeInfo with
  | None => Ret (0, Some (NewStatus Error ["node not found"%string]))
  | Some _ =>
      match ras_weights r with
      | None => Ret (0, Some (NewStatus Error ["resources not found"%string]))
      | Some weights =>
          let '(requested, allocatable) := amounts weights nodeInfo pod (ras_enablePodOverhead r) in
          let! score := ras_scorer r requested allocatable in
          Ret (score, None)
      end
  end.

(** The [Score] of the plugins that embed a scorer. *)
Definition resource_Score (r : resourceAllocationScorer) (snap : Snapshot) (pod : Pod) (nodeName : string)
  : outcome (Z * StatusPtr) :=
  match SN_Get snap nodeName with
  | inr e => Ret (0, Some (AsStatus (getting_node nodeName e)))
  | inl nodeInfo => ras_score r pod nodeInfo
  end.

Definition LeastAllocated_Score := resource_Score.
Definition MostAllocated_Score := resource_Score.
Definition RequestedToCapacityRatio_Score := resource_Score.
Definition BalancedAllocation_Score := resource_Score.
End strategies.

(** ** Arguments and their validation *)

(** A validation counts its errors. *)
Definition error_if (b : bool) : nat := if b then 1%nat else 0%nat.

Definition validateResources (resources : list ResourceSpec) : nat :=
  length (List.filter (fun r => (rsp_Weight r <=? 0) || (100 <? rsp_Weight r)) resources).

Definition validateResourcesNoMax (resources : list ResourceSpec) : nat :=
  length (List.filter (fun r => rsp_Weight r <? 1) resources).

(** The first pair of neighbours that is out of order ends that check. *)
Fixpoint out_of_order (shape : list ShapePoint) : bool :=
  match shape with
  | a :: (b :: _) as shape' => (sp_Utilization b <=? sp_Utilization a) || out_of_order shape'
  | _ => false
  end.

Definition point_errors (pt : ShapePoint) : nat :=
  (error_if ((sp_Utilization pt <? 0)%Z || (100 <? sp_Utilization pt)%Z)
  + error_if ((sp_Score pt <? 0)%Z || (MaxCustomPriorityScore <? sp_Score pt)%Z))%nat.

Definition validateFunctionShape (shape : list ShapePoint) : nat :=
  (match shape with
  | [] => 1
  | _ => error_if (out_of_order shape) + sum_list_with point_errors shape
  end)%nat.

(** Names have to be unique and weights 1. *)
Fixpoint balanced_errors (seen : gset string) (resources : list ResourceSpec) : nat :=
  (match resources with
  | [] => 0
  | r :: resources =>
      error_if (bool_decide (rsp_Name r ∈ seen)) + error_if (negb (rsp_Weight r =? 1)%Z)
      + balanced_errors ({[rsp_Name r]} ∪ seen) resources
  end)%nat.
Definition ValidateNodeResourcesBalancedAllocationArgs := balanced_errors ∅.

Definition LeastAllocated : string := "LeastAllocated".
Definition MostAllocated : string := "MostAllocated".
Definition RequestedToCapacityRatio : string := "RequestedToCapacityRatio".

Record ScoringStrategy := mkScoringStrategy {
  ss_Type : string;
  ss_Resources : list ResourceSpec;
  (** the shape, if the parameters of that strategy are there *)
  ss_RequestedToCapacityRatio : option (list ShapePoint)
}.

Record NodeResourcesFitArgs := mkNodeResourcesFitArgs {
  IgnoredResources : list string;
  IgnoredResourceGroups : list string;
  fit_ScoringStrategy : option ScoringStrategy
}.

Definition ValidateNodeResourcesFitArgs (args : NodeResourcesFitArgs) : nat :=
  (sum_list_with (fun res => error_if (negb (IsQualifiedName res))) (IgnoredResources args)
  + sum_list_with (fun group => error_if (Contains group "/") + error_if (negb (IsQualifiedName group)))
      (IgnoredResourceGroups args)
  + match fit_ScoringStrategy args with
    | None => 0
    | Some s =>
        validateResources (ss_Resources s)
        + match ss_RequestedToCapacityRatio s with
          | Some ((_ :: _) as shape) => validateFunctionShape shape
          | _ => 0
          end
    end)%nat.

Section new.
Context {arch : GoArch} {mr : MapRange}.

(** [nodeResourceStrategyTypeMap]; the switch for the overhead of pods is
    left at its zero value. *)
Definition nodeResourceStrategyTypeMap (s : ScoringStrategy) : option (outcome resourceAllocationScorer) :=
  let weights := resourcesToWeightMap (ss_Resources s) in
  if String.eqb (ss_Type s) LeastAllocated then
    Some (Ret (mkScorer "NodeResourcesLeastAllocated" (leastResourceScorer weights) (Some weights) false))
  else if String.eqb (ss_Type s) MostAllocated then
    Some (Ret (mkScorer "NodeResourcesMostAllocated" (mostResourceScorer weights) (Some weights) false))
  else if String.eqb (ss_Type s) RequestedToCapacityRatio then
    Some (match ss_RequestedToCapacityRatio s with
          | None => Panic nil_panic
          | Some shape =>
              Ret (mkScorer "RequestedToCapacityRatio" (requestedToCapacityRatioScorer weights shape)
                     (Some weights) false)
          end)
  else None.

(** [NewFit], for arguments of the right type. *)
Definition NewFit (args : NodeResourcesFitArgs) (podOverhead : bool)
  : outcome ((Fit * resourceAllocationScorer) + string) :=
  if negb (ValidateNodeResourcesFitArgs args =? 0)%nat then Ret (inr "invalid arguments"%string)
  else
    match fit_ScoringStrategy args with
    | None => Ret (inr "scoring strategy not specified"%string)
    | Some s =>
        match nodeResourceStrategyTypeMap s with
        | None => Ret (inr (str_app "scoring strategy " (str_app (ss_Type s) " is not supported")))
        | Some scorer =>
            let! scorer := scorer in
            Ret (inl (mkFit (list_to_set (IgnoredResources args)) (list_to_set (IgnoredResourceGroups args))
                        podOverhead, scorer))
        end
    end.

(** The constructors of the plugins that do nothing but score. *)
Definition NewLeastAllocated (resources : list ResourceSpec) (podOverhead : bool) : resourceAllocationScorer + string :=
  if negb (validateResources resources =? 0)%nat then inr "invalid arguments"%string
  else
    let weights := resourcesToWeightMap resources in
    inl (mkScorer "NodeResourcesLeastAllocated" (leastResourceScorer weights) (Some weights) podOverhead).

Definition NewMostAllocated (resources : list ResourceSpec) (podOverhead : bool) : resourceAllocationScorer + string :=
  if negb (validateResources resources =? 0)%nat then inr "invalid arguments"%string
  else
    let weights := resourcesToWeightMap resources in
    inl (mkScorer "NodeResourcesMostAllocated" (mostResourceScorer weights) (Some weights) podOverhead).

Definition NewBalancedAllocation (resources : list ResourceSpec) (podOverhead : bool)
  : resourceAllocationScorer + string :=
  if negb (ValidateNodeResourcesBalancedAllocationArgs resources =? 0)%nat then inr "invalid arguments"%string
  else
    let weights := resourcesToWeightMap resources in
    inl (mkScorer "NodeResourcesBalancedAllocation" balancedResourceScorer (Some weights) podOverhead).

Definition NewRequestedToCapacityRatio (shape : list ShapePoint) (resources : list ResourceSpec) (podOverhead : bool)
  : resourceAllocationScorer + string :=
  if negb (validateFunctionShape shape + validateResourcesNoMax resources =? 0)%nat then inr "invalid arguments"%string
  else
    let weights := resourcesToWeightMap resources in
    inl (mkScorer "RequestedToCapacityRatio" (requestedToCapacityRatioScorer weights shape) (Some weights) podOverhead).
End new.
