(* ===== verification/ResourceScoreProofs.v ===== *)
(** * Correctness of the resource scores

    Every strategy yields a legal score, whatever the order in which Go walks
    its maps; the averages are exact; emptier nodes score no lower under
    LeastAllocated and no higher under MostAllocated; a piecewise linear
    function stays between the scores of its points. *)

From S2P Require Import Prelude GoInt GoFloat GoFloatRound GoFloatBound GoStrconv Quantity ApiTypes Labels Resource HostPorts AffinityTerms NodeInfo Samples Framework Snapshot Runtime NodeResourcesFit NodePlugins ScoreProofs NodeResourcesScore.

(** ** The piecewise linear function *)

Lemma segment_between s0 s1 x d :
  0 <= x <= d -> 0 < d -> Z.min s0 s1 <= s0 + Z.quot ((s1 - s0) * x) d <= Z.max s0 s1.
Proof.
  intros Hx Hd. destruct (Z.le_gt_cases s0 s1) as [H|H].
  - assert (0 <= Z.quot ((s1 - s0) * x) d <= s1 - s0); [|lia].
    rewrite Z.quot_div_nonneg by nia. split; [apply Z.div_pos; nia|].
    apply Z.div_le_upper_bound; nia.
  - replace ((s1 - s0) * x) with (- ((s0 - s1) * x)) by ring. rewrite Z.quot_opp_l by lia.
    assert (0 <= Z.quot ((s0 - s1) * x) d <= s0 - s1); [|lia].
    rewrite Z.quot_div_nonneg by nia. split; [apply Z.div_pos; nia|].
    apply Z.div_le_upper_bound; nia.
Qed.

(** Points whose numbers are small, in the order of their utilization. *)
Definition point_ok (hi : Z) (pt : ShapePoint) : Prop := 0 <= sp_Utilization pt <= 100 /\ 0 <= sp_Score pt <= hi.

Lemma valid_shape shape :
  validateFunctionShape shape = 0%nat ->
  shape <> [] /\ Forall (point_ok MaxCustomPriorityScore) shape /\ out_of_order shape = false.
Proof.
  unfold validateFunctionShape. destruct shape as [|pt shape]; [done|]. intros H. split; [done|].
  assert (error_if (out_of_order (pt :: shape)) = 0 /\ sum_list_with point_errors (pt :: shape) = 0)%nat
    as [Ho Hs] by lia.
  split; [|by destruct (out_of_order _)]. revert Hs. generalize (pt :: shape) as l. clear.
  induction l as [|pt l IH]; simpl; [constructor|]. intros H.
  constructor; [|apply IH; lia]. assert (point_errors pt = 0%nat) as Hp by lia. revert Hp.
  unfold point_errors, error_if, point_ok. repeat case_match; intros; try lia.
Qed.

Lemma segment_exact hi prev pt p :
  hi <= 100 -> point_ok hi prev -> point_ok hi pt -> sp_Utilization prev < sp_Utilization pt ->
  sp_Utilization prev <= p <= sp_Utilization pt ->
  let run := sp_Utilization pt -₆₄ sp_Utilization prev in
  run <> 0 /\
  sp_Score prev +₆₄ div64 ((sp_Score pt -₆₄ sp_Score prev) *₆₄ (p -₆₄ sp_Utilization prev)) run
  = sp_Score prev + Z.quot ((sp_Score pt - sp_Score prev) * (p - sp_Utilization prev))
                           (sp_Utilization pt - sp_Utilization prev).
Proof.
  intros Hhi [Hu0 Hs0] [Hu1 Hs1] Hlt Hp. cbv zeta.
  pose proof (segment_between (sp_Score prev) (sp_Score pt) (p - sp_Utilization prev)
    (sp_Utilization pt - sp_Utilization prev) ltac:(lia) ltac:(lia)) as Hb.
  rewrite !sub64_exact by (int_unfold; lia). split; [lia|].
  rewrite mul64_exact by (int_unfold; nia). unfold div64.
  set (q := Z.quot _ _) in *. rewrite int64_id by (int_unfold; lia). apply add64_exact. int_unfold. lia.
Qed.

Lemma broken_linear_spec hi shape prev p :
  hi <= 100 -> Forall (point_ok hi) (prev :: shape) -> out_of_order (prev :: shape) = false ->
  sp_Utilization prev <= p ->
  exists z, broken_linear prev shape p = Ret z /\ 0 <= z <= hi /\
    (forall pt, pt ∈ prev :: shape -> sp_Utilization pt = p -> z = sp_Score pt).
Proof.
  intros Hhi. revert prev. induction shape as [|pt shape IH]; intros prev HF Ho Hp.
  { exists (sp_Score prev). apply Forall_cons in HF as [[_ Hs] _]. split_and!; [done|lia|lia|].
    intros pt [-> | ?%elem_of_nil]%elem_of_cons; [done|tauto]. }
  apply Forall_cons in HF as [Hprev HF]. pose proof HF as HF'. apply Forall_cons in HF' as [Hpt _].
  cbn [out_of_order] in Ho. apply orb_false_iff in Ho as [Ho Ho']. apply Z.leb_gt in Ho.
  assert (forall q, q ∈ shape -> sp_Utilization pt < sp_Utilization q) as Hlater.
  { clear -Ho'. revert pt Ho'. induction shape as [|q shape IH]; intros pt Ho'; [by intros ? ?%elem_of_nil|].
    cbn [out_of_order] in Ho'. apply orb_false_iff in Ho' as [H1 H2]. apply Z.leb_gt in H1.
    intros r [-> |Hr]%elem_of_cons; [done|]. specialize (IH q H2 r Hr). lia. }
  cbn [broken_linear]. destruct (Z.leb_spec p (sp_Utilization pt)) as [Hle|Hgt].
  - destruct (segment_exact hi prev pt p Hhi Hprev Hpt Ho ltac:(lia)) as [Hrun Hz]. cbv zeta in *.
    rewrite (proj2 (Z.eqb_neq _ _) Hrun). eexists. split; [done|]. rewrite Hz.
    pose proof (segment_between (sp_Score prev) (sp_Score pt) (p - sp_Utilization prev)
      (sp_Utilization pt - sp_Utilization prev) ltac:(lia) ltac:(lia)) as Hb.
    destruct Hprev as [_ Hs0], Hpt as [_ Hs1]. split; [lia|].
    intros q [-> |[-> |Hq]%elem_of_cons]%elem_of_cons Hu.
    + replace (p - sp_Utilization prev) with 0 by lia. rewrite Z.mul_0_r, Z.quot_0_l by lia. lia.
    + replace (p - sp_Utilization prev) with (sp_Utilization pt - sp_Utilization prev) by lia.
      rewrite Z.quot_mul by lia. lia.
    + specialize (Hlater q Hq). lia.
  - destruct (IH pt HF Ho' ltac:(lia)) as (z & Hz & Hzb & Hzp). exists z. split_and!; [done|lia|lia|].
    intros q [-> |Hq]%elem_of_cons Hu; [lia|by apply Hzp].
Qed.

(** The function through a valid shape is defined everywhere, has its values
    among those of the shape, and passes through its points. *)
Lemma BrokenLinear_spec hi shape p :
  hi <= 100 -> shape <> [] -> Forall (point_ok hi) shape -> out_of_order shape = false ->
  exists z, BuildBrokenLinearFunction shape p = Ret z /\ 0 <= z <= hi /\
    (forall pt, pt ∈ shape -> sp_Utilization pt = p -> z = sp_Score pt).
Proof.
  intros Hhi Hne HF Ho. destruct shape as [|pt shape]; [done|]. unfold BuildBrokenLinearFunction.
  destruct (Z.leb_spec p (sp_Utilization pt)) as [Hle|Hgt]; [|by apply broken_linear_spec; [..|lia]].
  exists (sp_Score pt). pose proof HF as HF'. apply Forall_cons in HF' as [[Hu Hs] _].
  split_and!; [done|lia|lia|]. intros q [-> |Hq]%elem_of_cons Hqp; [done|].
  assert (sp_Utilization pt < sp_Utilization q); [|lia].
  clear -Ho Hq. revert pt Ho Hq. induction shape as [|r shape IH]; intros pt Ho Hq; [by apply elem_of_nil in Hq|].
  cbn [out_of_order] in Ho. apply orb_false_iff in Ho as [H1 H2]. apply Z.leb_gt in H1.
  apply elem_of_cons in Hq as [-> |Hq]; [done|]. specialize (IH r H2 Hq). lia.
Qed.

Lemma scale_shape_ok shape :
  Forall (point_ok MaxCustomPriorityScore) shape -> out_of_order shape = false ->
  Forall (point_ok 100) (scale_shape shape) /\ out_of_order (scale_shape shape) = false.
Proof.
  intros HF Ho. assert (forall pt, point_ok MaxCustomPriorityScore pt ->
    sp_Score pt *₆₄ div64 MaxNodeScore MaxCustomPriorityScore = 10 * sp_Score pt) as Hs.
  { intros pt [_ H]. replace (div64 MaxNodeScore MaxCustomPriorityScore) with 10 by reflexivity.
    rewrite mul64_exact; [lia|]. revert H. unfold MaxCustomPriorityScore. int_unfold. lia. }
  split.
  - unfold scale_shape. rewrite Forall_map. eapply Forall_impl; [exact HF|]. intros pt Hpt.
    unfold point_ok. cbn [sp_Utilization sp_Score]. rewrite Hs by done. destruct Hpt as [Hu Hp].
    unfold MaxCustomPriorityScore in Hp. lia.
  - unfold scale_shape. clear -Ho. induction shape as [|a [|b shape] IH]; [done..|].
    cbn [map out_of_order] in *. apply orb_false_iff in Ho as [H1 H2]. cbn [sp_Utilization].
    rewrite H1. by apply IH.
Qed.

(** ** Scores of one resource *)

Definition amount_ok (q a : Z) : Prop := 0 <= q < 2 ^ 53 /\ 0 < a < 2 ^ 53.

Lemma leastRequestedScore_exact q a : amount_ok q a ->
  leastRequestedScore q a = (if a <? q then 0 else (a - q) * 100 / a) /\ 0 <= leastRequestedScore q a <= 100.
Proof.
  intros [Hq Ha]. unfold leastRequestedScore, MaxNodeScore. rewrite (proj2 (Z.eqb_neq a 0)) by lia.
  destruct (Z.ltb_spec a q); [lia|]. rewrite sub64_exact, mul64_exact by (int_unfold; lia).
  assert (0 <= (a - q) * 100 / a <= 100) as H100.
  { split; [apply Z.div_pos; lia|]. apply Z.div_le_upper_bound; lia. }
  unfold div64. rewrite Z.quot_div_nonneg by lia. rewrite int64_id by (int_unfold; lia). lia.
Qed.

Lemma mostRequestedScore_exact q a : amount_ok q a ->
  mostRequestedScore q a = Z.min q a * 100 / a /\ 0 <= mostRequestedScore q a <= 100.
Proof.
  intros [Hq Ha]. unfold mostRequestedScore, MaxNodeScore. rewrite (proj2 (Z.eqb_neq a 0)) by lia.
  replace (if a <? q then a else q) with (Z.min q a) by (destruct (Z.ltb_spec a q); lia).
  rewrite mul64_exact by (int_unfold; lia).
  assert (0 <= Z.min q a * 100 / a <= 100) as H100.
  { split; [apply Z.div_pos; lia|]. apply Z.div_le_upper_bound; lia. }
  unfold div64. rewrite Z.quot_div_nonneg by lia. rewrite int64_id by (int_unfold; lia). lia.
Qed.

Lemma resourceScoringFunction_legal shape q a :
  amount_ok q a -> shape <> [] -> Forall (point_ok 100) shape -> out_of_order shape = false ->
  exists z, resourceScoringFunction shape q a = Ret z /\ 0 <= z <= 100.
Proof.
  intros _ Hne HF Ho. unfold resourceScoringFunction.
  destruct (_ || _); [destruct (BrokenLinear_spec 100 shape maxUtilization) as (z & Hz & Hb & _)
                     |destruct (BrokenLinear_spec 100 shape (div64 (q *₆₄ maxUtilization) a)) as (z & Hz & Hb & _)];
    eauto; lia.
Qed.

(** ** Weighted averages *)

Definition keys (m : gmap string Z) : list string := map fst (map_to_list m).

Lemma keys_lookup m k : k ∈ keys m <-> is_Some (m !! k).
Proof.
  unfold keys. rewrite list_elem_of_fmap. split.
  - intros ([k' v] & -> & H%elem_of_map_to_list). eauto.
  - intros [v H]. exists (k, v). split; [done|]. by apply elem_of_map_to_list.
Qed.

Lemma NoDup_keys m : NoDup (keys m).
Proof. apply NoDup_fst_map_to_list. Qed.

(** Weights that are positive and whose sum stays far from overflow. *)
Record weights_ok (w : gmap string Z) : Prop := {
  weights_pos : forall k x, w !! k = Some x -> 1 <= x;
  weights_sum : Zsum (map (get0 w) (keys w)) < 2 ^ 46
}.

(** Maps of amounts over resources that have a weight. *)
Record values_ok (w req alloc : gmap string Z) : Prop := {
  values_weight : forall k q, req !! k = Some q -> is_Some (w !! k);
  values_amount : forall k q, req !! k = Some q -> amount_ok q (get0 alloc k)
}.

Lemma values_weights w req alloc : weights_ok w -> values_ok w req alloc ->
  Forall (fun k => 1 <= get0 w k) (keys req) /\
  0 <= Zsum (map (get0 w) (keys req)) < 2 ^ 46 /\
  (0 < Zsum (map (get0 w) (keys req)) \/ req = ∅).
Proof.
  intros [Hpos Hsum] [Hw Ha].
  assert (Forall (fun k => 1 <= get0 w k) (keys req)) as HF.
  { apply Forall_forall. intros k [q Hq]%keys_lookup. destruct (Hw k q Hq) as [x Hx].
    unfold get0. rewrite Hx. by apply (Hpos k). }
  split; [done|]. split.
  - split.
    + clear -HF. unfold Zsum. induction HF; simpl; lia.
    + apply Z.le_lt_trans with (Zsum (map (get0 w) (keys w))); [|done].
      apply Zsum_submultiset; [apply NoDup_keys| |].
      * intros k [q Hq]%keys_lookup. apply keys_lookup. by apply (Hw k q).
      * apply Forall_forall. intros k [x Hx]%keys_lookup. unfold get0. rewrite Hx.
        specialize (Hpos k x Hx). simpl. lia.
  - destruct (keys req) as [|k l] eqn:E.
    + right. apply map_empty. intros k. destruct (req !! k) eqn:Hk; [|done].
      assert (k ∈ keys req) as H by (apply keys_lookup; eauto). rewrite E in H. by apply elem_of_nil in H.
    + left. apply Forall_cons in HF as [H1 H2]. unfold Zsum. simpl.
      enough (0 <= foldr Z.add 0 (map (get0 w) l)) by lia. clear -H2. induction H2; simpl; lia.
Qed.

Definition weighted_sum (f : Z -> Z -> Z) (w req alloc : gmap string Z) (l : list string) : Z :=
  Zsum (map (fun k => f (get0 req k) (get0 alloc k) * get0 w k) l).

(** The average the code computes, on exact numbers. *)
Definition average (f : Z -> Z -> Z) (w req alloc : gmap string Z) : Z :=
  if bool_decide (req = ∅) then 0
  else weighted_sum f w req alloc (keys req) / Zsum (map (get0 w) (keys req)).

Lemma weigh_fold f w req alloc l a b :
  Forall (fun k => 0 <= f (get0 req k) (get0 alloc k) <= 100 /\ 1 <= get0 w k) l ->
  0 <= a <= 100 * b -> b + Zsum (map (get0 w) l) < 2 ^ 46 ->
  fold_left (weigh f w req alloc) l (a, b) =
    (a + weighted_sum f w req alloc l, b + Zsum (map (get0 w) l)) /\
  0 <= a + weighted_sum f w req alloc l <= 100 * (b + Zsum (map (get0 w) l)).
Proof.
  unfold weighted_sum. revert a b. induction l as [|k l IH]; intros a b HF Ha Hb.
  { unfold Zsum. simpl. rewrite !Z.add_0_r. done. }
  apply Forall_cons in HF as [[Hf Hw] HF]. cbn [fold_left map].
  assert (0 <= Zsum (map (get0 w) l)) as Hl.
  { clear -HF. unfold Zsum. induction HF as [|k l [_ ?] ? ?]; simpl; lia. }
  unfold Zsum in *. cbn [map foldr] in Hb |- *. set (s := f _ _) in *.
  unfold weigh at 2. cbn [fst snd]. fold s.
  rewrite mul64_exact by (int_unfold; nia). rewrite !add64_exact by (int_unfold; nia).
  destruct (IH (a + s * get0 w k) (b + get0 w k) HF) as [-> H]; [nia|lia|].
  split; [f_equal; lia|lia].
Qed.

Lemma range_keys_perm {mr : MapRange} n m : range_keys n m ≡ₚ keys m.
Proof. unfold range_keys, keys. by rewrite range_perm. Qed.

Lemma weighted_average_exact {mr : MapRange} f w req alloc :
  weights_ok w -> values_ok w req alloc ->
  (forall q a, amount_ok q a -> 0 <= f q a <= 100) ->
  weighted_average f w req alloc = average f w req alloc /\ 0 <= average f w req alloc <= 100.
Proof.
  intros Hw Hv Hf. destruct (values_weights w req alloc Hw Hv) as (HF & Hsum & Hpos).
  assert (Forall (fun k => 0 <= f (get0 req k) (get0 alloc k) <= 100 /\ 1 <= get0 w k) (range_keys 1 req)) as HFr.
  { rewrite range_keys_perm. rewrite Forall_forall in HF |- *. intros k Hk. split; [|by apply HF].
    apply keys_lookup in Hk as [q Hq]. apply Hf. unfold get0 at 1. rewrite Hq. by apply (values_amount _ _ _ Hv). }
  assert (Zsum (map (get0 w) (range_keys 1 req)) = Zsum (map (get0 w) (keys req))) as HsumE
    by (apply Zsum_perm; by rewrite range_keys_perm).
  assert (weighted_sum f w req alloc (range_keys 1 req) = weighted_sum f w req alloc (keys req)) as HwE
    by (apply Zsum_perm; by rewrite range_keys_perm).
  destruct (weigh_fold f w req alloc (range_keys 1 req) 0 0 HFr) as [Hfold Hb]; [lia|lia|].
  rewrite HsumE, HwE, !Z.add_0_l in *. unfold weighted_average. rewrite Hfold. unfold average.
  set (S := Zsum _) in *. set (T := weighted_sum f w req alloc (keys req)) in *.
  case_bool_decide as He.
  { assert (S = 0) as -> by (unfold S; rewrite He; unfold keys; by rewrite map_to_list_empty). done. }
  destruct Hpos as [Hpos|]; [|done]. rewrite (proj2 (Z.eqb_neq S 0)) by lia.
  assert (0 <= T / S <= 100).
  { split; [apply Z.div_pos; lia|]. apply Z.div_le_upper_bound; lia. }
  unfold div64. rewrite Z.quot_div_nonneg by lia. split; [apply int64_id; int_unfold; lia|done].
Qed.

Lemma average_mono f g w req req' alloc alloc' :
  weights_ok w -> values_ok w req alloc ->
  keys req = keys req' ->
  (forall k, k ∈ keys req -> f (get0 req k) (get0 alloc k) <= g (get0 req' k) (get0 alloc' k)) ->
  average f w req alloc <= average g w req' alloc'.
Proof.
  intros Hw Hv Hk Hfg. destruct (values_weights w req alloc Hw Hv) as (HF & Hsum & Hpos). unfold average.
  assert (req = ∅ <-> req' = ∅) as He.
  { split; intros ->; apply map_to_list_empty_iff; unfold keys in Hk; rewrite map_to_list_empty in Hk;
      [destruct (map_to_list req')|destruct (map_to_list req)]; done. }
  rewrite (bool_decide_ext _ _ He). case_bool_decide; [lia|]. destruct Hpos as [Hpos|Hpos]; [|tauto].
  rewrite <- Hk. apply Z.div_le_mono; [done|]. unfold weighted_sum.
  clear Hk Hpos Hsum Hv Hw He. revert HF Hfg. generalize (keys req) as l. intros l HF Hfg.
  induction HF as [|k l Hk HF IH]; unfold Zsum in *; simpl; [lia|].
  assert (foldr Z.add 0 (map (fun k => f (get0 req k) (get0 alloc k) * get0 w k) l) <=
          foldr Z.add 0 (map (fun k => g (get0 req' k) (get0 alloc' k) * get0 w k) l))
    by (apply IH; intros; apply Hfg; by right).
  specialize (Hfg k ltac:(left)). nia.
Qed.

(** ** The ratio strategy *)

Lemma ratio_fold shape w req alloc l a b :
  shape <> [] -> Forall (point_ok 100) shape -> out_of_order shape = false ->
  Forall (fun k => amount_ok (get0 req k) (get0 alloc k) /\ 1 <= get0 w k) l ->
  0 <= a <= 100 * b -> b + Zsum (map (get0 w) l) < 2 ^ 46 ->
  exists a' b', ofold (ratio_step shape w req alloc) l (a, b) = Ret (a', b') /\
    0 <= a' <= 100 * b' /\ 0 <= b' < 2 ^ 46.
Proof.
  intros Hne Hs Ho. revert a b. induction l as [|k l IH]; intros a b HF Ha Hb.
  { exists a, b. split_and!; try done; unfold Zsum in Hb; simpl in Hb; lia. }
  apply Forall_cons in HF as [[Hf Hw] HF]. cbn [ofold].
  assert (0 <= Zsum (map (get0 w) l)) as Hl.
  { clear -HF. unfold Zsum. induction HF as [|k l [_ ?] ? ?]; simpl; lia. }
  unfold Zsum in *. cbn [map foldr] in Hb.
  destruct (resourceScoringFunction_legal shape _ _ Hf Hne Hs Ho) as (z & Hz & Hz100).
  unfold ratio_step at 1. rewrite Hz. cbn [obind fst snd].
  destruct (Z.ltb_spec 0 z).
  - rewrite mul64_exact by (int_unfold; nia). rewrite !add64_exact by (int_unfold; nia).
    apply IH; [done|nia|lia].
  - apply IH; [done|lia|lia].
Qed.

Lemma ratio_scorer_legal {arch : GoArch} {mr : MapRange} shape w req alloc :
  shape <> [] -> Forall (point_ok 100) shape -> out_of_order shape = false ->
  weights_ok w -> values_ok w req alloc ->
  exists z, buildRequestedToCapacityRatioScorerFunction shape w req alloc = Ret z /\ 0 <= z <= 100.
Proof.
  intros Hne Hs Ho Hw Hv. destruct (values_weights w req alloc Hw Hv) as (HF & Hsum & _).
  destruct (ratio_fold shape w req alloc (range_keys 1 req) 0 0 Hne Hs Ho) as (a & b & Hfold & Ha & Hb).
  - rewrite range_keys_perm. rewrite Forall_forall in HF |- *. intros k Hk. split; [|by apply HF].
    apply keys_lookup in Hk as [q Hq]. unfold get0 at 1. rewrite Hq. by apply (values_amount _ _ _ Hv).
  - lia.
  - rewrite (Zsum_perm _ (map (get0 w) (keys req))) by (by rewrite range_keys_perm). lia.
  - unfold buildRequestedToCapacityRatioScorerFunction. rewrite Hfold. cbn [obind].
    destruct (Z.eqb_spec b 0) as [-> |Hb0]; [exists 0; split; [done|lia]|].
    eexists. split; [done|]. apply int64_of_f64_within; [|lia].
    apply f64_round_within; [|lia]. apply f64_div_of_Z_within; lia.
Qed.

(** ** Balanced allocation *)

Lemma fraction_within q a : amount_ok q a -> f64_within (fraction_of q a) 1 0.
Proof.
  intros [Hq Ha]. unfold fraction_of. destruct (f64_gt _ f64_one) eqn:E; [by apply f64_of_Z_within|].
  apply within_of_not_gt; [|lia|done]. destruct a as [|p|p]; try lia.
  destruct (f64_of_pos_small p) as (m & e & -> & _); [lia|]. apply f64_div_nonneg, f64_of_Z_nonneg. lia.
Qed.

Lemma f64_div_by_Z_within x b n :
  f64_within x (b * n) 0 -> 0 <= b < 2 ^ 53 -> 0 < n < 2 ^ 53 -> f64_within (f64_div x (f64_of_Z n)) b 0.
Proof.
  intros Hx Hb Hn. destruct n as [|p|p]; try lia.
  destruct (f64_of_pos_small p) as (m & e & -> & Hv & He & Hm); [lia|].
  destruct (bounded_cases _ _ Hv) as (_ & R & _).
  eapply f64_div_bounded; [exact Hx|done|split; lia|lia|]. rewrite Hm. unfold fval.
  replace (2 ^ (0 + 3000 + 3000)) with (2 ^ (- e) * 2 ^ (e + 0 + 3000 + 3000))
    by (rewrite <- Z.pow_add_r by lia; f_equal; lia). nia.
Qed.

(** The sign of the dividend does not matter for the size of the quotient. *)
Lemma f64_div_abs x my ey b k :
  f64_within (f64_div (f64_abs x) (S754_finite false my ey)) b k ->
  f64_within (f64_abs (f64_div x (S754_finite false my ey))) b k.
Proof.
  destruct x as [s|s| |s mx ex]; simpl; try done. unfold f64_div, f64_abs, SFdiv. cbn [SFabs].
  destruct (SFdiv_core_binary _ _ _ _ _ _) as [[q e'] l]. apply round_aux_abs_within.
Qed.

(** Adding up numbers between 0 and 1. *)
Lemma sum_within (g : float64 -> float64) l x b :
  f64_within x b 0 -> 0 <= b -> Forall (fun f => f64_within (g f) 1 0) l ->
  b + Z.of_nat (length l) < 2 ^ 53 ->
  f64_within (fold_left (fun s f => f64_add s (g f)) l x) (b + Z.of_nat (length l)) 0.
Proof.
  intros Hx Hb HF. revert x b Hx Hb. induction HF as [|f l Hf HF IH]; intros x b Hx Hb Hlen; cbn [fold_left length].
  { by rewrite Z.add_0_r. }
  cbn [length] in Hlen. replace (b + Z.of_nat (S (length l))) with (b + 1 + Z.of_nat (length l)) by lia.
  apply IH; [|lia|lia]. apply f64_add_within; [done|done|split; lia|lia|lia].
Qed.

Lemma standard_deviation_within fs :
  Forall (fun f => f64_within f 1 0) fs -> (0 < length fs)%nat -> Z.of_nat (length fs) < 2 ^ 53 ->
  f64_within (standard_deviation fs) 1 0.
Proof.
  intros HF Hn Hlen. unfold standard_deviation. set (n := Z.of_nat (length fs)) in *.
  set (mean := f64_div (fold_left f64_add fs f64_zero) (f64_of_Z n)).
  assert (f64_within mean 1 0) as Hmean.
  { apply f64_div_by_Z_within; [|lia|lia]. rewrite Z.mul_1_l.
    apply (sum_within (fun f => f) fs f64_zero 0); [simpl; lia|lia|done|lia]. }
  apply (f64_sqrt_within _ 1 0); [|split; lia|lia|lia].
  apply f64_div_by_Z_within; [|lia|lia]. replace (1 * 1 * n) with (0 + Z.of_nat (length fs)) by lia.
  apply (sum_within (fun f => f64_mul (f64_sub f mean) (f64_sub f mean))); [simpl; lia|lia| |lia].
  eapply Forall_impl; [exact HF|]. intros f Hf.
  apply (f64_square_within _ 1 0); [|split; lia|lia|lia]. apply f64_sub_abs_within; [done|done|split; lia].
Qed.

Lemma balance_std_within fs :
  Forall (fun f => f64_within f 1 0) fs -> Z.of_nat (length fs) < 2 ^ 53 -> f64_within (balance_std fs) 1 0.
Proof.
  intros HF Hlen. unfold balance_std. destruct fs as [|a [|b [|c fs]]]; [simpl; lia..| |].
  - apply Forall_cons in HF as [Ha HF]. apply Forall_cons in HF as [Hb _].
    replace (f64_of_Z 2) with (S754_finite false (2 ^ 52) (-51)) by reflexivity. apply f64_div_abs.
    eapply f64_div_bounded; [by apply f64_sub_abs_within; [exact Ha|exact Hb|split; lia]|done|split; lia|lia|].
    vm_compute. discriminate.
  - apply standard_deviation_within; [done|simpl; lia|done].
Qed.

Lemma balanced_scorer_legal {arch : GoArch} {mr : MapRange} w req alloc :
  values_ok w req alloc -> Z.of_nat (size req) < 2 ^ 53 ->
  exists z, balancedResourceScorer req alloc = Ret z /\ 0 <= z <= 100.
Proof.
  intros Hv Hsize. unfold balancedResourceScorer. eexists. split; [done|].
  assert (f64_within (balance_std (fractions req alloc)) 1 0) as Hstd.
  { apply balance_std_within.
    - unfold fractions. rewrite Forall_map, range_perm, Forall_forall. intros [k q] Hk%elem_of_map_to_list.
      apply fraction_within. by apply (values_amount _ _ _ Hv).
    - unfold fractions. rewrite length_map, range_perm, length_map_to_list. lia. }
  apply int64_of_f64_within; [|lia]. apply (f64_mul_within _ _ 1 0 100 0); [|by apply f64_of_Z_within|split; lia|lia..].
  apply f64_sub_within; [by apply f64_of_Z_within|done| |split; lia].
  pose proof (f64_within_value _ _ _ Hstd ltac:(lia) ltac:(lia)) as Hval.
  destruct (balance_std _) as [| | |[] m e]; try done.
Qed.

(** ** The maps that a strategy is given *)

Lemma fold_left_map {A B C} (f : C -> B -> C) (g : A -> B) l c :
  fold_left f (map g l) c = fold_left (fun c x => f c (g x)) l c.
Proof. revert c. induction l as [|x l IH]; intros c; simpl; [done|]. apply IH. Qed.

Section amounts.
Context {arch : GoArch} {mr : MapRange} {gates : FeatureGates}.

Lemma amounts_spec w ni pod ov k :
  let '(a, q) := calculateResourceAllocatableRequest ni pod k ov in
  (amounts w ni pod ov).1 !! k = (if bool_decide (is_Some (w !! k)) && negb (a =? 0) then Some q else None) /\
  (amounts w ni pod ov).2 !! k = (if bool_decide (is_Some (w !! k)) && negb (a =? 0) then Some a else None).
Proof.
  destruct (calculateResourceAllocatableRequest ni pod k ov) as [a q] eqn:E.
  unfold amounts, range_keys. rewrite fold_left_map.
  set (step := fun (st : gmap string Z * gmap string Z) (e : string * Z) => _).
  assert (forall pi : gmap string Z * gmap string Z -> option Z,
    (forall st e, e.1 <> k -> pi (step st e) = pi st) ->
    forall v, (forall st x, pi (step st (k, x)) = if a =? 0 then pi st else Some v) -> pi (∅, ∅) = None ->
    pi (fold_left step (range 0 (map_to_list w)) (∅, ∅))
    = if bool_decide (is_Some (w !! k)) && negb (a =? 0) then Some v else None) as H.
  { intros pi Hne v Hk He. etransitivity; [apply (fold_left_key step pi
      (fun o _ => if a =? 0 then o else Some v) k w); [done|done|apply range_perm]|].
    rewrite He. destruct (w !! k) as [x|]; [rewrite bool_decide_true by eauto|by rewrite bool_decide_false by (by intros [])].
    by destruct (a =? 0). }
  split; [apply (H (fun st => st.1 !! k))|apply (H (fun st => st.2 !! k))]; try done.
  - intros st [k' x] Hne. unfold step. cbn [fst].
    destruct (calculateResourceAllocatableRequest ni pod k' ov) as [a' q'].
    destruct (a' =? 0); [done|]. cbn [fst]. by apply lookup_insert_ne.
  - intros st x. unfold step. cbn [fst]. rewrite E. destruct (a =? 0); [done|]. apply lookup_insert_eq.
  - intros st [k' x] Hne. unfold step. cbn [fst].
    destruct (calculateResourceAllocatableRequest ni pod k' ov) as [a' q'].
    destruct (a' =? 0); [done|]. cbn [snd]. by apply lookup_insert_ne.
  - intros st x. unfold step. cbn [fst]. rewrite E. destruct (a =? 0); [done|]. apply lookup_insert_eq.
Qed.

(** The amounts of a node and of the pods on it are not negative and below
    2^53 (eight pebibytes, for a resource that is counted in bytes). *)
Definition node_amounts_ok (w : gmap string Z) (ni : NodeInfo) (pod : Pod) (ov : bool) : Prop :=
  forall k, is_Some (w !! k) ->
    let '(a, q) := calculateResourceAllocatableRequest ni pod k ov in 0 <= q < 2 ^ 53 /\ 0 <= a < 2 ^ 53.

Lemma amounts_ok w ni pod ov : node_amounts_ok w ni pod ov ->
  values_ok w (amounts w ni pod ov).1 (amounts w ni pod ov).2.
Proof.
  intros Hok. constructor; intros k q Hk; pose proof (amounts_spec w ni pod ov k) as Hs;
    specialize (Hok k); destruct (calculateResourceAllocatableRequest ni pod k ov) as [a q'];
    destruct Hs as [H1 H2]; rewrite H1 in Hk;
    (destruct (bool_decide (is_Some (w !! k))) eqn:Ew; [apply bool_decide_eq_true_1 in Ew|done]); [done|].
  cbn [andb] in *. unfold get0. rewrite H2. specialize (Hok Ew). destruct (Z.eqb_spec a 0); [done|].
  cbn [negb] in *. injection Hk as ->. unfold amount_ok. simpl. lia.
Qed.

Lemma amounts_size w ni pod ov : (size (amounts w ni pod ov).1 <= size w)%nat.
Proof.
  rewrite <- !size_dom. apply subseteq_size. intros k [q Hq]%elem_of_dom. apply elem_of_dom.
  pose proof (amounts_spec w ni pod ov k) as Hs.
  destruct (calculateResourceAllocatableRequest ni pod k ov) as [a q']. destruct Hs as [H1 _]. rewrite H1 in Hq.
  destruct (bool_decide _) eqn:E; [by apply bool_decide_eq_true_1 in E|done].
Qed.
End amounts.

Lemma resourcesToWeightMap_lookup l k w :
  resourcesToWeightMap l !! k = Some w -> exists r, r ∈ l /\ rsp_Weight r = w.
Proof.
  unfold resourcesToWeightMap. cut (forall m : gmap string Z, fold_left (fun m r => <[rsp_Name r := rsp_Weight r]> m) l m !! k = Some w ->
    (exists r, r ∈ l /\ rsp_Weight r = w) \/ m !! k = Some w).
  { intros H Hk. destruct (H ∅ Hk) as [|He]; [done|by rewrite lookup_empty in He]. }
  induction l as [|r l IH]; intros m H; cbn [fold_left] in H; [by right|].
  destruct (IH _ H) as [(r' & Hr & Hw)|Hm]; [left; exists r'; split; [by right|done]|].
  destruct (decide (rsp_Name r = k)) as [<-|Hne].
  - rewrite lookup_insert_eq in Hm. injection Hm as <-. left. exists r. split; [by left|done].
  - rewrite lookup_insert_ne in Hm by done. by right.
Qed.

Lemma filter_length_0 {A} (p : A -> bool) l : length (List.filter p l) = 0%nat -> Forall (fun x => p x = false) l.
Proof. induction l as [|x l IH]; simpl; [constructor|]. destruct (p x) eqn:E; simpl; [done|]. by constructor; [|apply IH]. Qed.

Lemma validated_weights (bad : ResourceSpec -> bool) l :
  length (List.filter bad l) = 0%nat -> (forall r, bad r = false -> 1 <= rsp_Weight r) ->
  forall k w, resourcesToWeightMap l !! k = Some w -> 1 <= w.
Proof.
  intros HF Hb k w (r & Hr & <-)%resourcesToWeightMap_lookup. apply Hb.
  apply filter_length_0 in HF. rewrite Forall_forall in HF. by apply HF.
Qed.

Lemma balanced_weights l seen : balanced_errors seen l = 0%nat -> Forall (fun r => rsp_Weight r = 1) l.
Proof.
  revert seen. induction l as [|r l IH]; intros seen H; cbn [balanced_errors] in H; [constructor|].
  constructor; [|apply (IH ({[rsp_Name r]} ∪ seen)); lia].
  destruct (Z.eqb_spec (rsp_Weight r) 1); [done|]. simpl in H. lia.
Qed.

(** ** Every configured scorer yields legal scores *)

Section scores.
Context {arch : GoArch} {mr : MapRange} {gates : FeatureGates}.

(** The scorers that the constructors make. *)
Inductive built : resourceAllocationScorer -> Prop :=
| built_Fit args ov fit r :
    NewFit args ov = Ret (inl (fit, r)) ->
    (forall s, fit_ScoringStrategy args = Some s -> ss_RequestedToCapacityRatio s <> Some []) -> built r
| built_Least resources ov r : NewLeastAllocated resources ov = inl r -> built r
| built_Most resources ov r : NewMostAllocated resources ov = inl r -> built r
| built_Ratio shape resources ov r : NewRequestedToCapacityRatio shape resources ov = inl r -> built r
| built_Balanced resources ov r : NewBalancedAllocation resources ov = inl r -> built r.

(** What a scorer does with amounts in range, and that its weights are positive. *)
Definition scorer_legal (r : resourceAllocationScorer) : Prop :=
  exists w, ras_weights r = Some w /\ (forall k x, w !! k = Some x -> 1 <= x) /\
    forall req alloc, weights_ok w -> values_ok w req alloc -> (size req <= size w)%nat -> Z.of_nat (size w) < 2 ^ 46 ->
      exists z, ras_scorer r req alloc = Ret z /\ 0 <= z <= 100.

Lemma least_legal name w ov : (forall k x, w !! k = Some x -> 1 <= x) ->
  scorer_legal (mkScorer name (leastResourceScorer w) (Some w) ov).
Proof.
  intros Hw. exists w. split_and!; [done|done|]. intros req alloc Hok Hv _ _. eexists. split; [done|].
  destruct (weighted_average_exact leastRequestedScore w req alloc Hok Hv) as [-> H]; [|done].
  intros. by apply leastRequestedScore_exact.
Qed.

Lemma most_legal name w ov : (forall k x, w !! k = Some x -> 1 <= x) ->
  scorer_legal (mkScorer name (mostResourceScorer w) (Some w) ov).
Proof.
  intros Hw. exists w. split_and!; [done|done|]. intros req alloc Hok Hv _ _. eexists. split; [done|].
  destruct (weighted_average_exact mostRequestedScore w req alloc Hok Hv) as [-> H]; [|done].
  intros. by apply mostRequestedScore_exact.
Qed.

Lemma ratio_legal name shape w ov : (forall k x, w !! k = Some x -> 1 <= x) -> validateFunctionShape shape = 0%nat ->
  scorer_legal (mkScorer name (requestedToCapacityRatioScorer w shape) (Some w) ov).
Proof.
  intros Hw (Hne & HF & Ho)%valid_shape. exists w. split_and!; [done|done|]. intros req alloc Hok Hv _ _.
  destruct (scale_shape_ok shape HF Ho) as [HF' Ho']. apply ratio_scorer_legal; try done. by destruct shape.
Qed.

Lemma validateResources_weights l : validateResources l = 0%nat ->
  forall k w, resourcesToWeightMap l !! k = Some w -> 1 <= w.
Proof. intros H. eapply validated_weights; [exact H|]. intros r Hr. cbn beta in Hr. zify_bool. lia. Qed.

Lemma built_legal r : built r -> scorer_legal r.
Proof.
  destruct 1 as [args ov fit r H Hs|l ov r H|l ov r H|shape l ov r H|l ov r H].
  - unfold NewFit, ValidateNodeResourcesFitArgs in H. destruct (fit_ScoringStrategy args) as [s|]; [|by case_match].
    specialize (Hs s eq_refl). set (a := sum_list_with _ (IgnoredResources args)) in H.
    set (b := sum_list_with _ (IgnoredResourceGroups args)) in H.
    match type of H with context [negb (?e =? 0)%nat] => destruct (Nat.eqb_spec e 0) as [E|]; [|done] end.
    cbn [negb] in H. assert (validateResources (ss_Resources s) = 0%nat) as Hr by lia.
    pose proof (validateResources_weights _ Hr) as Hw. unfold nodeResourceStrategyTypeMap in H.
    destruct (String.eqb (ss_Type s) LeastAllocated); [injection H as _ <-; by apply least_legal|].
    destruct (String.eqb (ss_Type s) MostAllocated); [injection H as _ <-; by apply most_legal|].
    destruct (String.eqb (ss_Type s) RequestedToCapacityRatio); [|done].
    destruct (ss_RequestedToCapacityRatio s) as [[|pt shape]|]; [done| |done].
    injection H as _ <-. apply ratio_legal; [done|lia].
  - unfold NewLeastAllocated in H. destruct (Nat.eqb_spec (validateResources l) 0) as [E|]; [|done].
    injection H as <-. apply least_legal. by apply validateResources_weights.
  - unfold NewMostAllocated in H. destruct (Nat.eqb_spec (validateResources l) 0) as [E|]; [|done].
    injection H as <-. apply most_legal. by apply validateResources_weights.
  - unfold NewRequestedToCapacityRatio in H.
    destruct (Nat.eqb_spec (validateFunctionShape shape + validateResourcesNoMax l) 0) as [E|]; [|done].
    injection H as <-. apply ratio_legal; [|lia].
    apply (validated_weights (fun r => rsp_Weight r <? 1)); [unfold validateResourcesNoMax in E; lia|].
    intros r Hr. zify_bool. lia.
  - unfold NewBalancedAllocation in H.
    destruct (Nat.eqb_spec (ValidateNodeResourcesBalancedAllocationArgs l) 0) as [E|]; [|done].
    injection H as <-. exists (resourcesToWeightMap l). split_and!; [done| |].
    + intros k w (r & Hr & <-)%resourcesToWeightMap_lookup. apply balanced_weights in E.
      rewrite Forall_forall in E. rewrite E by done. lia.
    + intros req alloc _ Hv Hs Hb. eapply balanced_scorer_legal; [exact Hv|]. lia.
Qed.

Lemma weights_size w : (forall k x, w !! k = Some x -> 1 <= x) -> Zsum (map (get0 w) (keys w)) < 2 ^ 46 ->
  Z.of_nat (size w) < 2 ^ 46.
Proof.
  intros Hw Hs. apply Z.le_lt_trans with (Zsum (map (get0 w) (keys w))); [|done].
  assert (Forall (fun k => 1 <= get0 w k) (keys w)) as HF.
  { apply Forall_forall. intros k [x Hx]%keys_lookup. unfold get0. rewrite Hx. by apply (Hw k). }
  replace (size w) with (length (keys w)) by (unfold keys; by rewrite length_map, length_map_to_list).
  clear -HF. unfold Zsum. induction HF; simpl length; simpl; lia.
Qed.

(** Every scorer of node resources that the constructors accept
    (NodeResourcesFit with any of its strategies, LeastAllocated,
    MostAllocated, RequestedToCapacityRatio, BalancedAllocation) gives every
    node of the snapshot a score from 0 to 100, without an error and without
    a panic, whatever the order in which Go walks its maps, as long as the
    amounts are below 2^53 and the weights add up to less than 2^46.  This
    includes the standard deviation that BalancedAllocation computes in
    floating point.  (A shape of NodeResourcesFit must have points, which
    its validation does not check.) *)
Theorem resource_scores_legal r snap pod nodeName ni :
  built r -> SN_Get snap nodeName = inl ni ->
  (forall w, ras_weights r = Some w ->
     Zsum (map (get0 w) (keys w)) < 2 ^ 46 /\ node_amounts_ok w ni pod (ras_enablePodOverhead r)) ->
  exists z, resource_Score r snap pod nodeName = Ret (z, None) /\ legal_score z = true.
Proof.
  intros (w & Hw & Hpos & Hr)%built_legal Hget Hok. destruct (Hok w Hw) as [Hsum Ham].
  unfold resource_Score, ras_score. rewrite Hget.
  apply SN_Get_Some in Hget as [_ [node ->]]. rewrite Hw.
  pose proof (amounts_ok w ni pod _ Ham) as Hv. pose proof (amounts_size w ni pod (ras_enablePodOverhead r)) as Hs.
  destruct (amounts w ni pod (ras_enablePodOverhead r)) as [req alloc]. cbn [fst snd] in *.
  destruct (Hr req alloc) as (z & Hz & H100); [by constructor|done|done|by apply weights_size|].
  rewrite Hz. exists z. split; [done|]. unfold legal_score, MinNodeScore, MaxNodeScore. lia.
Qed.
End scores.

(** ** Witness, and how overhead is scored *)

Definition cpu_and_memory : list ResourceSpec := [mkResourceSpec ResourceCPU 1; mkResourceSpec ResourceMemory 1].
Definition one_node : Snapshot :=
  mkSnapshot {["n1"%string := node_with (sample_node "n1" ∅ 4000) [sample_nginx "1" 1000]]} ["n1"%string] [] [] 1.

Lemma resource_scores_legal_witness :
  exists z, @resource_Score amd64 range_rev gates_default
    (mkScorer "NodeResourcesLeastAllocated" (@leastResourceScorer range_rev (resourcesToWeightMap cpu_and_memory))
       (Some (resourcesToWeightMap cpu_and_memory)) true) one_node (sample_nginx "2" 1000) "n1" = Ret (z, None) /\
    legal_score z = true.
Proof.
  apply (@resource_scores_legal amd64 range_rev gates_default _ one_node (sample_nginx "2" 1000) "n1"
    (node_with (sample_node "n1" ∅ 4000) [sample_nginx "1" 1000])).
  - apply (@built_Least amd64 range_rev cpu_and_memory true). reflexivity.
  - vm_compute. reflexivity.
  - intros w [= <-]. split; [vm_compute; reflexivity|].
    intros k Hk. assert (k = ResourceCPU \/ k = ResourceMemory) as [-> | ->].
    { unfold resourcesToWeightMap in Hk. cbn [fold_left cpu_and_memory rsp_Name rsp_Weight] in Hk.
      destruct (decide (k = ResourceMemory)) as [-> |H1]; [by right|]. rewrite lookup_insert_ne in Hk by done.
      destruct (decide (k = ResourceCPU)) as [-> |H2]; [by left|]. rewrite lookup_insert_ne in Hk by done.
      rewrite lookup_empty in Hk. by destruct Hk. }
    + vm_compute. split_and!; congruence.
    + vm_compute. split_and!; congruence.
Defined.

(** A pod whose sandbox takes [milli] of processor time. *)
Definition with_overhead (milli : Z) (p : Pod) : Pod :=
  let s := Spec p in
  mkPod (Name p) (Namespace p) (UID p) (ResourceVersion p) (DeletionTimestamp p) (Labels p) (Annotations p)
    (mkPodSpec (Containers s) (InitContainers s) (Some (cpu_request milli)) (NodeName s) (SchedulerName s) (Priority s) (Volumes s)
       (spec_Affinity s) (Tolerations s) (spec_NodeSelector s) (TopologySpreadConstraints s) (PreemptionPolicy s))
    (Status p).

(** The overhead of processor time is read in whole cores where the requests
    are thousandths: 2 cores count as 2 thousandths. *)
Theorem overhead_in_cores :
  @calculatePodResourceRequest amd64 gates_default (with_overhead 2000 (sample_nginx "1" 1000)) ResourceCPU true = 1002 /\
  @calculatePodResourceRequest amd64 gates_default (with_overhead 250 (sample_nginx "1" 1000)) ResourceCPU true = 1001.
Proof. vm_compute. done. Qed.

(** NodeResourcesFit filters with the overhead of pods but its scorers leave
    it out; the plugins for scoring only count it. *)
Theorem Fit_scores_without_overhead args ov fit r :
  @NewFit amd64 range_id args ov = Ret (inl (fit, r)) -> enablePodOverhead fit = ov /\ ras_enablePodOverhead r = false.
Proof.
  unfold NewFit. destruct (negb _); [done|]. destruct (fit_ScoringStrategy args) as [s|]; [|done].
  unfold nodeResourceStrategyTypeMap. destruct (String.eqb _ LeastAllocated); [by intros [= <- <-]|].
  destruct (String.eqb _ MostAllocated); [by intros [= <- <-]|].
  destruct (String.eqb _ RequestedToCapacityRatio); [|done].
  destruct (ss_RequestedToCapacityRatio s); [by intros [= <- <-]|done].
Qed.

(** The validation of NodeResourcesFit takes a ratio strategy without
    parameters, on which the constructor panics, and one without points, on
    which every score panics. *)
Theorem Fit_ratio_without_shape :
  let args p := mkNodeResourcesFitArgs [] [] (Some (mkScoringStrategy RequestedToCapacityRatio cpu_and_memory p)) in
  ValidateNodeResourcesFitArgs (args None) = 0%nat /\ @NewFit amd64 range_id (args None) true = Panic nil_panic /\
  ValidateNodeResourcesFitArgs (args (Some [])) = 0%nat /\
  (let! r := @NewFit amd64 range_id (args (Some [])) true in
   match r with
   | inl (_, s) => @resource_Score amd64 range_id gates_default s one_node (sample_nginx "2" 1000) "n1"
   | inr e => Ret (0, None)
   end) = Panic "index out of range [-1]".
Proof. vm_compute. done. Qed.
