(* ===== verification/ScheduleProofs.v ===== *)
(** * A scheduling cycle picks a best feasible node

    The composition of the snapshot, the filters, the scores and the
    selection in [Schedule]: the host is a node of the cluster that passes
    the filters and has the highest total score of the nodes found; when no
    host is found the diagnosis has the reason of every node. *)

From S2P Require Import Prelude GoInt GoFloat GoStrconv Quantity ApiTypes Labels AffinityTerms Resource HostPorts NodeInfo Json Framework Snapshot NodeTree Cache CacheProofs CacheSnapshot SchedulingQueue Runtime GenericScheduler GenericProofs FilterLoop ScoreProofs Samples.

Open Scope go_scope.

(** ** The nodes of an exact snapshot *)

Lemma live_info_node c x ni :
  tree_inv c -> live_info c x = Some ni -> exists nd, ni_node ni = Some nd /\ node_Name nd = x.
Proof.
  intros Ht. unfold live_info. destruct (info_of c x) as [n|] eqn:E; [|done].
  destruct (ni_node n) as [nd|] eqn:En; [|done]. intros [= <-]. exists nd. split; [done|].
  apply (ti_zone c Ht). unfold object. by rewrite E.
Qed.

Section exact.
Context (c : schedulerCache) (s : Snapshot) (Ht : tree_inv c) (Hx : exact c s).

Lemma in_snapshot x : x ∈ nodeInfoList s <-> is_Some (live_info c x).
Proof. by rewrite (ex_list c s Hx), (ti_live c Ht), live_info_object. Qed.

Lemma SN_List_live ni : ni ∈ SN_List s <-> exists x, live_info c x = Some ni.
Proof.
  unfold SN_List. rewrite list_elem_of_omap. split.
  - intros (x & _ & E). exists x. by rewrite <- (ex_map c s Hx).
  - intros (x & E). exists x. rewrite (ex_map c s Hx). split; [|done]. apply in_snapshot. by eexists.
Qed.

Lemma SN_List_nodes : Forall (fun ni => is_Some (ni_node ni)) (SN_List s).
Proof.
  apply Forall_forall. intros ni (x & E)%SN_List_live.
  destruct (live_info_node c x ni Ht E) as (nd & -> & _). by eexists.
Qed.

Lemma SN_List_names : node_names (SN_List s) = nodeInfoList s.
Proof.
  assert (forall l, (forall x, x ∈ l -> is_Some (live_info c x)) ->
    node_names (omap (fun n => nodeInfoMap s !! n) l) = l) as H.
  { induction l as [|x l IH]; intros Hl; [done|]. destruct (Hl x) as [ni E]; [by left|].
    simpl. rewrite (ex_map c s Hx), E. unfold node_names. simpl.
    destruct (live_info_node c x ni Ht E) as (nd & -> & En). simpl. rewrite En. f_equal. apply IH. intros y Hy. apply Hl. by right. }
  apply H. intros x. apply in_snapshot.
Qed.

Lemma SN_List_nodup : NoDup (node_names (SN_List s)).
Proof. rewrite SN_List_names, (ex_list c s Hx). apply Ht. Qed.

Lemma SN_List_length : length (SN_List s) = SN_NumNodes s.
Proof.
  assert (forall l, (forall x, x ∈ l -> is_Some (live_info c x)) ->
    length (omap (fun n => nodeInfoMap s !! n) l) = length l) as H.
  { induction l as [|x l IH]; intros Hl; [done|]. destruct (Hl x) as [ni E]; [by left|].
    simpl. rewrite (ex_map c s Hx), E. simpl. f_equal. apply IH. intros y Hy. apply Hl. by right. }
  apply H. intros x. apply in_snapshot.
Qed.
End exact.

(** ** Feasible and refused nodes of the cluster *)

Section schedule.
Context {arch : GoArch} {gates : FeatureGates} {mr : MapRange} {par : Parallel} {Ext : Type}.
Context (f : frameworkImpl Ext) (c : schedulerCache) (npm : nominator) (pod : Pod).

Definition fits (state : CycleState) (nd : Node) : Prop :=
  exists ni s, live_info c (node_Name nd) = Some ni /\ ni_node ni = Some nd /\
    verdict f npm state pod ni s /\ IsSuccess s = true.

Definition refused (state : CycleState) (name : string) (s : FStatus) : Prop :=
  exists ni, live_info c name = Some ni /\ verdict f npm state pod ni (Some s) /\
    code s <> Success /\ code s <> Error.

Definition filter_error (state : CycleState) (e : string) : Prop :=
  exists x ni s, live_info c x = Some ni /\ verdict f npm state pod ni s /\
    Status_Code s = Error /\ AsError s = Some e.

(** A search over nodes of the cluster. *)
Lemma search_live state nodes :
  tree_inv c -> (forall ni, ni ∈ nodes -> exists x, live_info c x = Some ni) ->
  (forall nd, feasible_node f npm state pod nodes nd -> fits state nd) /\
  (forall name s, infeasible_node f npm state pod nodes name s -> refused state name s).
Proof.
  intros Ht Hl. split.
  - intros nd (ni & s & Hin & Hnd & Hv & Hs). destruct (Hl ni Hin) as (x & E).
    destruct (live_info_node c x ni Ht E) as (nd' & En & <-). exists ni, s. rewrite Hnd in En. by injection En as <-.
  - intros name s (ni & nd & Hin & Hnd & <- & Hv & Hc1 & Hc2). destruct (Hl ni Hin) as (x & E).
    destruct (live_info_node c x ni Ht E) as (nd' & En & <-). rewrite Hnd in En. injection En as <-. by exists ni.
Qed.

(** Without extenders the filters decide. *)
Lemma filter_and_extend_nil g state d nodes w :
  filter_and_extend f g [] npm state pod d nodes w =
  (let! r := findNodesThatPassFilters f g npm state pod d nodes w in Ret r).
Proof.
  unfold filter_and_extend. destruct (findNodesThatPassFilters _ _ _ _ _ _ _ _) as [[[[g' d'] w'] [l|e]]|]; [|done|done].
  simpl. by destruct d'.
Qed.

Definition diagnosis_ok (state : CycleState) (d : Diagnosis) : Prop :=
  forall name s, NodeToStatusMap d !! name = Some s -> refused state name s.

(** A search over some nodes of the cluster, with the diagnosis so far. *)
Lemma filter_live g state d nodes w :
  tree_inv c -> HasFilterPlugins f = true -> filters_return f -> nodes <> [] ->
  (forall ni, ni ∈ nodes -> exists x, live_info c x = Some ni) -> NoDup (node_names nodes) ->
  Z.of_nat (length nodes) * 100 <= MaxInt32 -> diagnosis_ok state d ->
  exists g' d' w' res, filter_and_extend f g [] npm state pod d nodes w = Ret (g', d', w', res) /\
    nodeInfoSnapshot g' = nodeInfoSnapshot g /\ percentageOfNodesToScore g' = percentageOfNodesToScore g /\
    diagnosis_ok state d' /\
    match res with
    | inl found => Forall (fits state) found /\ NoDup (map node_Name found) /\
        (found = [] -> forall ni nd, ni ∈ nodes -> ni_node ni = Some nd -> is_Some (NodeToStatusMap d' !! node_Name nd)) /\
        Z.of_nat (length found) <= numFeasibleNodesToFind g (Z.of_nat (length nodes)) /\
        (Z.of_nat (length found) < numFeasibleNodesToFind g (Z.of_nat (length nodes)) ->
           forall ni nd, ni ∈ nodes -> ni_node ni = Some nd ->
           nd ∈ found \/ is_Some (NodeToStatusMap d' !! node_Name nd)) /\
        (forall nd, nd ∈ found -> exists ni, ni ∈ nodes /\ ni_node ni = Some nd)
    | inr e => filter_error state e
    end.
Proof.
  intros Ht Hfp Hret Hne Hlive Hnd Hn Hd. rewrite filter_and_extend_nil.
  assert (0 < Z.of_nat (length nodes)) as Hpos by (destruct nodes; [done|simpl; lia]).
  assert (0 < numFeasibleNodesToFind g (Z.of_nat (length nodes))) as Hnum.
  { pose proof (numFeasible_range g (Z.of_nat (length nodes)) ltac:(lia) Hn). unfold minFeasibleNodesToFind in *. lia. }
  destruct (search_spec f g npm state pod d nodes w) as (g' & d' & w' & res & -> & Hs & Hpc & F4 & Hres); try done; [|lia|].
  { apply Forall_forall. intros ni Hin. destruct (Hlive ni Hin) as (x & E).
    destruct (live_info_node c x ni Ht E) as (nd & -> & _). by eexists. }
  destruct (search_live state nodes Ht Hlive) as [Hfit Href].
  exists g', d', w', res. split_and!; [done|done|done| |].
  { intros name s [H|H]%F4; [by apply Hd|by apply Href]. }
  destruct res as [found|e].
  - destruct Hres as [[F1 F2 F3 F5] _]. split_and!; [|done| |done|done|].
    + eapply Forall_impl; [exact F1|]. apply Hfit.
    + intros -> ni nd Hin Hni. destruct (F5 Hnum ni nd Hin Hni) as [?%elem_of_nil|?]; done.
    + intros nd Hin. rewrite Forall_forall in F1. destruct (F1 nd Hin) as (ni & ? & ? & ? & _). by exists ni.
  - destruct Hres as (ni & s & Hin & Hv & Hc & He). destruct (Hlive ni Hin) as (x & E). by exists x, ni, s.
Qed.

Lemma all_failed_spec s nodes m :
  Forall (fun ni => is_Some (ni_node ni)) nodes ->
  exists m', ofold (fun m n => match ni_node n with
                    | None => Panic nil_panic
                    | Some node => Ret (<[node_Name node := s]> m)
                    end) nodes m = Ret m' /\
    (forall k, k ∈ node_names nodes -> m' !! k = Some s) /\
    (forall k, k ∉ node_names nodes -> m' !! k = (m : gmap string FStatus) !! k).
Proof.
  intros H. revert m. induction H as [|ni nodes [nd Hnd] H IH]; intros m; simpl.
  { exists m. split_and!; [done|by intros k ?%elem_of_nil|done]. }
  rewrite Hnd. cbn [obind]. destruct (IH (<[node_Name nd := s]> m)) as (m' & -> & Hin & Hout). exists m'.
  cbn [fmap option_fmap option_map]. fold (node_names nodes). split_and!; [done| |].
  - intros k [-> |Hk]%elem_of_cons; [|by apply Hin].
    destruct (decide (node_Name nd ∈ node_names nodes)) as [Hi|Hi]; [by apply Hin|]. rewrite Hout by done. apply lookup_insert_eq.
  - intros k [Hk1 Hk2]%not_elem_of_cons. rewrite Hout by done. by apply lookup_insert_ne.
Qed.

(** How much of the cluster a search has seen that found [found] and looked
    for [num] nodes: it stopped at the nominated node of the pod, which is
    preferred; or it stopped when it had [num] nodes; or every node of the
    cluster that it did not find was refused by the filters. *)
Definition exhaustive (prefer : bool) (num : Z) (state : CycleState) (found : list Node) : Prop :=
  (prefer = true /\ exists nd, found = [nd] /\ node_Name nd = NominatedNodeName (Status pod)) \/
  Z.of_nat (length found) = num \/
  Z.of_nat (length found) < num /\ forall y ni nd, live_info c y = Some ni -> ni_node ni = Some nd ->
    nd ∈ found \/ exists fs, refused state y fs.

(** What [findNodesThatFitPod] finds, by the status of the PreFilter plugins. *)
Lemma fit_spec prefer g x x' state state' s w :
  tree_inv c -> exact c (nodeInfoSnapshot g) -> SN_NumNodes (nodeInfoSnapshot g) <> 0%nat ->
  Z.of_nat (SN_NumNodes (nodeInfoSnapshot g)) * 100 <= MaxInt32 ->
  HasFilterPlugins f = true -> filters_return f ->
  RunPreFilterPlugins f x state pod = Ret (x', state', s) ->
  exists g' d w' res,
    findNodesThatFitPod f prefer g [] npm x state pod w = Ret (g', x', state', d, w', res) /\
    nodeInfoSnapshot g' = nodeInfoSnapshot g /\
    if IsSuccess s then
      match res with
      | inl found => Forall (fits state') found /\ NoDup (map node_Name found) /\
          (found = [] -> forall x ni, live_info c x = Some ni ->
             exists fs, NodeToStatusMap d !! x = Some fs /\ refused state' x fs) /\
          exhaustive prefer (numFeasibleNodesToFind g (Z.of_nat (SN_NumNodes (nodeInfoSnapshot g)))) state' found
      | inr e => filter_error state' e
      end
    else if IsUnschedulable s then
      res = inl [] /\ forall x ni, live_info c x = Some ni -> NodeToStatusMap d !! x = s
    else res = inr (default ""%string (AsError s)).
Proof.
  intros Ht Hx Hnz Hn Hfp Hret Hpre. unfold findNodesThatFitPod. rewrite Hpre. cbn [obind].
  set (snap := nodeInfoSnapshot g) in *.
  assert (forall y ni, live_info c y = Some ni -> y ∈ node_names (SN_List snap)) as Hnames.
  { intros y ni E. rewrite (SN_List_names c snap Ht Hx), in_snapshot by done. by eexists. }
  destruct (IsSuccess s) eqn:Es; cbn [negb].
  - set (nominated := if (0 <? String.length (NominatedNodeName (Status pod)))%nat && prefer then _ else _).
    assert (exists g1 d1 w1 res1, nominated = Ret (g1, d1, w1, res1) /\ nodeInfoSnapshot g1 = snap /\
      percentageOfNodesToScore g1 = percentageOfNodesToScore g /\ diagnosis_ok state' d1 /\
      match res1 with
      | inl found => Forall (fits state') found /\ NoDup (map node_Name found) /\
          (found <> [] -> prefer = true /\ exists nd, found = [nd] /\ node_Name nd = NominatedNodeName (Status pod))
      | inr _ => True
      end)
      as (g1 & d1 & w1 & res1 & -> & Hg1 & Hpc1 & Hd1 & Hr1).
    { assert (diagnosis_ok state' (mkDiagnosis ∅ ∅)) as Hd0 by (intros ? ?; simpl; by rewrite lookup_empty).
      unfold nominated. destruct (_ && prefer) eqn:Epref.
      2: { do 4 eexists. split_and!; [done|done|done|done|]. split_and!; [constructor|constructor|done]. }
      apply andb_true_iff in Epref as [_ Epref].
      unfold evaluateNominatedNode. fold snap. destruct (SN_Get snap _) as [ni|e] eqn:Hget.
      2: { do 4 eexists. by split_and!. }
      apply SN_Get_Some in Hget as [Hm [nd Hnd]]. rewrite (ex_map c snap Hx) in Hm.
      destruct (filter_live g state' (mkDiagnosis ∅ ∅) [ni] w) as (g' & d' & w' & res & -> & Hs & Hpc & Hd & Hres); try done.
      - intros ni' ->%list_elem_of_singleton. by eexists.
      - unfold node_names. simpl. rewrite Hnd. simpl. apply NoDup_singleton.
      - exists g', d', w', res. split_and!; [done|done|done|done|]. destruct res as [found|]; [|done].
        destruct Hres as (F1 & F2 & _ & F4 & _ & F6). split_and!; [done|done|]. intros Hne. split; [done|].
        pose proof (numFeasible_range g 1 ltac:(lia) ltac:(vm_compute; discriminate)) as Hnum.
        change (Z.of_nat (length [ni])) with 1 in F4.
        destruct found as [|n [|n2 l]]; [done| |cbn [length] in F4; lia]. exists n. split; [done|].
        destruct (F6 n) as (ni' & ->%list_elem_of_singleton & Hn'); [by left|].
        destruct (live_info_node c _ ni Ht Hm) as (nd' & Hnd' & Hname). rewrite Hnd' in Hn'. by injection Hn' as <-. }
    cbn [obind]. set (num := numFeasibleNodesToFind g (Z.of_nat (SN_NumNodes snap))).
    assert (exists g' d' w' res, filter_and_extend f g1 [] npm state' pod d1 (SN_List snap) w1 = Ret (g', d', w', res) /\
      nodeInfoSnapshot g' = snap /\
      match res with
      | inl found => Forall (fits state') found /\ NoDup (map node_Name found) /\
          (found = [] -> forall x ni, live_info c x = Some ni ->
             exists fs, NodeToStatusMap d' !! x = Some fs /\ refused state' x fs) /\
          exhaustive prefer num state' found
      | inr e => filter_error state' e
      end) as (g' & d' & w' & res & Hfull & Hg' & Hres).
    { destruct (filter_live g1 state' d1 (SN_List snap) w1) as (g' & d' & w' & res & Heq & Hs & _ & Hd & Hres); try done.
      - intros E. apply Hnz. by rewrite <- (SN_List_length c snap Ht Hx), E.
      - intros ni. by apply (SN_List_live c snap Ht Hx).
      - by apply (SN_List_nodup c).
      - by rewrite (SN_List_length c snap Ht Hx).
      - exists g', d', w', res. split_and!; [done|congruence|]. destruct res as [found|e]; [|done].
        assert (numFeasibleNodesToFind g1 (Z.of_nat (length (SN_List snap))) = num) as Hk.
        { rewrite (SN_List_length c snap Ht Hx). unfold num, numFeasibleNodesToFind. by rewrite Hpc1. }
        rewrite Hk in Hres. destruct Hres as (F1 & F2 & F3 & F4 & F5 & _). split_and!; [done|done| |].
        + intros -> y ni E. destruct (live_info_node c y ni Ht E) as (nd & Hnd & <-).
          destruct (F3 eq_refl ni nd) as [fs Hfs]; [apply (SN_List_live c snap Ht Hx); eauto|done|].
          exists fs. split; [done|]. by apply Hd.
        + destruct (Z.eq_dec (Z.of_nat (length found)) num) as [?|?]; [by right; left|]. right. right. split; [lia|].
          intros y ni nd E Hnd. destruct (live_info_node c y ni Ht E) as (nd' & Hnd' & <-).
          rewrite Hnd in Hnd'. injection Hnd' as <-.
          destruct (F5 ltac:(lia) ni nd) as [?|[fs Hfs]]; [apply (SN_List_live c snap Ht Hx); eauto|done|by left|].
          right. exists fs. by apply Hd. }
    destruct res1 as [[|n l]|e]; cbn iota; rewrite ?Hfull; cbn [obind];
      (do 4 eexists; split; [done|]; split; [done|]; try exact Hres).
    destruct Hr1 as (F1 & F2 & F3). split_and!; [done|done|done|]. left. by apply F3.
  - destruct (IsUnschedulable s) eqn:Eu; cbn [negb]; [|by do 4 eexists].
    destruct s as [st|]; [|done]. unfold all_failed.
    destruct (all_failed_spec st (SN_List snap) ∅ (SN_List_nodes c snap Ht Hx)) as (m & -> & Hin & _). cbn [obind].
    do 4 eexists. split_and!; [done|done|done|]. intros y ni E. by eapply Hin, Hnames.
Qed.

(** ** Scoring *)

(** No scoring plugin panics. *)
Record scores_return : Prop := {
  sr_prescore : Forall (fun pl => forall st p ns, exists r, ps_PreScore pl st p ns = Ret r) (preScorePlugins Ext f);
  sr_score : Forall (fun pl => forall st p n, exists r, sc_Score pl st p n = Ret r) (scorePlugins Ext f);
  sr_normalize : Forall (fun pl => forall norm, sc_Normalize pl = Some norm ->
    forall st p l, exists r, norm st p l = Ret r) (scorePlugins Ext f)
}.

Lemma run_prescore_ret pls st p ns :
  Forall (fun pl => forall st p ns, exists r, ps_PreScore pl st p ns = Ret r) pls ->
  exists r, run_prescore pls st p ns = Ret r.
Proof.
  intros H. revert st. induction H as [|pl pls Hpl H IH]; intros st; simpl; [by eexists|].
  destruct (Hpl st p ns) as [[st' s] ->]. cbn [obind]. destruct (IsSuccess s); [apply IH|by eexists].
Qed.

Lemma score_node_ret pls st p n :
  Forall (fun pl => forall st p n, exists r, sc_Score pl st p n = Ret r) pls ->
  exists r, score_node pls st p n = Ret r.
Proof.
  intros H. induction H as [|pl pls Hpl H [r IH]]; simpl; [by eexists|].
  destruct (Hpl st p n) as [[z s] ->]. cbn [obind]. destruct (negb (IsSuccess s)); [by eexists|]. rewrite IH. by eexists.
Qed.

Lemma RunScorePlugins_ret st p ns : scores_return -> exists r, RunScorePlugins f st p ns = Ret r.
Proof.
  intros [_ Hs Hn]. unfold RunScorePlugins. set (pls := scorePlugins Ext f) in *.
  destruct (parallel_ret 0 (fun n => score_node pls st p (node_Name n)) ns) as [[rows|e] ->];
    [by intros; apply score_node_ret| |by eexists]. cbn [obind].
  destruct (parallel_ret 1 (normalize st p) (zip pls (map (column ns rows) (seq 0 (length pls))))) as [[ls|e] ->].
  { intros [pl col] Hin%elem_of_zip_l. unfold normalize. cbn [fst snd]. rewrite Forall_forall in Hn.
    destruct (sc_Normalize pl) as [norm|] eqn:En; [|by eexists].
    destruct (Hn pl Hin norm En st p col) as [[l s] ->]. by eexists. }
  2: by eexists.
  cbn [obind]. destruct (parallel_ret 2 (apply_weight f) (zip pls ls)) as [[ws|e] ->]; [|by eexists|by eexists].
  intros e _. unfold apply_weight. by eexists.
Qed.

Lemma prioritize_ret st nodes :
  scores_return -> exists r, prioritizeNodes f [] st pod nodes = Ret r.
Proof.
  intros Hs. unfold prioritizeNodes. destruct (_ && _); [by eexists|]. unfold RunPreScorePlugins.
  destruct (run_prescore_ret (preScorePlugins Ext f) st pod nodes (sr_prescore Hs)) as [[st' s] ->]. cbn [obind].
  destruct (negb _); [by eexists|]. destruct (RunScorePlugins_ret st' pod nodes Hs) as [[l|e] ->]; by eexists.
Qed.

(** What the PreScore plugins keep of the state of the cycle. *)
Definition prescore_keeps (P : CycleState -> Prop) : Prop :=
  Forall (fun pl => forall st p ns st' r, ps_PreScore pl st p ns = Ret (st', r) -> P st -> P st') (preScorePlugins Ext f).

Lemma run_prescore_keeps (P : CycleState -> Prop) pls st p ns st' r :
  Forall (fun pl => forall st p ns st' r, ps_PreScore pl st p ns = Ret (st', r) -> P st -> P st') pls ->
  run_prescore pls st p ns = Ret (st', r) -> P st -> P st'.
Proof.
  intros H. revert st. induction H as [|pl pls Hpl H IH]; intros st; simpl; [by intros [= <- _]|].
  destruct (ps_PreScore pl st p ns) as [[st1 s]|] eqn:Hp; [|done]. cbn [obind].
  destruct (IsSuccess s); [intros Hr Hst; eapply IH; [exact Hr|by eapply Hpl]|].
  intros [= <- _] Hst. by eapply Hpl.
Qed.

Lemma prioritize_keeps (P : CycleState -> Prop) st nodes st' r :
  prioritizeNodes f [] st pod nodes = Ret (st', r) -> prescore_keeps P -> P st -> P st'.
Proof.
  intros H Hp Hst. unfold prioritizeNodes in H. destruct (_ && _); [by injection H as <- _|].
  destruct (RunPreScorePlugins f st pod nodes) as [[st1 s]|] eqn:Hr; [|done]. cbn [obind] in H.
  assert (P st1) as H1 by (by eapply run_prescore_keeps). destruct (negb _); [by injection H as <- _|].
  destruct (RunScorePlugins f st1 pod nodes) as [[]|]; [by injection H as <- _..|done].
Qed.

(** The list of total scores names the nodes and orders them as the weighted
    sums of the plugins' scores do. *)
Lemma prioritize_ok enabled st nodes st' l :
  configured f enabled -> prioritizeNodes f [] st pod nodes = Ret (st', inl l) ->
  map ns_Name l = map node_Name nodes /\
  exists raws k, Forall2 (fun pl raw => raw_scores pl st' pod nodes raw) (scorePlugins Ext f) raws /\
    forall i ns, l !! i = Some ns -> ns_Score ns = k + node_total f raws i.
Proof.
  intros Hc. unfold prioritizeNodes. cbn [length Nat.eqb andb]. unfold HasScorePlugins.
  destruct (scorePlugins Ext f) as [|pl0 pls] eqn:Epl; cbn [length Nat.ltb Nat.leb negb].
  - intros [= <- <-]. split; [by rewrite map_map|]. exists [], 1. split; [constructor|].
    intros i ns (n & -> & _)%list_lookup_fmap_Some. unfold node_total. rewrite Epl. done.
  - destruct (RunPreScorePlugins f st pod nodes) as [[st1 s]|]; [|done]. cbn [obind].
    destruct (negb (IsSuccess s)); [done|].
    destruct (RunScorePlugins f st1 pod nodes) as [[lists|e]|] eqn:Hr; [|done|done]. cbn [obind].
    intros [= <- <-]. split.
    { apply list_eq. intros i. rewrite !list_lookup_fmap, list_lookup_imap. by destruct (nodes !! i). }
    destruct (total_spec f enabled st1 pod nodes lists Hc Hr) as (raws & HF & Htot). exists raws, 0.
    rewrite <- Epl. split; [done|]. intros i ns Hi. rewrite list_lookup_imap in Hi.
    destruct (nodes !! i); [|done]. injection Hi as <-. cbn [ns_Score]. by rewrite (Htot i).
Qed.

(** ** The cycle *)

(** A host chosen among the nodes found. *)
Definition best_of (state : CycleState) (found : list Node) (nd : Node) : Prop :=
  (2 <= length found)%nat ->
  exists raws, Forall2 (fun pl raw => raw_scores pl state pod found raw) (scorePlugins Ext f) raws /\
    forall i j n, found !! i = Some nd -> found !! j = Some n -> node_total f raws j <= node_total f raws i.

Lemma select_best enabled draw st found st' l host :
  configured f enabled -> NoDup (map node_Name found) ->
  prioritizeNodes f [] st pod found = Ret (st', inl l) -> selectHost draw l = inl host ->
  exists nd, nd ∈ found /\ node_Name nd = host /\ best_of st' found nd.
Proof.
  intros Hc Hnd Hp Hsel. destruct (prioritize_ok enabled st found st' l Hc Hp) as (Hnames & raws & k & HF & Htot).
  apply selectHost_max in Hsel as (ns & Hns & <- & Hmax).
  assert (forall i ns, l !! i = Some ns -> exists n, found !! i = Some n /\ node_Name n = ns_Name ns) as Hat.
  { intros i x Hx. assert (map node_Name found !! i = Some (ns_Name x)) as H by (by rewrite <- Hnames, list_lookup_fmap, Hx).
    apply list_lookup_fmap_Some in H as (n & E & Hn). by exists n. }
  apply list_elem_of_lookup in Hns as (p & Hpos). destruct (Hat p ns Hpos) as (nd & Hfound & En).
  exists nd. split_and!; [by eapply list_elem_of_lookup_2|done|]. intros _. exists raws. split; [done|].
  intros i j n Hi Hj.
  assert (i = p) as ->.
  { eapply NoDup_lookup; [exact Hnd|by rewrite list_lookup_fmap, Hi|by rewrite list_lookup_fmap, Hfound]. }
  assert (length l = length found) as Hlen. { rewrite <- (length_map ns_Name l), Hnames. apply length_map. }
  destruct (lookup_lt_is_Some_2 l j) as [nj Hnj]; [rewrite Hlen; by eapply lookup_lt_Some|].
  pose proof (Hmax nj ltac:(by eapply list_elem_of_lookup_2)) as Hle.
  rewrite (Htot p ns Hpos), (Htot j nj Hnj) in Hle. lia.
Qed.

(** What [findNodesThatFitPod] returned for this cycle: distinct nodes, and
    how much of the cluster the search has seen. *)
Definition search_found (prefer : bool) (g : genericScheduler) (x : Ext) (state state' : CycleState)
    (found : list Node) : Prop :=
  (exists g' x' d w',
     findNodesThatFitPod f prefer (with_snapshot (UpdateSnapshot c (nodeInfoSnapshot g)).1 g) [] npm x state pod (world c)
       = Ret (g', x', state', d, w', inl found)) /\
  NoDup (map node_Name found) /\
  exhaustive prefer (numFeasibleNodesToFind g (Z.of_nat (length (all_nodes (c_nodeTree c))))) state' found.

(** How a cycle may end, given the status [s] of the PreFilter plugins, what
    the search found, and what a node that is found satisfies. *)
Definition cycle_result (searched : list Node -> Prop) (s : StatusPtr) (state' st'' : CycleState) (good : Node -> Prop)
    (res : ScheduleResult + ScheduleError) : Prop :=
  match res with
  | inl r => IsSuccess s = true /\ exists found nd,
      searched found /\ nd ∈ found /\ node_Name nd = SuggestedHost r /\ Forall good found /\
      FeasibleNodes r = Z.of_nat (length found) /\ best_of st'' found nd
  | inr (ScheduleFitError n d) =>
      n = Z.of_nat (length (all_nodes (c_nodeTree c))) /\
      forall y ni, live_info c y = Some ni ->
        if IsSuccess s then exists fs, NodeToStatusMap d !! y = Some fs /\ refused state' y fs
        else IsUnschedulable s = true /\ NodeToStatusMap d !! y = s
  | inr (ScheduleErr e) =>
      all_nodes (c_nodeTree c) = [] \/ (IsSuccess s = false /\ IsUnschedulable s = false) \/
      filter_error state' e \/
      exists found st, searched found /\ Forall (fits state') found /\
        prioritizeNodes f [] state' pod found = Ret (st, inr e)
  end.

Lemma Schedule_spec enabled prefer draw g x x' state state' s :
  system c (nodeInfoSnapshot g) -> room c ->
  Z.of_nat (length (all_nodes (c_nodeTree c))) * 100 <= MaxInt32 ->
  HasFilterPlugins f = true -> filters_return f -> scores_return -> configured f enabled ->
  RunPreFilterPlugins f x state pod = Ret (x', state', s) ->
  exists g' x'' st'' w' res,
    Schedule f prefer draw c g [] npm x state pod = Ret (g', x'', st'', w', res) /\
    (forall y, nodeInfoMap (nodeInfoSnapshot g') !! y = live_info c y) /\
    nodeInfoSnapshot g' = (UpdateSnapshot c (nodeInfoSnapshot g)).1 /\
    (all_nodes (c_nodeTree c) = [] -> x'' = x /\ st'' = state) /\
    (all_nodes (c_nodeTree c) <> [] -> x'' = x' /\
       forall P : CycleState -> Prop, prescore_keeps P -> P state' -> P st'') /\
    cycle_result (search_found prefer g x state state') s state' st'' (fits state') res.
Proof.
  intros Hsys Hroom Hn Hfp Hret Hsret Hconf Hpre. destruct (system_inv c _ Hsys) as (_ & Hg & Ht & Hs & _).
  destruct (UpdateSnapshot_exact c _ Hg Ht Hs (proj2 Hroom)) as (snap & Heq & Hx & _).
  assert (SN_NumNodes snap = length (all_nodes (c_nodeTree c))) as Hnum.
  { unfold SN_NumNodes. by rewrite (ex_list c snap Hx). }
  unfold Schedule, cycle_result. rewrite Heq. destruct (Nat.eqb_spec (SN_NumNodes snap) 0) as [Ez|Ez].
  { do 5 eexists. 
    assert (all_nodes (c_nodeTree c) = []) as Hnil by (apply length_zero_iff_nil; congruence).
    split_and!; [done|apply (ex_map c snap Hx)|done|done|by intros []|by left]. }
  destruct (fit_spec prefer (with_snapshot snap g) x x' state state' s (world c) Ht Hx Ez ltac:(simpl; congruence) Hfp Hret Hpre)
    as (g' & d & w' & res & Hfit & Hg' & Hres). rewrite Hfit. cbn [obind].
  assert (forall found, res = inl found -> NoDup (map node_Name found) ->
    exhaustive prefer (numFeasibleNodesToFind g (Z.of_nat (SN_NumNodes snap))) state' found ->
    search_found prefer g x state state' found) as Hsearched.
  { intros found -> H1 H2. unfold search_found. rewrite Heq, <- Hnum. split; [by do 4 eexists|by split]. }
  change (numFeasibleNodesToFind (with_snapshot snap g)) with (numFeasibleNodesToFind g) in Hres.
  cbn [nodeInfoSnapshot with_snapshot] in Hres.
  assert (all_nodes (c_nodeTree c) <> []) as Hne by (intros E; rewrite E in Hnum; by rewrite Hnum in Ez).
  assert (forall y, nodeInfoMap (nodeInfoSnapshot g') !! y = live_info c y) as Hmap.
  { rewrite Hg'. apply (ex_map c snap Hx). }
  destruct res as [[|n [|n2 found]]|e].
  - do 5 eexists. split_and!; [done|done|by rewrite Hg'|done|auto|]. split; [by rewrite Hnum|]. intros y ni E.
    destruct (IsSuccess s); [|destruct (IsUnschedulable s); [|done]].
    + destruct Hres as (_ & _ & H & _). by eapply H.
    + destruct Hres as (_ & H). split; [done|]. by eapply H.
  - do 5 eexists. split_and!; [done|done|by rewrite Hg'|done|auto|]. destruct (IsSuccess s); [|destruct (IsUnschedulable s); [by destruct Hres|done]].
    destruct Hres as (F1 & F2 & _ & F4). split; [done|]. exists [n], n. split_and!; [by apply Hsearched|by left|done|done|done|].
    intros H. simpl in H. lia.
  - set (fs := n :: n2 :: found) in *. destruct (prioritize_ret state' fs Hsret) as [[st'' [l|e]] Hp]; rewrite Hp; cbn [obind];
      (destruct (IsSuccess s); [|destruct (IsUnschedulable s); [by destruct Hres|done]]); destruct Hres as (F1 & F2 & _ & F4); specialize (Hsearched fs eq_refl F2 F4).
    + pose proof (fun P => prioritize_keeps P state' fs _ _ Hp) as Hst. destruct (prioritize_ok enabled state' fs st'' l Hconf Hp) as [Hnames _].
      destruct (selectHost_total draw l) as [host Hsel]; [by intros ->|].
      do 5 eexists. split_and!; [done|done|by rewrite Hg'|done|auto|]. rewrite Hsel. split; [done|].
      destruct (select_best enabled draw state' fs st'' l host Hconf F2 Hp Hsel) as (nd & H1 & H2 & H3).
      exists fs, nd. by split_and!.
    + pose proof (fun P => prioritize_keeps P state' fs _ _ Hp) as Hst. do 5 eexists. split_and!; [done|done|by rewrite Hg'|done|auto|]. right. right. right. by exists fs, st''.
  - do 5 eexists. split_and!; [done|done|by rewrite Hg'|done|auto|]. right. destruct (IsSuccess s); [by right; left|].
    destruct (IsUnschedulable s); [by destruct Hres|by left].
Qed.

(** *** A cycle that returns, whatever the plugins do *)

Lemma filter_sound g state d nodes w g' d' w' found :
  tree_inv c -> HasFilterPlugins f = true -> nodes <> [] ->
  (forall ni, ni ∈ nodes -> exists x, live_info c x = Some ni) -> NoDup (node_names nodes) ->
  Z.of_nat (length nodes) * 100 <= MaxInt32 ->
  filter_and_extend f g [] npm state pod d nodes w = Ret (g', d', w', inl found) ->
  nodeInfoSnapshot g' = nodeInfoSnapshot g /\ Forall (fits state) found.
Proof.
  intros Ht Hfp Hne Hlive Hnd Hn. rewrite filter_and_extend_nil.
  destruct (findNodesThatPassFilters f g npm state pod d nodes w) as [[[[g1 d1] w1] res]|] eqn:Hf; [|done].
  intros [= -> -> -> ->].
  pose proof (numFeasible_range g (Z.of_nat (length nodes)) ltac:(lia) Hn) as Hnum. unfold minFeasibleNodesToFind in Hnum.
  apply search_inv in Hf as (Hs & _ & _ & [F1 _ _ _] & _); try done; [|lia]. split; [done|].
  eapply Forall_impl; [exact F1|]. by apply search_live.
Qed.

Lemma fit_sound prefer g x state w g' x' state' d w' found :
  tree_inv c -> exact c (nodeInfoSnapshot g) -> SN_NumNodes (nodeInfoSnapshot g) <> 0%nat ->
  Z.of_nat (SN_NumNodes (nodeInfoSnapshot g)) * 100 <= MaxInt32 -> HasFilterPlugins f = true ->
  findNodesThatFitPod f prefer g [] npm x state pod w = Ret (g', x', state', d, w', inl found) -> found <> [] ->
  exists s, RunPreFilterPlugins f x state pod = Ret (x', state', s) /\ IsSuccess s = true /\ Forall (fits state') found.
Proof.
  intros Ht Hx Hnz Hn Hfp. unfold findNodesThatFitPod.
  destruct (RunPreFilterPlugins f x state pod) as [[[x1 st1] s]|] eqn:Hpre; [|done]. cbn [obind].
  set (snap := nodeInfoSnapshot g) in *. destruct (IsSuccess s) eqn:Es; cbn [negb].
  2: { destruct (negb _); [done|]. destruct s; [|done]. destruct (all_failed _ _); [|done]. cbn [obind]. by intros [= <- <- <- <- <- <-]. }
  set (nominated := if (0 <? String.length (NominatedNodeName (Status pod)))%nat && prefer then _ else _).
  destruct nominated as [[[[g1 d1] w1] res1]|] eqn:Hnom; [|done]. cbn [obind].
  assert (forall g1, (let! r := filter_and_extend f g1 [] npm st1 pod d1 (SN_List snap) w1 in
      let '(g, diagnosis, w, res) := r in Ret (g, x1, st1, diagnosis, w, res)) = Ret (g', x', state', d, w', inl found) ->
    exists s, Ret (x1, st1, s) = Ret (x', state', s) /\ IsSuccess s = true /\ Forall (fits state') found) as Hall.
  { intros g2. destruct (filter_and_extend f g2 [] npm st1 pod d1 (SN_List snap) w1) as [[[[g3 d3] w3] [l|]]|] eqn:Hfl; [|done|done].
    cbn [obind]. intros [= <- <- <- <- <- <-]. exists s. split_and!; [done|done|].
    eapply filter_sound; [done|done| | | | |exact Hfl].
    - intros E. apply Hnz. by rewrite <- (SN_List_length c snap Ht Hx), E.
    - intros ni. by apply (SN_List_live c snap Ht Hx).
    - by apply (SN_List_nodup c).
    - by rewrite (SN_List_length c snap Ht Hx). }
  intros H Hne. enough (exists s0, Ret (x1, st1, s0) = Ret (x', state', s0) /\ IsSuccess s0 = true /\ Forall (fits state') found)
    as (s0 & [= <- <-] & Hs0 & HF) by (by exists s).
  destruct res1 as [[|n l]|e]; [by eapply Hall| |by eapply Hall].
  injection H as <- <- <- <- <- <-. exists s. split_and!; [done|done|]. unfold nominated in Hnom.
  destruct (_ && prefer); [|done]. unfold evaluateNominatedNode in Hnom. fold snap in Hnom.
  destruct (SN_Get snap _) as [ni|] eqn:Hget; [|done]. apply SN_Get_Some in Hget as [Hm [nd Hnd]]. rewrite (ex_map c snap Hx) in Hm.
  eapply filter_sound; [done|done| | | | |exact Hnom]; [done| | |vm_compute; discriminate].
  - intros ni' ->%list_elem_of_singleton. by eexists.
  - unfold node_names. simpl. rewrite Hnd. simpl. apply NoDup_singleton.
Qed.

Lemma Schedule_sound enabled prefer draw g x state g' x' st'' w' r :
  system c (nodeInfoSnapshot g) -> room c ->
  Z.of_nat (length (all_nodes (c_nodeTree c))) * 100 <= MaxInt32 ->
  HasFilterPlugins f = true -> configured f enabled ->
  Schedule f prefer draw c g [] npm x state pod = Ret (g', x', st'', w', inl r) ->
  exists state' s nd, RunPreFilterPlugins f x state pod = Ret (x', state', s) /\ IsSuccess s = true /\
    fits state' nd /\ node_Name nd = SuggestedHost r /\
    forall P : CycleState -> Prop, prescore_keeps P -> P state' -> P st''.
Proof.
  intros Hsys Hroom Hn Hfp Hconf. destruct (system_inv c _ Hsys) as (_ & Hg & Ht & Hs & _).
  destruct (UpdateSnapshot_exact c _ Hg Ht Hs (proj2 Hroom)) as (snap & Heq & Hx & _).
  assert (SN_NumNodes snap = length (all_nodes (c_nodeTree c))) as Hnum.
  { unfold SN_NumNodes. by rewrite (ex_list c snap Hx). }
  unfold Schedule. rewrite Heq. destruct (Nat.eqb_spec (SN_NumNodes snap) 0) as [Ez|Ez]; [done|].
  destruct (findNodesThatFitPod _ _ _ _ _ _ _ _ _) as [[[[[[g1 x1] st1] d] w1] res]|] eqn:Hfit; [|done]. cbn [obind].
  destruct res as [found|]; [|done].
  assert (found <> [] -> exists s, RunPreFilterPlugins f x state pod = Ret (x1, st1, s) /\ IsSuccess s = true /\ Forall (fits st1) found) as HF.
  { eapply (fit_sound prefer (with_snapshot snap g)); try done. simpl. congruence. }
  destruct found as [|n [|n2 l]]; [done| |].
  - intros [= <- <- <- <- <-]. destruct HF as (s & H1 & H2 & H3%Forall_inv); [done|]. exists st1, s, n. by split_and!.
  - set (fs := n :: n2 :: l) in *. destruct (HF ltac:(done)) as (s & H1 & H2 & H3). rewrite Forall_forall in H3.
    destruct (prioritizeNodes f [] st1 pod fs) as [[st2 [pl|]]|] eqn:Hp; [|done|done]. cbn [obind].
    destruct (selectHost draw pl) as [host|] eqn:Hsel; [|done]. intros [= <- <- <- <- <-]. cbn [SuggestedHost].
    destruct (prioritize_ok enabled st1 fs st2 pl Hconf Hp) as [Hnames _]. apply selectHost_max in Hsel as (ns & Hns & <- & _).
    assert (ns_Name ns ∈ map node_Name fs) as (nd & -> & Hnd)%list_elem_of_fmap by (rewrite <- Hnames; by apply list_elem_of_fmap_2).
    exists st1, s, nd. split_and!; [done|done|by apply H3|done|]. intros P. by eapply prioritize_keeps.
Qed.

(** Every filter plugin admits the node as it is, nominated pods aside. *)
Definition admitted (state : CycleState) (nd : Node) : Prop :=
  exists ni st, live_info c (node_Name nd) = Some ni /\ ni_node ni = Some nd /\
    storage st = storage state /\ admits f st pod ni.

Lemma fits_admitted state nd : fits state nd -> admitted state nd.
Proof.
  intros (ni & s & Hl & Hn & (w & w' & Hr) & Hs).
  destruct (RunFilter_admits f npm state pod ni w s w' Hr Hs) as (st & Hst & Ha). by exists ni, st.
Qed.

Lemma cycle_result_impl S s state' st'' (P Q : Node -> Prop) res :
  (forall nd, P nd -> Q nd) -> cycle_result S s state' st'' P res -> cycle_result S s state' st'' Q res.
Proof.
  intros HPQ. destruct res as [r|[|]]; [|done|done]. intros (? & found & nd & ? & ? & ? & HF & ?). split; [done|].
  exists found, nd. split_and!; try tauto. by eapply Forall_impl.
Qed.

(** C8. A scheduling cycle without extenders always ends in one of three ways.
    It suggests a host: a node of the cluster, as the cache holds it now, that
    passes the filters, with the nominated pods and each of them without,
    whose weighted total score is the highest of the nodes the search
    returned.  These are distinct, all pass the filters, and are every node of
    the cluster that the filters do not refuse, unless the search stopped at
    the nominated node or with as many nodes as it looks for, which is at
    least 100 of them (all, in a smaller cluster).  Or
    it reports that the pod does not fit: then the PreFilter plugins refused
    it, or the diagnosis has for every node of the cluster the status with
    which the filters refused it.
    Or it fails: there are no nodes, or a plugin reported an internal error.
    This holds for every schedule of the parallel loops, whether the nominated
    node is preferred or not. *)
Theorem Schedule_correct enabled prefer draw g x x' state state' s :
  system c (nodeInfoSnapshot g) -> room c ->
  Z.of_nat (length (all_nodes (c_nodeTree c))) * 100 <= MaxInt32 ->
  HasFilterPlugins f = true -> filters_return f -> scores_return -> configured f enabled ->
  RunPreFilterPlugins f x state pod = Ret (x', state', s) ->
  exists g' x'' st'' w' res,
    Schedule f prefer draw c g [] npm x state pod = Ret (g', x'', st'', w', res) /\
    (forall y, nodeInfoMap (nodeInfoSnapshot g') !! y = live_info c y) /\
    Z.min (Z.of_nat (length (all_nodes (c_nodeTree c)))) minFeasibleNodesToFind
      <= numFeasibleNodesToFind g (Z.of_nat (length (all_nodes (c_nodeTree c)))) /\
    cycle_result (search_found prefer g x state state') s state' st'' (fun nd => fits state' nd /\ admitted state' nd) res.
Proof.
  intros Hsys Hroom Hn Hfp Hret Hsret Hconf Hpre.
  destruct (Schedule_spec enabled prefer draw g x x' state state' s) as (g' & x'' & st'' & w' & res & H1 & H2 & _ & _ & _ & H3); try done.
  exists g', x'', st'', w', res. split_and!; [done|done|apply numFeasible_range; lia|]. eapply cycle_result_impl; [|exact H3].
  intros nd Hnd. split; [done|by apply fits_admitted].
Qed.
End schedule.
