(* ===== verification/HiceProfile.v ===== *)
(** * The KubeHICE profile

    The plugins that the README's scheduler configuration enables for
    heterogeneous clusters, as plugins of the framework: Hicev1 filters by
    architecture, Hicev2 filters and scores by performance and binds; and a
    small framework with nothing but these plugins, on which cycles are
    evaluated.  The framework that the README's configuration gives, with the
    default plugins of Kubernetes that stay enabled beside them, is built in
    ProfileProofs.v, and its cycles are the subject of HiceCycle.v. *)

From S2P Require Import Prelude GoInt GoFloat GoStrconv Quantity ApiTypes Labels AffinityTerms Resource HostPorts NodeInfo Json Framework Snapshot NodeTree Cache CacheProofs CacheSnapshot Hicev1 Hicev1Proofs NodeResourcesFit Hicev2 Hicev2Proofs SchedulingQueue Runtime GenericScheduler GenericProofs FilterLoop ScoreProofs ScheduleProofs Samples.

Open Scope go_scope.

Definition Hicev1_Name : string := "Hicev1".
Definition Hicev2_Name : string := "Hicev2".

Section profile.
Context {arch : GoArch} {gates : FeatureGates} {E : EtcdService} {codec : PodCodec}.

(** The methods of [*hicev1.Hice]: the external state is etcd's. *)
Definition hicev1_PreFilterPlugin : PreFilterPlugin EtcdStore :=
  {| pf_Name := Hicev1_Name; pf_PreFilter := Hicev1.PreFilter; pf_Extensions := None |}.

Definition hicev1_FilterPlugin : FilterPlugin :=
  {| fl_Name := Hicev1_Name; fl_Filter := fun state _ nodeInfo => Hicev1.Filter state nodeInfo |}.

(** The methods of [*hicev2.Hice]; [handle.SnapshotSharedLister()] is [snap]. *)
Definition hicev2_FilterPlugin : FilterPlugin :=
  {| fl_Name := Hicev2_Name; fl_Filter := fun _ pod nodeInfo => Hicev2.Filter New pod nodeInfo |}.

Definition hicev2_ScorePlugin (snap : Snapshot) : ScorePlugin :=
  {| sc_Name := Hicev2_Name; sc_Score := fun _ pod nodeName => Hicev2.Score snap pod nodeName;
     sc_Normalize := None |}.

Definition hicev2_BindPlugin (snap : Snapshot) : BindPlugin EtcdStore :=
  {| bd_Name := Hicev2_Name; bd_Bind := Hicev2.Bind snap |}.

Definition hice_weights : list (string * Z) := [(Hicev2_Name, 0)].

(** The framework of these plugins alone, for evaluations. *)
Definition hice_profile (snap : Snapshot) : frameworkImpl EtcdStore :=
  {| preFilterPlugins := [hicev1_PreFilterPlugin];
     filterPlugins := [hicev1_FilterPlugin; hicev2_FilterPlugin];
     postFilterPlugins := [];
     preScorePlugins := [];
     scorePlugins := [hicev2_ScorePlugin snap];
     reservePlugins := []; permitPlugins := []; preBindPlugins := [];
     bindPlugins := [hicev2_BindPlugin snap];
     postBindPlugins := [];
     scorePluginWeight := match configure_weights hice_weights with inl m => m | inr _ => ∅ end;
     runAllFilters := false |}.

(** The plugins return, and the weights are configured. *)
Lemma hice_filters_return snap : filters_return (hice_profile snap).
Proof.
  split; repeat constructor; simpl; try done.
  - intros st p ni [nd Hn]. unfold Hicev1.Filter, fitsArches. destruct (getPreFilterState st); [|by eexists].
    rewrite Hn. by eexists.
  - intros st p ni [nd Hn]. unfold Hicev2.Filter. rewrite Hn. destruct (too_slow _ _ _); by eexists.
Qed.

Lemma hice_scores_return snap : scores_return (hice_profile snap).
Proof.
  split; repeat constructor; simpl; try done. intros st p n. unfold Hicev2.Score.
  destruct (SN_Get snap n) as [ni|e] eqn:Hg; [|by eexists]. apply SN_Get_Some in Hg as [_ [nd ->]].
  destruct (Labels p !! kb_label); by eexists.
Qed.

Lemma hice_configured snap : configured (hice_profile snap) hice_weights.
Proof.
  split; [|split_and!].
  - split; [apply NoDup_singleton|]. repeat constructor; vm_compute; discriminate.
  - done.
  - apply NoDup_singleton.
  - vm_compute. done.
Qed.

End profile.

(** ** A small heterogeneous cluster *)

Definition in_order : Parallel := {| par_order := seq 0; par_order_perm := fun n => Permutation_refl _; par_late := fun _ => 0%nat |}.

(** The other way round, and everything runs to its end. *)
Definition in_reverse : Parallel :=
  {| par_order := fun n => reverse (seq 0 n); par_order_perm := fun n => reverse_Permutation _; par_late := fun n => n |}.

Definition hice_node (name arch kj : string) (milli : Z) : Node :=
  sample_node name (<[kj_label := kj]> {[arch_label := arch]}) milli.

Definition hice_cluster (nodes : list Node) : schedulerCache :=
  fold_left (fun c n => @AddNode amd64 gates_default n c) nodes (newSchedulerCache 30).

Definition edge_nodes (kj : string) : list Node :=
  [hice_node "cloud" "amd64" "1.0" 4000; hice_node "edge" "arm64" kj 4000; hice_node "old" "riscv64" "1.0" 4000].

Definition first_cycle : genericScheduler := NewGenericScheduler NewEmptySnapshot 0.

Definition no_nominations : nominator := NewPodNominator None.

(** The suggested host, or the error. *)
Definition hice_host (par : Parallel) (draw : nat -> Z -> Z) (kj : string) : option (string + ScheduleError) :=
  let c := hice_cluster (edge_nodes kj) in
  match @Schedule amd64 gates_default range_id par EtcdStore
          (@hice_profile amd64 gates_default etcd_ok sample_codec (@UpdateSnapshot range_id c NewEmptySnapshot).1)
          false draw c first_cycle [] no_nominations sample_store NewCycleState (perf_pod "u1" "1.0" 500) with
  | Ret (_, _, _, _, inl r) => Some (inl (SuggestedHost r))
  | Ret (_, _, _, _, inr e) => Some (inr e)
  | Panic _ => None
  end.

(** The faster node wins, in whatever order the loops run; with equal nodes
    the random number decides; a node of another architecture is never taken. *)
Example faster_node_wins :
  hice_host in_order (fun _ _ => 0) "0.5" = Some (inl "cloud"%string) /\
  hice_host in_reverse (fun _ _ => 1) "0.5" = Some (inl "cloud"%string) /\
  hice_host in_order (fun _ _ => 0) "1.0" = Some (inl "edge"%string) /\
  hice_host in_order (fun _ _ => 1) "1.0" = Some (inl "cloud"%string).
Proof. vm_compute. split_and!; reflexivity. Qed.

(** One node with a negative performance label makes the whole cycle
    fail: its score is negative, the framework refuses it, and the pod is not
    placed although another node is free for it. *)
Theorem negative_label_blocks_scheduling :
  Hicev2.Filter (arch := amd64) (gates := gates_default) New (perf_pod "u1" "1.0" 500)
    (perf_info "1.0" 4000 []) = Ret None /\
  Hicev2.Score (arch := amd64) (perf_snapshot (perf_info "-2" 4000 [])) (perf_pod "u1" "1.0" 500) "n1"
    = Ret (-47, None) /\
  hice_host in_order (fun _ _ => 0) "-2" = Some (inr (ScheduleErr (str_app
    "applying score defaultWeights on Score plugins: " (invalid_score "Hicev2" (-47))))).
Proof. vm_compute. split_and!; reflexivity. Qed.

(** ** Witnesses *)

Lemma cluster_add ns n :
  @system amd64 gates_default range_id (hice_cluster ns) NewEmptySnapshot -> room (hice_cluster ns) ->
  object (hice_cluster ns) (node_Name n) = None ->
  @system amd64 gates_default range_id (hice_cluster (ns ++ [n])) NewEmptySnapshot.
Proof.
  intros Hs Hr Ho. unfold hice_cluster. rewrite fold_left_app.
  apply (sys_event (hice_cluster ns)); [done|done|]. by apply is_add_node.
Qed.

Lemma cluster_system : @system amd64 gates_default range_id (hice_cluster (edge_nodes "0.5")) NewEmptySnapshot.
Proof.
  apply (cluster_add [hice_node "cloud" "amd64" "1.0" 4000; hice_node "edge" "arm64" "0.5" 4000]);
    [|split; vm_compute; discriminate|vm_compute; reflexivity].
  apply (cluster_add [hice_node "cloud" "amd64" "1.0" 4000]); [|split; vm_compute; discriminate|vm_compute; reflexivity].
  apply (cluster_add []); [apply sys_new|split; vm_compute; discriminate|vm_compute; reflexivity].
Qed.

Lemma cluster_room : room (hice_cluster (edge_nodes "0.5")).
Proof. split; vm_compute; discriminate. Qed.

Lemma Schedule_correct_witness :
  let c := hice_cluster (edge_nodes "0.5") in
  let f := @hice_profile amd64 gates_default etcd_ok sample_codec (@UpdateSnapshot range_id c NewEmptySnapshot).1 in
  exists g' x'' st'' w' res,
    @Schedule amd64 gates_default range_id in_order EtcdStore f true (fun _ _ => 0) c first_cycle [] no_nominations
      sample_store NewCycleState (perf_pod "u1" "1.0" 500) = Ret (g', x'', st'', w', res) /\
    nodeInfoMap (nodeInfoSnapshot g') !! "edge"%string = live_info c "edge".
Proof.
  set (f := @hice_profile amd64 gates_default etcd_ok sample_codec
    (@UpdateSnapshot range_id (hice_cluster (edge_nodes "0.5")) NewEmptySnapshot).1).
  destruct (@Schedule_correct amd64 gates_default range_id in_order EtcdStore f
    (hice_cluster (edge_nodes "0.5")) no_nominations (perf_pod "u1" "1.0" 500) hice_weights true (fun _ _ => 0)
    first_cycle sample_store sample_store NewCycleState sample_cycle None cluster_system cluster_room)
    as (g' & x'' & st'' & w' & res & H1 & H2 & _).
  - vm_compute. discriminate.
  - reflexivity.
  - apply hice_filters_return.
  - apply hice_scores_return.
  - apply hice_configured.
  - vm_compute. reflexivity.
  - exists g', x'', st'', w', res. split; [exact H1|apply H2].
Defined.

Definition cluster_nodes : list NodeInfo :=
  SN_List (@UpdateSnapshot range_id (hice_cluster (edge_nodes "0.5")) NewEmptySnapshot).1.

Definition cluster_profile : frameworkImpl EtcdStore :=
  @hice_profile amd64 gates_default etcd_ok sample_codec
    (@UpdateSnapshot range_id (hice_cluster (edge_nodes "0.5")) NewEmptySnapshot).1.

Lemma findNodes_correct_witness :
  exists g' d' w' res,
    @findNodesThatPassFilters amd64 gates_default range_id in_reverse EtcdStore cluster_profile first_cycle
      no_nominations sample_cycle (perf_pod "u1" "1.0" 500) (mkDiagnosis ∅ ∅) cluster_nodes empty_world
      = Ret (g', d', w', res).
Proof.
  destruct (@findNodes_correct amd64 gates_default range_id in_reverse EtcdStore cluster_profile first_cycle
    no_nominations sample_cycle (perf_pod "u1" "1.0" 500) (mkDiagnosis ∅ ∅) cluster_nodes empty_world)
    as (_ & g' & d' & w' & res & H & _).
  - reflexivity.
  - apply hice_filters_return.
  - vm_compute. discriminate.
  - apply (bool_decide_unpack _). vm_compute. exact I.
  - apply (bool_decide_unpack _). vm_compute. exact I.
  - vm_compute. discriminate.
  - exists g', d', w', res. exact H.
Defined.

(** A pod that is nominated to the node "edge". *)
Definition nominated_pod : Pod :=
  let p := perf_pod "u1" "1.0" 500 in
  mkPod (Name p) (Namespace p) (UID p) (ResourceVersion p) (DeletionTimestamp p) (Labels p) (Annotations p) (Spec p) (mkPodStatus [] "edge" None).

Definition later_cycle : genericScheduler :=
  mkGenericScheduler (@UpdateSnapshot range_id (hice_cluster (edge_nodes "0.5")) NewEmptySnapshot).1 0 2.

Lemma nominated_node_resets_rotation_witness :
  exists g' d' w' res,
    @evaluateNominatedNode amd64 gates_default range_id in_order EtcdStore cluster_profile later_cycle []
      no_nominations sample_cycle nominated_pod (mkDiagnosis ∅ ∅) empty_world = Ret (g', d', w', res) /\
    nextStartNodeIndex later_cycle = 2%nat /\ nextStartNodeIndex g' = 0%nat.
Proof.
  destruct (@evaluateNominatedNode amd64 gates_default range_id in_order EtcdStore cluster_profile later_cycle []
      no_nominations sample_cycle nominated_pod (mkDiagnosis ∅ ∅) empty_world) as [[[[g' d'] w'] res]|s] eqn:H.
  - exists g', d', w', res. split; [reflexivity|]. split; [reflexivity|].
    destruct (SN_Get (nodeInfoSnapshot later_cycle) (NominatedNodeName (Status nominated_pod))) as [ni|e] eqn:Hg.
    + exact (@nominated_node_resets_rotation amd64 gates_default range_id in_order EtcdStore cluster_profile later_cycle []
        no_nominations sample_cycle nominated_pod (mkDiagnosis ∅ ∅) empty_world ni g' d' w' res Hg H).
    + vm_compute in Hg. discriminate Hg.
  - vm_compute in H. discriminate H.
Defined.

Definition two_nodes : list Node := [hice_node "cloud" "amd64" "1.0" 4000; hice_node "edge" "arm64" "0.5" 4000].

Lemma total_score_exact_witness :
  exists lists raws,
    @RunScorePlugins range_id EtcdStore cluster_profile sample_cycle (perf_pod "u1" "1.0" 500) two_nodes = Ret (inl lists) /\
    total_score lists 1 = node_total cluster_profile raws 1.
Proof.
  destruct (@RunScorePlugins range_id EtcdStore cluster_profile sample_cycle (perf_pod "u1" "1.0" 500) two_nodes)
    as [[lists|s]|s] eqn:H; [|vm_compute in H; discriminate H..].
  destruct (@total_score_exact range_id EtcdStore cluster_profile hice_weights sample_cycle (perf_pod "u1" "1.0" 500)
    two_nodes lists) as (raws & _ & _ & Ht); [apply hice_configured|exact H|].
  exists lists, raws. split; [reflexivity|exact (proj1 (Ht 1%nat))].
Defined.
