(* ===== verification/Scheduler.v ===== *)
(** * The scheduler

    [scheduler.go] and the error function of [factory.go]: one cycle takes a
    pod from the queue, schedules it, assumes it in the cache and runs the
    reserve and permit plugins; the rest runs in a goroutine of its own, the
    binding cycle.  A cycle that fails puts the pod back.

    The binding cycle is a machine with one stage for each call that may take
    long (waiting for permits, PreBind, Bind), so that other cycles and events
    run in between.  Metrics, events and logging are left out. *)

From S2P Require Import Prelude GoInt GoFloat GoStrconv Quantity ApiTypes Labels AffinityTerms Resource HostPorts NodeInfo Json Framework Snapshot NodeTree Cache SchedulingQueue Runtime GenericScheduler.
From Stdlib Require Import Sorting.Mergesort Orders.

Open Scope go_scope.

(** ** Messages *)

(** The order of [sort.Strings]. *)
Module StringOrder <: TotalLeBool.
Definition t := string.
Definition leb := String.leb.
Theorem leb_total : forall a b, leb a b = true \/ leb b a = true.
Proof.
  intros a b. unfold leb, String.leb. rewrite (String.compare_antisym a b).
  destruct (String.compare b a); auto.
Qed.
End StringOrder.
Module StringSort := Sort StringOrder.

Section messages.
Context {mr : MapRange}.

(** [FitError.Error] *)
Definition reasons_histogram (d : Diagnosis) : gmap string Z :=
  fold_left (fun m reason => <[reason := default 0 (m !! reason) + 1]> m)
    (concat (map (fun e : string * FStatus => reasons e.2) (range 0 (map_to_list (NodeToStatusMap d))))) ∅.

Definition sortReasonsHistogram (h : gmap string Z) : list string :=
  StringSort.sort (map (fun e : string * Z => str_app (Itoa e.2) (str_app " " e.1)) (range 1 (map_to_list h))).

Definition FitError_Error (numAllNodes : Z) (d : Diagnosis) : string :=
  str_app "0/" (str_app (Itoa numAllNodes) (str_app " nodes are available: "
    (str_app (Join (sortReasonsHistogram (reasons_histogram d)) ", ") "."))).

Definition ScheduleError_Error (e : ScheduleError) : string :=
  match e with ScheduleFitError n d => FitError_Error n d | ScheduleErr s => s end.
End messages.

(** [codes[c]] *)
Definition Code_String (c : Code) : string :=
  match c with
  | Success => "Success" | Error => "Error" | Unschedulable => "Unschedulable"
  | UnschedulableAndUnresolvable => "UnschedulableAndUnresolvable" | Wait => "Wait" | Skip => "Skip"
  end.

(** ** Conditions of pods (pkg/api/v1/pod/util.go) *)

Definition PodScheduled : string := "PodScheduled".
Definition ConditionFalse : string := "False".
Definition PodReasonUnschedulable : string := "Unschedulable".
Definition SchedulerError : string := "SchedulerError".

(** [GetPodConditionFromList]: the index of the first condition of a type. *)
Fixpoint GetPodConditionFromList (l : list PodCondition) (conditionType : string) : option (nat * PodCondition) :=
  match l with
  | [] => None
  | c :: l =>
      if String.eqb (cond_Type c) conditionType then Some (0%nat, c)
      else prod_map S id <$> GetPodConditionFromList l conditionType
  end.

Definition set_LastTransitionTime (t : Z) (c : PodCondition) : PodCondition :=
  mkPodCondition (cond_Type c) (cond_Status c) (LastProbeTime c) t (cond_Reason c) (cond_Message c).

Definition set_Conditions (l : list PodCondition) (st : PodStatus) : PodStatus :=
  mkPodStatus l (NominatedNodeName st) (StartTime st).

(** [UpdatePodCondition]: the new status, and whether it changed. *)
Definition UpdatePodCondition (now : Z) (status : PodStatus) (condition : PodCondition) : PodStatus * bool :=
  let condition := set_LastTransitionTime now condition in
  match GetPodConditionFromList (Conditions status) (cond_Type condition) with
  | None => (set_Conditions (Conditions status ++ [condition]) status, true)
  | Some (conditionIndex, oldCondition) =>
      let condition :=
        if String.eqb (cond_Status condition) (cond_Status oldCondition)
        then set_LastTransitionTime (LastTransitionTime oldCondition) condition else condition in
      let isEqual :=
        String.eqb (cond_Status condition) (cond_Status oldCondition)
        && String.eqb (cond_Reason condition) (cond_Reason oldCondition)
        && String.eqb (cond_Message condition) (cond_Message oldCondition)
        && (LastProbeTime condition =? LastProbeTime oldCondition)
        && (LastTransitionTime condition =? LastTransitionTime oldCondition) in
      (set_Conditions (<[conditionIndex := condition]> (Conditions status)) status, negb isEqual)
  end.

(** ** State *)

Section scheduler.
Context {arch : GoArch} {gates : FeatureGates} {mr : MapRange} {par : Parallel} {Ext : Type}.

(** The services around the scheduler: the API server, and the informer's
    copy of the pods. *)
Record Client := {
  (** [podLister.Pods(ns).Get(name)] *)
  lister_Get : Ext -> string -> string -> option Pod;
  (** [util.PatchPodStatus] *)
  PatchPodStatus : Ext -> Pod -> PodStatus -> Ext * error;
  (** the node that an API error of the reason NotFound is about *)
  not_found_node : string -> option string;
  (** [Nodes().Get(name)] fails with NotFound *)
  node_missing : Ext -> string -> bool
}.

Record Scheduler := mkScheduler {
  SchedulerCache : schedulerCache;
  Algorithm : genericScheduler;
  SchedulingQueue : PriorityQueue;
  (** the waiting pods of each profile *)
  waitingPods : gmap string waitingPodsMap;
  sched_ext : Ext
}.

Definition set_cache c s := mkScheduler c (Algorithm s) (SchedulingQueue s) (waitingPods s) (sched_ext s).
Definition set_algorithm g s := mkScheduler (SchedulerCache s) g (SchedulingQueue s) (waitingPods s) (sched_ext s).
Definition set_queue q s := mkScheduler (SchedulerCache s) (Algorithm s) q (waitingPods s) (sched_ext s).
Definition set_waiting w s := mkScheduler (SchedulerCache s) (Algorithm s) (SchedulingQueue s) w (sched_ext s).
Definition set_ext x s := mkScheduler (SchedulerCache s) (Algorithm s) (SchedulingQueue s) (waitingPods s) x.

Context (cfg : QueueConfig) (Profiles : gmap string (frameworkImpl Ext)) (Extenders : list Extender)
  (preferNominatedNode : bool) (client : Client).

Definition profile_waiting (name : string) (s : Scheduler) : waitingPodsMap := default ∅ (waitingPods s !! name).

(** ** Failures *)

Definition set_UnschedulablePlugins (u : gset string) (p : QueuedPodInfo) : QueuedPodInfo :=
  mkQueuedPodInfo (qpi_PodInfo p) (pi_addr p) (Timestamp p) (Attempts p) (InitialAttemptTimestamp p) u.

(** A node that the API server no longer has leaves the cache. *)
Definition drop_missing_node (err : ScheduleError) (s : Scheduler) : Scheduler :=
  match err with
  | ScheduleFitError _ _ => s
  | ScheduleErr e =>
      if String.eqb e ErrNoNodesAvailable then s
      else match not_found_node client e with
           | Some nodeName =>
               if node_missing client (sched_ext s) nodeName
               then set_cache (cache_RemoveNode (mkNode nodeName ∅ [] false ∅ [] []) (SchedulerCache s)).1 s
               else s
           | None => s
           end
  end.

(** [MakeDefaultErrorFunc]: the pod goes back to the queue, unless it is gone
    or has been assigned.  The result has the entry as the call leaves it. *)
Definition DefaultErrorFunc (now : Z) (podInfo : QueuedPodInfo) (err : ScheduleError) (s : Scheduler)
  : Scheduler * QueuedPodInfo :=
  let pod := qpi_Pod podInfo in
  let podInfo := match err with
                 | ScheduleFitError _ d => set_UnschedulablePlugins (dg_UnschedulablePlugins d) podInfo
                 | ScheduleErr _ => podInfo
                 end in
  let s := drop_missing_node err s in
  match lister_Get client (sched_ext s) (Namespace pod) (Name pod) with
  | None => (s, podInfo)
  | Some cachedPod =>
      if negb (String.length (NodeName (Spec cachedPod)) =? 0)%nat then (s, podInfo)
      else
        let q := SchedulingQueue s in
        let podInfo := mkQueuedPodInfo (NewPodInfo cachedPod) (next_addr q) (Timestamp podInfo) (Attempts podInfo)
                         (InitialAttemptTimestamp podInfo) (UnschedulablePlugins podInfo) in
        let q := set_next_addr (next_addr q + 1) q in
        let '(q, _) := AddUnschedulableIfNotPresent cfg now podInfo (schedulingCycle q) q in
        (set_queue q s, podInfo)
  end.

(** [updatePod]: the condition and the nominated node, if they changed. *)
Definition update_status (now : Z) (x : Ext) (pod : Pod) (condition : PodCondition) (nominatedNode : string)
  : Ext * error :=
  let '(podStatusCopy, changed) := UpdatePodCondition now (Status pod) condition in
  if negb changed && ((String.length nominatedNode =? 0)%nat
                      || String.eqb (NominatedNodeName (Status pod)) nominatedNode)
  then (x, None)
  else
    let podStatusCopy :=
      if String.eqb nominatedNode "" then podStatusCopy
      else mkPodStatus (Conditions podStatusCopy) nominatedNode (StartTime podStatusCopy) in
    PatchPodStatus client x pod podStatusCopy.

Definition recordSchedulingFailure (now : Z) (podInfo : QueuedPodInfo) (err : ScheduleError)
    (reason nominatedNode : string) (s : Scheduler) : Scheduler :=
  let '(s, podInfo) := DefaultErrorFunc now podInfo err s in
  let s := set_queue (AddNominatedPod podInfo nominatedNode (SchedulingQueue s)) s in
  let '(x, _) := update_status now (sched_ext s) (qpi_Pod podInfo)
                   (mkPodCondition PodScheduled ConditionFalse 0 0 reason (ScheduleError_Error err)) nominatedNode in
  set_ext x s.

(** ** Assuming and binding *)

(** [assume]; the second component is the modified pod. *)
Definition assume (assumed : Pod) (host : string) (s : Scheduler) : Scheduler * Pod * error :=
  let assumed := set_NodeName host assumed in
  match AssumePod assumed (SchedulerCache s) with
  | (c, Some e) => (set_cache c s, assumed, Some e)
  | (c, None) =>
      let q := SchedulingQueue s in
      (set_queue (set_nominator (npm_delete (q_nominator q) assumed) q) (set_cache c s), assumed, None)
  end.

(** [extendersBinding]: the first binder that is interested decides. *)
Definition extendersBinding (pod : Pod) (node : string) : option error :=
  (fun ext => ex_Bind ext pod node) <$>
    List.find (fun ext => ex_IsBinder ext && ex_IsInterested ext pod) Extenders.

Definition bind (now : Z) (f : frameworkImpl Ext) (assumed : Pod) (targetNode : string) (state : CycleState)
    (s : Scheduler) : outcome (Scheduler * error) :=
  let! r :=
    match extendersBinding assumed targetNode with
    | Some err => Ret (sched_ext s, err)
    | None =>
        let! r := RunBindPlugins f (sched_ext s) state assumed targetNode in
        let '(x, bindStatus) := r in
        Ret (x, if IsSuccess bindStatus then None
                else if bool_decide (Status_Code bindStatus = Error) then AsError bindStatus
                else Some (str_app "bind status: " (str_app (Code_String (Status_Code bindStatus))
                       (str_app ", " (Message bindStatus)))))
    end in
  let '(x, err) := r in
  (* deferred: [finishBinding] *)
  let s := set_ext x s in
  Ret (set_cache (finishBinding assumed now (SchedulerCache s)).1 s, err).

(** ** The scheduling cycle *)

Definition frameworkForPod (pod : Pod) : option (frameworkImpl Ext) := Profiles !! SchedulerName (Spec pod).

Definition skipPodSchedule (pod : Pod) (s : Scheduler) : bool :=
  match DeletionTimestamp pod with
  | Some _ => true
  | None =>
      match IsAssumedPod pod (SchedulerCache s) with
      | (_, Some _) => false
      | (isAssumed, None) => isAssumed
      end
  end.

Definition PodsToActivateKey : string := "kubernetes.io/pods-to-activate".

(** The pods that plugins stashed in the state of the cycle. *)
Definition podsToActivate (state : CycleState) : gmap string Pod :=
  match CS_Read state PodsToActivateKey with inl (SD_PodsToActivate m) => m | _ => ∅ end.

Definition activate_stashed (state : CycleState) (s : Scheduler) : outcome Scheduler :=
  if negb (size (podsToActivate state) =? 0)%nat then
    let! q := Activate cfg (podsToActivate state) (SchedulingQueue s) in Ret (set_queue q s)
  else Ret s.

(** [QueuedPodInfo.DeepCopy], which leaves [UnschedulablePlugins] out; the
    copy of the [PodInfo] is a new object. *)
Definition QPI_DeepCopy (p : QueuedPodInfo) (s : Scheduler) : QueuedPodInfo * Scheduler :=
  let q := SchedulingQueue s in
  (mkQueuedPodInfo (qpi_PodInfo p) (next_addr q) (Timestamp p) (Attempts p) (InitialAttemptTimestamp p) ∅,
   set_queue (set_next_addr (next_addr q + 1) q) s).

(** What the binding goroutine has. *)
Inductive stage := WaitingOnPermit | PreBinding | Binding.

Record binding := mkBinding {
  b_stage : stage;
  b_profile : string;
  b_podInfo : QueuedPodInfo;   (** [assumedPodInfo] *)
  b_host : string;
  b_state : CycleState
}.

Inductive cycle_end :=
| CycleIdle                    (** there is no pod to schedule *)
| CycleSkipped (pod : Pod)
| CycleFailed (pod : Pod)
| CycleBinding (b : binding).

Definition status_error (st : StatusPtr) : ScheduleError := ScheduleErr (default ""%string (AsError st)).

(** Unreserve, forget and record the failure. *)
Definition undo (now : Z) (f : frameworkImpl Ext) (podInfo : QueuedPodInfo) (host : string) (state : CycleState)
    (err : ScheduleError) (reason : string) (s : Scheduler) : outcome Scheduler :=
  let! r := RunReservePluginsUnreserve f (sched_ext s) state (qpi_Pod podInfo) host in
  let s := set_ext r.1 s in
  let! r := ForgetPod (qpi_Pod podInfo) (SchedulerCache s) in
  Ret (recordSchedulingFailure now podInfo err reason "" (set_cache r.1 s)).

(** [assume] changes the pod that the [PodInfo] of the copy points to. *)
Definition set_pi_Pod (p : Pod) (pi : PodInfo) : PodInfo :=
  mkPodInfo p (RequiredAffinityTerms pi) (RequiredAntiAffinityTerms pi) (PreferredAffinityTerms pi)
    (PreferredAntiAffinityTerms pi) (ParseError pi).

(** The part after a host was found. *)
Definition commit (now : Z) (f : frameworkImpl Ext) (podInfo : QueuedPodInfo) (host : string) (state : CycleState)
    (s : Scheduler) : outcome (Scheduler * cycle_end) :=
  let pod := qpi_Pod podInfo in
  let '(assumedPodInfo, s) := QPI_DeepCopy podInfo s in
  let '(s, assumedPod, err) := assume (qpi_Pod assumedPodInfo) host s in
  let assumedPodInfo := set_qpi_PodInfo (set_pi_Pod assumedPod (qpi_PodInfo assumedPodInfo)) assumedPodInfo in
  match err with
  | Some e => Ret (recordSchedulingFailure now assumedPodInfo (ScheduleErr e) SchedulerError "" s, CycleFailed pod)
  | None =>
      let! r := RunReservePluginsReserve f (sched_ext s) state assumedPod host in
      let '(x, state, sts) := r in
      let s := set_ext x s in
      if negb (IsSuccess sts) then
        let! s := undo now f assumedPodInfo host state (status_error sts) SchedulerError s in
        Ret (s, CycleFailed pod)
      else
        let name := SchedulerName (Spec pod) in
        let! r := RunPermitPlugins f (profile_waiting name s) (sched_ext s) state assumedPod host in
        let '(waiting, x, runPermitStatus) := r in
        let s := set_ext x (set_waiting (<[name := waiting]> (waitingPods s)) s) in
        if negb (bool_decide (Status_Code runPermitStatus = Wait)) && negb (IsSuccess runPermitStatus) then
          let reason := if IsUnschedulable runPermitStatus then PodReasonUnschedulable else SchedulerError in
          let! s := undo now f assumedPodInfo host state (status_error runPermitStatus) reason s in
          Ret (s, CycleFailed pod)
        else
          let! s := activate_stashed state s in
          let state := CS_Write state PodsToActivateKey (SD_PodsToActivate ∅) in
          Ret (s, CycleBinding (mkBinding WaitingOnPermit name assumedPodInfo host state))
  end.

(** Preemption: the nominated node, when the PostFilter plugins find one. *)
Definition post_filter (f : frameworkImpl Ext) (state : CycleState) (pod : Pod) (err : ScheduleError) (s : Scheduler)
  : outcome (Scheduler * string) :=
  match err with
  | ScheduleFitError _ d =>
      if negb (HasPostFilterPlugins f) then Ret (s, ""%string)
      else
        let! r := RunPostFilterPlugins f (sched_ext s) state pod (NodeToStatusMap d) in
        let '(x, result, status) := r in
        Ret (set_ext x s, if IsSuccess status then default ""%string result else ""%string)
  | ScheduleErr _ => Ret (s, ""%string)
  end.

(** The parts of [scheduleOne].  First the algorithm decides on the pod that
    was popped, unless the pod is to be skipped; [sampled] says whether plugin
    metrics are recorded. *)
Definition decide_on (draw : nat -> Z -> Z) (sampled : bool) (podInfo : QueuedPodInfo) (s : Scheduler)
  : outcome (Scheduler * option (frameworkImpl Ext * CycleState * (ScheduleResult + ScheduleError))) :=
  let pod := qpi_Pod podInfo in
  match frameworkForPod pod with
  | None => Ret (s, None)
  | Some f =>
      if skipPodSchedule pod s then Ret (s, None)
      else
        let state := CS_Write (mkCycleState ∅ sampled) PodsToActivateKey (SD_PodsToActivate ∅) in
        let! r := Schedule f preferNominatedNode draw (SchedulerCache s) (Algorithm s) Extenders
                    (q_nominator (SchedulingQueue s)) (sched_ext s) state pod in
        let '(g, x, state, w, scheduleResult) := r in
        Ret (set_ext x (set_algorithm g (set_cache (with_world w (SchedulerCache s)) s)), Some (f, state, scheduleResult))
  end.

(** Then the pod is assumed on the host, or preemption is tried and the
    failure recorded. *)
Definition conclude (now : Z) (f : frameworkImpl Ext) (podInfo : QueuedPodInfo) (state : CycleState)
    (scheduleResult : ScheduleResult + ScheduleError) (s : Scheduler) : outcome (Scheduler * cycle_end) :=
  match scheduleResult with
  | inr err =>
      let! r := post_filter f state (qpi_Pod podInfo) err s in
      let '(s, nominatedNode) := r in
      Ret (recordSchedulingFailure now podInfo err PodReasonUnschedulable nominatedNode s, CycleFailed (qpi_Pod podInfo))
  | inl res => commit now f podInfo (SuggestedHost res) state s
  end.

(** [scheduleOne]; [now] is the time of the calls that read the clock. *)
Definition scheduleOne (now : Z) (draw : nat -> Z -> Z) (sampled : bool) (s : Scheduler)
  : outcome (Scheduler * cycle_end) :=
  let! r := Pop cfg (SchedulingQueue s) in
  let '(q, item) := r in
  let s := set_queue q s in
  match item with
  | PopWait | PopError _ => Ret (s, CycleIdle)
  | PopItem podInfo =>
      let! r := decide_on draw sampled podInfo s in
      let '(s, decision) := r in
      match decision with
      | None => Ret (s, CycleSkipped (qpi_Pod podInfo))
      | Some (f, state, scheduleResult) => conclude now f podInfo state scheduleResult s
      end
  end.

(** ** The binding cycle *)

Inductive binding_end :=
| BindingNext (b : binding)
| BindingDone (pod : Pod)
| BindingFailed (pod : Pod).

Definition set_stage (st : stage) (b : binding) : binding :=
  mkBinding st (b_profile b) (b_podInfo b) (b_host b) (b_state b).

(** One stage; [None] while the pod waits for a permit. *)
Definition binding_step (now : Z) (f : frameworkImpl Ext) (b : binding) (s : Scheduler)
  : outcome (option (Scheduler * binding_end)) :=
  let assumedPod := qpi_Pod (b_podInfo b) in
  let failed err reason s :=
    let! s := undo now f (b_podInfo b) (b_host b) (b_state b) err reason s in
    Ret (Some (s, BindingFailed assumedPod)) in
  match b_stage b with
  | WaitingOnPermit =>
      match WaitOnPermit (profile_waiting (b_profile b) s) assumedPod with
      | None => Ret None
      | Some (waiting, waitOnPermitStatus) =>
          let s := set_waiting (<[b_profile b := waiting]> (waitingPods s)) s in
          if negb (IsSuccess waitOnPermitStatus) then
            failed (status_error waitOnPermitStatus)
              (if IsUnschedulable waitOnPermitStatus then PodReasonUnschedulable else SchedulerError) s
          else Ret (Some (s, BindingNext (set_stage PreBinding b)))
      end
  | PreBinding =>
      let! r := RunPreBindPlugins f (sched_ext s) (b_state b) assumedPod (b_host b) in
      let '(x, preBindStatus) := r in
      let s := set_ext x s in
      if negb (IsSuccess preBindStatus) then failed (status_error preBindStatus) SchedulerError s
      else Ret (Some (s, BindingNext (set_stage Binding b)))
  | Binding =>
      let! r := bind now f assumedPod (b_host b) (b_state b) s in
      let '(s, err) := r in
      match err with
      | Some e => failed (ScheduleErr (str_app "binding rejected: " e)) SchedulerError s
      | None =>
          let! x := RunPostBindPlugins f (sched_ext s) (b_state b) assumedPod (b_host b) in
          let! s := activate_stashed (b_state b) (set_ext x s) in
          Ret (Some (s, BindingDone assumedPod))
      end
  end.
End scheduler.
