(* ===== verification/Preemption.v ===== *)
(** * Preemption

    [framework/plugins/defaultpreemption] (default_preemption.go,
    candidate.go) and the helpers of [pkg/scheduler/util/utils.go]: for a pod
    that fits no node, the plugin tries on copies of the nodes which pods of
    lower priority would have to go, picks a node, deletes its victims and
    nominates the node.

    [time.Now] is read once ([now]); [sort.Slice], which leaves the order of
    equal elements open, is the class [SortSlice]; the dry run on the nodes is
    a parallel loop in the order of the class [Parallel], as in
    [GenericScheduler].  The API server, and the pods that wait for permits,
    are reached through the class [PreemptionClient]. *)

From S2P Require Import Prelude GoInt GoFloat GoStrconv Quantity ApiTypes Labels AffinityTerms Resource HostPorts NodeInfo Json Framework Snapshot NodeTree Cache SchedulingQueue Runtime GenericScheduler Scheduler.

Open Scope go_scope.

(** ** [sort.Slice] *)

(** [less] orders the elements, up to ties. *)
Record strict_weak {A} (less : A -> A -> bool) : Prop := {
  sw_irrefl : forall x, less x x = false;
  sw_trans : forall x y z, less x y = true -> less y z = true -> less x z = true;
  sw_incomparable : forall x y z, less x y = false -> less y z = false -> less x z = false
}.

(** The result has the same elements; it is sorted if [less] is an order. *)
Class SortSlice := {
  sort_slice : forall A, (A -> A -> bool) -> list A -> list A;
  sort_slice_perm : forall A less (l : list A), sort_slice A less l ≡ₚ l;
  sort_slice_sorted : forall A less (l : list A), strict_weak less ->
    StronglySorted (fun x y => less y x = false) (sort_slice A less l)
}.
Arguments sort_slice {_ A} less l.

(** ** Pods (utils.go) *)

Section pods.
Context (now : Z).

Definition GetPodStartTime (pod : Pod) : Z := default now (StartTime (Status pod)).

Definition MoreImportantPod (pod1 pod2 : Pod) : bool :=
  let p1 := PodPriority pod1 in
  let p2 := PodPriority pod2 in
  if negb (p1 =? p2) then p2 <? p1 else GetPodStartTime pod1 <? GetPodStartTime pod2.

(** The round of the loop of [GetEarliestPodStartTime]: the earliest start and
    the highest priority so far. *)
Definition earliest_step (st : Z * Z) (pod : Pod) : Z * Z :=
  let '(earliest, maxPriority) := st in
  if PodPriority pod =? maxPriority then
    (if GetPodStartTime pod <? earliest then GetPodStartTime pod else earliest, maxPriority)
  else if maxPriority <? PodPriority pod then (GetPodStartTime pod, PodPriority pod)
  else st.
End pods.

(** [extenderv1.Victims], [candidate] *)
Record Victims := mkVictims { v_Pods : list Pod; NumPDBViolations : Z }.
Record candidate := mkCandidate { c_victims : Victims; c_name : string }.

Definition GetEarliestPodStartTime (now : Z) (victims : Victims) : option Z :=
  match v_Pods victims with
  | [] => None
  | p :: _ => Some (fold_left (earliest_step now) (v_Pods victims) (GetPodStartTime now p, PodPriority p)).1
  end.

(** ** Disruption budgets *)

Record PodDisruptionBudget := mkPDB {
  pdb_Namespace : string;
  pdb_Selector : option LabelSelector;
  DisruptionsAllowed : Z;
  DisruptedPods : gset string
}.

(** The budget counts the pod: it selects it and has not processed it yet. *)
Definition pdb_counts (pdb : PodDisruptionBudget) (pod : Pod) : bool :=
  String.eqb (pdb_Namespace pdb) (Namespace pod) &&
  match LabelSelectorAsSelector (pdb_Selector pdb) with
  | inr _ => false
  | inl selector =>
      negb (Sel_Empty selector || negb (Sel_Matches selector (Labels pod))) &&
      negb (bool_decide (Name pod ∈ DisruptedPods pdb))
  end.

(** The loop over the budgets for one pod: the budgets left, and whether one
    is exceeded. *)
Fixpoint charge_pdbs (pdbs : list PodDisruptionBudget) (allowed : list Z) (pod : Pod) : list Z * bool :=
  match pdbs, allowed with
  | pdb :: pdbs, a :: allowed =>
      let '(l, violated) := charge_pdbs pdbs allowed pod in
      if pdb_counts pdb pod then
        let a := int32 (a - 1) in (a :: l, violated || (a <? 0))
      else (a :: l, violated)
  | _, _ => (allowed, false)
  end.

Fixpoint split_violating (pdbs : list PodDisruptionBudget) (allowed : list Z) (podInfos : list PodInfo)
  : list PodInfo * list PodInfo :=
  match podInfos with
  | [] => ([], [])
  | pi :: podInfos =>
      let '(allowed, violated) :=
        if (size (Labels (pi_Pod pi)) =? 0)%nat then (allowed, false) else charge_pdbs pdbs allowed (pi_Pod pi) in
      let '(v, n) := split_violating pdbs allowed podInfos in
      if violated then (pi :: v, n) else (v, pi :: n)
  end.

Definition filterPodsWithPDBViolation (podInfos : list PodInfo) (pdbs : list PodDisruptionBudget)
  : list PodInfo * list PodInfo :=
  split_violating pdbs (map DisruptionsAllowed pdbs) podInfos.

(** ** Arguments *)

Record DefaultPreemptionArgs := mkPreemptionArgs {
  MinCandidateNodesPercentage : Z;
  MinCandidateNodesAbsolute : Z
}.

Definition ValidateDefaultPreemptionArgs (args : DefaultPreemptionArgs) : bool :=
  let p := MinCandidateNodesPercentage args in
  let a := MinCandidateNodesAbsolute args in
  negb ((p <? 0) || (100 <? p)) && negb (a <? 0) && negb ((p =? 0) && (a =? 0)).

Definition calculateNumCandidates (args : DefaultPreemptionArgs) (numNodes : Z) : Z :=
  let n := Z.quot (int32 (numNodes * MinCandidateNodesPercentage args)) 100 in
  let n := if n <? MinCandidateNodesAbsolute args then MinCandidateNodesAbsolute args else n in
  if numNodes <? n then numNodes else n.

(** ** Which pods and nodes *)

Definition PreemptNever : string := "Never".

Definition PodEligibleToPreemptOthers (pod : Pod) (snap : Snapshot) (nominatedNodeStatus : StatusPtr) : bool :=
  if bool_decide (PreemptionPolicy (Spec pod) = Some PreemptNever) then false
  else
    let nomNodeName := NominatedNodeName (Status pod) in
    if (0 <? String.length nomNodeName)%nat then
      if bool_decide (Status_Code nominatedNodeStatus = UnschedulableAndUnresolvable) then true
      else
        match SN_Get snap nomNodeName with
        | inl nodeInfo =>
            negb (existsb (fun p =>
              bool_decide (is_Some (DeletionTimestamp (pi_Pod p))) && (PodPriority (pi_Pod p) <? PodPriority pod))
              (Pods nodeInfo))
        | inr _ => true
        end
    else true.

Definition not_helpful : FStatus :=
  NewStatus UnschedulableAndUnresolvable ["Preemption is not helpful for scheduling"%string].

Fixpoint nodesWherePreemptionMightHelp (nodes : list NodeInfo) (m : gmap string FStatus)
  : outcome (list NodeInfo * gmap string FStatus) :=
  match nodes with
  | [] => Ret ([], ∅)
  | n :: nodes =>
      match ni_node n with
      | None => Panic nil_panic
      | Some node =>
          let! r := nodesWherePreemptionMightHelp nodes m in
          let '(potential, statuses) := r in
          Ret (if bool_decide (Status_Code (m !! node_Name node) = UnschedulableAndUnresolvable)
               then (potential, <[node_Name node := not_helpful]> statuses)
               else (n :: potential, statuses))
      end
  end.

(** ** The lists of candidates, filled concurrently *)

Record candidateList := mkCandidateList { cl_idx : Z; cl_items : list (option candidate) }.

Definition newCandidateList (size : Z) : outcome candidateList :=
  if size <? 0 then Panic "makeslice: len out of range" else Ret (mkCandidateList (-1) (replicate (Z.to_nat size) None)).

Definition cl_add (c : candidate) (cl : candidateList) : candidateList :=
  let idx := int32 (cl_idx cl + 1) in
  mkCandidateList idx
    (if idx <? Z.of_nat (length (cl_items cl)) then <[Z.to_nat idx := Some c]> (cl_items cl) else cl_items cl).

Definition cl_size (cl : candidateList) : Z :=
  let n := int32 (cl_idx cl + 1) in
  if Z.of_nat (length (cl_items cl)) <=? n then Z.of_nat (length (cl_items cl)) else n.

(** [get]: the items that were stored. *)
Definition cl_get (cl : candidateList) : list candidate :=
  omap id (take (Z.to_nat (cl_size cl)) (cl_items cl)).

(** ** The dry run on one node *)

Section dryrun.
Context {arch : GoArch} {gates : FeatureGates} {mr : MapRange} {par : Parallel} {srt : SortSlice} {Ext : Type}.
Context (f : frameworkImpl Ext) (npm : nominator) (now : Z) (pod : Pod) (pdbs : list PodDisruptionBudget).

(** What the dry run changes: its copies of the cycle state and of the node. *)
Record sim := mkSim { sim_state : CycleState; sim_node : NodeInfo; sim_world : World }.

Definition removePod (rpi : PodInfo) (s : sim) : outcome (sim * error) :=
  let! r := RemovePod (pi_Pod rpi) (sim_node s) (sim_world s) in
  let '(ni, w, err) := r in
  match err with
  | Some e => Ret (mkSim (sim_state s) ni w, Some e)
  | None =>
      let! r := RunPreFilterExtensionRemovePod f (sim_state s) pod rpi ni in
      let '(state, status) := r in
      Ret (mkSim state ni w, if IsSuccess status then None else AsError status)
  end.

Definition addPod (api : PodInfo) (s : sim) : outcome (sim * error) :=
  let '(ni, w) := AddPodInfo api (sim_node s) (sim_world s) in
  let! r := RunPreFilterExtensionAddPod f (sim_state s) pod api ni in
  let '(state, status) := r in
  Ret (mkSim state ni w, if IsSuccess status then None else AsError status).

Definition sim_filter (s : sim) : outcome (sim * StatusPtr) :=
  let! r := RunFilterPluginsWithNominatedPods f npm (sim_state s) pod (sim_node s) (sim_world s) in
  Ret (mkSim (sim_state s) (sim_node s) r.2, r.1).

(** The loop that removes the pods of lower priority.  It ranges over the
    slice that [nodeInfo.Pods] was at the start, by index; [RemovePod] moves
    the last pod into the gap, in the array that this slice shares. *)
Fixpoint remove_lower (idx : list nat) (arr : list PodInfo) (s : sim) (potentialVictims : list PodInfo)
  : outcome (sim * list PodInfo * error) :=
  match idx with
  | [] => Ret (s, potentialVictims, None)
  | j :: idx =>
      match arr !! j with
      | None => Panic "index out of range"
      | Some pi =>
          if PodPriority (pi_Pod pi) <? PodPriority pod then
            let potentialVictims := potentialVictims ++ [pi] in
            let! r := removePod pi s in
            let '(s, err) := r in
            match err with
            | Some e => Ret (s, potentialVictims, Some e)
            | None =>
                let pods := Pods (sim_node s) in
                remove_lower idx (pods ++ drop (length pods) arr) s potentialVictims
            end
          else remove_lower idx arr s potentialVictims
      end
  end.

Definition reprievePod (pi : PodInfo) (s : sim) : outcome (sim * (bool + string)) :=
  let! r := addPod pi s in
  let '(s, err) := r in
  match err with
  | Some e => Ret (s, inr e)
  | None =>
      let! r := sim_filter s in
      let '(s, status) := r in
      if IsSuccess status then Ret (s, inl true)
      else
        let! r := removePod pi s in
        let '(s, err) := r in
        Ret (s, match err with Some e => inr e | None => inl false end)
  end.

(** The pods that can not stay, in the order in which they were tried. *)
Fixpoint reprieve_all (l : list PodInfo) (s : sim) : outcome (sim * (list Pod + string)) :=
  match l with
  | [] => Ret (s, inl [])
  | pi :: l =>
      let! r := reprievePod pi s in
      let '(s, fits) := r in
      match fits with
      | inr e => Ret (s, inr e)
      | inl fits =>
          let! r := reprieve_all l s in
          let '(s, victims) := r in
          Ret (s, match victims with
                  | inl victims => inl (if fits then victims else pi_Pod pi :: victims)
                  | inr e => inr e
                  end)
      end
  end.

Definition no_victims (nodeName : string) : FStatus :=
  NewStatus UnschedulableAndUnresolvable
    [str_app "No victims found on node " (str_app nodeName (str_app " for preemptor pod " (Name pod)))].

Definition selectVictimsOnNode (s : sim) : outcome (sim * list Pod * Z * StatusPtr) :=
  let arr := Pods (sim_node s) in
  let! r := remove_lower (seq 0 (length arr)) arr s [] in
  let '(s, potentialVictims, err) := r in
  match err with
  | Some e => Ret (s, [], 0, Some (AsStatus e))
  | None =>
      match potentialVictims with
      | [] =>
          match ni_node (sim_node s) with
          | None => Panic nil_panic
          | Some node => Ret (s, [], 0, Some (no_victims (node_Name node)))
          end
      | _ =>
          let! r := sim_filter s in
          let '(s, status) := r in
          if negb (IsSuccess status) then Ret (s, [], 0, status)
          else
            let potentialVictims :=
              sort_slice (fun a b => MoreImportantPod now (pi_Pod a) (pi_Pod b)) potentialVictims in
            let '(violatingVictims, nonViolatingVictims) := filterPodsWithPDBViolation potentialVictims pdbs in
            let! r := reprieve_all violatingVictims s in
            let '(s, v1) := r in
            match v1 with
            | inr e => Ret (s, [], 0, Some (AsStatus e))
            | inl v1 =>
                let! r := reprieve_all nonViolatingVictims s in
                let '(s, v2) := r in
                match v2 with
                | inr e => Ret (s, [], 0, Some (AsStatus e))
                | inl v2 => Ret (s, v1 ++ v2, Z.of_nat (length v1), Some (NewStatus Success []))
                end
            end
      end
  end.

(** ** The dry run on the nodes *)

Record dry_state := mkDry {
  nonViolatingCandidates : candidateList;
  violatingCandidates : candidateList;
  nodeStatuses : gmap string FStatus;
  dry_cancelled : bool;
  dry_world : World
}.

Definition no_victim_msg (name : string) : string :=
  str_app "expected at least one victim pod on node " (String dquote (str_app name (String dquote ""))).

(** [checkNode(i)] *)
Definition dry_checkNode (state : CycleState) (potentialNodes : list NodeInfo) (offset numCandidates : Z)
    (d : dry_state) (i : nat) : outcome dry_state :=
  match potentialNodes !! ((Z.to_nat offset + i) mod length potentialNodes)%nat with
  | None => Panic "index out of range"
  | Some ni =>
      let! r := selectVictimsOnNode (mkSim (CS_Clone state) (Clone ni) (dry_world d)) in
      let '(s, pods, numPDBViolations, status) := r in
      match ni_node (sim_node s) with
      | None => Panic nil_panic
      | Some node =>
          if IsSuccess status && negb (length pods =? 0)%nat then
            let c := mkCandidate (mkVictims pods numPDBViolations) (node_Name node) in
            let nv := if numPDBViolations =? 0 then cl_add c (nonViolatingCandidates d) else nonViolatingCandidates d in
            let v := if numPDBViolations =? 0 then violatingCandidates d else cl_add c (violatingCandidates d) in
            let stop := (0 <? cl_size nv) && (numCandidates <=? int32 (cl_size nv + cl_size v)) in
            Ret (mkDry nv v (nodeStatuses d) (dry_cancelled d || stop) (sim_world s))
          else
            let status := if IsSuccess status && (length pods =? 0)%nat
                          then Some (AsStatus (no_victim_msg (node_Name node))) else status in
            match status with
            | None => Panic nil_panic
            | Some st =>
                Ret (mkDry (nonViolatingCandidates d) (violatingCandidates d)
                       (<[node_Name node := st]> (nodeStatuses d)) (dry_cancelled d) (sim_world s))
            end
      end
  end.

Fixpoint dry_until (check : dry_state -> nat -> outcome dry_state) (late : nat) (l : list nat) (d : dry_state)
  : outcome dry_state :=
  match l with
  | [] => Ret d
  | i :: l =>
      if dry_cancelled d then
        match late with
        | O => Ret d
        | S late => let! d := check d i in dry_until check late l d
        end
      else let! d := check d i in dry_until check late l d
  end.

Definition dryRunPreemption (state : CycleState) (potentialNodes : list NodeInfo) (offset numCandidates : Z) (w : World)
  : outcome (list candidate * gmap string FStatus * World) :=
  let! nv := newCandidateList numCandidates in
  let! v := newCandidateList numCandidates in
  let! d := dry_until (dry_checkNode state potentialNodes offset numCandidates)
              (par_late (length potentialNodes)) (par_order (length potentialNodes)) (mkDry nv v ∅ false w) in
  Ret (cl_get (nonViolatingCandidates d) ++ cl_get (violatingCandidates d), nodeStatuses d, dry_world d).
End dryrun.

(** ** Choosing a node *)

(** One round of a loop that collects the nodes of the least key. *)
Definition min_step (key : string -> outcome Z) (st : Z * list string) (node : string) : outcome (Z * list string) :=
  let! k := key node in
  let st := if k <? st.1 then (k, []) else st in
  Ret (if k =? st.1 then (st.1, st.2 ++ [node]) else st).

Definition min_nodes (key : string -> outcome Z) (init : Z) (nodes : list string) : outcome (list string) :=
  let! st := ofold (min_step key) nodes (init, []) in
  Ret st.2.

Section pick.
Context {mr : MapRange} (now : Z) (nodesToVictims : gmap string Victims).

(** A node that is not in the map has no victims to dereference. *)
Definition with_victims {A} (g : Victims -> outcome A) (node : string) : outcome A :=
  match nodesToVictims !! node with Some v => g v | None => Panic nil_panic end.

Definition num_violations : string -> outcome Z := with_victims (fun v => Ret (NumPDBViolations v)).
Definition highest_priority : string -> outcome Z :=
  with_victims (fun v => match v_Pods v with
                         | p :: _ => Ret (PodPriority p)
                         | [] => Panic "index out of range [0] with length 0"
                         end).

(** Priorities are shifted to be positive. *)
Definition sum_priorities : string -> outcome Z :=
  with_victims (fun v => Ret (fold_left (fun s p => s +₆₄ (PodPriority p + (MaxInt32 + 1))) (v_Pods v) 0)).
Definition num_pods : string -> outcome Z := with_victims (fun v => Ret (Z.of_nat (length (v_Pods v)))).

(** The last loop: the node whose most important victims started last. *)
Definition latest_step (st : Z * string) (node : string) : outcome (Z * string) :=
  with_victims (fun v =>
    Ret (match GetEarliestPodStartTime now v with
         | None => st
         | Some t => if st.1 <? t then (t, node) else st
         end)) node.

(** The nodes that are left by the criteria so far, or the one if only one is
    left.  The last stage reads the first entry of the array that the second
    stage has filled before, if it finds no node itself. *)
Definition pickOneNodeForPreemption : outcome string :=
  if (size nodesToVictims =? 0)%nat then Ret ""%string
  else
    let! n1 := min_nodes num_violations MaxInt32 (map fst (range 0 (map_to_list nodesToVictims))) in
    match n1 with
    | [n] => Ret n
    | _ =>
        let! n2 := min_nodes highest_priority MaxInt32 n1 in
        match n2 with
        | [n] => Ret n
        | _ =>
            let! n3 := min_nodes sum_priorities MaxInt64 n2 in
            match n3 with
            | [n] => Ret n
            | _ =>
                let! n4 := min_nodes num_pods MaxInt32 n3 in
                match n4 with
                | [n] => Ret n
                | _ =>
                    match n4, n2 with
                    | first :: rest, _ =>
                        let! latest := with_victims (fun v => Ret (GetEarliestPodStartTime now v)) first in
                        match latest with
                        | None => Ret first
                        | Some t => let! st := ofold latest_step rest (t, first) in Ret st.2
                        end
                    | [], first :: _ =>
                        let! _ := with_victims (fun v => Ret (GetEarliestPodStartTime now v)) first in Ret first
                    | [], [] => Panic "index out of range [0] with length 0"
                    end
                end
            end
        end
    end.
End pick.

(** [candidatesToVictimsMap] *)
Definition candidatesToVictimsMap (candidates : list candidate) : gmap string Victims :=
  fold_left (fun m c => <[c_name c := c_victims c]> m) candidates ∅.

Definition SelectCandidate {mr : MapRange} (now : Z) (candidates : list candidate) : outcome (option candidate) :=
  match candidates with
  | [] => Ret None
  | [c] => Ret (Some c)
  | c :: _ =>
      let victimsMap := candidatesToVictimsMap candidates in
      let! candidateNode := pickOneNodeForPreemption now victimsMap in
      Ret (Some (match victimsMap !! candidateNode with
                 | Some victims => mkCandidate victims candidateNode
                 | None => c
                 end))
  end.

(** ** Extenders *)

(** What preemption asks of an extender; it may answer with nil victims. *)
Record PreemptionExtender := {
  pe_base : Extender;
  pe_SupportsPreemption : bool;
  pe_ProcessPreemption : Pod -> gmap string Victims -> gmap string (option Victims) + string
}.

Definition usable (v : option Victims) : option Victims :=
  match v with
  | Some v => match v_Pods v with [] => None | _ => Some v end
  | None => None
  end.

Fixpoint run_extenders {mr : MapRange} (extenders : list PreemptionExtender) (pod : Pod) (victimsMap : gmap string Victims)
  : gmap string Victims + string :=
  match extenders with
  | [] => inl victimsMap
  | e :: extenders =>
      if negb (pe_SupportsPreemption e) || negb (ex_IsInterested (pe_base e) pod)
      then run_extenders extenders pod victimsMap
      else
        match pe_ProcessPreemption e pod victimsMap with
        | inr err => if ex_IsIgnorable (pe_base e) then run_extenders extenders pod victimsMap else inr err
        | inl m =>
            let bad := List.filter (fun x : string * option Victims => negb (bool_decide (is_Some (usable x.2))))
                         (range 0 (map_to_list m)) in
            match bad, ex_IsIgnorable (pe_base e) with
            | x :: _, false => inr (no_victim_msg x.1)
            | _, _ =>
                let victimsMap : gmap string Victims := omap usable m in
                if (size victimsMap =? 0)%nat then inl victimsMap
                else run_extenders extenders pod victimsMap
            end
        end
  end.

Definition CallExtenders {mr : MapRange} (extenders : list PreemptionExtender) (pod : Pod) (candidates : list candidate)
  : list candidate + string :=
  match extenders with
  | [] => inl candidates
  | _ =>
      let victimsMap := candidatesToVictimsMap candidates in
      if (size victimsMap =? 0)%nat then inl candidates
      else
        match run_extenders extenders pod victimsMap with
        | inr e => inr e
        | inl victimsMap => inl (map (fun x => mkCandidate x.2 x.1) (range 1 (map_to_list victimsMap)))
        end
  end.

(** ** Evicting the victims *)

(** The calls to the API server; each may fail.  The map of the pods that wait
    for permits belongs to the framework. *)
Class PreemptionClient (Ext : Type) := {
  pc_DeletePod : Pod -> Ext -> Ext * error;
  pc_PatchPodStatus : Pod -> PodStatus -> Ext -> Ext * error;
  pc_waiting : Ext -> waitingPodsMap;
  pc_set_waiting : waitingPodsMap -> Ext -> Ext
}.

Section evict.
Context {Ext : Type} {client : PreemptionClient Ext}.

(** [ClearNominatedNodeName]; its errors are only logged. *)
Definition clear_one (x : Ext) (p : Pod) : Ext :=
  if (String.length (NominatedNodeName (Status p)) =? 0)%nat then x
  else (pc_PatchPodStatus p (mkPodStatus (Conditions (Status p)) "" (StartTime (Status p))) x).1.
Definition ClearNominatedNodeName (pods : list Pod) (x : Ext) : Ext := fold_left clear_one pods x.

Definition getLowerPriorityNominatedPods (npm : nominator) (pod : Pod) (nodeName : string) : list Pod :=
  List.filter (fun p => PodPriority p <? PodPriority pod) (map pi_Pod (NominatedPodsForNode npm nodeName)).

Fixpoint evict_all (pluginName : string) (victims : list Pod) (x : Ext) : Ext * error :=
  match victims with
  | [] => (x, None)
  | victim :: victims =>
      match pc_waiting x !! UID victim with
      | Some wp =>
          evict_all pluginName victims
            (pc_set_waiting (<[UID victim := Reject pluginName "preempted" wp]> (pc_waiting x)) x)
      | None =>
          let '(x, err) := pc_DeletePod victim x in
          match err with
          | Some e => (x, Some e)
          | None => evict_all pluginName victims x
          end
      end
  end.

Definition PrepareCandidate (npm : nominator) (c : candidate) (pod : Pod) (pluginName : string) (x : Ext) : Ext * StatusPtr :=
  let '(x, err) := evict_all pluginName (v_Pods (c_victims c)) x in
  match err with
  | Some e => (x, Some (AsStatus e))
  | None => (ClearNominatedNodeName (getLowerPriorityNominatedPods npm pod (c_name c)) x, None)
  end.
End evict.

(** ** The plugin *)

Section plugin.
Context {arch : GoArch} {gates : FeatureGates} {mr : MapRange} {par : Parallel} {srt : SortSlice} {Ext : Type}.
Context {client : PreemptionClient Ext}.
Context (f : frameworkImpl Ext) (npm : nominator) (snap : Snapshot) (extenders : list PreemptionExtender).
(** [podLister] and [pdbLister]; [draw n] is [rand.Int31n(n)]. *)
Context (podLister : string -> string -> Pod + string) (pdbLister : list PodDisruptionBudget + string).
Context (args : DefaultPreemptionArgs) (draw : Z -> Z) (now : Z).

Definition DefaultPreemption_Name : string := "DefaultPreemption".

Definition FindCandidates (x : Ext) (state : CycleState) (pod : Pod) (m : gmap string FStatus) (w : World)
  : outcome (Ext * (list candidate * gmap string FStatus + FStatus) * World) :=
  match SN_List snap with
  | [] => Ret (x, inr (NewStatus Error ["no nodes available"%string]), w)
  | allNodes =>
      let! r := nodesWherePreemptionMightHelp allNodes m in
      let '(potentialNodes, unschedulableNodeStatus) := r in
      match potentialNodes with
      | [] => Ret (ClearNominatedNodeName [pod] x, inl ([], unschedulableNodeStatus), w)
      | _ =>
          match pdbLister with
          | inr e => Ret (x, inr (AsStatus e), w)
          | inl pdbs =>
              let numNodes := int32 (Z.of_nat (length potentialNodes)) in
              let! r := dryRunPreemption f npm now pod pdbs state potentialNodes (draw numNodes)
                          (calculateNumCandidates args numNodes) w in
              let '(candidates, nodeStatuses, w) := r in
              Ret (x, inl (candidates, fold_left (fun m e => <[e.1 := e.2]> m)
                             (range 0 (map_to_list unschedulableNodeStatus)) nodeStatuses), w)
          end
      end
  end.

Definition preempt (x : Ext) (state : CycleState) (pod : Pod) (m : gmap string FStatus) (w : World)
  : outcome (Ext * (string * StatusPtr) * World) :=
  match podLister (Namespace pod) (Name pod) with
  | inr e => Ret (x, (""%string, Some (AsStatus e)), w)
  | inl pod =>
      if negb (PodEligibleToPreemptOthers pod snap (m !! NominatedNodeName (Status pod)))
      then Ret (x, (""%string, None), w)
      else
        let! r := FindCandidates x state pod m w in
        let '(x, found, w) := r in
        match found with
        | inr status => Ret (x, (""%string, Some status), w)
        | inl ([], nodeToStatusMap) =>
            Ret (x, (""%string, Some (NewStatus Unschedulable
              [FitError_Error (Z.of_nat (size nodeToStatusMap)) (mkDiagnosis nodeToStatusMap ∅)])), w)
        | inl (candidates, _) =>
            match CallExtenders extenders pod candidates with
            | inr e => Ret (x, (""%string, Some (AsStatus e)), w)
            | inl candidates =>
                let! best := SelectCandidate now candidates in
                match best with
                | None => Ret (x, (""%string, None), w)
                | Some best =>
                    if (String.length (c_name best) =? 0)%nat then Ret (x, (""%string, None), w)
                    else
                      let '(x, status) := PrepareCandidate npm best pod DefaultPreemption_Name x in
                      Ret (x, (if IsSuccess status then c_name best else ""%string,
                               if IsSuccess status then None else status), w)
                end
            end
        end
  end.

(** [PostFilter]: the nominated node, if there is one. *)
Definition DefaultPreemption_PostFilter (x : Ext) (state : CycleState) (pod : Pod) (m : gmap string FStatus) (w : World)
  : outcome (Ext * (option string * StatusPtr) * World) :=
  let! r := preempt x state pod m w in
  let '(x, (nnn, status), w) := r in
  Ret (x, if negb (IsSuccess status) then (None, status)
          else if String.eqb nnn "" then (None, Some (NewStatus Unschedulable []))
          else (Some nnn, Some (NewStatus Success [])), w).
End plugin.
