(* ===== verification/PreemptionProofs.v ===== *)
(** * Correctness of preemption: the node, the budgets and the dry run

    The node that [pickOneNodeForPreemption] returns is a least one in the
    lexicographic order of its criteria, whatever the order of the map; the
    split of the victims by their disruption budgets is stable and charges
    each budget for the pods before.  The dry run on a node follows. *)

From S2P Require Import Prelude GoInt GoFloat GoStrconv Quantity ApiTypes Labels AffinityTerms Resource HostPorts NodeInfo Samples Json Framework Snapshot NodeTree Cache SchedulingQueue Runtime GenericScheduler Scheduler Preemption FilterLoop.

(** ** Lists *)

Lemma filter_filter_and {A} (p q : A -> bool) l : List.filter p (List.filter q l) = List.filter (fun x => p x && q x) l.
Proof. induction l as [|x l IH]; simpl; [done|]. destruct (q x), (p x) eqn:E; simpl; rewrite ?E, IH; done. Qed.

Lemma filter_ext_list {A} (p q : A -> bool) l : (forall x, p x = q x) -> List.filter p l = List.filter q l.
Proof. intros H. by apply filter_ext. Qed.

Lemma filter_none_list {A} (p : A -> bool) l : (forall x, x ∈ l -> p x = false) -> List.filter p l = [].
Proof.
  induction l as [|x l IH]; intros H; simpl; [done|]. rewrite (H x) by (by left). apply IH. intros y Hy. apply H. by right.
Qed.

Lemma filter_all_list {A} (p : A -> bool) l : (forall x, x ∈ l -> p x = true) -> List.filter p l = l.
Proof.
  induction l as [|x l IH]; intros H; simpl; [done|]. rewrite (H x) by (by left). f_equal. apply IH. intros y Hy. apply H. by right.
Qed.

Lemma ofold_snoc {A B} (g : B -> A -> outcome B) l x b : ofold g (l ++ [x]) b = (let! b := ofold g l b in g b x).
Proof.
  revert b. induction l as [|y l IH]; intros b; [simpl; by destruct (g b x)|]. cbn [ofold app].
  destruct (g b y); cbn [obind]; [apply IH|done].
Qed.

(** ** Least elements *)

Definition argmin {A} (k : A -> Z) (l : list A) : list A := List.filter (fun n => forallb (fun m => k n <=? k m) l) l.

Lemma elem_of_argmin {A} (k : A -> Z) l n : n ∈ argmin k l <-> n ∈ l /\ forall m, m ∈ l -> k n <= k m.
Proof.
  unfold argmin. rewrite list_elem_of_In, filter_In, forallb_forall, <- list_elem_of_In. split.
  - intros [H1 H2]. split; [done|]. intros m Hm. apply Z.leb_le, H2. by apply list_elem_of_In.
  - intros [H1 H2]. split; [done|]. intros m Hm. apply Z.leb_le, H2. by apply list_elem_of_In.
Qed.

(** Lexicographic order of lists of numbers. *)
Fixpoint lex_le (a b : list Z) : Prop :=
  match a, b with
  | x :: a, y :: b => x < y \/ (x = y /\ lex_le a b)
  | [], _ => True
  | _, [] => False
  end.

(** Least by the first key, among these by the second, and so on. *)
Definition argmin_chain {A} (ks : list (A -> Z)) (l : list A) : list A := fold_left (fun l k => argmin k l) ks l.

Lemma argmin_chain_sub {A} (ks : list (A -> Z)) l n : n ∈ argmin_chain ks l -> n ∈ l.
Proof.
  unfold argmin_chain. revert l. induction ks as [|k ks IH]; intros l Hn; simpl in *; [done|].
  apply IH, elem_of_argmin in Hn. tauto.
Qed.

Lemma argmin_chain_lex {A} (ks : list (A -> Z)) l n m :
  n ∈ argmin_chain ks l -> m ∈ l -> n ∈ l /\ lex_le (map (fun k => k n) ks) (map (fun k => k m) ks).
Proof.
  unfold argmin_chain. revert l. induction ks as [|k ks IH]; intros l Hn Hm; simpl in *; [done|].
  assert (n ∈ argmin k l) as Hna by (by apply argmin_chain_sub in Hn).
  pose proof (proj1 (elem_of_argmin k l n) Hna) as [Hnl Hmin]. split; [done|].
  destruct (decide (k n = k m)) as [E|Hne]; [|left; specialize (Hmin m Hm); lia]. right. split; [done|].
  apply (IH (argmin k l) Hn). apply elem_of_argmin. split; [done|]. by rewrite <- E.
Qed.

Lemma argmin_singleton {A} (k : A -> Z) n : argmin k [n] = [n].
Proof. unfold argmin. simpl. by rewrite Z.leb_refl. Qed.

Lemma argmin_chain_singleton {A} (ks : list (A -> Z)) n : argmin_chain ks [n] = [n].
Proof. unfold argmin_chain. induction ks as [|k ks IH]; simpl; [done|]. by rewrite argmin_singleton. Qed.

Lemma argmin_nonempty {A} (k : A -> Z) l : l <> [] -> argmin k l <> [].
Proof.
  intros Hne H. assert (exists n, n ∈ l /\ forall m, m ∈ l -> k n <= k m) as (n & Hn & Hmin).
  { clear H. induction l as [|x l IH]; [done|]. destruct l as [|y l].
    - exists x. split; [by left|]. intros m ->%list_elem_of_singleton. lia.
    - destruct IH as (n & Hn & Hmin); [done|]. destruct (Z.le_gt_cases (k x) (k n)) as [Hx|Hx].
      + exists x. split; [by left|]. intros m [-> |Hm]%elem_of_cons; [lia|]. specialize (Hmin m Hm). lia.
      + exists n. split; [by right|]. intros m [-> |Hm]%elem_of_cons; [lia|]. by apply Hmin. }
  assert (n ∈ argmin k l) as Ha by (by apply elem_of_argmin). rewrite H in Ha. by apply elem_of_nil in Ha.
Qed.

(** The loop that collects the nodes of the least key. *)
Lemma min_nodes_argmin (key : string -> outcome Z) (k : string -> Z) init nodes :
  (forall n, n ∈ nodes -> key n = Ret (k n) /\ k n <= init) -> min_nodes key init nodes = Ret (argmin k nodes).
Proof.
  intros Hk. unfold min_nodes.
  cut (exists m, ofold (min_step key) nodes (init, []) = Ret (m, argmin k nodes) /\
    ((nodes = [] /\ m = init) \/ (exists n, n ∈ nodes /\ k n = m) /\ forall n, n ∈ nodes -> m <= k n)).
  { intros (m & -> & _). done. }
  induction nodes as [|x l IH] using rev_ind; [exists init; split; [done|by left]|].
  destruct IH as (m & Hf & Hm); [intros n Hn; apply Hk, elem_of_app; by left|].
  destruct (Hk x) as [Hx Hxi]; [apply elem_of_app; right; by left|].
  rewrite ofold_snoc, Hf. cbn [obind ofold]. unfold min_step. rewrite Hx. cbn [obind fst snd].
  assert (forall n, n ∈ argmin k (l ++ [x]) <-> n ∈ l ++ [x] /\ forall y, y ∈ l ++ [x] -> k n <= k y) as Hel
    by (intros; apply elem_of_argmin).
  assert (argmin k (l ++ [x]) = List.filter (fun n => k n <=? k x) (argmin k l) ++
            (if forallb (fun y => k x <=? k y) l then [x] else [])) as Hsplit.
  { unfold argmin at 1. rewrite List.filter_app. f_equal.
    - unfold argmin. rewrite filter_filter_and. apply filter_ext_list. intros n. rewrite forallb_app. simpl.
      by rewrite andb_true_r, andb_comm.
    - simpl. rewrite forallb_app. simpl. rewrite Z.leb_refl, !andb_true_r. done. }
  rewrite Hsplit. clear Hel.
  assert (forall y, y ∈ argmin k l -> k y = m) as Harg.
  { intros y Hy. apply elem_of_argmin in Hy as [Hy1 Hy2]. destruct Hm as [[-> _]|[(z & Hz & <-) Hm2]]; [by apply elem_of_nil in Hy1|].
    specialize (Hy2 z Hz). specialize (Hm2 y Hy1). lia. }
  destruct (Z.ltb_spec (k x) m) as [Hlt|Hge]; cbn [fst snd].
  - rewrite Z.eqb_refl. exists (k x). rewrite app_nil_l. split.
    + f_equal. f_equal. rewrite filter_none_list; [|intros y Hy; apply Z.leb_gt; rewrite (Harg y Hy); lia].
      rewrite (proj2 (forallb_forall _ _)); [done|]. intros y Hy%list_elem_of_In. apply Z.leb_le.
      destruct Hm as [[-> _]|[_ Hm2]]; [by apply elem_of_nil in Hy|]. specialize (Hm2 y Hy). lia.
    + right. split; [exists x; split; [apply elem_of_app; right; by left|done]|].
      intros y [Hy|Hy]%elem_of_app; [|apply list_elem_of_singleton in Hy as ->; lia].
      destruct Hm as [[-> _]|[_ Hm2]]; [by apply elem_of_nil in Hy|]. specialize (Hm2 y Hy). lia.
  - assert (List.filter (fun n => k n <=? k x) (argmin k l) = argmin k l) as ->
      by (apply filter_all_list; intros y Hy; apply Z.leb_le; rewrite (Harg y Hy); lia).
    destruct (Z.eqb_spec (k x) m) as [E|Hne].
    + exists m. split.
      * rewrite (proj2 (forallb_forall _ _)); [done|]. intros y Hy%list_elem_of_In. apply Z.leb_le.
        destruct Hm as [[-> _]|[_ Hm2]]; [by apply elem_of_nil in Hy|]. specialize (Hm2 y Hy). lia.
      * right. split; [exists x; split; [apply elem_of_app; right; by left|done]|].
        intros y [Hy|Hy]%elem_of_app; [|apply list_elem_of_singleton in Hy as ->; lia].
        destruct Hm as [[-> _]|[_ Hm2]]; [by apply elem_of_nil in Hy|]. by apply Hm2.
    + destruct Hm as [[-> ->]|[(z & Hz & Hkz) Hm2]]; [simpl in Hxi; lia|]. exists m. split.
      * destruct (forallb (fun y => k x <=? k y) l) eqn:Ef; [|by rewrite app_nil_r].
        rewrite forallb_forall in Ef. specialize (Ef z (proj1 (list_elem_of_In _ _) Hz)). lia.
      * right. split; [exists z; split; [apply elem_of_app; by left|done]|].
        intros y [Hy|Hy]%elem_of_app; [by apply Hm2|]. apply list_elem_of_singleton in Hy as ->. lia.
Qed.

(** ** The earliest start of the most important victims *)

Lemma earliest_fold now pods e m :
  let r := fold_left (earliest_step now) pods (e, m) in
  m <= r.2 /\ (forall p, p ∈ pods -> PodPriority p <= r.2) /\
  (forall p, p ∈ pods -> PodPriority p = r.2 -> r.1 <= GetPodStartTime now p) /\
  (r.2 = m -> r.1 <= e) /\
  ((r.2 = m /\ r.1 = e) \/ exists p, p ∈ pods /\ PodPriority p = r.2 /\ GetPodStartTime now p = r.1).
Proof.
  cbv zeta. revert e m. induction pods as [|p pods IH]; intros e m; cbn [fold_left].
  { cbn [fst snd]. split_and!; [lia|by intros ? ?%elem_of_nil|by intros ? ?%elem_of_nil|done|by left]. }
  assert (earliest_step now (e, m) p = if PodPriority p =? m
    then (if GetPodStartTime now p <? e then GetPodStartTime now p else e, m)
    else if m <? PodPriority p then (GetPodStartTime now p, PodPriority p) else (e, m)) as -> by done.
  destruct (Z.eqb_spec (PodPriority p) m) as [E|Hne].
  - set (e' := if GetPodStartTime now p <? e then GetPodStartTime now p else e).
    destruct (IH e' m) as (H1 & H2 & H3 & H4 & H5). assert (e' <= e /\ e' <= GetPodStartTime now p) as [He1 He2].
    { unfold e'. destruct (Z.ltb_spec (GetPodStartTime now p) e); lia. }
    split_and!; [done| | | |].
    + intros q [-> |Hq]%elem_of_cons; [lia|by apply H2].
    + intros q [-> |Hq]%elem_of_cons Hp; [|by apply H3]. rewrite <- Hp, E in H4. specialize (H4 eq_refl). lia.
    + intros Hr. specialize (H4 Hr). lia.
    + destruct H5 as [[Hr He]|(q & Hq & ? & ?)]; [|right; exists q; split; [by right|done]].
      rewrite He, Hr. unfold e'. destruct (Z.ltb_spec (GetPodStartTime now p) e); [|by left].
      right. exists p. split_and!; [by left|done|done].
  - destruct (Z.ltb_spec m (PodPriority p)) as [Hlt|Hge].
    + destruct (IH (GetPodStartTime now p) (PodPriority p)) as (H1 & H2 & H3 & H4 & H5). split_and!; [lia| | |lia|].
      * intros q [-> |Hq]%elem_of_cons; [lia|by apply H2].
      * intros q [-> |Hq]%elem_of_cons Hp; [by apply H4|by apply H3].
      * right. destruct H5 as [[Hr He]|(q & Hq & ? & ?)]; [|exists q; split; [by right|done]].
        exists p. split_and!; [by left|by rewrite Hr|done].
    + destruct (IH e m) as (H1 & H2 & H3 & H4 & H5). split_and!; [done| | |done|].
      * intros q [-> |Hq]%elem_of_cons; [lia|by apply H2].
      * intros q [-> |Hq]%elem_of_cons Hp; [|by apply H3]. lia.
      * destruct H5 as [?|(q & Hq & ? & ?)]; [by left|right; exists q; split; [by right|done]].
Qed.

(** [GetEarliestPodStartTime] is the earliest start among the victims of the
    highest priority. *)
Lemma GetEarliest_spec now v t :
  GetEarliestPodStartTime now v = Some t ->
  (exists p, p ∈ v_Pods v /\ GetPodStartTime now p = t /\ forall q, q ∈ v_Pods v -> PodPriority q <= PodPriority p) /\
  forall p, p ∈ v_Pods v -> (forall q, q ∈ v_Pods v -> PodPriority q <= PodPriority p) -> t <= GetPodStartTime now p.
Proof.
  unfold GetEarliestPodStartTime. destruct (v_Pods v) as [|p0 pods] eqn:E; [done|]. rewrite <- E. intros [= <-].
  destruct (earliest_fold now (v_Pods v) (GetPodStartTime now p0) (PodPriority p0)) as (H1 & H2 & H3 & H4 & H5).
  set (r := fold_left _ _ _) in *. assert (p0 ∈ v_Pods v) as H0 by (rewrite E; by left).
  assert (exists p, p ∈ v_Pods v /\ PodPriority p = r.2 /\ GetPodStartTime now p = r.1) as (p & Hp & Hpr & Hst).
  { destruct H5 as [[Hr He]|H5]; [|done]. by exists p0. }
  split.
  - exists p. split_and!; [done|done|]. rewrite Hpr. exact H2.
  - intros q Hq Hmax. apply H3; [done|]. specialize (Hmax p Hp). specialize (H2 q Hq). lia.
Qed.

(** ** The node that is picked *)

Section picked.
Context {mr : MapRange} (now : Z) (M : gmap string Victims).

(** Victims that the dry run can produce. *)
Definition victims_ok (v : Victims) : Prop :=
  v_Pods v <> [] /\ NumPDBViolations v <= MaxInt32 /\ Z.of_nat (length (v_Pods v)) <= MaxInt32 /\
  Forall (fun p => is_int32 (PodPriority p)) (v_Pods v).

(** The highest priority among the victims. *)
Definition highest (v : Victims) : Z :=
  match v_Pods v with [] => 0 | p :: pods => foldr Z.max (PodPriority p) (map PodPriority pods) end.

(** The priority of the first victim. *)
Definition first_priority (v : Victims) : Z := default 0 (PodPriority <$> head (v_Pods v)).

(** The criteria, in their order: violated budgets, the priority, the sum of
    the priorities, the number of victims, and how long ago the most important
    of them started. *)
Definition cost_by (priority : Victims -> Z) (v : Victims) : list Z :=
  [NumPDBViolations v; priority v;
   Zsum (map (fun p => PodPriority p + (MaxInt32 + 1)) (v_Pods v)); Z.of_nat (length (v_Pods v));
   - default 0 (GetEarliestPodStartTime now v)].

(** As documented, and as the code compares them. *)
Definition victims_cost : Victims -> list Z := cost_by highest.
Definition first_cost : Victims -> list Z := cost_by first_priority.

(** What the comment of [pickOneNodeForPreemption] assumes of the victims. *)
Definition decreasing (v : Victims) : Prop :=
  StronglySorted (fun p q => PodPriority q <= PodPriority p) (v_Pods v).

Lemma decreasing_cost v : decreasing v -> first_cost v = victims_cost v.
Proof.
  unfold decreasing, first_cost, victims_cost, cost_by, first_priority, highest. intros Hd.
  destruct (v_Pods v) as [|p pods]; [done|]. cbn [head fmap option_fmap option_map default].
  apply StronglySorted_inv in Hd as [_ HF].
  assert (foldr Z.max (PodPriority p) (map PodPriority pods) = PodPriority p) as ->; [|done].
  induction HF as [|q pods Hq HF IH]; simpl; [done|]. rewrite IH. lia.
Qed.

Definition victims_of (n : string) : Victims := default (mkVictims [] 0) (M !! n).
Definition cost_at (i : nat) (n : string) : Z := nth i (first_cost (victims_of n)) 0.

Lemma sum_exact pods s :
  Forall (fun p => is_int32 (PodPriority p)) pods -> 0 <= s -> s + Z.of_nat (length pods) * (2 ^ 32) < 2 ^ 63 ->
  fold_left (fun s p => s +₆₄ (PodPriority p + (MaxInt32 + 1))) pods s
    = s + Zsum (map (fun p => PodPriority p + (MaxInt32 + 1)) pods) /\
  0 <= Zsum (map (fun p => PodPriority p + (MaxInt32 + 1)) pods) <= Z.of_nat (length pods) * 2 ^ 32.
Proof.
  revert s. induction pods as [|p pods IH]; intros s HF Hs Hb; cbn [fold_left map]; [unfold Zsum; simpl; lia|].
  apply Forall_cons in HF as [Hp HF]. change (Zsum (?a :: ?l)) with (a + Zsum l). cbn [length] in *.
  assert (0 <= PodPriority p + (MaxInt32 + 1) <= 2 ^ 32) as Hr by (revert Hp; int_unfold; unfold MaxInt32; lia).
  rewrite add64_exact by (int_unfold; lia). destruct (IH (s + (PodPriority p + (MaxInt32 + 1))) HF) as [-> H]; lia.
Qed.

Context (Hok : forall n v, M !! n = Some v -> victims_ok v).

Lemma key_exact n v : M !! n = Some v ->
  (num_violations M n = Ret (cost_at 0 n) /\ cost_at 0 n <= MaxInt32) /\
  (highest_priority M n = Ret (cost_at 1 n) /\ cost_at 1 n <= MaxInt32) /\
  (sum_priorities M n = Ret (cost_at 2 n) /\ cost_at 2 n <= MaxInt64) /\
  (num_pods M n = Ret (cost_at 3 n) /\ cost_at 3 n <= MaxInt32) /\
  GetEarliestPodStartTime now v = Some (- cost_at 4 n).
Proof.
  intros Hn. destruct (Hok n v Hn) as (Hne & Hv & Hlen & HF).
  unfold num_violations, highest_priority, sum_priorities, num_pods, with_victims, cost_at, victims_of. rewrite Hn.
  change (default (mkVictims [] 0) (Some v)) with v. unfold first_cost, cost_by, first_priority. cbn [nth].
  destruct (sum_exact (v_Pods v) 0 HF) as [-> Hs]; [lia|unfold MaxInt32 in Hlen; lia|]. rewrite Z.add_0_l.
  assert (exists p pods, v_Pods v = p :: pods) as (p & pods & E) by (destruct (v_Pods v) as [|p pods]; [done|by exists p, pods]).
  assert (exists t, GetEarliestPodStartTime now v = Some t) as [t Ht].
  { unfold GetEarliestPodStartTime. rewrite E. by eexists. }
  rewrite Ht. assert (head (v_Pods v) = Some p) as -> by (by rewrite E).
  change (default 0 (PodPriority <$> Some p)) with (PodPriority p). change (default 0 (Some t)) with t.
  rewrite Forall_forall in HF. specialize (HF p ltac:(rewrite E; left)). unfold MaxInt32, MaxInt64 in *.
  split_and!; try done; [by rewrite E|revert HF; int_unfold; lia|lia|by rewrite Z.opp_involutive].
Qed.

Definition map_nodes : list string := map fst (range 0 (map_to_list M)).

Lemma elem_of_map_nodes n : n ∈ map_nodes <-> is_Some (M !! n).
Proof.
  unfold map_nodes. rewrite list_elem_of_fmap. split.
  - intros ([n' v] & -> & Hin). rewrite range_perm, elem_of_map_to_list in Hin. by eexists.
  - intros [v Hv]. exists (n, v). split; [done|]. by rewrite range_perm, elem_of_map_to_list.
Qed.

Lemma latest_loop rest t first st :
  (forall n, n ∈ first :: rest -> is_Some (M !! n)) -> t = - cost_at 4 first ->
  ofold (latest_step now M) rest (t, first) = Ret st ->
  st.2 ∈ first :: rest /\ st.1 = - cost_at 4 st.2 /\ forall n, n ∈ first :: rest -> cost_at 4 st.2 <= cost_at 4 n.
Proof.
  revert t first st. induction rest as [|n rest IH]; intros t first st Hin Ht; cbn [ofold].
  { intros [= <-]. split_and!; [by left|done|]. intros n ->%list_elem_of_singleton. done. }
  destruct (Hin n) as [v Hv]; [right; by left|]. unfold latest_step at 1, with_victims. rewrite Hv.
  destruct (key_exact n v Hv) as (_ & _ & _ & _ & ->). cbn [obind fst]. destruct (Z.ltb_spec t (- cost_at 4 n)) as [Hlt|Hge]; intros Hst.
  - destruct (IH (- cost_at 4 n) n st) as (H1 & H2 & H3); [intros m Hm; apply Hin; by right|done|done|]. split_and!; [by right|done|].
    intros m [-> |Hm]%elem_of_cons; [|by apply H3]. specialize (H3 n ltac:(left)). lia.
  - destruct (IH t first st) as (H1 & H2 & H3); [|done|done|].
    { intros m [-> |Hm]%elem_of_cons; apply Hin; [by left|right; by right]. }
    split_and!; [|done|].
    + apply elem_of_cons in H1 as [-> |H1]; [by left|right; by right].
    + intros m [-> |[-> |Hm]%elem_of_cons]%elem_of_cons; [apply H3; by left| |apply H3; by right].
      specialize (H3 first ltac:(left)). lia.
Qed.

Lemma latest_total rest st : (forall n, n ∈ rest -> is_Some (M !! n)) -> exists st', ofold (latest_step now M) rest st = Ret st'.
Proof.
  revert st. induction rest as [|n rest IH]; intros st Hin; cbn [ofold]; [by eexists|].
  destruct (Hin n) as [v Hv]; [by left|]. unfold latest_step at 1, with_victims. rewrite Hv. cbn [obind].
  apply IH. intros m Hm. apply Hin. by right.
Qed.

(** One stage: a single node is the answer, several go to the next. *)
Lemma pick_stage key k init ks l (next : list string -> outcome string) :
  l <> [] -> (forall n, n ∈ l -> key n = Ret (k n) /\ k n <= init) ->
  (forall l', l' = argmin k l -> l' <> [] -> (forall n, n ∈ l' -> n ∈ l) ->
     exists n, next l' = Ret n /\ n ∈ argmin_chain ks l') ->
  exists n, (let! n1 := min_nodes key init l in match n1 with [n] => Ret n | _ => next n1 end) = Ret n /\
    n ∈ argmin_chain (k :: ks) l.
Proof.
  intros Hne Hk Hnext. rewrite (min_nodes_argmin key k) by done. cbn [obind].
  change (argmin_chain (k :: ks) l) with (argmin_chain ks (argmin k l)).
  assert (exists n, next (argmin k l) = Ret n /\ n ∈ argmin_chain ks (argmin k l)) as Hn.
  { apply Hnext; [done|by apply argmin_nonempty|]. intros n Hn. by apply elem_of_argmin in Hn as [? _]. }
  destruct (argmin k l) as [|x [|y l']]; [done| |done].
  exists x. split; [done|]. rewrite argmin_chain_singleton. by left.
Qed.

Lemma pickOne_chain :
  M <> ∅ -> exists n, pickOneNodeForPreemption now M = Ret n /\
    n ∈ argmin_chain [cost_at 0; cost_at 1; cost_at 2; cost_at 3; cost_at 4] map_nodes.
Proof.
  intros HM. unfold pickOneNodeForPreemption. destruct (size M =? 0)%nat eqn:Es.
  { apply Nat.eqb_eq, map_size_empty_iff in Es. done. }
  fold map_nodes. assert (map_nodes <> []) as Hne.
  { intros E. apply HM, map_empty. intros n. destruct (M !! n) as [v|] eqn:En; [|done].
    assert (n ∈ map_nodes) as H by (apply elem_of_map_nodes; by eexists). rewrite E in H. by apply elem_of_nil in H. }
  assert (forall n, n ∈ map_nodes -> exists v, M !! n = Some v) as H0 by (intros n Hn; by apply elem_of_map_nodes).
  apply pick_stage; [done|intros n Hn; destruct (H0 n Hn) as [v Hv]; by destruct (key_exact n v Hv)|].
  intros l1 _ Hne1 Hs1.
  apply pick_stage; [done|intros n Hn; destruct (H0 n (Hs1 n Hn)) as [v Hv]; by destruct (key_exact n v Hv) as (_ & ? & _)|].
  intros l2 _ Hne2 Hs2.
  apply pick_stage; [done|intros n Hn; destruct (H0 n (Hs1 n (Hs2 n Hn))) as [v Hv]; by destruct (key_exact n v Hv) as (_ & _ & ? & _)|].
  intros l3 _ Hne3 Hs3.
  apply pick_stage; [done|intros n Hn; destruct (H0 n (Hs1 n (Hs2 n (Hs3 n Hn)))) as [v Hv]; by destruct (key_exact n v Hv) as (_ & _ & _ & ? & _)|].
  intros l4 _ Hne4 Hs4. destruct l4 as [|first rest]; [done|].
  assert (forall n, n ∈ first :: rest -> exists v, M !! n = Some v) as Hin by (intros n Hn; by apply H0, Hs1, Hs2, Hs3, Hs4).
  destruct (Hin first) as [v Hv]; [by left|].
  unfold with_victims at 1. rewrite Hv. destruct (key_exact first v Hv) as (_ & _ & _ & _ & ->). cbn [obind].
  destruct (latest_total rest (- cost_at 4 first, first)) as [st Hst]; [intros n Hn; apply Hin; by right|].
  rewrite Hst. exists st.2. split; [done|].
  destruct (latest_loop rest (- cost_at 4 first) first st) as (H1 & _ & H3); [done|done|done|].
  by apply elem_of_argmin.
Qed.

(** C24. [pickOneNodeForPreemption] returns, in whatever order Go walks the
    map, a node whose victims are least by these criteria: the number of
    violated disruption budgets, then the priority of the first victim, the
    sum of the priorities, the number of victims, and last the most recent
    start of the most important ones.  When the victims of every node are
    ordered by decreasing priority, as the comment assumes, the second
    criterion is the documented one, the highest priority among the victims.
    The dry run need not order them so: it lists the victims that violate a
    budget first, whatever their priority (unordered_victims_misjudged in
    PreemptionView.v). *)
Theorem pickOne_least :
  M <> ∅ -> exists n v, pickOneNodeForPreemption now M = Ret n /\ M !! n = Some v /\
    (forall n' v', M !! n' = Some v' -> lex_le (first_cost v) (first_cost v')) /\
    ((forall n' v', M !! n' = Some v' -> decreasing v') ->
       forall n' v', M !! n' = Some v' -> lex_le (victims_cost v) (victims_cost v')).
Proof.
  intros HM. destruct (pickOne_chain HM) as (n & Hp & Hn).
  pose proof (proj1 (elem_of_map_nodes n) (argmin_chain_sub _ _ _ Hn)) as [v Hv].
  exists n, v. enough (forall n' v', M !! n' = Some v' -> lex_le (first_cost v) (first_cost v')) as Hle.
  { split_and!; [done|done|done|]. intros Hd n' v' Hv'. rewrite <- (decreasing_cost v), <- (decreasing_cost v') by eauto. by eapply Hle. }
  intros n' v' Hv'.
  destruct (argmin_chain_lex _ _ _ n' Hn) as [_ Hle]; [apply elem_of_map_nodes; by eexists|].
  assert (forall n v, M !! n = Some v -> map (fun k => k n) [cost_at 0; cost_at 1; cost_at 2; cost_at 3; cost_at 4]
    = first_cost v) as Hcost by (intros m u Hm; cbn [map]; unfold cost_at, victims_of; by rewrite Hm).
  by rewrite (Hcost n v Hv), (Hcost n' v' Hv') in Hle.
Qed.
End picked.

Section witness.
Definition victim (uid : string) (priority start : Z) : Pod :=
  let p := sample_pod uid uid ∅ [] [] in
  let s := Spec p in
  mkPod (Name p) (Namespace p) (UID p) (ResourceVersion p) (DeletionTimestamp p) (Labels p) (Annotations p)
    (mkPodSpec (Containers s) (InitContainers s) (Overhead s) (NodeName s) (SchedulerName s) (Some priority) (Volumes s)
       (spec_Affinity s) (Tolerations s) (spec_NodeSelector s) (TopologySpreadConstraints s) (PreemptionPolicy s))
    (mkPodStatus [] "" (Some start)).

Definition three_nodes : gmap string Victims :=
  {["n1"%string := mkVictims [victim "a" 5 10; victim "b" 1 10] 0;
    "n2"%string := mkVictims [victim "c" 5 20; victim "d" 1 20] 0;
    "n3"%string := mkVictims [victim "e" 1 30] 1]}.

Lemma three_nodes_ok : map_Forall (fun _ v => victims_ok v) three_nodes.
Proof.
  unfold three_nodes. apply map_Forall_insert_2; [|apply map_Forall_insert_2; [|apply map_Forall_singleton]];
    (split_and!; [done|vm_compute; congruence|vm_compute; congruence|repeat constructor; vm_compute; congruence]).
Qed.

Lemma three_nodes_decreasing n v : three_nodes !! n = Some v -> decreasing v.
Proof.
  revert n v. change (map_Forall (fun _ v => decreasing v) three_nodes). unfold three_nodes, decreasing.
  apply map_Forall_insert_2; [|apply map_Forall_insert_2; [|apply map_Forall_singleton]]; repeat constructor; vm_compute; congruence.
Qed.

Lemma pickOne_least_witness :
  exists n v, @pickOneNodeForPreemption range_rev 100 three_nodes = Ret n /\ three_nodes !! n = Some v /\
    forall n' v', three_nodes !! n' = Some v' -> lex_le (victims_cost 100 v) (victims_cost 100 v').
Proof.
  destruct (@pickOne_least range_rev 100 three_nodes three_nodes_ok) as (n & v & H1 & H2 & _ & H3); [discriminate|].
  exists n, v. split; [exact H1|]. split; [exact H2|]. exact (H3 three_nodes_decreasing).
Defined.

Example pickOne_ex : @pickOneNodeForPreemption range_rev 100 three_nodes = Ret "n2"%string /\
  @pickOneNodeForPreemption range_id 100 three_nodes = Ret "n2"%string.
Proof. vm_compute. done. Qed.
End witness.

(** * Correctness of the preemption dry run

    [selectVictimsOnNode] against the interface [VerdictOfPods]: the filters
    judge a node by its pods, up to their order, and the updates of their
    state succeed.  The loop that removes the lower priority pods, over an
    array that is changed while it runs, visits each of them once; the
    victims are what a greedy choice leaves; the pod fits without them, and
    no choice of victims that would do as well spares a pod that was tried
    before the first on which the two differ. *)

(** ** Disruption budgets *)

(** How many of the pods the budget is charged for. *)
Definition charged (pdb : PodDisruptionBudget) (l : list PodInfo) : Z :=
  Z.of_nat (length (List.filter (fun pi => negb (size (Labels (pi_Pod pi)) =? 0)%nat && pdb_counts pdb (pi_Pod pi)) l)).

(** With the pods [seen] gone, evicting the pod exceeds a budget. *)
Definition violates (pdbs : list PodDisruptionBudget) (seen : list PodInfo) (pi : PodInfo) : bool :=
  negb (size (Labels (pi_Pod pi)) =? 0)%nat &&
  existsb (fun pdb => pdb_counts pdb (pi_Pod pi) && (DisruptionsAllowed pdb <? charged pdb seen + 1)) pdbs.

Fixpoint classify (pdbs : list PodDisruptionBudget) (seen l : list PodInfo) : list (PodInfo * bool) :=
  match l with
  | [] => []
  | pi :: l => (pi, violates pdbs seen pi) :: classify pdbs (seen ++ [pi]) l
  end.

Lemma charged_snoc pdb l pi :
  charged pdb (l ++ [pi]) = charged pdb l +
    (if negb (size (Labels (pi_Pod pi)) =? 0)%nat && pdb_counts pdb (pi_Pod pi) then 1 else 0).
Proof. unfold charged. rewrite List.filter_app, length_app. cbn [List.filter]. destruct (_ && _); cbn [length]; lia. Qed.

Lemma charged_bounds pdb l : 0 <= charged pdb l <= Z.of_nat (length l).
Proof.
  unfold charged.
  pose proof (List.filter_length_le (fun pi => negb (size (Labels (pi_Pod pi)) =? 0)%nat && pdb_counts pdb (pi_Pod pi)) l). lia.
Qed.

Definition budgets_left (pdbs : list PodDisruptionBudget) (seen : list PodInfo) : list Z :=
  map (fun pdb => DisruptionsAllowed pdb - charged pdb seen) pdbs.

Lemma charge_pdbs_exact pdbs seen pi :
  (size (Labels (pi_Pod pi)) =? 0)%nat = false ->
  (forall pdb, pdb ∈ pdbs -> is_int32 (DisruptionsAllowed pdb - charged pdb seen - 1)) ->
  charge_pdbs pdbs (budgets_left pdbs seen) (pi_Pod pi) = (budgets_left pdbs (seen ++ [pi]), violates pdbs seen pi).
Proof.
  intros Hl. unfold violates. rewrite Hl. cbn [negb andb]. induction pdbs as [|pdb pdbs IH]; intros Hb; [done|].
  cbn [charge_pdbs budgets_left map existsb]. fold (budgets_left pdbs seen). rewrite IH by (intros; apply Hb; by right).
  fold (budgets_left pdbs (seen ++ [pi])). rewrite charged_snoc, Hl. cbn [negb andb].
  destruct (pdb_counts pdb (pi_Pod pi)) eqn:E; cbn [andb orb].
  - rewrite int32_id by (apply Hb; by left). rewrite orb_comm. f_equal; [f_equal; lia|]. f_equal.
    destruct (Z.ltb_spec (DisruptionsAllowed pdb - charged pdb seen - 1) 0), (Z.ltb_spec (DisruptionsAllowed pdb) (charged pdb seen + 1));
      try done; lia.
  - f_equal. f_equal. lia.
Qed.

Lemma budgets_left_unlabelled pdbs seen pi :
  (size (Labels (pi_Pod pi)) =? 0)%nat = true -> budgets_left pdbs (seen ++ [pi]) = budgets_left pdbs seen.
Proof. intros H. apply map_ext. intros pdb. rewrite charged_snoc, H. cbn [negb andb]. lia. Qed.

(** The split is stable, and each pod is judged with the pods before it gone. *)
Lemma filterPods_classify pdbs l :
  (forall pdb, pdb ∈ pdbs -> MinInt32 <= DisruptionsAllowed pdb - Z.of_nat (length l) /\ DisruptionsAllowed pdb <= MaxInt32) ->
  filterPodsWithPDBViolation l pdbs =
    (map fst (List.filter snd (classify pdbs [] l)), map fst (List.filter (fun e => negb e.2) (classify pdbs [] l))).
Proof.
  unfold filterPodsWithPDBViolation. intros Hb.
  assert (map DisruptionsAllowed pdbs = budgets_left pdbs []) as ->
    by (apply map_ext; intros; unfold charged; simpl; lia).
  assert (forall pdb, pdb ∈ pdbs -> MinInt32 <= DisruptionsAllowed pdb - Z.of_nat (length ([] ++ l)) /\ DisruptionsAllowed pdb <= MaxInt32) as Hb'
    by done. clear Hb. revert Hb'. generalize (@nil PodInfo) as seen. induction l as [|pi l IH]; intros seen Hb; [done|].
  cbn [split_violating classify].
  destruct (size (Labels (pi_Pod pi)) =? 0)%nat eqn:El.
  - rewrite <- (budgets_left_unlabelled pdbs seen pi El), (IH (seen ++ [pi])) by (by rewrite <- app_assoc).
    unfold violates. rewrite El. cbn [negb andb List.filter map snd fst]. done.
  - rewrite charge_pdbs_exact; [|done|].
    + rewrite (IH (seen ++ [pi])) by (by rewrite <- app_assoc). cbn [List.filter snd]. by destruct (violates pdbs seen pi).
    + intros pdb Hin. destruct (Hb pdb Hin) as [H1 H2]. pose proof (charged_bounds pdb seen).
      rewrite length_app in H1. cbn [length] in H1. int_unfold. unfold MinInt32, MaxInt32 in *. lia.
Qed.

Lemma classify_fst pdbs seen l : map fst (classify pdbs seen l) = l.
Proof. revert seen. induction l as [|pi l IH]; intros seen; simpl; [done|]. by rewrite IH. Qed.

Lemma filter_split {A} (p : A -> bool) l : List.filter p l ++ List.filter (fun x => negb (p x)) l ≡ₚ l.
Proof.
  induction l as [|x l IH]; simpl; [done|]. destruct (p x); simpl; [by rewrite IH|].
  by rewrite <- Permutation_middle, IH.
Qed.

Lemma split_violating_perm pdbs allowed l :
  (split_violating pdbs allowed l).1 ++ (split_violating pdbs allowed l).2 ≡ₚ l.
Proof.
  revert allowed. induction l as [|pi l IH]; intros allowed; cbn [split_violating]; [done|].
  destruct (if (size _ =? 0)%nat then _ else _) as [allowed' violated].
  specialize (IH allowed'). destruct (split_violating pdbs allowed' l) as [v n]. cbn [fst snd] in IH.
  destruct violated; cbn [fst snd app]; [by rewrite IH|]. by rewrite <- Permutation_middle, IH.
Qed.

Lemma sublist_submseteq_elem {A} (l l' : list A) x : sublist l l' -> x ∈ l -> x ∈ l'.
Proof. intros H Hx. apply sublist_submseteq in H. by eapply elem_of_submseteq. Qed.

(** ** Moving the last pod into the gap *)

Lemma swap_remove_length s i : is_Some (s !! i) -> length (swap_remove s i) = pred (length s).
Proof.
  intros [x Hx]. pose proof (Permutation_length (swap_remove_perm s i x Hx)) as H. cbn [length] in H. lia.
Qed.

Lemma swap_remove_lookup (s : list PodInfo) i j : is_Some (s !! i) -> (i < j)%nat -> (j < pred (length s))%nat ->
  swap_remove s i !! j = s !! j.
Proof.
  intros [x Hx] Hij Hj. unfold swap_remove. destruct (last s) as [y|] eqn:El.
  - rewrite lookup_take_lt by (lia). apply list_lookup_insert_ne. lia.
  - apply last_None in El. subst. done.
Qed.

(** ** What the dry run asks of the filters *)

(** Removing a pod of the node, and adding one of [all] back, succeed; the
    filters judge by the pods, in any order. *)
Class VerdictOfPods {arch : GoArch} {gates : FeatureGates} {mr : MapRange} {Ext : Type} (f : frameworkImpl Ext)
    (npm : nominator) (pod : Pod) (all : list PodInfo) (good : sim -> Prop) (fits : list PodInfo -> bool) : Prop := {
  vp_sub s : good s -> Pods (sim_node s) ⊆+ all;
  vp_node s : good s -> is_Some (ni_node (sim_node s));
  vp_remove s pi i : good s -> Pods (sim_node s) !! i = Some pi ->
    exists s', removePod f pod pi s = Ret (s', None) /\ good s' /\
      Pods (sim_node s') = swap_remove (Pods (sim_node s)) i /\ ni_node (sim_node s') = ni_node (sim_node s);
  vp_add s pi : good s -> pi :: Pods (sim_node s) ⊆+ all ->
    exists s', addPod f pod pi s = Ret (s', None) /\ good s' /\
      Pods (sim_node s') = Pods (sim_node s) ++ [pi] /\ ni_node (sim_node s') = ni_node (sim_node s);
  vp_filter s : good s ->
    exists s' st, sim_filter f npm pod s = Ret (s', st) /\ good s' /\ sim_node s' = sim_node s /\
      IsSuccess st = fits (Pods (sim_node s));
  vp_perm l l' : l ≡ₚ l' -> fits l = fits l'
}.

Section dryrun.
Context {arch : GoArch} {gates : FeatureGates} {mr : MapRange} {par : Parallel} {srt : SortSlice} {Ext : Type}.
Context (f : frameworkImpl Ext) (npm : nominator) (now : Z) (pod : Pod) (pdbs : list PodDisruptionBudget).
Context (all : list PodInfo) (good : sim -> Prop) (fits : list PodInfo -> bool).
Context {V : VerdictOfPods f npm pod all good fits}.

Definition lower (pi : PodInfo) : bool := PodPriority (pi_Pod pi) <? PodPriority pod.
Definition not_lower (pi : PodInfo) : bool := negb (lower pi).

(** The array behind the slice, before the pod at [j] is visited. *)
Record loop_array (j : nat) (arr : list PodInfo) (pods : list PodInfo) : Prop := {
  la_rest k : (j <= k)%nat -> arr !! k = all !! k;
  la_pods k : (k < length pods)%nat -> arr !! k = pods !! k;
  la_perm : pods ≡ₚ List.filter not_lower (take j all) ++ drop j all
}.

(** The next pod sits at its place or, if the slice got shorter, before. *)
Lemma loop_array_index j arr pods pi :
  loop_array j arr pods -> all !! j = Some pi -> exists i, pods !! i = Some pi /\ (i <= j)%nat.
Proof.
  intros [Hrest Hpods Hperm] Hj. destruct (decide (j < length pods)%nat) as [Hlt|Hge].
  - exists j. split; [|done]. by rewrite <- Hpods, Hrest.
  - assert (pi ∈ pods) as Hin.
    { rewrite Hperm. apply elem_of_app. right. rewrite (drop_S _ _ _ Hj). by left. }
    apply list_elem_of_lookup_1 in Hin as [i Hi]. exists i. split; [done|]. apply lookup_lt_Some in Hi. lia.
Qed.

Lemma loop_array_remove j arr pods pi i :
  loop_array j arr pods -> all !! j = Some pi -> lower pi = true -> pods !! i = Some pi -> (i <= j)%nat ->
  loop_array (S j) (swap_remove pods i ++ drop (length (swap_remove pods i)) arr) (swap_remove pods i).
Proof.
  intros [Hrest Hpods Hperm] Hj Hlow Hi Hij.
  assert (is_Some (pods !! i)) as His by (by eexists). pose proof (swap_remove_length pods i His) as Hlen.
  set (pods' := swap_remove pods i) in *. constructor.
  - intros k Hk. destruct (decide (k < length pods')%nat) as [Hlt|Hge].
    + rewrite lookup_app_l by done. unfold pods'. rewrite swap_remove_lookup by (done || lia).
      rewrite <- Hpods by lia. apply Hrest. lia.
    + rewrite lookup_app_r, lookup_drop by lia. replace (length pods' + (k - length pods'))%nat with k by lia. apply Hrest. lia.
  - intros k Hk. by rewrite lookup_app_l.
  - pose proof (swap_remove_perm pods i pi Hi) as Hp. fold pods' in Hp.
    rewrite (take_S_r _ _ _ Hj), List.filter_app. cbn [List.filter]. unfold not_lower at 2. rewrite Hlow. cbn [negb].
    rewrite app_nil_r. apply (Permutation_cons_inv (a := pi)). rewrite <- Hp, Hperm, (drop_S _ _ _ Hj).
    by rewrite Permutation_middle.
Qed.

Lemma loop_array_keep j arr pods pi :
  loop_array j arr pods -> all !! j = Some pi -> lower pi = false -> loop_array (S j) arr pods.
Proof.
  intros [Hrest Hpods Hperm] Hj Hlow. constructor; [intros k Hk; apply Hrest; lia|done|].
  rewrite Hperm, (take_S_r _ _ _ Hj), List.filter_app, (drop_S _ _ _ Hj). cbn [List.filter]. unfold not_lower at 3.
  rewrite Hlow. cbn [negb]. by rewrite <- app_assoc.
Qed.

(** The loop sees every pod of the node once, though [RemovePod] moves pods
    in the array it walks. *)
Lemma remove_lower_spec k j arr s vict :
  (j + k = length all)%nat -> good s -> loop_array j arr (Pods (sim_node s)) ->
  exists s', remove_lower f pod (seq j k) arr s vict = Ret (s', vict ++ List.filter lower (drop j all), None) /\ good s' /\
    Pods (sim_node s') ≡ₚ List.filter not_lower all /\ ni_node (sim_node s') = ni_node (sim_node s).
Proof.
  revert j arr s vict. induction k as [|k IH]; intros j arr s vict Hk Hg Ha; cbn [seq remove_lower].
  { rewrite Nat.add_0_r in Hk. exists s. rewrite drop_ge, app_nil_r by lia. split_and!; [done|done| |done].
    rewrite (la_perm _ _ _ Ha), take_ge, drop_ge, app_nil_r by lia. done. }
  destruct (lookup_lt_is_Some_2 all j) as [pi Hpi]; [lia|]. rewrite (la_rest _ _ _ Ha), Hpi by lia.
  rewrite (drop_S _ _ _ Hpi). cbn [List.filter]. fold (lower pi). destruct (lower pi) eqn:El.
  - destruct (loop_array_index j arr _ pi Ha Hpi) as (i & Hi & Hij).
    destruct (vp_remove s pi i Hg Hi) as (s1 & -> & Hg1 & Hp1 & Hn1). cbn [obind].
    destruct (IH (S j) (Pods (sim_node s1) ++ drop (length (Pods (sim_node s1))) arr) s1 (vict ++ [pi])) as (s' & -> & Hg' & Hp' & Hn').
    + lia.
    + done.
    + rewrite Hp1. by eapply loop_array_remove.
    + exists s'. rewrite <- app_assoc. split_and!; [done|done|done|congruence].
  - destruct (IH (S j) arr s vict) as (s' & -> & Hg' & Hp' & Hn'); [lia|done|by eapply loop_array_keep|].
    exists s'. by split_and!.
Qed.

(** ** The greedy choice *)

(** The pods that stay, beside [kept], and those that do not. *)
Fixpoint greedy (kept l : list PodInfo) : list PodInfo * list PodInfo :=
  match l with
  | [] => (kept, [])
  | pi :: l =>
      if fits (kept ++ [pi]) then greedy (kept ++ [pi]) l
      else let '(k, v) := greedy kept l in (k, pi :: v)
  end.

Lemma greedy_app kept l l' :
  greedy kept (l ++ l') =
    ((greedy (greedy kept l).1 l').1, (greedy kept l).2 ++ (greedy (greedy kept l).1 l').2).
Proof.
  revert kept. induction l as [|pi l IH]; intros kept.
  { simpl. by destruct (greedy kept l'). }
  cbn [greedy app fst snd].
  destruct (fits (kept ++ [pi])); [apply IH|]. specialize (IH kept). destruct (greedy kept l) as [k v].
  cbn [fst snd] in *. rewrite IH. done.
Qed.

Lemma greedy_perm kept l : (greedy kept l).1 ++ (greedy kept l).2 ≡ₚ kept ++ l.
Proof.
  revert kept. induction l as [|pi l IH]; intros kept; cbn [greedy]; [done|].
  destruct (fits (kept ++ [pi])); [rewrite IH, <- app_assoc; done|]. specialize (IH kept).
  destruct (greedy kept l) as [k v]. cbn [fst snd] in *. by rewrite <- !Permutation_middle, IH.
Qed.

Lemma greedy_fits kept l : fits kept = true -> fits (greedy kept l).1 = true.
Proof.
  revert kept. induction l as [|pi l IH]; intros kept H; cbn [greedy]; [done|].
  destruct (fits (kept ++ [pi])) eqn:E; [by apply IH|]. specialize (IH kept H). by destruct (greedy kept l).
Qed.

Lemma greedy_sub kept l : sublist (greedy kept l).2 l.
Proof.
  revert kept. induction l as [|pi l IH]; intros kept; cbn [greedy]; [done|].
  destruct (fits (kept ++ [pi])); [by apply sublist_cons|]. specialize (IH kept). destruct (greedy kept l).
  by apply sublist_skip.
Qed.

Lemma greedy_keeps kept l : kept ⊆+ (greedy kept l).1.
Proof.
  revert kept. induction l as [|pi l IH]; intros kept; cbn [greedy]; [done|].
  destruct (fits (kept ++ [pi])); [etransitivity; [|apply IH]; by apply submseteq_inserts_r|].
  specialize (IH kept). by destruct (greedy kept l).
Qed.

(** The loop over the pods that may be reprieved makes that choice. *)
Lemma reprieve_all_spec l s kept :
  good s -> Pods (sim_node s) ≡ₚ kept -> kept ++ l ⊆+ all ->
  exists s', reprieve_all f npm pod l s = Ret (s', inl (map pi_Pod (greedy kept l).2)) /\ good s' /\
    Pods (sim_node s') ≡ₚ (greedy kept l).1 /\ ni_node (sim_node s') = ni_node (sim_node s).
Proof.
  revert s kept. induction l as [|pi l IH]; intros s kept Hg Hp Hs; cbn [reprieve_all greedy]; [by exists s|].
  unfold reprievePod. destruct (vp_add s pi Hg) as (s1 & -> & Hg1 & Hp1 & Hn1).
  { rewrite Hp. etransitivity; [|exact Hs]. rewrite <- Permutation_middle. by apply submseteq_skip, submseteq_inserts_r. }
  cbn [obind]. destruct (vp_filter s1 Hg1) as (s2 & st & -> & Hg2 & Hn2 & Hst). cbn [obind].
  assert (Pods (sim_node s1) ≡ₚ kept ++ [pi]) as Hp2 by (by rewrite Hp1, Hp).
  rewrite Hst, (vp_perm _ _ Hp2). destruct (fits (kept ++ [pi])) eqn:Ef.
  - cbn [obind]. destruct (IH s2 (kept ++ [pi]) Hg2) as (s' & -> & Hg' & Hp' & Hn').
    + by rewrite Hn2.
    + by rewrite <- app_assoc.
    + cbn [obind]. exists s'. split_and!; [done|done|done|congruence].
  - destruct (vp_remove s2 pi (length (Pods (sim_node s))) Hg2) as (s3 & -> & Hg3 & Hp3 & Hn3).
    { by rewrite Hn2, Hp1, lookup_app_r, Nat.sub_diag by lia. }
    cbn [obind]. destruct (IH s3 kept Hg3) as (s' & -> & Hg' & Hp' & Hn').
    + rewrite Hp3, Hn2, Hp1. rewrite <- Hp. apply (Permutation_cons_inv (a := pi)).
      rewrite <- (swap_remove_perm _ _ pi); [symmetry; apply Permutation_cons_append|].
      by rewrite lookup_app_r, Nat.sub_diag by lia.
    + etransitivity; [|exact Hs]. apply submseteq_app; [done|by apply submseteq_cons].
    + cbn [obind]. destruct (greedy kept l) as [k v] eqn:Eg. cbn [fst snd map] in *. exists s'. split_and!; [done|done|done|congruence].
Qed.

(** ** The victims *)

Definition sorted_victims : list PodInfo :=
  sort_slice (fun a b => MoreImportantPod now (pi_Pod a) (pi_Pod b)) (List.filter lower all).
Definition violating : list PodInfo := (filterPodsWithPDBViolation sorted_victims pdbs).1.
Definition nonviolating : list PodInfo := (filterPodsWithPDBViolation sorted_victims pdbs).2.

(** The order in which the pods of lower priority may stay: those first whose
    eviction violates a budget, each group by importance. *)
Definition reprieve_order : list PodInfo := violating ++ nonviolating.

Lemma reprieve_order_perm : reprieve_order ≡ₚ List.filter lower all.
Proof.
  unfold reprieve_order, violating, nonviolating, filterPodsWithPDBViolation. rewrite split_violating_perm.
  apply sort_slice_perm.
Qed.

Lemma rest_and_order : List.filter not_lower all ++ reprieve_order ≡ₚ all.
Proof. rewrite reprieve_order_perm, Permutation_app_comm. apply filter_split. Qed.

Lemma select_spec s : good s -> Pods (sim_node s) = all ->
  exists s', ni_node (sim_node s') = ni_node (sim_node s) /\
  if (length (List.filter lower all) =? 0)%nat then
    exists node, ni_node (sim_node s) = Some node /\
      selectVictimsOnNode f npm now pod pdbs s = Ret (s', [], 0, Some (no_victims pod (node_Name node)))
  else if fits (List.filter not_lower all) then
    let g1 := greedy (List.filter not_lower all) violating in
    let g2 := greedy g1.1 nonviolating in
    selectVictimsOnNode f npm now pod pdbs s
      = Ret (s', map pi_Pod (g1.2 ++ g2.2), Z.of_nat (length g1.2), Some (NewStatus Success [])) /\
    good s' /\ Pods (sim_node s') ≡ₚ g2.1
  else
    exists st, selectVictimsOnNode f npm now pod pdbs s = Ret (s', [], 0, st) /\ IsSuccess st = false.
Proof.
  intros Hg Hall. unfold selectVictimsOnNode. rewrite Hall.
  destruct (remove_lower_spec (length all) 0 all s [] eq_refl Hg) as (s1 & -> & Hg1 & Hp1 & Hn1).
  { rewrite Hall. constructor; [done|done|]. by rewrite take_0, drop_0. }
  rewrite drop_0. cbn [obind app].
  destruct (length (List.filter lower all) =? 0)%nat eqn:El.
  { apply Nat.eqb_eq, length_zero_iff_nil in El. rewrite El. exists s1. split; [done|].
    destruct (vp_node s1 Hg1) as [node Hnode]. rewrite Hnode. exists node. split; [by rewrite <- Hn1|done]. }
  destruct (List.filter lower all) as [|pi0 low] eqn:Elow; [done|]. rewrite <- Elow.
  destruct (vp_filter s1 Hg1) as (s2 & st & -> & Hg2 & Hn2 & Hst). cbn [obind]. rewrite Hst, (vp_perm _ _ Hp1).
  destruct (fits (List.filter not_lower all)) eqn:Ef; cbn [negb].
  2:{ exists s2. split; [congruence|]. exists st. split; [done|]. by rewrite Hst, (vp_perm _ _ Hp1). }
  fold sorted_victims. pose proof rest_and_order as Hro. unfold reprieve_order, violating, nonviolating in *.
  destruct (filterPodsWithPDBViolation sorted_victims pdbs) as [vs ns]. cbn [fst snd] in *.
  destruct (reprieve_all_spec vs s2 (List.filter not_lower all) Hg2) as (s3 & -> & Hg3 & Hp3 & Hn3).
  { by rewrite Hn2. }
  { transitivity (List.filter not_lower all ++ (vs ++ ns)); [|by rewrite Hro].
    apply submseteq_app; [done|by apply submseteq_inserts_r]. }
  cbn [obind]. set (g1 := greedy (List.filter not_lower all) vs) in *.
  destruct (reprieve_all_spec ns s3 g1.1 Hg3 Hp3) as (s4 & -> & Hg4 & Hp4 & Hn4).
  { transitivity (List.filter not_lower all ++ (vs ++ ns)); [|by rewrite Hro].
    rewrite app_assoc. apply submseteq_app; [|done]. unfold g1. rewrite <- (greedy_perm (List.filter not_lower all) vs).
    by apply submseteq_inserts_r. }
  cbn [obind]. exists s4. split; [congruence|]. split_and!; [|done|done]. by rewrite map_app, length_map.
Qed.

(** *** Choices of what to spare *)

Fixpoint chosen {A} (bs : list bool) (l : list A) : list A :=
  match bs, l with
  | b :: bs, x :: l => if b then x :: chosen bs l else chosen bs l
  | _, _ => []
  end.

(** [bs] spares the first pod on which the two choices differ. *)
Fixpoint spares_first (bs bs' : list bool) : Prop :=
  match bs, bs' with
  | b :: bs, b' :: bs' => (b = true /\ b' = false) \/ (b = b' /\ spares_first bs bs')
  | [], [] => True
  | _, _ => False
  end.

Fixpoint greedy_bits (kept l : list PodInfo) : list bool :=
  match l with
  | [] => []
  | pi :: l => if fits (kept ++ [pi]) then true :: greedy_bits (kept ++ [pi]) l else false :: greedy_bits kept l
  end.

Lemma greedy_chosen kept l :
  (greedy kept l).1 ≡ₚ kept ++ chosen (greedy_bits kept l) l /\
  (greedy kept l).2 = chosen (map negb (greedy_bits kept l)) l /\ length (greedy_bits kept l) = length l.
Proof.
  revert kept. induction l as [|pi l IH]; intros kept; cbn [greedy greedy_bits]; [by rewrite app_nil_r|].
  destruct (fits (kept ++ [pi])); cbn [map negb chosen length].
  - destruct (IH (kept ++ [pi])) as (-> & -> & ->). by rewrite <- app_assoc.
  - destruct (IH kept) as (H1 & H2 & ->). destruct (greedy kept l). cbn [fst snd] in *. by rewrite H1, H2.
Qed.

(** More pods on the node never help. *)
Definition antitone : Prop := forall l p, p :: l ⊆+ all -> fits (p :: l) = true -> fits l = true.

Lemma antitone_app l l' : antitone -> l ++ l' ⊆+ all -> fits (l ++ l') = true -> fits l = true.
Proof.
  intros Ha. induction l' as [|p l' IH]; intros Hs Hf; [by rewrite app_nil_r in Hf|].
  rewrite <- Permutation_middle in Hs. rewrite (vp_perm _ (p :: l ++ l')) in Hf by (by rewrite Permutation_middle).
  apply IH; [|by apply (Ha _ p)]. etransitivity; [|exact Hs]. by apply submseteq_cons.
Qed.

Lemma greedy_first kept l bs :
  antitone -> kept ++ l ⊆+ all -> length bs = length l -> fits (kept ++ chosen bs l) = true ->
  spares_first (greedy_bits kept l) bs.
Proof.
  intros Ha. revert kept bs. induction l as [|pi l IH]; intros kept [|b bs] Hs Hl Hf; try done; cbn [greedy_bits].
  injection Hl as Hl. cbn [chosen] in Hf.
  assert (forall bs (l : list PodInfo), chosen bs l ⊆+ l) as Hsub.
  { clear. induction bs as [|b bs IH]; intros [|x l]; cbn [chosen]; try done; [apply submseteq_nil_l|].
    destruct b; [by apply submseteq_skip|by apply submseteq_cons]. }
  destruct (fits (kept ++ [pi])) eqn:E; cbn [spares_first].
  - destruct b; [|by left]. right. split; [done|]. apply IH; [by rewrite <- app_assoc|done|by rewrite <- app_assoc].
  - destruct b.
    + exfalso. assert (fits (kept ++ [pi]) = true); [|congruence].
      apply (antitone_app _ (chosen bs l) Ha); [|by rewrite <- app_assoc]. etransitivity; [|exact Hs].
      rewrite <- app_assoc. apply submseteq_app; [done|]. by apply submseteq_skip, Hsub.
    + right. split; [done|]. apply IH; [|done|done]. etransitivity; [|exact Hs]. apply submseteq_app; [done|by apply submseteq_cons].
Qed.

(** C10. The dry run on a node, with a profile for which the simulation works:
    removing a pod of the node and adding it back report no error, the filters
    return and judge the node by the pods on it, in any order
    ([VerdictOfPods]), and more pods on the node never help ([antitone]).  Such
    are the profiles of filters without PreFilter extensions that look at one
    node at a time and at what is free on it, as those of KubeHICE and of the
    node's resources; not the default profile, where InterPodAffinity may want
    other pods on the node and PodTopologySpread may panic in the simulation
    (Spread_AddPod_panics).  Then the dry run never fails.  If it names victims, they are
    pods of lower priority on the node, the pod passes all filters once they
    are gone, and the choice is the best in its order (pods whose eviction
    violates a disruption budget first, then by priority and start time):
    whichever other set of lower priority pods could stay instead, at the
    first pod on which the two differ the dry run is the one that spares it.
    So no victim could be spared in addition, and no pod is evicted to spare
    a less important one.  It names none only if there is no pod of lower
    priority, or if the pod does not fit with all of them gone. *)
Theorem selectVictims_optimal s :
  good s -> Pods (sim_node s) = all -> antitone ->
  exists s' victims n st, selectVictimsOnNode f npm now pod pdbs s = Ret (s', victims, n, st) /\
    if IsSuccess st then
      exists bs, length bs = length reprieve_order /\
        victims = map pi_Pod (chosen (map negb bs) reprieve_order) /\
        (forall v, v ∈ victims -> PodPriority v < PodPriority pod /\ v ∈ map pi_Pod all) /\
        Pods (sim_node s') ≡ₚ List.filter not_lower all ++ chosen bs reprieve_order /\
        fits (Pods (sim_node s')) = true /\
        n = Z.of_nat (length (chosen (map negb bs) violating)) /\
        forall bs', length bs' = length reprieve_order ->
          fits (List.filter not_lower all ++ chosen bs' reprieve_order) = true -> spares_first bs bs'
    else victims = [] /\ (List.filter lower all = [] \/ fits (List.filter not_lower all) = false).
Proof.
  intros Hg Hall Ha. destruct (select_spec s Hg Hall) as (s' & Hn & H).
  destruct (length (List.filter lower all) =? 0)%nat eqn:El.
  { destruct H as (node & _ & ->). do 4 eexists. split; [done|]. cbn. split; [done|]. left.
    by apply Nat.eqb_eq, length_zero_iff_nil in El. }
  destruct (fits (List.filter not_lower all)) eqn:Ef.
  2:{ destruct H as (st & -> & Hst). do 4 eexists. split; [done|]. rewrite Hst. split; [done|by right]. }
  set (rest := List.filter not_lower all) in *. cbv zeta in H. destruct H as (-> & Hg' & Hp').
  assert (greedy rest reprieve_order = ((greedy (greedy rest violating).1 nonviolating).1,
    (greedy rest violating).2 ++ (greedy (greedy rest violating).1 nonviolating).2)) as Hgr by apply greedy_app.
  destruct (greedy_chosen rest reprieve_order) as (H1 & H2 & H3). rewrite Hgr in H1, H2. cbn [fst snd] in H1, H2.
  do 4 eexists. split; [done|]. change (IsSuccess (Some (NewStatus Success []))) with true. cbv iota.
  exists (greedy_bits rest reprieve_order). split_and!.
  - done.
  - by rewrite H2.
  - intros v Hv. apply list_elem_of_fmap in Hv as (pi & -> & Hpi).
    assert (pi ∈ List.filter lower all) as Hin.
    { rewrite <- reprieve_order_perm. eapply sublist_submseteq_elem; [|exact Hpi]. rewrite H2.
      replace (chosen _ _) with (greedy rest reprieve_order).2 by (by rewrite Hgr). apply greedy_sub. }
    apply list_elem_of_In, filter_In in Hin as [Hin Hlow%Z.ltb_lt]. split; [done|].
    apply list_elem_of_fmap. exists pi. split; [done|by apply list_elem_of_In].
  - by rewrite Hp', H1.
  - rewrite (vp_perm _ _ Hp'). replace (greedy _ nonviolating).1 with (greedy rest reprieve_order).1 by (by rewrite Hgr).
    by apply greedy_fits.
  - f_equal. destruct (greedy_chosen rest violating) as (_ & -> & Hl).
    f_equal. unfold reprieve_order. clear -Hl. revert Hl. generalize nonviolating as ns.
    assert (forall kept vs ns, chosen (map negb (greedy_bits kept (vs ++ ns))) vs = chosen (map negb (greedy_bits kept vs)) vs) as Hc.
    { intros kept vs ns. revert kept. induction vs as [|pi vs IH]; intros kept; [by destruct (map negb _)|].
      cbn [app greedy_bits]. destruct (fits (kept ++ [pi])); cbn [map negb chosen]; [apply IH|f_equal; apply IH]. }
    intros ns _. by rewrite Hc.
  - intros bs' Hl' Hf'. apply greedy_first; [done| |done|done]. unfold rest. by rewrite rest_and_order.
Qed.
End dryrun.
