(* ===== verification/PreemptionView.v ===== *)
(** * Preemption with filters that judge a node by its pods

    The interface of the dry run, [VerdictOfPods], holds for every profile
    whose filters read of a [NodeInfo] only the node, what it can allocate, its
    pods in any order and the sums of their requests, and whose PreFilter
    plugins have no extensions: Hicev1 and Hicev2, NodeResourcesFit and the
    filters about the node alone.  Nominated pods are included. *)

From S2P Require Import Prelude GoInt GoFloat GoStrconv Quantity ApiTypes Labels AffinityTerms Resource HostPorts NodeInfo Samples Json Framework Snapshot NodeTree Cache Hicev1 Hicev1Proofs NodeResourcesFit Hicev2 Hicev2Proofs SchedulingQueue Runtime GenericScheduler GenericProofs FilterLoop ScoreProofs ScheduleProofs HiceProfile Scheduler Preemption PreemptionProofs.

Section view.
Context {arch : GoArch} {gates : FeatureGates} {mr : MapRange}.

(** Two descriptions of one node with the same pods. *)
Record same_view (n n' : NodeInfo) : Prop := {
  sv_node : ni_node n = ni_node n';
  sv_alloc : Allocatable n = Allocatable n';
  sv_pods : Pods n ≡ₚ Pods n';
  sv_sums : ni_sums n;
  sv_sums' : ni_sums n'
}.

#[export] Instance same_view_sym : Symmetric same_view.
Proof. intros n n' [H1 H2 H3 H4 H5]. by constructor. Qed.

Lemma same_view_trans n n' n'' : same_view n n' -> same_view n' n'' -> same_view n n''.
Proof. intros [H1 H2 H3 H4 H5] [K1 K2 K3 K4 K5]. constructor; [congruence|congruence|by rewrite H3|done|done]. Qed.

Lemma AddPodInfo_view p n w :
  ni_node (AddPodInfo p n w).1 = ni_node n /\ Allocatable (AddPodInfo p n w).1 = Allocatable n.
Proof. unfold AddPodInfo. destruct (calculateResource _) as [[? ?] ?]. by destruct (nextGeneration _). Qed.

Lemma same_view_AddPodInfo p n n' w w' : same_view n n' -> same_view (AddPodInfo p n w).1 (AddPodInfo p n' w').1.
Proof.
  intros [H1 H2 H3 H4 H5]. destruct (AddPodInfo_view p n w) as [N1 A1]. destruct (AddPodInfo_view p n' w') as [N2 A2].
  constructor; [congruence|congruence| |by apply AddPodInfo_sums..]. by rewrite !AddPodInfo_Pods, H3.
Qed.

(** A pod under its unique key is found and removed where it is. *)
Definition keyed (l : list PodInfo) : Prop :=
  NoDup (map (fun pi => UID (pi_Pod pi)) l) /\ Forall (fun pi => UID (pi_Pod pi) <> ""%string) l.

Lemma keyed_submseteq l l' : l ⊆+ l' -> keyed l' -> keyed l.
Proof.
  intros Hs [H1 H2]. apply submseteq_Permutation in Hs as [k Hk]. split.
  - eapply (NoDup_app (map _ l) (map (fun pi => UID (pi_Pod pi)) k)). rewrite <- map_app. rewrite <- Hk. exact H1.
  - rewrite Hk in H2. by apply Forall_app in H2 as [? _].
Qed.

Lemma has_key_uid pi k : UID (pi_Pod pi) <> ""%string -> has_key k pi = String.eqb k (UID (pi_Pod pi)).
Proof.
  intros H. unfold has_key, GetPodKey. destruct (UID (pi_Pod pi)) eqn:E; [done|]. done.
Qed.

Lemma index_of_keyed l i pi : keyed l -> l !! i = Some pi -> index_of (UID (pi_Pod pi)) l = Some i.
Proof.
  revert i. induction l as [|p l IH]; intros i [Hnd HF] Hi; [done|]. cbn [map] in Hnd. apply NoDup_cons in Hnd as [Hp Hnd].
  apply Forall_cons in HF as [Hpk HF]. cbn [index_of]. rewrite has_key_uid by done.
  destruct i as [|i]; simpl in Hi.
  - injection Hi as ->. by rewrite String.eqb_refl.
  - rewrite (proj2 (String.eqb_neq _ _)).
    + by rewrite (IH i).
    + intros E. apply Hp. rewrite <- E. apply (list_elem_of_fmap_2 (fun pi => UID (pi_Pod pi))). by eapply list_elem_of_lookup_2.
Qed.

Lemma RemovePod_keyed n w i pi :
  keyed (Pods n) -> ni_sums n -> Pods n !! i = Some pi ->
  exists n' w', RemovePod (pi_Pod pi) n w = Ret (n', w', None) /\ Pods n' = swap_remove (Pods n) i /\
    ni_node n' = ni_node n /\ Allocatable n' = Allocatable n /\ ni_sums n'.
Proof.
  intros Hk Hs Hi. pose proof (index_of_keyed _ _ _ Hk Hi) as Hidx.
  assert (UID (pi_Pod pi) <> ""%string) as Hu.
  { destruct Hk as [_ HF]. rewrite Forall_forall in HF. apply HF. by eapply list_elem_of_lookup_2. }
  assert (forall n' w', RemovePod (pi_Pod pi) n w = Ret (n', w', None) -> ni_sums n') as Hsums.
  { intros n' w' H. apply RemovePod_sums in H as [H _]; [done|done|]. intros p Hp Hpk.
    apply list_elem_of_lookup_1 in Hp as [j Hj]. destruct (index_of_Some _ _ _ Hidx) as (q & Hq & _).
    rewrite has_key_uid in Hpk.
    - apply String.eqb_eq in Hpk. pose proof (index_of_keyed _ _ _ Hk Hj) as Hidx'. rewrite <- Hpk, Hidx in Hidx'.
      injection Hidx' as ->. rewrite Hi in Hj. by injection Hj as ->.
    - destruct Hk as [_ HF]. rewrite Forall_forall in HF. apply HF. by eapply list_elem_of_lookup_2. }
  assert (exists n' w', RemovePod (pi_Pod pi) n w = Ret (n', w', None) /\ Pods n' = swap_remove (Pods n) i /\
    ni_node n' = ni_node n /\ Allocatable n' = Allocatable n) as (n' & w' & H & H1 & H2 & H3).
  { unfold RemovePod. assert (GetPodKey (pi_Pod pi) = (UID (pi_Pod pi), None)) as ->
      by (unfold GetPodKey; by destruct (UID (pi_Pod pi))).
    rewrite Hidx. destruct (calculateResource (pi_Pod pi)) as [[res c] m].
    destruct (nextGeneration _) as [g w'] eqn:Eg. by do 2 eexists. }
  exists n', w'. split_and!; try done. by eapply Hsums.
Qed.

(** ** Profiles of such filters *)

Section profile.
Context {Ext : Type} (f : frameworkImpl Ext).

Definition by_view (pl : FilterPlugin) : Prop :=
  forall st p n n', same_view n n' -> fl_Filter pl st p n = fl_Filter pl st p n'.

Record view_profile : Prop := {
  vw_filters : Forall by_view (filterPlugins Ext f);
  vw_return : filters_return f;
  vw_extensions : Forall (fun pl => pf_Extensions Ext pl = None) (preFilterPlugins Ext f)
}.

Context (Hvw : view_profile).

Lemma no_extension verb m st p pi n : run_extension verb m (preFilterPlugins Ext f) st p pi n = Ret (st, None).
Proof.
  pose proof (vw_extensions Hvw) as H. induction H as [|pl pls Hpl H IH]; cbn [run_extension]; [done|]. by rewrite Hpl.
Qed.

Lemma run_filters_view pls m st p n n' :
  Forall by_view pls -> same_view n n' -> run_filters f pls m st p n = run_filters f pls m st p n'.
Proof.
  intros H Hv. revert m. induction H as [|pl pls Hpl H IH]; intros m; cbn [run_filters]; [done|].
  rewrite (Hpl st p n n' Hv). destruct (fl_Filter pl st p n') as [s|]; [|done]. cbn [obind].
  destruct (IsSuccess s); [apply IH|]. destruct s; [|done]. destruct (negb (IsUnschedulable _)); [done|].
  destruct (negb _); [done|apply IH].
Qed.

Lemma add_nominated_view pis p a st n n' w w' :
  same_view n n' -> exists a' n1 w1 n1' w1',
    add_nominated f pis p a st n w = Ret (a', st, n1, w1, None) /\
    add_nominated f pis p a st n' w' = Ret (a', st, n1', w1', None) /\ same_view n1 n1'.
Proof.
  revert a n n' w w'. induction pis as [|pi pis IH]; intros a n n' w w' Hv; cbn [add_nominated]; [by do 5 eexists|].
  destruct (_ && _); [|by apply IH]. pose proof (same_view_AddPodInfo pi n n' w w' Hv) as Hv'.
  destruct (AddPodInfo pi n w) as [n1 w1], (AddPodInfo pi n' w') as [n2 w2]. cbn [fst] in Hv'.
  unfold RunPreFilterExtensionAddPod. rewrite !no_extension. cbn [obind IsSuccess]. by apply IH.
Qed.

(** Two views of a node get the same verdict. *)
Lemma verdict_view npm st p n n' w w' :
  same_view n n' -> is_Some (ni_node n) ->
  exists s w1 w1', RunFilterPluginsWithNominatedPods f npm st p n w = Ret (s, w1) /\
    RunFilterPluginsWithNominatedPods f npm st p n' w' = Ret (s, w1').
Proof.
  intros Hv Hn. destruct (RunFilter_ret f npm st p n w (vw_return Hvw) Hn) as (s & w1 & Hr).
  exists s, w1. rewrite Hr. revert Hr. unfold RunFilterPluginsWithNominatedPods, addNominatedPods.
  rewrite <- (sv_node _ _ Hv). destruct (ni_node n) as [node|]; [|by destruct Hn].
  assert (forall st n n', same_view n n' -> RunFilterPlugins f st p n = RunFilterPlugins f st p n') as Hrun.
  { intros st0 m m' Hm. apply run_filters_view; [apply (vw_filters Hvw)|done]. }
  destruct (NominatedPodsForNode npm (node_Name node)) as [|pi pis].
  - cbn [obind]. rewrite (Hrun st n n' Hv). destruct (RunFilterPlugins f st p n') as [m|]; [|done]. cbn [obind].
    destruct (_ && _); [intros [= <- <-]; by eexists|]. cbn [negb orb]. intros [= <- <-]. by eexists.
  - unfold Clone. destruct (add_nominated_view (pi :: pis) p false (CS_Clone st) n n' w w' Hv) as (a & n1 & w2 & n1' & w2' & -> & -> & Hv1).
    cbn [obind]. rewrite (Hrun _ n1 n1' Hv1), (Hrun _ n n' Hv). destruct (RunFilterPlugins f _ p n1') as [m|]; [|done]. cbn [obind].
    destruct (_ && _); [intros [= <- <-]; by eexists|]. destruct (_ || _); [intros [= <- <-]; by eexists|].
    destruct (RunFilterPlugins f st p n') as [m'|]; [|done]. cbn [obind]. intros [= <- <-]. by eexists.
Qed.

(** ** The interface *)

Context (npm : nominator) (pod : Pod) (state : CycleState) (ni0 : NodeInfo).

(** The node with other pods on it. *)
Definition rebuild (l : list PodInfo) : NodeInfo :=
  fold_left (fun n p => (AddPodInfo p n (mkWorld 0 [])).1) l
    (mkNodeInfo (ni_node ni0) [] [] [] ∅ zeroResource zeroResource (Allocatable ni0) ∅ 0 0).

Definition fits_view (l : list PodInfo) : bool :=
  match RunFilterPluginsWithNominatedPods f npm state pod (rebuild l) (mkWorld 0 []) with
  | Ret (st, _) => IsSuccess st
  | Panic _ => false
  end.

Lemma rebuild_spec l :
  ni_node (rebuild l) = ni_node ni0 /\ Allocatable (rebuild l) = Allocatable ni0 /\ Pods (rebuild l) = l /\ ni_sums (rebuild l).
Proof.
  unfold rebuild. set (base := mkNodeInfo _ _ _ _ _ _ _ _ _ _ _).
  assert (ni_sums base) as Hb by (by constructor). induction l as [|p l IH] using rev_ind; [by split_and!|].
  rewrite fold_left_app. cbn [fold_left]. destruct IH as (H1 & H2 & H3 & H4).
  destruct (AddPodInfo_view p (fold_left (fun n p => (AddPodInfo p n (mkWorld 0 [])).1) l base) (mkWorld 0 [])) as [N A].
  split_and!; [congruence|congruence|by rewrite AddPodInfo_Pods, H3|by apply AddPodInfo_sums].
Qed.

Record good_view (s : sim) : Prop := {
  gv_state : sim_state s = state;
  gv_node : ni_node (sim_node s) = ni_node ni0;
  gv_alloc : Allocatable (sim_node s) = Allocatable ni0;
  gv_sums : ni_sums (sim_node s);
  gv_sub : Pods (sim_node s) ⊆+ Pods ni0
}.

Lemma good_view_rebuild s l : good_view s -> Pods (sim_node s) ≡ₚ l -> same_view (sim_node s) (rebuild l).
Proof.
  intros [H1 H2 H3 H4 H5] Hp. destruct (rebuild_spec l) as (R1 & R2 & R3 & R4).
  constructor; [congruence|congruence|by rewrite R3|done|done].
Qed.

(** The filters of such a profile meet the interface of the dry run. *)
Lemma view_verdict : keyed (Pods ni0) -> is_Some (ni_node ni0) ->
  VerdictOfPods f npm pod (Pods ni0) good_view fits_view.
Proof.
  intros Hk Hn. constructor.
  - apply gv_sub.
  - intros s Hg. by rewrite (gv_node s Hg).
  - intros s pi i Hg Hi. destruct (RemovePod_keyed (sim_node s) (sim_world s) i pi) as (n' & w' & Hr & Hp & Hn' & Ha & Hs); [|apply Hg|done|].
    { eapply keyed_submseteq; [apply (gv_sub s Hg)|done]. }
    unfold removePod. rewrite Hr. cbn [obind]. unfold RunPreFilterExtensionRemovePod. rewrite no_extension. cbn [obind].
    eexists. split; [done|]. cbn [sim_node]. split_and!; [|done|done]. destruct Hg as [G1 G2 G3 G4 G5].
    constructor; cbn [sim_node sim_state]; [done|congruence|congruence|done|]. rewrite Hp.
    etransitivity; [|exact G5]. etransitivity; [by apply (submseteq_cons pi)|].
    apply Permutation_submseteq. symmetry. by apply swap_remove_perm.
  - intros s pi Hg Hs. unfold addPod. destruct (AddPodInfo_view pi (sim_node s) (sim_world s)) as [Hn' Ha].
    pose proof (AddPodInfo_Pods pi (sim_node s) (sim_world s)) as Hp.
    pose proof (AddPodInfo_sums pi (sim_node s) (sim_world s) (gv_sums s Hg)) as Hsum.
    destruct (AddPodInfo pi (sim_node s) (sim_world s)) as [n' w']. cbn [fst] in *.
    unfold RunPreFilterExtensionAddPod. rewrite no_extension. cbn [obind]. eexists. split; [done|]. cbn [sim_node].
    split_and!; [|done|done]. destruct Hg as [G1 G2 G3 G4 G5].
    constructor; cbn [sim_node sim_state]; [done|congruence|congruence|done|]. rewrite Hp.
    by rewrite <- Permutation_cons_append.
  - intros s Hg. pose proof (good_view_rebuild s _ Hg (reflexivity _)) as Hv.
    destruct (verdict_view npm state pod _ _ (sim_world s) (mkWorld 0 []) Hv) as (st & w1 & w1' & H1 & H2); [by rewrite (gv_node s Hg)|].
    unfold sim_filter. rewrite (gv_state s Hg), H1. cbn [obind fst snd]. do 2 eexists. split; [done|]. cbn [sim_node].
    split_and!; [|done|by unfold fits_view; rewrite H2]. destruct Hg as [G1 G2 G3 G4 G5]. by constructor.
  - intros l l' Hp. assert (same_view (rebuild l) (rebuild l')) as Hv.
    { destruct (rebuild_spec l) as (R1 & R2 & R3 & R4), (rebuild_spec l') as (S1 & S2 & S3 & S4).
      constructor; [congruence|congruence|by rewrite R3, S3|done|done]. }
    destruct (verdict_view npm state pod _ _ (mkWorld 0 []) (mkWorld 0 []) Hv) as (st & w1 & w1' & H1 & H2).
    { by rewrite (proj1 (rebuild_spec l)). }
    unfold fits_view. by rewrite H1, H2.
Qed.

Lemma good_view_start w : ni_sums ni0 -> good_view (mkSim state ni0 w).
Proof. by constructor. Qed.
End profile.
End view.

(** ** The KubeHICE profile *)

Section hice.
Context {arch : GoArch} {gates : FeatureGates} {mr : MapRange} {E : EtcdService} {codec : PodCodec}.

Lemma hicev1_by_view : by_view hicev1_FilterPlugin.
Proof.
  intros st p n n' Hv. cbn. unfold Hicev1.Filter, fitsArches. by rewrite (sv_node _ _ Hv).
Qed.

Lemma requested_view n n' : same_view n n' ->
  rMemory (Requested n) = rMemory (Requested n') /\ EphemeralStorage (Requested n) = EphemeralStorage (Requested n') /\
  MilliCPU (Requested n) = MilliCPU (Requested n') /\
  forall k, get0 (ScalarResources (Requested n)) k = get0 (ScalarResources (Requested n')) k.
Proof.
  intros [_ _ Hp [S1 S2 S3 S4 _ _] [T1 T2 T3 T4 _ _]]. rewrite S1, S2, S3, T1, T2, T3.
  split_and!; [| | |intros k; rewrite S4, T4]; apply sum64_perm; by rewrite Hp.
Qed.

Lemma checks_view over r n n' ie ig : same_view n n' ->
  too_many_pods n = too_many_pods n' /\ scalar_checks over r n ie ig = scalar_checks over r n' ie ig.
Proof.
  intros Hv. destruct (requested_view n n' Hv) as (_ & _ & _ & Hs). destruct Hv as [_ Ha Hp _ _]. split.
  - unfold too_many_pods. by rewrite Ha, (Permutation_length Hp).
  - unfold scalar_checks. rewrite Ha. f_equal. apply map_ext. intros [k q]. by rewrite Hs.
Qed.

Lemma used_cpu_view n n' kj : same_view n n' -> hiceNodeRequestedMilliCPU n kj = hiceNodeRequestedMilliCPU n' kj.
Proof.
  intros [_ _ Hp _ _]. unfold hiceNodeRequestedMilliCPU.
  assert (forall l a, is_int64 a -> fold_left (fun acc p => acc +₆₄ used_cpu_of kj p) l a = a +₆₄ sum64 (map (used_cpu_of kj) l)) as Hf.
  { induction l as [|p l IH]; intros a Ha; cbn [fold_left map]; [unfold sum64, add64; simpl; by rewrite Z.add_0_r, int64_id|].
    rewrite IH by apply int64_range. cbn [sum64 foldr]. by rewrite add64_assoc. }
  rewrite !Hf by done. f_equal. apply sum64_perm. by rewrite Hp.
Qed.

Lemma hicev2_by_view : by_view hicev2_FilterPlugin.
Proof.
  intros st p n n' Hv. cbn. unfold Hicev2.Filter. rewrite (sv_node _ _ Hv). destruct (ni_node n') as [node|]; [|done].
  destruct (too_slow _ _ _); [done|]. unfold Hicev2.fitsRequest.
  set (r := Hicev2.set_MilliCPU _ _). destruct (checks_view over_add r n n' ∅ ∅ Hv) as [-> _].
  destruct (empty_request r); [done|]. destruct (requested_view n n' Hv) as (-> & -> & _ & _).
  rewrite (used_cpu_view n n' _ Hv), (sv_alloc _ _ Hv).
  destruct (checks_view over_add r n n' (hice_ignoredResources New) (hice_ignoredResourceGroups New) Hv) as [_ ->]. done.
Qed.

Lemma hice_view_profile snap : view_profile (hice_profile snap).
Proof.
  constructor.
  - repeat constructor; [apply hicev1_by_view|apply hicev2_by_view].
  - apply hice_filters_return.
  - by repeat constructor.
Qed.
End hice.

(** ** Witness *)

(** [sort.Slice] may be an insertion sort. *)
Section insertion.
Context {A : Type} (less : A -> A -> bool).

Fixpoint insert_sorted (x : A) (l : list A) : list A :=
  match l with
  | [] => [x]
  | y :: l => if less y x then y :: insert_sorted x l else x :: y :: l
  end.
Definition insertion_sort (l : list A) : list A := foldr insert_sorted [] l.

Lemma insert_sorted_perm x l : insert_sorted x l ≡ₚ x :: l.
Proof.
  induction l as [|y l IH]; simpl; [done|]. destruct (less y x); [|done]. rewrite IH. apply perm_swap.
Qed.

Lemma insertion_sort_perm l : insertion_sort l ≡ₚ l.
Proof. induction l as [|x l IH]; simpl; [done|]. by rewrite insert_sorted_perm, IH. Qed.

Lemma insert_sorted_sorted x l : strict_weak less ->
  StronglySorted (fun a b => less b a = false) l -> StronglySorted (fun a b => less b a = false) (insert_sorted x l).
Proof.
  intros [Hi Ht Hw]. induction l as [|y l IH]; intros Hs; simpl; [by repeat constructor|].
  apply StronglySorted_inv in Hs as [Hs HF]. destruct (less y x) eqn:E.
  - constructor; [by apply IH|]. rewrite insert_sorted_perm. constructor; [|done].
    destruct (less x y) eqn:E'; [|done]. rewrite <- (Hi x). symmetry. by apply (Ht x y x).
  - constructor; [by constructor|]. constructor; [done|]. eapply Forall_impl; [exact HF|]. intros z Hz.
    by apply (Hw z y x).
Qed.

Lemma insertion_sort_sorted l : strict_weak less -> StronglySorted (fun a b => less b a = false) (insertion_sort l).
Proof. intros Hsw. induction l as [|x l IH]; simpl; [constructor|by apply insert_sorted_sorted]. Qed.
End insertion.

Definition sort_insertion : SortSlice :=
  {| sort_slice := @insertion_sort; sort_slice_perm := @insertion_sort_perm; sort_slice_sorted := @insertion_sort_sorted |}.

(** A node of four cores with two pods of one core each; a more important pod
    asks for three. *)
Definition sized (uid : string) (priority milli : Z) : Pod :=
  let p := sample_nginx uid milli in
  let s := Spec p in
  mkPod (Name p) (Namespace p) (UID p) (ResourceVersion p) (DeletionTimestamp p) (Labels p) (Annotations p)
    (mkPodSpec (Containers s) (InitContainers s) (Overhead s) (NodeName s) (SchedulerName s) (Some priority) (Volumes s)
       (spec_Affinity s) (Tolerations s) (spec_NodeSelector s) (TopologySpreadConstraints s) (PreemptionPolicy s))
    (Status p).

Definition hicev2_only (Ext : Type) : frameworkImpl Ext :=
  {| preFilterPlugins := []; filterPlugins := [@hicev2_FilterPlugin amd64 gates_default]; postFilterPlugins := []; preScorePlugins := [];
     scorePlugins := []; reservePlugins := []; permitPlugins := []; preBindPlugins := []; bindPlugins := [];
     postBindPlugins := []; scorePluginWeight := ∅; runAllFilters := false |}.

Definition crowded : NodeInfo := node_with (sample_node "n1" ∅ 4000) [sized "a" 1 1000; sized "b" 2 1000].
Definition important : Pod := sized "c" 10 3000.

Lemma crowded_sums : @ni_sums amd64 gates_default crowded.
Proof.
  unfold crowded, node_with. cbn [fold_left]. apply AddPodInfo_sums, AddPodInfo_sums.
  by constructor.
Qed.

Lemma hicev2_only_view (Ext : Type) : @view_profile amd64 gates_default Ext (hicev2_only Ext).
Proof.
  constructor; [by repeat constructor; apply hicev2_by_view| |constructor].
  constructor; [|constructor]. constructor; [|constructor]. intros st p ni [nd Hn]. cbn. unfold Hicev2.Filter. rewrite Hn.
  destruct (too_slow _ _ _); by eexists.
Qed.

Definition crowded_fits : list PodInfo -> bool :=
  @fits_view amd64 gates_default range_id unit (hicev2_only unit) no_nominations important NewCycleState crowded.

Lemma crowded_antitone : antitone (Pods crowded) crowded_fits.
Proof.
  intros l p Hs _. assert (forall x, x ∈ Pods crowded -> crowded_fits [x] = true) as H1.
  { intros x [-> |[-> |?%elem_of_nil]%elem_of_cons]%elem_of_cons; [vm_compute; reflexivity..|done]. }
  pose proof (submseteq_length _ _ Hs) as Hl. change (length (Pods crowded)) with 2%nat in Hl. simpl in Hl.
  destruct l as [|x [|y l]]; [vm_compute; reflexivity| |simpl in Hl; lia].
  apply H1. eapply elem_of_submseteq; [|exact Hs]. right. by left.
Qed.

Lemma selectVictims_optimal_witness :
  exists s' victims n st,
    @selectVictimsOnNode amd64 gates_default range_id sort_insertion unit (hicev2_only unit) no_nominations 0 important []
      (mkSim NewCycleState crowded empty_world) = Ret (s', victims, n, st) /\
    if IsSuccess st then
      exists bs, length bs = length (@reprieve_order sort_insertion 0 important [] (Pods crowded)) /\
        victims = map pi_Pod (chosen (map negb bs) (@reprieve_order sort_insertion 0 important [] (Pods crowded))) /\
        (forall v, v ∈ victims -> PodPriority v < PodPriority important /\ v ∈ map pi_Pod (Pods crowded)) /\
        Pods (sim_node s') ≡ₚ List.filter (not_lower important) (Pods crowded)
          ++ chosen bs (@reprieve_order sort_insertion 0 important [] (Pods crowded)) /\
        crowded_fits (Pods (sim_node s')) = true /\
        n = Z.of_nat (length (chosen (map negb bs) (@violating sort_insertion 0 important [] (Pods crowded)))) /\
        forall bs', length bs' = length (@reprieve_order sort_insertion 0 important [] (Pods crowded)) ->
          crowded_fits (List.filter (not_lower important) (Pods crowded)
            ++ chosen bs' (@reprieve_order sort_insertion 0 important [] (Pods crowded))) = true -> spares_first bs bs'
    else victims = [] /\ (List.filter (lower important) (Pods crowded) = [] \/
           crowded_fits (List.filter (not_lower important) (Pods crowded)) = false).
Proof.
  eapply (@selectVictims_optimal amd64 gates_default range_id sort_insertion unit (hicev2_only unit) no_nominations 0 important []
    (Pods crowded) (@good_view amd64 gates_default NewCycleState crowded) crowded_fits).
  - apply (@view_verdict amd64 gates_default range_id unit (hicev2_only unit) (hicev2_only_view unit)).
    + split; [|repeat constructor; discriminate]. vm_compute. repeat constructor; set_solver.
    + by eexists.
  - apply good_view_start, crowded_sums.
  - reflexivity.
  - apply crowded_antitone.
Defined.

(** The less important of the two goes. *)
Example crowded_victims :
  (let! r := @selectVictimsOnNode amd64 gates_default range_id sort_insertion unit (hicev2_only unit) no_nominations 0 important []
      (mkSim NewCycleState crowded empty_world) in
   let '(_, victims, n, st) := r in Ret (map UID victims, n, IsSuccess st)) = Ret (["a"%string], 0, true).
Proof. vm_compute. done. Qed.

(** The dry run lists the victims that violate a disruption budget first.  On
    a full node with pods of the priorities 5 and 1, and a budget that one
    eviction exhausts, it names the pod of priority 1 before the one of
    priority 5; and [pickOneNodeForPreemption], which takes the first victim
    for the most important one, then prefers this node to one where a single
    pod of priority 3 would have to go. *)
Definition in_budget (uid : string) (priority : Z) : Pod :=
  let p := sized uid priority 2000 in
  mkPod (Name p) (Namespace p) (UID p) (ResourceVersion p) (DeletionTimestamp p) {["app"%string := "db"%string]} (Annotations p)
    (Spec p) (Status p).

Definition full_node : NodeInfo := node_with (sample_node "n1" ∅ 4000) [in_budget "a" 5; in_budget "b" 1].
Definition one_eviction : PodDisruptionBudget := mkPDB "default" (app_is "db") 1 ∅.

Theorem unordered_victims_misjudged :
  let dry := @selectVictimsOnNode amd64 gates_default range_id sort_insertion unit (hicev2_only unit) no_nominations 0
    (sized "c" 10 4000) [one_eviction] (mkSim NewCycleState full_node empty_world) in
  let victims := match dry with Ret (_, vs, n, _) => mkVictims vs n | Panic _ => mkVictims [] 0 end in
  let other := mkVictims [in_budget "d" 3] 1 in
  map PodPriority (v_Pods victims) = [1; 5] /\ NumPDBViolations victims = 1 /\
  highest victims = 5 /\ highest other = 3 /\
  @pickOneNodeForPreemption range_id 100 {["n1"%string := victims; "n2"%string := other]} = Ret "n1"%string.
Proof. vm_compute. split_and!; reflexivity. Qed.
