(* ===== verification/PreemptCycle.v ===== *)
(** * A whole preemption

    From the dry run on the nodes to the nomination: what is in the lists of
    candidates, and what [PostFilter] does, for profiles whose filters judge a
    node by its pods. *)

From S2P Require Import Prelude GoInt GoFloat GoStrconv Quantity ApiTypes Labels AffinityTerms Resource HostPorts NodeInfo Samples Json Framework Snapshot NodeTree Cache NodeResourcesFit SchedulingQueue Runtime GenericScheduler FilterLoop HiceProfile Scheduler Preemption PreemptionProofs PreemptionView.

(** ** The list that the pieces fill *)

(** The candidates that were added, of which the first [num] are stored. *)
Definition list_of (num : nat) (added : list candidate) (cl : candidateList) : Prop :=
  cl_idx cl = Z.of_nat (length added) - 1 /\
  cl_items cl = map Some (take num added) ++ replicate (num - length added) None.

Lemma list_of_new num cl : newCandidateList (Z.of_nat num) = Ret cl -> list_of num [] cl.
Proof.
  unfold newCandidateList. rewrite (proj2 (Z.ltb_ge _ 0)) by lia. intros [= <-]. split; cbn [cl_idx cl_items length]; [lia|].
  rewrite take_nil, Nat2Z.id, Nat.sub_0_r. done.
Qed.

Lemma list_of_length num added cl : list_of num added cl -> length (cl_items cl) = num.
Proof.
  intros [_ ->]. rewrite length_app, length_map, length_take, length_replicate. lia.
Qed.

Lemma list_of_add num added cl c : list_of num added cl -> Z.of_nat (length added) < MaxInt32 ->
  list_of num (added ++ [c]) (cl_add c cl).
Proof.
  intros Hl Hb. pose proof (list_of_length _ _ _ Hl) as Hlen. destruct Hl as [Hi Hit]. unfold cl_add.
  rewrite int32_id by (rewrite Hi; int_unfold; unfold MaxInt32 in *; lia). rewrite Hlen, Hi. split; cbn [cl_idx cl_items].
  { rewrite length_app. simpl. lia. }
  replace (Z.of_nat (length added) - 1 + 1) with (Z.of_nat (length added)) by lia. rewrite Nat2Z.id, Hit, length_app. cbn [length].
  destruct (Z.ltb_spec (Z.of_nat (length added)) (Z.of_nat num)) as [Hlt|Hge].
  - rewrite !take_ge by (rewrite ?length_app; simpl; lia).
    rewrite insert_app_r_alt by (rewrite length_map; lia). rewrite length_map, Nat.sub_diag.
    destruct (num - length added)%nat as [|k] eqn:Ek; [lia|]. cbn [replicate]. rewrite map_app, <- app_assoc. cbn.
    replace (num - (length added + 1))%nat with k by lia. done.
  - rewrite take_app_le by lia. replace (num - length added)%nat with 0%nat by lia.
    replace (num - (length added + 1))%nat with 0%nat by lia. done.
Qed.

Lemma list_of_get num added cl : list_of num added cl -> Z.of_nat (length added) <= MaxInt32 ->
  cl_get cl = take num added /\ cl_size cl = Z.min (Z.of_nat num) (Z.of_nat (length added)).
Proof.
  intros Hl Hb. pose proof (list_of_length _ _ _ Hl) as Hlen. destruct Hl as [Hi Hit]. unfold cl_get, cl_size.
  rewrite int32_id by (rewrite Hi; int_unfold; unfold MaxInt32 in *; lia). rewrite Hlen, Hi.
  replace (Z.of_nat (length added) - 1 + 1) with (Z.of_nat (length added)) by lia.
  assert (forall l : list candidate, omap id (map Some l) = l) as Ho 
    by (induction l as [|c l IH]; [done|]; change (omap id (map Some (c :: l))) with (c :: omap id (map Some l)); by rewrite IH).
  assert (forall k, omap id (replicate k (@None candidate)) = []) as Hr by (induction k as [|k IH]; [done|exact IH]).
  destruct (Z.leb_spec (Z.of_nat num) (Z.of_nat (length added))); (split; [|lia]); rewrite Nat2Z.id, Hit.
  - rewrite take_app_le by (rewrite length_map, length_take; lia). rewrite take_ge by (rewrite length_map, length_take; lia). apply Ho.
  - rewrite take_app_le by (rewrite length_map, length_take; lia). rewrite take_ge by (rewrite length_map, length_take; lia). apply Ho.
Qed.

(** ** The dry run on the nodes *)

Section cycle.
Context {arch : GoArch} {gates : FeatureGates} {mr : MapRange} {par : Parallel} {srt : SortSlice} {Ext : Type}.
Context (f : frameworkImpl Ext) (Hview : view_profile f) (npm : nominator) (now : Z).

(** Nodes as the cache keeps them. *)
Record node_ok (ni : NodeInfo) : Prop := {
  no_object : is_Some (ni_node ni);
  no_keyed : keyed (Pods ni);
  no_sums : ni_sums ni;
  no_length : Z.of_nat (length (Pods ni)) <= MaxInt32;
  no_priorities : Forall (fun pi => is_int32 (PodPriority (pi_Pod pi))) (Pods ni)
}.

(** The victims are pods of lower priority, and the pod fits without them. *)
Definition makes_room (pod : Pod) (state : CycleState) (ni : NodeInfo) (victims : list PodInfo) : Prop :=
  exists kept, Pods ni ≡ₚ kept ++ victims /\ Forall (fun pi => PodPriority (pi_Pod pi) < PodPriority pod) victims /\
    fits_view f npm pod (CS_Clone state) ni kept = true.

Context (pod : Pod) (pdbs : list PodDisruptionBudget) (state : CycleState) (nodes : list NodeInfo).
Context (Hnodes : Forall node_ok nodes).

Lemma select_candidate ni w : node_ok ni ->
  exists s' victims n st,
    selectVictimsOnNode f npm now pod pdbs (mkSim (CS_Clone state) (Clone ni) w) = Ret (s', map pi_Pod victims, n, st) /\
    ni_node (sim_node s') = ni_node ni /\
    (IsSuccess st = false \/ makes_room pod state ni victims /\ 0 <= n <= Z.of_nat (length victims)).
Proof.
  intros [Hobj Hk Hs _ _]. pose proof (view_verdict f Hview npm pod (CS_Clone state) ni Hk Hobj) as HV.
  destruct (select_spec f npm now pod pdbs (Pods ni) (good_view (CS_Clone state) ni) (fits_view f npm pod (CS_Clone state) ni)
    (mkSim (CS_Clone state) (Clone ni) w)) as (s' & Hn & H); [by apply good_view_start|done|]. cbn [sim_node] in Hn. unfold Clone in *.
  destruct (length _ =? 0)%nat.
  { destruct H as (node & _ & ->). exists s', []. do 2 eexists. split; [done|]. split; [done|by left]. }
  set (rest := List.filter (not_lower pod) (Pods ni)) in *. set (vs := violating now pod pdbs (Pods ni)) in *.
  set (ns := nonviolating now pod pdbs (Pods ni)) in *. set (fits := fits_view f npm pod (CS_Clone state) ni) in *.
  destruct (fits rest) eqn:Ef.
  2:{ destruct H as (st & -> & Hst). exists s', []. do 2 eexists. split; [done|]. split; [done|by left]. }
  cbv zeta in H. destruct H as (-> & _ & _). set (g1 := greedy fits rest vs). set (g2 := greedy fits g1.1 ns).
  exists s', (g1.2 ++ g2.2). do 2 eexists. split; [done|]. split; [done|]. right.
  assert (greedy fits rest (vs ++ ns) = (g2.1, g1.2 ++ g2.2)) as Hgr by apply greedy_app.
  pose proof (greedy_perm fits rest (vs ++ ns)) as Hp. pose proof (greedy_sub fits rest (vs ++ ns)) as Hsub.
  pose proof (greedy_fits fits rest (vs ++ ns) Ef) as Hf. rewrite Hgr in Hp, Hsub, Hf. cbn [fst snd] in *.
  pose proof (rest_and_order now pod pdbs (Pods ni)) as Hro. unfold reprieve_order in Hro. fold rest vs ns in Hro.
  split; [|rewrite length_app; lia]. exists g2.1. split_and!; [by rewrite Hp, Hro| |done].
  apply Forall_forall. intros pi Hpi. apply (sublist_submseteq_elem _ _ pi Hsub) in Hpi.
  pose proof (reprieve_order_perm now pod pdbs (Pods ni)) as Ho. unfold reprieve_order in Ho. fold vs ns in Ho. rewrite Ho in Hpi.
  apply list_elem_of_In, filter_In in Hpi as [_ H%Z.ltb_lt]. done.
Qed.

(** What every candidate is. *)
Definition candidate_ok (c : candidate) : Prop :=
  exists ni node victims, ni ∈ nodes /\ ni_node ni = Some node /\ c_name c = node_Name node /\
    v_Pods (c_victims c) = map pi_Pod victims /\ victims <> [] /\ makes_room pod state ni victims /\
    0 <= NumPDBViolations (c_victims c) <= Z.of_nat (length victims).

Record dry_inv (num : nat) (k : nat) (d : dry_state) : Prop := {
  di_lists : exists a1 a2, list_of num a1 (nonViolatingCandidates d) /\ list_of num a2 (violatingCandidates d) /\
    (length a1 + length a2 <= k)%nat /\ Forall candidate_ok (a1 ++ a2)
}.

Lemma dry_check offset num k d i :
  dry_inv num k d -> Z.of_nat k < MaxInt32 -> nodes <> [] ->
  exists d', dry_checkNode f npm now pod pdbs state nodes offset (Z.of_nat num) d i = Ret d' /\ dry_inv num (S k) d'.
Proof.
  intros [(a1 & a2 & L1 & L2 & Hk & HF)] Hb Hne. unfold dry_checkNode.
  destruct (lookup_lt_is_Some_2 nodes ((Z.to_nat offset + i) mod length nodes)%nat) as [ni Hni].
  { apply Nat.mod_upper_bound. by destruct nodes. }
  rewrite Hni. apply list_elem_of_lookup_2 in Hni. pose proof (proj1 (Forall_forall _ _) Hnodes ni Hni) as Hok.
  destruct (select_candidate ni (dry_world d) Hok) as (s' & victims & n & st & -> & Hnode & Hcase). cbn [obind].
  destruct (no_object ni Hok) as [node Hn]. rewrite Hnode, Hn. rewrite length_map.
  destruct (IsSuccess st && negb (length victims =? 0)%nat) eqn:E.
  - apply andb_prop in E as [Est El]. destruct Hcase as [Hcase|[Hroom Hv]]; [congruence|].
    set (c := mkCandidate _ _). assert (candidate_ok c) as Hc.
    { exists ni, node, victims. split_and!; try done; cbn; [|lia|lia]. intros ->. done. }
    eexists. split; [done|]. constructor. cbn [nonViolatingCandidates violatingCandidates].
    apply Forall_app in HF as [F1 F2]. destruct (n =? 0).
    + exists (a1 ++ [c]), a2. split_and!; [apply list_of_add; [done|lia]|done|rewrite length_app; simpl; lia|].
      apply Forall_app. split; [apply Forall_app; by split; [|constructor]|done].
    + exists a1, (a2 ++ [c]). split_and!; [done|apply list_of_add; [done|lia]|rewrite length_app; simpl; lia|].
      apply Forall_app. split; [done|]. apply Forall_app; by split; [|constructor].
  - assert (exists st', (if IsSuccess st && (length victims =? 0)%nat then Some (AsStatus (no_victim_msg (node_Name node))) else st) = Some st')
      as [st' ->].
    { destruct (IsSuccess st) eqn:Est, (length victims =? 0)%nat; try done; [by eexists| |]; (destruct st; [by eexists|done]). }
    eexists. split; [done|]. constructor. cbn [nonViolatingCandidates violatingCandidates]. exists a1, a2. split_and!; try done. lia.
Qed.

Lemma dry_loop offset num late l k d :
  dry_inv num k d -> Z.of_nat (k + length l) <= MaxInt32 -> nodes <> [] ->
  exists d', dry_until (dry_checkNode f npm now pod pdbs state nodes offset (Z.of_nat num)) late l d = Ret d' /\
    dry_inv num (k + length l) d'.
Proof.
  revert late k d. induction l as [|i l IH]; intros late k d Hd Hb Hne; cbn [dry_until length] in *.
  { exists d. by rewrite Nat.add_0_r. }
  assert (forall k', (k' <= k + S (length l))%nat -> forall d0, dry_inv num k' d0 -> dry_inv num (k + S (length l)) d0) as Hmono.
  { intros k' Hk' d0 [(a1 & a2 & ? & ? & ? & ?)]. constructor. exists a1, a2. split_and!; try done. lia. }
  destruct (dry_check offset num k d i Hd) as (d1 & Hd1 & Hinv1); [lia|done|].
  assert (forall late', exists d', dry_until (dry_checkNode f npm now pod pdbs state nodes offset (Z.of_nat num)) late' l d1 = Ret d' /\
    dry_inv num (k + S (length l)) d') as Hrest.
  { intros late'. destruct (IH late' (S k) d1 Hinv1) as (d' & -> & Hd'); [lia|done|]. exists d'. split; [done|].
    by replace (k + S (length l))%nat with (S k + length l)%nat by lia. }
  destruct (dry_cancelled d); [destruct late as [|late]|].
  - exists d. split; [done|]. eapply Hmono; [|exact Hd]. lia.
  - rewrite Hd1. cbn [obind]. apply Hrest.
  - rewrite Hd1. cbn [obind]. apply Hrest.
Qed.

Lemma dryRun_spec offset num w :
  Z.of_nat (length nodes) <= MaxInt32 -> nodes <> [] ->
  exists cs statuses w', dryRunPreemption f npm now pod pdbs state nodes offset (Z.of_nat num) w = Ret (cs, statuses, w') /\
    Forall candidate_ok cs /\ (length cs <= 2 * num)%nat.
Proof.
  intros Hb Hne. unfold dryRunPreemption. destruct (newCandidateList (Z.of_nat num)) as [nv|] eqn:E.
  2:{ unfold newCandidateList in E. by rewrite (proj2 (Z.ltb_ge _ 0)) in E by lia. }
  cbn [obind]. pose proof (list_of_new num nv E) as Hl.
  destruct (dry_loop offset num (par_late (length nodes)) (par_order (length nodes)) 0 (mkDry nv nv ∅ false w)) as (d & -> & Hd).
  - constructor. exists [], []. by split_and!.
  - rewrite (Permutation_length (par_order_perm _)), length_seq. lia.
  - done.
  - cbn [obind]. rewrite (Permutation_length (par_order_perm _)), length_seq in Hd. destruct Hd as [(a1 & a2 & L1 & L2 & Hk & HF)].
    destruct (list_of_get _ _ _ L1) as [-> _]; [lia|]. destruct (list_of_get _ _ _ L2) as [-> _]; [lia|].
    do 3 eexists. split; [done|]. apply Forall_app in HF as [F1 F2]. split.
    + apply Forall_app. split; by apply Forall_take.
    + rewrite length_app, !length_take. lia.
Qed.
End cycle.

(** ** Choosing among the candidates *)

Lemma victimsMap_lookup cs n v : candidatesToVictimsMap cs !! n = Some v -> exists c, c ∈ cs /\ c_name c = n /\ c_victims c = v.
Proof.
  unfold candidatesToVictimsMap.
  assert (forall (m : gmap string Victims), fold_left (fun m c => <[c_name c := c_victims c]> m) cs m !! n = Some v ->
    m !! n = Some v \/ exists c, c ∈ cs /\ c_name c = n /\ c_victims c = v) as H.
  { induction cs as [|c cs IH]; intros m Hm; cbn [fold_left] in Hm; [by left|].
    destruct (IH _ Hm) as [Hi|(c' & Hc & ? & ?)]; [|right; exists c'; split; [by right|done]].
    destruct (decide (c_name c = n)) as [E|Hne].
    - rewrite E, lookup_insert_eq in Hi. injection Hi as Hi. right. exists c. split; [by left|done].
    - rewrite lookup_insert_ne in Hi by done. by left. }
  intros Hm. destruct (H _ Hm) as [He|He]; [by rewrite lookup_empty in He|done].
Qed.

Lemma victimsMap_nonempty c cs : candidatesToVictimsMap (c :: cs) <> ∅.
Proof.
  unfold candidatesToVictimsMap. cbn [fold_left].
  assert (forall cs (m : gmap string Victims), is_Some (m !! c_name c) ->
    is_Some (fold_left (fun m c => <[c_name c := c_victims c]> m) cs m !! c_name c)) as H.
  { clear cs. induction cs as [|c' cs IH]; intros m Hm; cbn [fold_left]; [done|]. apply IH.
    destruct (decide (c_name c' = c_name c)) as [-> |Hne]; [by rewrite lookup_insert_eq|by rewrite lookup_insert_ne]. }
  intros E. destruct (H cs (<[c_name c := c_victims c]> ∅)) as [v Hv]; [by rewrite lookup_insert_eq|].
  by rewrite E, lookup_empty in Hv.
Qed.

(** The candidate that is selected is one of those found. *)
Lemma SelectCandidate_spec {mr : MapRange} now cs :
  cs <> [] -> Forall (fun c => victims_ok (c_victims c)) cs ->
  exists c, SelectCandidate now cs = Ret (Some c) /\ c ∈ cs.
Proof.
  intros Hne HF. rewrite Forall_forall in HF. destruct cs as [|c [|c' cs]]; [done|exists c; split; [done|by left]|].
  unfold SelectCandidate. set (all := c :: c' :: cs) in *.
  destruct (pickOne_chain now (candidatesToVictimsMap all)) as (n & -> & Hn).
  - intros n v (c0 & Hc & _ & <-)%victimsMap_lookup. by apply HF.
  - apply victimsMap_nonempty.
  - cbn [obind]. apply argmin_chain_sub, elem_of_map_nodes in Hn as [v Hv]. rewrite Hv.
    apply victimsMap_lookup in Hv as (c0 & Hc & <- & <-). exists c0. split; [by destruct c0|done].
Qed.

(** ** The plugin *)

Section plugin.
Context {arch : GoArch} {gates : FeatureGates} {mr : MapRange} {par : Parallel} {srt : SortSlice} {Ext : Type}.
Context {client : PreemptionClient Ext}.
Context (f : frameworkImpl Ext) (Hview : view_profile f) (npm : nominator) (snap : Snapshot).
Context (podLister : string -> string -> Pod + string) (pdbs : list PodDisruptionBudget).
Context (args : DefaultPreemptionArgs) (draw : Z -> Z) (now : Z).

Lemma candidate_victims_ok pod state nodes c :
  Forall node_ok nodes -> candidate_ok f npm pod state nodes c -> victims_ok (c_victims c).
Proof.
  intros HF (ni & node & victims & Hin & _ & _ & Hv & Hne & (kept & Hp & _ & _) & Hn).
  rewrite Forall_forall in HF. destruct (HF ni Hin) as [_ _ _ Hlen Hpri].
  assert (Z.of_nat (length victims) <= MaxInt32) as Hl.
  { apply Permutation_length in Hp. rewrite length_app in Hp. lia. }
  unfold victims_ok. rewrite Hv, length_map. split_and!; [|lia|done|].
  - intros E. apply map_eq_nil in E. done.
  - apply Forall_map. rewrite Hp in Hpri. by apply Forall_app in Hpri as [_ ?].
Qed.

Lemma might_help_spec nodes m : Forall node_ok nodes ->
  exists statuses, nodesWherePreemptionMightHelp nodes m = Ret (List.filter (fun n =>
    match ni_node n with
    | Some node => negb (bool_decide (Status_Code (m !! node_Name node) = UnschedulableAndUnresolvable))
    | None => true
    end) nodes, statuses).
Proof.
  intros HF. induction HF as [|n nodes Hn HF [statuses IH]]; cbn [nodesWherePreemptionMightHelp List.filter]; [by eexists|].
  destruct (no_object n Hn) as [node ->]. rewrite IH. cbn [obind]. destruct (bool_decide _); by eexists.
Qed.

Lemma numCandidates_range n :
  ValidateDefaultPreemptionArgs args = true -> 0 <= n -> n * 100 <= MaxInt32 -> 0 <= calculateNumCandidates args n <= n.
Proof.
  intros Hv Hn Hb. unfold ValidateDefaultPreemptionArgs in Hv. unfold calculateNumCandidates.
  rewrite !andb_true_iff, !negb_true_iff, orb_false_iff in Hv. destruct Hv as [[[H1 H2] H3] _].
  apply Z.ltb_ge in H1, H2, H3. rewrite int32_id by (int_unfold; unfold MaxInt32 in *; nia).
  assert (0 <= Z.quot (n * MinCandidateNodesPercentage args) 100) by (apply Z.quot_pos; nia).
  destruct (Z.ltb_spec (Z.quot (n * MinCandidateNodesPercentage args) 100) (MinCandidateNodesAbsolute args));
    destruct (Z.ltb_spec n (MinCandidateNodesAbsolute args)); try lia;
    destruct (Z.ltb_spec n (Z.quot (n * MinCandidateNodesPercentage args) 100)); lia.
Qed.

(** A node that preemption may help on, with its victims. *)
Definition preempts (state : CycleState) (pod : Pod) (m : gmap string FStatus) (n : string) (victims : list PodInfo) : Prop :=
  exists ni node, ni ∈ SN_List snap /\ ni_node ni = Some node /\ node_Name node = n /\
    Status_Code (m !! n) <> UnschedulableAndUnresolvable /\ victims <> [] /\ makes_room f npm pod state ni victims.

Lemma FindCandidates_spec x state pod m w :
  ValidateDefaultPreemptionArgs args = true -> Forall node_ok (SN_List snap) ->
  Z.of_nat (length (SN_List snap)) * 100 <= MaxInt32 ->
  exists x' found w', FindCandidates f npm snap (inl pdbs) args draw now x state pod m w = Ret (x', found, w') /\
    (x' = x \/ x' = ClearNominatedNodeName [pod] x) /\
    match found with
    | inr st => IsSuccess (Some st) = false /\ x' = x
    | inl (cs, _) => (cs <> [] -> x' = x) /\ Forall (fun c => victims_ok (c_victims c)) cs /\
        Forall (fun c => exists victims, v_Pods (c_victims c) = map pi_Pod victims /\ preempts state pod m (c_name c) victims) cs
    end.
Proof.
  intros Hv HF Hb. unfold FindCandidates. destruct (SN_List snap) as [|n0 ns] eqn:En.
  { do 3 eexists. split; [done|]. split; [by left|done]. }
  rewrite <- En in *. destruct (might_help_spec (SN_List snap) m HF) as [statuses Hpot]. rewrite Hpot. cbn [obind]. clear Hpot.
  set (pot := List.filter _ (SN_List snap)).
  assert (forall ni, ni ∈ pot -> ni ∈ SN_List snap /\
    forall node, ni_node ni = Some node -> Status_Code (m !! node_Name node) <> UnschedulableAndUnresolvable) as Hsub.
  { intros ni Hin. apply list_elem_of_In, filter_In in Hin as [H1 H2]. split; [by apply list_elem_of_In|].
    intros node Hn. rewrite Hn in H2. by apply negb_true_iff, bool_decide_eq_false in H2. }
  assert (Forall node_ok pot) as HFp.
  { apply Forall_forall. intros ni Hin. rewrite Forall_forall in HF. by apply HF, Hsub. }
  assert (Z.of_nat (length pot) <= Z.of_nat (length (SN_List snap))) as Hlp
    by (unfold pot; pose proof (List.filter_length_le (fun n => match ni_node n with
      | Some node => negb (bool_decide (Status_Code (m !! node_Name node) = UnschedulableAndUnresolvable)) | None => true end) (SN_List snap)); lia).
  destruct pot as [|p0 ps] eqn:Ep.
  { do 3 eexists. split; [done|]. split; [by right|]. split_and!; [done|constructor|constructor]. }
  rewrite <- Ep in *. rewrite int32_id by (int_unfold; unfold MaxInt32 in *; lia).
  destruct (numCandidates_range (Z.of_nat (length pot)) Hv) as [H1 H2]; [lia|lia|].
  destruct (dryRun_spec f Hview npm now pod pdbs state pot HFp (draw (Z.of_nat (length pot)))
    (Z.to_nat (calculateNumCandidates args (Z.of_nat (length pot)))) w) as (cs & sts & w' & Hdry & Hcs & _); [unfold MaxInt32 in *; lia|by rewrite Ep|].
  rewrite Z2Nat.id in Hdry by done. rewrite Hdry. cbn [obind]. do 3 eexists. split; [done|]. split; [by left|]. split_and!; [done| |].
  - eapply Forall_impl; [exact Hcs|]. intros c. by apply candidate_victims_ok.
  - eapply Forall_impl; [exact Hcs|]. intros c (ni & node & victims & Hin & Hn & Hname & Hvs & Hne & Hroom & _).
    exists victims. split; [done|]. destruct (Hsub ni Hin) as [Hin' Hst]. exists ni, node. rewrite Hname. split_and!; try done. by apply Hst.
Qed.

(** C9. What the preemption of a pod does, without extenders, with working
    listers, and with a profile without PreFilter extensions whose filters
    return and judge a node by itself (the node object, its pods and sums), as
    those of Hicev1, Hicev2 and the node's resources do.  The default profile
    is not covered: the extensions of PodTopologySpread may panic here
    (Spread_AddPod_panics).  Preemption then
    never panics; if it nominates a node, that is a node of the snapshot that
    preemption may help on, the pods it deletes (or rejects, if they wait for
    a permit) are pods of lower priority on that node, at least one, and the
    pod passes the filters there once they are gone; only then the lower
    priority nominations of the node are cleared.  Otherwise it evicts
    nothing, unless the API server refuses a deletion on the way. *)
Theorem PostFilter_preempts x state pod0 pod m w :
  podLister (Namespace pod0) (Name pod0) = inl pod -> ValidateDefaultPreemptionArgs args = true ->
  Forall node_ok (SN_List snap) -> Z.of_nat (length (SN_List snap)) * 100 <= MaxInt32 ->
  exists x' res st w',
    DefaultPreemption_PostFilter f npm snap [] podLister (inl pdbs) args draw now x state pod0 m w = Ret (x', (res, st), w') /\
    match res with
    | Some n => IsSuccess st = true /\ exists victims x1, preempts state pod m n victims /\
        evict_all DefaultPreemption_Name (map pi_Pod victims) x = (x1, None) /\
        x' = ClearNominatedNodeName (getLowerPriorityNominatedPods npm pod n) x1
    | None => IsSuccess st = false /\ (x' = x \/ x' = ClearNominatedNodeName [pod] x \/
        exists n victims e, preempts state pod m n victims /\ evict_all DefaultPreemption_Name (map pi_Pod victims) x = (x', Some e))
    end.
Proof.
  intros Hl Hv HF Hb. unfold DefaultPreemption_PostFilter, preempt. rewrite Hl.
  destruct (negb (PodEligibleToPreemptOthers _ _ _)).
  { cbn [obind]. do 4 eexists. split; [done|]. split; [done|by left]. }
  destruct (FindCandidates_spec x state pod m w Hv HF Hb) as (x' & found & w' & -> & Hx & Hfound). cbn [obind].
  destruct found as [[cs sts]|st].
  2:{ destruct Hfound as [Hst ->]. cbn [obind]. rewrite Hst. cbn [negb]. do 4 eexists. split; [done|]. split; [done|by left]. }
  destruct Hfound as (Hxx & Hok & Hpre). destruct cs as [|c cs].
  { cbn [obind]. do 4 eexists. split; [done|]. split; [done|]. destruct Hx as [-> | ->]; [by left|right; by left]. }
  rewrite (Hxx ltac:(done)). set (all := c :: cs) in *. cbn [CallExtenders].
  destruct (SelectCandidate_spec now all) as (best & -> & Hbest); [done|done|]. cbn [obind].
  rewrite Forall_forall in Hpre. destruct (Hpre best Hbest) as (victims & Hvs & Hp).
  destruct (String.length (c_name best) =? 0)%nat eqn:Ename.
  { cbn [obind]. do 4 eexists. split; [done|]. split; [done|by left]. }
  unfold PrepareCandidate. rewrite Hvs. destruct (evict_all DefaultPreemption_Name (map pi_Pod victims) x) as [x1 [e|]] eqn:Ee.
  - cbn [obind]. do 4 eexists. split; [done|]. split; [done|]. right. right. by exists (c_name best), victims, e.
  - change (IsSuccess None) with true. cbv iota. cbn [obind]. change (IsSuccess None) with true. cbn [negb].
    destruct (String.eqb_spec (c_name best) "") as [E|Hne]; [by rewrite E in Ename|].
    do 4 eexists. split; [done|]. split; [done|]. by exists victims, x1.
Qed.
End plugin.

(** ** Witness *)

(** An API server that records the deleted pods. *)
#[local] Instance deletions : PreemptionClient (list string) :=
  {| pc_DeletePod p x := (x ++ [UID p], None); pc_PatchPodStatus _ _ x := (x, None);
     pc_waiting _ := ∅; pc_set_waiting _ x := x |}.

Definition crowded_cluster : Snapshot := mkSnapshot {["n1"%string := crowded]} ["n1"%string] [] [] 1.
Definition default_args : DefaultPreemptionArgs := mkPreemptionArgs 10 100.

Lemma crowded_ok : Forall (@node_ok amd64 gates_default) (SN_List crowded_cluster).
Proof.
  change (SN_List crowded_cluster) with [crowded]. constructor; [|constructor]. constructor.
  - by eexists.
  - split; [|repeat constructor; discriminate]. vm_compute. repeat constructor; set_solver.
  - apply crowded_sums.
  - vm_compute. discriminate.
  - repeat constructor; vm_compute; congruence.
Qed.

Definition crowded_PostFilter :=
  @DefaultPreemption_PostFilter amd64 gates_default range_id in_order sort_insertion (list string) deletions
    (hicev2_only (list string)) no_nominations crowded_cluster [] (fun _ _ => inl important) (inl []) default_args (fun _ => 0) 0
    [] NewCycleState important ∅ empty_world.

Lemma PostFilter_preempts_witness :
  exists x' res st w', crowded_PostFilter = Ret (x', (res, st), w') /\
    match res with
    | Some n => IsSuccess st = true /\ exists victims x1,
        @preempts amd64 gates_default range_id (list string) (hicev2_only (list string)) no_nominations crowded_cluster
          NewCycleState important ∅ n victims /\
        evict_all DefaultPreemption_Name (map pi_Pod victims) [] = (x1, None) /\
        x' = ClearNominatedNodeName (getLowerPriorityNominatedPods no_nominations important n) x1
    | None => IsSuccess st = false /\ (x' = [] \/ x' = ClearNominatedNodeName [important] [] \/
        exists n victims e,
          @preempts amd64 gates_default range_id (list string) (hicev2_only (list string)) no_nominations crowded_cluster
            NewCycleState important ∅ n victims /\
          evict_all DefaultPreemption_Name (map pi_Pod victims) [] = (x', Some e))
    end.
Proof.
  apply (@PostFilter_preempts amd64 gates_default range_id in_order sort_insertion (list string) deletions
    (hicev2_only (list string)) (hicev2_only_view (list string)) no_nominations crowded_cluster (fun _ _ => inl important) []
    default_args (fun _ => 0) 0 [] NewCycleState important important ∅ empty_world).
  - reflexivity.
  - reflexivity.
  - exact crowded_ok.
  - vm_compute. discriminate.
Defined.

(** The less important pod is deleted and the node is nominated. *)
Example crowded_PostFilter_ex :
  (let! r := crowded_PostFilter in let '(x, (res, st), _) := r in Ret (x, res, IsSuccess st))
  = Ret (["a"%string], Some "n1"%string, true).
Proof. vm_compute. done. Qed.

(** The dry run works on a clone of the node, but the clone shares the map of
    claims with the snapshot and with the cache: the victims' claims are gone
    from it afterwards, though no pod was evicted. *)
Theorem dry_run_changes_claims :
  let '(n, w) := NewNodeInfo empty_world in
  let '(n, w) := @SetNode amd64 gates_default (sample_node "n1" ∅ 4000) n w in
  let '(n, w) := @AddPod amd64 gates_default (sized "a" 1 1000) n w in
  let '(n, w) := @AddPod amd64 gates_default (sized "b" 2 1000) n w in
  map map_to_list (pvc_maps w) = [[("default/data"%string, 2)]] /\
  (let! r := @selectVictimsOnNode amd64 gates_default range_id sort_insertion unit (hicev2_only unit) no_nominations 0 important []
      (mkSim NewCycleState (Clone n) w) in
   Ret (map map_to_list (pvc_maps (sim_world r.1.1.1)))) = Ret [[("default/data"%string, 1)]].
Proof. vm_compute. done. Qed.
