(* ===== verification/EventHandlers.v ===== *)
(** * Event handlers

    [eventhandlers.go] and the filtering handlers of
    [client-go/tools/cache/controller.go]: what the scheduler does with the
    events of the informers.  Pods with a node go to the cache, pods without
    one that name a profile go to the queue; nodes go to the cache, and make
    the queue look again at the pods that are unschedulable.

    The two handlers for pods run in goroutines of their own, so that an event
    reaches the cache and the queue in either order.  An object that is not of
    the expected type is dropped by every handler; the events here carry pods
    and nodes. *)

From S2P Require Import Prelude GoInt GoFloat GoStrconv Quantity ApiTypes Labels NodeAffinity AffinityTerms Resource HostPorts NodeInfo Json Framework Snapshot NodeTree Cache NodeResourcesFit SchedulingQueue Runtime NodePlugins GenericScheduler Scheduler.

Open Scope go_scope.

(** ** Events (internal/queue/events.go) *)

Definition NodeAdd : ClusterEvent := mkClusterEvent "Node" Action_Add "NodeAdd".
Definition AssignedPodDelete : ClusterEvent := mkClusterEvent "Pod" Action_Delete "AssignedPodDelete".
Definition NodeSpecUnschedulableChange : ClusterEvent :=
  mkClusterEvent "Node" UpdateNodeTaint "NodeSpecUnschedulableChange".
Definition NodeAllocatableChange : ClusterEvent := mkClusterEvent "Node" UpdateNodeAllocatable "NodeAllocatableChange".
Definition NodeLabelChange : ClusterEvent := mkClusterEvent "Node" UpdateNodeLabel "NodeLabelChange".
Definition NodeTaintChange : ClusterEvent := mkClusterEvent "Node" UpdateNodeTaint "NodeTaintChange".
Definition NodeConditionChange : ClusterEvent := mkClusterEvent "Node" UpdateNodeCondition "NodeConditionChange".
Definition StorageClassAdd : ClusterEvent :=
  mkClusterEvent "storage.k8s.io/StorageClass" Action_Add "StorageClassAdd".

(** ** The events that plugins register for (runtime/framework.go) *)

#[export] Instance ClusterEvent_eq_dec : EqDecision ClusterEvent.
Proof. solve_decision. Defined.

Definition allClusterEvents : list ClusterEvent :=
  map (fun gvk => mkClusterEvent gvk Action_All "")
    ["Pod"; "Node"; "storage.k8s.io/CSINode"; "PersistentVolume"; "PersistentVolumeClaim";
     "storage.k8s.io/StorageClass"]%string.

(** One iteration: the plugin joins the set of the event. *)
Fixpoint registerClusterEvent (name : string) (m : list (ClusterEvent * gset string)) (evt : ClusterEvent)
  : list (ClusterEvent * gset string) :=
  match m with
  | [] => [(evt, {[name]})]
  | (e, names) :: m =>
      if bool_decide (e = evt) then (e, names ∪ {[name]}) :: m else (e, names) :: registerClusterEvent name m evt
  end.

Definition registerClusterEvents (name : string) (m : list (ClusterEvent * gset string)) (evts : list ClusterEvent) :=
  fold_left (registerClusterEvent name) evts m.

(** [EventsToRegister] is [None] for a plugin without the interface. *)
Definition fillEventToPluginMap (name : string) (EventsToRegister : option (list ClusterEvent))
    (m : list (ClusterEvent * gset string)) : list (ClusterEvent * gset string) :=
  match EventsToRegister with
  | None => registerClusterEvents name m allClusterEvents
  | Some [] => m
  | Some events => registerClusterEvents name m events
  end.

(** ** Which changes of a node matter *)

#[export] Instance int64Amount_eq_dec : EqDecision int64Amount.
Proof. solve_decision. Defined.
#[export] Instance Dec_eq_dec : EqDecision Dec.
Proof. solve_decision. Defined.
#[export] Instance Quantity_eq_dec : EqDecision Quantity.
Proof. solve_decision. Defined.
#[export] Instance Taint_eq_dec : EqDecision Taint.
Proof. solve_decision. Defined.

Definition nodeAllocatableChanged (newNode oldNode : Node) : bool :=
  negb (bool_decide (node_Allocatable oldNode = node_Allocatable newNode)).

Definition nodeLabelsChanged (newNode oldNode : Node) : bool :=
  negb (bool_decide (node_Labels oldNode = node_Labels newNode)).

Definition nodeTaintsChanged (newNode oldNode : Node) : bool :=
  negb (bool_decide (node_Taints newNode = node_Taints oldNode)).

(** [strip]: the status of each type of condition. *)
Definition strip_conditions (l : list NodeCondition) : gmap string string :=
  fold_left (fun m c => <[nc_Type c := nc_Status c]> m) l ∅.

Definition nodeConditionsChanged (newNode oldNode : Node) : bool :=
  negb (bool_decide (strip_conditions (node_Conditions oldNode) = strip_conditions (node_Conditions newNode))).

Definition nodeSpecUnschedulableChanged (newNode oldNode : Node) : bool :=
  negb (Bool.eqb (node_Unschedulable newNode) (node_Unschedulable oldNode)) && negb (node_Unschedulable newNode).

Definition nodeSchedulingPropertiesChange (newNode oldNode : Node) : option ClusterEvent :=
  if nodeSpecUnschedulableChanged newNode oldNode then Some NodeSpecUnschedulableChange
  else if nodeAllocatableChanged newNode oldNode then Some NodeAllocatableChange
  else if nodeLabelsChanged newNode oldNode then Some NodeLabelChange
  else if nodeTaintsChanged newNode oldNode then Some NodeTaintChange
  else if nodeConditionsChanged newNode oldNode then Some NodeConditionChange
  else None.

Section handlers.
Context {arch : GoArch} {gates : FeatureGates} {mr : MapRange} {Ext : Type}.
Context (cfg : QueueConfig) (Profiles : gmap string (frameworkImpl Ext)) (DeepEqual : Pod -> Pod -> bool).

(** ** The screen for pods that a node may help *)

(** [preCheckForNode], for a [nodeInfo] whose node is [node]. *)
Definition preCheckForNode (nodeInfo : NodeInfo) (node : Node) (pod : Pod) : bool :=
  if negb (length (Fits pod nodeInfo PodOverhead) =? 0)%nat then false
  else if negb (RNA_Match (GetRequiredNodeAffinity pod) node).1 then false
  else if negb (nodename_Fits pod node) then false
  else if negb (nodeports_Fits pod nodeInfo) then false
  else match FindMatchingUntoleratedTaint (node_Taints node) (Tolerations (Spec pod)) (Some hard_taint) with
       | Some _ => false
       | None => true
       end.

(** ** Nodes *)

(** Unschedulable pods that pass the screen of the node named [name] move.
    The cache hands out a clone of its entry. *)
Definition move_for_node (now : Z) (event : ClusterEvent) (name : string) (s : Scheduler (Ext := Ext))
  : outcome (Scheduler (Ext := Ext)) :=
  match info_of (SchedulerCache s) name with
  | None => Panic nil_panic
  | Some nodeInfo =>
      match ni_node nodeInfo with
      | None => Panic nil_panic
      | Some node =>
          Ret (set_queue (MoveAllToActiveOrBackoffQueue cfg now event (Some (preCheckForNode nodeInfo node))
                            (SchedulingQueue s)) s)
      end
  end.

Definition addNodeToCache (now : Z) (node : Node) (s : Scheduler (Ext := Ext)) : outcome (Scheduler (Ext := Ext)) :=
  move_for_node now NodeAdd (node_Name node) (set_cache (AddNode node (SchedulerCache s)) s).

Definition updateNodeInCache (now : Z) (oldNode newNode : Node) (s : Scheduler (Ext := Ext))
  : outcome (Scheduler (Ext := Ext)) :=
  let! c := UpdateNode (Some oldNode) newNode (SchedulerCache s) in
  let s := set_cache c s in
  match nodeSchedulingPropertiesChange newNode oldNode with
  | Some event => move_for_node now event (node_Name newNode) s
  | None => Ret s
  end.

Definition deleteNodeFromCache (node : Node) (s : Scheduler (Ext := Ext)) : Scheduler (Ext := Ext) :=
  set_cache (cache_RemoveNode node (SchedulerCache s)).1 s.

(** ** Pods that wait *)

Definition addPodToSchedulingQueue (now : Z) (pod : Pod) (s : Scheduler (Ext := Ext)) : outcome (Scheduler (Ext := Ext)) :=
  let! r := Add cfg now pod (SchedulingQueue s) in Ret (set_queue r.1 s).

Definition updatePodInSchedulingQueue (now : Z) (oldPod newPod : Pod) (s : Scheduler (Ext := Ext))
  : outcome (Scheduler (Ext := Ext)) :=
  if String.eqb (ResourceVersion oldPod) (ResourceVersion newPod) then Ret s
  else if (IsAssumedPod newPod (SchedulerCache s)).1 then Ret s
  else let! r := Update cfg DeepEqual now (Some oldPod) newPod (SchedulingQueue s) in Ret (set_queue r.1 s).

Definition deletePodFromSchedulingQueue (pod : Pod) (s : Scheduler (Ext := Ext)) : outcome (Scheduler (Ext := Ext)) :=
  let! r := Delete cfg pod (SchedulingQueue s) in
  let s := set_queue r.1 s in
  match Profiles !! SchedulerName (Spec pod) with
  | None => Ret s
  | Some _ =>
      let name := SchedulerName (Spec pod) in
      Ret (set_waiting (<[name := RejectWaitingPod (UID pod) (profile_waiting name s)]> (waitingPods s)) s)
  end.

(** ** Pods with a node *)

Definition addPodToCache (now : Z) (pod : Pod) (s : Scheduler (Ext := Ext)) : outcome (Scheduler (Ext := Ext)) :=
  let! r := cache_AddPod pod (SchedulerCache s) in
  Ret (set_queue (AssignedPodAdded cfg now pod (SchedulingQueue s)) (set_cache r.1 s)).

Definition deletePodFromCache (now : Z) (pod : Pod) (s : Scheduler (Ext := Ext)) : outcome (Scheduler (Ext := Ext)) :=
  let! r := cache_RemovePod pod (SchedulerCache s) in
  Ret (set_queue (MoveAllToActiveOrBackoffQueue cfg now AssignedPodDelete None (SchedulingQueue s)) (set_cache r.1 s)).

Definition updatePodInCache (now : Z) (oldPod newPod : Pod) (s : Scheduler (Ext := Ext))
  : outcome (Scheduler (Ext := Ext)) :=
  if negb (String.eqb (UID oldPod) (UID newPod)) then
    let! s := deletePodFromCache now oldPod s in addPodToCache now newPod s
  else
    let! r := UpdatePod oldPod newPod (SchedulerCache s) in
    Ret (set_queue (AssignedPodUpdated cfg now newPod (SchedulingQueue s)) (set_cache r.1 s)).

(** ** Filtering handlers *)

Inductive event (A : Type) := Added (a : A) | Updated (old new : A) | Deleted (a : A).
Arguments Added {A}. Arguments Updated {A}. Arguments Deleted {A}.

(** [FilteringResourceEventHandler]: an update that makes an object pass the
    filter is an addition, one that makes it fail is a deletion. *)
Definition filtering {A S} (FilterFunc : A -> bool) (OnAdd : A -> S -> outcome S) (OnUpdate : A -> A -> S -> outcome S)
    (OnDelete : A -> S -> outcome S) (e : event A) (s : S) : outcome S :=
  match e with
  | Added obj => if negb (FilterFunc obj) then Ret s else OnAdd obj s
  | Updated oldObj newObj =>
      let newer := FilterFunc newObj in
      let older := FilterFunc oldObj in
      if newer && older then OnUpdate oldObj newObj s
      else if newer && negb older then OnAdd newObj s
      else if negb newer && older then OnDelete oldObj s
      else Ret s
  | Deleted obj => if negb (FilterFunc obj) then Ret s else OnDelete obj s
  end.

Definition assignedPod (pod : Pod) : bool := negb (String.length (NodeName (Spec pod)) =? 0)%nat.

Definition responsibleForPod (pod : Pod) : bool :=
  match Profiles !! SchedulerName (Spec pod) with Some _ => true | None => false end.

(** The handlers that [addAllEventHandlers] registers. *)
Definition cache_handler (now : Z) : event Pod -> Scheduler (Ext := Ext) -> outcome (Scheduler (Ext := Ext)) :=
  filtering assignedPod (addPodToCache now) (updatePodInCache now) (deletePodFromCache now).

Definition queue_handler (now : Z) : event Pod -> Scheduler (Ext := Ext) -> outcome (Scheduler (Ext := Ext)) :=
  filtering (fun p => negb (assignedPod p) && responsibleForPod p) (addPodToSchedulingQueue now)
    (updatePodInSchedulingQueue now) deletePodFromSchedulingQueue.

Definition node_handler (now : Z) (e : event Node) (s : Scheduler (Ext := Ext)) : outcome (Scheduler (Ext := Ext)) :=
  match e with
  | Added node => addNodeToCache now node s
  | Updated old new => updateNodeInCache now old new s
  | Deleted node => Ret (deleteNodeFromCache node s)
  end.

(** Storage classes; the argument is the binding mode. *)
Definition onStorageClassAdd (now : Z) (VolumeBindingMode : option string) (s : Scheduler (Ext := Ext)) : Scheduler (Ext := Ext) :=
  match VolumeBindingMode with
  | Some mode =>
      if String.eqb mode "WaitForFirstConsumer"
      then set_queue (MoveAllToActiveOrBackoffQueue cfg now StorageClassAdd None (SchedulingQueue s)) s else s
  | None => s
  end.

(** [buildEvtResHandler]: the handlers for the other kinds of objects. *)
Definition resource_event (gvk shortGVK : string) (at_ : Z) (verb : string) : ClusterEvent :=
  mkClusterEvent gvk at_ (str_app shortGVK verb).

Definition buildEvtResHandler (at_ : Z) (gvk shortGVK : string) (now : Z) {A} (e : event A) (s : Scheduler (Ext := Ext))
  : Scheduler (Ext := Ext) :=
  let fire action verb :=
    if negb (Z.land at_ action =? 0)
    then set_queue (MoveAllToActiveOrBackoffQueue cfg now (resource_event gvk shortGVK action verb) None (SchedulingQueue s)) s
    else s in
  match e with
  | Added _ => fire Action_Add "Add"%string
  | Updated _ _ => fire Action_Update "Update"%string
  | Deleted _ => fire Action_Delete "Delete"%string
  end.
End handlers.
Arguments Added {A}. Arguments Updated {A}. Arguments Deleted {A}.
