(* ===== verification/PluginSets.v ===== *)
(** * Sets of plugins

    The part of a scheduler configuration that names plugins: for each
    extension point those to enable and those to disable
    (apis/config/types.go and the versioned types), the default plugins that
    both versions of the configuration share, and the configuration of
    plugins by arguments.  The arguments are values of a type [A]; the scheme
    that makes and completes them is the class [ArgScheme]. *)

From S2P Require Import Prelude GoStrconv.

(** ** Sets of plugins *)

(** A plugin of a set.  The weight is a pointer in the versioned types, and
    an int32 in the internal one. *)
Record PluginOf (W : Type) := mkPlugin { pl_Name : string; pl_Weight : W }.
Arguments mkPlugin {W} _ _.
Arguments pl_Name {W} _.
Arguments pl_Weight {W} _.

Record PluginSetOf (W : Type) := mkPluginSet { ps_Enabled : list (PluginOf W); ps_Disabled : list (PluginOf W) }.
Arguments mkPluginSet {W} _ _.
Arguments ps_Enabled {W} _.
Arguments ps_Disabled {W} _.

(** The extension points of a profile, each with a set: [*PluginSet] in
    v1beta1, [PluginSet] in v1beta2 and in the internal type. *)
Record PluginsOf (S : Type) := mkPlugins {
  at_QueueSort : S;
  at_PreFilter : S;
  at_Filter : S;
  at_PostFilter : S;
  at_PreScore : S;
  at_Score : S;
  at_Reserve : S;
  at_Permit : S;
  at_PreBind : S;
  at_Bind : S;
  at_PostBind : S
}.
Arguments mkPlugins {S}.
Arguments at_QueueSort {S} _.
Arguments at_PreFilter {S} _.
Arguments at_Filter {S} _.
Arguments at_PostFilter {S} _.
Arguments at_PreScore {S} _.
Arguments at_Score {S} _.
Arguments at_Reserve {S} _.
Arguments at_Permit {S} _.
Arguments at_PreBind {S} _.
Arguments at_Bind {S} _.
Arguments at_PostBind {S} _.

Abbreviation VPlugin := (PluginOf (option Z)).
Abbreviation VPluginSet := (PluginSetOf (option Z)).
Abbreviation PluginSet := (PluginSetOf Z).
Abbreviation Plugins := (PluginsOf (PluginSetOf Z)).

(** A function applied at every extension point. *)
Definition at_all {S T} (f : S -> T) (p : PluginsOf S) : PluginsOf T :=
  mkPlugins (f (at_QueueSort p)) (f (at_PreFilter p)) (f (at_Filter p)) (f (at_PostFilter p)) (f (at_PreScore p))
    (f (at_Score p)) (f (at_Reserve p)) (f (at_Permit p)) (f (at_PreBind p)) (f (at_Bind p)) (f (at_PostBind p)).

Definition at_both {S T U} (f : S -> T -> U) (p : PluginsOf S) (q : PluginsOf T) : PluginsOf U :=
  mkPlugins (f (at_QueueSort p) (at_QueueSort q)) (f (at_PreFilter p) (at_PreFilter q)) (f (at_Filter p) (at_Filter q))
    (f (at_PostFilter p) (at_PostFilter q)) (f (at_PreScore p) (at_PreScore q)) (f (at_Score p) (at_Score q))
    (f (at_Reserve p) (at_Reserve q)) (f (at_Permit p) (at_Permit q)) (f (at_PreBind p) (at_PreBind q))
    (f (at_Bind p) (at_Bind q)) (f (at_PostBind p) (at_PostBind q)).

(** The enabled plugins of the sets, in the order of [getExtensionPoints]. *)
Definition extension_points {S} (p : PluginsOf S) : list S :=
  [at_PreFilter p; at_Filter p; at_PostFilter p; at_Reserve p; at_PreScore p; at_Score p; at_PreBind p; at_Bind p;
   at_PostBind p; at_Permit p; at_QueueSort p].

Definition plain (name : string) : VPlugin := mkPlugin name None.
Definition weighted_by (w : Z) (name : string) : VPlugin := mkPlugin name (Some w).
Definition enable (l : list VPlugin) : VPluginSet := mkPluginSet l [].

Class ConfigGates := {
  VolumeCapacityPriority : bool;
  DefaultPodTopologySpread : bool
}.

(** The part of the defaults that both versions share: the score plugins are
    the argument. *)
Definition default_plugins (score : list VPlugin) : PluginsOf VPluginSet := {|
  at_QueueSort := enable [plain "PrioritySort"];
  at_PreFilter := enable (map plain
    ["NodeResourcesFit"; "NodePorts"; "VolumeRestrictions"; "PodTopologySpread"; "InterPodAffinity"; "VolumeBinding"; "NodeAffinity"]%string);
  at_Filter := enable (map plain
    ["NodeUnschedulable"; "NodeName"; "TaintToleration"; "NodeAffinity"; "NodePorts"; "NodeResourcesFit"; "VolumeRestrictions";
     "EBSLimits"; "GCEPDLimits"; "NodeVolumeLimits"; "AzureDiskLimits"; "VolumeBinding"; "VolumeZone"; "PodTopologySpread";
     "InterPodAffinity"]%string);
  at_PostFilter := enable [plain "DefaultPreemption"];
  at_PreScore := enable (map plain ["InterPodAffinity"; "PodTopologySpread"; "TaintToleration"; "NodeAffinity"]%string);
  at_Score := enable score;
  at_Reserve := enable [plain "VolumeBinding"];
  at_Permit := enable [];
  at_PreBind := enable [plain "VolumeBinding"];
  at_Bind := enable [plain "DefaultBinder"];
  at_PostBind := enable []
|}.

Definition append_plugin (p : VPlugin) (s : VPluginSet) : VPluginSet := mkPluginSet (ps_Enabled s ++ [p]) (ps_Disabled s).

Definition set_Score {S} (s : S) (p : PluginsOf S) : PluginsOf S :=
  mkPlugins (at_QueueSort p) (at_PreFilter p) (at_Filter p) (at_PostFilter p) (at_PreScore p) s (at_Reserve p) (at_Permit p)
    (at_PreBind p) (at_Bind p) (at_PostBind p).
Definition set_PreScore {S} (s : S) (p : PluginsOf S) : PluginsOf S :=
  mkPlugins (at_QueueSort p) (at_PreFilter p) (at_Filter p) (at_PostFilter p) s (at_Score p) (at_Reserve p) (at_Permit p)
    (at_PreBind p) (at_Bind p) (at_PostBind p).

Definition applyFeatureGates `{ConfigGates} (config : PluginsOf VPluginSet) : PluginsOf VPluginSet :=
  let config :=
    if VolumeCapacityPriority then set_Score (append_plugin (weighted_by 1 "VolumeBinding") (at_Score config)) config
    else config in
  if negb DefaultPodTopologySpread then
    let config := set_PreScore (append_plugin (plain "SelectorSpread") (at_PreScore config)) config in
    set_Score (append_plugin (weighted_by 1 "SelectorSpread") (at_Score config)) config
  else config.

Definition names_of {W} (l : list (PluginOf W)) : gset string := list_to_set (map pl_Name l).

(** ** Arguments of plugins *)

Record PluginConfig (A : Type) := mkPluginConfig { pc_Name : string; pc_Args : option A }.
Arguments mkPluginConfig {A} _ _.
Arguments pc_Name {A} _.
Arguments pc_Args {A} _.

(** [runtime.Scheme]: whether an object is of an unknown kind, a new object
    of a kind, and its completion with defaults. *)
Class ArgScheme (A : Type) := {
  isUnknown : A -> bool;
  scheme_New : string -> option A;
  scheme_Default : A -> A
}.

(** [sets.String.List]: the members in order. *)
Definition string_le (a b : string) : Prop := String.leb a b = true.
#[export] Instance string_le_dec : RelDecision string_le.
Proof. intros a b. unfold string_le. apply _. Defined.

Definition List_of (s : gset string) : list string := merge_sort string_le (elements s).
