(* ===== verification/DefaultsV1beta1.v ===== *)
(** * Defaults of the configuration, version v1beta1

    apis/config/v1beta1: default_plugins.go, the defaulting of a profile
    (defaults.go) and the conversion of its plugins to the internal type
    (conversion.go).  The README's configurations have this version. *)

From S2P Require Import Prelude GoStrconv PluginSets.

Definition getDefaultPlugins `{ConfigGates} : PluginsOf (option VPluginSet) :=
  let plugins := applyFeatureGates (default_plugins
    [weighted_by 1 "NodeResourcesBalancedAllocation"; weighted_by 1 "ImageLocality"; weighted_by 1 "InterPodAffinity";
     weighted_by 1 "NodeResourcesLeastAllocated"; weighted_by 1 "NodeAffinity"; weighted_by 10000 "NodePreferAvoidPods";
     weighted_by 2 "PodTopologySpread"; weighted_by 1 "TaintToleration"]) in
  (** the fields of the composite literal that are left out are nil *)
  at_all (fun s => match ps_Enabled s with [] => None | _ => Some s end) plugins.

Definition mergePluginSet (defaultPluginSet customPluginSet : option VPluginSet) : option VPluginSet :=
  let disabledPlugins := match customPluginSet with Some c => names_of (ps_Disabled c) | None => ∅ end in
  let enabledPlugins :=
    match defaultPluginSet with
    | Some d =>
        if bool_decide ("*"%string ∈ disabledPlugins) then []
        else List.filter (fun p => negb (bool_decide (pl_Name p ∈ disabledPlugins))) (ps_Enabled d)
    | None => []
    end in
  let enabledPlugins := match customPluginSet with Some c => enabledPlugins ++ ps_Enabled c | None => enabledPlugins end in
  match enabledPlugins with [] => None | _ => Some (mkPluginSet enabledPlugins []) end.

Definition mergePlugins (defaultPlugins : PluginsOf (option VPluginSet)) (customPlugins : option (PluginsOf (option VPluginSet)))
  : PluginsOf (option VPluginSet) :=
  match customPlugins with
  | None => defaultPlugins
  | Some customPlugins => at_both mergePluginSet defaultPlugins customPlugins
  end.

(** The conversion to the internal type: a missing weight becomes 0. *)
Definition to_config_PluginSet (s : VPluginSet) : PluginSet :=
  let conv := map (fun p => mkPlugin (pl_Name p) (default 0 (pl_Weight p))) in
  mkPluginSet (conv (ps_Enabled s)) (conv (ps_Disabled s)).

Definition to_config_Plugins (p : PluginsOf (option VPluginSet)) : Plugins :=
  at_all (fun s => match s with None => mkPluginSet [] [] | Some s => to_config_PluginSet s end) p.

Definition pluginsNames (p : PluginsOf (option VPluginSet)) : list string :=
  List_of (fold_left (fun n e => match e with Some e => n ∪ names_of (ps_Enabled e) | None => n end) (extension_points p) ∅).

(** The profile of a configuration file, whose scheduler name is a pointer. *)
Record KubeSchedulerProfile (A : Type) := mkProfile {
  SchedulerName : option string;
  prof_Plugins : option (PluginsOf (option VPluginSet));
  prof_PluginConfig : list (PluginConfig A)
}.
Arguments mkProfile {A} _ _ _.
Arguments SchedulerName {A} _.
Arguments prof_Plugins {A} _.
Arguments prof_PluginConfig {A} _.

Section defaults.
Context {A : Type} `{ConfigGates} `{ArgScheme A}.

(** The configuration of a plugin by the file, completed. *)
Definition complete_config (c : PluginConfig A) : PluginConfig A :=
  match pc_Args c with
  | Some args => if isUnknown args then c else mkPluginConfig (pc_Name c) (Some (scheme_Default args))
  | None => c
  end.

(** The configuration of a plugin that the file does not configure, if there
    are arguments for it. *)
Definition default_config (existing : gset string) (name : string) : list (PluginConfig A) :=
  if bool_decide (name ∈ existing) then []
  else match scheme_New (str_app name "Args") with None => [] | Some args => [mkPluginConfig name (Some (scheme_Default args))] end.

Definition setDefaults_KubeSchedulerProfile (prof : KubeSchedulerProfile A) : KubeSchedulerProfile A :=
  let plugins := mergePlugins getDefaultPlugins (prof_Plugins prof) in
  let existingConfigs : gset string := list_to_set (map pc_Name (prof_PluginConfig prof)) in
  mkProfile (SchedulerName prof) (Some plugins)
    (map complete_config (prof_PluginConfig prof) ++ concat (map (default_config existingConfigs) (pluginsNames plugins))).
End defaults.
