(* ===== verification/DefaultsV1beta2.v ===== *)
(** * Defaults of the configuration, version v1beta2

    apis/config/v1beta2: default_plugins.go. *)

From S2P Require Import Prelude GoStrconv PluginSets.

Definition getDefaultPlugins `{ConfigGates} : PluginsOf VPluginSet :=
  applyFeatureGates (default_plugins
    [weighted_by 1 "NodeResourcesBalancedAllocation"; weighted_by 1 "ImageLocality"; weighted_by 1 "InterPodAffinity";
     weighted_by 1 "NodeResourcesFit"; weighted_by 1 "NodeAffinity"; weighted_by 2 "PodTopologySpread"; weighted_by 1 "TaintToleration"]).

Record pluginIndex := mkPluginIndex { index : nat; plugin : VPlugin }.

(** The map [enabledCustomPlugins]: the last plugin of a name stays. *)
Definition index_step (m : gmap string pluginIndex) (ip : nat * VPlugin) : gmap string pluginIndex :=
  <[pl_Name ip.2 := mkPluginIndex ip.1 ip.2]> m.

Definition indexed (l : list VPlugin) : list (nat * VPlugin) := imap pair l.

(** An iteration over the default plugins. *)
Definition merge_default (disabled : gset string) (custom : gmap string pluginIndex) (st : list VPlugin * gset nat) (d : VPlugin)
  : list VPlugin * gset nat :=
  if bool_decide (pl_Name d ∈ disabled) then st
  else
    match custom !! pl_Name d with
    | Some c => (st.1 ++ [plugin c], {[index c]} ∪ st.2)
    | None => (st.1 ++ [d], st.2)
    end.

Definition mergePluginSet (defaultPluginSet customPluginSet : VPluginSet) : VPluginSet :=
  let disabledPlugins := names_of (ps_Disabled customPluginSet) in
  let enabledCustomPlugins := fold_left index_step (indexed (ps_Enabled customPluginSet)) ∅ in
  let '(enabledPlugins, replacedPluginIndex) :=
    if bool_decide ("*"%string ∈ disabledPlugins) then ([], ∅)
    else fold_left (merge_default disabledPlugins enabledCustomPlugins) (ps_Enabled defaultPluginSet) ([], ∅) in
  let rest := List.filter (fun ip => negb (bool_decide (ip.1 ∈ replacedPluginIndex))) (indexed (ps_Enabled customPluginSet)) in
  mkPluginSet (enabledPlugins ++ map snd rest) [].

Definition mergePlugins (defaultPlugins : PluginsOf VPluginSet) (customPlugins : option (PluginsOf VPluginSet)) : PluginsOf VPluginSet :=
  match customPlugins with
  | None => defaultPlugins
  | Some customPlugins => at_both mergePluginSet defaultPlugins customPlugins
  end.
