(* ===== verification/Profiles.v ===== *)
(** * Profiles: from a configuration to a framework

    [NewFramework] (framework/runtime/framework.go) builds the plugins that a
    profile names from a registry of factories and puts them into the lists
    of a framework; profile/profile.go does so for every profile.

    The factories of a registry are parameters.  A plugin is a record of the
    interfaces it implements, which is what [NewFramework] asks of a plugin by
    reflection. *)

From S2P Require Import Prelude GoInt GoFloat GoStrconv Quantity ApiTypes Labels AffinityTerms Resource HostPorts NodeInfo Json Framework SchedulingQueue Runtime ScoreProofs EventHandlers PluginSets.

Open Scope go_scope.

(** ** Building a framework (runtime/framework.go) *)

Record QueueSortPlugin := { qs_Name : string; qs_Less : QueuedPodInfo -> QueuedPodInfo -> bool }.

Section framework.
Context {Ext A : Type}.

(** A [framework.Plugin] with the interfaces that it implements. *)
Record AnyPlugin := {
  any_Name : string;
  any_EventsToRegister : option (list ClusterEvent);
  as_QueueSort : option QueueSortPlugin;
  as_PreFilter : option (PreFilterPlugin Ext);
  as_Filter : option FilterPlugin;
  as_PostFilter : option (PostFilterPlugin Ext);
  as_PreScore : option PreScorePlugin;
  as_Score : option ScorePlugin;
  as_Reserve : option (ReservePlugin Ext);
  as_Permit : option (PermitPlugin Ext);
  as_PreBind : option (PreBindPlugin Ext);
  as_Bind : option (BindPlugin Ext);
  as_PostBind : option (PostBindPlugin Ext)
}.

(** A factory, called with the arguments of the plugin or nil. *)
Definition PluginFactory : Type := option A -> AnyPlugin + string.
Definition Registry : Type := gmap string PluginFactory.

Definition quoted (s : string) : string := String dquote (str_app s (String dquote EmptyString)).

Definition Register (r : Registry) (name : string) (factory : PluginFactory) : Registry + string :=
  match r !! name with
  | Some _ => inr (str_app "a plugin named " (str_app name " already exists"))
  | None => inl (<[name := factory]> r)
  end.

Definition Unregister (r : Registry) (name : string) : Registry + string :=
  match r !! name with
  | None => inr (str_app "no plugin named " (str_app name " exists"))
  | Some _ => inl (delete name r)
  end.

(** A loop that stops at the first error. *)
Fixpoint try_fold {B C} (step : B -> C -> B + string) (l : list C) (b : B) : B + string :=
  match l with
  | [] => inl b
  | x :: l => match step b x with inl b => try_fold step l b | inr e => inr e end
  end.

Definition Registry_Merge `{MapRange} (r r_in : Registry) : Registry + string :=
  try_fold (fun r nf => Register r nf.1 nf.2) (range 0 (map_to_list r_in)) r.

Record KubeSchedulerProfile := mkProfile {
  SchedulerName : string;
  prof_Plugins : option Plugins;
  prof_PluginConfig : list (PluginConfig A)
}.

(** [frameworkImpl] with its queue sort plugins and its name, and the
    profile that the callback [captureProfile] gets. *)
Record Built := mkBuilt {
  profileName : string;
  queueSortPlugins : list QueueSortPlugin;
  framework_of : frameworkImpl Ext;
  captured : option KubeSchedulerProfile
}.

Definition empty_framework (runAll : bool) : frameworkImpl Ext := mkFramework Ext [] [] [] [] [] [] [] [] [] [] ∅ runAll.

(** The names of the plugins of all extension points. *)
Definition pluginsNeeded (plugins : Plugins) : gmap string (PluginOf Z) :=
  fold_left (fun pgMap pgs => fold_left (fun pgMap pg => <[pl_Name pg := pg]> pgMap) (ps_Enabled pgs) pgMap)
    (extension_points plugins) ∅.

Definition config_step (m : gmap string (option A)) (c : PluginConfig A) : gmap string (option A) + string :=
  match m !! pc_Name c with
  | Some _ => inr (str_app "repeated config for plugin " (pc_Name c))
  | None => inl (<[pc_Name c := pc_Args c]> m)
  end.

(** [pluginConfig[name]]: nil for a plugin without configuration. *)
Definition args_of (pluginConfig : gmap string (option A)) (name : string) : option A := mjoin (pluginConfig !! name).

Record building := mkBuilding {
  b_plugins : gmap string AnyPlugin;
  b_events : list (ClusterEvent * gset string);
  b_output : list (PluginConfig A)
}.

(** An iteration over the registry. *)
Definition build_step (pg : gmap string (PluginOf Z)) (pluginConfig : gmap string (option A)) (b : building)
    (entry : string * PluginFactory) : building + string :=
  let name := entry.1 in
  match pg !! name with
  | None => inl b
  | Some _ =>
      let args := args_of pluginConfig name in
      let output := match args with Some _ => b_output b ++ [mkPluginConfig name args] | None => b_output b end in
      match entry.2 args with
      | inr err => inr (str_app "initializing plugin " (str_app (quoted name) (str_app ": " err)))
      | inl p => inl (mkBuilding (<[name := p]> (b_plugins b)) (fillEventToPluginMap (any_Name p) (any_EventsToRegister p) (b_events b)) output)
      end
  end.

(** [updatePluginList]: [sel] is the interface asked for, [typ] its name. *)
Definition list_step {I} (sel : AnyPlugin -> option I) (typ : string) (pluginsMap : gmap string AnyPlugin)
    (st : list I * gset string) (ep : PluginOf Z) : list I * gset string + string :=
  match pluginsMap !! pl_Name ep with
  | None => inr (str_app typ (str_app " " (str_app (quoted (pl_Name ep)) " does not exist")))
  | Some pg =>
      match sel pg with
      | None => inr (str_app "plugin " (str_app (quoted (pl_Name ep)) (str_app " does not extend " (str_app typ " plugin"))))
      | Some i =>
          if bool_decide (pl_Name ep ∈ st.2)
          then inr (str_app "plugin " (str_app (quoted (pl_Name ep)) (str_app " already registered as " (quoted typ))))
          else inl (st.1 ++ [i], {[pl_Name ep]} ∪ st.2)
      end
  end.

Definition updatePluginList {I} (sel : AnyPlugin -> option I) (typ : string) (pluginSet : PluginSet)
    (pluginsMap : gmap string AnyPlugin) : list I + string :=
  match try_fold (list_step sel typ pluginsMap) (ps_Enabled pluginSet) ([], ∅) with
  | inl st => inl st.1
  | inr e => inr e
  end.

(** Sequencing of calls that return an error. *)
Definition try {B C} (x : B + string) (k : B -> C + string) : C + string :=
  match x with inl b => k b | inr e => inr e end.

(** The loop over [getExtensionPoints]. *)
Definition fill_lists (plugins : Plugins) (m : gmap string AnyPlugin) (weights : gmap string Z) (runAll : bool)
  : list QueueSortPlugin * frameworkImpl Ext + string :=
  try (updatePluginList as_PreFilter "PreFilterPlugin" (at_PreFilter plugins) m) (fun preFilters =>
  try (updatePluginList as_Filter "FilterPlugin" (at_Filter plugins) m) (fun filters =>
  try (updatePluginList as_PostFilter "PostFilterPlugin" (at_PostFilter plugins) m) (fun postFilters =>
  try (updatePluginList as_Reserve "ReservePlugin" (at_Reserve plugins) m) (fun reserves =>
  try (updatePluginList as_PreScore "PreScorePlugin" (at_PreScore plugins) m) (fun preScores =>
  try (updatePluginList as_Score "ScorePlugin" (at_Score plugins) m) (fun scores =>
  try (updatePluginList as_PreBind "PreBindPlugin" (at_PreBind plugins) m) (fun preBinds =>
  try (updatePluginList as_Bind "BindPlugin" (at_Bind plugins) m) (fun binds =>
  try (updatePluginList as_PostBind "PostBindPlugin" (at_PostBind plugins) m) (fun postBinds =>
  try (updatePluginList as_Permit "PermitPlugin" (at_Permit plugins) m) (fun permits =>
  try (updatePluginList as_QueueSort "QueueSortPlugin" (at_QueueSort plugins) m) (fun queueSorts =>
  inl (queueSorts, mkFramework Ext preFilters filters postFilters preScores scores reserves permits preBinds binds postBinds weights runAll)))))))))))).

Definition entries (s : PluginSet) : list (string * Z) := map (fun p => (pl_Name p, pl_Weight p)) (ps_Enabled s).

(** The score plugin that is configured with no weight, if there is one. *)
Definition unweighted (weights : gmap string Z) (pls : list ScorePlugin) : option ScorePlugin :=
  List.find (fun pl => default 0 (weights !! sc_Name pl) =? 0) pls.

Definition config_le (a b : PluginConfig A) : Prop := string_le (pc_Name a) (pc_Name b).
#[global] Instance config_le_dec : RelDecision config_le.
Proof. intros a b. unfold config_le. apply _. Defined.

(** The checks at the end of [NewFramework]. *)
Definition final_checks (qs : list QueueSortPlugin) (f : frameworkImpl Ext) : error :=
  match unweighted (scorePluginWeight Ext f) (scorePlugins Ext f) with
  | Some pl => Some (str_app "score plugin " (str_app (quoted (sc_Name pl)) " is not configured with weight"))
  | None =>
      if (length qs =? 0)%nat then Some "no queue sort plugin is enabled"%string
      else if (1 <? length qs)%nat then Some "only one queue sort plugin can be enabled"%string
      else if (length (bindPlugins Ext f) =? 0)%nat then Some "at least one bind plugin is needed"%string
      else None
  end.

(** The result is the framework and [clusterEventMap] as it was filled. *)
Definition NewFramework `{MapRange} (r : Registry) (profile : option KubeSchedulerProfile) (runAllFilters : bool)
    (clusterEventMap : list (ClusterEvent * gset string)) : Built * list (ClusterEvent * gset string) + string :=
  match profile with
  | None => inl (mkBuilt "" [] (empty_framework runAllFilters) None, clusterEventMap)
  | Some profile =>
      match prof_Plugins profile with
      | None => inl (mkBuilt (SchedulerName profile) [] (empty_framework runAllFilters) None, clusterEventMap)
      | Some plugins =>
          try (configure_weights (entries (at_Score plugins))) (fun weights =>
          let pg := pluginsNeeded plugins in
          try (try_fold config_step (prof_PluginConfig profile) ∅) (fun pluginConfig =>
          try (try_fold (build_step pg pluginConfig) (range 0 (map_to_list r)) (mkBuilding ∅ clusterEventMap [])) (fun b =>
          try (fill_lists plugins (b_plugins b) weights runAllFilters) (fun qf =>
          match final_checks qf.1 qf.2 with
          | Some e => inr e
          | None =>
              let output := mkProfile (SchedulerName profile) (Some plugins) (merge_sort config_le (b_output b)) in
              inl (mkBuilt (SchedulerName profile) qf.1 qf.2 (Some output), b_events b)
          end))))
      end
  end.

(** ** A framework for each profile (profile/profile.go) *)

Record cfgValidator := mkValidator { v_queueSort : string; v_queueSortArgs : option A }.

(** The arguments of the last configuration of that name. *)
Definition last_args (name : string) (cfgs : list (PluginConfig A)) : option A :=
  fold_left (fun a c => if String.eqb (pc_Name c) name then pc_Args c else a) cfgs None.

Context `{EqDecision A}.

Definition validate (m : gmap string Built) (v : cfgValidator) (cfg : KubeSchedulerProfile) : cfgValidator + string :=
  if String.eqb (SchedulerName cfg) "" then inr "scheduler name is needed"%string
  else
    match prof_Plugins cfg with
    | None => inr (str_app "plugins required for profile with scheduler name " (quoted (SchedulerName cfg)))
    | Some plugins =>
        match m !! SchedulerName cfg with
        | Some _ => inr (str_app "duplicate profile with scheduler name " (quoted (SchedulerName cfg)))
        | None =>
            match ps_Enabled (at_QueueSort plugins) with
            | [p] =>
                let queueSort := pl_Name p in
                let queueSortArgs := last_args queueSort (prof_PluginConfig cfg) in
                if String.eqb (v_queueSort v) "" then inl (mkValidator queueSort queueSortArgs)
                else if negb (String.eqb (v_queueSort v) queueSort) then
                  inr (str_app "different queue sort plugins for profile " (str_app (quoted (SchedulerName cfg))
                        (str_app ": " (str_app (quoted queueSort) (str_app ", first: " (quoted (v_queueSort v)))))))
                else if negb (bool_decide (v_queueSortArgs v = queueSortArgs)) then
                  inr (str_app "different queue sort plugin args for profile " (quoted (SchedulerName cfg)))
                else inl v
            | _ => inr (str_app "one queue sort plugin required for profile with scheduler name " (quoted (SchedulerName cfg)))
            end
        end
    end.

Record map_state := mkMapState {
  ms_map : gmap string Built;
  ms_validator : cfgValidator;
  ms_events : list (ClusterEvent * gset string)
}.

(** An iteration of [NewMap]; the frameworks share [clusterEventMap]. *)
Definition map_step `{MapRange} (r : Registry) (runAllFilters : bool) (st : map_state) (cfg : KubeSchedulerProfile) : map_state + string :=
  try (validate (ms_map st) (ms_validator st) cfg) (fun v =>
  match NewFramework r (Some cfg) runAllFilters (ms_events st) with
  | inr err => inr (str_app "creating profile for scheduler name " (str_app (SchedulerName cfg) (str_app ": " err)))
  | inl (p, events) => inl (mkMapState (<[SchedulerName cfg := p]> (ms_map st)) v events)
  end).

Definition NewMap `{MapRange} (cfgs : list KubeSchedulerProfile) (r : Registry) (runAllFilters : bool)
    (clusterEventMap : list (ClusterEvent * gset string)) : gmap string Built * list (ClusterEvent * gset string) + string :=
  try (try_fold (map_step r runAllFilters) cfgs (mkMapState ∅ (mkValidator "" None) clusterEventMap)) (fun st =>
  inl (ms_map st, ms_events st)).

Definition HandlesSchedulerName (m : gmap string Built) (name : string) : bool :=
  match m !! name with Some _ => true | None => false end.
End framework.
Arguments AnyPlugin : clear implicits.
Arguments PluginFactory : clear implicits.
Arguments Registry : clear implicits.
Arguments KubeSchedulerProfile : clear implicits.
Arguments Built : clear implicits.
