(* ===== verification/ProfileProofs.v ===== *)
(** * Proofs about profiles

    What merging a configuration with the defaults gives, in both versions;
    for which profiles a framework is built, and with which plugins; and the
    framework of the README's configuration. *)

From S2P Require Import Prelude GoInt GoFloat GoStrconv Quantity ApiTypes Labels AffinityTerms Resource HostPorts NodeInfo Json Framework SchedulingQueue Runtime ScoreProofs EventHandlers PluginSets DefaultsV1beta1 DefaultsV1beta2 Profiles.

Open Scope go_scope.

(** ** Merging *)

(** The default plugins that a custom set leaves enabled. *)
Definition kept (defaults : list VPlugin) (disabled : list VPlugin) : list VPlugin :=
  if decide ("*"%string ∈ names_of disabled) then [] else filter (fun p => pl_Name p ∉ names_of disabled) defaults.

(** Those of them that the custom set does not configure itself. *)
Definition untouched (defaults : list VPlugin) (custom : VPluginSet) : list VPlugin :=
  filter (fun p => pl_Name p ∉ names_of (ps_Enabled custom)) (kept defaults (ps_Disabled custom)).

Lemma elem_of_names_of {W} (l : list (PluginOf W)) n : n ∈ names_of l <-> n ∈ map pl_Name l.
Proof. unfold names_of. apply elem_of_list_to_set. Qed.

Lemma filter_bool {A} (P : A -> Prop) `{!forall x, Decision (P x)} (b : A -> bool) (l : list A) :
  (forall x, b x = true <-> P x) -> List.filter b l = filter P l.
Proof.
  intros Hb. induction l as [|x l IH]; cbn [List.filter]; [done|]. rewrite filter_cons. specialize (Hb x).
  destruct (b x); case_decide; [by rewrite IH|tauto|naive_solver|done].
Qed.

Lemma NoDup_names_filter {W} (P : PluginOf W -> Prop) `{!forall p, Decision (P p)} l :
  NoDup (map pl_Name l) -> NoDup (map pl_Name (filter P l)).
Proof.
  induction l as [|d l IH]; [done|]. cbn [map]. intros [Hn Hl]%NoDup_cons. rewrite filter_cons. case_decide; [|by apply IH].
  cbn [map]. apply NoDup_cons. split; [|by apply IH]. contradict Hn.
  apply list_elem_of_fmap in Hn as (p & -> & [_ Hp]%list_elem_of_filter). by apply list_elem_of_fmap_2.
Qed.

Lemma names_kept defaults disabled : NoDup (map pl_Name defaults) -> NoDup (map pl_Name (kept defaults disabled)).
Proof. intros H. unfold kept. case_decide; [constructor|]. by apply NoDup_names_filter. Qed.

(** *** v1beta1 *)

Lemma merge1_enabled defaults custom :
  default [] (ps_Enabled <$> DefaultsV1beta1.mergePluginSet (Some (mkPluginSet defaults [])) (Some custom)) =
  kept defaults (ps_Disabled custom) ++ ps_Enabled custom.
Proof.
  unfold DefaultsV1beta1.mergePluginSet. cbn [ps_Enabled].
  assert ((if bool_decide ("*"%string ∈ names_of (ps_Disabled custom)) then [] else
     List.filter (fun p => negb (bool_decide (pl_Name p ∈ names_of (ps_Disabled custom)))) defaults) = kept defaults (ps_Disabled custom)) as ->.
  { unfold kept. case_bool_decide; [by rewrite decide_True|]. rewrite decide_False by done. apply filter_bool.
    intros p. rewrite negb_true_iff, bool_decide_eq_false. done. }
  assert (forall l : list VPlugin,
    default [] (ps_Enabled <$> match l with [] => None | _ => Some (mkPluginSet l []) end) = l) as H by (by intros []).
  exact (H (kept defaults (ps_Disabled custom) ++ ps_Enabled custom)).
Qed.

(** *** v1beta2 *)

Section merge2.
Context (cs : list VPlugin).

Lemma indexed_snoc l x : indexed (l ++ [x]) = indexed l ++ [(length l, x)].
Proof. unfold indexed. rewrite imap_app. cbn [imap]. unfold compose. by rewrite Nat.add_0_r. Qed.

Lemma indexed_lookup i p : (i, p) ∈ indexed cs <-> cs !! i = Some p.
Proof.
  unfold indexed. rewrite elem_of_lookup_imap. split.
  - intros (j & q & [= -> ->] & H). done.
  - intros H. by exists i, p.
Qed.

Lemma indexed_fst : (indexed cs).*1 = seq 0 (length cs).
Proof.
  induction cs as [|x l IH] using rev_ind; [done|]. rewrite indexed_snoc, fmap_app, IH, length_app. cbn. by rewrite seq_app.
Qed.

Lemma indexed_snd : map snd (indexed cs) = cs.
Proof. induction cs as [|x l IH] using rev_ind; [done|]. by rewrite indexed_snoc, map_app, IH. Qed.

Definition custom_map : gmap string pluginIndex := fold_left index_step (indexed cs) ∅.

Lemma custom_map_Some n c : custom_map !! n = Some c -> cs !! index c = Some (plugin c) /\ pl_Name (plugin c) = n.
Proof.
  unfold custom_map. assert (forall l : list VPlugin, l `prefix_of` cs -> fold_left index_step (indexed l) ∅ !! n = Some c ->
    cs !! index c = Some (plugin c) /\ pl_Name (plugin c) = n) as H; [|by apply H].
  induction l as [|x l IH] using rev_ind; [done|]. intros Hp. rewrite indexed_snoc, fold_left_app. cbn [fold_left].
  unfold index_step at 1. cbn [fst snd]. rewrite lookup_insert_Some. intros [[<- <-]|[_ H]].
  - cbn [index plugin]. split; [|done]. eapply prefix_lookup_Some; [|exact Hp]. by apply list_lookup_middle.
  - apply IH; [|done]. etrans; [|exact Hp]. by apply prefix_app_r.
Qed.

Lemma custom_map_None n : custom_map !! n = None <-> n ∉ map pl_Name cs.
Proof.
  unfold custom_map. induction cs as [|x l IH] using rev_ind; [split; [|done]; intros _; apply not_elem_of_nil|].
  rewrite indexed_snoc, fold_left_app. cbn [fold_left]. unfold index_step at 1. cbn [fst snd].
  rewrite lookup_insert_None, IH, map_app. cbn [map]. set_solver.
Qed.

(** The custom plugins that have not replaced a default one. *)
Definition rest (R : gset nat) : list VPlugin := map snd (List.filter (fun ip => negb (bool_decide (ip.1 ∈ R))) (indexed cs)).

Lemma rest_empty : rest ∅ = cs.
Proof.
  unfold rest. rewrite <- indexed_snd at 2. f_equal. induction (indexed cs) as [|x l IH]; [done|]. cbn [List.filter].
  rewrite bool_decide_eq_false_2 by set_solver. cbn [negb]. by rewrite IH.
Qed.

Lemma rest_pick R i p : i ∉ R -> cs !! i = Some p -> rest R ≡ₚ p :: rest ({[i]} ∪ R).
Proof.
  intros HR Hi. unfold rest. change (p :: ?l) with (snd (i, p) :: l).
  change (snd (i, p) :: map snd ?l) with (map snd ((i, p) :: l)). apply fmap_Permutation.
  apply indexed_lookup in Hi. pose proof indexed_fst as Hf. assert (NoDup (indexed cs).*1) as Hnd by (rewrite Hf; apply NoDup_seq).
  clear Hf. revert Hi Hnd. generalize (indexed cs) as l. intros l Hi Hnd.
  apply list_elem_of_split in Hi as (l1 & l2 & ->). rewrite fmap_app in Hnd. cbn [fmap list_fmap] in Hnd.
  apply NoDup_app in Hnd as (_ & H1 & [H2 _]%NoDup_cons). rewrite !List.filter_app. cbn [List.filter fst].
  rewrite (bool_decide_eq_false_2 (i ∈ R)) by done. rewrite (bool_decide_eq_true_2 (i ∈ {[i]} ∪ R)) by set_solver. cbn [negb].
  assert (forall l : list (nat * VPlugin), i ∉ l.*1 ->
    List.filter (fun ip => negb (bool_decide (ip.1 ∈ {[i]} ∪ R))) l = List.filter (fun ip => negb (bool_decide (ip.1 ∈ R))) l) as Hsame.
  { intros l Hl. apply List.filter_ext_in. intros [j q] Hin%list_elem_of_In. f_equal. apply bool_decide_ext. cbn [fst].
    assert (i <> j) by (intros ->; apply Hl; by apply (list_elem_of_fmap_2 fst l (j, q))). set_solver. }
  rewrite !Hsame; [by rewrite Permutation_middle|done|]. intros H. apply (H1 _ H). by left.
Qed.

(** The loop over the defaults: every plugin is accounted for once. *)
Lemma merge_loop (disabled : gset string) ds acc R :
  NoDup (map pl_Name ds) -> (forall i p, i ∈ R -> cs !! i = Some p -> pl_Name p ∉ map pl_Name ds) ->
  let kept := filter (fun p => pl_Name p ∉ disabled) ds in
  let st := fold_left (merge_default disabled custom_map) ds (acc, R) in
  st.1 ++ rest st.2 ≡ₚ acc ++ rest R ++ filter (fun p => pl_Name p ∉ names_of cs) kept /\
  map pl_Name st.1 = map pl_Name acc ++ map pl_Name kept.
Proof.
  revert acc R. induction ds as [|d ds IH]; intros acc R Hnd HR; cbn zeta in *.
  { cbn. by rewrite !app_nil_r. }
  cbn [map] in Hnd. apply NoDup_cons in Hnd as [Hn Hnd]. cbn [fold_left].
  change (merge_default disabled custom_map (acc, R) d) with
    (if bool_decide (pl_Name d ∈ disabled) then (acc, R)
     else match custom_map !! pl_Name d with Some c => (acc ++ [plugin c], {[index c]} ∪ R) | None => (acc ++ [d], R) end).
  assert (forall i p, i ∈ R -> cs !! i = Some p -> pl_Name p ∉ map pl_Name ds) as HR'.
  { intros i p Hi Hp Hin. apply (HR i p Hi Hp). cbn [map]. by right. }
  rewrite filter_cons. case_bool_decide as Hd.
  { rewrite decide_False by tauto. by apply IH. }
  rewrite decide_True by done. destruct (custom_map !! pl_Name d) as [c|] eqn:Hc.
  - apply custom_map_Some in Hc as [Hi Hname].
    assert (index c ∉ R) as HiR by (intros H; apply (HR _ _ H Hi); rewrite Hname; cbn [map]; by left).
    destruct (IH (acc ++ [plugin c]) ({[index c]} ∪ R) Hnd) as [H1 H2].
    { intros i p [->%elem_of_singleton|Hin]%elem_of_union Hp; [|by eapply HR']. pose proof (eq_trans (eq_sym Hp) Hi) as [= ->]. by rewrite Hname. }
    split.
    + rewrite H1. rewrite (rest_pick R (index c) (plugin c)) by done. rewrite filter_cons.
      rewrite decide_False by (intros H; apply H; rewrite elem_of_names_of, <- Hname; apply list_elem_of_fmap_2; by eapply list_elem_of_lookup_2).
      by rewrite <- app_assoc.
    + rewrite H2, map_app. cbn [map]. by rewrite Hname, <- app_assoc.
  - apply custom_map_None in Hc. destruct (IH (acc ++ [d]) R Hnd HR') as [H1 H2]. split.
    + rewrite H1. rewrite filter_cons, decide_True by (by rewrite elem_of_names_of). rewrite <- !app_assoc. f_equiv. cbn [app]. apply Permutation_middle.
    + rewrite H2, map_app. cbn [map]. by rewrite <- app_assoc.
Qed.
End merge2.

Lemma merge2_names defaults custom :
  NoDup (map pl_Name defaults) ->
  let merged := ps_Enabled (DefaultsV1beta2.mergePluginSet (mkPluginSet defaults []) custom) in
  merged ≡ₚ untouched defaults custom ++ ps_Enabled custom /\
  map pl_Name (kept defaults (ps_Disabled custom)) `prefix_of` map pl_Name merged.
Proof.
  intros Hnd. cbv zeta. unfold DefaultsV1beta2.mergePluginSet, untouched, kept. cbn [ps_Enabled].
  fold (custom_map (ps_Enabled custom)). set (cs := ps_Enabled custom). case_bool_decide as Hstar.
  { rewrite decide_True by done. fold (rest cs ∅). cbn [ps_Enabled app]. rewrite rest_empty. cbn. split; [done|apply prefix_nil]. }
  rewrite decide_False by done.
  destruct (merge_loop cs (names_of (ps_Disabled custom)) defaults [] ∅) as [H1 H2]; [done|set_solver|]. cbn zeta in *.
  destruct (fold_left _ defaults _) as [l R]. cbn [ps_Enabled fst snd app] in *. fold (rest cs R). split.
  - rewrite H1, rest_empty. rewrite Permutation_app_comm. done.
  - rewrite map_app, H2. by apply prefix_app_r.
Qed.

(** Merging keeps the default plugins that are not disabled, in their order
    and before the others, and every custom plugin, once each.  In v1beta2 a
    custom plugin that is also a default one takes its place; in v1beta1 it is
    enabled a second time.  So a plugin occurs twice in v1beta2 only if the
    configuration repeats it, and in v1beta1 also if the configuration enables
    a default plugin without disabling it. *)
Theorem merge_meaning defaults custom :
  NoDup (map pl_Name defaults) ->
  let d := mkPluginSet defaults [] in
  let m1 := default [] (ps_Enabled <$> DefaultsV1beta1.mergePluginSet (Some d) (Some custom)) in
  let m2 := ps_Enabled (DefaultsV1beta2.mergePluginSet d custom) in
  m1 = kept defaults (ps_Disabled custom) ++ ps_Enabled custom /\
  m2 ≡ₚ untouched defaults custom ++ ps_Enabled custom /\
  map pl_Name (kept defaults (ps_Disabled custom)) `prefix_of` map pl_Name m2 /\
  (NoDup (map pl_Name m2) <-> NoDup (map pl_Name (ps_Enabled custom))) /\
  (NoDup (map pl_Name m1) <->
     NoDup (map pl_Name (ps_Enabled custom)) /\ untouched defaults custom = kept defaults (ps_Disabled custom)).
Proof.
  intros Hnd d m1 m2. assert (m1 = kept defaults (ps_Disabled custom) ++ ps_Enabled custom) as E1 by apply merge1_enabled.
  destruct (merge2_names defaults custom Hnd) as [E2 Hpre]. fold d in E2, Hpre. fold m2 in E2, Hpre.
  pose proof (names_kept defaults (ps_Disabled custom) Hnd) as Hk. split_and!; [done|done|done| |].
  - rewrite E2, map_app, NoDup_app. split; [naive_solver|]. intros Hc. split_and!; [|intros n Hn|done].
    + by apply NoDup_names_filter.
    + apply list_elem_of_fmap in Hn as (p & -> & [Hp _]%list_elem_of_filter). by rewrite elem_of_names_of in Hp.
  - rewrite E1, map_app, NoDup_app. split.
    + intros (_ & Hdis & Hc). split; [done|]. unfold untouched. revert Hdis. generalize (kept defaults (ps_Disabled custom)) as l. clear.
      induction l as [|p l IH]; intros Hdis; [done|]. rewrite filter_cons. rewrite decide_True.
      * f_equal. apply IH. intros n Hn. apply Hdis. cbn [map]. by right.
      * rewrite elem_of_names_of. apply Hdis. cbn [map]. by left.
    + intros [Hc E]. split_and!; [done| |done]. rewrite <- E. intros n (p & -> & [Hp _]%list_elem_of_filter)%list_elem_of_fmap.
      by rewrite elem_of_names_of in Hp.
Qed.

(** ** Building a framework *)

Section building.
Context {Ext A : Type} `{MapRange}.
Implicit Types (r : Registry Ext A) (prof : KubeSchedulerProfile A).

(** The arguments that a profile has for a plugin. *)
Definition given (cfgs : list (PluginConfig A)) (name : string) : option A :=
  mjoin (pc_Args <$> List.find (fun c => String.eqb (pc_Name c) name) cfgs).

(** The plugin that the registry makes under a name. *)
Definition made r (cfgs : list (PluginConfig A)) (name : string) : option (AnyPlugin Ext) :=
  fac ← r !! name; match fac (given cfgs name) with inl p => Some p | inr _ => None end.

(** The names that a profile enables anywhere. *)
Definition needed (plugins : Plugins) (name : string) : Prop :=
  exists s, s ∈ extension_points plugins /\ name ∈ map pl_Name (ps_Enabled s).

(** The plugins of a list are those enabled, in their order, once each, and
    each implements the interface. *)
Definition runs {I} (make : string -> option (AnyPlugin Ext)) (sel : AnyPlugin Ext -> option I) (s : PluginSet) (l : list I) : Prop :=
  NoDup (map pl_Name (ps_Enabled s)) /\ Forall2 (fun e i => make (pl_Name e) ≫= sel = Some i) (ps_Enabled s) l.

(** What it takes to build the framework [f] for a profile. *)
Record builds r (cfgs : list (PluginConfig A)) (plugins : Plugins) (runAll : bool) (qs : list QueueSortPlugin) (f : frameworkImpl Ext) : Prop := {
  bu_weights : configure_weights (entries (at_Score plugins)) = inl (scorePluginWeight Ext f);
  bu_configs : NoDup (map pc_Name cfgs);
  bu_factories : forall name fac, needed plugins name -> r !! name = Some fac -> exists p, fac (given cfgs name) = inl p;
  bu_PreFilter : runs (made r cfgs) as_PreFilter (at_PreFilter plugins) (preFilterPlugins Ext f);
  bu_Filter : runs (made r cfgs) as_Filter (at_Filter plugins) (filterPlugins Ext f);
  bu_PostFilter : runs (made r cfgs) as_PostFilter (at_PostFilter plugins) (postFilterPlugins Ext f);
  bu_Reserve : runs (made r cfgs) as_Reserve (at_Reserve plugins) (reservePlugins Ext f);
  bu_PreScore : runs (made r cfgs) as_PreScore (at_PreScore plugins) (preScorePlugins Ext f);
  bu_Score : runs (made r cfgs) as_Score (at_Score plugins) (scorePlugins Ext f);
  bu_PreBind : runs (made r cfgs) as_PreBind (at_PreBind plugins) (preBindPlugins Ext f);
  bu_Bind : runs (made r cfgs) as_Bind (at_Bind plugins) (bindPlugins Ext f);
  bu_PostBind : runs (made r cfgs) as_PostBind (at_PostBind plugins) (postBindPlugins Ext f);
  bu_Permit : runs (made r cfgs) as_Permit (at_Permit plugins) (permitPlugins Ext f);
  bu_QueueSort : runs (made r cfgs) as_QueueSort (at_QueueSort plugins) qs;
  bu_named : weights_configured (scorePlugins Ext f) (scorePluginWeight Ext f) = true;
  bu_one_sort : length qs = 1%nat;
  bu_binds : bindPlugins Ext f <> [];
  bu_runAll : runAllFilters Ext f = runAll
}.

(** *** The map of configurations *)

Lemma configs_fold (cfgs : list (PluginConfig A)) m :
  match try_fold config_step cfgs m with
  | inl m' => NoDup (map pc_Name cfgs) /\ (forall c, c ∈ cfgs -> m !! pc_Name c = None) /\
      forall name, m' !! name = match List.find (fun c => String.eqb (pc_Name c) name) cfgs with Some c => Some (pc_Args c) | None => m !! name end
  | inr _ => ~ (NoDup (map pc_Name cfgs) /\ (forall c, c ∈ cfgs -> m !! pc_Name c = None))
  end.
Proof.
  revert m. induction cfgs as [|c cfgs IH]; intros m; cbn [try_fold].
  { split_and!; [constructor|by intros ? ?%elem_of_nil|done]. }
  unfold config_step at 1. destruct (m !! pc_Name c) as [a|] eqn:Hc.
  { intros [_ H']. specialize (H' c). rewrite Hc in H'. discriminate H'. by left. }
  specialize (IH (<[pc_Name c := pc_Args c]> m)). cbn [map].
  assert (forall x, x ∈ cfgs -> (<[pc_Name c := pc_Args c]> m !! pc_Name x = None <-> pc_Name x <> pc_Name c /\ m !! pc_Name x = None)) as Hx.
  { intros x _. rewrite lookup_insert_None. naive_solver. }
  destruct (try_fold config_step cfgs _) as [m'|e].
  - destruct IH as (Hnd & Hfresh & Hm). split_and!.
    + apply NoDup_cons. split; [|done]. intros (x & Ex & Hin)%list_elem_of_fmap. apply (Hfresh x) in Hin as Hin'. apply Hx in Hin' as [? _]; naive_solver.
    + intros x [-> |Hin]%elem_of_cons; [done|]. by apply Hx; [|apply Hfresh].
    + intros name. rewrite Hm. cbn [List.find]. destruct (String.eqb_spec (pc_Name c) name) as [<-|Hne].
      * destruct (List.find _ cfgs) as [x|] eqn:Hf; [|apply lookup_insert_eq]. apply List.find_some in Hf as [Hin%list_elem_of_In E].
        apply String.eqb_eq in E. apply (Hfresh x) in Hin as Hin'. apply Hx in Hin' as [? _]; naive_solver.
      * destruct (List.find _ cfgs); [done|]. by apply lookup_insert_ne.
  - intros [[Hn Hnd]%NoDup_cons Hfresh]. apply IH. split; [done|]. intros x Hin. apply Hx; [done|]. split; [|apply Hfresh; by right].
    intros E. apply Hn. rewrite <- E. by apply list_elem_of_fmap_2.
Qed.

Lemma configs_spec (cfgs : list (PluginConfig A)) :
  match try_fold config_step cfgs ∅ with
  | inl m => NoDup (map pc_Name cfgs) /\ forall name, args_of m name = given cfgs name
  | inr _ => ~ NoDup (map pc_Name cfgs)
  end.
Proof.
  pose proof (configs_fold cfgs ∅) as Hf. destruct (try_fold config_step cfgs ∅) as [m|e].
  - destruct Hf as (? & _ & Hm). split; [done|]. intros name. unfold args_of, given. rewrite Hm. by destruct (List.find _ cfgs).
  - intros Hnd. apply Hf. split; [done|]. intros; apply lookup_empty.
Qed.

(** *** The plugins of the registry *)

Lemma build_fold pg m (l : list (string * PluginFactory Ext A)) b :
  NoDup l.*1 ->
  match try_fold (build_step pg m) l b with
  | inl b' => (forall name fac, (name, fac) ∈ l -> is_Some (pg !! name) -> exists p, fac (args_of m name) = inl p) /\
      (forall name fac p, (name, fac) ∈ l -> is_Some (pg !! name) -> fac (args_of m name) = inl p -> b_plugins b' !! name = Some p) /\
      (forall name, name ∉ l.*1 \/ pg !! name = None -> b_plugins b' !! name = b_plugins b !! name)
  | inr _ => exists name fac, (name, fac) ∈ l /\ is_Some (pg !! name) /\ forall p, fac (args_of m name) <> inl p
  end.
Proof.
  revert b. induction l as [|[n fac] l IH]; intros b Hnd; cbn [try_fold].
  { split_and!; [by intros ? ? ?%elem_of_nil|by intros ? ? ? ?%elem_of_nil|done]. }
  cbn [fmap list_fmap] in Hnd. apply NoDup_cons in Hnd as [Hn Hnd]. cbn [fst] in Hn. unfold build_step at 1. cbn [fst snd].
  destruct (pg !! n) as [w|] eqn:Hpg; [destruct (fac (args_of m n)) as [p|e] eqn:Hfac|].
  - specialize (IH (mkBuilding (<[n := p]> (b_plugins b)) (fillEventToPluginMap (any_Name p) (any_EventsToRegister p) (b_events b))
      match args_of m n with Some _ => b_output b ++ [mkPluginConfig n (args_of m n)] | None => b_output b end) Hnd).
    destruct (try_fold (build_step pg m) l _) as [b'|e].
    + cbn [b_plugins] in IH. destruct IH as (I1 & I2 & I3). split_and!.
      * intros name fac' [[= -> ->]|Hin]%elem_of_cons Hs; [by exists p|by eapply I1].
      * intros name fac' p' [[= -> ->]|Hin]%elem_of_cons Hs Hf; [|by eapply I2]. rewrite I3 by (by left). rewrite lookup_insert_eq. congruence.
      * intros name Hname. cbn [fmap list_fmap fst] in Hname. assert (name <> n) by (intros ->; set_solver).
        rewrite I3 by set_solver. by apply lookup_insert_ne.
    + destruct IH as (name & fac' & Hin & ? & ?). exists name, fac'. split; [by right|done].
  - exists n, fac. rewrite Hpg, Hfac. split; [by left|]. split; [by eexists|done].
  - specialize (IH b Hnd). destruct (try_fold (build_step pg m) l b) as [b'|e].
    + destruct IH as (I1 & I2 & I3). split_and!.
      * intros name fac' [[= -> ->]|Hin]%elem_of_cons Hs; [rewrite Hpg in Hs; by destruct Hs|by eapply I1].
      * intros name fac' p' [[= -> ->]|Hin]%elem_of_cons Hs Hf; [rewrite Hpg in Hs; by destruct Hs|by eapply I2].
      * intros name Hname. apply I3. cbn [fmap list_fmap fst] in Hname. set_solver.
    + destruct IH as (name & fac' & Hin & ? & ?). exists name, fac'. split; [by right|done].
Qed.

Lemma needed_step (l : list (PluginOf Z)) (m : gmap string (PluginOf Z)) name :
  is_Some (fold_left (fun m pg => <[pl_Name pg := pg]> m) l m !! name) <-> name ∈ map pl_Name l \/ is_Some (m !! name).
Proof.
  revert m. induction l as [|p l IH]; intros m; cbn [fold_left map]; [set_solver|]. rewrite IH, elem_of_cons.
  destruct (decide (pl_Name p = name)) as [<-|Hne].
  - rewrite lookup_insert_eq. split; [by left; left|right; by eexists].
  - rewrite lookup_insert_ne by done. naive_solver.
Qed.

Lemma pluginsNeeded_spec plugins name : is_Some (pluginsNeeded plugins !! name) <-> needed plugins name.
Proof.
  unfold pluginsNeeded, needed.
  assert (forall (ls : list PluginSet) (m : gmap string (PluginOf Z)),
    is_Some (fold_left (fun m pgs => fold_left (fun m pg => <[pl_Name pg := pg]> m) (ps_Enabled pgs) m) ls m !! name) <->
    (exists s, s ∈ ls /\ name ∈ map pl_Name (ps_Enabled s)) \/ is_Some (m !! name)) as Hs.
  { induction ls as [|s ls IH]; intros m; cbn [fold_left].
    - split; [by right|]. intros [(s & ?%elem_of_nil & _)|?]; done.
    - rewrite IH, needed_step. split.
      + intros [(s' & ? & ?)|[?|?]]; [left; exists s'; split; [by right|done]|left; exists s; split; [by left|done]|by right].
      + intros [(s' & [-> |?]%elem_of_cons & ?)|?]; [by right; left|left; by exists s'|by right; right]. }
  rewrite Hs, lookup_empty. split; [intros [?|[? ?]]; done|by left].
Qed.

(** *** The lists *)

Lemma list_fold {I} (sel : AnyPlugin Ext -> option I) typ m es l0 (seen : gset string) :
  match try_fold (list_step sel typ m) es (l0, seen) with
  | inl st => NoDup (map pl_Name es) /\ (forall e, e ∈ es -> pl_Name e ∉ seen) /\
      exists l, st.1 = l0 ++ l /\ Forall2 (fun e i => m !! pl_Name e ≫= sel = Some i) es l
  | inr _ => ~ (NoDup (map pl_Name es) /\ (forall e, e ∈ es -> pl_Name e ∉ seen) /\
      exists l, Forall2 (fun e i => m !! pl_Name e ≫= sel = Some i) es l)
  end.
Proof.
  revert l0 seen. induction es as [|e es IH]; intros l0 seen; cbn [try_fold].
  { split_and!; [constructor|by intros ? ?%elem_of_nil|]. exists []. by rewrite app_nil_r. }
  unfold list_step at 1. cbn [fst snd map]. destruct (m !! pl_Name e) as [pg|] eqn:Hm.
  2: { intros (_ & _ & l & HF). inversion HF as [|? i ? ? E]; subst. by rewrite Hm in E. }
  destruct (sel pg) as [i|] eqn:Hsel.
  2: { intros (_ & _ & l & HF). inversion HF as [|? i ? ? E]; subst. rewrite Hm in E. cbn in E. congruence. }
  case_bool_decide as Hin; [intros (_ & Hs & _); by apply (Hs e); [left|]|].
  specialize (IH (l0 ++ [i]) ({[pl_Name e]} ∪ seen)). destruct (try_fold _ es _) as [st|er].
  - destruct IH as (Hnd & Hs & l & -> & HF). split_and!.
    + apply NoDup_cons. split; [|done]. intros (x & Ex & Hx)%list_elem_of_fmap. apply (Hs x Hx). rewrite <- Ex. set_solver.
    + intros x [-> |Hx]%elem_of_cons; [done|]. specialize (Hs x Hx). set_solver.
    + exists (i :: l). rewrite <- app_assoc. split; [done|]. constructor; [|done]. by rewrite Hm.
  - intros ([Hn Hnd]%NoDup_cons & Hs & l & HF). inversion HF as [|? i' ? l' E HF']; subst. apply IH. split_and!; [done| |by exists l'].
    intros x Hx. specialize (Hs x ltac:(by right)). assert (pl_Name x <> pl_Name e); [|set_solver].
    intros Ex. apply Hn. rewrite <- Ex. by apply list_elem_of_fmap_2.
Qed.

Lemma updatePluginList_spec {I} (sel : AnyPlugin Ext -> option I) typ s m l :
  updatePluginList sel typ s m = inl l <-> runs (fun n => m !! n) sel s l.
Proof.
  unfold updatePluginList, runs. pose proof (list_fold sel typ m (ps_Enabled s) [] ∅) as Hf.
  destruct (try_fold _ (ps_Enabled s) _) as [st|e].
  - destruct Hf as (Hnd & _ & l' & -> & HF). cbn [app]. split; [by intros [= <-]|]. intros [_ HF']. f_equal.
    clear -HF HF'. revert l HF'. induction HF as [|e i es l' E HF IH]; intros l HF'; inversion HF'; subst; [done|]. f_equal; [congruence|by apply IH].
  - split; [done|]. intros [Hnd HF]. exfalso. apply Hf. split_and!; [done|set_solver|by exists l].
Qed.

Lemma runs_ext {I} (mk mk' : string -> option (AnyPlugin Ext)) (sel : AnyPlugin Ext -> option I) s l :
  (forall n, n ∈ map pl_Name (ps_Enabled s) -> mk n = mk' n) -> runs mk sel s l -> runs mk' sel s l.
Proof.
  intros Heq [Hnd HF]. split; [done|]. clear Hnd. induction HF as [|e i es l E HF IH]; constructor.
  - rewrite <- Heq; [done|]. cbn [map]. by left.
  - apply IH. intros n Hn. apply Heq. cbn [map]. by right.
Qed.

Lemma try_inl {B C} (x : B + string) (k : B -> C + string) c : try x k = inl c <-> exists b, x = inl b /\ k b = inl c.
Proof. destruct x; cbn; naive_solver. Qed.

Lemma try_list {I C} (sel : AnyPlugin Ext -> option I) typ s m (k : list I -> C + string) c :
  try (updatePluginList sel typ s m) k = inl c <-> exists l, runs (fun n => m !! n) sel s l /\ k l = inl c.
Proof. rewrite try_inl. by setoid_rewrite updatePluginList_spec. Qed.

Lemma fill_lists_spec plugins m weights runAll qs f :
  fill_lists plugins m weights runAll = inl (qs, f) <->
  runs (fun n => m !! n) as_PreFilter (at_PreFilter plugins) (preFilterPlugins Ext f) /\
  runs (fun n => m !! n) as_Filter (at_Filter plugins) (filterPlugins Ext f) /\
  runs (fun n => m !! n) as_PostFilter (at_PostFilter plugins) (postFilterPlugins Ext f) /\
  runs (fun n => m !! n) as_Reserve (at_Reserve plugins) (reservePlugins Ext f) /\
  runs (fun n => m !! n) as_PreScore (at_PreScore plugins) (preScorePlugins Ext f) /\
  runs (fun n => m !! n) as_Score (at_Score plugins) (scorePlugins Ext f) /\
  runs (fun n => m !! n) as_PreBind (at_PreBind plugins) (preBindPlugins Ext f) /\
  runs (fun n => m !! n) as_Bind (at_Bind plugins) (bindPlugins Ext f) /\
  runs (fun n => m !! n) as_PostBind (at_PostBind plugins) (postBindPlugins Ext f) /\
  runs (fun n => m !! n) as_Permit (at_Permit plugins) (permitPlugins Ext f) /\
  runs (fun n => m !! n) as_QueueSort (at_QueueSort plugins) qs /\
  scorePluginWeight Ext f = weights /\ runAllFilters Ext f = runAll.
Proof.
  unfold fill_lists. do 11 setoid_rewrite try_list. split.
  - intros (? & ? & ? & ? & ? & ? & ? & ? & ? & ? & ? & ? & ? & ? & ? & ? & ? & ? & ? & ? & ? & ? & [= <- <-]). cbn. split_and!; done.
  - intros (? & ? & ? & ? & ? & ? & ? & ? & ? & ? & ? & <- & <-). destruct f. cbn in *.
    repeat (eexists; split; [eassumption|]). done.
Qed.

Lemma unweighted_None weights pls : unweighted weights pls = None <-> weights_configured pls weights = true.
Proof.
  unfold unweighted, weights_configured. induction pls as [|p pls IH]; cbn [List.find forallb]; [done|].
  destruct (default 0 (weights !! sc_Name p) =? 0); cbn [negb andb]; [split; done|done].
Qed.

Lemma final_checks_None qs (f : frameworkImpl Ext) :
  final_checks qs f = None <->
  weights_configured (scorePlugins Ext f) (scorePluginWeight Ext f) = true /\ length qs = 1%nat /\ bindPlugins Ext f <> [].
Proof.
  unfold final_checks. rewrite <- unweighted_None. destruct (unweighted _ _); [split; [done|by intros [? _]]|].
  destruct qs as [|q [|q' qs]]; cbn [length Nat.eqb Nat.ltb Nat.leb]; [naive_solver| |naive_solver].
  destruct (bindPlugins Ext f); cbn; naive_solver.
Qed.

Lemma runs_made r (cfgs : list (PluginConfig A)) plugins (m : gmap string (AnyPlugin Ext)) {I} (sel : AnyPlugin Ext -> option I) s l :
  (forall n, needed plugins n -> m !! n = made r cfgs n) -> s ∈ extension_points plugins ->
  runs (fun n => m !! n) sel s l <-> runs (made r cfgs) sel s l.
Proof. intros Hm Hs. split; apply runs_ext; intros n Hn; [|symmetry]; apply Hm; by exists s. Qed.

(** *** [NewFramework] *)

Lemma build_made r cfgs plugins m ev0 :
  (forall n, args_of m n = given cfgs n) ->
  match try_fold (build_step (pluginsNeeded plugins) m) (range 0 (map_to_list r)) (mkBuilding ∅ ev0 []) with
  | inl b => (forall name fac, needed plugins name -> r !! name = Some fac -> exists p, fac (given cfgs name) = inl p) /\
      (forall n, needed plugins n -> b_plugins b !! n = made r cfgs n)
  | inr _ => ~ (forall name fac, needed plugins name -> r !! name = Some fac -> exists p, fac (given cfgs name) = inl p)
  end.
Proof.
  intros Hm. pose proof (range_perm 0 _ (map_to_list r)) as Hp.
  assert (NoDup (range 0 (map_to_list r)).*1) as Hnd by (rewrite Hp; apply (NoDup_fst_map_to_list (M := gmap string))).
  assert (forall n fac, (n, fac) ∈ range 0 (map_to_list r) <-> r !! n = Some fac) as Hin.
  { intros n fac. rewrite Hp. apply (elem_of_map_to_list (M := gmap string)). }
  pose proof (build_fold (pluginsNeeded plugins) m (range 0 (map_to_list r)) (mkBuilding ∅ ev0 []) Hnd) as Hb.
  destruct (try_fold _ _ _) as [b|e].
  - destruct Hb as (B1 & B2 & B3). assert (forall name fac, needed plugins name -> r !! name = Some fac -> exists p, fac (given cfgs name) = inl p) as Hok.
    { intros name fac Hn Hr. rewrite <- Hm. apply (B1 name fac); [by apply Hin|by apply pluginsNeeded_spec]. }
    split; [done|]. intros n Hn. unfold made. destruct (r !! n) as [fac|] eqn:Hr.
    + destruct (Hok n fac Hn Hr) as [p Hf]. cbn. rewrite Hf. eapply B2; [by apply Hin|by apply pluginsNeeded_spec|by rewrite Hm].
    + cbn. rewrite B3; [apply lookup_empty|]. left. intros ([n' fac] & -> & Hf)%list_elem_of_fmap. apply Hin in Hf. cbn [fst] in Hr. pose proof (eq_trans (eq_sym Hf) Hr) as Hd. discriminate Hd.
  - destruct Hb as (name & fac & Hf%Hin & Hn%pluginsNeeded_spec & Hno). intros Hok. destruct (Hok name fac Hn Hf) as [p Hfp].
    apply (Hno p). by rewrite Hm.
Qed.

Lemma builds_lists r cfgs plugins runAll qs f (m : gmap string (AnyPlugin Ext)) weights :
  (forall n, needed plugins n -> m !! n = made r cfgs n) -> NoDup (map pc_Name cfgs) ->
  (forall name fac, needed plugins name -> r !! name = Some fac -> exists p, fac (given cfgs name) = inl p) ->
  configure_weights (entries (at_Score plugins)) = inl weights ->
  builds r cfgs plugins runAll qs f <-> fill_lists plugins m weights runAll = inl (qs, f) /\ final_checks qs f = None.
Proof.
  intros Hm Hc Hf Hw. rewrite fill_lists_spec, final_checks_None.
  rewrite !(runs_made r cfgs plugins m) by (done || (unfold extension_points; set_solver)). split.
  - intros []. split_and!; try done. congruence.
  - intros (Hl & ? & ? & ?). destruct Hl as (? & ? & ? & ? & ? & ? & ? & ? & ? & ? & ? & ? & ?). split; try done. congruence.
Qed.

Lemma NewFramework_spec r prof plugins runAll ev0 qs f :
  prof_Plugins prof = Some plugins ->
  (exists b ev, NewFramework r (Some prof) runAll ev0 = inl (b, ev) /\ profileName b = SchedulerName prof /\
     queueSortPlugins b = qs /\ framework_of b = f) <->
  builds r (prof_PluginConfig prof) plugins runAll qs f.
Proof.
  intros Hp. unfold NewFramework. rewrite Hp. set (cfgs := prof_PluginConfig prof).
  destruct (configure_weights _) as [weights|e] eqn:Hw.
  2: { cbn. split; [by intros (? & ? & ? & _)|]. intros []. congruence. }
  cbn [try]. pose proof (configs_spec cfgs) as Hc. destruct (try_fold config_step cfgs ∅) as [m|e].
  2: { cbn. split; [by intros (? & ? & ? & _)|]. by intros []. }
  destruct Hc as [Hnd Hargs]. cbn [try]. pose proof (build_made r cfgs plugins m ev0 Hargs) as Hb.
  destruct (try_fold (build_step _ m) _ _) as [b|e].
  2: { cbn. split; [by intros (? & ? & ? & _)|]. by intros []. }
  destruct Hb as [Hfac Hmade]. cbn [try]. rewrite (builds_lists r cfgs plugins runAll qs f (b_plugins b) weights Hmade Hnd Hfac Hw).
  destruct (fill_lists _ _ _ _) as [[qs' f']|e].
  2: { cbn. split; [by intros (? & ? & ? & _)|]. by intros [? _]. }
  cbn [try fst snd]. destruct (final_checks qs' f') as [e|] eqn:Hfin.
  - split; [by intros (? & ? & ? & _)|]. intros [[= -> ->] Hn]. congruence.
  - split.
    + intros (b' & ev & [= <- <-] & _ & <- & <-). done.
    + intros [[= -> ->] _]. eexists _, _. by split_and!.
Qed.

(** C29. A framework is built exactly for the profiles whose score weights can
    not overflow, that configure no plugin twice, whose plugins can be made,
    exist and implement the interfaces of the extension points they are
    enabled at, each once, with one plugin that sorts the queue and at least
    one that binds.  Then every list of the framework holds the enabled
    plugins in their order, whatever the order in which the registry is
    visited; in all other cases the call returns an error. *)
Theorem NewFramework_correct r prof plugins runAll ev0 qs f :
  prof_Plugins prof = Some plugins ->
  (exists b ev, NewFramework r (Some prof) runAll ev0 = inl (b, ev) /\ profileName b = SchedulerName prof /\
     queueSortPlugins b = qs /\ framework_of b = f) <->
  builds r (prof_PluginConfig prof) plugins runAll qs f.
Proof. apply NewFramework_spec. Qed.

(** A framework that is built meets what the generic scheduler relies on
    where it adds up scores. *)
Lemma builds_configured r cfgs plugins runAll qs f :
  builds r cfgs plugins runAll qs f ->
  Forall (fun e => 0 <= pl_Weight e <= MaxInt32) (ps_Enabled (at_Score plugins)) ->
  Forall (fun e => forall p sc, made r cfgs (pl_Name e) = Some p -> as_Score p = Some sc -> sc_Name sc = pl_Name e) (ps_Enabled (at_Score plugins)) ->
  configured f (entries (at_Score plugins)).
Proof.
  intros [Hw _ _ _ _ _ _ _ [Hnd HF] _ _ _ _ _ Hn _ _ _] Hpos Hname.
  assert ((entries (at_Score plugins)).*1 = map pl_Name (ps_Enabled (at_Score plugins))) as E.
  { unfold entries. change (?l.*1) with (map fst l). by rewrite map_map. }
  split; [|split_and!; [done| |done]].
  - split; [by rewrite E|]. unfold entries. apply List.Forall_map. done.
  - assert (map sc_Name (scorePlugins Ext f) = map pl_Name (ps_Enabled (at_Score plugins))) as ->; [|done].
    clear -HF Hname. induction HF as [|e sc es l Hm HF IH]; [done|]. apply Forall_cons in Hname as [He Hname]. cbn [map]. rewrite IH by done. f_equal.
    destruct (made r cfgs (pl_Name e)) as [p|] eqn:Ep; [|done]. by eapply He.
Qed.
End building.

(** ** A framework for each profile *)

Section maps.
Context {Ext A : Type} `{EqDecision A} `{MapRange}.
Implicit Types (r : Registry Ext A) (prof : KubeSchedulerProfile A).

(** The profile [prof] has the framework [b], and sorts the queue by [q]. *)
Definition served r (runAll : bool) (q : string) prof (b : Built Ext A) : Prop :=
  exists plugins, prof_Plugins prof = Some plugins /\ SchedulerName prof <> ""%string /\
    map pl_Name (ps_Enabled (at_QueueSort plugins)) = [q] /\
    builds r (prof_PluginConfig prof) plugins runAll (queueSortPlugins b) (framework_of b).

Lemma map_step_spec r runAll st prof st' :
  map_step r runAll st prof = inl st' ->
  ms_map st !! SchedulerName prof = None /\
  exists b q, ms_map st' = <[SchedulerName prof := b]> (ms_map st) /\ served r runAll q prof b /\
    (v_queueSort (ms_validator st) = ""%string \/ v_queueSort (ms_validator st) = q) /\ v_queueSort (ms_validator st') = q.
Proof.
  unfold map_step. rewrite try_inl. intros (v & Hv & Hs). unfold validate in Hv.
  destruct (String.eqb_spec (SchedulerName prof) "") as [|Hname]; [done|].
  destruct (prof_Plugins prof) as [plugins|] eqn:Hp; [|done].
  destruct (ms_map st !! SchedulerName prof) as [|] eqn:Hm; [done|].
  destruct (ps_Enabled (at_QueueSort plugins)) as [|p [|]] eqn:Hq; try done.
  destruct (NewFramework r (Some prof) runAll (ms_events st)) as [[b ev]|e] eqn:HN; [|done]. injection Hs as <-. cbn [ms_map ms_validator].
  split; [done|]. exists b, (pl_Name p). split; [done|]. split.
  - exists plugins. split_and!; [done|done|by rewrite Hq|]. eapply (NewFramework_spec r prof plugins runAll (ms_events st)); [done|].
    exists b, ev. split_and!; try done. unfold NewFramework in HN. rewrite Hp in HN. repeat (apply try_inl in HN as (? & ? & HN)).
    destruct (final_checks _ _); [done|]. by injection HN as <- _.
  - destruct (String.eqb_spec (v_queueSort (ms_validator st)) "") as [E|_]; [injection Hv as <-; by split; [left|]|].
    destruct (String.eqb_spec (v_queueSort (ms_validator st)) (pl_Name p)) as [E|_]; [|done].
    cbn [negb] in Hv. case_bool_decide; [|done]. injection Hv as <-. split; [by right|done].
Qed.

Lemma map_fold r runAll cfgs st st' :
  try_fold (map_step r runAll) cfgs st = inl st' ->
  Forall (fun prof => forall plugins p, prof_Plugins prof = Some plugins -> p ∈ ps_Enabled (at_QueueSort plugins) -> pl_Name p <> ""%string) cfgs ->
  NoDup (map SchedulerName cfgs) /\ (forall prof, prof ∈ cfgs -> ms_map st !! SchedulerName prof = None) /\
  (forall n, n ∉ map SchedulerName cfgs -> ms_map st' !! n = ms_map st !! n) /\
  exists q, (v_queueSort (ms_validator st) = ""%string \/ v_queueSort (ms_validator st) = q) /\
    forall prof, prof ∈ cfgs -> exists b, ms_map st' !! SchedulerName prof = Some b /\ served r runAll q prof b.
Proof.
  revert st. induction cfgs as [|prof cfgs IH]; intros st; cbn [try_fold].
  { intros [= <-] _. split_and!; [constructor|by intros ? ?%elem_of_nil|done|]. exists (v_queueSort (ms_validator st)).
    split; [by right|by intros ? ?%elem_of_nil]. }
  destruct (map_step r runAll st prof) as [st1|] eqn:Hs; [|done]. intros Hf [Hne Hnes]%Forall_cons.
  apply map_step_spec in Hs as (Hfresh & b & q & Hm & Hb & Hq & Hv). destruct (IH st1 Hf Hnes) as (Hnd & Hfr & Hout & q' & Hq' & Hin).
  assert (forall x, x ∈ cfgs -> SchedulerName x <> SchedulerName prof /\ ms_map st !! SchedulerName x = None) as Hx.
  { intros x Hx. specialize (Hfr x Hx). rewrite Hm in Hfr. apply lookup_insert_None in Hfr as [? ?]. naive_solver. }
  assert (SchedulerName prof ∉ map SchedulerName cfgs) as Hp.
  { intros (x & Ex & Hxin)%list_elem_of_fmap. destruct (Hx x Hxin). congruence. }
  assert (q <> ""%string) as Hq0.
  { destruct Hb as (plugins & Hpl & _ & Eq & _). destruct (ps_Enabled (at_QueueSort plugins)) as [|p l] eqn:El; [done|].
    cbn [map] in Eq. injection Eq as <- _. apply (Hne plugins p Hpl). rewrite El. by left. }
  assert (q' = q) as -> by (destruct Hq' as [Hq'|Hq']; congruence).
  cbn [map]. split_and!.
  - by apply NoDup_cons.
  - intros x [-> |Hxin]%elem_of_cons; [done|]. by apply Hx.
  - intros n [Hn1 Hn2]%not_elem_of_cons. rewrite Hout by done. rewrite Hm. by apply lookup_insert_ne.
  - exists q. split; [done|]. intros x [-> |Hxin]%elem_of_cons; [|by apply Hin]. exists b. split; [|done].
    rewrite Hout by done. rewrite Hm. apply lookup_insert_eq.
Qed.

(** When the frameworks of a configuration could be built, every profile has
    one, under its own name, with the plugins it enables; there are no others;
    and all sort the queue, which they share, by the same plugin. *)
Theorem NewMap_correct r runAll cfgs ev0 m ev :
  NewMap cfgs r runAll ev0 = inl (m, ev) ->
  Forall (fun prof => forall plugins p, prof_Plugins prof = Some plugins -> p ∈ ps_Enabled (at_QueueSort plugins) -> pl_Name p <> ""%string) cfgs ->
  NoDup (map SchedulerName cfgs) /\ (forall n, HandlesSchedulerName m n = true <-> n ∈ map SchedulerName cfgs) /\
  exists q, forall prof, prof ∈ cfgs -> exists b, m !! SchedulerName prof = Some b /\ served r runAll q prof b.
Proof.
  unfold NewMap. rewrite try_inl. intros (st & Hf & [= <- <-]) Hne.
  destruct (map_fold r runAll cfgs _ st Hf Hne) as (Hnd & _ & Hout & q & _ & Hin). cbn [ms_map] in Hout. split_and!; [done| |by exists q].
  intros n. unfold HandlesSchedulerName. destruct (decide (n ∈ map SchedulerName cfgs)) as [Hn|Hn].
  - split; [done|]. intros _. apply list_elem_of_fmap in Hn as (prof & -> & Hp). by destruct (Hin prof Hp) as (b & -> & _).
  - rewrite Hout by done. rewrite lookup_empty. split; done.
Qed.
End maps.

(** ** The completion of a profile *)

Section completion.
Context {A : Type} `{ConfigGates} `{ArgScheme A}.

Lemma List_of_NoDup (s : gset string) : NoDup (List_of s).
Proof. unfold List_of. rewrite merge_sort_Permutation. apply NoDup_elements. Qed.

Lemma default_config_names existing name : map pc_Name (default_config (A := A) existing name) = [] \/
  (map pc_Name (default_config (A := A) existing name) = [name] /\ name ∉ existing).
Proof. unfold default_config. case_bool_decide; [by left|]. destruct (scheme_New _); [by right|by left]. Qed.

(** The completed profile configures no plugin twice if the file does not. *)
Lemma setDefaults_configs (prof : DefaultsV1beta1.KubeSchedulerProfile A) :
  NoDup (map pc_Name (DefaultsV1beta1.prof_PluginConfig prof)) ->
  NoDup (map pc_Name (DefaultsV1beta1.prof_PluginConfig (setDefaults_KubeSchedulerProfile prof))).
Proof.
  intros Hnd. unfold setDefaults_KubeSchedulerProfile. cbn [DefaultsV1beta1.prof_PluginConfig].
  set (cfgs := DefaultsV1beta1.prof_PluginConfig prof) in *. set (ex := list_to_set (map pc_Name cfgs) : gset string).
  assert (map pc_Name (map complete_config cfgs) = map pc_Name cfgs) as Ec.
  { rewrite map_map. apply map_ext. intros [n [a|]]; cbn; [|done]. by destruct (isUnknown a). }
  pose proof (List_of_NoDup (fold_left (fun n e => match e with Some e => n ∪ names_of (ps_Enabled e) | None => n end)
    (extension_points (DefaultsV1beta1.mergePlugins DefaultsV1beta1.getDefaultPlugins (DefaultsV1beta1.prof_Plugins prof))) ∅)) as Hl.
  fold (pluginsNames (DefaultsV1beta1.mergePlugins DefaultsV1beta1.getDefaultPlugins (DefaultsV1beta1.prof_Plugins prof))) in Hl.
  revert Hl. generalize (pluginsNames (DefaultsV1beta1.mergePlugins DefaultsV1beta1.getDefaultPlugins (DefaultsV1beta1.prof_Plugins prof))) as l.
  intros l Hl. rewrite map_app, Ec.
  assert (forall l, NoDup l -> NoDup (map pc_Name (concat (map (default_config (A := A) ex) l))) /\
    forall n, n ∈ map pc_Name (concat (map (default_config (A := A) ex) l)) -> n ∈ l /\ n ∉ ex) as Hd.
  { clear. induction l as [|n l IH]; cbn [map concat]; [by split; [constructor|intros ? ?%elem_of_nil]|]. intros [Hn Hl]%NoDup_cons.
    destruct (IH Hl) as [IH1 IH2]. rewrite map_app. destruct (default_config_names ex n) as [-> |[-> Hex]]; cbn [app].
    - split; [done|]. intros x Hx. destruct (IH2 x Hx). split; [by right|done].
    - split.
      + apply NoDup_cons. split; [|done]. intros Hx. by destruct (IH2 n Hx).
      + intros x [-> |Hx]%elem_of_cons; [by split; [left|]|]. destruct (IH2 x Hx). split; [by right|done]. }
  destruct (Hd l Hl) as [D1 D2]. apply NoDup_app. split_and!; [done| |done]. intros n Hn Hn2. destruct (D2 n Hn2) as [_ Hex].
  apply Hex. by apply elem_of_list_to_set.
Qed.
End completion.

(** * The framework of the README's configuration

    The profile that the README gives for Hicev2, completed with the default
    plugins and built by [NewFramework]: which plugins the scheduler of
    KubeHICE runs, and with which weights. *)

(** The feature gates as they are set in a build of this version. *)
#[export] Instance released_gates : ConfigGates := {| VolumeCapacityPriority := false; DefaultPodTopologySpread := true |}.

Definition custom_set (enabled disabled : list string) : option VPluginSet :=
  Some (mkPluginSet (map plain enabled) (map plain disabled)).

(** [plugins] of scheduler-configv2.yml. *)
Definition readme_v2 : PluginsOf (option VPluginSet) := {|
  at_QueueSort := None;
  at_PreFilter := custom_set ["Hicev1"%string] [];
  at_Filter := custom_set ["Hicev1"; "Hicev2"]%string ["NodeResourcesFit"%string];
  at_PostFilter := None;
  at_PreScore := None;
  at_Score := custom_set ["Hicev2"%string]
    ["NodeResourcesLeastAllocated"; "NodeResourcesBalancedAllocation"; "NodeResourcesMostAllocated"; "RequestedToCapacityRatio"]%string;
  at_Reserve := None;
  at_Permit := None;
  at_PreBind := None;
  at_Bind := custom_set ["Hicev2"%string] ["DefaultBinder"%string];
  at_PostBind := None
|}.

(** What the scheduler makes of it. *)
Definition readme_plugins : Plugins :=
  to_config_Plugins (DefaultsV1beta1.mergePlugins DefaultsV1beta1.getDefaultPlugins (Some readme_v2)).

(** ** Registries that have the plugins of a profile *)

Section registered.
Context {Ext A : Type} `{MapRange}.
Implicit Types (r : Registry Ext A).

(** The plugins of a set exist, implement the interface, and answer to the
    names they are registered under. *)
Definition serves {I} (mk : string -> option (AnyPlugin Ext)) (sel : AnyPlugin Ext -> option I) (name_of : I -> string) (s : PluginSet) : Prop :=
  Forall (fun e => exists p i, mk (pl_Name e) = Some p /\ sel p = Some i /\ name_of i = pl_Name e) (ps_Enabled s).

Record registered r (cfgs : list (PluginConfig A)) (plugins : Plugins) : Prop := {
  re_PreFilter : serves (made r cfgs) as_PreFilter (pf_Name Ext) (at_PreFilter plugins);
  re_Filter : serves (made r cfgs) as_Filter fl_Name (at_Filter plugins);
  re_PostFilter : serves (made r cfgs) as_PostFilter (po_Name Ext) (at_PostFilter plugins);
  re_Reserve : serves (made r cfgs) as_Reserve (rs_Name Ext) (at_Reserve plugins);
  re_PreScore : serves (made r cfgs) as_PreScore ps_Name (at_PreScore plugins);
  re_Score : serves (made r cfgs) as_Score sc_Name (at_Score plugins);
  re_PreBind : serves (made r cfgs) as_PreBind (pb_Name Ext) (at_PreBind plugins);
  re_Bind : serves (made r cfgs) as_Bind (bd_Name Ext) (at_Bind plugins);
  re_PostBind : serves (made r cfgs) as_PostBind (pp_Name Ext) (at_PostBind plugins);
  re_Permit : serves (made r cfgs) as_Permit (pm_Name Ext) (at_Permit plugins);
  re_QueueSort : serves (made r cfgs) as_QueueSort qs_Name (at_QueueSort plugins)
}.

Lemma serves_runs {I} mk (sel : AnyPlugin Ext -> option I) name_of s :
  NoDup (map pl_Name (ps_Enabled s)) -> serves mk sel name_of s ->
  exists l, runs mk sel s l /\ map name_of l = map pl_Name (ps_Enabled s).
Proof.
  intros Hnd Hs. unfold runs. unfold serves in Hs. assert (exists l, Forall2 (fun e i => mk (pl_Name e) ≫= sel = Some i) (ps_Enabled s) l /\
    map name_of l = map pl_Name (ps_Enabled s)) as (l & ? & ?); [|by exists l].
  clear Hnd. induction Hs as [|e es (p & i & Hp & Hi & Hn) Hs (l & HF & Hl)]; [by exists []|].
  exists (i :: l). split; [constructor; [by rewrite Hp|done]|]. cbn [map]. by rewrite Hn, Hl.
Qed.

(** The names that a framework runs at each extension point. *)
Definition names_run (qs : list QueueSortPlugin) (f : frameworkImpl Ext) : PluginsOf (list string) := {|
  at_QueueSort := map qs_Name qs;
  at_PreFilter := map (pf_Name Ext) (preFilterPlugins Ext f);
  at_Filter := map fl_Name (filterPlugins Ext f);
  at_PostFilter := map (po_Name Ext) (postFilterPlugins Ext f);
  at_PreScore := map ps_Name (preScorePlugins Ext f);
  at_Score := map sc_Name (scorePlugins Ext f);
  at_Reserve := map (rs_Name Ext) (reservePlugins Ext f);
  at_Permit := map (pm_Name Ext) (permitPlugins Ext f);
  at_PreBind := map (pb_Name Ext) (preBindPlugins Ext f);
  at_Bind := map (bd_Name Ext) (bindPlugins Ext f);
  at_PostBind := map (pp_Name Ext) (postBindPlugins Ext f)
|}.

Definition names_enabled (plugins : Plugins) : PluginsOf (list string) := at_all (fun s => map pl_Name (ps_Enabled s)) plugins.

Lemma weights_by_name pls weights :
  weights_configured pls weights = forallb (fun n => negb (default 0 (weights !! n) =? 0)) (map sc_Name pls).
Proof. unfold weights_configured. induction pls as [|p pls IH]; [done|]. cbn [map forallb]. by rewrite IH. Qed.

(** Such a registry gives the framework that the profile describes. *)
Lemma registered_builds r cfgs plugins runAll weights :
  registered r cfgs plugins -> NoDup (map pc_Name cfgs) ->
  Forall (fun s => NoDup (map pl_Name (ps_Enabled s))) (extension_points plugins) ->
  configure_weights (entries (at_Score plugins)) = inl weights ->
  forallb (fun n => negb (default 0 (weights !! n) =? 0)) (map pl_Name (ps_Enabled (at_Score plugins))) = true ->
  length (ps_Enabled (at_QueueSort plugins)) = 1%nat -> ps_Enabled (at_Bind plugins) <> [] ->
  (forall name fac, needed plugins name -> r !! name = Some fac -> exists p, fac (given cfgs name) = inl p) ->
  exists qs f, builds r cfgs plugins runAll qs f /\ names_run qs f = names_enabled plugins /\ scorePluginWeight Ext f = weights.
Proof.
  intros [R1 R2 R3 R4 R5 R6 R7 R8 R9 R10 R11] Hc Hnd Hw Hn Hq Hb Hf. unfold extension_points in Hnd.
  repeat (apply Forall_cons in Hnd as [? Hnd]).
  apply serves_runs in R1 as (l1 & R1 & N1), R2 as (l2 & R2 & N2), R3 as (l3 & R3 & N3), R4 as (l4 & R4 & N4), R5 as (l5 & R5 & N5),
    R6 as (l6 & R6 & N6), R7 as (l7 & R7 & N7), R8 as (l8 & R8 & N8), R9 as (l9 & R9 & N9), R10 as (l10 & R10 & N10), R11 as (l11 & R11 & N11); try done.
  exists l11, (mkFramework Ext l1 l2 l3 l5 l6 l4 l10 l7 l8 l9 weights runAll). split_and!; [|by unfold names_run, names_enabled, at_all; cbn; congruence|done].
  split; try done.
  - cbn [scorePlugins scorePluginWeight]. by rewrite weights_by_name, N6.
  - rewrite <- Hq, <- (length_map qs_Name), N11. apply length_map.
  - cbn [bindPlugins]. intros ->. apply Hb. destruct (ps_Enabled (at_Bind plugins)); [done|discriminate N8].
Qed.

Lemma readme_weights :
  exists weights, configure_weights (entries (at_Score readme_plugins)) = inl weights /\ weights !! "Hicev2"%string = Some 1 /\
    forallb (fun n => negb (default 0 (weights !! n) =? 0)) (map pl_Name (ps_Enabled (at_Score readme_plugins))) = true.
Proof.
  destruct (configure_weights (entries (at_Score readme_plugins))) as [weights|e] eqn:Hw; [|by vm_compute in Hw].
  exists weights. split; [done|]. vm_compute in Hw. injection Hw as <-. by vm_compute.
Qed.

Lemma readme_names r cfgs :
  NoDup (map pc_Name cfgs) ->
  (forall plugin fac, needed readme_plugins plugin -> r !! plugin = Some fac -> exists p, fac (given cfgs plugin) = inl p) ->
  registered r cfgs readme_plugins ->
  exists qs f, builds r cfgs readme_plugins false qs f /\ names_run qs f = names_enabled readme_plugins /\
    scorePluginWeight Ext f !! "Hicev2"%string = Some 1.
Proof.
  intros Hc Hf Hr. destruct readme_weights as (weights & Hw & Hone & Hall).
  assert (Forall (fun s => NoDup (map pl_Name (ps_Enabled s))) (extension_points readme_plugins)) as Hnd.
  { apply (bool_decide_unpack _). by vm_compute. }
  assert (length (ps_Enabled (at_QueueSort readme_plugins)) = 1%nat) as Hq by (by vm_compute).
  assert (ps_Enabled (at_Bind readme_plugins) <> []) as Hbi by (by vm_compute).
  destruct (registered_builds r cfgs readme_plugins false weights Hr Hc Hnd Hw Hall Hq Hbi Hf) as (qs & f & Hb & Hn & Hfw).
  exists qs, f. split; [done|]. split; [done|]. by rewrite Hfw.
Qed.

Lemma readme_configured r cfgs qs f :
  registered r cfgs readme_plugins -> builds r cfgs readme_plugins false qs f -> configured f (entries (at_Score readme_plugins)).
Proof.
  intros Hr Hb. apply (builds_configured r cfgs readme_plugins false qs f Hb); [apply (bool_decide_unpack _); by vm_compute|].
  eapply Forall_impl; [exact (re_Score _ _ _ Hr)|]. cbn beta. intros e (p & i & Hp & Hi & Hname) p' sc Hp' Hsc. congruence.
Qed.

(** C30. With any registry that has its plugins, the README's configuration
    for Hicev2 gives a scheduler that filters with the default plugins except
    NodeResourcesFit, then Hicev1, then Hicev2; that scores with Hicev2, at
    weight 1, beside the default plugins about affinity, spreading, taints,
    images and avoided pods but without those that add up unconverted CPU
    requests; that binds with Hicev2 alone; and whose total scores can not
    overflow. *)
Theorem readme_framework r name cfgs :
  NoDup (map pc_Name cfgs) ->
  (forall plugin fac, needed readme_plugins plugin -> r !! plugin = Some fac -> exists p, fac (given cfgs plugin) = inl p) ->
  registered r cfgs readme_plugins ->
  exists b ev, NewFramework r (Some (mkProfile name (Some readme_plugins) cfgs)) false [] = inl (b, ev) /\
    let f := framework_of b in
    map fl_Name (filterPlugins Ext f) =
      ["NodeUnschedulable"; "NodeName"; "TaintToleration"; "NodeAffinity"; "NodePorts"; "VolumeRestrictions"; "EBSLimits"; "GCEPDLimits";
       "NodeVolumeLimits"; "AzureDiskLimits"; "VolumeBinding"; "VolumeZone"; "PodTopologySpread"; "InterPodAffinity"; "Hicev1"; "Hicev2"]%string /\
    map (pf_Name Ext) (preFilterPlugins Ext f) =
      ["NodeResourcesFit"; "NodePorts"; "VolumeRestrictions"; "PodTopologySpread"; "InterPodAffinity"; "VolumeBinding"; "NodeAffinity"; "Hicev1"]%string /\
    map sc_Name (scorePlugins Ext f) =
      ["ImageLocality"; "InterPodAffinity"; "NodeAffinity"; "NodePreferAvoidPods"; "PodTopologySpread"; "TaintToleration"; "Hicev2"]%string /\
    map (bd_Name Ext) (bindPlugins Ext f) = ["Hicev2"%string] /\ map (po_Name Ext) (postFilterPlugins Ext f) = ["DefaultPreemption"%string] /\
    scorePluginWeight Ext f !! "Hicev2"%string = Some 1 /\ configured f (entries (at_Score readme_plugins)).
Proof.
  intros Hc Hf Hr. destruct (readme_names r cfgs Hc Hf Hr) as (qs & f & Hb & Hn & Hone).
  destruct (proj2 (NewFramework_spec r (mkProfile name (Some readme_plugins) cfgs) readme_plugins false [] qs f eq_refl) Hb)
    as (b & ev & HN & _ & _ & Hbf). exists b, ev. split; [done|]. cbv zeta. rewrite Hbf.
  assert (forall (g : PluginsOf (list string) -> list string), g (names_run qs f) = g (names_enabled readme_plugins)) as Hg by (intros g; by rewrite Hn).
  split_and!; [exact (Hg at_Filter)|exact (Hg at_PreFilter)|exact (Hg at_Score)|exact (Hg at_Bind)|exact (Hg at_PostFilter)|done|].
  by apply (readme_configured r cfgs qs f).
Qed.
End registered.

(** ** A registry *)

(** The names of [NewInTreeRegistry]. *)
Definition in_tree_names : list string :=
  ["Hicev1"; "Hicev2"; "MHice"; "SelectorSpread"; "ImageLocality"; "TaintToleration"; "NodeName"; "NodePorts"; "NodePreferAvoidPods";
   "NodeAffinity"; "PodTopologySpread"; "NodeUnschedulable"; "NodeResourcesFit"; "NodeResourcesBalancedAllocation";
   "NodeResourcesMostAllocated"; "NodeResourcesLeastAllocated"; "RequestedToCapacityRatio"; "VolumeBinding"; "VolumeRestrictions";
   "VolumeZone"; "NodeVolumeLimits"; "EBSLimits"; "GCEPDLimits"; "AzureDiskLimits"; "CinderLimits"; "InterPodAffinity"; "NodeLabel";
   "ServiceAffinity"; "PrioritySort"; "DefaultBinder"; "DefaultPreemption"]%string.

(** A registry that makes the plugins of a function. *)
Section registry_of.
Context {Ext : Type} (mk : string -> AnyPlugin Ext).

Definition registry_of : Registry Ext unit := list_to_map (map (fun n => (n, fun _ => inl (mk n))) in_tree_names).

Lemma registry_lookup n : n ∈ in_tree_names -> registry_of !! n = Some (fun _ => inl (mk n)).
Proof.
  intros Hn. unfold registry_of. apply (elem_of_list_to_map_1 (M := gmap string)).
  - change (map _ in_tree_names) with ((fun n => (n, fun _ : option unit => @inl (AnyPlugin Ext) string (mk n))) <$> in_tree_names).
    rewrite <- list_fmap_compose. rewrite list_fmap_id. apply (bool_decide_unpack _). by vm_compute.
  - apply list_elem_of_fmap. by exists n.
Qed.

Lemma registry_made n : n ∈ in_tree_names -> made registry_of [] n = Some (mk n).
Proof. intros Hn. unfold made. by rewrite (registry_lookup n Hn). Qed.

Lemma registry_made_inv n p : made registry_of [] n = Some p -> p = mk n.
Proof.
  unfold made. destruct (registry_of !! n) as [fac|] eqn:Hr; [|done]. cbn [mbind option_bind].
  apply (elem_of_list_to_map_2 (M := gmap string)) in Hr. apply list_elem_of_fmap in Hr as (m & [= -> ->] & _). by intros [= <-].
Qed.

Lemma registry_factories plugins name fac :
  needed plugins name -> registry_of !! name = Some fac -> exists p, fac (given [] name) = inl p.
Proof.
  intros _ Hr. apply (elem_of_list_to_map_2 (M := gmap string)) in Hr. apply list_elem_of_fmap in Hr as (n & [= -> ->] & _). by eexists.
Qed.

Lemma registry_serves {I} (sel : AnyPlugin Ext -> option I) name_of (s : PluginSet) :
  (forall n, exists i, sel (mk n) = Some i /\ name_of i = n) ->
  bool_decide (Forall (fun e => pl_Name e ∈ in_tree_names) (ps_Enabled s)) = true ->
  serves (made registry_of []) sel name_of s.
Proof.
  intros Hsel Hs%bool_decide_eq_true. unfold serves. eapply Forall_impl; [exact Hs|]. cbn beta. intros e He.
  destruct (Hsel (pl_Name e)) as (i & ? & ?). exists (mk (pl_Name e)), i. split_and!; [by apply registry_made|done|done].
Qed.
End registry_of.

(** A plugin that agrees to everything, under a given name. *)
Definition agreeable (Ext : Type) (name : string) : AnyPlugin Ext := {|
  any_Name := name;
  any_EventsToRegister := Some [];
  as_QueueSort := Some {| qs_Name := name; qs_Less := PrioritySort_Less |};
  as_PreFilter := Some {| pf_Name := name; pf_PreFilter := fun x st _ => Ret (x, st, None); pf_Extensions := None |};
  as_Filter := Some {| fl_Name := name; fl_Filter := fun _ _ _ => Ret None |};
  as_PostFilter := Some {| po_Name := name; po_PostFilter := fun x _ _ _ => Ret (x, None, None) |};
  as_PreScore := Some {| ps_Name := name; ps_PreScore := fun st _ _ => Ret (st, None) |};
  as_Score := Some {| sc_Name := name; sc_Score := fun _ _ _ => Ret (0, None); sc_Normalize := None |};
  as_Reserve := Some {| rs_Name := name; rs_Reserve := fun x st _ _ => Ret (x, st, None); rs_Unreserve := fun x st _ _ => Ret (x, st) |};
  as_Permit := Some {| pm_Name := name; pm_Permit := fun x _ _ _ => Ret (x, None, 0) |};
  as_PreBind := Some {| pb_Name := name; pb_PreBind := fun x _ _ _ => Ret (x, None) |};
  as_Bind := Some {| bd_Name := name; bd_Bind := fun x _ _ _ => Ret (x, None) |};
  as_PostBind := Some {| pp_Name := name; pp_PostBind := fun x _ _ _ => Ret x |}
|}.

Definition agreeable_registry : Registry unit unit := registry_of (agreeable unit).

Lemma agreeable_registered : registered agreeable_registry [] readme_plugins.
Proof. split; apply registry_serves; try (intros n; by eexists); by vm_compute. Qed.

Lemma readme_framework_witness :
  exists b ev, @NewFramework unit unit range_id agreeable_registry (Some (mkProfile "kubehice-scheduler" (Some readme_plugins) [])) false [] = inl (b, ev) /\
    map (bd_Name unit) (bindPlugins unit (framework_of b)) = ["Hicev2"%string].
Proof.
  destruct (@readme_framework unit unit range_id agreeable_registry "kubehice-scheduler" []) as (b & ev & HN & _ & _ & _ & Hb & _).
  - apply NoDup_nil_2.
  - intros plugin fac. apply registry_factories.
  - exact agreeable_registered.
  - exists b, ev. split; [exact HN|exact Hb].
Defined.

Lemma readme_builds : exists qs f, @builds unit unit agreeable_registry [] readme_plugins false qs f.
Proof.
  destruct (@readme_names unit unit agreeable_registry []) as (qs & f & Hb & _); [constructor| |exact agreeable_registered|by exists qs, f].
  intros plugin fac. apply registry_factories.
Qed.

(** In v1beta1 a default plugin that is enabled again is refused ... *)
Theorem reenabled_default_refused :
  let custom := mkPlugins None None (custom_set ["NodeAffinity"%string] []) None None None None None None None None in
  let plugins := to_config_Plugins (DefaultsV1beta1.mergePlugins DefaultsV1beta1.getDefaultPlugins (Some custom)) in
  @NewFramework unit unit range_id agreeable_registry (Some (mkProfile "s" (Some plugins) [])) false [] =
  inr (str_app "plugin " (str_app (quoted "NodeAffinity") (str_app " already registered as " (quoted "FilterPlugin")))).
Proof. by vm_compute. Qed.

(** ... and the README's plugins, under version v1beta2, would leave the
    scores of NodeResourcesFit enabled, which add up the unconverted requests:
    there that plugin scores in the place of NodeResourcesLeastAllocated. *)
Theorem readme_in_v1beta2_scores_Fit :
  let plugins := DefaultsV1beta2.mergePlugins DefaultsV1beta2.getDefaultPlugins (Some (at_all (default (enable [])) readme_v2)) in
  "NodeResourcesFit"%string ∈ map pl_Name (ps_Enabled (at_Score plugins)) /\
  "NodeResourcesFit"%string ∉ map pl_Name (ps_Enabled (at_Score readme_plugins)).
Proof. split; apply (bool_decide_unpack _); by vm_compute. Qed.

Lemma NewFramework_correct_witness :
  exists b ev qs f, @NewFramework unit unit range_id agreeable_registry (Some (mkProfile "kubehice-scheduler" (Some readme_plugins) [])) false [] = inl (b, ev) /\
    queueSortPlugins b = qs /\ framework_of b = f /\ builds agreeable_registry [] readme_plugins false qs f.
Proof.
  destruct readme_builds as (qs & f & Hb).
  destruct (proj2 (@NewFramework_correct unit unit range_id agreeable_registry (mkProfile "kubehice-scheduler" (Some readme_plugins) []) readme_plugins
    false [] qs f eq_refl) Hb) as (b & ev & HN & _ & Hq & Hf).
  exists b, ev, qs, f. split; [exact HN|]. split; [exact Hq|]. split; [exact Hf|exact Hb].
Defined.
