(* ===== verification/HiceCycle.v ===== *)
(** * A cycle of the README's scheduler

    The framework that [NewFramework] builds from the README's configuration,
    with a registry whose plugins Hicev1 and Hicev2 are those of this
    repository and whose other plugins are the default ones or any others:
    which hosts its scheduling cycles can suggest. *)

From S2P Require Import Prelude GoInt GoFloat GoStrconv Quantity ApiTypes Labels AffinityTerms Resource HostPorts NodeInfo Json Framework Snapshot NodeTree Cache CacheProofs CacheSnapshot Hicev1 Hicev1Proofs NodeResourcesFit Hicev2 Hicev2Proofs SchedulingQueue Runtime GenericScheduler GenericProofs FilterLoop ScoreProofs ScheduleProofs Samples HiceProfile EventHandlers PluginSets DefaultsV1beta1 Profiles ProfileProofs.

Open Scope go_scope.

Section cycle.
Context {arch : GoArch} {gates : FeatureGates} {E : EtcdService} {codec : PodCodec} {mr : MapRange} {par : Parallel} {A : Type}.
Context (r : Registry EtcdStore A) (cfgs : list (PluginConfig A)).

(** The plugins of the two names are KubeHICE's. *)
Record kubehice (snap : Snapshot) : Prop := {
  kh_PreFilter1 : made r cfgs Hicev1_Name ≫= as_PreFilter = Some hicev1_PreFilterPlugin;
  kh_Filter1 : made r cfgs Hicev1_Name ≫= as_Filter = Some hicev1_FilterPlugin;
  kh_Filter2 : made r cfgs Hicev2_Name ≫= as_Filter = Some hicev2_FilterPlugin;
  kh_Score2 : made r cfgs Hicev2_Name ≫= as_Score = Some (hicev2_ScorePlugin snap)
}.

(** The other plugins use neither etcd nor the entries of Hicev1 in the state
    of the cycle. *)
Record apart : Prop := {
  ap_PreFilter : forall name pl, name <> Hicev1_Name -> made r cfgs name ≫= as_PreFilter = Some pl ->
    forall x st pod x' st' s, pf_PreFilter EtcdStore pl x st pod = Ret (x', st', s) -> x' = x;
  ap_PreScore : forall name pl, made r cfgs name ≫= as_PreScore = Some pl ->
    forall st pod ns st' s, ps_PreScore pl st pod ns = Ret (st', s) ->
      storage st' !! preFilterStateKey = storage st !! preFilterStateKey /\
      storage st' !! imageStateKey = storage st !! imageStateKey
}.

(** The other plugins do not panic, whatever they are given; see
    Spread_AddPod_panics for one that may, when pods are nominated. *)
Record others_return : Prop := {
  or_PreFilter : forall name pl, name <> Hicev1_Name -> made r cfgs name ≫= as_PreFilter = Some pl ->
    (forall x st pod, exists res, pf_PreFilter EtcdStore pl x st pod = Ret res) /\
    (forall e, pf_Extensions EtcdStore pl = Some e -> forall st p pi ni, exists res, pfe_AddPod e st p pi ni = Ret res);
  or_Filter : forall name pl, name <> Hicev1_Name -> name <> Hicev2_Name -> made r cfgs name ≫= as_Filter = Some pl ->
    forall st pod ni, is_Some (ni_node ni) -> exists s, fl_Filter pl st pod ni = Ret s;
  or_PreScore : forall name pl, made r cfgs name ≫= as_PreScore = Some pl ->
    forall st pod ns, exists res, ps_PreScore pl st pod ns = Ret res;
  or_Score : forall name pl, name <> Hicev2_Name -> made r cfgs name ≫= as_Score = Some pl ->
    (forall st pod n, exists res, sc_Score pl st pod n = Ret res) /\
    (forall norm, sc_Normalize pl = Some norm -> forall st pod l, exists res, norm st pod l = Ret res)
}.

(** *** Lists of plugins *)

Lemma runs_Forall {I} mk (sel : AnyPlugin EtcdStore -> option I) (s : PluginSet) l (P : I -> Prop) :
  runs mk sel s l -> (forall name i, name ∈ map pl_Name (ps_Enabled s) -> mk name ≫= sel = Some i -> P i) -> Forall P l.
Proof.
  intros [_ HF] HP. apply Forall_forall. intros i Hi. apply list_elem_of_lookup in Hi as [k Hk].
  destruct (Forall2_lookup_r _ _ _ _ _ HF Hk) as (e & He & Hm). apply (HP (pl_Name e)); [|done].
  apply list_elem_of_fmap. exists e. split; [done|by eapply list_elem_of_lookup_2].
Qed.

Lemma runs_elem {I} mk (sel : AnyPlugin EtcdStore -> option I) (s : PluginSet) l name i :
  runs mk sel s l -> name ∈ map pl_Name (ps_Enabled s) -> mk name ≫= sel = Some i -> i ∈ l.
Proof.
  intros [_ HF] (e & -> & He)%list_elem_of_fmap Hm. apply list_elem_of_lookup in He as [k Hk].
  destruct (Forall2_lookup_l _ _ _ _ _ HF Hk) as (j & Hj & Hm'). rewrite Hm in Hm'. injection Hm' as ->.
  by eapply list_elem_of_lookup_2.
Qed.

(** Hicev1 comes last of the PreFilter plugins. *)
Lemma readme_PreFilter_last :
  exists front e, ps_Enabled (at_PreFilter readme_plugins) = front ++ [e] /\ pl_Name e = Hicev1_Name /\
    Forall (fun e => pl_Name e <> Hicev1_Name) front.
Proof.
  exists (removelast (ps_Enabled (at_PreFilter readme_plugins))). eexists. split; [vm_compute; reflexivity|].
  split; [reflexivity|]. apply (bool_decide_unpack _). by vm_compute.
Qed.

Lemma readme_PreFilter_split snap l :
  kubehice snap -> runs (made r cfgs) as_PreFilter (at_PreFilter readme_plugins) l ->
  exists front, l = front ++ [hicev1_PreFilterPlugin] /\
    Forall (fun pl => exists name, name <> Hicev1_Name /\ made r cfgs name ≫= as_PreFilter = Some pl) front.
Proof.
  intros Hk [_ HF]. destruct readme_PreFilter_last as (front & e & Heq & He & Hf). rewrite Heq in HF.
  apply Forall2_app_inv_l in HF as (lf & ll & H1 & H2 & ->). inversion H2 as [|? pl ? ? Hpl Hnil]; subst.
  inversion Hnil; subst. rewrite He, (kh_PreFilter1 snap Hk) in Hpl. injection Hpl as <-.
  exists lf. split; [done|]. clear H2 Hnil Heq. induction H1 as [|x i front lf Hx H1 IH]; [constructor|].
  apply Forall_cons in Hf as [Hn Hf]. constructor; [by exists (pl_Name x)|by apply IH].
Qed.

Lemma run_prefilter_last (front : list (PreFilterPlugin EtcdStore)) pl x st pod x' st' s :
  Forall (fun p => forall x st pod x' st' s, pf_PreFilter EtcdStore p x st pod = Ret (x', st', s) -> x' = x) front ->
  run_prefilter (front ++ [pl]) x st pod = Ret (x', st', s) -> IsSuccess s = true ->
  exists st1 s1, pf_PreFilter EtcdStore pl x st1 pod = Ret (x', st', s1).
Proof.
  intros HF. revert st. induction HF as [|p front Hp HF IH]; intros st; cbn [app run_prefilter].
  - destruct (pf_PreFilter EtcdStore pl x st pod) as [[[x1 st1] s1]|] eqn:Hpl; [|done]. cbn [obind].
    destruct (IsSuccess s1) eqn:E1; [intros [= <- <- <-] _; by exists st, s1|].
    destruct (IsUnschedulable s1) eqn:E2; [|by intros [= <- <- <-]]. destruct s1 as [s1|]; [|done].
    intros [= <- <- <-] Hs. exfalso. unfold IsSuccess, Status_Code, WithFailedPlugin in *. cbn in *. congruence.
  - destruct (pf_PreFilter EtcdStore p x st pod) as [[[x1 st1] s1]|] eqn:Hpl; [|done]. cbn [obind].
    apply Hp in Hpl as ->. destruct (IsSuccess s1) eqn:E1; [apply IH|].
    destruct (IsUnschedulable s1) eqn:E2; [|by intros [= <- <- <-]]. destruct s1 as [s1|]; [|done].
    intros [= <- <- <-] Hs. exfalso. unfold IsSuccess, Status_Code, WithFailedPlugin in *. cbn in *. congruence.
Qed.

(** *** The framework *)

Section built.
Context (f : frameworkImpl EtcdStore) (qs : list QueueSortPlugin) (snap : Snapshot).
Context (Hb : builds r cfgs readme_plugins false qs f) (Hk : kubehice snap).

Lemma in_set {W} (l : list (PluginOf W)) n : bool_decide (n ∈ map pl_Name l) = true -> n ∈ map pl_Name l.
Proof. apply bool_decide_eq_true. Qed.

Lemma built_filters : hicev1_FilterPlugin ∈ filterPlugins EtcdStore f /\ hicev2_FilterPlugin ∈ filterPlugins EtcdStore f.
Proof.
  split; eapply runs_elem; [exact (bu_Filter _ _ _ _ _ _ Hb)| |exact (kh_Filter1 _ Hk)|exact (bu_Filter _ _ _ _ _ _ Hb)| |exact (kh_Filter2 _ Hk)];
    apply in_set; by vm_compute.
Qed.

(** What every filter of the framework admits, Hicev1 and Hicev2 do. *)
Lemma built_admits state pod ni data nd :
  prefiltered data pod state -> ni_node ni = Some nd -> admits f state pod ni ->
  Forall (has_arch data (node_arch nd)) (Containers (Spec pod)) /\ Hicev2.Filter New pod ni = Ret None.
Proof.
  intros Hp Hn Hadm. destruct built_filters as [Hf1 Hf2]. unfold admits in Hadm. rewrite Forall_forall in Hadm.
  destruct (Hadm _ Hf1) as (s1 & H1 & S1). destruct (Hadm _ Hf2) as (s2 & H2 & S2). simpl in H1, H2. split.
  - rewrite (Filter_prefiltered data pod state ni nd Hp Hn) in H1. case_decide; [done|]. injection H1 as <-. done.
  - rewrite H2. unfold Hicev2.Filter in H2. rewrite Hn in H2.
    destruct (too_slow _ _ _); [injection H2 as <-; done|]. injection H2 as <-.
    unfold insufficient_status in *. by destruct (fitsRequest _ _ _ _ _).
Qed.

Lemma built_prescore_keeps data pod : apart -> prescore_keeps f (prefiltered data pod).
Proof.
  intros Hap. eapply runs_Forall; [exact (bu_PreScore _ _ _ _ _ _ Hb)|]. intros name pl _ Hpl st p ns st' s Hps (l & H1 & H2 & H3).
  destruct (ap_PreScore Hap name pl Hpl _ _ _ _ _ Hps) as [E1 E2]. exists l. by rewrite E1, E2.
Qed.

(** A PreFilter phase that succeeds has left the images of the pod. *)
Lemma built_prefiltered store st0 pod data existed store' st' s :
  apart -> dial_error = None -> get_error images_key = None -> get_error unavailable_key = None ->
  store !! images_key = Some data -> listed (default ""%string (store !! unavailable_key)) = Some existed ->
  Containers (Spec pod) <> [] ->
  RunPreFilterPlugins f store st0 pod = Ret (store', st', s) -> IsSuccess s = true ->
  prefiltered data pod st' /\ forall k, k <> unavailable_key -> store' !! k = store !! k.
Proof.
  intros Hap Hd Hg1 Hg2 Hdata Hl Hcs Hrun Hs. unfold RunPreFilterPlugins in Hrun.
  destruct (readme_PreFilter_split snap _ Hk (bu_PreFilter _ _ _ _ _ _ Hb)) as (front & Hfront & HF). rewrite Hfront in Hrun.
  apply run_prefilter_last in Hrun as (st1 & s1 & H1); [|eapply Forall_impl; [exact HF|]|done].
  2: { intros pl (name & Hn & Hpl). by eapply (ap_PreFilter Hap). }
  cbn in H1. destruct (PreFilter_prefiltered store st1 pod data existed) as (store1 & st2 & HP & Hpf & Hst); try done.
  rewrite HP in H1. by injection H1 as <- <- _.
Qed.

(** Plugins that return make a framework whose phases return. *)
Lemma built_prefilter_ret store st0 pod data existed :
  apart -> others_return -> dial_error = None -> get_error images_key = None -> get_error unavailable_key = None ->
  store !! images_key = Some data -> listed (default ""%string (store !! unavailable_key)) = Some existed ->
  Containers (Spec pod) <> [] -> exists res, RunPreFilterPlugins f store st0 pod = Ret res.
Proof.
  intros Hap Hor Hd Hg1 Hg2 Hdata Hl Hcs. unfold RunPreFilterPlugins.
  destruct (readme_PreFilter_split snap _ Hk (bu_PreFilter _ _ _ _ _ _ Hb)) as (front & -> & HF). revert st0.
  induction HF as [|pl front (name & Hn & Hpl) HF IH]; intros st0; cbn [app run_prefilter].
  - destruct (PreFilter_prefiltered store st0 pod data existed) as (store1 & st2 & HP & _); try done.
    cbn [pf_PreFilter hicev1_PreFilterPlugin]. rewrite HP. by eexists.
  - destruct (or_PreFilter Hor name pl Hn Hpl) as [Hret _]. destruct (Hret store st0 pod) as [[[x1 st1] s1] Hp]. rewrite Hp. cbn [obind].
    apply (ap_PreFilter Hap name pl Hn Hpl) in Hp as ->. destruct (IsSuccess s1); [apply IH|].
    destruct (IsUnschedulable s1); by eexists.
Qed.

Lemma built_filters_return : others_return -> filters_return f.
Proof.
  intros Hor. split.
  - eapply runs_Forall; [exact (bu_Filter _ _ _ _ _ _ Hb)|]. intros name pl _ Hpl.
    destruct (decide (name = Hicev1_Name)) as [-> |H1].
    { rewrite (kh_Filter1 _ Hk) in Hpl. injection Hpl as <-. exact (Forall_inv (fr_filter _ (hice_filters_return snap))). }
    destruct (decide (name = Hicev2_Name)) as [-> |H2]; [|by eapply (or_Filter Hor)].
    rewrite (kh_Filter2 _ Hk) in Hpl. injection Hpl as <-. exact (Forall_inv (Forall_inv_tail (fr_filter _ (hice_filters_return snap)))).
  - eapply runs_Forall; [exact (bu_PreFilter _ _ _ _ _ _ Hb)|]. intros name pl _ Hpl e He.
    destruct (decide (name = Hicev1_Name)) as [-> |H1]; [|by eapply (or_PreFilter Hor)].
    rewrite (kh_PreFilter1 _ Hk) in Hpl. injection Hpl as <-. done.
Qed.

Lemma built_scores_return : others_return -> scores_return f.
Proof.
  intros Hor. split.
  - eapply runs_Forall; [exact (bu_PreScore _ _ _ _ _ _ Hb)|]. intros name pl _ Hpl. by eapply (or_PreScore Hor).
  - eapply runs_Forall; [exact (bu_Score _ _ _ _ _ _ Hb)|]. intros name pl _ Hpl.
    destruct (decide (name = Hicev2_Name)) as [-> |H2]; [|by eapply (or_Score Hor)].
    rewrite (kh_Score2 _ Hk) in Hpl. injection Hpl as <-. exact (Forall_inv (sr_score _ (hice_scores_return snap))).
  - eapply runs_Forall; [exact (bu_Score _ _ _ _ _ _ Hb)|]. intros name pl _ Hpl.
    destruct (decide (name = Hicev2_Name)) as [-> |H2]; [|by eapply (or_Score Hor)].
    rewrite (kh_Score2 _ Hk) in Hpl. by injection Hpl as <-.
Qed.
End built.

(** C1. The README's configuration, with a registry whose plugins Hicev1 and
    Hicev2 are KubeHICE's and whose other plugins are any that leave etcd and
    Hicev1's entries of the cycle's state alone, gives a framework whose cycles
    are right about heterogeneity.  With the image list in etcd and the calls
    to it working, a cycle without extenders that suggests a host, whatever the
    other plugins do, suggests a node of the cluster as the cache holds it now
    on which: every container of the pod has an image for the node's
    architecture; one more pod is allowed; the CPU of the pods there, converted
    to the node's performance for the pods of this scheduler that are not
    annotated, and the converted request of the pod add up to at most the
    allocatable CPU; and the memory and the ephemeral storage that the pod
    asks for are free (amounts below 2^62, and a resource that is not asked for
    is not checked).  The state of the cycle keeps the image list for the
    binding.  And the cycle returns if the other plugins do. *)
Theorem hice_Schedule name snap c npm pod prefer draw g store data existed :
  NoDup (map pc_Name cfgs) ->
  (forall plugin fac, needed readme_plugins plugin -> r !! plugin = Some fac -> exists p, fac (given cfgs plugin) = inl p) ->
  registered r cfgs readme_plugins -> kubehice snap -> apart ->
  system c (nodeInfoSnapshot g) -> room c -> Z.of_nat (length (all_nodes (c_nodeTree c))) * 100 <= MaxInt32 ->
  dial_error = None -> get_error images_key = None -> get_error unavailable_key = None ->
  store !! images_key = Some data -> listed (default ""%string (store !! unavailable_key)) = Some existed ->
  Containers (Spec pod) <> [] ->
  exists b ev, NewFramework r (Some (mkProfile name (Some readme_plugins) cfgs)) false [] = inl (b, ev) /\
    (forall g' store' state' w' res,
      Schedule (framework_of b) prefer draw c g [] npm store NewCycleState pod = Ret (g', store', state', w', inl res) ->
      prefiltered data pod state' /\ (forall k, k <> unavailable_key -> store' !! k = store !! k) /\
      exists ni nd, live_info c (SuggestedHost res) = Some ni /\ ni_node ni = Some nd /\
        Forall (has_arch data (node_arch nd)) (Containers (Spec pod)) /\ (moderate pod ni nd -> has_room pod ni nd)) /\
    (others_return -> exists res, Schedule (framework_of b) prefer draw c g [] npm store NewCycleState pod = Ret res).
Proof.
  intros Hc Hf Hr Hk Hap Hsys Hroom Hn Hd Hg1 Hg2 Hdata Hl Hcs.
  destruct (readme_names r cfgs Hc Hf Hr) as (qs & f & Hb & _).
  destruct (proj2 (NewFramework_spec r (mkProfile name (Some readme_plugins) cfgs) readme_plugins false [] qs f eq_refl) Hb)
    as (b & ev & HN & _ & _ & Hbf). exists b, ev. split; [done|]. rewrite Hbf.
  pose proof (readme_configured r cfgs qs f Hr Hb) as Hconf.
  assert (HasFilterPlugins f = true) as Hfp.
  { destruct (built_filters f qs snap Hb Hk) as [Hf1 _]. unfold HasFilterPlugins. destruct (filterPlugins EtcdStore f); [|reflexivity].
    exfalso. revert Hf1. apply not_elem_of_nil. }
  split.
  - intros g' store' state' w' res HS.
    destruct (Schedule_sound f c npm pod _ prefer draw g store NewCycleState g' store' state' w' res Hsys Hroom Hn Hfp Hconf HS)
      as (st1 & s & nd & Hpre & Hs & Hfits & Hname & Hkeep).
    destruct (built_prefiltered f qs snap Hb Hk store NewCycleState pod data existed store' st1 s Hap Hd Hg1 Hg2 Hdata Hl Hcs Hpre Hs)
      as [Hpf Hst].
    split_and!; [apply (Hkeep _ (built_prescore_keeps f qs Hb data pod Hap) Hpf)|done|].
    destruct (fits_admitted f c npm pod st1 nd Hfits) as (ni & st & Hlive & Hnode & Hst1 & Hadm).
    assert (prefiltered data pod st) as Hpf' by (unfold prefiltered; by rewrite Hst1).
    destruct (built_admits f qs snap Hb Hk st pod ni data nd Hpf' Hnode Hadm) as [Harch HF].
    rewrite <- Hname. exists ni, nd. split_and!; [done|done|done|]. by eapply Filter_has_room.
  - intros Hor. destruct (built_prefilter_ret f qs snap Hb Hk store NewCycleState pod data existed Hap Hor Hd Hg1 Hg2 Hdata Hl Hcs) as [[[x' st'] s] Hpre].
    destruct (Schedule_spec f c npm pod _ prefer draw g store x' NewCycleState st' s Hsys Hroom Hn Hfp
      (built_filters_return f qs snap Hb Hk Hor) (built_scores_return f qs snap Hb Hk Hor) Hconf Hpre)
      as (g' & x'' & st'' & w' & res & HS & _). by eexists.
Qed.
End cycle.

(** ** Witness

    The default plugins agree to everything; three nodes, two architectures. *)

Definition kubehice_plugin (snap : Snapshot) (name : string) : AnyPlugin EtcdStore :=
  let p := agreeable EtcdStore name in
  if decide (name = Hicev1_Name) then
    {| any_Name := name; any_EventsToRegister := any_EventsToRegister p; as_QueueSort := as_QueueSort p;
       as_PreFilter := Some (@hicev1_PreFilterPlugin etcd_ok); as_Filter := Some hicev1_FilterPlugin;
       as_PostFilter := as_PostFilter p; as_PreScore := as_PreScore p; as_Score := as_Score p; as_Reserve := as_Reserve p;
       as_Permit := as_Permit p; as_PreBind := as_PreBind p; as_Bind := as_Bind p; as_PostBind := as_PostBind p |}
  else if decide (name = Hicev2_Name) then
    {| any_Name := name; any_EventsToRegister := any_EventsToRegister p; as_QueueSort := as_QueueSort p;
       as_PreFilter := as_PreFilter p; as_Filter := Some (@hicev2_FilterPlugin amd64 gates_default);
       as_PostFilter := as_PostFilter p; as_PreScore := as_PreScore p; as_Score := Some (@hicev2_ScorePlugin amd64 snap);
       as_Reserve := as_Reserve p; as_Permit := as_Permit p; as_PreBind := as_PreBind p;
       as_Bind := Some (@hicev2_BindPlugin amd64 etcd_ok sample_codec snap); as_PostBind := as_PostBind p |}
  else p.

Definition cluster_snapshot : Snapshot := (@UpdateSnapshot range_id (hice_cluster (edge_nodes "0.5")) NewEmptySnapshot).1.

Definition kubehice_registry : Registry EtcdStore unit := registry_of (kubehice_plugin cluster_snapshot).

Lemma kubehice_registered : registered kubehice_registry [] readme_plugins.
Proof.
  split; (apply registry_serves; [intros n; unfold kubehice_plugin|vm_compute; reflexivity]);
    (destruct (decide (n = Hicev1_Name)) as [-> |]; [eexists; split; reflexivity|]);
    (destruct (decide (n = Hicev2_Name)) as [-> |]; eexists; split; reflexivity).
Qed.

Lemma kubehice_made n : n ∈ in_tree_names -> made kubehice_registry [] n = Some (kubehice_plugin cluster_snapshot n).
Proof. apply registry_made. Qed.

Lemma kubehice_kubehice : @kubehice amd64 gates_default etcd_ok unit kubehice_registry [] cluster_snapshot.
Proof.
  assert (Hicev1_Name ∈ in_tree_names /\ Hicev2_Name ∈ in_tree_names) as [H1 H2] by (split; apply (bool_decide_unpack _); by vm_compute).
  split; rewrite kubehice_made by assumption; reflexivity.
Qed.

(** Apart from the methods of KubeHICE the plugins are agreeable. *)
Lemma kubehice_sel {I} (sel : AnyPlugin EtcdStore -> option I) name i :
  (name = Hicev1_Name -> sel (kubehice_plugin cluster_snapshot name) = sel (agreeable EtcdStore name)) ->
  (name = Hicev2_Name -> sel (kubehice_plugin cluster_snapshot name) = sel (agreeable EtcdStore name)) ->
  made kubehice_registry [] name ≫= sel = Some i -> sel (agreeable EtcdStore name) = Some i.
Proof.
  intros H1 H2. destruct (made kubehice_registry [] name) as [p|] eqn:Hm; [|discriminate]. apply registry_made_inv in Hm as ->.
  cbn [mbind option_bind]. intros <-. destruct (decide (name = Hicev1_Name)) as [E|N1]; [symmetry; exact (H1 E)|].
  destruct (decide (name = Hicev2_Name)) as [E|N2]; [symmetry; exact (H2 E)|]. unfold kubehice_plugin.
  destruct (decide (name = Hicev1_Name)); [contradiction|]. destruct (decide (name = Hicev2_Name)); [contradiction|reflexivity].
Qed.

Lemma kubehice_apart : @apart unit kubehice_registry [].
Proof.
  split.
  - intros name pl Hn Hpl%kubehice_sel; [|contradiction|intros ->; reflexivity]. injection Hpl as <-.
    intros x st pod x' st' s [= <- _ _]. reflexivity.
  - intros name pl Hpl%kubehice_sel; [|intros ->; reflexivity..]. injection Hpl as <-.
    intros st pod ns st' s [= <- _]. split; reflexivity.
Qed.

Lemma kubehice_returns : @others_return unit kubehice_registry [].
Proof.
  split.
  - intros name pl Hn Hpl%kubehice_sel; [|contradiction|intros ->; reflexivity]. injection Hpl as <-.
    split; [intros; eexists; reflexivity|intros e [=]].
  - intros name pl H1 H2 Hpl%kubehice_sel; [|contradiction|contradiction]. injection Hpl as <-. intros. eexists. reflexivity.
  - intros name pl Hpl%kubehice_sel; [|intros ->; reflexivity..]. injection Hpl as <-. intros. eexists. reflexivity.
  - intros name pl Hn Hpl%kubehice_sel; [|intros ->; reflexivity|contradiction]. injection Hpl as <-.
    split; [intros; eexists; reflexivity|intros norm [=]].
Qed.

Definition readme_profile : KubeSchedulerProfile unit := mkProfile "kubehice-scheduler" (Some readme_plugins) [].

(** The host that the README's scheduler suggests. *)
Example readme_host :
  match @NewFramework EtcdStore unit range_id kubehice_registry (Some readme_profile) false [] with
  | inl (b, _) =>
      match @Schedule amd64 gates_default range_id in_order EtcdStore (framework_of b) false (fun _ _ => 0)
          (hice_cluster (edge_nodes "0.5")) first_cycle [] no_nominations sample_store NewCycleState (perf_pod "u1" "1.0" 500) with
      | Ret (_, _, _, _, inl res) => Some (SuggestedHost res)
      | _ => None
      end
  | inr _ => None
  end = Some "cloud"%string.
Proof. vm_compute. reflexivity. Qed.

Lemma hice_Schedule_witness :
  exists b ev, @NewFramework EtcdStore unit range_id kubehice_registry (Some readme_profile) false [] = inl (b, ev) /\
    exists g' store' state' w' res,
      @Schedule amd64 gates_default range_id in_order EtcdStore (framework_of b) false (fun _ _ => 0)
        (hice_cluster (edge_nodes "0.5")) first_cycle [] no_nominations sample_store NewCycleState (perf_pod "u1" "1.0" 500)
        = Ret (g', store', state', w', res).
Proof.
  destruct (@hice_Schedule amd64 gates_default etcd_ok sample_codec range_id in_order unit kubehice_registry []
    "kubehice-scheduler" cluster_snapshot (hice_cluster (edge_nodes "0.5")) no_nominations (perf_pod "u1" "1.0" 500) false
    (fun _ _ => 0) first_cycle sample_store sample_images []) as (b & ev & HN & _ & Hret).
  - apply NoDup_nil_2.
  - intros plugin fac. apply registry_factories.
  - exact kubehice_registered.
  - exact kubehice_kubehice.
  - exact kubehice_apart.
  - exact cluster_system.
  - exact cluster_room.
  - vm_compute. discriminate.
  - reflexivity.
  - reflexivity.
  - reflexivity.
  - reflexivity.
  - reflexivity.
  - discriminate.
  - exists b, ev. split; [exact HN|]. destruct (Hret kubehice_returns) as [[[[[g' store'] state'] w'] res] HS].
    exists g', store', state', w', res. exact HS.
Defined.
