(* ===== verification/EventProofs.v ===== *)
(** * What the event handlers keep

    The screen that an event on a node applies agrees with the filters of
    Kubernetes, but not with those of KubeHICE; and an event on a pod leaves
    the pod where it belongs, in the cache or in the queue, in whichever order
    the two handlers see it. *)

From S2P Require Import Prelude GoInt GoFloat GoStrconv Quantity ApiTypes Labels NodeAffinity AffinityTerms Resource HostPorts NodeInfo Json Framework Snapshot NodeTree Cache CacheProofs NodeResourcesFit Hicev1 Hicev2 Hicev2Proofs HeapList Heap HeapProofs SchedulingQueue QueueProofs QueueRefine Runtime NodePlugins GenericScheduler HiceProfile Scheduler EventHandlers Samples.

Open Scope go_scope.

Section event_proofs.
Context {arch : GoArch} {gates : FeatureGates} {mr : MapRange} {Ext : Type}.

(** ** The screen *)

(** The state after the PreFilter calls of the plugins that have one. *)
Definition default_state (cs : CycleState) (pod : Pod) : CycleState :=
  (NodePorts_PreFilter (NodeAffinity_PreFilter (Fit_PreFilter (mkFit ∅ ∅ PodOverhead) cs pod).1 pod).1 pod).1.

(** C35. The screen that [preCheckForNode] applies before an event on a node
    moves a pod computes, for that node, what five filters of the default
    profile compute: a pod passes exactly when NodeResourcesFit, NodeAffinity,
    NodeName, NodePorts and TaintToleration, after their PreFilter calls, all
    admit it.  The other filters of the default profile (NodeUnschedulable, the
    volume filters, PodTopologySpread and InterPodAffinity) take no part in
    the screen. *)
Theorem preCheck_agrees cs pod nodeInfo node :
  ni_node nodeInfo = Some node ->
  let st := default_state cs pod in
  preCheckForNode nodeInfo node pod = true <->
    Fit_Filter (mkFit ∅ ∅ PodOverhead) st nodeInfo = None /\
    NodeAffinity_Filter (mkNodeAffinityPlugin None None) st pod nodeInfo = None /\
    NodeName_Filter pod nodeInfo = None /\
    NodePorts_Filter st nodeInfo = None /\
    TaintToleration_Filter pod nodeInfo = None.
Proof.
  intros Hn. cbv zeta.
  assert (fit_getPreFilterState (default_state cs pod) = inl (fit_computePodResourceRequest pod PodOverhead)) as Efit.
  { unfold fit_getPreFilterState, default_state, CS_Read. cbn. by rewrite !lookup_insert_ne, lookup_insert_eq by done. }
  assert (NodeAffinity_required (default_state cs pod) pod = GetRequiredNodeAffinity pod) as Ena.
  { unfold NodeAffinity_required, default_state, CS_Read. cbn. by rewrite lookup_insert_ne, lookup_insert_eq by done. }
  assert (NodePorts_getPreFilterState (default_state cs pod) = inl (getContainerPorts [pod])) as Enp.
  { unfold NodePorts_getPreFilterState, default_state, CS_Read. cbn [NodePorts_PreFilter fst storage CS_Write].
    by rewrite lookup_insert_eq. }
  unfold preCheckForNode, Fit_Filter, NodeAffinity_Filter, NodeName_Filter, NodePorts_Filter, TaintToleration_Filter,
    nodeports_Fits, Fits.
  rewrite Hn, Efit, Ena, Enp. cbn [ignoredResources ignoredResourceGroups addedNodeSelector].
  destruct (NodeResourcesFit.fitsRequest _ _ _ _); cbn [length Nat.eqb negb insufficient_status]; [|naive_solver].
  destruct (RNA_Match _ _).1; cbn [negb]; [|naive_solver].
  destruct (nodename_Fits pod node); cbn [negb]; [|naive_solver].
  destruct (fitsPorts _ _); cbn [negb]; [|naive_solver].
  destruct (FindMatchingUntoleratedTaint _ _ _); naive_solver.
Qed.

(** ** Events on pods *)

Context (cfg : QueueConfig) `{!LessOrder (lessFn cfg)}.
Context (Profiles : gmap string (frameworkImpl Ext)) (DeepEqual : Pod -> Pod -> bool).

(** The same pods wait, and those in the active queue stay there. *)
Definition same_waiting (q q' : PriorityQueue) : Prop :=
  qinv cfg q' /\ forall j, valid_id j ->
    snd <$> find q' j = snd <$> find q j /\ (forall p, find q j = Some (Active, p) -> find q' j = Some (Active, p)).

Lemma same_waiting_Some q q' j : same_waiting q q' -> valid_id j -> is_Some (find q' j) <-> is_Some (find q j).
Proof. intros [_ H] Hj. rewrite <- (fmap_is_Some snd (find q' j)), (proj1 (H j Hj)). apply fmap_is_Some. Qed.

Lemma same_waiting_pod q q' j pl pi :
  same_waiting q q' -> valid_id j -> find q j = Some (pl, pi) -> exists pl', find q' j = Some (pl', pi).
Proof.
  intros [_ H] Hj Hf. destruct (H j Hj) as [H1 _]. rewrite Hf in H1. destruct (find q' j) as [[pl' pi']|]; [|done].
  injection H1 as ->. by exists pl'.
Qed.

Lemma same_waiting_None q q' j : same_waiting q q' -> valid_id j -> find q j = None -> find q' j = None.
Proof. intros Hs Hj Hn. apply eq_None_not_Some. rewrite (same_waiting_Some q q' j Hs Hj), Hn. by intros [? ?]. Qed.

Lemma same_waiting_refl q : qinv cfg q -> same_waiting q q.
Proof. by split. Qed.

Lemma same_waiting_trans q1 q2 q3 : same_waiting q1 q2 -> same_waiting q2 q3 -> same_waiting q1 q3.
Proof.
  intros [_ H1] [Hq H2]. split; [done|]. intros j Hj. destruct (H1 j Hj) as [E1 A1], (H2 j Hj) as [E2 A2].
  split; [congruence|auto].
Qed.

Lemma movePods_same now event chosen q :
  qinv cfg q -> same_waiting q (movePodsToActiveOrBackoffQueue cfg now (List.filter chosen (u_range 0 q)) event q).
Proof.
  intros Hq. destruct (movePods_ok cfg now event chosen q Hq) as ([Hq' Hf] & _ & _). split; [done|].
  intros j Hj. rewrite Hf by done. destruct (find q j) as [[pl p]|]; simpl; [|done]. split; [|by intros ? [= -> ->]].
  f_equal. destruct pl; try done. by destruct (_ && _).
Qed.

(** The cache has the pod, confirmed. *)
Definition confirmed (c : schedulerCache) (pod : Pod) : Prop :=
  is_Some (podStates c !! UID pod) /\ UID pod ∉ assumedPods c.

Lemma cache_AddPod_confirmed pod c : cache_inv c -> UID pod <> ""%string ->
  exists c' e, cache_AddPod pod c = Ret (c', e) /\ cache_inv c' /\ confirmed c' pod /\
    forall k, k <> UID pod -> podStates c' !! k = podStates c !! k.
Proof.
  intros Hc Hu. destruct (cache_AddPod_inv pod c Hc) as (c' & e & Hr & Hc'). exists c', e. split; [done|]. split; [done|].
  unfold cache_AddPod in Hr. rewrite (GetPodKey_ok pod Hu) in Hr. unfold confirmed.
  destruct (podStates c !! UID pod) as [ps|] eqn:Es.
  - case_bool_decide as Ha.
    + destruct (if negb _ then _ else _) as [c1|] eqn:E1; [|done]. cbn [obind] in Hr. injection Hr as <- <-.
      assert (podStates c1 = podStates c) as Hs1.
      { destruct (negb _); [|by injection E1 as <-]. destruct (ci_keys c Hc _ _ Es) as [Hk _].
        destruct (pod_on_node c _ _ Hc Es) as (_ & _ & Hin). rewrite <- Hk in Hin.
        destruct (removePod_found (ps_pod ps) c (ci_nodes c Hc)) as (c2 & Hr2 & _ & [Hsame _] & _);
          [by rewrite Hk|by rewrite Hk in *|].
        rewrite Hr2 in E1. cbn [obind fst] in E1. injection E1 as <-. by destruct (addPod_same pod c2) as [-> _]. }
      cbn [podStates assumedPods with_pods]. split; [split; [|set_solver]|].
      * rewrite lookup_alter_eq, Hs1, Es. by eexists.
      * intros k Hk. by rewrite lookup_alter_ne, Hs1.
    + injection Hr as <- <-. rewrite Es. split; [|done]. split; [by eexists|done].
  - injection Hr as <- <-. destruct (addPod_same pod c) as [Eps E]. split; [split|].
    { cbn [podStates with_pods]; rewrite lookup_insert_eq; by eexists. }
    2: { intros k Hk. cbn [podStates with_pods]. rewrite lookup_insert_ne by done. exact (f_equal (lookup k) Eps). }
     intros Hin. change (UID pod ∈ assumedPods (addPod pod c)) in Hin. rewrite E in Hin. apply (ci_assumed c Hc) in Hin. rewrite Es in Hin. by destruct Hin.
Qed.

(** The event is about the node on which the cache has the pod. *)
Definition placed (c : schedulerCache) (pod : Pod) : Prop :=
  forall ps, podStates c !! UID pod = Some ps -> UID pod ∉ assumedPods c ->
    NodeName (Spec (ps_pod ps)) = NodeName (Spec pod).

Lemma UpdatePod_confirmed old new c :
  cache_inv c -> update_event old new -> placed c old -> UID old <> ""%string ->
  exists c' e, UpdatePod old new c = Ret (c', e) /\ cache_inv c' /\
    (confirmed c old -> e = None /\ confirmed c' new /\ ps_pod <$> podStates c' !! UID new = Some new).
Proof.
  intros Hc [Hu Hn] Hp Hne. unfold UpdatePod. rewrite (GetPodKey_ok old Hne). unfold confirmed.
  destruct (podStates c !! UID old) as [ps|] eqn:Es; [|do 2 eexists; split_and!; [done|done|]; intros [[? ?] _]; done].
  case_bool_decide as Ha; [do 2 eexists; split_and!; [done|done|]; by intros [_ ?]|].
  pose proof (Hp ps Es Ha) as Hps. rewrite Hn, Hps, String.eqb_refl. cbn [negb].
  destruct (replace_pod_inv old new ps (mkPodState new (ps_deadline ps) (ps_bindingFinished ps))
    (assumedPods c) c) as (c' & Hr & [H1 H2] & Hi); try done; [by left|].
  unfold Cache.updatePod. rewrite Hr. cbn [obind].
  destruct (addPod_same new c') as [-> ->]. rewrite H1, H2, (alter_insert _ _ _ _ Es).
  do 2 eexists. split_and!; [done|done|]. intros _. split; [done|]. rewrite Hu. cbn [podStates assumedPods with_pods].
  rewrite lookup_insert_eq. by split.
Qed.

Lemma RemovePod_gone pod c :
  cache_inv c -> placed c pod -> UID pod <> ""%string ->
  exists c' e, cache_RemovePod pod c = Ret (c', e) /\ cache_inv c' /\
    (confirmed c pod -> e = None /\ podStates c' !! UID pod = None).
Proof.
  intros Hc Hp Hne. unfold cache_RemovePod. rewrite (GetPodKey_ok pod Hne). unfold confirmed.
  destruct (podStates c !! UID pod) as [ps|] eqn:Es; [|do 2 eexists; split_and!; [done|done|]; intros [[? ?] _]; done].
  case_bool_decide as Ha; [do 2 eexists; split_and!; [done|done|]; by intros [_ ?]|].
  pose proof (Hp ps Es Ha) as Hps. rewrite Hps, String.eqb_refl. cbn [negb].
  destruct (ci_keys c Hc _ _ Es) as [Hu _].
  destruct (drop_pod_inv (ps_pod ps) ps (assumedPods c) c Hc) as (c' & -> & [H1 H2] & Hi);
    [by rewrite Hu|done|by left|by rewrite Hu|].
  cbn [obind]. rewrite H1, H2. rewrite Hu in Hi. do 2 eexists. split_and!; [done|done|]. intros _. split; [done|].
  cbn [podStates with_pods]. by rewrite lookup_delete_eq.
Qed.

(** What an informer can report: objects of the API, whose name does not change
    between the two objects of an update; a cache that has pods where they
    are; and, if the update is of one and the same pod, a scheduler and a node
    that do not change once they are set.  An update may also be a deletion
    and an addition that the informer has merged: then the objects are two
    pods, of different UIDs, and have nothing but their name in common. *)
Definition pod_ok (p : Pod) : Prop := valid_pod p /\ UID p <> ""%string.

Definition event_ok (c : schedulerCache) (e : event Pod) : Prop :=
  match e with
  | Added p => pod_ok p
  | Updated o n => pod_ok o /\ pod_ok n /\ pid o = pid n /\ (assignedPod o = true -> placed c o) /\
      (UID o = UID n -> SchedulerName (Spec o) = SchedulerName (Spec n) /\ (assignedPod o = true -> update_event o n))
  | Deleted p => pod_ok p /\ (assignedPod p = true -> placed c p)
  end.

(** The pod that an event leaves. *)
Definition event_pod (e : event Pod) : Pod :=
  match e with Added p => p | Updated _ n => n | Deleted p => p end.

(** What the cache has of the pods of the event afterwards. *)
Definition cached (c c' : schedulerCache) (e : event Pod) : Prop :=
  match e with
  | Added p => assignedPod p = true -> confirmed c' p
  | Updated o n =>
      if decide (UID o = UID n) then
        if assignedPod o then confirmed c o -> confirmed c' n /\ ps_pod <$> podStates c' !! UID n = Some n
        else assignedPod n = true -> confirmed c' n
      else
        (assignedPod o = true -> confirmed c o -> podStates c' !! UID o = None) /\
        (assignedPod n = true -> confirmed c' n)
  | Deleted p => assignedPod p = true -> confirmed c p -> podStates c' !! UID p = None
  end.

(** The pods that are to wait: without a node, and for a profile. *)
Definition waits (p : Pod) : bool := negb (assignedPod p) && responsibleForPod Profiles p.

(** Where the pod of the event waits afterwards. *)
Definition queued (c : schedulerCache) (q q' : PriorityQueue) (e : event Pod) : Prop :=
  match e with
  | Added p =>
      if waits p then exists pi, find q' (pid p) = Some (Active, pi) /\ qpi_Pod pi = p
      else is_Some (find q' (pid p)) <-> is_Some (find q (pid p))
  | Updated o n =>
      if waits n then
        if waits o then
          if negb (String.eqb (ResourceVersion o) (ResourceVersion n)) && negb (IsAssumedPod n c).1
          then exists pl pi, find q' (pid n) = Some (pl, pi) /\ qpi_Pod pi = n
          else is_Some (find q' (pid n)) <-> is_Some (find q (pid n))
        else exists pi, find q' (pid n) = Some (Active, pi) /\ qpi_Pod pi = n
      else if waits o then find q' (pid n) = None
      else is_Some (find q' (pid n)) <-> is_Some (find q (pid n))
  | Deleted p => if waits p then find q' (pid p) = None else is_Some (find q' (pid p)) <-> is_Some (find q (pid p))
  end.

(** The cache's handler changes the cache, and moves pods within the queue. *)
Definition cache_part (s s' : Scheduler (Ext := Ext)) (e : event Pod) : Prop :=
  cache_inv (SchedulerCache s') /\ same_waiting (SchedulingQueue s) (SchedulingQueue s') /\
  cached (SchedulerCache s) (SchedulerCache s') e /\
  (assignedPod (event_pod e) = false -> match e with Updated o _ => assignedPod o = false | _ => True end ->
     SchedulerCache s' = SchedulerCache s).

Lemma addPodToCache_part now p (s : Scheduler (Ext := Ext)) :
  cache_inv (SchedulerCache s) -> qinv cfg (SchedulingQueue s) -> UID p <> ""%string ->
  exists s', addPodToCache cfg now p s = Ret s' /\ cache_inv (SchedulerCache s') /\
    same_waiting (SchedulingQueue s) (SchedulingQueue s') /\ confirmed (SchedulerCache s') p /\
    forall k, k <> UID p -> podStates (SchedulerCache s') !! k = podStates (SchedulerCache s) !! k.
Proof.
  intros Hc Hq Hu. unfold addPodToCache.
  destruct (cache_AddPod_confirmed p _ Hc Hu) as (c' & e & -> & Hc' & Hcf & Hk). cbn [obind fst].
  eexists. split; [done|]. cbn [SchedulerCache SchedulingQueue set_queue set_cache].
  split_and!; [done|by apply movePods_same|done|done].
Qed.

Lemma deletePodFromCache_part now p (s : Scheduler (Ext := Ext)) :
  cache_inv (SchedulerCache s) -> qinv cfg (SchedulingQueue s) -> placed (SchedulerCache s) p -> UID p <> ""%string ->
  exists s', deletePodFromCache cfg now p s = Ret s' /\ cache_inv (SchedulerCache s') /\
    same_waiting (SchedulingQueue s) (SchedulingQueue s') /\
    (confirmed (SchedulerCache s) p -> podStates (SchedulerCache s') !! UID p = None).
Proof.
  intros Hc Hq Hp Hu. unfold deletePodFromCache.
  destruct (RemovePod_gone p _ Hc Hp Hu) as (c' & e & -> & Hc' & Hg). cbn [obind fst].
  eexists. split; [done|]. cbn [SchedulerCache SchedulingQueue set_queue set_cache].
  split_and!; [done|by apply (movePods_same now AssignedPodDelete (fun _ => true))|]. intros Hcc. by apply Hg.
Qed.

Lemma assigned_after o n : update_event o n -> assignedPod n = assignedPod o.
Proof. intros [_ H]. unfold assignedPod. by rewrite H. Qed.

(** An update of a pod, and one that is a deletion and an addition. *)
Lemma updatePodInCache_part now o n (s : Scheduler (Ext := Ext)) :
  cache_inv (SchedulerCache s) -> qinv cfg (SchedulingQueue s) -> event_ok (SchedulerCache s) (Updated o n) ->
  assignedPod o = true -> assignedPod n = true ->
  exists s', updatePodInCache cfg now o n s = Ret s' /\ cache_inv (SchedulerCache s') /\
    same_waiting (SchedulingQueue s) (SchedulingQueue s') /\ cached (SchedulerCache s) (SchedulerCache s') (Updated o n).
Proof.
  intros Hc Hq (Ho & Hn & Hpid & Hpl & Hsame) Eo En. specialize (Hpl Eo). unfold updatePodInCache, cached. rewrite Eo.
  destruct (decide (UID o = UID n)) as [Huid|Huid].
  - rewrite (proj2 (String.eqb_eq _ _) Huid). cbn [negb]. destruct (Hsame Huid) as [_ Hev].
    destruct (UpdatePod_confirmed o n _ Hc (Hev Eo) Hpl ltac:(apply Ho)) as (c' & e & -> & Hc' & Hcf). cbn [obind fst].
    eexists. split; [done|]. cbn [SchedulerCache SchedulingQueue set_queue set_cache].
    split_and!; [done|by apply movePods_same|]. intros Hcc. by apply Hcf.
  - rewrite (proj2 (String.eqb_neq _ _) Huid). cbn [negb].
    destruct (deletePodFromCache_part now o s Hc Hq Hpl ltac:(apply Ho)) as (s1 & -> & Hc1 & Hw1 & Hg1). cbn [obind].
    destruct (addPodToCache_part now n s1 Hc1 (proj1 Hw1) ltac:(apply Hn)) as (s2 & -> & Hc2 & Hw2 & Hcf2 & Hk2).
    exists s2. split_and!; [done|done|by eapply same_waiting_trans| |done].
    intros _ Hcc. rewrite Hk2 by done. by apply Hg1.
Qed.

Lemma cache_handler_part now e (s : Scheduler (Ext := Ext)) :
  cache_inv (SchedulerCache s) -> qinv cfg (SchedulingQueue s) -> event_ok (SchedulerCache s) e ->
  exists s', cache_handler cfg now e s = Ret s' /\ cache_part s s' e.
Proof.
  intros Hc Hq Hok. unfold cache_handler, filtering, cache_part.
  pose proof (same_waiting_refl _ Hq) as Hrefl. pose proof Hok as Hok0.
  destruct e as [p|o n|p]; cbn [event_ok event_pod] in Hok |- *.
  - unfold cached. destruct (assignedPod p); cbn [negb]; [|exists s; by split_and!].
    destruct (addPodToCache_part now p s Hc Hq ltac:(apply Hok)) as (s' & -> & H1 & H2 & H3 & _). exists s'. by split_and!.
  - destruct (assignedPod o) eqn:Eo, (assignedPod n) eqn:En; cbn [andb negb].
    + destruct (updatePodInCache_part now o n s Hc Hq Hok0 Eo En) as (s' & -> & H1 & H2 & H3). exists s'. by split_and!.
    + destruct Hok as (Ho & Hn & Hpid & Hpl & Hsame). assert (UID o <> UID n) as Hne.
      { intros Hu. destruct (Hsame Hu) as [_ Hev]. rewrite (assigned_after o n) in En by auto. congruence. }
      destruct (deletePodFromCache_part now o s Hc Hq (Hpl eq_refl) ltac:(apply Ho)) as (s' & -> & H1 & H2 & H3).
      exists s'. unfold cached. rewrite decide_False, En by done. by split_and!.
    + destruct Hok as (Ho & Hn & _). destruct (addPodToCache_part now n s Hc Hq ltac:(apply Hn)) as (s' & -> & H1 & H2 & H3 & _).
      exists s'. unfold cached. rewrite Eo. split_and!; [done|done|done| |done]. by case_decide.
    + exists s. unfold cached. rewrite Eo, En. split_and!; try done. by case_decide.
  - unfold cached. destruct Hok as [Hp Hpl]. destruct (assignedPod p); cbn [negb]; [|exists s; by split_and!].
    destruct (deletePodFromCache_part now p s Hc Hq (Hpl eq_refl) ltac:(apply Hp)) as (s' & -> & H1 & H2 & H3). exists s'. by split_and!.
Qed.

(** The queue's handler changes the queue only, and in it only the pod of the
    event. *)
Definition queue_part (s s' : Scheduler (Ext := Ext)) (e : event Pod) : Prop :=
  SchedulerCache s' = SchedulerCache s /\ qinv cfg (SchedulingQueue s') /\
  (forall j, valid_id j -> j <> pid (event_pod e) ->
    is_Some (find (SchedulingQueue s') j) <-> is_Some (find (SchedulingQueue s) j)) /\
  queued (SchedulerCache s) (SchedulingQueue s) (SchedulingQueue s') e.

Lemma deleteFromQueue_part p (s : Scheduler (Ext := Ext)) :
  qinv cfg (SchedulingQueue s) -> valid_pod p ->
  exists s', deletePodFromSchedulingQueue cfg Profiles p s = Ret s' /\ SchedulerCache s' = SchedulerCache s /\
    qinv cfg (SchedulingQueue s') /\ find (SchedulingQueue s') (pid p) = None /\
    forall j, valid_id j -> j <> pid p ->
      is_Some (find (SchedulingQueue s') j) <-> is_Some (find (SchedulingQueue s) j).
Proof.
  intros Hq Hv. unfold deletePodFromSchedulingQueue.
  destruct (Delete_ok cfg p _ Hq Hv) as (q' & -> & [Hq' Hf] & _). cbn [obind fst].
  assert (find q' (pid p) = None /\ forall j, valid_id j -> j <> pid p ->
    is_Some (find q' j) <-> is_Some (find (SchedulingQueue s) j)) as [H1 H2].
  { split; [|intros j Hj Hne]; rewrite Hf by done; unfold w_del; [by rewrite decide_True by done|by rewrite decide_False by done]. }
  destruct (Profiles !! _); eexists; (split; [done|]); by split_and!.
Qed.

Lemma addToQueue_part now p (s : Scheduler (Ext := Ext)) :
  qinv cfg (SchedulingQueue s) -> valid_pod p ->
  exists s', addPodToSchedulingQueue cfg now p s = Ret s' /\ SchedulerCache s' = SchedulerCache s /\
    qinv cfg (SchedulingQueue s') /\ (exists pi, find (SchedulingQueue s') (pid p) = Some (Active, pi) /\ qpi_Pod pi = p) /\
    forall j, valid_id j -> j <> pid p ->
      is_Some (find (SchedulingQueue s') j) <-> is_Some (find (SchedulingQueue s) j).
Proof.
  intros Hq Hv. unfold addPodToSchedulingQueue.
  destruct (Add_ok cfg now p _ Hq Hv) as (q' & -> & [Hq' Hf] & _). cbn [obind fst].
  eexists. split; [done|]. cbn [SchedulerCache SchedulingQueue set_queue]. split_and!; [done|done| |].
  - eexists. rewrite Hf by done. unfold w_put. rewrite decide_True by done. by split.
  - intros j Hj Hne. rewrite Hf by done. unfold w_put. by rewrite decide_False.
Qed.

Lemma update_entry_pod now o n e : qpi_Pod (update_entry cfg DeepEqual now o n e).2 = n.
Proof.
  unfold update_entry. destruct e as [[] p]; cbn [snd]; try apply renew_pod.
Qed.

Lemma updateInQueue_part now o n (s : Scheduler (Ext := Ext)) :
  qinv cfg (SchedulingQueue s) -> valid_pod n -> pid o = pid n ->
  exists s', updatePodInSchedulingQueue cfg DeepEqual now o n s = Ret s' /\ SchedulerCache s' = SchedulerCache s /\
    qinv cfg (SchedulingQueue s') /\
    (forall j, valid_id j -> j <> pid n ->
      is_Some (find (SchedulingQueue s') j) <-> is_Some (find (SchedulingQueue s) j)) /\
    if negb (String.eqb (ResourceVersion o) (ResourceVersion n)) && negb (IsAssumedPod n (SchedulerCache s)).1
    then exists pl pi, find (SchedulingQueue s') (pid n) = Some (pl, pi) /\ qpi_Pod pi = n else s' = s.
Proof.
  intros Hq Hv Hpid. unfold updatePodInSchedulingQueue.
  destruct (String.eqb _ _); cbn [negb andb]; [by exists s|].
  destruct (IsAssumedPod n (SchedulerCache s)).1; cbn [negb andb]; [by exists s|].
  destruct (Update_ok cfg DeepEqual now o n _ Hq Hv Hpid) as (q' & -> & _ & H). cbn [obind fst].
  eexists. split; [done|]. cbn [SchedulerCache SchedulingQueue set_queue].
  destruct (find (SchedulingQueue s) (pid n)) as [e|] eqn:Ef; destruct H as [[Hq' Hf] _]; split_and!; try done;
    try (intros j Hj Hne; rewrite Hf by done; unfold w_put; by rewrite decide_False).
  - destruct (update_entry cfg DeepEqual now o n e) as [pl pi] eqn:Eu. exists pl, pi.
    rewrite Hf by done. unfold w_put. rewrite decide_True by done. split; [done|].
    pose proof (update_entry_pod now o n e) as H. by rewrite Eu in H.
  - do 2 eexists. rewrite Hf by done. unfold w_put. rewrite decide_True by done. by split.
Qed.

Lemma queue_handler_part now e c (s : Scheduler (Ext := Ext)) :
  qinv cfg (SchedulingQueue s) -> event_ok c e ->
  exists s', queue_handler cfg Profiles DeepEqual now e s = Ret s' /\ queue_part s s' e.
Proof.
  intros Hq Hok. unfold queue_handler, filtering, queue_part, queued, waits.
  destruct e as [p|o n|p]; cbn [event_ok event_pod] in *.
  - destruct (negb (assignedPod p) && responsibleForPod Profiles p); cbn [negb]; [|exists s; by split_and!].
    destruct (addToQueue_part now p s Hq ltac:(apply Hok)) as (s' & -> & H1 & H2 & H3 & H4). exists s'. by split_and!.
  - destruct Hok as (Ho & Hn & Hpid & _).
    destruct (negb (assignedPod n) && responsibleForPod Profiles n), (negb (assignedPod o) && responsibleForPod Profiles o); cbn [negb andb].
    + destruct (updateInQueue_part now o n s Hq ltac:(apply Hn) Hpid) as (s' & -> & H1 & H2 & H3 & H4).
      exists s'. split_and!; [done|done|done|done|]. destruct (_ && _); [done|by subst s'].
    + destruct (addToQueue_part now n s Hq ltac:(apply Hn)) as (s' & -> & H1 & H2 & H3 & H4). exists s'. by split_and!.
    + destruct (deleteFromQueue_part o s Hq ltac:(apply Ho)) as (s' & -> & H1 & H2 & H3 & H4).
      rewrite Hpid in H3, H4. exists s'. by split_and!.
    + exists s. by split_and!.
  - destruct Hok as [Hp _]. destruct (negb (assignedPod p) && responsibleForPod Profiles p); cbn [negb]; [|exists s; by split_and!].
    destruct (deleteFromQueue_part p s Hq ltac:(apply Hp)) as (s' & -> & H1 & H2 & H3 & H4). exists s'. by split_and!.
Qed.

(** Both handlers, in one order or the other. *)
Definition deliver (cache_first : bool) (now : Z) (e : event Pod) (s : Scheduler (Ext := Ext)) : outcome (Scheduler (Ext := Ext)) :=
  if cache_first
  then let! s := cache_handler cfg now e s in queue_handler cfg Profiles DeepEqual now e s
  else let! s := queue_handler cfg Profiles DeepEqual now e s in cache_handler cfg now e s.

(** Moving pods within the queue after the queue's handler changes nothing of
    what it has done. *)
Lemma queued_after c q q1 q2 e :
  valid_id (pid (event_pod e)) -> same_waiting q1 q2 -> queued c q q1 e -> queued c q q2 e.
Proof.
  intros Hv Hs. pose proof (same_waiting_Some q1 q2 _ Hs Hv) as HS. pose proof (same_waiting_None q1 q2 _ Hs Hv) as HN.
  assert (forall p, (exists pi, find q1 (pid (event_pod e)) = Some (Active, pi) /\ qpi_Pod pi = p) ->
    exists pi, find q2 (pid (event_pod e)) = Some (Active, pi) /\ qpi_Pod pi = p) as HA.
  { intros p (pi & Hf & Hp). exists pi. split; [|done]. by apply (proj2 Hs). }
  assert (forall p, (exists pl pi, find q1 (pid (event_pod e)) = Some (pl, pi) /\ qpi_Pod pi = p) ->
    exists pl pi, find q2 (pid (event_pod e)) = Some (pl, pi) /\ qpi_Pod pi = p) as HP.
  { intros p (pl & pi & Hf & Hp). destruct (same_waiting_pod q1 q2 _ pl pi Hs Hv Hf) as [pl' Hf']. by exists pl', pi. }
  unfold queued. destruct e as [p|o n|p]; cbn [event_pod] in *; repeat case_match; try (by apply HA); try (by apply HP); try (by apply HN);
    by rewrite HS.
Qed.

Lemma queued_before c q q1 q2 e :
  valid_id (pid (event_pod e)) -> same_waiting q q1 -> queued c q1 q2 e -> queued c q q2 e.
Proof.
  intros Hv Hs. pose proof (same_waiting_Some q q1 _ Hs Hv) as HS.
  unfold queued. destruct e as [p|o n|p]; cbn [event_pod] in *; repeat case_match; try done; by rewrite HS.
Qed.

(** C20. An event on a pod leaves the pod where it belongs.  Whatever order the
    two handlers see the event in, both return and keep the invariants of the
    cache and of the queue, no other pod enters or leaves the queue, and: a
    pod that has a node is confirmed in the cache, in its new version if the
    cache had confirmed it; a pod without a node that names a profile waits, in
    its new version unless the object is the same or the pod is assumed; a pod
    that got its node, or was deleted, has left the queue, and a deleted one
    that was confirmed the cache.  An update may also replace a pod by another
    one of its name, when the informer merges a deletion and an addition: then
    the old pod is gone from the cache, whether or not the new one has a node
    or names a profile, and the new one is confirmed or waits in its place. *)
Theorem pod_event_routed cache_first now e (s : Scheduler (Ext := Ext)) :
  cache_inv (SchedulerCache s) -> qinv cfg (SchedulingQueue s) -> event_ok (SchedulerCache s) e ->
  exists s', deliver cache_first now e s = Ret s' /\
    cache_inv (SchedulerCache s') /\ qinv cfg (SchedulingQueue s') /\
    (forall j, valid_id j -> j <> pid (event_pod e) ->
      is_Some (find (SchedulingQueue s') j) <-> is_Some (find (SchedulingQueue s) j)) /\
    cached (SchedulerCache s) (SchedulerCache s') e /\
    queued (SchedulerCache s) (SchedulingQueue s) (SchedulingQueue s') e.
Proof.
  intros Hc Hq Hok. unfold deliver.
  assert (valid_id (pid (event_pod e))) as Hv.
  { destruct e; cbn [event_ok event_pod] in *; apply Hok. }
  destruct cache_first.
  - destruct (cache_handler_part now e s Hc Hq Hok) as (s1 & -> & Hc1 & Hw1 & He1 & Hs1). cbn [obind].
    destruct (queue_handler_part now e _ s1 (proj1 Hw1) Hok) as (s' & -> & Hcs & Hq' & Ho & He').
    exists s'. split; [done|]. rewrite Hcs. split_and!; [done|done| |done|].
    + intros j Hj Hne. by rewrite Ho, (same_waiting_Some _ _ j Hw1 Hj).
    + eapply queued_before; [done|exact Hw1|]. revert He'. unfold queued. destruct e as [p|o n|p]; try done.
      destruct (waits n) eqn:Wn, (waits o) eqn:Wo; try done. cbn [event_pod] in Hs1. unfold waits in Wn, Wo.
      apply andb_true_iff in Wn as [Wn _], Wo as [Wo _]. apply negb_true_iff in Wn, Wo. by rewrite (Hs1 Wn Wo).
  - destruct (queue_handler_part now e _ s Hq Hok) as (s1 & -> & Hcs & Hq1 & Ho & He1). cbn [obind].
    rewrite <- Hcs in Hc, Hok |- *.
    destruct (cache_handler_part now e s1 Hc Hq1 Hok) as (s' & -> & Hc' & Hw' & He' & _).
    exists s'. split; [done|]. split_and!; [done|apply Hw'| |done|].
    + intros j Hj Hne. by rewrite (same_waiting_Some _ _ j Hw' Hj), Ho.
    + eapply queued_after; [done|exact Hw'|]. by rewrite Hcs.
Qed.
End event_proofs.

(** ** Examples *)

(** The queue's configuration with the Hicev2 plugin, which does not say which
    events help, and the pods that a run leaves waiting. *)
Definition hice_queue_config : QueueConfig := {|
  podInitialBackoffDuration := DefaultPodInitialBackoffDuration;
  podMaxBackoffDuration := DefaultPodMaxBackoffDuration;
  clusterEventMap := fillEventToPluginMap Hicev2_Name None [];
  nsLister := None;
  lessFn := PrioritySort_Less
|}.

Definition rejected_by_hice (pod : Pod) : QueuedPodInfo := mkQueuedPodInfo (NewPodInfo pod) 1 0 1 0 {[Hicev2_Name]}.

(** A scheduler in which the pod was refused, before the node comes. *)
Definition refused_scheduler (pod : Pod) : Scheduler (Ext := unit) :=
  mkScheduler (newSchedulerCache 30) first_cycle (u_addOrUpdate (rejected_by_hice pod) new_queue) ∅ tt.

Definition after_node (pod : Pod) (node : Node) : option (place * bool) :=
  match addNodeToCache (arch := amd64) (gates := gates_default) (mr := range_id) hice_queue_config 5000000000 node
          (refused_scheduler pod) with
  | Ret s =>
      match find (SchedulingQueue s) (pid pod), info_of (SchedulerCache s) (node_Name node) with
      | Some (pl, _), Some ni =>
          Some (pl, match Hicev2.Filter (arch := amd64) (gates := gates_default) New pod ni with
                    | Ret None => true
                    | _ => false
                    end)
      | _, _ => None
      end
  | Panic _ => None
  end.

(** The screen for new nodes does not know the conversion of Hicev2: a
    pod that asks for 1500m at the reference speed needs 750m of a node that
    is twice as fast, and Hicev2 admits it on such a node with 1000m; but the
    event of the new node leaves the pod with the unschedulable ones, because
    1500m do not fit 1000m.  The event does reach pods refused by Hicev2: with
    2000m the pod becomes active. *)
Theorem new_fast_node_missed :
  after_node (perf_pod "u1" "1.0" 1500) (hice_node "fast" "amd64" "2.0" 1000) = Some (QueueProofs.Unschedulable, true) /\
  after_node (perf_pod "u1" "1.0" 1500) (hice_node "fast" "amd64" "2.0" 2000) = Some (Active, true).
Proof. vm_compute. split; reflexivity. Qed.

(** A pod that waits, and its node reported by the informer. *)
Definition bound_sample : Pod := on_node "n1" (sample_nginx "u1" 100).

Definition routing_scheduler : Scheduler (Ext := unit) :=
  mkScheduler sample_cache first_cycle waiting_queue ∅ tt.

Definition one_profile : gmap string (frameworkImpl unit) :=
  {["kubehice-scheduler"%string := mkFramework unit [] [] [] [] [] [] [] [] [] [] ∅ false]}.

Lemma routing_ok : event_ok sample_cache (Updated (sample_nginx "u1" 100) bound_sample).
Proof.
  assert (pod_ok (sample_nginx "u1" 100)) as H by (split; [split; reflexivity|discriminate]).
  split_and!; [exact H|split; [split; reflexivity|discriminate]|reflexivity|discriminate|].
  intros _. split; [reflexivity|discriminate].
Qed.

Lemma preCheck_agrees_witness :
  let ni := perf_info "1.0" 4000 [] in
  let pod := perf_pod "u1" "1.0" 500 in
  preCheckForNode (arch := amd64) (gates := gates_default) ni (perf_node "1.0" 4000) pod = true /\
  NodeName_Filter pod ni = None /\ TaintToleration_Filter pod ni = None.
Proof.
  assert (preCheckForNode (arch := amd64) (gates := gates_default) (perf_info "1.0" 4000 []) (perf_node "1.0" 4000)
    (perf_pod "u1" "1.0" 500) = true) as H by (vm_compute; reflexivity).
  cbv zeta. split; [exact H|].
  destruct (proj1 (preCheck_agrees (arch := amd64) (gates := gates_default) NewCycleState (perf_pod "u1" "1.0" 500)
    (perf_info "1.0" 4000 []) (perf_node "1.0" 4000) ltac:(vm_compute; reflexivity)) H) as (_ & _ & H1 & _ & H2).
  split; [exact H1|exact H2].
Defined.

Lemma pod_event_routed_witness :
  exists s', deliver (arch := amd64) (gates := gates_default) (mr := range_id) default_queue_config one_profile (fun _ _ => true)
      false 9 (Updated (sample_nginx "u1" 100) bound_sample) routing_scheduler = Ret s' /\
    confirmed (SchedulerCache s') bound_sample /\ find (SchedulingQueue s') (pid bound_sample) = None.
Proof.
  destruct (pod_event_routed (arch := amd64) (gates := gates_default) (mr := range_id) (Ext := unit)
    default_queue_config one_profile (fun _ _ => true) false 9 (Updated (sample_nginx "u1" 100) bound_sample) routing_scheduler)
    as (s' & Hd & _ & _ & _ & Hr & Hw).
  - exact (cache_reachable_inv _ sample_cache_reachable).
  - apply waiting_queue_inv.
  - exact routing_ok.
  - exists s'. split; [exact Hd|]. split; [exact (Hr eq_refl)|exact Hw].
Defined.

(** ** A node removed by its name alone *)

(** An API server that no longer has the node "n1". *)
Definition missing_client : Client (Ext := unit) :=
  {| lister_Get _ _ _ := None; PatchPodStatus x _ _ := (x, None);
     not_found_node e := if String.eqb e "nodes n1 not found" then Some "n1"%string else None;
     node_missing _ name := String.eqb name "n1" |}.

Definition zoned_node (name : string) : Node := sample_node name {[LabelTopologyZone := "z1"%string]} 4000.

Definition zoned_scheduler : Scheduler (Ext := unit) :=
  mkScheduler (hice_cluster [zoned_node "n1"; zoned_node "n2"]) first_cycle new_queue ∅ tt.

(** The nodes a cycle sees with the scheduler's snapshot [snap], or [None] if
    the snapshot fails. *)
Definition candidates (c : schedulerCache) (snap : Snapshot) : option (list string) :=
  match UpdateSnapshot (mr := range_id) c snap with
  | (s, None) => Some (map (fun ni => match ni_node ni with Some n => node_Name n | None => ""%string end) (SN_List s))
  | (_, Some _) => None
  end.

(** After an error that names a missing node the scheduler removes the
    node from the cache by a node object with nothing but the name.  The node
    tree looks for it in the zone of that object, so that a node with a zone
    stays in the tree.  From then on the scheduler's snapshot keeps the node,
    and pods may be placed on it, even after the informer reports that it was
    deleted, while a new snapshot of that cache fails.  The informer's event
    alone would have removed the node. *)
Theorem missing_node_stays :
  let s0 := zoned_scheduler in
  let snap := (UpdateSnapshot (mr := range_id) (SchedulerCache s0) NewEmptySnapshot).1 in
  let s1 := (DefaultErrorFunc default_queue_config missing_client 9
               (rejected_by_hice (sample_nginx "u1" 100)) (ScheduleErr "nodes n1 not found") s0).1 in
  let s2 := deleteNodeFromCache (zoned_node "n1") s1 in
  candidates (SchedulerCache s0) snap = Some ["n1"; "n2"]%string /\
  candidates (SchedulerCache s1) snap = Some ["n1"; "n2"]%string /\
  candidates (SchedulerCache s2) snap = Some ["n1"; "n2"]%string /\
  candidates (SchedulerCache s2) NewEmptySnapshot = None /\
  candidates (SchedulerCache (deleteNodeFromCache (zoned_node "n1") s0)) snap = Some ["n2"]%string.
Proof. vm_compute. split_and!; reflexivity. Qed.
