(* ===== verification/Protocol.v ===== *)
(** * What the parts of the scheduler do with a pod

    The scheduler as a protocol: the informer's store of pods, the events that
    its two handlers have not seen yet, the queue, the pods in the hands of
    binding cycles, and what the cache holds of a pod, each reduced to what it
    says about pods.  The steps are those of the whole scheduler in
    WholeSystem, which refines this protocol; here is what it guarantees: no
    pod that has to be scheduled is forgotten, under any interleaving. *)

From S2P Require Import Prelude GoInt GoFloat GoStrconv Quantity ApiTypes Labels AffinityTerms Resource HostPorts NodeInfo Json Framework Snapshot NodeTree Cache HeapList Heap HeapProofs SchedulingQueue QueueProofs Runtime GenericScheduler Scheduler EventHandlers EventProofs.

Open Scope go_scope.

(** ** Versions of a pod *)

(** [n] is a later version of the pod [o]: name, UID and scheduler do not
    change, a pod keeps its node once it has one, and a deletion is not taken
    back. *)
Record later (o n : Pod) : Prop := {
  l_pid : pid n = pid o;
  l_uid : UID n = UID o;
  l_scheduler : SchedulerName (Spec n) = SchedulerName (Spec o);
  l_node : assignedPod o = true -> NodeName (Spec n) = NodeName (Spec o);
  l_deleted : DeletionTimestamp n = None -> DeletionTimestamp o = None
}.

#[export] Instance later_preorder : PreOrder later.
Proof.
  split; [by intros p; split|]. intros a b c [A1 A2 A3 A4 A5] [B1 B2 B3 B4 B5]. split; try congruence; [|auto].
  intros Ha. rewrite B4; [auto|]. unfold assignedPod in *. by rewrite A4.
Qed.

Section protocol.
Context {Ext : Type} (Profiles : gmap string (frameworkImpl Ext)).

(** UIDs are of one pod name for ever; [extra] is what plugins ask of pods. *)
Context (owner : string -> podid) (extra : Pod -> Prop).

Definition fine (p : Pod) : Prop := valid_pod p /\ UID p <> ""%string /\ owner (UID p) = pid p /\ extra p.

(** The pods that the queue's handler is for, and those not being deleted. *)
Definition wanted (p : Pod) : bool := negb (assignedPod p) && responsibleForPod Profiles p.
Definition live (p : Pod) : Prop := DeletionTimestamp p = None.

Lemma later_wanted o n : later o n -> wanted n = true -> wanted o = true.
Proof.
  intros H. unfold wanted, responsibleForPod. rewrite (l_scheduler o n H). destruct (assignedPod o) eqn:E; [|by destruct (assignedPod n)].
  assert (assignedPod n = true) as ->; [|done]. unfold assignedPod in *. by rewrite (l_node o n H E).
Qed.

(** ** The informer's store and its events *)

Abbreviation pods := (podid -> option Pod).

Definition put (i : podid) (o : option Pod) (w : pods) : pods := fun j => if decide (j = i) then o else w j.

Definition after (e : event Pod) (v : pods) : pods :=
  match e with Added p => put (pid p) (Some p) v | Updated _ n => put (pid n) (Some n) v | Deleted p => put (pid p) None v end.

(** Informers report changes of the objects they have.  Here an update is one of
    a single pod: that an informer loses its watch and merges the deletion of
    a pod and the creation of another one of the same name into an update is
    left out.  The handlers on their own are right then too (pod_event_routed
    in EventProofs.v), but the queue, which knows pods by their names, takes
    the new pod for a version of the old one (recreated_pod_leaks in
    NominatorProofs.v), and what follows for a whole run is not claimed. *)
Definition legal (e : event Pod) (v : pods) : Prop :=
  match e with
  | Added p => v (pid p) = None /\ fine p
  | Updated o n => v (pid o) = Some o /\ later o n /\ fine n
  | Deleted p => v (pid p) = Some p
  end.

(** The events lead from the state [v] to the state [w]. *)
Fixpoint chain (v : pods) (l : list (event Pod)) (w : pods) : Prop :=
  match l with
  | [] => forall i, v i = w i
  | e :: l => legal e v /\ chain (after e v) l w
  end.

Lemma after_ext e v w : (forall i, v i = w i) -> forall i, after e v i = after e w i.
Proof. intros H i. destruct e; cbn; unfold put; by case_decide. Qed.

Lemma legal_ext e v w : (forall i, v i = w i) -> legal e v -> legal e w.
Proof. intros H. destruct e; cbn [legal]; rewrite H; tauto. Qed.

Lemma chain_ext v v' l w w' : (forall i, v i = v' i) -> (forall i, w i = w' i) -> chain v l w -> chain v' l w'.
Proof.
  revert v v'. induction l as [|e l IH]; intros v v' Hv Hw; cbn [chain]; [congruence|].
  intros [He Hc]. split; [by eapply legal_ext|]. eapply IH; [|done|exact Hc]. by apply after_ext.
Qed.

Lemma chain_snoc v l w e w' : chain v l w -> legal e w -> (forall i, w' i = after e w i) -> chain v (l ++ [e]) w'.
Proof.
  revert v. induction l as [|x l IH]; intros v; cbn [chain app].
  - intros Hv He Hw. split; [by apply (legal_ext e w)|]. intros i. rewrite Hw. by apply after_ext.
  - intros [Hx Hc] He Hw. split; [done|]. by apply IH.
Qed.

(** Where a pod of the final state comes from: it is added on the way, or it
    was there. *)
Lemma chain_origin v l w i p :
  chain v l w -> w i = Some p ->
  (exists p0, Added p0 ∈ l /\ pid p0 = i /\ later p0 p) \/ (exists s, v i = Some s /\ later s p).
Proof.
  revert v. induction l as [|e l IH]; intros v; cbn [chain]; intros H Hw.
  { right. exists p. by rewrite H. }
  destruct H as [He Hc]. destruct (IH _ Hc Hw) as [(p0 & Hin & H)|(s & Hs & Hl)].
  { left. exists p0. split; [by right|done]. }
  destruct e as [p0|o n|p0]; cbn [after] in Hs; unfold put in Hs; case_decide as E; [..|done|]; try (right; by eauto).
  - injection Hs as ->. left. exists s. split; [by left|done].
  - injection Hs as ->. destruct He as (Ho & Hon & _). right. exists o. rewrite E, (l_pid o s Hon). split; [done|]. by transitivity s.
Qed.

(** ** States *)

(** What the cache holds of a UID: whether it is assumed, and its node. *)
Record protocol := mkProtocol {
  queued : pods;
  hand : option Pod;           (** the pod that a scheduling cycle took *)
  flight : list Pod;           (** pods in the hands of binding cycles, on their nodes *)
  bound : list Pod;            (** pods whose binding cycle succeeded *)
  held : string -> option (bool * string);
  store : pods;
  q_events : list (event Pod); (** events that the queue's handler has not seen *)
  c_events : list (event Pod); (** and those that the cache's has not *)
  q_seen : pods;               (** the store as they have seen it *)
  c_seen : pods
}.

Definition set_queued q P := mkProtocol q (hand P) (flight P) (bound P) (held P) (store P) (q_events P) (c_events P) (q_seen P) (c_seen P).
Definition set_hand o P := mkProtocol (queued P) o (flight P) (bound P) (held P) (store P) (q_events P) (c_events P) (q_seen P) (c_seen P).
Definition set_held h P := mkProtocol (queued P) (hand P) (flight P) (bound P) h (store P) (q_events P) (c_events P) (q_seen P) (c_seen P).
Definition set_flight f b P := mkProtocol (queued P) (hand P) f b (held P) (store P) (q_events P) (c_events P) (q_seen P) (c_seen P).
Definition set_store st e P :=
  mkProtocol (queued P) (hand P) (flight P) (bound P) (held P) st (q_events P ++ [e]) (c_events P ++ [e]) (q_seen P) (c_seen P).
Definition set_q_seen l v P := mkProtocol (queued P) (hand P) (flight P) (bound P) (held P) (store P) l (c_events P) v (c_seen P).
Definition set_c_seen l v P := mkProtocol (queued P) (hand P) (flight P) (bound P) (held P) (store P) (q_events P) l (q_seen P) v.

Definition start (st : pods) : protocol :=
  mkProtocol (fun _ => None) None [] [] (fun _ => None) st [] [] st st.

(** ** Steps *)

(** The pod goes back to the queue, as the store has it, unless it waits there
    or has a node. *)
Definition requeue (st : pods) (i : podid) (w : pods) : pods :=
  put i (match w i with
         | Some e => Some e
         | None => match st i with Some cp => if assignedPod cp then None else Some cp | None => None end
         end) w.

(** The queue's handler. *)
Definition queue_handled (e : event Pod) (w q' : pods) : Prop :=
  match e with
  | Added p => forall j, q' j = (if wanted p then put (pid p) (Some p) w else w) j
  | Updated o n =>
      if wanted n then (forall j, q' j = put (pid n) (Some n) w j) \/ (forall j, q' j = w j)
      else forall j, q' j = (if wanted o then put (pid o) None w else w) j
  | Deleted p => forall j, q' j = (if wanted p then put (pid p) None w else w) j
  end.

(** The cache's handler: a pod with a node is confirmed, or leaves. *)
Definition confirm (p : Pod) (h : string -> option (bool * string)) (u : string) : option (bool * string) :=
  if decide (u = UID p) then match h u with Some (false, n) => Some (false, n) | _ => Some (false, NodeName (Spec p)) end else h u.
Definition release (p : Pod) (h : string -> option (bool * string)) (u : string) : option (bool * string) :=
  if decide (u = UID p) then match h u with Some (false, _) => None | o => o end else h u.
Definition forget (p : Pod) (h : string -> option (bool * string)) (u : string) : option (bool * string) :=
  if decide (u = UID p)
  then match h u with Some (true, n) => if String.eqb n (NodeName (Spec p)) then None else Some (true, n) | o => o end else h u.

Definition cache_handled (e : event Pod) (h : string -> option (bool * string)) : string -> option (bool * string) :=
  match e with
  | Added p => if assignedPod p then confirm p h else h
  | Updated o n => if assignedPod o then h else if assignedPod n then confirm n h else h
  | Deleted p => if assignedPod p then release p h else h
  end.

Inductive pstep (P : protocol) : protocol -> Prop :=
| ps_report e st' : legal e (store P) -> (forall i, st' i = after e (store P) i) -> pstep P (set_store st' e P)
| ps_queue e l q' v' : q_events P = e :: l -> queue_handled e (queued P) q' -> (forall i, v' i = after e (q_seen P) i) ->
    pstep P (set_q_seen l v' (set_queued q' P))
| ps_cache e l h' v' : c_events P = e :: l -> (forall u, h' u = cache_handled e (held P) u) ->
    (forall i, v' i = after e (c_seen P) i) -> pstep P (set_c_seen l v' (set_held h' P))
| ps_take i p q' : hand P = None -> queued P i = Some p -> (forall j, q' j = put i None (queued P) j) ->
    pstep P (set_hand (Some p) (set_queued q' P))
| ps_skip p : hand P = Some p ->
    (responsibleForPod Profiles p = false \/ ~ live p \/ exists n, held P (UID p) = Some (true, n)) -> pstep P (set_hand None P)
| ps_fail p q' : hand P = Some p -> (forall j, q' j = requeue (store P) (pid p) (queued P) j) ->
    pstep P (set_hand None (set_queued q' P))
| ps_assume p n h' : hand P = Some p -> held P (UID p) = None ->
    (forall u, h' u = if decide (u = UID p) then Some (true, n) else held P u) ->
    pstep P (set_hand None (set_flight (set_NodeName n p :: flight P) (bound P) (set_held h' P)))
| ps_bound l1 b l2 : flight P = l1 ++ b :: l2 -> pstep P (set_flight (l1 ++ l2) (b :: bound P) P)
| ps_unbind l1 b l2 q' h' : flight P = l1 ++ b :: l2 -> (forall j, q' j = requeue (store P) (pid b) (queued P) j) ->
    (forall u, h' u = forget b (held P) u) -> pstep P (set_flight (l1 ++ l2) (bound P) (set_held h' (set_queued q' P)))
| ps_expire h' : (forall u, h' u = held P u \/ (exists n, held P u = Some (true, n)) /\ h' u = None) -> pstep P (set_held h' P)
| ps_idle q' h' st' : (forall j, q' j = queued P j) -> (forall u, h' u = held P u) -> (forall i, st' i = store P i) ->
    pstep P (mkProtocol q' (hand P) (flight P) (bound P) h' st' (q_events P) (c_events P) (q_seen P) (c_seen P)).

Inductive preach : protocol -> Prop :=
| pr_start st : (forall i, st i = None) -> preach (start st)
| pr_step P P' : preach P -> pstep P P' -> preach P'.

(** ** The invariant *)

Context (extra_node : forall n p, extra p -> extra (set_NodeName n p)).

Lemma fine_node n p : fine p -> fine (set_NodeName n p).
Proof. intros (H1 & H2 & H3 & H4). split_and!; try done. by apply extra_node. Qed.

Lemma fine_same p p' : fine p -> fine p' -> UID p = UID p' -> pid p = pid p'.
Proof. intros (_ & _ & H1 & _) (_ & _ & H2 & _) E. congruence. Qed.

(** The pod is still to be added to the queue. *)
Definition adding (l : list (event Pod)) (p : Pod) : Prop :=
  exists p0, Added p0 ∈ l /\ pid p0 = pid p /\ UID p0 = UID p.

(** A cycle has the pod, and will not drop it. *)
Definition in_hand (o : option Pod) (p : Pod) : Prop :=
  exists e, o = Some e /\ UID e = UID p /\ responsibleForPod Profiles e = true /\ live e.

(** Where the pod is on its way to a node. *)
Definition on_its_way (P : protocol) (p : Pod) : Prop :=
  is_Some (queued P (pid p)) \/ (exists b, b ∈ flight P /\ UID b = UID p) \/ (exists b, b ∈ bound P /\ UID b = UID p) \/
  adding (q_events P) p \/ in_hand (hand P) p.

Record pinv (P : protocol) : Prop := {
  pi_store : forall i p, store P i = Some p -> pid p = i /\ fine p;
  pi_queued : forall i p, queued P i = Some p -> pid p = i /\ fine p;
  pi_hand : forall p, hand P = Some p -> fine p;
  pi_flight : Forall fine (flight P);
  pi_c_fine : forall i p, c_seen P i = Some p -> pid p = i /\ fine p;
  pi_q_fine : forall i p, q_seen P i = Some p -> pid p = i /\ fine p;
  pi_q_chain : chain (q_seen P) (q_events P) (store P);
  pi_c_chain : chain (c_seen P) (c_events P) (store P);
  (** an entry of the queue is a version of the pod *)
  pi_entry : forall e p, queued P (pid p) = Some e -> store P (pid p) = Some p -> wanted p = true -> live p ->
    (UID e = UID p /\ responsibleForPod Profiles e = true /\ live e) \/ adding (q_events P) p;
  (** an assumed pod is in the hands of a binding cycle, or was *)
  pi_assumed : forall u n, held P u = Some (true, n) ->
    exists b, (b ∈ flight P \/ b ∈ bound P) /\ UID b = u /\ NodeName (Spec b) = n;
  (** the cache has the pods with a node that its handler has seen *)
  pi_confirmed : forall u n, held P u = Some (false, n) <->
    exists i p, c_seen P i = Some p /\ assignedPod p = true /\ UID p = u /\ NodeName (Spec p) = n;
  pi_kept : forall p, store P (pid p) = Some p -> wanted p = true -> live p -> on_its_way P p
}.

Lemma put_eq i o w : put i o w i = o.
Proof. unfold put. by rewrite decide_True. Qed.
Lemma put_ne i j o w : j <> i -> put i o w j = w j.
Proof. intros. unfold put. by rewrite decide_False. Qed.

Lemma after_fine e v i p :
  legal e v -> (forall i p, v i = Some p -> pid p = i /\ fine p) -> after e v i = Some p -> pid p = i /\ fine p.
Proof.
  intros He Hv. destruct e as [q|o n|q]; cbn [after legal] in *; unfold put; case_decide as E; try apply Hv; try done; intros [= <-];
    (split; [done|]); apply He.
Qed.

Lemma wanted_unassigned p : wanted p = true -> assignedPod p = false /\ responsibleForPod Profiles p = true.
Proof. unfold wanted. by destruct (assignedPod p). Qed.

(** What the queue's handler does about a pod of the store. *)
Lemma queue_case v e l st w q' i p :
  chain v (e :: l) st -> st i = Some p -> pid p = i -> wanted p = true -> queue_handled e w q' ->
  adding l p \/ (exists s, q' i = Some s /\ later s p) \/ (q' i = w i /\ forall p0, e = Added p0 -> pid p0 <> i).
Proof.
  intros [He Hc] Hi Hp Hw Hq. destruct (chain_origin _ _ _ _ _ Hc Hi) as [(p0 & Hin & H0 & Hl)|(s & Hs & Hl)].
  { left. exists p0. split_and!; [done|congruence|by rewrite (l_uid p0 p Hl)]. }
  right. pose proof (later_wanted s p Hl Hw) as Hws.
  destruct e as [p1|o n|p1]; cbn [after queue_handled legal] in *; unfold put in Hs; case_decide as E; try done.
  - injection Hs as ->. left. exists s. rewrite Hq, Hws, E, put_eq. done.
  - right. split; [|congruence]. rewrite Hq. destruct (wanted p1); [by rewrite put_ne|done].
  - injection Hs as ->. rewrite Hws in Hq. destruct Hq as [Hq|Hq]; [left; exists s; by rewrite Hq, E, put_eq|right; by split; [apply Hq|]].
  - right. split; [|done]. destruct He as (_ & Hon & _).
    destruct (wanted n); [destruct Hq as [Hq|Hq]; rewrite Hq; [by rewrite put_ne|done]|].
    rewrite Hq. destruct (wanted o); [|done]. apply put_ne. by rewrite <- (l_pid o n Hon).
  - right. split; [|done]. rewrite Hq. destruct (wanted p1); [by rewrite put_ne|done].
Qed.

Lemma adding_tail e l p : adding (e :: l) p -> (forall p0, e = Added p0 -> pid p0 <> pid p) -> adding l p.
Proof. intros (p0 & [<- |Hin]%elem_of_cons & H1 & H2) Hne; [by destruct (Hne p0)|by exists p0]. Qed.

Lemma adding_app l l' p : adding l p -> adding (l ++ l') p.
Proof. intros (p0 & Hin & H). exists p0. split; [|done]. apply elem_of_app. by left. Qed.

(** The state that a report leads to, seen from the pod. *)
Lemma report_case e st st' p :
  legal e st -> (forall i, st' i = after e st i) -> (forall i p, st i = Some p -> pid p = i /\ fine p) ->
  st' (pid p) = Some p -> wanted p = true -> live p ->
  (exists o, st (pid p) = Some o /\ pid o = pid p /\ UID o = UID p /\ wanted o = true /\ live o) \/ e = Added p.
Proof.
  intros He Hst Hpid Hp Hw Hl. rewrite Hst in Hp. destruct e as [p1|o n|p1]; cbn [after legal] in *; unfold put in Hp; case_decide as E;
    try done; try (left; exists p; by split_and!).
  - injection Hp as ->. by right.
  - injection Hp as ->. destruct He as (Ho & Hon & _). left. exists o. pose proof (l_pid o p Hon) as Hpo.
    split_and!; [by rewrite Hpo|done|by rewrite (l_uid o p Hon)|by eapply later_wanted|by apply (l_deleted o p Hon)].
Qed.

(** ** Every step keeps it *)

Lemma report_inv P e st' :
  pinv P -> legal e (store P) -> (forall i, st' i = after e (store P) i) -> pinv (set_store st' e P).
Proof.
  intros [I1 I2 I2' I3 I4 I4' I5 I6 I7 I8 I9 I10] He Hst. split; cbn [store queued hand flight bound held q_events c_events q_seen c_seen set_store]; try done.
  - intros i p. rewrite Hst. by apply after_fine.
  - by eapply chain_snoc.
  - by eapply chain_snoc.
  - intros en p Hq Hp Hw Hl. destruct (report_case e _ _ p He Hst I1 Hp Hw Hl) as [(o & Ho & Hpo & Hu & Hwo & Hlo)|E].
    + rewrite <- Hpo in Ho, Hq. destruct (I7 en o Hq Ho Hwo Hlo) as [H|H]; [left; by rewrite <- Hu|right].
      apply adding_app. unfold adding in *. by rewrite <- Hpo, <- Hu.
    + right. exists p. split_and!; [|done|done]. subst. apply elem_of_app. right. by left.
  - intros p Hp Hw Hl. destruct (report_case e _ _ p He Hst I1 Hp Hw Hl) as [(o & Ho & Hpo & Hu & Hwo & Hlo)|E].
    + rewrite <- Hpo in Ho. destruct (I10 o Ho Hwo Hlo) as [H|[H|[H|[H|H]]]]; unfold on_its_way, in_hand; cbn [queued hand flight bound q_events set_store];
        rewrite <- Hpo, <- Hu; [by left|by right; left|by right; right; left| |by right; right; right; right]. right; right; right; left.
      apply adding_app. unfold adding in *. by rewrite <- Hpo, <- Hu.
    + right; right; right; left. exists p. split_and!; [|done|done]. subst. apply elem_of_app. right. by left.
Qed.

Lemma queue_event_inv P e l q' v' :
  pinv P -> q_events P = e :: l -> queue_handled e (queued P) q' -> (forall i, v' i = after e (q_seen P) i) ->
  pinv (set_q_seen l v' (set_queued q' P)).
Proof.
  intros [I1 I2 I2' I3 I4 I4' I5 I6 I7 I8 I9 I10] El Hq Hv. rewrite El in I5, I7. pose proof I5 as [He Hc].
  split; cbn [store queued hand flight bound held q_events c_events q_seen c_seen set_q_seen set_queued]; try done.
  - intros i p. assert (q' i = Some p -> queued P i = Some p \/ (i = pid p /\ (e = Added p \/ exists o, e = Updated o p))) as H.
    { destruct e as [p1|o n|p1]; cbn [queue_handled] in Hq; [rewrite Hq; destruct (wanted p1)| |rewrite Hq; destruct (wanted p1)];
        unfold put; try case_decide; try (by left); try done.
      - intros [= ->]. right. split; [done|by left].
      - destruct (wanted n); [destruct Hq as [Hq|Hq]; rewrite Hq; [unfold put; case_decide|by left]|].
        + intros [= ->]. right. split; [done|right; by eexists].
        + by left.
        + rewrite Hq. destruct (wanted o); [|by left]. unfold put. case_decide; [done|by left]. }
    intros [H'|[-> [->|[o ->]]]]%H; [by apply I2|split; [done|apply He]..].
  - intros i p. rewrite Hv. by apply after_fine.
  - eapply chain_ext; [|done|exact Hc]. intros i. by rewrite Hv.
  - intros en p Hen Hp Hw Hl. destruct (queue_case _ _ _ _ _ _ _ p I5 Hp eq_refl Hw Hq) as [H|[(s & Hs & Hsp)|[H Hne]]]; [by right|left|].
    + rewrite Hen in Hs. injection Hs as ->. split_and!; [by rewrite (l_uid s p Hsp)| |by apply (l_deleted s p Hsp)].
      apply wanted_unassigned. by eapply later_wanted.
    + rewrite H in Hen. destruct (I7 en p Hen Hp Hw Hl) as [H'|H']; [by left|right]. by eapply adding_tail.
  - intros p Hp Hw Hl. destruct (queue_case _ _ _ _ _ _ _ p I5 Hp eq_refl Hw Hq) as [H|[(s & Hs & Hsp)|[H Hne]]].
    + by right; right; right; left.
    + left. cbn. by rewrite Hs.
    + destruct (I10 p Hp Hw Hl) as [H'|[H'|[H'|[H'|H']]]]; [left; cbn; by rewrite H|by right; left|by right; right; left| |by right; right; right; right].
      right; right; right; left. cbn. rewrite El in H'. by eapply adding_tail.
Qed.

(** The cache's handler does not assume pods. *)
Lemma handled_assumed e h u n : cache_handled e h u = Some (true, n) -> h u = Some (true, n).
Proof.
  destruct e as [p|o p|p]; cbn [cache_handled]; repeat case_match; try done; unfold confirm, release; case_decide; repeat case_match; congruence.
Qed.

Lemma seen_unique (v : pods) i j p p' :
  (forall i p, v i = Some p -> pid p = i /\ fine p) -> v i = Some p -> v j = Some p' -> UID p = UID p' -> i = j /\ p = p'.
Proof.
  intros Hv Hi Hj Hu. destruct (Hv _ _ Hi) as [E1 H1], (Hv _ _ Hj) as [E2 H2].
  assert (i = j) as -> by (rewrite <- E1, <- E2; by apply fine_same). split; congruence.
Qed.

(** Confirming a pod that was not seen with a node. *)
Lemma confirm_case P p u n :
  pinv P -> fine p -> (forall s, c_seen P (pid p) = Some s -> assignedPod s = false) ->
  confirm p (held P) u = Some (false, n) <->
    (u = UID p /\ n = NodeName (Spec p)) \/ (u <> UID p /\ held P u = Some (false, n)).
Proof.
  intros HP Hp Hno. unfold confirm. case_decide as E; [|split; [right; by split|by intros [[? _]|[_ ?]]]].
  destruct (held P u) as [[[] m]|] eqn:Eh; [| |].
  - split; [intros [= <-]; by left|intros [[_ ->]|[? _]]; done].
  - exfalso. apply (pi_confirmed P HP) in Eh as (i & s & Hs & Ha & Hu & _). destruct (pi_c_fine P HP _ _ Hs) as [<- Hf].
    rewrite (fine_same s p) in Hs by (done || congruence). apply Hno in Hs. congruence.
  - split; [intros [= <-]; by left|intros [[_ ->]|[? _]]; done].
Qed.

Lemma confirmed_step P e (v' : pods) :
  pinv P -> legal e (c_seen P) -> (forall i, v' i = after e (c_seen P) i) ->
  forall u n, cache_handled e (held P) u = Some (false, n) <->
    exists i p, v' i = Some p /\ assignedPod p = true /\ UID p = u /\ NodeName (Spec p) = n.
Proof.
  intros HP He Hv u n. pose proof (pi_c_fine P HP) as Hf. pose proof (pi_confirmed P HP u n) as Hc.
  assert (forall i p, v' i = Some p -> pid p = i /\ fine p) as Hf'.
  { intros i p. rewrite Hv. by apply after_fine. }
  (* the pods under other names *)
  assert (forall k, (forall p, c_seen P k = Some p -> UID p = u -> assignedPod p = false) ->
    (exists i p, put k None (c_seen P) i = Some p /\ assignedPod p = true /\ UID p = u /\ NodeName (Spec p) = n) <-> held P u = Some (false, n)) as Hothers.
  { intros k Hk. rewrite Hc. split; intros (i & p & Hi & H).
    - unfold put in Hi. case_decide; [done|]. by exists i, p.
    - exists i, p. split; [|done]. unfold put. case_decide as E; [|done]. subst k. exfalso.
      destruct H as (Ha & Hu & _). rewrite (Hk p Hi Hu) in Ha. done. }
  assert (forall k p, fine p -> pid p = k ->
    (exists i s, put k (Some p) (c_seen P) i = Some s /\ assignedPod s = true /\ UID s = u /\ NodeName (Spec s) = n) <->
    (assignedPod p = true /\ UID p = u /\ NodeName (Spec p) = n) \/
    (exists i s, put k None (c_seen P) i = Some s /\ assignedPod s = true /\ UID s = u /\ NodeName (Spec s) = n)) as Hput.
  { intros k p _ _. split.
    - intros (i & s & Hi & H). unfold put in *. case_decide as E; [injection Hi as ->; by left|].
      right. exists i, s. by rewrite decide_False.
    - intros [H|(i & s & Hi & H)]; [exists k, p; by rewrite put_eq|]. unfold put in Hi. case_decide; [done|].
      exists i, s. by rewrite put_ne. }
  setoid_rewrite Hv.
  destruct e as [p|o p|p]; cbn [after legal cache_handled] in *.
  - destruct He as [Hnone Hp]. rewrite (Hput _ p Hp eq_refl), (Hothers (pid p)) by (intros s Hs; congruence).
    destruct (assignedPod p) eqn:Ea; [|naive_solver].
    rewrite (confirm_case P p u n HP Hp) by congruence.
    split; [naive_solver|]. intros [(_ & <- & <-)|H]; [by left|]. destruct (decide (u = UID p)) as [E|E]; [|by right].
    exfalso. apply Hc in H as (i & s & Hs & _ & Hu & _). destruct (Hf _ _ Hs) as [<- Hfs].
    rewrite (fine_same s p) in Hs by (done || congruence). congruence.
  - destruct He as (Ho & Hon & Hp). destruct (Hf _ _ Ho) as [_ Hfo]. pose proof (l_pid o p Hon) as Epid. pose proof (l_uid o p Hon) as Euid.
    rewrite (Hput _ p Hp eq_refl).
    destruct (assignedPod o) eqn:Ea.
    + (* a pod on its node *) assert (assignedPod p = true /\ NodeName (Spec p) = NodeName (Spec o)) as [Eap En].
      { pose proof (l_node o p Hon Ea) as En. split; [|done]. unfold assignedPod in *. by rewrite En. }
      destruct (decide (u = UID o)) as [E|E].
      * rewrite Hc. split.
        -- intros (i & s & Hs & Has & Hu & Hn). left. destruct (seen_unique _ i (pid o) s o Hf Hs Ho) as [_ ->]; [congruence|].
           split_and!; [done|congruence|congruence].
        -- intros [(_ & Hu & Hn)|(i & s & Hs & Has & Hu & Hn)]; [exists (pid o), o; split_and!; [done|done|congruence|congruence]|].
           unfold put in Hs. case_decide; [done|]. exists i, s. done.
      * rewrite Hothers; [|intros s Hs Hu]; [split; [by right|intros [(_ & Hu & _)|H]; [congruence|done]]|].
        rewrite Epid, Ho in Hs. injection Hs as <-. congruence.
    + rewrite (Hothers (pid p)) by (intros s Hs; rewrite Epid, Ho in Hs; injection Hs as <-; by intros).
      destruct (assignedPod p) eqn:Eap; [|naive_solver].
      rewrite (confirm_case P p u n HP Hp) by (intros s Hs; rewrite Epid, Ho in Hs; injection Hs as <-; done).
      split; [naive_solver|]. intros [(_ & <- & <-)|H]; [by left|]. destruct (decide (u = UID p)) as [E|E]; [|by right].
      exfalso. apply Hc in H as (i & s & Hs & Has & Hu & _). destruct (seen_unique _ i (pid o) s o Hf Hs Ho) as [_ ->]; congruence.
  - destruct (Hf _ _ He) as [_ Hfp]. destruct (assignedPod p) eqn:Ea.
    + unfold release. case_decide as E.
      * split; [repeat case_match; congruence|]. intros (i & s & Hs & _ & Hu & _). unfold put in Hs. case_decide as E'; [done|].
        destruct (seen_unique _ i (pid p) s p Hf Hs He) as [? _]; congruence.
      * rewrite Hothers; [done|]. intros s Hs Hu. rewrite He in Hs. injection Hs as <-. congruence.
    + rewrite Hothers; [done|]. intros s Hs Hu. rewrite He in Hs. by injection Hs as <-.
Qed.

Lemma cache_event_inv P e l h' v' :
  pinv P -> c_events P = e :: l -> (forall u, h' u = cache_handled e (held P) u) -> (forall i, v' i = after e (c_seen P) i) ->
  pinv (set_c_seen l v' (set_held h' P)).
Proof.
  intros HP El Hh Hv. pose proof HP as [I1 I2 I2' I3 I4 I4' I5 I6 I7 I8 I9 I10]. rewrite El in I6. destruct I6 as [He Hc].
  split; cbn [store queued hand flight bound held q_events c_events q_seen c_seen set_c_seen set_held]; try done.
  - intros i p. rewrite Hv. by apply after_fine.
  - eapply chain_ext; [|done|exact Hc]. intros i. by rewrite Hv.
  - intros u n. rewrite Hh. intros H%handled_assumed. by apply I8.
  - intros u n. rewrite Hh. by apply confirmed_step.
Qed.

(** A cycle takes a pod from the queue. *)
Lemma take_inv P i p q' :
  pinv P -> hand P = None -> queued P i = Some p -> (forall j, q' j = put i None (queued P) j) ->
  pinv (set_hand (Some p) (set_queued q' P)).
Proof.
  intros [I1 I2 I2' I3 I4 I4' I5 I6 I7 I8 I9 I10] Hno Hp Hq.
  split; cbn [store queued hand flight bound held q_events c_events q_seen c_seen set_hand set_queued]; try done.
  - intros j p'. rewrite Hq. unfold put. case_decide; [done|apply I2].
  - intros p' [= <-]. by apply (I2 i).
  - intros e p'. rewrite Hq. unfold put. case_decide; [done|apply I7].
  - intros p' Hp' Hw Hl. destruct (decide (pid p' = i)) as [<-|Hne].
    + destruct (I7 p p' Hp Hp' Hw Hl) as [(Hu & Hr & Hlp)|H]; [|by right; right; right; left].
      right; right; right; right. exists p. by split_and!.
    + destruct (I10 p' Hp' Hw Hl) as [H|[H|[H|[H|(e & He & _)]]]];
        [|by right; left|by right; right; left|by right; right; right; left|congruence].
      left. cbn. by rewrite Hq, put_ne.
Qed.

(** It is done with the pod, which is somewhere else. *)
Lemma released_inv P p f h' :
  pinv P -> hand P = Some p ->
  Forall fine f -> (forall b, b ∈ flight P -> b ∈ f) ->
  (forall u n, h' u = Some (true, n) -> held P u = Some (true, n) \/ exists b, b ∈ f /\ UID b = u /\ NodeName (Spec b) = n) ->
  (forall u n, h' u = Some (false, n) <-> held P u = Some (false, n)) ->
  (responsibleForPod Profiles p = true -> live p -> (exists b, (b ∈ f \/ b ∈ bound P) /\ UID b = UID p)) ->
  pinv (set_hand None (set_flight f (bound P) (set_held h' P))).
Proof.
  intros [I1 I2 I2' I3 I4 I4' I5 I6 I7 I8 I9 I10] Hp Hf Hsub Hh1 Hh2 Hgone.
  split; cbn [store queued hand flight bound held q_events c_events q_seen c_seen set_hand set_flight set_held]; try done.
  - intros u n [H|(b & Hb & H)]%Hh1; [|exists b; split; [by left|done]].
    destruct (I8 u n H) as (b & [Hb|Hb] & H'); exists b; split; try done; [left; by apply Hsub|by right].
  - intros u n. by rewrite Hh2.
  - intros p' Hp' Hw Hl. destruct (I10 p' Hp' Hw Hl) as [H|[(b & Hb & HE)|[H|[H|(e & He & Hu & Hr & Hle)]]]].
    + by left.
    + right; left. exists b. by split; [apply Hsub|].
    + by right; right; left.
    + by right; right; right; left.
    + rewrite Hp in He. injection He as <-. rewrite Hu in Hgone.
      destruct (Hgone Hr Hle) as (b & [Hb|Hb] & HE); [right; left|right; right; left]; by exists b.
Qed.

Lemma set_flight_same P : set_flight (flight P) (bound P) (set_held (held P) P) = P.
Proof. by destruct P. Qed.

Lemma skip_inv P p :
  pinv P -> hand P = Some p ->
  (responsibleForPod Profiles p = false \/ ~ live p \/ exists n, held P (UID p) = Some (true, n)) -> pinv (set_hand None P).
Proof.
  intros HP Hp Hwhy. rewrite <- (set_flight_same P) at 1. eapply released_inv; try done; [apply HP|by left|].
  intros Hr Hl. destruct Hwhy as [H|[H|[n H]]]; [congruence|done|].
  destruct (pi_assumed P HP _ _ H) as (b & Hb & HE & _). exists b. by split.
Qed.

Lemma assume_inv P p n h' :
  pinv P -> hand P = Some p -> held P (UID p) = None ->
  (forall u, h' u = if decide (u = UID p) then Some (true, n) else held P u) ->
  pinv (set_hand None (set_flight (set_NodeName n p :: flight P) (bound P) (set_held h' P))).
Proof.
  intros HP Hp Hno Hh. eapply released_inv; try done.
  - constructor; [apply fine_node; by apply (pi_hand P HP)|apply HP].
  - intros b Hb. by right.
  - intros u m. rewrite Hh. case_decide as E; [|by left]. intros [= <-]. right. exists (set_NodeName n p). split_and!; [by left|done|done].
  - intros u m. rewrite Hh. case_decide as E; [|done]. subst u. rewrite Hno. naive_solver.
  - intros _ _. exists (set_NodeName n p). split; [left; by left|done].
Qed.

(** Putting a pod back. *)
Lemma requeue_inv P i q' :
  pinv P -> (forall j, q' j = requeue (store P) i (queued P) j) ->
  pinv (set_queued q' P) /\ forall p, store P i = Some p -> assignedPod p = false -> is_Some (q' i).
Proof.
  intros [I1 I2 I2' I3 I4 I4' I5 I6 I7 I8 I9 I10] Hq.
  assert (forall j p, q' j = Some p -> queued P j = Some p \/ (j = i /\ store P i = Some p)) as Hcase.
  { intros j p. rewrite Hq. unfold requeue, put. case_decide as E; [|by left]. subst j. destruct (queued P i) as [e|]; [by left|].
    destruct (store P i) as [cp|]; [|done]. destruct (assignedPod cp); [done|]. intros [= ->]. by right. }
  assert (forall j, is_Some (queued P j) -> is_Some (q' j)) as Hkeep.
  { intros j. rewrite Hq. unfold requeue, put. case_decide as E; [|done]. subst j. intros [e ->]. by eexists. }
  split.
  - split; cbn [store queued hand flight bound held q_events c_events q_seen c_seen set_queued]; try done.
    + intros j p [H|[-> H]]%Hcase; [by apply I2|by apply I1].
    + intros e p [H|[E H]]%Hcase Hp Hw Hl; [by apply I7|]. left. rewrite E in Hp. rewrite Hp in H. injection H as <-.
      split_and!; [done|by apply wanted_unassigned|done].
    + intros p Hp Hw Hl. destruct (I10 p Hp Hw Hl) as [H|H]; [left; by apply Hkeep|by right].
  - intros p Hp Ha. rewrite Hq. unfold requeue. rewrite put_eq. destruct (queued P i); [by eexists|]. rewrite Hp, Ha. by eexists.
Qed.

Lemma fail_inv P p q' :
  pinv P -> hand P = Some p -> (forall j, q' j = requeue (store P) (pid p) (queued P) j) -> pinv (set_hand None (set_queued q' P)).
Proof.
  intros HP Hp Hq. pose proof (pi_hand P HP p Hp) as Hfp.
  destruct (requeue_inv P (pid p) q' HP Hq) as [[I1 I2 I2' I3 I4 I4' I5 I6 I7 I8 I9 I10] Hback].
  cbn [store queued hand flight bound held q_events c_events q_seen c_seen set_queued] in *.
  split; cbn [store queued hand flight bound held q_events c_events q_seen c_seen set_hand set_queued]; try done.
  intros p' Hp' Hw Hl. destruct (I10 p' Hp' Hw Hl) as [H|[H|[H|[H|(e & He & Hu & _)]]]];
    [by left|by right; left|by right; right; left|by right; right; right; left|].
  left. cbn in He |- *. rewrite Hp in He. injection He as <-. destruct (I1 _ _ Hp') as [_ Hfp'].
  rewrite <- (fine_same p p' Hfp Hfp' Hu) in Hp' |- *. by apply (Hback p'); [|apply wanted_unassigned].
Qed.

Lemma bound_inv P l1 b l2 : pinv P -> flight P = l1 ++ b :: l2 -> pinv (set_flight (l1 ++ l2) (b :: bound P) P).
Proof.
  intros [I1 I2 I2' I3 I4 I4' I5 I6 I7 I8 I9 I10] El.
  assert (forall x, x ∈ flight P -> x ∈ l1 ++ l2 \/ x = b) as Hin by (rewrite El; set_solver).
  split; cbn [store queued hand flight bound held q_events c_events q_seen c_seen set_flight]; try done.
  - rewrite El in I3. apply Forall_app in I3 as [? I3]. apply Forall_cons in I3 as [_ ?]. by apply Forall_app.
  - intros u n (x & Hx & H)%I8. exists x. split; [|done]. destruct Hx as [[Hx| ->]%Hin|Hx]; [by left|right; by left|right; by right].
  - intros p Hp Hw Hl. destruct (I10 p Hp Hw Hl) as [H|[(x & [Hx| ->]%Hin & H)|[(x & Hx & H)|H]]].
    + by left.
    + right; left. by exists x.
    + right; right; left. exists b. by split; [left|].
    + right; right; left. exists x. by split; [right|].
    + by right; right; right.
Qed.

Lemma unbind_inv P l1 b l2 q' h' :
  pinv P -> flight P = l1 ++ b :: l2 -> (forall j, q' j = requeue (store P) (pid b) (queued P) j) ->
  (forall u, h' u = forget b (held P) u) -> pinv (set_flight (l1 ++ l2) (bound P) (set_held h' (set_queued q' P))).
Proof.
  intros HP El Hq Hh. destruct (requeue_inv P (pid b) q' HP Hq) as [[I1 I2 I2' I3 I4 I4' I5 I6 I7 I8 I9 I10] Hback].
  cbn [store queued hand flight bound held q_events c_events q_seen c_seen set_queued] in *.
  assert (forall x, x ∈ flight P -> x ∈ l1 ++ l2 \/ x = b) as Hin by (rewrite El; set_solver).
  assert (forall u n, h' u = Some (false, n) <-> held P u = Some (false, n)) as Hfalse.
  { intros u n. rewrite Hh. unfold forget. case_decide; [|done]. destruct (held P u) as [[[] m]|]; [|done|done]. destruct (String.eqb _ _); naive_solver. }
  rewrite El in I3. apply Forall_app in I3 as [F1 I3]. apply Forall_cons in I3 as [Fb F2].
  split; cbn [store queued hand flight bound held q_events c_events q_seen c_seen set_flight set_held set_queued]; try done.
  - by apply Forall_app.
  - intros u n. rewrite Hh. intros H. assert (held P u = Some (true, n) /\ ~ (UID b = u /\ NodeName (Spec b) = n)) as [Hu Hne].
    { unfold forget in H. case_decide as E; [|split; [done|naive_solver]]. destruct (held P u) as [[[] m]|]; [|done|done].
      destruct (String.eqb_spec m (NodeName (Spec b))); [done|]. split; [done|]. injection H as <-. naive_solver. }
    apply I8 in Hu as (x & [[Hx| ->]%Hin|Hx] & H'); [exists x; split; [by left|done]|done|exists x; split; [by right|done]].
  - intros u n. by rewrite Hfalse.
  - intros p Hp Hw Hl. destruct (I10 p Hp Hw Hl) as [H|[(x & [Hx| ->]%Hin & H)|[H|H]]].
    + by left.
    + right; left. by exists x.
    + left. cbn. destruct (I1 _ _ Hp) as [_ Hfp]. rewrite <- (fine_same b p Fb Hfp H) in Hp |- *.
      by apply (Hback p); [|apply wanted_unassigned].
    + by right; right; left.
    + by right; right; right.
Qed.

Lemma expire_inv P h' :
  pinv P -> (forall u, h' u = held P u \/ (exists n, held P u = Some (true, n)) /\ h' u = None) -> pinv (set_held h' P).
Proof.
  intros [I1 I2 I2' I3 I4 I4' I5 I6 I7 I8 I9 I10] Hh. split; cbn [store queued hand flight bound held q_events c_events q_seen c_seen set_held]; try done.
  - intros u n. destruct (Hh u) as [->|[_ ->]]; [apply I8|done].
  - intros u n. rewrite <- I9. destruct (Hh u) as [->|[[m ->] ->]]; [done|naive_solver].
Qed.

Lemma idle_inv P q' h' st' :
  pinv P -> (forall j, q' j = queued P j) -> (forall u, h' u = held P u) -> (forall i, st' i = store P i) ->
  pinv (mkProtocol q' (hand P) (flight P) (bound P) h' st' (q_events P) (c_events P) (q_seen P) (c_seen P)).
Proof.
  intros [I1 I2 I2' I3 I4 I4' I5 I6 I7 I8 I9 I10] Hq Hh Hst.
  split; cbn [store queued hand flight bound held q_events c_events q_seen c_seen]; try done.
  - intros i p. rewrite Hst. apply I1.
  - intros i p. rewrite Hq. apply I2.
  - by eapply chain_ext, I5.
  - by eapply chain_ext, I6.
  - intros e p. rewrite Hq, Hst. apply I7.
  - intros u n. rewrite Hh. apply I8.
  - intros u n. rewrite Hh. apply I9.
  - intros p. rewrite Hst. intros Hp Hw Hl. unfold on_its_way. cbn. rewrite Hq. by apply I10.
Qed.

Lemma pstep_inv P P' : pinv P -> pstep P P' -> pinv P'.
Proof.
  intros HP [e st' He Hst|e l q' v' El Hq Hv|e l h' v' El Hh Hv|i p q' Hno Hp Hq|p Hp Hwhy|p q' Hp Hq|p n h' Hp Hno Hh
    |l1 b l2 El|l1 b l2 q' h' El Hq Hh|h' Hh|q' h' st' Hq Hh Hst].
  - by apply report_inv.
  - by eapply queue_event_inv.
  - by eapply cache_event_inv.
  - by eapply take_inv.
  - by eapply skip_inv.
  - by eapply fail_inv.
  - by eapply assume_inv.
  - by apply bound_inv.
  - by eapply unbind_inv.
  - by apply expire_inv.
  - by apply idle_inv.
Qed.

Lemma preach_inv P : preach P -> pinv P.
Proof.
  induction 1 as [st Hst|P P' _ IH Hs]; [|by eapply pstep_inv].
  split; cbn [start store queued hand flight bound held q_events c_events q_seen c_seen]; try done; try (intros; congruence).
  intros u n. split; [done|]. intros (i & p & H & _). congruence.
Qed.
End protocol.
