(* ===== verification/SchedulerProofs.v ===== *)
(** * No pod is lost

    What a scheduling cycle and a binding cycle do to the queue and the
    cache: every call returns; a pod that was taken from the queue is assumed
    on its host and in the hands of a binding cycle, or back in the queue as
    long as the API server has it unassigned; and the pods that wait are not
    touched. *)

From S2P Require Import Prelude GoInt GoFloat GoStrconv Quantity ApiTypes Labels AffinityTerms Resource HostPorts NodeInfo Json Framework Snapshot NodeTree Cache CacheProofs CacheSnapshot HeapList Heap HeapProofs SchedulingQueue QueueProofs Runtime GenericScheduler GenericProofs FilterLoop ScoreProofs ScheduleProofs Scheduler EventHandlers EventProofs Protocol Samples.

Open Scope go_scope.

Section scheduler_proofs.
Context {arch : GoArch} {gates : FeatureGates} {mr : MapRange} {par : Parallel} {Ext : Type}.
Context (cfg : QueueConfig) `{!LessOrder (lessFn cfg)}.
Context (Profiles : gmap string (frameworkImpl Ext)) (prefer : bool) (client : Client (Ext := Ext)).

(** The informer's copy of the pods does not change while a call to the API
    server runs: it is updated by events. *)
Context (lister_stable : forall x p st, lister_Get client (PatchPodStatus client x p st).1 = lister_Get client x).

(** It finds pods under their names. *)
Context (lister_names : forall x ns name cp, lister_Get client x ns name = Some cp -> pid cp = (ns, name)).

(** The informer has the pod, not assigned to a node. *)
Definition unassigned (x : Ext) (i : podid) : Prop :=
  exists cp, lister_Get client x i.1 i.2 = Some cp /\ NodeName (Spec cp) = ""%string.

(** Every pod that waits in [q] waits in [q']. *)
Definition keeps (q q' : PriorityQueue) : Prop :=
  qinv cfg q' /\ forall j, valid_id j -> is_Some (find q j) -> is_Some (find q' j).

Lemma keeps_refl q : qinv cfg q -> keeps q q.
Proof. by split. Qed.

Lemma keeps_trans q1 q2 q3 : keeps q1 q2 -> keeps q2 q3 -> keeps q1 q3.
Proof. intros [_ H1] [Hq H2]. split; [done|]. auto. Qed.

Lemma keeps_same q q' : qinv cfg q -> QueueProofs.same_pods q q' -> keeps q q'.
Proof.
  intros Hq Hs. split; [by apply (same_shows cfg q q' (find q))|]. intros j Hj. by rewrite (same_find q q').
Qed.

(** ** Failures *)

(** The informer's copy, by the names of pods. *)
Definition store_of (x : Ext) (i : podid) : option Pod := lister_Get client x i.1 i.2.

(** A pod is put back: nothing else changes, and it waits if the informer has
    it unassigned. *)
Lemma requeue_keeps x i w q' :
  valid_id i -> holds_pods cfg q' (requeue (store_of x) i w) ->
  (forall j, valid_id j -> is_Some (w j) -> is_Some (find q' j)) /\ (unassigned x i -> is_Some (find q' i)).
Proof.
  intros Hi [Hq Hw]. split.
  - intros j Hj. rewrite <- podat_is_Some, Hw by done. unfold requeue, put. case_decide as E; [|done].
    subst j. by intros [e ->].
  - intros (cp & Hcp & Hn). rewrite <- podat_is_Some, Hw by done. unfold requeue. rewrite put_eq.
    destruct (w i); [by eexists|]. change (lister_Get client x i.1 i.2) with (store_of x i) in Hcp. rewrite Hcp.
    unfold assignedPod. rewrite Hn. by eexists.
Qed.

Lemma AddUnschedulable_effect now p cycle q :
  qinv cfg q -> valid_pod (qpi_Pod p) ->
  holds_pods cfg (AddUnschedulableIfNotPresent cfg now p cycle q).1
    (put (pid (qpi_Pod p)) (match podat q (pid (qpi_Pod p)) with Some e => Some e | None => Some (qpi_Pod p) end) (podat q)).
Proof.
  intros Hq Hv. pose proof (AddUnschedulable_ok cfg now p cycle q Hq Hv) as H. cbv zeta in H.
  destruct (find q (pid (qpi_Pod p))) as [[pl p0]|] eqn:Ef.
  - rewrite H. cbn [fst]. split; [done|]. intros j Hj. unfold put. case_decide; [|done]. subst j. unfold podat. by rewrite Ef.
  - destruct H as (_ & _ & _ & [Hq' Hw]%shows_holds). split; [done|]. intros j Hj. rewrite Hw by done. unfold put, w_put.
    case_decide; [|done]. unfold podat. by rewrite Ef.
Qed.

Lemma DefaultErrorFunc_effect now p err (s : Scheduler (Ext := Ext)) :
  qinv cfg (SchedulingQueue s) -> valid_pod (qpi_Pod p) ->
  let r := DefaultErrorFunc cfg client now p err s in
  holds_pods cfg (SchedulingQueue r.1) (requeue (store_of (sched_ext s)) (pid (qpi_Pod p)) (podat (SchedulingQueue s))) /\
  sched_ext r.1 = sched_ext s /\ SchedulerCache r.1 = SchedulerCache (drop_missing_node client err s) /\
  Algorithm r.1 = Algorithm s.
Proof.
  intros Hq Hv. unfold DefaultErrorFunc. set (s1 := drop_missing_node client err s).
  assert (SchedulingQueue s1 = SchedulingQueue s /\ sched_ext s1 = sched_ext s /\ Algorithm s1 = Algorithm s) as (Hq1 & Hx1 & Ha1).
  { unfold s1, drop_missing_node. destruct err; [done|]. destruct (String.eqb _ _); [done|].
    destruct (not_found_node _ _); [|done]. by destruct (node_missing _ _ _). }
  rewrite Hx1. cbv zeta. set (i := pid (qpi_Pod p)).
  assert (forall o, store_of (sched_ext s) i = o -> match o with Some cp => assignedPod cp = true | None => True end ->
    holds_pods cfg (SchedulingQueue s1) (requeue (store_of (sched_ext s)) i (podat (SchedulingQueue s)))) as Hstay.
  { intros o Ho Hcase. rewrite Hq1. split; [done|]. intros j Hj. unfold requeue, put. case_decide as E; [|done]. subst j.
    rewrite Ho. destruct (podat _ i); [done|]. destruct o as [cp|]; [by rewrite Hcase|done]. }
  change (lister_Get client (sched_ext s) (Namespace (qpi_Pod p)) (Name (qpi_Pod p))) with (store_of (sched_ext s) i).
  destruct (store_of (sched_ext s) i) as [cp|] eqn:Hl; [|split_and!; [by apply (Hstay None)|done..]].
  destruct (Nat.eqb_spec (String.length (NodeName (Spec cp))) 0) as [E0|E0]; cbn [negb].
  2: { split_and!; [|done..]. apply (Hstay (Some cp)); [done|]. unfold assignedPod. by destruct (Nat.eqb_spec (String.length (NodeName (Spec cp))) 0). }
  set (p1 := mkQueuedPodInfo _ _ _ _ _ _). set (q1 := set_next_addr _ _).
  assert (qpi_Pod p1 = cp) as Hcp by done. assert (pid cp = i) as Hpid by apply (lister_names _ _ _ _ Hl).
  destruct (same_holds cfg (SchedulingQueue s) q1 Hq) as [Hqq Hw1]; [unfold q1; by rewrite Hq1|].
  assert (valid_pod (qpi_Pod p1)) as Hv1 by (rewrite Hcp; unfold valid_pod; by rewrite Hpid).
  destruct (AddUnschedulable_effect now p1 (schedulingCycle q1) q1 Hqq Hv1) as [Hq2 Hw2].
  destruct (AddUnschedulableIfNotPresent cfg now p1 (schedulingCycle q1) q1) as [q2 e].
  cbn [fst SchedulingQueue sched_ext SchedulerCache Algorithm set_queue] in *. split_and!; [|done..]. split; [done|].
  intros j Hj. rewrite Hw2 by done. rewrite Hcp, Hpid. unfold requeue, put. case_decide as E; [|by apply Hw1].
  subst j. rewrite Hw1, Hl by done. unfold assignedPod. by rewrite (proj2 (Nat.eqb_eq _ _) E0).
Qed.

Lemma DefaultErrorFunc_pod now p err (s : Scheduler (Ext := Ext)) :
  pid (qpi_Pod (DefaultErrorFunc cfg client now p err s).2) = pid (qpi_Pod p).
Proof.
  unfold DefaultErrorFunc. set (s1 := drop_missing_node client err s).
  assert (forall u, qpi_Pod (set_UnschedulablePlugins u p) = qpi_Pod p) as Hu by done. cbv zeta.
  destruct (lister_Get _ _ _ _) as [cp|] eqn:Hl; [|by destruct err].
  destruct (negb _); [by destruct err|]. destruct (AddUnschedulableIfNotPresent _ _ _ _ _).
  simpl. apply (lister_names _ _ _ _ Hl).
Qed.

(** The API server may have taken a new status. *)
Definition patched (x x' : Ext) : Prop := x' = x \/ exists p st, x' = (PatchPodStatus client x p st).1.

Lemma patched_store x x' i : patched x x' -> store_of x' i = store_of x i.
Proof. intros [->|(p & st & ->)]; [done|]. unfold store_of. by rewrite lister_stable. Qed.

(** A failure was recorded for the pod [i]: from the services' state [x] and
    the cache [c], and the pods [w] that waited. *)
Definition recorded (i : podid) (x : Ext) (c : schedulerCache) (w : podid -> option Pod) (err : ScheduleError)
    (s s' : Scheduler (Ext := Ext)) : Prop :=
  holds_pods cfg (SchedulingQueue s') (requeue (store_of x) i w) /\
  SchedulerCache s' = SchedulerCache (drop_missing_node client err (set_cache c (set_ext x s))) /\
  Algorithm s' = Algorithm s /\ patched x (sched_ext s').

Lemma drop_missing_cache err (s1 s2 : Scheduler (Ext := Ext)) :
  SchedulerCache s1 = SchedulerCache s2 -> sched_ext s1 = sched_ext s2 ->
  SchedulerCache (drop_missing_node client err s1) = SchedulerCache (drop_missing_node client err s2).
Proof.
  intros Hc Hx. unfold drop_missing_node. destruct err; [done|]. destruct (String.eqb _ _); [done|].
  destruct (not_found_node _ _); [|done]. rewrite Hx. destruct (node_missing _ _ _); [|done]. cbn. by rewrite Hc.
Qed.

Lemma record_effect now p err reason nominated (s : Scheduler (Ext := Ext)) :
  qinv cfg (SchedulingQueue s) -> valid_pod (qpi_Pod p) ->
  recorded (pid (qpi_Pod p)) (sched_ext s) (SchedulerCache s) (podat (SchedulingQueue s)) err s
    (recordSchedulingFailure cfg client now p err reason nominated s).
Proof.
  intros Hq Hv. unfold recordSchedulingFailure, recorded. pose proof (DefaultErrorFunc_effect now p err s Hq Hv) as ([Hq1 Hw] & Hx & Hc & Ha).
  destruct (DefaultErrorFunc cfg client now p err s) as [s1 p1]. cbn [fst] in *.
  destruct (update_status _ _ _ _ _ _) as [x e] eqn:Hup. cbn [SchedulingQueue SchedulerCache Algorithm set_ext set_queue sched_ext].
  split_and!; [|rewrite Hc; by apply drop_missing_cache|done|].
  - destruct (same_holds cfg (SchedulingQueue s1) (AddNominatedPod p1 nominated (SchedulingQueue s1)) Hq1) as [Hq2 Hw2]; [by repeat split|].
    split; [done|]. intros j Hj. rewrite Hw2 by done. by apply Hw.
  - unfold update_status in Hup. destruct (UpdatePodCondition _ _ _) as [st b]. cbn [sched_ext set_queue] in Hup.
    rewrite Hx in Hup. destruct (_ && _); [injection Hup as <- _; by left|]. right. do 2 eexists. by rewrite Hup.
Qed.

Lemma recorded_keeps i x c err w (s s' : Scheduler (Ext := Ext)) :
  valid_id i -> recorded i x c w err s s' ->
  qinv cfg (SchedulingQueue s') /\ (forall j, valid_id j -> is_Some (w j) -> is_Some (find (SchedulingQueue s') j)) /\
  (unassigned (sched_ext s') i -> is_Some (find (SchedulingQueue s') i)).
Proof.
  intros Hi (Hh & _ & _ & Hp). destruct (requeue_keeps x i w _ Hi Hh) as [Hk Hin]. split_and!; [apply Hh|done|].
  intros (cp & Hcp & Hn). apply Hin. exists cp. split; [|done].
  change (store_of x i = Some cp). by rewrite <- (patched_store x (sched_ext s') i Hp).
Qed.

Lemma recorded_ext i x c w w' err (s1 s s' : Scheduler (Ext := Ext)) :
  recorded i x c w err s1 s' -> (forall j, valid_id j -> w j = w' j) -> valid_id i -> Algorithm s1 = Algorithm s ->
  recorded i x c w' err s s'.
Proof.
  intros ([Ha Hb] & H2 & H3 & H4) Hsame Hi HA. split_and!; [|rewrite H2; by apply drop_missing_cache|congruence|done].
  split; [done|]. intros j Hj. rewrite Hb by done. unfold requeue, put. case_decide; [by rewrite Hsame|by apply Hsame].
Qed.

(** ** The plugins return *)

(** States of the services outside in which the plugins of a profile do not
    panic on a pod; they keep them so. *)
Context (good : Ext -> Pod -> Prop).

(** The pods that plugins ask to activate have names of the API. *)
Definition stash_ok (st : CycleState) : Prop := map_Forall (fun _ => valid_pod) (podsToActivate st).

Record profile_ok (f : frameworkImpl Ext) : Prop := {
  po_filters : HasFilterPlugins f = true /\ filters_return f;
  po_scores : scores_return f /\ exists enabled, configured f enabled;
  po_prefilter : Forall (fun pl => forall x st p, good x p -> stash_ok st ->
    exists x' st' r, pf_PreFilter Ext pl x st p = Ret (x', st', r) /\ good x' p /\ stash_ok st') (preFilterPlugins Ext f);
  po_prescore : prescore_keeps f stash_ok;
  po_postfilter : Forall (fun pl => forall x st p m, good x p ->
    exists x' res r, po_PostFilter Ext pl x st p m = Ret (x', res, r) /\ good x' p) (postFilterPlugins Ext f);
  po_reserve : Forall (fun pl => forall x st p h, good x p ->
    (stash_ok st -> exists x' st' r, rs_Reserve Ext pl x st p h = Ret (x', st', r) /\ good x' p /\ stash_ok st') /\
    (exists x' st', rs_Unreserve Ext pl x st p h = Ret (x', st') /\ good x' p)) (reservePlugins Ext f);
  po_permit : Forall (fun pl => forall x st p h, good x p ->
    exists x' r t, pm_Permit Ext pl x st p h = Ret (x', r, t) /\ good x' p) (permitPlugins Ext f)
}.

Section profile.
Context (f : frameworkImpl Ext) (Hf : profile_ok f).

Lemma prefilter_returns x st p : good x p -> stash_ok st ->
  exists x' st' r, RunPreFilterPlugins f x st p = Ret (x', st', r) /\ good x' p /\ stash_ok st'.
Proof.
  unfold RunPreFilterPlugins. pose proof (po_prefilter f Hf) as H. revert x st.
  induction H as [|pl pls Hpl H IH]; intros x st Hg Hst; simpl; [by do 3 eexists|].
  destruct (Hpl x st p Hg Hst) as (x' & st' & r & -> & Hg' & Hst'). cbn [obind].
  destruct (IsSuccess r); [by apply IH|]. destruct (IsUnschedulable r); by do 3 eexists.
Qed.

Lemma postfilter_returns x st p m : good x p ->
  exists x' res r, RunPostFilterPlugins f x st p m = Ret (x', res, r) /\ good x' p.
Proof.
  unfold RunPostFilterPlugins. pose proof (po_postfilter f Hf) as H. revert x. generalize (∅ : gmap string FStatus) as acc.
  induction H as [|pl pls Hpl H IH]; intros acc x Hg; simpl; [by do 3 eexists|].
  destruct (Hpl x st p m Hg) as (x' & res & r & -> & Hg'). cbn [obind].
  destruct (IsSuccess r) eqn:Er; [by do 3 eexists|]. destruct r as [r|]; [|done].
  destruct (negb _); [by do 3 eexists|]. by apply IH.
Qed.

Lemma reserve_returns x st p h : good x p -> stash_ok st ->
  exists x' st' r, RunReservePluginsReserve f x st p h = Ret (x', st', r) /\ good x' p /\ stash_ok st'.
Proof.
  unfold RunReservePluginsReserve. pose proof (po_reserve f Hf) as H. revert x st.
  induction H as [|pl pls Hpl H IH]; intros x st Hg Hst; simpl; [by do 3 eexists|].
  destruct (proj1 (Hpl x st p h Hg) Hst) as (x' & st' & r & -> & Hg' & Hst'). cbn [obind].
  destruct (IsSuccess r); [by apply IH|by do 3 eexists].
Qed.

Lemma unreserve_returns x st p h : good x p ->
  exists x' st', RunReservePluginsUnreserve f x st p h = Ret (x', st') /\ good x' p.
Proof.
  unfold RunReservePluginsUnreserve. pose proof (Forall_rev (po_reserve f Hf)) as H. revert x st.
  induction H as [|pl pls Hpl H IH]; intros x st Hg; simpl; [by do 2 eexists|].
  destruct (proj2 (Hpl x st p h Hg)) as (x' & st' & -> & Hg'). cbn [obind]. by apply IH.
Qed.

Lemma permit_returns w x st p h : good x p ->
  exists w' x' r, RunPermitPlugins f w x st p h = Ret (w', x', r) /\ good x' p.
Proof.
  intros Hg. unfold RunPermitPlugins.
  assert (forall acc, exists x' res, run_permit (permitPlugins Ext f) acc x st p h = Ret (x', res) /\ good x' p) as Hrun.
  { revert x Hg. pose proof (po_permit f Hf) as H. induction H as [|pl pls Hpl H IH]; intros x Hg acc; simpl; [by do 2 eexists|].
    destruct (Hpl x st p h Hg) as (x' & r & t & -> & Hg'). cbn [obind].
    destruct (IsSuccess r) eqn:Er; [by apply IH|]. destruct r as [r|]; [|done].
    destruct (IsUnschedulable _); [by do 2 eexists|]. destruct (bool_decide _); [by apply IH|by do 2 eexists]. }
  destruct (Hrun ∅) as (x' & res & -> & Hg'). cbn [obind].
  destruct res as [w1|]; [destruct (size w1 =? 0)%nat|]; by do 3 eexists.
Qed.
End profile.

(** ** Undoing *)

(** The pod is not assumed on its host. *)
Definition not_assumed_there (p : Pod) (c : schedulerCache) : Prop :=
  UID p ∈ assumedPods c -> forall ps, podStates c !! UID p = Some ps -> NodeName (Spec (ps_pod ps)) <> NodeName (Spec p).

Lemma ForgetPod_forgets p c c' e :
  cache_inv c -> UID p <> ""%string -> ForgetPod p c = Ret (c', e) -> cache_inv c' /\ not_assumed_there p c'.
Proof.
  intros Hc Hu Hf. split.
  { destruct (ForgetPod_inv p c Hc) as (c1 & e1 & H & Hi). rewrite Hf in H. by injection H as -> ->. }
  unfold ForgetPod in Hf. assert (GetPodKey p = (UID p, None)) as Hk by (unfold GetPodKey; by destruct (UID p)).
  rewrite Hk in Hf. destruct (podStates c !! UID p) as [ps|] eqn:Hps.
  2: { injection Hf as <- _. intros _ ps' E. congruence. }
  destruct (String.eqb_spec (NodeName (Spec (ps_pod ps))) (NodeName (Spec p))) as [En|En]; cbn [negb] in Hf.
  2: { injection Hf as <- _. intros _ ps' E. congruence. }
  case_bool_decide as Ha; [|injection Hf as <- _; by intros ?].
  destruct (drop_pod_inv p ps (assumedPods c ∖ {[UID p]}) c Hc Hps En) as (c1 & Hr & _); [by right|set_solver|].
  rewrite Hr in Hf. cbn [obind] in Hf. injection Hf as <- _. intros H. simpl in H. set_solver.
Qed.

Lemma RemoveNode_pods node c : CacheProofs.same_pods c (cache_RemoveNode node c).1.
Proof.
  unfold cache_RemoveNode. destruct (nodes c !! node_Name node) as [it|] eqn:En; [|done].
  assert (CacheProofs.same_pods c (on_info (node_Name node) RemoveNode c)) as [H1 H2].
  { unfold on_info. destruct (nodes c !! node_Name node); [|done]. by destruct (RemoveNode _ _). }
  set (c1 := on_info _ _ c) in *.
  set (c2 := if (length (Pods (it_info it)) =? 0)%nat then removeNodeInfoFromList _ c1 else moveNodeInfoToHead _ c1).
  assert (CacheProofs.same_pods c c2) as [H3 H4].
  { unfold c2. by destruct (_ =? _)%nat; split. }
  destruct (removeNode node (c_nodeTree c2)) as [t [e|]]; [done|]. cbn [fst].
  unfold removeNodeImageStates. by split.
Qed.

Lemma drop_missing_pods err (s : Scheduler (Ext := Ext)) :
  CacheProofs.same_pods (SchedulerCache s) (SchedulerCache (drop_missing_node client err s)).
Proof.
  unfold drop_missing_node. destruct err; [done|]. destruct (String.eqb _ _); [done|].
  destruct (not_found_node _ _); [|done]. destruct (node_missing _ _ _); [|done]. apply RemoveNode_pods.
Qed.

(** The plugins undo, the cache forgets and the failure is recorded. *)
Lemma undo_effect now f p host st err reason (s : Scheduler (Ext := Ext)) :
  profile_ok f -> qinv cfg (SchedulingQueue s) -> cache_inv (SchedulerCache s) -> good (sched_ext s) (qpi_Pod p) ->
  valid_pod (qpi_Pod p) ->
  exists s' x c e, undo cfg client now f p host st err reason s = Ret s' /\ good x (qpi_Pod p) /\
    ForgetPod (qpi_Pod p) (SchedulerCache s) = Ret (c, e) /\
    recorded (pid (qpi_Pod p)) x c (podat (SchedulingQueue s)) err s s'.
Proof.
  intros Hf Hq Hc Hg Hv. unfold undo.
  destruct (unreserve_returns f Hf _ st (qpi_Pod p) host Hg) as (x' & st' & -> & Hg'). cbn [obind fst].
  destruct (ForgetPod_inv (qpi_Pod p) (SchedulerCache (set_ext x' s)) Hc) as (c' & e & Hfo & _). rewrite Hfo. cbn [obind fst].
  do 4 eexists. split_and!; [done|exact Hg'|exact Hfo|].
  destruct (record_effect now p err reason "" (set_cache c' (set_ext x' s)) Hq Hv) as (H1 & H2 & H3 & H4). by split_and!.
Qed.

(** ** The scheduling cycle *)

Context (good_node : forall x p h, good x p -> good x (set_NodeName h p)).

Lemma activate_holds st (s : Scheduler (Ext := Ext)) :
  qinv cfg (SchedulingQueue s) -> stash_ok st ->
  exists s', activate_stashed cfg st s = Ret s' /\ holds_pods cfg (SchedulingQueue s') (podat (SchedulingQueue s)) /\
    SchedulerCache s' = SchedulerCache s /\ sched_ext s' = sched_ext s /\ Algorithm s' = Algorithm s.
Proof.
  intros Hq Hst. unfold activate_stashed. destruct (negb _).
  2: { exists s. by split_and!. }
  destruct (Activate_ok cfg (podsToActivate st) (SchedulingQueue s) Hq Hst) as (q' & -> & [Hq' Hf]%shows_holds & _). cbn [obind].
  eexists. split_and!; [done| |done|done|done]. split; [done|]. intros j Hj. cbn [SchedulingQueue set_queue].
  rewrite Hf by done. destruct (named _ _); [|done]. unfold podat. by destruct (find _ j) as [[]|].
Qed.

Lemma holds_keeps q q' : holds_pods cfg q' (podat q) -> keeps q q'.
Proof. intros [Hq Hw]. split; [done|]. intros j Hj. by rewrite <- !podat_is_Some, Hw. Qed.

Lemma AssumePod_ok p c c' : AssumePod p c = (c', None) -> IsAssumedPod p c' = (true, None) /\ UID p <> ""%string.
Proof.
  unfold AssumePod, IsAssumedPod. destruct (GetPodKey p) as [k [e|]] eqn:Hk; [done|].
  destruct (podStates c !! k); [done|]. intros [= <-]. apply GetPodKey_Some in Hk as [-> Hu]. split; [|done].
  simpl. rewrite bool_decide_eq_true_2 by set_solver. done.
Qed.

(** What the part after [Schedule] does with the pod: [ap] is the pod on its
    host. *)
Definition committed (p : QueuedPodInfo) (host : string) (s s' : Scheduler (Ext := Ext)) (e : cycle_end) : Prop :=
  let ap := set_NodeName host (qpi_Pod p) in
  let r := AssumePod ap (SchedulerCache s) in
  match e with
  | CycleFailed pod => pod = qpi_Pod p /\ exists x c err, good x ap /\
      (c = r.1 /\ r.2 <> None \/ r.2 = None /\ exists e', ForgetPod ap r.1 = Ret (c, e')) /\
      recorded (pid pod) x c (podat (SchedulingQueue s)) err s s'
  | CycleBinding b => qpi_Pod (b_podInfo b) = ap /\ b_host b = host /\ b_stage b = WaitingOnPermit /\
      b_profile b = SchedulerName (Spec (qpi_Pod p)) /\ stash_ok (b_state b) /\
      r.2 = None /\ SchedulerCache s' = r.1 /\ Algorithm s' = Algorithm s /\ good (sched_ext s') ap /\
      holds_pods cfg (SchedulingQueue s') (podat (SchedulingQueue s))
  | _ => False
  end.

Lemma commit_effect now f p host st (s : Scheduler (Ext := Ext)) :
  profile_ok f -> qinv cfg (SchedulingQueue s) -> cache_inv (SchedulerCache s) -> good (sched_ext s) (qpi_Pod p) ->
  valid_pod (qpi_Pod p) -> stash_ok st ->
  exists s' e, commit cfg client now f p host st s = Ret (s', e) /\ committed p host s s' e.
Proof.
  intros Hf Hq Hc Hg Hv Hst. unfold commit, QPI_DeepCopy, assume.
  set (p1 := mkQueuedPodInfo _ _ _ _ _ _). change (qpi_Pod p1) with (qpi_Pod p). set (q1 := set_next_addr _ _). set (ap := set_NodeName host (qpi_Pod p)).
  assert (pid ap = pid (qpi_Pod p) /\ valid_pod ap) as [Hpid Hvp] by done.
  pose proof (good_node _ _ host Hg : good (sched_ext s) ap) as Hga.
  destruct (same_holds cfg (SchedulingQueue s) q1 Hq) as [Hq1 Hw1]; [by repeat split|].
  cbn [SchedulerCache set_queue]. destruct (AssumePod ap (SchedulerCache s)) as [c1 [e|]] eqn:Has; cbv beta iota zeta.
  { cbn [SchedulingQueue set_cache set_queue]. set (pi := set_qpi_PodInfo _ _). set (s1 := set_cache c1 (set_queue q1 s)).
    do 2 eexists. split; [done|]. unfold committed. fold ap. rewrite Has. cbn [fst snd]. split; [done|]. exists (sched_ext s), c1, (ScheduleErr e). split_and!; [done|by left|].
    eapply recorded_ext; [exact (record_effect now pi (ScheduleErr e) SchedulerError "" s1 Hq1 Hvp)|done|done|done]. }
  assert (cache_inv c1) as Hc1. { pose proof (AssumePod_inv ap _ Hc) as H. by rewrite Has in H. }
  cbn [SchedulingQueue set_queue set_cache]. set (q2 := set_nominator _ q1). set (pi := set_qpi_PodInfo _ _).
  assert (qpi_Pod pi = ap) as Hpi by done.
  destruct (same_holds cfg (SchedulingQueue s) q2 Hq) as [Hq2 Hw2]; [by repeat split|].
  cbn [sched_ext set_queue set_cache].
  destruct (reserve_returns f Hf (sched_ext s) st ap host Hga Hst) as (x & st' & sts & -> & Hgx & Hst'). cbn [obind].
  unfold committed. fold ap. rewrite Has. cbn [fst snd].
  assert (forall err reason s1, SchedulingQueue s1 = q2 -> SchedulerCache s1 = c1 -> Algorithm s1 = Algorithm s -> good (sched_ext s1) ap ->
    exists s' e, (let! s' := undo cfg client now f pi host st' err reason s1 in Ret (s', CycleFailed (qpi_Pod p))) = Ret (s', e) /\
      match e with
      | CycleFailed pod => pod = qpi_Pod p /\ exists x c err, good x ap /\
          (c = c1 /\ (None : error) <> None \/ (None : error) = None /\ exists e', ForgetPod ap c1 = Ret (c, e')) /\
          recorded (pid pod) x c (podat (SchedulingQueue s)) err s s'
      | _ => False
      end) as Hundo.
  { intros err reason s1 E1 E2 E3 Hg1.
    destruct (undo_effect now f pi host st' err reason s1) as (s' & x' & c' & e' & -> & Hgx' & Hfo & Hr); try done;
      [by rewrite E1|by rewrite E2|]. cbn [obind]. do 2 eexists. split; [done|]. split; [done|]. exists x', c', err.
    rewrite E2 in Hfo. split_and!; [done|right; split; [done|by eexists]|]. eapply recorded_ext; [exact Hr|by rewrite E1|done|done]. }
  destruct (negb (IsSuccess sts)).
  { match goal with |- context [undo _ _ _ _ _ _ _ ?err ?reason ?s1] =>
      destruct (Hundo err reason s1) as (s' & e & -> & He); [done..|] end. exists s', e. split; [done|]. by destruct e. }
  set (s2 := set_ext x _).
  destruct (permit_returns f Hf (profile_waiting (SchedulerName (Spec (qpi_Pod p))) s2) x st' ap host Hgx) as (w & x' & r & Hper & Hgx').
  change (sched_ext s2) with x. rewrite Hper. cbn [obind]. destruct (_ && _).
  { match goal with |- context [undo _ _ _ _ _ _ _ ?err ?reason ?s1] =>
      destruct (Hundo err reason s1) as (s' & e & -> & He); [done..|] end. exists s', e. split; [done|]. by destruct e. }
  set (s3 := set_ext x' _). destruct (activate_holds st' s3 Hq2 Hst') as (s' & -> & [Hq' Hw'] & Hcache & Hext & Halg). cbn [obind].
  do 2 eexists. split; [done|]. cbn [b_podInfo b_host b_stage b_profile b_state].
  rewrite Hcache, Hext, Halg. split_and!; try done.
  unfold stash_ok, podsToActivate, CS_Read. cbn [storage CS_Write]. by rewrite lookup_insert_eq.
Qed.

Lemma with_world_inv w c : cache_inv c -> cache_inv (with_world w c).
Proof. intros [H1 H2 H3 H4 H5]. by constructor. Qed.

Lemma post_filter_effect f st p err (s : Scheduler (Ext := Ext)) :
  profile_ok f -> good (sched_ext s) p -> exists x n, post_filter f st p err s = Ret (set_ext x s, n) /\ good x p.
Proof.
  intros Hf Hg. assert (s = set_ext (sched_ext s) s) as Hs by (by destruct s).
  unfold post_filter. destruct err as [n d|e]; [|exists (sched_ext s), ""%string; by rewrite <- Hs].
  destruct (negb _); [exists (sched_ext s), ""%string; by rewrite <- Hs|].
  destruct (postfilter_returns f Hf (sched_ext s) st p (NodeToStatusMap d) Hg) as (x & res & r & -> & Hg'). cbn [obind].
  by do 2 eexists.
Qed.

Lemma Pop_nominator q q' r : Pop cfg q = Ret (q', r) -> q_nominator q' = q_nominator q.
Proof.
  unfold Pop. destruct (_ =? _)%nat; [destruct (closed q); by intros [= <- _]|].
  destruct (Heap_Pop _ _) as [[h [p|e]]|]; [| |done]; by intros [= <- _].
Qed.

(** [Schedule] answered with the scheduler [g], having made the clones of
    [w]. *)
Definition scheduled (draw : nat -> Z -> Z) (s : Scheduler (Ext := Ext)) (pod : Pod) (g : genericScheduler) (w : World) : Prop :=
  exists f st0 x st res, Schedule f prefer draw (SchedulerCache s) (Algorithm s) [] (q_nominator (SchedulingQueue s))
    (sched_ext s) st0 pod = Ret (g, x, st, w, res).

(** What the algorithm decided on the pod [pod], and the state it left. *)
Definition decided (draw : nat -> Z -> Z) (s s' : Scheduler (Ext := Ext)) (pod : Pod)
    (d : option (frameworkImpl Ext * CycleState * (ScheduleResult + ScheduleError))) : Prop :=
  let c := SchedulerCache s in
  match d with
  | None => s' = s /\
      (Profiles !! SchedulerName (Spec pod) = None \/ is_Some (DeletionTimestamp pod) \/ IsAssumedPod pod c = (true, None))
  | Some (f, st, res) => Profiles !! SchedulerName (Spec pod) = Some f /\ DeletionTimestamp pod = None /\ stash_ok st /\
      exists g w x, scheduled draw s pod g w /\ nodeInfoSnapshot g = (UpdateSnapshot c (nodeInfoSnapshot (Algorithm s))).1 /\
        s' = set_ext x (set_algorithm g (set_cache (with_world w c) s)) /\ good x pod /\
        match res with
        | inl r => exists st nd, node_Name nd = SuggestedHost r /\ fits f c (q_nominator (SchedulingQueue s)) pod st nd
        | inr _ => True
        end
  end.

(** The states in which the algorithm runs. *)
Record decide_start (s : Scheduler (Ext := Ext)) : Prop := {
  ds_system : system (SchedulerCache s) (nodeInfoSnapshot (Algorithm s));
  ds_room : room (SchedulerCache s);
  ds_nodes : Z.of_nat (length (all_nodes (c_nodeTree (SchedulerCache s)))) * 100 <= MaxInt32;
  ds_profiles : map_Forall (fun _ => profile_ok) Profiles
}.

Lemma decide_effect draw sampled pi (s : Scheduler (Ext := Ext)) :
  decide_start s -> good (sched_ext s) (qpi_Pod pi) ->
  exists s' d, decide_on Profiles [] prefer draw sampled pi s = Ret (s', d) /\ decided draw s s' (qpi_Pod pi) d.
Proof.
  intros [Hsys Hroom Hn Hprof] Hg. unfold decide_on. set (pod := qpi_Pod pi) in *. unfold frameworkForPod.
  destruct (Profiles !! SchedulerName (Spec pod)) as [f|] eqn:Hprofile.
  2: { exists s, None. split; [done|]. split; [done|by left]. }
  pose proof (Hprof _ _ Hprofile) as Hf. cbn beta in Hf.
  destruct (skipPodSchedule pod s) eqn:Hskip.
  { exists s, None. split; [done|]. split; [done|]. right. unfold skipPodSchedule in Hskip.
    destruct (DeletionTimestamp pod); [left; by eexists|right].
    destruct (IsAssumedPod pod (SchedulerCache s)) as [b [e|]]; [done|]. by rewrite Hskip. }
  assert (DeletionTimestamp pod = None) as Hlive by (unfold skipPodSchedule in Hskip; by destruct (DeletionTimestamp pod)).
  set (state0 := CS_Write _ _ _).
  assert (stash_ok state0) as Hst0.
  { unfold stash_ok, state0, podsToActivate, CS_Read. cbn [storage CS_Write]. by rewrite lookup_insert_eq. }
  destruct (prefilter_returns f Hf (sched_ext s) state0 pod Hg Hst0) as (x1 & st1 & r1 & Hpre & Hg1 & Hst1).
  destruct (po_scores f Hf) as (Hsc & enabled & Hconf). destruct (po_filters f Hf) as [Hfp Hfr].
  destruct (Schedule_spec f (SchedulerCache s) (q_nominator (SchedulingQueue s)) pod enabled prefer draw (Algorithm s) (sched_ext s) x1 state0 st1 r1
    Hsys Hroom Hn Hfp Hfr Hsc Hconf Hpre) as (g' & x2 & st2 & w' & res & HS & _ & Hsnap & Hnil & Hcons & Hres).
  rewrite HS. cbn [obind]. eexists _, (Some (f, st2, res)). split; [done|].
  assert (good x2 pod /\ stash_ok st2) as [Hg2 Hst2].
  { destruct (decide (all_nodes (c_nodeTree (SchedulerCache s)) = [])) as [E|E].
    - by destruct (Hnil E) as [-> ->].
    - destruct (Hcons E) as [-> HP]. split; [done|]. apply HP; [apply (po_prescore f Hf)|done]. }
  split_and!; [done|done|done|]. exists g', w', x2. split_and!; [by exists f, state0, x2, st2, res|done|done|done|].
  destruct res as [res|err]; [|done]. destruct Hres as (_ & found & nd & _ & Hin & Hname & HF & _). rewrite Forall_forall in HF.
  exists st1, nd. split; [done|by apply HF].
Qed.

(** What the rest of the cycle does. *)
Definition concluded (p : QueuedPodInfo) (res : ScheduleResult + ScheduleError) (s s' : Scheduler (Ext := Ext)) (e : cycle_end) : Prop :=
  match res with
  | inl r => committed p (SuggestedHost r) s s' e
  | inr err => e = CycleFailed (qpi_Pod p) /\ exists x, good x (qpi_Pod p) /\
      recorded (pid (qpi_Pod p)) x (SchedulerCache s) (podat (SchedulingQueue s)) err s s'
  end.

Lemma conclude_effect now f pi st res (s : Scheduler (Ext := Ext)) :
  profile_ok f -> qinv cfg (SchedulingQueue s) -> cache_inv (SchedulerCache s) -> good (sched_ext s) (qpi_Pod pi) ->
  valid_pod (qpi_Pod pi) -> stash_ok st ->
  exists s' e, conclude cfg client now f pi st res s = Ret (s', e) /\ concluded pi res s s' e.
Proof.
  intros Hf Hq Hc Hg Hv Hst. unfold conclude. destruct res as [res|err]; [by apply commit_effect|].
  destruct (post_filter_effect f st (qpi_Pod pi) err s Hf Hg) as (x3 & n & -> & Hg3). cbn [obind].
  do 2 eexists. split; [done|]. split; [done|]. exists x3. split; [done|].
  eapply recorded_ext; [exact (record_effect now pi err PodReasonUnschedulable n (set_ext x3 s) Hq Hv)|done|done|done].
Qed.

(** What a cycle does that took the pod [pod]. *)
Definition cycle_effect (draw : nat -> Z -> Z) (s s' : Scheduler (Ext := Ext)) (pod : Pod) (e : cycle_end) : Prop :=
  let c := SchedulerCache s in
  let w0 := put (pid pod) None (podat (SchedulingQueue s)) in
  let snap := (UpdateSnapshot c (nodeInfoSnapshot (Algorithm s))).1 in
  match e with
  | CycleIdle => False
  | CycleSkipped p => p = pod /\
      (Profiles !! SchedulerName (Spec pod) = None \/ is_Some (DeletionTimestamp pod) \/ IsAssumedPod pod c = (true, None)) /\
      SchedulerCache s' = c /\ Algorithm s' = Algorithm s /\ sched_ext s' = sched_ext s /\ holds_pods cfg (SchedulingQueue s') w0
  | CycleFailed p => p = pod /\ exists g w x c' err, scheduled draw s pod g w /\ nodeInfoSnapshot g = snap /\
      (exists h, good x pod \/ good x (set_NodeName h pod)) /\
      (c' = with_world w c \/ exists host, let ap := set_NodeName host pod in let r := AssumePod ap (with_world w c) in
         c' = r.1 /\ r.2 <> None \/ r.2 = None /\ exists e', ForgetPod ap r.1 = Ret (c', e')) /\
      recorded (pid pod) x c' w0 err (set_algorithm g s) s'
  | CycleBinding b => exists g w, scheduled draw s pod g w /\ nodeInfoSnapshot g = snap /\
      qpi_Pod (b_podInfo b) = set_NodeName (b_host b) pod /\ b_stage b = WaitingOnPermit /\ stash_ok (b_state b) /\
      b_profile b = SchedulerName (Spec pod) /\ DeletionTimestamp pod = None /\
      (exists f st nd, Profiles !! b_profile b = Some f /\ node_Name nd = b_host b /\
         fits f c (q_nominator (SchedulingQueue s)) pod st nd) /\
      let r := AssumePod (set_NodeName (b_host b) pod) (with_world w c) in
      r.2 = None /\ SchedulerCache s' = r.1 /\ Algorithm s' = g /\ good (sched_ext s') (set_NodeName (b_host b) pod) /\
      holds_pods cfg (SchedulingQueue s') w0
  end.

(** The states a cycle starts from. *)
Record cycle_start (s : Scheduler (Ext := Ext)) : Prop := {
  cs_queue : qinv cfg (SchedulingQueue s);
  cs_system : system (SchedulerCache s) (nodeInfoSnapshot (Algorithm s));
  cs_room : room (SchedulerCache s);
  cs_nodes : Z.of_nat (length (all_nodes (c_nodeTree (SchedulerCache s)))) * 100 <= MaxInt32;
  cs_profiles : map_Forall (fun _ => profile_ok) Profiles;
  cs_good : forall i pl p, valid_id i -> find (SchedulingQueue s) i = Some (pl, p) -> good (sched_ext s) (qpi_Pod p)
}.

Lemma scheduleOne_effect now draw sampled (s : Scheduler (Ext := Ext)) :
  cycle_start s ->
  exists s' e, scheduleOne cfg Profiles [] prefer client now draw sampled s = Ret (s', e) /\
    ((e = CycleIdle /\ s' = s /\ forall i p, valid_id i -> find (SchedulingQueue s) i <> Some (Active, p)) \/
     exists i p, valid_id i /\ find (SchedulingQueue s) i = Some (Active, p) /\ pid (qpi_Pod p) = i /\
       (forall j p', valid_id j -> find (SchedulingQueue s) j = Some (Active, p') -> lessFn cfg p' p = false) /\
       cycle_effect draw s s' (qpi_Pod p) e).
Proof.
  intros [Hq Hsys Hroom Hn Hprof Hgood]. unfold scheduleOne.
  destruct (Pop_ok cfg (SchedulingQueue s) Hq) as (q' & r & Hpop & [(i & p & Hi & Hp & Hleast & -> & [Hq' Hf']%shows_holds & _)|(Hno & -> & ->)]);
    rewrite Hpop; cbn [obind].
  2: { exists s, CycleIdle. split; [by destruct s, (closed _)|]. left. by split_and!. }
  pose proof (Pop_nominator _ _ _ Hpop) as Hnom. set (pi := set_Attempts _ p). change (qpi_Pod pi) with (qpi_Pod p). set (pod := qpi_Pod p).
  destruct Hq as [Hw Hs]. pose proof (proj1 (find_at _ _ _ _ Hs Hi) Hp) as Hat.
  destruct (at_place_pid cfg _ _ _ _ Hw Hi Hat) as [Hpid Hvp]. fold pod in Hpid, Hvp.
  assert (holds_pods cfg q' (put (pid pod) None (podat (SchedulingQueue s)))) as Hpop'.
  { split; [done|]. intros j Hj. rewrite Hf', Hpid by done. unfold w_del, put. by case_decide. }
  assert (forall s' e, cycle_effect draw s s' pod e ->
    ((e = CycleIdle /\ s' = s /\ forall i p, valid_id i -> find (SchedulingQueue s) i <> Some (Active, p)) \/
     exists i p, valid_id i /\ find (SchedulingQueue s) i = Some (Active, p) /\ pid (qpi_Pod p) = i /\
       (forall j p', valid_id j -> find (SchedulingQueue s) j = Some (Active, p') -> lessFn cfg p' p = false) /\
       cycle_effect draw s s' (qpi_Pod p) e)) as Hend.
  { intros s' e He. right. exists i, p. by split_and!. }
  set (s1 := set_queue q' s). destruct (decide_effect draw sampled pi s1) as (s2 & d & -> & Hd); [by split|exact (Hgood i Active p Hi Hp)|].
  cbn [obind]. change (qpi_Pod pi) with pod in Hd. destruct (system_inv _ _ Hsys) as (Hcache & _).
  destruct d as [[[f st] res]|]; cbn [decided] in Hd; cbv zeta in Hd.
  2: { destruct Hd as [-> Hwhy]. do 2 eexists. split; [done|]. apply Hend. by split_and!. }
  destruct Hd as (Hprofile & Hlive & Hst & g & w & x & (f' & st0 & x' & st' & res' & HS) & Hsnap & -> & Hg & Hres).
  assert (scheduled draw s pod g w) as Hsched.
  { exists f', st0, x', st', res'. by rewrite <- Hnom. }
  destruct (conclude_effect now f pi st res (set_ext x (set_algorithm g (set_cache (with_world w (SchedulerCache s1)) s1)))) as (s' & e & -> & He);
    [exact (Hprof _ _ Hprofile)|done|by apply with_world_inv|done|done|done|].
  exists s', e. split; [done|]. apply Hend. unfold concluded in He. destruct res as [res|err].
  - unfold committed in He. change (qpi_Pod pi) with pod in He. destruct e as [| |p'|b]; [done|done| |].
    + destruct He as (-> & x1 & c & err & Hgx & Hcase & Hr). split; [done|]. exists g, w, x1, c, err.
      split_and!; [done|done|exists (SuggestedHost res); by right|right; by exists (SuggestedHost res)|].
      eapply recorded_ext; [exact Hr|apply Hpop'|done|done].
    + destruct He as (H1 & H2 & H3 & H4 & H5 & H6 & H7 & H8 & H9 & H10). exists g, w. rewrite H2.
      destruct Hres as (st1 & nd & Hname & Hfits). split_and!; try done.
      * exists f, st1, nd. rewrite <- Hnom. split_and!; [by rewrite H4|done|done].
      * cbv zeta. split_and!; try done. split; [apply H10|]. intros j Hj. rewrite (proj2 H10) by done. by apply Hpop'.
  - destruct He as (-> & x1 & Hg1 & Hr). split; [done|]. exists g, w, x1, (with_world w (SchedulerCache s)), err.
    split_and!; [done|done|exists ""%string; by left|by left|]. eapply recorded_ext; [exact Hr|apply Hpop'|done|done].
Qed.

(** How a cycle may end for the pod [p] that it took. *)
Definition cycle_ok (s s' : Scheduler (Ext := Ext)) (p : Pod) (e : cycle_end) : Prop :=
  match e with
  | CycleIdle => False
  | CycleSkipped p' => p' = p /\
      (Profiles !! SchedulerName (Spec p) = None \/ is_Some (DeletionTimestamp p) \/
       IsAssumedPod p (SchedulerCache s) = (true, None))
  | CycleFailed p' => p' = p /\ (unassigned (sched_ext s') (pid p) -> is_Some (find (SchedulingQueue s') (pid p)))
  | CycleBinding b =>
      qpi_Pod (b_podInfo b) = set_NodeName (b_host b) p /\ b_stage b = WaitingOnPermit /\
      IsAssumedPod (qpi_Pod (b_podInfo b)) (SchedulerCache s') = (true, None) /\
      exists f st nd, Profiles !! b_profile b = Some f /\ node_Name nd = b_host b /\
        fits f (SchedulerCache s) (q_nominator (SchedulingQueue s)) p st nd
  end.

Lemma cycle_effect_ok draw (s s' : Scheduler (Ext := Ext)) pod e :
  valid_id (pid pod) -> cycle_effect draw s s' pod e ->
  qinv cfg (SchedulingQueue s') /\
  (forall j, valid_id j -> j <> pid pod -> is_Some (find (SchedulingQueue s) j) -> is_Some (find (SchedulingQueue s') j)) /\
  cycle_ok s s' pod e.
Proof.
  intros Hv He. set (w0 := put (pid pod) None (podat (SchedulingQueue s))).
  assert (forall j, j <> pid pod -> is_Some (find (SchedulingQueue s) j) -> is_Some (w0 j)) as Hw0.
  { intros j Hne. unfold w0. by rewrite put_ne, podat_is_Some. }
  assert (holds_pods cfg (SchedulingQueue s') w0 ->
    forall j, valid_id j -> j <> pid pod -> is_Some (find (SchedulingQueue s) j) -> is_Some (find (SchedulingQueue s') j)) as Hrest.
  { intros [_ Hw] j Hj Hne Hin. rewrite <- podat_is_Some, Hw by done. by apply Hw0. }
  destruct e as [|p|p|b]; cbn [cycle_effect cycle_ok] in *; cbv zeta in He; fold w0 in He; [done|..].
  - destruct He as (-> & Hwhy & _ & _ & _ & Hh). split_and!; [apply Hh|by apply Hrest|done|done].
  - destruct He as (-> & g & w & x & c' & err & _ & _ & _ & _ & Hr). destruct (recorded_keeps _ _ _ _ _ _ _ Hv Hr) as (Hq' & Hk & Hin).
    split_and!; [done| |done|done]. intros j Hj Hne Hin'. apply Hk; [done|]. by apply Hw0.
  - destruct He as (g & w & _ & _ & H1 & H2 & _ & _ & _ & Hfit & H3 & H4 & _ & _ & Hh). split_and!; [apply Hh|by apply Hrest|done|done| |done].
    rewrite H1, H4. destruct (AssumePod (set_NodeName (b_host b) pod) (with_world w (SchedulerCache s))) as [c1 e1] eqn:Ea. cbn [fst snd] in *. subst e1.
    by apply AssumePod_ok in Ea as [? _].
Qed.

(** C4. No pod is lost.  A scheduling cycle always returns.  If no pod is
    active it changes nothing; otherwise it takes an active pod that no other
    comes before, and every other pod that waited still waits.  The pod taken
    ends in one of three ways: it is skipped, because it belongs to no
    profile, is being deleted or is already assumed; or it is assumed in the
    cache on a node of the cluster that passed the filters, and in the hands
    of a binding cycle; or the cycle failed, and then the pod is back in the
    queue, if the informer still has it unassigned. *)
Theorem scheduleOne_no_pod_lost now draw sampled (s : Scheduler (Ext := Ext)) :
  qinv cfg (SchedulingQueue s) -> system (SchedulerCache s) (nodeInfoSnapshot (Algorithm s)) ->
  room (SchedulerCache s) -> Z.of_nat (length (all_nodes (c_nodeTree (SchedulerCache s)))) * 100 <= MaxInt32 ->
  map_Forall (fun _ => profile_ok) Profiles ->
  (forall i pl p, valid_id i -> find (SchedulingQueue s) i = Some (pl, p) -> good (sched_ext s) (qpi_Pod p)) ->
  exists s' e, scheduleOne cfg Profiles [] prefer client now draw sampled s = Ret (s', e) /\
    qinv cfg (SchedulingQueue s') /\
    ((e = CycleIdle /\ s' = s /\ forall i p, valid_id i -> find (SchedulingQueue s) i <> Some (Active, p)) \/
     exists i p, valid_id i /\ find (SchedulingQueue s) i = Some (Active, p) /\
       (forall j p', valid_id j -> find (SchedulingQueue s) j = Some (Active, p') -> lessFn cfg p' p = false) /\
       (forall j, valid_id j -> j <> i -> is_Some (find (SchedulingQueue s) j) -> is_Some (find (SchedulingQueue s') j)) /\
       cycle_ok s s' (qpi_Pod p) e).
Proof.
  intros Hq Hsys Hroom Hn Hprof Hgood.
  destruct (scheduleOne_effect now draw sampled s) as (s' & e & -> & Hcase); [by split|].
  exists s', e. split; [done|]. destruct Hcase as [(-> & -> & Hno)|(i & p & Hi & Hp & Hpid & Hleast & He)]; [split; [done|by left]|].
  destruct (cycle_effect_ok draw s s' (qpi_Pod p) e) as (Hq' & Hrest & Hok); [by rewrite Hpid|done|].
  split; [done|]. right. exists i, p. rewrite Hpid in Hrest. by split_and!.
Qed.

(** ** The binding cycle *)

Record binds_return (f : frameworkImpl Ext) : Prop := {
  br_prebind : Forall (fun pl => forall x st p h, good x p ->
    exists x' r, pb_PreBind Ext pl x st p h = Ret (x', r) /\ good x' p) (preBindPlugins Ext f);
  br_bind : Forall (fun pl => forall x st p h, good x p ->
    exists x' r, bd_Bind Ext pl x st p h = Ret (x', r) /\ good x' p) (bindPlugins Ext f);
  br_postbind : Forall (fun pl => forall x st p h, good x p ->
    exists x', pp_PostBind Ext pl x st p h = Ret x' /\ good x' p) (postBindPlugins Ext f)
}.

Lemma prebind_returns f x st p h : binds_return f -> good x p ->
  exists x' r, RunPreBindPlugins f x st p h = Ret (x', r) /\ good x' p.
Proof.
  intros [H _ _]. unfold RunPreBindPlugins. revert x.
  induction H as [|pl pls Hpl H IH]; intros x Hg; simpl; [by do 2 eexists|].
  destruct (Hpl x st p h Hg) as (x' & r & -> & Hg'). cbn [obind]. destruct (IsSuccess r); [by apply IH|by do 2 eexists].
Qed.

Lemma bind_returns f x st p h : binds_return f -> good x p ->
  exists x' r, RunBindPlugins f x st p h = Ret (x', r) /\ good x' p.
Proof.
  intros [_ H _] Hg. unfold RunBindPlugins.
  assert (forall acc, exists x' r, run_bind (bindPlugins Ext f) acc x st p h = Ret (x', r) /\ good x' p) as Hrun.
  { revert x Hg. induction H as [|pl pls Hpl H IH]; intros x Hg acc; simpl; [by do 2 eexists|].
    destruct (Hpl x st p h Hg) as (x' & r & -> & Hg'). cbn [obind].
    destruct (bool_decide _); [by apply IH|]. destruct (IsSuccess r); by do 2 eexists. }
  destruct (bindPlugins Ext f); [by do 2 eexists|]. apply Hrun.
Qed.

Lemma postbind_returns f x st p h : binds_return f -> good x p ->
  exists x', RunPostBindPlugins f x st p h = Ret x' /\ good x' p.
Proof.
  intros [_ _ H]. unfold RunPostBindPlugins. revert x.
  induction H as [|pl pls Hpl H IH]; intros x Hg; simpl; [by eexists|].
  destruct (Hpl x st p h Hg) as (x' & -> & Hg'). cbn [obind]. by apply IH.
Qed.

(** How many stages are left. *)
Definition stages_left (b : binding) : nat :=
  match b_stage b with WaitingOnPermit => 3 | PreBinding => 2 | Binding => 1 end.

(** How a stage of the binding cycle [b] may end. *)
Definition binding_ok (f : frameworkImpl Ext) (b : binding) (s s' : Scheduler (Ext := Ext)) (e : binding_end) : Prop :=
  let pod := qpi_Pod (b_podInfo b) in
  match e with
  | BindingNext b' => (stages_left b' < stages_left b)%nat /\ b_podInfo b' = b_podInfo b /\ b_host b' = b_host b /\
      b_profile b' = b_profile b /\ b_state b' = b_state b /\ SchedulerCache s' = SchedulerCache s /\ good (sched_ext s') pod
  | BindingDone p => p = pod /\ exists x st, RunBindPlugins f (sched_ext s) (b_state b) pod (b_host b) = Ret (x, st) /\
      IsSuccess st = true
  | BindingFailed p => p = pod /\ not_assumed_there pod (SchedulerCache s') /\
      (unassigned (sched_ext s') (pid pod) -> is_Some (find (SchedulingQueue s') (pid pod)))
  end.

(** What a stage of the binding cycle [b] does. *)
Definition binding_effect (now : Z) (f : frameworkImpl Ext) (b : binding) (s s' : Scheduler (Ext := Ext)) (e : binding_end) : Prop :=
  let pod := qpi_Pod (b_podInfo b) in
  let c := SchedulerCache s in
  match e with
  | BindingNext b' => (stages_left b' < stages_left b)%nat /\ b_podInfo b' = b_podInfo b /\ b_host b' = b_host b /\
      b_profile b' = b_profile b /\ b_state b' = b_state b /\ SchedulerCache s' = c /\ Algorithm s' = Algorithm s /\
      SchedulingQueue s' = SchedulingQueue s /\ good (sched_ext s') pod
  | BindingDone p => p = pod /\ (exists x st, RunBindPlugins f (sched_ext s) (b_state b) pod (b_host b) = Ret (x, st) /\ IsSuccess st = true) /\
      SchedulerCache s' = (finishBinding pod now c).1 /\ Algorithm s' = Algorithm s /\ good (sched_ext s') pod /\
      holds_pods cfg (SchedulingQueue s') (podat (SchedulingQueue s))
  | BindingFailed p => p = pod /\ exists x c0 c' e' err, good x pod /\ (c0 = c \/ c0 = (finishBinding pod now c).1) /\
      ForgetPod pod c0 = Ret (c', e') /\ recorded (pid pod) x c' (podat (SchedulingQueue s)) err s s'
  end.

Lemma binding_step_effect now f b (s : Scheduler (Ext := Ext)) :
  profile_ok f -> binds_return f -> qinv cfg (SchedulingQueue s) -> cache_inv (SchedulerCache s) ->
  good (sched_ext s) (qpi_Pod (b_podInfo b)) -> valid_pod (qpi_Pod (b_podInfo b)) -> stash_ok (b_state b) ->
  exists r, binding_step cfg [] client now f b s = Ret r /\
    match r with
    | None => b_stage b = WaitingOnPermit /\
        exists wp, profile_waiting (b_profile b) s !! UID (qpi_Pod (b_podInfo b)) = Some wp /\ wp_s wp = None
    | Some (s', e) => binding_effect now f b s s' e
    end.
Proof.
  intros Hf Hbr Hq Hc Hg Hv Hst. unfold binding_step. set (pod := qpi_Pod (b_podInfo b)) in *.
  assert (forall s1 err reason, SchedulingQueue s1 = SchedulingQueue s -> Algorithm s1 = Algorithm s -> good (sched_ext s1) pod ->
    SchedulerCache s1 = SchedulerCache s \/ SchedulerCache s1 = (finishBinding pod now (SchedulerCache s)).1 ->
    exists r, (let! s2 := undo cfg client now f (b_podInfo b) (b_host b) (b_state b) err reason s1 in
               Ret (Some (s2, BindingFailed pod))) = Ret r /\
      match r with
      | None => b_stage b = WaitingOnPermit /\
          exists wp, profile_waiting (b_profile b) s !! UID pod = Some wp /\ wp_s wp = None
      | Some (s', e) => binding_effect now f b s s' e
      end) as Hfail.
  { intros s1 err reason Hq1 Ha1 Hg1 Hc1.
    destruct (undo_effect now f (b_podInfo b) (b_host b) (b_state b) err reason s1) as (s2 & x & c & e & -> & Hgx & Hfo & Hr); try done;
      [by rewrite Hq1|destruct Hc1 as [-> | ->]; [done|by apply finishBinding_inv]|].
    cbn [obind]. eexists. split; [done|]. split; [done|]. exists x, (SchedulerCache s1), c, e, err. split_and!; [done|done|done|].
    eapply recorded_ext; [exact Hr|by rewrite Hq1|done|done]. }
  destruct (b_stage b) eqn:Hstage.
  - unfold WaitOnPermit. fold pod. destruct (profile_waiting (b_profile b) s !! UID pod) as [wp|] eqn:Hwp.
    2: { cbn iota beta. change (negb (IsSuccess None)) with false. eexists. split; [done|].
         unfold binding_effect, stages_left. rewrite Hstage. cbn. split_and!; try done; lia. }
    destruct (wp_s wp) as [v|] eqn:Hv'; [|eexists; split; [done|]; split; [done|by exists wp]].
    destruct (IsSuccess (Some v)) eqn:Es.
    { change (negb (IsSuccess None)) with false. eexists. split; [done|].
      unfold binding_effect, stages_left. rewrite Hstage. cbn. split_and!; try done; lia. }
    destruct (IsUnschedulable (Some v)) eqn:Eu; [rewrite Es|]; cbn [negb]; (apply Hfail; [done|done|done|by left]).
  - destruct (prebind_returns f (sched_ext s) (b_state b) pod (b_host b) Hbr Hg) as (x & r & -> & Hgx). cbn [obind].
    destruct (IsSuccess r); cbn [negb]; [|apply Hfail; [done|done|done|by left]]. eexists. split; [done|].
    unfold binding_effect, stages_left. rewrite Hstage. cbn. split_and!; try done; lia.
  - unfold bind, extendersBinding. cbn [List.find fmap option_fmap option_map].
    destruct (bind_returns f (sched_ext s) (b_state b) pod (b_host b) Hbr Hg) as (x & r & Hb & Hgx). rewrite Hb. cbn [obind].
    set (s1 := set_cache _ _). destruct (IsSuccess r) eqn:Er.
    + destruct (postbind_returns f x (b_state b) pod (b_host b) Hbr Hgx) as (x' & Hpb & Hgx').
      change (sched_ext s1) with x. rewrite Hpb. cbn [obind].
      destruct (activate_holds (b_state b) (set_ext x' s1) Hq Hst) as (s' & -> & Hh & Hcache & Hext & Halg). cbn [obind].
      eexists. split; [done|]. cbn [binding_effect]. fold pod. rewrite Hcache, Hext, Halg. split_and!; try done. by exists x, r.
    + assert (exists e, (if bool_decide (Status_Code r = Error) then AsError r
        else Some (str_app "bind status: " (str_app (Code_String (Status_Code r)) (str_app ", " (Message r))))) = Some e) as [e ->].
      { case_bool_decide as Ec; [by apply AsError_error|by eexists]. }
      apply Hfail; [done|done|done|by right].
Qed.

(** C11. The binding cycle loses no pod either.  Each stage returns; one that
    waits has no verdict on the pod yet; one that goes on leaves the cache as
    it was, and after at most three the cycle ends.  It ends with the pod
    bound by a plugin, or it failed: then the cache no longer assumes the pod
    on the host, and the pod is back in the queue, if the informer still has
    it unassigned.  The pods that wait in the queue still wait. *)
Theorem binding_no_pod_lost now f b (s : Scheduler (Ext := Ext)) :
  profile_ok f -> binds_return f -> qinv cfg (SchedulingQueue s) -> cache_inv (SchedulerCache s) ->
  good (sched_ext s) (qpi_Pod (b_podInfo b)) -> valid_pod (qpi_Pod (b_podInfo b)) ->
  UID (qpi_Pod (b_podInfo b)) <> ""%string -> stash_ok (b_state b) ->
  exists r, binding_step cfg [] client now f b s = Ret r /\
    match r with
    | None => b_stage b = WaitingOnPermit /\
        exists wp, profile_waiting (b_profile b) s !! UID (qpi_Pod (b_podInfo b)) = Some wp /\ wp_s wp = None
    | Some (s', e) => keeps (SchedulingQueue s) (SchedulingQueue s') /\ binding_ok f b s s' e
    end.
Proof.
  intros Hf Hbr Hq Hc Hg Hv Hu Hst.
  destruct (binding_step_effect now f b s Hf Hbr Hq Hc Hg Hv Hst) as (r & -> & Hr). exists r. split; [done|].
  destruct r as [[s' e]|]; [|done]. unfold binding_effect in Hr. unfold binding_ok. cbv zeta in Hr. destruct e as [b'|p|p].
  - destruct Hr as (H1 & H2 & H3 & H4 & H5 & H6 & _ & H7 & H8). rewrite H7. split; [by apply keeps_refl|by split_and!].
  - destruct Hr as (-> & Hb & _ & _ & _ & Hh). split; [by apply holds_keeps|by split].
  - destruct Hr as (-> & x & c0 & c' & e' & err & _ & Hc0 & Hfo & Hr). destruct (recorded_keeps _ _ _ _ _ _ _ Hv Hr) as (Hq' & Hk & Hin).
    split; [split; [done|]; intros j Hj; rewrite <- podat_is_Some; by apply Hk|]. split_and!; [done| |done].
    assert (cache_inv c0) as Hci by (destruct Hc0 as [-> | ->]; [done|by apply finishBinding_inv]).
    destruct (ForgetPod_forgets _ _ _ _ Hci Hu Hfo) as [_ Hno]. destruct Hr as (_ & Hcache & _).
    unfold not_assumed_there. rewrite Hcache. destruct (drop_missing_pods err (set_cache c' (set_ext x s))) as [-> ->]. exact Hno.
Qed.
End scheduler_proofs.
