(* ===== verification/EndToEnd.v ===== *)
(** * A pod from the queue to etcd

    The scheduler with the KubeHICE profile on a small cluster: the instances
    of the hypotheses of the theorems on cycles, and one run, from a pod that
    waits in the queue to the bound pod in etcd. *)

From S2P Require Import Prelude GoInt GoFloat GoStrconv Quantity ApiTypes Labels AffinityTerms Resource HostPorts NodeInfo Json Framework Snapshot NodeTree Cache CacheProofs CacheSnapshot Hicev1 Hicev1Proofs NodeResourcesFit Hicev2 Hicev2Proofs HeapList Heap HeapProofs SchedulingQueue QueueProofs QueueRefine Runtime GenericScheduler GenericProofs FilterLoop ScoreProofs ScheduleProofs HiceProfile Scheduler SchedulerProofs Samples.

(** The pod as etcd and the informer have it. *)
Definition web_pod : Pod := perf_pod "u1" "1.0" 500.

(** A codec that knows this pod, and writes its node, image and CPU request. *)
Definition web_codec : PodCodec :=
  {| decode_pod v := Some web_pod;
     encode_pod p := Join [NodeName (Spec p); Join (map c_Image (Containers (Spec p))) ",";
       Join (map (fun c => Itoa (@MilliValue amd64 (Cpu (c_requests c)))) (Containers (Spec p))) ","] " " |}.

(** A cluster whose fast node is full: the pod fits on the slow one only. *)
Definition web_nodes : list Node :=
  [hice_node "cloud" "amd64" "1.0" 400; hice_node "edge" "arm64" "0.5" 4000; hice_node "old" "riscv64" "1.0" 4000].

Definition web_cache : schedulerCache := hice_cluster web_nodes.

Definition web_snapshot : Snapshot := (@UpdateSnapshot range_id web_cache NewEmptySnapshot).1.

Definition web_profile : frameworkImpl EtcdStore := @hice_profile amd64 gates_default etcd_ok web_codec web_snapshot.

Definition web_profiles : gmap string (frameworkImpl EtcdStore) := {["kubehice-scheduler"%string := web_profile]}.

(** The informer has the pod; patches of the status do not show in etcd. *)
Definition web_client : Client (Ext := EtcdStore) :=
  {| lister_Get _ ns name := if bool_decide ((ns, name) = pid web_pod) then Some web_pod else None;
     PatchPodStatus x _ _ := (x, None);
     not_found_node _ := None; node_missing _ _ := false |}.

Definition web_queue : PriorityQueue :=
  match Add default_queue_config 7 web_pod new_queue with Ret (q, _) => q | Panic _ => new_queue end.

Definition web_scheduler : Scheduler (Ext := EtcdStore) :=
  mkScheduler web_cache first_cycle web_queue ∅ sample_store.

Definition web_cycle (s : Scheduler) : outcome (Scheduler * cycle_end) :=
  @scheduleOne amd64 gates_default range_id in_order EtcdStore default_queue_config web_profiles [] false web_client 9
    (fun _ _ => 0) false s.

(** The stages of a binding cycle, up to [n] of them. *)
Fixpoint web_binding (n : nat) (b : binding) (s : Scheduler) : option (Scheduler * bool) :=
  match n with
  | O => None
  | S n =>
      match @binding_step amd64 gates_default range_id EtcdStore default_queue_config [] web_client 9 web_profile b s with
      | Ret (Some (s', BindingNext b')) => web_binding n b' s'
      | Ret (Some (s', BindingDone _)) => Some (s', true)
      | Ret (Some (s', BindingFailed _)) => Some (s', false)
      | _ => None
      end
  end.

(** The pod is bound to the node "edge", with the image for its architecture
    and twice the CPU it asked for; it left the queue, and stays assumed until
    the informer confirms it. *)
Example web_pod_bound :
  match web_cycle web_scheduler with
  | Ret (s, CycleBinding b) =>
      match web_binding 3 b s with
      | Some (s', true) =>
          sched_ext s' !! pod_key web_pod = Some "edge local-registry:5000/test-nginx-arm64:latest 1000"%string /\
          find (SchedulingQueue s') (pid web_pod) = None /\ assumedPods (SchedulerCache s') = {["u1"%string]}
      | _ => False
      end
  | _ => False
  end.
Proof. vm_compute. split_and!; reflexivity. Qed.

(** ** The hypotheses hold *)

(** The image list is in etcd, nothing is recorded as unavailable, and the
    pod is the one of the example, on any node. *)
Definition web_etcd (x : EtcdStore) : Prop :=
  x !! images_key = Some sample_images /\ x !! unavailable_key = None /\ is_Some (x !! pod_key web_pod).
Definition is_web (p : Pod) : Prop := exists h, p = set_NodeName h web_pod.
Definition web_good (x : EtcdStore) (p : Pod) : Prop := web_etcd x /\ is_web p.

Lemma is_web_node h p : is_web p -> is_web (set_NodeName h p).
Proof. intros [h' ->]. by exists h. Qed.

Lemma web_good_node x p h : web_good x p -> web_good x (set_NodeName h p).
Proof. intros [H1 H2]. split; [done|]. by apply is_web_node. Qed.

Lemma web_prefilter x st p :
  web_good x p -> @stash_ok st ->
  exists st' r, @Hicev1.PreFilter etcd_ok x st p = Ret (x, st', r) /\ stash_ok st'.
Proof.
  intros Hg Hst. pose proof Hg as ((H1 & H2 & _) & h & ->). unfold Hicev1.PreFilter, etcd_Get. cbn [dial_error etcd_ok get_error].
  rewrite H1. replace (GetUnAvailableImages (set_NodeName h web_pod) sample_images) with (@nil string) by (vm_compute; reflexivity).
  cbn [record_unavailable obind].
  replace (PodAvailableArch (set_NodeName h web_pod) sample_images) with (@Ret (list string) ["amd64"; "arm64"]%string)
    by (vm_compute; reflexivity).
  cbn [obind]. do 2 eexists. split; [done|]. unfold stash_ok, podsToActivate, CS_Read in *.
  cbn [storage CS_Write]. by rewrite !lookup_insert_ne by done.
Qed.

Lemma web_profile_ok : profile_ok web_good web_profile.
Proof.
  split.
  - split; [done|]. apply hice_filters_return.
  - split; [apply hice_scores_return|]. exists hice_weights. apply hice_configured.
  - repeat constructor. intros x st p Hg Hst. destruct (web_prefilter x st p Hg Hst) as (st' & r & H & Hst'). by exists x, st', r.
  - constructor.
  - constructor.
  - constructor.
  - constructor.
Qed.

Lemma map_entry {A} (m : gmap string A) k v : m !! k = Some v -> In (k, v) (map_to_list m).
Proof. intros H. by apply list_elem_of_In, elem_of_map_to_list. Qed.

(** The converted requests can be written and read on every node. *)
Lemma web_convertible :
  forallb (fun e : string * NodeInfo => match ni_node e.2 with
    | Some nd =>
        let scale q := @scale_cpu amd64 (@MilliValue amd64 (Cpu q)) f64_one (perf (node_Labels nd) kj_label) in
        forallb (fun c => (-10 ^ 18 <? scale (Requests (c_Resources c))) && (-10 ^ 18 <? scale (Limits (c_Resources c))))
          (Containers (Spec web_pod))
    | None => true end) (map_to_list (nodeInfoMap web_snapshot)) = true.
Proof. vm_compute. reflexivity. Qed.

Lemma web_bind x st p h :
  web_good x p -> exists x' r, @Hicev2.Bind amd64 etcd_ok web_codec web_snapshot x st p h = Ret (x', r) /\ web_etcd x' /\
    forall k, k <> pod_key web_pod -> x' !! k = x !! k.
Proof.
  intros Hg. pose proof Hg as ((H1 & H2 & [v H3]) & h' & ->). unfold Hicev2.Bind.
  destruct (SN_Get web_snapshot h) as [ni|e] eqn:Hget; [|do 2 eexists; split; [reflexivity|]; split; [apply Hg|done]].
  cbn [dial_error etcd_ok]. destruct (proj1 (SN_Get_Some _ _ _) Hget) as [Hm [nd Hnd]]. rewrite Hnd.
  assert (Forall (@convertible amd64 f64_one (perf (node_Labels nd) kj_label)) (Containers (Spec web_pod))) as Hall.
  { pose proof (proj1 (forallb_forall _ _) web_convertible (h, ni)) as H. cbn beta iota delta [snd] in H. rewrite Hnd in H.
    apply Forall_forall. intros c Hc%list_elem_of_In.
    specialize (H (map_entry _ _ _ Hm)). rewrite forallb_forall in H. specialize (H c Hc).
    apply andb_true_iff in H as [A B]. split; by apply Z.ltb_lt. }
  set (p1 := ConvertPodImages _ _ _).
  change (Labels p1) with (Labels web_pod).
  assert (perf (Labels web_pod) kb_label = f64_one) as -> by (vm_compute; reflexivity).
  unfold ConvertPodCpu.
  destruct (@convert_containers_spec amd64 f64_one (perf (node_Labels nd) kj_label) (Containers (Spec p1))) as (cs' & -> & _).
  { unfold p1, ConvertPodImages, Hicev1.ConvertPodImages. cbn [Containers Spec set_Containers].
    change (Containers (Spec (set_NodeName h' web_pod))) with (Containers (Spec web_pod)).
    apply Forall_map. eapply Forall_impl; [exact Hall|]. by intros c. }
  cbn [obind]. unfold changePodInEtcd. change (pod_key (set_NodeName h (set_Containers cs' p1))) with (pod_key web_pod).
  unfold etcd_Get, etcd_Put. cbn [get_error put_error etcd_ok]. rewrite H3. cbn [decode_pod web_codec obind].
  do 2 eexists. split; [done|]. cbn [fst].
  assert (forall (w : string) k, k <> pod_key web_pod -> <[pod_key web_pod := w]> x !! k = x !! k) as Hframe.
  { intros w k Hk. by rewrite lookup_insert_ne. }
  unfold web_etcd. split_and!; [by rewrite Hframe|by rewrite Hframe|rewrite lookup_insert_eq; by eexists|]. intros k Hk. by apply Hframe.
Qed.

Lemma web_binds_return : binds_return web_good web_profile.
Proof. split; [constructor| |constructor]. constructor; [|constructor].
  intros x st p h Hg. destruct (web_bind x st p h Hg) as (x' & r & H & Hx & _). exists x', r. split; [done|]. by split; [|apply Hg].
Qed.

Lemma web_queue_inv :
  qinv default_queue_config web_queue /\
  forall i pl p, valid_id i -> find web_queue i = Some (pl, p) -> qpi_Pod p = web_pod.
Proof.
  assert (valid_pod web_pod) as Hv by (split; reflexivity).
  destruct (Add_ok default_queue_config 7 web_pod new_queue (new_queue_inv default_queue_config _) Hv) as (q' & H & [Hq Hf] & _).
  unfold web_queue. rewrite H. split; [done|]. intros i pl p Hi. rewrite Hf by done. unfold w_put.
  case_decide; [by intros [= _ <-]|]. intros E. exfalso. unfold find in E. by simpl in E.
Qed.

Lemma web_system : @system amd64 gates_default range_id web_cache NewEmptySnapshot.
Proof.
  unfold web_cache, web_nodes.
  apply (cluster_add [hice_node "cloud" "amd64" "1.0" 400; hice_node "edge" "arm64" "0.5" 4000]);
    [|split; vm_compute; discriminate|vm_compute; reflexivity].
  apply (cluster_add [hice_node "cloud" "amd64" "1.0" 400]); [|split; vm_compute; discriminate|vm_compute; reflexivity].
  apply (cluster_add []); [apply sys_new|split; vm_compute; discriminate|vm_compute; reflexivity].
Qed.

Lemma web_names x ns name cp : lister_Get web_client x ns name = Some cp -> pid cp = (ns, name).
Proof. simpl. case_bool_decide as E; [|done]. intros [= <-]. by rewrite E. Qed.

Lemma scheduleOne_no_pod_lost_witness :
  exists s' e, web_cycle web_scheduler = Ret (s', e) /\ qinv default_queue_config (SchedulingQueue s').
Proof.
  destruct (@scheduleOne_no_pod_lost amd64 gates_default range_id in_order EtcdStore default_queue_config _ web_profiles false
    web_client (fun _ _ _ => eq_refl) web_names web_good web_good_node 9 (fun _ _ => 0) false web_scheduler)
    as (s' & e & H1 & H2 & _).
  - exact (proj1 web_queue_inv).
  - exact web_system.
  - split; vm_compute; discriminate.
  - vm_compute. discriminate.
  - apply map_Forall_singleton. exact web_profile_ok.
  - intros i pl p Hi Hf. cbn [sched_ext web_scheduler]. rewrite (proj2 web_queue_inv i pl p Hi Hf).
    split; [split_and!; [reflexivity|reflexivity|by eexists]|]. by exists ""%string.
  - exists s', e. split; [exact H1|exact H2].
Defined.

(** The binding cycle that the run starts. *)
Definition web_binding_cycle : binding :=
  mkBinding Binding "kubehice-scheduler" (mkQueuedPodInfo (NewPodInfo (set_NodeName "edge" web_pod)) 3 7 1 7 ∅) "edge" sample_cycle.

Lemma binding_no_pod_lost_witness :
  exists r, @binding_step amd64 gates_default range_id EtcdStore default_queue_config [] web_client 9 web_profile
    web_binding_cycle web_scheduler = Ret r /\ is_Some r.
Proof.
  destruct (@binding_no_pod_lost amd64 gates_default range_id EtcdStore default_queue_config _
    web_client (fun _ _ _ => eq_refl) web_names web_good 9 web_profile web_binding_cycle web_scheduler)
    as (r & H1 & H2).
  - exact web_profile_ok.
  - exact web_binds_return.
  - exact (proj1 web_queue_inv).
  - exact (proj1 (system_inv _ _ web_system)).
  - split; [split_and!; [reflexivity|reflexivity|by eexists]|]. by exists "edge"%string.
  - split; reflexivity.
  - discriminate.
  - by vm_compute.
  - exists r. split; [exact H1|]. destruct r as [r|]; [by eexists|]. destruct H2 as [H2 _]. discriminate H2.
Defined.
