(* ===== verification/WholeSystem.v ===== *)
(** * The whole scheduler and the generations that its cycles use

    The machine of the whole scheduler is the second part of this file.  What
    its cycles take of the counter of generations comes first. *)

From S2P Require Import Prelude GoInt GoFloat GoStrconv Quantity ApiTypes Labels AffinityTerms Resource HostPorts NodeInfo Json Framework Snapshot NodeTree Cache CacheProofs CacheSnapshot HeapList Heap SchedulingQueue Runtime GenericScheduler GenericProofs HeapProofs QueueProofs QueueRefine FilterLoop ScoreProofs ScheduleProofs Scheduler EventHandlers EventProofs Protocol SchedulerProofs.

Open Scope go_scope.

(** ** The generations that a cycle uses

    A cycle that filters nodes with nominated pods clones their NodeInfos and
    adds the pods to the clones, and every addition takes a generation of the
    counter that the cache and its snapshots share.  Here is a bound on how
    many a cycle takes: as many as there are nominated pods on a node, for
    each node it may look at. *)

Section clones.
Context {arch : GoArch} {gates : FeatureGates} {mr : MapRange} {par : Parallel} {Ext : Type}.
Context (f : frameworkImpl Ext) (npm : nominator).

(** At most [k] generations were taken. *)
Definition takes (k : Z) (w w' : World) : Prop := generation w <= generation w' <= generation w + k.

(** There is room for [k] more. *)
Definition left_for (k : Z) (w : World) : Prop := 0 <= generation w /\ generation w + k <= MaxInt64.

Lemma takes_refl k w : 0 <= k -> takes k w w.
Proof. unfold takes. lia. Qed.

Lemma takes_trans a b w1 w2 w3 : takes a w1 w2 -> takes b w2 w3 -> takes (a + b) w1 w3.
Proof. unfold takes. lia. Qed.

Lemma left_after a b w w' : left_for (a + b) w -> takes a w w' -> left_for b w'.
Proof. unfold takes, left_for. lia. Qed.

Lemma AddPodInfo_takes pi n w : left_for 1 w -> takes 1 w (AddPodInfo pi n w).2.
Proof.
  intros [H0 H1]. unfold AddPodInfo. destruct (calculateResource _) as [[? ?] ?]. unfold takes. cbn.
  rewrite add64_exact; [lia|]. int_unfold. lia.
Qed.

Lemma add_nominated_takes pis pod added st n w a st' n' w' e :
  left_for (Z.of_nat (length pis)) w -> add_nominated f pis pod added st n w = Ret (a, st', n', w', e) ->
  takes (Z.of_nat (length pis)) w w'.
Proof.
  revert added st n w. induction pis as [|pi pis IH]; intros added st n w Hl; cbn [add_nominated length].
  { intros [= _ _ _ <- _]. by apply takes_refl. }
  cbn [length] in Hl. replace (Z.of_nat (S (length pis))) with (1 + Z.of_nat (length pis)) in Hl |- * by lia.
  assert (forall w1, takes 1 w w1 -> left_for (Z.of_nat (length pis)) w1) as Hrest by (intros; by eapply left_after).
  destruct (_ && _).
  - assert (takes 1 w (AddPodInfo pi n w).2) as H1 by (apply AddPodInfo_takes; unfold left_for in *; lia).
    destruct (AddPodInfo pi n w) as [n1 w1]. cbn [snd] in H1.
    destruct (RunPreFilterExtensionAddPod _ _ _ _ _) as [[st1 status]|]; [|done]. cbn [obind]. destruct (IsSuccess status).
    + intros H. eapply takes_trans; [exact H1|]. eapply IH, H. by apply Hrest.
    + intros [= _ _ _ <- _]. unfold takes in *. lia.
  - intros H. eapply takes_trans; [apply (takes_refl 1); lia|]. eapply IH, H. apply Hrest, takes_refl. lia.
Qed.

(** At most [N] pods are nominated to a node. *)
Context (N : nat) (few : forall name, (length (NominatedPodsForNode npm name) <= N)%nat).

Lemma filters_take state pod info w s w' :
  left_for (Z.of_nat N) w -> RunFilterPluginsWithNominatedPods f npm state pod info w = Ret (s, w') -> takes (Z.of_nat N) w w'.
Proof.
  intros Hl. unfold RunFilterPluginsWithNominatedPods.
  destruct (addNominatedPods f npm pod state info w) as [[[[[a st'] n'] w1] err]|] eqn:Ea; [|done]. cbn [obind].
  assert (takes (Z.of_nat N) w w1) as H1.
  { unfold addNominatedPods in Ea. destruct (ni_node info) as [node|]; [|injection Ea as _ _ _ <- _; apply takes_refl; lia].
    pose proof (few (node_Name node)) as Hfew. destruct (NominatedPodsForNode npm (node_Name node)) as [|pi pis].
    { injection Ea as _ _ _ <- _. apply takes_refl. lia. }
    destruct (add_nominated f (pi :: pis) pod false _ _ w) as [[[[[a1 s1] n1] w2] e1]|] eqn:Ead; [|done]. cbn [obind] in Ea.
    assert (w2 = w1) as -> by (destruct e1; by injection Ea). apply add_nominated_takes in Ead; unfold takes, left_for in *; lia. }
  destruct err; [by intros [= _ <-]|]. destruct (RunFilterPlugins f st' pod n'); [|done]. cbn [obind].
  destruct (_ && _); [by intros [= _ <-]|]. destruct (_ || _); [by intros [= _ <-]|].
  destruct (RunFilterPlugins f state pod info); [|done]. by intros [= _ <-].
Qed.

Lemma checkNode_takes state pod nodes start num st i st' :
  left_for (Z.of_nat N) (cs_world st) -> checkNode f npm state pod nodes start num st i = Ret st' ->
  takes (Z.of_nat N) (cs_world st) (cs_world st').
Proof.
  intros Hl. unfold checkNode. destruct (nodes !! _) as [ni|]; [|done].
  destruct (RunFilterPluginsWithNominatedPods f npm state pod ni (cs_world st)) as [[s w]|] eqn:E; [|done]. cbn [obind].
  apply filters_take in E; [|done]. intros H.
  assert (cs_world st' = w) as ->; [|done]. revert H. repeat case_match; try done; by intros [= <-].
Qed.

Lemma run_until_takes state pod nodes start num late l st st' :
  left_for (Z.of_nat (length l * N)) (cs_world st) ->
  run_until (checkNode f npm state pod nodes start num) late l st = Ret st' ->
  takes (Z.of_nat (length l * N)) (cs_world st) (cs_world st').
Proof.
  revert late st. induction l as [|i l IH]; intros late st Hl; cbn [run_until length].
  { intros [= <-]. by apply takes_refl. }
  cbn [length] in Hl. replace (Z.of_nat (S (length l) * N)) with (Z.of_nat N + Z.of_nat (length l * N)) in Hl |- * by lia.
  assert (forall late, (let! st1 := checkNode f npm state pod nodes start num st i in
    run_until (checkNode f npm state pod nodes start num) late l st1) = Ret st' ->
    takes (Z.of_nat N + Z.of_nat (length l * N)) (cs_world st) (cs_world st')) as Hgo.
  { intros late'. destruct (checkNode _ _ _ _ _ _ _ st i) as [st1|] eqn:E; [|done]. cbn [obind].
    apply checkNode_takes in E; [|unfold left_for in *; lia]. intros H. eapply takes_trans; [exact E|]. eapply IH, H. by eapply left_after. }
  destruct (cancelled st); [|apply Hgo]. destruct late; [|apply Hgo]. intros [= <-]. apply takes_refl. lia.
Qed.

Lemma filter_and_extend_takes g state pod d nodes w g' d' w' res :
  left_for (Z.of_nat (length nodes * N)) w -> filter_and_extend f g [] npm state pod d nodes w = Ret (g', d', w', res) ->
  takes (Z.of_nat (length nodes * N)) w w'.
Proof.
  intros Hl. unfold filter_and_extend, findNodesThatPassFilters. destruct (negb _).
  { destruct (_ =? _)%nat; [done|]. cbn [obind]. cbn. intros [= _ _ <- _]. apply takes_refl. lia. }
  destruct (run_until _ _ _ _) as [st|] eqn:E; [|done]. cbn [obind].
  assert (length (par_order (length nodes)) = length nodes) as Hlen by (by rewrite par_order_perm, length_seq).
  apply run_until_takes in E; rewrite ?Hlen in *; [|done]. cbn [cs_world] in E.
  destruct (_ =? _)%nat; [done|]. cbn [obind]. destruct (errCh st); cbn; by intros [= _ _ <- _].
Qed.

(** A cycle over [n] nodes. *)
Lemma Schedule_takes prefer draw c g x st pod g' x' st' w' res :
  let n := length (SN_List (UpdateSnapshot c (nodeInfoSnapshot g)).1) in
  left_for (Z.of_nat (S n * N)) (world c) ->
  Schedule f prefer draw c g [] npm x st pod = Ret (g', x', st', w', res) ->
  takes (Z.of_nat (S n * N)) (world c) w'.
Proof.
  intros n Hl. unfold Schedule. subst n. destruct (UpdateSnapshot c (nodeInfoSnapshot g)) as [snap err]. cbn [fst] in *.
  set (n := length (SN_List snap)) in *.
  assert (takes (Z.of_nat (S n * N)) (world c) (world c)) as Hsame by (apply takes_refl; lia).
  destruct err; [by intros [= _ _ _ <- _]|]. destruct (_ =? _)%nat; [by intros [= _ _ _ <- _]|].
  destruct (findNodesThatFitPod _ _ _ _ _ _ _ _ _) as [[[[[[g1 x1] st1] d1] w1] res1]|] eqn:E; [|done]. cbn [obind].
  assert (takes (Z.of_nat (S n * N)) (world c) w1) as H1.
  { unfold findNodesThatFitPod in E. destruct (RunPreFilterPlugins f x st pod) as [[[x2 st2] s2]|]; [|done]. cbn [obind] in E.
    destruct (negb (IsSuccess s2)).
    { destruct (negb (IsUnschedulable s2)); [by injection E as _ _ _ _ <- _|]. destruct s2; [|done].
      destruct (all_failed _ _); [|done]. cbn [obind] in E. by injection E as _ _ _ _ <- _. }
    replace (Z.of_nat (S n * N)) with (Z.of_nat (1 * N) + Z.of_nat (n * N)) in Hl, Hsame |- * by lia.
    destruct (if _ && _ then _ else _) as [[[[g3 d3] w3] res3]|] eqn:En; [|done]. cbn [obind] in E.
    assert (takes (Z.of_nat (1 * N)) (world c) w3) as H3.
    { destruct (_ && _); [|injection En as _ _ <- _; apply takes_refl; lia].
      unfold evaluateNominatedNode in En. destruct (SN_Get _ _); [|injection En as _ _ <- _; apply takes_refl; lia].
      apply filter_and_extend_takes in En; [done|]. unfold left_for in *. cbn [length]. lia. }
    assert (forall r, (let! r := filter_and_extend f g3 [] npm st2 pod d3 (SN_List (nodeInfoSnapshot (with_snapshot snap g))) w3 in
      let '(g, d, w, res) := r in Ret (g, x2, st2, d, w, res)) = Ret r ->
      takes (Z.of_nat (1 * N) + Z.of_nat (n * N)) (world c) r.1.2) as Hfull.
    { intros r. destruct (filter_and_extend _ _ _ _ _ _ _ _ _) as [[[[g4 d4] w4] res4]|] eqn:E4; [|done]. cbn [obind].
      intros [= <-]. cbn. eapply takes_trans; [exact H3|]. apply filter_and_extend_takes in E4; [exact E4|]. by eapply left_after. }
    destruct res3 as [[|n3 l3]|e3]; [exact (Hfull _ E)| |exact (Hfull _ E)].
    injection E as _ _ _ _ <- _. unfold takes in *. lia. }
  destruct res1 as [[|n1 [|n2 l]]|e]; try by intros [= _ _ _ <- _].
  destruct (prioritizeNodes _ _ _ _ _) as [[st3 [l3|e3]]|]; [| |done]; cbn [obind]; by intros [= _ _ _ <- _].
Qed.
End clones.

(** * The whole scheduler

    The scheduler with everything that runs at the same time: the scheduling
    cycle, the binding cycles that it starts, the two handlers for pods, which
    see the events of the informer one after the other and each at its own
    pace, the handler for nodes, the events that move pods in the queue, and
    the timers.  A state is the scheduler with the cycle in progress, the
    binding cycles and the events that are still on their way.  The steps come
    in any order: a scheduling cycle is three of them, the pod is popped, the
    algorithm decides on a snapshot, and the decision is carried out, so that
    the rest may run in between; a binding cycle is one step for each stage; a
    handler or a timer, which holds the lock of what it works on, is one. *)

(** What the cache holds of a UID. *)
Definition held_of (c : schedulerCache) (u : string) : option (bool * string) :=
  (fun ps => (bool_decide (u ∈ assumedPods c), NodeName (Spec (ps_pod ps)))) <$> podStates c !! u.

(** Room for assuming a pod and forgetting it. *)
Definition spare (c : schedulerCache) : Prop :=
  G c + Z.of_nat (size (assumedPods c)) + 8 <= MaxInt64 /\ Z.of_nat (size (nodes c)) + 1 <= 2 ^ 61.

(** The pods that wait in the queue; names are those of the API. *)
#[export] Instance valid_id_dec i : Decision (valid_id i).
Proof. unfold valid_id. apply _. Defined.

Definition mask (w : podid -> option Pod) (i : podid) : option Pod := if decide (valid_id i) then w i else None.
Definition waiting_pods (q : PriorityQueue) : podid -> option Pod := mask (podat q).

Section whole.
Context {arch : GoArch} {gates : FeatureGates} {mr : MapRange} {par : Parallel} {Ext : Type}.
Context (cfg : QueueConfig) (Profiles : gmap string (frameworkImpl Ext)) (prefer : bool) (client : Client (Ext := Ext)).
Context (DeepEqual : Pod -> Pod -> bool) (owner : string -> podid) (extra : Pod -> Prop) (sane : Ext -> Prop).

(** Where the scheduling cycle is. *)
Inductive cycle_stage :=
| Taken (podInfo : QueuedPodInfo)
| Decided (podInfo : QueuedPodInfo) (f : frameworkImpl Ext) (state : CycleState) (res : ScheduleResult + ScheduleError).

Definition stage_pod (c : cycle_stage) : Pod :=
  qpi_Pod match c with Taken podInfo | Decided podInfo _ _ _ => podInfo end.

Record cluster := mkCluster {
  cl_sched : Scheduler (Ext := Ext);
  cl_cycle : option cycle_stage;        (** the scheduling cycle, if it has a pod *)
  cl_flight : list binding;             (** the binding cycles that run *)
  cl_bound : list Pod;                  (** the pods whose binding cycle succeeded *)
  cl_queue_events : list (event Pod);   (** reported, not handled yet *)
  cl_cache_events : list (event Pod);
  cl_queue_seen : podid -> option Pod;  (** the pods as the handlers have seen them *)
  cl_cache_seen : podid -> option Pod
}.

Definition with_sched s cl :=
  mkCluster s (cl_cycle cl) (cl_flight cl) (cl_bound cl) (cl_queue_events cl) (cl_cache_events cl) (cl_queue_seen cl) (cl_cache_seen cl).
Definition with_flight f b cl :=
  mkCluster (cl_sched cl) (cl_cycle cl) f b (cl_queue_events cl) (cl_cache_events cl) (cl_queue_seen cl) (cl_cache_seen cl).

Definition with_cycle o cl :=
  mkCluster (cl_sched cl) o (cl_flight cl) (cl_bound cl) (cl_queue_events cl) (cl_cache_events cl) (cl_queue_seen cl) (cl_cache_seen cl).

(** A scheduler that has just been made; the informer has no pods yet. *)
Record started (cl : cluster) : Prop := {
  st_cache : exists t, SchedulerCache (cl_sched cl) = newSchedulerCache t;
  st_snapshot : nodeInfoSnapshot (Algorithm (cl_sched cl)) = NewEmptySnapshot;
  st_queue : qinv cfg (SchedulingQueue (cl_sched cl)) /\ forall i, podat (SchedulingQueue (cl_sched cl)) i = None;
  st_ext : sane (sched_ext (cl_sched cl)) /\ forall i, store_of client (sched_ext (cl_sched cl)) i = None;
  st_rest : cl = mkCluster (cl_sched cl) None [] [] [] [] (fun _ => None) (fun _ => None)
}.

(** The informer of nodes reports changes of the objects the cache has. *)
Definition informed (c : schedulerCache) (e : event Node) : Prop :=
  match e with
  | Added node => object c (node_Name node) = None
  | Updated old new => node_Name new = node_Name old /\ object c (node_Name old) = Some old
  | Deleted node => object c (node_Name node) = Some node
  end.

(** What the algorithm needs: the number of nodes is small enough for the
    percentage arithmetic, and the counter of generations has room for the
    clones, if at most [N] pods are nominated to a node. *)
Definition cycle_fits (s : Scheduler (Ext := Ext)) : Prop :=
  let c := SchedulerCache s in
  let n := length (all_nodes (c_nodeTree c)) in
  room c /\ Z.of_nat n * 100 <= MaxInt32 /\
  exists N : nat, (forall name, (length (NominatedPodsForNode (q_nominator (SchedulingQueue s)) name) <= N)%nat) /\
    G c + Z.of_nat (S n * N) <= MaxInt64.

Definition after_decision (podInfo : QueuedPodInfo) (d : option (frameworkImpl Ext * CycleState * (ScheduleResult + ScheduleError)))
  : option cycle_stage :=
  match d with Some (f, state, res) => Some (Decided podInfo f state res) | None => None end.

Definition cycle_flight (e : cycle_end) (l : list binding) : list binding :=
  match e with CycleBinding b => b :: l | _ => l end.

Definition after_stage (l1 : list binding) (l2 : list binding) (e : binding_end) (cl : cluster) : cluster :=
  match e with
  | BindingNext b => with_flight (l1 ++ b :: l2) (cl_bound cl) cl
  | BindingDone pod => with_flight (l1 ++ l2) (pod :: cl_bound cl) cl
  | BindingFailed _ => with_flight (l1 ++ l2) (cl_bound cl) cl
  end.

Inductive cluster_step (cl : cluster) : cluster -> Prop :=
(** the API server changes a pod, and the informer takes note *)
| c_report e x' :
    legal owner extra e (store_of client (sched_ext (cl_sched cl))) -> sane x' ->
    (forall i, store_of client x' i = after e (store_of client (sched_ext (cl_sched cl))) i) ->
    cluster_step cl (mkCluster (set_ext x' (cl_sched cl)) (cl_cycle cl) (cl_flight cl) (cl_bound cl) (cl_queue_events cl ++ [e])
                       (cl_cache_events cl ++ [e]) (cl_queue_seen cl) (cl_cache_seen cl))
(** the services around the scheduler change *)
| c_outside x' :
    sane x' -> (forall i, store_of client x' i = store_of client (sched_ext (cl_sched cl)) i) ->
    cluster_step cl (with_sched (set_ext x' (cl_sched cl)) cl)
(** the two handlers *)
| c_queue_event e l now s' :
    cl_queue_events cl = e :: l -> queue_handler cfg Profiles DeepEqual now e (cl_sched cl) = Ret s' ->
    cluster_step cl (mkCluster s' (cl_cycle cl) (cl_flight cl) (cl_bound cl) l (cl_cache_events cl) (after e (cl_queue_seen cl)) (cl_cache_seen cl))
| c_cache_event e l now s' :
    room (SchedulerCache (cl_sched cl)) ->
    cl_cache_events cl = e :: l -> cache_handler cfg now e (cl_sched cl) = Ret s' ->
    cluster_step cl (mkCluster s' (cl_cycle cl) (cl_flight cl) (cl_bound cl) (cl_queue_events cl) l (cl_queue_seen cl) (after e (cl_cache_seen cl)))
| c_node_event e now s' :
    room (SchedulerCache (cl_sched cl)) -> informed (SchedulerCache (cl_sched cl)) e ->
    node_handler cfg now e (cl_sched cl) = Ret s' -> cluster_step cl (with_sched s' cl)
(** events on other objects *)
| c_move_event event now :
    cluster_step cl (with_sched (set_queue (MoveAllToActiveOrBackoffQueue cfg now event None (SchedulingQueue (cl_sched cl))) (cl_sched cl)) cl)
(** the three parts of a scheduling cycle *)
| c_take podInfo q' :
    cl_cycle cl = None -> Pop cfg (SchedulingQueue (cl_sched cl)) = Ret (q', PopItem podInfo) ->
    cluster_step cl (with_cycle (Some (Taken podInfo)) (with_sched (set_queue q' (cl_sched cl)) cl))
| c_decide podInfo draw sampled s' d :
    cl_cycle cl = Some (Taken podInfo) -> cycle_fits (cl_sched cl) ->
    decide_on Profiles [] prefer draw sampled podInfo (cl_sched cl) = Ret (s', d) ->
    cluster_step cl (with_cycle (after_decision podInfo d) (with_sched s' cl))
| c_conclude podInfo f state res now s' e :
    cl_cycle cl = Some (Decided podInfo f state res) -> spare (SchedulerCache (cl_sched cl)) ->
    conclude cfg client now f podInfo state res (cl_sched cl) = Ret (s', e) ->
    cluster_step cl (with_cycle None (with_flight (cycle_flight e (cl_flight cl)) (cl_bound cl) (with_sched s' cl)))
(** a stage of a binding cycle *)
| c_binding l1 b l2 f now s' e :
    room (SchedulerCache (cl_sched cl)) -> cl_flight cl = l1 ++ b :: l2 -> Profiles !! b_profile b = Some f ->
    binding_step cfg [] client now f b (cl_sched cl) = Ret (Some (s', e)) ->
    cluster_step cl (after_stage l1 l2 e (with_sched s' cl))
(** plugins and timers decide on waiting pods *)
| c_permit w : cluster_step cl (with_sched (set_waiting w (cl_sched cl)) cl)
(** the timers *)
| c_flush_backoff now q' :
    flushBackoffQCompleted cfg now (SchedulingQueue (cl_sched cl)) = Ret q' ->
    cluster_step cl (with_sched (set_queue q' (cl_sched cl)) cl)
| c_flush_unschedulable now :
    cluster_step cl (with_sched (set_queue (flushUnschedulableQLeftover cfg now (SchedulingQueue (cl_sched cl))) (cl_sched cl)) cl)
| c_cleanup now c' :
    room (SchedulerCache (cl_sched cl)) -> cleanupAssumedPods now (SchedulerCache (cl_sched cl)) = Ret c' ->
    cluster_step cl (with_sched (set_cache c' (cl_sched cl)) cl).

Inductive cluster_reachable : cluster -> Prop :=
| cl_start cl : started cl -> cluster_reachable cl
| cl_step cl cl' : cluster_reachable cl -> cluster_step cl cl' -> cluster_reachable cl'.

(** ** What it runs in *)

(** The states of the services in which the plugins return, with the
    informer's copy [L]. *)
Definition good_for (L : podid -> option Pod) (x : Ext) (p : Pod) : Prop :=
  sane x /\ (forall i, store_of client x i = L i) /\ extra p.

(** What the scheduler relies on: its client, and the plugins of its profiles. *)
Record surroundings : Prop := {
  (** calls to the API server do not change the informer's copy of the pods *)
  sr_stable : forall x p st, lister_Get client (PatchPodStatus client x p st).1 = lister_Get client x;
  (** which has pods under their names *)
  sr_names : forall x ns name cp, lister_Get client x ns name = Some cp -> pid cp = (ns, name);
  (** a status can be stored *)
  sr_patch : forall x p st, sane x -> sane (PatchPodStatus client x p st).1;
  (** the nodes that errors of the API server are about exist *)
  sr_nodes : forall x n, sane x -> node_missing client x n = false;
  (** what plugins ask of a pod does not depend on its node *)
  sr_extra : forall n p, extra p -> extra (set_NodeName n p);
  (** the plugins return *)
  sr_profiles : forall L name f, Profiles !! name = Some f -> profile_ok (good_for L) f /\ binds_return (good_for L) f
}.

(** ** The protocol it follows *)

Definition abs (cl : cluster) : protocol :=
  let s := cl_sched cl in
  mkProtocol (waiting_pods (SchedulingQueue s)) (stage_pod <$> cl_cycle cl)
    (map (fun b => qpi_Pod (b_podInfo b)) (cl_flight cl)) (cl_bound cl) (held_of (SchedulerCache s))
    (store_of client (sched_ext s)) (cl_queue_events cl) (cl_cache_events cl) (cl_queue_seen cl) (cl_cache_seen cl).
End whole.
