(* ===== verification/HandlerSteps.v ===== *)
(** * The operations of the cache, the handlers and the timers as steps

    Each operation of the cache as a change of what it holds of a UID, assumed
    or confirmed, and on which node, in the terms of the protocol; then the
    handlers and the timers. *)

From S2P Require Import Prelude GoInt GoFloat GoStrconv Quantity ApiTypes Labels AffinityTerms Resource HostPorts NodeInfo Json Framework Snapshot NodeTree Cache CacheProofs CacheSnapshot HeapList Heap HeapProofs SchedulingQueue QueueProofs QueueRefine Runtime GenericScheduler GenericProofs FilterLoop ScoreProofs ScheduleProofs Scheduler EventHandlers EventProofs Protocol SchedulerProofs WholeSystem.

Open Scope go_scope.

Section held.
Context {arch : GoArch} {gates : FeatureGates} {mr : MapRange}.

Lemma held_same c c' u : CacheProofs.same_pods c c' -> held_of c' u = held_of c u.
Proof. intros [H1 H2]. unfold held_of. by rewrite H1, H2. Qed.

Lemma held_assumed c u n : held_of c u = Some (true, n) <->
  u ∈ assumedPods c /\ exists ps, podStates c !! u = Some ps /\ NodeName (Spec (ps_pod ps)) = n.
Proof.
  unfold held_of. destruct (podStates c !! u) as [ps|]; cbn; [|naive_solver].
  case_bool_decide; naive_solver.
Qed.

Lemma held_confirmed c u n : held_of c u = Some (false, n) <->
  u ∉ assumedPods c /\ exists ps, podStates c !! u = Some ps /\ NodeName (Spec (ps_pod ps)) = n.
Proof.
  unfold held_of. destruct (podStates c !! u) as [ps|]; cbn; [|naive_solver].
  case_bool_decide; naive_solver.
Qed.

Lemma held_None c u : held_of c u = None <-> podStates c !! u = None.
Proof. unfold held_of. by rewrite fmap_None. Qed.

(** The state of one UID changes. *)
Lemma held_put c c' k a ps :
  podStates c' = <[k := ps]> (podStates c) -> assumedPods c' = a -> (forall u, u <> k -> u ∈ a <-> u ∈ assumedPods c) ->
  forall u, held_of c' u = if decide (u = k) then Some (bool_decide (k ∈ a), NodeName (Spec (ps_pod ps))) else held_of c u.
Proof.
  intros Hp Ha Ho u. unfold held_of. rewrite Hp, Ha. case_decide as E; [subst; by rewrite lookup_insert_eq|].
  rewrite lookup_insert_ne by done. destruct (podStates c !! u); [|done]. cbn. do 2 f_equal. apply bool_decide_ext. by apply Ho.
Qed.

Lemma held_delete c c' k a :
  podStates c' = delete k (podStates c) -> assumedPods c' = a -> (forall u, u <> k -> u ∈ a <-> u ∈ assumedPods c) ->
  forall u, held_of c' u = if decide (u = k) then None else held_of c u.
Proof.
  intros Hp Ha Ho u. unfold held_of. rewrite Hp, Ha. case_decide as E; [subst; by rewrite lookup_delete_eq|].
  rewrite lookup_delete_ne by done. destruct (podStates c !! u); [|done]. cbn. do 2 f_equal. apply bool_decide_ext. by apply Ho.
Qed.

Lemma held_AssumePod p c :
  match (AssumePod p c).2 with
  | Some _ => (AssumePod p c).1 = c
  | None => held_of c (UID p) = None /\
      forall u, held_of (AssumePod p c).1 u = if decide (u = UID p) then Some (true, NodeName (Spec p)) else held_of c u
  end.
Proof.
  unfold AssumePod. destruct (GetPodKey p) as [k [e|]] eqn:Hk; [done|]. apply GetPodKey_Some in Hk as [-> Hu].
  destruct (podStates c !! UID p) eqn:Es; [done|]. cbn [fst snd]. split; [by apply held_None|].
  destruct (addPod_same p c) as [E1 E2]. intros u.
  rewrite (held_put c _ (UID p) (assumedPods c ∪ {[UID p]}) (mkPodState p None false));
    [|cbn [podStates with_pods]; by rewrite E1|cbn [assumedPods with_pods]; by rewrite E2|set_solver].
  case_decide; [|done]. rewrite bool_decide_eq_true_2 by set_solver. done.
Qed.

Lemma held_finishBinding p now c u : held_of (finishBinding p now c).1 u = held_of c u.
Proof.
  unfold finishBinding. destruct (GetPodKey p) as [k [e|]]; [done|]. destruct (podStates c !! k) as [ps|] eqn:Es; [|done].
  case_bool_decide; [|done]. cbn [fst]. rewrite (held_put c _ k (assumedPods c) (mkPodState (ps_pod ps) (Some (now + ttl c)) true)); [|done|done|done].
  case_decide as E; [|done]. subst. unfold held_of. rewrite Es. done.
Qed.

Lemma held_ForgetPod p c c' e :
  cache_inv c -> UID p <> ""%string -> ForgetPod p c = Ret (c', e) -> forall u, held_of c' u = forget p (held_of c) u.
Proof.
  intros Hc Hu. unfold ForgetPod, forget. rewrite (GetPodKey_ok p Hu).
  destruct (podStates c !! UID p) as [ps|] eqn:Es.
  2: { intros [= <- _] u. case_decide as E; [|done]. subst u. assert (held_of c (UID p) = None) as -> by (by apply held_None). done. }
  destruct (String.eqb_spec (NodeName (Spec (ps_pod ps))) (NodeName (Spec p))) as [En|En]; cbn [negb].
  2: { intros [= <- _] u. case_decide as E; [|done]. subst u. destruct (held_of c (UID p)) as [[[] n]|] eqn:Eh; [|done|done].
       apply held_assumed in Eh as (_ & ps' & Hs & <-). rewrite Es in Hs. injection Hs as <-. by destruct (String.eqb_spec (NodeName (Spec (ps_pod ps))) (NodeName (Spec p))). }
  case_bool_decide as Ha.
  - destruct (drop_pod_inv p ps (assumedPods c ∖ {[UID p]}) c Hc Es En) as (c1 & -> & [H1 H2] & _); [by right|set_solver|].
    cbn [obind]. intros [= <- _] u.
    rewrite (held_delete c _ (UID p) (assumedPods c ∖ {[UID p]})); [|cbn [podStates with_pods]; by rewrite H1|cbn [assumedPods with_pods]; by rewrite H2|set_solver].
    case_decide as E; [|done]. subst u. assert (held_of c (UID p) = Some (true, NodeName (Spec p))) as ->.
    { apply held_assumed. split; [done|]. by exists ps. }
    by rewrite String.eqb_refl.
  - intros [= <- _] u. case_decide as E; [|done]. subst u. assert (held_of c (UID p) = Some (false, NodeName (Spec p))) as ->; [|done].
    apply held_confirmed. split; [done|]. by exists ps.
Qed.

Lemma held_AddPod p c c' e :
  cache_inv c -> UID p <> ""%string -> cache_AddPod p c = Ret (c', e) -> forall u, held_of c' u = confirm p (held_of c) u.
Proof.
  intros Hc Hu. unfold cache_AddPod, confirm. rewrite (GetPodKey_ok p Hu).
  destruct (podStates c !! UID p) as [ps|] eqn:Es.
  - case_bool_decide as Ha.
    + destruct (if negb _ then _ else _) as [c1|] eqn:E1; [|done]. cbn [obind]. intros [= <- _] u.
      assert (CacheProofs.same_pods c c1) as [S1 S2].
      { destruct (negb _); [|by injection E1 as <-]. destruct (ci_keys c Hc _ _ Es) as [Hk _].
        destruct (pod_on_node c _ _ Hc Es) as (_ & _ & Hin). rewrite <- Hk in Hin.
        destruct (removePod_found (ps_pod ps) c (ci_nodes c Hc)) as (c2 & Hr2 & _ & [Hs1 Hs2] & _); [by rewrite Hk|by rewrite Hk in *|].
        rewrite Hr2 in E1. cbn [obind fst] in E1. injection E1 as <-. destruct (addPod_same p c2) as [A1 A2]. split; congruence. }
      rewrite (held_put c _ (UID p) (assumedPods c ∖ {[UID p]}) (mkPodState p None (ps_bindingFinished ps)));
        [|cbn [podStates with_pods]; rewrite S1; exact (alter_insert _ _ (fun s => mkPodState p None (ps_bindingFinished s)) _ Es)|cbn [assumedPods with_pods]; by rewrite S2|set_solver].
      case_decide as E; [|done]. subst u. rewrite bool_decide_eq_false_2 by set_solver. cbn.
      assert (held_of c (UID p) = Some (true, NodeName (Spec (ps_pod ps)))) as ->; [|done].
      apply held_assumed. split; [done|]. by exists ps.
    + intros [= <- _] u. case_decide as E; [|done]. subst u.
      assert (held_of c (UID p) = Some (false, NodeName (Spec (ps_pod ps)))) as ->; [|done].
      apply held_confirmed. split; [done|]. by exists ps.
  - intros [= <- _] u. destruct (addPod_same p c) as [S1 S2].
    rewrite (held_put c _ (UID p) (assumedPods c) (mkPodState p None false));
      [|exact (f_equal (insert (UID p) (mkPodState p None false)) S1)|exact S2|done].
    case_decide as E; [|done]. subst u. assert (held_of c (UID p) = None) as -> by (by apply held_None).
    rewrite bool_decide_eq_false_2; [done|]. intros Hin%(ci_assumed c Hc). rewrite Es in Hin. by destruct Hin.
Qed.

Lemma held_UpdatePod o n c c' e :
  cache_inv c -> update_event o n -> UID o <> ""%string -> placed c o -> UpdatePod o n c = Ret (c', e) ->
  forall u, held_of c' u = held_of c u.
Proof.
  intros Hc [Hu Hn] Hne Hp. unfold UpdatePod. rewrite (GetPodKey_ok o Hne).
  destruct (podStates c !! UID o) as [ps|] eqn:Es; [|by intros [= <- _]].
  case_bool_decide as Ha; [by intros [= <- _]|].
  pose proof (Hp ps Es Ha) as Hps. rewrite Hn, Hps, String.eqb_refl. cbn [negb].
  destruct (replace_pod_inv o n ps (mkPodState n (ps_deadline ps) (ps_bindingFinished ps))
    (assumedPods c) c) as (c1 & Hr & [H1 H2] & _); try done; [by left|].
  unfold Cache.updatePod. rewrite Hr. cbn [obind]. destruct (addPod_same n c1) as [A1 A2]. rewrite A1, A2, H1, H2. intros [= <- _] u.
  rewrite (held_put c _ (UID o) (assumedPods c) (mkPodState n (ps_deadline ps) (ps_bindingFinished ps)));
    [|exact (alter_insert _ _ (fun s => mkPodState n (ps_deadline s) (ps_bindingFinished s)) _ Es)|done|done].
  case_decide as E; [|done]. subst u. cbn. symmetry. unfold held_of. rewrite Es. cbn. by rewrite Hps, Hn.
Qed.

Lemma held_RemovePod p c c' e :
  cache_inv c -> UID p <> ""%string -> cache_RemovePod p c = Ret (c', e) -> forall u, held_of c' u = release p (held_of c) u.
Proof.
  intros Hc Hne. unfold cache_RemovePod, release. rewrite (GetPodKey_ok p Hne).
  destruct (podStates c !! UID p) as [ps|] eqn:Es.
  2: { intros [= <- _] u. case_decide as E; [|done]. subst u. assert (held_of c (UID p) = None) as -> by (by apply held_None). done. }
  case_bool_decide as Ha.
  { intros [= <- _] u. case_decide as E; [|done]. subst u. assert (held_of c (UID p) = Some (true, NodeName (Spec (ps_pod ps)))) as ->; [|done].
    apply held_assumed. split; [done|]. by exists ps. }
  destruct (String.eqb_spec (NodeName (Spec (ps_pod ps))) (NodeName (Spec p))) as [En|En]; cbn [negb]; [|done].
  destruct (ci_keys c Hc _ _ Es) as [Hu _].
  destruct (drop_pod_inv (ps_pod ps) ps (assumedPods c) c Hc) as (c1 & -> & [H1 H2] & _); [by rewrite Hu|done|by left|by rewrite Hu|].
  cbn [obind]. intros [= <- _] u.
  rewrite (held_delete c _ (UID p) (assumedPods c)); [|cbn [podStates with_pods]; by rewrite H1|cbn [assumedPods with_pods]; by rewrite H2|done].
  case_decide as E; [|done]. subst u. assert (held_of c (UID p) = Some (false, NodeName (Spec (ps_pod ps)))) as ->; [|done].
  apply held_confirmed. split; [done|]. by exists ps.
Qed.

Lemma held_cleanup now c c' :
  cache_inv c -> cleanupAssumedPods now c = Ret c' ->
  forall u, held_of c' u = held_of c u \/ (exists n, held_of c u = Some (true, n)) /\ held_of c' u = None.
Proof.
  intros Hc Hcl u. destruct (cleanup_inv now c Hc) as (c1 & E & _ & Hl). rewrite Hcl in E. injection E as <-. destruct (Hl u) as [H1 H2].
  assert (expired c now u \/ ~ expired c now u) as [He|He].
  { unfold expired. destruct (decide (u ∈ assumedPods c)); [|right; by intros [? _]].
    destruct (podStates c !! u) as [ps|]; [|right; by intros (_ & ? & ? & ? & _)].
    destruct (ps_bindingFinished ps) eqn:Eb; [|right; intros (_ & ? & ? & ? & ? & _); congruence].
    destruct (ps_deadline ps) as [dl|] eqn:Ed; [|right; intros (_ & ? & ? & ? & ? & ? & _); congruence].
    destruct (decide (dl < now)); [left; split; [done|]; by exists ps, dl|right].
    intros (_ & ps' & dl' & E1 & _ & E2 & Hlt). injection E1 as <-. rewrite Ed in E2. injection E2 as <-. done. }
  - right. destruct (H1 He) as [Hp _]. split; [|by apply held_None]. destruct He as (Ha & ps & _ & Hs & _).
    eexists. apply held_assumed. split; [done|]. by exists ps.
  - left. destruct (H2 He) as [Hp Ha]. unfold held_of. rewrite Hp. destruct (podStates c !! u); [|done]. cbn. do 2 f_equal. by apply bool_decide_ext.
Qed.

(** Operations on nodes do not touch the pods. *)
Lemma ensure_same x c : CacheProofs.same_pods c (ensure_item x c).
Proof. unfold ensure_item. by destruct (nodes c !! x). Qed.

Lemma AddNode_same node c : CacheProofs.same_pods c (AddNode node c).
Proof.
  unfold AddNode. set (c1 := with_tree _ _). destruct (finish_node_spec node c1) as (_ & [H1 H2] & _).
  unfold finish_node in *. split; [rewrite H1|rewrite H2]; unfold c1; cbn [podStates assumedPods with_tree moveNodeInfoToHead with_nodes];
    destruct (ensure_same (node_Name node) (forget_old_images (node_Name node) c)) as [E1 E2];
    destruct (forget_old_images_nodes (node_Name node) c) as (_ & _ & [F1 F2] & _); congruence.
Qed.

Lemma UpdateNode_same old new c c' : UpdateNode old new c = Ret c' -> CacheProofs.same_pods c c'.
Proof.
  unfold UpdateNode. destruct (updateNode old new _) as [t|]; [|done]. cbn [obind]. intros [= <-].
  set (c1 := match nodes c !! _ with Some _ => _ | None => _ end).
  assert (CacheProofs.same_pods c c1) as [E1 E2].
  { unfold c1. destruct (nodes c !! node_Name new).
    - by destruct (forget_old_images_nodes (node_Name new) c) as (_ & _ & ? & _).
    - exact (ensure_same (node_Name new) c). }
  destruct (finish_node_spec new (with_tree t (moveNodeInfoToHead (node_Name new) c1))) as (_ & [H1 H2] & _).
  unfold finish_node in *. split; [rewrite H1|rewrite H2]; done.
Qed.
End held.

(** * Handlers and timers as steps of the protocol

    What the event handlers and the timers do to the pods that wait and to
    what the cache holds, in the terms of the protocol; and that they return
    on the events that an informer reports. *)

(** ** Pods with names of the API *)

Lemma mask_put i o w j : valid_id i -> mask (put i o w) j = put i o (mask w) j.
Proof. intros Hi. unfold mask, put. repeat case_decide; naive_solver. Qed.

Lemma mask_requeue st i w j : valid_id i -> mask (requeue st i w) j = requeue st i (mask w) j.
Proof.
  intros Hi. unfold requeue. rewrite mask_put by done. unfold put. case_decide; [|done].
  unfold mask. by rewrite decide_True.
Qed.

Lemma requeue_ext st st' i w w' j :
  (forall j, st j = st' j) -> (forall j, w j = w' j) -> requeue st i w j = requeue st' i w' j.
Proof. intros Hs Hw. unfold requeue, put. by rewrite Hs, !Hw. Qed.

Section handlers.
Context {arch : GoArch} {gates : FeatureGates} {mr : MapRange} {Ext : Type}.
Context (cfg : QueueConfig) `{!LessOrder (lessFn cfg)}.
Context (Profiles : gmap string (frameworkImpl Ext)) (DeepEqual : Pod -> Pod -> bool).
Context (owner : string -> podid) (extra : Pod -> Prop).

Lemma holds_mask q' w j : holds_pods cfg q' w -> waiting_pods q' j = mask w j.
Proof. intros [_ H]. unfold waiting_pods, mask. case_decide; [by apply H|done]. Qed.

(** ** The queue *)

(** Pods that only change places. *)
Lemma shows_keeps q q' (f : place * QueuedPodInfo -> place * QueuedPodInfo) :
  (forall e, qpi_Pod (f e).2 = qpi_Pod e.2) -> shows cfg q' (fun j => f <$> find q j) -> holds_pods cfg q' (podat q).
Proof.
  intros Hf [Hq Hw]%shows_holds. split; [done|]. intros j Hj. rewrite Hw by done. unfold podat.
  destruct (find q j) as [e|]; [|done]. cbn. by rewrite Hf.
Qed.

Lemma movePods_holds now event chosen q :
  qinv cfg q -> holds_pods cfg (movePodsToActiveOrBackoffQueue cfg now (List.filter chosen (u_range 0 q)) event q) (podat q).
Proof.
  intros Hq. destruct (movePods_ok cfg now event chosen q Hq) as (Hs & _ & _). eapply shows_keeps; [|exact Hs].
  intros [[] p]; cbn; try done. by destruct (_ && _).
Qed.

Lemma MoveAll_holds now event preCheck q :
  qinv cfg q -> holds_pods cfg (MoveAllToActiveOrBackoffQueue cfg now event preCheck q) (podat q).
Proof. exact (movePods_holds now event (passes preCheck) q). Qed.

Lemma flushBackoff_holds now q :
  qinv cfg q -> exists q', flushBackoffQCompleted cfg now q = Ret q' /\ holds_pods cfg q' (podat q).
Proof.
  intros Hq. destruct (flush_loop_ok cfg _ now q Hq eq_refl) as (q' & E & Hs & _ & _). exists q'. split; [exact E|].
  eapply shows_keeps; [|exact Hs]. intros [[] p]; cbn; try done. by destruct (isPodBackingoff _ _ _).
Qed.

Lemma flushUnschedulable_holds now q : qinv cfg q -> holds_pods cfg (flushUnschedulableQLeftover cfg now q) (podat q).
Proof.
  intros Hq. unfold flushUnschedulableQLeftover. destruct (_ <? _)%nat; [|done].
  exact (movePods_holds now UnschedulableTimeout (overdue now) q Hq).
Qed.

Definition only_queue (s s' : Scheduler (Ext := Ext)) : Prop :=
  SchedulerCache s' = SchedulerCache s /\ sched_ext s' = sched_ext s /\ Algorithm s' = Algorithm s.

Lemma addToQueue_effect now p (s : Scheduler (Ext := Ext)) :
  qinv cfg (SchedulingQueue s) -> valid_pod p ->
  exists s', addPodToSchedulingQueue cfg now p s = Ret s' /\ only_queue s s' /\
    holds_pods cfg (SchedulingQueue s') (put (pid p) (Some p) (podat (SchedulingQueue s))).
Proof.
  intros Hq Hv. unfold addPodToSchedulingQueue.
  destruct (Add_ok cfg now p _ Hq Hv) as (q' & -> & [Hq' Hw]%shows_holds & _). cbn [obind fst].
  eexists. split_and!; [done|by split_and!|]. split; [done|]. intros j Hj. cbn [SchedulingQueue set_queue].
  rewrite Hw by done. unfold w_put, put. by case_decide.
Qed.

Lemma deleteFromQueue_effect p (s : Scheduler (Ext := Ext)) :
  qinv cfg (SchedulingQueue s) -> valid_pod p ->
  exists s', deletePodFromSchedulingQueue cfg Profiles p s = Ret s' /\ only_queue s s' /\
    holds_pods cfg (SchedulingQueue s') (put (pid p) None (podat (SchedulingQueue s))).
Proof.
  intros Hq Hv. unfold deletePodFromSchedulingQueue.
  destruct (Delete_ok cfg p _ Hq Hv) as (q' & -> & [Hq' Hw]%shows_holds & _). cbn [obind fst].
  assert (holds_pods cfg q' (put (pid p) None (podat (SchedulingQueue s)))) as Hh.
  { split; [done|]. intros j Hj. rewrite Hw by done. unfold w_del, put. by case_decide. }
  destruct (Profiles !! _); eexists; (split; [done|]); by split_and!.
Qed.

Lemma updateInQueue_effect now o n (s : Scheduler (Ext := Ext)) :
  qinv cfg (SchedulingQueue s) -> valid_pod n -> pid o = pid n ->
  exists s', updatePodInSchedulingQueue cfg DeepEqual now o n s = Ret s' /\ only_queue s s' /\
    (holds_pods cfg (SchedulingQueue s') (put (pid n) (Some n) (podat (SchedulingQueue s))) \/ s' = s).
Proof.
  intros Hq Hv Hpid. unfold updatePodInSchedulingQueue.
  destruct (String.eqb _ _); [exists s; split_and!; try done; by right|].
  destruct (IsAssumedPod n (SchedulerCache s)).1; [exists s; split_and!; try done; by right|].
  destruct (Update_ok cfg DeepEqual now o n _ Hq Hv Hpid) as (q' & -> & _ & H). cbn [obind fst].
  eexists. split_and!; [done|by split_and!|]. left. cbn [SchedulingQueue set_queue].
  destruct (find (SchedulingQueue s) (pid n)) as [e|]; destruct H as [[Hq' Hw]%shows_holds _]; (split; [done|]); intros j Hj;
    rewrite Hw by done; unfold w_put, put; case_decide; try done. cbn. by rewrite update_entry_pod.
Qed.

Lemma queue_handler_effect now e v (s : Scheduler (Ext := Ext)) :
  qinv cfg (SchedulingQueue s) -> legal owner extra e v -> (forall i p, v i = Some p -> pid p = i /\ fine owner extra p) ->
  exists s', queue_handler cfg Profiles DeepEqual now e s = Ret s' /\ only_queue s s' /\ qinv cfg (SchedulingQueue s') /\
    queue_handled Profiles e (waiting_pods (SchedulingQueue s)) (waiting_pods (SchedulingQueue s')).
Proof.
  intros Hq He Hv. unfold queue_handler. change (fun p => negb (assignedPod p) && responsibleForPod Profiles p) with (wanted Profiles). unfold filtering.
  assert (forall (s' : Scheduler (Ext := Ext)) i o, valid_id i -> holds_pods cfg (SchedulingQueue s') (put i o (podat (SchedulingQueue s))) ->
    forall j, waiting_pods (SchedulingQueue s') j = put i o (waiting_pods (SchedulingQueue s)) j) as Hput.
  { intros s' i o Hi Hh j. rewrite (holds_mask _ _ j Hh). by apply mask_put. }
  destruct e as [p|o n|p]; cbn [legal queue_handled] in *.
  - destruct (wanted Profiles p); cbn [negb]; [|exists s; split_and!; [done|by split_and!|done|done]].
    destruct He as [_ [Hvp _]]. destruct (addToQueue_effect now p s Hq Hvp) as (s' & -> & Ho & Hh).
    exists s'. split_and!; [done|apply Ho..|apply Hh|by apply Hput].
  - destruct He as (Ho & Hon & Hvn & _). destruct (Hv _ _ Ho) as [_ [Hvo _]].
    destruct (wanted Profiles n) eqn:En; cbn [andb negb].
    + rewrite (later_wanted Profiles o n Hon En). cbn [andb].
      destruct (updateInQueue_effect now o n s Hq Hvn (eq_sym (l_pid o n Hon))) as (s' & -> & Hs & [Hh| ->]); (eexists; split_and!; [done|apply Hs..| |]);
        [apply Hh|left; by apply Hput|done|by right].
    + destruct (wanted Profiles o); [|exists s; split_and!; [done|by split_and!|done|done]]. destruct (deleteFromQueue_effect o s Hq Hvo) as (s' & -> & Hs & Hh).
      exists s'. split_and!; [done|apply Hs..|apply Hh|by apply Hput].
  - destruct (wanted Profiles p); cbn [negb]; [|exists s; split_and!; [done|by split_and!|done|done]]. destruct (Hv _ _ He) as [_ [Hvp _]].
    destruct (deleteFromQueue_effect p s Hq Hvp) as (s' & -> & Hs & Hh).
    exists s'. split_and!; [done|apply Hs..|apply Hh|by apply Hput].
Qed.
(** ** The cache *)

(** The cache has the pods with a node that its handler has seen. *)
Definition has_seen (v : podid -> option Pod) (c : schedulerCache) : Prop :=
  forall u n, held_of c u = Some (false, n) <->
    exists i p, v i = Some p /\ assignedPod p = true /\ UID p = u /\ NodeName (Spec p) = n.

Lemma seen_placed v c p :
  has_seen v c -> (forall i p, v i = Some p -> pid p = i /\ fine owner extra p) -> v (pid p) = Some p -> placed c p.
Proof.
  intros Hs Hv Hp ps Hps Ha. assert (held_of c (UID p) = Some (false, NodeName (Spec (ps_pod ps)))) as H.
  { apply held_confirmed. split; [done|]. by exists ps. }
  apply Hs in H as (i & p' & Hi & _ & Hu & <-). by destruct (seen_unique owner extra _ _ _ _ _ Hv Hi Hp Hu) as [_ ->].
Qed.

(** A call on the cache, and then pods change places. *)
Definition cache_effect (s s' : Scheduler (Ext := Ext)) (h : string -> option (bool * string)) : Prop :=
  sched_ext s' = sched_ext s /\ Algorithm s' = Algorithm s /\ holds_pods cfg (SchedulingQueue s') (podat (SchedulingQueue s)) /\
  (SchedulerCache s' = SchedulerCache s \/ pod_step (SchedulerCache s) (SchedulerCache s')) /\
  forall u, held_of (SchedulerCache s') u = h u.

Lemma addToCache_effect now p (s : Scheduler (Ext := Ext)) :
  qinv cfg (SchedulingQueue s) -> cache_inv (SchedulerCache s) -> UID p <> ""%string ->
  exists s', addPodToCache cfg now p s = Ret s' /\ cache_effect s s' (confirm p (held_of (SchedulerCache s))).
Proof.
  intros Hq Hc Hu. unfold addPodToCache.
  destruct (cache_AddPod_inv p _ Hc) as (c' & e & Hr & _). rewrite Hr. cbn [obind fst].
  eexists. split; [done|]. split_and!; [done|done|by apply movePods_holds|right; by eapply ps_add|by eapply held_AddPod].
Qed.

Lemma cache_handler_effect now e v (s : Scheduler (Ext := Ext)) :
  qinv cfg (SchedulingQueue s) -> cache_inv (SchedulerCache s) -> has_seen v (SchedulerCache s) ->
  legal owner extra e v -> (forall i p, v i = Some p -> pid p = i /\ fine owner extra p) ->
  exists s', cache_handler cfg now e s = Ret s' /\ cache_effect s s' (cache_handled e (held_of (SchedulerCache s))).
Proof.
  intros Hq Hc Hs He Hv. unfold cache_handler, filtering.
  assert (cache_effect s s (held_of (SchedulerCache s))) as Hstay by (split_and!; try done; by left).
  destruct e as [p|o n|p]; cbn [legal cache_handled] in *.
  - destruct (assignedPod p); cbn [negb]; [|by exists s]. apply addToCache_effect; [done|done|apply He].
  - destruct He as (Ho & Hon & Hn). destruct (Hv _ _ Ho) as [_ Hfo]. destruct (assignedPod o) eqn:Eo.
    + assert (update_event o n) as Hup by (split; [apply (l_uid o n Hon)|by apply (l_node o n Hon)]).
      rewrite (assigned_after _ _ Hup), Eo. cbn [andb]. unfold updatePodInCache. rewrite (l_uid o n Hon), String.eqb_refl. cbn [negb].
      assert (placed (SchedulerCache s) o) as Hpl by (by eapply seen_placed).
      destruct (UpdatePod_confirmed o n _ Hc Hup Hpl) as (c' & e & Hr & _); [apply Hfo|]. rewrite Hr. cbn [obind fst].
      eexists. split; [done|]. split_and!; [done|done|by apply movePods_holds|right; by eapply ps_update|].
      eapply held_UpdatePod; [..|exact Hr]; try done. apply Hfo.
    + rewrite andb_false_r. destruct (assignedPod n); cbn [andb negb]; [|by exists s]. apply addToCache_effect; [done|done|apply Hn].
  - destruct (Hv _ _ He) as [_ Hfp]. destruct (assignedPod p); cbn [negb]; [|by exists s]. unfold deletePodFromCache.
    destruct (RemovePod_gone p _ Hc) as (c' & e & Hr & _); [by eapply seen_placed|apply Hfp|]. rewrite Hr. cbn [obind fst].
    eexists. split; [done|]. split_and!; [done|done|by apply MoveAll_holds|right; by eapply ps_remove|].
    eapply held_RemovePod; [done|apply Hfp|exact Hr].
Qed.

(** ** Nodes *)

Definition node_effect (s s' : Scheduler (Ext := Ext)) : Prop :=
  sched_ext s' = sched_ext s /\ Algorithm s' = Algorithm s /\ holds_pods cfg (SchedulingQueue s') (podat (SchedulingQueue s)) /\
  informed_step (SchedulerCache s) (SchedulerCache s') /\ CacheProofs.same_pods (SchedulerCache s) (SchedulerCache s').

Lemma move_for_node_effect now event name (s : Scheduler (Ext := Ext)) :
  qinv cfg (SchedulingQueue s) -> is_Some (object (SchedulerCache s) name) ->
  exists q', move_for_node cfg now event name s = Ret (set_queue q' s) /\ holds_pods cfg q' (podat (SchedulingQueue s)).
Proof.
  intros Hq [node Hn]. unfold move_for_node. unfold object in Hn. destruct (info_of (SchedulerCache s) name) as [ni|]; [|done].
  cbn in Hn. rewrite Hn. eexists. split; [done|]. by apply MoveAll_holds.
Qed.

Lemma UpdateNode_returns old new c : exists c', UpdateNode (Some old) new c = Ret c'.
Proof. unfold UpdateNode, updateNode. destruct (String.eqb _ _); by eexists. Qed.

Lemma node_handler_effect now e (s : Scheduler (Ext := Ext)) snap :
  qinv cfg (SchedulingQueue s) -> system (SchedulerCache s) snap -> room (SchedulerCache s) -> informed (SchedulerCache s) e ->
  exists s', node_handler cfg now e s = Ret s' /\ node_effect s s'.
Proof.
  intros Hq Hsys [Hroom _] He. destruct (system_inv _ _ Hsys) as (Hc & Hg & Ht & _ & H0).
  destruct e as [node|old new|node]; cbn [informed node_handler] in *.
  - unfold addNodeToCache. destruct (AddNode_effects node (SchedulerCache s)) as [(_ & _ & Ho) _]; [done|lia|].
    destruct (move_for_node_effect now NodeAdd (node_Name node) (set_cache (AddNode node (SchedulerCache s)) s)) as (q' & -> & Hh); [done| |].
    { cbn [SchedulerCache set_cache]. rewrite Ho, decide_True by done. by eexists. }
    eexists. split; [done|]. split_and!; [done|done|done|by apply is_add_node|apply AddNode_same].
  - destruct He as [Hn Ho]. unfold updateNodeInCache.
    destruct (UpdateNode_returns old new (SchedulerCache s)) as [c' Hup]. rewrite Hup. cbn [obind].
    destruct (UpdateNode_effects (Some old) new _ _ ltac:(rewrite Hn; by eapply object_info) H0 ltac:(lia) Hup) as [(_ & _ & Hobj) _].
    assert (node_effect s (set_cache c' s)) as Hstay.
    { split_and!; [done|done|done|by eapply is_update_node|by eapply UpdateNode_same]. }
    destruct (nodeSchedulingPropertiesChange new old) as [event|]; [|by eexists].
    destruct (move_for_node_effect now event (node_Name new) (set_cache c' s)) as (q' & -> & Hh); [done| |].
    { cbn [SchedulerCache set_cache]. rewrite Hobj, decide_True by done. by eexists. }
    eexists. split; [done|]. destruct Hstay as (_ & _ & _ & H1 & H2). by split_and!.
  - eexists. split; [done|]. split_and!; [done|done|done|apply is_remove_node; congruence|apply RemoveNode_pods].
Qed.
End handlers.
