(* ===== verification/WholeProofs.v ===== *)
(** * No pod is forgotten

    The whole scheduler follows the protocol: every step of WholeSystem is a
    step of Protocol, whatever the order in which scheduling cycles, binding
    cycles, handlers and timers run.  So what the protocol guarantees holds of
    the scheduler in every state that it reaches, and in each of them the code
    returns. *)

From S2P Require Import Prelude GoInt GoFloat GoStrconv Quantity ApiTypes Labels AffinityTerms Resource HostPorts NodeInfo Json Framework Snapshot NodeTree Cache CacheProofs CacheSnapshot HeapList Heap HeapProofs SchedulingQueue QueueProofs QueueRefine Runtime GenericScheduler GenericProofs FilterLoop ScoreProofs ScheduleProofs Scheduler EventHandlers EventProofs Protocol SchedulerProofs WholeSystem HandlerSteps.

Open Scope go_scope.

(** ** Generations *)

Section generations.
Context {arch : GoArch} {gates : FeatureGates} {mr : MapRange}.

Lemma addPod_nodes pod c : (size (nodes (addPod pod c)) <= S (size (nodes c)))%nat.
Proof.
  set (x := NodeName (Spec pod)).
  assert (dom (nodes (addPod pod c)) ⊆ {[x]} ∪ dom (nodes c)) as H.
  { intros y. rewrite elem_of_union, elem_of_singleton, !elem_of_dom. intros Hy.
    destruct (decide (x = y)) as [->|Hne]; [by left|right].
    pose proof (info_of_addPod pod c y) as Hi. rewrite decide_False in Hi by done. unfold info_of in Hi.
    destruct (nodes (addPod pod c) !! y); [|by destruct Hy]. destruct (nodes c !! y); [by eexists|done]. }
  rewrite <- !size_dom. etransitivity; [apply subseteq_size, H|]. rewrite size_union_alt, size_singleton.
  pose proof (subseteq_size (dom (nodes c) ∖ {[x]}) (dom (nodes c)) ltac:(set_solver)). lia.
Qed.

Lemma room_AssumePod p c : 0 <= G c -> spare c -> room (AssumePod p c).1.
Proof.
  intros H0 [H1 H2]. assert (room c) as Hc by (split; lia). unfold AssumePod.
  destruct (GetPodKey p) as [k [e|]]; [done|]. destruct (podStates c !! k); [done|]. cbn [fst].
  destruct (addPod_effects p c H0 ltac:(lia)) as (_ & HG & _). destruct (addPod_same p c) as [_ E].
  split; cbn [assumedPods nodes with_pods].
  - change (G (with_pods _ _ (addPod p c))) with (G (addPod p c)). rewrite E, size_union_alt.
    pose proof (subseteq_size ({[k]} ∖ assumedPods c : gset string) {[k]} ltac:(set_solver)) as Hs. rewrite size_singleton in Hs. lia.
  - pose proof (addPod_nodes p c). lia.
Qed.

Lemma AssumePod_uid p c c' : AssumePod p c = (c', None) -> UID p <> ""%string.
Proof. unfold AssumePod. destruct (GetPodKey p) as [k [e|]] eqn:Hk; [done|]. by apply GetPodKey_Some in Hk as [_ ?]. Qed.

Lemma room_finishBinding p now c : room c -> room (finishBinding p now c).1.
Proof.
  intros H. unfold finishBinding. destruct (GetPodKey p) as [k [e|]]; [done|]. destruct (podStates c !! k); [|done].
  by case_bool_decide.
Qed.
End generations.

Section whole_proofs.
Context {arch : GoArch} {gates : FeatureGates} {mr : MapRange} {par : Parallel} {Ext : Type}.
Context (cfg : QueueConfig) `{!LessOrder (lessFn cfg)} (Profiles : gmap string (frameworkImpl Ext)) (prefer : bool).
Context (client : Client (Ext := Ext)) (DeepEqual : Pod -> Pod -> bool) (owner : string -> podid) (extra : Pod -> Prop).
Context (sane : Ext -> Prop) (Hsr : surroundings Profiles client extra sane).

Abbreviation cluster := (WholeSystem.cluster (Ext := Ext)).
Abbreviation abs := (WholeSystem.abs client).
Abbreviation pstep := (Protocol.pstep Profiles owner extra).
Abbreviation pinv := (Protocol.pinv Profiles owner extra).

(** ** The invariant of the scheduler's own state *)

(** What a cycle in progress has is of a profile. *)
Definition cycle_inv (o : option cycle_stage) : Prop :=
  match o with
  | Some (Decided podInfo f st _) => Profiles !! SchedulerName (Spec (qpi_Pod podInfo)) = Some f /\ stash_ok st
  | _ => True
  end.

Record cinv (cl : cluster) : Prop := {
  cw_queue : qinv cfg (SchedulingQueue (cl_sched cl));
  cw_system : system (SchedulerCache (cl_sched cl)) (nodeInfoSnapshot (Algorithm (cl_sched cl)));
  cw_sane : sane (sched_ext (cl_sched cl));
  cw_cycle : cycle_inv (cl_cycle cl);
  cw_flight : Forall (fun b => stash_ok (b_state b) /\ is_Some (Profiles !! b_profile b)) (cl_flight cl)
}.

(** ** Steps *)

(** The protocol is in the state of the scheduler, up to the functions in it. *)
Definition agrees (P : protocol) (cl : cluster) : Prop :=
  hand P = stage_pod <$> cl_cycle cl /\ flight P = map (fun b => qpi_Pod (b_podInfo b)) (cl_flight cl) /\ bound P = cl_bound cl /\
  q_events P = cl_queue_events cl /\ c_events P = cl_cache_events cl /\ q_seen P = cl_queue_seen cl /\ c_seen P = cl_cache_seen cl /\
  (forall j, waiting_pods (SchedulingQueue (cl_sched cl)) j = queued P j) /\
  (forall u, held_of (SchedulerCache (cl_sched cl)) u = held P u) /\
  (forall i, store_of client (sched_ext (cl_sched cl)) i = store P i).

Lemma agrees_step P cl : agrees P cl -> pstep P (abs cl).
Proof.
  intros (H0 & H1 & H2 & H3 & H4 & H5 & H6 & Hq & Hh & Hst). unfold WholeSystem.abs. rewrite <- H0, <- H1, <- H2, <- H3, <- H4, <- H5, <- H6.
  by apply ps_idle.
Qed.

Lemma agrees_abs cl : agrees (abs cl) cl.
Proof. by split_and!. Qed.

Definition follows (cl cl' : cluster) : Prop := cinv cl' /\ exists P, pstep (abs cl) P /\ agrees P cl'.

(** A step in which no pod enters or leaves a part of the scheduler. *)
Lemma quiet cl cl' : cinv cl' -> agrees (abs cl) cl' -> follows cl cl'.
Proof. intros Hc Ha. split; [done|]. exists (abs cl). split; [|done]. apply agrees_step, agrees_abs. Qed.

Lemma quiet_sched cl s' :
  cinv cl -> qinv cfg (SchedulingQueue s') -> system (SchedulerCache s') (nodeInfoSnapshot (Algorithm s')) -> sane (sched_ext s') ->
  (forall j, waiting_pods (SchedulingQueue s') j = waiting_pods (SchedulingQueue (cl_sched cl)) j) ->
  (forall u, held_of (SchedulerCache s') u = held_of (SchedulerCache (cl_sched cl)) u) ->
  (forall i, store_of client (sched_ext s') i = store_of client (sched_ext (cl_sched cl)) i) ->
  follows cl (with_sched s' cl).
Proof. intros [_ _ _ Hcy Hf] Hq Hs Hx Hw Hh Hst. apply quiet; [by split|by split_and!]. Qed.

Lemma moved_quiet cl q' :
  cinv cl -> holds_pods cfg q' (podat (SchedulingQueue (cl_sched cl))) -> follows cl (with_sched (set_queue q' (cl_sched cl)) cl).
Proof.
  intros Hc Hh. apply quiet_sched; try done; [apply Hh|apply Hc|apply Hc|]. intros j. exact (holds_mask cfg _ _ j Hh).
Qed.

Lemma report_follows cl e x' :
  cinv cl -> legal owner extra e (store_of client (sched_ext (cl_sched cl))) -> sane x' ->
  (forall i, store_of client x' i = after e (store_of client (sched_ext (cl_sched cl))) i) ->
  follows cl (mkCluster (set_ext x' (cl_sched cl)) (cl_cycle cl) (cl_flight cl) (cl_bound cl) (cl_queue_events cl ++ [e])
                (cl_cache_events cl ++ [e]) (cl_queue_seen cl) (cl_cache_seen cl)).
Proof.
  intros [Hq Hs Hx Hcy Hf] He Hx' Hst. split; [by split|]. exists (set_store (store_of client x') e (abs cl)). split; [by apply ps_report|by split_and!].
Qed.

Lemma queue_event_follows cl e l now s' :
  cinv cl -> pinv (abs cl) -> cl_queue_events cl = e :: l -> queue_handler cfg Profiles DeepEqual now e (cl_sched cl) = Ret s' ->
  follows cl (mkCluster s' (cl_cycle cl) (cl_flight cl) (cl_bound cl) l (cl_cache_events cl) (after e (cl_queue_seen cl)) (cl_cache_seen cl)).
Proof.
  intros [Hq Hs Hx Hcy Hf] HP El Hr. pose proof (pi_q_chain _ _ _ _ HP) as Hch. cbn in Hch. rewrite El in Hch. destruct Hch as [He _].
  destruct (queue_handler_effect cfg Profiles DeepEqual owner extra now e _ (cl_sched cl) Hq He (pi_q_fine _ _ _ _ HP)) as (s1 & Hr' & (E1 & E2 & E3) & Hq' & Hw).
  rewrite Hr in Hr'. injection Hr' as <-. split; [split; try done; cbn; by rewrite ?E1, ?E2, ?E3|].
  exists (set_q_seen l (after e (cl_queue_seen cl)) (set_queued (waiting_pods (SchedulingQueue s')) (abs cl))).
  split; [by apply (ps_queue _ _ _ _ e)|]. split_and!; try done; cbn; by rewrite ?E1, ?E2.
Qed.

Lemma cache_event_follows cl e l now s' :
  cinv cl -> pinv (abs cl) -> room (SchedulerCache (cl_sched cl)) ->
  cl_cache_events cl = e :: l -> cache_handler cfg now e (cl_sched cl) = Ret s' ->
  follows cl (mkCluster s' (cl_cycle cl) (cl_flight cl) (cl_bound cl) (cl_queue_events cl) l (cl_queue_seen cl) (after e (cl_cache_seen cl))).
Proof.
  intros [Hq Hs Hx Hcy Hf] HP Hroom El Hr. pose proof (pi_c_chain _ _ _ _ HP) as Hch. cbn in Hch. rewrite El in Hch. destruct Hch as [He _].
  destruct (system_inv _ _ Hs) as (Hc & _).
  destruct (cache_handler_effect cfg owner extra now e _ (cl_sched cl) Hq Hc (pi_confirmed _ _ _ _ HP) He (pi_c_fine _ _ _ _ HP))
    as (s1 & Hr' & E1 & E2 & Hh & Hstep & Hheld).
  rewrite Hr in Hr'. injection Hr' as <-. split.
  - split; [apply Hh| |cbn; by rewrite E1|done|done]. cbn. rewrite E2. destruct Hstep as [->|Hstep]; [done|]. eapply sys_event; [exact Hs|done|by apply is_pods].
  - exists (set_c_seen l (after e (cl_cache_seen cl)) (set_held (held_of (SchedulerCache s')) (abs cl))).
    split; [by apply (ps_cache _ _ _ _ e)|]. split_and!; try done; cbn; [|by rewrite E1]. intros j. exact (holds_mask cfg _ _ j Hh).
Qed.

Lemma node_event_follows cl e now s' :
  cinv cl -> room (SchedulerCache (cl_sched cl)) -> informed (SchedulerCache (cl_sched cl)) e ->
  node_handler cfg now e (cl_sched cl) = Ret s' -> follows cl (with_sched s' cl).
Proof.
  intros Hcl Hroom He Hr. pose proof Hcl as [Hq Hs Hx Hcy Hf].
  destruct (node_handler_effect cfg now e (cl_sched cl) _ Hq Hs Hroom He) as (s1 & Hr' & E1 & E2 & Hh & Hstep & Hsame).
  rewrite Hr in Hr'. injection Hr' as <-. apply quiet_sched; try done; rewrite ?E1, ?E2; try done; [apply Hh|by eapply sys_event| |].
  - intros j. exact (holds_mask cfg _ _ j Hh).
  - intros u. by apply held_same.
Qed.

Lemma cleanup_follows cl now c' :
  cinv cl -> room (SchedulerCache (cl_sched cl)) -> cleanupAssumedPods now (SchedulerCache (cl_sched cl)) = Ret c' ->
  follows cl (with_sched (set_cache c' (cl_sched cl)) cl).
Proof.
  intros [Hq Hs Hx Hcy Hf] Hroom Hr. destruct (system_inv _ _ Hs) as (Hc & _). split.
  - split; try done. eapply sys_event; [exact Hs|done|apply is_pods; by eapply ps_cleanup].
  - exists (set_held (held_of c') (abs cl)). split; [|by split_and!]. apply ps_expire. by eapply held_cleanup.
Qed.
(** ** Failures *)

Lemma recorded_end i x c w err (s1 s' : Scheduler (Ext := Ext)) L p :
  recorded cfg client i x c w err s1 s' -> good_for client extra sane L x p -> valid_id i ->
  qinv cfg (SchedulingQueue s') /\ SchedulerCache s' = c /\ Algorithm s' = Algorithm s1 /\ sane (sched_ext s') /\
  (forall i, store_of client (sched_ext s') i = L i) /\
  (forall j, waiting_pods (SchedulingQueue s') j = requeue L i (mask w) j).
Proof.
  intros (Hh & Hc & Ha & Hp) (Hx & HL & _) Hi. split_and!; [apply Hh| |done| | |].
  - rewrite Hc. unfold drop_missing_node. destruct err; [done|]. destruct (String.eqb _ _); [done|].
    destruct (not_found_node _ _); [|done]. by rewrite (sr_nodes _ _ _ _ Hsr).
  - destruct Hp as [->|(p' & st & ->)]; [done|]. by apply (sr_patch _ _ _ _ Hsr).
  - intros j. rewrite (patched_store client (sr_stable _ _ _ _ Hsr) x _ j Hp). apply HL.
  - intros j. rewrite (holds_mask cfg _ _ j Hh), mask_requeue by done. by apply requeue_ext.
Qed.

Lemma good_for_node L x p h : good_for client extra sane L x p -> good_for client extra sane L x (set_NodeName h p).
Proof. intros (H1 & H2 & H3). split_and!; [done|done|]. by apply (sr_extra _ _ _ _ Hsr). Qed.

(** ** The scheduling cycle *)

Abbreviation pods_of s := (store_of client (sched_ext s)).

(** The clones do not exhaust the counter. *)
Lemma decide_world draw (s : Scheduler (Ext := Ext)) pod g w :
  system (SchedulerCache s) (nodeInfoSnapshot (Algorithm s)) -> cycle_fits s -> scheduled prefer draw s pod g w ->
  G (SchedulerCache s) <= generation w.
Proof.
  intros Hs Hfits (f & st0 & x & st & res & Hsched). destruct (system_inv _ _ Hs) as (_ & Hg & Ht & Hsi & H0).
  destruct Hfits as ([_ Hn] & _ & N & Hfew & HG).
  destruct (UpdateSnapshot_exact _ _ Hg Ht Hsi Hn) as (s1 & Hup & Hex & _).
  apply (Schedule_takes f _ N Hfew) in Hsched; rewrite Hup in *; cbn [fst] in *;
    rewrite (SN_List_length _ s1 Ht Hex) in *; unfold SN_NumNodes in *; rewrite (ex_list _ _ Hex) in *; unfold G, takes, left_for in *; lia.
Qed.

Lemma decide_starts cl : cinv cl -> cycle_fits (cl_sched cl) ->
  decide_start Profiles (good_for client extra sane (pods_of (cl_sched cl))) (cl_sched cl).
Proof.
  intros [Hq Hs Hx Hcy Hf] (Hroom & Hn & _). split; try done. intros name f Hn'. by apply (sr_profiles _ _ _ _ Hsr _ name).
Qed.

(** A pod is taken from the queue. *)
Lemma take_follows cl podInfo q' :
  cinv cl -> cl_cycle cl = None -> Pop cfg (SchedulingQueue (cl_sched cl)) = Ret (q', PopItem podInfo) ->
  follows cl (with_cycle (Some (Taken podInfo)) (with_sched (set_queue q' (cl_sched cl)) cl)).
Proof.
  intros [Hq Hs Hx Hcy Hf] Hno Hr.
  destruct (Pop_ok cfg _ Hq) as (q1 & r & Hr' & [(i & p & Hi & Hp & _ & -> & [Hq1 Hw]%shows_holds & _)|(_ & -> & ->)]);
    rewrite Hr in Hr'; [|by destruct (closed _)]. injection Hr' as -> ->. split; [by split|].
  exists (set_hand (Some (qpi_Pod p)) (set_queued (waiting_pods q1) (abs cl))). split; [|by split_and!].
  apply (ps_take _ _ _ _ i); [cbn; by rewrite Hno| |].
  - cbn. unfold waiting_pods, mask. rewrite decide_True by done. apply podat_Some. by exists Active, p.
  - intros j. cbn. unfold waiting_pods. rewrite <- mask_put by done. unfold mask. case_decide as Ej; [|done]. rewrite Hw by done.
    unfold w_del, put. by case_decide.
Qed.

(** The algorithm decides. *)
Lemma hand_fine cl c : pinv (abs cl) -> cl_cycle cl = Some c -> fine owner extra (stage_pod c).
Proof. intros HP Hc. apply (pi_hand _ _ _ _ HP). cbn. by rewrite Hc. Qed.

Lemma decide_follows cl podInfo draw sampled s' d :
  cinv cl -> pinv (abs cl) -> cl_cycle cl = Some (Taken podInfo) -> cycle_fits (cl_sched cl) ->
  decide_on Profiles [] prefer draw sampled podInfo (cl_sched cl) = Ret (s', d) ->
  follows cl (with_cycle (after_decision podInfo d) (with_sched s' cl)).
Proof.
  intros Hcl HP Hcyc Hfits Hr. pose proof Hcl as [Hq Hs Hx Hcy Hf]. pose proof (hand_fine cl _ HP Hcyc) as Hfine. cbn in Hfine.
  destruct (decide_effect Profiles prefer _ draw sampled podInfo (cl_sched cl) (decide_starts cl Hcl Hfits)) as (s1 & d1 & Hr' & Hd).
  { split_and!; [done|done|apply Hfine]. }
  rewrite Hr in Hr'. injection Hr' as <- <-. destruct d as [[[f st] res]|]; cbn [decided after_decision] in *; cbv zeta in Hd.
  - destruct Hd as (Hprof & _ & Hst & g & w & x & Hsched & Hsnap & -> & (Hx' & HL & _) & _).
    pose proof (decide_world draw _ _ _ _ Hs Hfits Hsched) as Hw. apply quiet.
    + split; cbn; try done. rewrite Hsnap. apply sys_clones; [apply sys_cycle; [done|apply Hfits]|done].
    + split_and!; try done. cbn. by rewrite Hcyc.
  - destruct Hd as [-> Hwhy]. split; [by split|]. exists (set_hand None (abs cl)). split; [|by split_and!].
    apply (ps_skip _ _ _ _ (qpi_Pod podInfo)); [cbn; by rewrite Hcyc|]. unfold responsibleForPod, live.
    destruct Hwhy as [->|[H|H]]; [by left|right; left|right; right].
    + destruct H as [t ->]. done.
    + unfold IsAssumedPod in H. destruct (GetPodKey (qpi_Pod podInfo)) as [k [err|]] eqn:Ek; [done|]. apply GetPodKey_Some in Ek as [-> _].
      injection H as H%bool_decide_eq_true. destruct (system_inv _ _ Hs) as (Hc & _). pose proof (ci_assumed _ Hc _ H) as [ps Hps].
      eexists. cbn. apply held_assumed. split; [done|]. by exists ps.
Qed.

(** The cache, when the cycle assumed the pod and forgot it again. *)
Lemma assume_forget ap c c' e' :
  cache_inv c -> (AssumePod ap c).2 = None -> ForgetPod ap (AssumePod ap c).1 = Ret (c', e') -> forall u, held_of c' u = held_of c u.
Proof.
  intros Hc Ha Hf u. pose proof (held_AssumePod ap c) as H. destruct (AssumePod ap c) as [c1 e1] eqn:E. cbn [fst snd] in *. subst e1.
  destruct H as [Hno H]. pose proof (AssumePod_uid _ _ _ E) as Hu. assert (cache_inv c1) as Hc1.
  { pose proof (AssumePod_inv ap c Hc) as Hi. by rewrite E in Hi. }
  rewrite (held_ForgetPod ap c1 c' e' Hc1 Hu Hf). unfold forget. rewrite H. case_decide as Eu; [|done].
  subst u. rewrite String.eqb_refl. done.
Qed.

Lemma conclude_cache c snap c' pod host :
  let ap := set_NodeName host pod in let r := AssumePod ap c in
  system c snap -> spare c -> (c' = r.1 /\ r.2 <> None \/ r.2 = None /\ exists e', ForgetPod ap r.1 = Ret (c', e')) ->
  system c' snap /\ forall u, held_of c' u = held_of c u.
Proof.
  intros ap r Hs Hsp Hcase. destruct (system_inv _ _ Hs) as (Hc & _ & _ & _ & H0).
  assert (room c) as R1 by (destruct Hsp; split; lia). subst r. pose proof (held_AssumePod ap c) as Ha. destruct Hcase as [[-> He]|[He [e' Hf]]].
  - destruct (AssumePod ap c) as [c1 [e|]]; [|done]. cbn [fst snd] in *. subst c1. by split.
  - split; [|by eapply (assume_forget ap c)].
    eapply sys_event; [eapply sys_event; [exact Hs|done|apply is_pods, (CacheProofs.ps_assume ap)]|by apply room_AssumePod|apply is_pods; by eapply ps_forget].
Qed.

(** The failure of a cycle is recorded. *)
Lemma failed_follows cl podInfo s' x c' err L p' :
  cinv cl -> pinv (abs cl) -> stage_pod <$> cl_cycle cl = Some (qpi_Pod podInfo) ->
  L = pods_of (cl_sched cl) -> good_for client extra sane L x p' ->
  system c' (nodeInfoSnapshot (Algorithm (cl_sched cl))) -> (forall u, held_of c' u = held_of (SchedulerCache (cl_sched cl)) u) ->
  recorded cfg client (pid (qpi_Pod podInfo)) x c' (podat (SchedulingQueue (cl_sched cl))) err (cl_sched cl) s' ->
  follows cl (with_cycle None (with_flight (cl_flight cl) (cl_bound cl) (with_sched s' cl))).
Proof.
  intros [Hq Hs Hx Hcy Hf] HP Hcyc -> Hg Hs' Hheld Hrec.
  assert (fine owner extra (qpi_Pod podInfo)) as Hfine by (apply (pi_hand _ _ _ _ HP); done).
  destruct (recorded_end _ _ _ _ _ _ _ _ p' Hrec Hg) as (Hq' & Ec & Ea & Hx' & HL & Hwait); [apply Hfine|].
  split; [split; cbn; rewrite ?Ec, ?Ea; done|].
  exists (set_hand None (set_queued (waiting_pods (SchedulingQueue s')) (abs cl))). split; [|split_and!; try done; cbn; by rewrite ?Ec].
  eapply ps_fail; [exact Hcyc|]. intros j. rewrite Hwait. by apply requeue_ext.
Qed.

(** The decision is carried out. *)
Lemma conclude_runs cl podInfo f st res now :
  cinv cl -> pinv (abs cl) -> cl_cycle cl = Some (Decided podInfo f st res) ->
  exists s' e, conclude cfg client now f podInfo st res (cl_sched cl) = Ret (s', e) /\
    concluded cfg client (good_for client extra sane (pods_of (cl_sched cl))) podInfo res (cl_sched cl) s' e.
Proof.
  intros [Hq Hs Hx Hcy Hf] HP Hcyc. pose proof (hand_fine cl _ HP Hcyc) as Hfine. cbn in Hfine. rewrite Hcyc in Hcy. destruct Hcy as [Hprof Hst].
  destruct (system_inv _ _ Hs) as (Hc & _). apply (conclude_effect cfg client (sr_names _ _ _ _ Hsr)); try done; [apply good_for_node| |split_and!; [done|done|apply Hfine]|apply Hfine].
  by apply (sr_profiles _ _ _ _ Hsr _ (SchedulerName (Spec (qpi_Pod podInfo)))).
Qed.

Lemma conclude_follows cl podInfo f st res now s' e :
  cinv cl -> pinv (abs cl) -> cl_cycle cl = Some (Decided podInfo f st res) -> spare (SchedulerCache (cl_sched cl)) ->
  conclude cfg client now f podInfo st res (cl_sched cl) = Ret (s', e) ->
  follows cl (with_cycle None (with_flight (cycle_flight e (cl_flight cl)) (cl_bound cl) (with_sched s' cl))).
Proof.
  intros Hcl HP Hcyc Hsp Hr. pose proof Hcl as [Hq Hs Hx Hcy Hf]. destruct (conclude_runs cl podInfo f st res now Hcl HP Hcyc) as (s1 & e1 & Hr' & He).
  rewrite Hr in Hr'. injection Hr' as <- <-. rewrite Hcyc in Hcy. destruct Hcy as [Hprof _]. set (pod := qpi_Pod podInfo) in *.
  assert (hand (abs cl) = Some pod) as Hhand by (cbn; by rewrite Hcyc).
  unfold concluded in He. destruct res as [r|err].
  2: { destruct He as (-> & x & Hg & Hrec). by eapply failed_follows. }
  unfold committed in He. cbv zeta in He. fold pod in He. destruct e as [| |p'|b]; [done|done| |].
  - destruct He as (-> & x & c' & err & Hg & Hcase & Hrec). destruct (conclude_cache _ _ _ _ _ Hs Hsp Hcase) as [Hs' Hheld]. by eapply failed_follows.
  - destruct He as (Epod & Eh & _ & Eprof & Hst & He2 & Ec & Ea & (Hx' & HL & _) & Hh). cbn [cycle_flight].
    pose proof (held_AssumePod (set_NodeName (SuggestedHost r) pod) (SchedulerCache (cl_sched cl))) as Ha. rewrite He2 in Ha. destruct Ha as [Hno Hheld].
    split.
    + split; cbn; rewrite ?Ec, ?Ea; try done; [apply Hh|..].
      * eapply sys_event; [exact Hs|destruct Hsp; split; lia|apply is_pods, CacheProofs.ps_assume].
      * constructor; [|done]. split; [done|]. rewrite Eprof. by exists f.
    + exists (set_hand None (set_flight (set_NodeName (SuggestedHost r) pod :: flight (abs cl)) (bound (abs cl))
        (set_held (held_of (SchedulerCache s')) (abs cl)))).
      split; [|split_and!; try done; cbn; [by rewrite Epod|intros j; exact (holds_mask cfg _ _ j Hh)]].
      eapply ps_assume; [exact Hhand|exact Hno|]. intros u. rewrite Ec. apply Hheld.
Qed.

(** ** The binding cycle *)

Lemma binding_runs cl l1 b l2 f now :
  cinv cl -> pinv (abs cl) -> cl_flight cl = l1 ++ b :: l2 -> Profiles !! b_profile b = Some f ->
  fine owner extra (qpi_Pod (b_podInfo b)) /\
  exists r, binding_step cfg [] client now f b (cl_sched cl) = Ret r /\
    match r with
    | None => b_stage b = WaitingOnPermit /\
        exists wp, profile_waiting (b_profile b) (cl_sched cl) !! UID (qpi_Pod (b_podInfo b)) = Some wp /\ wp_s wp = None
    | Some (s', e) => binding_effect cfg client (good_for client extra sane (pods_of (cl_sched cl))) now f b (cl_sched cl) s' e
    end.
Proof.
  intros [Hq Hs Hx Hcy Hf] HP El Hprof. pose proof (pi_flight _ _ _ _ HP) as Hfine. cbn in Hfine.
  rewrite El in Hf, Hfine. rewrite map_app in Hfine. apply Forall_app in Hf as [_ Hf]. apply Forall_app in Hfine as [_ Hfine].
  apply Forall_cons in Hf as [[Hst _] _]. apply Forall_cons in Hfine as [Hb _]. split; [done|].
  destruct (sr_profiles _ _ _ _ Hsr (pods_of (cl_sched cl)) _ _ Hprof) as [H1 H2]. destruct (system_inv _ _ Hs) as (Hc & _).
  apply (binding_step_effect cfg client (sr_names _ _ _ _ Hsr)); try done; [split_and!; [done|done|apply Hb]|apply Hb].
Qed.

(** The cache, when a binding cycle gave up. *)
Lemma unbind_cache c snap pod now c0 c' e' :
  system c snap -> room c -> UID pod <> ""%string -> (c0 = c \/ c0 = (finishBinding pod now c).1) -> ForgetPod pod c0 = Ret (c', e') ->
  system c' snap /\ forall u, held_of c' u = forget pod (held_of c) u.
Proof.
  intros Hs Hroom Hu Hc0 Hf.
  assert (system c0 snap /\ room c0 /\ forall u, held_of c0 u = held_of c u) as (Hs0 & R0 & Hh).
  { destruct Hc0 as [-> | ->]; [done|]. split_and!; [|by apply room_finishBinding|apply held_finishBinding].
    eapply sys_event; [exact Hs|done|apply is_pods, CacheProofs.ps_finish]. }
  destruct (system_inv _ _ Hs0) as (Hc & _). split; [eapply sys_event; [exact Hs0|done|apply is_pods; by eapply ps_forget]|].
  intros u. rewrite (held_ForgetPod pod c0 c' e' Hc Hu Hf). unfold forget. by rewrite Hh.
Qed.

Lemma binding_follows cl l1 b l2 f now s' e :
  cinv cl -> pinv (abs cl) -> room (SchedulerCache (cl_sched cl)) -> cl_flight cl = l1 ++ b :: l2 -> Profiles !! b_profile b = Some f ->
  binding_step cfg [] client now f b (cl_sched cl) = Ret (Some (s', e)) -> follows cl (after_stage l1 l2 e (with_sched s' cl)).
Proof.
  intros Hcl HP Hroom El Hprof Hr. pose proof Hcl as [Hq Hs Hx Hcy Hf]. set (pod_of := fun b => qpi_Pod (b_podInfo b)).
  destruct (binding_runs cl l1 b l2 f now Hcl HP El Hprof) as (Hb & r & Hr' & He). rewrite Hr in Hr'. injection Hr' as <-.
  rewrite El in Hf. apply Forall_app in Hf as [F1 Hf]. apply Forall_cons in Hf as [Fb F2].
  assert (flight (abs cl) = map pod_of l1 ++ pod_of b :: map pod_of l2) as Efl by (cbn; by rewrite El, map_app).
  destruct e as [b'|p'|p']; cbn [binding_effect after_stage] in *; cbv zeta in He.
  - destruct He as (_ & E1 & _ & E2 & E3 & Ec & Ea & Eq & Hx' & HL & _). apply quiet.
    + split; cbn; rewrite ?Ec, ?Ea, ?Eq; try done. apply Forall_app. split; [done|]. constructor; [by rewrite E2, E3|done].
    + split_and!; try done; cbn; rewrite ?Ec, ?Eq; try done. rewrite El, !map_app. cbn. by rewrite E1.
  - destruct He as (-> & _ & Ec & Ea & (Hx' & HL & _) & Hh). split.
    + split; cbn; rewrite ?Ec, ?Ea; try done; [apply Hh| |by apply Forall_app].
      eapply sys_event; [exact Hs|done|apply is_pods, CacheProofs.ps_finish].
    + exists (set_flight (map pod_of l1 ++ map pod_of l2) (pod_of b :: bound (abs cl)) (abs cl)). split; [by apply ps_bound|].
      split_and!; try done; cbn; [by rewrite map_app|intros j; exact (holds_mask cfg _ _ j Hh)|].
      intros u. rewrite Ec. apply held_finishBinding.
  - destruct He as (-> & x & c0 & c' & e' & err & Hg & Hc0 & Hfo & Hrec).
    destruct (recorded_end _ _ _ _ _ _ _ _ _ Hrec Hg) as (Hq' & Ec & Ea & Hx' & HL & Hwait); [apply Hb|].
    destruct (unbind_cache _ _ _ _ _ _ _ Hs Hroom ltac:(apply Hb) Hc0 Hfo) as [Hs' Hheld]. split.
    + split; cbn; rewrite ?Ec, ?Ea; try done. by apply Forall_app.
    + exists (set_flight (map pod_of l1 ++ map pod_of l2) (bound (abs cl))
        (set_held (held_of c') (set_queued (waiting_pods (SchedulingQueue s')) (abs cl)))).
      split; [by eapply ps_unbind|]. split_and!; try done; cbn; [by rewrite map_app|by rewrite Ec].
Qed.

(** ** Every state *)

Abbreviation cluster_step := (WholeSystem.cluster_step cfg Profiles prefer client DeepEqual owner extra sane).
Abbreviation cluster_reachable := (WholeSystem.cluster_reachable cfg Profiles prefer client DeepEqual owner extra sane).

Lemma step_follows cl cl' : cinv cl -> pinv (abs cl) -> cluster_step cl cl' -> follows cl cl'.
Proof.
  intros Hcl HP Hstep. pose proof Hcl as [Hq Hs Hx Hcy Hf].
  destruct Hstep as [e x' He Hx' Hst|x' Hx' Hst|e l now s' El Hr|e l now s' Hroom El Hr|e now s' Hroom He Hr|event now
    |podInfo q' Hno Hr|podInfo draw sampled s' d Hcyc Hfits Hr|podInfo f st res now s' e Hcyc Hsp Hr|l1 b l2 f now s' e Hroom El Hprof Hr|w|now q' Hr|now|now c' Hroom Hr].
  - by apply report_follows.
  - by apply quiet_sched.
  - by eapply queue_event_follows.
  - by eapply cache_event_follows.
  - by eapply node_event_follows.
  - by apply moved_quiet, MoveAll_holds.
  - by apply take_follows.
  - by eapply decide_follows.
  - by eapply conclude_follows.
  - by eapply binding_follows.
  - by apply quiet_sched.
  - destruct (flushBackoff_holds cfg now _ Hq) as (q1 & Hr' & Hh). rewrite Hr in Hr'. injection Hr' as <-. by apply moved_quiet.
  - by apply moved_quiet, flushUnschedulable_holds.
  - by eapply cleanup_follows.
Qed.

Lemma started_follows cl : started cfg client sane cl -> cinv cl /\ agrees (start (fun _ => None)) cl.
Proof.
  intros [[t Hc] Hsnap [Hq Hw] [Hx Hst] Hrest]. rewrite Hrest. split.
  - split; cbn; try done. rewrite Hc, Hsnap. apply sys_new.
  - split_and!; try done; cbn.
    + intros j. unfold waiting_pods, mask. by case_decide.
    + intros u. by rewrite Hc.
Qed.

Lemma reachable_follows cl : cluster_reachable cl -> cinv cl /\ preach Profiles owner extra (abs cl).
Proof.
  induction 1 as [cl Hst|cl cl' _ [Hc HP] Hstep].
  - destruct (started_follows cl Hst) as [Hc Ha]. split; [done|]. eapply pr_step; [by apply pr_start|by apply agrees_step].
  - pose proof (preach_inv Profiles owner extra (sr_extra _ _ _ _ Hsr) _ HP) as HI.
    destruct (step_follows cl cl' Hc HI Hstep) as [Hc' (P & H1 & H2)]. split; [done|].
    eapply pr_step; [eapply pr_step; [exact HP|exact H1]|by apply agrees_step].
Qed.
Lemma reachable_inv cl : cluster_reachable cl -> cinv cl /\ pinv (abs cl).
Proof.
  intros [Hc HP]%reachable_follows. split; [done|]. by apply (preach_inv Profiles owner extra (sr_extra _ _ _ _ Hsr)).
Qed.

(** C3. The whole scheduler refines the protocol.  Whatever the order in which
    parts of scheduling cycles, stages of binding cycles, the handlers of pods
    and nodes, other events and timers run, and whatever the API server and the
    plugins do within what the scheduler relies on: the pods that wait, the
    pods in the hands of binding cycles, what the cache holds of a pod, the
    informer's copy and the events under way make a state that the protocol
    reaches; the queue keeps its invariant, and the cache and the snapshot of
    the last cycle are as a run of the cache alone leaves them. *)
Theorem scheduler_refines_protocol cl :
  cluster_reachable cl ->
  preach Profiles owner extra (abs cl) /\ qinv cfg (SchedulingQueue (cl_sched cl)) /\
  system (SchedulerCache (cl_sched cl)) (nodeInfoSnapshot (Algorithm (cl_sched cl))).
Proof. intros [Hc HP]%reachable_follows. split_and!; [done|apply Hc..]. Qed.

(** Where the scheduler has the pod. *)
Definition taken_care_of (cl : cluster) (p : Pod) : Prop :=
  is_Some (find (SchedulingQueue (cl_sched cl)) (pid p)) \/
  (exists c, cl_cycle cl = Some c /\ UID (stage_pod c) = UID p) \/
  (exists b, b ∈ cl_flight cl /\ UID (qpi_Pod (b_podInfo b)) = UID p) \/
  (exists b, b ∈ cl_bound cl /\ UID b = UID p).

Lemma on_its_way_cl cl p :
  valid_pod p -> on_its_way Profiles (abs cl) p -> taken_care_of cl p \/ adding (cl_queue_events cl) p.
Proof.
  intros Hv [H|[(b & Hb & Hu)|[H|[H|(e & He & Hu & _)]]]]; [left; left|left; right; right; left|left; right; right; by right|by right|left; right; left].
  - cbn in H. unfold waiting_pods, mask in H. rewrite decide_True in H by done. by apply podat_is_Some.
  - cbn in Hb. apply list_elem_of_fmap in Hb as (b' & -> & Hb'). by exists b'.
  - cbn in He. apply fmap_Some in He as (c & Hc & ->). by exists c.
Qed.

Lemma kept_cl cl p :
  cluster_reachable cl -> store_of client (sched_ext (cl_sched cl)) (pid p) = Some p -> wanted Profiles p = true -> live p ->
  valid_pod p /\ (taken_care_of cl p \/ adding (cl_queue_events cl) p).
Proof.
  intros [_ HP]%reachable_inv Hp Hw Hl. assert (valid_pod p) as Hv by (apply (pi_store _ _ _ _ HP _ _ Hp)). split; [done|].
  apply on_its_way_cl; [done|]. by apply (pi_kept _ _ _ _ HP).
Qed.

(** C2. No pod is forgotten.  In every state that the scheduler reaches, a pod
    of the informer's copy that has no node, is not being deleted and names a
    profile waits in the queue, or is in the hands of the scheduling cycle or
    of a binding cycle, or was bound, or its addition is an event that the
    queue's handler is still to see; although an update for a pod that is
    assumed does not reach the queue, a cycle drops pods that it finds assumed
    or deleted, pods change under the cycle that has them, and assumed pods
    expire.  And the cache accounts for the right pods: it has a pod
    confirmed on a node exactly if its handler has seen the pod there, and
    assumed only if a binding cycle has the pod or had it. *)
Theorem no_pod_forgotten cl :
  cluster_reachable cl ->
  (forall p, store_of client (sched_ext (cl_sched cl)) (pid p) = Some p -> wanted Profiles p = true -> live p ->
     taken_care_of cl p \/ adding (cl_queue_events cl) p) /\
  (forall u n, held_of (SchedulerCache (cl_sched cl)) u = Some (false, n) <->
     exists i p, cl_cache_seen cl i = Some p /\ assignedPod p = true /\ UID p = u /\ NodeName (Spec p) = n) /\
  (forall u n, held_of (SchedulerCache (cl_sched cl)) u = Some (true, n) ->
     exists p, (p ∈ map (fun b => qpi_Pod (b_podInfo b)) (cl_flight cl) \/ p ∈ cl_bound cl) /\ UID p = u /\ NodeName (Spec p) = n) /\
  (cl_cache_events cl = [] -> forall i, cl_cache_seen cl i = store_of client (sched_ext (cl_sched cl)) i).
Proof.
  intros Hr. pose proof (reachable_inv cl Hr) as [_ HP]. split_and!.
  - intros p Hp Hw Hl. by apply kept_cl.
  - exact (pi_confirmed _ _ _ _ HP).
  - exact (pi_assumed _ _ _ _ HP).
  - intros E. pose proof (pi_c_chain _ _ _ _ HP) as H. cbn in H. rewrite E in H. exact H.
Qed.

(** C5. The scheduler does not panic.  In every state that it reaches, each
    call that it can make next returns: taking a pod from the queue, the
    algorithm on the pod that was taken, carrying out its decision, however
    the cluster changed in between, the next stage of each binding cycle,
    whose profile exists, the handlers of pods on their next events, that of
    nodes on what the informer reports, and the timers. *)
Theorem scheduler_never_panics cl now :
  cluster_reachable cl ->
  let s := cl_sched cl in
  (exists r, Pop cfg (SchedulingQueue s) = Ret r) /\
  (forall podInfo draw sampled, cl_cycle cl = Some (Taken podInfo) -> cycle_fits s ->
     exists r, decide_on Profiles [] prefer draw sampled podInfo s = Ret r) /\
  (forall podInfo f st res, cl_cycle cl = Some (Decided podInfo f st res) -> exists r, conclude cfg client now f podInfo st res s = Ret r) /\
  (forall b, b ∈ cl_flight cl -> exists f r, Profiles !! b_profile b = Some f /\ binding_step cfg [] client now f b s = Ret r) /\
  (forall e l, cl_queue_events cl = e :: l -> exists s', queue_handler cfg Profiles DeepEqual now e s = Ret s') /\
  (forall e l, cl_cache_events cl = e :: l -> exists s', cache_handler cfg now e s = Ret s') /\
  (forall e, room (SchedulerCache s) -> informed (SchedulerCache s) e -> exists s', node_handler cfg now e s = Ret s') /\
  (exists q', flushBackoffQCompleted cfg now (SchedulingQueue s) = Ret q') /\
  (exists c', cleanupAssumedPods now (SchedulerCache s) = Ret c').
Proof.
  intros Hr. pose proof (reachable_inv cl Hr) as [Hc HP]. pose proof Hc as [Hq Hs Hx Hcy Hf]. destruct (system_inv _ _ Hs) as (Hcache & _). cbv zeta.
  split_and!.
  - destruct (Pop_ok cfg _ Hq) as (q' & r & -> & _). by eexists.
  - intros podInfo draw sampled Hcyc Hfits. pose proof (hand_fine cl _ HP Hcyc) as Hfine.
    destruct (decide_effect Profiles prefer _ draw sampled podInfo (cl_sched cl) (decide_starts cl Hc Hfits)) as (s1 & d & -> & _); [|by eexists].
    split_and!; [done|done|apply Hfine].
  - intros podInfo f st res Hcyc. destruct (conclude_runs cl podInfo f st res now Hc HP Hcyc) as (s' & e & -> & _). by eexists.
  - intros b (l1 & l2 & El)%list_elem_of_split. pose proof Hf as Hf'. rewrite El in Hf'. apply Forall_app in Hf' as [_ Hf'].
    apply Forall_cons in Hf' as [[_ [f Hprof]] _].
    destruct (binding_runs cl l1 b l2 f now Hc HP El Hprof) as (_ & r & Hr' & _). by exists f, r.
  - intros e l El. pose proof (pi_q_chain _ _ _ _ HP) as Hch. cbn in Hch. rewrite El in Hch. destruct Hch as [He _].
    destruct (queue_handler_effect cfg Profiles DeepEqual owner extra now e _ (cl_sched cl) Hq He (pi_q_fine _ _ _ _ HP)) as (s1 & -> & _). by eexists.
  - intros e l El. pose proof (pi_c_chain _ _ _ _ HP) as Hch. cbn in Hch. rewrite El in Hch. destruct Hch as [He _].
    destruct (cache_handler_effect cfg owner extra now e _ (cl_sched cl) Hq Hcache (pi_confirmed _ _ _ _ HP) He (pi_c_fine _ _ _ _ HP)) as (s1 & -> & _).
    by eexists.
  - intros e Hroom He. destruct (node_handler_effect cfg now e (cl_sched cl) _ Hq Hs Hroom He) as (s1 & -> & _). by eexists.
  - destruct (flushBackoff_holds cfg now _ Hq) as (q' & -> & _). by eexists.
  - destruct (cleanup_inv now _ Hcache) as (c' & -> & _). by eexists.
Qed.

(** ** The handler catches up *)

Lemma queue_drains cl (now : Z) :
  cluster_reachable cl -> exists cl', rtc cluster_step cl cl' /\ cluster_reachable cl' /\ cl_queue_events cl' = [] /\
    sched_ext (cl_sched cl') = sched_ext (cl_sched cl).
Proof.
  remember (cl_queue_events cl) as l eqn:El. revert cl El. induction l as [|e l IH]; intros cl El Hr; [by exists cl|].
  pose proof (reachable_inv cl Hr) as [[Hq _ _ _ _] HP]. pose proof (pi_q_chain _ _ _ _ HP) as Hch. cbn in Hch. rewrite <- El in Hch. destruct Hch as [He _].
  destruct (queue_handler_effect cfg Profiles DeepEqual owner extra now e _ (cl_sched cl) Hq He (pi_q_fine _ _ _ _ HP)) as (s1 & Hs1 & (_ & Hx & _) & _).
  pose proof (c_queue_event cfg Profiles prefer client DeepEqual owner extra sane cl e l now s1 (eq_sym El) Hs1) as Hstep.
  edestruct IH as (cl' & H1 & H2 & H3 & H4); [|by eapply cl_step|].
  { done. }
  exists cl'. split_and!; [by eapply rtc_l|done|done|]. rewrite H4. exact Hx.
Qed.

(** C32. No event blocks a pod for ever.  From every state that the scheduler reaches,
    the queue's handler alone, which never gets stuck on an event, brings it
    to a state with the same pods in which all events have been handled, and
    there every pod that has to be scheduled waits in the queue, or is in the
    hands of a cycle, or was bound.  So a pod that neither waits nor is worked
    on when the scheduler has caught up was bound. *)
Theorem handler_catches_up cl :
  cluster_reachable cl ->
  exists cl', rtc cluster_step cl cl' /\ cl_queue_events cl' = [] /\
    (forall i, store_of client (sched_ext (cl_sched cl')) i = store_of client (sched_ext (cl_sched cl)) i) /\
    forall p, store_of client (sched_ext (cl_sched cl)) (pid p) = Some p -> wanted Profiles p = true -> live p -> taken_care_of cl' p.
Proof.
  intros Hr. destruct (queue_drains cl 0 Hr) as (cl' & H1 & H2 & H3 & H4). exists cl'. split_and!; [done|done|by rewrite H4|].
  intros p Hp Hw Hl. rewrite <- H4 in Hp. destruct (kept_cl cl' p H2 Hp Hw Hl) as [_ [H|H]]; [done|].
  rewrite H3 in H. destruct H as (p0 & Hin & _). by apply elem_of_nil in Hin.
Qed.
End whole_proofs.
