(* ===== verification/WholeExample.v ===== *)
(** * A run of the whole scheduler

    The life of one pod: nodes join, the pod is created, the handlers see it,
    a cycle assumes it on a node, its binding cycle writes it to etcd, the
    informer reports the bound pod and the cache confirms it; and in between
    the theorems on the whole scheduler, at the states of this run. *)

From S2P Require Import Prelude GoInt GoFloat GoStrconv Quantity ApiTypes Labels AffinityTerms Resource HostPorts NodeInfo Json Framework Snapshot NodeTree Cache CacheProofs CacheSnapshot Hicev1 Hicev1Proofs NodeResourcesFit Hicev2 Hicev2Proofs HeapList Heap HeapProofs SchedulingQueue QueueProofs QueueRefine Runtime GenericScheduler GenericProofs FilterLoop ScoreProofs ScheduleProofs HiceProfile Scheduler EventHandlers EventProofs Protocol SchedulerProofs WholeSystem WholeProofs Samples EndToEnd.

Open Scope go_scope.

(** ** What it runs in *)

(** The informer's copy: the node of the pod, once there is a pod. *)
Definition informer_key : string := "informer/nginx".

Definition live_client : Client (Ext := EtcdStore) :=
  {| lister_Get x ns name :=
       if bool_decide ((ns, name) = pid web_pod) then (fun h => set_NodeName h web_pod) <$> x !! informer_key else None;
     PatchPodStatus x _ _ := (x, None);
     not_found_node _ := None; node_missing _ _ := false |}.

Lemma informer_frame x x' i : x' !! informer_key = x !! informer_key -> store_of live_client x' i = store_of live_client x i.
Proof. intros H. unfold store_of. cbn. by rewrite H. Qed.

Lemma live_surroundings : surroundings web_profiles live_client is_web web_etcd.
Proof.
  split.
  - done.
  - intros x ns name cp. cbn. case_bool_decide as E; [|done]. destruct (x !! informer_key); [|done]. intros [= <-]. by rewrite E.
  - done.
  - done.
  - apply is_web_node.
  - intros L name f Hn. unfold web_profiles in Hn. apply lookup_singleton_Some in Hn as [_ <-]. split.
    + split; [split; [done|apply hice_filters_return]| | |constructor..].
      * split; [apply hice_scores_return|]. exists hice_weights. apply hice_configured.
      * repeat constructor. intros x st p (H1 & H2 & H3) Hst.
        destruct (web_prefilter x st p (conj H1 H3) Hst) as (st' & r & H & Hst').
        exists x, st', r. split; [exact H|]. split; [|exact Hst']. split; [exact H1|]. split; [exact H2|exact H3].
    + split; [constructor| |constructor]. constructor; [|constructor]. intros x st p h (H1 & H2 & H3).
      destruct (web_bind x st p h (conj H1 H3)) as (x' & r & H & Hx & Hframe). exists x', r. split; [exact H|].
      split; [exact Hx|]. split; [|exact H3]. intros i. rewrite <- H2. apply informer_frame, Hframe. discriminate.
Qed.

(** ** The steps *)

Definition web_owner (u : string) : podid := pid web_pod.
Definition never_equal (a b : Pod) : bool := false.

Definition got {A} (d : A) (o : outcome A) : A := match o with Ret a => a | Panic _ => d end.
Definition returned {A} (o : outcome A) : bool := match o with Ret _ => true | Panic _ => false end.

Lemma got_ok {A} (d : A) o : returned o = true -> o = Ret (got d o).
Proof. by destruct o. Qed.

Definition idle_scheduler : Scheduler (Ext := EtcdStore) := mkScheduler (newSchedulerCache 30) first_cycle new_queue ∅ sample_store.
Definition idle_cluster : cluster := mkCluster idle_scheduler None [] [] [] [] (fun _ => None) (fun _ => None).

Abbreviation live_reachable := (@cluster_reachable amd64 gates_default range_id in_order EtcdStore default_queue_config web_profiles false
  live_client never_equal web_owner is_web web_etcd).

Lemma idle_reachable : live_reachable idle_cluster.
Proof.
  apply cl_start. split; try done.
  - by exists 30.
  - split; [exact (new_queue_inv default_queue_config _)|]. intros i. reflexivity.
  - split; [split_and!; [reflexivity|reflexivity|by eexists]|]. intros i. unfold store_of. cbn. by case_bool_decide.
Qed.

(** A node joins. *)
Definition join (node : Node) (cl : cluster) : cluster :=
  with_sched (got (cl_sched cl) (@node_handler amd64 gates_default range_id EtcdStore default_queue_config 1 (Added node) (cl_sched cl))) cl.

Definition fits_in (c : schedulerCache) : bool :=
  (G c + Z.of_nat (size (assumedPods c)) + 4 <=? MaxInt64) && (Z.of_nat (size (nodes c)) <=? 2 ^ 61).

Lemma fits_in_room c : fits_in c = true -> room c.
Proof. intros [H1 H2]%andb_true_iff. split; by apply Z.leb_le. Qed.

Lemma join_reachable node cl :
  live_reachable cl -> fits_in (SchedulerCache (cl_sched cl)) = true -> object (SchedulerCache (cl_sched cl)) (node_Name node) = None ->
  returned (@node_handler amd64 gates_default range_id EtcdStore default_queue_config 1 (Added node) (cl_sched cl)) = true ->
  live_reachable (join node cl).
Proof.
  intros Hr Hroom Hnew Hret. eapply cl_step; [exact Hr|].
  apply (@c_node_event amd64 gates_default range_id in_order EtcdStore) with (e := Added node) (now := 1);
    [by apply fits_in_room|done|by apply got_ok].
Qed.

Definition cluster_of_nodes : cluster := fold_left (fun cl n => join n cl) web_nodes idle_cluster.

Lemma nodes_reachable : live_reachable cluster_of_nodes.
Proof.
  unfold cluster_of_nodes, web_nodes. cbn [fold_left].
  repeat (apply join_reachable; [|vm_compute; reflexivity..]). apply idle_reachable.
Qed.

(** The pod is created. *)
Definition created : cluster :=
  let cl := cluster_of_nodes in
  mkCluster (set_ext (<[informer_key := ""%string]> (sched_ext (cl_sched cl))) (cl_sched cl)) (cl_cycle cl) (cl_flight cl) (cl_bound cl)
    (cl_queue_events cl ++ [Added web_pod]) (cl_cache_events cl ++ [Added web_pod]) (cl_queue_seen cl) (cl_cache_seen cl).

Lemma web_fine h : fine web_owner is_web (set_NodeName h web_pod).
Proof. split_and!; [split; reflexivity|discriminate|reflexivity|by exists h]. Qed.

Lemma etcd_informer h x : web_etcd x -> web_etcd (<[informer_key := h]> x).
Proof.
  intros (H1 & H2 & H3). unfold web_etcd. rewrite !lookup_insert_ne by (by vm_compute). done.
Qed.

Lemma informer_put h x i : store_of live_client (<[informer_key := h]> x) i = put (pid web_pod) (Some (set_NodeName h web_pod)) (store_of live_client x) i.
Proof.
  destruct i as [ns name]. unfold store_of, put. cbn [lister_Get live_client fst snd]. rewrite lookup_insert_eq.
  repeat case_decide; repeat case_bool_decide; by subst.
Qed.

Lemma nodes_ext : sched_ext (cl_sched cluster_of_nodes) = sample_store.
Proof. vm_compute. reflexivity. Qed.

Lemma sample_etcd : web_etcd sample_store.
Proof. split_and!; [reflexivity|reflexivity|by eexists]. Qed.

Lemma created_reachable : live_reachable created.
Proof.
  eapply cl_step; [apply nodes_reachable|].
  apply (@c_report amd64 gates_default range_id in_order EtcdStore) with (e := Added web_pod); rewrite ?nodes_ext.
  - split; [vm_compute; reflexivity|]. exact (web_fine "").
  - apply etcd_informer, sample_etcd.
  - intros i. apply informer_put.
Qed.

(** The handlers see an event. *)
Definition queue_sees (e : event Pod) (l : list (event Pod)) (cl : cluster) : cluster :=
  mkCluster (got (cl_sched cl) (@queue_handler EtcdStore default_queue_config web_profiles never_equal 2 e (cl_sched cl)))
    (cl_cycle cl) (cl_flight cl) (cl_bound cl) l (cl_cache_events cl) (after e (cl_queue_seen cl)) (cl_cache_seen cl).

Definition cache_sees (e : event Pod) (l : list (event Pod)) (cl : cluster) : cluster :=
  mkCluster (got (cl_sched cl) (@cache_handler amd64 gates_default range_id EtcdStore default_queue_config 3 e (cl_sched cl)))
    (cl_cycle cl) (cl_flight cl) (cl_bound cl) (cl_queue_events cl) l (cl_queue_seen cl) (after e (cl_cache_seen cl)).

Lemma queue_sees_reachable e l cl :
  live_reachable cl -> cl_queue_events cl = e :: l ->
  returned (@queue_handler EtcdStore default_queue_config web_profiles never_equal 2 e (cl_sched cl)) = true ->
  live_reachable (queue_sees e l cl).
Proof.
  intros Hr El Hret. eapply cl_step; [exact Hr|].
  apply (@c_queue_event amd64 gates_default range_id in_order EtcdStore) with (e := e) (now := 2); [done|by apply got_ok].
Qed.

Lemma cache_sees_reachable e l cl :
  live_reachable cl -> fits_in (SchedulerCache (cl_sched cl)) = true -> cl_cache_events cl = e :: l ->
  returned (@cache_handler amd64 gates_default range_id EtcdStore default_queue_config 3 e (cl_sched cl)) = true ->
  live_reachable (cache_sees e l cl).
Proof.
  intros Hr Hroom El Hret. eapply cl_step; [exact Hr|].
  apply (@c_cache_event amd64 gates_default range_id in_order EtcdStore) with (e := e) (now := 3);
    [by apply fits_in_room|done|by apply got_ok].
Qed.

Definition queued_cluster : cluster := cache_sees (Added web_pod) [] (queue_sees (Added web_pod) [] created).

Lemma queued_reachable : live_reachable queued_cluster.
Proof.
  apply cache_sees_reachable; [|vm_compute; reflexivity|reflexivity|vm_compute; reflexivity].
  apply queue_sees_reachable; [apply created_reachable|reflexivity|vm_compute; reflexivity].
Qed.

(** The three parts of a scheduling cycle; a part that can not run leaves
    the state as it is. *)
Definition taken (cl : cluster (Ext := EtcdStore)) : cluster :=
  match cl_cycle cl, Pop default_queue_config (SchedulingQueue (cl_sched cl)) with
  | None, Ret (q', PopItem p) => with_cycle (Some (Taken p)) (with_sched (set_queue q' (cl_sched cl)) cl)
  | _, _ => cl
  end.

Definition decided_on (cl : cluster (Ext := EtcdStore)) : cluster :=
  match cl_cycle cl with
  | Some (Taken p) =>
      match @decide_on amd64 gates_default range_id in_order EtcdStore web_profiles [] false (fun _ _ => 0) false p (cl_sched cl) with
      | Ret (s', d) => with_cycle (after_decision p d) (with_sched s' cl)
      | Panic _ => cl
      end
  | _ => cl
  end.

Definition carried_out (cl : cluster (Ext := EtcdStore)) : cluster :=
  match cl_cycle cl with
  | Some (Decided p f st res) =>
      match @conclude amd64 gates_default range_id EtcdStore default_queue_config live_client 9 f p st res (cl_sched cl) with
      | Ret (s', e) => with_cycle None (with_flight (cycle_flight e (cl_flight cl)) (cl_bound cl) (with_sched s' cl))
      | Panic _ => cl
      end
  | _ => cl
  end.

(** No pod is nominated, and the counter has room. *)
Definition fits_cycle (s : Scheduler (Ext := EtcdStore)) : bool :=
  let c := SchedulerCache s in
  fits_in c && (Z.of_nat (length (all_nodes (c_nodeTree c))) * 100 <=? MaxInt32) &&
  bool_decide (nominatedPods (q_nominator (SchedulingQueue s)) = ∅) && (G c <=? MaxInt64).

Lemma fits_cycle_ok s : fits_cycle s = true -> cycle_fits s.
Proof.
  unfold fits_cycle. rewrite !andb_true_iff, !Z.leb_le, bool_decide_eq_true. intros [[[H1%fits_in_room H2] H3] H4]. split_and!; [apply H1..|done|].
  exists 0%nat. split; [|lia]. intros name. unfold NominatedPodsForNode. rewrite H3, lookup_empty. cbn. lia.
Qed.

Definition spares (c : schedulerCache) : bool :=
  (G c + Z.of_nat (size (assumedPods c)) + 8 <=? MaxInt64) && (Z.of_nat (size (nodes c)) + 1 <=? 2 ^ 61).

Lemma taken_reachable cl : live_reachable cl -> live_reachable (taken cl).
Proof.
  intros Hr. unfold taken. destruct (cl_cycle cl) eqn:Hc; [done|]. destruct (Pop _ _) as [[q' [p| |]]|] eqn:E; try done.
  eapply cl_step; [exact Hr|]. by apply (@c_take amd64 gates_default range_id in_order EtcdStore).
Qed.

Lemma decided_reachable cl : live_reachable cl -> fits_cycle (cl_sched cl) = true -> live_reachable (decided_on cl).
Proof.
  intros Hr Hfits. unfold decided_on. destruct (cl_cycle cl) as [[p|]|] eqn:Hc; try done.
  destruct (decide_on _ _ _ _ _ _ _) as [[s' d]|] eqn:E; [|done].
  eapply cl_step; [exact Hr|]. eapply (@c_decide amd64 gates_default range_id in_order EtcdStore); [exact Hc|by apply fits_cycle_ok|exact E].
Qed.

Lemma carried_out_reachable cl : live_reachable cl -> spares (SchedulerCache (cl_sched cl)) = true -> live_reachable (carried_out cl).
Proof.
  intros Hr [H1 H2]%andb_true_iff. unfold carried_out. destruct (cl_cycle cl) as [[|p f st res]|] eqn:Hc; try done.
  destruct (conclude _ _ _ _ _ _ _ _) as [[s' e]|] eqn:E; [|done].
  eapply cl_step; [exact Hr|]. eapply (@c_conclude amd64 gates_default range_id in_order EtcdStore); [exact Hc|split; by apply Z.leb_le|exact E].
Qed.

(** The next stage of the first binding cycle. *)
Definition staged (cl : cluster) : cluster :=
  match cl_flight cl with
  | b :: l =>
      match web_profiles !! b_profile b with
      | Some f =>
          match @binding_step amd64 gates_default range_id EtcdStore default_queue_config [] live_client 9 f b (cl_sched cl) with
          | Ret (Some (s', e)) => after_stage [] l e (with_sched s' cl)
          | _ => cl
          end
      | None => cl
      end
  | [] => cl
  end.

Lemma staged_reachable cl : live_reachable cl -> fits_in (SchedulerCache (cl_sched cl)) = true -> live_reachable (staged cl).
Proof.
  intros Hr Hroom. unfold staged. destruct (cl_flight cl) as [|b l] eqn:El; [done|]. destruct (web_profiles !! b_profile b) as [f|] eqn:Ef; [|done].
  destruct (binding_step _ _ _ _ _ _ _) as [[[s' e]|]|] eqn:E; [|done|done].
  eapply cl_step; [exact Hr|]. eapply (@c_binding amd64 gates_default range_id in_order EtcdStore); [by apply fits_in_room|exact El|exact Ef|exact E].
Qed.

Definition working_cluster : cluster := decided_on (taken queued_cluster).
Definition binding_cluster : cluster := carried_out working_cluster.
Definition bound_cluster : cluster := staged (staged (staged binding_cluster)).

Lemma working_reachable : live_reachable working_cluster.
Proof. apply decided_reachable; [apply taken_reachable, queued_reachable|vm_compute; reflexivity]. Qed.

Lemma binding_reachable : live_reachable binding_cluster.
Proof. apply carried_out_reachable; [apply working_reachable|vm_compute; reflexivity]. Qed.

Lemma bound_reachable : live_reachable bound_cluster.
Proof. do 3 (apply staged_reachable; [|vm_compute; reflexivity]). apply binding_reachable. Qed.

(** The informer reports the pod with its node, and the handlers see it. *)
Definition web_bound : Pod := set_NodeName "edge" web_pod.

Definition reported : cluster :=
  let cl := bound_cluster in
  mkCluster (set_ext (<[informer_key := "edge"%string]> (sched_ext (cl_sched cl))) (cl_sched cl)) (cl_cycle cl) (cl_flight cl) (cl_bound cl)
    (cl_queue_events cl ++ [Updated web_pod web_bound]) (cl_cache_events cl ++ [Updated web_pod web_bound]) (cl_queue_seen cl) (cl_cache_seen cl).

(** The state of etcd after the binding. *)
Lemma bound_etcd :
  web_etcd (sched_ext (cl_sched bound_cluster)) /\
  sched_ext (cl_sched bound_cluster) !! informer_key = Some ""%string /\
  sched_ext (cl_sched bound_cluster) !! pod_key web_pod = Some "edge local-registry:5000/test-nginx-arm64:latest 1000"%string.
Proof. unfold web_etcd. split_and!; vm_compute; try reflexivity. by eexists. Qed.

Lemma reported_reachable : live_reachable reported.
Proof.
  eapply cl_step; [apply bound_reachable|]. destruct bound_etcd as (H1 & H2 & _).
  apply (@c_report amd64 gates_default range_id in_order EtcdStore) with (e := Updated web_pod web_bound).
  - split_and!; [|by split|apply web_fine]. unfold store_of. cbn [lister_Get live_client]. rewrite H2. vm_compute. reflexivity.
  - by apply etcd_informer.
  - intros i. apply informer_put.
Qed.

Definition settled : cluster := cache_sees (Updated web_pod web_bound) [] (queue_sees (Updated web_pod web_bound) [] reported).

Lemma settled_reachable : live_reachable settled.
Proof.
  apply cache_sees_reachable; [|vm_compute; reflexivity|vm_compute; reflexivity|vm_compute; reflexivity].
  apply queue_sees_reachable; [apply reported_reachable|vm_compute; reflexivity..].
Qed.

(** Where the pod is along the run. *)
Definition where_is (cl : cluster (Ext := EtcdStore)) : option Pod * option Pod * nat * nat * option (bool * string) :=
  (podat (SchedulingQueue (cl_sched cl)) (pid web_pod), stage_pod <$> cl_cycle cl, length (cl_flight cl), length (cl_bound cl), held_of (SchedulerCache (cl_sched cl)) "u1").

Example web_life :
  map where_is [created; queued_cluster; working_cluster; binding_cluster; bound_cluster; settled] =
    [(None, None, 0%nat, 0%nat, None);
     (Some web_pod, None, 0%nat, 0%nat, None);
     (None, Some web_pod, 0%nat, 0%nat, None);
     (None, None, 1%nat, 0%nat, Some (true, "edge"%string));
     (None, None, 0%nat, 1%nat, Some (true, "edge"%string));
     (None, None, 0%nat, 1%nat, Some (false, "edge"%string))].
Proof. vm_compute. reflexivity. Qed.

(** ** The theorems at its states *)

Lemma scheduler_refines_protocol_witness :
  preach web_profiles web_owner is_web (abs live_client settled) /\ qinv default_queue_config (SchedulingQueue (cl_sched settled)).
Proof.
  destruct (scheduler_refines_protocol default_queue_config web_profiles false live_client never_equal web_owner is_web web_etcd
    live_surroundings settled settled_reachable) as (H1 & H2 & _).
  split; [exact H1|exact H2].
Defined.

Lemma no_pod_forgotten_witness : taken_care_of created web_pod \/ adding (cl_queue_events created) web_pod.
Proof.
  destruct (no_pod_forgotten default_queue_config web_profiles false live_client never_equal web_owner is_web web_etcd
    live_surroundings created created_reachable) as (H & _).
  apply H; vm_compute; reflexivity.
Defined.

Lemma scheduler_never_panics_witness :
  exists f r b, b ∈ cl_flight binding_cluster /\
    @binding_step amd64 gates_default range_id EtcdStore default_queue_config [] live_client 9 f b (cl_sched binding_cluster) = Ret r.
Proof.
  destruct (scheduler_never_panics default_queue_config web_profiles false live_client never_equal web_owner is_web web_etcd
    live_surroundings binding_cluster 9 binding_reachable) as (_ & _ & _ & H & _).
  destruct (cl_flight binding_cluster) as [|b l] eqn:E.
  - exfalso. apply (f_equal length) in E. revert E. vm_compute. discriminate.
  - destruct (H b) as (f & r & _ & Hr); [left|]. exists f, r, b. split; [left|exact Hr].
Defined.

Lemma handler_catches_up_witness :
  exists cl' : cluster (Ext := EtcdStore), cl_queue_events cl' = [] /\ taken_care_of cl' web_pod.
Proof.
  destruct (handler_catches_up default_queue_config web_profiles false live_client never_equal web_owner is_web web_etcd
    live_surroundings created created_reachable) as (cl' & _ & H1 & _ & H2).
  exists cl'. split; [exact H1|]. apply H2; vm_compute; reflexivity.
Defined.
