(* ===== verification/MHice.v ===== *)
(** * The MHice plugin: scheduling by the calls between microservices

    [framework/plugins/mhice/mhice.go].  The plugin knows the graph of the
    calls between the services of an application and the bandwidths between
    the nodes.  It orders the pods of the queue, holds a pod back until the
    services it is connected to best are deployed, and prefers the nodes from
    which the deployed services are reached fastest. *)

From S2P Require Import Prelude GoInt GoFloat GoStrconv Quantity ApiTypes Resource HostPorts AffinityTerms NodeInfo Snapshot Json Framework Hicev1 NodeResourcesFit Hicev2.

Local Open Scope go_scope.

(** ** The graph and the topology *)

(** [[100][100]T]: the entries written so far over the zero value. *)
Abbreviation array2 A := (gmap (Z * Z) A).

Definition in_array (i : Z) : bool := (0 <=? i) && (i <? 100).

Definition array_get {A} (zero : A) (a : array2 A) (i j : Z) : outcome A :=
  if in_array i && in_array j then Ret (default zero (a !! (i, j)))
  else Panic "index out of range with length 100".

Definition array_set {A} (a : array2 A) (i j : Z) (v : A) : outcome (array2 A) :=
  if in_array i && in_array j then Ret (<[(i, j) := v]> a)
  else Panic "index out of range with length 100".

Record MicroServiceGraph := mkGraph {
  Edge : array2 Z;
  Vertex : gmap string Z;
  Num : Z
}.

(** [Devices] is declared for later work and never read. *)
Record NetworkToplogy := mkToplogy {
  Bandwidth : array2 float64;
  Latency : array2 float64;
  Node_index : gmap string Z
}.

Record MHice := mkMHice {
  ServiceGraph : MicroServiceGraph;
  Toplogy : NetworkToplogy
}.

Definition edge (g : MicroServiceGraph) (i j : Z) : outcome Z := array_get 0 (Edge g) i j.

(** [for i := 0; i < g.Num; i++] *)
Definition indices (g : MicroServiceGraph) : list Z := seqZ 0 (Num g).

Definition app_label : string := "app".

(** [graph.Vertex[labels["app"]]] with its [ok]. *)
Definition service_of (g : MicroServiceGraph) (p : Pod) : option Z :=
  Vertex g !! label (Labels p) app_label.

Section mhice.
Context {arch : GoArch} {gates : FeatureGates} {mr : MapRange}.

(** ** Edges of a pod *)

(** The body of the loop of [neighborEdgeWeight]. *)
Definition neighbor_step (g : MicroServiceGraph) (pIndex : Z) (edges : list Z) (v : Z)
    : outcome (list Z) :=
  let! e := edge g v pIndex in
  if 0 <=? e then Ret (edges ++ [e])
  else
    let! e := edge g pIndex v in
    Ret (if 0 <=? e then edges ++ [e] else edges).

(** A [nil] slice is the empty list: the code appends before it returns
    anything else.  [n] numbers the loop over the map. *)
Definition neighborEdgeWeight (n : nat) (p : Pod) (g : MicroServiceGraph) : outcome (list Z) :=
  match Labels p !! app_label with
  | None => Ret []
  | Some pSvc =>
      match Vertex g !! pSvc with
      | None => Ret []
      | Some pIndex =>
          ofold (neighbor_step g pIndex) (range n (map snd (map_to_list (Vertex g)))) []
      end
  end.

(** The pods of the nodes of a snapshot, in the order of the nested loops. *)
Definition snapshot_pods (s : Snapshot) : list Pod :=
  concat (map (fun n => map pi_Pod (Pods n)) (SN_List s)).

(** The index of a service; a service that is not in the graph reads 0. *)
Definition existed_step (g : MicroServiceGraph) (pIndex : Z) (edges : list Z) (ep : Pod)
    : outcome (list Z) :=
  match Labels ep !! app_label with
  | None => Ret edges
  | Some svc =>
      let i := get0 (Vertex g) svc in
      let! out := edge g pIndex i in
      let! inn := edge g i pIndex in
      let edges := if 0 <=? inn then edges ++ [inn] else edges in
      Ret (if 0 <=? out then edges ++ [out] else edges)
  end.

Definition neighborExistedServiceEdgeWeight (snap : Snapshot) (p : Pod) (g : MicroServiceGraph)
    : outcome (list Z) :=
  match Labels p !! app_label with
  | None => Ret []
  | Some pSvc =>
      match Vertex g !! pSvc with
      | None => Ret []
      | Some pIndex => ofold (existed_step g pIndex) (snapshot_pods snap) []
      end
  end.

(** ** Less *)

Definition max_edge (l : list Z) (from : Z) : Z :=
  fold_left (fun m e => if m <? e then e else m) l from.

Definition sum_edges (l : list Z) : Z := fold_left add64 l 0.

Definition Less (pl : MHice) (snap : Snapshot) (pod1 pod2 : Pod) : outcome bool :=
  let g := ServiceGraph pl in
  let! e1 := neighborExistedServiceEdgeWeight snap pod1 g in
  let! e2 := neighborExistedServiceEdgeWeight snap pod2 g in
  match e1, e2 with
  | [], _ :: _ => Ret true
  | _ :: _, [] => Ret false
  | _ :: _, _ :: _ => Ret (if max_edge e2 0 <? max_edge e1 0 then false else true)
  | [], [] =>
      let! n1 := neighborEdgeWeight 0 pod1 g in
      let! n2 := neighborEdgeWeight 1 pod2 g in
      Ret (sum_edges n1 <? sum_edges n2)
  end.

(** ** PreFilter *)

(** [if maxEdge < e { maxEdge = e }] *)
Definition raise (m e : Z) : Z := if m <? e then e else m.

(** The loop over the deployed pods: the best edge of the pod with a deployed
    service, and the deployed services. *)
Definition deployed_step (g : MicroServiceGraph) (podIndex : Z) (st : Z * gset Z) (np : Pod)
    : outcome (Z * gset Z) :=
  let '(maxEdge, deployed) := st in
  match service_of g np with
  | None => Ret st
  | Some vb =>
      let! a2b := edge g podIndex vb in
      let! b2a := edge g vb podIndex in
      Ret (raise (raise maxEdge a2b) b2a, deployed ∪ {[vb]})
  end.

(** The body of the loops over a deployed service [k] and an index [i]: the
    call from [i] to [k] is looked at only when the call from [k] to [i] does
    not raise the maximum. *)
Definition cut_step (g : MicroServiceGraph) (deployed : gset Z) (k m i : Z) : outcome Z :=
  if bool_decide (i ∈ deployed) then Ret m
  else
    let! e := edge g k i in
    if m <? e then Ret e
    else
      let! e := edge g i k in
      Ret (if m <? e then e else m).

Definition deployedSvcMaxNeighborEdge (g : MicroServiceGraph) (deployed : gset Z) : outcome Z :=
  ofold (fun m k => ofold (cut_step g deployed k) (indices g) m)
    (range 1 (elements deployed)) (-1).

(** The calls from and to service [iCall]. *)
Definition call_sums (g : MicroServiceGraph) (iCall : Z) : outcome (Z * Z) :=
  ofold (fun '(iCallSum, callISum) j =>
    let! e := edge g iCall j in
    let iCallSum := if e =? -1 then iCallSum else iCallSum +₆₄ e in
    let! e := edge g j iCall in
    Ret (iCallSum, if e =? -1 then callISum else callISum +₆₄ e)) (indices g) (0, 0).

(** The loop over [i] repeats the same computation. *)
Definition maxNeighborSum (g : MicroServiceGraph) : outcome Z :=
  ofold (fun m _ =>
    ofold (fun m iCall => let! s := call_sums g iCall in Ret (raise m (s.1 +₆₄ s.2))) (indices g) m)
    (indices g) (-1).

Definition hold_back (pod : Pod) (tail : string) : StatusPtr :=
  Some (NewStatus Error [str_app "pod" (str_app (Name pod) (str_app " svc:"
    (str_app (label (Labels pod) app_label) tail)))]).

Definition PreFilter (pl : MHice) (snap : Snapshot) (pod : Pod) : outcome StatusPtr :=
  let g := ServiceGraph pl in
  let! callSvc := neighborEdgeWeight 0 pod g in
  match service_of g pod with
  | None => Ret None
  | Some podIndex =>
      let! st := ofold (deployed_step g podIndex) (snapshot_pods snap) (-1, ∅) in
      let '(maxEdge, deployed) := st in
      let! cut := deployedSvcMaxNeighborEdge g deployed in
      if maxEdge =? -1 then
        let! best := maxNeighborSum g in
        Ret (if sum_edges callSvc =? best then None
             else hold_back pod " should not schedule until other svc created! ")
      else
        Ret (if maxEdge =? cut then None
             else hold_back pod " should not schedule until other svc created!")
  end.

(** ** Score *)

(** mhice's own [computePodResourceRequest], which leaves the overhead out. *)
Definition computePodResourceRequest (pod : Pod) : Resource :=
  let result := fold_left (fun r c => Resource_Add r (c_requests c))
                  (Containers (Spec pod)) zeroResource in
  fold_left (fun r c => SetMaxResource r (c_requests c)) (InitContainers (Spec pod)) result.

(** What the loop over the deployed pods collects: the best edge, the pods the
    new one calls and those that call it, by name.  (It also records the node
    of every deployed service, which nothing reads.) *)
Record Deployed := mkDeployed {
  dp_maxEdge : Z;
  callDeployedPod : gmap string Pod;
  calledByDeployedPod : gmap string Pod
}.

Definition score_step (g : MicroServiceGraph) (podIndex : Z) (node : option Node) (d : Deployed)
    (np : Pod) : outcome Deployed :=
  match service_of g np with
  | None => Ret d
  | Some vb =>
      let! a2b := edge g podIndex vb in
      let! b2a := edge g vb podIndex in
      let call := if 0 <=? a2b then <[Name np := np]> (callDeployedPod d) else callDeployedPod d in
      let called :=
        if 0 <=? b2a then <[Name np := np]> (calledByDeployedPod d) else calledByDeployedPod d in
      match node with
      | None => Panic nil_panic
      | Some _ => Ret (mkDeployed (raise (raise (dp_maxEdge d) a2b) b2a) call called)
      end
  end.

Definition deployed_pods (g : MicroServiceGraph) (podIndex : Z) (snap : Snapshot) : outcome Deployed :=
  ofold (fun d n => ofold (score_step g podIndex (ni_node n)) (map pi_Pod (Pods n)) d)
    (SN_List snap) (mkDeployed (-1) ∅ ∅).

(** CPU of a pod on the node, as in hicev2's filter. *)
Definition used_cpu_of (jPerf : float64) (p : PodInfo) : Z :=
  let pod := pi_Pod p in
  let req := MilliCPU (computePodResourceRequest pod) in
  if String.eqb (SchedulerName (Spec pod)) "kubehice-scheduler"
     && match Annotations pod with None => true | Some _ => false end
  then scale_cpu req (perf (Labels pod) kb_label) jPerf
  else req.

(** What the pod asks for: memory, and CPU converted to the node. *)
Definition first_request (pod : Pod) (bPerf jPerf : float64) : Z * Z :=
  let '(memReq, cpuReq) := fold_left (fun '(m, c) ct =>
      (m +₆₄ Value (Memory (c_requests ct)), c +₆₄ MilliValue (Cpu (c_requests ct))))
    (Containers (Spec pod)) (0, 0) in
  (memReq, scale_cpu cpuReq bPerf jPerf).

(** What is free on the node: memory and CPU. *)
Definition first_free (n : NodeInfo) (jPerf : float64) : Z * Z :=
  let used := fold_left (fun acc p => acc +₆₄ used_cpu_of jPerf p) (Pods n) 0 in
  (rMemory (Allocatable n) -₆₄ rMemory (Requested n), MilliCPU (Allocatable n) -₆₄ used).

(** The larger share of the free resources that the pod asks for. *)
Definition first_ratio (pod : Pod) (n : NodeInfo) (bPerf jPerf : float64) : float64 :=
  let '(memReq, cpuReq) := first_request pod bPerf jPerf in
  let '(memFree, cpuFree) := first_free n jPerf in
  let ratioCpu := f64_div (f64_of_Z cpuReq) (f64_of_Z cpuFree) in
  let ratioMem := f64_div (f64_of_Z memReq) (f64_of_Z memFree) in
  f64_max ratioCpu ratioMem.

(** [100 - int64(100*maxRatio)] *)
Definition first_score (pod : Pod) (n : NodeInfo) (bPerf jPerf : float64) : Z :=
  100 -₆₄ int64_of_f64 (f64_mul (f64_of_Z 100) (first_ratio pod n bPerf jPerf)).

(** The body of the loops over the pods called and calling: the largest delay
    and the node it comes from.  [weight] reads the edge of the call. *)
Definition delay_step (t : NetworkToplogy) (nodeName : string)
    (weight : Z -> outcome Z) (g : MicroServiceGraph) (st : float64 * Z) (v : Pod)
    : outcome (float64 * Z) :=
  let '(maxDelay, maxNode) := st in
  let svcIndex := get0 (Vertex g) (label (Labels v) app_label) in
  let svcNodeIndex := get0 (Node_index t) (NodeName (Spec v)) in
  let here := get0 (Node_index t) nodeName in
  let! w := weight svcIndex in
  let! bw := array_get (S754_zero false) (Bandwidth t) svcNodeIndex here in
  let dataTransDelay := f64_div (f64_div (f64_of_Z w) bw) (f64_of_Z 100) in
  let! propagateDelay := array_get (S754_zero false) (Latency t) svcNodeIndex here in
  let delay := f64_add dataTransDelay propagateDelay in
  Ret (f64_max maxDelay delay, if f64_lt maxDelay delay then svcNodeIndex else maxNode).

(** The score from the two delays and the nodes they come from. *)
Definition delay_score (here : Z) (call called : float64 * Z) : Z :=
  let maxCallDelay := f64_add call.1 called.1 in
  if f64_gt maxCallDelay (f64_of_Z 10) then 0
  else if (call.2 =? here) && (here =? called.2) then 100
  else 100 -₆₄ int64_of_f64 (f64_mul (f64_div maxCallDelay (f64_of_Z 10)) (f64_of_Z 100)).

Definition Score (pl : MHice) (snap : Snapshot) (pod : Pod) (nodeName : string)
    : outcome (Z * StatusPtr) :=
  let g := ServiceGraph pl in
  let t := Toplogy pl in
  match service_of g pod with
  | None => Ret (100, None)
  | Some podIndex =>
      let! d := deployed_pods g podIndex snap in
      match SN_Get snap nodeName with
      | inr e =>
          Ret (0, Some (NewStatus Error
            [str_app "getting node " (str_app nodeName (str_app " from Snapshot: " e))]))
      | inl nodeInfo =>
          match ni_node nodeInfo with
          | None => Panic nil_panic
          | Some node =>
              let jPerf := perf (node_Labels node) kj_label in
              let bPerf := perf (Labels pod) kb_label in
              if dp_maxEdge d =? -1 then Ret (first_score pod nodeInfo bPerf jPerf, None)
              else
                let here := get0 (Node_index t) nodeName in
                let! call :=
                  ofold (delay_step t nodeName (fun i => edge g podIndex i) g)
                    (range 0 (map snd (map_to_list (callDeployedPod d)))) (S754_zero false, here) in
                let! called :=
                  ofold (delay_step t nodeName (fun i => edge g i podIndex) g)
                    (range 1 (map snd (map_to_list (calledByDeployedPod d)))) (S754_zero false, here) in
                Ret (delay_score here call called, None)
          end
      end
  end.
End mhice.

(** ** The graph and topology the plugin is built with *)

Definition SetAPICall (src dst : string) (value : Z) (g : MicroServiceGraph)
    : outcome MicroServiceGraph :=
  let! e := array_set (Edge g) (get0 (Vertex g) src) (get0 (Vertex g) dst) (int64 value) in
  Ret (mkGraph e (Vertex g) (Num g)).

Definition services : list (string * Z) :=
  [ ("adservice", 0); ("cartservice", 1); ("checkoutservice", 2); ("currencyservice", 3);
    ("emailservice", 4); ("frontend", 5); ("paymentservice", 6); ("productcatalogservice", 7);
    ("recommendationservice", 8); ("redis-cart", 9); ("shippingservice", 10) ]%string.

Definition api_calls : list (string * string * Z) :=
  [ ("frontend", "cartservice", 1); ("frontend", "recommendationservice", 1);
    ("frontend", "productcatalogservice", 100); ("frontend", "shippingservice", 1);
    ("frontend", "checkoutservice", 1); ("frontend", "adservice", 1);
    ("cartservice", "redis-cart", 1);
    ("recommendationservice", "productcatalogservice", 10);
    ("checkoutservice", "productcatalogservice", 10); ("checkoutservice", "currencyservice", 1);
    ("checkoutservice", "shippingservice", 1); ("checkoutservice", "paymentservice", 1);
    ("checkoutservice", "emailservice", 1); ("checkoutservice", "cartservice", 1);
    ("checkoutservice", "cartservice", 1) ]%string.

Definition GenerateServiceGraph : outcome MicroServiceGraph :=
  let vertex := fold_left (fun m e => <[e.1 := e.2]> m) services ∅ in
  let! e := ofold (fun a i => ofold (fun a j => array_set a i j (-1)) (seqZ 0 11) a) (seqZ 0 11) ∅ in
  ofold (fun g c => SetAPICall c.1.1 c.1.2 c.2 g) api_calls (mkGraph e vertex 11).

Definition topology_nodes : list (string * Z) :=
  [ ("cloud-master", 0); ("cloud-worker1", 1); ("cloud-worker3", 2); ("ubuntu", 3);
    ("edge-arm64-1", 4); ("edge3-amd64-1", 5) ]%string.

(** The bandwidths of the table [b]; the table [l] is all zeros. *)
Definition bandwidth_table : list (list Z) :=
  [ [70000; 40000; 40000; 1000; 1000; 1000];
    [40000; 70000; 40000; 1000; 1000; 1000];
    [40000; 40000; 70000; 1000; 1000; 1000];
    [1000; 1000; 1000; 6000; 1000; 1000];
    [1000; 1000; 1000; 1000; 6000; 1000];
    [1000; 1000; 1000; 1000; 1000; 60000] ].

Definition table_get (t : list (list Z)) (i j : Z) : float64 :=
  f64_of_Z (nth (Z.to_nat j) (nth (Z.to_nat i) t []) 0).

Definition copy_table (t : list (list Z)) : outcome (array2 float64) :=
  ofold (fun a i => ofold (fun a j => array_set a i j (table_get t i j)) (seqZ 0 6) a) (seqZ 0 6) ∅.

Definition latency_table : list (list Z) := replicate 6 (replicate 6 0).

Definition GenerateNetworkToplogy : outcome NetworkToplogy :=
  let node := fold_left (fun m e => <[e.1 := e.2]> m) topology_nodes ∅ in
  let! b := copy_table bandwidth_table in
  let! l := copy_table latency_table in
  Ret (mkToplogy b l node).

Definition New : outcome MHice :=
  let! g := GenerateServiceGraph in
  let! t := GenerateNetworkToplogy in
  Ret (mkMHice g t).
