(* ===== verification/MHiceProofs.v ===== *)
(** * Properties of the MHice plugin

    What the queue order is, that holding pods back deploys the services of a
    connected graph one after the other along its heaviest calls, and what the
    scores are. *)

From S2P Require Import Prelude GoInt GoFloat GoFloatRound GoFloatBound GoStrconv Quantity ApiTypes Resource HostPorts AffinityTerms NodeInfo Samples Snapshot Json Framework Hicev1 NodeResourcesFit Hicev2 MHice.

Local Open Scope go_scope.

(** ** The graph *)

Definition E (g : MicroServiceGraph) (i j : Z) : Z := default 0 (Edge g !! (i, j)).

Definition is_index (g : MicroServiceGraph) (i : Z) : Prop := 0 <= i < Num g.

(** The vertices are numbered from 0 on, within the arrays; an edge is -1 or
    the size of a call. *)
Record graph_wf (g : MicroServiceGraph) : Prop := {
  gw_num : 0 <= Num g <= 100;
  gw_vertex : forall s i, Vertex g !! s = Some i -> is_index g i;
  gw_inj : forall s s' i, Vertex g !! s = Some i -> Vertex g !! s' = Some i -> s = s';
  gw_onto : forall i, is_index g i -> exists s, Vertex g !! s = Some i;
  gw_named : Vertex g !! ""%string = None;
  gw_edges : forall i j, is_index g i -> is_index g j -> -1 <= E g i j < 2 ^ 50
}.

(** Two services call each other in one direction at most. *)
Definition one_way (g : MicroServiceGraph) : Prop :=
  forall i j, is_index g i -> is_index g j -> E g i j = -1 \/ E g j i = -1.

(** The size of the calls between two services, -1 if there are none. *)
Definition weight (g : MicroServiceGraph) (i j : Z) : Z := Z.max (E g i j) (E g j i).

(** The size of all calls of a service. *)
Definition total (g : MicroServiceGraph) (v : Z) : Z :=
  Zsum (map (fun u => Z.max 0 (weight g u v)) (indices g)).

Lemma weight_comm g i j : weight g i j = weight g j i.
Proof. unfold weight. lia. Qed.

Lemma elem_indices g i : i ∈ indices g <-> is_index g i.
Proof. unfold indices, is_index. rewrite elem_of_seqZ. lia. Qed.

Lemma edge_ok g i j :
  graph_wf g -> is_index g i -> is_index g j -> edge g i j = Ret (E g i j).
Proof.
  intros W [Hi0 Hi] [Hj0 Hj]. pose proof (gw_num g W). unfold edge, array_get, in_array.
  rewrite !(proj2 (Z.leb_le _ _)), !(proj2 (Z.ltb_lt _ _)) by lia. done.
Qed.

Lemma sum_edges_Zsum l : sum_edges l = int64 (Zsum l).
Proof.
  assert (forall a, is_int64 a -> fold_left add64 l a = int64 (a + Zsum l)) as H.
  { induction l as [|x l IH]; intros a Ha; unfold Zsum; simpl.
    - by rewrite Z.add_0_r, int64_id.
    - rewrite IH by apply int64_range. unfold add64. rewrite int64_add_l. f_equal.
      unfold Zsum. lia. }
  unfold sum_edges. rewrite H by (int_unfold; lia). f_equal.
Qed.

Lemma Vertex_indices g :
  graph_wf g -> map snd (map_to_list (Vertex g)) ≡ₚ indices g.
Proof.
  intros W. apply NoDup_Permutation.
  - apply (NoDup_fmap_2_strong snd); [|apply NoDup_map_to_list].
    intros [s i] [s' i'] H H' Heq. simpl in Heq. subst i'.
    apply elem_of_map_to_list in H, H'. f_equal. by eapply gw_inj.
  - unfold indices. apply NoDup_seqZ.
  - intros i. rewrite elem_indices, list_elem_of_fmap. split.
    + intros ([s j] & -> & H%elem_of_map_to_list). by eapply gw_vertex.
    + intros [s Hs]%(gw_onto g W). exists (s, i). by rewrite elem_of_map_to_list.
Qed.

(** ** The edges of a pod *)

(** What a service [u] contributes to the edges of service [v]. *)
Definition neighbor_edges (g : MicroServiceGraph) (v u : Z) : list Z :=
  if 0 <=? E g u v then [E g u v] else if 0 <=? E g v u then [E g v u] else [].

Section neighbors.
Context {mr : MapRange} (g : MicroServiceGraph).
Hypothesis W : graph_wf g.

Lemma neighborEdgeWeight_spec n p v :
  service_of g p = Some v ->
  exists l, l ≡ₚ indices g /\
    neighborEdgeWeight n p g = Ret (concat (map (neighbor_edges g v) l)).
Proof.
  unfold service_of, label, neighborEdgeWeight. intros Hv.
  destruct (Labels p !! app_label) as [s|]; simpl in Hv;
    [|by rewrite (gw_named g W) in Hv].
  rewrite Hv. exists (range n (map snd (map_to_list (Vertex g)))).
  split; [rewrite range_perm; by apply Vertex_indices|].
  rewrite (ofold_pure _ (fun acc u => acc ++ neighbor_edges g v u)).
  - by rewrite fold_left_app_concat.
  - intros acc u Hu. rewrite range_perm, Vertex_indices in Hu by done.
    apply elem_indices in Hu. pose proof (gw_vertex g W _ _ Hv).
    unfold neighbor_step, neighbor_edges. rewrite !edge_ok by done. simpl.
    destruct (0 <=? E g u v); [done|]. destruct (0 <=? E g v u); [done|]. by rewrite app_nil_r.
Qed.

Lemma neighborEdgeWeight_none n p :
  service_of g p = None -> neighborEdgeWeight n p g = Ret [].
Proof.
  unfold service_of, label, neighborEdgeWeight. intros Hv.
  destruct (Labels p !! app_label) as [s|]; simpl in Hv; [by rewrite Hv|done].
Qed.

Lemma total_bounds v : is_index g v -> 0 <= total g v < 2 ^ 57.
Proof.
  intros Hv. unfold total. pose proof (gw_num g W).
  destruct (Zsum_bounds (map (fun u => Z.max 0 (weight g u v)) (indices g)) (2 ^ 50)) as [H1 H2].
  - apply Forall_fmap, Forall_forall. intros u Hu%elem_indices. simpl.
    pose proof (gw_edges g W u v Hu Hv). pose proof (gw_edges g W v u Hv Hu).
    unfold weight. lia.
  - rewrite length_fmap in H2. unfold indices in H2 at 2. rewrite length_seqZ in H2. lia.
Qed.

Hypothesis O : one_way g.

Lemma Zsum_concat (f : Z -> list Z) l : Zsum (concat (map f l)) = Zsum (map (fun x => Zsum (f x)) l).
Proof.
  induction l as [|x l IH]; simpl; [done|]. rewrite Zsum_app, IH. unfold Zsum. simpl. done.
Qed.

(** The edges of a pod add up to the calls of its service, whatever the order
    in which the map is visited. *)
Lemma neighbor_sum v l :
  is_index g v -> l ≡ₚ indices g -> sum_edges (concat (map (neighbor_edges g v) l)) = total g v.
Proof.
  intros Hv Hl. rewrite sum_edges_Zsum, Zsum_concat.
  rewrite (Zsum_perm _ (map (fun u => Zsum (neighbor_edges g v u)) (indices g)))
    by (by apply Permutation_map).
  replace (map (fun u => Zsum (neighbor_edges g v u)) (indices g))
    with (map (fun u => Z.max 0 (weight g u v)) (indices g)).
  - apply int64_id. pose proof (total_bounds v Hv). unfold total in *. int_unfold. lia.
  - apply map_ext_in. intros u Hu%list_elem_of_In%elem_indices. unfold neighbor_edges, weight.
    destruct (O u v Hu Hv) as [He|He]; rewrite He;
      repeat case_match; zify_bool; unfold Zsum; simpl; lia.
Qed.
End neighbors.

(** ** Maxima *)

Lemma raise_max m e : raise m e = Z.max m e.
Proof. unfold raise. destruct (Z.ltb_spec m e); lia. Qed.

Definition raises (l : list Z) (m : Z) : Z := fold_left raise l m.

Lemma raises_spec l m :
  m <= raises l m /\ Forall (fun e => e <= raises l m) l /\ (raises l m = m \/ raises l m ∈ l).
Proof.
  revert m. induction l as [|x l IH]; intros m; simpl.
  - split_and!; [lia|constructor|by left].
  - destruct (IH (raise m x)) as (H1 & H2 & H3). rewrite raise_max in *. unfold raises in *.
    split_and!; [lia|constructor; [lia|done]|].
    destruct H3 as [-> |H3]; [|right; by right].
    destruct (Z.max_spec m x) as [[_ ->]|[_ ->]]; [right; by left|by left].
Qed.

Lemma raises_app l l' m : raises (l ++ l') m = raises l' (raises l m).
Proof. unfold raises. apply fold_left_app. Qed.

Lemma fold_raises {A} (f : A -> list Z) l m :
  fold_left (fun m x => raises (f x) m) l m = raises (concat (map f l)) m.
Proof.
  revert m. induction l as [|x l IH]; intros m; simpl; [done|]. by rewrite IH, raises_app.
Qed.

Lemma raises_map {A} (f : A -> Z) l m :
  fold_left (fun m x => raise m (f x)) l m = raises (map f l) m.
Proof. revert m. induction l as [|x l IH]; intros m; simpl; [done|]. by rewrite IH. Qed.

(** A value that some element attains and none exceeds. *)
Lemma raises_unique l m r :
  m <= r -> Forall (fun e => e <= r) l -> (r = m \/ r ∈ l) -> raises l m = r.
Proof.
  intros H1 H2 H3. destruct (raises_spec l m) as (S1 & S2 & S3).
  rewrite Forall_forall in H2, S2. apply Z.le_antisymm.
  - destruct S3 as [-> |S3]; [done|auto].
  - destruct H3 as [-> |H3]; [done|auto].
Qed.

Section prefilter.
Context {mr : MapRange} (g : MicroServiceGraph).
Hypothesis W : graph_wf g.

(** The deployed services of the graph. *)
Definition deployed_services (ps : list Pod) : gset Z := list_to_set (omap (service_of g) ps).

Lemma elem_deployed ps d :
  d ∈ deployed_services ps <-> exists p, p ∈ ps /\ service_of g p = Some d.
Proof. unfold deployed_services. rewrite elem_of_list_to_set. apply list_elem_of_omap. Qed.

Lemma deployed_index ps d : d ∈ deployed_services ps -> is_index g d.
Proof. intros (p & _ & H)%elem_deployed. by eapply gw_vertex. Qed.

Lemma service_of_index p v : service_of g p = Some v -> is_index g v.
Proof. intros H. by eapply gw_vertex. Qed.

(** The first loop of [PreFilter]. *)
Lemma deployed_loop v ps m D :
  is_index g v ->
  ofold (deployed_step g v) ps (m, D)
  = Ret (raises (map (weight g v) (omap (service_of g) ps)) m, D ∪ deployed_services ps).
Proof.
  intros Hv. revert m D. induction ps as [|p ps IH]; intros m D; simpl.
  - f_equal. f_equal. unfold deployed_services. set_solver.
  - unfold deployed_services. simpl. destruct (service_of g p) as [b|] eqn:Hb; simpl.
    + pose proof (service_of_index _ _ Hb). rewrite !edge_ok by done. simpl. rewrite IH.
      f_equal. f_equal; [|unfold deployed_services; set_solver].
      unfold raises. simpl. f_equal. rewrite !raise_max. unfold weight. lia.
    + apply IH.
Qed.

(** The weights of the edges between the deployed services and the others. *)
Definition cut_weights (D : gset Z) (order : list Z) : list Z :=
  concat (map (fun k => map (weight g k) (filter (fun i => i ∉ D) (indices g))) order).

Lemma cut_step_raise (D : gset Z) k m i :
  one_way g -> is_index g k -> is_index g i -> -1 <= m ->
  cut_step g D k m i = Ret (if bool_decide (i ∈ D) then m else raise m (weight g k i)).
Proof.
  intros O Hk Hi Hm. unfold cut_step. case_bool_decide; [done|].
  rewrite !edge_ok by done. simpl. rewrite raise_max. unfold weight.
  destruct (O k i Hk Hi) as [He|He]; rewrite He;
    repeat (case_match; zify_bool; simpl); f_equal; lia.
Qed.

Lemma fold_filter_raise (D : gset Z) k l m :
  fold_left (fun m i => if bool_decide (i ∈ D) then m else raise m (weight g k i)) l m
  = raises (map (weight g k) (filter (fun i => i ∉ D) l)) m.
Proof.
  revert m. induction l as [|i l IH]; intros m; simpl; [done|]. rewrite IH.
  case_bool_decide as Hi.
  - by rewrite filter_cons_False by tauto.
  - by rewrite filter_cons_True.
Qed.

Lemma cut_loop D :
  one_way g -> (forall d, d ∈ D -> is_index g d) ->
  exists order, order ≡ₚ elements D /\
    deployedSvcMaxNeighborEdge g D = Ret (raises (cut_weights D order) (-1)).
Proof.
  intros O HD. exists (range 1 (elements D)). split; [apply range_perm|].
  unfold deployedSvcMaxNeighborEdge, cut_weights. rewrite <- fold_raises.
  refine (proj1 (ofold_inv (fun m => -1 <= m) _ _ _ _ _ _)); [lia|].
  intros m k Hm Hk. rewrite range_perm, elem_of_elements in Hk. apply HD in Hk.
  rewrite <- (fold_filter_raise D k (indices g) m).
  apply (ofold_inv (fun m => -1 <= m)); [done|].
  intros m' i Hm' Hi%elem_indices. split; [by apply cut_step_raise|].
  case_bool_decide; [done|]. rewrite raise_max. lia.
Qed.

Lemma elem_cut_weights D order w :
  order ≡ₚ elements D ->
  w ∈ cut_weights D order <-> exists k i, k ∈ D /\ is_index g i /\ i ∉ D /\ w = weight g k i.
Proof.
  intros Ho. unfold cut_weights. rewrite list_elem_of_In, in_concat. split.
  - intros (l & Hl & Hw). apply in_map_iff in Hl as (k & <- & Hk%list_elem_of_In).
    apply in_map_iff in Hw as (i & <- & Hi%list_elem_of_In).
    rewrite Ho, elem_of_elements in Hk. apply list_elem_of_filter in Hi as [HiD Hi%elem_indices].
    by exists k, i.
  - intros (k & i & Hk & Hi & HiD & ->).
    exists (map (weight g k) (filter (fun i => i ∉ D) (indices g))). split.
    + apply in_map_iff. exists k. split; [done|]. apply list_elem_of_In. by rewrite Ho, elem_of_elements.
    + apply in_map, list_elem_of_In, list_elem_of_filter. by rewrite elem_indices.
Qed.
End prefilter.

Section admission.
Context {mr : MapRange} (g : MicroServiceGraph).
Hypothesis W : graph_wf g.

Lemma call_sums_ok v :
  is_index g v ->
  call_sums g v = Ret (int64 (Zsum (map (fun j => Z.max 0 (E g v j)) (indices g))),
                       int64 (Zsum (map (fun j => Z.max 0 (E g j v)) (indices g)))).
Proof.
  intros Hv. unfold call_sums.
  assert (forall l a b, is_int64 a -> is_int64 b -> (forall j, j ∈ l -> is_index g j) ->
    ofold (fun '(iCallSum, callISum) j =>
      let! e := edge g v j in
      let iCallSum := if e =? -1 then iCallSum else iCallSum +₆₄ e in
      let! e := edge g j v in
      Ret (iCallSum, if e =? -1 then callISum else callISum +₆₄ e)) l (a, b)
    = Ret (int64 (a + Zsum (map (fun j => Z.max 0 (E g v j)) l)),
           int64 (b + Zsum (map (fun j => Z.max 0 (E g j v)) l)))) as H.
  { induction l as [|j l IH]; intros a b Ha Hb Hl; simpl.
    - unfold Zsum. simpl. by rewrite !Z.add_0_r, !int64_id.
    - assert (is_index g j) as Hj by (apply Hl; left).
      rewrite !edge_ok by done. simpl.
      assert (forall (x c : Z), -1 <= x -> is_int64 c ->
        (if x =? -1 then c else c +₆₄ x) = int64 (c + Z.max 0 x)) as Hstep.
      { intros x c Hx Hc. destruct (Z.eqb_spec x (-1)) as [-> |Hne].
        - simpl. by rewrite Z.add_0_r, int64_id.
        - unfold add64. f_equal. lia. }
      rewrite !Hstep by (done || apply gw_edges; done).
      rewrite IH by (try apply int64_range; intros; apply Hl; by right).
      unfold Zsum. simpl. rewrite !int64_add_l. do 3 f_equal; lia. }
  rewrite H; [done|int_unfold; lia|int_unfold; lia|]. intros j. apply elem_indices.
Qed.

Hypothesis O : one_way g.

Lemma call_sums_total v :
  is_index g v -> exists a b, call_sums g v = Ret (a, b) /\ a +₆₄ b = total g v.
Proof.
  intros Hv. rewrite call_sums_ok by done. do 2 eexists. split; [done|].
  unfold add64. rewrite int64_add_l, int64_add_r, <- Zsum_map_add.
  replace (map (fun x => Z.max 0 (E g v x) + Z.max 0 (E g x v)) (indices g))
    with (map (fun u => Z.max 0 (weight g u v)) (indices g)).
  - apply int64_id. pose proof (total_bounds g W v Hv). unfold total in *. int_unfold. lia.
  - apply map_ext_in. intros u Hu%list_elem_of_In%elem_indices. unfold weight.
    destruct (O u v Hu Hv) as [He|He]; rewrite He; lia.
Qed.

Lemma maxNeighborSum_ok v :
  is_index g v ->
  exists m, maxNeighborSum g = Ret m /\ (m = total g v <-> forall u, is_index g u -> total g u <= total g v).
Proof.
  intros Hv. set (T := map (total g) (indices g)).
  assert (forall m, ofold (fun m iCall => let! s := call_sums g iCall in Ret (raise m (s.1 +₆₄ s.2)))
            (indices g) m = Ret (raises T m)) as Hin.
  { intros m. rewrite (ofold_pure _ (fun m i => raise m (total g i))).
    - f_equal. apply raises_map.
    - intros b i Hi%elem_indices. destruct (call_sums_total i Hi) as (a & c & -> & Hac).
      simpl. by rewrite Hac. }
  unfold maxNeighborSum. rewrite (ofold_pure _ (fun m _ => raises T m)) by (intros; apply Hin).
  rewrite (fold_raises (fun _ => T)). eexists. split; [done|].
  set (L := concat (map (fun _ => T) (indices g))).
  assert (forall x, x ∈ L <-> exists u, is_index g u /\ x = total g u) as HL.
  { intros x. unfold L. rewrite list_elem_of_In, in_concat. split.
    - intros (l & Hl & Hx). apply in_map_iff in Hl as (? & <- & _).
      apply in_map_iff in Hx as (u & <- & Hu%list_elem_of_In%elem_indices). eauto.
    - intros (u & Hu & ->). exists T. split; apply in_map_iff; [exists v|exists u];
        (split; [done|]); by apply list_elem_of_In, elem_indices. }
  destruct (raises_spec L (-1)) as (H1 & H2 & H3). rewrite Forall_forall in H2. split.
  - intros <- u Hu. apply H2, HL. eauto.
  - intros Hmax. apply raises_unique.
    + pose proof (total_bounds g W v Hv). lia.
    + apply Forall_forall. intros x (u & Hu & ->)%HL. auto.
    + right. apply HL. eauto.
Qed.

(** [m] is the largest of the weights that satisfy [P]. *)
Definition largest (P : Z -> Prop) (m : Z) : Prop := P m /\ forall w, P w -> w <= m.

(** The best edge between [v] and a deployed service. *)
Definition joins (D : gset Z) (v w : Z) : Prop := exists d, d ∈ D /\ w = weight g v d.
(** An edge that leads out of the deployed services. *)
Definition leaves (D : gset Z) (w : Z) : Prop :=
  exists d i, d ∈ D /\ is_index g i /\ i ∉ D /\ w = weight g d i.

(** A maximum computed from -1 on tells the largest weight, and whether there
    is one at all. *)
Lemma raises_largest l (P : Z -> Prop) m :
  (forall w, w ∈ l <-> P w) -> 0 <= m -> raises l (-1) = m <-> largest P m.
Proof.
  intros HP Hm. destruct (raises_spec l (-1)) as (H1 & H2 & H3). rewrite Forall_forall in H2. split.
  - intros <-. split; [|intros w Hw; by apply H2, HP].
    destruct H3 as [H3|H3]; [lia|by apply HP].
  - intros [H4 H5]. apply raises_unique; [lia| |right; by apply HP].
    apply Forall_forall. intros w Hw. by apply H5, HP.
Qed.

Lemma raises_none l : (forall w, w ∈ l -> -1 <= w) ->
  raises l (-1) = -1 <-> forall w, w ∈ l -> w = -1.
Proof.
  intros Hl. destruct (raises_spec l (-1)) as (H1 & H2 & H3). rewrite Forall_forall in H2. split.
  - intros Hr w Hw. specialize (H2 w Hw). specialize (Hl w Hw). lia.
  - intros Hall. destruct H3 as [H3|H3]; auto.
Qed.

(** The verdict of [PreFilter] in terms of the graph. *)
Lemma PreFilter_admits t snap pod v :
  service_of g pod = Some v ->
  let D := deployed_services g (snapshot_pods snap) in
  exists st, PreFilter (mkMHice g t) snap pod = Ret st /\
    (st = None <->
       ((forall d, d ∈ D -> weight g v d = -1) /\ forall u, is_index g u -> total g u <= total g v)
       \/ (exists m, 0 <= m /\ largest (joins D v) m /\ largest (leaves D) m)).
Proof.
  intros Hv D. pose proof (service_of_index g W _ _ Hv) as Hvi.
  unfold PreFilter. simpl.
  destruct (neighborEdgeWeight_spec g W 0%nat pod v Hv) as (l & Hl & ->). simpl. rewrite Hv.
  rewrite deployed_loop by done. simpl.
  replace (∅ ∪ deployed_services g (snapshot_pods snap)) with D by (unfold D; set_solver).
  destruct (cut_loop g W D O) as (order & Ho & ->); [by apply deployed_index|]. simpl.
  set (L := map (weight g v) (omap (service_of g) (snapshot_pods snap))).
  assert (forall w, w ∈ L <-> joins D v w) as HR.
  { intros w. unfold joins, D, L, deployed_services. setoid_rewrite elem_of_list_to_set.
    rewrite list_elem_of_In, in_map_iff. setoid_rewrite <- list_elem_of_In. naive_solver. }
  assert (forall w, w ∈ L -> -1 <= w) as Hge.
  { intros w (d & Hd%deployed_index & ->)%HR; [|done].
    pose proof (gw_edges g W v d Hvi Hd). unfold weight. lia. }
  pose proof (raises_none L Hge) as Hnone. pose proof (raises_spec L (-1)) as (Hlow & _).
  destruct (Z.eqb_spec (raises L (-1)) (-1)) as [Hr|Hr].
  - destruct (maxNeighborSum_ok v Hvi) as (m & -> & Hm). simpl. eexists. split; [done|].
    rewrite neighbor_sum by done. destruct Hnone as [Hn _]. specialize (Hn Hr).
    trans (m = total g v); [unfold hold_back; destruct (Z.eqb_spec (total g v) m); split; congruence|].
    rewrite Hm. split.
    + intros H. left. split; [|done]. intros d Hd. apply Hn, HR. by exists d.
    + intros [[_ H]|(m' & Hm' & [Hj _] & _)]; [done|]. apply HR, Hn in Hj. lia.
  - eexists. split; [done|].
    trans (raises L (-1) = raises (cut_weights g D order) (-1)); [unfold hold_back; case_match; zify_bool; split; congruence|].
    split.
    + intros Heq. right. exists (raises L (-1)). split; [lia|]. split.
      * by apply (raises_largest L); [|lia|].
      * apply (raises_largest (cut_weights g D order)); [|lia|done].
        intros w. by apply elem_cut_weights.
    + intros [[H _]|(m & Hm & HL & HC)].
      * destruct Hr. apply Hnone. intros w (d & Hd & ->)%HR. auto.
      * apply (raises_largest L) in HL; [|done..].
        apply (raises_largest (cut_weights g D order)) in HC; [congruence| |done].
        intros w. by apply elem_cut_weights.
Qed.
End admission.

(** Two services that call each other. *)
Definition linked_services (g : MicroServiceGraph) (i j : Z) : Prop :=
  is_index g i /\ is_index g j /\ 0 <= weight g i j.

Definition connected (g : MicroServiceGraph) : Prop :=
  forall i j, is_index g i -> is_index g j -> rtc (linked_services g) i j.

(** A path out of a set crosses its border. *)
Lemma crossing_edge g (D : gset Z) i j :
  rtc (linked_services g) i j -> i ∈ D -> j ∉ D ->
  exists d k, d ∈ D /\ k ∉ D /\ linked_services g d k.
Proof.
  induction 1 as [|i k j Hik Hkj IH]; [done|]. intros Hi Hj.
  destruct (decide (k ∈ D)) as [Hk|Hk]; [auto|]. by exists i, k.
Qed.

(** The heaviest edge that leaves the deployed services. *)
Lemma heaviest_crossing g (D : gset Z) d k :
  d ∈ D -> k ∉ D -> linked_services g d k -> (forall x, x ∈ D -> is_index g x) ->
  exists d0 v, d0 ∈ D /\ is_index g v /\ v ∉ D /\ 0 <= weight g d0 v /\
    forall d' i, d' ∈ D -> is_index g i -> i ∉ D -> weight g d' i <= weight g d0 v.
Proof.
  intros Hd Hk (_ & Hki & Hw) HD.
  set (crossing := list_prod (elements D) (filter (fun i => i ∉ D) (indices g))).
  assert (forall a i, (a, i) ∈ crossing <-> a ∈ D /\ is_index g i /\ i ∉ D) as Hc.
  { intros a i. unfold crossing. rewrite list_elem_of_In, in_prod_iff, <- !list_elem_of_In.
    rewrite elem_of_elements, list_elem_of_filter, elem_indices. tauto. }
  destruct (exists_argmax (fun p => weight g p.1 p.2) crossing) as ([d0 v] & Hin & Hmax).
  { intros Hnil. assert ((d, k) ∈ crossing) as H by (by apply Hc). rewrite Hnil in H. set_solver. }
  apply Hc in Hin as (Hd0 & Hv & HvD). exists d0, v. split_and!; try done.
  - specialize (Hmax (d, k)). simpl in Hmax. enough (weight g d k <= weight g d0 v) by lia.
    apply Hmax. by apply Hc.
  - intros d' i Hd' Hi HiD. specialize (Hmax (d', i)). simpl in Hmax. apply Hmax. by apply Hc.
Qed.

Section deployment.
Context {mr : MapRange}.

(** PreFilter answers success or an error. *)
Lemma PreFilter_status pl snap pod st :
  PreFilter pl snap pod = Ret st -> st = None \/ exists e, st = Some (NewStatus Error [e]).
Proof.
  unfold PreFilter, obind, hold_back. repeat split_match; intros [= <-]; eauto.
Qed.

(** For a service that is not deployed yet, the heaviest edge to a deployed
    service is the heaviest edge out of them exactly when it attains it. *)
Lemma PreFilter_undeployed g t snap pod v :
  graph_wf g -> one_way g -> service_of g pod = Some v ->
  let D := deployed_services g (snapshot_pods snap) in
  v ∉ D ->
  exists st, PreFilter (mkMHice g t) snap pod = Ret st /\
    (st = None <->
       ((forall d, d ∈ D -> weight g d v = -1) /\ forall u, is_index g u -> total g u <= total g v)
       \/ (exists d, d ∈ D /\ 0 <= weight g d v /\
             forall d' i, d' ∈ D -> is_index g i -> i ∉ D -> weight g d' i <= weight g d v)).
Proof.
  intros W O Hv D HvD. destruct (PreFilter_admits g W O t snap pod v Hv) as (st & Hst & Hiff).
  fold D in Hiff. exists st. split; [done|]. rewrite Hiff.
  pose proof (service_of_index g W _ _ Hv) as Hvi. setoid_rewrite (weight_comm g v). split.
  - intros [H|(m & Hm & [(d & Hd & ->) _] & [_ Hmax])]; [by left|]. right. exists d.
    rewrite weight_comm in Hm, Hmax.
    split_and!; [done..|]. intros d' i Hd' Hi HiD. apply Hmax. by exists d', i.
  - intros [H|(d & Hd & Hw & Hmax)]; [by left|]. right.
    exists (weight g d v). split; [done|]. split; split.
    + exists d. split; [done|]. apply weight_comm.
    + intros w (d' & Hd' & ->). rewrite weight_comm. auto.
    + by exists d, v.
    + intros w (d' & i & Hd' & Hi & HiD & ->). auto.
Qed.

(** No service has more traffic. *)
Definition busiest (g : MicroServiceGraph) (v : Z) : Prop := forall u, is_index g u -> total g u <= total g v.

(** The step of Prim's algorithm for a maximum spanning tree: start with a
    service of the largest traffic, then take the one at the end of a
    heaviest call that leads out of the deployed services. *)
Definition prim_next (g : MicroServiceGraph) (D : gset Z) (v : Z) : Prop :=
  (D = ∅ /\ busiest g v) \/
  exists d, d ∈ D /\ 0 <= weight g d v /\ forall d' i, d' ∈ D -> is_index g i -> i ∉ D -> weight g d' i <= weight g d v.

(** What it never does: take a service without calls to the deployed ones. *)
Definition jumps (g : MicroServiceGraph) (D : gset Z) (v : Z) : Prop :=
  D <> ∅ /\ (forall d, d ∈ D -> weight g d v = -1) /\ busiest g v.

(** C25. While a service is not deployed, and services call each other in one
    direction at most, PreFilter lets one of its pods pass exactly when Prim's
    algorithm for a maximum spanning tree would take it next (over a heaviest
    call that leads out of the deployed services, or, when none is deployed,
    as a service with the largest traffic), or when it has the largest traffic
    of all and no call to a deployed service.  The latter Prim's algorithm
    would not take, and the comment on PreFilter says that such a pod waits
    (busiest_service_jumps); it does not concern a service that calls a
    deployed one, or than which another service has more traffic, and for
    these PreFilter is Prim's step.  This holds in whatever order the maps are
    visited. *)
Theorem PreFilter_prim g t snap pod v :
  graph_wf g -> one_way g -> service_of g pod = Some v ->
  let D := deployed_services g (snapshot_pods snap) in
  v ∉ D ->
  exists st, PreFilter (mkMHice g t) snap pod = Ret st /\
    (st = None <-> prim_next g D v \/ jumps g D v) /\
    (D = ∅ \/ (exists d, d ∈ D /\ 0 <= weight g d v) \/ (exists u, is_index g u /\ total g v < total g u) ->
       st = None <-> prim_next g D v).
Proof.
  intros W O Hv D HvD. destruct (PreFilter_undeployed g t snap pod v W O Hv HvD) as (st & Hst & Hiff). fold D in Hiff.
  exists st. split; [done|]. assert (st = None <-> prim_next g D v \/ jumps g D v) as Hall.
  { rewrite Hiff. unfold prim_next, jumps. destruct (decide (D = ∅)) as [HD|HD].
    - split; [intros [[_ H]|H]; [left; by left|left; by right]|]. intros [[[_ H]|H]|(? & _)]; [|by right|done].
      left. split; [|done]. intros d Hd. rewrite HD in Hd. by apply not_elem_of_empty in Hd.
    - split; [intros [[H1 H2]|H]; [by right|left; by right]|]. intros [[[? _]|H]|(_ & H1 & H2)]; [done|by right|by left]. }
  split; [done|]. intros Hc. rewrite Hall. split; [|by left]. intros [H|(H1 & H2 & H3)]; [done|exfalso].
  destruct Hc as [?|[(d & Hd & Hw)|(u & Hu & Hlt)]]; [done| |].
  - rewrite (H2 d Hd) in Hw. lia.
  - specialize (H3 u Hu). lia.
Qed.

(** C26. Holding pods back never blocks an application whose calls connect
    its services: while a service is missing, there is a missing service all
    pods of which pass PreFilter, whatever is deployed. *)
Theorem PreFilter_progress g t snap :
  graph_wf g -> one_way g -> connected g ->
  let D := deployed_services g (snapshot_pods snap) in
  (exists i, is_index g i /\ i ∉ D) ->
  exists s v, Vertex g !! s = Some v /\ v ∉ D /\
    forall pod, label (Labels pod) app_label = s -> PreFilter (mkMHice g t) snap pod = Ret None.
Proof.
  intros W O C D (i & Hi & HiD).
  assert (forall d, d ∈ D -> is_index g d) as HD by (intros d; by apply deployed_index).
  assert (exists v, is_index g v /\ v ∉ D /\
    (((forall d, d ∈ D -> weight g d v = -1) /\ forall u, is_index g u -> total g u <= total g v)
       \/ (exists d, d ∈ D /\ 0 <= weight g d v /\
             forall d' i, d' ∈ D -> is_index g i -> i ∉ D -> weight g d' i <= weight g d v)))
    as (v & Hv & HvD & Hnext).
  { destruct (decide (D = ∅)) as [HD0|HD0].
    - destruct (exists_argmax (total g) (indices g)) as (v & Hv%elem_indices & Hmax).
      { intros Hnil. apply elem_indices in Hi. rewrite Hnil in Hi. set_solver. }
      exists v. split_and!; [done|set_solver|]. left. split; [set_solver|].
      intros u Hu%elem_indices. auto.
    - apply set_choose_L in HD0 as [d Hd].
      destruct (crossing_edge g D d i) as (d1 & k & Hd1 & Hk & Hl); [by apply C; auto|done..|].
      destruct (heaviest_crossing g D d1 k) as (d0 & v & H); [done..|]. exists v. naive_solver. }
  destruct (gw_onto g W v Hv) as [s Hs]. exists s, v. split_and!; [done..|].
  intros pod Hp. destruct (PreFilter_undeployed g t snap pod v) as (st & -> & Hiff); [done..| |done|].
  - unfold service_of. by rewrite Hp.
  - f_equal. by apply Hiff.
Qed.

(** Once every service is deployed, PreFilter refuses every further pod
    of a service that has calls: a second replica is never scheduled. *)
Theorem PreFilter_refuses_replicas g t snap pod v :
  graph_wf g -> one_way g -> service_of g pod = Some v ->
  (forall i, is_index g i -> i ∈ deployed_services g (snapshot_pods snap)) ->
  (exists u, is_index g u /\ 0 <= weight g v u) ->
  exists e, PreFilter (mkMHice g t) snap pod = Ret (Some (NewStatus Error [e])).
Proof.
  intros W O Hv Hall (u & Hu & Hw).
  destruct (PreFilter_admits g W O t snap pod v Hv) as (st & Hst & Hiff).
  assert (st <> None) as Hne.
  { rewrite Hiff. intros [[H _]|(m & _ & _ & [(d & i & _ & Hi & HiD & _) _])]; [|by apply HiD, Hall].
    specialize (H u (Hall u Hu)). lia. }
  destruct (PreFilter_status _ _ _ _ Hst) as [? |[e ->]]; [done|]. by exists e.
Qed.
End deployment.

(** ** The order of the queue *)

(** A pod calls, or is called by, a deployed pod with a call of size [w].  A
    deployed pod that the graph does not know counts as service 0. *)
Definition deployed_call (g : MicroServiceGraph) (snap : Snapshot) (p : Pod) (w : Z) : Prop :=
  exists v ep svc, service_of g p = Some v /\ ep ∈ snapshot_pods snap /\
    Labels ep !! app_label = Some svc /\ 0 <= w /\
    (w = E g (get0 (Vertex g) svc) v \/ w = E g v (get0 (Vertex g) svc)).

Definition interacts (g : MicroServiceGraph) (snap : Snapshot) (p : Pod) : Prop :=
  exists w, deployed_call g snap p w.

(** The traffic of the service of a pod. *)
Definition pod_total (g : MicroServiceGraph) (p : Pod) : Z :=
  match service_of g p with Some v => total g v | None => 0 end.

Definition precedes (g : MicroServiceGraph) (snap : Snapshot) (p q : Pod) : Prop :=
  (~ interacts g snap p /\ interacts g snap q)
  \/ (interacts g snap p /\ exists w, deployed_call g snap q w /\
        forall w', deployed_call g snap p w' -> w' <= w)
  \/ (~ interacts g snap p /\ ~ interacts g snap q /\ pod_total g p < pod_total g q).

Section less.
Context {mr : MapRange} (g : MicroServiceGraph).
Hypothesis W : graph_wf g.

(** What a deployed pod contributes to the edges of service [v]. *)
Definition existed_edges (v : Z) (ep : Pod) : list Z :=
  match Labels ep !! app_label with
  | None => []
  | Some svc =>
      let i := get0 (Vertex g) svc in
      (if 0 <=? E g i v then [E g i v] else []) ++ (if 0 <=? E g v i then [E g v i] else [])
  end.

Lemma get0_index svc v : is_index g v -> is_index g (get0 (Vertex g) svc).
Proof.
  unfold get0. intros Hv. destruct (Vertex g !! svc) eqn:H; simpl; [by eapply gw_vertex|].
  unfold is_index in *. lia.
Qed.

Lemma existed_spec snap p :
  exists l, neighborExistedServiceEdgeWeight snap p g = Ret l /\
    forall w, w ∈ l <-> deployed_call g snap p w.
Proof.
  unfold neighborExistedServiceEdgeWeight. destruct (service_of g p) as [v|] eqn:Hv.
  - pose proof (service_of_index g W _ _ Hv) as Hvi. unfold service_of, label in Hv.
    destruct (Labels p !! app_label) as [s|] eqn:Hs; simpl in Hv;
      [|by rewrite (gw_named g W) in Hv].
    rewrite Hv. rewrite (ofold_pure _ (fun acc ep => acc ++ existed_edges v ep)).
    + rewrite fold_left_app_concat. eexists. split; [done|]. intros w. simpl.
      rewrite list_elem_of_In, in_concat. unfold deployed_call, service_of, label.
      rewrite Hs. simpl. rewrite Hv. split.
      * intros (l & Hl & Hw). apply in_map_iff in Hl as (ep & <- & Hep%list_elem_of_In).
        unfold existed_edges in Hw. destruct (Labels ep !! app_label) as [svc|] eqn:Hsvc; [|done].
        exists v, ep, svc. apply in_app_iff in Hw.
        repeat case_match; zify_bool; simpl in Hw; naive_solver lia.
      * intros (v' & ep & svc & [= <-] & Hep & Hsvc & Hw0 & Hw). exists (existed_edges v ep).
        split; [by apply in_map, list_elem_of_In|]. unfold existed_edges. rewrite Hsvc, in_app_iff.
        destruct Hw as [-> | ->]; [left|right]; apply Z.leb_le in Hw0; rewrite Hw0; by left.
    + intros acc ep _. unfold existed_step, existed_edges.
      destruct (Labels ep !! app_label) as [svc|]; [|by rewrite app_nil_r].
      pose proof (get0_index svc v Hvi). rewrite !edge_ok by done. simpl.
      repeat case_match; by rewrite ?app_nil_r, <- ?app_assoc.
  - exists []. split.
    + unfold service_of, label in Hv. destruct (Labels p !! app_label); simpl in Hv; [|done].
      by rewrite Hv.
    + intros w. split; [intros H; set_solver|]. intros (v & ? & ? & ? & _). congruence.
Qed.

Hypothesis O : one_way g.

Lemma neighbor_total n p : exists l, neighborEdgeWeight n p g = Ret l /\ sum_edges l = pod_total g p.
Proof.
  unfold pod_total. destruct (service_of g p) as [v|] eqn:Hv.
  - destruct (neighborEdgeWeight_spec g W n p v Hv) as (l & Hl & ->). eexists. split; [done|].
    apply neighbor_sum; [done..|by eapply service_of_index|done].
  - rewrite neighborEdgeWeight_none by done. by exists [].
Qed.

(** The comparison of the maxima. *)
Lemma max_edge_spec lp lq :
  lp <> [] -> (forall w, w ∈ lp -> 0 <= w) -> lq <> [] -> (forall w, w ∈ lq -> 0 <= w) ->
  (if max_edge lq 0 <? max_edge lp 0 then false else true) = true <->
  exists w, w ∈ lq /\ forall w', w' ∈ lp -> w' <= w.
Proof.
  intros Hp Hp0 Hq Hq0. change max_edge with raises.
  assert (forall l, l <> [] -> (forall w, w ∈ l -> 0 <= w) -> raises l 0 ∈ l) as Hin.
  { intros l Hl Hl0. destruct (raises_spec l 0) as (R1 & R2 & [R3|R3]); [|done].
    destruct l as [|z l]; [done|]. inversion R2 as [|?? Hz _ E1]. subst.
    specialize (Hl0 z ltac:(left)). replace (raises (z :: l) 0) with z by lia. left. }
  destruct (raises_spec lp 0) as (_ & P2 & _), (raises_spec lq 0) as (_ & Q2 & _).
  rewrite Forall_forall in P2, Q2. specialize (Hin lp Hp Hp0) as Hinp.
  specialize (Hin lq Hq Hq0) as Hinq. split.
  - destruct (Z.ltb_spec (raises lq 0) (raises lp 0)); [done|]. intros _.
    exists (raises lq 0). split; [done|]. intros w' Hw'. specialize (P2 w' Hw'). lia.
  - intros (w & Hw & Hall). specialize (Q2 w Hw). specialize (Hall _ Hinp).
    destruct (Z.ltb_spec (raises lq 0) (raises lp 0)); [lia|done].
Qed.

Lemma deployed_call_nonneg snap p w : deployed_call g snap p w -> 0 <= w.
Proof. unfold deployed_call. naive_solver. Qed.

Lemma Less_precedes t snap p q :
  exists b, Less (mkMHice g t) snap p q = Ret b /\ (b = true <-> precedes g snap p q).
Proof.
  unfold Less. simpl.
  destruct (existed_spec snap p) as (lp & -> & Hp), (existed_spec snap q) as (lq & -> & Hq). simpl.
  destruct (neighbor_total 0 p) as (np & -> & Hnp), (neighbor_total 1 q) as (nq & -> & Hnq).
  assert (forall r l, (forall w, w ∈ l <-> deployed_call g snap r w) ->
    interacts g snap r <-> l <> []) as Hi.
  { intros r l Hl. unfold interacts. setoid_rewrite <- Hl. destruct l as [|x l]; [set_solver|].
    split; [done|]. intros _. exists x. left. }
  pose proof (Hi p lp Hp) as Hip. pose proof (Hi q lq Hq) as Hiq. unfold precedes.
  destruct lp as [|x lp], lq as [|y lq]; (eexists; split; [done|]).
  - rewrite Hip, Hiq. simpl. rewrite Hnp, Hnq, Z.ltb_lt. naive_solver.
  - rewrite Hip, Hiq. naive_solver.
  - rewrite Hip, Hiq. split; [done|]. intros [[H _]|[(_ & w & Hw & _)|[H _]]].
    + by destruct H.
    + apply Hq in Hw. set_solver.
    + by destruct H.
  - rewrite max_edge_spec; [|done|intros w Hw%Hp; by eapply deployed_call_nonneg
      |done|intros w Hw%Hq; by eapply deployed_call_nonneg].
    rewrite Hip, Hiq. split.
    + intros (w & Hw%Hq & Hall). right. left. split; [done|]. exists w. split; [done|].
      intros w' Hw'%Hp. auto.
    + intros [[H _]|[(_ & w & Hw%Hq & Hall)|[H _]]]; [by destruct H| |by destruct H].
      exists w. split; [done|]. intros w' Hw'%Hp. auto.
Qed.
End less.

Lemma precedes_trans g snap p q r :
  precedes g snap p q -> precedes g snap q r -> precedes g snap p r.
Proof.
  unfold precedes. intros [[Hp Hq]|[(Hp & w & Hw & Hmax)|(Hp & Hq & Ht)]].
  - intros [[? _]|[(_ & w' & Hw' & _)|(? & _)]]; [done| |done]. left. split; [done|]. by exists w'.
  - assert (interacts g snap q) as Hq by (by exists w).
    intros [[? _]|[(_ & w' & Hw' & Hmax')|(? & _)]]; [done| |done].
    right. left. split; [done|]. exists w'. split; [done|].
    intros u Hu. specialize (Hmax u Hu). specialize (Hmax' w Hw). lia.
  - intros [[_ ?]|[(? & _)|(_ & ? & ?)]]; [by left|done|]. right. right. split_and!; [done..|lia].
Qed.

(** The order in which MHice takes pods from the queue: pods that call no
    deployed pod first, the ones with less traffic ahead; then the others, the
    ones with the smaller largest call ahead.  The order does not depend on
    how the maps are visited and is transitive, but it is not strict: a pod
    that calls a deployed one comes before itself. *)
Theorem MHice_Less_order {mr : MapRange} g t snap :
  graph_wf g -> one_way g ->
  (forall p q, exists b, Less (mkMHice g t) snap p q = Ret b /\ (b = true <-> precedes g snap p q)) /\
  (forall p q r, Less (mkMHice g t) snap p q = Ret true -> Less (mkMHice g t) snap q r = Ret true ->
     Less (mkMHice g t) snap p r = Ret true) /\
  (forall p, Less (mkMHice g t) snap p p = Ret true <-> interacts g snap p).
Proof.
  intros W O. pose proof (Less_precedes g W O t snap) as H.
  assert (forall p q, Less (mkMHice g t) snap p q = Ret true <-> precedes g snap p q) as Hiff.
  { intros p q. destruct (H p q) as (b & -> & <-). split; [by intros [= ->]|by intros ->]. }
  split_and!; [done| |].
  - intros p q r. rewrite !Hiff. apply precedes_trans.
  - intros p. rewrite Hiff. unfold precedes. split; [naive_solver lia|].
    intros Hp. right. left. split; [done|].
    destruct (existed_spec g W snap p) as (l & _ & Hl). destruct Hp as [w0 Hw0%Hl].
    destruct (exists_argmax id l) as (w & Hw & Hmax); [by intros ->; set_solver|].
    exists w. split; [by apply Hl|]. intros w' Hw'%Hl. by apply Hmax.
Qed.

(** ** Scores *)

(** The indices of the nodes lie in the arrays, bandwidths are positive and
    latencies are not negative. *)
Record topology_wf (t : NetworkToplogy) : Prop := {
  tw_index : forall a, 0 <= get0 (Node_index t) a < 100;
  tw_bandwidth : forall a b, exists m e,
    default (S754_zero false) (Bandwidth t !! (get0 (Node_index t) a, get0 (Node_index t) b))
    = S754_finite false m e;
  tw_latency : forall a b,
    f64_nonneg (default (S754_zero false)
      (Latency t !! (get0 (Node_index t) a, get0 (Node_index t) b)))
}.

(** The pod asks for no more than what is free, and something is free. *)
Definition fits_free {arch : GoArch} {gates : FeatureGates} (pod : Pod) (n : NodeInfo) (bPerf jPerf : float64) : Prop :=
  let req := first_request pod bPerf jPerf in
  let free := first_free n jPerf in
  0 <= req.1 <= free.1 /\ 0 < free.1 < 2 ^ 53 /\ 0 <= req.2 <= free.2 /\ 0 < free.2 < 2 ^ 53.

Section score.
Context {arch : GoArch} {gates : FeatureGates} {mr : MapRange}
  (g : MicroServiceGraph) (t : NetworkToplogy).
Hypothesis W : graph_wf g.
Hypothesis T : topology_wf t.

Lemma first_score_range pod n bPerf jPerf :
  fits_free pod n bPerf jPerf -> 0 <= first_score pod n bPerf jPerf <= 100.
Proof.
  unfold fits_free, first_score, first_ratio.
  destruct (first_request pod bPerf jPerf) as [mem cpu], (first_free n jPerf) as [fmem fcpu].
  cbn [fst snd]. intros (Hm & Hfm & Hc & Hfc).
  set (r := f64_max _ _).
  assert (f64_within r 1 0) as Hr by (apply f64_max_within; apply f64_div_of_Z_within; lia).
  assert (f64_within (f64_mul (f64_of_Z 100) r) (100 * 1) (0 + 0)) as Hp
    by (apply f64_mul_within; [by apply f64_of_Z_within|done|split; lia|lia..]).
  apply (int64_of_f64_within _ (100 * 1)) in Hp; [|lia].
  generalize dependent (int64_of_f64 (f64_mul (f64_of_Z 100) r)). intros z Hz.
  rewrite sub64_exact by (int_unfold; lia). lia.
Qed.

Lemma delay_score_range here call called :
  f64_nonneg call.1 -> f64_nonneg called.1 -> 0 <= delay_score here call called <= 100.
Proof.
  intros Hc Hd. unfold delay_score.
  pose proof (f64_add_nonneg _ _ Hc Hd) as Hn. set (d := f64_add call.1 called.1) in *.
  destruct (f64_gt d (f64_of_Z 10)) eqn:Hgt; [lia|].
  destruct (_ && _); [lia|].
  apply within_of_not_gt in Hgt; [|done|lia].
  assert (f64_within (f64_div d (f64_of_Z 10)) 1 0) as H1.
  { change (f64_of_Z 10) with (S754_finite false 5629499534213120 (-49)).
    destruct d as [[]|[]| |[] m e]; try done. destruct Hgt as [Hb Hle].
    destruct (bounded_cases _ _ Hb) as (_ & R & _).
    apply f64_div_within; [done|done|split; lia|]. unfold fval in Hle.
    replace (e + 6000) with (e + 3000 + 3000) by lia. rewrite Z.pow_add_r, Z.mul_assoc by lia.
    transitivity (10 * 2 ^ (0 + 3000) * 2 ^ 3000);
      [apply Z.mul_le_mono_nonneg_r; [by apply Z.pow_nonneg|done]|].
    apply Z.eq_le_incl. change (Zpos 5629499534213120) with (10 * 2 ^ 49).
    rewrite Z.mul_1_r, <- !Z.mul_assoc, <- !Z.pow_add_r by lia. done. }
  assert (f64_within (f64_mul (f64_div d (f64_of_Z 10)) (f64_of_Z 100)) (1 * 100) (0 + 0)) as H2
    by (apply f64_mul_within; [done|by apply f64_of_Z_within|split; lia|lia..]).
  apply (int64_of_f64_within _ (1 * 100)) in H2; [|lia].
  generalize dependent (int64_of_f64 (f64_mul (f64_div d (f64_of_Z 10)) (f64_of_Z 100))). intros z Hz.
  rewrite sub64_exact by (int_unfold; lia). lia.
Qed.

Lemma array_get_ok {A} (z : A) a i j :
  0 <= i < 100 -> 0 <= j < 100 -> array_get z a i j = Ret (default z (a !! (i, j))).
Proof.
  intros. unfold array_get, in_array.
  by rewrite !(proj2 (Z.leb_le _ _)), !(proj2 (Z.ltb_lt _ _)) by lia.
Qed.

Lemma delay_step_ok nodeName weight st p w :
  f64_nonneg st.1 ->
  weight (get0 (Vertex g) (label (Labels p) app_label)) = Ret w -> 0 <= w < 2 ^ 50 ->
  exists st', delay_step t nodeName weight g st p = Ret st' /\ f64_nonneg st'.1.
Proof.
  intros Hst Hw Hw0. unfold delay_step. destruct st as [md mn]. rewrite Hw. simpl.
  rewrite !array_get_ok by apply T. simpl.
  destruct (tw_bandwidth t T (NodeName (Spec p)) nodeName) as (m & e & ->).
  pose proof (tw_latency t T (NodeName (Spec p)) nodeName) as Hl.
  eexists. split; [done|]. simpl in *.
  apply f64_max_nonneg; [done|]. apply f64_add_nonneg; [|done].
  change (f64_of_Z 100) with (S754_finite false 7036874417766400 (-46)).
  apply f64_div_nonneg, f64_div_nonneg, f64_of_Z_nonneg. lia.
Qed.

(** Every pod of [m] has a call of the size [weight] tells. *)
Definition has_weight (weight : Z -> Z) (m : gmap string Pod) : Prop :=
  map_Forall (fun _ p => exists b, service_of g p = Some b /\ 0 <= weight b) m.

Lemma delay_loop nodeName (weight : Z -> Z) (m : gmap string Pod) l st (read : Z -> outcome Z) :
  (forall b, is_index g b -> read b = Ret (weight b) /\ weight b < 2 ^ 50) ->
  has_weight weight m -> l ≡ₚ map snd (map_to_list m) -> f64_nonneg st.1 ->
  exists st', ofold (delay_step t nodeName read g) l st = Ret st' /\ f64_nonneg st'.1.
Proof.
  intros Hread Hm Hl.
  assert (forall p, p ∈ l -> exists b, service_of g p = Some b /\ 0 <= weight b) as Hp.
  { intros p. rewrite Hl. intros ([k q] & -> & H%elem_of_map_to_list)%list_elem_of_fmap.
    by apply (Hm k). }
  clear Hl. revert st. induction l as [|p l IH]; intros st Hst; simpl; [by exists st|].
  destruct (Hp p) as (b & Hb & Hw); [left|]. pose proof (service_of_index g W _ _ Hb) as Hbi.
  destruct (Hread b Hbi) as [Hr Hlt].
  destruct (delay_step_ok nodeName read st p (weight b)) as (st' & -> & Hst'); [done| |lia|].
  - unfold get0. unfold service_of in Hb. by rewrite Hb.
  - simpl. apply IH; [|done]. intros q Hq. apply Hp. by right.
Qed.

(** What the loop over the deployed pods maintains. *)
Definition deployed_inv (v : Z) (ps : list Pod) (m : Z) (d : Deployed) : Prop :=
  dp_maxEdge d = raises (map (weight g v) (omap (service_of g) ps)) m /\
  has_weight (E g v) (callDeployedPod d) /\
  has_weight (fun b => E g b v) (calledByDeployedPod d).

Lemma score_loop v node ps d :
  is_index g v -> has_weight (E g v) (callDeployedPod d) ->
  has_weight (fun b => E g b v) (calledByDeployedPod d) ->
  exists d', ofold (score_step g v (Some node)) ps d = Ret d' /\ deployed_inv v ps (dp_maxEdge d) d'.
Proof.
  intros Hv. revert d. induction ps as [|p ps IH]; intros d H1 H2; simpl; [by exists d|].
  unfold score_step at 1. destruct (service_of g p) as [b|] eqn:Hb.
  - pose proof (service_of_index g W _ _ Hb) as Hbi. rewrite !edge_ok by done. simpl.
    edestruct IH as (d' & Hd' & I1 & I2 & I3); [| |exists d'; split; [exact Hd'|]].
    + simpl. destruct (Z.leb_spec 0 (E g v b)); [|done]. apply map_Forall_insert_2; eauto.
    + simpl. destruct (Z.leb_spec 0 (E g b v)); [|done]. apply map_Forall_insert_2; eauto.
    + split_and!; [|done..]. rewrite I1. simpl. rewrite Hb. unfold raises. simpl. f_equal.
      rewrite !raise_max. unfold weight. lia.
  - simpl. destruct (IH d H1 H2) as (d' & Hd' & I1 & I2). exists d'. split; [done|].
    unfold deployed_inv. simpl. by rewrite Hb.
Qed.

Lemma deployed_pods_ok v snap :
  is_index g v -> Forall (fun n => is_Some (ni_node n)) (SN_List snap) ->
  exists d, deployed_pods g v snap = Ret d /\ deployed_inv v (snapshot_pods snap) (-1) d.
Proof.
  intros Hv. unfold deployed_pods, snapshot_pods.
  assert (forall l d, has_weight (E g v) (callDeployedPod d) ->
    has_weight (fun b => E g b v) (calledByDeployedPod d) ->
    Forall (fun n => is_Some (ni_node n)) l ->
    exists d', ofold (fun d n => ofold (score_step g v (ni_node n)) (map pi_Pod (Pods n)) d) l d = Ret d'
      /\ deployed_inv v (concat (map (fun n => map pi_Pod (Pods n)) l)) (dp_maxEdge d) d') as H.
  { induction l as [|n l IH]; intros d H1 H2 Hl; simpl; [by exists d|].
    apply Forall_cons in Hl as [[node Hn] Hl]. rewrite Hn.
    destruct (score_loop v node (map pi_Pod (Pods n)) d Hv H1 H2) as (d1 & -> & J1 & J2 & J3). simpl.
    destruct (IH d1 J2 J3 Hl) as (d2 & -> & K1 & K2). exists d2. split; [done|]. split; [|done].
    rewrite K1, J1, omap_app, map_app, raises_app. done. }
  intros Hl. apply H; [apply map_Forall_empty..|done].
Qed.

Lemma first_deployment v snap d :
  is_index g v -> deployed_inv v (snapshot_pods snap) (-1) d -> dp_maxEdge d = -1 ->
  forall b, b ∈ deployed_services g (snapshot_pods snap) -> weight g v b = -1.
Proof.
  intros Hv [Hd _] Hmax b Hb. rewrite Hd in Hmax.
  destruct (raises_spec (map (weight g v) (omap (service_of g) (snapshot_pods snap))) (-1))
    as (_ & R & _).
  rewrite Hmax, Forall_forall in R. unfold deployed_services in Hb. rewrite elem_of_list_to_set in Hb.
  pose proof (R (weight g v b)) as Hle.
  assert (is_index g b) as Hbi.
  { apply list_elem_of_omap in Hb as (p & _ & Hp). by eapply service_of_index. }
  pose proof (gw_edges g W v b Hv Hbi). unfold weight in *. enough (Z.max (E g v b) (E g b v) <= -1) by lia.
  apply Hle, list_elem_of_In, in_map_iff. exists b. split; [done|]. by apply list_elem_of_In.
Qed.

(** C27. MHice's score of a node is a legal score, from 0 to 100, in whatever
    order the maps are visited: for pods outside the graph, for pods that
    call deployed ones, and for the first pod of an application, provided it
    asks for no more than what is free on the node. *)
Theorem MHice_Score_range snap pod nodeName n node :
  SN_Get snap nodeName = inl n -> ni_node n = Some node ->
  Forall (fun n => is_Some (ni_node n)) (SN_List snap) ->
  (forall v, service_of g pod = Some v ->
     (forall d, d ∈ deployed_services g (snapshot_pods snap) -> weight g v d = -1) ->
     fits_free pod n (perf (Labels pod) kb_label) (perf (node_Labels node) kj_label)) ->
  exists s, Score (mkMHice g t) snap pod nodeName = Ret (s, None) /\ 0 <= s <= 100.
Proof.
  intros Hget Hnode Hall Hfits. unfold Score. cbn [ServiceGraph Toplogy].
  destruct (service_of g pod) as [v|] eqn:Hv; [|exists 100; split; [done|lia]].
  pose proof (service_of_index g W _ _ Hv) as Hvi.
  destruct (deployed_pods_ok v snap Hvi Hall) as (d & -> & Hd). cbn [obind].
  rewrite Hget, Hnode. destruct (Z.eqb_spec (dp_maxEdge d) (-1)) as [Hmax|Hmax].
  - eexists. split; [done|]. apply first_score_range.
    apply (Hfits v); [done|]. by apply (first_deployment v snap d).
  - destruct Hd as (_ & Hc1 & Hc2).
    destruct (delay_loop nodeName (E g v) (callDeployedPod d)
      (range 0 (map snd (map_to_list (callDeployedPod d)))) (S754_zero false, get0 (Node_index t) nodeName)
      (fun i => edge g v i)) as (r1 & -> & Hr1); [|done|apply range_perm|done|].
    { intros b Hb. rewrite edge_ok by done. split; [done|]. by apply gw_edges. }
    cbn [obind].
    destruct (delay_loop nodeName (fun b => E g b v) (calledByDeployedPod d)
      (range 1 (map snd (map_to_list (calledByDeployedPod d)))) (S754_zero false, get0 (Node_index t) nodeName)
      (fun i => edge g i v)) as (r2 & -> & Hr2); [|done|apply range_perm|done|].
    { intros b Hb. rewrite edge_ok by done. split; [done|]. by apply gw_edges. }
    cbn [obind]. eexists. split; [done|]. by apply delay_score_range.
Qed.
End score.

(** ** The generated graph *)

(** The graph [New] builds; [edges_of] lists the edges a row at a time. *)
Definition boutique : MicroServiceGraph :=
  match GenerateServiceGraph with Ret g => g | Panic _ => mkGraph ∅ ∅ 0 end.

Definition boutique_topology : NetworkToplogy :=
  match GenerateNetworkToplogy with Ret t => t | Panic _ => mkToplogy ∅ ∅ ∅ end.

Lemma New_boutique : New = Ret (mkMHice boutique boutique_topology).
Proof. vm_compute. reflexivity. Qed.

#[local] Opaque boutique boutique_topology.

Lemma boutique_Num : Num boutique = 11.
Proof. vm_compute. reflexivity. Qed.

Lemma boutique_pairs (p : Z -> Z -> bool) :
  forallb (fun i => forallb (p i) (seqZ 0 11)) (seqZ 0 11) = true ->
  forall i j, is_index boutique i -> is_index boutique j -> p i j = true.
Proof.
  unfold is_index. rewrite boutique_Num. intros H i j Hi Hj.
  apply (forall_seqZ_check (p i) 0 11); [|done].
  by apply (forall_seqZ_check (fun i => forallb (p i) (seqZ 0 11)) 0 11).
Qed.

Lemma boutique_wf : graph_wf boutique.
Proof.
  assert (map_Forall (fun s i => (0 <=? i) && (i <? 11) = true /\
    map_Forall (fun s' i' => i = i' -> s = s') (Vertex boutique)) (Vertex boutique)) as HV
    by (apply (bool_decide_unpack _); vm_compute; exact I).
  constructor.
  - vm_compute. split; discriminate.
  - intros s i Hs. destruct (HV s i Hs) as [H _]. zify_bool. unfold is_index. rewrite boutique_Num. lia.
  - intros s s' i Hs Hs'. destruct (HV s i Hs) as [_ H]. by apply (H s' i Hs').
  - unfold is_index. rewrite boutique_Num. intros i Hi.
    assert (forallb (fun i => existsb (fun e : string * Z => e.2 =? i) (map_to_list (Vertex boutique)))
      (seqZ 0 11) = true) as He by (vm_compute; reflexivity).
    apply (forall_seqZ_check _ 0 11 i) in He; [|done]. cbn beta in He.
    apply existsb_exists in He as ([s j] & Hin & Heq). apply Z.eqb_eq in Heq. simpl in Heq. subst j.
    exists s. by apply elem_of_map_to_list, list_elem_of_In.
  - vm_compute. reflexivity.
  - intros i j Hi Hj.
    pose proof (boutique_pairs (fun i j => (-1 <=? E boutique i j) && (E boutique i j <? 2 ^ 50))
      ltac:(vm_compute; reflexivity) i j Hi Hj) as H. cbn beta in H. zify_bool. lia.
Qed.

Lemma boutique_one_way : one_way boutique.
Proof.
  intros i j Hi Hj.
  pose proof (boutique_pairs (fun i j => (E boutique i j =? -1) || (E boutique j i =? -1))
    ltac:(vm_compute; reflexivity) i j Hi Hj) as H. cbn beta in H.
  apply orb_true_iff in H as [H|H]; apply Z.eqb_eq in H; auto.
Qed.

(** Every service is connected to the frontend (5), at most over the cart (1)
    or the checkout (2). *)
Lemma boutique_connected : connected boutique.
Proof.
  assert (forall i, is_index boutique i -> rtc (linked_services boutique) i 5) as H5.
  { intros i Hi.
    pose proof (forall_seqZ_check (fun i => (i =? 5) || (0 <=? weight boutique i 5)
       || (0 <=? weight boutique i 1) && (0 <=? weight boutique 1 5)
       || (0 <=? weight boutique i 2) && (0 <=? weight boutique 2 5)) 0 11 i
       ltac:(vm_compute; reflexivity)) as H. cbn beta in H.
    specialize (H ltac:(unfold is_index in Hi; rewrite boutique_Num in Hi; lia)).
    assert (is_index boutique 1 /\ is_index boutique 2 /\ is_index boutique 5) as (I1 & I2 & I5)
      by (unfold is_index; rewrite boutique_Num; lia).
    repeat (rewrite orb_true_iff in H). rewrite !andb_true_iff, !Z.leb_le, Z.eqb_eq in H.
    destruct H as [[[-> |H]|[H H']]|[H H']].
    - apply rtc_refl.
    - apply rtc_once. exact (conj Hi (conj I5 H)).
    - apply (rtc_l _ i 1 5); [|apply rtc_once]; [exact (conj Hi (conj I1 H))|exact (conj I1 (conj I5 H'))].
    - apply (rtc_l _ i 2 5); [|apply rtc_once]; [exact (conj Hi (conj I2 H))|exact (conj I2 (conj I5 H'))]. }
  intros i j Hi Hj. etransitivity; [exact (H5 i Hi)|].
  assert (Symmetric (linked_services boutique)) as Hsym.
  { intros a b (Ha & Hb & Hw). rewrite weight_comm in Hw. exact (conj Hb (conj Ha Hw)). }
  symmetry. exact (H5 j Hj).
Qed.

(** ** Examples *)

Definition service_pod (name svc node : string) (requests : ResourceList) : Pod :=
  mkPod name "default" name "1" None {[app_label := svc]} None
    (mkPodSpec [sample_container name "image" requests requests] [] None node
       "kubehice-scheduler" None [] None [] ∅ [] None)
    (mkPodStatus [] "" None).

Definition service_node (name : string) : Node :=
  mkNode name ∅ [] false
    {[ ResourcePods := NewQuantity 110 DecimalSI; ResourceCPU := NewMilliQuantity 4000 DecimalSI;
       ResourceMemory := NewQuantity 1000 BinarySI ]} [] [].

Definition service_snapshot (pods : list Pod) : Snapshot :=
  (NewSnapshot (arch := amd64) (gates := gates_default) pods
     [service_node "cloud-master"; service_node "ubuntu"] empty_world).1.

Definition catalog_deployed : Snapshot :=
  service_snapshot [service_pod "catalog-1" "productcatalogservice" "ubuntu" ∅].

Definition frontend_pod : Pod := service_pod "frontend-1" "frontend" "" ∅.
Definition recommendation_pod : Pod := service_pod "recommendation-1" "recommendationservice" "" ∅.

Definition boutique_plugin : MHice := mkMHice boutique boutique_topology.

(** The queue and PreFilter of MHice disagree: with the product catalogue
    deployed, the queue hands out the recommendation service before the
    frontend, and PreFilter then refuses the former and would admit the
    latter.  (The comment on Less says that the pod with the larger call has
    the higher priority.) *)
Theorem MHice_queue_disagrees :
  let _ := range_id in
  Less boutique_plugin catalog_deployed recommendation_pod frontend_pod = Ret true /\
  Less boutique_plugin catalog_deployed frontend_pod recommendation_pod = Ret false /\
  (exists e, PreFilter boutique_plugin catalog_deployed recommendation_pod
             = Ret (Some (NewStatus Error [e]))) /\
  PreFilter boutique_plugin catalog_deployed frontend_pod = Ret None.
Proof. split_and!; [vm_compute; reflexivity..|eexists; vm_compute; reflexivity|vm_compute; reflexivity]. Qed.

(** With the advertisements deployed, which only the frontend calls, a pod of
    the product catalogue passes PreFilter, since no service has more traffic,
    although it has no call to a deployed service.  (The comment on PreFilter
    says that such a pod is refused and waits.) *)
Definition ads_deployed : Snapshot := service_snapshot [service_pod "ads-1" "adservice" "ubuntu" ∅].
Definition catalog_pod : Pod := service_pod "catalog-1" "productcatalogservice" "" ∅.

Theorem busiest_service_jumps :
  let _ := range_id in
  PreFilter boutique_plugin ads_deployed catalog_pod = Ret None /\
  elements (deployed_services boutique (snapshot_pods ads_deployed)) = [0] /\
  service_of boutique catalog_pod = Some 7 /\ weight boutique 0 7 = -1.
Proof. vm_compute. split_and!; reflexivity. Qed.

(** A pod of an application that the graph does not know counts as the
    service with index 0. *)
Example unknown_service_counts :
  neighborExistedServiceEdgeWeight (service_snapshot [service_pod "web-1" "nginx" "ubuntu" ∅])
    frontend_pod boutique = Ret [1].
Proof. vm_compute. reflexivity. Qed.

(** The memory of the node "ubuntu" is taken. *)
Definition full_snapshot : Snapshot :=
  service_snapshot [service_pod "web-1" "nginx" "ubuntu" {[ResourceMemory := NewQuantity 1000 BinarySI]}].

(** A first pod that asks for no memory divides zero by zero on a node
    with no memory left, and its score is the integer the platform makes of a
    NaN: far below the legal range on amd64, and the best score on arm64. *)
Theorem MHice_full_node_score :
  let _ := range_id in let _ := gates_default in
  let pod := service_pod "frontend-1" "frontend" "" (cpu_request 100) in
  Score (arch := amd64) boutique_plugin full_snapshot pod "ubuntu" = Ret (-9223372036854775708, None) /\
  Score (arch := arm64) boutique_plugin full_snapshot pod "ubuntu" = Ret (100, None) /\
  Score (arch := amd64) boutique_plugin full_snapshot pod "cloud-master" = Ret (98, None).
Proof. split_and!; vm_compute; reflexivity. Qed.

(** ** Witnesses *)

Lemma boutique_node_index a : 0 <= get0 (Node_index boutique_topology) a < 6.
Proof.
  assert (map_Forall (fun _ i => (0 <=? i) && (i <? 6) = true) (Node_index boutique_topology)) as H
    by (apply (bool_decide_unpack _); vm_compute; exact I).
  unfold get0. destruct (Node_index boutique_topology !! a) as [i|] eqn:Ha; simpl; [|lia].
  apply H in Ha. zify_bool. lia.
Qed.

Definition entry (a : array2 float64) (i j : Z) : float64 := default (S754_zero false) (a !! (i, j)).
Definition positive_float (x : float64) : bool :=
  match x with S754_finite false _ _ => true | _ => false end.
Definition zero_float (x : float64) : bool :=
  match x with S754_zero _ => true | _ => false end.

Lemma boutique_topology_pairs (p : Z -> Z -> bool) a b :
  forallb (fun i => forallb (p i) (seqZ 0 6)) (seqZ 0 6) = true ->
  p (get0 (Node_index boutique_topology) a) (get0 (Node_index boutique_topology) b) = true.
Proof.
  intros H. pose proof (boutique_node_index a). pose proof (boutique_node_index b).
  apply (forall_seqZ_check (p _) 0 6); [|lia].
  apply (forall_seqZ_check (fun i => forallb (p i) (seqZ 0 6)) 0 6); [done|lia].
Qed.

Lemma boutique_topology_wf : topology_wf boutique_topology.
Proof.
  constructor.
  - intros a. pose proof (boutique_node_index a). lia.
  - intros a b. assert (positive_float (entry (Bandwidth boutique_topology)
      (get0 (Node_index boutique_topology) a) (get0 (Node_index boutique_topology) b)) = true) as H.
    { apply (boutique_topology_pairs (fun i j => positive_float (entry (Bandwidth boutique_topology) i j))).
      vm_compute. reflexivity. }
    unfold entry in H. destruct (default _ _) as [| | |[] m e]; try discriminate H. by exists m, e.
  - intros a b. assert (zero_float (entry (Latency boutique_topology)
      (get0 (Node_index boutique_topology) a) (get0 (Node_index boutique_topology) b)) = true) as H.
    { apply (boutique_topology_pairs (fun i j => zero_float (entry (Latency boutique_topology) i j))).
      vm_compute. reflexivity. }
    unfold entry in H. destruct (default _ _) as [| | |[] m e]; try discriminate H. exact I.
Qed.

Lemma PreFilter_prim_witness :
  exists st, PreFilter (mr := range_rev) boutique_plugin catalog_deployed frontend_pod = Ret st /\
    (st = None <-> prim_next boutique (deployed_services boutique (snapshot_pods catalog_deployed)) 5).
Proof.
  destruct (PreFilter_prim (mr := range_rev) boutique boutique_topology catalog_deployed frontend_pod 5
    boutique_wf boutique_one_way ltac:(vm_compute; reflexivity)) as (st & H & _ & Hp).
  - apply (bool_decide_unpack _). vm_compute. exact I.
  - exists st. split; [exact H|]. apply Hp. right. left. exists 7. split; [apply (bool_decide_unpack _); vm_compute; exact I|].
    vm_compute. discriminate.
Defined.

Lemma PreFilter_progress_witness :
  exists s v, Vertex boutique !! s = Some v /\
    forall pod, label (Labels pod) app_label = s ->
      PreFilter (mr := range_rev) boutique_plugin catalog_deployed pod = Ret None.
Proof.
  destruct (PreFilter_progress (mr := range_rev) boutique boutique_topology catalog_deployed
    boutique_wf boutique_one_way boutique_connected) as (s & v & H1 & _ & H2).
  - exists 5. split; [unfold is_index; rewrite boutique_Num; lia|].
    apply (bool_decide_unpack _). vm_compute. exact I.
  - exists s, v. split; [exact H1|exact H2].
Defined.

(** Every service deployed once. *)
Definition all_deployed : Snapshot :=
  service_snapshot (map (fun s => service_pod s.1 s.1 "ubuntu" ∅) services).

Definition deployed_b (i : Z) : bool :=
  bool_decide (i ∈ deployed_services boutique (snapshot_pods all_deployed)).

Lemma PreFilter_refuses_replicas_witness :
  exists e, PreFilter (mr := range_id) boutique_plugin all_deployed frontend_pod
            = Ret (Some (NewStatus Error [e])).
Proof.
  apply (PreFilter_refuses_replicas (mr := range_id) boutique boutique_topology all_deployed frontend_pod 5
    boutique_wf boutique_one_way).
  - vm_compute. reflexivity.
  - unfold is_index. rewrite boutique_Num. intros i Hi.
    assert (forallb deployed_b (seqZ 0 11) = true) as H by (vm_compute; reflexivity).
    apply (forall_seqZ_check deployed_b 0 11 i) in H; [|exact Hi].
    unfold deployed_b in H. by apply bool_decide_eq_true in H.
  - exists 1. split; [unfold is_index; rewrite boutique_Num; lia|]. vm_compute. discriminate.
Defined.

Lemma MHice_Less_order_witness :
  Less (mr := range_rev) boutique_plugin catalog_deployed frontend_pod frontend_pod = Ret true.
Proof.
  apply (MHice_Less_order (mr := range_rev) boutique boutique_topology catalog_deployed
    boutique_wf boutique_one_way).
  exists 100, 5, (service_pod "catalog-1" "productcatalogservice" "ubuntu" ∅), "productcatalogservice"%string.
  split_and!; [vm_compute; reflexivity|vm_compute; left|vm_compute; reflexivity|lia|].
  right. vm_compute. reflexivity.
Defined.

Lemma MHice_Score_range_witness :
  exists s, Score (arch := amd64) (gates := gates_default) (mr := range_rev)
    boutique_plugin full_snapshot frontend_pod "cloud-master" = Ret (s, None) /\ 0 <= s <= 100.
Proof.
  destruct (SN_Get full_snapshot "cloud-master") as [n|] eqn:Hn; [|discriminate Hn].
  destruct (ni_node n) as [node|] eqn:Hnode; [|apply SN_Get_Some in Hn as [_ [? ?]]; congruence].
  apply (MHice_Score_range (arch := amd64) (gates := gates_default) (mr := range_rev)
    boutique boutique_topology boutique_wf boutique_topology_wf full_snapshot frontend_pod
    "cloud-master" n node Hn Hnode).
  - apply (bool_decide_unpack _). vm_compute. exact I.
  - intros v _ _. vm_compute in Hn. injection Hn as <-. injection Hnode as <-.
    vm_compute. repeat split; discriminate.
Defined.
